(* ===== verification/_CoqProject ===== *)
-Q . S2P
Prelude.v
ByteOrder.v
MyBit.v
SqlBitmap.v
Privilege.v
SqlList.v
SqlListSort.v
SqlIList.v
SqlPList.v
SqlError.v
SqlTypeInt.v
SqlLifoBuffer.v
SqlDateMode.v
SqlTemporal.v
SqlTime.v
SqlString.v
CDouble.v
SqlWindow.v
SqlStatistics.v
SqlHashFilo.v
SqlTranxAlloc.v
SqlArray.v
SqlJsonWriter.v
SqlThreadCache.v
SqlLexInput.v
SqlQueryTables.v
SqlSelectTree.v
SqlRange.v
SqlAsync.v
SqlFilesort.v
SqlBoundedQueue.v
SqlClock.v
SqlFixedBin.v
SqlSpatial.v
SqlTrans.v
SqlSession.v
SqlInList.v
SqlField.v
SqlMdl.v
SqlHandler.v
SqlLooseScan.v
SqlStoreKey.v
CString.v
SqlWsrepAddress.v
SqlWsrepGtid.v
SqlWsrep.v
SqlPartition.v
SqlXaEvent.v
SqlLogEvent.v
SqlItem.v
