(* ===== verification/Prelude.v ===== *)
(** Verification of the data structures and value types of the MariaDB server headers
    that this repository ships under [src/mariadb-fp/include/mysql/server].

    * The program

    The repository is a library-management application: a PHP back office
    ([src/bbl_articles]), an Angular front office ([src/front_articles]) and the
    MariaDB distribution that both of them store their data in
    ([src/mariadb-fp]).  The source that is there as C and C++ is the server's
    headers.  Most of the 442 headers declare functions whose bodies are compiled
    elsewhere; the code that is itself in the headers is the server's base layer:
    byte formats, bit sets, lists, strings, buffers and caches, and the value
    types of SQL (integers, times, privileges, conditions, window functions).
    That layer is what the development models.  All paths below are relative to
    the directory above.

    * The files

    - [Prelude] (this file): notations of C expressions, machine integers
      ([uwrap], [swrap]: the conversions to [w]-bit types), the tactics
      [lia_mod] and [nia_mod], bit and list lemmas that the other files share.
    - [ByteOrder]: [byte_order_generic.h] (module [Generic]),
      [byte_order_generic_x86_64.h] ([X86_64]) and [private/myisampack.h]
      ([MyISAM]).  Each [intNstore]/[uintNkorr] is a function on a list of bytes
      with an offset.
    - [MyBit]: [private/my_bit.h].
    - [SqlBitmap]: [Table_map_iterator] and [Bitmap<width>] of
      [private/sql_bitmap.h]; a bitmap is the array of 64-bit words.
    - [Privilege]: [private/privilege.h], the privilege sets and the fixed
      tables of rights, with the packing of a set for the tables [db],
      [tables_priv], [columns_priv] and [procs_priv].
    - [SqlList], [SqlListSort], [SqlIList]: the lists of [private/sql_list.h]
      over a store of nodes: [base_list] with its iterator, [List] with
      [bubble_sort], [ilink], [base_ilist], [I_List], [SQL_I_List].
    - [SqlPList]: [I_P_List] of [private/sql_plist.h] with its policies.
    - [SqlError]: [private/sql_error.h], conditions, the diagnostics area and
      the stack of [Warning_info] (which is an [SqlPList] list).
    - [SqlTypeInt]: [private/sql_type_int.h], [private/sql_limit.h].
    - [SqlLifoBuffer]: [private/sql_lifo_buffer.h]; [Lifo_buffer] is an abstract
      class in the code and the class [LifoLaws] here.
    - [SqlDateMode]: the modes of [private/sql_basic_types.h].
    - [SqlTemporal], [SqlTime]: [mysql_time.h], [private/my_time.h],
      [private/compat56.h], [private/sql_time.h] and the temporal classes of
      [private/sql_type.h].  [SqlTime] uses [SqlTemporal] and [SqlDateMode].
    - [SqlString]: [private/sql_string.h] over a heap of blocks.
    - [CDouble]: [double] as IEEE 754 binary64, with bounds on its rounding.
    - [SqlWindow]: [private/item_windowfunc.h], over [CDouble].
    - [SqlStatistics]: [private/sql_statistics.h], over [ByteOrder] and [CDouble].
    - [SqlHashFilo]: [private/hash_filo.h].
    - [SqlTranxAlloc]: [Tranx_node_allocator] of [private/semisync_master.h], over a
      heap of blocks.
    - [SqlArray]: [private/mem_root_array.h] and [private/sql_array.h]; an array
      owns a block of cells and a view shares one.
    - [SqlJsonWriter]: [private/my_json_writer.h]; [Json_writer] itself is only
      declared and is the class of operations of the writer.
    - [SqlThreadCache]: [private/thread_cache.h] as the interleavings of the steps
      of any number of calls.
    - [SqlLexInput]: [Lex_string] and [Lex_input_stream] of [private/sql_lex.h], the
      text being scanned, the pre-processed copy of it and the tokens.
    - [SqlQueryTables]: [Query_tables_list] of [private/sql_lex.h], the tables of a
      statement and the flags that make it unsafe for the binary log.
    - [SqlSelectTree]: the links between SELECTs and the stack of SELECTs of the
      parser, of [private/sql_lex.h].
    - [SqlRange]: [SEL_ARG] and [QUICK_RANGE] of [private/opt_range.h].
    - [SqlAsync]: [thd_async_state] of [private/sql_class.h], the suspension of a
      statement while other threads finish operations for it.
    - [SqlFilesort]: [private/filesort_utils.h] and [private/sql_sort.h], the buffer of records
      being sorted, the layout of a record and the chunks to merge.
    - [SqlBoundedQueue]: [private/bounded_queue.h] over the queue of [private/queues.h].
    - [SqlClock]: the clock and the start times of a session, of [private/sql_class.h].
    - [SqlFixedBin]: [private/sql_type_fixedbin.h] and its storage, the data types with a
      fixed-size binary format.
    - [SqlSpatial]: [MBR] and the reading of points of [private/spatial.h], and the tokens of
      [private/gstream.h], over the doubles of [CDouble].
    - [SqlTrans]: the transactions of [private/handler.h] ([THD_TRANS], [Ha_trx_info], [XID]) and
      what a session does with them.
    - [SqlSession]: intervals of generated numbers and options of statements
      ([private/structs.h]), and of [private/sql_class.h] the generated identifiers, killing,
      the format of the binary log, waiting for commits, prepared statements and names.
    - [SqlInList]: the comparators of [IN] and [CASE] of [private/item_cmpfunc.h]
      ([Predicant_to_list_comparator], [cmp_item]).
    - [SqlField]: columns in records, of [private/field.h]: null bits, extremes, packed values,
      the lengths and pointers of VARCHAR and BLOB.
    - [SqlMdl]: keys, requests and the wait-for edge of metadata locks, of [private/mdl.h].
    - [SqlHandler]: of [private/handler.h], the scans of an open table over an engine that
      answers as it likes, its counters, what is pushed down to it, and [Cost_estimate].
    - [SqlLooseScan]: [Loose_scan_opt] of [private/opt_subselect.h], over a table whose indexes and costs
      are parameters.
    - [SqlStoreKey]: the keys of lookups, [store_key] of [private/sql_select.h], whose byte [err] is a cell of the
      memory of this file.
    - [CString]: the C library's searches and numbers in strings, for the files below.
    - [SqlWsrepAddress], [SqlWsrepGtid], [SqlWsrep]: the clustering of [private/wsrep_utils.h] (addresses),
      [private/wsrep_mysqld.h] and [private/wsrep_thd.h] (numbers, waiters, the queue of threads, errors), and
      [private/wsrep_trans_observer.h] (the hooks, over a library that answers as it likes).
    - [SqlPartition]: partitions of a history, of [private/partition_info.h]: numbers, names, iterators.
    - [SqlXaEvent], [SqlLogEvent]: of [private/log_event.h], the texts of XA identifiers in their buffers, and the
      events of the binary log: types, one constructor per class with the methods that are in the header, what is
      written, times, buffers, versions, and the vectors of encryption of [private/rpl_constants.h].
    - [SqlItem]: expressions of [private/item.h], [private/item_func.h], [private/item_cmpfunc.h] and [private/item_row.h] in a
      store in which items are shared: walks, the caches of used tables and their update, and whether an expression depends
      on given tables alone.

    The virtual methods, libraries and functions in other source files that a component calls are arguments of its
    definitions.  Where what they answer may depend on what they were asked before, they are functions of the trace of
    the calls, which the theorems are about.

    * Conventions

    An integer is a [Z]; each conversion and each unsigned operation of the code
    that can leave its type has the wrap-around written out.  A pointer is a
    number (or a block and an offset) into an explicit store, and [None] is
    undefined behaviour: an access through an invalid pointer, or an assertion
    ([DBUG_ASSERT]) that fails.  A theorem that concludes [Some] therefore says
    that the code is safe.  An object that a C++ method changes is passed and
    returned.  Code that is not in the repository is a class of operations with
    a second class of laws, each documented behaviour of that code, and every
    such class has an instance, used by the witnesses.

    * The theorems

    - Round trips: stored integers, privileges, packed times, split lists,
      rounding modes and histogram bounds are read back as they were.
    - Refinement: every list, stack, bitmap, string and cache is related to a
      mathematical sequence, stack, set, or list in order of use, and any sequence
      of operations within their contracts stays in the relation, allocations that fail
      included; the contract is part of each theorem and stated with it.
    - Function: sorting sorts and permutes, hybrid arithmetic gives the exact
      sum whenever there is one, adding nanoseconds carries, NTILE distributes,
      percentiles select or interpolate, the tracker marks groups, the bucket
      search finds the bucket.
    - Safety and errors: conversions give valid temporal values; on a failed
      allocation, an invalid argument or a status that forbids the operation the
      result is what the code intends; where it is not, the theorem states what
      happens and the finding says why.
    - Termination: a loop is a [Fixpoint] with fuel, and a theorem that it
      returns a result with the fuel that its caller passes.  The fuel is the
      number of elements of the structure walked through: nodes of the store for
      lists, words of a bitmap, bytes of a buffer, bounds of a histogram; each
      step consumes one, so it is never used up.
    - Concurrency: invariants of every interleaving of the thread cache, that no
      wake-up is lost, that a flush returns, and that two flushes at once may not; and of
      suspending and resuming a statement.
    - Ranges: operations on intervals are those on sets of values, and the endpoints
      of a range over several key parts enclose its rows.
    - Sorting: the buffer packs records and pointers without overlap, what is added to a record
      is read back, the bounded queue keeps the first ones, and comparing the keys of a type
      is comparing its values.
    - Types: a value is stored and read back, or is refused with a warning.
    - Statements: times increase, and a suspended statement is resumed exactly once.
    - Geometry: the relations of rectangles are those of the sets of points, a rectangle is the
      smallest around its points, and points are read inside the data.
    - Transactions: the list of engines is the set that was registered, and merging a statement
      into its transaction is the union; identifiers are stored and read back.
    - Sessions: the waiting list loses exactly the session that is removed, the binary log
      keeps its format, a session is killed with the strongest request, and intervals of
      numbers describe the numbers that were added.
    - Lists of values: IN is the disjunction of its comparisons, and CASE stops where the code stops.
    - Columns: null bits are a set, values keep their place in other records, the extremes bound the values.
    - Metadata locks: keys are equal as the objects are and never overrun their buffer; a locked edge does not change.
    - Tables in engines: for a client that goes by what it was answered no assertion fails and the engine gets its calls in
      the order it is promised; rows are counted in bounds.
    - Plans: a loose scan that is accepted enumerates groups of duplicates, and the cheapest way is saved.
    - Keys of lookups: nulls fail where they must, and the session is left as it was.
    - Clusters: addresses are read back and stay in their buffer, no waiter sleeps over a committed number, numbers of
      transactions increase, the hooks leave the session without an XID, and the client is told of the error that matters.
    - Partitions: new names are the least free run, and numbers are positions.
    - Events: an XID is told by its text, which stays in its buffer; no vector of encryption is used twice; an event
      frees its buffer once and keeps its time; what types and objects say of groups.
    - Expressions: a walk ends and is in post-order, an update makes the caches true and changes nothing when it is
      repeated, and an expression that depends on given tables alone uses no other, but for parts that equalities convert.

    * What is not modelled

    - The PHP and TypeScript applications, vendored JavaScript, compiled
      binaries, data files and SQL scripts: other languages or no source.
    - Headers whose content is declarations, virtual interfaces or accessors of
      server state: most of sessions
      ([sql_class.h], [sql_lex.h]), expressions ([item*.h]),
      columns and tables ([field.h], [table.h]), storage engines (the rest of [handler.h]),
      most of the optimizer's plans, the rest of replication ([log_event.h], [rpl_*.h]),
      stored programs, the performance schema, and the portability layer.  Their
      behaviour is in source files that the repository does not have.
    - Inside the modelled headers: functions that are only declared there (they
      are parameters), conversions to [my_decimal] and to fields, character set
      handlers (parameters), the deletion of objects by [delete], and threads
      except in [SqlThreadCache], [SqlAsync], [SqlMdl] and [SqlWsrepGtid]: the other structures have no locks of their own
      and are used under those of their owners. *)

From Stdlib Require Export ZArith Lia.
From Stdlib Require Export Btauto.
From Stdlib Require Export Init.Byte Strings.Byte.
From stdpp Require Export base tactics list gmap strings numbers sorting.

#[global] Open Scope Z_scope.
Set Warnings "-notation-overridden".

(** * Notations for C expressions *)

Declare Scope c_scope.
Delimit Scope c_scope with C.

(** C's bit operators, on mathematical integers; the width is put on by a cast. *)
Notation "a .& b" := (Z.land a b) (at level 47, left associativity) : c_scope.
Notation "a .| b" := (Z.lor a b) (at level 49, left associativity) : c_scope.
Notation "a .^ b" := (Z.lxor a b) (at level 48, left associativity) : c_scope.
Notation "a .<< n" := (Z.shiftl a n) (at level 46, left associativity) : c_scope.
Notation "a .>> n" := (Z.shiftr a n) (at level 46, left associativity) : c_scope.
#[global] Open Scope c_scope.

(** * Machine integers *)

(** Conversion to an unsigned, resp. two's complement signed, [w]-bit type. *)
Definition uwrap (w z : Z) : Z := z mod 2 ^ w.
Definition swrap (w z : Z) : Z := (z + 2 ^ (w - 1)) mod 2 ^ w - 2 ^ (w - 1).

Abbreviation u8 := (uwrap 8).
Abbreviation u16 := (uwrap 16).
Abbreviation u32 := (uwrap 32).
Abbreviation u64 := (uwrap 64).
Abbreviation s8 := (swrap 8).
Abbreviation s16 := (swrap 16).
Abbreviation s32 := (swrap 32).
Abbreviation s64 := (swrap 64).

(** C's [~x] at an unsigned type of width [w]. *)
Definition unot (w z : Z) : Z := Z.lxor (Z.ones w) (uwrap w z).

(** The value fits the unsigned (signed) type of width [w]. *)
Definition ufits (w z : Z) : Prop := 0 <= z < 2 ^ w.
Definition sfits (w z : Z) : Prop := - 2 ^ (w - 1) <= z < 2 ^ (w - 1).

#[export] Instance ufits_dec w z : Decision (ufits w z).
Proof. unfold ufits. apply _. Defined.
#[export] Instance sfits_dec w z : Decision (sfits w z).
Proof. unfold sfits. apply _. Defined.

(** A C truth value. *)
Definition c_true (z : Z) : bool := negb (z =? 0).
(** [DBUG_ASSERT(b)] before [a]: a failed assertion is undefined behaviour. *)
Definition asserting {A} (b : bool) (a : A) : option A := if b then Some a else None.

Lemma c_true_spec z : c_true z = true <-> z <> 0.
Proof. unfold c_true. destruct (Z.eqb_spec z 0); naive_solver. Qed.
Lemma c_true_false z : c_true z = false <-> z = 0.
Proof. unfold c_true. destruct (Z.eqb_spec z 0); naive_solver. Qed.
Lemma c_true_0 : c_true 0 = false.
Proof. reflexivity. Qed.

Lemma asserting_true {A} b (a : A) : b = true -> asserting b a = Some a.
Proof. by intros ->. Qed.

Lemma uwrap_range w z : 0 <= w -> ufits w (uwrap w z).
Proof. intros. unfold ufits, uwrap. apply Z.mod_pos_bound. lia. Qed.

Lemma uwrap_small w z : ufits w z -> uwrap w z = z.
Proof. apply Z.mod_small. Qed.

Lemma uwrap_uwrap w z : uwrap w (uwrap w z) = uwrap w z.
Proof. unfold uwrap. apply Zmod_mod. Qed.

Lemma ufits_mono v w z : v <= w -> ufits v z -> ufits w z.
Proof.
  unfold ufits. intros Hw [? ?]. split; [done|].
  apply Z.lt_le_trans with (2 ^ v); [done|]. apply Z.pow_le_mono_r; lia.
Qed.

Lemma ufits_uwrap v w z : v <= w -> ufits v z -> ufits v (uwrap w z).
Proof. intros. by rewrite uwrap_small by (by apply ufits_mono with v). Qed.

Lemma swrap_range w z : 0 < w -> sfits w (swrap w z).
Proof.
  intros Hw. unfold sfits, swrap.
  assert (2 ^ w = 2 * 2 ^ (w - 1)) as E.
  { rewrite <- Z.pow_succ_r by lia. f_equal; lia. }
  pose proof (Z.mod_pos_bound (z + 2 ^ (w - 1)) (2 ^ w)). lia.
Qed.

Lemma swrap_small w z : 0 < w -> sfits w z -> swrap w z = z.
Proof.
  intros Hw [? ?]. unfold swrap.
  assert (2 ^ w = 2 * 2 ^ (w - 1)) as E.
  { rewrite <- Z.pow_succ_r by lia. f_equal; lia. }
  rewrite Z.mod_small; lia.
Qed.

Lemma swrap_uwrap w z : swrap w (uwrap w z) = swrap w z.
Proof. unfold swrap, uwrap. by rewrite Zplus_mod_idemp_l. Qed.

Lemma uwrap_swrap w z : 0 < w -> uwrap w (swrap w z) = uwrap w z.
Proof. intros. unfold swrap, uwrap. rewrite Zminus_mod_idemp_l. f_equal; lia. Qed.

(** * Bit-level reasoning *)

Lemma uwrap_testbit w z i : 0 <= w -> Z.testbit (uwrap w z) i = (i <? w) && Z.testbit z i.
Proof.
  intros. unfold uwrap. destruct (Z.ltb_spec i w).
  - by rewrite Z.mod_pow2_bits_low.
  - by rewrite Z.mod_pow2_bits_high.
Qed.

Lemma ufits_testbit w z i : ufits w z -> w <= i -> Z.testbit z i = false.
Proof.
  intros Hz ?. destruct (Z.neg_nonneg_cases w) as [|].
  - unfold ufits in Hz. rewrite Z.pow_neg_r in Hz by done. lia.
  - rewrite <- (uwrap_small w z Hz), uwrap_testbit by done.
    destruct (Z.ltb_spec i w); [lia|done].
Qed.

Lemma testbit_ufits w z : 0 <= w -> 0 <= z ->
  (forall i, w <= i -> Z.testbit z i = false) -> ufits w z.
Proof.
  intros Hw Hz Hi. rewrite <- (Z.mod_small z (2 ^ (Z.max w (Z.log2 z + 1)))).
  - replace (z mod _) with (uwrap w z); [by apply uwrap_range|].
    apply Z.bits_inj'. intros n Hn. rewrite uwrap_testbit by done.
    rewrite Z.testbit_mod_pow2 by lia.
    destruct (Z.ltb_spec n w), (Z.ltb_spec n (Z.max w (Z.log2 z + 1))); try done; try lia.
    simpl. symmetry. by apply Hi.
  - split; [done|]. destruct (decide (z = 0)) as [->|]; [lia|].
    apply Z.lt_le_trans with (2 ^ (Z.log2 z + 1)).
    + apply Z.log2_spec. lia.
    + apply Z.pow_le_mono_r; lia.
Qed.

Lemma unot_testbit w z i : 0 <= w -> Z.testbit (unot w z) i =
  (0 <=? i) && (i <? w) && negb (Z.testbit z i).
Proof.
  intros. unfold unot. rewrite Z.lxor_spec, uwrap_testbit by done.
  rewrite Z.testbit_ones by done.
  destruct (Z.leb_spec 0 i); [by destruct (i <? w), (Z.testbit z i)|].
  rewrite (Z.testbit_neg_r z) by done. by destruct (i <? w).
Qed.

Lemma unot_range w z : 0 <= w -> ufits w (unot w z).
Proof.
  intros. apply testbit_ufits; [done| |].
  - unfold unot. apply Z.lxor_nonneg.
    pose proof (uwrap_range w z ltac:(done)) as [? ?].
    split; [done|intros; rewrite Z.ones_equiv; pose proof (Z.pow_pos_nonneg 2 w); lia].
  - intros i ?. rewrite unot_testbit by done.
    destruct (Z.ltb_spec i w); [lia|by rewrite andb_false_r].
Qed.

Lemma shiftl_testbit a n i : 0 <= i -> Z.testbit (a .<< n) i = (n <=? i) && Z.testbit a (i - n).
Proof.
  intros. rewrite Z.shiftl_spec by done. destruct (Z.leb_spec n i); [done|].
  by rewrite Z.testbit_neg_r by lia.
Qed.

Lemma pow2_testbit n i : 0 <= n -> Z.testbit (2 ^ n) i = (i =? n).
Proof.
  intros. destruct (Z.eqb_spec i n) as [->|].
  - by apply Z.pow2_bits_true.
  - by apply Z.pow2_bits_false.
Qed.

Lemma shiftl_1_l n : 1 .<< n = 2 ^ n.
Proof. apply Z.shiftl_1_l. Qed.

(** The bit rewriting base: every bit operation pushed to [Z.testbit] of atoms. *)
Create Rewrite HintDb c_bits.
#[export] Hint Rewrite
  Z.land_spec Z.lor_spec Z.lxor_spec Z.testbit_0_l Z.ldiff_spec
  (Z.bits_m1 : forall n, 0 <= n -> Z.testbit (-1) n = true)
  Z.lnot_spec Z.shiftr_spec shiftl_testbit Z.testbit_ones uwrap_testbit unot_testbit
  shiftl_1_l pow2_testbit using lia : c_bits.

(** Split on a comparison that occurs in the goal, keeping only possible cases. *)
Ltac c_split_cmp :=
  match goal with
  | |- context [?a <? ?b] => destruct (Z.ltb_spec a b); try lia
  | |- context [?a <=? ?b] => destruct (Z.leb_spec a b); try lia
  | |- context [?a =? ?b] => destruct (Z.eqb_spec a b); try lia
  end.

(** Equality of two integers, bit by bit. *)
Ltac c_bitwise :=
  apply Z.bits_inj'; intros ?i ?Hi;
  do 3 (autorewrite with c_bits; repeat (c_split_cmp; simpl));
  rewrite ?andb_true_r, ?andb_false_r, ?orb_false_r, ?orb_true_r, ?Z.testbit_neg_r by lia;
  try solve [done | f_equal; lia | btauto].

(** Testing one bit with a mask. *)
Lemma land_pow2 a n : 0 <= n -> a .& 2 ^ n = if Z.testbit a n then 2 ^ n else 0.
Proof.
  intros. apply Z.bits_inj'. intros i Hi. autorewrite with c_bits.
  destruct (Z.eqb_spec i n) as [->|]; destruct (Z.testbit a n) eqn:E;
    rewrite ?E, ?andb_true_r, ?andb_false_r, ?pow2_testbit, ?Z.testbit_0_l by done;
    repeat (c_split_cmp; simpl); done.
Qed.

Lemma c_true_land_pow2 a n : 0 <= n -> c_true (a .& 2 ^ n) = Z.testbit a n.
Proof.
  intros. rewrite land_pow2 by done. destruct (Z.testbit a n); [|done].
  apply c_true_spec. apply Z.pow_nonzero; lia.
Qed.

(** Equality of two disjunctions of the same words in any order. *)
Ltac lor_perm :=
  apply Z.bits_inj'; intros ?i ?Hi; rewrite ?Z.lor_spec;
  repeat match goal with
  | |- context [Z.testbit ?a ?i] =>
      destruct (Z.testbit a i); rewrite ?orb_true_r, ?orb_false_r; simpl; [reflexivity|]
  end; reflexivity.

(** Fold sums of literals, such as the ones [Z.shiftl_shiftl] leaves. *)
Ltac c_consts :=
  repeat match goal with
  | |- context [Z.add (Zpos ?a) (Zpos ?b)] =>
      let r := eval vm_compute in (Zpos a + Zpos b) in change (Zpos a + Zpos b) with r
  end.

(** [lia] with division and modulo. *)
Ltac lia_mod := Z.div_mod_to_equations; lia.
Ltac nia_mod := Z.div_mod_to_equations; nia.

Lemma uwrap_lor w a b : 0 <= w -> uwrap w (a .| b) = uwrap w a .| uwrap w b.
Proof. intros. c_bitwise. Qed.

Lemma uwrap_land w a b : 0 <= w -> uwrap w (a .& b) = uwrap w a .& uwrap w b.
Proof. intros. c_bitwise. Qed.

Lemma ufits_land w a b : 0 <= w -> ufits w a -> 0 <= b -> ufits w (a .& b).
Proof.
  intros Hw Ha Hb. apply testbit_ufits; [done|apply Z.land_nonneg; unfold ufits in *; lia|].
  intros i Hi. rewrite Z.land_spec. by rewrite (ufits_testbit w a).
Qed.

Lemma ufits_lor w a b : 0 <= w -> ufits w a -> ufits w b -> ufits w (a .| b).
Proof.
  intros Hw Ha Hb. apply testbit_ufits; [done|apply Z.lor_nonneg; unfold ufits in *; lia|].
  intros i Hi. rewrite Z.lor_spec. by rewrite (ufits_testbit w a), (ufits_testbit w b).
Qed.

Lemma ufits_shiftr w a n : 0 <= n -> ufits w a -> ufits w (a .>> n).
Proof.
  intros Hn [? ?]. unfold ufits. rewrite Z.shiftr_div_pow2 by done.
  assert (0 < 2 ^ n) by (apply Z.pow_pos_nonneg; lia).
  split; [by apply Z.div_pos|].
  apply Z.le_lt_trans with a; [|done]. apply Z.div_le_upper_bound; nia.
Qed.

Lemma ufits_shiftl v w a n : 0 <= n -> v + n <= w -> 0 <= v -> ufits v a -> ufits w (a .<< n).
Proof.
  intros Hn Hw Hv [? ?]. unfold ufits. rewrite Z.shiftl_mul_pow2 by done.
  assert (0 < 2 ^ n) by (apply Z.pow_pos_nonneg; lia).
  split; [nia|]. apply Z.lt_le_trans with (2 ^ v * 2 ^ n); [nia|].
  rewrite <- Z.pow_add_r by lia. apply Z.pow_le_mono_r; lia.
Qed.

Lemma lor_disjoint_add a b n : 0 <= n -> ufits n a -> a .| (b .<< n) = a + b * 2 ^ n.
Proof.
  intros Hn Ha. rewrite <- Z.shiftl_mul_pow2 by done.
  symmetry.
  rewrite Z.add_nocarry_lxor; [|c_bitwise; rewrite (ufits_testbit n a) by (done || lia); done].
  apply Z.lxor_lor. c_bitwise. by rewrite (ufits_testbit n a) by (done || lia).
Qed.

(** * Bytes *)

#[export] Instance byte_eq_dec : EqDecision byte := Byte.byte_eq_dec.
#[export] Instance byte_inhabited : Inhabited byte := populate x00.

(** The value of an [uchar], and the conversion [(uchar) z]. *)
Definition byteZ (b : byte) : Z := Z.of_N (Byte.to_N b).
Definition Zbyte (z : Z) : byte := default x00 (Byte.of_N (Z.to_N (uwrap 8 z))).

Lemma byteZ_range b : ufits 8 (byteZ b).
Proof.
  unfold ufits, byteZ. pose proof (Byte.to_N_bounded b). change (2 ^ 8) with 256. lia.
Qed.

Lemma byteZ_Zbyte z : byteZ (Zbyte z) = uwrap 8 z.
Proof.
  pose proof (uwrap_range 8 z ltac:(lia)) as [? ?]. unfold byteZ, Zbyte.
  destruct (Byte.of_N (Z.to_N (uwrap 8 z))) as [b|] eqn:E; simpl.
  - apply Byte.to_of_N in E. rewrite E. lia.
  - apply Byte.of_N_None_iff in E. change (2 ^ 8) with 256 in *. lia.
Qed.

Lemma Zbyte_byteZ b : Zbyte (byteZ b) = b.
Proof.
  unfold Zbyte. rewrite uwrap_small by apply byteZ_range. unfold byteZ.
  rewrite N2Z.id, Byte.of_to_N. done.
Qed.

#[export] Instance byteZ_inj : Inj (=) (=) byteZ.
Proof. intros a b H. rewrite <- (Zbyte_byteZ a), H. apply Zbyte_byteZ. Qed.

Lemma Zbyte_uwrap w z : 8 <= w -> Zbyte (uwrap w z) = Zbyte z.
Proof.
  intros. apply (inj byteZ). rewrite !byteZ_Zbyte. c_bitwise.
Qed.

#[export] Hint Resolve byteZ_range uwrap_range : core.

(** Facts about all the values of a narrow type, checked by evaluation. *)
Lemma narrow_values w (P : Z -> bool) :
  forallb P (Z.of_nat <$> seq 0 (Z.to_nat (2 ^ w))) = true -> forall x, ufits w x -> P x = true.
Proof.
  intros HP x [H0 H1]. rewrite forallb_forall in HP. apply HP, list_elem_of_In.
  apply list_elem_of_fmap. exists (Z.to_nat x). rewrite elem_of_seq. lia.
Qed.

(** * Lists *)

Lemma list_filter_ext_in {A} (P Q : A -> Prop) `{forall x, Decision (P x)}
    `{forall x, Decision (Q x)} (l : list A) :
  (forall x, x ∈ l -> P x <-> Q x) -> filter P l = filter Q l.
Proof.
  induction l as [|x l IH]; intros E; [done|]. rewrite !filter_cons.
  rewrite IH by (intros; apply E; by right). pose proof (E x ltac:(left)).
  do 2 case_decide; by try tauto.
Qed.

Lemma mjoin_cons {A} (x : list A) (l : list (list A)) : mjoin (x :: l) = x ++ mjoin l.
Proof. reflexivity. Qed.

Lemma filter_none {A} (P : A -> Prop) `{forall x, Decision (P x)} (l : list A) :
  (forall x, x ∈ l -> ~ P x) -> filter P l = [].
Proof.
  induction l as [|x l IH]; intros E; [done|].
  rewrite filter_cons_False by (apply E; left). apply IH. intros; apply E; by right.
Qed.

Lemma filter_seq_sorted (P : nat -> Prop) `{forall i, Decision (P i)} lo n :
  StronglySorted lt (filter P (seq lo n)).
Proof.
  revert lo. induction n as [|n IH]; intros lo; simpl; [constructor|].
  rewrite filter_cons. case_decide; [|apply IH]. constructor; [apply IH|].
  apply Forall_forall. intros i Hi.
  rewrite list_elem_of_filter, elem_of_seq in Hi. lia.
Qed.

(** ** Loops over an array *)

(** [for (i = lo; i < lo + n; i++) a[i] = f(i, a[i]);] *)
Definition for_range {A} `{Inhabited A} (lo n : nat) (f : nat -> A -> A) (a : list A) : list A :=
  foldl (fun a i => <[i := f i (a !!! i)]> a) a (seq lo n).

Section for_range.
Context {A : Type} `{Inhabited A}.
Implicit Types (a : list A) (f : nat -> A -> A).

Lemma length_for_range lo n f a : length (for_range lo n f a) = length a.
Proof.
  unfold for_range. revert lo a. induction n as [|n IH]; intros lo a; simpl; [done|].
  by rewrite IH, length_insert.
Qed.

Lemma for_range_lookup lo n f a j :
  (j < length a)%nat ->
  for_range lo n f a !!! j = if decide (lo <= j < lo + n)%nat then f j (a !!! j) else a !!! j.
Proof.
  unfold for_range. revert lo a. induction n as [|n IH]; intros lo a Hj; simpl.
  { destruct (decide _); [lia|done]. }
  rewrite IH by (by rewrite length_insert). destruct (decide (j = lo)) as [->|].
  - rewrite list_lookup_total_insert_eq by done.
    destruct (decide (S lo <= lo < S lo + n)%nat); [lia|].
    destruct (decide (lo <= lo < lo + S n)%nat); [done|lia].
  - rewrite list_lookup_total_insert_ne by done.
    destruct (decide (S lo <= j < S lo + n)%nat), (decide (lo <= j < lo + S n)%nat); done || lia.
Qed.
End for_range.

Lemma list_eq_total {A} `{Inhabited A} (a b : list A) :
  length a = length b -> (forall j, (j < length a)%nat -> a !!! j = b !!! j) -> a = b.
Proof.
  intros Hl E. apply list_eq_same_length with (length a); [done|done|].
  intros i x y Hi Hx Hy. specialize (E i Hi).
  by rewrite (list_lookup_total_correct a i x), (list_lookup_total_correct b i y) in E.
Qed.

Lemma lookup_total_const {A B} `{Inhabited A, Inhabited B} (w : B) (a : list A) i :
  (i < length a)%nat -> ((fun _ => w) <$> a) !!! i = w.
Proof. intros. by apply (list_lookup_total_fmap (fun _ : A => w)). Qed.

Lemma forallb_seq (P : nat -> bool) lo n :
  forallb P (seq lo n) = true <-> forall i, (lo <= i < lo + n)%nat -> P i = true.
Proof.
  rewrite forallb_forall. split; intros E i Hi; apply E.
  - apply list_elem_of_In, elem_of_seq. lia.
  - by apply list_elem_of_In, elem_of_seq in Hi.
Qed.

Lemma existsb_seq (P : nat -> bool) lo n :
  existsb P (seq lo n) = true <-> exists i, (lo <= i < lo + n)%nat /\ P i = true.
Proof.
  rewrite existsb_exists. split.
  - intros (i & Hi & HP). exists i. by apply list_elem_of_In, elem_of_seq in Hi.
  - intros (i & Hi & HP). exists i. split; [|done]. apply list_elem_of_In, elem_of_seq. lia.
Qed.

(** * The end of a list *)

Lemma exists_last_or_nil {A} (xs : list A) : xs = [] \/ exists ys y, xs = ys ++ [y].
Proof. destruct xs as [|x xs]; [by left|]. right. destruct (exists_last (l := x :: xs)) as (ys & y & E); [done|eauto]. Qed.

Lemma last_app_cons {A} (xs ys : list A) y : last (xs ++ y :: ys) = last (y :: ys).
Proof. rewrite last_app. destruct (last (y :: ys)) eqn:E; [done|by apply last_None in E]. Qed.

(** * Counting the elements that pass a test *)

Section counting.
Context {A : Type}.
Implicit Types (f : A -> bool) (cs : list A).

Fixpoint count_calls f cs : Z := match cs with [] => 0 | p :: cs => Z.b2z (f p) + count_calls f cs end.

Lemma count_app f cs cs' : count_calls f (cs ++ cs') = count_calls f cs + count_calls f cs'.
Proof. induction cs as [|p cs IH]; cbn [app count_calls]; [lia|]. rewrite IH. lia. Qed.
Lemma count_nonneg f cs : 0 <= count_calls f cs <= Z.of_nat (length cs).
Proof. induction cs as [|p cs IH]; cbn [count_calls length]; [lia|]. destruct (f p); cbn [Z.b2z]; lia. Qed.
Lemma count_insert f cs i p q : cs !! i = Some p -> count_calls f (<[i := q]> cs) = count_calls f cs - Z.b2z (f p) + Z.b2z (f q).
Proof.
  revert i. induction cs as [|r cs IH]; intros [|i] Hi; [done|done| |].
  - injection Hi as ->. cbn. lia.
  - change (<[S i := q]> (r :: cs)) with (r :: <[i := q]> cs). cbn [count_calls]. rewrite (IH i Hi). lia.
Qed.
Lemma count_positive f cs : 0 < count_calls f cs -> exists i p, cs !! i = Some p /\ f p = true.
Proof.
  induction cs as [|p cs IH]; cbn [count_calls]; [lia|]. intros Hp. destruct (f p) eqn:E; [by exists 0%nat, p|].
  destruct IH as (i & q & Hi & Hq); [cbn in Hp; lia|]. by exists (S i), q.
Qed.
Lemma count_in f cs i p : cs !! i = Some p -> f p = true -> 0 < count_calls f cs.
Proof.
  revert i. induction cs as [|q cs IH]; intros i Hi Hf; [done|]. cbn [count_calls]. pose proof (count_nonneg f cs).
  destruct i as [|i]; cbn in Hi; [injection Hi as ->; rewrite Hf; cbn; lia|]. specialize (IH i Hi Hf). destruct (f q); cbn; lia.
Qed.
End counting.

(** * Memory: a byte at every address *)

Definition memory : Type := Z -> byte.
Definition load (m : memory) (p n : Z) : list byte := map (fun i => m (p + Z.of_nat i)) (seq 0 (Z.to_nat n)).
(** [memcpy]: the bytes [bs] at [p]. *)
Definition store_bytes (m : memory) (p : Z) (bs : list byte) : memory :=
  fun a => if (p <=? a) && (a <? p + Z.of_nat (length bs)) then nth (Z.to_nat (a - p)) bs Byte.x00 else m a.

Lemma length_load m p n : 0 <= n -> Z.of_nat (length (load m p n)) = n.
Proof. intros H. unfold load. rewrite length_map, length_seq. lia. Qed.

Lemma load_0 m p : load m p 0 = [].
Proof. done. Qed.

Lemma load_ext m m' p n : (forall a, p <= a < p + n -> m' a = m a) -> load m' p n = load m p n.
Proof.
  intros H. apply List.map_ext_in. intros i Hi. apply in_seq in Hi. apply H. lia.
Qed.

Lemma store_bytes_outside m p bs a : ~ (p <= a < p + Z.of_nat (length bs)) -> store_bytes m p bs a = m a.
Proof.
  intros H. unfold store_bytes. destruct (Z.leb_spec p a), (Z.ltb_spec a (p + Z.of_nat (length bs))); try done. lia.
Qed.

Lemma load_store m p bs n : n = Z.of_nat (length bs) -> load (store_bytes m p bs) p n = bs.
Proof.
  intros ->. unfold load. rewrite Nat2Z.id. apply (List.nth_ext _ _ Byte.x00 Byte.x00); [by rewrite length_map, length_seq|].
  intros i Hi. rewrite length_map, length_seq in Hi.
  rewrite (List.nth_indep _ _ (store_bytes m p bs (p + Z.of_nat 0))) by (by rewrite length_map, length_seq).
  rewrite (List.map_nth (fun i => store_bytes m p bs (p + Z.of_nat i))), seq_nth by done. unfold store_bytes.
  rewrite (proj2 (Z.leb_le _ _)), (proj2 (Z.ltb_lt _ _)) by lia. cbn [andb]. f_equal. lia.
Qed.
