(* ===== verification/ByteOrder.v ===== *)
(** Byte order: reading and writing integers in byte buffers.

    Models [byte_order_generic.h] (module [Generic]), the x86-64 versions of
    [byte_order_generic_x86_64.h] (module [X86_64]) and the high-byte-first
    [mi_...] macros of [private/myisampack.h] (module [MyISAM]).  A buffer is a
    list of bytes, a pointer an offset in it; the macros that store are
    functions from the buffer to the updated buffer. *)

From S2P Require Import Prelude.

Implicit Types (buf : list byte) (T : nat) (A : Z).

(** Byte [i] of the buffer, read as an unsigned integer ([uchar]). *)
Definition uc buf (i : nat) : Z := byteZ (buf !!! i).

(** Byte [i] of the buffer set to [z] converted to [uchar]. *)
Definition put buf (i : nat) (z : Z) : list byte := <[i := Zbyte z]> buf.

(** A sequence of byte writes, first one first. *)
Definition wr buf (ws : list (nat * Z)) : list byte := foldl (fun b w => put b w.1 w.2) buf ws.

(** A run of [n] bytes of the buffer, and the numbers they denote. *)
Definition rd (n : nat) buf T : list Z := uc buf <$> seq T n.
Fixpoint le_val (bs : list Z) : Z :=
  match bs with [] => 0 | b :: r => b .| (le_val r .<< 8) end.
Definition be_val (bs : list Z) : Z := le_val (reverse bs).

(** The successive bytes of [A], lowest first (each still to be truncated). *)
Fixpoint le_list (n : nat) A : list Z :=
  match n with O => [] | S n => A :: le_list n (A .>> 8) end.

(** Little-endian machine words, as a cast pointer reads and writes them. *)
Definition load_word (n : nat) buf T : Z := le_val (rd n buf T).
Definition store_word (n : nat) buf T A : list byte := wr buf (zip (seq T n) (le_list n A)).

(** ** The portable macros *)

Module Generic.

Definition sint2korr buf T : Z := s16 (s16 (uc buf T) .| (s16 (uc buf (T + 1)) .<< 8)).
Definition sint3korr buf T : Z :=
  s32 (if c_true (uc buf (T + 2) .& 128)
       then u32 (255 .<< 24) .| u32 (uc buf (T + 2) .<< 16) .| u32 (uc buf (T + 1) .<< 8) .| uc buf T
       else u32 (uc buf (T + 2) .<< 16) .| u32 (uc buf (T + 1) .<< 8) .| uc buf T).
Definition sint4korr buf T : Z :=
  s32 (uc buf T .| u32 (uc buf (T + 1) .<< 8) .| u32 (uc buf (T + 2) .<< 16) .|
       u32 (uc buf (T + 3) .<< 24)).
Definition uint2korr buf T : Z := u16 (uc buf T .| (uc buf (T + 1) .<< 8)).
Definition uint3korr buf T : Z :=
  u32 (uc buf T .| u32 (uc buf (T + 1) .<< 8) .| u32 (uc buf (T + 2) .<< 16)).
Definition uint4korr buf T : Z :=
  u32 (uc buf T .| u32 (uc buf (T + 1) .<< 8) .| u32 (uc buf (T + 2) .<< 16) .|
       u32 (uc buf (T + 3) .<< 24)).
Definition uint5korr buf T : Z :=
  u64 (uc buf T .| u32 (uc buf (T + 1) .<< 8) .| u32 (uc buf (T + 2) .<< 16) .|
       u32 (uc buf (T + 3) .<< 24)) .| u64 (uc buf (T + 4) .<< 32).
Definition uint6korr buf T : Z :=
  u64 (uc buf T .| u32 (uc buf (T + 1) .<< 8) .| u32 (uc buf (T + 2) .<< 16) .|
       u32 (uc buf (T + 3) .<< 24)) .| u64 (uc buf (T + 4) .<< 32) .| u64 (uc buf (T + 5) .<< 40).
Definition uint8korr buf T : Z :=
  u64 (uc buf T .| u32 (uc buf (T + 1) .<< 8) .| u32 (uc buf (T + 2) .<< 16) .|
       u32 (uc buf (T + 3) .<< 24)) .|
  u64 (u64 (uc buf (T + 4) .| u32 (uc buf (T + 5) .<< 8) .| u32 (uc buf (T + 6) .<< 16) .|
       u32 (uc buf (T + 7) .<< 24)) .<< 32).
Definition sint8korr buf T : Z := s64 (uint8korr buf T).

Definition int2store buf T A : list byte :=
  let def_temp := u32 A in
  let buf := put buf T def_temp in
  put buf (T + 1) (def_temp .>> 8).
Definition int3store buf T A : list byte :=
  let buf := put buf T A in
  let buf := put buf (T + 1) (A .>> 8) in
  put buf (T + 2) (A .>> 16).
Definition int4store buf T A : list byte :=
  let buf := put buf T A in
  let buf := put buf (T + 1) (A .>> 8) in
  let buf := put buf (T + 2) (A .>> 16) in
  put buf (T + 3) (A .>> 24).
Definition int5store buf T A : list byte :=
  let buf := put buf T A in
  let buf := put buf (T + 1) (A .>> 8) in
  let buf := put buf (T + 2) (A .>> 16) in
  let buf := put buf (T + 3) (A .>> 24) in
  put buf (T + 4) (A .>> 32).
Definition int6store buf T A : list byte :=
  let buf := put buf T A in
  let buf := put buf (T + 1) (A .>> 8) in
  let buf := put buf (T + 2) (A .>> 16) in
  let buf := put buf (T + 3) (A .>> 24) in
  let buf := put buf (T + 4) (A .>> 32) in
  put buf (T + 5) (A .>> 40).
Definition int8store buf T A : list byte :=
  let def_temp := u32 A in
  let def_temp2 := u32 (A .>> 32) in
  let buf := int4store buf T def_temp in
  int4store buf (T + 4) def_temp2.

End Generic.

(** ** The x86-64 macros: cast pointers on a little-endian machine *)

Module X86_64.

Definition sint2korr buf T : Z := s16 (load_word 2 buf T).
Definition sint3korr buf T : Z :=
  s32 (if c_true (uc buf (T + 2) .& 128)
       then u32 (255 .<< 24) .| u32 (uc buf (T + 2) .<< 16) .| u32 (uc buf (T + 1) .<< 8) .| uc buf T
       else u32 (uc buf (T + 2) .<< 16) .| u32 (uc buf (T + 1) .<< 8) .| uc buf T).
Definition sint4korr buf T : Z := s32 (load_word 4 buf T).
Definition uint2korr buf T : Z := load_word 2 buf T.
Definition uint3korr buf T : Z :=
  u32 (uc buf T .| u32 (uc buf (T + 1) .<< 8) .| u32 (uc buf (T + 2) .<< 16)).
Definition uint4korr buf T : Z := load_word 4 buf T.
Definition uint5korr buf T : Z :=
  let a := load_word 4 buf T in
  let b := uc buf (4 + T) in
  a .| u64 (b .<< 32).
Definition uint6korr buf T : Z :=
  let a := load_word 4 buf T in
  let b := load_word 2 buf (4 + T) in
  a .| u64 (b .<< 32).
Definition uint8korr buf T : Z := load_word 8 buf T.
Definition sint8korr buf T : Z := s64 (load_word 8 buf T).

Definition int2store buf T A : list byte := store_word 2 buf T (u16 A).
Definition int3store buf T A : list byte :=
  let buf := put buf T A in
  let buf := put buf (T + 1) (u32 A .>> 8) in
  put buf (T + 2) (A .>> 16).
Definition int4store buf T A : list byte := store_word 4 buf T (u32 A).
Definition int5store buf T A : list byte :=
  let buf := store_word 4 buf T (u32 A) in
  put buf (T + 4) (A .>> 32).
Definition int6store buf T A : list byte :=
  let buf := store_word 4 buf T (u32 A) in
  store_word 2 buf (T + 4) (u16 (A .>> 32)).
Definition int8store buf T A : list byte := store_word 8 buf T (u64 A).

(** The instruction [bswapq]: reverse the eight bytes of a register. *)
Definition bswapq (v : Z) : Z := le_val (reverse (u8 <$> le_list 8 v)).

Definition mi_uint5korr buf T : Z :=
  let a := load_word 4 buf T in
  let b := uc buf (4 + T) in
  let v := u64 ((a .| u64 (b .<< 32)) .<< 24) in
  bswapq v.
Definition mi_uint6korr buf T : Z :=
  let a := load_word 4 buf T in
  let b := load_word 2 buf (4 + T) in
  let v := u64 ((a .| u64 (b .<< 32)) .<< 16) in
  bswapq v.
Definition mi_uint7korr buf T : Z :=
  let a := load_word 4 buf T in
  let b := load_word 2 buf (4 + T) in
  let c := uc buf (6 + T) in
  let v := u64 ((a .| u64 (b .<< 32) .| u64 (c .<< 48)) .<< 8) in
  bswapq v.
Definition mi_uint8korr buf T : Z := bswapq (load_word 8 buf T).

End X86_64.

(** ** High byte first: the macros of the MyISAM index format *)

Module MyISAM.

Definition mi_sint2korr buf T : Z := s16 (s16 (uc buf (T + 1)) .| (s16 (u16 (uc buf T)) .<< 8)).
Definition mi_sint3korr buf T : Z :=
  s32 (if c_true (uc buf T .& 128)
       then u32 (255 .<< 24) .| u32 (uc buf T .<< 16) .| u32 (uc buf (T + 1) .<< 8) .| uc buf (T + 2)
       else u32 (uc buf T .<< 16) .| u32 (uc buf (T + 1) .<< 8) .| uc buf (T + 2)).
Definition mi_sint4korr buf T : Z :=
  s32 (uc buf (T + 3) .| u32 (uc buf (T + 2) .<< 8) .| u32 (uc buf (T + 1) .<< 16) .|
       u32 (uc buf T .<< 24)).
Definition mi_uint2korr buf T : Z := u16 (uc buf (T + 1) .| (uc buf T .<< 8)).
Definition mi_uint3korr buf T : Z :=
  u32 (uc buf (T + 2) .| u32 (uc buf (T + 1) .<< 8) .| u32 (uc buf T .<< 16)).
Definition mi_uint4korr buf T : Z :=
  u32 (uc buf (T + 3) .| u32 (uc buf (T + 2) .<< 8) .| u32 (uc buf (T + 1) .<< 16) .|
       u32 (uc buf T .<< 24)).
Definition mi_uint5korr buf T : Z :=
  u64 (uc buf (T + 4) .| u32 (uc buf (T + 3) .<< 8) .| u32 (uc buf (T + 2) .<< 16) .|
       u32 (uc buf (T + 1) .<< 24)) .| u64 (uc buf T .<< 32).
Definition mi_uint6korr buf T : Z :=
  u64 (uc buf (T + 5) .| u32 (uc buf (T + 4) .<< 8) .| u32 (uc buf (T + 3) .<< 16) .|
       u32 (uc buf (T + 2) .<< 24)) .|
  u64 (u64 (uc buf (T + 1) .| u32 (uc buf T .<< 8)) .<< 32).
Definition mi_uint7korr buf T : Z :=
  u64 (uc buf (T + 6) .| u32 (uc buf (T + 5) .<< 8) .| u32 (uc buf (T + 4) .<< 16) .|
       u32 (uc buf (T + 3) .<< 24)) .|
  u64 (u64 (uc buf (T + 2) .| u32 (uc buf (T + 1) .<< 8) .| u32 (uc buf T .<< 16)) .<< 32).
Definition mi_uint8korr buf T : Z :=
  u64 (uc buf (T + 7) .| u32 (uc buf (T + 6) .<< 8) .| u32 (uc buf (T + 5) .<< 16) .|
       u32 (uc buf (T + 4) .<< 24)) .|
  u64 (u64 (uc buf (T + 3) .| u32 (uc buf (T + 2) .<< 8) .| u32 (uc buf (T + 1) .<< 16) .|
       u32 (uc buf T .<< 24)) .<< 32).
Definition mi_sint8korr buf T : Z := s64 (mi_uint8korr buf T).

Definition mi_int1store buf T A : list byte := put buf T A.
Definition mi_int2store buf T A : list byte :=
  let def_temp := u32 A in
  let buf := put buf (T + 1) def_temp in
  put buf T (def_temp .>> 8).

Section ulong.

(** The width of [ulong], 32 or 64 depending on the platform. *)
Context (ulong_w : Z).
Abbreviation ulong := (uwrap ulong_w).

Definition mi_int3store buf T A : list byte :=
  let def_temp := ulong A in
  let buf := put buf (T + 2) def_temp in
  let buf := put buf (T + 1) (def_temp .>> 8) in
  put buf T (def_temp .>> 16).
Definition mi_int4store buf T A : list byte :=
  let def_temp := ulong A in
  let buf := put buf (T + 3) def_temp in
  let buf := put buf (T + 2) (def_temp .>> 8) in
  let buf := put buf (T + 1) (def_temp .>> 16) in
  put buf T (def_temp .>> 24).
Definition mi_int5store buf T A : list byte :=
  let def_temp := ulong A in
  let def_temp2 := ulong (A .>> 32) in
  let buf := put buf (T + 4) def_temp in
  let buf := put buf (T + 3) (def_temp .>> 8) in
  let buf := put buf (T + 2) (def_temp .>> 16) in
  let buf := put buf (T + 1) (def_temp .>> 24) in
  put buf T def_temp2.
Definition mi_int6store buf T A : list byte :=
  let def_temp := ulong A in
  let def_temp2 := ulong (A .>> 32) in
  let buf := put buf (T + 5) def_temp in
  let buf := put buf (T + 4) (def_temp .>> 8) in
  let buf := put buf (T + 3) (def_temp .>> 16) in
  let buf := put buf (T + 2) (def_temp .>> 24) in
  let buf := put buf (T + 1) def_temp2 in
  put buf T (def_temp2 .>> 8).
Definition mi_int7store buf T A : list byte :=
  let def_temp := ulong A in
  let def_temp2 := ulong (A .>> 32) in
  let buf := put buf (T + 6) def_temp in
  let buf := put buf (T + 5) (def_temp .>> 8) in
  let buf := put buf (T + 4) (def_temp .>> 16) in
  let buf := put buf (T + 3) (def_temp .>> 24) in
  let buf := put buf (T + 2) def_temp2 in
  let buf := put buf (T + 1) (def_temp2 .>> 8) in
  put buf T (def_temp2 .>> 16).
Definition mi_int8store buf T A : list byte :=
  let def_temp3 := ulong A in
  let def_temp4 := ulong (A .>> 32) in
  let buf := mi_int4store buf (T + 0) def_temp4 in
  mi_int4store buf (T + 4) def_temp3.

End ulong.

End MyISAM.

(** * Properties *)

(** ** Buffers *)

Lemma uc_range buf i : ufits 8 (uc buf i).
Proof. apply byteZ_range. Qed.
#[export] Hint Resolve uc_range : core.

Lemma length_put buf i z : length (put buf i z) = length buf.
Proof. apply length_insert. Qed.

Lemma uc_put_eq buf i z : (i < length buf)%nat -> uc (put buf i z) i = u8 z.
Proof.
  intros. unfold uc, put. rewrite list_lookup_total_insert_eq by done. apply byteZ_Zbyte.
Qed.

Lemma uc_put_ne buf i j z : i <> j -> uc (put buf i z) j = uc buf j.
Proof. intros. unfold uc, put. by rewrite list_lookup_total_insert_ne. Qed.

Lemma put_comm buf i j a b : i <> j -> put (put buf i a) j b = put (put buf j b) i a.
Proof. intros. unfold put. by rewrite list_insert_insert_ne. Qed.

(** Only the low eight bits of a stored value matter. *)
Lemma put_uwrap w buf i z : 8 <= w -> put buf i (uwrap w z) = put buf i z.
Proof. intros. unfold put. by rewrite Zbyte_uwrap. Qed.

Lemma put_uwrap_shiftr w buf i z n :
  0 <= n -> 8 + n <= w -> put buf i (uwrap w z .>> n) = put buf i (z .>> n).
Proof.
  intros. unfold put. f_equal. apply (inj byteZ). rewrite !byteZ_Zbyte. c_bitwise.
Qed.

Lemma put_shiftr_shiftr buf i z n m :
  0 <= n -> 0 <= m -> put buf i ((z .>> n) .>> m) = put buf i (z .>> (n + m)).
Proof. intros. by rewrite Z.shiftr_shiftr. Qed.

(** *** Sequences of writes *)

Lemma length_wr buf ws : length (wr buf ws) = length buf.
Proof.
  revert buf. induction ws as [|w ws IH]; intros buf; simpl; [done|].
  by rewrite IH, length_put.
Qed.

Lemma uc_wr_ne buf ws j : j ∉ ws.*1 -> uc (wr buf ws) j = uc buf j.
Proof.
  revert buf. induction ws as [|[i z] ws IH]; intros buf Hj; csimpl in *; [done|].
  apply not_elem_of_cons in Hj as [??]. rewrite IH by done. by apply uc_put_ne.
Qed.

(** Writes to distinct addresses may be reordered. *)
Lemma wr_perm buf ws ws' : NoDup ws.*1 -> ws ≡ₚ ws' -> wr buf ws = wr buf ws'.
Proof.
  intros Hnd Hp. revert buf Hnd.
  induction Hp as [|[i a] ws ws' Hp IH|[i a] [j b] ws|ws1 ws2 ws3 Hp1 IH1 Hp2 IH2];
    intros buf Hnd; csimpl in *.
  - done.
  - apply IH. by apply NoDup_cons_1_2 in Hnd.
  - rewrite put_comm; [done|]. intros ->. apply NoDup_cons_1_1 in Hnd. set_solver.
  - rewrite IH1 by done. apply IH2. by rewrite <- Hp1.
Qed.

Lemma wr_reverse buf ws : NoDup ws.*1 -> wr buf (reverse ws) = wr buf ws.
Proof. intros. symmetry. apply wr_perm; [done|]. symmetry. apply reverse_Permutation. Qed.

(** *** Runs of bytes *)

Lemma length_le_list n A : length (le_list n A) = n.
Proof. revert A. induction n; intros; simpl; auto. Qed.

Lemma le_list_app n m A : le_list (n + m) A = le_list n A ++ le_list m (A .>> (8 * Z.of_nat n)).
Proof.
  revert A. induction n as [|n IH]; intros A; simpl; [done|].
  rewrite IH. do 3 f_equal. rewrite Z.shiftr_shiftr by lia. f_equal. lia.
Qed.

Lemma le_val_fits bs : Forall (ufits 8) bs -> ufits (8 * Z.of_nat (length bs)) (le_val bs).
Proof.
  induction 1 as [|b bs Hb _ IH]; [by vm_compute|].
  simpl length. rewrite Nat2Z.inj_succ. simpl le_val. apply ufits_lor; [lia| |].
  - apply ufits_mono with 8; [lia|done].
  - apply ufits_shiftl with (8 * Z.of_nat (length bs)); [lia..|done].
Qed.

Lemma le_val_le_list n A : le_val (u8 <$> le_list n A) = uwrap (8 * Z.of_nat n) A.
Proof.
  revert A. induction n as [|n IH]; intros A; simpl.
  - unfold uwrap. by rewrite Z.mod_1_r.
  - rewrite IH. c_bitwise.
Qed.

Lemma le_val_app bs cs :
  le_val (bs ++ cs) = le_val bs .| (le_val cs .<< (8 * Z.of_nat (length bs))).
Proof.
  induction bs as [|b bs IH]; simpl.
  - by rewrite Z.shiftl_0_r.
  - rewrite IH, Z.shiftl_lor, Z.shiftl_shiftl, Z.lor_assoc by lia. do 2 f_equal. lia.
Qed.

Lemma le_list_le_val bs : Forall (ufits 8) bs -> u8 <$> le_list (length bs) (le_val bs) = bs.
Proof.
  induction 1 as [|b bs Hb Hbs IH]; csimpl; [done|]. f_equal.
  - rewrite uwrap_lor by lia. rewrite (uwrap_small 8 b) by done.
    replace (u8 (le_val bs .<< 8)) with 0; [apply Z.lor_0_r|]. c_bitwise.
  - rewrite Z.shiftr_lor, Z.shiftr_shiftl_l by lia.
    replace (b .>> 8) with 0; [by rewrite Z.shiftl_0_r|].
    unfold ufits in Hb. rewrite Z.shiftr_div_pow2 by lia. symmetry. by apply Z.div_small.
Qed.

Lemma length_rd n buf T : length (rd n buf T) = n.
Proof. unfold rd. by rewrite length_fmap, length_seq. Qed.

Lemma rd_fits n buf T : Forall (ufits 8) (rd n buf T).
Proof. apply Forall_fmap, Forall_true. intros. apply byteZ_range. Qed.

Lemma rd_app n m buf T : rd (n + m) buf T = rd n buf T ++ rd m buf (T + n).
Proof. unfold rd. by rewrite seq_app, fmap_app. Qed.

Lemma fst_zip_seq T (zs : list Z) : (zip (seq T (length zs)) zs).*1 = seq T (length zs).
Proof. apply fst_zip. by rewrite length_seq. Qed.

Lemma wr_cons_ne buf T zs i :
  (i < T)%nat -> uc (wr buf (zip (seq T (length zs)) zs)) i = uc buf i.
Proof.
  intros. apply uc_wr_ne. rewrite fst_zip_seq. rewrite elem_of_seq. lia.
Qed.

(** What was written is read back. *)
Lemma rd_wr buf T zs :
  (T + length zs <= length buf)%nat ->
  rd (length zs) (wr buf (zip (seq T (length zs)) zs)) T = u8 <$> zs.
Proof.
  revert buf T. induction zs as [|z zs IH]; intros buf T HT; csimpl in *; [done|].
  unfold rd. csimpl. f_equal.
  - rewrite wr_cons_ne by lia. apply uc_put_eq. lia.
  - apply IH. rewrite length_put. lia.
Qed.

Lemma load_word_fits n buf T : ufits (8 * Z.of_nat n) (load_word n buf T).
Proof.
  unfold load_word. rewrite <- (length_rd n buf T) at 1. apply le_val_fits, rd_fits.
Qed.

Lemma load_store_word n buf T A :
  (T + n <= length buf)%nat -> load_word n (store_word n buf T A) T = uwrap (8 * Z.of_nat n) A.
Proof.
  intros. unfold load_word, store_word.
  pose proof (rd_wr buf T (le_list n A)) as E. rewrite length_le_list in E.
  rewrite E by done. apply le_val_le_list.
Qed.

Lemma store_word_uwrap n w buf T A :
  8 * Z.of_nat n <= w -> store_word n buf T (uwrap w A) = store_word n buf T A.
Proof.
  revert buf T A w. unfold store_word.
  induction n as [|n IH]; intros buf T A w Hw; simpl; [done|].
  rewrite put_uwrap by lia.
  replace (uwrap w A .>> 8) with (uwrap (w - 8) (A .>> 8)); [apply IH; lia|c_bitwise].
Qed.

Lemma store_word_app n m buf T A :
  store_word m (store_word n buf T A) (T + n) (A .>> (8 * Z.of_nat n)) = store_word (n + m) buf T A.
Proof.
  unfold store_word. rewrite le_list_app, seq_app, zip_with_app.
  - unfold wr. by rewrite foldl_app.
  - by rewrite length_seq, length_le_list.
Qed.

Lemma length_store_word n buf T A : length (store_word n buf T A) = length buf.
Proof. apply length_wr. Qed.

Lemma uc_store_word_ne n buf T A j :
  (j < T \/ T + n <= j)%nat -> uc (store_word n buf T A) j = uc buf j.
Proof.
  intros. unfold store_word. apply uc_wr_ne.
  rewrite <- (length_le_list n A) at 1. rewrite fst_zip_seq, length_le_list, elem_of_seq. lia.
Qed.

(** ** The reading macros denote the numbers of the format *)

Lemma uwrap_shiftl_byte w a n : 0 <= n -> 8 + n <= w -> ufits 8 a -> uwrap w (a .<< n) = a .<< n.
Proof. intros. apply uwrap_small. by apply ufits_shiftl with 8; try lia. Qed.

Lemma uwrap_byte w a : 8 <= w -> ufits 8 a -> uwrap w a = a.
Proof. intros. apply uwrap_small. by apply ufits_mono with 8. Qed.

Lemma swrap_byte w a : 9 <= w -> ufits 8 a -> swrap w a = a.
Proof.
  intros Hw [Ha Hb]. apply swrap_small; [lia|]. unfold sfits.
  assert (2 ^ 8 <= 2 ^ (w - 1)) by (apply Z.pow_le_mono_r; lia). lia.
Qed.

Create Rewrite HintDb korr_norm.
#[export] Hint Rewrite uwrap_lor uwrap_shiftl_byte uwrap_byte swrap_byte uwrap_uwrap
  Z.shiftl_lor Z.shiftl_shiftl Z.lor_0_r Z.lor_assoc Nat.add_succ_r Nat.add_0_r
  using (first [lia | apply byteZ_range | apply ufits_uwrap; [lia | apply byteZ_range]]) : korr_norm.

(** Normalise both sides to a disjunction of shifted bytes. *)
Ltac korr_norm :=
  unfold load_word, be_val, rd, uc; cbn [seq fmap list_fmap reverse rev_append le_val Nat.add];
  rewrite ?Z.shiftl_0_l; do 2 autorewrite with korr_norm;
  c_consts.

(** Equality of two such disjunctions, whatever their order. *)
Ltac korr_bits :=
  korr_norm; lor_perm.

Lemma sext24 (v : Z) :
  ufits 24 v ->
  s32 (if 2 ^ 23 <=? v then (255 .<< 24) .| v else v) = swrap 24 v.
Proof.
  intros Hv. destruct (Z.leb_spec (2 ^ 23) v).
  - rewrite Z.lor_comm, lor_disjoint_add by (done || lia).
    unfold swrap, ufits in *. lia_mod.
  - unfold swrap, ufits in *. lia_mod.
Qed.

Lemma top_bit24 (b0 b1 b2 : Z) :
  ufits 8 b0 -> ufits 8 b1 -> ufits 8 b2 ->
  c_true (b2 .& 128) = (2 ^ 23 <=? (b0 .| (b1 .<< 8) .| (b2 .<< 16))).
Proof.
  intros H0 H1 H2. rewrite (lor_disjoint_add b0 b1 8) by (done || lia).
  rewrite lor_disjoint_add by (unfold ufits in *; lia).
  change 128 with (2 ^ 7). rewrite c_true_land_pow2 by lia.
  pose proof (Z.testbit_spec' b2 7 ltac:(lia)) as E. unfold ufits in *.
  destruct (Z.testbit b2 7); simpl in E; symmetry;
    [apply Z.leb_le|apply Z.leb_gt]; lia_mod.
Qed.

Lemma g_uint2korr buf T : Generic.uint2korr buf T = load_word 2 buf T.
Proof. unfold Generic.uint2korr. korr_bits. Qed.
Lemma g_uint3korr buf T : Generic.uint3korr buf T = load_word 3 buf T.
Proof. unfold Generic.uint3korr. korr_bits. Qed.
Lemma g_uint4korr buf T : Generic.uint4korr buf T = load_word 4 buf T.
Proof. unfold Generic.uint4korr. korr_bits. Qed.
Lemma g_uint5korr buf T : Generic.uint5korr buf T = load_word 5 buf T.
Proof. unfold Generic.uint5korr. korr_bits. Qed.
Lemma g_uint6korr buf T : Generic.uint6korr buf T = load_word 6 buf T.
Proof. unfold Generic.uint6korr. korr_bits. Qed.
Lemma g_uint8korr buf T : Generic.uint8korr buf T = load_word 8 buf T.
Proof. unfold Generic.uint8korr. korr_bits. Qed.

Lemma sint3_word (b0 b1 b2 : Z) :
  ufits 8 b0 -> ufits 8 b1 -> ufits 8 b2 ->
  s32 (if c_true (b2 .& 128)
       then u32 (255 .<< 24) .| u32 (b2 .<< 16) .| u32 (b1 .<< 8) .| b0
       else u32 (b2 .<< 16) .| u32 (b1 .<< 8) .| b0) = swrap 24 (b0 .| (b1 .<< 8) .| (b2 .<< 16)).
Proof.
  intros H0 H1 H2. rewrite (top_bit24 b0 b1) by done.
  rewrite <- sext24; cycle 1.
  { apply ufits_lor; [lia|apply ufits_lor; [lia|by apply ufits_mono with 8|]|];
      by apply ufits_shiftl with 8. }
  rewrite !uwrap_shiftl_byte by (done || lia). change (u32 (255 .<< 24)) with (255 .<< 24).
  f_equal. case_match; lor_perm.
Qed.

Lemma g_sint2korr buf T : Generic.sint2korr buf T = swrap 16 (load_word 2 buf T).
Proof. unfold Generic.sint2korr. f_equal. korr_bits. Qed.
Lemma g_sint3korr buf T : Generic.sint3korr buf T = swrap 24 (load_word 3 buf T).
Proof. unfold Generic.sint3korr. rewrite sint3_word by apply byteZ_range. f_equal. korr_bits. Qed.
Lemma g_sint4korr buf T : Generic.sint4korr buf T = swrap 32 (load_word 4 buf T).
Proof. unfold Generic.sint4korr. f_equal. korr_bits. Qed.
Lemma g_sint8korr buf T : Generic.sint8korr buf T = swrap 64 (load_word 8 buf T).
Proof. unfold Generic.sint8korr. by rewrite g_uint8korr. Qed.

Lemma x_uint5korr buf T : X86_64.uint5korr buf T = load_word 5 buf T.
Proof. unfold X86_64.uint5korr. korr_bits. Qed.
Lemma x_uint6korr buf T : X86_64.uint6korr buf T = load_word 6 buf T.
Proof. unfold X86_64.uint6korr. korr_bits. Qed.

(** ** The storing macros write the low bytes of their argument *)

Create Rewrite HintDb korr_store.
#[export] Hint Rewrite put_uwrap put_uwrap_shiftr put_shiftr_shiftr Nat.add_succ_r Nat.add_0_r
  using lia : korr_store.

Ltac store_norm :=
  unfold store_word; cbn [le_list seq zip zip_with wr foldl fst snd Nat.add];
  autorewrite with korr_store; rewrite ?Z.shiftr_shiftr by lia.

Lemma g_int2store buf T A : Generic.int2store buf T A = store_word 2 buf T A.
Proof. unfold Generic.int2store; store_norm. done. Qed.
Lemma g_int3store buf T A : Generic.int3store buf T A = store_word 3 buf T A.
Proof. unfold Generic.int3store; store_norm. done. Qed.
Lemma g_int4store buf T A : Generic.int4store buf T A = store_word 4 buf T A.
Proof. unfold Generic.int4store; store_norm. done. Qed.
Lemma g_int5store buf T A : Generic.int5store buf T A = store_word 5 buf T A.
Proof. unfold Generic.int5store; store_norm. done. Qed.
Lemma g_int6store buf T A : Generic.int6store buf T A = store_word 6 buf T A.
Proof. unfold Generic.int6store; store_norm. done. Qed.
Lemma g_int8store buf T A : Generic.int8store buf T A = store_word 8 buf T A.
Proof.
  unfold Generic.int8store. rewrite !g_int4store, !store_word_uwrap by lia.
  apply (store_word_app 4 4).
Qed.

Lemma x_int2store buf T A : X86_64.int2store buf T A = store_word 2 buf T A.
Proof. apply store_word_uwrap; lia. Qed.
Lemma x_int3store buf T A : X86_64.int3store buf T A = store_word 3 buf T A.
Proof. unfold X86_64.int3store; store_norm. done. Qed.
Lemma x_int4store buf T A : X86_64.int4store buf T A = store_word 4 buf T A.
Proof. apply store_word_uwrap; lia. Qed.
Lemma x_int5store buf T A : X86_64.int5store buf T A = store_word 5 buf T A.
Proof.
  unfold X86_64.int5store. rewrite store_word_uwrap by lia. apply (store_word_app 4 1).
Qed.
Lemma x_int6store buf T A : X86_64.int6store buf T A = store_word 6 buf T A.
Proof.
  unfold X86_64.int6store. rewrite !store_word_uwrap by lia. apply (store_word_app 4 2).
Qed.
Lemma x_int8store buf T A : X86_64.int8store buf T A = store_word 8 buf T A.
Proof. apply store_word_uwrap; lia. Qed.

(** ** High byte first *)

(** The [n] low bytes of [A] written highest first. *)
Definition be_store (n : nat) buf T A : list byte :=
  wr buf (zip (seq T n) (reverse (le_list n A))).

Lemma be_store_reverse n buf T A :
  wr buf (reverse (zip (seq T n) (reverse (le_list n A)))) = be_store n buf T A.
Proof.
  apply wr_reverse. rewrite fst_zip.
  - apply NoDup_seq.
  - by rewrite length_seq, length_reverse, length_le_list.
Qed.

Lemma rd_be_store n buf T A :
  (T + n <= length buf)%nat -> rd n (be_store n buf T A) T = reverse (u8 <$> le_list n A).
Proof.
  intros HT. unfold be_store.
  assert (length (reverse (le_list n A)) = n) as E by by rewrite length_reverse, length_le_list.
  rewrite <- E at 1 2. rewrite rd_wr by (rewrite E; done). by rewrite fmap_reverse.
Qed.

Lemma uc_be_store_ne n buf T A j :
  (j < T \/ T + n <= j)%nat -> uc (be_store n buf T A) j = uc buf j.
Proof.
  intros. unfold be_store. apply uc_wr_ne.
  rewrite fst_zip by (by rewrite length_seq, length_reverse, length_le_list).
  rewrite elem_of_seq. lia.
Qed.

Lemma be_val_be_store n buf T A :
  (T + n <= length buf)%nat -> be_val (rd n (be_store n buf T A) T) = uwrap (8 * Z.of_nat n) A.
Proof.
  intros. unfold be_val. by rewrite rd_be_store, reverse_involutive, le_val_le_list.
Qed.

Lemma be_store_app n m buf T A :
  be_store m (be_store n buf T (A .>> (8 * Z.of_nat m))) (T + n) A = be_store (n + m) buf T A.
Proof.
  unfold be_store. rewrite (Nat.add_comm n m), le_list_app, reverse_app, (Nat.add_comm m n).
  rewrite seq_app, zip_with_app.
  - unfold wr. by rewrite foldl_app.
  - by rewrite length_seq, length_reverse, length_le_list.
Qed.

Lemma le_list_uwrap n w A :
  8 * Z.of_nat n <= w -> Zbyte <$> le_list n (uwrap w A) = Zbyte <$> le_list n A.
Proof.
  revert A w. induction n as [|n IH]; intros A w Hw; csimpl; [done|]. f_equal.
  - apply Zbyte_uwrap. lia.
  - replace (uwrap w A .>> 8) with (uwrap (w - 8) (A .>> 8)); [apply IH; lia|c_bitwise].
Qed.

Lemma wr_Zbyte buf js zs zs' :
  Zbyte <$> zs = Zbyte <$> zs' -> wr buf (zip js zs) = wr buf (zip js zs').
Proof.
  revert buf zs zs'. induction js as [|j js IH]; intros buf [|z zs] [|z' zs'] E;
    csimpl in *; simplify_eq; try done.
  assert (put buf j z = put buf j z') as -> by (unfold put; congruence). by apply IH.
Qed.

Lemma be_store_uwrap n w buf T A :
  8 * Z.of_nat n <= w -> be_store n buf T (uwrap w A) = be_store n buf T A.
Proof.
  intros. apply wr_Zbyte. by rewrite !fmap_reverse, le_list_uwrap.
Qed.

Ltac be_store_norm :=
  rewrite <- be_store_reverse;
  cbn [le_list seq zip zip_with reverse rev_append wr foldl fst snd Nat.add];
  autorewrite with korr_store; rewrite ?Z.shiftr_shiftr by lia; c_consts.

Lemma m_uint2korr buf T : MyISAM.mi_uint2korr buf T = be_val (rd 2 buf T).
Proof. unfold MyISAM.mi_uint2korr. korr_bits. Qed.
Lemma m_uint3korr buf T : MyISAM.mi_uint3korr buf T = be_val (rd 3 buf T).
Proof. unfold MyISAM.mi_uint3korr. korr_bits. Qed.
Lemma m_uint4korr buf T : MyISAM.mi_uint4korr buf T = be_val (rd 4 buf T).
Proof. unfold MyISAM.mi_uint4korr. korr_bits. Qed.
Lemma m_uint5korr buf T : MyISAM.mi_uint5korr buf T = be_val (rd 5 buf T).
Proof. unfold MyISAM.mi_uint5korr. korr_bits. Qed.
Lemma m_uint6korr buf T : MyISAM.mi_uint6korr buf T = be_val (rd 6 buf T).
Proof. unfold MyISAM.mi_uint6korr. korr_bits. Qed.
Lemma m_uint7korr buf T : MyISAM.mi_uint7korr buf T = be_val (rd 7 buf T).
Proof. unfold MyISAM.mi_uint7korr. korr_bits. Qed.
Lemma m_uint8korr buf T : MyISAM.mi_uint8korr buf T = be_val (rd 8 buf T).
Proof. unfold MyISAM.mi_uint8korr. korr_bits. Qed.
Lemma m_sint2korr buf T : MyISAM.mi_sint2korr buf T = swrap 16 (be_val (rd 2 buf T)).
Proof. unfold MyISAM.mi_sint2korr. f_equal. korr_bits. Qed.
Lemma m_sint3korr buf T : MyISAM.mi_sint3korr buf T = swrap 24 (be_val (rd 3 buf T)).
Proof. unfold MyISAM.mi_sint3korr. rewrite sint3_word by apply byteZ_range. f_equal. korr_bits. Qed.
Lemma m_sint4korr buf T : MyISAM.mi_sint4korr buf T = swrap 32 (be_val (rd 4 buf T)).
Proof. unfold MyISAM.mi_sint4korr. f_equal. korr_bits. Qed.
Lemma m_sint8korr buf T : MyISAM.mi_sint8korr buf T = swrap 64 (be_val (rd 8 buf T)).
Proof. unfold MyISAM.mi_sint8korr. by rewrite m_uint8korr. Qed.

Section mi_stores.
Context (ulong_w : Z) (Hulong : 32 <= ulong_w).

Lemma m_int2store buf T A : MyISAM.mi_int2store buf T A = be_store 2 buf T A.
Proof. unfold MyISAM.mi_int2store. be_store_norm. done. Qed.
Lemma m_int3store buf T A : MyISAM.mi_int3store ulong_w buf T A = be_store 3 buf T A.
Proof. unfold MyISAM.mi_int3store. be_store_norm. done. Qed.
Lemma m_int4store buf T A : MyISAM.mi_int4store ulong_w buf T A = be_store 4 buf T A.
Proof. unfold MyISAM.mi_int4store. be_store_norm. done. Qed.
Lemma m_int5store buf T A : MyISAM.mi_int5store ulong_w buf T A = be_store 5 buf T A.
Proof. unfold MyISAM.mi_int5store. be_store_norm. done. Qed.
Lemma m_int6store buf T A : MyISAM.mi_int6store ulong_w buf T A = be_store 6 buf T A.
Proof. unfold MyISAM.mi_int6store. be_store_norm. done. Qed.
Lemma m_int7store buf T A : MyISAM.mi_int7store ulong_w buf T A = be_store 7 buf T A.
Proof. unfold MyISAM.mi_int7store. be_store_norm. done. Qed.
Lemma m_int8store buf T A : MyISAM.mi_int8store ulong_w buf T A = be_store 8 buf T A.
Proof.
  unfold MyISAM.mi_int8store. rewrite Nat.add_0_r, !m_int4store, !be_store_uwrap by lia.
  apply (be_store_app 4 4).
Qed.
End mi_stores.

(** ** Codecs: what a pair of store and read macros promises *)

Record int_codec := IntCodec {
  ic_bytes : nat;
  ic_get : list byte -> nat -> Z;
  ic_put : list byte -> nat -> Z -> list byte
}.

(** In bounds, what is stored is read back truncated to the width, and no other
    byte of the buffer changes. *)
Class IntCodecLaws (c : int_codec) : Prop := {
  codec_get_put buf T A :
    (T + ic_bytes c <= length buf)%nat ->
    ic_get c (ic_put c buf T A) T = uwrap (8 * Z.of_nat (ic_bytes c)) A;
  codec_length buf T A : length (ic_put c buf T A) = length buf;
  codec_frame buf T A j :
    (j < T \/ T + ic_bytes c <= j)%nat -> ic_put c buf T A !!! j = buf !!! j
}.

Definition le_codec n : int_codec := IntCodec n (load_word n) (store_word n).
Definition be_codec n : int_codec := IntCodec n (fun buf T => be_val (rd n buf T)) (be_store n).

#[export] Instance le_codec_laws n : IntCodecLaws (le_codec n).
Proof.
  split; simpl; intros.
  - by apply load_store_word.
  - apply length_store_word.
  - apply (inj byteZ). by apply uc_store_word_ne.
Qed.

#[export] Instance be_codec_laws n : IntCodecLaws (be_codec n).
Proof.
  split; simpl; intros.
  - by apply be_val_be_store.
  - apply length_wr.
  - apply (inj byteZ). by apply uc_be_store_ne.
Qed.

(** Codecs are compared by what their two macros compute. *)
#[export] Instance int_codec_equiv : Equiv int_codec := fun c d =>
  ic_bytes c = ic_bytes d /\
  (forall buf T, ic_get c buf T = ic_get d buf T) /\
  (forall buf T A, ic_put c buf T A = ic_put d buf T A).

#[export] Instance int_codec_equivalence : Equivalence (≡@{int_codec}).
Proof.
  split.
  - by intros c.
  - intros c d (H1 & H2 & H3). by repeat split.
  - intros c d e (H1 & H2 & H3) (K1 & K2 & K3).
    split; [congruence|split; intros]; [by rewrite H2|by rewrite H3].
Qed.

#[export] Instance IntCodecLaws_proper : Proper ((≡) ==> iff) IntCodecLaws.
Proof.
  assert (forall c d, c ≡ d -> IntCodecLaws c -> IntCodecLaws d) as G.
  { intros c d (H1 & H2 & H3) [L1 L2 L3]. split; intros *; rewrite <- ?H1, <- ?H2, <- ?H3; auto. }
  intros c d H. split; apply G; [done|by symmetry].
Qed.

Definition generic_codecs : list int_codec :=
  [IntCodec 2 Generic.uint2korr Generic.int2store; IntCodec 3 Generic.uint3korr Generic.int3store;
   IntCodec 4 Generic.uint4korr Generic.int4store; IntCodec 5 Generic.uint5korr Generic.int5store;
   IntCodec 6 Generic.uint6korr Generic.int6store; IntCodec 8 Generic.uint8korr Generic.int8store].

Definition x86_64_codecs : list int_codec :=
  [IntCodec 2 X86_64.uint2korr X86_64.int2store; IntCodec 3 X86_64.uint3korr X86_64.int3store;
   IntCodec 4 X86_64.uint4korr X86_64.int4store; IntCodec 5 X86_64.uint5korr X86_64.int5store;
   IntCodec 6 X86_64.uint6korr X86_64.int6store; IntCodec 8 X86_64.uint8korr X86_64.int8store].

Definition myisam_codecs (ulong_w : Z) : list int_codec :=
  [IntCodec 2 MyISAM.mi_uint2korr MyISAM.mi_int2store;
   IntCodec 3 MyISAM.mi_uint3korr (MyISAM.mi_int3store ulong_w);
   IntCodec 4 MyISAM.mi_uint4korr (MyISAM.mi_int4store ulong_w);
   IntCodec 5 MyISAM.mi_uint5korr (MyISAM.mi_int5store ulong_w);
   IntCodec 6 MyISAM.mi_uint6korr (MyISAM.mi_int6store ulong_w);
   IntCodec 7 MyISAM.mi_uint7korr (MyISAM.mi_int7store ulong_w);
   IntCodec 8 MyISAM.mi_uint8korr (MyISAM.mi_int8store ulong_w)].

Create HintDb codec.
#[export] Hint Resolve g_uint2korr g_uint3korr g_uint4korr g_uint5korr g_uint6korr g_uint8korr
  g_int2store g_int3store g_int4store g_int5store g_int6store g_int8store
  x_uint5korr x_uint6korr x_int2store x_int3store x_int4store x_int5store x_int6store x_int8store
  m_uint2korr m_uint3korr m_uint4korr m_uint5korr m_uint6korr m_uint7korr m_uint8korr
  m_int2store m_int3store m_int4store m_int5store m_int6store m_int7store m_int8store : codec.

Lemma generic_codecs_le : generic_codecs ≡ le_codec <$> [2; 3; 4; 5; 6; 8]%nat.
Proof. repeat constructor; auto with codec. Qed.

Lemma x86_64_codecs_le : x86_64_codecs ≡ le_codec <$> [2; 3; 4; 5; 6; 8]%nat.
Proof. repeat constructor; auto with codec; intros; by apply g_uint3korr. Qed.

Lemma myisam_codecs_be ulong_w :
  32 <= ulong_w -> myisam_codecs ulong_w ≡ be_codec <$> [2; 3; 4; 5; 6; 7; 8]%nat.
Proof. intros. repeat constructor; simpl; auto with codec. Qed.

Lemma codecs_laws (cs : list int_codec) (f : nat -> int_codec) ns c :
  (forall n, IntCodecLaws (f n)) -> cs ≡ f <$> ns -> c ∈ cs -> IntCodecLaws c.
Proof.
  intros Hf Hcs Hc. apply list_elem_of_lookup in Hc as [i Hi].
  rewrite list_equiv_lookup in Hcs. specialize (Hcs i). rewrite Hi, list_lookup_fmap in Hcs.
  destruct (ns !! i) as [n|]; inversion Hcs as [x y Hxy|]; subst. by rewrite Hxy.
Qed.

(** *** The properties *)

(** Every store/read pair of the three families (portable, x86-64,
    high-byte-first) stores an integer so that it is read back modulo its width,
    keeps the buffer's length, and touches no byte outside its own. *)
Theorem korr_store_roundtrip ulong_w c buf T A :
  32 <= ulong_w ->
  c ∈ generic_codecs ++ x86_64_codecs ++ myisam_codecs ulong_w ->
  (T + ic_bytes c <= length buf)%nat ->
  ic_get c (ic_put c buf T A) T = A mod 2 ^ (8 * Z.of_nat (ic_bytes c)) /\
  length (ic_put c buf T A) = length buf /\
  forall j, (j < T \/ T + ic_bytes c <= j)%nat -> ic_put c buf T A !!! j = buf !!! j.
Proof.
  intros Hw Hc HT. assert (IntCodecLaws c) as L.
  { rewrite !elem_of_app in Hc. destruct Hc as [Hc|[Hc|Hc]].
    - exact (codecs_laws _ _ _ _ _ generic_codecs_le Hc).
    - exact (codecs_laws _ _ _ _ _ x86_64_codecs_le Hc).
    - exact (codecs_laws _ _ _ _ _ (myisam_codecs_be _ Hw) Hc). }
  split; [by apply codec_get_put|split; [apply codec_length|intros; by apply codec_frame]].
Qed.

Lemma korr_store_roundtrip_witness :
  MyISAM.mi_uint3korr (MyISAM.mi_int3store 32 (replicate 5 x00) 1 (-2)) 1 = 16777214.
Proof.
  pose proof (korr_store_roundtrip 32
    (IntCodec 3 MyISAM.mi_uint3korr (MyISAM.mi_int3store 32)) (replicate 5 x00) 1 (-2)) as H.
  refine (proj1 (H _ _ _)).
  - lia.
  - apply elem_of_app; right. apply elem_of_app; right. right. left.
  - simpl. lia.
Defined.

(** The signed readers, each with the store macro of its width. *)
Definition signed_codecs (ulong_w : Z) : list int_codec :=
  [IntCodec 2 Generic.sint2korr Generic.int2store; IntCodec 3 Generic.sint3korr Generic.int3store;
   IntCodec 4 Generic.sint4korr Generic.int4store; IntCodec 8 Generic.sint8korr Generic.int8store;
   IntCodec 2 X86_64.sint2korr X86_64.int2store; IntCodec 3 X86_64.sint3korr X86_64.int3store;
   IntCodec 4 X86_64.sint4korr X86_64.int4store; IntCodec 8 X86_64.sint8korr X86_64.int8store;
   IntCodec 2 MyISAM.mi_sint2korr MyISAM.mi_int2store;
   IntCodec 3 MyISAM.mi_sint3korr (MyISAM.mi_int3store ulong_w);
   IntCodec 4 MyISAM.mi_sint4korr (MyISAM.mi_int4store ulong_w);
   IntCodec 8 MyISAM.mi_sint8korr (MyISAM.mi_int8store ulong_w)].

Lemma swrap_load_store (c : int_codec) (get : list byte -> nat -> Z) w buf T A :
  IntCodecLaws c -> (forall b i, get b i = swrap w (ic_get c b i)) ->
  w = 8 * Z.of_nat (ic_bytes c) -> 0 < w ->
  (T + ic_bytes c <= length buf)%nat -> sfits w A -> get (ic_put c buf T A) T = A.
Proof.
  intros L Hget -> Hw HT HA. rewrite Hget, codec_get_put, swrap_uwrap by done.
  by apply swrap_small.
Qed.

(** A negative number survives the trip through a signed reader: in every
    family the signed reader of a width inverts the store macro of that width on
    the whole two's complement range. *)
Theorem sint_store_roundtrip ulong_w c buf T A :
  32 <= ulong_w ->
  c ∈ signed_codecs ulong_w ->
  (T + ic_bytes c <= length buf)%nat ->
  - 2 ^ (8 * Z.of_nat (ic_bytes c) - 1) <= A < 2 ^ (8 * Z.of_nat (ic_bytes c) - 1) ->
  ic_get c (ic_put c buf T A) T = A.
Proof.
  intros Hw Hc HT HA. unfold signed_codecs in Hc. rewrite !elem_of_cons in Hc.
  destruct_or!; [subst c; simpl in *..|by apply elem_of_nil in Hc];
    rewrite ?g_int2store, ?g_int3store, ?g_int4store, ?g_int8store, ?x_int2store, ?x_int3store,
      ?x_int4store, ?x_int8store, ?m_int2store, ?m_int3store, ?m_int4store, ?m_int8store by done;
    first [ by eapply (swrap_load_store (le_codec _) _ _ buf T A); [apply _|..]; simpl;
              auto using g_sint2korr, g_sint3korr, g_sint4korr, g_sint8korr; lia
          | by eapply (swrap_load_store (be_codec _) _ _ buf T A); [apply _|..]; simpl;
              auto using m_sint2korr, m_sint3korr, m_sint4korr, m_sint8korr; lia ].
Qed.

Lemma sint_store_roundtrip_witness :
  Generic.sint3korr (Generic.int3store (replicate 3 xff) 0 (-8388608)) 0 = -8388608.
Proof.
  apply (sint_store_roundtrip 64 (IntCodec 3 Generic.sint3korr Generic.int3store)).
  - lia.
  - right. left.
  - simpl. lia.
  - vm_compute. split; [discriminate|reflexivity].
Defined.

(** *** The x86-64 versions compute what the portable ones do *)

Lemma le_val_zeros n : le_val (replicate n 0) = 0.
Proof. induction n as [|n IH]; simpl; [done|]. by rewrite IH. Qed.

Lemma bswapq_shl n buf T :
  (n <= 8)%nat ->
  X86_64.bswapq (load_word n buf T .<< (64 - 8 * Z.of_nat n)) = be_val (rd n buf T).
Proof.
  intros Hn. unfold X86_64.bswapq, be_val.
  assert (load_word n buf T .<< (64 - 8 * Z.of_nat n) = le_val (replicate (8 - n) 0 ++ rd n buf T)) as ->.
  { rewrite le_val_app, length_replicate. unfold load_word.
    replace (le_val (replicate (8 - n) 0)) with 0.
    - rewrite Z.lor_0_l. f_equal. lia.
    - by rewrite le_val_zeros. }
  assert (length (replicate (8 - n) 0 ++ rd n buf T) = 8%nat) as E
    by (rewrite length_app, length_replicate, length_rd; lia).
  rewrite <- E at 1. rewrite le_list_le_val.
  - rewrite reverse_app, reverse_replicate, le_val_app.
    by rewrite le_val_zeros, Z.shiftl_0_l, Z.lor_0_r.
  - apply Forall_app; split; [by apply Forall_replicate; vm_compute|apply rd_fits].
Qed.

Lemma load_word_shl_fits n k buf T :
  (n + k = 8)%nat -> u64 (load_word n buf T .<< (8 * Z.of_nat k)) = load_word n buf T .<< (8 * Z.of_nat k).
Proof.
  intros. apply uwrap_small. apply ufits_shiftl with (8 * Z.of_nat n); try lia. apply load_word_fits.
Qed.

Lemma x_mi_uint5korr buf T : X86_64.mi_uint5korr buf T = be_val (rd 5 buf T).
Proof.
  unfold X86_64.mi_uint5korr. fold (X86_64.uint5korr buf T). rewrite x_uint5korr.
  rewrite (load_word_shl_fits 5 3) by done. apply (bswapq_shl 5). lia.
Qed.

Lemma x_mi_uint6korr buf T : X86_64.mi_uint6korr buf T = be_val (rd 6 buf T).
Proof.
  unfold X86_64.mi_uint6korr. fold (X86_64.uint6korr buf T). rewrite x_uint6korr.
  rewrite (load_word_shl_fits 6 2) by done. apply (bswapq_shl 6). lia.
Qed.

Lemma x_mi_uint7korr buf T : X86_64.mi_uint7korr buf T = be_val (rd 7 buf T).
Proof.
  unfold X86_64.mi_uint7korr. fold (X86_64.uint6korr buf T). rewrite x_uint6korr.
  replace (load_word 6 buf T .| u64 (uc buf (6 + T) .<< 48)) with (load_word 7 buf T) by korr_bits.
  rewrite (load_word_shl_fits 7 1) by done. apply (bswapq_shl 7). lia.
Qed.

Lemma x_mi_uint8korr buf T : X86_64.mi_uint8korr buf T = be_val (rd 8 buf T).
Proof.
  unfold X86_64.mi_uint8korr. rewrite <- (bswapq_shl 8) by lia. by rewrite Z.shiftl_0_r.
Qed.

(** The architecture-specific header is an optimisation only: every x86-64
    reader, writer and byte-swapping [mi_] reader returns the same value, and
    leaves the same buffer, as the portable macro it replaces. *)
Theorem x86_64_refines_generic buf T A :
  generic_codecs ≡ x86_64_codecs /\
  (X86_64.sint2korr buf T = Generic.sint2korr buf T /\
   X86_64.sint3korr buf T = Generic.sint3korr buf T /\
   X86_64.sint4korr buf T = Generic.sint4korr buf T /\
   X86_64.sint8korr buf T = Generic.sint8korr buf T) /\
  (X86_64.mi_uint5korr buf T = MyISAM.mi_uint5korr buf T /\
   X86_64.mi_uint6korr buf T = MyISAM.mi_uint6korr buf T /\
   X86_64.mi_uint7korr buf T = MyISAM.mi_uint7korr buf T /\
   X86_64.mi_uint8korr buf T = MyISAM.mi_uint8korr buf T).
Proof.
  rewrite x_mi_uint5korr, x_mi_uint6korr, x_mi_uint7korr, x_mi_uint8korr,
    m_uint5korr, m_uint6korr, m_uint7korr, m_uint8korr, g_sint2korr, g_sint4korr, g_sint8korr.
  split; [by rewrite generic_codecs_le, x86_64_codecs_le|]. repeat split.
Qed.

(** *** High byte first makes [memcmp] the order of the integers *)

(** The C library's [memcmp] on [n] bytes, as an ordering. *)
Fixpoint memcmp (n : nat) (a : list byte) (i : nat) (b : list byte) (j : nat) : comparison :=
  match n with
  | O => Eq
  | S n => match uc a i ?= uc b j with Eq => memcmp n a (S i) b (S j) | c => c end
  end.

Lemma memcmp_cons n (x y : byte) a i b j : memcmp n (x :: a) (S i) (y :: b) (S j) = memcmp n a i b j.
Proof. revert i j. induction n as [|n IH]; intros i j; [done|]. cbn [memcmp]. rewrite IH. done. Qed.
Lemma memcmp_refl n a i : memcmp n a i a i = Eq.
Proof. revert i. induction n as [|n IH]; intros i; [done|]. cbn [memcmp]. by rewrite Z.compare_refl. Qed.
Lemma byteZ_inj x y : byteZ x = byteZ y -> x = y.
Proof. intros H. rewrite <- (Zbyte_byteZ x), <- (Zbyte_byteZ y). by rewrite H. Qed.
Lemma memcmp_take n (a b : list byte) : (n <= length a)%nat -> (n <= length b)%nat -> memcmp n a 0 b 0 = Eq <-> take n a = take n b.
Proof.
  revert a b. induction n as [|n IH]; intros [|x a] [|y b] Ha Hb; cbn [length] in *; try lia; [by rewrite !take_0..|].
  cbn [memcmp take]. change (uc (x :: a) 0) with (byteZ x). change (uc (y :: b) 0) with (byteZ y). rewrite memcmp_cons.
  destruct (Z.compare_spec (byteZ x) (byteZ y)) as [E|E|E].
  - rewrite IH by lia. apply byteZ_inj in E as ->. split; [intros ->|intros [= H]]; done.
  - split; [done|]. intros [= -> _]. lia.
  - split; [done|]. intros [= -> _]. lia.
Qed.

Lemma be_val_cons b bs :
  Forall (ufits 8) bs -> be_val (b :: bs) = be_val bs + b * 2 ^ (8 * Z.of_nat (length bs)).
Proof.
  intros Hbs. unfold be_val. rewrite reverse_cons, le_val_app, length_reverse. simpl.
  rewrite Z.lor_0_r, lor_disjoint_add; [done|lia|].
  rewrite <- length_reverse. apply le_val_fits. by apply Forall_reverse.
Qed.

Lemma be_val_fits bs : Forall (ufits 8) bs -> ufits (8 * Z.of_nat (length bs)) (be_val bs).
Proof.
  intros. unfold be_val. rewrite <- length_reverse. apply le_val_fits. by apply Forall_reverse.
Qed.

Lemma memcmp_be_val n a i b j :
  memcmp n a i b j = (be_val (rd n a i) ?= be_val (rd n b j)).
Proof.
  revert i j. induction n as [|n IH]; intros i j; [done|].
  change (rd (S n) a i) with (uc a i :: rd n a (S i)).
  change (rd (S n) b j) with (uc b j :: rd n b (S j)).
  rewrite !be_val_cons by apply rd_fits. rewrite !length_rd. simpl memcmp. rewrite IH.
  pose proof (be_val_fits _ (rd_fits n a (S i))) as Ha. rewrite length_rd in Ha.
  pose proof (be_val_fits _ (rd_fits n b (S j))) as Hb. rewrite length_rd in Hb.
  unfold ufits in *. destruct (Z.compare_spec (uc a i) (uc b j)) as [->|Hlt|Hgt].
  - destruct (Z.compare_spec (be_val (rd n a (S i))) (be_val (rd n b (S j)))); symmetry;
      [apply Z.compare_eq_iff|apply Z.compare_lt_iff|apply Z.compare_gt_iff]; lia.
  - symmetry. apply Z.compare_lt_iff. nia.
  - symmetry. apply Z.compare_gt_iff. nia.
Qed.

(** Keys written by the [mi_] macros can be compared as byte strings:
    [memcmp] on two stored fields orders them exactly as the unsigned integers
    they came from, whatever else the two buffers hold. *)
Theorem mi_store_memcmp ulong_w c bufA bufB TA TB A B :
  32 <= ulong_w ->
  c ∈ myisam_codecs ulong_w ->
  (TA + ic_bytes c <= length bufA)%nat -> (TB + ic_bytes c <= length bufB)%nat ->
  ufits (8 * Z.of_nat (ic_bytes c)) A -> ufits (8 * Z.of_nat (ic_bytes c)) B ->
  memcmp (ic_bytes c) (ic_put c bufA TA A) TA (ic_put c bufB TB B) TB = (A ?= B).
Proof.
  intros Hw Hc HA HB FA FB.
  assert (exists n, c ≡ be_codec n) as [n (E1 & E2 & E3)].
  { apply list_elem_of_lookup in Hc as [i Hi].
    pose proof (myisam_codecs_be _ Hw) as E. rewrite list_equiv_lookup in E. specialize (E i).
    rewrite Hi, list_lookup_fmap in E.
    destruct (_ !! i) as [n|] in E; inversion E as [x y Hxy|]; subst. by exists n. }
  simpl in *. rewrite E1 in *. rewrite !E3, memcmp_be_val.
  by rewrite !be_val_be_store, !uwrap_small.
Qed.

Lemma mi_store_memcmp_witness :
  memcmp 4 (MyISAM.mi_int4store 64 (replicate 6 x07) 2 256) 2
           (MyISAM.mi_int4store 64 (replicate 4 x00) 0 255) 0 = Gt.
Proof.
  apply (mi_store_memcmp 64 (IntCodec 4 MyISAM.mi_uint4korr (MyISAM.mi_int4store 64))
           (replicate 6 x07) (replicate 4 x00) 2 0 256 255).
  - lia.
  - right. right. left.
  - simpl. lia.
  - simpl. lia.
  - vm_compute. split; [discriminate|reflexivity].
  - vm_compute. split; [discriminate|reflexivity].
Defined.
