(* ===== verification/MyBit.v ===== *)
(** Bit tricks of [private/my_bit.h]: integer logarithm, population count,
    powers of two, bit reversal and the position of the lowest set bit.

    Each function is the C expression on [Z], with the wrap-around of its
    unsigned type written out; the theorems say what it computes. *)

From S2P Require Import Prelude.

(** * Definitions *)

(** The table [_my_bits_reverse_table] is defined outside the sources: every
    definition that reads it takes it as an argument. *)

Definition my_bit_log2_hex_digit (value : Z) : Z :=
  if c_true (value .& 0x0C) then (if c_true (value .& 0x08) then 3 else 2)
  else (if c_true (value .& 0x02) then 1 else 0).
Definition my_bit_log2_uint8 (value : Z) : Z :=
  if c_true (value .& 0xF0) then my_bit_log2_hex_digit (u8 (value .>> 4)) + 4
  else my_bit_log2_hex_digit value.
Definition my_bit_log2_uint16 (value : Z) : Z :=
  if c_true (value .& 0xFF00) then my_bit_log2_uint8 (u8 (value .>> 8)) + 8
  else my_bit_log2_uint8 (u8 value).
Definition my_bit_log2_uint32 (value : Z) : Z :=
  if c_true (value .& 0xFFFF0000) then my_bit_log2_uint16 (u16 (value .>> 16)) + 16
  else my_bit_log2_uint16 (u16 value).
Definition my_bit_log2_uint64 (value : Z) : Z :=
  if c_true (value .& 0xFFFFFFFF00000000) then my_bit_log2_uint32 (u32 (value .>> 32)) + 32
  else my_bit_log2_uint32 (u32 value).
Definition my_bit_log2_size_t (value : Z) : Z := my_bit_log2_uint64 (u64 value).

Definition my_count_bits_uint32 (v : Z) : Z :=
  let v := u32 (v - ((v .>> 1) .& 0x55555555)) in
  let v := u32 ((v .& 0x33333333) + ((v .>> 2) .& 0x33333333)) in
  u32 ((u32 (v + (v .>> 4)) .& 0xF0F0F0F) * 0x1010101) .>> 24.

Definition my_count_bits (x : Z) : Z :=
  u32 (my_count_bits_uint32 (u32 x) + my_count_bits_uint32 (u32 (x .>> 32))).

Definition my_round_up_to_next_power (v : Z) : Z :=
  let v := u32 (v - 1) in
  let v := v .| (v .>> 1) in
  let v := v .| (v .>> 2) in
  let v := v .| (v .>> 4) in
  let v := v .| (v .>> 8) in
  let v := v .| (v .>> 16) in
  u32 (v + 1).

Definition my_clear_highest_bit (v : Z) : Z :=
  let w := v .>> 1 in
  let w := w .| (w .>> 1) in
  let w := w .| (w .>> 2) in
  let w := w .| (w .>> 4) in
  let w := w .| (w .>> 8) in
  let w := w .| (w .>> 16) in
  v .& w.

Definition my_reverse_bits (my_bits_reverse_table : Z -> Z) (key : Z) : Z :=
  u32 (my_bits_reverse_table (key .& 255) .<< 24) .|
  u32 (my_bits_reverse_table ((key .>> 8) .& 255) .<< 16) .|
  u32 (my_bits_reverse_table ((key .>> 16) .& 255) .<< 8) .|
  my_bits_reverse_table (key .>> 24).

Definition my_set_bits (n : Z) : Z :=
  u64 (u64 (u64 (1 .<< (n - 1)) - 1) .<< 1) .| 1.

Definition last_byte_mask (bits : Z) : Z :=
  let used := u32 (bits - 1) .& 7 in
  u8 (u32 (2 .<< used) - 1).

(** The generic branch of [my_find_first_bit]: a nibble at a time. *)
Definition last_bit : list Z := [32; 0; 1; 0; 2; 0; 1; 0; 3; 0; 1; 0; 2; 0; 1; 0].

Fixpoint my_find_first_bit_loop (fuel : nat) (n shift : Z) : option Z :=
  match fuel with
  | O => None
  | S fuel =>
      let bit := last_bit !!! Z.to_nat ((n .>> shift) .& 0xF) in
      if bit =? 32 then my_find_first_bit_loop fuel n (u32 (shift + 4))
      else Some (u32 (shift + bit))
  end.

(** Sixteen nibbles: the loop never runs out of fuel on a 64-bit argument. *)
Definition my_find_first_bit (n : Z) : option Z :=
  if negb (c_true n) then Some 64 else my_find_first_bit_loop 16 n 0.

(** * Integer logarithm *)

(** Testing the high half of a word. *)
Lemma c_true_land_high k m v :
  0 <= k -> 0 <= m -> ufits (k + m) v -> c_true (v .& (Z.ones m .<< k)) = (2 ^ k <=? v).
Proof.
  intros Hk Hm Hv.
  assert (v .& (Z.ones m .<< k) = (v .>> k) .<< k) as ->.
  { apply Z.bits_inj'. intros i Hi. autorewrite with c_bits.
    destruct (Z.leb_spec k i), (Z.leb_spec 0 (i - k)); simpl; rewrite ?andb_false_r; try done; try lia.
    rewrite Z.shiftr_spec by lia. replace (i - k + k) with i by lia.
    destruct (Z.ltb_spec (i - k) m); simpl; [by rewrite andb_true_r|].
    rewrite andb_false_r. symmetry. apply (ufits_testbit (k + m)); [done|lia]. }
  rewrite Z.shiftr_div_pow2, Z.shiftl_mul_pow2 by done. unfold ufits in Hv.
  assert (0 < 2 ^ k) by (apply Z.pow_pos_nonneg; lia).
  unfold c_true. destruct (Z.leb_spec (2 ^ k) v) as [Hle|Hlt].
  - apply negb_true_iff, Z.eqb_neq. pose proof (Z.div_le_mono _ _ (2 ^ k) ltac:(done) Hle).
    rewrite Z.div_same in * by lia. nia.
  - by rewrite Z.div_small by lia.
Qed.

(** One halving step of the logarithm. *)
Lemma log2_split (f : Z -> Z) k m v :
  0 < k -> 0 <= m -> m <= k -> ufits (k + m) v ->
  (forall z, ufits k z -> f z = Z.log2 z) ->
  (if c_true (v .& (Z.ones m .<< k)) then f (uwrap k (v .>> k)) + k else f (uwrap k v)) = Z.log2 v.
Proof.
  intros Hk Hm Hmk Hv Hf. rewrite c_true_land_high by (done || lia).
  destruct (Z.leb_spec (2 ^ k) v).
  - assert (ufits k (v .>> k)) as Hs.
    { unfold ufits in *. rewrite Z.shiftr_div_pow2 by lia. rewrite Z.pow_add_r in Hv by lia.
      assert (2 ^ m <= 2 ^ k) by (apply Z.pow_le_mono_r; lia).
      split; [apply Z.div_pos; lia|apply Z.div_lt_upper_bound; nia]. }
    rewrite uwrap_small, Hf by done.
    assert (0 < 2 ^ k) by (apply Z.pow_pos_nonneg; lia).
    rewrite Z.log2_shiftr by lia.
    assert (k <= Z.log2 v) by (apply Z.log2_le_pow2; lia). lia.
  - unfold ufits in Hv. rewrite uwrap_small by (unfold ufits; lia). apply Hf. unfold ufits. lia.
Qed.

Lemma my_bit_log2_hex_digit_spec v : ufits 4 v -> my_bit_log2_hex_digit v = Z.log2 v.
Proof.
  intros [H0 H1]. change (2 ^ 4) with 16 in H1.
  assert (v ∈ [0;1;2;3;4;5;6;7;8;9;10;11;12;13;14;15]) as Hv by (rewrite !elem_of_cons; lia).
  rewrite !elem_of_cons, elem_of_nil in Hv. destruct_or!; subst; try done.
Qed.

Lemma my_bit_log2_uint8_spec v : ufits 8 v -> my_bit_log2_uint8 v = Z.log2 v.
Proof.
  intros Hv. rewrite <- (log2_split my_bit_log2_hex_digit 4 4 v); try done;
    [|by apply my_bit_log2_hex_digit_spec].
  unfold my_bit_log2_uint8. change (Z.ones 4 .<< 4) with 0xF0.
  pose proof (c_true_land_high 4 4 v ltac:(lia) ltac:(lia) Hv) as E.
  change (Z.ones 4 .<< 4) with 0xF0 in E. rewrite E. unfold ufits in Hv.
  destruct (Z.leb_spec (2 ^ 4) v).
  - do 2 f_equal. rewrite Z.shiftr_div_pow2 by lia. unfold uwrap.
    rewrite !Z.mod_small; [done|lia_mod..].
  - f_equal. symmetry. apply uwrap_small. unfold ufits. lia.
Qed.

Lemma my_bit_log2_uint16_spec v : ufits 16 v -> my_bit_log2_uint16 v = Z.log2 v.
Proof. intros. apply (log2_split my_bit_log2_uint8 8 8 v); auto using my_bit_log2_uint8_spec; lia. Qed.
Lemma my_bit_log2_uint32_spec v : ufits 32 v -> my_bit_log2_uint32 v = Z.log2 v.
Proof. intros. apply (log2_split my_bit_log2_uint16 16 16 v); auto using my_bit_log2_uint16_spec; lia. Qed.
Lemma my_bit_log2_uint64_spec v : ufits 64 v -> my_bit_log2_uint64 v = Z.log2 v.
Proof. intros. apply (log2_split my_bit_log2_uint32 32 32 v); auto using my_bit_log2_uint32_spec; lia. Qed.

(** [my_bit_log2_uint64] (and [my_bit_log2_size_t]) is the integer
    logarithm rounded down, on every 64-bit value, and 0 on 0. *)
Theorem my_bit_log2_floor v :
  ufits 64 v ->
  my_bit_log2_size_t v = my_bit_log2_uint64 v /\
  (v = 0 -> my_bit_log2_uint64 v = 0) /\
  (0 < v -> 2 ^ my_bit_log2_uint64 v <= v < 2 ^ (my_bit_log2_uint64 v + 1)).
Proof.
  intros Hv. unfold my_bit_log2_size_t. rewrite uwrap_small, my_bit_log2_uint64_spec by done.
  split; [done|split; [by intros ->|]]. intros Hpos. by apply Z.log2_spec.
Qed.

Lemma my_bit_log2_floor_witness : 2 ^ my_bit_log2_uint64 1000 <= 1000 < 2 ^ (my_bit_log2_uint64 1000 + 1).
Proof.
  refine (proj2 (proj2 (my_bit_log2_floor 1000 _)) _).
  - vm_compute. split; [discriminate|reflexivity].
  - reflexivity.
Defined.

(** * Population count *)

(** The number of set bits among the [w] lowest ones. *)
Definition popcount (w : nat) (v : Z) : Z :=
  Z.of_nat (length (filter (fun i => Z.testbit v (Z.of_nat i) = true) (seq 0 w))).

Lemma filter_seq_shift (P : nat -> Prop) `{forall i, Decision (P i)} n m :
  length (filter P (seq n m)) = length (filter (fun i => P (n + i)%nat) (seq 0 m)).
Proof.
  rewrite <- (Nat.add_0_r n) at 1. rewrite <- fmap_add_seq. generalize (seq 0 m). intros l.
  induction l as [|i l IH]; [done|]. rewrite fmap_cons, !filter_cons.
  case_decide; simpl; by rewrite IH.
Qed.

Lemma popcount_add n m v : popcount (n + m) v = popcount n v + popcount m (v .>> Z.of_nat n).
Proof.
  unfold popcount. rewrite seq_app, list.filter_app, length_app, Nat2Z.inj_add. f_equal. f_equal.
  rewrite (filter_seq_shift _ (0 + n)). f_equal. apply list_filter_iff. intros i.
  rewrite Z.shiftr_spec by lia. by replace (Z.of_nat (0 + n + i)) with (Z.of_nat i + Z.of_nat n) by lia.
Qed.

Lemma popcount_low w a b :
  (forall i, 0 <= i < Z.of_nat w -> Z.testbit a i = Z.testbit b i) -> popcount w a = popcount w b.
Proof.
  intros E. unfold popcount. do 2 f_equal. apply list_filter_ext_in. intros i Hi.
  rewrite elem_of_seq in Hi. rewrite E; [done|lia].
Qed.

Lemma popcount_uwrap w v : popcount w (uwrap (Z.of_nat w) v) = popcount w v.
Proof.
  apply popcount_low. intros i Hi. rewrite uwrap_testbit by lia.
  by destruct (Z.ltb_spec i (Z.of_nat w)); [|lia].
Qed.

(** Words as four bytes, lowest first. *)
Definition word4 (b0 b1 b2 b3 : Z) : Z := b0 + 2 ^ 8 * (b1 + 2 ^ 8 * (b2 + 2 ^ 8 * b3)).

Lemma word4_split v :
  ufits 32 v -> exists b0 b1 b2 b3,
    v = word4 b0 b1 b2 b3 /\ ufits 8 b0 /\ ufits 8 b1 /\ ufits 8 b2 /\ ufits 8 b3.
Proof.
  intros Hv. unfold ufits in *.
  exists (v mod 256), (v / 256 mod 256), (v / 65536 mod 256), (v / 16777216).
  unfold word4. split; [lia_mod|]. split_and!; lia_mod.
Qed.

(** A masked shift that stays inside a byte works byte by byte. *)
Lemma byte_masked_shift b r m n s :
  ufits 8 b -> 0 <= s <= 8 -> ufits (8 - s) m ->
  ((b + 2 ^ 8 * r) .>> s) .& (m + 2 ^ 8 * n) = ((b .>> s) .& m) + 2 ^ 8 * ((r .>> s) .& n).
Proof.
  intros Hb Hs Hm. assert (ufits 8 m) as Hm8 by (by apply ufits_mono with (8 - s); [lia|]).
  rewrite !(Z.mul_comm (2 ^ 8)).
  rewrite <- !lor_disjoint_add; try lia; try done.
  - apply Z.bits_inj'. intros i Hi. autorewrite with c_bits.
    destruct (Z.ltb_spec i (8 - s)).
    + destruct (Z.leb_spec 8 i), (Z.leb_spec 8 (i + s)); try lia. simpl.
      by rewrite !orb_false_r.
    + rewrite (ufits_testbit (8 - s) m) by done. rewrite andb_false_r. simpl.
      destruct (Z.leb_spec 8 i); simpl; [|by rewrite andb_false_r].
      rewrite (ufits_testbit 8 b) by (done || lia). destruct (Z.leb_spec 8 (i + s)); [|lia]. simpl.
      rewrite Z.shiftr_spec by lia. do 2 f_equal. lia.
  - apply ufits_land; [lia| |apply Hm8]. apply ufits_shiftr; [lia|done].
Qed.

Definition byte_stage1 (b : Z) : Z := b - ((b .>> 1) .& 0x55).
Definition byte_stage2 (b : Z) : Z := (b .& 0x33) + ((b .>> 2) .& 0x33).
Definition byte_stage3 (b : Z) : Z := b mod 16 + b / 16.

Lemma word4_masked_shift b0 b1 b2 b3 m s :
  ufits 8 b0 -> ufits 8 b1 -> ufits 8 b2 -> 0 <= s <= 8 -> ufits (8 - s) m ->
  (word4 b0 b1 b2 b3 .>> s) .& word4 m m m m =
  word4 ((b0 .>> s) .& m) ((b1 .>> s) .& m) ((b2 .>> s) .& m) ((b3 .>> s) .& m).
Proof. intros. unfold word4. by rewrite !byte_masked_shift. Qed.

(** What the three stages make of one byte, by evaluation. *)
Lemma byte_stages b :
  ufits 8 b ->
  let s1 := byte_stage1 b in let s2 := byte_stage2 s1 in
  (ufits 8 s1 /\ ufits 8 s2) /\ (s2 mod 16 <= 4 /\ s2 / 16 <= 4) /\ byte_stage3 s2 = popcount 8 b.
Proof.
  intros Hb. pose proof (narrow_values 8 (fun b =>
    let s1 := byte_stage1 b in let s2 := byte_stage2 s1 in
    (bool_decide (ufits 8 s1) && bool_decide (ufits 8 s2)) &&
    ((s2 mod 16 <=? 4) && (s2 / 16 <=? 4)) && (byte_stage3 s2 =? popcount 8 b))
    ltac:(by vm_compute) b Hb) as H.
  cbv beta zeta in H. rewrite !andb_true_iff, !bool_decide_eq_true, !Z.leb_le, Z.eqb_eq in H.
  cbv zeta. tauto.
Qed.

Lemma swar_stage1 b0 b1 b2 b3 :
  ufits 8 b0 -> ufits 8 b1 -> ufits 8 b2 -> ufits 8 b3 ->
  let v := word4 b0 b1 b2 b3 in
  u32 (v - ((v .>> 1) .& 0x55555555)) =
  word4 (byte_stage1 b0) (byte_stage1 b1) (byte_stage1 b2) (byte_stage1 b3).
Proof.
  intros H0 H1 H2 H3 v.
  change 0x55555555 with (word4 0x55 0x55 0x55 0x55). unfold v.
  rewrite word4_masked_shift by (done || lia).
  pose proof (byte_stages _ H0) as [[F0 _] _]. pose proof (byte_stages _ H1) as [[F1 _] _].
  pose proof (byte_stages _ H2) as [[F2 _] _]. pose proof (byte_stages _ H3) as [[F3 _] _].
  unfold byte_stage1 in *. rewrite uwrap_small; unfold word4, ufits in *; lia.
Qed.

Lemma swar_stage2 b0 b1 b2 b3 :
  ufits 8 b0 -> ufits 8 b1 -> ufits 8 b2 -> ufits 8 b3 ->
  ufits 8 (byte_stage2 b0) -> ufits 8 (byte_stage2 b1) ->
  ufits 8 (byte_stage2 b2) -> ufits 8 (byte_stage2 b3) ->
  let v := word4 b0 b1 b2 b3 in
  u32 ((v .& 0x33333333) + ((v .>> 2) .& 0x33333333)) =
  word4 (byte_stage2 b0) (byte_stage2 b1) (byte_stage2 b2) (byte_stage2 b3).
Proof.
  intros H0 H1 H2 H3 F0 F1 F2 F3 v. rewrite <- (Z.shiftr_0_r v) at 1.
  change 0x33333333 with (word4 0x33 0x33 0x33 0x33). unfold v.
  rewrite !word4_masked_shift by (done || lia). rewrite !Z.shiftr_0_r.
  unfold byte_stage2 in *. rewrite uwrap_small; unfold word4, ufits in *; lia.
Qed.

Lemma land_nibble a b : ufits 4 a -> (a + 16 * b) .& 0x0F = a.
Proof.
  intros Ha. change 0x0F with (Z.ones 4). rewrite Z.land_ones by lia. unfold ufits in *. lia_mod.
Qed.

(** The multiplication adds the four bytes up in the top one. *)
Lemma swar_sum a b c d :
  0 <= a <= 8 -> 0 <= b <= 8 -> 0 <= c <= 8 -> 0 <= d <= 8 ->
  u32 (word4 a b c d * 0x1010101) .>> 24 = a + b + c + d.
Proof.
  intros. replace (word4 a b c d * 0x1010101) with
    ((a + (a + b) * 2 ^ 8 + (a + b + c) * 2 ^ 16 + (a + b + c + d) * 2 ^ 24) +
     ((b + c + d) + (c + d) * 2 ^ 8 + d * 2 ^ 16) * 2 ^ 32) by (unfold word4; lia).
  unfold uwrap. rewrite Z.mod_add, Z.mod_small, Z.shiftr_div_pow2, Z.div_add, Z.div_small by lia. lia.
Qed.

Lemma swar_stage3 c0 c1 c2 c3 :
  ufits 8 c0 -> ufits 8 c1 -> ufits 8 c2 -> ufits 8 c3 ->
  (c0 mod 16 <= 4 /\ c0 / 16 <= 4) -> (c1 mod 16 <= 4 /\ c1 / 16 <= 4) ->
  (c2 mod 16 <= 4 /\ c2 / 16 <= 4) -> (c3 mod 16 <= 4 /\ c3 / 16 <= 4) ->
  let v := word4 c0 c1 c2 c3 in
  u32 ((u32 (v + (v .>> 4)) .& 0xF0F0F0F) * 0x1010101) .>> 24 =
  byte_stage3 c0 + byte_stage3 c1 + byte_stage3 c2 + byte_stage3 c3.
Proof.
  intros F0 F1 F2 F3 L0 L1 L2 L3 v. unfold ufits in *.
  assert (u32 (v + (v .>> 4)) = word4 (byte_stage3 c0 + 16 * (c0 / 16 + c1 mod 16))
    (byte_stage3 c1 + 16 * (c1 / 16 + c2 mod 16)) (byte_stage3 c2 + 16 * (c2 / 16 + c3 mod 16))
    (byte_stage3 c3 + 16 * (c3 / 16))) as ->.
  { rewrite Z.shiftr_div_pow2 by lia. unfold v, word4, byte_stage3, uwrap. lia_mod. }
  assert (forall c, (0 <= c < 2 ^ 8) -> (c mod 16 <= 4 /\ c / 16 <= 4) -> 0 <= byte_stage3 c <= 8) as B
    by (unfold byte_stage3; intros; lia_mod).
  change 0xF0F0F0F with (word4 0x0F 0x0F 0x0F 0x0F).
  pose proof (B _ F0 L0). pose proof (B _ F1 L1). pose proof (B _ F2 L2). pose proof (B _ F3 L3).
  rewrite <- (Z.shiftr_0_r (word4 (_ + _) _ _ _)).
  rewrite word4_masked_shift; try lia; try done; try (unfold ufits; lia_mod).
  rewrite !Z.shiftr_0_r, !land_nibble by (unfold ufits; lia).
  by apply swar_sum.
Qed.

Lemma popcount_cons_byte w b r :
  ufits 8 b -> popcount (8 + w) (b + 2 ^ 8 * r) = popcount 8 b + popcount w r.
Proof.
  intros Hb. rewrite popcount_add, <- (popcount_uwrap 8 (_ + _)). change (Z.of_nat 8) with 8.
  rewrite Z.shiftr_div_pow2 by lia. unfold uwrap, ufits in *.
  rewrite Z.mul_comm, Z.mod_add, Z.mod_small, Z.div_add, Z.div_small by lia. done.
Qed.

Lemma my_count_bits_uint32_spec v : ufits 32 v -> my_count_bits_uint32 v = popcount 32 v.
Proof.
  intros Hv. destruct (word4_split v Hv) as (b0 & b1 & b2 & b3 & -> & H0 & H1 & H2 & H3).
  pose proof (byte_stages _ H0) as [[??] [? P0]]. pose proof (byte_stages _ H1) as [[??] [? P1]].
  pose proof (byte_stages _ H2) as [[??] [? P2]]. pose proof (byte_stages _ H3) as [[??] [? P3]].
  unfold my_count_bits_uint32. rewrite swar_stage1, swar_stage2, swar_stage3 by done.
  rewrite P0, P1, P2, P3.
  unfold word4. rewrite (popcount_cons_byte 24), (popcount_cons_byte 16), (popcount_cons_byte 8) by done.
  by rewrite !Z.add_assoc.
Qed.

Lemma popcount_bound w v : 0 <= popcount w v <= Z.of_nat w.
Proof.
  unfold popcount. split; [lia|]. apply inj_le. etrans; [apply length_filter|]. by rewrite length_seq.
Qed.

(** [my_count_bits] counts the set bits of a 64-bit word: the parallel
    additions never overflow from one field into the next. *)
Theorem my_count_bits_popcount x : ufits 64 x -> my_count_bits x = popcount 64 x.
Proof.
  intros Hx. unfold my_count_bits. rewrite !my_count_bits_uint32_spec by (by apply uwrap_range).
  rewrite (popcount_add 32 32). change 32 with (Z.of_nat 32). rewrite !popcount_uwrap.
  pose proof (popcount_bound 32 x). pose proof (popcount_bound 32 (x .>> Z.of_nat 32)).
  apply uwrap_small. unfold ufits. simpl Z.of_nat in *. lia.
Qed.

Lemma my_count_bits_popcount_witness : my_count_bits 0xF0000000000000FF = popcount 64 0xF0000000000000FF.
Proof. apply my_count_bits_popcount. vm_compute. split; [discriminate|reflexivity]. Defined.

(** * Smearing the highest bit down *)

(** [w] has bit [i] set when [v] has a bit set among [i .. i+n-1]. *)
Definition covers (v n w : Z) : Prop :=
  forall i, 0 <= i -> Z.testbit w i = true <-> exists j, i <= j < i + n /\ Z.testbit v j = true.

Lemma covers_1 v : covers v 1 v.
Proof.
  intros i Hi. split; [intros; by exists i; split; [lia|]|].
  intros (j & ? & ?). by replace i with j by lia.
Qed.

Lemma covers_double v n w : 0 < n -> covers v n w -> covers v (n + n) (w .| (w .>> n)).
Proof.
  intros Hn Hw i Hi. rewrite Z.lor_spec, Z.shiftr_spec, orb_true_iff, (Hw i), (Hw (i + n)) by lia.
  split; [intros [(j & ? & ?)|(j & ? & ?)]; exists j; (split; [lia|done])|].
  intros (j & ? & ?). destruct (decide (j < i + n)); [left|right]; exists j; (split; [lia|done]).
Qed.

(** The five steps shared by the two routines. *)
Definition smear (v : Z) : Z :=
  let v := v .| (v .>> 1) in
  let v := v .| (v .>> 2) in
  let v := v .| (v .>> 4) in
  let v := v .| (v .>> 8) in
  v .| (v .>> 16).

Lemma smear_covers v : covers v 32 (smear v).
Proof.
  unfold smear. apply (covers_double v 16); [lia|]. apply (covers_double v 8); [lia|].
  apply (covers_double v 4); [lia|]. apply (covers_double v 2); [lia|].
  apply (covers_double v 1); [lia|]. apply covers_1.
Qed.

Lemma smear_ones v : 0 < v < 2 ^ 32 -> smear v = Z.ones (Z.log2 v + 1).
Proof.
  intros Hv. pose proof (Z.log2_nonneg v).
  assert (Z.log2 v < 32) by (apply Z.log2_lt_pow2; lia).
  apply Z.bits_inj'. intros i Hi. apply eq_true_iff_eq. rewrite (smear_covers v i) by done.
  rewrite Z.testbit_ones by lia. rewrite andb_true_iff, Z.leb_le, Z.ltb_lt. split.
  - intros (j & ? & Hj). split; [done|]. destruct (decide (j <= Z.log2 v)); [lia|].
    rewrite Z.bits_above_log2 in Hj by lia. done.
  - intros. exists (Z.log2 v). split; [lia|]. apply Z.bit_log2. lia.
Qed.

(** [my_round_up_to_next_power] returns the least power of two not below
    its argument; it is 0 on 0 and, the result not fitting 32 bits, on every
    argument above [2^31]. *)
Theorem my_round_up_to_next_power_spec v :
  ufits 32 v ->
  my_round_up_to_next_power v =
    if (v =? 0) || (2 ^ 31 <? v) then 0 else 2 ^ Z.log2_up v.
Proof.
  intros [H0 H1]. unfold my_round_up_to_next_power. fold (smear (u32 (v - 1))).
  destruct (Z.eqb_spec v 0) as [->|Hv]; [by vm_compute|]. simpl.
  rewrite (uwrap_small 32 (v - 1)) by (unfold ufits; lia).
  destruct (Z.eqb_spec v 1) as [->|Hv1]; [by vm_compute|].
  rewrite smear_ones, Z.ones_equiv by lia.
  replace (Z.pred (2 ^ (Z.log2 (v - 1) + 1)) + 1) with (2 ^ (Z.log2 (v - 1) + 1)) by lia.
  destruct (Z.ltb_spec (2 ^ 31) v).
  - replace (Z.log2 (v - 1)) with 31; [done|].
    symmetry. apply Z.log2_unique; lia.
  - unfold Z.log2_up. destruct (Z.compare_spec 1 v); try lia.
    replace (Z.pred v) with (v - 1) by lia. rewrite <- Z.add_1_r.
    apply uwrap_small. unfold ufits. split; [apply Z.pow_nonneg; lia|].
    apply Z.pow_lt_mono_r; try lia.
    assert (Z.log2 (v - 1) < 31) by (apply Z.log2_lt_pow2; lia). lia.
Qed.

Lemma my_round_up_to_next_power_spec_witness :
  my_round_up_to_next_power 0x6000000B = 2 ^ 31 /\ my_round_up_to_next_power 0xC0000000 = 0.
Proof.
  split.
  - rewrite (my_round_up_to_next_power_spec 0x6000000B); [by vm_compute|].
    vm_compute. split; [discriminate|reflexivity].
  - rewrite (my_round_up_to_next_power_spec 0xC0000000); [by vm_compute|].
    vm_compute. split; [discriminate|reflexivity].
Defined.

Lemma my_clear_highest_bit_spec v :
  0 < v < 2 ^ 32 -> my_clear_highest_bit v = v - 2 ^ Z.log2 v.
Proof.
  intros Hv. unfold my_clear_highest_bit. fold (smear (v .>> 1)).
  assert (2 ^ Z.log2 v <= v < 2 ^ (Z.log2 v + 1)) as Hlog by (apply Z.log2_spec; lia).
  destruct (Z.eqb_spec v 1) as [->|Hv1]; [done|].
  assert (1 <= Z.log2 v) by (apply Z.log2_le_pow2; lia).
  assert (0 < (v .>> 1) < 2 ^ 32) by (rewrite Z.shiftr_div_pow2 by lia; change (2 ^ 1) with 2; lia_mod).
  rewrite smear_ones by done. rewrite Z.log2_shiftr, Z.max_r by lia.
  replace (Z.log2 v - 1 + 1) with (Z.log2 v) by lia.
  rewrite Z.land_ones by lia. rewrite Z.pow_add_r in Hlog by lia. change (2 ^ 1) with 2 in Hlog.
  symmetry. apply Z.mod_unique_pos with 1; lia.
Qed.

(** * Bit reversal *)

(** What the table of reversed bytes is documented to hold. *)
Definition is_reverse_table (tab : Z -> Z) : Prop :=
  forall b, ufits 8 b -> ufits 8 (tab b) /\
    forall i, 0 <= i < 8 -> Z.testbit (tab b) i = Z.testbit b (7 - i).

Lemma my_reverse_bits_testbit tab key i :
  is_reverse_table tab -> ufits 32 key -> 0 <= i < 32 ->
  Z.testbit (my_reverse_bits tab key) i = Z.testbit key (31 - i).
Proof.
  intros Htab Hkey Hi. unfold my_reverse_bits.
  change 255 with (Z.ones 8). rewrite !Z.land_ones by lia.
  fold (u8 key) (u8 (key .>> 8)) (u8 (key .>> 16)).
  assert (ufits 8 (key .>> 24)) as H3.
  { unfold ufits in *. rewrite Z.shiftr_div_pow2 by lia. lia_mod. }
  pose proof (Htab (u8 key) ltac:(by apply uwrap_range)) as [F0 T0].
  pose proof (Htab (u8 (key .>> 8)) ltac:(by apply uwrap_range)) as [F1 T1].
  pose proof (Htab (u8 (key .>> 16)) ltac:(by apply uwrap_range)) as [F2 T2].
  pose proof (Htab (key .>> 24) H3) as [F3 T3].
  rewrite !Z.lor_spec, !uwrap_testbit, !shiftl_testbit by lia.
  destruct (Z.ltb_spec i 32); [|lia]. simpl.
  assert (forall t k, ufits 8 t -> i < k \/ k + 8 <= i -> (k <=? i) && Z.testbit t (i - k) = false) as Z.
  { intros t k Ht Hk. destruct (Z.leb_spec k i); [|done]. simpl. apply (ufits_testbit 8); [done|lia]. }
  assert (forall k, k <= i -> (k <=? i) = true) as L by (intros; by apply Z.leb_le).
  assert (i < 8 \/ 8 <= i < 16 \/ 16 <= i < 24 \/ 24 <= i < 32) as Hc by lia.
  destruct Hc as [?|[?|[?|?]]].
  - rewrite !Z by (done || lia). simpl. rewrite T3, Z.shiftr_spec by lia. f_equal. lia.
  - rewrite (Z _ 24), (Z _ 16), L, T2, (ufits_testbit 8 (tab (key .>> 24))) by (done || lia). simpl.
    rewrite orb_false_r, uwrap_testbit, Z.shiftr_spec by lia.
    destruct (Z.ltb_spec (7 - (i - 8)) 8); [|lia]. simpl. f_equal. lia.
  - rewrite (Z _ 24), (Z _ 8), L, T1, (ufits_testbit 8 (tab (key .>> 24))) by (done || lia). simpl.
    rewrite !orb_false_r, uwrap_testbit, Z.shiftr_spec by lia.
    destruct (Z.ltb_spec (7 - (i - 16)) 8); [|lia]. simpl. f_equal. lia.
  - rewrite (Z _ 16), (Z _ 8), L, T0, (ufits_testbit 8 (tab (key .>> 24))) by (done || lia). simpl.
    rewrite !orb_false_r, uwrap_testbit by lia.
    destruct (Z.ltb_spec (7 - (i - 24)) 8); [|lia]. simpl. f_equal. lia.
Qed.

Lemma my_reverse_bits_fits tab key :
  is_reverse_table tab -> ufits 32 key -> ufits 32 (my_reverse_bits tab key).
Proof.
  intros Htab Hkey. unfold my_reverse_bits.
  assert (ufits 8 (key .>> 24)) as H3.
  { unfold ufits in *. rewrite Z.shiftr_div_pow2 by lia. lia_mod. }
  repeat (apply ufits_lor; [lia| |]); try (by apply uwrap_range).
  apply ufits_mono with 8; [lia|]. by apply Htab.
Qed.

(** With a correct byte table, [my_reverse_bits] mirrors the 32 bits of its
    argument, so applying it twice gives the argument back. *)
Theorem my_reverse_bits_involutive tab key :
  is_reverse_table tab -> ufits 32 key ->
  (forall i, 0 <= i < 32 -> Z.testbit (my_reverse_bits tab key) i = Z.testbit key (31 - i)) /\
  my_reverse_bits tab (my_reverse_bits tab key) = key.
Proof.
  intros Htab Hkey. pose proof (my_reverse_bits_fits _ _ Htab Hkey) as Hr.
  split; [intros; by apply my_reverse_bits_testbit|].
  apply Z.bits_inj'. intros i Hi. destruct (decide (i < 32)).
  - rewrite !my_reverse_bits_testbit by (done || lia). f_equal. lia.
  - rewrite !(ufits_testbit 32) by (done || lia || by apply my_reverse_bits_fits). done.
Qed.

(** A concrete table, bit by bit. *)
Definition reverse_byte (b : Z) : Z :=
  foldr (fun i r => r + Z.b2z (Z.testbit b i) * 2 ^ (7 - i)) 0 [0; 1; 2; 3; 4; 5; 6; 7].

Lemma reverse_byte_is_table : is_reverse_table reverse_byte.
Proof.
  intros b Hb. pose proof (narrow_values 8 (fun b => bool_decide (ufits 8 (reverse_byte b)) &&
    forallb (fun i => Bool.eqb (Z.testbit (reverse_byte b) i) (Z.testbit b (7 - i)))
      [0; 1; 2; 3; 4; 5; 6; 7]) ltac:(by vm_compute) b Hb) as H.
  cbv beta in H. apply andb_true_iff in H as [H1 H2]. apply bool_decide_eq_true in H1.
  split; [done|]. intros i Hi. rewrite forallb_forall in H2.
  apply eqb_prop, H2, list_elem_of_In. rewrite !elem_of_cons. lia.
Qed.

Lemma my_reverse_bits_involutive_witness :
  my_reverse_bits reverse_byte (my_reverse_bits reverse_byte 0x12345678) = 0x12345678.
Proof.
  apply (my_reverse_bits_involutive reverse_byte).
  - exact reverse_byte_is_table.
  - vm_compute. split; [discriminate|reflexivity].
Defined.

(** * Masks *)

Lemma my_set_bits_spec n : 1 <= n <= 64 -> my_set_bits n = 2 ^ n - 1.
Proof.
  intros Hn. unfold my_set_bits. rewrite Z.shiftl_1_l.
  assert (0 < 2 ^ (n - 1) <= 2 ^ 63) by (split; [apply Z.pow_pos_nonneg|apply Z.pow_le_mono_r]; lia).
  assert (2 ^ n = 2 * 2 ^ (n - 1)) as E by (rewrite <- Z.pow_succ_r by lia; f_equal; lia).
  rewrite (uwrap_small 64 (2 ^ (n - 1))) by (unfold ufits; lia).
  rewrite (uwrap_small 64 (2 ^ (n - 1) - 1)) by (unfold ufits; lia).
  rewrite Z.shiftl_mul_pow2, uwrap_small by (unfold ufits; lia).
  rewrite Z.lor_comm, <- Z.shiftl_mul_pow2, lor_disjoint_add by (done || lia). lia.
Qed.

Lemma last_byte_mask_spec bits :
  ufits 32 bits -> last_byte_mask bits = 2 ^ ((bits - 1) mod 8 + 1) - 1.
Proof.
  intros Hb. unfold last_byte_mask. change 7 with (Z.ones 3). rewrite Z.land_ones by lia.
  assert (u32 (bits - 1) mod 2 ^ 3 = (bits - 1) mod 8) as ->.
  { unfold uwrap. change (2 ^ 32) with (2 ^ 3 * 2 ^ 29). rewrite Z.rem_mul_r, Z.mul_comm by lia.
    rewrite Z.mod_add, Zmod_mod by lia. done. }
  pose proof (Z.mod_pos_bound (bits - 1) 8 ltac:(lia)) as Hr.
  remember ((bits - 1) mod 8) as r. clear Heqr.
  assert (r ∈ [0; 1; 2; 3; 4; 5; 6; 7]) as Hin by (rewrite !elem_of_cons; lia).
  rewrite !elem_of_cons, elem_of_nil in Hin. by destruct_or!; subst.
Qed.

(** * Lowest set bit *)

(** The table against its meaning, by evaluation. *)
Lemma last_bit_spec d :
  ufits 4 d ->
  let b := last_bit !!! Z.to_nat d in
  (d = 0 /\ b = 32) \/
  (0 <= b < 4 /\ Z.testbit d b = true /\ forall j, 0 <= j < b -> Z.testbit d j = false).
Proof.
  intros Hd b. pose proof (narrow_values 4 (fun d => let b := last_bit !!! Z.to_nat d in
    ((d =? 0) && (b =? 32)) || ((0 <=? b) && (b <? 4) && Z.testbit d b &&
      forallb (fun j => implb (j <? b) (negb (Z.testbit d j))) [0; 1; 2; 3]))
    ltac:(by vm_compute) d Hd) as H.
  cbv beta zeta in H. fold b in H.
  rewrite orb_true_iff, !andb_true_iff, !Z.eqb_eq, Z.leb_le, Z.ltb_lt, forallb_forall in H.
  destruct H as [H|(((? & ?) & ?) & H)]; [by left|right]. split_and!; try done.
  intros j Hj. specialize (H j). rewrite <- list_elem_of_In, !elem_of_cons in H.
  specialize (H ltac:(lia)). destruct (Z.ltb_spec j b); [|lia]. by apply negb_true_iff.
Qed.

(** [k] is the position of the lowest set bit of [n]. *)
Definition lowest_bit (n k : Z) : Prop :=
  0 <= k < 64 /\ Z.testbit n k = true /\ forall j, 0 <= j < k -> Z.testbit n j = false.

Lemma my_find_first_bit_loop_spec fuel n s :
  ufits 64 n -> n <> 0 -> 0 <= s -> s + 4 * Z.of_nat fuel = 64 ->
  (forall j, 0 <= j < s -> Z.testbit n j = false) ->
  exists k, my_find_first_bit_loop fuel n s = Some k /\ lowest_bit n k.
Proof.
  intros Hn Hn0. revert s. induction fuel as [|fuel IH]; intros s Hs Hf Hlow.
  { exfalso. apply Hn0. apply Z.bits_inj'. intros i Hi. rewrite Z.testbit_0_l.
    destruct (decide (i < s)); [apply Hlow; lia|apply (ufits_testbit 64); [done|lia]]. }
  simpl my_find_first_bit_loop. change 0xF with (Z.ones 4). rewrite Z.land_ones by lia.
  fold (uwrap 4 (n .>> s)). set (d := uwrap 4 (n .>> s)).
  assert (forall j, 0 <= j < 4 -> Z.testbit d j = Z.testbit n (s + j)) as Hd.
  { intros j Hj. unfold d. rewrite uwrap_testbit, Z.shiftr_spec by lia.
    destruct (Z.ltb_spec j 4); [|lia]. simpl. f_equal. lia. }
  destruct (last_bit_spec d ltac:(by apply uwrap_range)) as [[E Eb]|(Hb & Hbit & Hlt)].
  - rewrite Eb. simpl. rewrite (uwrap_small 32) by (unfold ufits; lia).
    apply IH; try lia. intros j Hj. destruct (decide (j < s)); [apply Hlow; lia|].
    replace j with (s + (j - s)) by lia. rewrite <- Hd by lia. by rewrite E, Z.testbit_0_l.
  - destruct (Z.eqb_spec (last_bit !!! Z.to_nat d) 32); [lia|].
    rewrite uwrap_small by (unfold ufits; lia). eexists; split; [done|].
    split_and!; try lia; [by rewrite <- Hd|]. intros j Hj.
    destruct (decide (j < s)); [apply Hlow; lia|].
    replace j with (s + (j - s)) by lia. rewrite <- Hd by lia. apply Hlt. lia.
Qed.

(** The portable scan of [my_find_first_bit] terminates on every 64-bit
    argument and returns the position of the lowest set bit, 64 on zero. *)
Theorem my_find_first_bit_spec n :
  ufits 64 n ->
  exists k, my_find_first_bit n = Some k /\ (n = 0 -> k = 64) /\ (n <> 0 -> lowest_bit n k).
Proof.
  intros Hn. unfold my_find_first_bit. destruct (c_true n) eqn:E; cbn [negb].
  - apply c_true_spec in E.
    destruct (my_find_first_bit_loop_spec 16 n 0) as (k & -> & Hk); try lia; [done|].
    by exists k.
  - apply c_true_false in E. exists 64. naive_solver.
Qed.

Lemma my_find_first_bit_spec_witness :
  exists k, my_find_first_bit 0x8000000000000000 = Some k /\ lowest_bit 0x8000000000000000 k.
Proof.
  destruct (my_find_first_bit_spec 0x8000000000000000) as (k & E & _ & H).
  - vm_compute. split; [discriminate|reflexivity].
  - exists k. split; [exact E|]. apply H. discriminate.
Defined.
