(* ===== verification/SqlBitmap.v ===== *)
(** Fixed-width bitmaps: [private/sql_bitmap.h].

    [Table_map_iterator] walks the bits of one 64-bit word; [Bitmap<width>] is
    an array of such words, the key sets of the optimizer ([key_map]).  The
    theorems refine every operation to finite sets of bit numbers.  A
    [DBUG_ASSERT] that fails is [None]. *)

From S2P Require Import Prelude MyBit.

(** * [Table_map_iterator] *)

Definition TMI_BITMAP_END : Z := 64.

(** [next_bit]: the position returned and the word left in [bmp]. *)
Definition next_bit (bmp : Z) : option (Z * Z) :=
  if negb (c_true bmp) then Some (TMI_BITMAP_END, bmp)
  else
    bit ← my_find_first_bit bmp;
    Some (bit, bmp .& unot 64 (u64 (1 .<< bit))).

(** * [Bitmap<width>] *)

Section Bitmap.
Context (width : nat).

Definition BITS_PER_ELEMENT : nat := 64.
Definition ARRAY_ELEMENTS : nat := (width + BITS_PER_ELEMENT - 1) / BITS_PER_ELEMENT.
Definition ALL_BITS_SET : Z := 0xFFFFFFFFFFFFFFFF.

(** The member [ulonglong buffer[ARRAY_ELEMENTS]]. *)
Implicit Types (b m : list Z) (n : nat).

Definition bit_index n : option nat :=
  asserting (bool_decide (n < width)%nat)
    (if decide (ARRAY_ELEMENTS = 1%nat) then 0%nat else (n / BITS_PER_ELEMENT)%nat).
Definition bit_mask n : option Z :=
  asserting (bool_decide (n < width)%nat)
    (if decide (ARRAY_ELEMENTS = 1%nat) then u64 (1 .<< Z.of_nat n)
     else u64 (1 .<< Z.of_nat (n mod BITS_PER_ELEMENT))).
Definition last_element_mask n : option Z :=
  asserting (bool_decide (n mod BITS_PER_ELEMENT <> 0)%nat) tt;;
  m ← bit_mask n; Some (u64 (m - 1)).

Definition set_bit b n : option (list Z) :=
  i ← bit_index n; m ← bit_mask n; Some (<[i := (b !!! i) .| m]> b).
Definition clear_bit b n : option (list Z) :=
  i ← bit_index n; m ← bit_mask n; Some (<[i := (b !!! i) .& unot 64 m]> b).
Definition is_set b n : option bool :=
  i ← bit_index n; m ← bit_mask n; Some (c_true ((b !!! i) .& m)).

Definition set_prefix b (prefix_size : nat) : option (list Z) :=
  let prefix_size := if decide (width < prefix_size)%nat then width else prefix_size in
  let idx := (prefix_size / BITS_PER_ELEMENT)%nat in
  let b := for_range 0 idx (fun _ _ => ALL_BITS_SET) b in
  '(b, idx) ←
    (if decide (prefix_size mod BITS_PER_ELEMENT <> 0)%nat
     then m ← last_element_mask prefix_size; Some (<[idx := m]> b, S idx) else Some (b, idx));
  Some (for_range idx (ARRAY_ELEMENTS - idx) (fun _ _ => 0) b).

Definition is_prefix b (prefix_size : nat) : option bool :=
  asserting (bool_decide (prefix_size <= width)%nat) tt;;
  let idx := (prefix_size / BITS_PER_ELEMENT)%nat in
  let zeros idx := Some (forallb (fun i => b !!! i =? 0) (seq idx (ARRAY_ELEMENTS - idx))) in
  if negb (forallb (fun i => b !!! i =? ALL_BITS_SET) (seq 0 idx)) then Some false
  else if decide (prefix_size mod BITS_PER_ELEMENT <> 0)%nat
  then m ← last_element_mask prefix_size;
       if negb (b !!! idx =? m) then Some false else zeros (S idx)
  else zeros idx.

Definition set_all b : option (list Z) :=
  if decide (width mod BITS_PER_ELEMENT <> 0)%nat then set_prefix b width
  else if decide (1 < ARRAY_ELEMENTS)%nat then Some ((fun _ => ALL_BITS_SET) <$> b)
  else Some (<[0%nat := ALL_BITS_SET]> b).

Definition clear_all b : list Z :=
  if decide (1 < ARRAY_ELEMENTS)%nat then (fun _ => 0) <$> b else <[0%nat := 0]> b.

Definition intersect b m : list Z :=
  for_range 0 ARRAY_ELEMENTS (fun i x => x .& (m !!! i)) b.

Definition intersect_and_pad b (map2buff : Z) (pad_with_ones : bool) : option (list Z) :=
  let b := <[0%nat := (b !!! 0%nat) .& map2buff]> b in
  let b := for_range 1 (ARRAY_ELEMENTS - 1)
             (fun _ _ => if pad_with_ones then ALL_BITS_SET else 0) b in
  if bool_decide (1 < ARRAY_ELEMENTS)%nat && bool_decide (width mod BITS_PER_ELEMENT <> 0)%nat && pad_with_ones
  then m ← last_element_mask width; Some (<[(ARRAY_ELEMENTS - 1)%nat := m]> b) else Some b.

Definition intersect_ulonglong b (map2buff : Z) : option (list Z) := intersect_and_pad b map2buff false.
Definition intersect_extended b (map2buff : Z) : option (list Z) :=
  intersect_and_pad b map2buff (c_true (map2buff .& u64 (1 .<< 63))).

Definition subtract b m : list Z :=
  for_range 0 ARRAY_ELEMENTS (fun i x => x .& unot 64 (m !!! i)) b.
Definition merge b m : list Z :=
  for_range 0 ARRAY_ELEMENTS (fun i x => x .| (m !!! i)) b.

Definition is_clear_all b : bool := forallb (fun i => negb (c_true (b !!! i))) (seq 0 ARRAY_ELEMENTS).
Definition is_subset b m : bool :=
  forallb (fun i => negb (c_true ((b !!! i) .& unot 64 (m !!! i)))) (seq 0 ARRAY_ELEMENTS).
Definition is_overlapping b m : bool :=
  existsb (fun i => c_true ((b !!! i) .& (m !!! i))) (seq 0 ARRAY_ELEMENTS).
Definition bitmap_eq b m : bool :=
  if decide (1 < ARRAY_ELEMENTS)%nat
  then forallb (fun i => b !!! i =? m !!! i) (seq 0 ARRAY_ELEMENTS)
  else b !!! 0%nat =? m !!! 0%nat.

Definition to_ulonglong b : Z := b !!! 0%nat.

Definition bits_set b : Z :=
  foldl (fun res i => u32 (res + my_count_bits (b !!! i))) 0 (seq 0 ARRAY_ELEMENTS).

(** [class Iterator]: the offset of the current word and the iterator in it. *)
Record Iterator := mkIterator { it_offset : nat; it_tmi : Z }.

Definition Iterator_init (map : list Z) : Iterator := mkIterator 0 (map !!! 0%nat).

(** [operator++(int)], one turn of its loop per unit of fuel. *)
Fixpoint Iterator_next (fuel : nat) (map : list Z) (it : Iterator) : option (Z * Iterator) :=
  match fuel with
  | O => None
  | S fuel =>
      '(nextbit, tmi) ← next_bit (it_tmi it);
      if negb (nextbit =? TMI_BITMAP_END)
      then Some (Z.of_nat (it_offset it) + nextbit, mkIterator (it_offset it) tmi)
      else if decide (width <= it_offset it + BITS_PER_ELEMENT)%nat
      then Some (Z.of_nat width, mkIterator (it_offset it) tmi)
      else
        let offset := (it_offset it + BITS_PER_ELEMENT)%nat in
        Iterator_next fuel map (mkIterator offset (map !!! (offset / BITS_PER_ELEMENT)%nat))
  end.

(** [print]: a shift by 64 or more is undefined in C, here [None].  The digit
    table and [longlong2str] are library code, not part of the sources. *)
Section print.
Context (dig_vec_upper : Z -> byte) (longlong2str : Z -> list byte -> Z -> list byte).

Definition shr64 (num shift : Z) : option Z := if shift <? 64 then Some (num .>> shift) else None.

Fixpoint print_digits (j : nat) (num shift : Z) (pos : nat) (buf : list byte) : option (list byte) :=
  match j with
  | O => Some buf
  | S j =>
      d ← shr64 num shift;
      print_digits j num (shift + 4) (S pos) (<[pos := dig_vec_upper (d .& 0xf)]> buf)
  end.

Fixpoint print_last (last : nat) b : nat :=
  match last with
  | O => O
  | S l => if c_true (b !!! last) then last else print_last l b
  end.

Definition print b (buf : list byte) : option (list byte) :=
  let last := print_last (ARRAY_ELEMENTS - 1) b in
  buf ← foldl (fun obuf i =>
            buf ← obuf;
            print_digits 16 (b !!! i) (Z.of_nat BITS_PER_ELEMENT - 4) (i * 16) buf)
          (Some buf) (seq 0 last);
  Some (longlong2str (b !!! last) buf 16).

End print.
End Bitmap.

Definition MAX_INDEXES : nat := 64.
Abbreviation key_map_is_set := (is_set MAX_INDEXES).

(** * The word iterator *)

(** Positions of the set bits of a word, in increasing order. *)
Definition word_bits (w : Z) : list nat := filter (fun i => Z.testbit w (Z.of_nat i) = true) (seq 0 64).

Lemma clear_bit_testbit w k i :
  0 <= k < 64 -> 0 <= i ->
  Z.testbit (w .& unot 64 (u64 (1 .<< k))) i = (i <? 64) && negb (i =? k) && Z.testbit w i.
Proof.
  intros Hk Hi. rewrite Z.land_spec, unot_testbit, uwrap_testbit, shiftl_1_l, pow2_testbit by lia.
  destruct (Z.leb_spec 0 i), (Z.ltb_spec i 64); try lia; simpl; rewrite ?andb_false_r; try done.
  by rewrite andb_comm.
Qed.

Lemma filter_first (P Q : nat -> Prop) `{forall i, Decision (P i)} `{forall i, Decision (Q i)} k lo n :
  (lo <= k < lo + n)%nat -> P k -> (forall j, (lo <= j < k)%nat -> ~ P j) ->
  (forall j, Q j <-> P j /\ j <> k) ->
  filter P (seq lo n) = k :: filter Q (seq lo n).
Proof.
  intros Hk HP Hlt HQ. revert lo Hk Hlt. induction n as [|n IH]; intros lo Hk Hlt; [lia|]. simpl.
  destruct (decide (k = lo)) as [->|].
  - rewrite filter_cons_True by done. rewrite filter_cons_False by (rewrite HQ; tauto).
    f_equal. apply list_filter_ext_in. intros j Hj. rewrite elem_of_seq in Hj. rewrite HQ.
    split; [intros; split; [done|lia]|tauto].
  - rewrite filter_cons_False by (apply Hlt; lia).
    rewrite filter_cons_False by (rewrite HQ; intros [? _]; by apply (Hlt lo); [lia|]).
    apply IH; [lia|]. intros; apply Hlt; lia.
Qed.

(** One step yields the first element and leaves the rest. *)
Lemma next_bit_spec bmp :
  ufits 64 bmp ->
  match word_bits bmp with
  | [] => bmp = 0 /\ next_bit bmp = Some (TMI_BITMAP_END, bmp)
  | k :: ks => exists bmp', next_bit bmp = Some (Z.of_nat k, bmp') /\ (k < 64)%nat /\
                            ufits 64 bmp' /\ word_bits bmp' = ks
  end.
Proof.
  intros Hb. unfold next_bit. destruct (c_true bmp) eqn:E; cbn [negb].
  - apply c_true_spec in E. destruct (my_find_first_bit_spec bmp Hb) as (k & -> & _ & Hk).
    destruct (Hk E) as (Hk64 & Hbit & Hlt). simpl.
    assert (word_bits bmp = Z.to_nat k :: word_bits (bmp .& unot 64 (u64 (1 .<< k)))) as ->.
    { apply filter_first; [lia|by rewrite Z2Nat.id by lia| |].
      - intros j Hj. rewrite Hlt by lia. done.
      - intros j. rewrite clear_bit_testbit, !andb_true_iff, negb_true_iff, Z.eqb_neq, Z.ltb_lt by lia.
        split; [intros; split; [tauto|lia]|]. intros [Hj ?]. split_and!; try lia; [|done].
        destruct (decide (Z.of_nat j < 64)); [done|]. by rewrite (ufits_testbit 64) in Hj by (done || lia). }
    eexists; split; [by rewrite Z2Nat.id by lia|]. split; [lia|]. split; [|done].
    apply ufits_land; [lia|done|]. apply unot_range. lia.
  - apply c_true_false in E. subst. by vm_compute.
Qed.

(** * Bitmaps as sets of bit numbers *)

Section bitmap_facts.
Context (width : nat) (Hwidth : (0 < width)%nat).
Implicit Types (b m : list Z) (n j : nat).
Abbreviation AE := (ARRAY_ELEMENTS width).

(** Bit [n] of the array, whatever the width. *)
Definition bit b n : bool := Z.testbit (b !!! (n / 64)%nat) (Z.of_nat (n mod 64)).

(** The representation invariant: right length, 64-bit words, and no bit set at
    or above [width]. *)
Definition wf b : Prop :=
  length b = AE /\ (forall i, (i < AE)%nat -> ufits 64 (b !!! i)) /\
  forall n, (width <= n < 64 * AE)%nat -> bit b n = false.

Definition to_set b : gset nat :=
  list_to_set (filter (fun n => bit b n = true) (seq 0 width)).

Lemma elem_of_to_set b n : n ∈ to_set b <-> (n < width)%nat /\ bit b n = true.
Proof.
  unfold to_set. rewrite elem_of_list_to_set, list_elem_of_filter, elem_of_seq.
  split; intros [? ?]; (split; [|done || lia]); done || lia.
Qed.

(** ** Positions *)

Lemma AE_bounds : (1 <= AE /\ width <= 64 * AE < width + 64)%nat.
Proof.
  unfold ARRAY_ELEMENTS, BITS_PER_ELEMENT. pose proof (Nat.div_mod_eq (width + 64 - 1) 64).
  pose proof (Nat.mod_upper_bound (width + 64 - 1) 64). lia.
Qed.

Lemma pos_split n : n = (64 * (n / 64) + n mod 64)%nat /\ (n mod 64 < 64)%nat.
Proof. split; [apply Nat.div_mod_eq|by apply Nat.mod_upper_bound]. Qed.

Lemma div_lt_AE n : (n < 64 * AE)%nat -> (n / 64 < AE)%nat.
Proof. intros. apply Nat.Div0.div_lt_upper_bound. lia. Qed.

Lemma pos_of i k : (k < 64)%nat -> ((64 * i + k) / 64 = i /\ (64 * i + k) mod 64 = k)%nat.
Proof.
  intros. rewrite (Nat.mul_comm 64), Nat.add_comm, Nat.div_add, Nat.Div0.mod_add by done.
  rewrite Nat.div_small, Nat.mod_small by done. done.
Qed.

Lemma bit_index_eq n : (n < width)%nat -> bit_index width n = Some (n / 64)%nat.
Proof.
  intros. unfold bit_index, BITS_PER_ELEMENT. rewrite asserting_true by (by apply bool_decide_eq_true).
  case_decide as E; [|done]. pose proof AE_bounds. rewrite Nat.div_small by lia. done.
Qed.

Lemma mask_fits n : u64 (1 .<< Z.of_nat (n mod 64)) = 2 ^ Z.of_nat (n mod 64).
Proof.
  rewrite shiftl_1_l. apply uwrap_small. pose proof (pos_split n) as [_ ?]. unfold ufits.
  split; [apply Z.pow_nonneg; lia|apply Z.pow_lt_mono_r; lia].
Qed.

Lemma bit_mask_small n : (n < width)%nat -> bit_mask width n = Some (2 ^ Z.of_nat (n mod 64)).
Proof.
  intros. pose proof AE_bounds. unfold bit_mask. rewrite asserting_true by (by apply bool_decide_eq_true).
  f_equal. case_decide as E; [|apply mask_fits]. rewrite <- (Nat.mod_small n 64) at 1 by lia. apply mask_fits.
Qed.

Lemma last_element_mask_eq n :
  (n < width)%nat -> (n mod 64 <> 0)%nat -> last_element_mask width n = Some (Z.ones (Z.of_nat (n mod 64))).
Proof.
  intros. unfold last_element_mask. rewrite asserting_true by (by apply bool_decide_eq_true).
  rewrite bit_mask_small, Z.ones_equiv by lia. cbn [mbind option_bind]. f_equal.
  pose proof (pos_split n) as [_ ?]. change (Z.pred ?a) with (a - 1).
  apply uwrap_small. unfold ufits.
  assert (0 < 2 ^ Z.of_nat (n mod 64) < 2 ^ 64)
    by (split; [apply Z.pow_pos_nonneg|apply Z.pow_lt_mono_r]; lia). lia.
Qed.

(** The assertion of [bit_mask] refuses the mask of a last word that is cut
    off by the width itself. *)
Lemma last_element_mask_width : last_element_mask width width = None.
Proof.
  unfold last_element_mask, bit_mask. rewrite (bool_decide_eq_false_2 (width < width)%nat) by lia.
  by destruct (asserting _ tt).
Qed.

Lemma partial_lt n : (n <= width)%nat -> (n mod 64 <> 0)%nat -> (n < 64 * AE)%nat.
Proof.
  intros Hn Hm. pose proof AE_bounds. destruct (decide (n = 64 * AE)%nat) as [->|]; [|lia].
  rewrite Nat.mul_comm, Nat.Div0.mod_mul in Hm. done.
Qed.

Lemma bit_nth b i k : (k < 64)%nat -> bit b (64 * i + k) = Z.testbit (b !!! i) (Z.of_nat k).
Proof. intros. unfold bit. by destruct (pos_of i k) as [-> ->]. Qed.

(** Two well-formed arrays with the same bits below [width] are the same. *)
Lemma wf_ext a b : wf a -> wf b -> (forall n, (n < width)%nat -> bit a n = bit b n) -> a = b.
Proof.
  intros (La & Fa & Ha) (Lb & Fb & Hb) E. apply list_eq_total; [congruence|].
  intros i Hi. rewrite La in Hi. apply Z.bits_inj'. intros k Hk.
  destruct (decide (k < 64)).
  - rewrite <- (Z2Nat.id k) by done. rewrite <- !bit_nth by lia.
    destruct (decide (64 * i + Z.to_nat k < width)%nat); [by apply E|].
    rewrite Ha, Hb by lia. done.
  - by rewrite !(ufits_testbit 64) by (auto || lia).
Qed.

(** The result of a word-wise loop. *)
Lemma bit_for_range lo k (f : nat -> Z -> Z) b n :
  length b = AE -> (n < 64 * AE)%nat ->
  bit (for_range lo k f b) n =
    if decide (lo <= n / 64 < lo + k)%nat
    then Z.testbit (f (n / 64)%nat (b !!! (n / 64)%nat)) (Z.of_nat (n mod 64)) else bit b n.
Proof.
  intros Hl Hn. unfold bit. rewrite for_range_lookup by (rewrite Hl; by apply div_lt_AE).
  by case_decide.
Qed.

Lemma fits_for_range lo k (f : nat -> Z -> Z) b :
  length b = AE -> (forall i, (i < AE)%nat -> ufits 64 (b !!! i)) ->
  (forall i, (i < AE)%nat -> (lo <= i < lo + k)%nat -> ufits 64 (f i (b !!! i))) ->
  forall i, (i < AE)%nat -> ufits 64 (for_range lo k f b !!! i).
Proof.
  intros Hl Hb Hf i Hi. rewrite for_range_lookup by lia. case_decide; auto.
Qed.

(** A word-wise operation on all the words, bit by bit. *)
Lemma wordwise_wf (g : bool -> bool -> bool) (f : nat -> Z -> Z) b m :
  wf b -> wf m -> g false false = false ->
  (forall i x y, ufits 64 x -> ufits 64 y -> y = m !!! i -> ufits 64 (f i x)) ->
  (forall i x y k, 0 <= k < 64 -> ufits 64 x -> ufits 64 y -> y = m !!! i ->
     Z.testbit (f i x) k = g (Z.testbit x k) (Z.testbit y k)) ->
  wf (for_range 0 AE f b) /\ forall n, (n < 64 * AE)%nat ->
    bit (for_range 0 AE f b) n = g (bit b n) (bit m n).
Proof.
  intros (Lb & Fb & Hb) (Lm & Fm & Hm) Hg Hfit Hbit.
  assert (forall n, (n < 64 * AE)%nat ->
    bit (for_range 0 AE f b) n = g (bit b n) (bit m n)) as E.
  { intros n Hn. rewrite bit_for_range by done. pose proof (div_lt_AE n Hn).
    case_decide; [|lia]. pose proof (pos_split n). apply Hbit; auto; lia. }
  split; [|done]. split_and!.
  - by rewrite length_for_range.
  - apply fits_for_range; auto. intros i Hi _. apply (Hfit i _ (m !!! i)); auto.
  - intros n Hn. by rewrite E, Hb, Hm by lia.
Qed.

(** ** Single bits *)

Lemma is_set_bit b n : (n < width)%nat -> is_set width b n = Some (bit b n).
Proof.
  intros. pose proof AE_bounds. unfold is_set.
  rewrite bit_index_eq, bit_mask_small by lia. cbn [mbind option_bind]. by rewrite c_true_land_pow2 by lia.
Qed.

(** Updating one word. *)
Lemma bit_insert b i w n :
  length b = AE -> (i < AE)%nat ->
  bit (<[i := w]> b) n = if decide (n / 64 = i)%nat then Z.testbit w (Z.of_nat (n mod 64)) else bit b n.
Proof.
  intros Hl Hi. unfold bit. case_decide as E.
  - by rewrite E, list_lookup_total_insert_eq by lia.
  - by rewrite list_lookup_total_insert_ne.
Qed.

Lemma fits_insert b i w :
  length b = AE -> (i < AE)%nat -> ufits 64 w ->
  (forall j, (j < AE)%nat -> ufits 64 (b !!! j)) -> forall j, (j < AE)%nat -> ufits 64 (<[i := w]> b !!! j).
Proof.
  intros Hl Hi Hw Hb j Hj. rewrite list_lookup_total_insert. case_decide; auto.
Qed.

Lemma set_bit_wf b n :
  wf b -> (n < width)%nat ->
  exists a, set_bit width b n = Some a /\ wf a /\
  forall j, (j < 64 * AE)%nat -> bit a j = bool_decide (j = n) || bit b j.
Proof.
  intros (Lb & Fb & Hb) Hn. pose proof AE_bounds. pose proof (pos_split n) as [En Hn64].
  assert (n / 64 < AE)%nat by (apply div_lt_AE; lia).
  unfold set_bit. rewrite bit_index_eq, bit_mask_small by lia. eexists. split; [done|].
  assert (forall j, (j < 64 * AE)%nat -> bit (<[(n / 64)%nat := (b !!! (n / 64)%nat) .| 2 ^ Z.of_nat (n mod 64)]> b) j
    = bool_decide (j = n) || bit b j) as E.
  { intros j Hj. rewrite bit_insert by done. case_decide as Ej.
    - rewrite Z.lor_spec, pow2_testbit, orb_comm by lia. unfold bit. rewrite Ej. f_equal.
      pose proof (pos_split j). destruct (Z.eqb_spec (Z.of_nat (j mod 64)) (Z.of_nat (n mod 64)));
        symmetry; [apply bool_decide_eq_true|apply bool_decide_eq_false]; lia.
    - rewrite bool_decide_eq_false_2; [done|]. by intros ->. }
  split; [|done]. split_and!.
  - by rewrite length_insert.
  - apply fits_insert; try done. apply ufits_lor; [lia|auto|].
    rewrite <- mask_fits. by apply uwrap_range.
  - intros j Hj. rewrite E, Hb, bool_decide_eq_false_2 by lia. done.
Qed.

Lemma clear_bit_wf b n :
  wf b -> (n < width)%nat ->
  exists a, clear_bit width b n = Some a /\ wf a /\
  forall j, (j < 64 * AE)%nat -> bit a j = negb (bool_decide (j = n)) && bit b j.
Proof.
  intros (Lb & Fb & Hb) Hn. pose proof AE_bounds. pose proof (pos_split n) as [En Hn64].
  assert (n / 64 < AE)%nat by (apply div_lt_AE; lia).
  unfold clear_bit. rewrite bit_index_eq, bit_mask_small by lia. eexists. split; [done|].
  assert (forall j, (j < 64 * AE)%nat ->
    bit (<[(n / 64)%nat := (b !!! (n / 64)%nat) .& unot 64 (2 ^ Z.of_nat (n mod 64))]> b) j
    = negb (bool_decide (j = n)) && bit b j) as E.
  { intros j Hj. pose proof (pos_split j). rewrite bit_insert by done. case_decide as Ej.
    - rewrite Z.land_spec, unot_testbit, pow2_testbit, andb_comm by lia. unfold bit. rewrite Ej.
      destruct (Z.leb_spec 0 (Z.of_nat (j mod 64))), (Z.ltb_spec (Z.of_nat (j mod 64)) 64); try lia.
      cbn [andb]. f_equal. f_equal. destruct (Z.eqb_spec (Z.of_nat (j mod 64)) (Z.of_nat (n mod 64)));
        symmetry; [apply bool_decide_eq_true|apply bool_decide_eq_false]; lia.
    - rewrite bool_decide_eq_false_2; [done|]. by intros ->. }
  split; [|done]. split_and!.
  - by rewrite length_insert.
  - apply fits_insert; try done. apply ufits_land; [lia|auto|].
    pose proof (unot_range 64 (2 ^ Z.of_nat (n mod 64)) ltac:(lia)) as [? ?]. done.
  - intros j Hj. rewrite E, Hb by lia. apply andb_false_r.
Qed.

(** ** Prefixes *)

Lemma ALL_BITS_testbit k : 0 <= k < 64 -> Z.testbit ALL_BITS_SET k = true.
Proof.
  intros. change ALL_BITS_SET with (Z.ones 64). rewrite Z.testbit_ones by lia.
  apply andb_true_iff. rewrite Z.leb_le, Z.ltb_lt. lia.
Qed.

Lemma ones_fits k : 0 <= k <= 64 -> ufits 64 (Z.ones k).
Proof.
  intros. rewrite Z.ones_equiv. unfold ufits.
  assert (0 < 2 ^ k <= 2 ^ 64) by (split; [apply Z.pow_pos_nonneg|apply Z.pow_le_mono_r]; lia). lia.
Qed.

(** The word number [i] of the array whose set bits are those below [p]. *)
Definition prefix_word (p i : nat) : Z :=
  if decide (i < p / 64)%nat then ALL_BITS_SET
  else if decide (i = p / 64)%nat then Z.ones (Z.of_nat (p mod 64)) else 0.

Lemma prefix_word_testbit p i k :
  (k < 64)%nat -> Z.testbit (prefix_word p i) (Z.of_nat k) = bool_decide (64 * i + k < p)%nat.
Proof.
  intros Hk. pose proof (pos_split p). unfold prefix_word. case_decide.
  - rewrite ALL_BITS_testbit by lia. symmetry. apply bool_decide_eq_true. lia.
  - case_decide.
    + rewrite Z.testbit_ones by lia. apply eq_true_iff_eq.
      rewrite andb_true_iff, Z.leb_le, Z.ltb_lt, bool_decide_eq_true. lia.
    + rewrite Z.testbit_0_l. symmetry. apply bool_decide_eq_false. lia.
Qed.

Lemma prefix_word_fits p i : ufits 64 (prefix_word p i).
Proof.
  unfold prefix_word. repeat case_decide; [by vm_compute| |by vm_compute].
  apply ones_fits. pose proof (pos_split p). lia.
Qed.

(** The sizes for which the assertions of [last_element_mask] hold. *)
Definition prefix_ok (p : nat) : Prop := (p < width)%nat \/ (width mod 64 = 0)%nat.
#[export] Instance prefix_ok_dec p : Decision (prefix_ok p).
Proof. unfold prefix_ok. apply _. Defined.

Lemma set_prefix_lookup b p :
  length b = AE -> prefix_ok p ->
  exists a, set_prefix width b p = Some a /\ length a = AE /\
    forall i, (i < AE)%nat -> a !!! i = prefix_word (Nat.min p width) i.
Proof.
  intros Hl Hok. unfold set_prefix. pose proof AE_bounds.
  replace (if decide (width < p)%nat then width else p) with (Nat.min p width) by (case_decide; lia).
  assert (prefix_ok (Nat.min p width)) as Hq.
  { destruct Hok as [Hp|Hp]; [left; lia|by right]. }
  set (q := Nat.min p width) in *. assert (q <= width)%nat by (unfold q; lia). clearbody q. clear p Hok.
  unfold BITS_PER_ELEMENT. unfold prefix_word. pose proof (pos_split q).
  destruct (decide (q mod 64 <> 0)%nat) as [Hm|Hm].
  - assert (q < width)%nat.
    { destruct Hq as [Hq|Hq]; [done|]. destruct (decide (q = width)) as [->|]; [done|lia]. }
    rewrite last_element_mask_eq by done. cbn [mbind option_bind]. eexists. split; [done|].
    split; [by rewrite length_for_range, length_insert, length_for_range|]. intros i Hi.
    rewrite for_range_lookup by (by rewrite length_insert, length_for_range; lia).
    rewrite list_lookup_total_insert, length_for_range, for_range_lookup by lia.
    repeat case_decide; done || lia.
  - cbn [mbind option_bind]. eexists. split; [done|]. split; [by rewrite !length_for_range|]. intros i Hi.
    rewrite !for_range_lookup by (rewrite ?length_for_range; lia).
    repeat case_decide; try lia; try done.
    replace (q mod 64)%nat with 0%nat by lia. done.
Qed.

Lemma set_prefix_wf b p :
  length b = AE -> prefix_ok p ->
  exists a, set_prefix width b p = Some a /\ wf a /\
  forall j, (j < 64 * AE)%nat -> bit a j = bool_decide (j < Nat.min p width)%nat.
Proof.
  intros Hl Hok. destruct (set_prefix_lookup b p Hl Hok) as (a & Ea & La & Ha). exists a. split; [done|].
  assert (forall j, (j < 64 * AE)%nat -> bit a j = bool_decide (j < Nat.min p width)%nat) as E.
  { intros j Hj. unfold bit. rewrite Ha by auto using div_lt_AE.
    pose proof (pos_split j) as [Ej ?]. rewrite prefix_word_testbit by done. by rewrite <- Ej. }
  split; [|done]. split_and!; [done| |].
  - intros i Hi. rewrite Ha by done. apply prefix_word_fits.
  - intros j Hj. rewrite E by lia. apply bool_decide_eq_false. lia.
Qed.

(** Otherwise the assertion fails. *)
Lemma set_prefix_fails b p : ~ prefix_ok p -> set_prefix width b p = None.
Proof.
  unfold prefix_ok. intros Hok. unfold set_prefix.
  replace (if decide (width < p)%nat then width else p) with width by (case_decide; lia).
  unfold BITS_PER_ELEMENT. rewrite decide_True by lia. by rewrite last_element_mask_width.
Qed.

Lemma is_prefix_words b p :
  wf b -> (p <= width)%nat -> prefix_ok p ->
  exists r, is_prefix width b p = Some r /\
    (r = true <-> forall i, (i < AE)%nat -> b !!! i = prefix_word p i).
Proof.
  intros (Lb & Fb & Hb) Hp Hok. unfold is_prefix, BITS_PER_ELEMENT. pose proof AE_bounds.
  pose proof (pos_split p). rewrite asserting_true by (by apply bool_decide_eq_true). cbn [mbind option_bind].
  assert (p / 64 <= AE)%nat by (apply Nat.Div0.div_le_upper_bound; lia).
  destruct (forallb _ (seq 0 (p / 64))) eqn:Ea; cbn [negb]; cycle 1.
  { exists false. split; [done|]. split; [done|]. intros E. exfalso. apply not_true_iff_false in Ea. apply Ea.
    apply forallb_seq. intros i Hi. rewrite E by lia. unfold prefix_word. by case_decide; [|lia]. }
  rewrite forallb_seq in Ea. destruct (decide (p mod 64 <> 0)%nat) as [Hm|Hm].
  - assert (p < width)%nat.
    { destruct Hok as [Hq|Hq]; [done|]. destruct (decide (p = width)) as [->|]; [done|lia]. }
    pose proof (div_lt_AE p ltac:(lia)). rewrite last_element_mask_eq by done. cbn [mbind option_bind].
    destruct (Z.eqb_spec (b !!! (p / 64)%nat) (Z.ones (Z.of_nat (p mod 64)))) as [Ec|Ec]; cbn [negb];
      eexists; (split; [done|]).
    + rewrite forallb_seq. unfold prefix_word. split.
      * intros Eb i Hi. case_decide; [by apply Z.eqb_eq, Ea; lia|].
        case_decide; [by subst i|]. by apply Z.eqb_eq, Eb; lia.
      * intros E i Hi. rewrite E by lia. repeat case_decide; done || lia.
    + split; [done|]. intros E. exfalso. apply Ec. rewrite E by done. unfold prefix_word.
      repeat case_decide; done || lia.
  - eexists; (split; [done|]). rewrite forallb_seq. unfold prefix_word.
    assert (p mod 64 = 0)%nat as Hm0 by lia. rewrite Hm0. split.
    + intros Eb i Hi. case_decide; [by apply Z.eqb_eq, Ea; lia|].
      specialize (Eb i ltac:(lia)). apply Z.eqb_eq in Eb. rewrite Eb. by case_decide.
    + intros E i Hi. rewrite E by lia. repeat case_decide; done || lia.
Qed.

(** ** Whole-array operations *)

Lemma const_wf b w :
  length b = AE -> (width mod 64 = 0)%nat -> ufits 64 w ->
  wf ((fun _ => w) <$> b) /\
  forall j, (j < 64 * AE)%nat -> bit ((fun _ => w) <$> b) j = Z.testbit w (Z.of_nat (j mod 64)).
Proof.
  intros Hl Hm Hw. pose proof AE_bounds. pose proof (pos_split width).
  assert (forall i, (i < AE)%nat -> ((fun _ => w) <$> b) !!! i = w) as E.
  { intros i Hi. apply lookup_total_const. lia. }
  split; [split_and!|].
  - by rewrite length_fmap.
  - intros i Hi. by rewrite E.
  - intros n Hn. lia.
  - intros j Hj. unfold bit. by rewrite E by (by apply div_lt_AE).
Qed.

Lemma one_word b w : length b = AE -> AE = 1%nat -> <[0%nat := w]> b = (fun _ => w) <$> b.
Proof. intros Hl E. rewrite E in Hl. destruct b as [|x [|y b]]; simplify_eq/=; done. Qed.

Lemma set_all_wf b :
  length b = AE -> (width mod 64 = 0)%nat ->
  exists a, set_all width b = Some a /\ wf a /\
  forall j, (j < 64 * AE)%nat -> bit a j = bool_decide (j < width)%nat.
Proof.
  intros Hl Hm0. unfold set_all, BITS_PER_ELEMENT. pose proof AE_bounds. rewrite decide_False by lia.
  destruct (const_wf b ALL_BITS_SET Hl Hm0 ltac:(by vm_compute)) as [W E].
  exists ((fun _ => ALL_BITS_SET) <$> b). split.
  { case_decide; [done|]. f_equal. apply one_word; [done|lia]. }
  split; [done|]. intros j Hj. rewrite E by done. pose proof (pos_split j).
  pose proof (pos_split width). rewrite ALL_BITS_testbit by lia. symmetry. apply bool_decide_eq_true. lia.
Qed.

Lemma set_all_fails b : (width mod 64 <> 0)%nat -> set_all width b = None.
Proof.
  intros. unfold set_all, BITS_PER_ELEMENT. rewrite decide_True by done.
  apply set_prefix_fails. unfold prefix_ok. lia.
Qed.

Lemma zero_wf b :
  length b = AE -> (forall i, (i < AE)%nat -> b !!! i = 0) ->
  wf b /\ forall j, (j < 64 * AE)%nat -> bit b j = false.
Proof.
  intros Hl E. assert (forall j, (j < 64 * AE)%nat -> bit b j = false) as Hz.
  { intros j Hj. unfold bit. rewrite E by (by apply div_lt_AE). by rewrite Z.testbit_0_l. }
  split; [|done]. split_and!; [done|intros i Hi; by rewrite E|intros; apply Hz; lia].
Qed.

Lemma clear_all_wf b :
  length b = AE ->
  wf (clear_all width b) /\ forall j, (j < 64 * AE)%nat -> bit (clear_all width b) j = false.
Proof.
  intros Hl. pose proof AE_bounds.
  assert (clear_all width b = (fun _ => 0) <$> b) as ->.
  { unfold clear_all. case_decide; [done|]. apply one_word; [done|lia]. }
  apply zero_wf; [by rewrite length_fmap|]. intros i Hi. apply lookup_total_const. lia.
Qed.

Lemma intersect_wf b m :
  wf b -> wf m -> wf (intersect width b m) /\
  forall j, (j < 64 * AE)%nat -> bit (intersect width b m) j = bit b j && bit m j.
Proof.
  intros. apply (wordwise_wf andb); try done.
  - intros i x y Hx [Hy _] ->. by apply ufits_land; [lia| |].
  - intros i x y k _ _ _ ->. apply Z.land_spec.
Qed.

Lemma merge_wf b m :
  wf b -> wf m -> wf (merge width b m) /\
  forall j, (j < 64 * AE)%nat -> bit (merge width b m) j = bit b j || bit m j.
Proof.
  intros. apply (wordwise_wf orb); try done.
  - intros i x y Hx Hy ->. by apply ufits_lor; [lia| |].
  - intros i x y k _ _ _ ->. apply Z.lor_spec.
Qed.

Lemma land_unot_testbit x y k :
  0 <= k < 64 -> Z.testbit (x .& unot 64 y) k = Z.testbit x k && negb (Z.testbit y k).
Proof.
  intros. rewrite Z.land_spec, unot_testbit by lia.
  by destruct (Z.leb_spec 0 k), (Z.ltb_spec k 64); try lia.
Qed.

Lemma subtract_wf b m :
  wf b -> wf m -> wf (subtract width b m) /\
  forall j, (j < 64 * AE)%nat -> bit (subtract width b m) j = bit b j && negb (bit m j).
Proof.
  intros. apply (wordwise_wf (fun x y => x && negb y)); try done.
  - intros i x y Hx _ _. apply ufits_land; [lia|done|]. pose proof (unot_range 64 (m !!! i)). by apply H1.
  - intros i x y k Hk _ _ ->. by apply land_unot_testbit.
Qed.

Lemma intersect_and_pad_wf b w pad :
  wf b -> ufits 64 w -> (pad = true -> (1 < AE)%nat -> width mod 64 = 0)%nat ->
  exists r, intersect_and_pad width b w pad = Some r /\ wf r /\
  forall j, (j < 64 * AE)%nat -> bit r j =
    if decide (j < 64)%nat then bit b j && Z.testbit w (Z.of_nat j)
    else pad && bool_decide (j < width)%nat.
Proof.
  intros (Lb & Fb & Hb) Hw Hpad. pose proof AE_bounds. unfold intersect_and_pad, BITS_PER_ELEMENT.
  set (b1 := <[0%nat := (b !!! 0%nat) .& w]> b).
  set (r := for_range 1 (AE - 1) (fun _ _ => if pad then ALL_BITS_SET else 0) b1).
  assert (length b1 = AE) as L1 by (unfold b1; by rewrite length_insert).
  assert (length r = AE) as L2 by (unfold r; by rewrite length_for_range).
  assert (bool_decide (1 < AE)%nat && bool_decide (width mod 64 <> 0)%nat && pad = false) as ->.
  { rewrite !andb_false_iff, !bool_decide_eq_false. destruct pad; [|by right].
    specialize (Hpad eq_refl). lia. }
  exists r. split; [done|].
  assert (forall i, (i < AE)%nat -> r !!! i = if decide (i = 0)%nat then (b !!! 0%nat) .& w
                                               else if pad then ALL_BITS_SET else 0) as E.
  { intros i Hi. unfold r. rewrite for_range_lookup by lia. unfold b1. rewrite list_lookup_total_insert.
    repeat case_decide; lia || done. }
  assert (forall j, (j < 64 * AE)%nat -> bit r j =
    if decide (j < 64)%nat then bit b j && Z.testbit w (Z.of_nat j)
    else pad && bool_decide (j < width)%nat) as Eb.
  { intros j Hj. unfold bit at 1. rewrite E by (by apply div_lt_AE). pose proof (pos_split j) as [Ej ?].
    case_decide as E0; case_decide; try lia.
    - rewrite Z.land_spec. unfold bit. rewrite E0. do 3 f_equal. lia.
    - destruct pad; [|by rewrite Z.testbit_0_l]. rewrite ALL_BITS_testbit by lia.
      specialize (Hpad eq_refl ltac:(lia)). pose proof (pos_split width).
      symmetry. apply bool_decide_eq_true. lia. }
  split; [|done]. split_and!; [done| |].
  - intros i Hi. rewrite E by done. case_decide.
    + apply ufits_land; [lia|apply Fb; lia|by destruct Hw].
    + destruct pad; by vm_compute.
  - intros j Hj. rewrite Eb, bool_decide_eq_false_2, andb_false_r, Hb by lia. by case_decide.
Qed.

(** ** Tests *)

Lemma word_zero_iff w : ufits 64 w -> w = 0 <-> forall k, 0 <= k < 64 -> Z.testbit w k = false.
Proof.
  intros Hw. split; [intros ->; intros; apply Z.testbit_0_l|]. intros Hk. apply Z.bits_inj'.
  intros i Hi. rewrite Z.testbit_0_l. destruct (decide (i < 64)); [apply Hk; lia|].
  apply (ufits_testbit 64); [done|lia].
Qed.

(** A test that no word of some combination of the arrays has a bit. *)
Lemma all_words_zero b m (g : bool -> bool -> bool) (f : Z -> Z -> Z) :
  wf b -> wf m -> g false false = false ->
  (forall x y, ufits 64 x -> ufits 64 y -> ufits 64 (f x y)) ->
  (forall x y k, 0 <= k < 64 -> Z.testbit (f x y) k = g (Z.testbit x k) (Z.testbit y k)) ->
  (forall i, (i < AE)%nat -> f (b !!! i) (m !!! i) = 0) <->
  forall n, (n < width)%nat -> g (bit b n) (bit m n) = false.
Proof.
  intros (Lb & Fb & Hb) (Lm & Fm & Hm) Hg Hfit Hf. pose proof AE_bounds. split.
  - intros E n Hn. pose proof (pos_split n). unfold bit. rewrite <- Hf by lia.
    rewrite E by (apply div_lt_AE; lia). apply Z.testbit_0_l.
  - intros E i Hi. apply word_zero_iff; [auto|]. intros k Hk. rewrite Hf by done.
    rewrite <- (Z2Nat.id k) by lia. rewrite <- !bit_nth by lia.
    destruct (decide (64 * i + Z.to_nat k < width)%nat); [by apply E|]. by rewrite Hb, Hm by lia.
Qed.

Lemma is_subset_iff b m : wf b -> wf m -> is_subset width b m = true <-> to_set b ⊆ to_set m.
Proof.
  intros Wb Wm. unfold is_subset. rewrite forallb_seq.
  transitivity (forall i, (i < AE)%nat -> (b !!! i) .& unot 64 (m !!! i) = 0).
  { split; intros E i; specialize (E i); rewrite ?negb_true_iff, ?c_true_false in *; intros; apply E; lia. }
  rewrite (all_words_zero b m (fun x y => x && negb y) (fun x y => x .& unot 64 y)); try done.
  - split.
    + intros E n. rewrite !elem_of_to_set. intros [Hn Hb]. split; [done|].
      specialize (E n Hn). rewrite Hb in E. by destruct (bit m n).
    + intros E n Hn. destruct (bit b n) eqn:Hb; [|done].
      specialize (E n). rewrite !elem_of_to_set in E. by rewrite (proj2 (E (conj Hn Hb))).
  - intros x y Hx _. apply ufits_land; [lia|done|]. pose proof (unot_range 64 y) as G. by apply G.
  - intros. by apply land_unot_testbit.
Qed.

Lemma is_overlapping_iff b m :
  wf b -> wf m -> is_overlapping width b m = true <-> to_set b ∩ to_set m <> ∅.
Proof.
  intros Wb Wm. rewrite <- (not_false_iff_true (is_overlapping width b m)). apply not_iff_compat.
  transitivity (forall i, (i < AE)%nat -> (b !!! i) .& (m !!! i) = 0).
  { unfold is_overlapping. rewrite <- not_true_iff_false, existsb_seq. split.
    - intros E i Hi. destruct (c_true ((b !!! i) .& (m !!! i))) eqn:Ec; [|by apply c_true_false].
      exfalso. apply E. exists i. split; [lia|done].
    - intros E (i & Hi & Hc). apply c_true_spec in Hc. apply Hc, E. lia. }
  rewrite (all_words_zero b m andb Z.land); try done.
  - split.
    + intros E. apply set_eq. intros n. rewrite elem_of_intersection, !elem_of_to_set.
      split; [|set_solver]. intros [[Hn H1] [_ H2]]. specialize (E n Hn). by rewrite H1, H2 in E.
    + intros E n Hn. destruct (bit b n) eqn:H1, (bit m n) eqn:H2; try done.
      assert (n ∈ to_set b ∩ to_set m) as Hx by (rewrite elem_of_intersection, !elem_of_to_set; done).
      rewrite E in Hx. set_solver.
  - intros x y Hx [Hy _]. by apply ufits_land; [lia| |].
  - intros. apply Z.land_spec.
Qed.

Lemma to_set_inj b m : wf b -> wf m -> to_set b = to_set m -> b = m.
Proof.
  intros Wb Wm E. apply wf_ext; try done. intros n Hn. apply eq_true_iff_eq.
  assert (n ∈ to_set b <-> n ∈ to_set m) as G by (by rewrite E).
  rewrite !elem_of_to_set in G. tauto.
Qed.

Lemma bitmap_eq_iff b m : wf b -> wf m -> bitmap_eq width b m = true <-> to_set b = to_set m.
Proof.
  intros Wb Wm. pose proof AE_bounds. transitivity (b = m).
  - unfold bitmap_eq. transitivity (forall i, (i < AE)%nat -> b !!! i = m !!! i).
    + case_decide.
      * rewrite forallb_seq. split; intros E i Hi; apply Z.eqb_eq, E; lia.
      * rewrite Z.eqb_eq. split; [intros E i Hi; by replace i with 0%nat by lia|intros E; apply E; lia].
    + split; [|by intros ->]. intros E. destruct Wb as [Lb _], Wm as [Lm _].
      apply list_eq_total; [congruence|]. by rewrite Lb.
  - split; [by intros ->|by apply to_set_inj].
Qed.

Lemma is_clear_all_iff b : wf b -> is_clear_all width b = true <-> to_set b = ∅.
Proof.
  intros Wb. unfold is_clear_all. rewrite forallb_seq.
  transitivity (forall i, (i < AE)%nat -> b !!! i = 0).
  { split; intros E i; specialize (E i); rewrite ?negb_true_iff, ?c_true_false in *; intros; apply E; lia. }
  rewrite (all_words_zero b b (fun x _ => x) (fun x _ => x)); try done. split.
  - intros E. apply set_eq. intros n. rewrite elem_of_to_set. split; [|set_solver].
    intros [Hn Hb]. by rewrite E in Hb.
  - intros E n Hn. destruct (bit b n) eqn:Hb; [|done].
    assert (n ∈ to_set b) as Hx by (by rewrite elem_of_to_set). rewrite E in Hx. set_solver.
Qed.

(** ** Cardinality *)

(** The bit numbers of the array are those of its words in turn. *)
Lemma seq_words k : seq 0 (64 * k) = mjoin ((fun i => (fun c => (64 * i + c)%nat) <$> seq 0 64) <$> seq 0 k).
Proof.
  induction k as [|k IH]; [done|].
  replace (64 * S k)%nat with (64 * k + 64)%nat by lia. rewrite seq_app, IH.
  rewrite (seq_S k 0), fmap_app, join_app. f_equal. rewrite fmap_cons, fmap_nil, mjoin_cons.
  change (mjoin []) with (@nil nat). rewrite app_nil_r. symmetry. rewrite !Nat.add_0_l.
  etransitivity; [apply fmap_add_seq|]. by rewrite Nat.add_0_r.
Qed.

Lemma word_elems b i :
  filter (fun n => bit b n = true) ((fun c => (64 * i + c)%nat) <$> seq 0 64) =
  (fun c => (64 * i + c)%nat) <$> word_bits (b !!! i).
Proof.
  unfold word_bits. assert (forall l, Forall (fun c => c < 64)%nat l ->
    filter (fun n => bit b n = true) ((fun c => (64 * i + c)%nat) <$> l) =
    (fun c => (64 * i + c)%nat) <$> filter (fun c => Z.testbit (b !!! i) (Z.of_nat c) = true) l) as G.
  { induction 1 as [|c l Hc _ IH]; [done|]. rewrite fmap_cons, !filter_cons.
    rewrite (bit_nth b i c Hc). case_decide; [by rewrite fmap_cons, IH|done]. }
  apply G, Forall_seq. lia.
Qed.

Lemma elems_words b k :
  filter (fun n => bit b n = true) (seq 0 (64 * k)) =
  mjoin ((fun i => (fun c => (64 * i + c)%nat) <$> word_bits (b !!! i)) <$> seq 0 k).
Proof.
  rewrite seq_words. generalize (seq 0 k) as l. induction l as [|i l IH]; [done|].
  rewrite !fmap_cons, !mjoin_cons. by rewrite list.filter_app, IH, word_elems.
Qed.

(** Nothing is lost by looking at the bits of the array beyond [width]. *)
Lemma elems_all b :
  wf b -> filter (fun n => bit b n = true) (seq 0 (64 * AE)) =
          filter (fun n => bit b n = true) (seq 0 width).
Proof.
  intros (_ & _ & Hb). pose proof AE_bounds.
  replace (64 * AE)%nat with (width + (64 * AE - width))%nat by lia.
  rewrite seq_app, list.filter_app.
  rewrite <- (app_nil_r (filter _ (seq 0 width))) at 2. f_equal. apply filter_none.
  intros n Hn. rewrite elem_of_seq in Hn. by rewrite Hb by lia.
Qed.

Lemma size_to_set b : size (to_set b) = length (filter (fun n => bit b n = true) (seq 0 width)).
Proof. apply size_list_to_set, NoDup_filter, NoDup_seq. Qed.

Lemma bits_set_sum b l (acc : Z) :
  (forall i, i ∈ l -> ufits 64 (b !!! i)) ->
  0 <= acc -> acc + 64 * Z.of_nat (length l) < 2 ^ 32 ->
  foldl (fun res i => u32 (res + my_count_bits (b !!! i))) acc l =
  acc + Z.of_nat (length (mjoin ((fun i => (fun c => (64 * i + c)%nat) <$> word_bits (b !!! i)) <$> l))).
Proof.
  revert acc. induction l as [|i l IH]; intros acc Hb Ha Hl; [cbn; lia|].
  rewrite fmap_cons, mjoin_cons. cbn [foldl length] in *.
  rewrite my_count_bits_popcount by (apply Hb; left). pose proof (popcount_bound 64 (b !!! i)).
  rewrite uwrap_small by (unfold ufits; lia). rewrite IH; [|by intros; apply Hb; right|lia..].
  rewrite length_app, length_fmap. unfold popcount, word_bits. lia.
Qed.

(** [bits_set] is the number of elements of the set the bitmap denotes. *)
Theorem bits_set_size b :
  wf b -> Z.of_nat width < 2 ^ 31 -> bits_set width b = Z.of_nat (size (to_set b)).
Proof.
  intros Wb Hw. pose proof AE_bounds. unfold bits_set. rewrite bits_set_sum.
  - by rewrite <- elems_words, elems_all, size_to_set.
  - intros i Hi. rewrite elem_of_seq in Hi. destruct Wb as (_ & Fb & _). apply Fb. lia.
  - lia.
  - rewrite length_seq. lia.
Qed.

(** ** Iteration *)

(** What the iterator has still to yield. *)
Definition pending b (it : Iterator) : list nat :=
  ((fun c => it_offset it + c)%nat <$> word_bits (it_tmi it)) ++
  mjoin ((fun i => (fun c => (64 * i + c)%nat) <$> word_bits (b !!! i)) <$>
    seq (it_offset it / 64 + 1) (AE - (it_offset it / 64 + 1))).

Definition it_wf (it : Iterator) : Prop :=
  (it_offset it mod 64 = 0 /\ it_offset it < 64 * AE)%nat /\ ufits 64 (it_tmi it).

Lemma Iterator_next_spec fuel b it :
  wf b -> it_wf it -> (AE - it_offset it / 64 <= fuel)%nat ->
  match pending b it with
  | [] => exists it', Iterator_next width fuel b it = Some (Z.of_nat width, it')
  | n :: ns => exists it', Iterator_next width fuel b it = Some (Z.of_nat n, it') /\
                           it_wf it' /\ pending b it' = ns
  end.
Proof.
  intros Wb. revert it. pose proof AE_bounds.
  induction fuel as [|fuel IH]; intros [off tmi] [[Hmod Hoff] Htmi] Hfuel; cbn [it_offset it_tmi] in *.
  { pose proof (div_lt_AE off Hoff). lia. }
  pose proof (next_bit_spec tmi Htmi) as Hn. unfold pending. cbn [it_offset it_tmi].
  pose proof (pos_split off) as [Eoff _].
  destruct (word_bits tmi) as [|k ks] eqn:Ew.
  - destruct Hn as [-> Hn]. cbn [Iterator_next it_tmi it_offset]. rewrite Hn. cbn [mbind option_bind].
    rewrite Z.eqb_refl. cbn [negb]. unfold BITS_PER_ELEMENT. case_decide as Hend.
    + replace (AE - (off / 64 + 1))%nat with 0%nat by lia. simpl. eauto.
    + rewrite fmap_nil, app_nil_l.
      destruct (pos_of (off / 64 + 1) 0 ltac:(lia)) as [Ediv Em].
      replace (64 * (off / 64 + 1) + 0)%nat with (off + 64)%nat in Ediv, Em by lia.
      set (it' := mkIterator (off + 64) _).
      assert (it_wf it') as Wit.
      { split; [split; [done|unfold it'; cbn [it_offset]; lia]|].
        destruct Wb as (_ & Fb & _). unfold it'. cbn [it_tmi]. apply Fb. rewrite Ediv. lia. }
      change (off + 64)%nat with (it_offset it') in Ediv.
      replace (AE - (off / 64 + 1))%nat with (S (AE - (it_offset it' / 64 + 1))) by lia.
      specialize (IH it' Wit ltac:(lia)). unfold pending in IH. rewrite Ediv in IH |- *.
      cbn [seq]. rewrite fmap_cons, mjoin_cons.
      replace (64 * (off / 64 + 1))%nat with (it_offset it') by (unfold it'; cbn [it_offset]; lia).
      replace (b !!! (off / 64 + 1)%nat) with (it_tmi it') by (unfold it'; cbn [it_tmi]; by rewrite <- Ediv).
      rewrite <- (Nat.add_1_r (off / 64 + 1)). exact IH.
  - destruct Hn as (bmp' & Hn & Hk & Hfit & Hks). cbn [Iterator_next it_tmi it_offset].
    rewrite Hn. cbn [mbind option_bind]. rewrite (proj2 (Z.eqb_neq _ _)) by (unfold TMI_BITMAP_END; lia).
    cbn [negb]. rewrite fmap_cons. cbn [app]. eexists. split; [do 2 f_equal; lia|].
    split; [done|]. unfold pending. cbn [it_offset it_tmi]. by rewrite Hks.
Qed.

(** All the values a fresh iterator yields before [BITMAP_END]. *)
Fixpoint iterate_all (steps : nat) b (it : Iterator) : option (list nat) :=
  match steps with
  | O => None
  | S steps =>
      '(r, it) ← Iterator_next width (S AE) b it;
      if r =? Z.of_nat width then Some []
      else ns ← iterate_all steps b it; Some (Z.to_nat r :: ns)
  end.

Lemma iterate_all_spec steps b it :
  wf b -> it_wf it -> Forall (fun n => n < width)%nat (pending b it) ->
  (length (pending b it) < steps)%nat -> iterate_all steps b it = Some (pending b it).
Proof.
  intros Wb. revert it. induction steps as [|steps IH]; intros it Wit Hlt Hlen; [lia|].
  pose proof (Iterator_next_spec (S AE) b it Wb Wit ltac:(lia)) as Hn.
  cbn [iterate_all]. destruct (pending b it) as [|n ns].
  - destruct Hn as (it' & ->). cbn [mbind option_bind]. by rewrite Z.eqb_refl.
  - destruct Hn as (it' & -> & Wit' & Ep). cbn [mbind option_bind]. inversion Hlt; subst.
    rewrite (proj2 (Z.eqb_neq _ _)) by lia. cbn [length] in Hlen.
    rewrite IH by (done || lia). cbn [mbind option_bind]. by rewrite Nat2Z.id.
Qed.

Lemma pending_init b : wf b ->
  pending b (Iterator_init b) = filter (fun n => bit b n = true) (seq 0 width).
Proof.
  intros Wb. pose proof AE_bounds. rewrite <- elems_all, elems_words by done. unfold pending.
  cbn [Iterator_init it_offset it_tmi]. change (0 / 64)%nat with 0%nat.
  replace (seq 0 AE) with (0%nat :: seq (0 + 1) (AE - (0 + 1)))
    by (replace AE with (S (AE - 1)) at 2 by lia; done).
  by rewrite fmap_cons, mjoin_cons.
Qed.

(** A walk with [Bitmap<width>::Iterator] terminates and yields every
    element of the set exactly once, in increasing order, and nothing else. *)
Theorem Iterator_enumerates b :
  wf b ->
  exists l, iterate_all (S width) b (Iterator_init b) = Some l /\
            StronglySorted lt l /\ forall n, n ∈ l <-> n ∈ to_set b.
Proof.
  intros Wb. exists (filter (fun n => bit b n = true) (seq 0 width)). split_and!.
  - rewrite <- pending_init by done. apply iterate_all_spec; [done|..].
    + pose proof AE_bounds. split; [split; [done|cbn [Iterator_init it_offset]; lia]|]. destruct Wb as (_ & Fb & _). apply Fb. lia.
    + rewrite pending_init by done. apply Forall_forall. intros n Hn.
      rewrite list_elem_of_filter, elem_of_seq in Hn. lia.
    + rewrite pending_init by done. apply Nat.lt_succ_r.
      etrans; [apply length_filter|]. by rewrite length_seq.
  - apply filter_seq_sorted.
  - intros n. rewrite elem_of_to_set, list_elem_of_filter, elem_of_seq.
    split; [intros [? ?]|intros [? ?]]; (split; [done || lia|done || lia]).
Qed.

(** ** The operations refine finite sets *)

Lemma to_set_of b (P : nat -> Prop) `{forall j, Decision (P j)} (s : gset nat) :
  (forall j, (j < 64 * AE)%nat -> bit b j = bool_decide (P j)) ->
  (forall j, j ∈ s <-> (j < width)%nat /\ P j) -> to_set b = s.
Proof.
  intros E Hs. pose proof AE_bounds. apply set_eq. intros j. rewrite elem_of_to_set, Hs.
  split; intros [Hj Hb]; (split; [done|]).
  - rewrite E in Hb by lia. by apply bool_decide_eq_true in Hb.
  - rewrite E by lia. by apply bool_decide_eq_true.
Qed.

Lemma to_set_combine a b m (g : bool -> bool -> bool) (s : gset nat) :
  (forall j, (j < 64 * AE)%nat -> bit a j = g (bit b j) (bit m j)) ->
  (forall j, (j < width)%nat -> j ∈ s <->
     g (bool_decide (j ∈ to_set b)) (bool_decide (j ∈ to_set m)) = true) ->
  (forall j, j ∈ s -> (j < width)%nat) -> to_set a = s.
Proof.
  intros E Hs Hlt. pose proof AE_bounds. apply set_eq. intros j. rewrite elem_of_to_set.
  assert (forall c, (j < width)%nat -> bool_decide (j ∈ to_set c) = bit c j) as B.
  { intros c Hj. apply eq_true_iff_eq. rewrite bool_decide_eq_true, elem_of_to_set. tauto. }
  split.
  - intros [Hj Hb]. apply Hs; [done|]. by rewrite !B, <- E by lia.
  - intros Hj. assert (j < width)%nat by auto. split; [done|]. rewrite E, <- !B by lia. by apply Hs.
Qed.

(** A mutator that passed its assertions and left a bitmap that denotes [s]. *)
Definition yields (o : option (list Z)) (s : gset nat) : Prop :=
  match o with Some a => wf a /\ to_set a = s | None => False end.

Lemma yields_of (o : option (list Z)) (P : nat -> Prop) `{forall j, Decision (P j)} (s : gset nat) :
  (exists a, o = Some a /\ wf a /\ forall j, (j < 64 * AE)%nat -> bit a j = bool_decide (P j)) ->
  (forall j, j ∈ s <-> (j < width)%nat /\ P j) -> yields o s.
Proof. intros (a & -> & W & E) Hs. split; [done|]. by apply (to_set_of a P). Qed.

Lemma set_bit_yields b n : wf b -> (n < width)%nat -> yields (set_bit width b n) ({[n]} ∪ to_set b).
Proof.
  intros Wb Hn. pose proof AE_bounds. destruct (set_bit_wf b n Wb Hn) as (a & -> & W & E). split; [done|].
  apply set_eq. intros j. rewrite elem_of_union, elem_of_singleton, !elem_of_to_set. split.
  - intros [Hj Hb]. rewrite E, orb_true_iff, bool_decide_eq_true in Hb by lia. tauto.
  - intros [->|[Hj Hb]]; (split; [done|]); rewrite E, orb_true_iff, bool_decide_eq_true by lia; tauto.
Qed.

Lemma clear_bit_yields b n : wf b -> (n < width)%nat -> yields (clear_bit width b n) (to_set b ∖ {[n]}).
Proof.
  intros Wb Hn. pose proof AE_bounds. destruct (clear_bit_wf b n Wb Hn) as (a & -> & W & E). split; [done|].
  apply set_eq. intros j. rewrite elem_of_difference, elem_of_singleton, !elem_of_to_set. split.
  - intros [Hj Hb]. rewrite E, andb_true_iff, negb_true_iff, bool_decide_eq_false in Hb by lia. tauto.
  - intros [[Hj Hb] Hne]. split; [done|].
    rewrite E, andb_true_iff, negb_true_iff, bool_decide_eq_false by lia. tauto.
Qed.

Lemma set_prefix_yields b p :
  length b = AE -> prefix_ok p -> yields (set_prefix width b p) (set_seq 0 (Nat.min p width)).
Proof.
  intros Lb Hp. apply (yields_of _ (fun j => j < Nat.min p width)%nat); [by apply set_prefix_wf|].
  intros j. rewrite elem_of_set_seq. lia.
Qed.

(** C3.  Every mutating operation of [Bitmap<width>] keeps the representation
    invariant and is, on the set of bit numbers, the set operation its name
    says; operands and results never gain a bit at or above [width].  The bit
    number given to [set_bit] and [clear_bit] is below [width], as they assert.
    The assertions of [set_prefix] hold exactly when the prefix is shorter than
    the width or the width is a multiple of 64, and those of [set_all] exactly
    when the width is such a multiple, as it is for the [key_map]s of 64 bits. *)
Theorem bitmap_ops_refine_sets b m n p :
  wf b -> wf m -> (n < width)%nat ->
  yields (set_bit width b n) ({[n]} ∪ to_set b) /\
  yields (clear_bit width b n) (to_set b ∖ {[n]}) /\
  (if decide (prefix_ok p) then yields (set_prefix width b p) (set_seq 0 (Nat.min p width))
   else set_prefix width b p = None) /\
  (if decide (width mod 64 = 0)%nat then yields (set_all width b) (set_seq 0 width)
   else set_all width b = None) /\
  (wf (clear_all width b) /\ to_set (clear_all width b) = ∅) /\
  (wf (intersect width b m) /\ to_set (intersect width b m) = to_set b ∩ to_set m) /\
  (wf (merge width b m) /\ to_set (merge width b m) = to_set b ∪ to_set m) /\
  (wf (subtract width b m) /\ to_set (subtract width b m) = to_set b ∖ to_set m).
Proof.
  intros Wb Wm Hn. pose proof Wb as (Lb & _). destruct (clear_all_wf b Lb) as [W5 E5].
  destruct (intersect_wf b m Wb Wm) as [W6 E6].
  destruct (merge_wf b m Wb Wm) as [W7 E7]. destruct (subtract_wf b m Wb Wm) as [W8 E8].
  pose proof AE_bounds. split_and!; auto using set_bit_yields, clear_bit_yields.
  - case_decide; [by apply set_prefix_yields|by apply set_prefix_fails].
  - case_decide; [|by apply set_all_fails].
    apply (yields_of _ (fun j => j < width)%nat); [by apply set_all_wf|]. intros j. rewrite elem_of_set_seq. lia.
  - apply (to_set_of _ (fun _ => False)); [done|]. set_solver.
  - apply (to_set_combine _ b m andb); [done| |].
    + intros j Hj. rewrite elem_of_intersection, andb_true_iff, !bool_decide_eq_true. done.
    + intros j. rewrite elem_of_intersection, elem_of_to_set. tauto.
  - apply (to_set_combine _ b m orb); [done| |].
    + intros j Hj. rewrite elem_of_union, orb_true_iff, !bool_decide_eq_true. done.
    + intros j. rewrite elem_of_union, !elem_of_to_set. tauto.
  - apply (to_set_combine _ b m (fun x y => x && negb y)); [done| |].
    + intros j Hj. rewrite elem_of_difference, andb_true_iff, negb_true_iff,
        bool_decide_eq_true, bool_decide_eq_false. done.
    + intros j. rewrite elem_of_difference, elem_of_to_set. tauto.
Qed.

(** The answer of a test that passed its assertions, and what it decides. *)
Definition decides (o : option bool) (P : Prop) : Prop :=
  match o with Some r => r = true <-> P | None => False end.

(** The tests of [Bitmap<width>] decide the matching relations on sets:
    membership, prefix, emptiness, inclusion, overlap and equality. *)
Theorem bitmap_tests_decide_sets b m n p :
  wf b -> wf m -> (n < width)%nat -> (p <= width)%nat -> prefix_ok p ->
  decides (is_set width b n) (n ∈ to_set b) /\
  decides (is_prefix width b p) (to_set b = set_seq 0 p) /\
  (is_clear_all width b = true <-> to_set b = ∅) /\
  (is_subset width b m = true <-> to_set b ⊆ to_set m) /\
  (is_overlapping width b m = true <-> to_set b ∩ to_set m <> ∅) /\
  (bitmap_eq width b m = true <-> to_set b = to_set m).
Proof.
  intros Wb Wm Hn Hp Hok. split_and!; auto using is_clear_all_iff, is_subset_iff, is_overlapping_iff, bitmap_eq_iff.
  { rewrite is_set_bit by done. cbn [decides]. rewrite elem_of_to_set. tauto. }
  pose proof Wb as (Lb & _). destruct (is_prefix_words b p Wb Hp Hok) as (r & -> & Hr). cbn [decides]. rewrite Hr.
  pose proof (set_prefix_yields b p Lb Hok) as Y. destruct (set_prefix_lookup b p Lb Hok) as (a & Ea & La & Ha).
  rewrite Ea in Y. destruct Y as [Wa Es]. rewrite Nat.min_l in Ha, Es by done. rewrite <- Es. transitivity (b = a).
  - split.
    + intros E. apply list_eq_total; [congruence|]. intros i Hi. by rewrite Ha, E by lia.
    + intros -> i Hi. by apply Ha.
  - split; [by intros <-|]. intros E. by apply to_set_inj.
Qed.

(** [intersect(ulonglong)] keeps the bits of the word and nothing above it;
    [intersect_extended] lets bit 63 of the word stand for all bits above,
    where there is no word that the width cuts off. *)
Theorem intersect_word_spec b w :
  wf b -> ufits 64 w -> (width mod 64 = 0 \/ width <= 64)%nat ->
  exists r r', intersect_ulonglong width b w = Some r /\ intersect_extended width b w = Some r' /\ wf r /\ wf r' /\
  (forall j, j ∈ to_set r <-> j ∈ to_set b /\ (j < 64)%nat /\ Z.testbit w (Z.of_nat j) = true) /\
  (forall j, j ∈ to_set r' <->
     (j ∈ to_set b /\ (j < 64)%nat /\ Z.testbit w (Z.of_nat j) = true) \/
     ((64 <= j < width)%nat /\ Z.testbit w 63 = true)).
Proof.
  intros Wb Hw Hwd. unfold intersect_ulonglong, intersect_extended. pose proof AE_bounds.
  rewrite shiftl_1_l, (uwrap_small 64 (2 ^ 63)), c_true_land_pow2 by (lia || by vm_compute).
  assert (forall pad, pad = true -> (1 < AE)%nat -> width mod 64 = 0)%nat as Hp by lia.
  destruct (intersect_and_pad_wf b w false Wb Hw (Hp _)) as (r & -> & W1 & E1).
  destruct (intersect_and_pad_wf b w (Z.testbit w 63) Wb Hw (Hp _)) as (r' & -> & W2 & E2).
  exists r, r'. split_and!; try done; intros j; rewrite !elem_of_to_set.
  - split.
    + intros [Hj Hb]. rewrite E1 in Hb by lia. case_decide; [rewrite andb_true_iff in Hb; tauto|done].
    + intros [[Hj Hb] [Hl Ht]]. split; [done|]. rewrite E1, decide_True by lia. by rewrite Hb, Ht.
  - split.
    + intros [Hj Hb]. rewrite E2 in Hb by lia.
      case_decide; rewrite andb_true_iff in Hb; [left; tauto|right; split; [lia|tauto]].
    + intros [[[Hj Hb] [Hl Ht]]|[Hj Ht]]; (split; [lia|]).
      * rewrite E2, decide_True by lia. by rewrite Hb, Ht.
      * rewrite E2, decide_False, Ht by lia. apply bool_decide_eq_true. lia.
Qed.

(** [print] is broken for every bitmap with a bit above the first word: its
    digit loop adds to the shift instead of subtracting from it, so the second
    digit is shifted by 64, which C leaves undefined. *)
Theorem print_undefined dig l2s b n buf :
  wf b -> (64 <= n)%nat -> n ∈ to_set b -> print width dig l2s b buf = None.
Proof.
  intros Wb Hn Hset. apply elem_of_to_set in Hset as [Hw Hb]. pose proof AE_bounds.
  assert (n / 64 <> 0)%nat as Hi.
  { intros E. pose proof (pos_split n). lia. }
  assert (b !!! (n / 64)%nat <> 0) as Hz.
  { intros E. unfold bit in Hb. by rewrite E, Z.testbit_0_l in Hb. }
  assert (forall k, (n / 64 <= k)%nat -> print_last k b <> 0%nat) as Hlast.
  { induction k as [|k IH]; intros Hk; [lia|]. cbn [print_last].
    destruct (c_true (b !!! S k)) eqn:Ec; [done|]. apply c_true_false in Ec. apply IH.
    destruct (decide (n / 64 = S k)%nat) as [E|]; [|lia]. by rewrite E in Hz. }
  unfold print. specialize (Hlast (AE - 1)%nat). pose proof (div_lt_AE n ltac:(lia)).
  destruct (print_last (AE - 1) b) as [|last]; [by exfalso; apply Hlast; [lia|]|].
  cbn [seq foldl mbind option_bind].
  assert (forall z p c, print_digits dig 16 z (Z.of_nat BITS_PER_ELEMENT - 4) p c = None) as -> by done.
  induction (seq 1 last) as [|i l IH]; done.
Qed.

End bitmap_facts.

(** A 128-bit bitmap holding the numbers below [p]. *)
Definition prefix128 (p : nat) : list Z := default [] (set_prefix 128 [0; 0] p).

Lemma prefix128_wf p : wf 128 (prefix128 p).
Proof.
  unfold prefix128. destruct (set_prefix_wf 128 ltac:(lia) [0; 0] p eq_refl) as (a & -> & W & _); [by right|done].
Qed.

Lemma bits_set_size_witness : bits_set 128 (prefix128 67) = Z.of_nat (size (to_set 128 (prefix128 67))).
Proof. apply bits_set_size; [lia|apply prefix128_wf|lia]. Defined.

Lemma Iterator_enumerates_witness :
  exists l, iterate_all 128 129 (prefix128 67) (Iterator_init (prefix128 67)) = Some l /\
            StronglySorted lt l /\ forall n, n ∈ l <-> n ∈ to_set 128 (prefix128 67).
Proof. apply Iterator_enumerates; [lia|apply prefix128_wf]. Defined.

Lemma bitmap_ops_refine_sets_witness :
  yields 128 (set_bit 128 (prefix128 3) 68) ({[68%nat]} ∪ to_set 128 (prefix128 3)) /\
  yields 128 (set_all 128 (prefix128 3)) (set_seq 0 128).
Proof.
  assert (0 < 128 /\ 68 < 128)%nat as [H0 H1] by lia.
  pose proof (bitmap_ops_refine_sets 128 H0 (prefix128 3) (prefix128 3) 68 0
    (prefix128_wf 3) (prefix128_wf 3) H1) as (H & _ & _ & H' & _).
  exact (conj H H').
Defined.

Lemma bitmap_tests_decide_sets_witness :
  decides (is_set 128 (prefix128 69) 68) ((68%nat) ∈ to_set 128 (prefix128 69)).
Proof.
  refine (proj1 (bitmap_tests_decide_sets 128 _ (prefix128 69) (prefix128 3) 68 3 _ _ _ _ _)).
  - lia.
  - apply prefix128_wf.
  - apply prefix128_wf.
  - lia.
  - lia.
  - left. lia.
Defined.

Lemma intersect_word_spec_witness :
  exists r', intersect_extended 128 (prefix128 69) (2 ^ 63) = Some r' /\ wf 128 r'.
Proof.
  destruct (intersect_word_spec 128 ltac:(lia) (prefix128 69) (2 ^ 63)) as (r & r' & _ & E & _ & W & _).
  - apply prefix128_wf.
  - vm_compute. split; [discriminate|reflexivity].
  - left. reflexivity.
  - exists r'. split; [exact E|exact W].
Defined.

Lemma print_undefined_witness :
  print 128 (fun _ => x30) (fun _ buf _ => buf) (prefix128 69) [] = None.
Proof.
  apply (print_undefined 128 ltac:(lia) _ _ _ 64).
  - apply prefix128_wf.
  - lia.
  - apply elem_of_to_set; [lia|]. split; [lia|]. by vm_compute.
Defined.
