(* ===== verification/Privilege.v ===== *)
(** Privileges: [private/privilege.h].

    A privilege set is the 64-bit word the code keeps in a [privilege_t]; the
    enumerators are the constructors of [privilege_t], read as words through
    [privilege_val].  Besides the tables of constants the file has the mappings
    between the bits of a set and the bits stored in the grant tables. *)

From S2P Require Import Prelude MyBit.

(** * The privilege bits *)

Inductive privilege_t :=
  | NO_ACL | SELECT_ACL | INSERT_ACL | UPDATE_ACL | DELETE_ACL
  | CREATE_ACL | DROP_ACL | RELOAD_ACL | SHUTDOWN_ACL | PROCESS_ACL
  | FILE_ACL | GRANT_ACL | REFERENCES_ACL | INDEX_ACL | ALTER_ACL
  | SHOW_DB_ACL | SUPER_ACL | CREATE_TMP_ACL | LOCK_TABLES_ACL | EXECUTE_ACL
  | REPL_SLAVE_ACL | BINLOG_MONITOR_ACL | CREATE_VIEW_ACL | SHOW_VIEW_ACL | CREATE_PROC_ACL
  | ALTER_PROC_ACL | CREATE_USER_ACL | EVENT_ACL | TRIGGER_ACL | CREATE_TABLESPACE_ACL
  | DELETE_HISTORY_ACL | SET_USER_ACL | FEDERATED_ADMIN_ACL | CONNECTION_ADMIN_ACL | READ_ONLY_ADMIN_ACL
  | REPL_SLAVE_ADMIN_ACL | REPL_MASTER_ADMIN_ACL | BINLOG_ADMIN_ACL | BINLOG_REPLAY_ACL | SLAVE_MONITOR_ACL.

Definition privilege_val (p : privilege_t) : Z :=
  match p with
  | NO_ACL => 0
  | SELECT_ACL => 1 .<< 0
  | INSERT_ACL => 1 .<< 1
  | UPDATE_ACL => 1 .<< 2
  | DELETE_ACL => 1 .<< 3
  | CREATE_ACL => 1 .<< 4
  | DROP_ACL => 1 .<< 5
  | RELOAD_ACL => 1 .<< 6
  | SHUTDOWN_ACL => 1 .<< 7
  | PROCESS_ACL => 1 .<< 8
  | FILE_ACL => 1 .<< 9
  | GRANT_ACL => 1 .<< 10
  | REFERENCES_ACL => 1 .<< 11
  | INDEX_ACL => 1 .<< 12
  | ALTER_ACL => 1 .<< 13
  | SHOW_DB_ACL => 1 .<< 14
  | SUPER_ACL => 1 .<< 15
  | CREATE_TMP_ACL => 1 .<< 16
  | LOCK_TABLES_ACL => 1 .<< 17
  | EXECUTE_ACL => 1 .<< 18
  | REPL_SLAVE_ACL => 1 .<< 19
  | BINLOG_MONITOR_ACL => 1 .<< 20
  | CREATE_VIEW_ACL => 1 .<< 21
  | SHOW_VIEW_ACL => 1 .<< 22
  | CREATE_PROC_ACL => 1 .<< 23
  | ALTER_PROC_ACL => 1 .<< 24
  | CREATE_USER_ACL => 1 .<< 25
  | EVENT_ACL => 1 .<< 26
  | TRIGGER_ACL => 1 .<< 27
  | CREATE_TABLESPACE_ACL => 1 .<< 28
  | DELETE_HISTORY_ACL => 1 .<< 29
  | SET_USER_ACL => 1 .<< 30
  | FEDERATED_ADMIN_ACL => 1 .<< 31
  | CONNECTION_ADMIN_ACL => 1 .<< 32
  | READ_ONLY_ADMIN_ACL => 1 .<< 33
  | REPL_SLAVE_ADMIN_ACL => 1 .<< 34
  | REPL_MASTER_ADMIN_ACL => 1 .<< 35
  | BINLOG_ADMIN_ACL => 1 .<< 36
  | BINLOG_REPLAY_ACL => 1 .<< 37
  | SLAVE_MONITOR_ACL => 1 .<< 38
  end.

Definition all_privileges : list privilege_t :=
  [NO_ACL; SELECT_ACL; INSERT_ACL; UPDATE_ACL; DELETE_ACL; CREATE_ACL; DROP_ACL; RELOAD_ACL;
   SHUTDOWN_ACL; PROCESS_ACL; FILE_ACL; GRANT_ACL; REFERENCES_ACL; INDEX_ACL; ALTER_ACL; SHOW_DB_ACL;
   SUPER_ACL; CREATE_TMP_ACL; LOCK_TABLES_ACL; EXECUTE_ACL; REPL_SLAVE_ACL; BINLOG_MONITOR_ACL;
   CREATE_VIEW_ACL; SHOW_VIEW_ACL; CREATE_PROC_ACL; ALTER_PROC_ACL; CREATE_USER_ACL; EVENT_ACL;
   TRIGGER_ACL; CREATE_TABLESPACE_ACL; DELETE_HISTORY_ACL; SET_USER_ACL; FEDERATED_ADMIN_ACL;
   CONNECTION_ADMIN_ACL; READ_ONLY_ADMIN_ACL; REPL_SLAVE_ADMIN_ACL; REPL_MASTER_ADMIN_ACL;
   BINLOG_ADMIN_ACL; BINLOG_REPLAY_ACL; SLAVE_MONITOR_ACL].

Coercion privilege_val : privilege_t >-> Z.

#[export] Instance privilege_eq_dec : EqDecision privilege_t.
Proof. solve_decision. Defined.

(** [a & b], [a | b], [~a] on sets. *)
Definition privilege_and (a b : Z) : Z := a .& b.
Definition privilege_or (a b : Z) : Z := a .| b.
Definition privilege_not (access : Z) : Z := unot 64 access.
Definition privilege_and_assign (a b : Z) : Z := privilege_and a b.
Definition privilege_or_assign (a b : Z) : Z := privilege_or a b.

Definition ALL_KNOWN_BITS (x : Z) : Z := x .| u64 (x - 1).

Definition LAST_100304_ACL : Z := DELETE_HISTORY_ACL.
Definition LAST_100502_ACL : Z := BINLOG_REPLAY_ACL.
Definition LAST_100508_ACL : Z := SLAVE_MONITOR_ACL.
Definition LAST_CURRENT_ACL : Z := LAST_100508_ACL.
Definition PRIVILEGE_T_MAX_BIT : Z := my_bit_log2_uint64 LAST_CURRENT_ACL.
Definition ALL_KNOWN_ACL_100304 : Z := ALL_KNOWN_BITS LAST_100304_ACL.
Definition ALL_KNOWN_ACL_100502 : Z := ALL_KNOWN_BITS LAST_100502_ACL.
Definition ALL_KNOWN_ACL_100508 : Z := ALL_KNOWN_BITS LAST_100508_ACL.
Definition ALL_KNOWN_ACL_100509 : Z := ALL_KNOWN_ACL_100508.
Definition ALL_KNOWN_ACL : Z := ALL_KNOWN_BITS LAST_CURRENT_ACL.

(** * Combinations *)

Definition GLOBAL_SUPER_ADDED_SINCE_USER_TABLE_ACLS : Z :=
  SET_USER_ACL .| FEDERATED_ADMIN_ACL .| CONNECTION_ADMIN_ACL .| READ_ONLY_ADMIN_ACL .|
  REPL_SLAVE_ADMIN_ACL .| BINLOG_ADMIN_ACL .| BINLOG_REPLAY_ACL.
Definition COL_DML_ACLS : Z := SELECT_ACL .| INSERT_ACL .| UPDATE_ACL .| DELETE_ACL.
Definition VIEW_ACLS : Z := CREATE_VIEW_ACL .| SHOW_VIEW_ACL.
Definition STD_TABLE_DDL_ACLS : Z := CREATE_ACL .| DROP_ACL .| ALTER_ACL.
Definition ALL_TABLE_DDL_ACLS : Z := STD_TABLE_DDL_ACLS .| INDEX_ACL.
Definition COL_ACLS : Z := SELECT_ACL .| INSERT_ACL .| UPDATE_ACL .| REFERENCES_ACL.
Definition PROC_DDL_ACLS : Z := CREATE_PROC_ACL .| ALTER_PROC_ACL.
Definition SHOW_PROC_ACLS : Z := PROC_DDL_ACLS .| EXECUTE_ACL.
Definition TABLE_ACLS : Z :=
  COL_DML_ACLS .| ALL_TABLE_DDL_ACLS .| VIEW_ACLS .| GRANT_ACL .| REFERENCES_ACL .| TRIGGER_ACL .|
  DELETE_HISTORY_ACL.
Definition DB_ACLS : Z :=
  TABLE_ACLS .| PROC_DDL_ACLS .| EXECUTE_ACL .| CREATE_TMP_ACL .| LOCK_TABLES_ACL .| EVENT_ACL.
Definition PROC_ACLS : Z := ALTER_PROC_ACL .| EXECUTE_ACL .| GRANT_ACL.
Definition GLOBAL_ACLS : Z :=
  DB_ACLS .| SHOW_DB_ACL .| CREATE_USER_ACL .| CREATE_TABLESPACE_ACL .| SUPER_ACL .| RELOAD_ACL .|
  SHUTDOWN_ACL .| PROCESS_ACL .| FILE_ACL .| REPL_SLAVE_ACL .| BINLOG_MONITOR_ACL .|
  GLOBAL_SUPER_ADDED_SINCE_USER_TABLE_ACLS .| REPL_MASTER_ADMIN_ACL .| SLAVE_MONITOR_ACL.
Definition DEFAULT_CREATE_PROC_ACLS : Z := ALTER_PROC_ACL .| EXECUTE_ACL.
Definition SHOW_CREATE_TABLE_ACLS : Z :=
  COL_DML_ACLS .| ALL_TABLE_DDL_ACLS .| TRIGGER_ACL .| REFERENCES_ACL .| GRANT_ACL .| VIEW_ACLS.
Definition TMP_TABLE_ACLS : Z := COL_DML_ACLS .| ALL_TABLE_DDL_ACLS.

(** The constants [PRIV_...]: what an action requires (any one of the bits). *)
Definition PRIV_LOCK_TABLES : Z := SELECT_ACL .| LOCK_TABLES_ACL.
Definition PRIV_DEFINER_CLAUSE : Z := SET_USER_ACL .| SUPER_ACL.
Definition PRIV_REVEAL_MISSING_DEFINER : Z := SET_USER_ACL .| SUPER_ACL.
Definition PRIV_DES_DECRYPT_ONE_ARG : Z := SUPER_ACL.
Definition PRIV_LOG_BIN_TRUSTED_SP_CREATOR : Z := SUPER_ACL.
Definition PRIV_DEBUG : Z := SUPER_ACL.
Definition PRIV_SET_GLOBAL_SYSTEM_VARIABLE : Z := SUPER_ACL.
Definition PRIV_SET_RESTRICTED_SESSION_SYSTEM_VARIABLE : Z := SUPER_ACL.
Definition PRIV_SET_SYSTEM_VAR_BINLOG_FORMAT : Z := SUPER_ACL .| BINLOG_ADMIN_ACL.
Definition PRIV_SET_SYSTEM_VAR_BINLOG_DIRECT_NON_TRANSACTIONAL_UPDATES : Z :=
  SUPER_ACL .| BINLOG_ADMIN_ACL.
Definition PRIV_SET_SYSTEM_VAR_BINLOG_ANNOTATE_ROW_EVENTS : Z := SUPER_ACL .| BINLOG_ADMIN_ACL.
Definition PRIV_SET_SYSTEM_VAR_BINLOG_ROW_IMAGE : Z := SUPER_ACL .| BINLOG_ADMIN_ACL.
Definition PRIV_SET_SYSTEM_VAR_SQL_LOG_BIN : Z := SUPER_ACL .| BINLOG_ADMIN_ACL.
Definition PRIV_SET_SYSTEM_GLOBAL_VAR_BINLOG_CACHE_SIZE : Z := SUPER_ACL .| BINLOG_ADMIN_ACL.
Definition PRIV_SET_SYSTEM_GLOBAL_VAR_BINLOG_FILE_CACHE_SIZE : Z := SUPER_ACL .| BINLOG_ADMIN_ACL.
Definition PRIV_SET_SYSTEM_GLOBAL_VAR_BINLOG_STMT_CACHE_SIZE : Z := SUPER_ACL .| BINLOG_ADMIN_ACL.
Definition PRIV_SET_SYSTEM_GLOBAL_VAR_BINLOG_COMMIT_WAIT_COUNT : Z := SUPER_ACL .| BINLOG_ADMIN_ACL.
Definition PRIV_SET_SYSTEM_GLOBAL_VAR_BINLOG_COMMIT_WAIT_USEC : Z := SUPER_ACL .| BINLOG_ADMIN_ACL.
Definition PRIV_SET_SYSTEM_GLOBAL_VAR_BINLOG_ROW_METADATA : Z := SUPER_ACL .| BINLOG_ADMIN_ACL.
Definition PRIV_SET_SYSTEM_GLOBAL_VAR_EXPIRE_LOGS_DAYS : Z := SUPER_ACL .| BINLOG_ADMIN_ACL.
Definition PRIV_SET_SYSTEM_GLOBAL_VAR_LOG_BIN_COMPRESS : Z := SUPER_ACL .| BINLOG_ADMIN_ACL.
Definition PRIV_SET_SYSTEM_GLOBAL_VAR_LOG_BIN_COMPRESS_MIN_LEN : Z := SUPER_ACL .| BINLOG_ADMIN_ACL.
Definition PRIV_SET_SYSTEM_GLOBAL_VAR_LOG_BIN_TRUST_FUNCTION_CREATORS : Z :=
  SUPER_ACL .| BINLOG_ADMIN_ACL.
Definition PRIV_SET_SYSTEM_GLOBAL_VAR_MAX_BINLOG_CACHE_SIZE : Z := SUPER_ACL .| BINLOG_ADMIN_ACL.
Definition PRIV_SET_SYSTEM_GLOBAL_VAR_MAX_BINLOG_STMT_CACHE_SIZE : Z :=
  SUPER_ACL .| BINLOG_ADMIN_ACL.
Definition PRIV_SET_SYSTEM_GLOBAL_VAR_MAX_BINLOG_SIZE : Z := SUPER_ACL .| BINLOG_ADMIN_ACL.
Definition PRIV_SET_SYSTEM_GLOBAL_VAR_SYNC_BINLOG : Z := SUPER_ACL .| BINLOG_ADMIN_ACL.
Definition PRIV_IGNORE_READ_ONLY : Z := READ_ONLY_ADMIN_ACL .| SUPER_ACL.
Definition PRIV_SET_SYSTEM_GLOBAL_VAR_READ_ONLY : Z := READ_ONLY_ADMIN_ACL .| SUPER_ACL.
Definition PRIV_IGNORE_INIT_CONNECT : Z := CONNECTION_ADMIN_ACL .| SUPER_ACL.
Definition PRIV_IGNORE_MAX_USER_CONNECTIONS : Z := CONNECTION_ADMIN_ACL .| SUPER_ACL.
Definition PRIV_IGNORE_MAX_CONNECTIONS : Z := CONNECTION_ADMIN_ACL .| SUPER_ACL.
Definition PRIV_IGNORE_MAX_PASSWORD_ERRORS : Z := CONNECTION_ADMIN_ACL .| SUPER_ACL.
Definition PRIV_KILL_OTHER_USER_PROCESS : Z := CONNECTION_ADMIN_ACL .| SUPER_ACL.
Definition PRIV_SET_SYSTEM_GLOBAL_VAR_CONNECT_TIMEOUT : Z := CONNECTION_ADMIN_ACL .| SUPER_ACL.
Definition PRIV_SET_SYSTEM_GLOBAL_VAR_DISCONNECT_ON_EXPIRED_PASSWORD : Z :=
  CONNECTION_ADMIN_ACL .| SUPER_ACL.
Definition PRIV_SET_SYSTEM_GLOBAL_VAR_EXTRA_MAX_CONNECTIONS : Z :=
  CONNECTION_ADMIN_ACL .| SUPER_ACL.
Definition PRIV_SET_SYSTEM_GLOBAL_VAR_INIT_CONNECT : Z := CONNECTION_ADMIN_ACL .| SUPER_ACL.
Definition PRIV_SET_SYSTEM_GLOBAL_VAR_MAX_CONNECTIONS : Z := CONNECTION_ADMIN_ACL .| SUPER_ACL.
Definition PRIV_SET_SYSTEM_GLOBAL_VAR_MAX_CONNECT_ERRORS : Z := CONNECTION_ADMIN_ACL .| SUPER_ACL.
Definition PRIV_SET_SYSTEM_GLOBAL_VAR_MAX_PASSWORD_ERRORS : Z := CONNECTION_ADMIN_ACL .| SUPER_ACL.
Definition PRIV_SET_SYSTEM_GLOBAL_VAR_PROXY_PROTOCOL_NETWORKS : Z :=
  CONNECTION_ADMIN_ACL .| SUPER_ACL.
Definition PRIV_SET_SYSTEM_GLOBAL_VAR_SECURE_AUTH : Z := CONNECTION_ADMIN_ACL .| SUPER_ACL.
Definition PRIV_SET_SYSTEM_GLOBAL_VAR_SLOW_LAUNCH_TIME : Z := CONNECTION_ADMIN_ACL .| SUPER_ACL.
Definition PRIV_SET_SYSTEM_GLOBAL_VAR_THREAD_POOL : Z := CONNECTION_ADMIN_ACL .| SUPER_ACL.
Definition PRIV_STMT_SHOW_BINLOG_STATUS : Z := BINLOG_MONITOR_ACL .| SUPER_ACL.
Definition PRIV_STMT_SHOW_BINARY_LOGS : Z := BINLOG_MONITOR_ACL .| SUPER_ACL.
Definition PRIV_STMT_PURGE_BINLOG : Z := BINLOG_ADMIN_ACL .| SUPER_ACL.
Definition PRIV_STMT_SHOW_BINLOG_EVENTS : Z := BINLOG_MONITOR_ACL.
Definition PRIV_COM_REGISTER_SLAVE : Z := REPL_SLAVE_ACL.
Definition PRIV_COM_BINLOG_DUMP : Z := REPL_SLAVE_ACL.
Definition PRIV_STMT_SHOW_SLAVE_HOSTS : Z := REPL_MASTER_ADMIN_ACL.
Definition PRIV_SET_SYSTEM_GLOBAL_VAR_RPL_SEMI_SYNC_MASTER_ENABLED : Z :=
  REPL_MASTER_ADMIN_ACL .| SUPER_ACL.
Definition PRIV_SET_SYSTEM_GLOBAL_VAR_RPL_SEMI_SYNC_MASTER_TIMEOUT : Z :=
  REPL_MASTER_ADMIN_ACL .| SUPER_ACL.
Definition PRIV_SET_SYSTEM_GLOBAL_VAR_RPL_SEMI_SYNC_MASTER_WAIT_NO_SLAVE : Z :=
  REPL_MASTER_ADMIN_ACL .| SUPER_ACL.
Definition PRIV_SET_SYSTEM_GLOBAL_VAR_RPL_SEMI_SYNC_MASTER_TRACE_LEVEL : Z :=
  REPL_MASTER_ADMIN_ACL .| SUPER_ACL.
Definition PRIV_SET_SYSTEM_GLOBAL_VAR_RPL_SEMI_SYNC_MASTER_WAIT_POINT : Z :=
  REPL_MASTER_ADMIN_ACL .| SUPER_ACL.
Definition PRIV_SET_SYSTEM_GLOBAL_VAR_MASTER_VERIFY_CHECKSUM : Z :=
  REPL_MASTER_ADMIN_ACL .| SUPER_ACL.
Definition PRIV_SET_SYSTEM_GLOBAL_VAR_GTID_BINLOG_STATE : Z := REPL_MASTER_ADMIN_ACL .| SUPER_ACL.
Definition PRIV_SET_SYSTEM_GLOBAL_VAR_SERVER_ID : Z := REPL_MASTER_ADMIN_ACL .| SUPER_ACL.
Definition PRIV_SET_SYSTEM_GLOBAL_VAR_GTID_DOMAIN_ID : Z := REPL_MASTER_ADMIN_ACL .| SUPER_ACL.
Definition PRIV_STMT_START_SLAVE : Z := REPL_SLAVE_ADMIN_ACL .| SUPER_ACL.
Definition PRIV_STMT_STOP_SLAVE : Z := REPL_SLAVE_ADMIN_ACL .| SUPER_ACL.
Definition PRIV_STMT_CHANGE_MASTER : Z := REPL_SLAVE_ADMIN_ACL .| SUPER_ACL.
Definition PRIV_STMT_SHOW_SLAVE_STATUS : Z := SLAVE_MONITOR_ACL .| SUPER_ACL.
Definition PRIV_STMT_SHOW_RELAYLOG_EVENTS : Z := SLAVE_MONITOR_ACL.
Definition PRIV_STMT_BINLOG : Z := BINLOG_REPLAY_ACL .| SUPER_ACL.
Definition PRIV_SET_SYSTEM_SESSION_VAR_GTID_SEQ_NO : Z := BINLOG_REPLAY_ACL .| SUPER_ACL.
Definition PRIV_SET_SYSTEM_SESSION_VAR_PSEUDO_THREAD_ID : Z := BINLOG_REPLAY_ACL .| SUPER_ACL.
Definition PRIV_SET_SYSTEM_SESSION_VAR_SERVER_ID : Z := BINLOG_REPLAY_ACL .| SUPER_ACL.
Definition PRIV_SET_SYSTEM_SESSION_VAR_GTID_DOMAIN_ID : Z := BINLOG_REPLAY_ACL .| SUPER_ACL.
Definition PRIV_SET_SYSTEM_GLOBAL_VAR_REPLICATE_EVENTS_MARKED_FOR_SKIP : Z :=
  REPL_SLAVE_ADMIN_ACL .| SUPER_ACL.
Definition PRIV_SET_SYSTEM_GLOBAL_VAR_REPLICATE_DO_DB : Z := REPL_SLAVE_ADMIN_ACL .| SUPER_ACL.
Definition PRIV_SET_SYSTEM_GLOBAL_VAR_REPLICATE_DO_TABLE : Z := REPL_SLAVE_ADMIN_ACL .| SUPER_ACL.
Definition PRIV_SET_SYSTEM_GLOBAL_VAR_REPLICATE_IGNORE_DB : Z := REPL_SLAVE_ADMIN_ACL .| SUPER_ACL.
Definition PRIV_SET_SYSTEM_GLOBAL_VAR_REPLICATE_IGNORE_TABLE : Z :=
  REPL_SLAVE_ADMIN_ACL .| SUPER_ACL.
Definition PRIV_SET_SYSTEM_GLOBAL_VAR_REPLICATE_WILD_DO_TABLE : Z :=
  REPL_SLAVE_ADMIN_ACL .| SUPER_ACL.
Definition PRIV_SET_SYSTEM_GLOBAL_VAR_REPLICATE_WILD_IGNORE_TABLE : Z :=
  REPL_SLAVE_ADMIN_ACL .| SUPER_ACL.
Definition PRIV_SET_SYSTEM_GLOBAL_VAR_READ_BINLOG_SPEED_LIMIT : Z :=
  REPL_SLAVE_ADMIN_ACL .| SUPER_ACL.
Definition PRIV_SET_SYSTEM_GLOBAL_VAR_SLAVE_COMPRESSED_PROTOCOL : Z :=
  REPL_SLAVE_ADMIN_ACL .| SUPER_ACL.
Definition PRIV_SET_SYSTEM_GLOBAL_VAR_SLAVE_DDL_EXEC_MODE : Z := REPL_SLAVE_ADMIN_ACL .| SUPER_ACL.
Definition PRIV_SET_SYSTEM_GLOBAL_VAR_SLAVE_DOMAIN_PARALLEL_THREADS : Z :=
  REPL_SLAVE_ADMIN_ACL .| SUPER_ACL.
Definition PRIV_SET_SYSTEM_GLOBAL_VAR_SLAVE_EXEC_MODE : Z := REPL_SLAVE_ADMIN_ACL .| SUPER_ACL.
Definition PRIV_SET_SYSTEM_GLOBAL_VAR_SLAVE_MAX_ALLOWED_PACKET : Z :=
  REPL_SLAVE_ADMIN_ACL .| SUPER_ACL.
Definition PRIV_SET_SYSTEM_GLOBAL_VAR_SLAVE_NET_TIMEOUT : Z := REPL_SLAVE_ADMIN_ACL .| SUPER_ACL.
Definition PRIV_SET_SYSTEM_GLOBAL_VAR_SLAVE_PARALLEL_MAX_QUEUED : Z :=
  REPL_SLAVE_ADMIN_ACL .| SUPER_ACL.
Definition PRIV_SET_SYSTEM_GLOBAL_VAR_SLAVE_PARALLEL_MODE : Z := REPL_SLAVE_ADMIN_ACL .| SUPER_ACL.
Definition PRIV_SET_SYSTEM_GLOBAL_VAR_SLAVE_PARALLEL_THREADS : Z :=
  REPL_SLAVE_ADMIN_ACL .| SUPER_ACL.
Definition PRIV_SET_SYSTEM_GLOBAL_VAR_SLAVE_PARALLEL_WORKERS : Z :=
  REPL_SLAVE_ADMIN_ACL .| SUPER_ACL.
Definition PRIV_SET_SYSTEM_GLOBAL_VAR_SLAVE_RUN_TRIGGERS_FOR_RBR : Z :=
  REPL_SLAVE_ADMIN_ACL .| SUPER_ACL.
Definition PRIV_SET_SYSTEM_GLOBAL_VAR_SLAVE_SQL_VERIFY_CHECKSUM : Z :=
  REPL_SLAVE_ADMIN_ACL .| SUPER_ACL.
Definition PRIV_SET_SYSTEM_GLOBAL_VAR_SLAVE_TRANSACTION_RETRY_INTERVAL : Z :=
  REPL_SLAVE_ADMIN_ACL .| SUPER_ACL.
Definition PRIV_SET_SYSTEM_GLOBAL_VAR_SLAVE_TYPE_CONVERSIONS : Z :=
  REPL_SLAVE_ADMIN_ACL .| SUPER_ACL.
Definition PRIV_SET_SYSTEM_GLOBAL_VAR_INIT_SLAVE : Z := REPL_SLAVE_ADMIN_ACL .| SUPER_ACL.
Definition PRIV_SET_SYSTEM_GLOBAL_VAR_RPL_SEMI_SYNC_SLAVE_ENABLED : Z :=
  REPL_SLAVE_ADMIN_ACL .| SUPER_ACL.
Definition PRIV_SET_SYSTEM_GLOBAL_VAR_RPL_SEMI_SYNC_SLAVE_TRACE_LEVEL : Z :=
  REPL_SLAVE_ADMIN_ACL .| SUPER_ACL.
Definition PRIV_SET_SYSTEM_GLOBAL_VAR_RPL_SEMI_SYNC_SLAVE_DELAY_MASTER : Z :=
  REPL_SLAVE_ADMIN_ACL .| SUPER_ACL.
Definition PRIV_SET_SYSTEM_GLOBAL_VAR_RPL_SEMI_SYNC_SLAVE_KILL_CONN_TIMEOUT : Z :=
  REPL_SLAVE_ADMIN_ACL .| SUPER_ACL.
Definition PRIV_SET_SYSTEM_GLOBAL_VAR_RELAY_LOG_PURGE : Z := REPL_SLAVE_ADMIN_ACL .| SUPER_ACL.
Definition PRIV_SET_SYSTEM_GLOBAL_VAR_RELAY_LOG_RECOVERY : Z := REPL_SLAVE_ADMIN_ACL .| SUPER_ACL.
Definition PRIV_SET_SYSTEM_GLOBAL_VAR_SYNC_MASTER_INFO : Z := REPL_SLAVE_ADMIN_ACL .| SUPER_ACL.
Definition PRIV_SET_SYSTEM_GLOBAL_VAR_SYNC_RELAY_LOG : Z := REPL_SLAVE_ADMIN_ACL .| SUPER_ACL.
Definition PRIV_SET_SYSTEM_GLOBAL_VAR_SYNC_RELAY_LOG_INFO : Z := REPL_SLAVE_ADMIN_ACL .| SUPER_ACL.
Definition PRIV_SET_SYSTEM_GLOBAL_VAR_GTID_CLEANUP_BATCH_SIZE : Z :=
  REPL_SLAVE_ADMIN_ACL .| SUPER_ACL.
Definition PRIV_SET_SYSTEM_GLOBAL_VAR_GTID_IGNORE_DUPLICATES : Z :=
  REPL_SLAVE_ADMIN_ACL .| SUPER_ACL.
Definition PRIV_SET_SYSTEM_GLOBAL_VAR_GTID_POS_AUTO_ENGINES : Z :=
  REPL_SLAVE_ADMIN_ACL .| SUPER_ACL.
Definition PRIV_SET_SYSTEM_GLOBAL_VAR_GTID_SLAVE_POS : Z := REPL_SLAVE_ADMIN_ACL .| SUPER_ACL.
Definition PRIV_SET_SYSTEM_GLOBAL_VAR_GTID_STRICT_MODE : Z := REPL_SLAVE_ADMIN_ACL .| SUPER_ACL.
Definition PRIV_STMT_CREATE_SERVER : Z := FEDERATED_ADMIN_ACL .| SUPER_ACL.
Definition PRIV_STMT_ALTER_SERVER : Z := FEDERATED_ADMIN_ACL .| SUPER_ACL.
Definition PRIV_STMT_DROP_SERVER : Z := FEDERATED_ADMIN_ACL .| SUPER_ACL.
Definition PRIV_COM_PROCESS_INFO : Z := PROCESS_ACL.
Definition PRIV_STMT_SHOW_EXPLAIN : Z := PROCESS_ACL.
Definition PRIV_STMT_SHOW_ENGINE_STATUS : Z := PROCESS_ACL.
Definition PRIV_STMT_SHOW_ENGINE_MUTEX : Z := PROCESS_ACL.
Definition PRIV_STMT_SHOW_PROCESSLIST : Z := PROCESS_ACL.

(** All of them. *)
Definition PRIV_table : list Z :=
  [PRIV_LOCK_TABLES; PRIV_DEFINER_CLAUSE; PRIV_REVEAL_MISSING_DEFINER; PRIV_DES_DECRYPT_ONE_ARG;
   PRIV_LOG_BIN_TRUSTED_SP_CREATOR; PRIV_DEBUG; PRIV_SET_GLOBAL_SYSTEM_VARIABLE;
   PRIV_SET_RESTRICTED_SESSION_SYSTEM_VARIABLE; PRIV_SET_SYSTEM_VAR_BINLOG_FORMAT;
   PRIV_SET_SYSTEM_VAR_BINLOG_DIRECT_NON_TRANSACTIONAL_UPDATES;
   PRIV_SET_SYSTEM_VAR_BINLOG_ANNOTATE_ROW_EVENTS; PRIV_SET_SYSTEM_VAR_BINLOG_ROW_IMAGE;
   PRIV_SET_SYSTEM_VAR_SQL_LOG_BIN; PRIV_SET_SYSTEM_GLOBAL_VAR_BINLOG_CACHE_SIZE;
   PRIV_SET_SYSTEM_GLOBAL_VAR_BINLOG_FILE_CACHE_SIZE;
   PRIV_SET_SYSTEM_GLOBAL_VAR_BINLOG_STMT_CACHE_SIZE;
   PRIV_SET_SYSTEM_GLOBAL_VAR_BINLOG_COMMIT_WAIT_COUNT;
   PRIV_SET_SYSTEM_GLOBAL_VAR_BINLOG_COMMIT_WAIT_USEC; PRIV_SET_SYSTEM_GLOBAL_VAR_BINLOG_ROW_METADATA;
   PRIV_SET_SYSTEM_GLOBAL_VAR_EXPIRE_LOGS_DAYS; PRIV_SET_SYSTEM_GLOBAL_VAR_LOG_BIN_COMPRESS;
   PRIV_SET_SYSTEM_GLOBAL_VAR_LOG_BIN_COMPRESS_MIN_LEN;
   PRIV_SET_SYSTEM_GLOBAL_VAR_LOG_BIN_TRUST_FUNCTION_CREATORS;
   PRIV_SET_SYSTEM_GLOBAL_VAR_MAX_BINLOG_CACHE_SIZE;
   PRIV_SET_SYSTEM_GLOBAL_VAR_MAX_BINLOG_STMT_CACHE_SIZE; PRIV_SET_SYSTEM_GLOBAL_VAR_MAX_BINLOG_SIZE;
   PRIV_SET_SYSTEM_GLOBAL_VAR_SYNC_BINLOG; PRIV_IGNORE_READ_ONLY; PRIV_SET_SYSTEM_GLOBAL_VAR_READ_ONLY;
   PRIV_IGNORE_INIT_CONNECT; PRIV_IGNORE_MAX_USER_CONNECTIONS; PRIV_IGNORE_MAX_CONNECTIONS;
   PRIV_IGNORE_MAX_PASSWORD_ERRORS; PRIV_KILL_OTHER_USER_PROCESS;
   PRIV_SET_SYSTEM_GLOBAL_VAR_CONNECT_TIMEOUT;
   PRIV_SET_SYSTEM_GLOBAL_VAR_DISCONNECT_ON_EXPIRED_PASSWORD;
   PRIV_SET_SYSTEM_GLOBAL_VAR_EXTRA_MAX_CONNECTIONS; PRIV_SET_SYSTEM_GLOBAL_VAR_INIT_CONNECT;
   PRIV_SET_SYSTEM_GLOBAL_VAR_MAX_CONNECTIONS; PRIV_SET_SYSTEM_GLOBAL_VAR_MAX_CONNECT_ERRORS;
   PRIV_SET_SYSTEM_GLOBAL_VAR_MAX_PASSWORD_ERRORS; PRIV_SET_SYSTEM_GLOBAL_VAR_PROXY_PROTOCOL_NETWORKS;
   PRIV_SET_SYSTEM_GLOBAL_VAR_SECURE_AUTH; PRIV_SET_SYSTEM_GLOBAL_VAR_SLOW_LAUNCH_TIME;
   PRIV_SET_SYSTEM_GLOBAL_VAR_THREAD_POOL; PRIV_STMT_SHOW_BINLOG_STATUS; PRIV_STMT_SHOW_BINARY_LOGS;
   PRIV_STMT_PURGE_BINLOG; PRIV_STMT_SHOW_BINLOG_EVENTS; PRIV_COM_REGISTER_SLAVE; PRIV_COM_BINLOG_DUMP;
   PRIV_STMT_SHOW_SLAVE_HOSTS; PRIV_SET_SYSTEM_GLOBAL_VAR_RPL_SEMI_SYNC_MASTER_ENABLED;
   PRIV_SET_SYSTEM_GLOBAL_VAR_RPL_SEMI_SYNC_MASTER_TIMEOUT;
   PRIV_SET_SYSTEM_GLOBAL_VAR_RPL_SEMI_SYNC_MASTER_WAIT_NO_SLAVE;
   PRIV_SET_SYSTEM_GLOBAL_VAR_RPL_SEMI_SYNC_MASTER_TRACE_LEVEL;
   PRIV_SET_SYSTEM_GLOBAL_VAR_RPL_SEMI_SYNC_MASTER_WAIT_POINT;
   PRIV_SET_SYSTEM_GLOBAL_VAR_MASTER_VERIFY_CHECKSUM; PRIV_SET_SYSTEM_GLOBAL_VAR_GTID_BINLOG_STATE;
   PRIV_SET_SYSTEM_GLOBAL_VAR_SERVER_ID; PRIV_SET_SYSTEM_GLOBAL_VAR_GTID_DOMAIN_ID;
   PRIV_STMT_START_SLAVE; PRIV_STMT_STOP_SLAVE; PRIV_STMT_CHANGE_MASTER; PRIV_STMT_SHOW_SLAVE_STATUS;
   PRIV_STMT_SHOW_RELAYLOG_EVENTS; PRIV_STMT_BINLOG; PRIV_SET_SYSTEM_SESSION_VAR_GTID_SEQ_NO;
   PRIV_SET_SYSTEM_SESSION_VAR_PSEUDO_THREAD_ID; PRIV_SET_SYSTEM_SESSION_VAR_SERVER_ID;
   PRIV_SET_SYSTEM_SESSION_VAR_GTID_DOMAIN_ID;
   PRIV_SET_SYSTEM_GLOBAL_VAR_REPLICATE_EVENTS_MARKED_FOR_SKIP;
   PRIV_SET_SYSTEM_GLOBAL_VAR_REPLICATE_DO_DB; PRIV_SET_SYSTEM_GLOBAL_VAR_REPLICATE_DO_TABLE;
   PRIV_SET_SYSTEM_GLOBAL_VAR_REPLICATE_IGNORE_DB; PRIV_SET_SYSTEM_GLOBAL_VAR_REPLICATE_IGNORE_TABLE;
   PRIV_SET_SYSTEM_GLOBAL_VAR_REPLICATE_WILD_DO_TABLE;
   PRIV_SET_SYSTEM_GLOBAL_VAR_REPLICATE_WILD_IGNORE_TABLE;
   PRIV_SET_SYSTEM_GLOBAL_VAR_READ_BINLOG_SPEED_LIMIT;
   PRIV_SET_SYSTEM_GLOBAL_VAR_SLAVE_COMPRESSED_PROTOCOL;
   PRIV_SET_SYSTEM_GLOBAL_VAR_SLAVE_DDL_EXEC_MODE;
   PRIV_SET_SYSTEM_GLOBAL_VAR_SLAVE_DOMAIN_PARALLEL_THREADS;
   PRIV_SET_SYSTEM_GLOBAL_VAR_SLAVE_EXEC_MODE; PRIV_SET_SYSTEM_GLOBAL_VAR_SLAVE_MAX_ALLOWED_PACKET;
   PRIV_SET_SYSTEM_GLOBAL_VAR_SLAVE_NET_TIMEOUT; PRIV_SET_SYSTEM_GLOBAL_VAR_SLAVE_PARALLEL_MAX_QUEUED;
   PRIV_SET_SYSTEM_GLOBAL_VAR_SLAVE_PARALLEL_MODE; PRIV_SET_SYSTEM_GLOBAL_VAR_SLAVE_PARALLEL_THREADS;
   PRIV_SET_SYSTEM_GLOBAL_VAR_SLAVE_PARALLEL_WORKERS;
   PRIV_SET_SYSTEM_GLOBAL_VAR_SLAVE_RUN_TRIGGERS_FOR_RBR;
   PRIV_SET_SYSTEM_GLOBAL_VAR_SLAVE_SQL_VERIFY_CHECKSUM;
   PRIV_SET_SYSTEM_GLOBAL_VAR_SLAVE_TRANSACTION_RETRY_INTERVAL;
   PRIV_SET_SYSTEM_GLOBAL_VAR_SLAVE_TYPE_CONVERSIONS; PRIV_SET_SYSTEM_GLOBAL_VAR_INIT_SLAVE;
   PRIV_SET_SYSTEM_GLOBAL_VAR_RPL_SEMI_SYNC_SLAVE_ENABLED;
   PRIV_SET_SYSTEM_GLOBAL_VAR_RPL_SEMI_SYNC_SLAVE_TRACE_LEVEL;
   PRIV_SET_SYSTEM_GLOBAL_VAR_RPL_SEMI_SYNC_SLAVE_DELAY_MASTER;
   PRIV_SET_SYSTEM_GLOBAL_VAR_RPL_SEMI_SYNC_SLAVE_KILL_CONN_TIMEOUT;
   PRIV_SET_SYSTEM_GLOBAL_VAR_RELAY_LOG_PURGE; PRIV_SET_SYSTEM_GLOBAL_VAR_RELAY_LOG_RECOVERY;
   PRIV_SET_SYSTEM_GLOBAL_VAR_SYNC_MASTER_INFO; PRIV_SET_SYSTEM_GLOBAL_VAR_SYNC_RELAY_LOG;
   PRIV_SET_SYSTEM_GLOBAL_VAR_SYNC_RELAY_LOG_INFO; PRIV_SET_SYSTEM_GLOBAL_VAR_GTID_CLEANUP_BATCH_SIZE;
   PRIV_SET_SYSTEM_GLOBAL_VAR_GTID_IGNORE_DUPLICATES; PRIV_SET_SYSTEM_GLOBAL_VAR_GTID_POS_AUTO_ENGINES;
   PRIV_SET_SYSTEM_GLOBAL_VAR_GTID_SLAVE_POS; PRIV_SET_SYSTEM_GLOBAL_VAR_GTID_STRICT_MODE;
   PRIV_STMT_CREATE_SERVER; PRIV_STMT_ALTER_SERVER; PRIV_STMT_DROP_SERVER; PRIV_COM_PROCESS_INFO;
   PRIV_STMT_SHOW_EXPLAIN; PRIV_STMT_SHOW_ENGINE_STATUS; PRIV_STMT_SHOW_ENGINE_MUTEX;
   PRIV_STMT_SHOW_PROCESSLIST].

(** Those that are required to set a server variable. *)
Definition PRIV_variables : list Z :=
  [PRIV_SET_GLOBAL_SYSTEM_VARIABLE; PRIV_SET_RESTRICTED_SESSION_SYSTEM_VARIABLE;
   PRIV_SET_SYSTEM_VAR_BINLOG_FORMAT; PRIV_SET_SYSTEM_VAR_BINLOG_DIRECT_NON_TRANSACTIONAL_UPDATES;
   PRIV_SET_SYSTEM_VAR_BINLOG_ANNOTATE_ROW_EVENTS; PRIV_SET_SYSTEM_VAR_BINLOG_ROW_IMAGE;
   PRIV_SET_SYSTEM_VAR_SQL_LOG_BIN; PRIV_SET_SYSTEM_GLOBAL_VAR_BINLOG_CACHE_SIZE;
   PRIV_SET_SYSTEM_GLOBAL_VAR_BINLOG_FILE_CACHE_SIZE;
   PRIV_SET_SYSTEM_GLOBAL_VAR_BINLOG_STMT_CACHE_SIZE;
   PRIV_SET_SYSTEM_GLOBAL_VAR_BINLOG_COMMIT_WAIT_COUNT;
   PRIV_SET_SYSTEM_GLOBAL_VAR_BINLOG_COMMIT_WAIT_USEC; PRIV_SET_SYSTEM_GLOBAL_VAR_BINLOG_ROW_METADATA;
   PRIV_SET_SYSTEM_GLOBAL_VAR_EXPIRE_LOGS_DAYS; PRIV_SET_SYSTEM_GLOBAL_VAR_LOG_BIN_COMPRESS;
   PRIV_SET_SYSTEM_GLOBAL_VAR_LOG_BIN_COMPRESS_MIN_LEN;
   PRIV_SET_SYSTEM_GLOBAL_VAR_LOG_BIN_TRUST_FUNCTION_CREATORS;
   PRIV_SET_SYSTEM_GLOBAL_VAR_MAX_BINLOG_CACHE_SIZE;
   PRIV_SET_SYSTEM_GLOBAL_VAR_MAX_BINLOG_STMT_CACHE_SIZE; PRIV_SET_SYSTEM_GLOBAL_VAR_MAX_BINLOG_SIZE;
   PRIV_SET_SYSTEM_GLOBAL_VAR_SYNC_BINLOG; PRIV_SET_SYSTEM_GLOBAL_VAR_READ_ONLY;
   PRIV_SET_SYSTEM_GLOBAL_VAR_CONNECT_TIMEOUT;
   PRIV_SET_SYSTEM_GLOBAL_VAR_DISCONNECT_ON_EXPIRED_PASSWORD;
   PRIV_SET_SYSTEM_GLOBAL_VAR_EXTRA_MAX_CONNECTIONS; PRIV_SET_SYSTEM_GLOBAL_VAR_INIT_CONNECT;
   PRIV_SET_SYSTEM_GLOBAL_VAR_MAX_CONNECTIONS; PRIV_SET_SYSTEM_GLOBAL_VAR_MAX_CONNECT_ERRORS;
   PRIV_SET_SYSTEM_GLOBAL_VAR_MAX_PASSWORD_ERRORS; PRIV_SET_SYSTEM_GLOBAL_VAR_PROXY_PROTOCOL_NETWORKS;
   PRIV_SET_SYSTEM_GLOBAL_VAR_SECURE_AUTH; PRIV_SET_SYSTEM_GLOBAL_VAR_SLOW_LAUNCH_TIME;
   PRIV_SET_SYSTEM_GLOBAL_VAR_THREAD_POOL; PRIV_SET_SYSTEM_GLOBAL_VAR_RPL_SEMI_SYNC_MASTER_ENABLED;
   PRIV_SET_SYSTEM_GLOBAL_VAR_RPL_SEMI_SYNC_MASTER_TIMEOUT;
   PRIV_SET_SYSTEM_GLOBAL_VAR_RPL_SEMI_SYNC_MASTER_WAIT_NO_SLAVE;
   PRIV_SET_SYSTEM_GLOBAL_VAR_RPL_SEMI_SYNC_MASTER_TRACE_LEVEL;
   PRIV_SET_SYSTEM_GLOBAL_VAR_RPL_SEMI_SYNC_MASTER_WAIT_POINT;
   PRIV_SET_SYSTEM_GLOBAL_VAR_MASTER_VERIFY_CHECKSUM; PRIV_SET_SYSTEM_GLOBAL_VAR_GTID_BINLOG_STATE;
   PRIV_SET_SYSTEM_GLOBAL_VAR_SERVER_ID; PRIV_SET_SYSTEM_GLOBAL_VAR_GTID_DOMAIN_ID;
   PRIV_SET_SYSTEM_SESSION_VAR_GTID_SEQ_NO; PRIV_SET_SYSTEM_SESSION_VAR_PSEUDO_THREAD_ID;
   PRIV_SET_SYSTEM_SESSION_VAR_SERVER_ID; PRIV_SET_SYSTEM_SESSION_VAR_GTID_DOMAIN_ID;
   PRIV_SET_SYSTEM_GLOBAL_VAR_REPLICATE_EVENTS_MARKED_FOR_SKIP;
   PRIV_SET_SYSTEM_GLOBAL_VAR_REPLICATE_DO_DB; PRIV_SET_SYSTEM_GLOBAL_VAR_REPLICATE_DO_TABLE;
   PRIV_SET_SYSTEM_GLOBAL_VAR_REPLICATE_IGNORE_DB; PRIV_SET_SYSTEM_GLOBAL_VAR_REPLICATE_IGNORE_TABLE;
   PRIV_SET_SYSTEM_GLOBAL_VAR_REPLICATE_WILD_DO_TABLE;
   PRIV_SET_SYSTEM_GLOBAL_VAR_REPLICATE_WILD_IGNORE_TABLE;
   PRIV_SET_SYSTEM_GLOBAL_VAR_READ_BINLOG_SPEED_LIMIT;
   PRIV_SET_SYSTEM_GLOBAL_VAR_SLAVE_COMPRESSED_PROTOCOL;
   PRIV_SET_SYSTEM_GLOBAL_VAR_SLAVE_DDL_EXEC_MODE;
   PRIV_SET_SYSTEM_GLOBAL_VAR_SLAVE_DOMAIN_PARALLEL_THREADS;
   PRIV_SET_SYSTEM_GLOBAL_VAR_SLAVE_EXEC_MODE; PRIV_SET_SYSTEM_GLOBAL_VAR_SLAVE_MAX_ALLOWED_PACKET;
   PRIV_SET_SYSTEM_GLOBAL_VAR_SLAVE_NET_TIMEOUT; PRIV_SET_SYSTEM_GLOBAL_VAR_SLAVE_PARALLEL_MAX_QUEUED;
   PRIV_SET_SYSTEM_GLOBAL_VAR_SLAVE_PARALLEL_MODE; PRIV_SET_SYSTEM_GLOBAL_VAR_SLAVE_PARALLEL_THREADS;
   PRIV_SET_SYSTEM_GLOBAL_VAR_SLAVE_PARALLEL_WORKERS;
   PRIV_SET_SYSTEM_GLOBAL_VAR_SLAVE_RUN_TRIGGERS_FOR_RBR;
   PRIV_SET_SYSTEM_GLOBAL_VAR_SLAVE_SQL_VERIFY_CHECKSUM;
   PRIV_SET_SYSTEM_GLOBAL_VAR_SLAVE_TRANSACTION_RETRY_INTERVAL;
   PRIV_SET_SYSTEM_GLOBAL_VAR_SLAVE_TYPE_CONVERSIONS; PRIV_SET_SYSTEM_GLOBAL_VAR_INIT_SLAVE;
   PRIV_SET_SYSTEM_GLOBAL_VAR_RPL_SEMI_SYNC_SLAVE_ENABLED;
   PRIV_SET_SYSTEM_GLOBAL_VAR_RPL_SEMI_SYNC_SLAVE_TRACE_LEVEL;
   PRIV_SET_SYSTEM_GLOBAL_VAR_RPL_SEMI_SYNC_SLAVE_DELAY_MASTER;
   PRIV_SET_SYSTEM_GLOBAL_VAR_RPL_SEMI_SYNC_SLAVE_KILL_CONN_TIMEOUT;
   PRIV_SET_SYSTEM_GLOBAL_VAR_RELAY_LOG_PURGE; PRIV_SET_SYSTEM_GLOBAL_VAR_RELAY_LOG_RECOVERY;
   PRIV_SET_SYSTEM_GLOBAL_VAR_SYNC_MASTER_INFO; PRIV_SET_SYSTEM_GLOBAL_VAR_SYNC_RELAY_LOG;
   PRIV_SET_SYSTEM_GLOBAL_VAR_SYNC_RELAY_LOG_INFO; PRIV_SET_SYSTEM_GLOBAL_VAR_GTID_CLEANUP_BATCH_SIZE;
   PRIV_SET_SYSTEM_GLOBAL_VAR_GTID_IGNORE_DUPLICATES; PRIV_SET_SYSTEM_GLOBAL_VAR_GTID_POS_AUTO_ENGINES;
   PRIV_SET_SYSTEM_GLOBAL_VAR_GTID_SLAVE_POS; PRIV_SET_SYSTEM_GLOBAL_VAR_GTID_STRICT_MODE].

(** The chunks of bits that are moved together. *)
Definition DB_CHUNK0 : Z := COL_DML_ACLS .| CREATE_ACL .| DROP_ACL.
Definition DB_CHUNK1 : Z := GRANT_ACL .| REFERENCES_ACL .| INDEX_ACL .| ALTER_ACL.
Definition DB_CHUNK2 : Z := CREATE_TMP_ACL .| LOCK_TABLES_ACL.
Definition DB_CHUNK3 : Z := VIEW_ACLS .| PROC_DDL_ACLS.
Definition DB_CHUNK4 : Z := EXECUTE_ACL.
Definition DB_CHUNK5 : Z := EVENT_ACL .| TRIGGER_ACL.
Definition DB_CHUNK6 : Z := DELETE_HISTORY_ACL.

(** * Stored rights *)

Definition fix_rights_for_db (access : Z) : Z :=
  let A := access in
  (A .& DB_CHUNK0) .|
  (u64 (A .<< 4) .& DB_CHUNK1) .|
  (u64 (A .<< 6) .& DB_CHUNK2) .|
  (u64 (A .<< 9) .& DB_CHUNK3) .|
  (u64 (A .<< 2) .& DB_CHUNK4) .|
  (u64 (A .<< 9) .& DB_CHUNK5) .|
  (u64 (A .<< 10) .& DB_CHUNK6).

Definition get_rights_for_db (access : Z) : Z :=
  let A := access in
  (A .& DB_CHUNK0) .|
  ((A .& DB_CHUNK1) .>> 4) .|
  ((A .& DB_CHUNK2) .>> 6) .|
  ((A .& DB_CHUNK3) .>> 9) .|
  ((A .& DB_CHUNK4) .>> 2) .|
  ((A .& DB_CHUNK5) .>> 9) .|
  ((A .& DB_CHUNK6) .>> 10).

Definition TBL_CHUNK0 : Z := DB_CHUNK0.
Definition TBL_CHUNK1 : Z := DB_CHUNK1.
Definition TBL_CHUNK2 : Z := CREATE_VIEW_ACL .| SHOW_VIEW_ACL.
Definition TBL_CHUNK3 : Z := TRIGGER_ACL.
Definition TBL_CHUNK4 : Z := DELETE_HISTORY_ACL.

Definition fix_rights_for_table (access : Z) : Z :=
  let A := access in
  (A .& TBL_CHUNK0) .|
  (u64 (A .<< 4) .& TBL_CHUNK1) .|
  (u64 (A .<< 11) .& TBL_CHUNK2) .|
  (u64 (A .<< 15) .& TBL_CHUNK3) .|
  (u64 (A .<< 16) .& TBL_CHUNK4).

Definition get_rights_for_table (access : Z) : Z :=
  let A := access in
  (A .& TBL_CHUNK0) .|
  ((A .& TBL_CHUNK1) .>> 4) .|
  ((A .& TBL_CHUNK2) .>> 11) .|
  ((A .& TBL_CHUNK3) .>> 15) .|
  ((A .& TBL_CHUNK4) .>> 16).

Definition fix_rights_for_column (A : Z) : Z :=
  let mask := SELECT_ACL .| INSERT_ACL .| UPDATE_ACL in
  (A .& mask) .| u64 ((A .& unot 64 mask) .<< 8).

Definition get_rights_for_column (A : Z) : Z :=
  let mask := SELECT_ACL .| INSERT_ACL .| UPDATE_ACL in
  (A .& mask) .| (A .>> 8).

Definition fix_rights_for_procedure (access : Z) : Z :=
  let A := access in
  (u64 (A .<< 18) .& EXECUTE_ACL) .|
  (u64 (A .<< 23) .& ALTER_PROC_ACL) .|
  (u64 (A .<< 8) .& GRANT_ACL).

Definition get_rights_for_procedure (access : Z) : Z :=
  let A := access in
  ((A .& EXECUTE_ACL) .>> 18) .|
  ((A .& ALTER_PROC_ACL) .>> 23) .|
  ((A .& GRANT_ACL) .>> 8).

(** * Subsets *)

(** Every privilege of [a] is in [b]. *)
Definition subset (a b : Z) : Prop := a .& b = a.
#[export] Instance subset_dec a b : Decision (subset a b).
Proof. unfold subset. apply _. Defined.

Definition has (set : Z) (p : privilege_t) : bool := c_true (set .& p).

(** * Spreading a packed word over chunks of bits *)

Section chunks.
(** A chunk moves the bits of [mask] down by [shift]. *)
Definition chunk : Type := Z * Z.

Definition spread (l : list chunk) (A : Z) : Z := foldr (fun '(s, m) acc => (u64 (A .<< s) .& m) .| acc) 0 l.
Definition gather (l : list chunk) (A : Z) : Z := foldr (fun '(s, m) acc => ((A .& m) .>> s) .| acc) 0 l.
Definition masks (l : list chunk) : Z := foldr (fun c acc => c.2 .| acc) 0 l.
Definition packed (l : list chunk) : Z := foldr (fun c acc => (c.2 .>> c.1) .| acc) 0 l.

(** The chunks are disjoint, in place and when packed, fit 64 bits, and no bit
    falls off when they are shifted down. *)
Fixpoint chunks_ok (l : list chunk) : bool :=
  match l with
  | [] => true
  | (s, m) :: l =>
      (0 <=? s) && bool_decide (ufits 64 m) && (m .& Z.ones s =? 0) &&
      (m .& masks l =? 0) && ((m .>> s) .& packed l =? 0) && chunks_ok l
  end.
End chunks.

Lemma chunks_ok_cons s m l :
  chunks_ok ((s, m) :: l) = true <->
  0 <= s /\ ufits 64 m /\ m .& Z.ones s = 0 /\ m .& masks l = 0 /\ (m .>> s) .& packed l = 0 /\ chunks_ok l = true.
Proof.
  cbn [chunks_ok]. rewrite !andb_true_iff, Z.leb_le, bool_decide_eq_true, !Z.eqb_eq. tauto.
Qed.

Lemma land_0_testbit a b i : a .& b = 0 -> Z.testbit a i = true -> Z.testbit b i = true -> False.
Proof.
  intros H Ha Hb. assert (Z.testbit (a .& b) i = true) as K by (by rewrite Z.land_spec, Ha, Hb).
  by rewrite H, Z.bits_0 in K.
Qed.

Lemma masks_testbit l i : Z.testbit (masks l) i = true <-> exists c, c ∈ l /\ Z.testbit c.2 i = true.
Proof.
  induction l as [|c l IH]; simpl.
  - rewrite Z.bits_0. split; [done|]. intros (c & Hc & _). by apply elem_of_nil in Hc.
  - rewrite Z.lor_spec, orb_true_iff, IH. setoid_rewrite elem_of_cons. naive_solver.
Qed.

Lemma packed_testbit l j : 0 <= j ->
  Z.testbit (packed l) j = true <-> exists c, c ∈ l /\ Z.testbit c.2 (j + c.1) = true.
Proof.
  intros Hj. induction l as [|c l IH]; simpl.
  - rewrite Z.bits_0. split; [done|]. intros (c & Hc & _). by apply elem_of_nil in Hc.
  - rewrite Z.lor_spec, orb_true_iff, IH, Z.shiftr_spec by done. setoid_rewrite elem_of_cons. naive_solver.
Qed.

Lemma chunks_ok_in l s m : chunks_ok l = true -> (s, m) ∈ l ->
  0 <= s /\ ufits 64 m /\ (forall i, Z.testbit m i = true -> s <= i).
Proof.
  induction l as [|[s' m'] l IH]; [by intros _ ?%elem_of_nil|]. rewrite chunks_ok_cons.
  intros (Hs & Hm & Hlow & _ & _ & Hok) [[= -> ->]|Hin]%elem_of_cons; [|auto].
  split; [done|]. split; [done|]. intros i Hi. destruct (decide (s' <= i)) as [|Hlt]; [done|]. exfalso.
  destruct (decide (0 <= i)) as [H0|]; [|by rewrite Z.testbit_neg_r in Hi by lia].
  apply (land_0_testbit _ _ i Hlow Hi). apply Z.ones_spec_low. lia.
Qed.

Lemma chunks_ok_mask_inj l c c' i : chunks_ok l = true -> c ∈ l -> c' ∈ l ->
  Z.testbit c.2 i = true -> Z.testbit c'.2 i = true -> c = c'.
Proof.
  induction l as [|[s m] l IH]; [by intros _ ?%elem_of_nil|]. rewrite chunks_ok_cons.
  intros (_ & _ & _ & Hd & _ & Hok) [->|Hc]%elem_of_cons [->|Hc']%elem_of_cons Hi Hi'; auto; exfalso;
    apply (land_0_testbit _ _ i Hd); auto; apply masks_testbit; eauto.
Qed.

Lemma chunks_ok_packed_inj l c c' j : 0 <= j -> chunks_ok l = true -> c ∈ l -> c' ∈ l ->
  Z.testbit c.2 (j + c.1) = true -> Z.testbit c'.2 (j + c'.1) = true -> c = c'.
Proof.
  intros Hj. induction l as [|[s m] l IH]; [by intros _ ?%elem_of_nil|]. rewrite chunks_ok_cons.
  intros (_ & _ & _ & _ & Hd & Hok) [->|Hc]%elem_of_cons [->|Hc']%elem_of_cons Hi Hi'; auto; exfalso;
    apply (land_0_testbit _ _ j Hd); rewrite ?Z.shiftr_spec by done; auto; apply packed_testbit; eauto.
Qed.

Lemma spread_testbit l A i : chunks_ok l = true -> 0 <= i ->
  Z.testbit (spread l A) i = true <-> exists c, c ∈ l /\ Z.testbit c.2 i = true /\ Z.testbit A (i - c.1) = true.
Proof.
  intros Hok Hi. induction l as [|[s m] l IH]; simpl.
  - rewrite Z.bits_0. split; [done|]. intros (c & Hc & _). by apply elem_of_nil in Hc.
  - apply chunks_ok_cons in Hok as (Hs & Hm & _ & _ & _ & Hok).
    rewrite Z.lor_spec, orb_true_iff, (IH Hok), Z.land_spec, andb_true_iff.
    assert (Z.testbit m i = true -> Z.testbit (u64 (A .<< s)) i = Z.testbit A (i - s)) as E.
    { intros Hmi. rewrite uwrap_testbit by lia. rewrite Z.shiftl_spec by done.
      destruct (decide (i < 64)) as [Hlt|Hge]; [by rewrite (proj2 (Z.ltb_lt _ _) Hlt)|].
      rewrite (ufits_testbit 64 m i Hm) in Hmi by lia. done. }
    setoid_rewrite elem_of_cons. split.
    + intros [[H1 H2]|(c & Hc & H)]; [|by eauto 6]. exists (s, m). simpl. rewrite <- E by done. auto.
    + intros (c & [->|Hc] & H1 & H2); [left; simpl in *; by rewrite E|right; eauto].
Qed.

Lemma gather_testbit l A j : 0 <= j ->
  Z.testbit (gather l A) j = true <->
  exists c, c ∈ l /\ Z.testbit c.2 (j + c.1) = true /\ Z.testbit A (j + c.1) = true.
Proof.
  intros Hj. induction l as [|[s m] l IH]; simpl.
  - rewrite Z.bits_0. split; [done|]. intros (c & Hc & _). by apply elem_of_nil in Hc.
  - rewrite Z.lor_spec, orb_true_iff, IH, Z.shiftr_spec, Z.land_spec, andb_true_iff by done.
    setoid_rewrite elem_of_cons. naive_solver.
Qed.

Lemma bits_iff a b : (forall i, 0 <= i -> Z.testbit a i = true <-> Z.testbit b i = true) -> a = b.
Proof.
  intros H. apply Z.bits_inj'. intros i Hi. specialize (H i Hi).
  destruct (Z.testbit a i), (Z.testbit b i); intuition congruence.
Qed.

Lemma subset_testbit a b : subset a b <-> forall i, 0 <= i -> Z.testbit a i = true -> Z.testbit b i = true.
Proof.
  unfold subset. split.
  - intros H i _ Ha. rewrite <- H, Z.land_spec, andb_true_iff in Ha. by destruct Ha.
  - intros H. apply bits_iff. intros i Hi. rewrite Z.land_spec, andb_true_iff. naive_solver.
Qed.

Lemma gather_spread l A : chunks_ok l = true -> subset A (packed l) -> gather l (spread l A) = A.
Proof.
  intros Hok HA. apply bits_iff. intros j Hj. rewrite gather_testbit by done. split.
  - intros (c & Hc & H1 & H2).
    destruct c as [s m]. destruct (chunks_ok_in l s m Hok Hc) as (Hs & _).
    apply spread_testbit in H2 as (c' & Hc' & H3 & H4); [|done|simpl; lia].
    assert ((s, m) = c') as <- by (by apply (chunks_ok_mask_inj l _ _ (j + s) Hok)).
    by replace (j + (s, m).1 - (s, m).1) with j in H4 by lia.
  - intros Hb. rewrite subset_testbit in HA. destruct (proj1 (packed_testbit l j Hj) (HA j Hj Hb)) as ([s m] & Hc & H).
    exists (s, m). split; [done|]. split; [done|]. destruct (chunks_ok_in l s m Hok Hc) as (Hs & _).
    apply spread_testbit; [done|simpl; lia|]. exists (s, m). split; [done|]. split; [done|].
    by replace (j + (s, m).1 - (s, m).1) with j by lia.
Qed.

Lemma spread_gather l B : chunks_ok l = true -> subset B (masks l) -> spread l (gather l B) = B.
Proof.
  intros Hok HB. apply bits_iff. intros i Hi. rewrite spread_testbit by done. split.
  - intros ([s m] & Hc & H1 & H2). destruct (chunks_ok_in l s m Hok Hc) as (Hs & _ & Hlow). simpl in *.
    apply gather_testbit in H2 as (c' & Hc' & H3 & H4); [|by apply Hlow in H1; lia].
    assert ((s, m) = c') as <-.
    { apply (chunks_ok_packed_inj l _ _ (i - s)); try done; [by apply Hlow in H1; lia|].
      simpl. by replace (i - s + s) with i by lia. }
    simpl in H4. by replace (i - s + s) with i in H4 by lia.
  - intros Hb. rewrite subset_testbit in HB. destruct (proj1 (masks_testbit l i) (HB i Hi Hb)) as ([s m] & Hc & H).
    destruct (chunks_ok_in l s m Hok Hc) as (Hs & _ & Hlow). exists (s, m). split; [done|]. split; [done|]. simpl in *.
    apply gather_testbit; [by apply Hlow in H; lia|]. exists (s, m). simpl.
    replace (i - s + s) with i by lia. done.
Qed.

Lemma spread_subset l A : chunks_ok l = true -> subset (spread l A) (masks l).
Proof.
  intros Hok. apply subset_testbit. intros i Hi (c & Hc & H & _)%spread_testbit; try done.
  apply masks_testbit. eauto.
Qed.

Lemma gather_subset l B : subset (gather l B) (packed l).
Proof.
  apply subset_testbit. intros i Hi (c & Hc & H & _)%gather_testbit; try done. apply packed_testbit; eauto.
Qed.

(** * The four stored formats *)

Definition db_chunks : list chunk :=
  [(0, DB_CHUNK0); (4, DB_CHUNK1); (6, DB_CHUNK2); (9, DB_CHUNK3); (2, DB_CHUNK4); (9, DB_CHUNK5); (10, DB_CHUNK6)].
Definition table_chunks : list chunk :=
  [(0, TBL_CHUNK0); (4, TBL_CHUNK1); (11, TBL_CHUNK2); (15, TBL_CHUNK3); (16, TBL_CHUNK4)].
Definition procedure_chunks : list chunk :=
  [(18, privilege_val EXECUTE_ACL); (23, privilege_val ALTER_PROC_ACL); (8, privilege_val GRANT_ACL)].
Definition column_chunks : list chunk := [(0, SELECT_ACL .| INSERT_ACL .| UPDATE_ACL); (8, privilege_val REFERENCES_ACL)].

(** A stored format: how rights are unpacked and packed, which privileges it
    holds and in how many bits. *)
Record rights_codec := mkCodec {
  rc_fix : Z -> Z; rc_get : Z -> Z; rc_acls : Z; rc_width : Z
}.
Definition db_rights : rights_codec := mkCodec fix_rights_for_db get_rights_for_db DB_ACLS 20.
Definition table_rights : rights_codec := mkCodec fix_rights_for_table get_rights_for_table TABLE_ACLS 14.
Definition column_rights : rights_codec := mkCodec fix_rights_for_column get_rights_for_column COL_ACLS 4.
Definition procedure_rights : rights_codec := mkCodec fix_rights_for_procedure get_rights_for_procedure PROC_ACLS 3.

(** What a format promises: unpacking and packing are inverse bijections between
    the words of [rc_width] bits and the subsets of [rc_acls]. *)
Class RightsCodecLaws (c : rights_codec) : Prop := {
  rc_get_fix A : ufits (rc_width c) A -> rc_get c (rc_fix c A) = A /\ subset (rc_fix c A) (rc_acls c);
  rc_fix_get B : subset B (rc_acls c) -> rc_fix c (rc_get c B) = B /\ ufits (rc_width c) (rc_get c B)
}.

Lemma ufits_subset_ones w A : 0 <= w -> ufits w A <-> subset A (Z.ones w).
Proof.
  intros Hw. unfold subset. rewrite Z.land_ones by done. split.
  - intros H. apply Z.mod_small, H.
  - intros <-. apply Z.mod_pos_bound. lia.
Qed.

Lemma subset_ufits w a b : 0 <= w -> ufits w b -> subset a b -> ufits w a.
Proof.
  intros Hw Hb Hs. unfold subset in Hs. rewrite <- Hs, Z.land_comm. apply ufits_land; [done..|].
  rewrite <- Hs. apply Z.land_nonneg. right. apply Hb.
Qed.

(** A format given by chunks, on 64-bit words. *)
Lemma chunk_codec_laws c l :
  chunks_ok l = true -> masks l = rc_acls c -> packed l = Z.ones (rc_width c) -> 0 <= rc_width c <= 64 ->
  ufits 64 (rc_acls c) ->
  (forall A, ufits (rc_width c) A -> rc_fix c A = spread l A) ->
  (forall B, subset B (rc_acls c) -> rc_get c B = gather l B) -> RightsCodecLaws c.
Proof.
  intros Hok Hm Hp Hw Hacl Hfix Hget. split.
  - intros A HA. assert (subset (spread l A) (rc_acls c)) by (rewrite <- Hm; by apply spread_subset).
    rewrite Hfix, Hget by (done || by rewrite Hfix). split; [|done].
    apply gather_spread; [done|]. rewrite Hp. apply ufits_subset_ones; [lia|done].
  - intros B HB. assert (ufits (rc_width c) (gather l B)) by (apply ufits_subset_ones; [lia|]; rewrite <- Hp; apply gather_subset).
    rewrite Hget, Hfix by done. split; [|done]. apply spread_gather; [done|by rewrite Hm].
Qed.

Lemma u64_shiftl_0 A : ufits 64 A -> u64 (A .<< 0) = A.
Proof. intros H. rewrite Z.shiftl_0_r. by apply uwrap_small. Qed.

Ltac open_chunks := cbn [spread gather foldr db_chunks table_chunks procedure_chunks column_chunks]; rewrite ?Z.lor_0_r, ?Z.shiftr_0_r, ?Z.lor_assoc.

#[export] Instance db_rights_laws : RightsCodecLaws db_rights.
Proof.
  apply chunk_codec_laws with db_chunks; [by vm_compute..|simpl; lia|by apply (bool_decide_unpack _); vm_compute| |].
  - intros A HA. open_chunks. rewrite u64_shiftl_0 by (by apply ufits_mono with 20). done.
  - intros B _. open_chunks. done.
Qed.

#[export] Instance table_rights_laws : RightsCodecLaws table_rights.
Proof.
  apply chunk_codec_laws with table_chunks; [by vm_compute..|simpl; lia|by apply (bool_decide_unpack _); vm_compute| |].
  - intros A HA. open_chunks. rewrite u64_shiftl_0 by (by apply ufits_mono with 14). done.
  - intros B _. open_chunks. done.
Qed.

#[export] Instance procedure_rights_laws : RightsCodecLaws procedure_rights.
Proof.
  apply chunk_codec_laws with procedure_chunks; [by vm_compute..|simpl; lia|by apply (bool_decide_unpack _); vm_compute| |].
  - intros A HA. open_chunks. done.
  - intros B _. open_chunks. done.
Qed.

(** Only four columns: the sixteen words are checked one by one. *)
Lemma column_fix_spread A : ufits 4 A -> fix_rights_for_column A = spread column_chunks A.
Proof.
  intros [H0 H1]. apply Z.eqb_eq.
  apply (narrow_values 4 (fun A => fix_rights_for_column A =? spread column_chunks A)); [by vm_compute|done].
Qed.

Lemma column_get_gather B : subset B COL_ACLS -> get_rights_for_column B = gather column_chunks B.
Proof.
  intros H. apply Z.eqb_eq.
  assert (ufits 12 B) as Hb by (apply subset_ufits with COL_ACLS; [done|by apply (bool_decide_unpack _); vm_compute|done]).
  assert (implb (B .& COL_ACLS =? B) (get_rights_for_column B =? gather column_chunks B) = true) as K.
  { apply (narrow_values 12 (fun B => implb (B .& COL_ACLS =? B)
      (get_rights_for_column B =? gather column_chunks B))); [by vm_compute|done]. }
  by rewrite (proj2 (Z.eqb_eq _ _) H) in K.
Qed.

#[export] Instance column_rights_laws : RightsCodecLaws column_rights.
Proof.
  apply chunk_codec_laws with column_chunks; [by vm_compute..|simpl; lia|by apply (bool_decide_unpack _); vm_compute| |].
  - exact column_fix_spread.
  - exact column_get_gather.
Qed.

(** * Theorems *)

(** C1.  Round trip: for the database, table, column and routine grant tables,
    unpacking a stored word of the format's width and packing it again gives the
    word back, packing a set of privileges of that level and unpacking it gives
    the set back, and the results stay inside the level ([DB_ACLS],
    [TABLE_ACLS], [COL_ACLS], [PROC_ACLS]) and the width (20, 14, 4 and 3 bits):
    the two functions are inverse bijections. *)
Theorem rights_roundtrip c A B :
  c ∈ [db_rights; table_rights; column_rights; procedure_rights] ->
  ufits (rc_width c) A -> subset B (rc_acls c) ->
  (rc_get c (rc_fix c A) = A /\ subset (rc_fix c A) (rc_acls c)) /\
  (rc_fix c (rc_get c B) = B /\ ufits (rc_width c) (rc_get c B)).
Proof.
  intros Hc HA HB. assert (RightsCodecLaws c) as Hl.
  { rewrite !elem_of_cons in Hc. destruct Hc as [->|[->|[->|[->|[]%elem_of_nil]]]]; apply _. }
  split; [by apply rc_get_fix|by apply rc_fix_get].
Qed.

Lemma rights_roundtrip_witness :
  (get_rights_for_db (fix_rights_for_db 0xABCDE) = 0xABCDE /\ subset (fix_rights_for_db 0xABCDE) DB_ACLS) /\
  (fix_rights_for_db (get_rights_for_db (SELECT_ACL .| EVENT_ACL)) = SELECT_ACL .| EVENT_ACL /\
   ufits 20 (get_rights_for_db (SELECT_ACL .| EVENT_ACL))).
Proof.
  apply (rights_roundtrip db_rights 0xABCDE (SELECT_ACL .| EVENT_ACL)).
  - apply elem_of_cons. by left.
  - by apply (bool_decide_unpack _); vm_compute.
  - by apply (bool_decide_unpack _); vm_compute.
Defined.

(** Type invariant of the enumeration: every enumerator but [NO_ACL] is a
    single bit, distinct enumerators are distinct bits, and the bits defined are
    exactly those of [ALL_KNOWN_ACL], the highest being [PRIVILEGE_T_MAX_BIT]
    (the computation of [my_bit_log2_uint64], as the static assertion says). *)
Theorem privilege_bits_exact i :
  (ALL_KNOWN_ACL = Z.ones (PRIVILEGE_T_MAX_BIT + 1)) /\ u64 (1 .<< PRIVILEGE_T_MAX_BIT) = LAST_CURRENT_ACL /\
  (Z.testbit ALL_KNOWN_ACL i = true <-> exists p, p <> NO_ACL /\ privilege_val p = 2 ^ i /\ 0 <= i) /\
  (forall p q, privilege_val p = privilege_val q -> p = q).
Proof.
  split; [by vm_compute|]. split; [by vm_compute|]. split.
  - assert (ALL_KNOWN_ACL = Z.ones 39) as -> by by vm_compute. split.
    + intros Hi. destruct (decide (0 <= i < 39)) as [Hr|Hr].
      * assert (Forall (fun j => exists p, p <> NO_ACL /\ privilege_val p = 2 ^ Z.of_nat j) (seq 0 39)) as H.
        { cbn [seq]. repeat constructor; match goal with |- exists p, _ /\ _ = 2 ^ Z.of_nat ?k =>
            let p := eval vm_compute in (nth (S k) all_privileges NO_ACL) in by exists p end. }
        rewrite Forall_forall in H. destruct (H (Z.to_nat i)) as (p & Hp & E); [apply elem_of_seq; lia|].
        exists p. rewrite E. rewrite Z2Nat.id by lia. split; [done|]. split; [done|lia].
      * exfalso. destruct (decide (i < 0)); [by rewrite Z.testbit_neg_r in Hi|].
        by rewrite Z.ones_spec_high in Hi by lia.
    + intros (p & Hp & E & Hi). apply Z.ones_spec_low. split; [done|].
      apply (Z.pow_lt_mono_r_iff 2); [lia|lia|]. rewrite <- E. by destruct p.
  - intros p q. destruct p, q; vm_compute; done.
Qed.

(** The levels are nested: column rights are table rights, table and
    routine rights are database rights, database rights are global rights, and
    the global rights are exactly the known privileges; each version's set of
    known bits extends the one before. *)
Theorem privilege_levels_nested :
  subset COL_ACLS TABLE_ACLS /\ subset TMP_TABLE_ACLS TABLE_ACLS /\ subset SHOW_CREATE_TABLE_ACLS TABLE_ACLS /\
  subset TABLE_ACLS DB_ACLS /\ subset PROC_ACLS DB_ACLS /\ subset SHOW_PROC_ACLS DB_ACLS /\
  subset DEFAULT_CREATE_PROC_ACLS PROC_ACLS /\ subset DB_ACLS GLOBAL_ACLS /\ GLOBAL_ACLS = ALL_KNOWN_ACL /\
  subset ALL_KNOWN_ACL_100304 ALL_KNOWN_ACL_100502 /\ subset ALL_KNOWN_ACL_100502 ALL_KNOWN_ACL_100508 /\
  ALL_KNOWN_ACL_100509 = ALL_KNOWN_ACL /\
  subset GLOBAL_SUPER_ADDED_SINCE_USER_TABLE_ACLS (ALL_KNOWN_ACL .& privilege_not ALL_KNOWN_ACL_100304).
Proof. unfold subset. repeat split; by vm_compute. Qed.

(** Every action's requirement can be met by a global grant and never by
    nothing; setting any of the listed server variables is allowed with [SUPER],
    alone. *)
Theorem required_privileges_grantable (p : Z) :
  p ∈ PRIV_table -> p <> privilege_val NO_ACL /\ subset p GLOBAL_ACLS /\
  (p ∈ PRIV_variables -> has p SUPER_ACL = true).
Proof.
  intros Hp. assert (forallb (fun p => negb (p =? 0) && bool_decide (subset p GLOBAL_ACLS)) PRIV_table = true) as H
    by by vm_compute.
  rewrite forallb_forall in H. specialize (H p). rewrite list_elem_of_In in Hp. apply H in Hp.
  apply andb_true_iff in Hp as [H1 H2]. apply negb_true_iff, Z.eqb_neq in H1. apply bool_decide_eq_true in H2.
  split; [done|]. split; [done|]. intros Hv.
  assert (forallb (fun p => has p SUPER_ACL) PRIV_variables = true) as K by by vm_compute.
  rewrite forallb_forall in K. apply K. by apply list_elem_of_In.
Qed.

Lemma required_privileges_grantable_witness :
  PRIV_DEBUG <> privilege_val NO_ACL /\ subset PRIV_DEBUG GLOBAL_ACLS /\
  (PRIV_DEBUG ∈ PRIV_variables -> has PRIV_DEBUG SUPER_ACL = true).
Proof.
  apply (required_privileges_grantable PRIV_DEBUG). apply list_elem_of_In. unfold PRIV_table.
  repeat ((left; reflexivity) || right).
Defined.
