(* ===== verification/SqlList.v ===== *)
(** Singly linked lists: [list_node], [base_list], [base_list_iterator], [List]
    and [bubble_sort] of [private/sql_list.h].

    The lists share nodes by pointer, so the model keeps an explicit store: the
    nodes by address and the list headers by identity.  A [list_node **] is a
    [slot]: the [first] member of a header or the [next] member of a node.
    [None] is undefined behaviour (an access through an invalid pointer). *)

From S2P Require Import Prelude.

(** * The store *)

Definition ptr : Type := nat.
Definition NULL : ptr := 0%nat.
(** The address of the global [end_of_list]. *)
Definition end_of_list : ptr := 1%nat.

Record list_node := mkNode { next : ptr; info : Z }.

(** A value of type [list_node **]. *)
Inductive slot := FirstOf (l : nat) | NextOf (n : ptr).

#[export] Instance slot_eq_dec : EqDecision slot.
Proof. solve_decision. Defined.

Record base_list := mkList { first : ptr; last : slot; elements : Z }.

Record store := mkStore { nodes : gmap ptr list_node; lists : gmap nat base_list }.

Definition set_node (st : store) (p : ptr) (n : list_node) : store :=
  mkStore (<[p := n]> (nodes st)) (lists st).
Definition set_list (st : store) (l : nat) (bl : base_list) : store :=
  mkStore (nodes st) (<[l := bl]> (lists st)).

(** [*s] and [*s = p]. *)
Definition read_slot (st : store) (s : slot) : option ptr :=
  match s with
  | FirstOf l => first <$> lists st !! l
  | NextOf n => next <$> nodes st !! n
  end.
Definition write_slot (st : store) (s : slot) (p : ptr) : option store :=
  match s with
  | FirstOf l =>
      bl ← lists st !! l;
      Some (set_list st l (mkList p (last bl) (elements bl)))
  | NextOf n =>
      nd ← nodes st !! n;
      Some (set_node st n (mkNode p (info nd)))
  end.

(** [new list_node(info, next)]: the allocator's answer [mem] is an argument, a
    fresh address or [None] when memory is exhausted. *)
Definition new_list_node (st : store) (inf : Z) (nxt : ptr) (mem : option ptr) : ptr * store :=
  match mem with
  | Some p => (p, set_node st p (mkNode nxt inf))
  | None => (NULL, st)
  end.

(** [delete]: the node may not be used any more. *)
Definition delete_node (st : store) (p : ptr) : store :=
  mkStore (delete p (nodes st)) (lists st).

Abbreviation u32_inc z := (u32 (z + 1)).
Abbreviation u32_dec z := (u32 (z - 1)).

(** * [base_list] *)

Definition base_list_empty (st : store) (l : nat) : store :=
  set_list st l (mkList end_of_list (FirstOf l) 0).

(** [operator=]: an empty list must point at its own [first]. *)
Definition base_list_assign (st : store) (l rhs : nat) : option store :=
  r ← lists st !! rhs;
  Some (set_list st l (mkList (first r) (if c_true (elements r) then last r else FirstOf l) (elements r))).

Definition base_list_eq (st : store) (l rhs : nat) : option bool :=
  a ← lists st !! l; b ← lists st !! rhs;
  Some ((elements a =? elements b) && bool_decide (first a = first b) && bool_decide (last a = last b)).

Definition is_empty (st : store) (l : nat) : option bool :=
  bl ← lists st !! l; Some (bool_decide (first bl = end_of_list)).

(** Returns [true] on failure, as the code does. *)
Definition push_back (st : store) (l : nat) (inf : Z) (mem : option ptr) : option (bool * store) :=
  bl ← lists st !! l;
  let '(node, st) := new_list_node st inf end_of_list mem in
  st ← write_slot st (last bl) node;
  if bool_decide (node <> NULL) then
    bl ← lists st !! l;
    p ← read_slot st (last bl);
    _ ← nodes st !! p;
    Some (false, set_list st l (mkList (first bl) (NextOf p) (u32_inc (elements bl))))
  else Some (true, st).

Definition push_front_impl (st : store) (l : nat) (node : ptr) : option (bool * store) :=
  if bool_decide (node <> NULL) then
    bl ← lists st !! l;
    let la := if bool_decide (last bl = FirstOf l) then NextOf node else last bl in
    Some (false, set_list st l (mkList node la (u32_inc (elements bl))))
  else Some (true, st).

Definition push_front (st : store) (l : nat) (inf : Z) (mem : option ptr) : option (bool * store) :=
  bl ← lists st !! l;
  let '(node, st) := new_list_node st inf (first bl) mem in
  push_front_impl st l node.

(** [remove(list_node **prev)]. *)
Definition base_list_remove (st : store) (l : nat) (prev : slot) : option store :=
  p ← read_slot st prev;
  node ← next <$> nodes st !! p;
  bl ← lists st !! l;
  let e := u32_dec (elements bl) in
  let la := if negb (c_true e) then FirstOf l
            else if bool_decide (last bl = NextOf p) then prev else last bl in
  let st := set_list st l (mkList (first bl) la e) in
  write_slot (delete_node st p) prev node.

Definition append (st : store) (l other : nat) : option store :=
  oe ← is_empty st other;
  if negb oe then
    e ← is_empty st l;
    if (e : bool) then base_list_assign st l other
    else
      bl ← lists st !! l; o ← lists st !! other;
      st ← write_slot st (last bl) (first o);
      bl ← lists st !! l;
      Some (set_list st l (mkList (first bl) (last o) (u32 (elements bl + elements o))))
  else Some st.

(** Returns the element popped, [0] on an empty list. *)
Definition pop (st : store) (l : nat) : option (Z * store) :=
  bl ← lists st !! l;
  if bool_decide (first bl = end_of_list) then Some (0, st)
  else
    tmp ← nodes st !! first bl;
    let e := u32_dec (elements bl) in
    let la := if negb (c_true e) then FirstOf l else last bl in
    Some (info tmp, set_list st l (mkList (next tmp) la e)).

(** [disjoin]: the loop, with the count of elements and the last slot passed;
    [inl] is the early return. *)
Fixpoint disjoin_loop (fuel : nat) (st : store) (prev : slot) (node list_first : ptr) (els : Z)
    : option (Z + slot * Z) :=
  match fuel with
  | O => None
  | S fuel =>
      if bool_decide (node <> end_of_list) && bool_decide (node <> list_first) then
        nx ← next <$> nodes st !! node;
        let els := u32_inc els in
        if bool_decide (nx = end_of_list) then Some (inl els)
        else disjoin_loop fuel st (NextOf node) nx list_first els
      else Some (inr (prev, els))
  end.

Definition disjoin (fuel : nat) (st : store) (l other : nat) : option store :=
  bl ← lists st !! l; o ← lists st !! other;
  r ← disjoin_loop fuel st (FirstOf l) (first bl) (first o) 0;
  match r with
  | inl els => Some (set_list st l (mkList (first bl) (last bl) els))
  | inr (prev, els) =>
      st ← write_slot st prev end_of_list;
      bl ← lists st !! l;
      Some (set_list st l (mkList (first bl) prev els))
  end.

Definition prepend (st : store) (l other : nat) : option store :=
  oe ← is_empty st other;
  if negb oe then
    e ← is_empty st l;
    o ← lists st !! other;
    bl ← lists st !! l;
    let la := if (e : bool) then last o else last bl in
    let st := set_list st l (mkList (first bl) la (elements bl)) in
    st ← write_slot st (last o) (first bl);
    o ← lists st !! other;
    bl ← lists st !! l;
    Some (set_list st l (mkList (first o) (last bl) (u32 (elements bl + elements o))))
  else Some st.

Definition swap (st : store) (l rhs : nat) : option store :=
  a ← lists st !! l; b ← lists st !! rhs;
  let st := set_list st rhs (mkList (first a)
              (if bool_decide (last a = FirstOf l) then FirstOf rhs else last a) (elements a)) in
  Some (set_list st l (mkList (first b)
          (if bool_decide (last b = FirstOf rhs) then FirstOf l else last b) (elements b))).

Definition last_node (st : store) (l : nat) : option ptr := bl ← lists st !! l; read_slot st (last bl).
Definition first_node (st : store) (l : nat) : option ptr := first <$> lists st !! l.
Definition head (st : store) (l : nat) : option Z := bl ← lists st !! l; info <$> nodes st !! first bl.

(** The address of the head's [info], as the node that holds it; [0] for none. *)
Definition head_ref (st : store) (l : nat) : option ptr :=
  bl ← lists st !! l; Some (if bool_decide (first bl <> end_of_list) then first bl else NULL).

Fixpoint add_unique_loop (fuel : nat) (st : store) (node : ptr) (eq : Z -> Z -> bool) (inf : Z)
    : option ptr :=
  match fuel with
  | O => None
  | S fuel =>
      if bool_decide (node <> end_of_list) then
        nd ← nodes st !! node;
        if negb (eq (info nd) inf) then add_unique_loop fuel st (next nd) eq inf else Some node
      else Some node
  end.

Definition add_unique (fuel : nat) (st : store) (l : nat) (inf : Z) (eq : Z -> Z -> bool)
    (mem : option ptr) : option (bool * store) :=
  bl ← lists st !! l;
  node ← add_unique_loop fuel st (first bl) eq inf;
  if bool_decide (node = end_of_list) then push_back st l inf mem else Some (true, st).

(** [elem(n)]: [n + 1] turns of the loop. *)
Fixpoint elem_loop (turns : nat) (st : store) (node : ptr) (data : Z) : option Z :=
  match turns with
  | O => Some data
  | S turns =>
      if bool_decide (node = end_of_list) then Some 0
      else nd ← nodes st !! node; elem_loop turns st (next nd) (info nd)
  end.
Definition elem (st : store) (l : nat) (n : nat) : option Z :=
  bl ← lists st !! l; elem_loop (S n) st (first bl) 0.

(** [check_list], from the node it has reached. *)
Fixpoint check_list_loop (fuel : nat) (st : store) (node : ptr) (cnt : Z) : option (bool * ptr * Z) :=
  match fuel with
  | O => None
  | S fuel =>
      nd ← nodes st !! node;
      if bool_decide (next nd <> end_of_list) then
        if negb (c_true (info nd)) then Some (false, node, cnt)
        else check_list_loop fuel st (next nd) (u32_inc cnt)
      else Some (true, node, cnt)
  end.
Definition check_list (fuel : nat) (st : store) (l : nat) : option bool :=
  bl ← lists st !! l;
  '(ok, node, cnt) ← check_list_loop fuel st (first bl) 0;
  if negb ok then Some false
  else if bool_decide (last bl <> NextOf node) then Some false
  else if negb (u32_inc cnt =? elements bl) then Some false
  else Some true.

(** [after(info, node)]: the code does not test the allocation. *)
Definition base_list_after (st : store) (l : nat) (inf : Z) (node : ptr) (mem : option ptr) : option store :=
  nd ← nodes st !! node;
  let '(new_node, st) := new_list_node st inf (next nd) mem in
  st ← write_slot st (NextOf node) new_node;
  bl ← lists st !! l;
  let la := if bool_decide (last bl = NextOf node) then NextOf new_node else last bl in
  Some (set_list st l (mkList (first bl) la (u32_inc (elements bl)))).

(** * [base_list_iterator] *)

Record base_list_iterator := mkIter {
  it_list : nat; it_el : slot; it_prev : option slot; it_current : ptr
}.

Definition it_init (l : nat) : base_list_iterator := mkIter l (FirstOf l) None NULL.

Definition it_next (st : store) (it : base_list_iterator) : option (Z * base_list_iterator) :=
  current ← read_slot st (it_el it);
  nd ← nodes st !! current;
  Some (info nd, mkIter (it_list it) (NextOf current) (Some (it_el it)) current).

Definition it_peek (st : store) (it : base_list_iterator) : option Z :=
  p ← read_slot st (it_el it); info <$> nodes st !! p.

Definition it_next_fast (st : store) (it : base_list_iterator) : option (Z * base_list_iterator) :=
  tmp ← read_slot st (it_el it);
  nd ← nodes st !! tmp;
  Some (info nd, mkIter (it_list it) (NextOf tmp) (it_prev it) (it_current it)).

Definition it_rewind (it : base_list_iterator) : base_list_iterator :=
  mkIter (it_list it) (FirstOf (it_list it)) (it_prev it) (it_current it).

(** [replace] of the element: returns the old one. *)
Definition it_replace (st : store) (it : base_list_iterator) (element : Z) : option (Z * store) :=
  nd ← nodes st !! it_current it;
  Some (info nd, set_node st (it_current it) (mkNode (next nd) element)).

(** [replace] of the element by a whole list. *)
Definition it_replace_list (st : store) (it : base_list_iterator) (new_list : nat) : option (Z * store) :=
  nd ← nodes st !! it_current it;
  e ← is_empty st new_list;
  if negb e then
    nl ← lists st !! new_list;
    st ← write_slot st (last nl) (next nd);
    nl ← lists st !! new_list;
    nf ← nodes st !! first nl;
    cur ← nodes st !! it_current it;
    let st := set_node st (it_current it) (mkNode (next cur) (info nf)) in
    nf ← nodes st !! first nl;
    let st := set_node st (it_current it) (mkNode (next nf) (info nf)) in
    bl ← lists st !! it_list it;
    let la := if bool_decide (last bl = NextOf (it_current it)) && (1 <? elements nl)
              then last nl else last bl in
    Some (info nd, set_list st (it_list it)
                     (mkList (first bl) la (u32 (elements bl + u32 (elements nl - 1)))))
  else Some (info nd, st).

Definition it_remove (st : store) (it : base_list_iterator) : option (store * base_list_iterator) :=
  prev ← it_prev it;
  st ← base_list_remove st (it_list it) prev;
  Some (st, mkIter (it_list it) prev (Some prev) NULL).

Definition it_after (st : store) (it : base_list_iterator) (element : Z) (mem : option ptr)
    : option (store * base_list_iterator) :=
  st ← base_list_after st (it_list it) element (it_current it) mem;
  cur ← next <$> nodes st !! it_current it;
  Some (st, mkIter (it_list it) (NextOf cur) (it_prev it) cur).

Definition it_is_last (it : base_list_iterator) : bool := bool_decide (it_el it = NextOf end_of_list).
Definition it_at_end (it : base_list_iterator) : bool := bool_decide (it_current it = end_of_list).

Definition it_sublist (st : store) (it : base_list_iterator) (ls : nat) (elm : Z) : option store :=
  p ← read_slot st (it_el it);
  bl ← lists st !! it_list it;
  _ ← lists st !! ls;
  Some (set_list st ls (mkList p (last bl) elm)).

(** * The lists the store represents *)

(** From pointer [p] the [next] members lead through the nodes [ns] (address and
    element) to [q]. *)
Fixpoint chain (h : gmap ptr list_node) (p : ptr) (ns : list (ptr * Z)) (q : ptr) : Prop :=
  match ns with
  | [] => p = q
  | (a, v) :: r => p = a /\ exists nx, h !! a = Some (mkNode nx v) /\ chain h nx r q
  end.

(** The slot that holds the pointer to what follows [ns]. *)
Fixpoint end_slot (s : slot) (ns : list (ptr * Z)) : slot :=
  match ns with [] => s | (a, _) :: r => end_slot (NextOf a) r end.

(** The sentinel: no element, and its own successor. *)
Definition end_ok (st : store) : Prop := nodes st !! end_of_list = Some (mkNode end_of_list 0).

(** The nodes of a list are distinct, and neither [NULL] nor the sentinel. *)
Definition nodes_ok (ns : list (ptr * Z)) : Prop :=
  NoDup ns.*1 /\ end_of_list ∉ ns.*1 /\ NULL ∉ ns.*1.

(** The list header [l] leads through the nodes [ns] to the pointer [t]. *)
Definition ends_rep (t : ptr) (st : store) (l : nat) (ns : list (ptr * Z)) : Prop :=
  exists f, lists st !! l = Some (mkList f (end_slot (FirstOf l) ns) (Z.of_nat (length ns))) /\
            chain (nodes st) f ns t /\
            (Z.of_nat (length ns) < 2 ^ 32) /\ nodes_ok ns /\ end_ok st.

(** The list header [l] represents the nodes [ns]: it ends where a list ends. *)
Definition list_rep : store -> nat -> list (ptr * Z) -> Prop := ends_rep end_of_list.

(** The stores agree except on the nodes [A] and the headers [L]. *)
Definition same_except (st st' : store) (A : list ptr) (L : list nat) : Prop :=
  (forall a, a ∉ A -> nodes st' !! a = nodes st !! a) /\
  (forall l, l ∉ L -> lists st' !! l = lists st !! l).

Lemma chain_app h p ns1 ns2 q :
  chain h p (ns1 ++ ns2) q <-> exists m, chain h p ns1 m /\ chain h m ns2 q.
Proof.
  revert p. induction ns1 as [|[a v] ns1 IH]; intros p; simpl; [naive_solver|].
  split.
  - intros [-> (nx & Ha & Hc)]. apply IH in Hc as (m & ? & ?). eauto 6.
  - intros (m & [-> (nx & Ha & Hc)] & Hm). split; [done|]. exists nx. split; [done|].
    apply IH. eauto.
Qed.

Lemma chain_snoc h p ns a v q :
  chain h p (ns ++ [(a, v)]) q <-> chain h p ns a /\ h !! a = Some (mkNode q v).
Proof. rewrite chain_app. simpl. naive_solver. Qed.

Lemma chain_frame h h' p ns q :
  (forall a, a ∈ ns.*1 -> h' !! a = h !! a) -> chain h p ns q -> chain h' p ns q.
Proof.
  revert p. induction ns as [|[a v] ns IH]; intros p E; simpl; [done|].
  intros [-> (nx & Ha & Hc)]. split; [done|]. exists nx. split.
  - rewrite E; [done|left].
  - apply IH; [|done]. intros; apply E; by right.
Qed.

Lemma end_slot_app s ns1 ns2 : end_slot s (ns1 ++ ns2) = end_slot (end_slot s ns1) ns2.
Proof. revert s. induction ns1 as [|[a v] ns1 IH]; intros s; simpl; auto. Qed.

Lemma end_slot_snoc s ns a v : end_slot s (ns ++ [(a, v)]) = NextOf a.
Proof. by rewrite end_slot_app. Qed.

Lemma end_slot_NextOf_in s ns a : end_slot s ns = NextOf a -> s = NextOf a \/ a ∈ ns.*1.
Proof.
  revert s. induction ns as [|[b v] ns IH]; intros s; simpl; [by left|].
  intros [E|E]%IH; right; [simplify_eq; left|by right].
Qed.

Lemma end_slot_self a ns : a ∉ ns.*1 -> end_slot (NextOf a) ns = NextOf a -> ns = [].
Proof.
  destruct ns as [|[b v] ns _] using rev_ind; [done|]. rewrite end_slot_snoc, fmap_app. simpl.
  intros Ha [= ->]. exfalso. apply Ha, elem_of_app. right. left.
Qed.

Lemma end_slot_FirstOf s ns l : end_slot s ns = FirstOf l -> ns = [] /\ s = FirstOf l.
Proof.
  revert s. induction ns as [|[b v] ns IH]; intros s; simpl; [done|].
  by intros [_ ?]%IH.
Qed.

Lemma end_slot_nonempty s s' ns : ns <> [] -> end_slot s ns = end_slot s' ns.
Proof. by destruct ns as [|[a v] ns]. Qed.

(** Reading, then writing, the slot after a run of nodes. *)
Lemma read_end_slot st l f la e ns m :
  lists st !! l = Some (mkList f la e) -> chain (nodes st) f ns m ->
  read_slot st (end_slot (FirstOf l) ns) = Some m.
Proof.
  intros Hl. destruct ns as [|[a v] ns _] using rev_ind.
  - simpl. intros ->. by rewrite Hl.
  - rewrite end_slot_snoc, chain_snoc. intros [_ Ha]. simpl. by rewrite Ha.
Qed.

Lemma write_end_slot st l f la e ns m q :
  lists st !! l = Some (mkList f la e) -> chain (nodes st) f ns m -> NoDup ns.*1 ->
  exists st' f', write_slot st (end_slot (FirstOf l) ns) q = Some st' /\
    lists st' = <[l := mkList f' la e]> (lists st) /\ chain (nodes st') f' ns q /\
    (forall a, a ∉ ns.*1 -> nodes st' !! a = nodes st !! a) /\
    (ns = [] -> f' = q /\ nodes st' = nodes st) /\ (ns <> [] -> f' = f).
Proof.
  intros Hl. destruct ns as [|[a v] ns _] using rev_ind; intros Hc Hnd.
  - simpl. rewrite Hl. simpl. exists (set_list st l (mkList q la e)), q. done.
  - rewrite end_slot_snoc. apply chain_snoc in Hc as [Hc Ha]. simpl. rewrite Ha. simpl.
    rewrite fmap_app in Hnd. apply NoDup_app in Hnd as (Hnd & Hdis & _).
    exists (set_node st a (mkNode q v)), f. split; [done|]. simpl. split_and!.
    + by rewrite insert_id.
    + apply chain_snoc. rewrite lookup_insert_eq. split; [|done].
      apply chain_frame with (nodes st); [|done].
      intros b Hb. rewrite lookup_insert_ne; [done|]. intros ->. apply (Hdis b Hb). simpl. left.
    + intros b Hb. rewrite lookup_insert_ne; [done|]. intros ->. apply Hb.
      rewrite fmap_app. apply elem_of_app. right. simpl. left.
    + by destruct ns.
    + done.
Qed.

Lemma same_except_refl st A L : same_except st st A L.
Proof. done. Qed.

Lemma same_except_mono st st' A A' L L' :
  A ⊆ A' -> L ⊆ L' -> same_except st st' A L -> same_except st st' A' L'.
Proof. intros HA HL [H1 H2]. split; intros; [apply H1|apply H2]; set_solver. Qed.

Lemma same_except_trans st1 st2 st3 A L :
  same_except st1 st2 A L -> same_except st2 st3 A L -> same_except st1 st3 A L.
Proof. intros [H1 H2] [K1 K2]. split; intros; [rewrite K1|rewrite K2]; auto. Qed.

(** A list none of whose nodes changed is unchanged. *)
Lemma list_rep_frame st st' A L l ns :
  same_except st st' A L -> l ∉ L -> end_of_list ∉ A -> (forall a, a ∈ ns.*1 -> a ∉ A) ->
  list_rep st l ns -> list_rep st' l ns.
Proof.
  intros [HA HL] Hl He Hns (f & Hlk & Hc & Hlen & Hok & Hend). exists f. split_and!; try done.
  - by rewrite HL.
  - apply chain_frame with (nodes st); [|done]. auto.
  - unfold end_ok. by rewrite HA.
Qed.

Lemma list_rep_fresh {t} st l ns p :
  ends_rep t st l ns -> nodes st !! p = None -> p ∉ ns.*1 /\ p <> end_of_list.
Proof.
  intros (f & _ & Hc & _ & _ & Hend) Hp. split; [|intros ->; by rewrite Hend in Hp].
  intros Hin. apply list_elem_of_fmap in Hin as ([a v] & -> & Hin). simpl in Hp.
  apply list_elem_of_split in Hin as (l1 & l2 & ->). apply chain_app in Hc as (m & _ & [-> (nx & Ha & _)]).
  congruence.
Qed.

Lemma nodes_ok_snoc ns p v :
  nodes_ok ns -> p ∉ ns.*1 -> p <> end_of_list -> p <> NULL -> nodes_ok (ns ++ [(p, v)]).
Proof.
  intros (H1 & H2 & H3) Hp He Hn. unfold nodes_ok. rewrite fmap_app. simpl.
  split; [|set_solver]. apply NoDup_app. split_and!; [done|set_solver|apply NoDup_singleton].
Qed.

Lemma nodes_ok_app ns1 ns2 : nodes_ok (ns1 ++ ns2) <->
  nodes_ok ns1 /\ nodes_ok ns2 /\ (forall a, a ∈ ns1.*1 -> a ∉ ns2.*1).
Proof.
  unfold nodes_ok. rewrite fmap_app, NoDup_app. set_solver.
Qed.

(** The list operations extend one by one: the head of a represented list. *)
Lemma list_rep_first st l ns :
  list_rep st l ns -> exists bl, lists st !! l = Some bl /\
    first bl = match ns with [] => end_of_list | (a, _) :: _ => a end /\
    bool_decide (first bl = end_of_list) = bool_decide (ns = []).
Proof.
  intros (f & Hl & Hc & _ & (_ & He & _) & _). exists (mkList f (end_slot (FirstOf l) ns) (Z.of_nat (length ns))).
  split; [done|]. simpl. destruct ns as [|[a v] ns]; simpl in *; [by subst|].
  destruct Hc as [-> _]. split; [done|].
  assert (a <> end_of_list) by (intros ->; apply He; left).
  by rewrite bool_decide_eq_false_2.
Qed.

(** * The operations on represented lists *)

(** Bring the header, the chain and the bounds of a represented list into context. *)
Ltac open_rep H f Hl Hc Hlen Hok Hend :=
  let K := fresh in pose proof H as K; destruct K as (f & Hl & Hc & Hlen & Hok & Hend).

Lemma u32_small z : 0 <= z < 2 ^ 32 -> u32 z = z.
Proof. apply uwrap_small. Qed.

Lemma list_rep_intro {t} st l f la e ns :
  lists st !! l = Some (mkList f la e) -> la = end_slot (FirstOf l) ns ->
  e = Z.of_nat (length ns) -> chain (nodes st) f ns t ->
  Z.of_nat (length ns) < 2 ^ 32 -> nodes_ok ns -> end_ok st -> ends_rep t st l ns.
Proof. intros Hl -> -> Hc Hlen Hok Hend. exists f. auto. Qed.

Lemma base_list_empty_spec st l :
  end_ok st -> list_rep (base_list_empty st l) l [] /\ same_except st (base_list_empty st l) [] [l].
Proof.
  intros Hend. split.
  - apply list_rep_intro with end_of_list (FirstOf l) 0; try done.
    + simpl. apply lookup_insert_eq.
    + repeat split; [constructor|set_solver..].
  - split; [done|]. intros l' Hl'. simpl. apply lookup_insert_ne. set_solver.
Qed.

Lemma length_snoc_Z {A} (ns : list A) x : Z.of_nat (length (ns ++ [x])) = Z.of_nat (length ns) + 1.
Proof. rewrite length_app. simpl. lia. Qed.

Lemma push_back_spec {t} st l ns inf p :
  ends_rep t st l ns -> nodes st !! p = None -> p <> NULL -> Z.of_nat (length ns) + 1 < 2 ^ 32 ->
  exists st', push_back st l inf (Some p) = Some (false, st') /\
    list_rep st' l (ns ++ [(p, inf)]) /\ same_except st st' (p :: ns.*1) [l].
Proof.
  intros Hrep Hp Hnull Hbound. open_rep Hrep f Hl Hc Hlen Hok Hend.
  destruct (list_rep_fresh _ _ _ _ Hrep Hp) as [Hpns Hpe].
  unfold push_back. rewrite Hl. cbn [mbind option_bind new_list_node last].
  set (st1 := set_node st p (mkNode end_of_list inf)).
  assert (chain (nodes st1) f ns t) as Hc1.
  { apply chain_frame with (nodes st); [|done]. intros a Ha. simpl. apply lookup_insert_ne. by intros ->. }
  destruct (write_end_slot st1 l f (end_slot (FirstOf l) ns) (Z.of_nat (length ns)) ns t p Hl Hc1
              ltac:(by destruct Hok)) as (st2 & f' & -> & El & Hc2 & Hfr & _ & _).
  rewrite bool_decide_eq_true_2 by done.
  assert (lists st2 !! l = Some (mkList f' (end_slot (FirstOf l) ns) (Z.of_nat (length ns)))) as Hl2
    by (rewrite El; apply lookup_insert_eq).
  cbn [mbind option_bind]. rewrite Hl2. cbn [mbind option_bind last].
  rewrite (read_end_slot st2 l f' _ _ ns p Hl2 Hc2). cbn [mbind option_bind].
  assert (nodes st2 !! p = Some (mkNode end_of_list inf)) as Hp2
    by (rewrite Hfr by done; apply lookup_insert_eq).
  rewrite Hp2. cbn [mbind option_bind first elements]. eexists. split; [done|]. split.
  - apply list_rep_intro with f' (NextOf p) (u32 (Z.of_nat (length ns) + 1)); simpl.
    + apply lookup_insert_eq.
    + by rewrite end_slot_snoc.
    + rewrite u32_small, length_snoc_Z by lia. done.
    + by apply chain_snoc.
    + by rewrite length_snoc_Z.
    + by apply nodes_ok_snoc.
    + unfold end_ok. simpl. rewrite Hfr by (by destruct Hok as (_ & ? & _)).
      unfold st1. simpl. by rewrite lookup_insert_ne.
  - split; simpl.
    + intros a Ha. rewrite Hfr by set_solver. unfold st1. simpl. rewrite lookup_insert_ne; set_solver.
    + intros l' Hl'. rewrite El, !lookup_insert_ne by set_solver. done.
Qed.

Lemma push_front_spec {t} st l ns inf p :
  ends_rep t st l ns -> nodes st !! p = None -> p <> NULL -> Z.of_nat (length ns) + 1 < 2 ^ 32 ->
  exists st', push_front st l inf (Some p) = Some (false, st') /\
    ends_rep t st' l ((p, inf) :: ns) /\ same_except st st' [p] [l].
Proof.
  intros Hrep Hp Hnull Hbound. open_rep Hrep f Hl Hc Hlen Hok Hend.
  destruct (list_rep_fresh _ _ _ _ Hrep Hp) as [Hpns Hpe].
  unfold push_front. rewrite Hl. cbn [mbind option_bind new_list_node first].
  unfold push_front_impl. rewrite bool_decide_eq_true_2 by done. cbn [set_node lists].
  rewrite Hl. cbn [mbind option_bind last elements]. eexists. split; [done|]. split.
  - eapply list_rep_intro; simpl; [apply lookup_insert_eq|..].
    + case_bool_decide as E.
      * by apply end_slot_FirstOf in E as [-> _].
      * apply end_slot_nonempty. intros ->. by apply E.
    + rewrite u32_small by lia. lia.
    + split; [done|]. exists f. rewrite lookup_insert_eq. split; [done|].
      apply chain_frame with (nodes st); [|done]. intros a Ha. apply lookup_insert_ne. by intros ->.
    + lia.
    + destruct Hok as (H1 & H2 & H3). unfold nodes_ok. simpl.
      split; [by apply NoDup_cons_2|set_solver].
    + unfold end_ok. simpl. by rewrite lookup_insert_ne.
  - split; simpl; intros; apply lookup_insert_ne; set_solver.
Qed.

(** Removal of the node after [ns1], given by the slot that points at it. *)
Lemma base_list_remove_spec st l ns1 a v ns2 :
  list_rep st l (ns1 ++ (a, v) :: ns2) ->
  exists st', base_list_remove st l (end_slot (FirstOf l) ns1) = Some st' /\
    list_rep st' l (ns1 ++ ns2) /\ same_except st st' (ns1 ++ (a, v) :: ns2).*1 [l].
Proof.
  intros Hrep. open_rep Hrep f Hl Hc Hlen Hok Hend.
  apply chain_app in Hc as (m & Hc1 & [-> (nx & Ha & Hc2)]).
  apply nodes_ok_app in Hok as (Hok1 & Hok2 & Hdis).
  assert (nodes_ok [(a, v)] /\ nodes_ok ns2 /\ a ∉ ns2.*1) as (Hoka & Hok3 & Hans2).
  { apply (nodes_ok_app [(a, v)] ns2) in Hok2 as (? & ? & Hd). split_and!; auto. apply Hd. simpl. left. }
  assert (a ∉ ns1.*1) as Hans1 by (intros Hin; apply (Hdis a Hin); simpl; left).
  unfold base_list_remove. rewrite (read_end_slot st l f _ _ ns1 a Hl Hc1). cbn [mbind option_bind].
  rewrite Ha. cbn [fmap option_fmap option_map mbind option_bind next]. rewrite Hl.
  cbn [mbind option_bind elements last first].
  rewrite length_app in *. cbn [length] in *.
  rewrite u32_small by lia.
  set (la := if negb _ then _ else _).
  assert (la = end_slot (FirstOf l) (ns1 ++ ns2)) as Ela.
  { unfold la. rewrite !end_slot_app. cbn [end_slot]. destruct (c_true _) eqn:Ec; cbn [negb].
    - case_bool_decide as El; [by rewrite (end_slot_self a ns2)|].
      apply end_slot_nonempty. intros ->. by apply El.
    - apply c_true_false in Ec. destruct ns1, ns2; simpl in *; try lia. done. }
  set (e := Z.of_nat _ - 1) in *.
  set (st1 := delete_node (set_list st l (mkList f la e)) a).
  assert (chain (nodes st1) f ns1 a) as Hc1'.
  { apply chain_frame with (nodes st); [|done]. intros b Hb. simpl. apply lookup_delete_ne. by intros ->. }
  assert (lists st1 !! l = Some (mkList f la e)) as Hl1 by (simpl; apply lookup_insert_eq).
  destruct (write_end_slot st1 l f la e ns1 a nx Hl1 Hc1' ltac:(by destruct Hok1))
    as (st2 & f' & -> & El & Hc3 & Hfr & _ & _).
  exists st2. split; [done|]. split.
  - apply list_rep_intro with f' la e.
    + rewrite El. apply lookup_insert_eq.
    + done.
    + unfold e. rewrite length_app. lia.
    + apply chain_app. exists nx. split; [done|]. apply chain_frame with (nodes st); [|done].
      intros b Hb. rewrite Hfr; [apply lookup_delete_ne; by intros ->|].
      intros Hb1. apply (Hdis b Hb1). simpl. by right.
    + rewrite length_app. lia.
    + apply nodes_ok_app. split_and!; [done..|]. intros b Hb1 Hb2. apply (Hdis b Hb1). simpl. by right.
    + unfold end_ok. rewrite Hfr by (by destruct Hok1 as (_ & ? & _)). simpl.
      rewrite lookup_delete_ne; [done|]. intros ->. destruct Hoka as (_ & Hx & _). apply Hx. left.
  - rewrite fmap_app, fmap_cons. split.
    + intros b Hb. rewrite Hfr by set_solver. simpl. apply lookup_delete_ne. set_solver.
    + intros l' Hl'. rewrite El. simpl. rewrite !lookup_insert_ne by set_solver. done.
Qed.

Lemma pop_spec {t} st l ns :
  ends_rep t st l ns ->
  match ns with
  | [] => t = end_of_list -> pop st l = Some (0, st)
  | (a, v) :: ns' => exists st', pop st l = Some (v, st') /\ ends_rep t st' l ns' /\ same_except st st' [] [l]
  end.
Proof.
  intros Hrep. open_rep Hrep f Hl Hc Hlen Hok Hend. unfold pop. rewrite Hl. cbn [mbind option_bind first].
  destruct ns as [|[a v] ns]; simpl in Hc.
  - intros ->. subst f. by rewrite bool_decide_eq_true_2.
  - destruct Hc as [-> (nx & Ha & Hc)]. destruct Hok as (Hnd & He & Hn).
    rewrite bool_decide_eq_false_2 by (intros ->; apply He; left). rewrite Ha.
    cbn [mbind option_bind elements last info next length]. rewrite u32_small by (cbn [length] in *; lia).
    eexists. split; [done|]. split.
    + eapply list_rep_intro; simpl; [apply lookup_insert_eq|..|done].
      * destruct (c_true _) eqn:Ec; cbn [negb].
        -- apply c_true_spec in Ec. apply end_slot_nonempty. intros ->. simpl in Ec. lia.
        -- apply c_true_false in Ec. destruct ns; [done|]. simpl in Ec. lia.
      * lia.
      * done.
      * simpl in Hlen. lia.
      * apply NoDup_cons_1_2 in Hnd. unfold nodes_ok. set_solver.
    + split; [done|]. intros l' Hl'. simpl. apply lookup_insert_ne. set_solver.
Qed.

(** ** Whole lists *)

Definition disjoint_nodes (ns ms : list (ptr * Z)) : Prop := forall a, a ∈ ns.*1 -> a ∉ ms.*1.

Lemma list_rep_is_empty st l ns :
  list_rep st l ns -> is_empty st l = Some (bool_decide (ns = [])).
Proof.
  intros Hrep. destruct (list_rep_first _ _ _ Hrep) as (bl & Hl & _ & E).
  unfold is_empty. rewrite Hl. cbn [mbind option_bind]. by rewrite E.
Qed.

Lemma same_except_rep_other st st' A l o ms :
  same_except st st' A [l] -> l <> o -> end_of_list ∉ A -> (forall a, a ∈ A -> a ∉ ms.*1) ->
  list_rep st o ms -> list_rep st' o ms.
Proof. intros Hs Hlo He Hd. apply list_rep_frame with A [l]; set_solver. Qed.

Lemma append_spec st l o ns ms :
  list_rep st l ns -> list_rep st o ms -> l <> o -> disjoint_nodes ns ms ->
  Z.of_nat (length ns) + Z.of_nat (length ms) < 2 ^ 32 ->
  exists st', append st l o = Some st' /\ list_rep st' l (ns ++ ms) /\ list_rep st' o ms /\
    same_except st st' ns.*1 [l].
Proof.
  intros Hrl Hro Hlo Hdis Hbound. unfold append.
  rewrite (list_rep_is_empty _ _ _ Hro), (list_rep_is_empty _ _ _ Hrl). cbn [mbind option_bind].
  destruct (decide (ms = [])) as [->|Hms].
  { exists st. rewrite bool_decide_eq_true_2, app_nil_r by done. cbn [negb]. done. }
  rewrite (bool_decide_eq_false_2 (ms = [])) by done. cbn [negb].
  open_rep Hro g Ho Hco Hleno Hoko Hend. open_rep Hrl f Hl Hcl Hlenl Hokl Hend'.
  destruct (decide (ns = [])) as [->|Hns].
  - rewrite bool_decide_eq_true_2 by done. unfold base_list_assign. rewrite Ho.
    cbn [mbind option_bind first last elements app].
    assert (c_true (Z.of_nat (length ms)) = true) as ->
      by (apply c_true_spec; destruct ms; simpl; [done|lia]).
    assert (same_except st (set_list st l (mkList g (end_slot (FirstOf o) ms) (Z.of_nat (length ms)))) [] [l]) as Hs.
    { split; [done|]. intros l' Hl'. simpl. apply lookup_insert_ne. set_solver. }
    eexists. split; [done|]. split_and!; [|by eapply same_except_rep_other; [done|..]; set_solver|done].
    eapply list_rep_intro; simpl; [apply lookup_insert_eq|..|done]; auto. by apply end_slot_nonempty.
  - rewrite bool_decide_eq_false_2 by done. cbn iota. rewrite Hl, Ho. cbn [mbind option_bind last first elements].
    destruct (write_end_slot st l f (end_slot (FirstOf l) ns) (Z.of_nat (length ns)) ns end_of_list g Hl Hcl
                ltac:(by destruct Hokl)) as (st2 & f' & -> & El & Hc2 & Hfr & _ & _).
    cbn [mbind option_bind]. rewrite El, lookup_insert_eq. cbn [mbind option_bind first elements].
    rewrite u32_small by lia.
    assert (chain (nodes st2) g ms end_of_list) as Hco2.
    { apply chain_frame with (nodes st); [|done]. intros a Ha. apply Hfr. intros Hin. by apply (Hdis a Hin). }
    assert (nodes st2 !! end_of_list = nodes st !! end_of_list) as Eend
      by (apply Hfr; by destruct Hokl as (_ & ? & _)).
    eexists. split; [done|]. split_and!.
    + eapply list_rep_intro; simpl; [apply lookup_insert_eq|..].
      * rewrite end_slot_app. by apply end_slot_nonempty.
      * rewrite length_app. lia.
      * apply chain_app. eauto.
      * rewrite length_app. lia.
      * by apply nodes_ok_app.
      * unfold end_ok. simpl. by rewrite Eend.
    + eapply list_rep_intro; simpl; [|done..|unfold end_ok; simpl; by rewrite Eend].
      rewrite El, !lookup_insert_ne by done. done.
    + split; simpl; [done|]. intros l' Hl'. rewrite El, !lookup_insert_ne by set_solver. done.
Qed.

Lemma prepend_spec st l o ns ms :
  list_rep st l ns -> list_rep st o ms -> l <> o -> disjoint_nodes ns ms ->
  Z.of_nat (length ns) + Z.of_nat (length ms) < 2 ^ 32 ->
  exists st', prepend st l o = Some st' /\ list_rep st' l (ms ++ ns) /\ same_except st st' ms.*1 [l].
Proof.
  intros Hrl Hro Hlo Hdis Hbound. unfold prepend.
  rewrite (list_rep_is_empty _ _ _ Hro), (list_rep_is_empty _ _ _ Hrl). cbn [mbind option_bind].
  destruct (decide (ms = [])) as [->|Hms].
  { exists st. by rewrite bool_decide_eq_true_2 by done. }
  rewrite (bool_decide_eq_false_2 (ms = [])) by done. cbn [negb].
  open_rep Hro g Ho Hco Hleno Hoko Hend. open_rep Hrl f Hl Hcl Hlenl Hokl Hend'.
  rewrite Ho, Hl. cbn [mbind option_bind last first elements].
  set (la := if bool_decide (ns = []) then _ else _).
  set (st1 := set_list st l (mkList f la (Z.of_nat (length ns)))).
  assert (lists st1 !! o = Some (mkList g (end_slot (FirstOf o) ms) (Z.of_nat (length ms)))) as Ho1
    by (simpl; by rewrite lookup_insert_ne).
  destruct (write_end_slot st1 o g _ _ ms end_of_list f Ho1 Hco ltac:(by destruct Hoko))
    as (st2 & g' & -> & El & Hc2 & Hfr & _ & Eg). rewrite Eg in * by done.
  assert (lists st2 !! l = Some (mkList f la (Z.of_nat (length ns)))) as Hl2
    by (rewrite El, lookup_insert_ne by done; apply lookup_insert_eq).
  cbn [mbind option_bind]. rewrite El, lookup_insert_eq, <- El, Hl2.
  cbn [mbind option_bind first last elements]. rewrite u32_small by lia.
  eexists. split; [done|]. split.
  - eapply list_rep_intro; simpl; [apply lookup_insert_eq|..].
    + unfold la. rewrite end_slot_app. case_bool_decide as E.
      * rewrite E. simpl. by apply end_slot_nonempty.
      * by apply end_slot_nonempty.
    + rewrite length_app. lia.
    + apply chain_app. exists f. split; [done|]. apply chain_frame with (nodes st); [|done].
      intros a Ha. rewrite Hfr; [done|]. by apply Hdis.
    + rewrite length_app. lia.
    + apply nodes_ok_app. split_and!; [done..|]. intros a Ha Ha'. by apply (Hdis a Ha').
    + unfold end_ok. simpl. rewrite Hfr by (by destruct Hoko as (_ & ? & _)). done.
  - split; simpl; [done|]. intros l' Hl'. assert (l' <> l) by set_solver.
    rewrite lookup_insert_ne by done. rewrite El. destruct (decide (l' = o)) as [->|].
    + by rewrite lookup_insert_eq, Ho.
    + simpl. rewrite !lookup_insert_ne by done. done.
Qed.

Lemma swap_spec st l o ns ms :
  list_rep st l ns -> list_rep st o ms -> l <> o ->
  exists st', swap st l o = Some st' /\ list_rep st' l ms /\ list_rep st' o ns /\ same_except st st' [] [l; o].
Proof.
  intros Hrl Hro Hlo. open_rep Hro g Ho Hco Hleno Hoko Hend. open_rep Hrl f Hl Hcl Hlenl Hokl Hend'.
  unfold swap. rewrite Hl, Ho. cbn [mbind option_bind first last elements].
  assert (forall h h' xs, (if bool_decide (end_slot (FirstOf h) xs = FirstOf h) then FirstOf h'
            else end_slot (FirstOf h) xs) = end_slot (FirstOf h') xs) as E.
  { intros h h' xs. case_bool_decide as Ex.
    - by apply end_slot_FirstOf in Ex as [-> _].
    - apply end_slot_nonempty. intros ->. by apply Ex. }
  eexists. split; [done|]. rewrite !E. split_and!.
  - eapply list_rep_intro; simpl; [apply lookup_insert_eq|done..].
  - eapply list_rep_intro; simpl; [|done..]. by rewrite lookup_insert_ne, lookup_insert_eq.
  - split; [done|]. intros l' Hl'. simpl. rewrite !lookup_insert_ne by set_solver. done.
Qed.

(** *** Disjoining a tail *)

Lemma disjoin_loop_spec st prev p ns m els fuel :
  chain (nodes st) p ns m -> end_of_list ∉ ns.*1 -> m ∉ ns.*1 -> (length ns < fuel)%nat ->
  0 <= els -> els + Z.of_nat (length ns) < 2 ^ 32 ->
  disjoin_loop fuel st prev p m els =
    Some (if bool_decide (m = end_of_list /\ ns <> []) then inl (els + Z.of_nat (length ns))
          else inr (end_slot prev ns, els + Z.of_nat (length ns))).
Proof.
  revert prev p els fuel. induction ns as [|[a v] ns IH]; intros prev p els fuel Hc He Hm Hf Hels Hb;
    (destruct fuel as [|fuel]; [simpl in Hf; lia|]); simpl in Hc.
  - subst p. cbn [disjoin_loop end_slot length]. rewrite Z.add_0_r.
    rewrite (bool_decide_eq_false_2 (m = end_of_list /\ _)) by naive_solver.
    by rewrite (bool_decide_eq_false_2 (m <> m)), andb_false_r by naive_solver.
  - destruct Hc as [-> (nx & Ha & Hc)]. csimpl in *.
    apply not_elem_of_cons in He as [He1 He]. apply not_elem_of_cons in Hm as [Hm1 Hm].
    rewrite !bool_decide_eq_true_2 by done. rewrite Ha. cbn [andb fmap option_fmap option_map mbind option_bind next].
    rewrite u32_small by lia. destruct (decide (nx = end_of_list)) as [->|Hnx].
    + assert (ns = [] /\ m = end_of_list) as [-> ->].
      { destruct ns as [|[b w] ns]; [done|]. exfalso. destruct Hc as [<- _]. apply He. left. }
      rewrite !bool_decide_eq_true_2 by done. do 2 f_equal; simpl; lia.
    + rewrite bool_decide_eq_false_2 by done. rewrite IH; try done; try lia.
      replace (bool_decide (m = end_of_list /\ ns <> [])) with (bool_decide (m = end_of_list /\ (a, v) :: ns <> [])).
      * replace (els + Z.of_nat (S (length ns))) with (els + 1 + Z.of_nat (length ns)) by lia. done.
      * apply bool_decide_ext. destruct ns; [simpl in Hc; naive_solver|naive_solver].
Qed.

Lemma disjoin_spec st l o ns ms fuel :
  list_rep st l (ns ++ ms) -> list_rep st o ms -> l <> o -> (length ns < fuel)%nat ->
  exists st', disjoin fuel st l o = Some st' /\ list_rep st' l ns /\ list_rep st' o ms /\
    same_except st st' ns.*1 [l].
Proof.
  intros Hrl Hro Hlo Hf. open_rep Hro g Ho Hco Hleno Hoko Hend. open_rep Hrl f Hl Hcl Hlenl Hokl Hend'.
  apply nodes_ok_app in Hokl as (Hokn & _ & Hdis). apply chain_app in Hcl as (m & Hcn & Hcm).
  rewrite length_app in Hlenl.
  assert (m = g) as ->.
  { destruct ms as [|[b w] ms]; simpl in *; [congruence|]. by destruct Hcm as [-> _], Hco as [-> _]. }
  assert (g ∉ ns.*1) as Hg.
  { destruct ms as [|[b w] ms]; simpl in Hco; [subst; by destruct Hokn as (_ & ? & _)|].
    destruct Hco as [-> _]. intros Hin. apply (Hdis b Hin). simpl. left. }
  unfold disjoin. rewrite Hl, Ho. cbn [mbind option_bind first].
  rewrite (disjoin_loop_spec st (FirstOf l) f ns g 0 fuel Hcn) by
    (done || lia || by destruct Hokn as (_ & ? & _)). cbn [mbind option_bind]. rewrite Z.add_0_l.
  case_bool_decide as E.
  - destruct E as [-> Hns].
    assert (ms = []) as ->.
    { destruct ms as [|[b w] ms]; [done|]. destruct Hoko as (_ & He & _). destruct Hco as [<- _].
      exfalso. apply He. left. }
    rewrite app_nil_r in *. cbn [last].
    assert (same_except st (set_list st l (mkList f (end_slot (FirstOf l) ns) (Z.of_nat (length ns)))) ns.*1 [l]) as Hs.
    { split; [done|]. intros l' Hl'. simpl. apply lookup_insert_ne. set_solver. }
    eexists. split; [done|]. split_and!; [| |done].
    + eapply list_rep_intro; simpl; [apply lookup_insert_eq|done|done|done|lia|done|done].
    + apply (same_except_rep_other _ _ _ _ _ _ Hs); (done || by destruct Hokn as (_ & ? & _)).
  - destruct (write_end_slot st l f _ _ ns g end_of_list Hl Hcn ltac:(by destruct Hokn))
      as (st2 & f' & -> & El & Hc2 & Hfr & _ & _).
    cbn [mbind option_bind]. rewrite El, lookup_insert_eq. cbn [mbind option_bind first].
    set (st3 := set_list st2 l _).
    assert (same_except st st3 ns.*1 [l]) as Hs.
    { split; [done|]. intros l' Hl'. simpl. rewrite El, !lookup_insert_ne by set_solver. done. }
    exists st3. split; [done|]. split_and!; [| |done].
    + eapply list_rep_intro; simpl; [apply lookup_insert_eq|done|done|done|lia|done|].
      unfold end_ok. simpl. rewrite Hfr by (by destruct Hokn as (_ & ? & _)). done.
    + apply (same_except_rep_other st st3 ns.*1 l o ms); (done || by destruct Hokn as (_ & ? & _)).
Qed.

(** ** Searching and checking *)

(** [check_list] of a list that ends in [(z, w)]: [w] itself is not tested. *)
Lemma check_list_loop_spec st p ns z w cnt fuel :
  chain (nodes st) p (ns ++ [(z, w)]) end_of_list -> end_of_list ∉ (ns ++ [(z, w)]).*1 ->
  (length ns < fuel)%nat -> 0 <= cnt -> cnt + Z.of_nat (length ns) < 2 ^ 32 ->
  exists b q c, check_list_loop fuel st p cnt = Some (b, q, c) /\ b = forallb c_true ns.*2 /\
    (b = true -> q = z /\ c = cnt + Z.of_nat (length ns)).
Proof.
  revert p cnt fuel. induction ns as [|[a v] ns IH]; intros p cnt fuel Hc He Hf Hcnt Hb;
    (destruct fuel as [|fuel]; [simpl in Hf; lia|]); cbn [check_list_loop]; simpl in Hc.
  - destruct Hc as [-> (nx & Hz & ->)]. rewrite Hz. cbn [mbind option_bind next].
    rewrite bool_decide_eq_false_2 by naive_solver. eexists _, _, _. split; [done|]. simpl.
    split; [done|]. intros _. split; [done|lia].
  - destruct Hc as [-> (nx & Ha & Hc)]. csimpl in *. apply not_elem_of_cons in He as [Hne He].
    rewrite Ha. cbn [mbind option_bind next info].
    assert (nx <> end_of_list).
    { intros ->. destruct ns as [|[b u] ns]; destruct Hc as [<- _]; apply He; left. }
    rewrite bool_decide_eq_true_2 by done. destruct (c_true v); cbn [negb andb]; [|naive_solver].
    rewrite u32_small by lia.
    destruct (IH nx (cnt + 1) fuel Hc He ltac:(lia) ltac:(lia) ltac:(lia)) as (b & q & c & -> & -> & Hbc).
    eexists _, _, _. split; [done|]. split; [done|]. intros Eb. destruct (Hbc Eb) as [-> ->]. split; [done|lia].
Qed.

Lemma check_list_spec st l ns z w fuel :
  list_rep st l (ns ++ [(z, w)]) -> (length ns < fuel)%nat ->
  check_list fuel st l = Some (forallb c_true ns.*2).
Proof.
  intros Hrep Hf. open_rep Hrep f Hl Hc Hlen Hok Hend. unfold check_list. rewrite Hl. cbn [mbind option_bind first].
  rewrite length_app in *. cbn [length] in *.
  destruct (check_list_loop_spec st f ns z w 0 fuel Hc ltac:(by destruct Hok as (_ & ? & _)) Hf) as (b & q & c & -> & Eb & H);
    [lia..|]. cbn [mbind option_bind]. rewrite <- Eb. destruct b; [|done]. cbn [negb].
  destruct (H eq_refl) as [-> ->]. cbn [last elements]. rewrite end_slot_snoc, bool_decide_eq_false_2 by naive_solver.
  rewrite u32_small by lia. by rewrite (proj2 (Z.eqb_eq _ _)) by lia.
Qed.

(** On an empty list the loop leaves at once with the sentinel as the last node. *)
Lemma check_list_empty st l fuel :
  list_rep st l [] -> (0 < fuel)%nat -> check_list fuel st l = Some false.
Proof.
  intros Hrep Hf. open_rep Hrep f Hl Hc Hlen Hok Hend. simpl in Hc. subst f. unfold check_list. rewrite Hl.
  cbn [mbind option_bind first]. destruct fuel as [|fuel]; [lia|]. cbn [check_list_loop].
  rewrite Hend. cbn [mbind option_bind next]. rewrite bool_decide_eq_false_2 by naive_solver.
  cbn [mbind option_bind negb last end_slot]. by rewrite bool_decide_eq_true_2.
Qed.

(** ** The iterator *)

(** The iterator stands after the nodes [ns1] of list [l]. *)
Definition it_at (it : base_list_iterator) (l : nat) (ns1 : list (ptr * Z)) : Prop :=
  it_list it = l /\ it_el it = end_slot (FirstOf l) ns1.

Lemma it_init_at l : it_at (it_init l) l [].
Proof. done. Qed.

Lemma it_rewind_at it l ns1 : it_at it l ns1 -> it_at (it_rewind it) l [].
Proof. intros [H _]. by split; [|simpl; rewrite H]. Qed.

Lemma it_next_spec st it l ns1 a v ns2 :
  list_rep st l (ns1 ++ (a, v) :: ns2) -> it_at it l ns1 ->
  it_next st it = Some (v, mkIter l (NextOf a) (Some (end_slot (FirstOf l) ns1)) a).
Proof.
  intros Hrep [Hit Hel]. open_rep Hrep f Hl Hc Hlen Hok Hend.
  apply chain_app in Hc as (m & Hc1 & [-> (nx & Ha & Hc2)]).
  unfold it_next. rewrite Hel, (read_end_slot st l f _ _ ns1 a Hl Hc1). cbn [mbind option_bind].
  rewrite Ha. cbn [mbind option_bind info]. by rewrite Hit.
Qed.

Lemma it_at_next l ns1 a v s : it_at (mkIter l (NextOf a) s a) l (ns1 ++ [(a, v)]).
Proof. split; [done|]. simpl. by rewrite end_slot_snoc. Qed.

Lemma it_next_end st it l ns :
  list_rep st l ns -> it_at it l ns ->
  exists it', it_next st it = Some (0, it') /\ it_list it' = l /\ it_current it' = end_of_list.
Proof.
  intros Hrep [Hit Hel]. open_rep Hrep f Hl Hc Hlen Hok Hend.
  unfold it_next. rewrite Hel, (read_end_slot st l f _ _ ns end_of_list Hl Hc). cbn [mbind option_bind].
  rewrite Hend. cbn [mbind option_bind info]. eexists. split; [done|]. by rewrite Hit.
Qed.

(** Overwriting the element of a node. *)
Lemma list_rep_set_info st l ns1 a v w nx ns2 :
  list_rep st l (ns1 ++ (a, v) :: ns2) -> nodes st !! a = Some (mkNode nx v) ->
  list_rep (set_node st a (mkNode nx w)) l (ns1 ++ (a, w) :: ns2) /\
  same_except st (set_node st a (mkNode nx w)) [a] [].
Proof.
  intros Hrep Ha. open_rep Hrep f Hl Hc Hlen Hok Hend.
  apply chain_app in Hc as (m & Hc1 & [-> (nx' & Ha' & Hc2)]). rewrite Ha in Ha'. injection Ha' as <-.
  pose proof Hok as Hok'. apply nodes_ok_app in Hok' as (Hok1 & Hok2 & Hdis).
  apply (nodes_ok_app [(a, v)] ns2) in Hok2 as (Hoka & Hok2 & Hdis2).
  split; [|split; [|done]; intros b Hb; simpl; apply lookup_insert_ne; set_solver].
  eapply list_rep_intro; simpl; [done|..].
  - by rewrite !end_slot_app.
  - by rewrite !length_app.
  - apply chain_app. exists a. split; [|split; [done|exists nx; split; [apply lookup_insert_eq|]]].
    + apply chain_frame with (nodes st); [|done]. intros b Hb. apply lookup_insert_ne. intros ->.
      apply (Hdis b Hb). simpl. left.
    + apply chain_frame with (nodes st); [|done]. intros b Hb. apply lookup_insert_ne. intros ->.
      apply (Hdis2 b); [simpl; left|done].
  - by rewrite length_app in *.
  - unfold nodes_ok in *. by rewrite !fmap_app in *.
  - unfold end_ok. simpl. rewrite lookup_insert_ne; [done|]. intros ->. destruct Hoka as (_ & Hx & _). apply Hx. left.
Qed.

Lemma it_replace_spec st it l ns1 a v ns2 w :
  list_rep st l (ns1 ++ (a, v) :: ns2) -> it_current it = a ->
  exists st', it_replace st it w = Some (v, st') /\ list_rep st' l (ns1 ++ (a, w) :: ns2) /\
    same_except st st' [a] [].
Proof.
  intros Hrep Hcur. open_rep Hrep f Hl Hc Hlen Hok Hend.
  apply chain_app in Hc as (m & Hc1 & [-> (nx & Ha & Hc2)]).
  unfold it_replace. rewrite Hcur, Ha. cbn [mbind option_bind info next]. eexists. split; [done|].
  by apply (list_rep_set_info st l ns1 a v w nx ns2).
Qed.

(** Removing the current element: the iterator stands where it stood before it. *)
Lemma it_remove_spec st it l ns1 a v ns2 :
  list_rep st l (ns1 ++ (a, v) :: ns2) -> it_list it = l ->
  it_prev it = Some (end_slot (FirstOf l) ns1) ->
  exists st' it', it_remove st it = Some (st', it') /\ it_at it' l ns1 /\ list_rep st' l (ns1 ++ ns2).
Proof.
  intros Hrep Hit Hprev. unfold it_remove. rewrite Hprev. cbn [mbind option_bind]. rewrite Hit.
  destruct (base_list_remove_spec st l ns1 a v ns2 Hrep) as (st' & -> & Hrep' & _).
  cbn [mbind option_bind]. eexists _, _. split; [done|]. done.
Qed.

(** * Theorems *)

(** ** One list against a sequence of elements *)

(** An operation; [mem] tells whether its allocation succeeds. *)
Inductive list_op :=
  | OpEmpty | OpPushBack (v : Z) (mem : bool) | OpPushFront (v : Z) (mem : bool) | OpPop | OpElem (n : nat)
  | OpAddUnique (v : Z) (eq : Z -> Z -> bool) (mem : bool).

(** A failed [push_back] leaves [NULL] where the pointer to [end_of_list] was. *)
Definition terminator (ok : bool) : ptr := if ok then end_of_list else NULL.

Section machine.
(** The allocator: an unused, non-null address, when there is memory. *)
Context (alloc : store -> ptr).
Definition alloc_ok : Prop := forall st, nodes st !! alloc st = None /\ alloc st <> NULL.
Definition allocated (mem : bool) (st : store) : option ptr := if mem then Some (alloc st) else None.

(** One operation of the code; a [bool] result is shown as 0 or 1. *)
Definition run_op (fuel : nat) (op : list_op) (st : store) (l : nat) : option (Z * store) :=
  match op with
  | OpEmpty => Some (0, base_list_empty st l)
  | OpPushBack v mem => '(b, st) ← push_back st l v (allocated mem st); Some (Z.b2z b, st)
  | OpPushFront v mem => '(b, st) ← push_front st l v (allocated mem st); Some (Z.b2z b, st)
  | OpPop => pop st l
  | OpElem n => v ← elem st l n; Some (v, st)
  | OpAddUnique v eq mem => '(b, st) ← add_unique fuel st l v eq (allocated mem st); Some (Z.b2z b, st)
  end.

Fixpoint run_ops (fuel : nat) (ops : list list_op) (st : store) (l : nat) : option (list Z * store) :=
  match ops with
  | [] => Some ([], st)
  | op :: ops =>
      '(r, st) ← run_op fuel op st l;
      '(rs, st) ← run_ops fuel ops st l;
      Some (r :: rs, st)
  end.

(** The same on a plain sequence and whether its end is in order: a failed
    allocation changes no elements, but one in [push_back] loses the end, which
    the next [push_back] or [empty] restores; until then an operation that
    reads beyond the last element is undefined. *)
Definition spec_push_back (v : Z) (mem : bool) (vs : list Z) : Z * (list Z * bool) :=
  if mem then (0, (vs ++ [v], true)) else (1, (vs, false)).
Definition spec_op (op : list_op) (vs : list Z) (ok : bool) : option (Z * (list Z * bool)) :=
  match op with
  | OpEmpty => Some (0, ([], true))
  | OpPushBack v mem => Some (spec_push_back v mem vs)
  | OpPushFront v mem => Some (if mem then (0, (v :: vs, ok)) else (1, (vs, ok)))
  | OpPop =>
      match vs with v :: vs => Some (v, (vs, ok)) | [] => if ok then Some (0, ([], ok)) else None end
  | OpElem n =>
      match vs !! n with Some v => Some (v, (vs, ok)) | None => if ok then Some (0, (vs, ok)) else None end
  | OpAddUnique v eq mem =>
      if existsb (fun u => eq u v) vs then Some (1, (vs, ok))
      else if ok then Some (spec_push_back v mem vs) else None
  end.
Fixpoint spec_ops (ops : list list_op) (vs : list Z) (ok : bool) : option (list Z * (list Z * bool)) :=
  match ops with
  | [] => Some ([], (vs, ok))
  | op :: ops =>
      '(r, (vs, ok)) ← spec_op op vs ok;
      '(rs, final) ← spec_ops ops vs ok;
      Some (r :: rs, final)
  end.

(** No allocation at the end of the list fails. *)
Definition appends_succeed (op : list_op) : Prop :=
  match op with OpPushBack _ mem | OpAddUnique _ _ mem => mem = true | _ => True end.

(** The list of the code for the sequence; nothing is ever at address [NULL]. *)
Definition represents (st : store) (l : nat) (ns : list (ptr * Z)) (ok : bool) : Prop :=
  ends_rep (terminator ok) st l ns /\ nodes st !! NULL = None.

(** What an operation has to do: as on the sequence, or undefined with it. *)
Definition op_agrees (run : option (Z * store)) (spec : option (Z * (list Z * bool))) (l n : nat) : Prop :=
  match spec with
  | Some (r, (vs, ok)) =>
      exists st' ns', run = Some (r, st') /\ represents st' l ns' ok /\ vs = ns'.*2 /\ (length ns' <= S n)%nat
  | None => run = None
  end.

Lemma represents_frame st st' l ns ns' ok ok' A L :
  represents st l ns ok -> same_except st st' A L -> NULL ∉ A ->
  ends_rep (terminator ok') st' l ns' -> represents st' l ns' ok'.
Proof. intros [_ Hn] [HA _] HN H. split; [done|]. by rewrite HA. Qed.

Lemma represents_not_null st l ns ok : represents st l ns ok -> NULL ∉ ns.*1.
Proof. by intros [(f & _ & _ & _ & (_ & _ & ?) & _) _]. Qed.

(** A failed [push_back]. *)
Lemma push_back_fails {t} st l ns v :
  ends_rep t st l ns ->
  exists st', push_back st l v None = Some (true, st') /\ ends_rep NULL st' l ns /\ same_except st st' ns.*1 [l].
Proof.
  intros Hrep. open_rep Hrep f Hl Hc Hlen Hok Hend.
  unfold push_back. rewrite Hl. cbn [mbind option_bind new_list_node last].
  destruct (write_end_slot st l f _ _ ns t NULL Hl Hc ltac:(by destruct Hok))
    as (st' & f' & -> & El & Hc' & Hfr & _ & _).
  cbn [mbind option_bind]. rewrite bool_decide_eq_false_2 by naive_solver.
  exists st'. split; [done|]. split.
  - eapply list_rep_intro; [rewrite El; apply lookup_insert_eq|done..|].
    unfold end_ok. by rewrite Hfr by (by destruct Hok as (_ & ? & _)).
  - split; [done|]. intros l' Hl'. rewrite El. apply lookup_insert_ne. set_solver.
Qed.

Lemma push_back_agrees st l ns v mem ok :
  alloc_ok -> represents st l ns ok -> Z.of_nat (length ns) + 1 < 2 ^ 32 ->
  op_agrees ('(b, st) ← push_back st l v (allocated mem st); Some (Z.b2z b, st))
    (Some (spec_push_back v mem ns.*2)) l (length ns).
Proof.
  intros Ha Hr Hb. destruct (Ha st) as [Hp Hn]. pose proof (represents_not_null _ _ _ _ Hr) as Hnull.
  destruct mem; cbn [allocated spec_push_back op_agrees].
  - destruct (push_back_spec st l ns v _ (proj1 Hr) Hp Hn Hb) as (st' & -> & H & Hs).
    eexists _, _. split; [done|]. split; [by eapply (represents_frame _ _ _ _ _ _ true); [done..|set_solver|]|].
    rewrite fmap_app, length_app. simpl. split; [done|lia].
  - destruct (push_back_fails st l ns v (proj1 Hr)) as (st' & -> & H & Hs).
    eexists _, _. split; [done|]. split; [by eapply (represents_frame _ _ _ _ _ _ false)|]. split; [done|lia].
Qed.

Lemma push_front_agrees st l ns v mem ok :
  alloc_ok -> represents st l ns ok -> Z.of_nat (length ns) + 1 < 2 ^ 32 ->
  op_agrees ('(b, st) ← push_front st l v (allocated mem st); Some (Z.b2z b, st))
    (spec_op (OpPushFront v mem) ns.*2 ok) l (length ns).
Proof.
  intros Ha Hr Hb. destruct (Ha st) as [Hp Hn]. destruct mem; cbn [allocated spec_op op_agrees].
  - destruct (push_front_spec st l ns v _ (proj1 Hr) Hp Hn Hb) as (st' & -> & H & Hs).
    eexists _, _. split; [done|]. split; [by eapply represents_frame; [done..|set_solver|]|]. simpl. split; [done|lia].
  - pose proof Hr as [(f & Hl & _) _]. unfold push_front. rewrite Hl. cbn [mbind option_bind new_list_node first].
    unfold push_front_impl. rewrite bool_decide_eq_false_2 by naive_solver. cbn [mbind option_bind].
    exists st, ns. split; [done|]. split; [done|]. split; [done|lia].
Qed.

(** Reading through the lost end is undefined. *)
Lemma pop_agrees st l ns ok :
  represents st l ns ok -> op_agrees (pop st l) (spec_op OpPop ns.*2 ok) l (length ns).
Proof.
  intros Hr. pose proof Hr as [Hrep Hnull]. destruct ns as [|[a v] ns]; cbn [spec_op fmap list_fmap op_agrees].
  - destruct ok; cbn [op_agrees].
    + rewrite (pop_spec st l [] Hrep eq_refl). exists st, []. split; [done|]. split; [done|]. split; [done|simpl; lia].
    + open_rep Hrep f Hl Hc Hlen Hok Hend. cbn [chain terminator] in Hc. subst f.
      unfold pop. rewrite Hl. cbn [mbind option_bind first]. by rewrite bool_decide_eq_false_2, Hnull.
  - destruct (pop_spec st l ((a, v) :: ns) Hrep) as (st' & E & H & Hs). exists st', ns. split; [done|].
    split; [by eapply represents_frame; [done..|set_solver|]|]. split; [done|simpl; lia].
Qed.

Lemma elem_agrees st l ns n ok :
  represents st l ns ok ->
  op_agrees (v ← elem st l n; Some (v, st)) (spec_op (OpElem n) ns.*2 ok) l (length ns).
Proof.
  intros Hr. pose proof Hr as [Hrep Hnull]. cbn [spec_op].
  assert (forall p data, (chain (nodes st) p ns (terminator ok)) ->
    elem_loop (S n) st p data =
      match ns.*2 !! n with Some v => Some v | None => if ok then Some 0 else None end) as G.
  { open_rep Hrep f Hl Hc Hlen Hok Hend. destruct Hok as (_ & He & _). clear Hrep Hr Hl Hc Hlen.
    revert n. induction ns as [|[a v] ns' IH]; intros n p data Hc; cbn [elem_loop]; simpl in Hc.
    - subst p. destruct ok; [done|]. cbn [terminator]. rewrite bool_decide_eq_false_2 by done. by rewrite Hnull.
    - destruct Hc as [-> (nx & Ha & Hc)]. csimpl in *. apply not_elem_of_cons in He as [Hne He].
      rewrite bool_decide_eq_false_2 by (by intros ->). rewrite Ha. cbn [mbind option_bind next info].
      destruct n as [|n]; [done|]. simpl. by apply IH. }
  destruct Hrep as (f & Hl & Hc & _). unfold elem. rewrite Hl. cbn [mbind option_bind first]. rewrite (G f 0 Hc).
  destruct (ns.*2 !! n); [|destruct ok; [|done]]; cbn [mbind option_bind op_agrees];
    (exists st, ns; split; [done|]; split; [done|]; split; [done|lia]).
Qed.

Lemma add_unique_agrees fuel st l ns v eq mem ok :
  alloc_ok -> represents st l ns ok -> Z.of_nat (length ns) + 1 < 2 ^ 32 -> (length ns < fuel)%nat ->
  op_agrees ('(b, st) ← add_unique fuel st l v eq (allocated mem st); Some (Z.b2z b, st))
    (spec_op (OpAddUnique v eq mem) ns.*2 ok) l (length ns).
Proof.
  intros Ha Hr Hb Hf. pose proof Hr as [Hrep Hnull]. cbn [spec_op].
  assert (forall p, chain (nodes st) p ns (terminator ok) ->
    match add_unique_loop fuel st p eq v with
    | Some q => bool_decide (q = end_of_list) = negb (existsb (fun u => eq u v) ns.*2)
    | None => existsb (fun u => eq u v) ns.*2 = false /\ ok = false
    end /\ (ok = false -> existsb (fun u => eq u v) ns.*2 = false -> add_unique_loop fuel st p eq v = None)) as G.
  { open_rep Hrep f Hl Hc Hlen Hok Hend. destruct Hok as (_ & He & _). clear Hrep Hr Hl Hc Hlen Hb.
    revert fuel Hf. induction ns as [|[a u] ns' IH]; intros fuel Hf p Hc;
      (destruct fuel as [|fuel]; [simpl in Hf; lia|]); cbn [add_unique_loop]; simpl in Hc.
    - subst p. destruct ok; [done|]. cbn [terminator]. rewrite bool_decide_eq_true_2 by done. by rewrite Hnull.
    - destruct Hc as [-> (nx & Hx & Hc)]. csimpl in *. apply not_elem_of_cons in He as [Hne He].
      rewrite bool_decide_eq_true_2 by (by intros ->). rewrite Hx. cbn [mbind option_bind next info].
      destruct (eq u v) eqn:E; cbn [negb orb].
      + split; [|done]. by rewrite bool_decide_eq_false_2.
      + apply IH; [done|lia|done]. }
  pose proof Hrep as (f & Hl & Hc & _). destruct (G f Hc) as [G1 G2]. unfold add_unique. rewrite Hl. cbn [mbind option_bind first].
  destruct (existsb _ _) eqn:Ex.
  - destruct (add_unique_loop fuel st f eq v) as [q|]; [|by destruct G1]. cbn [mbind option_bind]. rewrite G1. cbn [negb].
    exists st, ns. split; [done|]. split; [done|]. split; [done|lia].
  - destruct ok; [|by rewrite G2].
    destruct (add_unique_loop fuel st f eq v) as [q|]; [|by destruct G1]. cbn [mbind option_bind]. rewrite G1. cbn [negb].
    by apply (push_back_agrees st l ns v mem true).
Qed.

Lemma run_op_refines fuel op st l ns ok :
  alloc_ok -> represents st l ns ok -> (length ns < fuel)%nat -> Z.of_nat (length ns) + 1 < 2 ^ 32 ->
  op_agrees (run_op fuel op st l) (spec_op op ns.*2 ok) l (length ns).
Proof.
  intros Ha Hr Hf Hb. destruct op as [|v mem|v mem| |n|v eq mem]; cbn [run_op].
  - pose proof Hr as [(f & _ & _ & _ & _ & Hend) _]. destruct (base_list_empty_spec st l Hend) as [H Hs].
    exists (base_list_empty st l), []. split; [done|].
    split; [by eapply (represents_frame _ _ _ _ _ _ true); [done..|set_solver|]|]. simpl. split; [done|lia].
  - by apply (push_back_agrees _ _ _ _ _ ok).
  - by apply push_front_agrees.
  - by apply pop_agrees.
  - by apply elem_agrees.
  - by apply add_unique_agrees.
Qed.

(** With every append allocated the end stays in order. *)
Lemma spec_op_ok op vs : appends_succeed op -> exists r vs', spec_op op vs true = Some (r, (vs', true)).
Proof.
  destruct op as [|v mem|v mem| |n|v eq mem]; cbn [appends_succeed spec_op]; try intros ->; try intros _; eauto.
  - destruct mem; eauto.
  - destruct vs; eauto.
  - destruct (vs !! n); eauto.
  - destruct (existsb _ vs); cbn [spec_push_back]; eauto.
Qed.
End machine.

(** C9.  Refinement: any sequence of [empty], [push_back], [push_front], [pop],
    [elem] and [add_unique], on less than 2^32 elements and each allocation succeeding or failing, behaves on a
    list of the code as on a plain sequence of elements with a mark whether its
    end is in order.  A failed allocation returns 1 and leaves the elements; in
    [push_front] that is all, but in [push_back] (and [add_unique]) it also
    loses the end of the list, until the next [push_back] that is allocated or
    [empty] restores it, and in between exactly the operations that read beyond
    the last element are undefined.  Without failed appends nothing is ever
    undefined, and the list stays well formed: [last] on the terminating
    pointer, [elements] the length, the chain ending in [end_of_list]. *)
Theorem base_list_refines_sequence alloc ops st l ns ok fuel :
  alloc_ok alloc -> represents st l ns ok ->
  Z.of_nat (length ns) + Z.of_nat (length ops) < 2 ^ 32 -> (length ns + length ops < fuel)%nat ->
  match spec_ops ops ns.*2 ok with
  | Some (rs, (vs, ok')) =>
      exists st' ns', run_ops alloc fuel ops st l = Some (rs, st') /\ represents st' l ns' ok' /\ vs = ns'.*2
  | None => run_ops alloc fuel ops st l = None
  end /\
  (ok = true -> Forall appends_succeed ops ->
   exists rs st' ns', run_ops alloc fuel ops st l = Some (rs, st') /\ list_rep st' l ns' /\
     spec_ops ops ns.*2 true = Some (rs, (ns'.*2, true))).
Proof.
  intros Ha. revert st ns ok. induction ops as [|op ops IH]; intros st ns ok Hr Hb Hf; cbn [run_ops spec_ops].
  { split; [by exists st, ns|]. intros -> _. exists [], st, ns. split; [done|]. by split; [apply Hr|]. }
  cbn [length] in *. pose proof (run_op_refines alloc fuel op st l ns ok Ha Hr ltac:(lia) ltac:(lia)) as H.
  split.
  - destruct (spec_op op ns.*2 ok) as [[r [vs1 ok1]]|]; cbn [op_agrees mbind option_bind] in *; [|by rewrite H].
    destruct H as (st1 & ns1 & -> & Hr1 & -> & Hlen). cbn [mbind option_bind].
    destruct (IH st1 ns1 ok1 Hr1 ltac:(lia) ltac:(lia)) as [IH1 _].
    destruct (spec_ops ops ns1.*2 ok1) as [[rs [vs2 ok2]]|]; cbn [mbind option_bind]; [|by rewrite IH1].
    destruct IH1 as (st2 & ns2 & -> & Hr2 & ->). by exists st2, ns2.
  - intros -> [Hop Hops]%Forall_cons. destruct (spec_op_ok op ns.*2 Hop) as (r & vs1 & E). rewrite E in *.
    destruct H as (st1 & ns1 & -> & Hr1 & -> & Hlen). cbn [mbind option_bind].
    destruct (IH st1 ns1 true Hr1 ltac:(lia) ltac:(lia)) as [_ IH2].
    destruct (IH2 eq_refl Hops) as (rs & st2 & ns2 & -> & Hr2 & ->). by exists (r :: rs), st2, ns2.
Qed.

(** The first address above all those in use. *)
Definition next_address (st : store) : ptr := S (S (map_fold (fun a _ m => Nat.max a m) 0%nat (nodes st))).

Lemma next_address_ok : alloc_ok next_address.
Proof.
  intros st. split; [|done].
  assert (forall a n, nodes st !! a = Some n -> (a <= map_fold (fun a _ m => Nat.max a m) 0%nat (nodes st))%nat) as H.
  { apply (map_fold_weak_ind (fun m h => forall a n, h !! a = Some n -> (a <= m)%nat)).
    - intros a n E. by rewrite lookup_empty in E.
    - intros i x h r Hi IH a n [[-> _]|[_ E]]%lookup_insert_Some; [lia|]. specialize (IH a n E). lia. }
  destruct (nodes st !! next_address st) as [n|] eqn:E; [|done]. specialize (H _ _ E). unfold next_address in H. lia.
Qed.

(** A store with only the sentinel, and empty lists 0 and 1. *)
Definition initial_store : store :=
  base_list_empty (base_list_empty (mkStore {[end_of_list := mkNode end_of_list 0]} ∅) 0) 1.

Lemma initial_store_ok : list_rep initial_store 0 [] /\ list_rep initial_store 1 [].
Proof.
  assert (end_ok (mkStore {[end_of_list := mkNode end_of_list 0]} ∅)) as He by done.
  destruct (base_list_empty_spec _ 0 He) as [H0 _].
  destruct (base_list_empty_spec (base_list_empty (mkStore {[end_of_list := mkNode end_of_list 0]} ∅) 0) 1 He) as [H1 Hs].
  split; [|done]. by apply (list_rep_frame _ _ _ _ _ _ Hs); [set_solver..|].
Qed.

Lemma base_list_refines_sequence_witness :
  exists st' ns',
    run_ops next_address 10 [OpPushBack 7 true; OpPushBack 8 false; OpPushFront 5 true; OpElem 1; OpPushBack 9 true;
      OpAddUnique 7 Z.eqb true; OpPop] initial_store 0 = Some ([0; 1; 0; 7; 0; 1; 5], st') /\
    represents st' 0 ns' true /\ [7; 9] = ns'.*2.
Proof.
  apply (base_list_refines_sequence next_address [OpPushBack 7 true; OpPushBack 8 false; OpPushFront 5 true; OpElem 1;
    OpPushBack 9 true; OpAddUnique 7 Z.eqb true; OpPop] initial_store 0 [] true 10 next_address_ok);
    [split; [exact (proj1 initial_store_ok)|reflexivity]|simpl; lia|simpl; lia].
Defined.

(** ** Whole-list operations *)

(** A list with the given elements at consecutive fresh addresses. *)
Lemma two_lists :
  exists st, list_rep st 0 [(2%nat, 5); (3%nat, 6)] /\ list_rep st 1 [(4%nat, 7)] /\
    disjoint_nodes [(2%nat, 5); (3%nat, 6)] [(4%nat, 7)].
Proof.
  destruct initial_store_ok as [H0 H1].
  destruct (push_back_spec _ 0 [] 5 2%nat H0 eq_refl ltac:(done) ltac:(simpl; lia)) as (s1 & _ & R1 & S1).
  destruct (push_back_spec _ 0 _ 6 3%nat R1 ltac:(destruct S1 as [E _]; rewrite E by set_solver; done)
    ltac:(done) ltac:(simpl; lia)) as (s2 & _ & R2 & S2).
  assert (list_rep s2 1 []) as R3.
  { apply (list_rep_frame _ _ _ _ _ _ S2); [set_solver..|]. apply (list_rep_frame _ _ _ _ _ _ S1); [set_solver..|done]. }
  destruct (push_back_spec _ 1 _ 7 4%nat R3
    ltac:(destruct S1 as [E1 _], S2 as [E2 _]; rewrite E2, E1 by set_solver; done) ltac:(done) ltac:(simpl; lia))
    as (s3 & _ & R4 & S3).
  exists s3. split_and!; [|done|intros a; simpl; set_solver].
  apply (list_rep_frame _ _ _ _ _ _ S3); [set_solver..|done].
Qed.

(** [append], [prepend] and [swap] of two well-formed lists without common
    nodes: [append] makes the list the concatenation and leaves the other list
    as it was (it is now a tail), [prepend] puts the other list in front, [swap]
    exchanges the two, empty lists included. *)
Theorem append_prepend_swap_spec st l o ns ms :
  list_rep st l ns -> list_rep st o ms -> l <> o -> disjoint_nodes ns ms ->
  Z.of_nat (length ns) + Z.of_nat (length ms) < 2 ^ 32 ->
  (exists st', append st l o = Some st' /\ list_rep st' l (ns ++ ms) /\ list_rep st' o ms) /\
  (exists st', prepend st l o = Some st' /\ list_rep st' l (ms ++ ns)) /\
  (exists st', swap st l o = Some st' /\ list_rep st' l ms /\ list_rep st' o ns).
Proof.
  intros Hl Ho Hne Hd Hb. split_and!.
  - destruct (append_spec st l o ns ms Hl Ho Hne Hd Hb) as (st' & E & H1 & H2 & _). eauto.
  - destruct (prepend_spec st l o ns ms Hl Ho Hne Hd Hb) as (st' & E & H1 & _). eauto.
  - destruct (swap_spec st l o ns ms Hl Ho Hne) as (st' & E & H1 & H2 & _). eauto.
Qed.

Lemma append_prepend_swap_spec_witness :
  exists st, (exists st', append st 0 1 = Some st' /\
    list_rep st' 0 [(2%nat, 5); (3%nat, 6); (4%nat, 7)] /\ list_rep st' 1 [(4%nat, 7)]).
Proof.
  destruct two_lists as (st & H0 & H1 & Hd). exists st.
  exact (proj1 (append_prepend_swap_spec st 0 1 _ _ H0 H1 ltac:(done) Hd ltac:(simpl; lia))).
Defined.

(** Round trip: [disjoin] with the list that was appended takes it off
    again; both lists are as before, whatever was empty. *)
Theorem append_disjoin_roundtrip st l o ns ms fuel :
  list_rep st l ns -> list_rep st o ms -> l <> o -> disjoint_nodes ns ms ->
  Z.of_nat (length ns) + Z.of_nat (length ms) < 2 ^ 32 -> (length ns < fuel)%nat ->
  exists st1 st2, append st l o = Some st1 /\ disjoin fuel st1 l o = Some st2 /\
    list_rep st2 l ns /\ list_rep st2 o ms.
Proof.
  intros Hl Ho Hne Hd Hb Hf.
  destruct (append_spec st l o ns ms Hl Ho Hne Hd Hb) as (st1 & E1 & H1 & H2 & _).
  destruct (disjoin_spec st1 l o ns ms fuel H1 H2 Hne Hf) as (st2 & E2 & H3 & H4 & _). eauto 6.
Qed.

Lemma append_disjoin_roundtrip_witness :
  exists st st1 st2, append st 0 1 = Some st1 /\ disjoin 5 st1 0 1 = Some st2 /\
    list_rep st2 0 [(2%nat, 5); (3%nat, 6)] /\ list_rep st2 1 [(4%nat, 7)].
Proof.
  destruct two_lists as (st & H0 & H1 & Hd). exists st.
  exact (append_disjoin_roundtrip st 0 1 _ _ 5 H0 H1 ltac:(done) Hd ltac:(simpl; lia) ltac:(simpl; lia)).
Defined.

(** The iterator at the position before [(a, v)]: [next] returns [v];
    [replace] then returns [v] and puts the new element in its place; [remove]
    instead takes the node out and the following [next] goes on with the node
    after it (or returns 0 at the end). *)
Theorem iterator_edit_spec st it l ns1 a v ns2 w :
  list_rep st l (ns1 ++ (a, v) :: ns2) -> it_at it l ns1 ->
  exists it1, it_next st it = Some (v, it1) /\ it_at it1 l (ns1 ++ [(a, v)]) /\
    (exists st', it_replace st it1 w = Some (v, st') /\ list_rep st' l (ns1 ++ (a, w) :: ns2)) /\
    (exists st' it2, it_remove st it1 = Some (st', it2) /\ list_rep st' l (ns1 ++ ns2) /\
       option_map fst (it_next st' it2) = Some (List.hd 0 ns2.*2)).
Proof.
  intros Hrep Hit. eexists. split; [by eapply it_next_spec|]. split; [apply it_at_next|]. split.
  - destruct (it_replace_spec st (mkIter l (NextOf a) (Some (end_slot (FirstOf l) ns1)) a) l ns1 a v ns2 w Hrep eq_refl)
      as (st' & E & H & _). eauto.
  - destruct (it_remove_spec st (mkIter l (NextOf a) (Some (end_slot (FirstOf l) ns1)) a) l ns1 a v ns2 Hrep eq_refl eq_refl)
      as (st' & it2 & E & Hit2 & H). eexists _, _. split; [done|]. split; [done|].
    destruct ns2 as [|[b u] ns2].
    + rewrite app_nil_r in H. by destruct (it_next_end _ _ _ _ H Hit2) as (it3 & -> & _).
    + by rewrite (it_next_spec _ _ _ _ _ _ _ H Hit2).
Qed.

Lemma iterator_edit_spec_witness :
  exists st it1, it_next st (it_init 0) = Some (5, it1) /\ it_at it1 0 [(2%nat, 5)] /\
    (exists st', it_replace st it1 9 = Some (5, st') /\ list_rep st' 0 [(2%nat, 9); (3%nat, 6)]) /\
    (exists st' it2, it_remove st it1 = Some (st', it2) /\ list_rep st' 0 [(3%nat, 6)] /\
       option_map fst (it_next st' it2) = Some 6).
Proof.
  destruct two_lists as (st & H0 & H1 & Hd). exists st.
  exact (iterator_edit_spec st (it_init 0) 0 [] 2%nat 5 [(3%nat, 6)] 9 H0 (it_init_at 0)).
Defined.

(** [check_list] against the well-formedness it documents: on a
    well-formed non-empty list it answers whether all elements but the last are
    non-null (the last one is not looked at), and on the empty list, which meets
    every documented invariant, it answers "wrong". *)
Theorem check_list_decides st l ns fuel :
  list_rep st l ns -> (length ns < fuel)%nat ->
  check_list fuel st l = Some (match ns with [] => false | _ => forallb c_true (removelast ns.*2) end).
Proof.
  intros Hrep Hf. destruct ns as [|[z w] ns _] using rev_ind.
  - by apply check_list_empty.
  - rewrite length_app in Hf. simpl in Hf. rewrite (check_list_spec st l ns z w fuel Hrep ltac:(lia)).
    rewrite fmap_app. change ([(z, w)].*2) with [w]. rewrite List.removelast_last. by destruct ns.
Qed.

Lemma check_list_decides_witness : check_list 1 initial_store 0 = Some false.
Proof. exact (check_list_decides initial_store 0 [] 1 (proj1 initial_store_ok) ltac:(simpl; lia)). Defined.

(** Error path: when the allocation of [push_back] fails, the function
    reports it, but the null result has already been stored through [last]: the
    terminating pointer of the list is [NULL] instead of [end_of_list], so an
    empty list no longer tests as empty and an iterator that reaches the end
    dereferences [NULL]. *)
Theorem push_back_oom_breaks_list st l ns v :
  list_rep st l ns -> nodes st !! NULL = None ->
  exists st', push_back st l v None = Some (true, st') /\
    read_slot st' (end_slot (FirstOf l) ns) = Some NULL /\
    (ns = [] -> is_empty st' l = Some false) /\
    (forall it, it_at it l ns -> it_next st' it = None) /\ (forall ms, ~ list_rep st' l ms).
Proof.
  intros Hrep Hnull. open_rep Hrep f Hl Hc Hlen Hok Hend.
  unfold push_back. rewrite Hl. cbn [mbind option_bind new_list_node last].
  destruct (write_end_slot st l f _ _ ns end_of_list NULL Hl Hc ltac:(by destruct Hok))
    as (st' & f' & -> & El & Hc' & Hfr & Hnil & _).
  cbn [mbind option_bind]. rewrite bool_decide_eq_false_2 by naive_solver.
  assert (lists st' !! l = Some (mkList f' (end_slot (FirstOf l) ns) (Z.of_nat (length ns)))) as Hl'
    by (rewrite El; apply lookup_insert_eq).
  pose proof (read_end_slot _ _ _ _ _ _ _ Hl' Hc') as Hread.
  exists st'. split; [done|]. split; [done|]. split_and!.
  - intros ->. destruct (Hnil eq_refl) as [-> _]. unfold is_empty. by rewrite Hl'.
  - intros it [_ Hel]. unfold it_next. rewrite Hel, Hread. cbn [mbind option_bind].
    rewrite Hfr; [by rewrite Hnull|]. by destruct Hok as (_ & _ & ?).
  - intros ms (g & Hg & Hcm & _ & _ & _). rewrite Hl' in Hg. injection Hg as <- Hes _.
    rewrite Hes, (read_end_slot _ _ _ _ _ _ _ Hl' Hcm) in Hread. done.
Qed.

Lemma push_back_oom_breaks_list_witness :
  exists st', push_back initial_store 0 7 None = Some (true, st') /\
    read_slot st' (FirstOf 0) = Some NULL /\ ([] = @nil (ptr * Z) -> is_empty st' 0 = Some false) /\
    (forall it, it_at it 0 [] -> it_next st' it = None) /\ (forall ms, ~ list_rep st' 0 ms).
Proof. exact (push_back_oom_breaks_list initial_store 0 [] 7 (proj1 initial_store_ok) eq_refl). Defined.
