(* ===== verification/SqlListSort.v ===== *)
(** Algorithms over the lists of [private/sql_list.h]: [List<T>::make],
    [List<T>::delete_elements], the range-for iterator, [bubble_sort] and
    [list_copy_and_replace_each_value].

    [bubble_sort] works on references to the element members ([T **]); such a
    reference is modelled by the node it points into. *)

From Stdlib Require Import Sorted.
From S2P Require Import Prelude SqlList.

(** * Operations *)

(** [List<T>::make]: [l] is the identity of the new header, [None] when it
    cannot be allocated; the result is [NULL] ([None]) on failure. *)
Definition List_make (st : store) (l : option nat) (first : Z) (mem : option ptr) : option (option nat * store) :=
  match l with
  | None => Some (None, st)
  | Some res =>
      '(failed, st) ← push_back (base_list_empty st res) res first mem;
      Some (if (failed : bool) then None else Some res, st)
  end.

(** [delete_elements]: returns the elements passed to [delete], in order. *)
Fixpoint delete_elements_loop (fuel : nat) (st : store) (element : ptr) : option (list Z) :=
  match fuel with
  | O => None
  | S fuel =>
      if bool_decide (element <> end_of_list) then
        nd ← nodes st !! element;
        r ← delete_elements_loop fuel st (next nd);
        Some (info nd :: r)
      else Some []
  end.

Definition delete_elements (fuel : nat) (st : store) (l : nat) : option (list Z * store) :=
  bl ← lists st !! l;
  r ← delete_elements_loop fuel st (first bl);
  Some (r, base_list_empty st l).

(** [List<T>::Iterator]: a node; the loop of a range-for statement that collects
    the elements. *)
Definition List_begin (st : store) (l : nat) : option ptr := first <$> lists st !! l.
Definition List_end : ptr := end_of_list.
Definition Iterator_incr (st : store) (node : ptr) : option ptr :=
  if bool_decide (node <> end_of_list) then next <$> nodes st !! node else None.
Definition Iterator_deref (st : store) (node : ptr) : option Z := info <$> nodes st !! node.

(** The body of the [while] loop of [bubble_sort]: returns the store, the
    iterator, [ref1] and [swap]. *)
Fixpoint bubble_inner (fuel : nat) (sort_func : Z -> Z -> Z) (last_ref : ptr)
    (st : store) (it : base_list_iterator) (item1 : Z) (ref1 : ptr) (swap : bool)
    : option (store * base_list_iterator * ptr * bool) :=
  match fuel with
  | O => None
  | S fuel =>
      '(item2, it) ← it_next st it;
      if c_true item2 && bool_decide (it_current it <> last_ref) then
        let ref2 := it_current it in
        if 0 <? sort_func item1 item2 then
          n1 ← nodes st !! ref1;
          let st := set_node st ref1 (mkNode (next n1) item2) in
          n2 ← nodes st !! ref2;
          let st := set_node st ref2 (mkNode (next n2) item1) in
          bubble_inner fuel sort_func last_ref st it item1 ref2 true
        else bubble_inner fuel sort_func last_ref st it item2 ref2 swap
      else Some (st, it, ref1, swap)
  end.

(** The [do ... while (swap)] loop. *)
Fixpoint bubble_outer (fuel : nat) (sort_func : Z -> Z -> Z)
    (st : store) (it : base_list_iterator) (ref1 : ptr) : option store :=
  match fuel with
  | O => None
  | S fuel' =>
      let last_ref := ref1 in
      '(item1, it) ← it_next st it;
      let ref1 := it_current it in
      '(st, it, ref1, swap) ← bubble_inner fuel sort_func last_ref st it item1 ref1 false;
      let it := it_rewind it in
      if (swap : bool) then bubble_outer fuel' sort_func st it ref1 else Some st
  end.

Definition bubble_sort (fuel : nat) (sort_func : Z -> Z -> Z) (st : store) (l : nat) : option store :=
  bubble_outer fuel sort_func st (it_init l) NULL.

(** [list_copy_and_replace_each_value]; [clone] is the element's own method. *)
Fixpoint copy_and_replace_loop (fuel : nat) (clone : Z -> Z) (st : store) (it : base_list_iterator) : option store :=
  match fuel with
  | O => None
  | S fuel =>
      '(el, it) ← it_next st it;
      if c_true el then
        '(_, st) ← it_replace st it (clone el);
        copy_and_replace_loop fuel clone st it
      else Some st
  end.
Definition list_copy_and_replace_each_value (fuel : nat) (clone : Z -> Z) (st : store) (l : nat) : option store :=
  copy_and_replace_loop fuel clone st (it_init l).

(** A list object built element by element: what the examples start from. *)
Definition of_list (vs : list Z) : option store :=
  foldl (fun ost '(i, v) => st ← ost; '(_, st) ← push_back st 0 v (Some (2 + i)%nat); Some st)
    (Some (base_list_empty (mkStore {[end_of_list := mkNode end_of_list 0]} ∅) 0)) (zip (seq 0 (length vs)) vs).

(** The elements of list [l], read from the head. *)
Fixpoint elements_from (fuel : nat) (st : store) (p : ptr) : list Z :=
  match fuel with
  | O => []
  | S fuel =>
      if bool_decide (p = end_of_list) then []
      else match nodes st !! p with Some nd => info nd :: elements_from fuel st (next nd) | None => [] end
  end.

Example bubble_sort_ex :
  (st ← of_list [5; 3; 9; 1; 7]; st ← bubble_sort 20 Z.sub st 0;
   bl ← lists st !! 0%nat; Some (elements_from 20 st (first bl))) = Some [1; 3; 5; 7; 9].
Proof. vm_compute. reflexivity. Qed.

(** * Building and destroying lists *)

Lemma List_make_spec st l v p :
  end_ok st -> nodes st !! p = None -> p <> NULL ->
  exists st', List_make st (Some l) v (Some p) = Some (Some l, st') /\ list_rep st' l [(p, v)].
Proof.
  intros Hend Hp Hn. unfold List_make.
  destruct (base_list_empty_spec st l Hend) as [Hrep _].
  destruct (push_back_spec _ _ _ v p Hrep Hp Hn ltac:(simpl; lia)) as (st' & -> & Hrep' & _).
  cbn [mbind option_bind]. by exists st'.
Qed.

Lemma delete_elements_loop_spec st p ns fuel :
  chain (nodes st) p ns end_of_list -> end_of_list ∉ ns.*1 -> (length ns < fuel)%nat ->
  delete_elements_loop fuel st p = Some ns.*2.
Proof.
  revert p fuel. induction ns as [|[a v] ns IH]; intros p fuel Hc He Hf;
    (destruct fuel as [|fuel]; [simpl in Hf; lia|]); cbn [delete_elements_loop]; simpl in Hc.
  - subst p. by rewrite bool_decide_eq_false_2 by naive_solver.
  - destruct Hc as [-> (nx & Ha & Hc)]. csimpl in *. apply not_elem_of_cons in He as [Hne He].
    rewrite bool_decide_eq_true_2 by done. rewrite Ha. cbn [mbind option_bind next info].
    by rewrite (IH nx fuel Hc He) by lia.
Qed.

(** * Copying the elements *)

(** From the position after [ns1] every element of [ns2] is replaced. *)
Lemma copy_and_replace_loop_spec clone st it l ns1 ns2 fuel :
  list_rep st l (ns1 ++ ns2) -> it_at it l ns1 -> Forall (fun v => v <> 0) ns2.*2 -> (length ns2 < fuel)%nat ->
  exists st', copy_and_replace_loop fuel clone st it = Some st' /\
    list_rep st' l (ns1 ++ (prod_map id clone <$> ns2)) /\ same_except st st' ns2.*1 [].
Proof.
  revert st it ns1 fuel. induction ns2 as [|[a v] ns2 IH]; intros st it ns1 fuel Hrep Hit Hnz Hf;
    (destruct fuel as [|fuel]; [simpl in Hf; lia|]); cbn [copy_and_replace_loop].
  - rewrite app_nil_r in Hrep. destruct (it_next_end _ _ _ _ Hrep Hit) as (it' & -> & _).
    cbn [mbind option_bind]. exists st. rewrite app_nil_r. done.
  - rewrite (it_next_spec _ _ _ _ _ _ _ Hrep Hit). cbn [mbind option_bind]. csimpl in *.
    apply Forall_cons in Hnz as [Hv Hnz]. rewrite (proj2 (c_true_spec v) Hv).
    destruct (it_replace_spec st (mkIter l (NextOf a) (Some (end_slot (FirstOf l) ns1)) a) l ns1 a v ns2 (clone v) Hrep eq_refl)
      as (st1 & -> & Hrep1 & Hs1). cbn [mbind option_bind].
    rewrite cons_middle, app_assoc in Hrep1.
    destruct (IH st1 (mkIter l (NextOf a) (Some (end_slot (FirstOf l) ns1)) a) (ns1 ++ [(a, clone v)]) fuel Hrep1)
      as (st2 & E & Hrep2 & Hs2); [apply it_at_next|done|lia|].
    exists st2. split; [done|]. split; [by rewrite <- app_assoc in Hrep2|].
    apply same_except_trans with st1.
    + apply same_except_mono with [a] []; [set_solver..|done].
    + apply same_except_mono with ns2.*1 []; [set_solver..|done].
Qed.

(** * Bubble sort as a function on sequences *)

(** One pass carrying [x]: the resulting sequence and whether it swapped. *)
Fixpoint bubble (f : Z -> Z -> Z) (x : Z) (ys : list Z) : list Z * bool :=
  match ys with
  | [] => ([x], false)
  | y :: ys =>
      if 0 <? f x y then (y :: (bubble f x ys).1, true)
      else (x :: (bubble f y ys).1, (bubble f y ys).2)
  end.

(** The passes over the first [m] elements, then the first [m - 1], ... *)
Fixpoint bubbles (f : Z -> Z -> Z) (m : nat) (vs : list Z) : list Z :=
  match m with
  | O => vs
  | S m' =>
      match take (S m') vs with
      | [] => vs
      | x :: ys => if (bubble f x ys).2 then bubbles f m' ((bubble f x ys).1 ++ drop (S m') vs)
                   else (bubble f x ys).1 ++ drop (S m') vs
      end
  end.

Lemma bubble_perm f x ys : Permutation (bubble f x ys).1 (x :: ys).
Proof.
  revert x. induction ys as [|y ys IH]; intros x; simpl; [done|].
  destruct (0 <? f x y); simpl.
  - rewrite IH. apply perm_swap.
  - by rewrite IH.
Qed.

Lemma length_bubble f x ys : length (bubble f x ys).1 = S (length ys).
Proof. by rewrite (bubble_perm f x ys). Qed.

Lemma bubbles_perm f m vs : Permutation (bubbles f m vs) vs.
Proof.
  revert vs. induction m as [|m IH]; intros vs; cbn [bubbles]; [done|].
  destruct (take (S m) vs) as [|x ys] eqn:E; [done|].
  assert (Permutation ((bubble f x ys).1 ++ drop (S m) vs) vs) as P
    by (rewrite bubble_perm, <- E; by rewrite take_drop).
  destruct (bubble f x ys).2; [by rewrite IH|done].
Qed.

Section sorting.
Context (f : Z -> Z -> Z).
(** The order [sort_func] defines, assumed total and transitive. *)
Definition sort_le (x y : Z) : Prop := f x y <= 0.
Context (Htot : forall x y, f x y <= 0 \/ f y x <= 0) (Htrans : forall x y z, sort_le x y -> sort_le y z -> sort_le x z).

Lemma sort_le_gt x y : (0 <? f x y) = true -> sort_le y x.
Proof. intros H%Z.ltb_lt. destruct (Htot x y) as [|]; [lia|done]. Qed.

(** A pass ends with a greatest element. *)
Lemma bubble_last x ys :
  exists r z, (bubble f x ys).1 = r ++ [z] /\ Forall (fun y => sort_le y z) (r ++ [z]).
Proof.
  assert (forall z, sort_le z z) as Hrefl by (intros z; by destruct (Htot z z)).
  revert x. induction ys as [|y ys IH]; intros x; cbn [bubble].
  - exists [], x. split; [done|]. constructor; [done|constructor].
  - destruct (0 <? f x y) eqn:E; cbn [fst].
    + destruct (IH x) as (r & z & Er & Hr). exists (y :: r), z. rewrite Er. split; [done|].
      constructor; [|done]. apply Htrans with x; [by apply sort_le_gt|].
      rewrite Forall_forall in Hr. apply Hr. rewrite <- Er, bubble_perm. left.
    + destruct (IH y) as (r & z & Er & Hr). exists (x :: r), z. rewrite Er. split; [done|].
      constructor; [|done]. apply Htrans with y; [apply Z.ltb_ge in E; done|].
      rewrite Forall_forall in Hr. apply Hr. rewrite <- Er, bubble_perm. left.
Qed.

(** A pass that swaps nothing was over a sorted sequence. *)
Lemma bubble_no_swap x ys : (bubble f x ys).2 = false -> (bubble f x ys).1 = x :: ys /\ Sorted sort_le (x :: ys).
Proof.
  revert x. induction ys as [|y ys IH]; intros x; cbn [bubble].
  - intros _. split; [done|]. by repeat constructor.
  - destruct (0 <? f x y) eqn:E; cbn [fst snd]; [done|]. intros H.
    destruct (IH y H) as [-> Hs]. split; [done|]. constructor; [done|]. constructor. by apply Z.ltb_ge in E.
Qed.

Lemma Sorted_app_bound (l1 l2 : list Z) :
  Sorted sort_le l1 -> Sorted sort_le l2 -> (forall x y, x ∈ l1 -> y ∈ l2 -> sort_le x y) -> Sorted sort_le (l1 ++ l2).
Proof.
  induction 1 as [|x l1 Hs IH Hd]; intros H2 Hb; simpl; [done|]. constructor.
  - apply IH; [done|]. intros; apply Hb; [by right|done].
  - destruct l1 as [|x' l1]; [|by inversion Hd; constructor].
    destruct l2 as [|y l2]; constructor. apply Hb; left.
Qed.

(** The elements from position [m] on are sorted and bound the first [m]. *)
Lemma bubbles_sorted m vs :
  Sorted sort_le (drop m vs) -> (forall x y, x ∈ take m vs -> y ∈ drop m vs -> sort_le x y) ->
  Sorted sort_le (bubbles f m vs).
Proof.
  revert vs. induction m as [|m IH]; intros vs Hs Hb; cbn [bubbles]; [done|].
  destruct (take (S m) vs) as [|x ys] eqn:E; [by destruct vs|].
  assert (length (x :: ys) <= S m)%nat as Hlen by (rewrite <- E, length_take; lia).
  destruct (bubble f x ys).2 eqn:Esw.
  - destruct (bubble_last x ys) as (r & z & Er & Hr).
    assert (length r = length ys) as Hlr.
    { pose proof (length_bubble f x ys) as H. rewrite Er, length_app in H. simpl in H. lia. }
    assert (forall u, u ∈ r ++ [z] -> u ∈ x :: ys) as Hin by (intros u Hu; by rewrite <- (bubble_perm f x ys), Er).
    rewrite Er, <- app_assoc. cbn [app] in *.
    destruct (decide (length r = m)) as [Hm|Hm].
    + apply IH; rewrite drop_app_length' by done.
      * apply (Sorted_app_bound [z]); [by repeat constructor|done|].
        intros u y Hu%list_elem_of_singleton Hy. subst u. apply Hb; [|done]. apply Hin, elem_of_app. right. left.
      * rewrite take_app_length' by done. intros u y Hu [->|Hy]%elem_of_cons.
        -- rewrite Forall_forall in Hr. apply Hr, elem_of_app. by left.
        -- apply Hb; [|done]. apply Hin, elem_of_app. by left.
    + assert (drop (S m) vs = []) as ->.
      { apply drop_ge. assert (length (take (S m) vs) = S (length ys)) as H by (by rewrite E).
        rewrite length_take in H. simpl in Hlen. lia. }
      apply IH.
      * rewrite drop_ge; [constructor|]. rewrite length_app. simpl in *. lia.
      * intros u y _. rewrite drop_ge; [by intros ?%elem_of_nil|]. rewrite length_app. simpl in *. lia.
  - destruct (bubble_no_swap x ys Esw) as [-> Hsx]. by apply Sorted_app_bound.
Qed.

Lemma bubbles_sort vs : Sorted sort_le (bubbles f (length vs) vs).
Proof.
  apply bubbles_sorted; rewrite drop_ge by done; [constructor|]. by intros ? ? _ ?%elem_of_nil.
Qed.
End sorting.

(** * The code computes these passes *)

Lemma list_rep_lookup st l ns1 a v ns2 :
  list_rep st l (ns1 ++ (a, v) :: ns2) -> exists nx, nodes st !! a = Some (mkNode nx v).
Proof.
  intros (f & _ & Hc & _). apply chain_app in Hc as (m & _ & [-> (nx & Ha & _)]). eauto.
Qed.

(** Exchanging the elements of two neighbours through references. *)
Lemma swap_infos_spec st l ns1 r1 x r2 y ns2 :
  list_rep st l (ns1 ++ (r1, x) :: (r2, y) :: ns2) ->
  exists n1 n2, nodes st !! r1 = Some n1 /\
    <[r1 := mkNode (next n1) y]> (nodes st) !! r2 = Some n2 /\
    list_rep (set_node (set_node st r1 (mkNode (next n1) y)) r2 (mkNode (next n2) x)) l
      (ns1 ++ (r1, y) :: (r2, x) :: ns2).
Proof.
  intros Hrep. destruct (list_rep_lookup _ _ _ _ _ _ Hrep) as (x1 & H1).
  destruct (list_rep_set_info st l ns1 r1 x y x1 ((r2, y) :: ns2) Hrep H1) as [Hrep1 _].
  rewrite cons_middle, app_assoc in Hrep1. destruct (list_rep_lookup _ _ _ _ _ _ Hrep1) as (x2 & H2).
  destruct (list_rep_set_info _ l _ r2 y x x2 ns2 Hrep1 H2) as [Hrep2 _].
  rewrite <- app_assoc in Hrep2. exists (mkNode x1 x), (mkNode x2 y). done.
Qed.

(** The position where a pass stops: the end of the list, or [last_ref]. *)
Definition stops (last_ref : ptr) (seg post : list (ptr * Z)) : Prop :=
  last_ref ∉ seg.*1 /\ (post = [] \/ exists w post', post = (last_ref, w) :: post').

Lemma bubble_inner_stop f last_ref st it l ns post x r sw fuel :
  list_rep st l (ns ++ post) -> it_at it l ns -> (post = [] \/ exists w post', post = (last_ref, w) :: post') ->
  exists it', bubble_inner (S fuel) f last_ref st it x r sw = Some (st, it', r, sw) /\ it_list it' = l.
Proof.
  intros Hrep Hit [->|(w & post' & ->)]; cbn [bubble_inner].
  - rewrite app_nil_r in Hrep. destruct (it_next_end _ _ _ _ Hrep Hit) as (it' & -> & Hl & _).
    cbn [mbind option_bind]. exists it'. done.
  - rewrite (it_next_spec _ _ _ _ _ _ _ Hrep Hit). cbn [mbind option_bind it_current].
    rewrite bool_decide_eq_false_2 by naive_solver. rewrite andb_false_r. by eexists.
Qed.

Lemma bubble_inner_spec f last_ref l post seg st it ns1 r1 x sw fuel :
  list_rep st l (ns1 ++ (r1, x) :: seg ++ post) -> it_at it l (ns1 ++ [(r1, x)]) ->
  Forall (fun v => v <> 0) seg.*2 -> x <> 0 -> stops last_ref seg post -> (length seg < fuel)%nat ->
  exists st' it', bubble_inner fuel f last_ref st it x r1 sw =
      Some (st', it', List.last (r1 :: seg.*1) NULL, sw || (bubble f x seg.*2).2) /\
    list_rep st' l (ns1 ++ zip (r1 :: seg.*1) (bubble f x seg.*2).1 ++ post) /\ it_list it' = l.
Proof.
  revert st it ns1 r1 x sw fuel. induction seg as [|[r2 y] seg IH];
    intros st it ns1 r1 x sw fuel Hrep Hit Hnz Hx [Hst Hpost] Hf.
  - destruct fuel as [|fuel]; [simpl in Hf; lia|].
    change ((r1, x) :: [] ++ post) with ([(r1, x)] ++ post) in Hrep. rewrite app_assoc in Hrep.
    destruct (bubble_inner_stop f last_ref st it l _ post x r1 sw fuel Hrep Hit Hpost) as (it' & -> & Hl).
    exists st, it'. simpl. rewrite orb_false_r, <- app_assoc in *. done.
  - destruct fuel as [|fuel]; [simpl in Hf; lia|]. csimpl in *.
    apply Forall_cons in Hnz as [Hy Hnz]. apply not_elem_of_cons in Hst as [Hr2 Hst].
    assert (Hrep' := Hrep). rewrite cons_middle, app_assoc in Hrep'.
    rewrite (it_next_spec _ _ _ _ _ _ _ Hrep' Hit). cbn [mbind option_bind it_current].
    rewrite (proj2 (c_true_spec y) Hy), bool_decide_eq_true_2 by done. cbn [andb].
    set (it2 := mkIter _ _ _ _).
    destruct (0 <? f x y) eqn:E; cbn [fst snd].
    + destruct (swap_infos_spec st l ns1 r1 x r2 y (seg ++ post) Hrep) as (n1 & n2 & -> & H2 & Hrep2).
      cbn [mbind option_bind]. rewrite H2. cbn [mbind option_bind].
      rewrite cons_middle, app_assoc in Hrep2.
      destruct (IH _ it2 (ns1 ++ [(r1, y)]) r2 x true fuel Hrep2) as (st' & it' & -> & Hrep3 & Hl);
        [apply it_at_next|done|done|done|lia|].
      exists st', it'. split; [by rewrite orb_true_r|]. split; [|done]. by rewrite <- app_assoc in Hrep3.
    + destruct (IH _ it2 (ns1 ++ [(r1, x)]) r2 y sw fuel Hrep') as (st' & it' & -> & Hrep3 & Hl);
        [apply it_at_next|done|done|done|lia|].
      exists st', it'. split; [done|]. split; [|done]. by rewrite <- app_assoc in Hrep3.
Qed.

Lemma zip_app_fst (as1 : list ptr) (vs1 : list Z) post :
  length as1 = length vs1 -> zip (as1 ++ post.*1) (vs1 ++ post.*2) = zip as1 vs1 ++ post.
Proof. intros H. rewrite zip_with_app by done. f_equal. apply zip_fst_snd. Qed.

Lemma fst_zip_same (xs : list ptr) (vs : list Z) : length xs = length vs -> (zip xs vs).*1 = xs.
Proof. intros H. apply fst_zip. lia. Qed.
Lemma snd_zip_same (xs : list ptr) (vs : list Z) : length xs = length vs -> (zip xs vs).*2 = vs.
Proof. intros H. apply snd_zip. lia. Qed.

(** A pass over a segment, then the passes over its prefixes. *)
Lemma bubble_outer_spec f l m st it seg post last_ref fuel :
  list_rep st l (seg ++ post) -> it_at it l [] -> length seg = S m ->
  Forall (fun v => v <> 0) (seg ++ post).*2 -> stops last_ref seg post -> (S m < fuel)%nat ->
  exists st', bubble_outer fuel f st it last_ref = Some st' /\
    list_rep st' l (zip (seg ++ post).*1 (bubbles f (S m) (seg ++ post).*2)).
Proof.
  revert st it seg post last_ref fuel. induction m as [m IH] using lt_wf_ind;
  intros st it seg post last_ref fuel Hrep Hit Hlen Hnz Hst Hf.
  destruct seg as [|[r1 x] seg]; [done|]. simpl in Hlen. injection Hlen as Hlen.
  destruct fuel as [|fuel]; [lia|]. cbn [bubble_outer].
  rewrite (it_next_spec _ _ _ [] _ _ _ Hrep Hit). cbn [mbind option_bind it_current].
  assert (Hnz' := Hnz). csimpl in Hnz. apply Forall_cons in Hnz as [Hx Hnz]. rewrite fmap_app in Hnz.
  apply Forall_app in Hnz as [Hnz1 Hnz2]. destruct Hst as [Hst Hpost]. csimpl in Hst. apply not_elem_of_cons in Hst as [Hr1 Hst].
  destruct (bubble_inner_spec f last_ref l post seg st (mkIter l (NextOf r1) (Some (end_slot (FirstOf l) [])) r1) [] r1 x false (S fuel) Hrep)
    as (st' & it' & E & Hrep' & Hl); [by apply (it_at_next l [])|done|done|done|lia|].
  rewrite E. cbn [mbind option_bind orb]. clear E.
  rewrite !fmap_app. change (((r1, x) :: seg).*2) with (x :: seg.*2). change (((r1, x) :: seg).*1) with (r1 :: seg.*1).
  assert (length (r1 :: seg.*1) = S m) as Hla by (cbn [length]; rewrite length_fmap; lia).
  assert (length (x :: seg.*2) = S m) as Hlv by (cbn [length]; rewrite length_fmap; lia).
  assert (length (bubble f x seg.*2).1 = S m) as Hlb by (by rewrite length_bubble).
  assert (Forall (fun v => v <> 0) ((bubble f x seg.*2).1 ++ post.*2)) as Hnz2'.
  { apply Forall_app. split; [|done]. rewrite (bubble_perm f x seg.*2). by constructor. }
  cbn [bubbles]. rewrite (take_app_length' (x :: seg.*2)), (drop_app_length' (x :: seg.*2)) by done.
  destruct (bubble f x seg.*2).2 eqn:Esw.
  2: { exists st'. split; [done|]. by rewrite (zip_app_fst (r1 :: seg.*1)) by congruence. }
  revert Hla Hlb Hrep' Hnz2'. generalize (r1 :: seg.*1) as adr. generalize (bubble f x seg.*2).1 as bs.
  intros bs adr Hla Hlb Hrep' Hnz2'.
  destruct m as [|m]; [by destruct seg|].
  destruct adr as [|ra adr _] using rev_ind; [done|]. destruct bs as [|z bs _] using rev_ind; [done|].
  rewrite length_app in Hla, Hlb. cbn [length] in Hla, Hlb.
  assert (length adr = length bs) as Hl2 by lia.
  rewrite zip_with_app in Hrep' by done. cbn [zip_with app] in Hrep'. rewrite <- app_assoc in Hrep'.
  rewrite List.last_last.
  destruct (IH m ltac:(lia) st' (it_rewind it') (zip adr bs) ((ra, z) :: post) ra fuel Hrep') as (st2 & E2 & Hrep2).
  + split; [done|]. simpl. by rewrite Hl.
  + rewrite length_zip_with_l_eq by done. lia.
  + rewrite fmap_app, fmap_cons, snd_zip_same by done. by rewrite <- app_assoc in Hnz2'.
  + split; [|right; eauto]. rewrite fst_zip_same by done.
    destruct Hrep' as (g & _ & _ & _ & (Hnd & _) & _). rewrite fmap_app, fst_zip_same in Hnd by done.
    intros Hin. apply NoDup_app in Hnd as (_ & Hd & _). apply (Hd ra Hin). simpl. left.
  + lia.
  + exists st2. split; [done|]. rewrite !fmap_app, !fmap_cons, fst_zip_same, snd_zip_same in Hrep2 by done.
    by rewrite <- !app_assoc.
Qed.

Lemma bubble_sort_spec f st l ns fuel :
  list_rep st l ns -> Forall (fun v => v <> 0) ns.*2 -> (S (length ns) < fuel)%nat ->
  exists st', bubble_sort fuel f st l = Some st' /\ list_rep st' l (zip ns.*1 (bubbles f (length ns) ns.*2)).
Proof.
  intros Hrep Hnz Hf. unfold bubble_sort. destruct ns as [|n ns].
  - destruct fuel as [|fuel]; [lia|]. cbn [bubble_outer].
    destruct (it_next_end st (it_init l) l [] Hrep (it_init_at l)) as (it' & E & Hl & Hcur). rewrite E.
    cbn [mbind option_bind]. cbn [bubble_inner].
    assert (it_next st it' = Some (0, mkIter l (NextOf end_of_list) (Some (it_el it')) end_of_list)) as E2.
    { open_rep Hrep g Hg Hc Hlen Hok Hend. revert E. unfold it_next. cbn [it_init it_el read_slot]. rewrite Hg.
      simpl in Hc. subst g. cbn [fmap option_fmap option_map mbind option_bind first].
      unfold end_ok in Hend. rewrite Hend. cbn [mbind option_bind]. intros [= <-].
      cbn [it_el read_slot it_list]. rewrite Hend. cbn [fmap option_fmap option_map mbind option_bind next].
      by rewrite Hend. }
    rewrite E2. cbn [mbind option_bind c_true]. eexists. split; [reflexivity|]. done.
  - assert (NULL ∉ (n :: ns).*1) as Hnull by (destruct Hrep as (g & _ & _ & _ & (_ & _ & ?) & _); done).
    destruct (bubble_outer_spec f l (length ns) st (it_init l) (n :: ns) [] NULL fuel) as (st' & E & Hrep');
      rewrite ?app_nil_r; [done|apply it_init_at|done|done| |cbn [length] in Hf; lia|].
    + split; [done|by left].
    + exists st'. by rewrite app_nil_r in Hrep'.
Qed.

(** * Theorems *)

(** C27.  [bubble_sort] on a well-formed list of non-null elements, with any
    comparison: it terminates (more than [length + 1] turns of the outer loop are
    never needed), relinks nothing (the node addresses stay in place) and leaves
    a permutation of the elements; if the comparison is a total preorder, the
    elements are in ascending order. *)
Theorem bubble_sort_sorts f st l ns fuel :
  list_rep st l ns -> Forall (fun v => v <> 0) ns.*2 -> (S (length ns) < fuel)%nat ->
  exists st' vs, bubble_sort fuel f st l = Some st' /\ list_rep st' l (zip ns.*1 vs) /\
    length vs = length ns /\ Permutation vs ns.*2 /\
    ((forall x y, f x y <= 0 \/ f y x <= 0) -> (forall x y z, sort_le f x y -> sort_le f y z -> sort_le f x z) ->
      Sorted (sort_le f) vs).
Proof.
  intros Hrep Hnz Hf. destruct (bubble_sort_spec f st l ns fuel Hrep Hnz Hf) as (st' & E & Hrep').
  exists st', (bubbles f (length ns) ns.*2). split_and!; [done|done| |apply bubbles_perm|].
  - by rewrite (bubbles_perm f _ ns.*2), length_fmap.
  - intros Htot Htrans. rewrite <- (length_fmap snd ns). by apply bubbles_sort.
Qed.

Lemma bubble_sort_sorts_witness :
  exists st st' vs, bubble_sort 9 (fun x y => y - x) st 0 = Some st' /\ list_rep st' 0 (zip [2%nat; 3%nat] vs) /\
    length vs = 2%nat /\ Permutation vs [5; 6] /\
    ((forall x y, y - x <= 0 \/ x - y <= 0) ->
     (forall x y z, sort_le (fun x y => y - x) x y -> sort_le (fun x y => y - x) y z -> sort_le (fun x y => y - x) x z) ->
      Sorted (sort_le (fun x y => y - x)) vs).
Proof.
  destruct two_lists as (st & H0 & _). exists st.
  exact (bubble_sort_sorts (fun x y => y - x) st 0 _ 9 H0 ltac:(repeat constructor; done) ltac:(simpl; lia)).
Defined.

(** [list_copy_and_replace_each_value] on a well-formed list of non-null
    elements terminates and replaces every element by its clone, in place: same
    nodes, same order, all other nodes and lists untouched. *)
Theorem list_copy_and_replace_maps clone st l ns fuel :
  list_rep st l ns -> Forall (fun v => v <> 0) ns.*2 -> (length ns < fuel)%nat ->
  exists st', list_copy_and_replace_each_value fuel clone st l = Some st' /\
    list_rep st' l (prod_map id clone <$> ns) /\ same_except st st' ns.*1 [].
Proof.
  intros Hrep Hnz Hf. unfold list_copy_and_replace_each_value.
  destruct (copy_and_replace_loop_spec clone st (it_init l) l [] ns fuel Hrep (it_init_at l) Hnz Hf) as (st' & E & H). eauto.
Qed.

Lemma list_copy_and_replace_maps_witness :
  exists st st', list_copy_and_replace_each_value 9 (Z.add 100) st 0 = Some st' /\
    list_rep st' 0 [(2%nat, 105); (3%nat, 106)] /\ same_except st st' [2%nat; 3%nat] [].
Proof.
  destruct two_lists as (st & H0 & _). exists st.
  exact (list_copy_and_replace_maps (Z.add 100) st 0 _ 9 H0 ltac:(repeat constructor; done) ltac:(simpl; lia)).
Defined.
