(* ===== verification/SqlIList.v ===== *)
(** Intrusive lists of [private/sql_list.h]: the doubly linked [ilink],
    [base_ilist] and [base_ilist_iterator], and the singly linked [SQL_I_List].

    Both keep pointers into list headers ([&first], and the embedded sentinel
    [last] of a [base_ilist]), so the headers are part of the store and a pointer
    says which header or element it points into. *)

From S2P Require Import Prelude.

Module Ilist.

(** * [ilink] and [base_ilist] *)

(** A value of type [ilink *]: null, an element, or the sentinel of a list. *)
Inductive iptr := INull | INode (n : nat) | ILast (l : nat).

#[export] Instance iptr_eq_dec : EqDecision iptr.
Proof. solve_decision. Defined.

#[export] Instance iptr_countable : Countable iptr.
Proof.
  refine (inj_countable' (fun p => match p with INull => inl tt | INode n => inr (inl n) | ILast l => inr (inr l) end)
    (fun s => match s with inl _ => INull | inr (inl n) => INode n | inr (inr l) => ILast l end) _).
  by intros [].
Defined.

(** A value of type [ilink **]. *)
Inductive islot := IFirstOf (l : nat) | INextOf (p : iptr).

#[export] Instance islot_eq_dec : EqDecision islot.
Proof. solve_decision. Defined.

(** [prev] is [None] when null. *)
Record ilink := mkLink { lk_prev : option islot; lk_next : iptr }.

(** The links, sentinels included, and the [first] member of each list. *)
Record istore := mkIStore { links : gmap iptr ilink; firsts : gmap nat iptr }.

Definition set_link (st : istore) (p : iptr) (k : ilink) : istore :=
  mkIStore (<[p := k]> (links st)) (firsts st).
Definition set_first (st : istore) (l : nat) (p : iptr) : istore :=
  mkIStore (links st) (<[l := p]> (firsts st)).

(** [*s] and [*s = p]. *)
Definition iread (st : istore) (s : islot) : option iptr :=
  match s with IFirstOf l => firsts st !! l | INextOf p => lk_next <$> links st !! p end.
Definition iwrite (st : istore) (s : islot) (p : iptr) : option istore :=
  match s with
  | IFirstOf l => _ ← firsts st !! l; Some (set_first st l p)
  | INextOf q => k ← links st !! q; Some (set_link st q (mkLink (lk_prev k) p))
  end.
(** [p->prev = s]. *)
Definition set_prev (st : istore) (p : iptr) (s : option islot) : option istore :=
  k ← links st !! p; Some (set_link st p (mkLink s (lk_next k))).
Definition set_next (st : istore) (p q : iptr) : option istore := iwrite st (INextOf p) q.

Definition ilink_init : ilink := mkLink None INull.

Definition unlink (st : istore) (p : iptr) : option istore :=
  k ← links st !! p;
  st ← (match lk_prev k with Some s => iwrite st s (lk_next k) | None => Some st end);
  k ← links st !! p;
  st ← (if bool_decide (lk_next k <> INull) then set_prev st (lk_next k) (lk_prev k) else Some st);
  Some (set_link st p ilink_init).

Definition ilist_empty (st : istore) (l : nat) : option istore :=
  _ ← firsts st !! l;
  set_prev (set_first st l (ILast l)) (ILast l) (Some (IFirstOf l)).

(** The constructor: the sentinel is a fresh [ilink]. *)
Definition base_ilist_init (st : istore) (l : nat) : option istore :=
  ilist_empty (set_link (set_first st l INull) (ILast l) ilink_init) l.

Definition ilist_is_empty (st : istore) (l : nat) : option bool :=
  f ← firsts st !! l; Some (bool_decide (f = ILast l)).

Definition ilist_is_last (st : istore) (l : nat) (p : iptr) : option bool :=
  k ← links st !! p; Some (bool_decide (lk_next k = INull) || bool_decide (lk_next k = ILast l)).

Definition ilist_append (st : istore) (l : nat) (a : iptr) : option istore :=
  f ← firsts st !! l;
  st ← set_prev st f (Some (INextOf a));
  st ← set_next st a f;
  st ← set_prev st a (Some (IFirstOf l));
  Some (set_first st l a).

Definition ilist_push_back (st : istore) (l : nat) (a : iptr) : option istore :=
  k ← links st !! ILast l;
  s ← lk_prev k;
  st ← iwrite st s a;
  st ← set_next st a (ILast l);
  k ← links st !! ILast l;
  st ← set_prev st a (lk_prev k);
  set_prev st (ILast l) (Some (INextOf a)).

(** Returns the element taken, [INull] on an empty list. *)
Definition ilist_get (st : istore) (l : nat) : option (iptr * istore) :=
  first_link ← firsts st !! l;
  if bool_decide (first_link = ILast l) then Some (INull, st)
  else st ← unlink st first_link; Some (first_link, st).

Definition ilist_head (st : istore) (l : nat) : option iptr :=
  f ← firsts st !! l; Some (if bool_decide (f <> ILast l) then f else INull).

(** The assertion of [move_elements_to] is on the new owner: it must be empty. *)
Definition move_elements_to (st : istore) (l new_owner : nat) : option istore :=
  f ← firsts st !! l;
  k ← links st !! ILast l;
  _ ← firsts st !! new_owner;
  _ ← links st !! ILast new_owner;
  ilist_empty (set_link (set_first st new_owner f) (ILast new_owner) k) l.

(** The iterator: the slot it will read, and the element it returns ([INull] at the end). *)
Record base_ilist_iterator := mkIIter { iit_list : nat; iit_el : islot; iit_current : iptr }.
Definition iit_init (l : nat) : base_ilist_iterator := mkIIter l (IFirstOf l) INull.
Definition iit_next (st : istore) (it : base_ilist_iterator) : option (iptr * base_ilist_iterator) :=
  current ← iread st (iit_el it);
  if bool_decide (current = ILast (iit_list it)) then Some (INull, mkIIter (iit_list it) (iit_el it) current)
  else
    _ ← links st !! current;
    Some (current, mkIIter (iit_list it) (INextOf current) current).

(** The elements a [while ((x= it++))] loop visits. *)
Fixpoint iit_all (fuel : nat) (st : istore) (it : base_ilist_iterator) : option (list iptr) :=
  match fuel with
  | O => None
  | S fuel =>
      '(p, it) ← iit_next st it;
      if bool_decide (p = INull) then Some [] else r ← iit_all fuel st it; Some (p :: r)
  end.

(** * Well-formed lists *)

(** A run [ns] entered through slot [s], which holds [p], and left through slot
    [s'], which holds [p']. *)
Fixpoint dseg (lk : gmap iptr ilink) (s : islot) (p : iptr) (ns : list nat) (s' : islot) (p' : iptr) : Prop :=
  match ns with
  | [] => s = s' /\ p = p'
  | a :: r => p = INode a /\ exists nx, lk !! INode a = Some (mkLink (Some s) nx) /\ dseg lk (INextOf (INode a)) nx r s' p'
  end.

(** A run that ends at the sentinel of [l], whose [prev] is the slot that points at it. *)
Fixpoint dtail (lk : gmap iptr ilink) (s : islot) (p : iptr) (ns : list nat) (l : nat) : Prop :=
  match ns with
  | [] => p = ILast l /\ exists k, lk !! ILast l = Some k /\ lk_prev k = Some s
  | a :: r => p = INode a /\ exists nx, lk !! INode a = Some (mkLink (Some s) nx) /\ dtail lk (INextOf (INode a)) nx r l
  end.

Definition ilist_rep (st : istore) (l : nat) (ns : list nat) : Prop :=
  exists p, firsts st !! l = Some p /\ dtail (links st) (IFirstOf l) p ns l /\ NoDup ns.

Definition first_of (ns : list nat) (e : iptr) : iptr := match ns with [] => e | a :: _ => INode a end.

(** An element that is in no list. *)
Definition unlinked (st : istore) (a : nat) : Prop := links st !! INode a = Some ilink_init.

Lemma dtail_app lk s p ns1 ns2 l :
  dtail lk s p (ns1 ++ ns2) l <-> exists s1 p1, dseg lk s p ns1 s1 p1 /\ dtail lk s1 p1 ns2 l.
Proof.
  revert s p. induction ns1 as [|a ns1 IH]; intros s p; simpl; [naive_solver|].
  split.
  - intros [-> (nx & Ha & Hd)]. apply IH in Hd as (s1 & p1 & ? & ?). eauto 8.
  - intros (s1 & p1 & [-> (nx & Ha & Hd)] & Ht). split; [done|]. exists nx. split; [done|]. apply IH. eauto.
Qed.

Lemma dseg_snoc lk s p ns a s' p' :
  dseg lk s p (ns ++ [a]) s' p' <->
  exists s1, dseg lk s p ns s1 (INode a) /\ lk !! INode a = Some (mkLink (Some s1) p') /\ s' = INextOf (INode a).
Proof.
  revert s p. induction ns as [|b ns IH]; intros s p; simpl; [naive_solver|].
  setoid_rewrite IH. naive_solver.
Qed.

Lemma dseg_frame lk lk' s p ns s' p' :
  (forall a, a ∈ ns -> lk' !! INode a = lk !! INode a) -> dseg lk s p ns s' p' -> dseg lk' s p ns s' p'.
Proof.
  revert s p. induction ns as [|a ns IH]; intros s p E; simpl; [done|].
  intros [-> (nx & Ha & Hd)]. split; [done|]. exists nx. split; [rewrite E; [done|left]|].
  apply IH; [|done]. intros; apply E; by right.
Qed.

Lemma dtail_frame lk lk' s p ns l :
  (forall a, a ∈ ns -> lk' !! INode a = lk !! INode a) -> lk' !! ILast l = lk !! ILast l ->
  dtail lk s p ns l -> dtail lk' s p ns l.
Proof.
  intros E El. revert s p E. induction ns as [|a ns IH]; intros s p E; simpl; [by rewrite El|].
  intros [-> (nx & Ha & Hd)]. split; [done|]. exists nx. split; [rewrite E; [done|left]|].
  apply IH; [|done]. intros; apply E; by right.
Qed.

Lemma dtail_ptr lk s p ns l : dtail lk s p ns l -> p = match ns with [] => ILast l | a :: _ => INode a end.
Proof. destruct ns; simpl; by intros [-> _]. Qed.

Lemma dtail_ptr_ne lk s p ns l b : dtail lk s p ns l -> b ∉ ns -> INode b <> p.
Proof. intros Ht Hb. rewrite (dtail_ptr _ _ _ _ _ Ht). destruct ns; [done|]. intros [= ->]. apply Hb. left. Qed.

Lemma dtail_ptr_last lk s p ns l l' : dtail lk s p ns l -> l' <> l -> ILast l' <> p.
Proof. intros Ht Hl. rewrite (dtail_ptr _ _ _ _ _ Ht). destruct ns; [|done]. by intros [= ->]. Qed.

(** Writing the slot at the end of a run. *)
Lemma write_dseg st l f ns s p q :
  firsts st !! l = Some f -> dseg (links st) (IFirstOf l) f ns s p -> NoDup ns ->
  exists st' f', iwrite st s q = Some st' /\ firsts st' = <[l := f']> (firsts st) /\
    dseg (links st') (IFirstOf l) f' ns s q /\
    (forall r, (forall a, a ∈ ns -> r <> INode a) -> links st' !! r = links st !! r).
Proof.
  intros Hf. destruct ns as [|a ns _] using rev_ind; simpl.
  - intros [<- <-] _. simpl. rewrite Hf. simpl. by exists (set_first st l q), q.
  - intros (s1 & Hd & Ha & ->)%dseg_snoc Hnd. apply NoDup_app in Hnd as (Hnd & Hdis & _). simpl. rewrite Ha. simpl.
    exists (set_link st (INode a) (mkLink (Some s1) q)), f. split; [done|]. simpl. split; [by rewrite insert_id|]. split.
    + apply dseg_snoc. exists s1. rewrite lookup_insert_eq. split; [|done]. apply dseg_frame with (links st); [|done].
      intros b Hb. apply lookup_insert_ne. intros [= ->]. apply (Hdis b Hb). left.
    + intros r Hr. apply lookup_insert_ne. intros <-. apply (Hr a); [|done]. apply elem_of_app. right. left.
Qed.

(** Setting the [prev] member of the first element of a tail, or of the sentinel. *)
Lemma set_prev_dtail st s p ns l s' :
  dtail (links st) s p ns l -> NoDup ns ->
  exists st', set_prev st p (Some s') = Some st' /\ firsts st' = firsts st /\ dtail (links st') s' p ns l /\
    (forall r, r <> p -> links st' !! r = links st !! r).
Proof.
  unfold set_prev. destruct ns as [|a ns]; simpl.
  - intros [-> (k & Hk & Hp)] _. rewrite Hk. simpl. eexists. split; [done|]. split; [done|]. split.
    + split; [done|]. simpl. rewrite lookup_insert_eq. eauto.
    + intros r Hr. simpl. by apply lookup_insert_ne.
  - intros [-> (nx & Ha & Hd)] Hnd. rewrite Ha. simpl. eexists. split; [done|]. split; [done|]. split.
    + split; [done|]. exists nx. simpl. rewrite lookup_insert_eq. split; [done|].
      apply NoDup_cons_1_1 in Hnd. apply dtail_frame with (links st); [|by apply lookup_insert_ne|done].
      intros b Hb. apply lookup_insert_ne. by intros [= ->].
    + intros r Hr. simpl. by apply lookup_insert_ne.
Qed.

(** What an operation on list [l] with the elements [A] may change. *)
Definition isame_except (st st' : istore) (A : list nat) (l : nat) : Prop :=
  (forall a, a ∉ A -> links st' !! INode a = links st !! INode a) /\
  (forall l', l' <> l -> links st' !! ILast l' = links st !! ILast l' /\ firsts st' !! l' = firsts st !! l').

Lemma ilist_rep_frame st st' A l l' ns :
  isame_except st st' A l -> l' <> l -> (forall a, a ∈ ns -> a ∉ A) -> ilist_rep st l' ns -> ilist_rep st' l' ns.
Proof.
  intros [HA HL] Hl Hd (p & Hp & Ht & Hnd). destruct (HL l' Hl) as [E1 E2].
  exists p. rewrite E2. split; [done|]. split; [|done]. apply dtail_frame with (links st); auto.
Qed.

(** * The operations on well-formed lists *)

Lemma unlink_spec st l ns1 a ns2 :
  ilist_rep st l (ns1 ++ a :: ns2) ->
  exists st', unlink st (INode a) = Some st' /\ ilist_rep st' l (ns1 ++ ns2) /\ unlinked st' a /\
    isame_except st st' (ns1 ++ a :: ns2) l.
Proof.
  intros (f & Hf & Ht & Hnd). apply dtail_app in Ht as (s1 & p1 & Hd1 & [-> (nx & Ha & Ht2)]).
  apply NoDup_app in Hnd as (Hnd1 & Hdis & Hnd2). apply list.NoDup_cons in Hnd2 as [Ha2 Hnd2].
  assert (a ∉ ns1) as Ha1 by (intros Hin; apply (Hdis a Hin); left).
  unfold unlink. rewrite Ha. cbn [mbind option_bind lk_prev lk_next].
  destruct (write_dseg st l f ns1 s1 (INode a) nx Hf Hd1 Hnd1) as (st1 & f1 & -> & E1 & Hd1' & Hfr1).
  cbn [mbind option_bind].
  assert (links st1 !! INode a = Some (mkLink (Some s1) nx)) as Ha' by (rewrite Hfr1; [done|]; intros b Hb [= ->]; done).
  rewrite Ha'. cbn [mbind option_bind lk_prev lk_next].
  assert (dtail (links st1) (INextOf (INode a)) nx ns2 l) as Ht2'.
  { apply dtail_frame with (links st); [|by apply Hfr1|done]. intros b Hb. apply Hfr1. intros c Hc [= ->].
    apply (Hdis c Hc). by right. }
  assert (nx <> INull) as Hnx by (rewrite (dtail_ptr _ _ _ _ _ Ht2'); by destruct ns2).
  rewrite bool_decide_eq_true_2 by done.
  destruct (set_prev_dtail st1 _ nx ns2 l s1 Ht2' Hnd2) as (st2 & -> & E2 & Ht2'' & Hfr2). cbn [mbind option_bind].
  eexists. split; [done|]. split; [|split; [|split]].
  - exists f1. simpl. rewrite E2, E1, lookup_insert_eq. split; [done|]. split.
    + apply dtail_app. exists s1, nx. split.
      * apply dseg_frame with (links st1); [|done]. intros b Hb. rewrite lookup_insert_ne by (by intros [= ->]).
        apply Hfr2. apply (dtail_ptr_ne _ _ _ _ _ _ Ht2'). intros Hb2. apply (Hdis b Hb). by right.
      * apply dtail_frame with (links st2); [|by apply lookup_insert_ne|done]. intros b Hb. apply lookup_insert_ne. by intros [= ->].
    + apply NoDup_app. split; [done|]. split; [|done]. intros b Hb Hb2. apply (Hdis b Hb). by right.
  - unfold unlinked. simpl. apply lookup_insert_eq.
  - intros b Hb. simpl. rewrite lookup_insert_ne by (intros [= ->]; set_solver).
    rewrite Hfr2; [apply Hfr1; intros c Hc [= ->]; set_solver|].
    apply (dtail_ptr_ne _ _ _ _ _ _ Ht2'). set_solver.
  - intros l' Hl'. simpl. rewrite lookup_insert_ne by done. rewrite E2, E1, lookup_insert_ne by done.
    split; [|done]. rewrite Hfr2; [by apply Hfr1|]. by apply (dtail_ptr_last _ _ _ _ _ _ Ht2').
Qed.

Lemma ilist_empty_spec st l f k :
  firsts st !! l = Some f -> links st !! ILast l = Some k ->
  exists st', ilist_empty st l = Some st' /\ ilist_rep st' l [] /\ isame_except st st' [] l.
Proof.
  intros Hf Hk. unfold ilist_empty, set_prev. rewrite Hf. simpl. rewrite Hk. simpl. eexists. split; [done|]. split; [|split].
  - exists (ILast l). simpl. rewrite lookup_insert_eq. split; [done|]. split; [|constructor].
    split; [done|]. rewrite lookup_insert_eq. eauto.
  - intros a _. simpl. by apply lookup_insert_ne.
  - intros l' Hl'. simpl. rewrite !lookup_insert_ne by naive_solver. done.
Qed.

Lemma set_next_spec st p k q : links st !! p = Some k -> set_next st p q = Some (set_link st p (mkLink (lk_prev k) q)).
Proof. unfold set_next, iwrite. by intros ->. Qed.
Lemma set_prev_spec st p k s : links st !! p = Some k -> set_prev st p s = Some (set_link st p (mkLink s (lk_next k))).
Proof. unfold set_prev. by intros ->. Qed.

Lemma unlinked_not_in st l ns a : ilist_rep st l ns -> unlinked st a -> a ∉ ns.
Proof.
  intros (f & _ & Ht & _) Hu Hin. apply list_elem_of_split in Hin as (l1 & l2 & ->).
  apply dtail_app in Ht as (s & p & _ & [-> (nx & Ha & _)]). unfold unlinked in Hu. rewrite Hu in Ha. done.
Qed.

Lemma ilist_append_spec st l ns a :
  ilist_rep st l ns -> unlinked st a ->
  exists st', ilist_append st l (INode a) = Some st' /\ ilist_rep st' l (a :: ns) /\ isame_except st st' (a :: ns) l.
Proof.
  intros Hrep Hu. pose proof (unlinked_not_in _ _ _ _ Hrep Hu) as Ha. destruct Hrep as (f & Hf & Ht & Hnd).
  unfold ilist_append. rewrite Hf. cbn [mbind option_bind].
  destruct (set_prev_dtail st _ f ns l (INextOf (INode a)) Ht Hnd) as (st1 & -> & E1 & Ht1 & Hfr). cbn [mbind option_bind].
  assert (INode a <> f) as Haf by (by apply (dtail_ptr_ne _ _ _ _ _ _ Ht)).
  rewrite (set_next_spec st1 (INode a) ilink_init) by (by rewrite Hfr). cbn [mbind option_bind lk_prev ilink_init].
  erewrite set_prev_spec by (simpl; apply lookup_insert_eq). cbn [mbind option_bind lk_next].
  eexists. split; [done|]. split; [|split].
  - exists (INode a). simpl. rewrite lookup_insert_eq. split; [done|]. split; [|by apply NoDup_cons_2].
    split; [done|]. exists f. rewrite lookup_insert_eq. split; [done|].
    apply dtail_frame with (links st1); [| |done].
    + intros b Hb. rewrite !lookup_insert_ne by (intros [= ->]; done). done.
    + by rewrite !lookup_insert_ne by done.
  - intros b Hb. simpl. rewrite !lookup_insert_ne by (intros [= ->]; set_solver). apply Hfr.
    apply (dtail_ptr_ne _ _ _ _ _ _ Ht). set_solver.
  - intros l' Hl'. simpl. rewrite !lookup_insert_ne by done. rewrite E1. split; [|done].
    apply Hfr. by apply (dtail_ptr_last _ _ _ _ _ _ Ht).
Qed.

Lemma ilist_push_back_spec st l ns a :
  ilist_rep st l ns -> unlinked st a ->
  exists st', ilist_push_back st l (INode a) = Some st' /\ ilist_rep st' l (ns ++ [a]) /\ isame_except st st' (a :: ns) l.
Proof.
  intros Hrep Hu. pose proof (unlinked_not_in _ _ _ _ Hrep Hu) as Ha. destruct Hrep as (f & Hf & Ht & Hnd).
  rewrite <- (app_nil_r ns) in Ht. apply dtail_app in Ht as (s & p & Hd & [-> (k & Hk & Hs)]).
  unfold ilist_push_back. rewrite Hk. cbn [mbind option_bind]. rewrite Hs. cbn [mbind option_bind].
  destruct (write_dseg st l f ns s _ (INode a) Hf Hd Hnd) as (st1 & f1 & -> & E1 & Hd1 & Hfr). cbn [mbind option_bind].
  assert (links st1 !! ILast l = Some k) as Hk1 by (by rewrite Hfr).
  rewrite (set_next_spec st1 (INode a) ilink_init) by (rewrite Hfr; [done|]; intros b Hb [= ->]; done).
  cbn [mbind option_bind lk_prev ilink_init links set_link]. rewrite lookup_insert_ne, Hk1 by done.
  cbn [mbind option_bind]. rewrite Hs. erewrite set_prev_spec by (simpl; apply lookup_insert_eq).
  cbn [mbind option_bind lk_next]. erewrite set_prev_spec by (simpl; rewrite !lookup_insert_ne by done; exact Hk1).
  eexists. split; [done|]. split; [|split].
  - exists f1. simpl. rewrite E1, lookup_insert_eq. split; [done|]. split.
    + apply dtail_app. exists s, (INode a). split.
      * apply dseg_frame with (links st1); [|done]. intros b Hb. rewrite !lookup_insert_ne by (intros [= ->]; done). done.
      * split; [done|]. exists (ILast l). rewrite lookup_insert_ne, lookup_insert_eq by done. split; [done|].
        split; [done|]. rewrite lookup_insert_eq. eauto.
    + apply NoDup_app. split; [done|]. split; [|apply NoDup_singleton]. by intros b Hb ->%list_elem_of_singleton.
  - intros b Hb. simpl. rewrite !lookup_insert_ne by (intros [= ->]; set_solver). apply Hfr. intros c Hc [= ->]. set_solver.
  - intros l' Hl'. simpl. rewrite !lookup_insert_ne by naive_solver. rewrite E1, lookup_insert_ne by done. split; [|done].
    by apply Hfr.
Qed.

Lemma ilist_get_spec st l ns :
  ilist_rep st l ns ->
  match ns with
  | [] => ilist_get st l = Some (INull, st)
  | a :: ns' => exists st', ilist_get st l = Some (INode a, st') /\ ilist_rep st' l ns' /\ unlinked st' a /\
                  isame_except st st' ns l
  end.
Proof.
  intros Hrep. pose proof Hrep as (f & Hf & Ht & Hnd). unfold ilist_get. rewrite Hf. cbn [mbind option_bind].
  pose proof (dtail_ptr _ _ _ _ _ Ht) as E. destruct ns as [|a ns]; subst f.
  - by rewrite bool_decide_eq_true_2.
  - rewrite bool_decide_eq_false_2 by done. destruct (unlink_spec st l [] a ns Hrep) as (st' & -> & H1 & H2 & H3).
    cbn [mbind option_bind]. eauto.
Qed.

Lemma iit_all_spec st l ns2 it fuel :
  dtail (links st) (iit_el it) (match ns2 with [] => ILast l | a :: _ => INode a end) ns2 l ->
  iread st (iit_el it) = Some (match ns2 with [] => ILast l | a :: _ => INode a end) -> iit_list it = l ->
  (length ns2 < fuel)%nat -> iit_all fuel st it = Some (INode <$> ns2).
Proof.
  revert it fuel. induction ns2 as [|a ns2 IH]; intros it fuel Ht Hr Hl Hf;
    (destruct fuel as [|fuel]; [simpl in Hf; lia|]); cbn [iit_all]; unfold iit_next; rewrite Hr; cbn [mbind option_bind]; rewrite Hl.
  - by rewrite bool_decide_eq_true_2 by done.
  - rewrite bool_decide_eq_false_2 by done. destruct Ht as [_ (nx & Ha & Ht)]. rewrite Ha. cbn [mbind option_bind].
    rewrite bool_decide_eq_false_2 by done. pose proof (dtail_ptr _ _ _ _ _ Ht) as E. subst nx.
    rewrite (IH (mkIIter l (INextOf (INode a)) (INode a)) fuel); [done|done| |done|simpl in Hf; lia].
    simpl. by rewrite Ha.
Qed.

Lemma iit_all_rep st l ns fuel :
  ilist_rep st l ns -> (length ns < fuel)%nat -> iit_all fuel st (iit_init l) = Some (INode <$> ns).
Proof.
  intros (f & Hf & Ht & Hnd) Hlen. pose proof (dtail_ptr _ _ _ _ _ Ht) as E. subst f. by apply (iit_all_spec st l).
Qed.

(** ** Theorems *)

(** Refinement of a sequence by [base_ilist]: [append] adds at the front,
    [push_back] at the end, [get] takes the first element (and leaves it
    unlinked), [unlink] takes an element out of whatever list it is in, the
    iterator visits exactly the elements in order, and the doubly linked
    structure (every [prev] is the slot that points at the element, the
    sentinel's too) is kept; no other list changes. *)
Theorem base_ilist_refines_sequence st l ns a m ms fuel :
  ilist_rep st l ns -> unlinked st a -> ilist_rep st m ms -> m <> l -> (forall b, b ∈ ns -> b ∉ ms) ->
  (length ns < fuel)%nat ->
  iit_all fuel st (iit_init l) = Some (INode <$> ns) /\
  (exists st', ilist_append st l (INode a) = Some st' /\ ilist_rep st' l (a :: ns) /\ ilist_rep st' m ms) /\
  (exists st', ilist_push_back st l (INode a) = Some st' /\ ilist_rep st' l (ns ++ [a]) /\ ilist_rep st' m ms) /\
  (match ns with
   | [] => ilist_get st l = Some (INull, st)
   | b :: ns' => exists st', ilist_get st l = Some (INode b, st') /\ ilist_rep st' l ns' /\ unlinked st' b /\ ilist_rep st' m ms
   end) /\
  (forall ns1 b ns2, ns = ns1 ++ b :: ns2 ->
    exists st', unlink st (INode b) = Some st' /\ ilist_rep st' l (ns1 ++ ns2) /\ unlinked st' b /\ ilist_rep st' m ms).
Proof.
  intros Hrep Hu Hm Hml Hd Hf.
  assert (forall b, b ∈ ms -> b ∉ a :: ns) as Hd'.
  { intros b Hb [->|Hin]%elem_of_cons; [by apply (unlinked_not_in _ _ _ _ Hm Hu)|by apply (Hd b Hin)]. }
  split; [by apply iit_all_rep|]. split; [|split; [|split]].
  - destruct (ilist_append_spec st l ns a Hrep Hu) as (st' & E & H & Hs). exists st'. split_and!; [done|done|].
    by apply (ilist_rep_frame _ _ _ _ _ _ Hs).
  - destruct (ilist_push_back_spec st l ns a Hrep Hu) as (st' & E & H & Hs). exists st'. split_and!; [done|done|].
    by apply (ilist_rep_frame _ _ _ _ _ _ Hs).
  - pose proof (ilist_get_spec st l ns Hrep) as H. destruct ns as [|b ns]; [done|].
    destruct H as (st' & E & H1 & H2 & Hs). exists st'. split_and!; [done..|].
    apply (ilist_rep_frame _ _ _ _ _ _ Hs); [done| |done]. intros c Hc Hin. by apply (Hd c Hin).
  - intros ns1 b ns2 ->. destruct (unlink_spec st l ns1 b ns2 Hrep) as (st' & E & H1 & H2 & Hs). exists st'.
    split_and!; [done..|]. apply (ilist_rep_frame _ _ _ _ _ _ Hs); [done| |done]. intros c Hc Hin. by apply (Hd c Hin).
Qed.

(** Two empty lists and two elements in no list. *)
Definition istart : istore :=
  mkIStore (<[INode 1 := ilink_init]> (<[INode 2 := ilink_init]>
    (<[ILast 0 := mkLink (Some (IFirstOf 0)) INull]> {[ILast 1 := mkLink (Some (IFirstOf 1)) INull]})))
    (<[0%nat := ILast 0]> {[1%nat := ILast 1]}).

Lemma istart_ok : ilist_rep istart 0 [] /\ ilist_rep istart 1 [] /\ unlinked istart 1 /\ unlinked istart 2.
Proof.
  split_and!; [..|done|done].
  - exists (ILast 0). split; [done|]. split; [|constructor]. split; [done|]. by eexists.
  - exists (ILast 1). split; [done|]. split; [|constructor]. split; [done|]. by eexists.
Qed.

Lemma base_ilist_refines_sequence_witness :
  exists st, iit_all 3 st (iit_init 0) = Some [INode 2] /\
    (exists st', ilist_push_back st 0 (INode 1) = Some st' /\ ilist_rep st' 0 [2; 1]%nat /\ ilist_rep st' 1 []).
Proof.
  destruct istart_ok as (H0 & H1 & U1 & U2).
  destruct (ilist_append_spec _ _ _ _ H0 U2) as (st & _ & R & S). exists st.
  assert (unlinked st 1) as U1' by (unfold unlinked; rewrite (proj1 S) by set_solver; done).
  pose proof (base_ilist_refines_sequence st 0 [2%nat] 1 1 [] 3 R U1'
    (ilist_rep_frame _ _ _ _ _ _ S (Nat.neq_succ_0 0) (fun b Hb => False_ind _ (not_elem_of_nil b Hb)) H1)
    (Nat.neq_succ_0 0) (fun b _ => not_elem_of_nil b) ltac:(simpl; lia))
    as (A & _ & B & _). by split.
Defined.

(** [move_elements_to] does not move: it copies the sentinel's fields but
    the last element still points at the old list's sentinel, and the first
    element's [prev] still points into the old list.  Whatever the list held,
    the new owner is not a well-formed list afterwards; after moving an empty list
    the new owner is not empty; and after moving a non-empty one [get] on the new
    owner returns the first element but does not take it off, and puts what
    should be the rest into the list that was meant to be empty. *)
Theorem move_elements_to_broken st l n ns :
  ilist_rep st l ns -> ilist_rep st n [] -> l <> n ->
  exists st', move_elements_to st l n = Some st' /\
    (forall ms, ~ ilist_rep st' n ms) /\
    (ns = [] -> ilist_is_empty st' n = Some false) /\
    (forall a ns', ns = a :: ns' -> exists st'', ilist_get st' n = Some (INode a, st'') /\
       ilist_head st'' n = Some (INode a) /\ firsts st'' !! l = Some (first_of ns' (ILast l))).
Proof.
  intros (f & Hf & Ht & Hnd) (g & Hg & Htn & _) Hln. simpl in Htn. destruct Htn as [-> (kn & Hkn & Hpn)].
  assert (exists k, links st !! ILast l = Some k) as [k Hk].
  { rewrite <- (app_nil_r ns) in Ht. apply dtail_app in Ht as (s & p & _ & [_ (k & Hk & _)]). eauto. }
  unfold move_elements_to. rewrite Hf. cbn [mbind option_bind]. rewrite Hk. cbn [mbind option_bind]. rewrite Hg.
  cbn [mbind option_bind]. rewrite Hkn. cbn [mbind option_bind].
  set (st1 := set_link _ _ _).
  destruct (ilist_empty_spec st1 l f k) as (st' & E & (p & Hp & Htl & _) & HA & HL); [by simpl; rewrite lookup_insert_ne|by simpl; rewrite lookup_insert_ne by naive_solver|].
  rewrite E. exists st'. split; [done|].
  subst st1. destruct (HL n (not_eq_sym Hln)) as [Eln Efn]. cbn [links firsts set_link set_first] in Eln, Efn. rewrite lookup_insert_eq in Eln. rewrite lookup_insert_eq in Efn.
  assert (f = first_of ns (ILast l)) as Ef by (apply (dtail_ptr _ _ _ _ _ Ht)).
  split; [|split].
  - intros ms (p' & Hp' & Htm & _). rewrite Efn in Hp'. injection Hp' as <-.
    destruct ns as [|a ns]; simpl in *.
    + subst f. pose proof (dtail_ptr _ _ _ _ _ Htm) as Eq. destruct ms; simpl in Eq; naive_solver.
    + destruct Ht as [-> (nx & Ha & _)]. destruct ms as [|b ms]; simpl in Htm; destruct Htm as [[= <-] Htm]; [].
      destruct Htm as (nx' & Hb & _). rewrite HA in Hb by set_solver. simpl in Hb.
      rewrite lookup_insert_ne, Ha in Hb by done. naive_solver.
  - intros ->. simpl in *. subst f. unfold ilist_is_empty. rewrite Efn. simpl. by rewrite bool_decide_eq_false_2 by naive_solver.
  - intros a ns' ->. simpl in *. destruct Ht as [_ (nx & Ha & Ht)]. subst f.
    unfold ilist_get. rewrite Efn. cbn [mbind option_bind]. rewrite bool_decide_eq_false_2 by done.
    unfold unlink. assert (links st' !! INode a = Some (mkLink (Some (IFirstOf l)) nx)) as Ha'.
    { rewrite HA by set_solver. simpl. by rewrite lookup_insert_ne. }
    rewrite Ha'. cbn [mbind option_bind lk_prev lk_next iwrite]. rewrite Hp. cbn [mbind option_bind].
    cbn [set_first links]. rewrite Ha'. cbn [mbind option_bind lk_prev lk_next].
    assert (nx = first_of ns' (ILast l)) as Enx by apply (dtail_ptr _ _ _ _ _ Ht).
    rewrite bool_decide_eq_true_2 by (rewrite Enx; by destruct ns').
    assert (exists kx, links st' !! nx = Some kx) as [kx Hkx].
    { destruct ns' as [|b ns']; simpl in *; subst nx.
      - destruct Htl as [_ (kl & Hkl & _)]. eauto.
      - destruct Ht as [_ (ny & Hb & _)]. exists (mkLink (Some (INextOf (INode a))) ny).
        rewrite HA by set_solver. simpl. by rewrite lookup_insert_ne. }
    rewrite (set_prev_spec _ _ kx) by done. cbn [mbind option_bind]. eexists. split; [done|]. simpl. split.
    + unfold ilist_head. simpl. by rewrite lookup_insert_ne, Efn by naive_solver.
    + by rewrite lookup_insert_eq, Enx.
Qed.

Lemma move_elements_to_broken_witness :
  exists st', move_elements_to istart 0 1 = Some st' /\ (forall ms, ~ ilist_rep st' 1 ms) /\
    ([] = @nil nat -> ilist_is_empty st' 1 = Some false) /\
    (forall a ns', [] = a :: ns' -> exists st'', ilist_get st' 1 = Some (INode a, st'') /\
       ilist_head st'' 1 = Some (INode a) /\ firsts st'' !! 0%nat = Some (first_of ns' (ILast 0))).
Proof.
  destruct istart_ok as (H0 & H1 & _).
  exact (move_elements_to_broken istart 0 1 [] H0 H1 ltac:(done)).
Defined.
End Ilist.

Module SqlIList.

(** * [SQL_I_List] *)

(** A value of type [T **]: the [first] member of a list or the link member of
    an element.  A [T *] is an [option nat], [None] when null. *)
Inductive tslot := TFirst (l : nat) | TNext (e : nat).

#[export] Instance tslot_eq_dec : EqDecision tslot.
Proof. solve_decision. Defined.

Record SQL_I_List := mkSIL { sil_elements : Z; sil_first : option nat; sil_next : tslot }.

(** The link members of the elements and the list objects. *)
Record tstore := mkTStore { tlinks : gmap nat (option nat); tlists : gmap nat SQL_I_List }.

Definition set_tlink (st : tstore) (e : nat) (p : option nat) : tstore :=
  mkTStore (<[e := p]> (tlinks st)) (tlists st).
Definition set_tlist (st : tstore) (l : nat) (o : SQL_I_List) : tstore :=
  mkTStore (tlinks st) (<[l := o]> (tlists st)).

Definition tread (st : tstore) (s : tslot) : option (option nat) :=
  match s with TFirst l => sil_first <$> tlists st !! l | TNext e => tlinks st !! e end.
Definition twrite (st : tstore) (s : tslot) (p : option nat) : option tstore :=
  match s with
  | TFirst l => o ← tlists st !! l; Some (set_tlist st l (mkSIL (sil_elements o) p (sil_next o)))
  | TNext e => _ ← tlinks st !! e; Some (set_tlink st e p)
  end.

Definition sil_empty (st : tstore) (l : nat) : tstore := set_tlist st l (mkSIL 0 None (TFirst l)).

(** The copy constructor of [l] from [tmp]. *)
Definition sil_copy (st : tstore) (l tmp : nat) : option tstore :=
  o ← tlists st !! tmp;
  Some (set_tlist st l (mkSIL (sil_elements o) (sil_first o) (if c_true (sil_elements o) then sil_next o else TFirst l))).

(** [operator=]. *)
Definition sil_assign (st : tstore) (l tmp : nat) : option tstore :=
  o ← tlists st !! tmp;
  Some (set_tlist st l (mkSIL (sil_elements o) (sil_first o) (sil_next o))).

Definition link_in_list (st : tstore) (l : nat) (element : nat) (next_ptr : tslot) : option tstore :=
  o ← tlists st !! l;
  let st := set_tlist st l (mkSIL (u32 (sil_elements o + 1)) (sil_first o) (sil_next o)) in
  st ← twrite st (sil_next o) (Some element);
  o ← tlists st !! l;
  let st := set_tlist st l (mkSIL (sil_elements o) (sil_first o) next_ptr) in
  twrite st next_ptr None.

Definition save_and_clear (st : tstore) (l save : nat) : option tstore :=
  st ← sil_assign st save l;
  Some (sil_empty st l).

Definition sil_push_front (st : tstore) (l save : nat) : option tstore :=
  s ← tlists st !! save;
  o ← tlists st !! l;
  st ← twrite st (sil_next s) (sil_first o);
  s ← tlists st !! save;
  o ← tlists st !! l;
  Some (set_tlist st l (mkSIL (u32 (sil_elements o + sil_elements s)) (sil_first s) (sil_next o))).

Definition sil_push_back (st : tstore) (l save : nat) : option tstore :=
  s ← tlists st !! save;
  if bool_decide (sil_first s <> None) then
    o ← tlists st !! l;
    st ← twrite st (sil_next o) (sil_first s);
    s ← tlists st !! save;
    o ← tlists st !! l;
    Some (set_tlist st l (mkSIL (u32 (sil_elements o + sil_elements s)) (sil_first o) (sil_next s)))
  else Some st.

(** * Well-formed lists *)

(** From [p] the links lead through the elements [es] to [q]. *)
Fixpoint tchain (lk : gmap nat (option nat)) (p : option nat) (es : list nat) (q : option nat) : Prop :=
  match es with
  | [] => p = q
  | e :: r => p = Some e /\ exists nx, lk !! e = Some nx /\ tchain lk nx r q
  end.
Fixpoint tend (s : tslot) (es : list nat) : tslot := match es with [] => s | e :: r => tend (TNext e) r end.

Definition sil_rep (st : tstore) (l : nat) (es : list nat) : Prop :=
  exists f, tlists st !! l = Some (mkSIL (Z.of_nat (length es)) f (tend (TFirst l) es)) /\
    tchain (tlinks st) f es None /\ NoDup es /\ Z.of_nat (length es) < 2 ^ 32.

Lemma tchain_app lk p es1 es2 q :
  tchain lk p (es1 ++ es2) q <-> exists m, tchain lk p es1 m /\ tchain lk m es2 q.
Proof.
  revert p. induction es1 as [|e es1 IH]; intros p; simpl; [naive_solver|].
  setoid_rewrite IH. naive_solver.
Qed.

Lemma tchain_frame lk lk' p es q :
  (forall e, e ∈ es -> lk' !! e = lk !! e) -> tchain lk p es q -> tchain lk' p es q.
Proof.
  revert p. induction es as [|e es IH]; intros p E; simpl; [done|].
  intros [-> (nx & He & Hc)]. split; [done|]. exists nx. split; [rewrite E; [done|left]|].
  apply IH; [|done]. intros; apply E; by right.
Qed.

Lemma tend_app s es1 es2 : tend s (es1 ++ es2) = tend (tend s es1) es2.
Proof. revert s. induction es1 as [|e es1 IH]; intros s; simpl; auto. Qed.

Lemma tend_nonempty s s' es : es <> [] -> tend s es = tend s' es.
Proof. by destruct es. Qed.

(** Writing through the [next] member of a list. *)
Lemma twrite_tend st l f es z m q :
  tlists st !! l = Some (mkSIL z f (tend (TFirst l) es)) -> tchain (tlinks st) f es m -> NoDup es ->
  exists st' f', twrite st (tend (TFirst l) es) q = Some st' /\
    tlists st' = <[l := mkSIL z f' (tend (TFirst l) es)]> (tlists st) /\ tchain (tlinks st') f' es q /\
    (forall e, e ∉ es -> tlinks st' !! e = tlinks st !! e) /\ (es <> [] -> f' = f).
Proof.
  intros Hl. destruct es as [|e es _] using rev_ind; intros Hc Hnd.
  - simpl in *. rewrite Hl. simpl. by exists (set_tlist st l (mkSIL z q (TFirst l))), q.
  - rewrite tend_app in *. simpl in *. apply tchain_app in Hc as (m' & Hc & [-> (nx & He & _)]).
    apply NoDup_app in Hnd as (Hnd & Hdis & _). rewrite He. simpl.
    exists (set_tlink st e q), f. split; [done|]. simpl. split; [by rewrite insert_id|]. split; [|split; [|done]].
    + apply tchain_app. exists (Some e). split.
      * apply tchain_frame with (tlinks st); [|done]. intros e' He'. apply lookup_insert_ne. intros ->.
        apply (Hdis e' He'). left.
      * simpl. split; [done|]. exists q. by rewrite lookup_insert_eq.
    + intros e' He'. apply lookup_insert_ne. intros ->. apply He', elem_of_app. right. left.
Qed.

Lemma link_in_list_spec st l es e x :
  sil_rep st l es -> tlinks st !! e = Some x -> e ∉ es -> Z.of_nat (length es) + 1 < 2 ^ 32 ->
  exists st', link_in_list st l e (TNext e) = Some st' /\ sil_rep st' l (es ++ [e]).
Proof.
  intros (f & Hl & Hc & Hnd & Hlen) He Hin Hb. unfold link_in_list. rewrite Hl. cbn [mbind option_bind sil_elements sil_first sil_next].
  set (z := u32 _). set (st1 := set_tlist st l _).
  destruct (twrite_tend st1 l f es z None (Some e)) as (st2 & f' & -> & El & Hc2 & Hfr & _); [apply lookup_insert_eq|done|done|].
  cbn [mbind option_bind]. rewrite El, lookup_insert_eq. cbn [mbind option_bind sil_elements sil_first twrite set_tlist tlinks].
  rewrite Hfr by done. unfold st1. cbn [set_tlist tlinks]. rewrite He. cbn [mbind option_bind]. eexists. split; [done|].
  exists f'. simpl. rewrite lookup_insert_eq. rewrite tend_app, length_app. simpl. split; [|split; [|split]].
  - do 2 f_equal. unfold z. rewrite uwrap_small; [lia|unfold ufits; lia].
  - apply tchain_app. exists (Some e). split; [|simpl; split; [done|]; exists None; by rewrite lookup_insert_eq].
    apply tchain_frame with (tlinks st2); [|done]. intros e' He'. apply lookup_insert_ne. by intros ->.
  - apply NoDup_app. split; [done|]. split; [|apply NoDup_singleton]. by intros b Hb' ->%list_elem_of_singleton.
  - lia.
Qed.

Lemma sil_push_back_spec st l s es ss :
  sil_rep st l es -> sil_rep st s ss -> l <> s -> (forall e, e ∈ es -> e ∉ ss) ->
  Z.of_nat (length es) + Z.of_nat (length ss) < 2 ^ 32 ->
  exists st', sil_push_back st l s = Some st' /\ sil_rep st' l (es ++ ss).
Proof.
  intros (f & Hl & Hc & Hnd & Hlen) (g & Hs & Hcs & Hnds & _) Hne Hdis Hb. unfold sil_push_back. rewrite Hs.
  cbn [mbind option_bind sil_first]. destruct (decide (ss = [])) as [->|Hss].
  - simpl in Hcs. subst g. rewrite bool_decide_eq_false_2 by naive_solver. exists st. rewrite app_nil_r. split; [done|]. exists f. split_and!; done.
  - rewrite bool_decide_eq_true_2 by (destruct ss; simpl in Hcs; [done|]; by destruct Hcs as [-> _]).
    rewrite Hl. cbn [mbind option_bind sil_first sil_next].
    destruct (twrite_tend st l f es _ None g Hl Hc Hnd) as (st2 & f' & -> & El & Hc2 & Hfr & _).
    cbn [mbind option_bind]. rewrite El, (lookup_insert_ne _ l s), Hs, lookup_insert_eq by done.
    cbn [mbind option_bind sil_first sil_next sil_elements]. eexists. split; [done|].
    exists f'. simpl. rewrite lookup_insert_eq, tend_app, length_app. split; [|split; [|split]].
    + do 2 f_equal; [rewrite uwrap_small; [lia|unfold ufits; lia]|]. by apply tend_nonempty.
    + apply tchain_app. exists g. split; [done|]. apply tchain_frame with (tlinks st); [|done].
      intros e He. apply Hfr. intros Hin. by apply (Hdis e Hin).
    + apply NoDup_app. done.
    + lia.
Qed.

Lemma sil_push_front_spec st l s es ss :
  sil_rep st l es -> sil_rep st s ss -> es <> [] -> ss <> [] -> l <> s -> (forall e, e ∈ es -> e ∉ ss) ->
  Z.of_nat (length es) + Z.of_nat (length ss) < 2 ^ 32 ->
  exists st', sil_push_front st l s = Some st' /\ sil_rep st' l (ss ++ es).
Proof.
  intros (f & Hl & Hc & Hnd & Hlen) (g & Hs & Hcs & Hnds & _) Hes Hss Hne Hdis Hb. unfold sil_push_front. rewrite Hs, Hl.
  cbn [mbind option_bind sil_first sil_next].
  destruct (twrite_tend st s g ss _ None f Hs Hcs Hnds) as (st2 & g' & -> & El & Hc2 & Hfr & Hg).
  rewrite (Hg Hss) in *. cbn [mbind option_bind]. rewrite El, lookup_insert_eq, (lookup_insert_ne _ s l), Hl by done.
  cbn [mbind option_bind sil_first sil_next sil_elements]. eexists. split; [done|].
  exists g. simpl. rewrite lookup_insert_eq, tend_app, length_app. split; [|split; [|split]].
  - do 2 f_equal; [rewrite uwrap_small; [lia|unfold ufits; lia]|]. by apply tend_nonempty.
  - apply tchain_app. exists f. split; [done|]. apply tchain_frame with (tlinks st); [|done].
    intros e He. apply Hfr. by apply Hdis.
  - apply NoDup_app. split; [done|]. split; [|done]. intros e He Hin. by apply (Hdis e Hin).
  - lia.
Qed.

Lemma save_and_clear_spec st l s es :
  sil_rep st l es -> es <> [] -> l <> s ->
  exists st', save_and_clear st l s = Some st' /\ sil_rep st' l [] /\ sil_rep st' s es.
Proof.
  intros (f & Hl & Hc & Hnd & Hlen) Hes Hne. unfold save_and_clear, sil_assign. rewrite Hl. cbn [mbind option_bind].
  eexists. split; [done|]. split.
  - exists None. simpl. rewrite lookup_insert_eq. split; [done|]. split; [done|]. split; [constructor|lia].
  - exists f. simpl. rewrite lookup_insert_ne, lookup_insert_eq by done. split; [|done].
    do 2 f_equal. by apply tend_nonempty.
Qed.

(** ** Theorems *)

(** On non-empty lists the operations are those on sequences:
    [link_in_list] adds at the end; [save_and_clear] moves the elements to the
    other object and leaves this one empty; linking new elements and then
    [push_front]-ing what was saved restores the old elements before the new
    one. *)
Theorem save_link_restore_roundtrip st l s es e x :
  sil_rep st l es -> es <> [] -> l <> s -> tlinks st !! e = Some x -> e ∉ es -> Z.of_nat (length es) + 1 < 2 ^ 32 ->
  exists st1 st2 st3, save_and_clear st l s = Some st1 /\ sil_rep st1 l [] /\ sil_rep st1 s es /\
    link_in_list st1 l e (TNext e) = Some st2 /\ sil_rep st2 l [e] /\ sil_rep st2 s es /\
    sil_push_front st2 l s = Some st3 /\ sil_rep st3 l (es ++ [e]).
Proof.
  intros Hrep Hes Hne He Hin Hb. destruct (save_and_clear_spec st l s es Hrep Hes Hne) as (st1 & E1 & H1 & H1s).
  assert (tlinks st1 = tlinks st) as Elk.
  { revert E1. unfold save_and_clear, sil_assign. destruct (tlists st !! l); [|done]. by intros [= <-]. }
  assert (sil_rep st1 l []) as H1' by done. rewrite <- Elk in He.
  destruct (link_in_list_spec st1 l [] e x H1 He ltac:(set_solver) ltac:(simpl; lia)) as (st2 & E2 & H2).
  assert (sil_rep st2 s es) as H2s.
  { destruct H1 as (f & Hl & Hc & _). simpl in Hc. subst f. destruct H1s as (g & Hs & Hcs & Hnd & Hlen).
    revert E2. unfold link_in_list. rewrite Hl. simpl. rewrite lookup_insert_eq. simpl. rewrite lookup_insert_eq. simpl.
    rewrite He. simpl. intros [= <-]. exists g. simpl. rewrite !lookup_insert_ne by done. split; [done|]. split; [|done].
    apply tchain_frame with (tlinks st1); [|done]. intros e' He'. apply lookup_insert_ne. by intros ->. }
  destruct (sil_push_front_spec st2 l s [e] es H2 H2s ltac:(done) Hes Hne) as (st3 & E3 & H3).
  - intros e' ->%list_elem_of_singleton. done.
  - simpl. lia.
  - exists st1, st2, st3. by split_and!.
Qed.

Definition tstart : tstore := mkTStore (<[7%nat := None]> {[8%nat := None]})
  (<[0%nat := mkSIL 0 None (TFirst 0)]> {[1%nat := mkSIL 0 None (TFirst 1)]}).

Lemma tstart_ok : sil_rep tstart 0 [] /\ sil_rep tstart 1 [].
Proof. split; exists None; (split; [done|]; split; [done|]; split; [constructor|done]). Qed.

Lemma save_link_restore_roundtrip_witness :
  exists st st1 st2 st3, save_and_clear st 0 1 = Some st1 /\ sil_rep st1 0 [] /\ sil_rep st1 1 [7%nat] /\
    link_in_list st1 0 8 (TNext 8) = Some st2 /\ sil_rep st2 0 [8%nat] /\ sil_rep st2 1 [7%nat] /\
    sil_push_front st2 0 1 = Some st3 /\ sil_rep st3 0 [7%nat; 8%nat].
Proof.
  set (st := mkTStore (<[7%nat := None]> {[8%nat := None]})
    (<[0%nat := mkSIL 1 (Some 7%nat) (TNext 7)]> {[1%nat := mkSIL 0 None (TFirst 1)]})).
  assert (sil_rep st 0 [7%nat]) as H.
  { exists (Some 7%nat). split; [done|]. split; [|split; [apply NoDup_singleton|done]].
    split; [done|]. by exists None. }
  exists st. apply (save_link_restore_roundtrip st 0 1 [7%nat] 8 None H); [done..|set_solver|done].
Defined.

(** Evaluate the accesses to a store built by updates. *)
Ltac lookups := repeat (progress (simpl; rewrite ?lookup_insert_eq; rewrite ?lookup_insert_ne by (done || by apply not_eq_sym))).

(** [operator=] copies the [next] pointer of an empty list as it is, so it
    points into the other list (the copy constructor redirects it).  After
    [save_and_clear] of an empty list, an element linked into the saved list is
    written into the original one, and saving, linking a new element into the
    cleared list and [push_front]-ing the saved (empty) list loses the new
    element: the list counts one element and holds none. *)
Theorem empty_save_loses_elements st l s e x o :
  sil_rep st l [] -> tlists st !! s = Some o -> l <> s -> tlinks st !! e = Some x ->
  (exists st1 st2 a b, save_and_clear st l s = Some st1 /\ link_in_list st1 s e (TNext e) = Some st2 /\
     tlists st2 !! l = Some a /\ sil_elements a = 0 /\ sil_first a = Some e /\
     tlists st2 !! s = Some b /\ sil_elements b = 1 /\ sil_first b = None) /\
  (exists st1 st2 st3 a, save_and_clear st l s = Some st1 /\ link_in_list st1 l e (TNext e) = Some st2 /\
     sil_push_front st2 l s = Some st3 /\ tlists st3 !! l = Some a /\ sil_elements a = 1 /\ sil_first a = None) /\
  (exists st1, sil_copy st s l = Some st1 /\ sil_rep st1 s []).
Proof.
  intros (f & Hl & Hc & _) Hs Hne He. simpl in Hc. subst f. simpl in Hl. split; [|split].
  - unfold save_and_clear, sil_assign. rewrite Hl. cbn [mbind option_bind].
    eexists _, _, _, _. split; [done|]. unfold link_in_list. lookups. rewrite He. simpl. split; [done|]. lookups. done.
  - unfold save_and_clear, sil_assign. rewrite Hl. cbn [mbind option_bind].
    eexists _, _, _, _. split; [done|]. unfold link_in_list. lookups. rewrite He. simpl. split; [done|].
    unfold sil_push_front. lookups. split; [done|]. lookups. done.
  - unfold sil_copy. rewrite Hl. simpl. eexists. split; [done|]. exists None. simpl. rewrite lookup_insert_eq.
    split; [done|]. split; [done|]. split; [constructor|done].
Qed.

Lemma empty_save_loses_elements_witness :
  (exists st1 st2 a b, save_and_clear tstart 0 1 = Some st1 /\ link_in_list st1 1 7 (TNext 7) = Some st2 /\
     tlists st2 !! 0%nat = Some a /\ sil_elements a = 0 /\ sil_first a = Some 7%nat /\
     tlists st2 !! 1%nat = Some b /\ sil_elements b = 1 /\ sil_first b = None) /\
  (exists st1 st2 st3 a, save_and_clear tstart 0 1 = Some st1 /\ link_in_list st1 0 7 (TNext 7) = Some st2 /\
     sil_push_front st2 0 1 = Some st3 /\ tlists st3 !! 0%nat = Some a /\ sil_elements a = 1 /\ sil_first a = None) /\
  (exists st1, sil_copy tstart 1 0 = Some st1 /\ sil_rep st1 1 []).
Proof. exact (empty_save_loses_elements tstart 0 1 7 None _ (proj1 tstart_ok) eq_refl ltac:(done) eq_refl). Defined.
End SqlIList.
