(* ===== verification/SqlPList.v ===== *)
(** The intrusive parameterized list [I_P_List] of [private/sql_plist.h], with
    its counting and insertion policies and its iterator.

    An element is a number; its two members for the list are kept in the store,
    as are the list objects ([m_first], and the members of the policies), since
    the [prev] member of an element may point at the [m_first] of a list. *)

From S2P Require Import Prelude.

(** * Data *)

(** The policies a list is instantiated with. *)
Inductive counter_policy := I_P_List_null_counter | I_P_List_counter.
Inductive push_policy := I_P_List_no_push_back | I_P_List_fast_push_back.

(** A value of type [T **]: the [m_first] of a list, the [next] member of an element. *)
Inductive pslot := PFirst (l : nat) | PNext (e : nat).

#[export] Instance pslot_eq_dec : EqDecision pslot.
Proof. solve_decision. Defined.

(** The members [*B::next_ptr(a)] and [*B::prev_ptr(a)] of an element. *)
Record plinks := mkPLinks { pl_next : option nat; pl_prev : option pslot }.

(** The list object; [m_counter] and [m_last] are meaningful under the policies
    that have them. *)
Record I_P_List := mkPList { m_first : option nat; m_counter : Z; m_last : pslot }.

Record pstore := mkPStore { pelems : gmap nat plinks; plists : gmap nat I_P_List }.

Definition set_elem (st : pstore) (a : nat) (k : plinks) : pstore := mkPStore (<[a := k]> (pelems st)) (plists st).
Definition set_plist (st : pstore) (l : nat) (o : I_P_List) : pstore := mkPStore (pelems st) (<[l := o]> (plists st)).

Definition pread (st : pstore) (s : pslot) : option (option nat) :=
  match s with PFirst l => m_first <$> plists st !! l | PNext e => pl_next <$> pelems st !! e end.
Definition pwrite (st : pstore) (s : pslot) (p : option nat) : option pstore :=
  match s with
  | PFirst l => o ← plists st !! l; Some (set_plist st l (mkPList p (m_counter o) (m_last o)))
  | PNext e => k ← pelems st !! e; Some (set_elem st e (mkPLinks p (pl_prev k)))
  end.

(** [*B::next_ptr(a)= p] and [*B::prev_ptr(a)= s]. *)
Definition set_next_ptr (st : pstore) (a : nat) (p : option nat) : option pstore := pwrite st (PNext a) p.
Definition set_prev_ptr (st : pstore) (a : nat) (s : option pslot) : option pstore :=
  k ← pelems st !! a; Some (set_elem st a (mkPLinks (pl_next k) s)).

(** * Policies *)

Definition C_reset (C : counter_policy) (z : Z) : Z :=
  match C with I_P_List_null_counter => z | I_P_List_counter => 0 end.
Definition C_inc (C : counter_policy) (z : Z) : Z :=
  match C with I_P_List_null_counter => z | I_P_List_counter => u32 (z + 1) end.
Definition C_dec (C : counter_policy) (z : Z) : Z :=
  match C with I_P_List_null_counter => z | I_P_List_counter => u32 (z - 1) end.
Definition C_swap (C : counter_policy) (a b : Z) : Z * Z :=
  match C with I_P_List_null_counter => (a, b) | I_P_List_counter => (b, a) end.
(** [elements()], only in [I_P_List_counter]. *)
Definition C_elements (C : counter_policy) (z : Z) : option Z :=
  match C with I_P_List_null_counter => None | I_P_List_counter => Some z end.

Definition I_set_last (I : push_policy) (old new : pslot) : pslot :=
  match I with I_P_List_no_push_back => old | I_P_List_fast_push_back => new end.
(** [get_last()], only in [I_P_List_fast_push_back]. *)
Definition I_get_last (I : push_policy) (last : pslot) : option pslot :=
  match I with I_P_List_no_push_back => None | I_P_List_fast_push_back => Some last end.

(** * Operations *)

Section operations.
Context (C : counter_policy) (I : push_policy).

Definition plist_empty (st : pstore) (l : nat) : option pstore :=
  o ← plists st !! l;
  Some (set_plist st l (mkPList None (C_reset C (m_counter o)) (I_set_last I (m_last o) (PFirst l)))).

Definition plist_is_empty (st : pstore) (l : nat) : option bool :=
  o ← plists st !! l; Some (bool_decide (m_first o = None)).

(** [I::set_last(s)] and [C::inc()], [C::dec()] on list [l]. *)
Definition set_last (st : pstore) (l : nat) (s : pslot) : option pstore :=
  o ← plists st !! l; Some (set_plist st l (mkPList (m_first o) (m_counter o) (I_set_last I (m_last o) s))).
Definition inc (st : pstore) (l : nat) : option pstore :=
  o ← plists st !! l; Some (set_plist st l (mkPList (m_first o) (C_inc C (m_counter o)) (m_last o))).
Definition dec (st : pstore) (l : nat) : option pstore :=
  o ← plists st !! l; Some (set_plist st l (mkPList (m_first o) (C_dec C (m_counter o)) (m_last o))).

Definition plist_push_front (st : pstore) (l : nat) (a : nat) : option pstore :=
  o ← plists st !! l;
  st ← set_next_ptr st a (m_first o);
  st ← (match m_first o with
        | Some f => set_prev_ptr st f (Some (PNext a))
        | None => set_last st l (PNext a)
        end);
  st ← pwrite st (PFirst l) (Some a);
  st ← set_prev_ptr st a (Some (PFirst l));
  inc st l.

Definition plist_push_back (st : pstore) (l : nat) (a : nat) : option pstore :=
  o ← plists st !! l;
  last ← I_get_last I (m_last o);
  p ← pread st last;
  st ← set_next_ptr st a p;
  st ← pwrite st last (Some a);
  st ← set_prev_ptr st a (Some last);
  st ← set_last st l (PNext a);
  inc st l.

Definition plist_insert_after (st : pstore) (l : nat) (pos : option nat) (a : nat) : option pstore :=
  match pos with
  | None => plist_push_front st l a
  | Some pos =>
      k ← pelems st !! pos;
      st ← set_next_ptr st a (pl_next k);
      st ← set_prev_ptr st a (Some (PNext pos));
      st ← set_next_ptr st pos (Some a);
      ka ← pelems st !! a;
      st ← (match pl_next ka with
            | Some old_next => set_prev_ptr st old_next (Some (PNext a))
            | None => set_last st l (PNext a)
            end);
      inc st l
  end.

Definition plist_remove (st : pstore) (l : nat) (a : nat) : option pstore :=
  k ← pelems st !! a;
  st ← (match pl_next k with
        | Some next => set_prev_ptr st next (pl_prev k)
        | None => s ← pl_prev k; set_last st l s
        end);
  ka ← pelems st !! a;
  s ← pl_prev ka;
  st ← pwrite st s (pl_next k);
  dec st l.

Definition plist_front (st : pstore) (l : nat) : option (option nat) := m_first <$> plists st !! l.

Definition plist_pop_front (st : pstore) (l : nat) : option (option nat * pstore) :=
  result ← plist_front st l;
  match result with
  | Some a => st ← plist_remove st l a; Some (Some a, st)
  | None => Some (None, st)
  end.
End operations.

(** [swap] takes an [I_P_List<T, B, C>], whose insertion policy is the default
    one: it exists for [I_P_List_no_push_back] only. *)
Definition plist_swap (C : counter_policy) (st : pstore) (l rhs : nat) : option pstore :=
  a ← plists st !! l;
  b ← plists st !! rhs;
  let st := set_plist st rhs (mkPList (m_first a) (m_counter b) (m_last b)) in
  let st := set_plist st l (mkPList (m_first b) (m_counter a) (m_last a)) in
  st ← (match m_first b with
        | Some f => set_prev_ptr st f (Some (PFirst l))
        | None => set_last I_P_List_no_push_back st l (PFirst l)
        end);
  st ← (match m_first a with
        | Some f => set_prev_ptr st f (Some (PFirst rhs))
        | None => set_last I_P_List_no_push_back st l (PFirst rhs)
        end);
  a ← plists st !! l;
  b ← plists st !! rhs;
  let '(ca, cb) := C_swap C (m_counter a) (m_counter b) in
  let st := set_plist st rhs (mkPList (m_first b) cb (m_last b)) in
  Some (set_plist st l (mkPList (m_first a) ca (m_last a))).

(** * The iterator *)

Record I_P_List_iterator := mkPIter { pit_list : nat; pit_current : option nat }.

Definition pit_init (st : pstore) (l : nat) : option I_P_List_iterator :=
  o ← plists st !! l; Some (mkPIter l (m_first o)).

(** [it++]. *)
Definition pit_postincr (st : pstore) (it : I_P_List_iterator) : option (option nat * I_P_List_iterator) :=
  match pit_current it with
  | Some c => k ← pelems st !! c; Some (Some c, mkPIter (pit_list it) (pl_next k))
  | None => Some (None, it)
  end.

(** [++it]. *)
Definition pit_preincr (st : pstore) (it : I_P_List_iterator) : option (option nat * I_P_List_iterator) :=
  c ← pit_current it;
  k ← pelems st !! c;
  Some (pl_next k, mkPIter (pit_list it) (pl_next k)).

Definition pit_rewind (st : pstore) (it : I_P_List_iterator) : option I_P_List_iterator := pit_init st (pit_list it).

(** * Well-formed lists *)

(** A run [ns] entered through slot [s], which holds [p], and left through slot
    [s'], which holds [p']. *)
Fixpoint pseg (h : gmap nat plinks) (s : pslot) (p : option nat) (ns : list nat) (s' : pslot) (p' : option nat) : Prop :=
  match ns with
  | [] => s = s' /\ p = p'
  | a :: r => p = Some a /\ exists nx, h !! a = Some (mkPLinks nx (Some s)) /\ pseg h (PNext a) nx r s' p'
  end.

Fixpoint pend (s : pslot) (ns : list nat) : pslot := match ns with [] => s | a :: r => pend (PNext a) r end.

(** The members of the policies agree with the contents. *)
Definition counter_ok (C : counter_policy) (z : Z) (ns : list nat) : Prop :=
  match C with I_P_List_null_counter => True | I_P_List_counter => z = u32 (Z.of_nat (length ns)) end.
Definition last_ok (I : push_policy) (last s : pslot) : Prop :=
  match I with I_P_List_no_push_back => True | I_P_List_fast_push_back => last = s end.

Definition plist_rep (C : counter_policy) (I : push_policy) (st : pstore) (l : nat) (ns : list nat) : Prop :=
  exists o s, plists st !! l = Some o /\ pseg (pelems st) (PFirst l) (m_first o) ns s None /\ NoDup ns /\
    counter_ok C (m_counter o) ns /\ last_ok I (m_last o) s.

Lemma pseg_app h s p ns1 ns2 s' p' :
  pseg h s p (ns1 ++ ns2) s' p' <-> exists s1 p1, pseg h s p ns1 s1 p1 /\ pseg h s1 p1 ns2 s' p'.
Proof.
  revert s p. induction ns1 as [|a ns1 IH]; intros s p; simpl; [naive_solver|].
  setoid_rewrite IH. naive_solver.
Qed.

Lemma pseg_snoc h s p ns a s' p' :
  pseg h s p (ns ++ [a]) s' p' <->
  exists s1, pseg h s p ns s1 (Some a) /\ h !! a = Some (mkPLinks p' (Some s1)) /\ s' = PNext a.
Proof. rewrite pseg_app. simpl. naive_solver. Qed.

Lemma pseg_frame h h' s p ns s' p' :
  (forall a, a ∈ ns -> h' !! a = h !! a) -> pseg h s p ns s' p' -> pseg h' s p ns s' p'.
Proof.
  revert s p. induction ns as [|a ns IH]; intros s p E; simpl; [done|].
  intros [-> (nx & Ha & Hd)]. split; [done|]. exists nx. split; [rewrite E; [done|left]|].
  apply IH; [|done]. intros; apply E; by right.
Qed.

Lemma pseg_ptr h s p ns s' : pseg h s p ns s' None -> p = List.hd_error ns.
Proof. destruct ns; simpl; by intros [? ?]. Qed.

(** Writing the slot at the end of a run of list [l]. *)
Lemma pwrite_seg st l o ns s p q :
  plists st !! l = Some o -> pseg (pelems st) (PFirst l) (m_first o) ns s p -> NoDup ns ->
  exists st' f, pwrite st s q = Some st' /\ plists st' = <[l := mkPList f (m_counter o) (m_last o)]> (plists st) /\
    pseg (pelems st') (PFirst l) f ns s q /\ (forall a, a ∉ ns -> pelems st' !! a = pelems st !! a).
Proof.
  intros Hl. destruct ns as [|a ns _] using rev_ind; simpl.
  - intros [<- <-] _. simpl. rewrite Hl. simpl. by exists (set_plist st l (mkPList q (m_counter o) (m_last o))), q.
  - intros (s1 & Hd & Ha & ->)%pseg_snoc Hnd. apply NoDup_app in Hnd as (Hnd & Hdis & _). simpl. rewrite Ha. simpl.
    exists (set_elem st a (mkPLinks q (Some s1))), (m_first o). split; [done|]. simpl.
    split; [rewrite insert_id; [done|]; by destruct o|]. split.
    + apply pseg_snoc. exists s1. rewrite lookup_insert_eq. split; [|done]. apply pseg_frame with (pelems st); [|done].
      intros b Hb. apply lookup_insert_ne. intros ->. apply (Hdis b Hb). left.
    + intros b Hb. apply lookup_insert_ne. intros ->. apply Hb, elem_of_app. right. left.
Qed.

Lemma pread_seg st l o ns s p :
  plists st !! l = Some o -> pseg (pelems st) (PFirst l) (m_first o) ns s p -> pread st s = Some p.
Proof.
  intros Hl. destruct ns as [|a ns _] using rev_ind; simpl.
  - intros [<- <-]. simpl. by rewrite Hl.
  - intros (s1 & Hd & Ha & ->)%pseg_snoc. simpl. by rewrite Ha.
Qed.

(** Redirecting the start of the rest of a list: the [prev] member of its first
    element, or the [m_last] of the list. *)
Definition redirect (I : push_policy) (st : pstore) (l : nat) (p : option nat) (s : pslot) : option pstore :=
  match p with Some a => set_prev_ptr st a (Some s) | None => set_last I st l s end.

Lemma redirect_spec I st l o s p ns s' s2 :
  plists st !! l = Some o -> pseg (pelems st) s p ns s' None -> NoDup ns -> last_ok I (m_last o) s' ->
  exists st' la s2', redirect I st l p s2 = Some st' /\ plists st' = <[l := mkPList (m_first o) (m_counter o) la]> (plists st) /\
    pseg (pelems st') s2 p ns s2' None /\ last_ok I la s2' /\ (forall a, a ∉ ns -> pelems st' !! a = pelems st !! a).
Proof.
  intros Hl Hseg Hnd Hlast. pose proof (pseg_ptr _ _ _ _ _ Hseg) as ->. unfold redirect, set_last, set_prev_ptr.
  destruct ns as [|a ns]; simpl in *.
  - rewrite Hl. simpl. eexists _, _, s2. split; [done|]. split; [done|]. split; [done|]. split; [|done]. by destruct I.
  - destruct Hseg as [_ (nx & Ha & Hseg)]. rewrite Ha. simpl. eexists _, (m_last o), s'. split; [done|]. simpl.
    split; [rewrite insert_id; [done|]; by destruct o|]. apply NoDup_cons_1_1 in Hnd. split; [|split; [done|]].
    + split; [done|]. exists nx. rewrite lookup_insert_eq. split; [done|]. apply pseg_frame with (pelems st); [|done].
      intros b Hb. apply lookup_insert_ne. by intros ->.
    + intros b Hb. apply lookup_insert_ne. set_solver.
Qed.

(** * The operations on well-formed lists *)

(** What an operation on [l] and the elements [A] leaves alone. *)
Definition pframe (st st' : pstore) (A : list nat) (L : list nat) : Prop :=
  (forall a, a ∉ A -> pelems st' !! a = pelems st !! a) /\ (forall l, l ∉ L -> plists st' !! l = plists st !! l).

Lemma plist_rep_frame C I st st' A L l ns :
  pframe st st' A L -> l ∉ L -> (forall a, a ∈ ns -> a ∉ A) -> plist_rep C I st l ns -> plist_rep C I st' l ns.
Proof.
  intros [HA HL] Hl Hd (o & s & H1 & H2 & H3). exists o, s. rewrite HL by done. split; [done|]. split; [|done].
  apply pseg_frame with (pelems st); auto.
Qed.

Lemma counter_inc C z ns ns' :
  counter_ok C z ns -> length ns' = S (length ns) -> counter_ok C (C_inc C z) ns'.
Proof.
  destruct C; simpl; [done|]. intros -> ->. unfold uwrap. rewrite Zplus_mod_idemp_l. f_equal. lia.
Qed.

Lemma counter_dec C z ns ns' :
  counter_ok C z ns -> length ns = S (length ns') -> counter_ok C (C_dec C z) ns'.
Proof.
  destruct C; simpl; [done|]. intros -> ->. unfold uwrap. rewrite Zminus_mod_idemp_l. f_equal. lia.
Qed.

Lemma set_next_ptr_eq st a k p : pelems st !! a = Some k -> set_next_ptr st a p = Some (set_elem st a (mkPLinks p (pl_prev k))).
Proof. unfold set_next_ptr. simpl. by intros ->. Qed.
Lemma set_prev_ptr_eq st a k s : pelems st !! a = Some k -> set_prev_ptr st a s = Some (set_elem st a (mkPLinks (pl_next k) s)).
Proof. unfold set_prev_ptr. by intros ->. Qed.

(** Evaluate the accesses to a store built by updates. *)
Ltac plookups := repeat (progress (simpl; rewrite ?lookup_insert_eq; rewrite ?lookup_insert_ne by (done || by apply not_eq_sym))).

Lemma plist_push_front_spec C I st l ns a k :
  plist_rep C I st l ns -> pelems st !! a = Some k -> a ∉ ns ->
  exists st', plist_push_front C I st l a = Some st' /\ plist_rep C I st' l (a :: ns) /\ pframe st st' (a :: ns) [l].
Proof.
  intros (o & s & Hl & Hseg & Hnd & HC & HI) Ha Hin. unfold plist_push_front. rewrite Hl. cbn [mbind option_bind].
  rewrite (set_next_ptr_eq _ _ _ _ Ha). cbn [mbind option_bind].
  set (st1 := set_elem st a _).
  assert (pseg (pelems st1) (PFirst l) (m_first o) ns s None) as Hseg1.
  { apply pseg_frame with (pelems st); [|done]. intros b Hb. simpl. apply lookup_insert_ne. by intros ->. }
  destruct (redirect_spec I st1 l o _ _ ns s (PNext a) Hl Hseg1 Hnd HI) as (st2 & la & s2 & E2 & El & Hseg2 & HI2 & Hfr).
  unfold redirect in E2. rewrite E2. cbn [mbind option_bind pwrite]. rewrite El. plookups.
  unfold set_prev_ptr. simpl. rewrite Hfr by done. unfold st1. plookups. unfold inc. plookups.
  eexists. split; [done|]. split.
  - exists (mkPList (Some a) (C_inc C (m_counter o)) la), s2. plookups. split; [done|]. split.
    + split; [done|]. exists (m_first o). split; [done|].
      apply pseg_frame with (pelems st2); [|done]. intros b Hb. apply lookup_insert_ne. by intros ->.
    + split; [by apply NoDup_cons_2|]. split; [by apply (counter_inc C _ ns)|done].
  - split; simpl.
    + intros b Hb. rewrite lookup_insert_ne by set_solver. rewrite Hfr by set_solver. simpl. apply lookup_insert_ne. set_solver.
    + intros l' Hl'. rewrite !lookup_insert_ne by set_solver. rewrite El, lookup_insert_ne by set_solver. done.
Qed.

Lemma plist_push_back_spec C st l ns a k :
  plist_rep C I_P_List_fast_push_back st l ns -> pelems st !! a = Some k -> a ∉ ns ->
  exists st', plist_push_back C I_P_List_fast_push_back st l a = Some st' /\
    plist_rep C I_P_List_fast_push_back st' l (ns ++ [a]) /\ pframe st st' (a :: ns) [l].
Proof.
  intros (o & s & Hl & Hseg & Hnd & HC & HI) Ha Hin. simpl in HI. unfold plist_push_back. rewrite Hl. cbn [mbind option_bind I_get_last].
  rewrite HI. cbn [mbind option_bind]. rewrite (pread_seg _ _ _ _ _ _ Hl Hseg). cbn [mbind option_bind].
  rewrite (set_next_ptr_eq _ _ _ _ Ha). cbn [mbind option_bind]. set (st1 := set_elem st a _).
  assert (pseg (pelems st1) (PFirst l) (m_first o) ns s None) as Hseg1.
  { apply pseg_frame with (pelems st); [|done]. intros b Hb. simpl. apply lookup_insert_ne. by intros ->. }
  destruct (pwrite_seg st1 l o ns s None (Some a) Hl Hseg1 Hnd) as (st2 & f & -> & El & Hseg2 & Hfr).
  cbn [mbind option_bind]. unfold set_prev_ptr. rewrite Hfr by done. unfold st1. plookups.
  unfold set_last. plookups. rewrite El. plookups. unfold inc. plookups.
  eexists. split; [done|]. split.
  - exists (mkPList f (C_inc C (m_counter o)) (PNext a)), (PNext a). plookups. split; [done|]. split.
    + apply pseg_snoc. exists s. rewrite lookup_insert_eq. split; [|done].
      apply pseg_frame with (pelems st2); [|done]. intros b Hb. apply lookup_insert_ne. by intros ->.
    + split; [|split; [|done]].
      * apply NoDup_app. split; [done|]. split; [|apply NoDup_singleton]. by intros b Hb ->%list_elem_of_singleton.
      * apply (counter_inc C _ ns); [done|]. rewrite length_app. simpl. lia.
  - split; simpl.
    + intros b Hb. rewrite lookup_insert_ne by set_solver. rewrite Hfr by set_solver. simpl. apply lookup_insert_ne. set_solver.
    + intros l' Hl'. rewrite !lookup_insert_ne by set_solver. rewrite El, lookup_insert_ne by set_solver. done.
Qed.

Lemma plist_remove_spec C I st l ns1 a ns2 :
  plist_rep C I st l (ns1 ++ a :: ns2) ->
  exists st', plist_remove C I st l a = Some st' /\ plist_rep C I st' l (ns1 ++ ns2) /\
    pelems st' !! a = pelems st !! a /\ pframe st st' (ns1 ++ ns2) [l].
Proof.
  intros (o & s & Hl & Hseg & Hnd & HC & HI). apply pseg_app in Hseg as (s1 & p1 & Hseg1 & [-> (nx & Ha & Hseg2)]).
  apply NoDup_app in Hnd as (Hnd1 & Hdis & Hnd2). apply list.NoDup_cons in Hnd2 as [Ha2 Hnd2].
  assert (a ∉ ns1) as Ha1 by (intros Hin; apply (Hdis a Hin); left).
  unfold plist_remove. rewrite Ha. cbn [mbind option_bind pl_next pl_prev].
  destruct (redirect_spec I st l o _ _ ns2 s s1 Hl Hseg2 Hnd2 HI) as (st1 & la & s2 & E1 & El & Hseg2' & HI' & Hfr).
  unfold redirect in E1. rewrite E1. cbn [mbind option_bind]. rewrite Hfr, Ha by done. cbn [mbind option_bind pl_prev].
  assert (plists st1 !! l = Some (mkPList (m_first o) (m_counter o) la)) as Hl1 by (rewrite El; apply lookup_insert_eq).
  destruct (pwrite_seg st1 l _ ns1 s1 (Some a) nx Hl1) as (st2 & f & -> & El2 & Hseg1' & Hfr2); [|done|].
  { apply pseg_frame with (pelems st); [|done]. intros b Hb. apply Hfr. intros Hb2. apply (Hdis b Hb). by right. }
  cbn [mbind option_bind]. unfold dec. rewrite El2, lookup_insert_eq. cbn [mbind option_bind m_first m_counter m_last].
  eexists. split; [done|]. split; [|split; [|split]].
  - exists (mkPList f (C_dec C (m_counter o)) la), s2. plookups. split; [done|]. split; [|split; [|split; [|done]]].
    + apply pseg_app. exists s1, nx. split; [done|]. apply pseg_frame with (pelems st1); [|done].
      intros b Hb. apply Hfr2. intros Hb1. apply (Hdis b Hb1). by right.
    + apply NoDup_app. split; [done|]. split; [|done]. intros b Hb1 Hb2. apply (Hdis b Hb1). by right.
    + apply (counter_dec C _ _ _ HC). rewrite !length_app. simpl. lia.
  - simpl. by rewrite Hfr2, Hfr, Ha by done.
  - intros b Hb. simpl. rewrite Hfr2 by set_solver. apply Hfr. set_solver.
  - intros l' Hl'. simpl. rewrite lookup_insert_ne by set_solver. rewrite El2, lookup_insert_ne by set_solver.
    rewrite El, lookup_insert_ne by set_solver. done.
Qed.

Lemma plist_insert_after_spec C I st l ns1 pos ns2 a k :
  plist_rep C I st l (ns1 ++ pos :: ns2) -> pelems st !! a = Some k -> a ∉ ns1 ++ pos :: ns2 ->
  exists st', plist_insert_after C I st l (Some pos) a = Some st' /\ plist_rep C I st' l (ns1 ++ pos :: a :: ns2) /\
    pframe st st' (a :: ns1 ++ pos :: ns2) [l].
Proof.
  intros (o & s & Hl & Hseg & Hnd & HC & HI) Ha Hin. apply pseg_app in Hseg as (s1 & p1 & Hseg1 & [-> (nx & Hp & Hseg2)]).
  pose proof Hnd as Hnd'. apply NoDup_app in Hnd' as (Hnd1 & Hdis & Hnd2). apply list.NoDup_cons in Hnd2 as [Hp2 Hnd2].
  assert (pos <> a) as Hpa by set_solver. assert (pos ∉ ns1) as Hp1 by (intros H; apply (Hdis pos H); left).
  unfold plist_insert_after. rewrite Hp. cbn [mbind option_bind pl_next].
  rewrite (set_next_ptr_eq _ _ _ _ Ha). cbn [mbind option_bind].
  erewrite set_prev_ptr_eq by (simpl; apply lookup_insert_eq). cbn [mbind option_bind pl_next].
  erewrite set_next_ptr_eq by (simpl; rewrite !lookup_insert_ne by done; exact Hp). cbn [mbind option_bind pl_prev].
  set (st1 := set_elem (set_elem _ _ _) _ _).
  assert (pelems st1 !! a = Some (mkPLinks nx (Some (PNext pos)))) as Ha1 by (unfold st1; plookups; done).
  rewrite Ha1. cbn [mbind option_bind pl_next].
  assert (forall b, b <> a -> b <> pos -> pelems st1 !! b = pelems st !! b) as Hfr1.
  { intros b Hb1 Hb2. unfold st1. simpl. rewrite !lookup_insert_ne by done. done. }
  assert (pseg (pelems st1) (PNext pos) nx ns2 s None) as Hseg2'.
  { apply pseg_frame with (pelems st); [|done]. intros b Hb. apply Hfr1; set_solver. }
  destruct (redirect_spec I st1 l o _ _ ns2 s (PNext a) Hl Hseg2' Hnd2 HI) as (st2 & la & s2 & E2 & El & Hseg3 & HI' & Hfr).
  unfold redirect in E2. rewrite E2. cbn [mbind option_bind]. unfold inc. rewrite El. plookups.
  eexists. split; [done|]. split.
  2: { split; simpl.
    - intros b Hb. rewrite Hfr by set_solver. apply Hfr1; set_solver.
    - intros l' Hl'. rewrite lookup_insert_ne by set_solver. rewrite El, lookup_insert_ne by set_solver. done. }
  exists (mkPList (m_first o) (C_inc C (m_counter o)) la), s2. plookups.
  split; [done|]. split; [|split; [|split; [|done]]].
  - apply pseg_app. exists s1, (Some pos). split.
    + apply pseg_frame with (pelems st); [|done]. intros b Hb. rewrite Hfr by (intros Hb2; apply (Hdis b Hb); by right).
      apply Hfr1; set_solver.
    + simpl. split; [done|]. exists (Some a). split; [rewrite Hfr by done; unfold st1; by plookups|]. split; [done|].
      exists nx. rewrite Hfr by set_solver. done.
  - apply NoDup_app. split; [done|]. split; [intros b Hb; set_solver|]. apply NoDup_cons_2; [set_solver|].
    apply NoDup_cons_2; [set_solver|done].
  - apply (counter_inc C _ _ _ HC). rewrite !length_app. simpl. lia.
Qed.

Lemma plist_rep_elem C I st l ns a : plist_rep C I st l ns -> a ∈ ns -> is_Some (pelems st !! a).
Proof.
  intros (o & s & _ & Hseg & _) Hin. apply list_elem_of_split in Hin as (l1 & l2 & ->).
  apply pseg_app in Hseg as (s1 & p1 & _ & [_ (nx & Ha & _)]). eauto.
Qed.

Lemma plist_front_spec C I st l ns : plist_rep C I st l ns -> plist_front st l = Some (List.hd_error ns).
Proof. intros (o & s & Hl & Hseg & _). unfold plist_front. rewrite Hl. simpl. f_equal. by apply (pseg_ptr _ _ _ _ _ Hseg). Qed.

(** * Theorems *)

(** ** One list against a sequence *)

Inductive plist_op := PPushFront (a : nat) | PPushBack (a : nat) | PInsertAfter (pos a : nat) | PRemove (a : nat) | PPopFront.

Definition run_plist_op (C : counter_policy) (op : plist_op) (st : pstore) (l : nat) : option (option nat * pstore) :=
  match op with
  | PPushFront a => st ← plist_push_front C I_P_List_fast_push_back st l a; Some (None, st)
  | PPushBack a => st ← plist_push_back C I_P_List_fast_push_back st l a; Some (None, st)
  | PInsertAfter pos a => st ← plist_insert_after C I_P_List_fast_push_back st l (Some pos) a; Some (None, st)
  | PRemove a => st ← plist_remove C I_P_List_fast_push_back st l a; Some (None, st)
  | PPopFront => plist_pop_front C I_P_List_fast_push_back st l
  end.
Fixpoint run_plist (C : counter_policy) (ops : list plist_op) (st : pstore) (l : nat) : option (list (option nat) * pstore) :=
  match ops with
  | [] => Some ([], st)
  | op :: ops => '(r, st) ← run_plist_op C op st l; '(rs, st) ← run_plist C ops st l; Some (r :: rs, st)
  end.

(** On a sequence without repetitions; [None] when the operation is not allowed
    (an element inserted twice, or removed or used as a position when absent). *)
Fixpoint insert_after_elem (pos a : nat) (ns : list nat) : list nat :=
  match ns with [] => [] | b :: r => if decide (b = pos) then b :: a :: r else b :: insert_after_elem pos a r end.
Definition spec_plist_op (op : plist_op) (ns : list nat) : option (option nat * list nat) :=
  match op with
  | PPushFront a => if decide (a ∈ ns) then None else Some (None, a :: ns)
  | PPushBack a => if decide (a ∈ ns) then None else Some (None, ns ++ [a])
  | PInsertAfter pos a =>
      if decide (pos ∈ ns) then if decide (a ∈ ns) then None else Some (None, insert_after_elem pos a ns) else None
  | PRemove a => if decide (a ∈ ns) then Some (None, List.remove Nat.eq_dec a ns) else None
  | PPopFront => Some (List.hd_error ns, List.tl ns)
  end.
Fixpoint spec_plist (ops : list plist_op) (ns : list nat) : option (list (option nat) * list nat) :=
  match ops with
  | [] => Some ([], ns)
  | op :: ops => '(r, ns) ← spec_plist_op op ns; '(rs, ns) ← spec_plist ops ns; Some (r :: rs, ns)
  end.

Definition op_elem (op : plist_op) : list nat :=
  match op with PPushFront a | PPushBack a | PInsertAfter _ a | PRemove a => [a] | PPopFront => [] end.

Lemma insert_after_elem_split pos a ns1 ns2 :
  pos ∉ ns1 -> insert_after_elem pos a (ns1 ++ pos :: ns2) = ns1 ++ pos :: a :: ns2.
Proof.
  induction ns1 as [|b ns1 IH]; simpl; intros Hp.
  - by rewrite decide_True.
  - apply not_elem_of_cons in Hp as [Hb Hp]. rewrite decide_False by done. by rewrite IH.
Qed.

Lemma remove_split a ns1 ns2 :
  a ∉ ns1 -> a ∉ ns2 -> List.remove Nat.eq_dec a (ns1 ++ a :: ns2) = ns1 ++ ns2.
Proof.
  intros H1 H2. rewrite List.remove_app. simpl. destruct (Nat.eq_dec a a) as [_|]; [|done].
  rewrite !List.notin_remove; [done|by rewrite <- list_elem_of_In..].
Qed.

Lemma plist_rep_NoDup C I st l ns : plist_rep C I st l ns -> NoDup ns.
Proof. by intros (o & s & _ & _ & ? & _). Qed.

(** Elements stay allocated. *)
Lemma pframe_alloc C I st st' l ns A b :
  plist_rep C I st' l ns -> pframe st st' A [l] -> (forall c, c ∈ A -> c ∈ ns \/ pelems st' !! c = pelems st !! c) ->
  is_Some (pelems st !! b) -> is_Some (pelems st' !! b).
Proof.
  intros Hrep [HA _] Hns Hb. destruct (decide (b ∈ A)) as [Hin|Hin]; [|by rewrite HA].
  destruct (Hns b Hin) as [H|H]; [by apply (plist_rep_elem _ _ _ _ _ _ Hrep)|by rewrite H].
Qed.

Lemma run_plist_op_refines C op st l ns r ns' :
  plist_rep C I_P_List_fast_push_back st l ns -> (forall a, a ∈ op_elem op -> is_Some (pelems st !! a)) ->
  spec_plist_op op ns = Some (r, ns') ->
  exists st', run_plist_op C op st l = Some (r, st') /\ plist_rep C I_P_List_fast_push_back st' l ns' /\
    (forall b, is_Some (pelems st !! b) -> is_Some (pelems st' !! b)).
Proof.
  intros Hrep Hal. pose proof (plist_rep_NoDup _ _ _ _ _ Hrep) as Hnd. destruct op as [a|a|pos a|a|]; cbn [spec_plist_op run_plist_op op_elem] in *.
  - destruct (decide (a ∈ ns)) as [|Hin]; [done|]. intros [= <- <-]. destruct (Hal a ltac:(left)) as [k Hk].
    destruct (plist_push_front_spec _ _ _ _ _ _ _ Hrep Hk Hin) as (st' & -> & H & Hfr). eexists. split; [done|]. split; [done|].
    intros b. apply (pframe_alloc _ _ _ _ _ _ _ _ H Hfr). by left.
  - destruct (decide (a ∈ ns)) as [|Hin]; [done|]. intros [= <- <-]. destruct (Hal a ltac:(left)) as [k Hk].
    destruct (plist_push_back_spec _ _ _ _ _ _ Hrep Hk Hin) as (st' & -> & H & Hfr). eexists. split; [done|]. split; [done|].
    intros b. apply (pframe_alloc _ _ _ _ _ _ _ _ H Hfr). intros c Hc. left. set_solver.
  - destruct (decide (pos ∈ ns)) as [Hpos|]; [|done]. destruct (decide (a ∈ ns)) as [|Hin]; [done|]. intros [= <- <-].
    destruct (Hal a ltac:(left)) as [k Hk]. apply list_elem_of_split in Hpos as (ns1 & ns2 & ->).
    rewrite insert_after_elem_split by (apply NoDup_app in Hnd as (_ & Hd & _); intros H; apply (Hd pos H); left).
    destruct (plist_insert_after_spec _ _ _ _ _ _ _ _ _ Hrep Hk Hin) as (st' & -> & H & Hfr). eexists. split; [done|]. split; [done|].
    intros b. apply (pframe_alloc _ _ _ _ _ _ _ _ H Hfr). intros c Hc. left. set_solver.
  - destruct (decide (a ∈ ns)) as [Hin|]; [|done]. intros [= <- <-]. apply list_elem_of_split in Hin as (ns1 & ns2 & ->).
    destruct (plist_remove_spec _ _ _ _ _ _ _ Hrep) as (st' & -> & H & Ha & Hfr).
    pose proof (proj1 (NoDup_app _ _) Hnd) as (_ & Hd & Hnd2). apply NoDup_cons_1_1 in Hnd2.
    rewrite remove_split; [|intros K; apply (Hd a K); left|done]. eexists. split; [done|]. split; [done|].
    intros b. apply (pframe_alloc _ _ _ _ _ _ _ _ H Hfr). by left.
  - intros [= <- <-]. unfold plist_pop_front. rewrite (plist_front_spec _ _ _ _ _ Hrep). cbn [mbind option_bind].
    destruct ns as [|a ns]; simpl; [by exists st|].
    destruct (plist_remove_spec _ _ _ _ [] a ns Hrep) as (st' & -> & H & Ha & Hfr). cbn [mbind option_bind].
    eexists. split; [done|]. split; [done|]. intros b. apply (pframe_alloc _ _ _ _ _ _ _ _ H Hfr). by left.
Qed.

(** Refinement: any sequence of [push_front], [push_back], [insert_after],
    [remove] and [pop_front] that is allowed on a sequence without repetitions
    succeeds on the list, returns the same elements, and leaves the doubly linked
    list of the resulting sequence, with [m_last] at its end and, under
    [I_P_List_counter], the number of elements in the counter. *)
Theorem I_P_List_refines_sequence C ops st l ns rs ns' :
  plist_rep C I_P_List_fast_push_back st l ns ->
  (forall op a, op ∈ ops -> a ∈ op_elem op -> is_Some (pelems st !! a)) ->
  spec_plist ops ns = Some (rs, ns') ->
  exists st', run_plist C ops st l = Some (rs, st') /\ plist_rep C I_P_List_fast_push_back st' l ns'.
Proof.
  revert st ns rs. induction ops as [|op ops IH]; intros st ns rs Hrep Hal; cbn [spec_plist run_plist].
  - intros [= <- <-]. by exists st.
  - destruct (spec_plist_op op ns) as [[r ns1]|] eqn:E1; [|done]. cbn [mbind option_bind].
    destruct (spec_plist ops ns1) as [[rs1 ns2]|] eqn:E2; [|done]. cbn [mbind option_bind]. intros [= <- <-].
    destruct (run_plist_op_refines C op st l ns r ns1 Hrep) as (st1 & -> & Hrep1 & Hal1); [|done|].
    { intros a Ha. apply (Hal op); [left|done]. }
    cbn [mbind option_bind]. destruct (IH st1 ns1 rs1 Hrep1) as (st2 & -> & Hrep2); [|done|by exists st2].
    intros op' a Hop Ha. apply Hal1. apply (Hal op'); [by right|done].
Qed.

(** Three elements in no list, and two empty lists. *)
Definition pstart : pstore :=
  mkPStore (<[5%nat := mkPLinks None None]> (<[6%nat := mkPLinks None None]> {[7%nat := mkPLinks None None]}))
    (<[0%nat := mkPList None 0 (PFirst 0)]> {[1%nat := mkPList None 0 (PFirst 1)]}).

Lemma pstart_ok C I l : (l < 2)%nat -> plist_rep C I pstart l [].
Proof.
  intros Hl. destruct l as [|[|l]]; [..|lia].
  - exists (mkPList None 0 (PFirst 0)), (PFirst 0). split; [done|]. split; [done|]. split; [constructor|]. by destruct C, I.
  - exists (mkPList None 0 (PFirst 1)), (PFirst 1). split; [done|]. split; [done|]. split; [constructor|]. by destruct C, I.
Qed.

Lemma I_P_List_refines_sequence_witness :
  exists st', run_plist I_P_List_counter [PPushFront 5; PPushBack 6; PInsertAfter 5 7; PRemove 6; PPopFront] pstart 0
      = Some ([None; None; None; None; Some 5%nat], st') /\
    plist_rep I_P_List_counter I_P_List_fast_push_back st' 0 [7%nat].
Proof.
  apply (I_P_List_refines_sequence I_P_List_counter _ pstart 0 [] _ _ (pstart_ok _ _ 0 ltac:(lia))); [|by vm_compute].
  intros op a Hop Ha. rewrite !elem_of_cons, elem_of_nil in Hop.
  destruct Hop as [->|[->|[->|[->|[->|[]]]]]]; simpl in Ha; try (apply list_elem_of_singleton in Ha as ->);
    [by eexists..|by apply elem_of_nil in Ha].
Defined.

(** ** Iteration *)

(** A loop over the list that removes the elements [P] holds of. *)
Fixpoint remove_while_iterating (fuel : nat) (C : counter_policy) (I : push_policy) (P : nat -> bool)
    (st : pstore) (it : I_P_List_iterator) : option (list nat * pstore) :=
  match fuel with
  | O => None
  | S fuel =>
      '(r, it) ← pit_postincr st it;
      match r with
      | None => Some ([], st)
      | Some a =>
          st ← (if P a then plist_remove C I st (pit_list it) a else Some st);
          '(seen, st) ← remove_while_iterating fuel C I P st it;
          Some (a :: seen, st)
      end
  end.

Lemma pit_postincr_spec C I st l ns1 a ns2 :
  plist_rep C I st l (ns1 ++ a :: ns2) ->
  pit_postincr st (mkPIter l (Some a)) = Some (Some a, mkPIter l (List.hd_error ns2)).
Proof.
  intros (o & s & _ & Hseg & _). apply pseg_app in Hseg as (s1 & p1 & _ & [_ (nx & Ha & Hseg)]).
  unfold pit_postincr. simpl. rewrite Ha. simpl. do 3 f_equal. by apply (pseg_ptr _ _ _ _ _ Hseg).
Qed.

Lemma remove_while_iterating_spec C I P st l ns1 ns2 fuel :
  plist_rep C I st l (ns1 ++ ns2) -> (length ns2 < fuel)%nat ->
  exists st', remove_while_iterating fuel C I P st (mkPIter l (List.hd_error ns2)) = Some (ns2, st') /\
    plist_rep C I st' l (ns1 ++ List.filter (fun a => negb (P a)) ns2).
Proof.
  revert st ns1 fuel. induction ns2 as [|a ns2 IH]; intros st ns1 fuel Hrep Hf;
    (destruct fuel as [|fuel]; [simpl in Hf; lia|]); cbn [remove_while_iterating List.hd_error].
  - simpl. by exists st.
  - rewrite (pit_postincr_spec _ _ _ _ _ _ _ Hrep). cbn [mbind option_bind pit_list List.filter].
    destruct (P a); cbn [negb].
    + destruct (plist_remove_spec _ _ _ _ _ _ _ Hrep) as (st1 & -> & Hrep1 & _). cbn [mbind option_bind].
      destruct (IH st1 ns1 fuel Hrep1) as (st2 & -> & Hrep2); [simpl in Hf; lia|]. cbn [mbind option_bind]. by exists st2.
    + cbn [mbind option_bind]. rewrite cons_middle, app_assoc in Hrep.
      destruct (IH st (ns1 ++ [a]) fuel Hrep) as (st2 & -> & Hrep2); [simpl in Hf; lia|]. cbn [mbind option_bind].
      exists st2. split; [done|]. by rewrite <- app_assoc in Hrep2.
Qed.

(** The iterator saves the next element, so the element it has just
    returned may be removed: a loop that does so for any choice of elements
    terminates, still visits every element once and in order, and leaves the
    well-formed list of the others. *)
Theorem iterate_and_remove C I P st l ns fuel :
  plist_rep C I st l ns -> (length ns < fuel)%nat ->
  exists it st', pit_init st l = Some it /\ remove_while_iterating fuel C I P st it = Some (ns, st') /\
    plist_rep C I st' l (List.filter (fun a => negb (P a)) ns).
Proof.
  intros Hrep Hf. destruct (remove_while_iterating_spec C I P st l [] ns fuel Hrep Hf) as (st' & E & H).
  exists (mkPIter l (List.hd_error ns)), st'. split; [|done]. destruct Hrep as (o & s & Hl & Hseg & _).
  unfold pit_init. rewrite Hl. simpl. do 2 f_equal. by apply (pseg_ptr _ _ _ _ _ Hseg).
Qed.

Lemma iterate_and_remove_witness :
  exists st it st', pit_init st 0 = Some it /\
    remove_while_iterating 5 I_P_List_counter I_P_List_fast_push_back Nat.even st it = Some ([6; 5]%nat, st') /\
    plist_rep I_P_List_counter I_P_List_fast_push_back st' 0 [5%nat].
Proof.
  destruct (plist_push_front_spec I_P_List_counter I_P_List_fast_push_back pstart 0 [] 5 _ (pstart_ok _ _ 0 ltac:(lia)) eq_refl ltac:(set_solver)) as (s1 & _ & R1 & F1).
  destruct (plist_push_front_spec I_P_List_counter I_P_List_fast_push_back s1 0 [5%nat] 6 (mkPLinks None None) R1
    ltac:(destruct F1 as [F _]; rewrite F by set_solver; done) ltac:(set_solver)) as (s2 & _ & R2 & _).
  exists s2. exact (iterate_and_remove I_P_List_counter I_P_List_fast_push_back Nat.even s2 0 [6; 5]%nat 5 R2 ltac:(simpl; lia)).
Defined.

(** ** Swap *)

(** [swap] exchanges the contents and the counters of two lists without
    common elements, empty ones included. *)
Theorem swap_exchanges C st l r ns ms :
  plist_rep C I_P_List_no_push_back st l ns -> plist_rep C I_P_List_no_push_back st r ms -> l <> r ->
  (forall a, a ∈ ns -> a ∉ ms) ->
  exists st', plist_swap C st l r = Some st' /\ plist_rep C I_P_List_no_push_back st' l ms /\
    plist_rep C I_P_List_no_push_back st' r ns.
Proof.
  intros (a & s & Hl & Hs & Hnd & HC & _) (b & t & Hr & Ht & Hmd & HD & _) Hne Hdis.
  unfold plist_swap. rewrite Hl, Hr. cbn [mbind option_bind].
  set (st1 := set_plist (set_plist _ _ _) _ _).
  destruct (redirect_spec I_P_List_no_push_back st1 l (mkPList (m_first b) (m_counter a) (m_last a)) (PFirst r) (m_first b) ms t (PFirst l))
    as (st2 & la & s2 & E2 & El2 & Hs2 & _ & Hfr2); [apply lookup_insert_eq|done|done|done|].
  unfold redirect in E2. rewrite E2. cbn [mbind option_bind]. clear E2.
  destruct (redirect_spec I_P_List_no_push_back st2 l (mkPList (m_first b) (m_counter a) la) (PFirst l) (m_first a) ns s (PFirst r))
    as (st3 & lb & s3 & E3 & El3 & Hs3 & _ & Hfr3); [rewrite El2; apply lookup_insert_eq| |done|done|].
  { apply pseg_frame with (pelems st); [|done]. intros c Hc. apply Hfr2. by apply Hdis. }
  unfold redirect in E3. rewrite E3. cbn [mbind option_bind]. clear E3.
  rewrite El3, lookup_insert_eq. cbn [mbind option_bind]. rewrite lookup_insert_ne, El2, lookup_insert_ne by done.
  unfold st1. plookups. destruct (C_swap C (m_counter a) (m_counter b)) as [ca cb] eqn:Ec.
  assert (counter_ok C ca ms /\ counter_ok C cb ns) as [Hca Hcb] by (destruct C; simpl in *; by simplify_eq).
  eexists. split; [done|]. split.
  - exists (mkPList (m_first b) ca lb), s2. plookups. split; [done|]. split; [|done].
    apply pseg_frame with (pelems st2); [|done]. intros c Hc. apply Hfr3. intros Hc'. by apply (Hdis c Hc').
  - exists (mkPList (m_first a) cb (m_last b)), s3. plookups. done.
Qed.

Lemma swap_exchanges_witness :
  exists st st', plist_swap I_P_List_counter st 0 1 = Some st' /\
    plist_rep I_P_List_counter I_P_List_no_push_back st' 0 [] /\
    plist_rep I_P_List_counter I_P_List_no_push_back st' 1 [5%nat].
Proof.
  destruct (plist_push_front_spec I_P_List_counter I_P_List_no_push_back pstart 0 [] 5 _ (pstart_ok _ _ 0 ltac:(lia)) eq_refl
    (not_elem_of_nil 5%nat)) as (s1 & _ & R1 & F1).
  exists s1. apply (swap_exchanges I_P_List_counter s1 0 1 [5%nat] []); [done| |done|intros ? _; apply not_elem_of_nil].
  apply (plist_rep_frame _ _ _ _ _ _ _ _ F1); [|by intros ? ?%elem_of_nil|apply pstart_ok; lia].
  by intros ?%list_elem_of_singleton.
Defined.
