(* ===== verification/SqlError.v ===== *)
(** SQL conditions and diagnostics: [private/sql_error.h].

    Each class is a record that holds its base classes as fields, with coercions
    for the conversions to a base; each method is a function.  A [String] member
    is its contents, a pointer to an object the header does not look into is a
    number.  The stack of [Warning_info] objects of a [Diagnostics_area] is the
    intrusive list of [SqlPList].  An assertion ([DBUG_ASSERT]) that fails, like
    a null pointer that is followed, is [None]. *)

From S2P Require Import Prelude SqlPList.

(** * [Sql_state] *)

Definition SQLSTATE_LENGTH : nat := 5.

(** The value of a [char]: signed. *)
Definition char_val (b : byte) : Z := s8 (byteZ b).
Definition char_0 : Z := 48.
Definition char_1 : Z := 49.
Definition char_2 : Z := 50.

Record Sql_state := mkState { m_sqlstate : list byte }.

Definition Sql_state_init : Sql_state := mkState (repeat Byte.x00 (SQLSTATE_LENGTH + 1)).

(** [set_sqlstate(const char * )]: reads five bytes. *)
Definition set_sqlstate (sqlstate : list byte) : option Sql_state :=
  if (SQLSTATE_LENGTH <=? length sqlstate)%nat
  then Some (mkState (take SQLSTATE_LENGTH sqlstate ++ [Byte.x00])) else None.

Definition get_sqlstate (s : Sql_state) : list byte := m_sqlstate s.

(** The string at the start of a byte sequence, as [strcmp] reads it. *)
Fixpoint c_string (l : list byte) : list byte :=
  match l with [] => [] | b :: r => if Byte.eqb b Byte.x00 then [] else b :: c_string r end.

Definition sqlstate_eq (a b : Sql_state) : bool := bool_decide (c_string (m_sqlstate a) = c_string (m_sqlstate b)).

Definition sqlstate_char (s : list byte) (i : nat) : Z := char_val (nth i s Byte.x00).

Definition has_sql_state (s : Sql_state) : bool := negb (sqlstate_char (m_sqlstate s) 0 =? 0).
Definition is_warning (s : Sql_state) : bool :=
  (sqlstate_char (m_sqlstate s) 0 =? char_0) && (sqlstate_char (m_sqlstate s) 1 =? char_1).
Definition is_not_found (s : Sql_state) : bool :=
  (sqlstate_char (m_sqlstate s) 0 =? char_0) && (sqlstate_char (m_sqlstate s) 1 =? char_2).
Definition is_exception (s : Sql_state) : bool :=
  negb (sqlstate_char (m_sqlstate s) 0 =? char_0) || (char_2 <? sqlstate_char (m_sqlstate s) 1).
Definition is_sqlstate_completion (s : list byte) : bool :=
  (sqlstate_char s 0 =? char_0) && (sqlstate_char s 1 =? char_0).

(** * The classes derived from it *)

Record Sql_state_errno := mkErrno { se_state : Sql_state; m_sql_errno : Z }.
Coercion se_state : Sql_state_errno >-> Sql_state.

Definition Sql_state_errno_init (sql_errno : Z) : Sql_state_errno := mkErrno Sql_state_init sql_errno.
Definition Sql_state_errno_make (sql_errno : Z) (sqlstate : list byte) : option Sql_state_errno :=
  s ← set_sqlstate sqlstate; Some (mkErrno s sql_errno).
Definition get_sql_errno (e : Sql_state_errno) : Z := m_sql_errno e.
(** [set(sql_errno, sqlstate)] overwrites both members. *)
Definition Sql_state_errno_set (e : Sql_state_errno) (sql_errno : Z) (sqlstate : list byte) : option Sql_state_errno :=
  Sql_state_errno_make sql_errno sqlstate.
Definition Sql_state_errno_clear (e : Sql_state_errno) : Sql_state_errno := mkErrno (se_state e) 0.

Inductive enum_warning_level := WARN_LEVEL_NOTE | WARN_LEVEL_WARN | WARN_LEVEL_ERROR | WARN_LEVEL_END.

#[export] Instance enum_warning_level_eq_dec : EqDecision enum_warning_level.
Proof. solve_decision. Defined.

Record Sql_state_errno_level := mkLevel { sl_errno : Sql_state_errno; m_level : enum_warning_level }.
Coercion sl_errno : Sql_state_errno_level >-> Sql_state_errno.

Definition Sql_state_errno_level_init : Sql_state_errno_level := mkLevel (Sql_state_errno_init 0) WARN_LEVEL_ERROR.
Definition Sql_state_errno_level_make (sqlerrno : Z) (sqlstate : list byte) (level : enum_warning_level)
    : option Sql_state_errno_level := e ← Sql_state_errno_make sqlerrno sqlstate; Some (mkLevel e level).
Definition get_level (e : Sql_state_errno_level) : enum_warning_level := m_level e.
Definition Sql_state_errno_level_clear (e : Sql_state_errno_level) : Sql_state_errno_level :=
  mkLevel (Sql_state_errno_clear (sl_errno e)) WARN_LEVEL_ERROR.

(** A user condition is identified by the address of its [sp_condition_value]. *)
Record Sql_user_condition_identity := mkUser { m_user_condition_value : option nat }.
Definition Sql_user_condition_identity_init : Sql_user_condition_identity := mkUser None.
Definition Sql_user_condition_identity_set (u identity : Sql_user_condition_identity) : Sql_user_condition_identity := identity.
Definition Sql_user_condition_identity_clear (u : Sql_user_condition_identity) : Sql_user_condition_identity := mkUser None.

Record Sql_condition_identity := mkIdentity { ci_level : Sql_state_errno_level; ci_user : Sql_user_condition_identity }.
Coercion ci_level : Sql_condition_identity >-> Sql_state_errno_level.
Coercion ci_user : Sql_condition_identity >-> Sql_user_condition_identity.

Definition Sql_condition_identity_init : Sql_condition_identity :=
  mkIdentity Sql_state_errno_level_init Sql_user_condition_identity_init.
Definition Sql_condition_identity_of_errno (st : Sql_state_errno) (level : enum_warning_level)
    (ucid : Sql_user_condition_identity) : Sql_condition_identity := mkIdentity (mkLevel st level) ucid.
Definition Sql_condition_identity_make (sqlerrno : Z) (sqlstate : list byte) (level : enum_warning_level)
    (ucid : Sql_user_condition_identity) : option Sql_condition_identity :=
  l ← Sql_state_errno_level_make sqlerrno sqlstate level; Some (mkIdentity l ucid).
Definition Sql_condition_identity_clear (c : Sql_condition_identity) : Sql_condition_identity :=
  mkIdentity (Sql_state_errno_level_clear (ci_level c)) (Sql_user_condition_identity_clear (ci_user c)).

(** * [Sql_condition] *)

Record Sql_condition_items := mkItems {
  m_class_origin : list byte; m_subclass_origin : list byte; m_constraint_catalog : list byte;
  m_constraint_schema : list byte; m_constraint_name : list byte; m_catalog_name : list byte;
  m_schema_name : list byte; m_table_name : list byte; m_column_name : list byte; m_cursor_name : list byte;
  m_row_number : Z
}.
Definition Sql_condition_items_init : Sql_condition_items := mkItems [] [] [] [] [] [] [] [] [] [] 0.
(** [length(0)] on every string. *)
Definition Sql_condition_items_clear (i : Sql_condition_items) : Sql_condition_items :=
  mkItems (take 0 (m_class_origin i)) (take 0 (m_subclass_origin i)) (take 0 (m_constraint_catalog i))
    (take 0 (m_constraint_schema i)) (take 0 (m_constraint_name i)) (take 0 (m_catalog_name i))
    (take 0 (m_schema_name i)) (take 0 (m_table_name i)) (take 0 (m_column_name i)) (take 0 (m_cursor_name i)) 0.
Definition set_row_number (i : Sql_condition_items) (row : Z) : Sql_condition_items :=
  mkItems (m_class_origin i) (m_subclass_origin i) (m_constraint_catalog i) (m_constraint_schema i) (m_constraint_name i)
    (m_catalog_name i) (m_schema_name i) (m_table_name i) (m_column_name i) (m_cursor_name i) row.

Record Sql_condition := mkCond {
  c_identity : Sql_condition_identity; c_items : Sql_condition_items; m_message_text : list byte; m_mem_root : option nat
}.
Coercion c_identity : Sql_condition >-> Sql_condition_identity.

Definition MYSQL_TIME_WARN_TRUNCATED : Z := 1.
Definition MYSQL_TIME_WARN_OUT_OF_RANGE : Z := 2.
Definition MYSQL_TIME_WARN_EDOM : Z := 4.
Definition MYSQL_TIME_WARN_ZERO_DATE : Z := 8.
Definition MYSQL_TIME_NOTE_TRUNCATED : Z := 16.
Definition MYSQL_TIME_WARN_WARNINGS : Z :=
  MYSQL_TIME_WARN_TRUNCATED .| MYSQL_TIME_WARN_OUT_OF_RANGE .| MYSQL_TIME_WARN_EDOM .| MYSQL_TIME_WARN_ZERO_DATE.
Definition MYSQL_TIME_WARN_NOTES : Z := MYSQL_TIME_NOTE_TRUNCATED.
Definition MYSQL_TIME_WARN_HAVE_WARNINGS (x : Z) : bool := c_true (x .& MYSQL_TIME_WARN_WARNINGS).
Definition MYSQL_TIME_WARN_HAVE_NOTES (x : Z) : bool := c_true (x .& MYSQL_TIME_WARN_NOTES).

Definition time_warn_level (warnings : Z) : enum_warning_level :=
  if MYSQL_TIME_WARN_HAVE_WARNINGS warnings then WARN_LEVEL_WARN else WARN_LEVEL_NOTE.

Definition Sql_condition_init : Sql_condition := mkCond Sql_condition_identity_init Sql_condition_items_init [] None.
(** [init]: completes a condition made by the default constructor. *)
Definition cond_init (c : Sql_condition) (mem_root : option nat) : option Sql_condition :=
  if bool_decide (mem_root <> None) && bool_decide (m_mem_root c = None)
  then Some (mkCond (c_identity c) (c_items c) (m_message_text c) mem_root) else None.
Definition Sql_condition_of_user (mem_root : option nat) (ucid : Sql_user_condition_identity) : option Sql_condition :=
  if bool_decide (mem_root <> None)
  then Some (mkCond (mkIdentity Sql_state_errno_level_init ucid) Sql_condition_items_init [] mem_root) else None.
(** The constructor for a fixed message; [set_builtin_message_text] is the
    conversion of the message, which the header only declares. *)
Definition Sql_condition_of_message (set_builtin_message_text : list byte -> list byte) (mem_root : option nat)
    (value : Sql_condition_identity) (msg : list byte) (current_row_for_warning : Z) : option Sql_condition :=
  if negb (get_sql_errno value =? 0) then
    Some (mkCond value (set_row_number Sql_condition_items_init current_row_for_warning) (set_builtin_message_text msg) mem_root)
  else None.
Definition Sql_condition_clear (c : Sql_condition) : Sql_condition :=
  mkCond (Sql_condition_identity_clear (c_identity c)) (Sql_condition_items_clear (c_items c)) (take 0 (m_message_text c)) (m_mem_root c).

(** * [Warning_info] *)

(** [m_warn_count] is indexed by level; [m_warn_list] is the list object, its
    conditions being elsewhere; [m_marked] the conditions marked for removal. *)
Record Warning_info := mkWI {
  m_warn_list : I_P_List; m_warn_count : list Z; m_current_statement_warn_count : Z; m_current_row_for_warning : Z;
  m_warn_id : Z; m_error_condition : option nat; m_allow_unlimited_warnings : bool; wi_initialized : bool;
  m_read_only : bool; m_marked : list nat
}.

Definition level_index (l : enum_warning_level) : nat :=
  match l with WARN_LEVEL_NOTE => 0 | WARN_LEVEL_WARN => 1 | WARN_LEVEL_ERROR => 2 | WARN_LEVEL_END => 3 end.
Definition count_of (w : Warning_info) (l : enum_warning_level) : Z := m_warn_count w !!! level_index l.

(** The sum is one of [uint]s. *)
Definition wi_warn_count (w : Warning_info) : Z :=
  u32 (u32 (count_of w WARN_LEVEL_NOTE + count_of w WARN_LEVEL_ERROR) + count_of w WARN_LEVEL_WARN).
Definition wi_error_count (w : Warning_info) : Z := count_of w WARN_LEVEL_ERROR.
Definition wi_cond_count (w : Warning_info) : Z := m_counter (m_warn_list w).
Definition wi_is_empty (w : Warning_info) : bool := bool_decide (m_first (m_warn_list w) = None).

(** One member changed. *)
Definition wi_set_stmt_count (w : Warning_info) (n : Z) : Warning_info :=
  mkWI (m_warn_list w) (m_warn_count w) n (m_current_row_for_warning w) (m_warn_id w) (m_error_condition w)
    (m_allow_unlimited_warnings w) (wi_initialized w) (m_read_only w) (m_marked w).
Definition wi_set_row (w : Warning_info) (n : Z) : Warning_info :=
  mkWI (m_warn_list w) (m_warn_count w) (m_current_statement_warn_count w) n (m_warn_id w) (m_error_condition w)
    (m_allow_unlimited_warnings w) (wi_initialized w) (m_read_only w) (m_marked w).
Definition wi_set_id (w : Warning_info) (id_arg : Z) : Warning_info :=
  mkWI (m_warn_list w) (m_warn_count w) (m_current_statement_warn_count w) (m_current_row_for_warning w) id_arg
    (m_error_condition w) (m_allow_unlimited_warnings w) (wi_initialized w) (m_read_only w) (m_marked w).
Definition wi_set_error_condition (w : Warning_info) (c : option nat) : Warning_info :=
  mkWI (m_warn_list w) (m_warn_count w) (m_current_statement_warn_count w) (m_current_row_for_warning w) (m_warn_id w)
    c (m_allow_unlimited_warnings w) (wi_initialized w) (m_read_only w) (m_marked w).
Definition wi_set_read_only (w : Warning_info) (read_only_arg : bool) : Warning_info :=
  mkWI (m_warn_list w) (m_warn_count w) (m_current_statement_warn_count w) (m_current_row_for_warning w) (m_warn_id w)
    (m_error_condition w) (m_allow_unlimited_warnings w) (wi_initialized w) read_only_arg (m_marked w).
Definition wi_set_marked (w : Warning_info) (marked : list nat) : Warning_info :=
  mkWI (m_warn_list w) (m_warn_count w) (m_current_statement_warn_count w) (m_current_row_for_warning w) (m_warn_id w)
    (m_error_condition w) (m_allow_unlimited_warnings w) (wi_initialized w) (m_read_only w) marked.

Definition wi_reset_for_next_command (w : Warning_info) : Warning_info := wi_set_stmt_count w 0.
Definition wi_inc_current_row (w : Warning_info) : Warning_info := wi_set_row w (u64 (m_current_row_for_warning w + 1)).
(** The [int] is converted to [ulong]. *)
Definition wi_reset_current_row (w : Warning_info) (n : Z) : Warning_info := wi_set_row w (u64 n).
Definition wi_clear_error_condition (w : Warning_info) : Warning_info := wi_set_error_condition w None.
Definition wi_unmark_all (w : Warning_info) : Warning_info := wi_set_marked w [].
(** [mark_condition_for_removal]; [mem] says whether the list node could be
    allocated (see [SqlList.push_back] for what happens otherwise). *)
Definition wi_mark (w : Warning_info) (cond : nat) (mem : bool) : option Warning_info :=
  if mem then Some (wi_set_marked w (m_marked w ++ [cond])) else None.
(** [opt_clear]; [clear] is only declared in the header. *)
Definition wi_opt_clear (clear : Warning_info -> Z -> Warning_info) (w : Warning_info) (query_id : Z) : Warning_info :=
  if negb (query_id =? m_warn_id w) then clear w query_id else w.

(** * [Diagnostics_area] *)

Inductive enum_diagnostics_status :=
  DA_EMPTY | DA_OK | DA_EOF | DA_OK_BULK | DA_EOF_BULK | DA_ERROR | DA_DISABLED.

#[export] Instance enum_diagnostics_status_eq_dec : EqDecision enum_diagnostics_status.
Proof. solve_decision. Defined.

(** The [Warning_info] objects by address, and the links of the stack they form:
    the list object is number 0 of [da_links]. *)
Record Diagnostics_area := mkDA {
  da_errno : Sql_state_errno; da_user : Sql_user_condition_identity;
  m_is_sent : bool; m_can_overwrite_status : bool; m_message : list byte; m_affected_rows : Z; m_last_insert_id : Z;
  m_statement_warn_count : Z; m_status : enum_diagnostics_status; is_bulk_execution : bool;
  da_infos : gmap nat Warning_info; da_links : pstore
}.
Definition m_wi_stack : nat := 0.

Definition da_set_flags (d : Diagnostics_area) (sent overwrite bulk : bool) : Diagnostics_area :=
  mkDA (da_errno d) (da_user d) sent overwrite (m_message d) (m_affected_rows d) (m_last_insert_id d)
    (m_statement_warn_count d) (m_status d) bulk (da_infos d) (da_links d).
Definition set_overwrite_status (d : Diagnostics_area) (b : bool) : Diagnostics_area := da_set_flags d (m_is_sent d) b (is_bulk_execution d).
Definition set_is_sent (d : Diagnostics_area) (b : bool) : Diagnostics_area := da_set_flags d b (m_can_overwrite_status d) (is_bulk_execution d).
Definition set_bulk_execution (d : Diagnostics_area) (b : bool) : Diagnostics_area := da_set_flags d (m_is_sent d) (m_can_overwrite_status d) b.

Definition status_in (d : Diagnostics_area) (l : list enum_diagnostics_status) : bool := bool_decide (m_status d ∈ l).
Definition da_is_set (d : Diagnostics_area) : bool := negb (status_in d [DA_EMPTY]).
Definition da_is_error (d : Diagnostics_area) : bool := status_in d [DA_ERROR].
Definition da_is_eof (d : Diagnostics_area) : bool := status_in d [DA_EOF].
Definition da_is_ok (d : Diagnostics_area) : bool := status_in d [DA_OK].
Definition da_is_disabled (d : Diagnostics_area) : bool := status_in d [DA_DISABLED].
Definition is_bulk_op (d : Diagnostics_area) : bool := is_bulk_execution d.

Definition da_message (d : Diagnostics_area) : option (list byte) :=
  asserting (status_in d [DA_ERROR; DA_OK; DA_OK_BULK; DA_EOF_BULK]) (m_message d).
Definition da_sql_errno (d : Diagnostics_area) : option Z := asserting (status_in d [DA_ERROR]) (get_sql_errno (da_errno d)).
Definition da_get_sqlstate (d : Diagnostics_area) : option (list byte) := asserting (status_in d [DA_ERROR]) (get_sqlstate (da_errno d)).
Definition da_affected_rows (d : Diagnostics_area) : option Z := asserting (status_in d [DA_OK; DA_OK_BULK]) (m_affected_rows d).
Definition da_last_insert_id (d : Diagnostics_area) : option Z := asserting (status_in d [DA_OK; DA_OK_BULK]) (m_last_insert_id d).
Definition da_statement_warn_count (d : Diagnostics_area) : option Z :=
  asserting (status_in d [DA_OK; DA_OK_BULK; DA_EOF; DA_EOF_BULK]) (m_statement_warn_count d).
Definition get_error_condition_identity (d : Diagnostics_area) : option Sql_condition_identity :=
  asserting (status_in d [DA_ERROR]) (Sql_condition_identity_of_errno (da_errno d) WARN_LEVEL_ERROR (da_user d)).

Definition da_increment_warning (d : Diagnostics_area) : Diagnostics_area :=
  if negb (status_in d [DA_EMPTY]) then
    mkDA (da_errno d) (da_user d) (m_is_sent d) (m_can_overwrite_status d) (m_message d) (m_affected_rows d) (m_last_insert_id d)
      (u32 (m_statement_warn_count d + 1)) (m_status d) (is_bulk_execution d) (da_infos d) (da_links d)
  else d.

Definition da_set_infos (d : Diagnostics_area) (infos : gmap nat Warning_info) (lk : pstore) : Diagnostics_area :=
  mkDA (da_errno d) (da_user d) (m_is_sent d) (m_can_overwrite_status d) (m_message d) (m_affected_rows d) (m_last_insert_id d)
    (m_statement_warn_count d) (m_status d) (is_bulk_execution d) infos lk.

Definition push_warning_info (d : Diagnostics_area) (wi : nat) : option Diagnostics_area :=
  lk ← plist_push_front I_P_List_counter I_P_List_fast_push_back (da_links d) m_wi_stack wi;
  Some (da_set_infos d (da_infos d) lk).
Definition pop_warning_info (d : Diagnostics_area) : option Diagnostics_area :=
  o ← plists (da_links d) !! m_wi_stack;
  _ ← asserting (0 <? m_counter o) tt;
  f ← plist_front (da_links d) m_wi_stack;
  a ← f;
  lk ← plist_remove I_P_List_counter I_P_List_fast_push_back (da_links d) m_wi_stack a;
  Some (da_set_infos d (da_infos d) lk).

(** [get_warning_info()]: the object at the front of the stack. *)
Definition get_warning_info (d : Diagnostics_area) : option nat := f ← plist_front (da_links d) m_wi_stack; f.
(** A query and an update forwarded to it. *)
Definition of_warning_info {A} (f : Warning_info -> A) (d : Diagnostics_area) : option A :=
  a ← get_warning_info d; w ← da_infos d !! a; Some (f w).
Definition on_warning_info (f : Warning_info -> Warning_info) (d : Diagnostics_area) : option Diagnostics_area :=
  a ← get_warning_info d; w ← da_infos d !! a; Some (da_set_infos d (<[a := f w]> (da_infos d)) (da_links d)).

Definition set_warning_info_id (d : Diagnostics_area) (id : Z) := on_warning_info (fun w => wi_set_id w id) d.
Definition warning_info_id (d : Diagnostics_area) := of_warning_info m_warn_id d.
Definition warning_info_changed (d : Diagnostics_area) (wi : Warning_info) : option bool :=
  of_warning_info (fun w => negb (m_warn_id w =? m_warn_id wi)) d.
Definition is_warning_info_empty (d : Diagnostics_area) := of_warning_info wi_is_empty d.
Definition da_current_statement_warn_count (d : Diagnostics_area) := of_warning_info m_current_statement_warn_count d.
Definition da_reset_for_next_command (d : Diagnostics_area) := on_warning_info wi_reset_for_next_command d.
Definition da_clear_warning_info (clear : Warning_info -> Z -> Warning_info) (d : Diagnostics_area) (id : Z) :=
  on_warning_info (fun w => clear w id) d.
Definition da_opt_clear_warning_info (clear : Warning_info -> Z -> Warning_info) (d : Diagnostics_area) (query_id : Z) :=
  on_warning_info (fun w => wi_opt_clear clear w query_id) d.
Definition da_current_row_for_warning (d : Diagnostics_area) := of_warning_info m_current_row_for_warning d.
Definition da_inc_current_row_for_warning (d : Diagnostics_area) := on_warning_info wi_inc_current_row d.
Definition da_reset_current_row_for_warning (d : Diagnostics_area) (n : Z) := on_warning_info (fun w => wi_reset_current_row w n) d.
Definition is_warning_info_read_only (d : Diagnostics_area) := of_warning_info m_read_only d.
Definition set_warning_info_read_only (d : Diagnostics_area) (b : bool) := on_warning_info (fun w => wi_set_read_only w b) d.
Definition da_error_count (d : Diagnostics_area) := of_warning_info wi_error_count d.
Definition da_warn_count (d : Diagnostics_area) := of_warning_info wi_warn_count d.
Definition da_cond_count (d : Diagnostics_area) := of_warning_info wi_cond_count d.
Definition da_unmark_sql_conditions_from_removal (d : Diagnostics_area) := on_warning_info wi_unmark_all d.
Definition da_get_error_condition (d : Diagnostics_area) := of_warning_info m_error_condition d.

(** * SQLSTATE *)

(** The characters of a valid SQLSTATE: digits and capital letters. *)
Definition sqlstate_char_ok (b : byte) : bool :=
  ((48 <=? byteZ b) && (byteZ b <=? 57)) || ((65 <=? byteZ b) && (byteZ b <=? 90)).
Definition sqlstate_ok (s : list byte) : bool := (length s =? SQLSTATE_LENGTH)%nat && forallb sqlstate_char_ok s.

Lemma sqlstate_char_ok_val b : sqlstate_char_ok b = true ->
  char_val b = byteZ b /\ 48 <= char_val b <= 90 /\ Byte.eqb b Byte.x00 = false.
Proof.
  intros H. assert (48 <= byteZ b <= 90) as Hr.
  { unfold sqlstate_char_ok in H. apply orb_true_iff in H as [H|H]; apply andb_true_iff in H as [H1 H2];
      apply Z.leb_le in H1, H2; lia. }
  assert (char_val b = byteZ b) as E by (unfold char_val; apply swrap_small; [lia|unfold sfits; lia]).
  rewrite E. split; [done|]. split; [done|]. destruct (Byte.eqb b Byte.x00) eqn:Eb; [|done]. apply Byte.byte_dec_bl in Eb. subst b. vm_compute in Hr. by destruct Hr as [Hr _]; destruct Hr.
Qed.

Lemma set_sqlstate_ok s : sqlstate_ok s = true -> set_sqlstate s = Some (mkState (s ++ [Byte.x00])).
Proof.
  intros [H1 _]%andb_true_iff. apply Nat.eqb_eq in H1. unfold set_sqlstate. rewrite H1.
  by rewrite take_ge by lia.
Qed.

Lemma c_string_ok s : forallb sqlstate_char_ok s = true -> c_string (s ++ [Byte.x00]) = s.
Proof.
  induction s as [|b s IH]; [done|]. cbn [forallb app c_string]. intros [Hb Hs]%andb_true_iff.
  destruct (sqlstate_char_ok_val b Hb) as (_ & _ & ->). by rewrite IH.
Qed.

(** The category of an SQLSTATE. *)
Definition sqlstate_classes (s : list byte) (st : Sql_state) : list bool :=
  [is_sqlstate_completion s; is_warning st; is_not_found st; is_exception st].

(** A valid SQLSTATE falls into exactly one of the categories completion,
    warning, not found and exception; once set it tests as present, reads back
    as given (with the terminating NUL), and two of them are equal exactly when
    their five characters are. *)
Theorem sqlstate_classification s s' :
  sqlstate_ok s = true -> sqlstate_ok s' = true ->
  exists st st', set_sqlstate s = Some st /\ set_sqlstate s' = Some st' /\ get_sqlstate st = s ++ [Byte.x00] /\
    List.count_occ Bool.bool_dec (sqlstate_classes s st) true = 1%nat /\
    has_sql_state st = true /\ has_sql_state Sql_state_init = false /\
    (sqlstate_eq st st' = true <-> s = s').
Proof.
  intros H H'. exists (mkState (s ++ [Byte.x00])), (mkState (s' ++ [Byte.x00])).
  rewrite (set_sqlstate_ok s H), (set_sqlstate_ok s' H'). split; [done|]. split; [done|]. split; [done|].
  apply andb_true_iff in H as [Hlen Hs], H' as [_ Hs']. apply Nat.eqb_eq in Hlen.
  split; [|split; [|split; [by vm_compute|]]].
  - unfold sqlstate_classes, is_sqlstate_completion, is_warning, is_not_found, is_exception, sqlstate_char.
    destruct s as [|a [|b s]]; [done..|]. cbn [m_sqlstate app nth]. cbn [forallb] in Hs.
    apply andb_true_iff in Hs as [Ha [Hb _]%andb_true_iff].
    destruct (sqlstate_char_ok_val a Ha) as (_ & Ra & _). destruct (sqlstate_char_ok_val b Hb) as (_ & Rb & _).
    unfold char_0, char_1, char_2. revert Ra Rb. generalize (char_val a) (char_val b). intros x y Rx Ry.
    destruct (Z.eqb_spec x 48); cbn [negb andb orb]; [|done].
    destruct (Z.eqb_spec y 48), (Z.eqb_spec y 49), (Z.eqb_spec y 50), (Z.ltb_spec 50 y); try lia; done.
  - unfold has_sql_state, sqlstate_char. destruct s as [|a s]; [done|]. cbn [m_sqlstate app nth]. cbn [forallb] in Hs.
    apply andb_true_iff in Hs as [Ha _]. destruct (sqlstate_char_ok_val a Ha) as (_ & Ra & _).
    by destruct (Z.eqb_spec (char_val a) 0); [lia|].
  - unfold sqlstate_eq. cbn [m_sqlstate]. rewrite !c_string_ok by done. apply bool_decide_eq_true.
Qed.

Lemma sqlstate_classification_witness :
  let s := [Byte.x30; Byte.x32; Byte.x30; Byte.x30; Byte.x30] in let s' := [Byte.x34; Byte.x32; Byte.x53; Byte.x30; Byte.x32] in
  exists st st', set_sqlstate s = Some st /\ set_sqlstate s' = Some st' /\ get_sqlstate st = s ++ [Byte.x00] /\
    List.count_occ Bool.bool_dec (sqlstate_classes s st) true = 1%nat /\
    has_sql_state st = true /\ has_sql_state Sql_state_init = false /\ (sqlstate_eq st st' = true <-> s = s').
Proof.
  exact (sqlstate_classification [Byte.x30; Byte.x32; Byte.x30; Byte.x30; Byte.x30]
    [Byte.x34; Byte.x32; Byte.x53; Byte.x30; Byte.x32] eq_refl eq_refl).
Defined.

(** [Sql_condition::clear] resets the error number, the level, the user
    condition, the condition items and the message of any condition, but not the
    SQLSTATE: after it the condition still has the state it had. *)
Theorem condition_clear_keeps_sqlstate (c : Sql_condition) :
  let c' := Sql_condition_clear c in
  get_sql_errno c' = 0 /\ get_level c' = WARN_LEVEL_ERROR /\ m_user_condition_value c' = None /\
  c_items c' = Sql_condition_items_init /\ m_message_text c' = [] /\ m_mem_root c' = m_mem_root c /\
  get_sqlstate c' = get_sqlstate c /\ has_sql_state c' = has_sql_state c.
Proof. done. Qed.

(** * The stack of [Warning_info] objects *)

Definition stack_rep (d : Diagnostics_area) (ns : list nat) : Prop :=
  plist_rep I_P_List_counter I_P_List_fast_push_back (da_links d) m_wi_stack ns.

Lemma get_warning_info_spec d ns : stack_rep d ns -> get_warning_info d = List.hd_error ns.
Proof. intros H. unfold get_warning_info. by rewrite (plist_front_spec _ _ _ _ _ H). Qed.

Lemma pop_warning_info_spec d a ns :
  stack_rep d (a :: ns) -> Z.of_nat (length ns) + 1 < 2 ^ 32 ->
  exists d', pop_warning_info d = Some d' /\ stack_rep d' ns /\ da_infos d' = da_infos d.
Proof.
  intros H Hb. pose proof H as (o & s & Hl & _ & _ & HC & _). unfold pop_warning_info. rewrite Hl. cbn [mbind option_bind].
  simpl in HC. rewrite HC, uwrap_small by (unfold ufits; lia).
  rewrite (proj2 (Z.ltb_lt _ _)) by lia. cbn [asserting mbind option_bind].
  rewrite (plist_front_spec _ _ _ _ _ H). cbn [mbind option_bind List.hd_error].
  destruct (plist_remove_spec _ _ _ _ [] a ns H) as (lk & -> & Hrep & _). cbn [mbind option_bind]. by eexists.
Qed.

Lemma pop_warning_info_empty d : stack_rep d [] -> pop_warning_info d = None.
Proof.
  intros (o & s & Hl & _ & _ & HC & _). unfold pop_warning_info. rewrite Hl. cbn [mbind option_bind]. simpl in HC. by rewrite HC.
Qed.

(** The warning areas form a stack: a pushed area becomes the current one,
    whatever the area's methods then do (any update [f] of the current
    [Warning_info]) changes that object only, popping makes the previous area
    current again with its contents untouched, and popping an empty stack fails
    the assertion. *)
Theorem warning_info_stack d ns wi w k f :
  stack_rep d ns -> pelems (da_links d) !! wi = Some k -> wi ∉ ns -> da_infos d !! wi = Some w ->
  Z.of_nat (length ns) + 1 < 2 ^ 32 ->
  exists d1 d2 d3, push_warning_info d wi = Some d1 /\ get_warning_info d1 = Some wi /\
    on_warning_info f d1 = Some d2 /\ of_warning_info id d2 = Some (f w) /\
    (forall a, a <> wi -> da_infos d2 !! a = da_infos d !! a) /\
    pop_warning_info d2 = Some d3 /\ stack_rep d3 ns /\ get_warning_info d3 = List.hd_error ns /\
    (ns = [] -> pop_warning_info d3 = None).
Proof.
  intros Hrep Hk Hin Hw Hb. unfold push_warning_info.
  destruct (plist_push_front_spec _ _ _ _ _ _ _ Hrep Hk Hin) as (lk & -> & Hrep1 & _). cbn [mbind option_bind].
  set (d1 := da_set_infos d (da_infos d) lk). assert (stack_rep d1 (wi :: ns)) as H1 by done.
  assert (get_warning_info d1 = Some wi) as G1 by (by rewrite (get_warning_info_spec _ _ H1)).
  set (d2 := da_set_infos d1 (<[wi := f w]> (da_infos d)) lk).
  assert (stack_rep d2 (wi :: ns)) as H2 by done.
  assert (get_warning_info d2 = Some wi) as G2 by (by rewrite (get_warning_info_spec _ _ H2)).
  destruct (pop_warning_info_spec d2 wi ns H2 Hb) as (d3 & E3 & H3 & _).
  exists d1, d2, d3. split; [done|]. split; [done|]. split; [|split; [|split; [|split; [done|split; [done|split]]]]].
  - unfold on_warning_info. rewrite G1. simpl. by rewrite Hw.
  - unfold of_warning_info. rewrite G2. simpl. by rewrite lookup_insert_eq.
  - intros a Ha. simpl. by apply lookup_insert_ne.
  - by apply get_warning_info_spec.
  - intros ->. by apply pop_warning_info_empty.
Qed.

(** An area with an empty stack and one [Warning_info]. *)
Definition dstart : Diagnostics_area :=
  mkDA (Sql_state_errno_init 0) Sql_user_condition_identity_init false false [] 0 0 0 DA_EMPTY false
    {[5%nat := mkWI (mkPList None 0 (PFirst 1)) [0; 0; 0] 0 1 0 None false true false []]} pstart.

Lemma warning_info_stack_witness :
  exists d1 d2 d3, push_warning_info dstart 5 = Some d1 /\ get_warning_info d1 = Some 5%nat /\
    on_warning_info wi_inc_current_row d1 = Some d2 /\
    of_warning_info id d2 = Some (wi_inc_current_row (mkWI (mkPList None 0 (PFirst 1)) [0; 0; 0] 0 1 0 None false true false [])) /\
    (forall a, a <> 5%nat -> da_infos d2 !! a = da_infos dstart !! a) /\
    pop_warning_info d2 = Some d3 /\ stack_rep d3 [] /\ get_warning_info d3 = List.hd_error [] /\
    (@nil nat = [] -> pop_warning_info d3 = None).
Proof.
  exact (warning_info_stack dstart [] 5 _ _ wi_inc_current_row (pstart_ok _ _ 0 (Nat.lt_0_succ 1)) eq_refl
    (not_elem_of_nil 5%nat) eq_refl ltac:(simpl; lia)).
Defined.

(** What may be asked of an area in each status: nothing before a status is
    set or when it is disabled; the message, the error number, the SQLSTATE and
    the condition identity (at level error) exactly after an error; rows,
    insert id and message after OK (bulk or not), and the warning count after OK
    and EOF, which counts the warnings pushed since. *)
Theorem diagnostics_by_status d :
  (is_Some (da_sql_errno d) <-> m_status d = DA_ERROR) /\ (is_Some (da_get_sqlstate d) <-> m_status d = DA_ERROR) /\
  (get_error_condition_identity d =
     if da_is_error d then Some (mkIdentity (mkLevel (da_errno d) WARN_LEVEL_ERROR) (da_user d)) else None) /\
  (is_Some (da_affected_rows d) <-> m_status d ∈ [DA_OK; DA_OK_BULK]) /\
  (is_Some (da_last_insert_id d) <-> is_Some (da_affected_rows d)) /\
  (is_Some (da_message d) <-> is_Some (da_affected_rows d) \/ m_status d ∈ [DA_ERROR; DA_EOF_BULK]) /\
  (is_Some (da_statement_warn_count d) <-> m_status d ∈ [DA_OK; DA_OK_BULK; DA_EOF; DA_EOF_BULK]) /\
  (da_statement_warn_count (da_increment_warning d) = (fun n => u32 (n + 1)) <$> da_statement_warn_count d) /\
  (m_status d = DA_EMPTY -> da_increment_warning d = d /\ da_is_set d = false).
Proof.
  destruct d as [e u s o m ar li sw st bulk infos lk]. cbn [m_status].
  destruct st; cbn; rewrite ?is_Some_alt; repeat split; intros;
    repeat match goal with H : _ \/ _ |- _ => destruct H | H : _ ∈ _ |- _ => apply list_elem_of_In in H; simpl in H end;
    try done; try (apply list_elem_of_In; simpl; tauto); try (right; apply list_elem_of_In; simpl; tauto); try (left; done); intuition congruence.
Qed.

(** [warn_count] is the sum of the three severities as long as it fits a
    [uint], and never less than [error_count] then; when the sum overflows it
    wraps, and is smaller than the number of errors. *)
Theorem warn_count_bounds w n e v :
  m_warn_count w = [n; v; e] -> ufits 32 n -> ufits 32 e -> ufits 32 v ->
  (n + e + v < 2 ^ 32 -> wi_warn_count w = n + e + v /\ wi_error_count w <= wi_warn_count w) /\
  (2 ^ 32 <= n + e + v < 2 ^ 32 + e -> wi_warn_count w < wi_error_count w).
Proof.
  intros Hw [Hn Hn'] [He He'] [Hv Hv'].
  assert (count_of w WARN_LEVEL_NOTE = n /\ count_of w WARN_LEVEL_WARN = v /\ count_of w WARN_LEVEL_ERROR = e) as (E1 & E2 & E3)
    by (unfold count_of; rewrite Hw; done).
  unfold wi_warn_count, wi_error_count. rewrite E1, E2, E3. unfold uwrap. rewrite Zplus_mod_idemp_l.
  split; intros H.
  - rewrite Z.mod_small by lia. lia.
  - replace (n + e + v) with (n + e + v - 2 ^ 32 + 1 * 2 ^ 32) by lia. rewrite Z_mod_plus_full, Z.mod_small by lia. lia.
Qed.

Lemma warn_count_bounds_witness :
  let w := mkWI (mkPList None 0 (PFirst 1)) [1; 2; 3] 0 1 0 None false true false [] in
  (1 + 3 + 2 < 2 ^ 32 -> wi_warn_count w = 1 + 3 + 2 /\ wi_error_count w <= wi_warn_count w) /\
  (2 ^ 32 <= 1 + 3 + 2 < 2 ^ 32 + 3 -> wi_warn_count w < wi_error_count w).
Proof. apply (warn_count_bounds (mkWI (mkPList None 0 (PFirst 1)) [1; 2; 3] 0 1 0 None false true false []) 1 3 2); done. Defined.
