(* ===== verification/SqlTypeInt.v ===== *)
(** Integers of the SQL layer: [private/sql_type_int.h] (nullable 64-bit values,
    and 64-bit values that are signed or unsigned) and [private/sql_limit.h]
    (the counters behind LIMIT and OFFSET).

    A [longlong] is its signed value, a [ulonglong] its unsigned one; the casts
    between them are [s64] and [u64]. *)

From S2P Require Import Prelude MyBit.

Definition LONGLONG_MIN : Z := -(2 ^ 63).
Definition LONGLONG_MAX : Z := 2 ^ 63 - 1.

(** * [Longlong_null] *)

Record Longlong_null := mkNullable { ln_value : Z; ln_is_null : bool }.

Definition Longlong_null_null : Longlong_null := mkNullable 0 true.
Definition Longlong_null_of (nr : Z) : Longlong_null := mkNullable nr false.

Definition either_null (a b : Longlong_null) : bool := ln_is_null a || ln_is_null b.

Definition ln_or (a b : Longlong_null) : Longlong_null :=
  if either_null a b then Longlong_null_null else Longlong_null_of (ln_value a .| ln_value b).
Definition ln_and (a b : Longlong_null) : Longlong_null :=
  if either_null a b then Longlong_null_null else Longlong_null_of (ln_value a .& ln_value b).
Definition ln_xor (a b : Longlong_null) : Longlong_null :=
  if either_null a b then Longlong_null_null else Longlong_null_of (ln_value a .^ ln_value b).
Definition ln_not (a : Longlong_null) : Longlong_null :=
  if ln_is_null a then a else Longlong_null_of (s64 (unot 64 (u64 (ln_value a)))).

(** The shift count is cast to [uint]. *)
Definition ln_shl (a llshift : Longlong_null) : Longlong_null :=
  if either_null a llshift then Longlong_null_null
  else
    let shift := u32 (ln_value llshift) in
    let res := if shift <? 64 then u64 (u64 (ln_value a) .<< shift) else 0 in
    Longlong_null_of (s64 res).
Definition ln_shr (a llshift : Longlong_null) : Longlong_null :=
  if either_null a llshift then Longlong_null_null
  else
    let shift := u32 (ln_value llshift) in
    let res := if shift <? 64 then u64 (ln_value a) .>> shift else 0 in
    Longlong_null_of (s64 res).
Definition ln_bit_count (a : Longlong_null) : Longlong_null :=
  if ln_is_null a then a else Longlong_null_of (s64 (my_count_bits (u64 (ln_value a)))).

(** * [Longlong_hybrid] *)

Record Longlong_hybrid := mkHybrid { m_value : Z; m_unsigned : bool }.

Definition cmp_signed (a other : Longlong_hybrid) : Z :=
  if m_value a <? m_value other then -1 else if m_value a =? m_value other then 0 else 1.
Definition cmp_unsigned (a other : Longlong_hybrid) : Z :=
  if u64 (m_value a) <? u64 (m_value other) then -1 else if m_value a =? m_value other then 0 else 1.
Definition is_unsigned_outside_of_signed_range (a : Longlong_hybrid) : bool :=
  m_unsigned a && (u64 LONGLONG_MAX <? u64 (m_value a)).
Definition neg (a : Longlong_hybrid) : bool := (m_value a <? 0) && negb (m_unsigned a).
Definition hybrid_abs (a : Longlong_hybrid) : Z :=
  if m_unsigned a then u64 (m_value a)
  else if m_value a =? LONGLONG_MIN then u64 (u64 LONGLONG_MAX + 1)
  else u64 (if m_value a <? 0 then - m_value a else m_value a).
Definition hybrid_to_ulonglong (a : Longlong_hybrid) (upper_bound : Z) : Z :=
  if neg a then 0 else if upper_bound <? u64 (m_value a) then upper_bound else u64 (m_value a).
Definition to_uint (a : Longlong_hybrid) (upper_bound : Z) : Z := u32 (hybrid_to_ulonglong a upper_bound).
Definition hybrid_cmp (a other : Longlong_hybrid) : Z :=
  if Bool.eqb (m_unsigned a) (m_unsigned other) then
    if m_unsigned a then cmp_unsigned a other else cmp_signed a other
  else if is_unsigned_outside_of_signed_range a then 1
  else if is_unsigned_outside_of_signed_range other then -1
  else cmp_signed a other.
Definition hybrid_eq (a nr : Longlong_hybrid) : bool := hybrid_cmp a nr =? 0.
Definition hybrid_eq_ulonglong (a : Longlong_hybrid) (nr : Z) : bool := hybrid_cmp a (mkHybrid (s64 nr) true) =? 0.
Definition hybrid_eq_uint (a : Longlong_hybrid) (nr : Z) : bool := hybrid_cmp a (mkHybrid nr true) =? 0.
Definition hybrid_eq_longlong (a : Longlong_hybrid) (nr : Z) : bool := hybrid_cmp a (mkHybrid nr false) =? 0.
Definition hybrid_eq_int (a : Longlong_hybrid) (nr : Z) : bool := hybrid_cmp a (mkHybrid nr false) =? 0.

Record Longlong_hybrid_null := mkHybridNull { hn_hybrid : Longlong_hybrid; hn_is_null : bool }.
Definition Longlong_hybrid_null_of (nr : Longlong_null) (unsigned_flag : bool) : Longlong_hybrid_null :=
  mkHybridNull (mkHybrid (ln_value nr) unsigned_flag) (ln_is_null nr).

(** * [Select_limit_counters] *)

Definition HA_POS_ERROR : Z := unot 64 0.

Record Select_limit_counters := mkLimit { select_limit_cnt : Z; offset_limit_cnt : Z; with_ties : bool }.

Definition limit_init : Select_limit_counters := mkLimit 0 0 false.
Definition limit_copy (orig : Select_limit_counters) : Select_limit_counters :=
  mkLimit (select_limit_cnt orig) (offset_limit_cnt orig) (with_ties orig).
Definition set_limit (limit offset : Z) (with_ties_arg : bool) : Select_limit_counters :=
  let offset := if limit =? 0 then 0 else offset in
  let select := limit in
  mkLimit (if select <=? u64 (select + offset) then u64 (select + offset) else HA_POS_ERROR) offset with_ties_arg.
Definition set_single_row : Select_limit_counters := mkLimit 1 0 false.
Definition is_unlimited (c : Select_limit_counters) : bool := select_limit_cnt c =? HA_POS_ERROR.
Definition set_unlimited (c : Select_limit_counters) : Select_limit_counters :=
  mkLimit HA_POS_ERROR (offset_limit_cnt c) (with_ties c).
Definition limit_clear : Select_limit_counters := mkLimit HA_POS_ERROR 0 false.
Definition check_offset (c : Select_limit_counters) (sent : Z) : bool := sent <? offset_limit_cnt c.
Definition remove_offset (c : Select_limit_counters) : Select_limit_counters :=
  mkLimit (select_limit_cnt c) 0 (with_ties c).
Definition get_select_limit (c : Select_limit_counters) : Z := select_limit_cnt c.
Definition get_offset_limit (c : Select_limit_counters) : Z := offset_limit_cnt c.
Definition is_with_ties (c : Select_limit_counters) : bool := with_ties c.

(** * Signed and unsigned values together *)

(** The number a hybrid stands for, and the type invariant. *)
Definition hybrid_value (a : Longlong_hybrid) : Z := if m_unsigned a then u64 (m_value a) else m_value a.
Definition hybrid_ok (a : Longlong_hybrid) : Prop := sfits 64 (m_value a).

(** The sign of a comparison. *)
Definition compare_int (c : comparison) : Z := match c with Lt => -1 | Eq => 0 | Gt => 1 end.

Lemma u64_signed v : sfits 64 v -> u64 v = if v <? 0 then v + 2 ^ 64 else v.
Proof.
  unfold sfits, uwrap. intros [H1 H2]. destruct (Z.ltb_spec v 0).
  - replace v with (v + 2 ^ 64 + -1 * 2 ^ 64) at 1 by lia. rewrite Z_mod_plus_full, Z.mod_small; lia.
  - apply Z.mod_small. lia.
Qed.

Lemma u64_LONGLONG_MAX : u64 LONGLONG_MAX = 2 ^ 63 - 1.
Proof. by vm_compute. Qed.

(** Expand the wrapped members of two hybrids and split on their signs. *)
Ltac hybrid_cases :=
  unfold hybrid_value, cmp_signed, cmp_unsigned, is_unsigned_outside_of_signed_range, neg in *; cbn [m_value m_unsigned] in *;
  rewrite ?u64_LONGLONG_MAX; rewrite ?u64_signed by assumption;
  unfold LONGLONG_MAX, LONGLONG_MIN, hybrid_ok, sfits in *; cbn [m_value m_unsigned] in *; cbn [andb negb];
  repeat match goal with
  | |- context [?a <? ?b] => destruct (Z.ltb_spec a b)
  | |- context [?a =? ?b] => destruct (Z.eqb_spec a b)
  end; cbn [andb orb negb]; try lia.

Lemma hybrid_cmp_compare a b : hybrid_ok a -> hybrid_ok b ->
  hybrid_cmp a b = compare_int (hybrid_value a ?= hybrid_value b).
Proof.
  destruct a as [x ux], b as [y uy]. unfold hybrid_ok. cbn [m_value]. intros Hx Hy.
  unfold hybrid_cmp. cbn [m_unsigned].
  destruct (Z.compare_spec (hybrid_value (mkHybrid x ux)) (hybrid_value (mkHybrid y uy))) as [E|E|E]; cbn [compare_int];
    destruct ux, uy; cbn [Bool.eqb]; revert E; hybrid_cases.
Qed.

Lemma hybrid_abs_val a : hybrid_ok a -> hybrid_abs a = Z.abs (hybrid_value a).
Proof.
  unfold hybrid_abs. destruct a as [x ux]. unfold hybrid_ok. cbn [m_value]. intros Ha.
  destruct ux; unfold hybrid_value; cbn [m_value m_unsigned].
  - rewrite Z.abs_eq; [done|]. apply uwrap_range. lia.
  - unfold LONGLONG_MIN, sfits in *. destruct (Z.eqb_spec x (-(2 ^ 63))) as [->|]; [by vm_compute|].
    destruct (Z.ltb_spec x 0); rewrite uwrap_small by (unfold ufits; lia); lia.
Qed.

(** [cmp] orders signed and unsigned 64-bit values by the numbers they stand
    for, whatever their types (-1, 0 or 1 as the mathematical comparison), so the
    equalities with [ulonglong], [uint], [longlong] and [int] arguments are
    equality of numbers; [abs] is the absolute value, without overflow at the
    least [longlong]; and [hybrid_to_ulonglong] clamps the number to 0 .. upper bound. *)
Theorem hybrid_arithmetic_exact a b n u :
  hybrid_ok a -> hybrid_ok b -> ufits 64 u ->
  hybrid_cmp a b = compare_int (hybrid_value a ?= hybrid_value b) /\
  hybrid_eq_ulonglong a u = (hybrid_value a =? u) /\
  (sfits 64 n -> hybrid_eq_longlong a n = (hybrid_value a =? n)) /\
  (sfits 32 n -> hybrid_eq_int a n = (hybrid_value a =? n)) /\
  (ufits 32 n -> hybrid_eq_uint a n = (hybrid_value a =? n)) /\
  hybrid_abs a = Z.abs (hybrid_value a) /\
  hybrid_to_ulonglong a u = Z.max 0 (Z.min (hybrid_value a) u) /\
  (ufits 32 n -> to_uint a n = Z.max 0 (Z.min (hybrid_value a) n)).
Proof.
  intros Ha Hb Hu.
  assert (forall c, hybrid_ok c -> (hybrid_cmp a c =? 0) = (hybrid_value a =? hybrid_value c)) as Heq.
  { intros c Hc. rewrite (hybrid_cmp_compare a c Ha Hc). destruct (Z.compare_spec (hybrid_value a) (hybrid_value c)) as [H|H|H]; cbn [compare_int];
      [by rewrite H, !Z.eqb_refl|..]; rewrite (proj2 (Z.eqb_neq (hybrid_value a) _)) by lia; done. }
  assert (forall v, ufits 64 v -> hybrid_to_ulonglong a v = Z.max 0 (Z.min (hybrid_value a) v)) as Hto.
  { intros v [Hv1 Hv2]. unfold hybrid_to_ulonglong. destruct a as [x ux]. unfold hybrid_ok in Ha. cbn [m_value] in Ha.
    destruct ux; hybrid_cases. }
  split; [by apply hybrid_cmp_compare|]. split; [|split; [|split; [|split; [|split; [|split]]]]].
  - unfold hybrid_eq_ulonglong. rewrite Heq by (unfold hybrid_ok; apply swrap_range; lia).
    unfold hybrid_value at 2. cbn [m_unsigned m_value]. rewrite uwrap_swrap, uwrap_small by (done || lia). done.
  - intros Hn. unfold hybrid_eq_longlong. by rewrite Heq.
  - intros Hn. unfold hybrid_eq_int. rewrite Heq; [done|]. unfold hybrid_ok, sfits in *. cbn [m_value]. lia.
  - intros Hn. unfold hybrid_eq_uint. rewrite Heq by (unfold hybrid_ok, sfits, ufits in *; cbn [m_value]; lia).
    unfold hybrid_value at 2. cbn [m_unsigned m_value]. rewrite uwrap_small by (unfold ufits in *; lia). done.
  - by apply hybrid_abs_val.
  - by apply Hto.
  - intros Hn. unfold to_uint. rewrite Hto by (unfold ufits in *; lia). apply uwrap_small. unfold ufits in *. lia.
Qed.

Lemma hybrid_arithmetic_exact_witness :
  let a := mkHybrid (-1) true in let b := mkHybrid (-1) false in
  hybrid_cmp a b = compare_int (hybrid_value a ?= hybrid_value b) /\
  hybrid_eq_ulonglong a 7 = (hybrid_value a =? 7) /\
  (sfits 64 7 -> hybrid_eq_longlong a 7 = (hybrid_value a =? 7)) /\
  (sfits 32 7 -> hybrid_eq_int a 7 = (hybrid_value a =? 7)) /\
  (ufits 32 7 -> hybrid_eq_uint a 7 = (hybrid_value a =? 7)) /\
  hybrid_abs a = Z.abs (hybrid_value a) /\
  hybrid_to_ulonglong a 7 = Z.max 0 (Z.min (hybrid_value a) 7) /\
  (ufits 32 7 -> to_uint a 7 = Z.max 0 (Z.min (hybrid_value a) 7)).
Proof. apply (hybrid_arithmetic_exact (mkHybrid (-1) true) (mkHybrid (-1) false) 7 7); done. Defined.

(** * Nullable values *)

Lemma not_not_64 v : sfits 64 v -> s64 (unot 64 (u64 (s64 (unot 64 (u64 v))))) = v.
Proof.
  intros Hv. rewrite uwrap_swrap by lia. rewrite (uwrap_small 64 (unot 64 _)) by (by apply unot_range).
  transitivity (s64 (u64 v)); [f_equal|rewrite swrap_uwrap; by apply swrap_small].
  apply Z.bits_inj'. intros i Hi. rewrite !unot_testbit, uwrap_testbit by lia.
  destruct (Z.ltb_spec i 64); destruct (Z.leb_spec 0 i); cbn [andb]; try lia; try done; by rewrite ?negb_involutive.
Qed.

(** The bit operators on nullable values are null exactly when an operand
    is; [~] is its own inverse; shifts act on the 64-bit pattern, and a shift
    count from 64 to [2 ^ 32 - 1] gives 0.  But the count is cut to 32 bits first:
    a count that is a multiple of [2 ^ 32] (beyond 64 though it is) does not
    shift at all. *)
Theorem nullable_bit_operators a s :
  sfits 64 (ln_value a) -> sfits 64 (ln_value s) ->
  (ln_is_null (ln_shl a s) = either_null a s /\ ln_is_null (ln_shr a s) = either_null a s /\
   ln_is_null (ln_or a s) = either_null a s /\ ln_is_null (ln_and a s) = either_null a s /\ ln_is_null (ln_xor a s) = either_null a s) /\
  ln_not (ln_not a) = a /\
  (either_null a s = false -> 64 <= ln_value s < 2 ^ 32 ->
     ln_shl a s = Longlong_null_of 0 /\ ln_shr a s = Longlong_null_of 0) /\
  (either_null a s = false -> 0 <= u32 (ln_value s) < 64 ->
     ln_shl a s = Longlong_null_of (s64 (ln_value a * 2 ^ u32 (ln_value s))) /\
     ln_shr a s = Longlong_null_of (s64 (u64 (ln_value a) / 2 ^ u32 (ln_value s)))) /\
  (forall k, either_null a s = false -> ln_value s = 2 ^ 32 * k -> ln_shl a s = a /\ ln_shr a s = a).
Proof.
  intros Ha Hs.
  assert (either_null a s = false -> 0 <= u32 (ln_value s) < 64 ->
     ln_shl a s = Longlong_null_of (s64 (ln_value a * 2 ^ u32 (ln_value s))) /\
     ln_shr a s = Longlong_null_of (s64 (u64 (ln_value a) / 2 ^ u32 (ln_value s)))) as Hshift.
  { intros Hn Hr. unfold ln_shl, ln_shr. rewrite Hn. rewrite (proj2 (Z.ltb_lt _ _)) by lia. split; f_equal.
    - rewrite Z.shiftl_mul_pow2 by lia. rewrite swrap_uwrap. rewrite <- (swrap_uwrap 64 (u64 _ * _)), <- (swrap_uwrap 64 (ln_value a * _)).
      f_equal. unfold uwrap. by rewrite Zmult_mod_idemp_l.
    - by rewrite Z.shiftr_div_pow2 by lia. }
  split; [|split; [|split; [|split]]].
  - unfold ln_shl, ln_shr, ln_or, ln_and, ln_xor. by destruct (either_null a s).
  - destruct a as [v n]. unfold ln_not. cbn [ln_is_null ln_value Longlong_null_of] in *. destruct n; [done|].
    unfold Longlong_null_of. cbn [ln_is_null ln_value]. f_equal. by apply not_not_64.
  - intros Hn Hr. unfold ln_shl, ln_shr. rewrite Hn, uwrap_small by (unfold ufits; lia).
    rewrite (proj2 (Z.ltb_ge _ _)) by lia. done.
  - done.
  - intros k Hn Hk. assert (u32 (ln_value s) = 0) as E by (rewrite Hk; unfold uwrap; rewrite Z.mul_comm; apply Z_mod_mult).
    destruct (Hshift Hn) as [-> ->]; [lia|]. rewrite E, Z.pow_0_r, Z.mul_1_r, Z.div_1_r, swrap_uwrap, swrap_small by (done || lia).
    apply orb_false_iff in Hn as [Hn _]. unfold Longlong_null_of. destruct a as [v n]. simpl in *. by subst.
Qed.

Lemma nullable_bit_operators_witness :
  let a := Longlong_null_of 5 in let s := Longlong_null_of (2 ^ 32) in
  (ln_is_null (ln_shl a s) = either_null a s /\ ln_is_null (ln_shr a s) = either_null a s /\
   ln_is_null (ln_or a s) = either_null a s /\ ln_is_null (ln_and a s) = either_null a s /\ ln_is_null (ln_xor a s) = either_null a s) /\
  ln_not (ln_not a) = a /\
  (either_null a s = false -> 64 <= ln_value s < 2 ^ 32 ->
     ln_shl a s = Longlong_null_of 0 /\ ln_shr a s = Longlong_null_of 0) /\
  (either_null a s = false -> 0 <= u32 (ln_value s) < 64 ->
     ln_shl a s = Longlong_null_of (s64 (ln_value a * 2 ^ u32 (ln_value s))) /\
     ln_shr a s = Longlong_null_of (s64 (u64 (ln_value a) / 2 ^ u32 (ln_value s)))) /\
  (forall k, either_null a s = false -> ln_value s = 2 ^ 32 * k -> ln_shl a s = a /\ ln_shr a s = a).
Proof. apply (nullable_bit_operators (Longlong_null_of 5) (Longlong_null_of (2 ^ 32))); done. Defined.

(** * Limits *)

(** What a loop that produces row after row sends: row [i] is skipped while the
    offset says so, and the loop ends at the limit. *)
Fixpoint rows_sent (c : Select_limit_counters) (n : nat) (i : Z) : list Z :=
  match n with
  | O => []
  | S n =>
      if i <? get_select_limit c then
        if check_offset c i then rows_sent c n (i + 1) else i :: rows_sent c n (i + 1)
      else []
  end.

(** The rows of a result of [n] rows that [LIMIT limit OFFSET offset] asks for. *)
Definition rows_wanted (limit offset : Z) (n : nat) : list Z :=
  List.filter (fun i => (offset <=? i) && (i <? offset + limit)) (map Z.of_nat (seq 0 n)).

Lemma rows_sent_spec c n i0 :
  rows_sent c n (Z.of_nat i0) =
  List.filter (fun i => (get_offset_limit c <=? i) && (i <? get_select_limit c)) (map Z.of_nat (seq i0 n)).
Proof.
  revert i0. induction n as [|n IH]; intros i0; [done|]. cbn [rows_sent seq map List.filter].
  replace (Z.of_nat i0 + 1) with (Z.of_nat (S i0)) by lia. unfold check_offset, get_offset_limit, get_select_limit in *.
  destruct (Z.ltb_spec (Z.of_nat i0) (select_limit_cnt c)) as [Hlt|Hge].
  - rewrite IH. destruct (Z.ltb_spec (Z.of_nat i0) (offset_limit_cnt c)), (Z.leb_spec (offset_limit_cnt c) (Z.of_nat i0)); try lia; done.
  - rewrite andb_false_r. symmetry.
    assert (forall m k, (i0 <= k)%nat -> List.filter (fun i => (offset_limit_cnt c <=? i) && (i <? select_limit_cnt c)) (map Z.of_nat (seq k m)) = []) as H.
    { induction m as [|m IHm]; intros k Hk; [done|]. cbn [seq map List.filter].
      rewrite (proj2 (Z.ltb_ge (Z.of_nat k) _)) by lia. rewrite andb_false_r. apply IHm. lia. }
    apply H. lia.
Qed.

(** The guard of [set_limit]: the wrapped sum is below the limit exactly on overflow. *)
Lemma sum_wraps limit offset : ufits 64 limit -> ufits 64 offset ->
  (limit + offset < 2 ^ 64 /\ (if limit <=? u64 (limit + offset) then u64 (limit + offset) else HA_POS_ERROR) = limit + offset) \/
  (2 ^ 64 <= limit + offset /\ (if limit <=? u64 (limit + offset) then u64 (limit + offset) else HA_POS_ERROR) = 2 ^ 64 - 1).
Proof.
  intros [Hl0 Hl] [Ho0 Ho]. destruct (Z.lt_ge_cases (limit + offset) (2 ^ 64)) as [H|H].
  - left. split; [done|]. rewrite uwrap_small by (unfold ufits; lia). by rewrite (proj2 (Z.leb_le _ _)) by lia.
  - right. split; [done|]. assert (u64 (limit + offset) = limit + offset - 2 ^ 64) as ->.
    { unfold uwrap. replace (limit + offset) with (limit + offset - 2 ^ 64 + 1 * 2 ^ 64) at 1 by lia.
      rewrite Z_mod_plus_full. apply Z.mod_small. lia. }
    by rewrite (proj2 (Z.leb_gt _ _)) by lia.
Qed.

(** For every limit and offset (64-bit numbers) and every result of fewer
    than [2 ^ 64 - 1] rows, a loop that sends rows by [get_select_limit] and
    [check_offset] after [set_limit] sends exactly the rows [offset] to
    [offset + limit - 1]: the guard against overflow of the sum loses nothing. *)
Theorem set_limit_sends_wanted limit offset ties n :
  ufits 64 limit -> ufits 64 offset -> Z.of_nat n < 2 ^ 64 - 1 ->
  rows_sent (set_limit limit offset ties) n 0 = rows_wanted limit offset n /\
  (is_unlimited (set_limit limit offset ties) = true -> 2 ^ 64 - 1 <= limit + offset).
Proof.
  intros [Hl0 Hl] [Ho0 Ho] Hn. change 0 with (Z.of_nat 0) at 1. rewrite rows_sent_spec. unfold rows_wanted.
  assert (HA : HA_POS_ERROR = 2 ^ 64 - 1) by by vm_compute.
  split.
  - apply List.filter_ext_in. intros i Hi. apply in_map_iff in Hi as (j & <- & Hj). apply in_seq in Hj.
    unfold get_offset_limit, get_select_limit, set_limit. cbn [select_limit_cnt offset_limit_cnt].
    destruct (Z.eqb_spec limit 0) as [->|Hnz].
    + rewrite uwrap_small by (unfold ufits; lia). change (0 <=? 0 + 0) with true. cbn iota.
      destruct (Z.ltb_spec (Z.of_nat j) (0 + 0)), (Z.leb_spec offset (Z.of_nat j)), (Z.ltb_spec (Z.of_nat j) (offset + 0)); try lia; by rewrite ?andb_false_r.
    + destruct (sum_wraps limit offset) as [[H ->]|[H ->]]; [split; lia|split; lia| |].
      * rewrite (Z.add_comm offset). done.
      * f_equal. destruct (Z.ltb_spec (Z.of_nat j) (2 ^ 64 - 1)), (Z.ltb_spec (Z.of_nat j) (offset + limit)); try lia; done.
  - unfold is_unlimited, set_limit. cbn [select_limit_cnt]. intros Hu%Z.eqb_eq.
    destruct (Z.eqb_spec limit 0) as [->|Hnz]; [rewrite uwrap_small in Hu by (unfold ufits; lia); simpl in Hu; lia|].
    destruct (sum_wraps limit offset) as [[H E]|[H E]]; [split; lia|split; lia|rewrite E in Hu; lia|lia].
Qed.

Lemma set_limit_sends_wanted_witness :
  rows_sent (set_limit (2 ^ 64 - 2) 3 false) 6 0 = rows_wanted (2 ^ 64 - 2) 3 6 /\
  (is_unlimited (set_limit (2 ^ 64 - 2) 3 false) = true -> 2 ^ 64 - 1 <= 2 ^ 64 - 2 + 3).
Proof. apply set_limit_sends_wanted; [done|done|simpl; lia]. Defined.
