(* ===== verification/SqlLifoBuffer.v ===== *)
(** The LIFO buffers of [private/sql_lifo_buffer.h]: a buffer that grows upwards
    ([Forward_lifo_buffer]), one that grows downwards ([Backward_lifo_buffer]),
    and the iterator over either.

    A pointer is an address, 0 when null.  The virtual methods are the fields of a
    record, [lifo_class], of which the two buffers are instances; what a buffer promises is stated by the class
    [LifoLaws], against which the theorem about clients is proved. *)

From S2P Require Import Prelude.

(** * [Lifo_buffer] *)

(** The members, [pos] being the one each derived class adds. *)
Record Lifo_buffer := mkLifo {
  size1 : Z; size2 : Z; write_ptr1 : Z; write_ptr2 : Z; read_ptr1 : Z; read_ptr2 : Z;
  buf_start : Z; buf_end : Z; pos : Z
}.

Inductive enum_direction := BACKWARD | FORWARD.

Definition set_pos (b : Lifo_buffer) (p : Z) : Lifo_buffer :=
  mkLifo (size1 b) (size2 b) (write_ptr1 b) (write_ptr2 b) (read_ptr1 b) (read_ptr2 b) (buf_start b) (buf_end b) p.
Definition set_read_ptrs (b : Lifo_buffer) (p1 p2 : Z) : Lifo_buffer :=
  mkLifo (size1 b) (size2 b) (write_ptr1 b) (write_ptr2 b) p1 p2 (buf_start b) (buf_end b) (pos b).
Definition set_space (b : Lifo_buffer) (s e : Z) : Lifo_buffer :=
  mkLifo (size1 b) (size2 b) (write_ptr1 b) (write_ptr2 b) (read_ptr1 b) (read_ptr2 b) s e (pos b).

(** The virtual methods; [None] is a failed assertion.  [vread_from] is the
    protected [read(position, ptr1, ptr2)]: [Some None] at the end of the data,
    otherwise the new position and the two pointers ([ptr2] only if it is set). *)
Record lifo_class := mkClass {
  vtype : enum_direction;
  used_size : Lifo_buffer -> Z;
  reset : Lifo_buffer -> Lifo_buffer;
  end_of_space : Lifo_buffer -> Z;
  have_space_for : Lifo_buffer -> Z -> bool;
  vwrite : memory -> Lifo_buffer -> option (memory * Lifo_buffer);
  vread_from : Lifo_buffer -> Z -> option (option (Z * Z * option Z));
  used_area : Lifo_buffer -> Z
}.

Section base.
Context (K : lifo_class).

Definition set_buffer_space (b : Lifo_buffer) (start_arg end_arg : Z) : Lifo_buffer := reset K (set_space b start_arg end_arg).
Definition setup_writing (b : Lifo_buffer) (len1 len2 : Z) : Lifo_buffer :=
  mkLifo len1 len2 (write_ptr1 b) (write_ptr2 b) (read_ptr1 b) (read_ptr2 b) (buf_start b) (buf_end b) (pos b).
(** Only checks that the sizes are those of [setup_writing]. *)
Definition setup_reading (b : Lifo_buffer) (len1 len2 : Z) : option Lifo_buffer :=
  if (len1 =? size1 b) && (len2 =? size2 b) then Some b else None.
Definition can_write (b : Lifo_buffer) : bool := have_space_for K b (size1 b + size2 b).
Definition lifo_is_empty (b : Lifo_buffer) : bool := used_size K b =? 0.
(** [my_qsort2(base, n, size)] is not part of the header. *)
Definition lifo_sort (my_qsort2 : memory -> Z -> Z -> Z -> memory) (m : memory) (b : Lifo_buffer) : option memory :=
  let elem_size := size1 b + size2 b in
  if elem_size =? 0 then None else Some (my_qsort2 m (used_area K b) (used_size K b / elem_size) elem_size).

(** [read()]: [true] at the end of the data. *)
Definition lifo_read (b : Lifo_buffer) : option (bool * Lifo_buffer) :=
  r ← vread_from K b (pos b);
  match r with
  | None => Some (true, b)
  | Some (p, ptr1, ptr2) => Some (false, set_pos (set_read_ptrs b ptr1 (default (read_ptr2 b) ptr2)) p)
  end.
End base.

(** * [Forward_lifo_buffer] *)

Module Forward.
Definition used_size (b : Lifo_buffer) : Z := pos b - buf_start b.
Definition reset (b : Lifo_buffer) : Lifo_buffer := set_pos b (buf_start b).
Definition end_of_space (b : Lifo_buffer) : Z := pos b.
Definition have_space_for (b : Lifo_buffer) (bytes : Z) : bool := pos b + bytes <? buf_end b.

Definition write_bytes (m : memory) (b : Lifo_buffer) (data bytes : Z) : option (memory * Lifo_buffer) :=
  if have_space_for b bytes
  then Some (store_bytes m (pos b) (load m data bytes), set_pos b (pos b + bytes)) else None.
Definition write (m : memory) (b : Lifo_buffer) : option (memory * Lifo_buffer) :=
  '(m, b) ← write_bytes m b (write_ptr1 b) (size1 b);
  if c_true (size2 b) then write_bytes m b (write_ptr2 b) (size2 b) else Some (m, b).

Definition have_data (b : Lifo_buffer) (position bytes : Z) : bool := bytes <=? position - buf_start b.
(** Returns the pointer to the data, which is also the new position. *)
Definition read_bytes (b : Lifo_buffer) (position bytes : Z) : option Z :=
  if have_data b position bytes then Some (position - bytes) else None.
Definition read_from (b : Lifo_buffer) (position : Z) : option (option (Z * Z * option Z)) :=
  if negb (have_data b position (size1 b + size2 b)) then Some None
  else
    '(position, ptr2) ← (if c_true (size2 b) then p ← read_bytes b position (size2 b); Some (p, Some p)
                         else Some (position, None));
    ptr1 ← read_bytes b position (size1 b);
    Some (Some (ptr1, ptr1, ptr2)).
Definition grow (b : Lifo_buffer) (unused_start unused_end : Z) : option Lifo_buffer :=
  if (unused_start <=? unused_end) && (buf_end b =? unused_start) then Some (set_space b (buf_start b) unused_end) else None.
Definition used_area (b : Lifo_buffer) : Z := buf_start b.
End Forward.

Definition Forward_lifo_buffer : lifo_class :=
  mkClass FORWARD Forward.used_size Forward.reset Forward.end_of_space Forward.have_space_for Forward.write Forward.read_from Forward.used_area.

(** * [Backward_lifo_buffer] *)

Module Backward.
Definition used_size (b : Lifo_buffer) : Z := buf_end b - pos b.
Definition reset (b : Lifo_buffer) : Lifo_buffer := set_pos b (buf_end b).
Definition end_of_space (b : Lifo_buffer) : Z := buf_end b.
Definition have_space_for (b : Lifo_buffer) (bytes : Z) : bool := buf_start b <=? pos b - bytes.

Definition write_bytes (m : memory) (b : Lifo_buffer) (data bytes : Z) : option (memory * Lifo_buffer) :=
  if have_space_for b bytes
  then Some (store_bytes m (pos b - bytes) (load m data bytes), set_pos b (pos b - bytes)) else None.
(** The second part is written when there is a pointer to it. *)
Definition write (m : memory) (b : Lifo_buffer) : option (memory * Lifo_buffer) :=
  '(m, b) ← (if c_true (write_ptr2 b) then write_bytes m b (write_ptr2 b) (size2 b) else Some (m, b));
  write_bytes m b (write_ptr1 b) (size1 b).

Definition have_data (b : Lifo_buffer) (position bytes : Z) : bool := bytes <=? buf_end b - position.
(** Returns the pointer to the data and the new position. *)
Definition read_bytes (b : Lifo_buffer) (position bytes : Z) : option (Z * Z) :=
  if have_data b position bytes then Some (position, position + bytes) else None.
Definition read_from (b : Lifo_buffer) (position : Z) : option (option (Z * Z * option Z)) :=
  if negb (have_data b position (size1 b + size2 b)) then Some None
  else
    '(ptr1, position) ← read_bytes b position (size1 b);
    '(position, ptr2) ← (if c_true (size2 b) then '(p, position) ← read_bytes b position (size2 b); Some (position, Some p)
                         else Some (position, None));
    Some (Some (position, ptr1, ptr2)).
(** Returns the start and the end of the space given up. *)
Definition remove_unused_space (b : Lifo_buffer) : Z * Z * Lifo_buffer :=
  (buf_start b, pos b, set_space b (pos b) (buf_end b)).
Definition used_area (b : Lifo_buffer) : Z := pos b.
End Backward.

Definition Backward_lifo_buffer : lifo_class :=
  mkClass BACKWARD Backward.used_size Backward.reset Backward.end_of_space Backward.have_space_for Backward.write Backward.read_from Backward.used_area.

(** * [Lifo_buffer_iterator] *)

Record Lifo_buffer_iterator := mkLIter { li_pos : Z; li_read_ptr1 : Z; li_read_ptr2 : Z }.

Definition li_init (b : Lifo_buffer) : Lifo_buffer_iterator := mkLIter (pos b) 0 0.
Definition li_read (K : lifo_class) (b : Lifo_buffer) (it : Lifo_buffer_iterator) : option (bool * Lifo_buffer_iterator) :=
  r ← vread_from K b (li_pos it);
  match r with
  | None => Some (true, it)
  | Some (p, ptr1, ptr2) => Some (false, mkLIter p ptr1 (default (li_read_ptr2 it) ptr2))
  end.

(** * The contract of a buffer *)

(** An element: the bytes of its two parts. *)
Definition lifo_elem : Type := list byte * list byte.
Definition elem_ok (b : Lifo_buffer) (e : lifo_elem) : Prop :=
  Z.of_nat (length e.1) = size1 b /\ Z.of_nat (length e.2) = size2 b.
Definition elem_size (b : Lifo_buffer) : Z := size1 b + size2 b.
Definition sizes_ok (b : Lifo_buffer) : Prop := 0 < size1 b /\ 0 <= size2 b.

(** The pair of pointers read gives the element [e]. *)
Definition points_to (m : memory) (b : Lifo_buffer) (p1 : Z) (p2 : option Z) (e : lifo_elem) : Prop :=
  load m p1 (size1 b) = e.1 /\ match p2 with Some p => load m p (size2 b) = e.2 | None => size2 b = 0 /\ e.2 = [] end.

(** [n] bytes from [p] lie outside the buffer. *)
Definition outside (b : Lifo_buffer) (p n : Z) : Prop := p + n <= buf_start b \/ buf_end b <= p.

(** The source of the next write: the element [e], outside the buffer. *)
Definition source_ok (m : memory) (b : Lifo_buffer) (e : lifo_elem) : Prop :=
  elem_ok b e /\ load m (write_ptr1 b) (size1 b) = e.1 /\ load m (write_ptr2 b) (size2 b) = e.2 /\
  outside b (write_ptr1 b) (size1 b) /\ outside b (write_ptr2 b) (size2 b) /\ write_ptr2 b <> 0.

(** What stays fixed between operations. *)
Definition same_config (b b' : Lifo_buffer) : Prop :=
  size1 b' = size1 b /\ size2 b' = size2 b /\ write_ptr1 b' = write_ptr1 b /\ write_ptr2 b' = write_ptr2 b /\
  buf_start b' = buf_start b /\ buf_end b' = buf_end b.

(** Against this contract: [lifo_at m b p s] says that reading from position [p]
    gives the elements [s], one after the other, and [lifo_slack] how many bytes
    of the space cannot be used. *)
Class LifoLaws (K : lifo_class) := {
  lifo_at : memory -> Lifo_buffer -> Z -> list lifo_elem -> Prop;
  lifo_slack : Z;
  lifo_slack_nonneg : 0 <= lifo_slack;
  lifo_at_read m b p s : sizes_ok b -> lifo_at m b p s ->
    match s with
    | [] => vread_from K b p = Some None
    | e :: r => exists p' p1 p2, vread_from K b p = Some (Some (p', p1, p2)) /\ points_to m b p1 p2 e /\ lifo_at m b p' r
    end;
  lifo_at_config m b b' p s : same_config b b' -> lifo_at m b p s -> lifo_at m b' p s;
  lifo_at_used m b s : sizes_ok b -> lifo_at m b (pos b) s -> used_size K b = Z.of_nat (length s) * elem_size b;
  lifo_at_frame m m' b s : sizes_ok b -> lifo_at m b (pos b) s -> used_size K b <= buf_end b - buf_start b ->
    (forall a, buf_start b <= a < buf_end b -> m' a = m a) -> lifo_at m' b (pos b) s;
  lifo_reset m b : lifo_at m (reset K b) (pos (reset K b)) [] /\ same_config b (reset K b);
  lifo_room b : can_write K b = (used_size K b + elem_size b + lifo_slack <=? buf_end b - buf_start b);
  lifo_write m b s e : sizes_ok b -> lifo_at m b (pos b) s -> source_ok m b e -> can_write K b = true ->
    exists m' b', vwrite K m b = Some (m', b') /\ lifo_at m' b' (pos b') (e :: s) /\ same_config b b' /\
      (forall a, ~ (buf_start b <= a < buf_end b) -> m' a = m a)
}.

Lemma same_config_refl b : same_config b b.
Proof. done. Qed.

Lemma same_config_sizes b b' : same_config b b' -> sizes_ok b -> sizes_ok b'.
Proof. intros (E1 & E2 & _) H. unfold sizes_ok in *. by rewrite E1, E2. Qed.

(** ** The forward buffer meets it *)

(** Reading goes down from [p]: first part 2, then part 1 below it. *)
Fixpoint forward_at (m : memory) (b : Lifo_buffer) (p : Z) (s : list lifo_elem) : Prop :=
  match s with
  | [] => p = buf_start b
  | e :: r => load m (p - size2 b) (size2 b) = e.2 /\ load m (p - size2 b - size1 b) (size1 b) = e.1 /\
              forward_at m b (p - size2 b - size1 b) r
  end.

Lemma forward_at_used m b p s : forward_at m b p s -> p - buf_start b = Z.of_nat (length s) * elem_size b.
Proof.
  revert p. induction s as [|e s IH]; intros p; cbn [forward_at length]; [intros ->; lia|].
  intros (_ & _ & H). apply IH in H. unfold elem_size in *. lia.
Qed.

Lemma forward_at_ext m b b' p s : size1 b' = size1 b -> size2 b' = size2 b -> buf_start b' = buf_start b ->
  forward_at m b p s -> forward_at m b' p s.
Proof.
  intros E1 E2 E3. revert p. induction s as [|e s IH]; intros p; cbn [forward_at]; rewrite ?E1, ?E2, ?E3; [done|].
  intros (H2 & H1 & H). auto.
Qed.

Lemma forward_at_config m b b' p s : same_config b b' -> forward_at m b p s -> forward_at m b' p s.
Proof. intros (E1 & E2 & _ & _ & E5 & E6). by apply forward_at_ext. Qed.

Lemma forward_at_frame m m' b p s : sizes_ok b -> forward_at m b p s ->
  (forall a, buf_start b <= a < p -> m' a = m a) -> forward_at m' b p s.
Proof.
  intros Hs. revert p. induction s as [|e s IH]; intros p; cbn [forward_at]; [done|].
  intros (H2 & H1 & H) E. pose proof (forward_at_used _ _ _ _ H). destruct Hs as [Hs1 Hs2]. unfold elem_size in *.
  split; [|split; [|apply IH; [done|intros; apply E; lia]]].
  - rewrite <- H2. apply load_ext. intros; apply E. nia.
  - rewrite <- H1. apply load_ext. intros; apply E. nia.
Qed.

#[export] Program Instance Forward_laws : LifoLaws Forward_lifo_buffer := {| lifo_at := forward_at; lifo_slack := 1 |}.
Next Obligation. done. Qed.
Next Obligation.
  intros m b p s [Hs1 Hs2] H. cbn [vread_from Forward_lifo_buffer]. unfold Forward.read_from, Forward.read_bytes, Forward.have_data.
  pose proof (forward_at_used _ _ _ _ H) as Hu. unfold elem_size in *. destruct s as [|e s]; cbn [forward_at length] in *.
  - rewrite (proj2 (Z.leb_gt _ _)) by lia. done.
  - destruct H as (H2 & H1 & H). pose proof (forward_at_used _ _ _ _ H) as Hu'. unfold elem_size in *.
    rewrite (proj2 (Z.leb_le _ _)) by nia. cbn [negb]. destruct (c_true (size2 b)) eqn:Ec.
    + rewrite (proj2 (Z.leb_le _ _)) by nia. cbn [mbind option_bind]. rewrite (proj2 (Z.leb_le _ _)) by nia.
      cbn [mbind option_bind]. eexists _, _, _. split; [done|]. done.
    + apply c_true_false in Ec. rewrite Ec, Z.sub_0_r in *. cbn [mbind option_bind].
      rewrite (proj2 (Z.leb_le _ _)) by nia. cbn [mbind option_bind]. eexists _, _, _. split; [done|]. split; [|done].
      by split; [|rewrite <- H2].
Qed.
Next Obligation. intros m b b' p s. apply forward_at_config. Qed.
Next Obligation. intros m b s _ H. apply (forward_at_used _ _ _ _ H). Qed.
Next Obligation.
  intros m m' b s Hs H Hu E. apply forward_at_frame with m; [done..|]. intros a Ha. apply E. cbn in Hu. unfold Forward.used_size in Hu. lia.
Qed.
Next Obligation. done. Qed.
Next Obligation.
  intros b. unfold can_write, elem_size. cbn. unfold Forward.have_space_for, Forward.used_size.
  destruct (Z.ltb_spec (pos b + (size1 b + size2 b)) (buf_end b)), (Z.leb_spec (pos b - buf_start b + (size1 b + size2 b) + 1) (buf_end b - buf_start b)); lia.
Qed.
Next Obligation.
  intros m b s e [Hs1 Hs2] H ((Hl1 & Hl2) & E1 & E2 & O1 & O2 & _) Hcan.
  pose proof (forward_at_used _ _ _ _ H) as Hu. unfold elem_size in Hu.
  unfold can_write in Hcan. cbn in Hcan. unfold Forward.have_space_for in Hcan. apply Z.ltb_lt in Hcan.
  cbn [vwrite Forward_lifo_buffer]. unfold Forward.write, Forward.write_bytes, Forward.have_space_for.
  rewrite (proj2 (Z.ltb_lt _ _)) by lia. cbn [mbind option_bind]. cbn [set_pos size1 size2 write_ptr1 write_ptr2 pos buf_start buf_end].
  rewrite E1. set (m1 := store_bytes m (pos b) e.1).
  assert (forall a, ~ (pos b <= a < pos b + size1 b) -> m1 a = m a) as Hm1.
  { intros a Ha. apply store_bytes_outside. lia. }
  assert (load m1 (pos b) (size1 b) = e.1) as L1 by (by apply load_store).
  assert (load m1 (write_ptr2 b) (size2 b) = e.2) as E2'.
  { rewrite <- E2. apply load_ext. intros a Ha. apply Hm1. unfold outside in O2. nia. }
  destruct (c_true (size2 b)) eqn:Ec.
  - rewrite (proj2 (Z.ltb_lt _ _)) by lia. rewrite E2'. eexists _, _. split; [done|].
    set (m2 := store_bytes m1 (pos b + size1 b) e.2).
    assert (forall a, ~ (pos b + size1 b <= a < pos b + size1 b + size2 b) -> m2 a = m1 a) as Hm2.
    { intros a Ha. apply store_bytes_outside. lia. }
    split; [|split; [done|]].
    + cbn [lifo_at forward_at set_pos pos size1 size2 buf_start].
      replace (pos b + size1 b + size2 b - size2 b) with (pos b + size1 b) by lia.
      replace (pos b + size1 b - size1 b) with (pos b) by lia. split; [by apply load_store|]. split.
      * rewrite <- L1. apply load_ext. intros a Ha. apply Hm2. lia.
      * apply forward_at_config with b; [done|]. apply forward_at_frame with m; [done..|]. intros a Ha. rewrite Hm2, Hm1 by nia. done.
    + intros a Ha. rewrite Hm2, Hm1 by nia. done.
  - apply c_true_false in Ec. assert (e.2 = []) as Ee by (apply nil_length_inv; lia).
    eexists _, _. split; [done|]. split; [|split; [done|]].
    + cbn [lifo_at forward_at set_pos pos size1 size2 buf_start]. rewrite Ec.
      replace (pos b + size1 b - 0) with (pos b + size1 b) by lia. replace (pos b + size1 b - size1 b) with (pos b) by lia.
      rewrite Ee. split; [apply load_0|]. split; [done|].
      apply forward_at_config with b; [done|]. apply forward_at_frame with m; [done..|]. intros a Ha. apply Hm1. lia.
    + intros a Ha. apply Hm1. nia.
Qed.

(** ** The backward buffer meets it *)

(** Reading goes up from [p]: first part 1, then part 2 above it. *)
Fixpoint backward_at (m : memory) (b : Lifo_buffer) (p : Z) (s : list lifo_elem) : Prop :=
  match s with
  | [] => p = buf_end b
  | e :: r => load m p (size1 b) = e.1 /\ load m (p + size1 b) (size2 b) = e.2 /\
              backward_at m b (p + size1 b + size2 b) r
  end.

Lemma backward_at_used m b p s : backward_at m b p s -> buf_end b - p = Z.of_nat (length s) * elem_size b.
Proof.
  revert p. induction s as [|e s IH]; intros p; cbn [backward_at length]; [intros ->; lia|].
  intros (_ & _ & H). apply IH in H. unfold elem_size in *. lia.
Qed.

Lemma backward_at_ext m b b' p s : size1 b' = size1 b -> size2 b' = size2 b -> buf_end b' = buf_end b ->
  backward_at m b p s -> backward_at m b' p s.
Proof.
  intros E1 E2 E3. revert p. induction s as [|e s IH]; intros p; cbn [backward_at]; rewrite ?E1, ?E2, ?E3; [done|].
  intros (H2 & H1 & H). auto.
Qed.

Lemma backward_at_config m b b' p s : same_config b b' -> backward_at m b p s -> backward_at m b' p s.
Proof. intros (E1 & E2 & _ & _ & E5 & E6). by apply backward_at_ext. Qed.

Lemma backward_at_frame m m' b p s : sizes_ok b -> backward_at m b p s ->
  (forall a, p <= a < buf_end b -> m' a = m a) -> backward_at m' b p s.
Proof.
  intros Hs. revert p. induction s as [|e s IH]; intros p; cbn [backward_at]; [done|].
  intros (H1 & H2 & H) E. pose proof (backward_at_used _ _ _ _ H). destruct Hs as [Hs1 Hs2]. unfold elem_size in *.
  split; [|split; [|apply IH; [done|intros; apply E; lia]]].
  - rewrite <- H1. apply load_ext. intros; apply E. nia.
  - rewrite <- H2. apply load_ext. intros; apply E. nia.
Qed.

#[export] Program Instance Backward_laws : LifoLaws Backward_lifo_buffer := {| lifo_at := backward_at; lifo_slack := 0 |}.
Next Obligation. done. Qed.
Next Obligation.
  intros m b p s [Hs1 Hs2] H. cbn [vread_from Backward_lifo_buffer]. unfold Backward.read_from, Backward.read_bytes, Backward.have_data.
  pose proof (backward_at_used _ _ _ _ H) as Hu. unfold elem_size in *. destruct s as [|e s]; cbn [backward_at length] in *.
  - rewrite (proj2 (Z.leb_gt _ _)) by lia. done.
  - destruct H as (H1 & H2 & H). pose proof (backward_at_used _ _ _ _ H) as Hu'. unfold elem_size in *.
    rewrite (proj2 (Z.leb_le _ _)) by nia. cbn [negb]. rewrite (proj2 (Z.leb_le _ _)) by nia. cbn [mbind option_bind].
    destruct (c_true (size2 b)) eqn:Ec.
    + rewrite (proj2 (Z.leb_le _ _)) by nia. cbn [mbind option_bind]. eexists _, _, _. split; [done|]. done.
    + apply c_true_false in Ec. rewrite Ec in *. cbn [mbind option_bind]. eexists _, _, _. split; [done|].
      split; [split; [done|split; [done|by rewrite <- H2]]|]. by rewrite Z.add_0_r in H.
Qed.
Next Obligation. intros m b b' p s. apply backward_at_config. Qed.
Next Obligation. intros m b s _ H. apply (backward_at_used _ _ _ _ H). Qed.
Next Obligation.
  intros m m' b s Hs H Hu E. apply backward_at_frame with m; [done..|]. intros a Ha. apply E. cbn in Hu. unfold Backward.used_size in Hu. lia.
Qed.
Next Obligation. done. Qed.
Next Obligation.
  intros b. unfold can_write, elem_size. cbn. unfold Backward.have_space_for, Backward.used_size.
  destruct (Z.leb_spec (buf_start b) (pos b - (size1 b + size2 b))), (Z.leb_spec (buf_end b - pos b + (size1 b + size2 b) + 0) (buf_end b - buf_start b)); lia.
Qed.
Next Obligation.
  intros m b s e [Hs1 Hs2] H ((Hl1 & Hl2) & E1 & E2 & O1 & O2 & Hp2) Hcan.
  pose proof (backward_at_used _ _ _ _ H) as Hu. unfold elem_size in Hu.
  unfold can_write in Hcan. cbn in Hcan. unfold Backward.have_space_for in Hcan. apply Z.leb_le in Hcan.
  cbn [vwrite Backward_lifo_buffer]. unfold Backward.write, Backward.write_bytes, Backward.have_space_for.
  rewrite (proj2 (c_true_spec _) Hp2). rewrite (proj2 (Z.leb_le _ _)) by lia. cbn [mbind option_bind].
  cbn [set_pos size1 size2 write_ptr1 write_ptr2 pos buf_start buf_end]. rewrite (proj2 (Z.leb_le _ _)) by lia.
  rewrite E2. set (m1 := store_bytes m (pos b - size2 b) e.2).
  assert (forall a, ~ (pos b - size2 b <= a < pos b) -> m1 a = m a) as Hm1.
  { intros a Ha. apply store_bytes_outside. lia. }
  assert (load m1 (write_ptr1 b) (size1 b) = e.1) as ->.
  { rewrite <- E1. apply load_ext. intros a Ha. apply Hm1. unfold outside in O1. nia. }
  set (m2 := store_bytes m1 _ e.1).
  assert (forall a, ~ (pos b - size2 b - size1 b <= a < pos b - size2 b) -> m2 a = m1 a) as Hm2.
  { intros a Ha. apply store_bytes_outside. lia. }
  eexists _, _. split; [done|]. split; [|split; [done|]].
  - cbn [lifo_at backward_at set_pos pos size1 size2 buf_end]. split; [by apply load_store|].
    replace (pos b - size2 b - size1 b + size1 b) with (pos b - size2 b) by lia.
    replace (pos b - size2 b + size2 b) with (pos b) by lia. split.
    + transitivity (load m1 (pos b - size2 b) (size2 b)); [apply load_ext; intros a Ha; apply Hm2; lia|by apply load_store].
    + apply backward_at_config with b; [done|]. apply backward_at_frame with m; [done..|].
      intros a Ha. rewrite Hm2, Hm1 by lia. done.
  - intros a Ha. rewrite Hm2, Hm1 by nia. done.
Qed.

(** * Clients of a buffer *)

Section client.
Context (K : lifo_class) `{!LifoLaws K}.

(** A client puts an element where [write_ptr1] and [write_ptr2] point and
    writes it if there is room, or reads an element through the pointers the
    buffer returns, or resets the buffer. *)
Inductive lifo_op := LWrite (e : lifo_elem) | LRead | LReset.
Inductive lifo_out := OWritten | OFull | OElem (e : lifo_elem) | OEof | OReset.

Definition run_lifo_op (op : lifo_op) (m : memory) (b : Lifo_buffer) : option (lifo_out * memory * Lifo_buffer) :=
  match op with
  | LWrite e =>
      let m := store_bytes (store_bytes m (write_ptr1 b) e.1) (write_ptr2 b) e.2 in
      if can_write K b then '(m, b) ← vwrite K m b; Some (OWritten, m, b) else Some (OFull, m, b)
  | LRead =>
      '(eof, b) ← lifo_read K b;
      Some (if (eof : bool) then OEof
            else OElem (load m (read_ptr1 b) (size1 b), if c_true (size2 b) then load m (read_ptr2 b) (size2 b) else []), m, b)
  | LReset => Some (OReset, m, reset K b)
  end.
Fixpoint run_lifo (ops : list lifo_op) (m : memory) (b : Lifo_buffer) : option (list lifo_out * memory * Lifo_buffer) :=
  match ops with
  | [] => Some ([], m, b)
  | op :: ops =>
      '(o, m, b) ← run_lifo_op op m b;
      '(os, m, b) ← run_lifo ops m b;
      Some (o :: os, m, b)
  end.

(** The same with a stack that holds as many elements as fit the space. *)
Definition stack_op (space size slack : Z) (op : lifo_op) (s : list lifo_elem) : lifo_out * list lifo_elem :=
  match op with
  | LWrite e => if Z.of_nat (S (length s)) * size + slack <=? space then (OWritten, e :: s) else (OFull, s)
  | LRead => match s with [] => (OEof, []) | e :: r => (OElem e, r) end
  | LReset => (OReset, [])
  end.
Fixpoint stack_ops (space size slack : Z) (ops : list lifo_op) (s : list lifo_elem) : list lifo_out * list lifo_elem :=
  match ops with
  | [] => ([], s)
  | op :: ops =>
      let '(o, s) := stack_op space size slack op s in
      let '(os, s) := stack_ops space size slack ops s in (o :: os, s)
  end.

(** The areas elements are written from: outside the buffer and apart. *)
Definition client_ok (b : Lifo_buffer) : Prop :=
  sizes_ok b /\ outside b (write_ptr1 b) (size1 b) /\ outside b (write_ptr2 b) (size2 b) /\ write_ptr2 b <> 0 /\
  (write_ptr1 b + size1 b <= write_ptr2 b \/ write_ptr2 b + size2 b <= write_ptr1 b) /\ buf_start b <= buf_end b.

(** The buffer holds the stack [s]. *)
Definition lifo_rep (m : memory) (b : Lifo_buffer) (s : list lifo_elem) : Prop :=
  lifo_at m b (pos b) s /\ Z.of_nat (length s) * elem_size b <= buf_end b - buf_start b.

Lemma client_ok_config b b' : same_config b b' -> client_ok b -> client_ok b'.
Proof.
  intros (E1 & E2 & E3 & E4 & E5 & E6). unfold client_ok, sizes_ok, outside. by rewrite E1, E2, E3, E4, E5, E6.
Qed.

Lemma elem_size_config b b' : same_config b b' -> elem_size b' = elem_size b.
Proof. intros (E1 & E2 & _). unfold elem_size. by rewrite E1, E2. Qed.

(** Putting an element in place does not touch the buffer. *)
Lemma put_source m b s e :
  client_ok b -> lifo_rep m b s -> elem_ok b e ->
  let m' := store_bytes (store_bytes m (write_ptr1 b) e.1) (write_ptr2 b) e.2 in
  lifo_rep m' b s /\ source_ok m' b e.
Proof.
  intros ((Hs1 & Hs2) & O1 & O2 & Hp & Hd & Hse) [Hat Hfit] (Hl1 & Hl2). cbn zeta. set (m1 := store_bytes m _ _). set (m2 := store_bytes m1 _ _).
  assert (forall a, buf_start b <= a < buf_end b -> m2 a = m a) as Hm.
  { intros a Ha. unfold m2, m1. rewrite !store_bytes_outside by (unfold outside in *; lia). done. }
  split; [split; [|done]|].
  - apply lifo_at_frame with m; [done|done| |done]. by rewrite (lifo_at_used m b s).
  - split; [done|]. split; [|split; [by apply load_store|done]].
    transitivity (load m1 (write_ptr1 b) (size1 b)); [|by apply load_store].
    apply load_ext. intros a Ha. apply store_bytes_outside. lia.
Qed.

Definition op_ok (b : Lifo_buffer) (op : lifo_op) : Prop := match op with LWrite e => elem_ok b e | _ => True end.

Lemma run_lifo_op_stack op m b s :
  client_ok b -> lifo_rep m b s -> op_ok b op ->
  exists o m' b' s', run_lifo_op op m b = Some (o, m', b') /\
    stack_op (buf_end b - buf_start b) (elem_size b) lifo_slack op s = (o, s') /\ lifo_rep m' b' s' /\ same_config b b'.
Proof.
  intros Hc Hrep Hop. pose proof Hc as (Hs & _). destruct op as [e| |]; cbn [run_lifo_op stack_op].
  - destruct (put_source m b s e Hc Hrep Hop) as [[Hat Hfit] Hsrc]. cbn zeta in *.
    set (m1 := store_bytes (store_bytes m _ _) _ _) in *.
    assert (can_write K b = (Z.of_nat (S (length s)) * elem_size b + lifo_slack <=? buf_end b - buf_start b)) as Ecan.
    { rewrite lifo_room, (lifo_at_used m1 b s) by done. f_equal. lia. }
    rewrite <- Ecan. destruct (can_write K b) eqn:Ew.
    + destruct (lifo_write m1 b s e Hs Hat Hsrc Ew) as (m' & b' & -> & Hat' & Hcfg & _). cbn [mbind option_bind].
      eexists _, _, _, _. split; [done|]. split; [done|]. split; [|done]. split; [done|].
      symmetry in Ecan. apply Z.leb_le in Ecan. pose proof lifo_slack_nonneg. pose proof (elem_size_config _ _ Hcfg) as ->.
      destruct Hcfg as (_ & _ & _ & _ & -> & ->). cbn [length]. lia.
    + eexists _, _, _, _. split; [done|]. split; [done|]. by split.
  - destruct Hrep as [Hat Hfit]. pose proof (lifo_at_read m b (pos b) s Hs Hat) as H. unfold lifo_read. destruct s as [|e s].
    + rewrite H. cbn [mbind option_bind]. eexists _, _, _, _. split; [done|]. done.
    + destruct H as (p' & p1 & p2 & -> & (P1 & P2) & Hat'). cbn [mbind option_bind].
      set (b' := set_pos _ _). assert (same_config b b') as Hcfg by done. eexists _, _, b', s. split; [done|]. split; [|split; [|done]].
      * do 2 f_equal. unfold b'. cbn [set_pos set_read_ptrs size1 size2 read_ptr1 read_ptr2].
        destruct e as [e1 e2]. cbn [fst snd] in *. rewrite P1. f_equal. destruct p2 as [p2|]; cbn [default].
        -- destruct (c_true (size2 b)) eqn:Ec; [done|]. apply c_true_false in Ec. rewrite Ec in P2. by rewrite load_0 in P2.
        -- destruct P2 as [-> ->]. done.
      * split; [by apply lifo_at_config with b|]. unfold elem_size in *. cbn [length] in Hfit. destruct Hs. cbn. nia.
  - destruct (lifo_reset m b) as [Hat Hcfg]. eexists _, _, _, _. split; [done|]. split; [done|]. split; [|done].
    split; [done|]. destruct Hcfg as (_ & _ & _ & _ & -> & ->). destruct Hc as (_ & _ & _ & _ & _ & Hse). cbn [length]. lia.
Qed.

Lemma run_lifo_stack ops m b s :
  client_ok b -> lifo_rep m b s -> Forall (op_ok b) ops ->
  exists os m' b' s', run_lifo ops m b = Some (os, m', b') /\
    stack_ops (buf_end b - buf_start b) (elem_size b) lifo_slack ops s = (os, s') /\ lifo_rep m' b' s'.
Proof.
  revert m b s. induction ops as [|op ops IH]; intros m b s Hc Hrep Hops; cbn [run_lifo stack_ops].
  - eexists _, _, _, _. done.
  - apply Forall_cons in Hops as [Hop Hops].
    destruct (run_lifo_op_stack op m b s Hc Hrep Hop) as (o & m1 & b1 & s1 & -> & -> & Hrep1 & Hcfg). cbn [mbind option_bind].
    destruct (IH m1 b1 s1) as (os & m2 & b2 & s2 & -> & E & Hrep2); [by apply client_ok_config with b|done| |].
    { apply Forall_impl with (op_ok b); [done|]. intros [e| |]; try done. unfold op_ok, elem_ok. by destruct Hcfg as (-> & -> & _). }
    cbn [mbind option_bind]. pose proof (elem_size_config _ _ Hcfg) as Ez. destruct Hcfg as (_ & _ & _ & _ & E5 & E6).
    rewrite Ez, E5, E6 in E. rewrite E. eexists _, _, _, _. done.
Qed.
End client.

(** * Theorems *)

Definition class_of (d : enum_direction) : lifo_class :=
  match d with FORWARD => Forward_lifo_buffer | BACKWARD => Backward_lifo_buffer end.
(** The forward buffer never fills its last byte. *)
Definition slack_of (d : enum_direction) : Z := match d with FORWARD => 1 | BACKWARD => 0 end.

Lemma set_buffer_space_config K `{!LifoLaws K} b st en :
  same_config (set_space b st en) (set_buffer_space K b st en).
Proof. exact (proj2 (lifo_reset (fun _ => Byte.x00) (set_space b st en))). Qed.

(** Refinement: given any space, and source areas outside it, any sequence
    of writes (each guarded by [can_write]), reads and resets on either buffer
    behaves as a last-in-first-out stack: a read returns the bytes of both parts
    of the element written last and not yet read, or the end of the data when
    there is none; no assertion fails; and a write is refused exactly when the
    element does not fit the space ([Backward_lifo_buffer]), or would leave no
    byte unused ([Forward_lifo_buffer]). *)
Theorem lifo_buffers_are_stacks d ops m b st en :
  client_ok (set_space b st en) -> Forall (op_ok b) ops ->
  exists m' b',
    run_lifo (class_of d) ops m (set_buffer_space (class_of d) b st en) =
      Some ((stack_ops (en - st) (size1 b + size2 b) (slack_of d) ops []).1, m', b').
Proof.
  intros Hc Hops.
  assert (forall K (L : LifoLaws K), exists m' b', run_lifo K ops m (set_buffer_space K b st en) =
    Some ((stack_ops (en - st) (size1 b + size2 b) lifo_slack ops []).1, m', b')) as H.
  { intros K L. pose proof (set_buffer_space_config K b st en) as Hcfg.
    destruct (run_lifo_stack K ops m (set_buffer_space K b st en) []) as (os & m' & b' & s' & E & Es & _).
    - by apply client_ok_config with (set_space b st en).
    - split; [apply lifo_reset|]. destruct Hcfg as (_ & _ & _ & _ & -> & ->). destruct Hc as (_ & _ & _ & _ & _ & Hse). simpl in *. lia.
    - apply Forall_impl with (op_ok b); [done|]. intros [e| |]; try done. unfold op_ok, elem_ok. by destruct Hcfg as (-> & -> & _).
    - rewrite (elem_size_config _ _ Hcfg) in Es. destruct Hcfg as (_ & _ & _ & _ & E5 & E6). rewrite E5, E6 in Es.
      unfold elem_size in Es. cbn [set_space size1 size2 buf_start buf_end] in Es. rewrite Es. cbn [fst]. eauto. }
  destruct d; [apply (H _ Backward_laws)|apply (H _ Forward_laws)].
Qed.

Lemma lifo_buffers_are_stacks_witness :
  let e := ([Byte.x01; Byte.x02], [Byte.x03]) in
  let b := mkLifo 2 1 1000 2000 0 0 0 0 0 in
  exists m' b',
    run_lifo (class_of FORWARD) [LWrite e; LWrite e; LRead; LRead] (fun _ => Byte.x00) (set_buffer_space (class_of FORWARD) b 10 16) =
      Some ([OWritten; OFull; OElem e; OEof], m', b').
Proof.
  intros e b. apply (lifo_buffers_are_stacks FORWARD [LWrite e; LWrite e; LRead; LRead] (fun _ => Byte.x00) (mkLifo 2 1 1000 2000 0 0 0 0 0) 10 16).
  - unfold client_ok, sizes_ok, outside. simpl. lia.
  - unfold e. repeat constructor.
Defined.

(** The elements an iterator reads until the end. *)
Fixpoint li_all (fuel : nat) (K : lifo_class) (m : memory) (b : Lifo_buffer) (it : Lifo_buffer_iterator) : option (list lifo_elem) :=
  match fuel with
  | O => None
  | S fuel =>
      '(eof, it) ← li_read K b it;
      if (eof : bool) then Some []
      else
        r ← li_all fuel K m b it;
        Some ((load m (li_read_ptr1 it) (size1 b), if c_true (size2 b) then load m (li_read_ptr2 it) (size2 b) else []) :: r)
  end.

Lemma li_all_spec K `{!LifoLaws K} m b s it fuel :
  sizes_ok b -> lifo_at m b (li_pos it) s -> (length s < fuel)%nat -> li_all fuel K m b it = Some s.
Proof.
  intros Hs. revert it fuel. induction s as [|e s IH]; intros it fuel Hat Hf; (destruct fuel as [|fuel]; [simpl in Hf; lia|]);
    cbn [li_all]; unfold li_read; pose proof (lifo_at_read m b _ _ Hs Hat) as H.
  - by rewrite H.
  - destruct H as (p' & p1 & p2 & -> & (P1 & P2) & Hat'). cbn [mbind option_bind].
    rewrite (IH (mkLIter p' p1 (default (li_read_ptr2 it) p2))) by (done || (simpl in *; lia)).
    cbn [mbind option_bind li_read_ptr1 li_read_ptr2]. rewrite P1. destruct e as [e1 e2]. cbn [fst snd] in *.
    do 3 f_equal. destruct p2 as [p2|]; cbn [default].
    + destruct (c_true (size2 b)) eqn:Ec; [done|]. apply c_true_false in Ec. rewrite Ec in P2. by rewrite load_0 in P2.
    + by destruct P2 as [-> ->].
Qed.

(** Two buffers on adjacent memory, the forward one below the backward one:
    handing the space the backward buffer does not use to the forward one keeps
    the contents of both (an iterator over either reads the same elements as
    before, all of them and in reading order), keeps the two spaces adjacent,
    leaves the backward buffer without room and gives all of it to the forward
    one. *)
Theorem lifo_space_transfer m f b sf sb fuel :
  sizes_ok f -> sizes_ok b -> lifo_rep Forward_lifo_buffer m f sf -> lifo_rep Backward_lifo_buffer m b sb ->
  buf_end f = buf_start b -> (length sf < fuel)%nat -> (length sb < fuel)%nat ->
  exists us ue b' f', Backward.remove_unused_space b = (us, ue, b') /\ Forward.grow f us ue = Some f' /\
    buf_end f' = buf_start b' /\
    li_all fuel Forward_lifo_buffer m f (li_init f) = Some sf /\ li_all fuel Forward_lifo_buffer m f' (li_init f') = Some sf /\
    li_all fuel Backward_lifo_buffer m b (li_init b) = Some sb /\ li_all fuel Backward_lifo_buffer m b' (li_init b') = Some sb /\
    can_write Backward_lifo_buffer b' = false /\
    buf_end f' - pos f' = (buf_end f - pos f) + (pos b - buf_start b).
Proof.
  intros Hf Hb [Hfat Hffit] [Hbat Hbfit] Hadj Hlf Hlb.
  pose proof (forward_at_used _ _ _ _ Hfat) as Uf. pose proof (backward_at_used _ _ _ _ Hbat) as Ub.
  unfold Backward.remove_unused_space, Forward.grow. eexists _, _, _, _. split; [done|].
  rewrite (proj2 (Z.leb_le _ _)), (proj2 (Z.eqb_eq _ _)) by lia. split; [done|]. split; [done|].
  split; [by apply (li_all_spec Forward_lifo_buffer m f sf)|]. split.
  { apply (li_all_spec Forward_lifo_buffer m _ sf); [done| |done]. by apply (forward_at_ext m f). }
  split; [by apply (li_all_spec Backward_lifo_buffer m b sb)|]. split.
  { apply (li_all_spec Backward_lifo_buffer m _ sb); [done| |done]. by apply (backward_at_ext m b). }
  split; [|simpl; lia]. unfold can_write. simpl. unfold Backward.have_space_for. simpl. apply Z.leb_gt. destruct Hb. lia.
Qed.

Lemma lifo_space_transfer_witness :
  let f := mkLifo 1 0 1000 2000 0 0 10 14 11 in let b := mkLifo 2 0 1000 2000 0 0 14 20 18 in
  let m := fun a => if a =? 10 then Byte.x05 else Byte.x07 in
  exists us ue b' f', Backward.remove_unused_space b = (us, ue, b') /\ Forward.grow f us ue = Some f' /\
    buf_end f' = buf_start b' /\
    li_all 2 Forward_lifo_buffer m f (li_init f) = Some [([Byte.x05], [])] /\ li_all 2 Forward_lifo_buffer m f' (li_init f') = Some [([Byte.x05], [])] /\
    li_all 2 Backward_lifo_buffer m b (li_init b) = Some [([Byte.x07; Byte.x07], [])] /\ li_all 2 Backward_lifo_buffer m b' (li_init b') = Some [([Byte.x07; Byte.x07], [])] /\
    can_write Backward_lifo_buffer b' = false /\
    buf_end f' - pos f' = (buf_end f - pos f) + (pos b - buf_start b).
Proof.
  apply (lifo_space_transfer (fun a => if a =? 10 then Byte.x05 else Byte.x07) (mkLifo 1 0 1000 2000 0 0 10 14 11) (mkLifo 2 0 1000 2000 0 0 14 20 18)
    [([Byte.x05], [])] [([Byte.x07; Byte.x07], [])] 2); try (simpl; lia); try done; try (unfold sizes_ok; simpl; lia);
    (split; [|unfold elem_size; simpl; lia]); done.
Defined.
