(* ===== verification/SqlDateMode.v ===== *)
(** Conversion and rounding modes of temporal values: [private/sql_basic_types.h].

    Each of the three mode types is a record with the one member of its class, so
    that, as in the C++ code, a conversion from one to another is explicit.  The
    member is an enumeration over bit masks; converting an [ulonglong] to it keeps
    the low 32 bits. *)

From S2P Require Import Prelude.

(** * [date_conv_mode_t] *)

Record date_conv_mode_t := mkConv { conv_mode : Z }.

Module Conv.
Definition CONV_NONE : Z := 0.
Definition FUZZY_DATES : Z := 1.
Definition TIME_ONLY : Z := 4.
Definition INTERVAL_hhmmssff : Z := 8.
Definition INTERVAL_DAY : Z := 16.
Definition RANGE0_LAST : Z := INTERVAL_DAY.
Definition NO_ZERO_IN_DATE : Z := 1 .<< 23.
Definition NO_ZERO_DATE : Z := 1 .<< 24.
Definition INVALID_DATES : Z := 1 .<< 25.
Definition KNOWN_MODES : Z :=
  FUZZY_DATES .| TIME_ONLY .| INTERVAL_hhmmssff .| INTERVAL_DAY .| NO_ZERO_IN_DATE .| NO_ZERO_DATE .| INVALID_DATES.
End Conv.

Definition conv_of (fuzzydate : Z) : date_conv_mode_t := mkConv (u32 fuzzydate).
Definition conv_to_ulonglong (m : date_conv_mode_t) : Z := conv_mode m.
Definition conv_to_bool (m : date_conv_mode_t) : bool := c_true (conv_mode m).
(** The operand is promoted to [int]. *)
Definition conv_not (m : date_conv_mode_t) : Z := u64 (Z.lnot (conv_mode m)).
Definition conv_and (m other : date_conv_mode_t) : date_conv_mode_t := conv_of (conv_mode m .& conv_mode other).
Definition conv_and_ulonglong (m : date_conv_mode_t) (other : Z) : date_conv_mode_t := conv_of (conv_mode m .& other).
Definition conv_or (m other : date_conv_mode_t) : date_conv_mode_t := conv_of (conv_mode m .| conv_mode other).
Definition conv_and_assign (m other : date_conv_mode_t) : date_conv_mode_t := mkConv (u32 (conv_mode m .& conv_mode other)).
Definition conv_or_assign (m other : date_conv_mode_t) : date_conv_mode_t := mkConv (u32 (conv_mode m .| conv_mode other)).

(** * [time_round_mode_t] *)

Record time_round_mode_t := mkRound { round_mode : Z }.

Module Round.
Definition FRAC_NONE : Z := 0.
Definition FRAC_TRUNCATE : Z := Conv.RANGE0_LAST .<< 1.
Definition FRAC_ROUND : Z := Conv.RANGE0_LAST .<< 2.
Definition KNOWN_MODES : Z := FRAC_TRUNCATE .| FRAC_ROUND.
End Round.

(** The constructor asserts that the mode is one of the three. *)
Definition round_of (mode : Z) : option time_round_mode_t :=
  if (mode =? Round.FRAC_NONE) || (mode =? Round.FRAC_TRUNCATE) || (mode =? Round.FRAC_ROUND)
  then Some (mkRound (u32 mode)) else None.
Definition round_to_ulonglong (m : time_round_mode_t) : Z := round_mode m.
Definition round_eqb (m other : time_round_mode_t) : bool := round_mode m =? round_mode other.

(** * [date_mode_t] *)

Record date_mode_t := mkMode { mode_bits : Z }.

Definition mode_of (fuzzydate : Z) : date_mode_t := mkMode (u32 fuzzydate).
Definition mode_to_ulonglong (m : date_mode_t) : Z := mode_bits m.
Definition mode_to_bool (m : date_mode_t) : bool := c_true (mode_bits m).
Definition mode_to_conv (m : date_mode_t) : date_conv_mode_t := conv_of (mode_bits m .& Conv.KNOWN_MODES).
Definition mode_to_round (m : date_mode_t) : option time_round_mode_t := round_of (mode_bits m .& Round.KNOWN_MODES).
Definition mode_not (m : date_mode_t) : Z := u64 (Z.lnot (mode_bits m)).
Definition mode_lnot (m : date_mode_t) : bool := negb (c_true (mode_bits m)).
Definition mode_and (m other : date_mode_t) : date_mode_t := mode_of (mode_bits m .& mode_bits other).
Definition mode_and_ulonglong (m : date_mode_t) (other : Z) : date_mode_t := mode_of (mode_bits m .& other).
Definition mode_or (m other : date_mode_t) : date_mode_t := mode_of (mode_bits m .| mode_bits other).
Definition mode_and_assign (m other : date_mode_t) : date_mode_t := mkMode (u32 (mode_bits m .& mode_bits other)).
Definition mode_or_assign (m other : date_mode_t) : date_mode_t := mkMode (u32 (mode_bits m .| mode_bits other)).
Definition mode_or_assign_conv (m : date_mode_t) (other : date_conv_mode_t) : date_mode_t :=
  mkMode (u32 (mode_bits m .| conv_to_ulonglong other)).

(** The operators between the types. *)
Definition mode_or_conv (a : date_mode_t) (b : date_conv_mode_t) : date_mode_t :=
  mode_of (mode_to_ulonglong a .| conv_to_ulonglong b).
Definition conv_or_round (a : date_conv_mode_t) (b : time_round_mode_t) : date_mode_t :=
  mode_of (conv_to_ulonglong a .| round_to_ulonglong b).
Definition conv_or_mode (a : date_conv_mode_t) (b : date_mode_t) : date_mode_t :=
  mode_of (conv_to_ulonglong a .| mode_to_ulonglong b).
Definition mode_and_conv (a : date_mode_t) (b : date_conv_mode_t) : date_conv_mode_t :=
  conv_of (mode_to_ulonglong a .& conv_to_ulonglong b).
Definition conv_and_mode (a : date_conv_mode_t) (b : date_mode_t) : date_conv_mode_t :=
  conv_of (conv_to_ulonglong a .& mode_to_ulonglong b).
Definition sql_mode_and_conv (a : Z) (b : date_conv_mode_t) : date_conv_mode_t :=
  conv_of (a .& conv_to_ulonglong b).

(** The constants. *)
Definition TIME_CONV_NONE : date_conv_mode_t := conv_of Conv.CONV_NONE.
Definition TIME_FUZZY_DATES : date_conv_mode_t := conv_of Conv.FUZZY_DATES.
Definition TIME_TIME_ONLY : date_conv_mode_t := conv_of Conv.TIME_ONLY.
Definition TIME_INTERVAL_hhmmssff : date_conv_mode_t := conv_of Conv.INTERVAL_hhmmssff.
Definition TIME_INTERVAL_DAY : date_conv_mode_t := conv_of Conv.INTERVAL_DAY.
Definition TIME_NO_ZERO_IN_DATE : date_conv_mode_t := conv_of Conv.NO_ZERO_IN_DATE.
Definition TIME_NO_ZERO_DATE : date_conv_mode_t := conv_of Conv.NO_ZERO_DATE.
Definition TIME_INVALID_DATES : date_conv_mode_t := conv_of Conv.INVALID_DATES.
Definition TIME_NO_ZEROS : date_conv_mode_t := conv_of (Conv.NO_ZERO_DATE .| Conv.NO_ZERO_IN_DATE).
Definition TIME_MODE_FOR_XXX_TO_DATE : date_conv_mode_t :=
  conv_of (Conv.NO_ZERO_IN_DATE .| Conv.NO_ZERO_DATE .| Conv.INVALID_DATES).
Definition TIME_FRAC_NONE : time_round_mode_t := mkRound Round.FRAC_NONE.
Definition TIME_FRAC_TRUNCATE : time_round_mode_t := mkRound Round.FRAC_TRUNCATE.
Definition TIME_FRAC_ROUND : time_round_mode_t := mkRound Round.FRAC_ROUND.

(** * Splitting a mixture *)

(** Only known conversion flags; one of the rounding modes; a mixture of both. *)
Definition conv_known (m : date_conv_mode_t) : Prop := ufits 32 (conv_mode m) /\ Z.ldiff (conv_mode m) Conv.KNOWN_MODES = 0.
Definition round_known (m : time_round_mode_t) : Prop :=
  m = TIME_FRAC_NONE \/ m = TIME_FRAC_TRUNCATE \/ m = TIME_FRAC_ROUND.
Definition mode_known (m : date_mode_t) : Prop :=
  ufits 32 (mode_bits m) /\ Z.ldiff (mode_bits m) (Conv.KNOWN_MODES .| Round.KNOWN_MODES) = 0.

Lemma known_modes_disjoint : Conv.KNOWN_MODES .& Round.KNOWN_MODES = 0.
Proof. by vm_compute. Qed.

(** A word without bits outside [k]. *)
Lemma ldiff_land m k : Z.ldiff m k = 0 -> m .& k = m.
Proof.
  intros H. apply Z.bits_inj'. intros i Hi. rewrite Z.land_spec.
  assert (Z.testbit (Z.ldiff m k) i = false) as E by (rewrite H; apply Z.testbit_0_l).
  rewrite Z.ldiff_spec in E. destruct (Z.testbit m i), (Z.testbit k i); done.
Qed.

Lemma round_known_bits r : round_known r -> ufits 32 (round_mode r) /\ round_mode r .& Round.KNOWN_MODES = round_mode r.
Proof. intros [-> | [-> | ->]]; by vm_compute. Qed.

(** The part of a mixture under one mask, when the other part is under a disjoint one. *)
Lemma mixture_part a b k : a .& k = a -> b .& k = 0 -> (a .| b) .& k = a.
Proof.
  intros Ha Hb. apply Z.bits_inj'. intros i Hi.
  assert (Z.testbit (a .& k) i = Z.testbit a i /\ Z.testbit (b .& k) i = false) as [E1 E2] by (rewrite Ha, Hb; by rewrite Z.testbit_0_l).
  rewrite Z.land_spec in *. rewrite Z.lor_spec. destruct (Z.testbit a i), (Z.testbit b i), (Z.testbit k i); done.
Qed.

Lemma land_disjoint a k1 k2 : a .& k1 = a -> k1 .& k2 = 0 -> a .& k2 = 0.
Proof. intros <- H. by rewrite <- Z.land_assoc, H, Z.land_0_r. Qed.

Lemma round_of_land v : ufits 32 v -> v .& Round.KNOWN_MODES = v ->
  round_of v = if v =? Round.KNOWN_MODES then None else Some (mkRound v).
Proof.
  intros Hv E. assert (v = 0 \/ v = 32 \/ v = 64 \/ v = 96) as H.
  { assert (ufits 7 v) as H7.
    { rewrite <- E, Z.land_comm. apply ufits_land; [done|done|]. apply Hv. }
    pose proof (narrow_values 7 (fun x => negb (x .& Round.KNOWN_MODES =? x) || (x =? 0) || (x =? 32) || (x =? 64) || (x =? 96)) ltac:(by vm_compute) v H7) as H.
    cbv beta in H. rewrite E, Z.eqb_refl in H. lia. }
  by destruct H as [-> | [-> | [-> | ->]]].
Qed.

(** A mixture of conversion flags and a rounding mode splits back into the
    two, in either order of construction; every mixture of known flags is the
    mixture of its two parts, and converting it to a rounding mode fails (an
    assertion) exactly when it holds both rounding flags. *)
Theorem date_mode_split c r m :
  conv_known c -> round_known r -> mode_known m ->
  (mode_to_conv (conv_or_round c r) = c /\ mode_to_round (conv_or_round c r) = Some r) /\
  (mode_to_round m = None <-> mode_bits m .& Round.KNOWN_MODES = Round.KNOWN_MODES) /\
  (forall r', mode_to_round m = Some r' -> round_known r' /\ conv_or_round (mode_to_conv m) r' = m).
Proof.
  intros [Hc Hck] Hr [Hm Hmk]. pose proof (round_known_bits r Hr) as [Hrf Hrk].
  pose proof (ldiff_land _ _ Hck) as Ec. pose proof (ldiff_land _ _ Hmk) as Em.
  assert (forall a b, ufits 32 a -> ufits 32 b -> u32 (a .| b) = a .| b) as Eor.
  { intros a b Ha Hb. apply uwrap_small. by apply ufits_lor. }
  set (v := mode_bits m .& Round.KNOWN_MODES).
  assert (ufits 32 v) as Hv by (apply ufits_land; done).
  assert (v .& Round.KNOWN_MODES = v) as Ev by (unfold v; by rewrite <- Z.land_assoc, Z.land_diag).
  split; [|split].
  - unfold mode_to_conv, mode_to_round, conv_or_round, conv_to_ulonglong, round_to_ulonglong, mode_of, conv_of. cbn [mode_bits].
    rewrite Eor by done. split.
    + rewrite (mixture_part _ _ _ Ec), uwrap_small by (done || by apply (land_disjoint _ Round.KNOWN_MODES)). by destruct c.
    + rewrite Z.lor_comm, (mixture_part _ _ _ Hrk); [|by apply (land_disjoint _ Conv.KNOWN_MODES)].
      by destruct Hr as [-> | [-> | ->]].
  - unfold mode_to_round. fold v. rewrite (round_of_land v) by done. by destruct (Z.eqb_spec v Round.KNOWN_MODES).
  - intros r'. unfold mode_to_round. fold v. rewrite (round_of_land v) by done.
    destruct (Z.eqb_spec v Round.KNOWN_MODES); [done|]. intros [= <-]. split.
    + pose proof (round_of_land v Hv Ev) as H. rewrite (proj2 (Z.eqb_neq _ _)) in H by done. unfold round_of in H.
      destruct (Z.eqb_spec v Round.FRAC_NONE) as [->|]; [by left|].
      destruct (Z.eqb_spec v Round.FRAC_TRUNCATE) as [->|]; [by right; left|].
      destruct (Z.eqb_spec v Round.FRAC_ROUND) as [->|]; [by right; right|done].
    + unfold conv_or_round, mode_to_conv, conv_to_ulonglong, round_to_ulonglong, mode_of, conv_of. cbn [conv_mode round_mode].
      destruct m as [b]. cbn [mode_bits] in *. f_equal. rewrite (uwrap_small 32 (b .& Conv.KNOWN_MODES)) by (apply ufits_land; done).
      unfold v. rewrite <- Z.land_lor_distr_r, Em. by apply uwrap_small.
Qed.

Lemma date_mode_split_witness :
  let c := mkConv (Conv.TIME_ONLY .| Conv.INVALID_DATES) in let m := mkMode 100 in
  (mode_to_conv (conv_or_round c TIME_FRAC_ROUND) = c /\ mode_to_round (conv_or_round c TIME_FRAC_ROUND) = Some TIME_FRAC_ROUND) /\
  (mode_to_round m = None <-> mode_bits m .& Round.KNOWN_MODES = Round.KNOWN_MODES) /\
  (forall r', mode_to_round m = Some r' -> round_known r' /\ conv_or_round (mode_to_conv m) r' = m).
Proof. apply date_mode_split; [by split|by right; right|by split]. Defined.
