(* ===== verification/SqlTemporal.v ===== *)
(** Temporal values: [mysql_time.h], [private/my_time.h], [private/sql_time.h], the
    packed format macros of [private/compat56.h], and from [private/sql_type.h] the
    fixed point numbers [Sec6] and [Sec9], [Sec6_add] and the class [Temporal].

    Functions that the headers only declare are the fields of the class
    [time_library]; what the code relies on of them is stated by [time_laws].  A
    failed assertion is [None].  A function that writes to a [MYSQL_TIME] or a
    warning mask it is given by pointer takes the old value and returns the new. *)

From S2P Require Import Prelude SqlError SqlTypeInt SqlDateMode.

(** * [MYSQL_TIME] *)

Inductive timestamp_type :=
  MYSQL_TIMESTAMP_NONE | MYSQL_TIMESTAMP_ERROR | MYSQL_TIMESTAMP_DATE | MYSQL_TIMESTAMP_DATETIME | MYSQL_TIMESTAMP_TIME.
#[export] Instance timestamp_type_eq_dec : EqDecision timestamp_type.
Proof. solve_decision. Defined.

Record MYSQL_TIME := mkTime {
  t_year : Z; t_month : Z; t_day : Z; t_hour : Z; t_minute : Z; t_second : Z;
  t_second_part : Z; t_neg : bool; time_type : timestamp_type
}.

Definition bzero_time : MYSQL_TIME := mkTime 0 0 0 0 0 0 0 false MYSQL_TIMESTAMP_DATE.

Definition set_YYYYMMDD (t : MYSQL_TIME) (y m d : Z) : MYSQL_TIME :=
  mkTime y m d (t_hour t) (t_minute t) (t_second t) (t_second_part t) (t_neg t) (time_type t).
Definition set_hhmmssff (t : MYSQL_TIME) (h m s ff : Z) : MYSQL_TIME :=
  mkTime (t_year t) (t_month t) (t_day t) h m s ff (t_neg t) (time_type t).
Definition set_neg (t : MYSQL_TIME) (n : bool) : MYSQL_TIME :=
  mkTime (t_year t) (t_month t) (t_day t) (t_hour t) (t_minute t) (t_second t) (t_second_part t) n (time_type t).
Definition set_type (t : MYSQL_TIME) (ty : timestamp_type) : MYSQL_TIME :=
  mkTime (t_year t) (t_month t) (t_day t) (t_hour t) (t_minute t) (t_second t) (t_second_part t) (t_neg t) ty.
Definition set_second_part (t : MYSQL_TIME) (ff : Z) : MYSQL_TIME :=
  set_hhmmssff t (t_hour t) (t_minute t) (t_second t) ff.

(** ** The constants of [my_time.h] *)

Definition YY_PART_YEAR : Z := 70.
Definition TIMESTAMP_MAX_YEAR : Z := 2038.
Definition TIMESTAMP_MIN_YEAR : Z := 1900 + YY_PART_YEAR - 1.
Definition TIME_MAX_INTERVAL_HOUR : Z := 87649415.
Definition TIME_MAX_INTERVAL_DAY : Z := 3652058.
Definition TIME_MAX_INTERVAL_DAY_CHAR_LENGTH : Z := 7.
Definition TIME_MAX_HOUR : Z := 838.
Definition TIME_MAX_MINUTE : Z := 59.
Definition TIME_MAX_SECOND : Z := 59.
Definition TIME_MAX_SECOND_PART : Z := 999999.
Definition TIME_SECOND_PART_FACTOR : Z := TIME_MAX_SECOND_PART + 1.
Definition TIME_SECOND_PART_DIGITS : Z := 6.
Definition TIME_MAX_VALUE : Z := TIME_MAX_HOUR * 10000 + TIME_MAX_MINUTE * 100 + TIME_MAX_SECOND.
Definition TIME_MAX_VALUE_SECONDS : Z := TIME_MAX_HOUR * 3600 + TIME_MAX_MINUTE * 60 + TIME_MAX_SECOND.
Definition SECONDS_IN_24H : Z := 86400.

Record MYSQL_TIME_STATUS := mkStatus { st_warnings : Z; st_precision : Z; st_nanoseconds : Z }.
Definition my_time_status_init : MYSQL_TIME_STATUS := mkStatus 0 0 0.

(** * The other data types *)

(** A [struct timeval]. *)
Record timeval := mkTv { tv_sec : Z; tv_usec : Z }.

(** [Sec6], seconds with six fractional digits; [Sec9], with nanoseconds. *)
Record Sec6 := mkSec6 { m_sec : Z; m_usec : Z; m_neg : bool; m_truncated : bool }.
Record Sec9 := mkSec9 { s9_sec6 : Sec6; m_nsec : Z }.

(** * What the headers only declare *)

Class time_library := {
  log_10_int : Z -> Z;
  set_zero_time : timestamp_type -> MYSQL_TIME;
  (** the [int] returned, the time and the warnings *)
  check_time_range : MYSQL_TIME -> Z -> Z -> Z * MYSQL_TIME * Z;
  number_to_time_only : bool -> Z -> Z -> Z -> MYSQL_TIME -> Z -> Z * MYSQL_TIME * Z;
  number_to_datetime_or_date : Z -> Z -> MYSQL_TIME -> Z -> Z -> Z * MYSQL_TIME * Z;
  (** the sign returned, the seconds and the microseconds *)
  calc_time_diff_sec : MYSQL_TIME -> MYSQL_TIME -> Z -> bool * Z * Z;
  calc_time_diff : MYSQL_TIME -> MYSQL_TIME -> Z -> date_mode_t -> bool * MYSQL_TIME;
  calc_time_from_sec : MYSQL_TIME -> Z -> Z -> MYSQL_TIME;
  adjust_time_range_with_warn : MYSQL_TIME -> Z -> bool * MYSQL_TIME;
  (** an error, or the year, the month and the day *)
  get_date_from_daynr : Z -> bool * (Z * Z * Z);
  calc_daynr : Z -> Z -> Z -> Z;
  current_date : MYSQL_TIME;
  pack_time : MYSQL_TIME -> Z;
  (** [check_datetime_range]: the value is out of range *)
  check_datetime_range : MYSQL_TIME -> bool;
  (** [Sec9::round(dec)] *)
  sec9_round : Sec9 -> Z -> Sec9;
  (** [Time::round_or_set_max], without and with nanoseconds *)
  time_round_or_set_max : MYSQL_TIME -> Z -> Z -> MYSQL_TIME * Z;
  time_round_or_set_max_nsec : MYSQL_TIME -> Z -> Z -> Z -> MYSQL_TIME * Z;
  (** [Datetime::round_or_invalidate] and [Temporal::datetime_round_or_invalidate] *)
  datetime_round : MYSQL_TIME -> Z -> Z -> bool * MYSQL_TIME * Z;
  datetime_round_nsec : MYSQL_TIME -> Z -> Z -> Z -> bool * MYSQL_TIME * Z;
  (** [Timestamp::round_or_set_max] *)
  timestamp_round_or_set_max : timeval -> Z -> Z -> timeval * Z
}.

Section temporal.
Context `{time_library}.

(** * [my_time.h] *)

Definition validate_timestamp_range (t : MYSQL_TIME) : bool :=
  if ((TIMESTAMP_MAX_YEAR <? t_year t) || (t_year t <? TIMESTAMP_MIN_YEAR)) ||
     ((t_year t =? TIMESTAMP_MAX_YEAR) && ((1 <? t_month t) || (19 <? t_day t))) ||
     ((t_year t =? TIMESTAMP_MIN_YEAR) && ((t_month t <? 12) || (t_day t <? 31)))
  then false else true.

Definition sec_part_shift (second_part digits : Z) : Z :=
  Z.quot second_part (s64 (log_10_int (TIME_SECOND_PART_DIGITS - digits))).
Definition sec_part_unshift (second_part digits : Z) : Z :=
  second_part * s64 (log_10_int (TIME_SECOND_PART_DIGITS - digits)).
Definition my_time_fraction_remainder (nr decimals : Z) : option Z :=
  asserting (decimals <=? TIME_SECOND_PART_DIGITS) (Z.rem nr (s64 (log_10_int (TIME_SECOND_PART_DIGITS - decimals)))).

(** [x -= my_time_fraction_remainder(x, decimals)] on an [unsigned long]. *)
Definition trunc_part (x decimals : Z) : option Z :=
  r ← my_time_fraction_remainder (s64 x) decimals;
  Some (u64 (x - r)).

Definition my_datetime_trunc (t : MYSQL_TIME) (decimals : Z) : option MYSQL_TIME :=
  ff ← trunc_part (t_second_part t) decimals;
  Some (set_second_part t ff).
Definition my_time_trunc (t : MYSQL_TIME) (decimals : Z) : option MYSQL_TIME :=
  ff ← trunc_part (t_second_part t) decimals;
  let t := set_second_part t ff in
  Some (if negb (c_true (t_second_part t)) && t_neg t && negb (c_true (t_hour t)) && negb (c_true (t_minute t)) && negb (c_true (t_second t))
        then set_neg t false else t).

Definition my_timeval_trunc (tv : timeval) (decimals : Z) : option timeval :=
  r ← my_time_fraction_remainder (tv_usec tv) decimals;
  Some (mkTv (tv_sec tv) (tv_usec tv - r)).

(** * [sql_time.h] *)

Definition is_date_or_datetime (t : MYSQL_TIME) : bool :=
  bool_decide (time_type t = MYSQL_TIMESTAMP_DATE \/ time_type t = MYSQL_TIMESTAMP_DATETIME).
Definition datetime_to_date (t : MYSQL_TIME) : option MYSQL_TIME :=
  asserting (is_date_or_datetime t && negb (t_neg t)) (set_type (set_hhmmssff t 0 0 0 0) MYSQL_TIMESTAMP_DATE).
Definition date_to_datetime (t : MYSQL_TIME) : option MYSQL_TIME :=
  asserting (is_date_or_datetime t && negb (t_neg t)) (set_type t MYSQL_TIMESTAMP_DATETIME).
Definition non_zero_hhmmssuu (t : MYSQL_TIME) : bool :=
  c_true (t_hour t) || c_true (t_minute t) || c_true (t_second t) || c_true (t_second_part t).
Definition non_zero_YYMMDD (t : MYSQL_TIME) : bool := c_true (t_year t) || c_true (t_month t) || c_true (t_day t).
Definition non_zero_date (t : MYSQL_TIME) : bool :=
  non_zero_YYMMDD t || (bool_decide (time_type t = MYSQL_TIMESTAMP_DATETIME) && non_zero_hhmmssuu t).

(** * [compat56.h] *)

Definition MY_PACKED_TIME_GET_INT_PART (x : Z) : Z := x .>> 24.
Definition MY_PACKED_TIME_GET_FRAC_PART (x : Z) : Z := Z.rem x (1 .<< 24).
(** Computed at [ulonglong]; the [longlong] [f] is converted. *)
Definition MY_PACKED_TIME_MAKE (i f : Z) : Z := u64 (u64 (u64 i .<< 24) + f).
Definition MY_PACKED_TIME_MAKE_INT (i : Z) : Z := u64 (u64 i .<< 24).

(** * [Sec6] *)

Definition sec6_make_from_int (nr : Longlong_hybrid) : Sec6 := mkSec6 (hybrid_abs nr) 0 (neg nr) false.
Definition sec6_reset : Sec6 := mkSec6 0 0 false false.
(** Returns whether a second was reached. *)
Definition sec6_add_nanoseconds (s : Sec6) (nanoseconds : Z) : option (bool * Sec6) :=
  _ ← asserting (nanoseconds <=? 1000000000) tt;
  if nanoseconds <? 500 then Some (false, s)
  else
    let usec := u64 (m_usec s + u32 (nanoseconds + 500) / 1000) in
    if usec <? 1000000 then Some (false, mkSec6 (m_sec s) usec (m_neg s) (m_truncated s))
    else Some (true, mkSec6 (m_sec s) (usec mod 1000000) (m_neg s) (m_truncated s)).
Definition sec6_of_longlong (nr : Z) (unsigned_val : bool) : Sec6 := sec6_make_from_int (mkHybrid nr unsigned_val).
Definition sec6_sec (s : Sec6) : Z := m_sec s.
Definition sec6_usec (s : Sec6) : Z := s64 (m_usec s).

(** The functions below return an error flag, the time written and the warnings. *)
Definition to_interval_hhmmssff_only (s : Sec6) (to : MYSQL_TIME) (warn : Z) : bool * MYSQL_TIME * Z :=
  let '(rc, to, warn) := number_to_time_only (m_neg s) (m_sec s) (m_usec s) TIME_MAX_INTERVAL_HOUR to warn in
  (c_true rc, to, warn).
(** Asserts that an error comes with a warning. *)
Definition with_warning (r : bool * MYSQL_TIME * Z) : option (bool * MYSQL_TIME * Z) :=
  asserting (c_true r.2 || negb r.1.1) r.
Definition to_datetime_or_date (s : Sec6) (to : MYSQL_TIME) (warn : Z) (flags : date_conv_mode_t) : option (bool * MYSQL_TIME * Z) :=
  if m_neg s then Some (true, to, MYSQL_TIME_WARN_OUT_OF_RANGE)
  else
    let '(rc, to, warn) := number_to_datetime_or_date (s64 (m_sec s)) (m_usec s) to
                             (conv_to_ulonglong (conv_and flags TIME_MODE_FOR_XXX_TO_DATE)) warn in
    with_warning (rc =? -1, to, warn).
Definition to_datetime_or_to_interval_hhmmssff (s : Sec6) (to : MYSQL_TIME) (warn : Z) : option (bool * MYSQL_TIME * Z) :=
  _ ← asserting (TIME_MAX_INTERVAL_HOUR <=? 999999995959) tt;
  if (999999995959 <? m_sec s) && (m_sec s <=? 99991231235959) && negb (m_neg s)
  then to_datetime_or_date s to warn TIME_INVALID_DATES
  else if TIME_MAX_INTERVAL_HOUR <? m_sec s / 10000 then Some (true, to, MYSQL_TIME_WARN_OUT_OF_RANGE)
  else Some (to_interval_hhmmssff_only s to warn).
Definition to_datetime_or_time (s : Sec6) (to : MYSQL_TIME) (warn : Z) (mode : date_conv_mode_t) : option (bool * MYSQL_TIME * Z) :=
  with_warning
    (if (9999999 <? m_sec s) && (m_sec s <=? 99991231235959) && negb (m_neg s) then
       let '(rc, to, warn) := number_to_datetime_or_date (s64 (m_sec s)) (m_usec s) to
                                (conv_to_ulonglong (conv_and mode TIME_MODE_FOR_XXX_TO_DATE)) warn in
       (rc <? 0, to, warn)
     else
       let '(rc, to, warn) := number_to_time_only (m_neg s) (m_sec s) (m_usec s) TIME_MAX_HOUR to warn in
       (c_true rc, to, warn)).

(** [unused] is the uninitialised warning mask of the body. *)
Definition sec_to_time (s : Sec6) (dec unused : Z) : option (bool * MYSQL_TIME) :=
  let ltime := set_neg (set_zero_time MYSQL_TIMESTAMP_TIME) (m_neg s) in
  if TIME_MAX_VALUE_SECONDS <? m_sec s then
    let ltime := set_hhmmssff ltime (TIME_MAX_HOUR + 1) (t_minute ltime) (t_second ltime) (t_second_part ltime) in
    let '(_, ltime, _) := check_time_range ltime dec unused in
    Some (true, ltime)
  else
    _ ← asserting (sec6_usec s <=? TIME_MAX_SECOND_PART) tt;
    Some (false, set_hhmmssff ltime (u32 (m_sec s / 3600)) (u32 (m_sec s mod 3600) / 60) (u32 (m_sec s) mod 60) (m_usec s)).
Definition sec6_trunc (s : Sec6) (dec : Z) : option Sec6 :=
  usec ← trunc_part (m_usec s) dec;
  Some (mkSec6 (m_sec s) usec (m_neg s) (m_truncated s)).

(** * [Sec9] *)

Definition sec9_make_from_int (nr : Longlong_hybrid) : Sec9 := mkSec9 (sec6_make_from_int nr) 0.
Definition sec9_trunc (s : Sec9) (dec : Z) : option Sec9 :=
  s6 ← sec6_trunc (s9_sec6 s) dec; Some (mkSec9 s6 0).
Definition sec9_round_mode (s : Sec9) (dec : Z) (mode : time_round_mode_t) : option Sec9 :=
  if round_eqb mode TIME_FRAC_TRUNCATE then sec9_trunc s dec else Some (sec9_round s dec).

(** * [Sec6_add]: the sum of two times *)

Record Sec6_add := mkAdd { add_sec : Z; add_usec : Z; add_neg : bool; add_error : bool }.

(** On an error the other members are not initialised. *)
Definition sec6_add (ltime1 ltime2 : MYSQL_TIME) (sign : Z) : option Sec6_add :=
  _ ← asserting ((sign =? -1) || (sign =? 1)) tt;
  _ ← asserting (negb (t_neg ltime1) || bool_decide (time_type ltime1 = MYSQL_TIMESTAMP_TIME)) tt;
  if bool_decide (time_type ltime2 <> MYSQL_TIMESTAMP_TIME) then Some (mkAdd 0 0 false true)
  else
    let sign := if Bool.eqb (t_neg ltime1) (t_neg ltime2) then sign else - sign in
    let '(neg, sec, usec) := calc_time_diff_sec ltime1 ltime2 (- sign) in
    let neg := if t_neg ltime1 && (c_true sec || c_true usec) then negb neg else neg in
    Some (mkAdd sec usec neg false).
Definition to_hh24mmssff (a : Sec6_add) (tstype : timestamp_type) : MYSQL_TIME :=
  set_type (calc_time_from_sec (set_neg bzero_time (add_neg a)) (add_sec a mod SECONDS_IN_24H) (add_usec a)) tstype.
Definition to_days_abs (a : Sec6_add) : Z := s64 (add_sec a / SECONDS_IN_24H).
(** The error flag and the time; [ltime] is what the caller passed. *)
Definition add_to_time (a : Sec6_add) (ltime : MYSQL_TIME) (decimals : Z) : bool * MYSQL_TIME :=
  if add_error a then (true, ltime)
  else
    let t := to_hh24mmssff a MYSQL_TIMESTAMP_TIME in
    adjust_time_range_with_warn
      (set_hhmmssff t (u32 (t_hour t + u32 (to_days_abs a * 24))) (t_minute t) (t_second t) (t_second_part t)) decimals.
Definition add_to_datetime (a : Sec6_add) (ltime : MYSQL_TIME) : bool * MYSQL_TIME :=
  if add_error a || add_neg a then (true, ltime)
  else
    let t := to_hh24mmssff a MYSQL_TIMESTAMP_DATETIME in
    let '(err, (y, m, d)) := get_date_from_daynr (to_days_abs a) in
    let t := set_YYYYMMDD t y m d in
    (err || negb (c_true (t_day t)), t).

(** * [Temporal] *)

Definition is_valid_temporal (t : MYSQL_TIME) : option bool :=
  asserting (bool_decide (time_type t <> MYSQL_TIMESTAMP_ERROR)) (bool_decide (time_type t <> MYSQL_TIMESTAMP_NONE)).
Definition type_name_by_timestamp_type (ty : timestamp_type) : string :=
  match ty with
  | MYSQL_TIMESTAMP_DATE => "date"
  | MYSQL_TIMESTAMP_TIME => "time"
  | _ => "datetime"
  end.
Definition make_fuzzy_date (fuzzydate : date_conv_mode_t) : MYSQL_TIME :=
  set_zero_time (if negb (conv_to_bool (conv_and fuzzydate TIME_FUZZY_DATES)) then MYSQL_TIMESTAMP_NONE
                 else if conv_to_bool (conv_and fuzzydate TIME_TIME_ONLY) then MYSQL_TIMESTAMP_TIME
                 else MYSQL_TIMESTAMP_DATETIME).
Definition make_from_out_of_range (t : MYSQL_TIME) : MYSQL_TIME * Z :=
  (set_type t MYSQL_TIMESTAMP_NONE, MYSQL_TIME_WARN_OUT_OF_RANGE).
Definition has_valid_mmssff (t : MYSQL_TIME) : bool :=
  (t_minute t <=? TIME_MAX_MINUTE) && (t_second t <=? TIME_MAX_SECOND) && (t_second_part t <=? TIME_MAX_SECOND_PART).
Definition has_zero_YYYYMM (t : MYSQL_TIME) : bool := (t_year t =? 0) && (t_month t =? 0).
Definition has_zero_YYYYMMDD (t : MYSQL_TIME) : bool := (t_year t =? 0) && (t_month t =? 0) && (t_day t =? 0).
Definition time_hhmmssff_set_max (t : MYSQL_TIME) (max_hour : Z) : MYSQL_TIME :=
  set_hhmmssff t max_hour TIME_MAX_MINUTE TIME_MAX_SECOND TIME_MAX_SECOND_PART.
(** Returns whether a minute was reached. *)
Definition add_nanoseconds_ssff (t : MYSQL_TIME) (nanoseconds : Z) : option (bool * MYSQL_TIME) :=
  _ ← asserting (nanoseconds <=? 1000000000) tt;
  if nanoseconds <? 500 then Some (false, t)
  else
    let ff := u64 (t_second_part t + u32 (nanoseconds + 500) / 1000) in
    if ff <? 1000000 then Some (false, set_second_part t ff)
    else
      let ff := ff mod 1000000 in
      if t_second t <? 59 then Some (false, set_hhmmssff t (t_hour t) (t_minute t) (u32 (t_second t + 1)) ff)
      else Some (true, set_hhmmssff t (t_hour t) (t_minute t) 0 ff).
(** Returns whether an hour was reached. *)
Definition add_nanoseconds_mmssff (t : MYSQL_TIME) (nanoseconds : Z) : option (bool * MYSQL_TIME) :=
  '(carry, t) ← add_nanoseconds_ssff t nanoseconds;
  if negb carry then Some (false, t)
  else if t_minute t <? 59 then Some (false, set_hhmmssff t (t_hour t) (u32 (t_minute t + 1)) (t_second t) (t_second_part t))
  else Some (true, set_hhmmssff t (t_hour t) 0 (t_second t) (t_second_part t)).
Definition fraction_remainder (t : MYSQL_TIME) (dec : Z) : option Z := my_time_fraction_remainder (s64 (t_second_part t)) dec.
Definition to_packed (t : MYSQL_TIME) : Z := pack_time t.
End temporal.

(** * What the code relies on *)

(** The number of microseconds of a time of the day or of a TIME value, without
    and with its sign, and of its minutes, seconds and fraction alone. *)
Definition mmss_usec (t : MYSQL_TIME) : Z := (t_minute t * 60 + t_second t) * 1000000 + t_second_part t.
Definition time_usec (t : MYSQL_TIME) : Z := t_hour t * 3600000000 + mmss_usec t.
Definition signed (n : bool) (x : Z) : Z := if n then - x else x.
Definition time_value (t : MYSQL_TIME) : Z := signed (t_neg t) (time_usec t).

(** The members are unsigned; minutes, seconds and fraction are in range. *)
Definition time_fields (t : MYSQL_TIME) : Prop :=
  0 <= t_hour t /\ 0 <= t_minute t <= 59 /\ 0 <= t_second t <= 59 /\ 0 <= t_second_part t <= 999999.

(** A TIME value of a kind that may have many hours. *)
Definition time_interval (t : MYSQL_TIME) : Prop :=
  time_type t = MYSQL_TIMESTAMP_TIME /\ has_zero_YYYYMMDD t = true /\ time_fields t /\ t_hour t <= TIME_MAX_INTERVAL_HOUR.

(** The step of the last digit of [dec] fractional digits, in microseconds. *)
Definition frac_step (dec : Z) : Z := 10 ^ (6 - dec).

Class digit_laws `{time_library} := {
  log_10_int_pow i : 0 <= i < 20 -> log_10_int i = 10 ^ i;
  set_zero_time_zero ty : set_zero_time ty = mkTime 0 0 0 0 0 0 0 false ty
}.
(** A time with too many hours becomes the last one of [dec] digits; a TIME that
    is given back is in range and keeps its sign. *)
Class range_laws `{time_library} := {
  check_time_range_max t dec w : 0 <= dec <= 6 -> time_fields t -> t_day t = 0 -> TIME_MAX_HOUR < t_hour t ->
    exists w', check_time_range t dec w = (0, set_hhmmssff t TIME_MAX_HOUR 59 59 (999999 - 999999 mod frac_step dec), w');
  check_time_range_in t dec w : 0 <= dec <= 6 -> time_fields t -> t_day t = 0 -> t_hour t <= TIME_MAX_HOUR ->
    time_usec t <= TIME_MAX_VALUE_SECONDS * 1000000 + (999999 - 999999 mod frac_step dec) -> check_time_range t dec w = (0, t, w)
}.
(** The two values are subtracted ([l_sign] 1) or added (-1), sign apart. *)
Class diff_laws `{time_library} := {
  calc_time_diff_sec_val t1 t2 sign : time_interval t1 -> time_interval t2 -> sign = 1 \/ sign = -1 ->
    let x := time_usec t1 - sign * time_usec t2 in
    calc_time_diff_sec t1 t2 sign = (x <? 0, Z.abs x / 1000000, Z.abs x mod 1000000);
  calc_time_from_sec_val t s us : 0 <= s < SECONDS_IN_24H ->
    calc_time_from_sec t s us = set_hhmmssff t (s / 3600) (s / 60 mod 60) (s mod 60) us
}.

(** * Adding nanoseconds *)

Lemma u32_rounding ns : 0 <= ns <= 1000000000 -> u32 (ns + 500) / 1000 = (ns + 500) / 1000 /\ 0 <= (ns + 500) / 1000 <= 1000000.
Proof. intros Hn. rewrite uwrap_small by (unfold ufits; lia). split; [done|]. lia_mod. Qed.

Lemma rounding_small ns : 0 <= ns < 500 -> (ns + 500) / 1000 = 0.
Proof. intros. apply Z.div_small. lia. Qed.

(** One fraction: the sum and its carry. *)
Lemma carry_usec usec r : 0 <= usec <= 999999 -> 0 <= r <= 1000000 ->
  u64 (usec + r) = usec + r /\
  (1000000 <= usec + r -> (usec + r) mod 1000000 = usec + r - 1000000 /\ 0 <= usec + r - 1000000 <= 999999).
Proof.
  intros Hu Hr. split; [apply uwrap_small; unfold ufits; lia|]. intros Hc. split; [|lia].
  replace (usec + r) with (usec + r - 1000000 + 1 * 1000000) at 1 by lia. rewrite Z_mod_plus_full. apply Z.mod_small. lia.
Qed.

Lemma sec6_add_nanoseconds_val s ns : 0 <= ns <= 1000000000 -> 0 <= m_usec s <= 999999 ->
  exists c s', sec6_add_nanoseconds s ns = Some (c, s') /\
    m_usec s' + (if (c : bool) then 1000000 else 0) = m_usec s + (ns + 500) / 1000 /\ 0 <= m_usec s' <= 999999 /\
    m_sec s' = m_sec s /\ m_neg s' = m_neg s.
Proof.
  intros Hn Hu. unfold sec6_add_nanoseconds, asserting. rewrite (proj2 (Z.leb_le _ _)) by lia. cbn [mbind option_bind].
  destruct (Z.ltb_spec ns 500); [eexists _, _; split; [done|]; rewrite rounding_small by lia; by repeat split; try lia|].
  destruct (u32_rounding ns Hn) as [-> Hr]. destruct (carry_usec _ _ Hu Hr) as [-> Hc].
  destruct (Z.ltb_spec (m_usec s + (ns + 500) / 1000) 1000000); eexists _, _; (split; [done|]); cbn [m_usec m_sec m_neg].
  - by repeat split; try lia.
  - destruct Hc as [-> ?]; [done|]. by repeat split; try lia.
Qed.

(** The members that arithmetic on minutes, seconds and fraction keeps. *)
Definition same_date_hour (t t' : MYSQL_TIME) : Prop :=
  t_year t' = t_year t /\ t_month t' = t_month t /\ t_day t' = t_day t /\ t_hour t' = t_hour t /\ t_neg t' = t_neg t /\ time_type t' = time_type t.

Lemma add_nanoseconds_ssff_val t ns : 0 <= ns <= 1000000000 -> time_fields t ->
  exists c t', add_nanoseconds_ssff t ns = Some (c, t') /\
    mmss_usec t' + (if (c : bool) then 60000000 else 0) = mmss_usec t + (ns + 500) / 1000 /\ time_fields t' /\ same_date_hour t t' /\ t_minute t' = t_minute t.
Proof.
  intros Hn (Hh & Hm & Hs & Hf). unfold add_nanoseconds_ssff, asserting. rewrite (proj2 (Z.leb_le _ _)) by lia. cbn [mbind option_bind].
  destruct (Z.ltb_spec ns 500); [eexists _, _; split; [done|]; rewrite rounding_small by lia; by repeat split; try lia|].
  destruct (u32_rounding ns Hn) as [-> Hr]. destruct (carry_usec _ _ Hf Hr) as [-> Hc].
  destruct (Z.ltb_spec (t_second_part t + (ns + 500) / 1000) 1000000).
  - eexists _, _. split; [done|]. unfold mmss_usec, time_fields, same_date_hour. simpl. by repeat split; try lia.
  - destruct Hc as [-> ?]; [done|]. destruct (Z.ltb_spec (t_second t) 59); eexists _, _; (split; [done|]);
      unfold mmss_usec, time_fields, same_date_hour; cbn [t_year t_month t_day t_hour t_minute t_second t_second_part t_neg time_type set_hhmmssff];
      rewrite ?(uwrap_small 32 (t_second t + 1)) by (unfold ufits; lia); by repeat split; try lia.
Qed.

(** Adding up to a second of nanoseconds, rounded to microseconds (half up):
    minutes, seconds and fraction of the time, or the fraction of the [Sec6], plus
    the carry the function returns, increase by exactly the rounded amount; the
    result is in range, nothing else changes; and more than [10 ^ 9] nanoseconds
    fail the assertion. *)
Theorem add_nanoseconds_exact t s ns :
  time_fields t -> 0 <= m_usec s <= 999999 -> 0 <= ns ->
  if ns <=? 1000000000 then
    (exists c t', add_nanoseconds_mmssff t ns = Some (c, t') /\
       mmss_usec t' + (if (c : bool) then 3600000000 else 0) = mmss_usec t + (ns + 500) / 1000 /\
       time_fields t' /\ has_valid_mmssff t' = true /\ same_date_hour t t') /\
    (exists c s', sec6_add_nanoseconds s ns = Some (c, s') /\
       m_usec s' + (if (c : bool) then 1000000 else 0) = m_usec s + (ns + 500) / 1000 /\
       0 <= m_usec s' <= 999999 /\ m_sec s' = m_sec s /\ m_neg s' = m_neg s)
  else add_nanoseconds_mmssff t ns = None /\ sec6_add_nanoseconds s ns = None.
Proof.
  intros Ht Hs Hn. destruct (Z.leb_spec ns 1000000000) as [Hle|Hgt].
  - split; [|by apply sec6_add_nanoseconds_val].
    destruct (add_nanoseconds_ssff_val t ns ltac:(lia) Ht) as (c & t1 & E & Hv & Hf & Hd & Hm).
    unfold add_nanoseconds_mmssff. rewrite E. cbn [mbind option_bind]. destruct c; cbn [negb].
    2:{ eexists _, _. split; [done|]. repeat split; try done; try lia; try apply Hf; try apply Hd.
        unfold has_valid_mmssff. destruct Hf as (? & ? & ? & ?). rewrite !(proj2 (Z.leb_le _ _)); [done|unfold TIME_MAX_SECOND_PART, TIME_MAX_SECOND, TIME_MAX_MINUTE; lia..]. }
    destruct Hf as (Hf1 & Hf2 & Hf3 & Hf4).
    assert (forall h m s f, 0 <= h -> 0 <= m <= 59 -> 0 <= s <= 59 -> 0 <= f <= 999999 ->
      time_fields (set_hhmmssff t1 h m s f) /\ has_valid_mmssff (set_hhmmssff t1 h m s f) = true) as Hset.
    { intros h m s0 f. unfold time_fields, has_valid_mmssff. cbn. unfold TIME_MAX_SECOND_PART, TIME_MAX_SECOND, TIME_MAX_MINUTE.
      intros. split; [done|]. by rewrite !(proj2 (Z.leb_le _ _)) by lia. }
    destruct (Z.ltb_spec (t_minute t1) 59); eexists _, _; (split; [done|]).
    + rewrite (uwrap_small 32 (t_minute t1 + 1)) by (unfold ufits; lia). split; [unfold mmss_usec in *; cbn; lia|].
      split; [|split; [|exact Hd]]; apply Hset; lia.
    + split; [unfold mmss_usec in *; cbn; lia|]. split; [|split; [|exact Hd]]; apply Hset; lia.
  - unfold add_nanoseconds_mmssff, add_nanoseconds_ssff, sec6_add_nanoseconds, asserting. by rewrite (proj2 (Z.leb_gt _ _)) by lia.
Qed.

Lemma add_nanoseconds_exact_witness :
  let t := mkTime 0 0 0 5 59 59 999999 false MYSQL_TIMESTAMP_TIME in let s := mkSec6 7 999999 true false in
  if 500 <=? 1000000000 then
    (exists c t', add_nanoseconds_mmssff t 500 = Some (c, t') /\
       mmss_usec t' + (if (c : bool) then 3600000000 else 0) = mmss_usec t + (500 + 500) / 1000 /\
       time_fields t' /\ has_valid_mmssff t' = true /\ same_date_hour t t') /\
    (exists c s', sec6_add_nanoseconds s 500 = Some (c, s') /\
       m_usec s' + (if (c : bool) then 1000000 else 0) = m_usec s + (500 + 500) / 1000 /\
       0 <= m_usec s' <= 999999 /\ m_sec s' = m_sec s /\ m_neg s' = m_neg s)
  else add_nanoseconds_mmssff t 500 = None /\ sec6_add_nanoseconds s 500 = None.
Proof. apply (add_nanoseconds_exact (mkTime 0 0 0 5 59 59 999999 false MYSQL_TIMESTAMP_TIME) (mkSec6 7 999999 true false) 500); by vm_compute. Defined.

(** * Truncation *)

Section truncation.
Context `{L : time_library} `{D : !digit_laws}.

Lemma frac_step_cases dec : 0 <= dec <= 6 ->
  s64 (log_10_int (TIME_SECOND_PART_DIGITS - dec)) = frac_step dec /\ 0 < frac_step dec /\ 1000000 mod frac_step dec = 0.
Proof.
  intros Hd. rewrite log_10_int_pow by (unfold TIME_SECOND_PART_DIGITS; lia). unfold frac_step, TIME_SECOND_PART_DIGITS.
  assert (dec = 0 \/ dec = 1 \/ dec = 2 \/ dec = 3 \/ dec = 4 \/ dec = 5 \/ dec = 6) as H by lia.
  by repeat destruct H as [-> | H]; [..|subst dec].
Qed.

Lemma remainder_val x dec : 0 <= dec <= 6 -> 0 <= x -> my_time_fraction_remainder x dec = Some (x mod frac_step dec).
Proof.
  intros Hd Hx. destruct (frac_step_cases dec Hd) as (E & Hp & _). unfold my_time_fraction_remainder, asserting.
  rewrite (proj2 (Z.leb_le _ _)) by (unfold TIME_SECOND_PART_DIGITS; lia). by rewrite E, Z.rem_mod_nonneg by lia.
Qed.

Lemma trunc_part_val x dec : 0 <= dec <= 6 -> 0 <= x < 2 ^ 63 ->
  trunc_part x dec = Some (x - x mod frac_step dec) /\ 0 <= x - x mod frac_step dec <= x /\ (x - x mod frac_step dec) mod frac_step dec = 0.
Proof.
  intros Hd Hx. destruct (frac_step_cases dec Hd) as (_ & Hp & _). unfold trunc_part.
  rewrite (swrap_small 64 x) by (unfold sfits; lia). rewrite remainder_val by lia. cbn [mbind option_bind].
  pose proof (Z.mod_pos_bound x _ Hp). pose proof (Z.mod_le x _ ltac:(lia) Hp).
  split; [f_equal; apply uwrap_small; unfold ufits; lia|]. split; [lia|].
  rewrite <- (Z.mod_mul (x / frac_step dec) (frac_step dec)) by lia. f_equal. rewrite (Z.div_mod x (frac_step dec)) at 1 by lia. lia.
Qed.

(** Truncating the fraction truncates the whole value, the step dividing a second. *)
Lemma trunc_whole a x dec : 0 <= dec <= 6 -> (a * 1000000 + x) mod frac_step dec = x mod frac_step dec.
Proof.
  intros Hd. destruct (frac_step_cases dec Hd) as (_ & Hp & Hdiv). rewrite <- (Z_mod_plus_full x (a * (1000000 / frac_step dec))). f_equal.
  rewrite <- Z.mul_assoc, (Z.mul_comm (1000000 / _)), <- (Z_div_exact_full_2 1000000 (frac_step dec)) by lia. lia.
Qed.

Lemma time_usec_split t : time_usec t = (t_hour t * 3600 + t_minute t * 60 + t_second t) * 1000000 + t_second_part t.
Proof. unfold time_usec, mmss_usec. lia. Qed.

Lemma my_time_trunc_val t dec : 0 <= dec <= 6 -> time_fields t ->
  exists t', my_time_trunc t dec = Some t' /\ time_usec t' = time_usec t - time_usec t mod frac_step dec /\
    time_fields t' /\ t_neg t' = t_neg t && negb (time_usec t' =? 0) /\
    time_type t' = time_type t /\ has_zero_YYYYMMDD t' = has_zero_YYYYMMDD t /\ t_hour t' = t_hour t.
Proof.
  intros Hd (Hh & Hm & Hs & Hf). destruct (trunc_part_val (t_second_part t) dec Hd ltac:(lia)) as (E & Hr & _).
  unfold my_time_trunc. rewrite E. cbn [mbind option_bind].
  set (ff := t_second_part t - _) in *. set (t1 := set_second_part t ff).
  assert (time_usec t1 = time_usec t - time_usec t mod frac_step dec) as Ev.
  { rewrite !time_usec_split, trunc_whole by done. cbn. fold ff. lia. }
  assert (time_fields t1) as Hf1 by (unfold time_fields; cbn; lia).
  assert ((negb (c_true ff) && t_neg t && negb (c_true (t_hour t)) && negb (c_true (t_minute t)) && negb (c_true (t_second t))) =
          t_neg t && (time_usec t1 =? 0)) as Ec.
  { rewrite time_usec_split. cbn. unfold c_true. destruct (t_neg t); [|by rewrite andb_false_r]. rewrite !negb_involutive, andb_true_r. cbn [andb].
    destruct (Z.eqb_spec ff 0), (Z.eqb_spec (t_hour t) 0), (Z.eqb_spec (t_minute t) 0), (Z.eqb_spec (t_second t) 0); cbn [andb];
      symmetry; first [apply Z.eqb_eq|apply Z.eqb_neq]; lia. }
  cbn zeta. change (t_second_part t1) with ff. change (t_neg t1) with (t_neg t). change (t_hour t1) with (t_hour t).
  change (t_minute t1) with (t_minute t). change (t_second t1) with (t_second t). rewrite Ec.
  destruct (t_neg t) eqn:En; [destruct (time_usec t1 =? 0) eqn:Ez|]; cbn [andb]; eexists; (split; [done|]).
  - split; [exact Ev|]. split; [exact Hf1|]. split; [|done]. change (time_usec (set_neg t1 false)) with (time_usec t1). by rewrite Ez.
  - split; [exact Ev|]. split; [exact Hf1|]. split; [|done]. rewrite Ez. exact En.
  - split; [exact Ev|]. split; [exact Hf1|]. split; [|done]. exact En.
Qed.

(** Truncation to [dec] digits: the value of a TIME becomes the multiple of the
    digit's step nearest to it towards zero, other members are kept, a value that
    becomes zero loses its sign, and truncating again changes nothing; the fraction
    of a [Sec6] and of a [timeval] is cut in the same way, which is also what
    shifting the fraction out to [dec] digits and back gives.  More than six digits
    fail the assertion. *)
Theorem truncation_exact t s tv dec :
  time_fields t -> 0 <= m_usec s <= 999999 -> 0 <= tv_usec tv <= 999999 -> 0 <= dec ->
  if dec <=? 6 then
    (exists t', my_time_trunc t dec = Some t' /\ time_value t' = Z.quot (time_value t) (frac_step dec) * frac_step dec /\
       time_fields t' /\ (t_neg t' = true -> time_value t' < 0) /\ my_time_trunc t' dec = Some t') /\
    (exists ff, my_datetime_trunc t dec = Some (set_second_part t ff) /\ ff = t_second_part t - t_second_part t mod frac_step dec /\
       sec_part_unshift (sec_part_shift (t_second_part t) dec) dec = ff) /\
    sec6_trunc s dec = Some (mkSec6 (m_sec s) (m_usec s - m_usec s mod frac_step dec) (m_neg s) (m_truncated s)) /\
    my_timeval_trunc tv dec = Some (mkTv (tv_sec tv) (tv_usec tv - tv_usec tv mod frac_step dec))
  else my_time_trunc t dec = None /\ my_datetime_trunc t dec = None /\ sec6_trunc s dec = None /\ my_timeval_trunc tv dec = None.
Proof.
  intros Ht Hs Htv Hd. destruct (Z.leb_spec dec 6) as [Hle|Hgt].
  - destruct (frac_step_cases dec ltac:(lia)) as (Elog & Hp & _). split; [|split; [|split]].
    + destruct (my_time_trunc_val t dec ltac:(lia) Ht) as (t' & -> & Ev & Hf & En & _ & _). exists t'. split; [done|].
      assert (0 <= time_usec t /\ 0 <= time_usec t') as [Hu Hu'].
      { split; rewrite time_usec_split; [destruct Ht as (? & ? & ? & ?)|destruct Hf as (? & ? & ? & ?)]; lia. }
      assert (time_usec t - time_usec t mod frac_step dec = Z.quot (time_usec t) (frac_step dec) * frac_step dec) as Eq.
      { rewrite Z.quot_div_nonneg by lia. pose proof (Z.div_mod (time_usec t) (frac_step dec) ltac:(lia)). lia. }
      split; [|split; [done|split]].
      * unfold time_value, signed. rewrite En. destruct (t_neg t); cbn [andb]; [|lia]. rewrite Z.quot_opp_l by lia.
        destruct (Z.eqb_spec (time_usec t') 0); cbn [negb]; lia.
      * unfold time_value, signed. rewrite En. destruct (Z.eqb_spec (time_usec t') 0); [by rewrite andb_false_r|]. destruct (t_neg t); cbn [andb negb]; lia.
      * assert (trunc_part (t_second_part t') dec = Some (t_second_part t')) as E1.
        { destruct Hf as (? & ? & ? & ?). destruct (trunc_part_val (t_second_part t') dec ltac:(lia) ltac:(lia)) as (-> & _). f_equal.
          rewrite <- (trunc_whole (t_hour t' * 3600 + t_minute t' * 60 + t_second t') (t_second_part t') dec), <- time_usec_split, Ev, Eq, Z_mod_mult by lia. lia. }
        unfold my_time_trunc. rewrite E1. cbn [mbind option_bind]. replace (set_second_part t' (t_second_part t')) with t' by (by destruct t').
        rewrite En. destruct (Z.eqb_spec (time_usec t') 0) as [Ez|Ez]; [by rewrite !andb_false_r|].
        rewrite time_usec_split in Ez. unfold c_true. destruct (Z.eqb_spec (t_second_part t') 0), (Z.eqb_spec (t_hour t') 0), (Z.eqb_spec (t_minute t') 0), (Z.eqb_spec (t_second t') 0);
          cbn [negb andb]; rewrite ?andb_false_r; try done. lia.
    + destruct Ht as (? & ? & ? & ?). destruct (trunc_part_val (t_second_part t) dec ltac:(lia) ltac:(lia)) as (E & _ & _).
      unfold my_datetime_trunc. rewrite E. eexists. split; [done|]. split; [done|].
      unfold sec_part_unshift, sec_part_shift. rewrite Elog, Z.quot_div_nonneg by lia.
      pose proof (Z.div_mod (t_second_part t) (frac_step dec) ltac:(lia)). lia.
    + unfold sec6_trunc. by destruct (trunc_part_val (m_usec s) dec ltac:(lia) ltac:(lia)) as (-> & _).
    + unfold my_timeval_trunc. by rewrite remainder_val by lia.
  - assert (forall x, my_time_fraction_remainder x dec = None) as E.
    { intros x. unfold my_time_fraction_remainder, asserting. by rewrite (proj2 (Z.leb_gt _ _)) by (unfold TIME_SECOND_PART_DIGITS; lia). }
    unfold my_time_trunc, my_datetime_trunc, sec6_trunc, my_timeval_trunc, trunc_part. by rewrite !E.
Qed.
End truncation.

(** * A concrete library *)

(** The functions the headers declare, as far as the laws determine them: the
    hypotheses of the theorems can hold together. *)
Definition concrete_check_time_range (t : MYSQL_TIME) (dec warn : Z) : Z * MYSQL_TIME * Z :=
  let limit := 999999 - 999999 mod frac_step dec in
  if time_usec t <=? TIME_MAX_VALUE_SECONDS * 1000000 + limit then (0, t, warn)
  else (0, set_hhmmssff (set_YYYYMMDD t (t_year t) (t_month t) 0) TIME_MAX_HOUR 59 59 limit, warn .| MYSQL_TIME_WARN_OUT_OF_RANGE).
Definition concrete_calc_time_from_sec (t : MYSQL_TIME) (s us : Z) : MYSQL_TIME :=
  set_hhmmssff t (s / 3600) (s / 60 mod 60) (s mod 60) us.
Definition concrete_diff (t1 t2 : MYSQL_TIME) (sign : Z) : bool * Z * Z :=
  let x := time_usec t1 - sign * time_usec t2 in (x <? 0, Z.abs x / 1000000, Z.abs x mod 1000000).
Definition concrete_time (neg : bool) (sec usec : Z) : MYSQL_TIME :=
  mkTime 0 0 0 (sec / 3600) (sec / 60 mod 60) (sec mod 60) usec neg MYSQL_TIMESTAMP_TIME.
(** hhmmss digits. *)
Definition concrete_digits_time (neg : bool) (nr usec : Z) : MYSQL_TIME :=
  mkTime 0 0 0 (nr / 10000) (nr / 100 mod 100) (nr mod 100) usec neg MYSQL_TIMESTAMP_TIME.
(** YYYYMMDDhhmmss digits. *)
Definition concrete_digits_datetime (nr usec : Z) : MYSQL_TIME :=
  mkTime (nr / 10000000000) (nr / 100000000 mod 100) (nr / 1000000 mod 100) (nr / 10000 mod 100) (nr / 100 mod 100) (nr mod 100)
    usec false MYSQL_TIMESTAMP_DATETIME.
(** Rounding a time to [dec] digits, away from zero at one half. *)
Definition concrete_round (t : MYSQL_TIME) (dec warn nsec : Z) : MYSQL_TIME * Z :=
  let g := frac_step dec in
  let x := (time_usec t * 1000 + nsec + g * 500) / (g * 1000) * g in
  let t := set_hhmmssff t (x / 3600000000) (x / 60000000 mod 60) (x / 1000000 mod 60) (x mod 1000000) in
  let '(_, t, warn) := concrete_check_time_range t dec warn in (t, warn).
Definition concrete_date_range (t : MYSQL_TIME) : bool :=
  negb ((t_year t <=? 9999) && (t_month t <=? 12) && (t_day t <=? 31) && (t_hour t <=? 23) && has_valid_mmssff t).

Definition concrete_library : time_library := {|
  log_10_int i := 10 ^ i;
  set_zero_time ty := mkTime 0 0 0 0 0 0 0 false ty;
  check_time_range := concrete_check_time_range;
  number_to_time_only neg nr usec max_hour t w :=
    if (nr / 10000 <=? max_hour) && (nr / 100 mod 100 <=? 59) && (nr mod 100 <=? 59)
    then (0, concrete_digits_time neg nr usec, w) else (1, t, MYSQL_TIME_WARN_OUT_OF_RANGE);
  number_to_datetime_or_date nr usec t flags w :=
    let d := concrete_digits_datetime nr usec in
    if (nr <? 0) || concrete_date_range d then (-1, t, MYSQL_TIME_WARN_TRUNCATED) else (0, d, w);
  calc_time_diff_sec := concrete_diff;
  calc_time_diff t1 t2 sign mode := let '(neg, s, us) := concrete_diff t1 t2 sign in (false, concrete_time neg s us);
  calc_time_from_sec := concrete_calc_time_from_sec;
  adjust_time_range_with_warn t dec := let '(rc, t, _) := concrete_check_time_range t dec 0 in (c_true rc, t);
  get_date_from_daynr n := (n <? 0, (n / 372, n / 31 mod 12 + 1, n mod 31 + 1));
  calc_daynr y m d := y * 372 + (m - 1) * 31 + (d - 1);
  current_date := mkTime 2024 1 1 0 0 0 0 false MYSQL_TIMESTAMP_DATE;
  pack_time t := signed (t_neg t) (((t_year t * 13 + t_month t) * 32 + t_day t) * 2 ^ 41 + time_usec t);
  check_datetime_range := concrete_date_range;
  sec9_round s dec := s;
  time_round_or_set_max t dec w := concrete_round t dec w 0;
  time_round_or_set_max_nsec t dec w nsec := concrete_round t dec w nsec;
  datetime_round t dec w := (false, (concrete_round t dec w 0).1, w);
  datetime_round_nsec t dec w nsec := (false, (concrete_round t dec w nsec).1, w);
  timestamp_round_or_set_max tv dec w := (tv, w)
|}.

Lemma concrete_digit_laws : @digit_laws concrete_library.
Proof. by split. Qed.

Lemma max_seconds_split t : time_fields t ->
  time_usec t = (t_hour t * 3600 + t_minute t * 60 + t_second t) * 1000000 + t_second_part t /\ 0 <= t_minute t * 60 + t_second t <= 3599.
Proof. intros (H1 & H2 & H3 & H4). rewrite time_usec_split. lia. Qed.

Lemma frac_step_bound dec : 0 <= dec <= 6 -> 0 <= 999999 - 999999 mod frac_step dec <= 999999.
Proof.
  intros Hd. assert (0 < frac_step dec) by (apply Z.pow_pos_nonneg; lia).
  pose proof (Z.mod_pos_bound 999999 (frac_step dec)). pose proof (Z.mod_le 999999 (frac_step dec)). lia.
Qed.

Lemma concrete_range_laws : @range_laws concrete_library.
Proof.
  split.
  - intros t dec w Hd Hf Hday Hh. destruct (max_seconds_split t Hf) as [E Hms]. pose proof (frac_step_bound dec Hd).
    cbn. unfold concrete_check_time_range. rewrite (proj2 (Z.leb_gt _ _)).
    + eexists. do 2 f_equal. destruct t. cbn in Hday. by subst.
    + unfold TIME_MAX_VALUE_SECONDS, TIME_MAX_HOUR, TIME_MAX_MINUTE, TIME_MAX_SECOND in *. destruct Hf as (? & ? & ? & ?). lia.
  - intros t dec w Hd Hf Hday Hh Hle. cbn. unfold concrete_check_time_range. by rewrite (proj2 (Z.leb_le _ _)) by done.
Qed.

Lemma concrete_diff_laws : @diff_laws concrete_library.
Proof. by split. Qed.

Lemma truncation_exact_witness :
  let t := mkTime 0 0 0 0 0 0 500 true MYSQL_TIMESTAMP_TIME in let s := mkSec6 7 123456 true false in let tv := mkTv 9 987654 in
  if 3 <=? 6 then
    (exists t', @my_time_trunc concrete_library t 3 = Some t' /\ time_value t' = Z.quot (time_value t) (frac_step 3) * frac_step 3 /\
       time_fields t' /\ (t_neg t' = true -> time_value t' < 0) /\ @my_time_trunc concrete_library t' 3 = Some t') /\
    (exists ff, @my_datetime_trunc concrete_library t 3 = Some (set_second_part t ff) /\ ff = t_second_part t - t_second_part t mod frac_step 3 /\
       @sec_part_unshift concrete_library (@sec_part_shift concrete_library (t_second_part t) 3) 3 = ff) /\
    @sec6_trunc concrete_library s 3 = Some (mkSec6 (m_sec s) (m_usec s - m_usec s mod frac_step 3) (m_neg s) (m_truncated s)) /\
    @my_timeval_trunc concrete_library tv 3 = Some (mkTv (tv_sec tv) (tv_usec tv - tv_usec tv mod frac_step 3))
  else @my_time_trunc concrete_library t 3 = None /\ @my_datetime_trunc concrete_library t 3 = None /\
       @sec6_trunc concrete_library s 3 = None /\ @my_timeval_trunc concrete_library tv 3 = None.
Proof.
  apply (@truncation_exact concrete_library concrete_digit_laws (mkTime 0 0 0 0 0 0 500 true MYSQL_TIMESTAMP_TIME) (mkSec6 7 123456 true false) (mkTv 9 987654) 3);
    by vm_compute.
Defined.

(** * Seconds to TIME *)

Section seconds.
Context `{L : time_library} `{D : !digit_laws} `{R : !range_laws}.

(** Seconds become a TIME: up to 838:59:59 exactly, in hours, minutes, seconds
    and the fraction, with the sign; beyond that the function reports an error and
    gives the last TIME of [dec] digits, with the sign. *)
Theorem sec_to_time_exact s dec unused :
  0 <= m_sec s < 2 ^ 64 -> 0 <= m_usec s <= 999999 -> 0 <= dec <= 6 ->
  exists err t, sec_to_time s dec unused = Some (err, t) /\
    time_type t = MYSQL_TIMESTAMP_TIME /\ has_zero_YYYYMMDD t = true /\ time_fields t /\ t_hour t <= TIME_MAX_HOUR /\ t_neg t = m_neg s /\
    err = (TIME_MAX_VALUE_SECONDS <? m_sec s) /\
    time_usec t = if err then TIME_MAX_VALUE_SECONDS * 1000000 + (999999 - 999999 mod frac_step dec) else m_sec s * 1000000 + m_usec s.
Proof.
  intros Hs Hu Hd. unfold sec_to_time. rewrite set_zero_time_zero. destruct (Z.ltb_spec TIME_MAX_VALUE_SECONDS (m_sec s)) as [Hgt|Hle].
  - pose proof (frac_step_bound dec Hd). cbn [set_neg t_minute t_second t_second_part t_hour].
    match goal with |- context [check_time_range ?t _ _] => destruct (check_time_range_max t dec unused) as [w' E] end; [done|by vm_compute|done|done|].
    rewrite E. eexists _, _. split; [done|]. cbn. split; [done|]. split; [done|]. split; [unfold time_fields; cbn; unfold TIME_MAX_HOUR; lia|].
    unfold time_usec, mmss_usec, TIME_MAX_VALUE_SECONDS, TIME_MAX_HOUR, TIME_MAX_MINUTE, TIME_MAX_SECOND. cbn.
    split; [done|]. split; [done|]. split; [done|]. lia.
  - assert (TIME_MAX_VALUE_SECONDS = 3020399) as EM by done. unfold sec6_usec, asserting.
    rewrite swrap_small, (proj2 (Z.leb_le _ _)) by (unfold sfits, TIME_MAX_SECOND_PART; lia). cbn [mbind option_bind].
    assert (0 <= m_sec s / 3600 <= 838 /\ 0 <= m_sec s mod 3600 < 3600) as [H1 H2] by lia_mod.
    rewrite (uwrap_small 32 (m_sec s / 3600)), (uwrap_small 32 (m_sec s mod 3600)), (uwrap_small 32 (m_sec s)) by (unfold ufits; lia).
    assert (0 <= m_sec s mod 3600 / 60 <= 59 /\ 0 <= m_sec s mod 60 <= 59) as [H3 H4] by lia_mod.
    eexists _, _. split; [done|]. cbn. split; [done|]. split; [done|]. split; [unfold time_fields; cbn; lia|].
    split; [unfold TIME_MAX_HOUR; lia|]. split; [done|]. split; [done|]. rewrite time_usec_split. cbn. lia_mod.
Qed.
End seconds.

Lemma sec_to_time_exact_witness :
  let s := mkSec6 3020400 5 true false in
  exists err t, @sec_to_time concrete_library s 2 0 = Some (err, t) /\
    time_type t = MYSQL_TIMESTAMP_TIME /\ has_zero_YYYYMMDD t = true /\ time_fields t /\ t_hour t <= TIME_MAX_HOUR /\ t_neg t = m_neg s /\
    err = (TIME_MAX_VALUE_SECONDS <? m_sec s) /\
    time_usec t = if err then TIME_MAX_VALUE_SECONDS * 1000000 + (999999 - 999999 mod frac_step 2) else m_sec s * 1000000 + m_usec s.
Proof.
  apply (@sec_to_time_exact concrete_library concrete_digit_laws concrete_range_laws (mkSec6 3020400 5 true false) 2 0); cbn [m_sec m_usec]; lia.
Defined.

(** * Sums of times *)

Section sums.
Context `{L : time_library} `{D : !diff_laws}.

Lemma time_usec_range t : time_interval t -> 0 <= time_usec t < 87649416 * 3600000000.
Proof.
  intros (_ & _ & Hf & Hh). pose proof Hf as (H1 & H2 & H3 & H4). rewrite time_usec_split. unfold TIME_MAX_INTERVAL_HOUR in Hh. lia.
Qed.

(** Sign and magnitude of a number. *)
Lemma signed_abs b x : (b = true -> x <= 0) -> (b = false -> 0 <= x) -> signed b (Z.abs x) = x.
Proof. intros H1 H2. unfold signed. destruct b; [specialize (H1 eq_refl)|specialize (H2 eq_refl)]; lia. Qed.

(** What [calc_time_diff] is asked for is the sum with the sign of the first time
    taken out. *)
Lemma sec6_add_sign n1 n2 x1 x2 sign :
  signed n1 x1 + sign * signed n2 x2 = signed n1 (x1 + (if Bool.eqb n1 n2 then sign else - sign) * x2).
Proof. unfold signed. destruct n1, n2; cbn [Bool.eqb]; lia. Qed.

Lemma sec6_add_val t1 t2 sign :
  time_interval t1 -> time_interval t2 -> sign = 1 \/ sign = -1 ->
  let sum := time_value t1 + sign * time_value t2 in
  sec6_add t1 t2 sign = Some (mkAdd (Z.abs sum / 1000000) (Z.abs sum mod 1000000) (sum <? 0) false).
Proof.
  intros H1 H2 Hs. pose proof H1 as (Ty1 & _). pose proof H2 as (Ty2 & _). unfold sec6_add, asserting.
  assert ((sign =? -1) || (sign =? 1) = true) as -> by (destruct Hs as [-> | ->]; done). cbn [mbind option_bind].
  rewrite (bool_decide_true (time_type t1 = _)), (bool_decide_false (time_type t2 <> _)) by (done || by intros Hne; apply Hne). rewrite orb_true_r.
  set (sign' := if Bool.eqb (t_neg t1) (t_neg t2) then sign else - sign). cbn [mbind option_bind].
  rewrite calc_time_diff_sec_val by (done || unfold sign'; destruct (Bool.eqb _ _); lia).
  replace (time_usec t1 - - sign' * time_usec t2) with (time_usec t1 + sign' * time_usec t2) by lia.
  set (x := time_usec t1 + sign' * time_usec t2).
  assert (time_value t1 + sign * time_value t2 = signed (t_neg t1) x) as -> by apply sec6_add_sign.
  assert (Z.abs (signed (t_neg t1) x) = Z.abs x) as -> by (unfold signed; destruct (t_neg t1); lia).
  do 2 f_equal. unfold signed. destruct (t_neg t1); [|done]. cbn [andb].
  assert (c_true (Z.abs x / 1000000) || c_true (Z.abs x mod 1000000) = negb (x =? 0)) as ->.
  { unfold c_true. pose proof (Z.div_mod (Z.abs x) 1000000 ltac:(lia)).
    destruct (Z.eqb_spec (Z.abs x / 1000000) 0), (Z.eqb_spec (Z.abs x mod 1000000) 0), (Z.eqb_spec x 0); cbn; try done; lia_mod. }
  destruct (Z.eqb_spec x 0) as [->|]; [done|]. cbn [negb]. destruct (Z.ltb_spec x 0), (Z.ltb_spec (- x) 0); cbn; done || lia.
Qed.

(** [to_time] builds the time with the seconds and microseconds of the sum. *)
Lemma add_to_time_val S U n ltime dec : 0 <= S < 2000000000000 -> 0 <= U <= 999999 ->
  exists t, add_to_time (mkAdd S U n false) ltime dec = adjust_time_range_with_warn t dec /\
    time_usec t = S * 1000000 + U /\ t_neg t = n /\ time_fields t /\ time_type t = MYSQL_TIMESTAMP_TIME /\ has_zero_YYYYMMDD t = true.
Proof.
  intros HS HU. unfold add_to_time, to_hh24mmssff, to_days_abs, SECONDS_IN_24H. cbn [add_sec add_usec add_neg add_error].
  rewrite calc_time_from_sec_val by (unfold SECONDS_IN_24H; lia_mod).
  set (r := S mod 86400). assert (0 <= r < 86400 /\ 0 <= S / 86400 < 30000000 /\ S = S / 86400 * 86400 + r) as (Hr & Hq & Er) by (unfold r; lia_mod).
  assert (0 <= r / 3600 < 24 /\ 0 <= r / 60 mod 60 <= 59 /\ 0 <= r mod 60 <= 59 /\ r = r / 3600 * 3600 + r / 60 mod 60 * 60 + r mod 60) as (R1 & R2 & R3 & R4).
  { split; [lia_mod|]. split; [lia_mod|]. split; lia_mod. }
  cbn [set_type set_hhmmssff set_neg bzero_time t_hour t_minute t_second t_second_part t_neg time_type].
  rewrite (swrap_small 64) by (unfold sfits; lia). rewrite (uwrap_small 32 (S / 86400 * 24)) by (unfold ufits; lia).
  rewrite uwrap_small by (unfold ufits; lia). eexists. split; [reflexivity|].
  split; [rewrite time_usec_split; cbn [set_hhmmssff t_hour t_minute t_second t_second_part]; lia|].
  split; [done|]. split; [unfold time_fields; cbn [set_hhmmssff t_hour t_minute t_second t_second_part]; lia|done].
Qed.

(** C38.  Adding or subtracting two TIME values of any signs: [Sec6_add] holds the
    exact sum, never a negative zero, and [to_time] builds from it the time with
    that value, which it then cuts to the TIME range; a second operand that is not
    a TIME is an error, which leaves the result alone. *)
Theorem sec6_add_exact t1 t2 t3 sign ltime dec :
  time_interval t1 -> time_interval t2 -> time_type t3 <> MYSQL_TIMESTAMP_TIME -> sign = 1 \/ sign = -1 ->
  let sum := time_value t1 + sign * time_value t2 in
  (exists a t, sec6_add t1 t2 sign = Some a /\ add_error a = false /\
     signed (add_neg a) (add_sec a * 1000000 + add_usec a) = sum /\ (add_neg a = true -> sum < 0) /\
     add_to_time a ltime dec = adjust_time_range_with_warn t dec /\
     time_value t = sum /\ time_fields t /\ time_type t = MYSQL_TIMESTAMP_TIME /\ has_zero_YYYYMMDD t = true) /\
  (exists a, sec6_add t1 t3 sign = Some a /\ add_to_time a ltime dec = (true, ltime) /\ add_to_datetime a ltime = (true, ltime)).
Proof.
  intros H1 H2 H3 Hs sum. split.
  - pose proof (time_usec_range t1 H1). pose proof (time_usec_range t2 H2).
    assert (Z.abs sum < 4 * 87649416 * 3600000000) as Hsum.
    { unfold sum, time_value, signed. destruct Hs as [-> | ->], (t_neg t1), (t_neg t2); lia. }
    set (S := Z.abs sum / 1000000). set (U := Z.abs sum mod 1000000).
    assert (Z.abs sum = S * 1000000 + U /\ 0 <= U <= 999999 /\ 0 <= S < 2000000000000) as (ES & HU & HS) by (unfold S, U; lia_mod).
    destruct (add_to_time_val S U (sum <? 0) ltime dec HS HU) as (t & Et & Eu & En & Ht).
    assert (signed (sum <? 0) (S * 1000000 + U) = sum) as Eval.
    { rewrite <- ES. apply signed_abs; destruct (Z.ltb_spec sum 0); done || lia. }
    exists (mkAdd S U (sum <? 0) false), t. split; [by apply sec6_add_val|]. split; [done|]. split; [exact Eval|].
    split; [by intros ?%Z.ltb_lt|]. split; [exact Et|]. split; [|exact Ht]. unfold time_value. by rewrite En, Eu.
  - exists (mkAdd 0 0 false true). split; [|done]. pose proof H1 as (Ty1 & _). unfold sec6_add, asserting.
    assert ((sign =? -1) || (sign =? 1) = true) as -> by (destruct Hs as [-> | ->]; done). cbn [mbind option_bind].
    rewrite (bool_decide_true (time_type t1 = _)), orb_true_r by done. cbn [mbind option_bind]. by rewrite bool_decide_true.
Qed.
End sums.

Lemma sec6_add_exact_witness :
  let t1 := mkTime 0 0 0 1 0 0 0 true MYSQL_TIMESTAMP_TIME in let t2 := mkTime 0 0 0 100 30 0 5 false MYSQL_TIMESTAMP_TIME in
  let t3 := bzero_time in let sum := time_value t1 + 1 * time_value t2 in
  (exists a t, @sec6_add concrete_library t1 t2 1 = Some a /\ add_error a = false /\
     signed (add_neg a) (add_sec a * 1000000 + add_usec a) = sum /\ (add_neg a = true -> sum < 0) /\
     @add_to_time concrete_library a t3 6 = @adjust_time_range_with_warn concrete_library t 6 /\
     time_value t = sum /\ time_fields t /\ time_type t = MYSQL_TIMESTAMP_TIME /\ has_zero_YYYYMMDD t = true) /\
  (exists a, @sec6_add concrete_library t1 t3 1 = Some a /\ @add_to_time concrete_library a t3 6 = (true, t3) /\ @add_to_datetime concrete_library a t3 = (true, t3)).
Proof.
  apply (@sec6_add_exact concrete_library concrete_diff_laws (mkTime 0 0 0 1 0 0 0 true MYSQL_TIMESTAMP_TIME)
    (mkTime 0 0 0 100 30 0 5 false MYSQL_TIMESTAMP_TIME) bzero_time 1 bzero_time 6); [by vm_compute..|by left].
Defined.

(** * Ranges and packed values *)

Definition YYYYMMDD (t : MYSQL_TIME) : Z := t_year t * 10000 + t_month t * 100 + t_day t.

(** The range check for TIMESTAMP accepts exactly the dates from 1969-12-31 to
    2038-01-19: it rejects no date that some time zone can give to a TIMESTAMP, and
    the year 1969 and 2038 only on the days beside the range. *)
Theorem validate_timestamp_range_exact t :
  1 <= t_month t <= 12 -> 1 <= t_day t <= 31 ->
  validate_timestamp_range t = true <-> 19691231 <= YYYYMMDD t <= 20380119.
Proof.
  intros Hm Hd. unfold validate_timestamp_range, YYYYMMDD, TIMESTAMP_MAX_YEAR, TIMESTAMP_MIN_YEAR, YY_PART_YEAR.
  change (1900 + 70 - 1) with 1969.
  destruct (Z.ltb_spec 2038 (t_year t)), (Z.ltb_spec (t_year t) 1969), (Z.eqb_spec (t_year t) 2038), (Z.eqb_spec (t_year t) 1969); try lia; cbn [orb andb];
    repeat match goal with |- context [?a <? ?b] => destruct (Z.ltb_spec a b) end; cbn [orb andb]; split; intros; try done; lia.
Qed.

Lemma validate_timestamp_range_exact_witness :
  let t := mkTime 2038 1 19 3 14 7 0 false MYSQL_TIMESTAMP_DATETIME in
  validate_timestamp_range t = true <-> 19691231 <= YYYYMMDD t <= 20380119.
Proof. apply (validate_timestamp_range_exact (mkTime 2038 1 19 3 14 7 0 false MYSQL_TIMESTAMP_DATETIME)); cbn [t_month t_day]; lia. Defined.

Lemma packed_make_val i f : 0 <= i < 2 ^ 39 -> 0 <= f < 2 ^ 24 -> MY_PACKED_TIME_MAKE i f = i * 2 ^ 24 + f.
Proof.
  intros Hi Hf. unfold MY_PACKED_TIME_MAKE. rewrite (uwrap_small 64 i) by (unfold ufits; lia).
  rewrite Z.shiftl_mul_pow2 by lia. rewrite (uwrap_small 64 (i * _)), uwrap_small by (unfold ufits; lia). done.
Qed.

(** The packed format: the parts of a packed time are those it was made of; it
    orders times as their parts do; but the parts of its negation are not the
    negated parts: unless the fraction is zero, the whole part is one too low while
    the fraction is negative. *)
Theorem packed_time_parts i f i' f' :
  0 <= i < 2 ^ 39 -> 0 <= f < 2 ^ 24 -> 0 <= i' < 2 ^ 39 -> 0 <= f' < 2 ^ 24 ->
  MY_PACKED_TIME_GET_INT_PART (MY_PACKED_TIME_MAKE i f) = i /\ MY_PACKED_TIME_GET_FRAC_PART (MY_PACKED_TIME_MAKE i f) = f /\
  MY_PACKED_TIME_MAKE_INT i = MY_PACKED_TIME_MAKE i 0 /\
  (MY_PACKED_TIME_MAKE i f < MY_PACKED_TIME_MAKE i' f' <-> i < i' \/ (i = i' /\ f < f')) /\
  MY_PACKED_TIME_GET_FRAC_PART (- MY_PACKED_TIME_MAKE i f) = - f /\
  MY_PACKED_TIME_GET_INT_PART (- MY_PACKED_TIME_MAKE i f) = - i - (if f =? 0 then 0 else 1).
Proof.
  intros Hi Hf Hi' Hf'. rewrite !packed_make_val by lia. unfold MY_PACKED_TIME_GET_INT_PART, MY_PACKED_TIME_GET_FRAC_PART, MY_PACKED_TIME_MAKE_INT.
  change (1 .<< 24) with (2 ^ 24). rewrite !Z.shiftr_div_pow2 by lia. split; [lia_mod|]. split; [rewrite Z.rem_mod_nonneg by lia; lia_mod|].
  split; [rewrite (uwrap_small 64 i) by (unfold ufits; lia); rewrite Z.shiftl_mul_pow2 by lia; rewrite uwrap_small by (unfold ufits; lia); lia|].
  split; [lia|]. split; [rewrite Z.rem_opp_l, Z.rem_mod_nonneg by lia; lia_mod|].
  destruct (Z.eqb_spec f 0); lia_mod.
Qed.

Lemma packed_time_parts_witness :
  MY_PACKED_TIME_GET_INT_PART (MY_PACKED_TIME_MAKE 5 7) = 5 /\ MY_PACKED_TIME_GET_FRAC_PART (MY_PACKED_TIME_MAKE 5 7) = 7 /\
  MY_PACKED_TIME_MAKE_INT 5 = MY_PACKED_TIME_MAKE 5 0 /\
  (MY_PACKED_TIME_MAKE 5 7 < MY_PACKED_TIME_MAKE 5 8 <-> 5 < 5 \/ (5 = 5 /\ 7 < 8)) /\
  MY_PACKED_TIME_GET_FRAC_PART (- MY_PACKED_TIME_MAKE 5 7) = - 7 /\
  MY_PACKED_TIME_GET_INT_PART (- MY_PACKED_TIME_MAKE 5 7) = - 5 - (if 7 =? 0 then 0 else 1).
Proof. apply (packed_time_parts 5 7 5 8); lia. Defined.

(** * Numbers *)

(** An integer of either signedness becomes a [Sec6] of the same value and
    sign, without fraction.  Its seconds are not bounded by [LONGLONG_MAX], as the
    class says: they exceed it exactly for the unsigned numbers beyond the signed
    range, and equal [LONGLONG_MAX + 1] for the least [longlong]. *)
Theorem sec6_of_integer nr :
  hybrid_ok nr ->
  let s := sec6_make_from_int nr in
  signed (m_neg s) (m_sec s) = hybrid_value nr /\ (m_neg s = true <-> hybrid_value nr < 0) /\ m_usec s = 0 /\ m_truncated s = false /\
  0 <= m_sec s < 2 ^ 64 /\
  (LONGLONG_MAX < m_sec s <-> is_unsigned_outside_of_signed_range nr = true \/ hybrid_value nr = LONGLONG_MIN).
Proof.
  intros Hok. cbn. rewrite hybrid_abs_val by done.
  assert (neg nr = (hybrid_value nr <? 0)) as ->.
  { unfold neg, hybrid_value. destruct (m_unsigned nr); cbn; rewrite ?andb_false_r, ?andb_true_r; [|done].
    symmetry. apply Z.ltb_ge. apply uwrap_range. lia. }
  assert (-(2 ^ 63) <= hybrid_value nr < 2 ^ 64) as Hr.
  { unfold hybrid_value, hybrid_ok, sfits in *. pose proof (uwrap_range 64 (m_value nr) ltac:(lia)). unfold ufits in *. destruct (m_unsigned nr); lia. }
  split; [apply signed_abs; destruct (Z.ltb_spec (hybrid_value nr) 0); done || lia|].
  split; [apply Z.ltb_lt|]. split; [done|]. split; [done|]. split; [lia|].
  unfold is_unsigned_outside_of_signed_range, LONGLONG_MIN. rewrite u64_LONGLONG_MAX. unfold LONGLONG_MAX, hybrid_value, hybrid_ok, sfits in *.
  destruct (m_unsigned nr); cbn [andb]; rewrite ?Z.ltb_lt; lia || (split; [intros; right; lia|intros [|]; [done|lia]]).
Qed.

Lemma sec6_of_integer_witness :
  let nr := mkHybrid (-1) true in let s := sec6_make_from_int nr in
  signed (m_neg s) (m_sec s) = hybrid_value nr /\ (m_neg s = true <-> hybrid_value nr < 0) /\ m_usec s = 0 /\ m_truncated s = false /\
  0 <= m_sec s < 2 ^ 64 /\
  (LONGLONG_MAX < m_sec s <-> is_unsigned_outside_of_signed_range nr = true \/ hybrid_value nr = LONGLONG_MIN).
Proof. apply (sec6_of_integer (mkHybrid (-1) true)). by vm_compute. Defined.
