(* ===== verification/SqlTime.v ===== *)
(** The temporal classes of [private/sql_type.h]: [Time], [Extract_source],
    [Interval_DDhhmmssff], [Date], [Datetime], [Timestamp] and
    [Timestamp_or_zero_datetime].

    An object is its [MYSQL_TIME] (or [timeval]); a method returns the new object,
    and the new warning mask where it takes one; [None] is a failed assertion. *)

From S2P Require Import Prelude SqlError SqlTypeInt SqlDateMode SqlTemporal.

(** * [Time] *)

Inductive datetime_to_time_mode_t :=
  DATETIME_TO_TIME_DISALLOW | DATETIME_TO_TIME_YYYYMMDD_000000DD_MIX_TO_HOURS | DATETIME_TO_TIME_YYYYMMDD_TRUNCATE |
  DATETIME_TO_TIME_YYYYMMDD_00000000_ONLY | DATETIME_TO_TIME_MINUS_CURRENT_DATE.
#[export] Instance datetime_to_time_mode_eq_dec : EqDecision datetime_to_time_mode_t.
Proof. solve_decision. Defined.

Record Time_Options := mkOptions { opt_mode : date_mode_t; opt_datetime_to_time : datetime_to_time_mode_t }.

Definition time_default_flags_for_get_date : date_conv_mode_t := conv_or TIME_TIME_ONLY TIME_INVALID_DATES.
Definition time_comparison_flags_for_get_date : date_conv_mode_t := conv_or (conv_or TIME_TIME_ONLY TIME_INVALID_DATES) TIME_FUZZY_DATES.
Definition default_datetime_to_time_mode : datetime_to_time_mode_t := DATETIME_TO_TIME_YYYYMMDD_000000DD_MIX_TO_HOURS.

Definition time_options (fuzzydate : date_conv_mode_t) (round_mode : time_round_mode_t) (dtmode : datetime_to_time_mode_t) : Time_Options :=
  mkOptions (conv_or_round fuzzydate round_mode) dtmode.
(** [default_round_mode(thd)] is an argument. *)
Definition time_options_default (default_round_mode : time_round_mode_t) : Time_Options :=
  time_options time_default_flags_for_get_date default_round_mode default_datetime_to_time_mode.
Definition options_for_cast (mode : date_mode_t) (default_round_mode : time_round_mode_t) : Time_Options :=
  time_options (conv_or time_default_flags_for_get_date (mode_and_conv mode TIME_FUZZY_DATES)) default_round_mode DATETIME_TO_TIME_YYYYMMDD_TRUNCATE.
Definition options_for_round (round_mode : time_round_mode_t) : Time_Options :=
  time_options time_default_flags_for_get_date round_mode DATETIME_TO_TIME_DISALLOW.
Definition options_cmp (default_round_mode : time_round_mode_t) (dtmode : datetime_to_time_mode_t) : Time_Options :=
  time_options time_comparison_flags_for_get_date default_round_mode dtmode.

Section time.
Context `{time_library}.

Definition is_type (t : MYSQL_TIME) (ty : timestamp_type) : bool := bool_decide (time_type t = ty).

Definition is_valid_time_slow (t : MYSQL_TIME) : bool :=
  is_type t MYSQL_TIMESTAMP_TIME && has_zero_YYYYMMDD t && has_valid_mmssff t.
Definition time_is_valid_value_slow (t : MYSQL_TIME) : bool := is_type t MYSQL_TIMESTAMP_NONE || is_valid_time_slow t.
Definition is_valid_time (t : MYSQL_TIME) : option bool :=
  asserting (time_is_valid_value_slow t) (is_type t MYSQL_TIMESTAMP_TIME).
Definition hhmmssff_copy (t from : MYSQL_TIME) : MYSQL_TIME :=
  set_hhmmssff t (t_hour from) (t_minute from) (t_second from) (t_second_part from).

Definition datetime_to_time_YYYYMMDD_000000DD_mix_to_hours (t : MYSQL_TIME) (warn from_year from_month from_day : Z) : MYSQL_TIME * Z :=
  if c_true from_year || c_true from_month then (t, warn .| MYSQL_TIME_NOTE_TRUNCATED)
  else (set_hhmmssff t (u32 (t_hour t + u32 (from_day * 24))) (t_minute t) (t_second t) (t_second_part t), warn).
Definition datetime_to_time_minus_current_date (t : MYSQL_TIME) : option MYSQL_TIME :=
  let '(_, tmp) := calc_time_diff t current_date 1 (mode_of 0) in
  let '(_, t, _) := check_time_range tmp TIME_SECOND_PART_DIGITS 0 in
  b ← is_valid_time t; asserting b t.
Definition valid_datetime_to_valid_time (t : MYSQL_TIME) (warn : Z) (opt : Time_Options) : option (MYSQL_TIME * Z) :=
  _ ← asserting (is_date_or_datetime t) tt;
  _ ← asserting (t_day t <? 32) tt;
  _ ← asserting (t_hour t <? 24) tt;
  '(t, warn) ←
    (if bool_decide (opt_datetime_to_time opt = DATETIME_TO_TIME_MINUS_CURRENT_DATE) then
       t ← datetime_to_time_minus_current_date t; Some (t, warn)
     else
       let '(t, warn) :=
         if bool_decide (opt_datetime_to_time opt = DATETIME_TO_TIME_YYYYMMDD_000000DD_MIX_TO_HOURS)
         then datetime_to_time_YYYYMMDD_000000DD_mix_to_hours t warn (t_year t) (t_month t) (t_day t) else (t, warn) in
       Some (set_type (set_YYYYMMDD t 0 0 0) MYSQL_TIMESTAMP_TIME, warn));
  asserting (is_valid_time_slow t) (t, warn).
Definition valid_MYSQL_TIME_to_valid_value (t : MYSQL_TIME) (warn : Z) (opt : Time_Options) : option (MYSQL_TIME * Z) :=
  match time_type t with
  | MYSQL_TIMESTAMP_DATE | MYSQL_TIMESTAMP_DATETIME =>
      if bool_decide (opt_datetime_to_time opt = DATETIME_TO_TIME_YYYYMMDD_00000000_ONLY) &&
         (c_true (t_year t) || c_true (t_month t) || c_true (t_day t)) then Some (make_from_out_of_range t)
      else if bool_decide (opt_datetime_to_time opt = DATETIME_TO_TIME_DISALLOW) then Some (make_from_out_of_range t)
      else valid_datetime_to_valid_time t warn opt
  | MYSQL_TIMESTAMP_NONE => Some (t, warn)
  | MYSQL_TIMESTAMP_ERROR => Some (set_zero_time MYSQL_TIMESTAMP_TIME, warn)
  | MYSQL_TIMESTAMP_TIME => asserting (is_valid_time_slow t) (t, warn)
  end.
Definition xxx_to_time_result_to_valid_value (t : MYSQL_TIME) (warn : Z) (opt : Time_Options) : option (MYSQL_TIME * Z) :=
  _ ← asserting (negb (is_type t MYSQL_TIMESTAMP_ERROR)) tt;
  valid_MYSQL_TIME_to_valid_value t warn opt.
Definition adjust_time_range_or_invalidate (t : MYSQL_TIME) (warn : Z) : option (MYSQL_TIME * Z) :=
  let '(rc, t, warn) := check_time_range t TIME_SECOND_PART_DIGITS warn in
  let t := if c_true rc then set_type t MYSQL_TIMESTAMP_NONE else t in
  asserting (time_is_valid_value_slow t) (t, warn).

(** The constructors. *)
Definition time_null : MYSQL_TIME := set_type bzero_time MYSQL_TIMESTAMP_NONE.
Definition time_of_MYSQL_TIME (ltime : MYSQL_TIME) (opt : Time_Options) : option MYSQL_TIME :=
  v ← is_valid_temporal ltime;
  _ ← asserting v tt;
  '(t, _) ← valid_MYSQL_TIME_to_valid_value ltime 0 opt;
  Some t.
(** [this] is the object before it is constructed. *)
Definition time_of_sec6 (this : MYSQL_TIME) (warn : Z) (nr : Sec6) (opt : Time_Options) : option (MYSQL_TIME * Z) :=
  '(err, t, warn) ← to_datetime_or_time nr this warn TIME_INVALID_DATES;
  xxx_to_time_result_to_valid_value (if (err : bool) then set_type t MYSQL_TIMESTAMP_NONE else t) warn opt.
Definition time_of_sec9 (this : MYSQL_TIME) (warn : Z) (nr : Sec9) (opt : Time_Options) : option (MYSQL_TIME * Z) :=
  '(t, warn) ← time_of_sec6 this warn (s9_sec6 nr) opt;
  v ← is_valid_time t;
  if (v : bool) then
    r ← mode_to_round (opt_mode opt);
    Some (if round_eqb r TIME_FRAC_ROUND then time_round_or_set_max_nsec t 6 warn (m_nsec nr) else (t, warn))
  else Some (t, warn).

(** The methods. *)
Definition time_copy_to_mysql_time (t ltime : MYSQL_TIME) : option (bool * MYSQL_TIME) :=
  if is_type t MYSQL_TIMESTAMP_NONE then Some (true, set_type ltime MYSQL_TIMESTAMP_NONE)
  else asserting (is_valid_time_slow t) (false, t).
Definition time_cmp (t other : MYSQL_TIME) : option Z :=
  asserting (is_valid_time_slow t && is_valid_time_slow other)
    (if to_packed t <? to_packed other then -1 else if to_packed other <? to_packed t then 1 else 0).
Definition to_seconds_abs (t : MYSQL_TIME) : option Z :=
  asserting (is_valid_time_slow t) (t_hour t * 3600 + u32 (t_minute t * 60) + t_second t).
Definition to_seconds (t : MYSQL_TIME) : option Z :=
  s ← to_seconds_abs t; Some (if t_neg t then - s else s).
Definition time_to_packed (t : MYSQL_TIME) : option Z :=
  v ← is_valid_time t; Some (if (v : bool) then to_packed t else 0).
Definition time_fraction_remainder (t : MYSQL_TIME) (dec : Z) : option Z :=
  v ← is_valid_time t; _ ← asserting v tt; fraction_remainder t dec.

Definition time_trunc (t : MYSQL_TIME) (dec : Z) : option MYSQL_TIME :=
  v ← is_valid_time t;
  t ← (if (v : bool) then my_time_trunc t dec else Some t);
  asserting (time_is_valid_value_slow t) t.
Definition time_ceiling (t : MYSQL_TIME) (warn : Z) : option (MYSQL_TIME * Z) :=
  v ← is_valid_time t;
  '(t, warn) ←
    (if negb v then Some (t, warn)
     else if t_neg t then t ← my_time_trunc t 0; Some (t, warn)
     else Some (if c_true (t_second_part t) then time_round_or_set_max_nsec t 0 warn 999999999 else (t, warn)));
  asserting (time_is_valid_value_slow t) (t, warn).
Definition time_floor (t : MYSQL_TIME) (warn : Z) : option (MYSQL_TIME * Z) :=
  v ← is_valid_time t;
  '(t, warn) ←
    (if negb v then Some (t, warn)
     else if negb (t_neg t) then t ← my_time_trunc t 0; Some (t, warn)
     else Some (if c_true (t_second_part t) then time_round_or_set_max_nsec t 0 warn 999999999 else (t, warn)));
  asserting (time_is_valid_value_slow t) (t, warn).
Definition time_round (t : MYSQL_TIME) (dec warn : Z) : option (MYSQL_TIME * Z) :=
  v ← is_valid_time t;
  let '(t, warn) := if (v : bool) then time_round_or_set_max t dec warn else (t, warn) in
  asserting (time_is_valid_value_slow t) (t, warn).
Definition time_round_mode (t : MYSQL_TIME) (dec : Z) (mode : time_round_mode_t) (warn : Z) : option (MYSQL_TIME * Z) :=
  if round_mode mode =? Round.FRAC_NONE then
    r ← time_fraction_remainder t dec;
    _ ← asserting (r =? 0) tt;
    t ← time_trunc t dec; Some (t, warn)
  else if round_mode mode =? Round.FRAC_TRUNCATE then t ← time_trunc t dec; Some (t, warn)
  else if round_mode mode =? Round.FRAC_ROUND then time_round t dec warn
  else Some (t, warn).

(** * [Extract_source] *)

Definition time_to_daytime_interval (t : MYSQL_TIME) : option MYSQL_TIME :=
  asserting (is_type t MYSQL_TIMESTAMP_TIME && has_zero_YYYYMMDD t)
    (set_hhmmssff (set_YYYYMMDD t (t_year t) (t_month t) (t_hour t / 24)) (t_hour t mod 24) (t_minute t) (t_second t) (t_second_part t)).
Definition is_valid_extract_source_slow (t : MYSQL_TIME) : option bool :=
  v ← is_valid_temporal t;
  Some (v && (t_hour t <? 24) && (has_zero_YYYYMM t || negb (is_type t MYSQL_TIMESTAMP_TIME))).
Definition extract_is_valid_value_slow (t : MYSQL_TIME) : option bool :=
  if is_type t MYSQL_TIMESTAMP_NONE then Some true else is_valid_extract_source_slow t.
(** From the value the base class has got from the item. *)
Definition extract_source_of (t : MYSQL_TIME) : option MYSQL_TIME :=
  t ← (if is_type t MYSQL_TIMESTAMP_TIME then time_to_daytime_interval t else Some t);
  v ← extract_is_valid_value_slow t;
  asserting v t.
Definition extract_get_mysql_time (t : MYSQL_TIME) : option MYSQL_TIME :=
  v ← is_valid_extract_source_slow t; asserting v t.

Definition ex_sign (t : MYSQL_TIME) : option Z := t ← extract_get_mysql_time t; Some (if t_neg t then -1 else 1).
Definition ex_year (t : MYSQL_TIME) : option Z := t ← extract_get_mysql_time t; Some (t_year t).
Definition ex_month (t : MYSQL_TIME) : option Z := t ← extract_get_mysql_time t; Some (t_month t).
(** [(int) x * sign()] *)
Definition ex_int (f : MYSQL_TIME -> Z) (t : MYSQL_TIME) : option Z :=
  g ← extract_get_mysql_time t; s ← ex_sign t; Some (s32 (s32 (f g) * s)).
Definition ex_day : MYSQL_TIME -> option Z := ex_int t_day.
Definition ex_hour : MYSQL_TIME -> option Z := ex_int t_hour.
Definition ex_minute : MYSQL_TIME -> option Z := ex_int t_minute.
Definition ex_second : MYSQL_TIME -> option Z := ex_int t_second.
Definition ex_microsecond : MYSQL_TIME -> option Z := ex_int t_second_part.
Definition ex_year_month (t : MYSQL_TIME) : option Z := y ← ex_year t; m ← ex_month t; Some (u32 (u32 (y * 100) + m)).
Definition ex_quarter (t : MYSQL_TIME) : option Z := m ← ex_month t; Some (u32 (m + 2) / 3).
(** [a * k + b] at the width of the result. *)
Definition ex_join64 (a : option Z) (k : Z) (b : option Z) : option Z := x ← a; y ← b; Some (s64 (s64 (x * k) + y)).
Definition ex_join32 (a : option Z) (k : Z) (b : option Z) : option Z := x ← a; y ← b; Some (s32 (s32 (x * k) + y)).
Definition ex_second_microsecond (t : MYSQL_TIME) : option Z := ex_join64 (ex_second t) 1000000 (ex_microsecond t).
Definition ex_day_hour (t : MYSQL_TIME) : option Z := ex_join64 (ex_day t) 100 (ex_hour t).
Definition ex_day_minute (t : MYSQL_TIME) : option Z := ex_join64 (ex_day_hour t) 100 (ex_minute t).
Definition ex_day_second (t : MYSQL_TIME) : option Z := ex_join64 (ex_day_minute t) 100 (ex_second t).
Definition ex_day_microsecond (t : MYSQL_TIME) : option Z := ex_join64 (ex_day_second t) 1000000 (ex_microsecond t).
Definition ex_hour_minute (t : MYSQL_TIME) : option Z := ex_join32 (ex_hour t) 100 (ex_minute t).
Definition ex_hour_second (t : MYSQL_TIME) : option Z := ex_join32 (ex_hour_minute t) 100 (ex_second t).
Definition ex_hour_microsecond (t : MYSQL_TIME) : option Z := ex_join64 (ex_hour_second t) 1000000 (ex_microsecond t).
Definition ex_minute_second (t : MYSQL_TIME) : option Z := ex_join32 (ex_minute t) 100 (ex_second t).
Definition ex_minute_microsecond (t : MYSQL_TIME) : option Z := ex_join64 (ex_minute_second t) 1000000 (ex_microsecond t).

(** * [Interval_DDhhmmssff] *)

Definition is_valid_interval_DDhhmmssff_slow (t : MYSQL_TIME) : bool :=
  is_type t MYSQL_TIMESTAMP_TIME && has_zero_YYYYMMDD t && has_valid_mmssff t.
Definition interval_is_valid_value_slow (t : MYSQL_TIME) : bool :=
  is_type t MYSQL_TIMESTAMP_NONE || is_valid_interval_DDhhmmssff_slow t.
Definition max_useful_hour : Z := TIME_MAX_INTERVAL_HOUR.
Definition max_int_part_char_length : Z := 1 + TIME_MAX_INTERVAL_DAY_CHAR_LENGTH + 1 + 8.
Definition max_char_length (fsp : Z) : option Z :=
  asserting (fsp <=? TIME_SECOND_PART_DIGITS) (max_int_part_char_length + (if c_true fsp then 1 else 0) + fsp).
Definition is_valid_interval_DDhhmmssff (t : MYSQL_TIME) : bool := is_type t MYSQL_TIMESTAMP_TIME.
Definition interval_is_valid_value (t : MYSQL_TIME) : bool := is_type t MYSQL_TIMESTAMP_NONE || is_valid_interval_DDhhmmssff t.

(** * [Temporal_with_date] and [Date] *)

Definition temporal_with_date_null (t : MYSQL_TIME) : MYSQL_TIME := set_type t MYSQL_TIMESTAMP_NONE.
Definition temporal_with_date_of_sec6 (this : MYSQL_TIME) (warn : Z) (nr : Sec6) (flags : date_mode_t) : option (MYSQL_TIME * Z) :=
  _ ← asserting (negb (conv_to_bool (mode_and_conv flags TIME_TIME_ONLY))) tt;
  '(err, t, warn) ← to_datetime_or_date nr this warn (mode_to_conv flags);
  Some (if (err : bool) then set_type t MYSQL_TIMESTAMP_NONE else t, warn).
Definition comparison_flags_for_get_date : date_conv_mode_t := conv_or TIME_INVALID_DATES TIME_FUZZY_DATES.
Definition daynr (t : MYSQL_TIME) : Z := u64 (calc_daynr (t_year t) (t_month t) (t_day t)).
Definition dayofyear (t : MYSQL_TIME) : Z := u64 (daynr t - calc_daynr (t_year t) 1 1 + 1).
Definition quarter (t : MYSQL_TIME) : Z := u32 (t_month t + 2) / 3.

Definition is_valid_date_slow (t : MYSQL_TIME) : option bool :=
  asserting (is_type t MYSQL_TIMESTAMP_DATE) (negb (check_datetime_range t)).
Definition date_is_valid_value_slow (t : MYSQL_TIME) : option bool :=
  if is_type t MYSQL_TIMESTAMP_NONE then Some true else is_valid_date_slow t.
(** From the value the base class has got from the item. *)
Definition date_of_item (t : MYSQL_TIME) : option MYSQL_TIME :=
  t ← (if is_type t MYSQL_TIMESTAMP_DATETIME then datetime_to_date t else Some t);
  v ← date_is_valid_value_slow t;
  asserting v t.
Definition date_of_temporal_with_date (d : MYSQL_TIME) : option MYSQL_TIME :=
  t ← datetime_to_date d;
  v ← is_valid_date_slow t;
  asserting v t.
Definition is_valid_date (t : MYSQL_TIME) : option bool :=
  v ← date_is_valid_value_slow t; asserting v (is_type t MYSQL_TIMESTAMP_DATE).
Definition date_copy_to_mysql_time (t ltime : MYSQL_TIME) : option (bool * MYSQL_TIME) :=
  if is_type t MYSQL_TIMESTAMP_NONE then Some (true, set_type ltime MYSQL_TIMESTAMP_NONE)
  else v ← is_valid_date_slow t; asserting v (false, t).
(** A method that first asserts the object valid. *)
Definition date_asserting {A} (f : MYSQL_TIME -> A) (t : MYSQL_TIME) : option A :=
  v ← is_valid_date_slow t; asserting v (f t).
Definition date_daynr : MYSQL_TIME -> option Z := date_asserting daynr.
Definition date_dayofyear : MYSQL_TIME -> option Z := date_asserting dayofyear.
Definition date_quarter : MYSQL_TIME -> option Z := date_asserting quarter.

(** * [Datetime] *)

Definition is_valid_datetime_slow (t : MYSQL_TIME) : option bool :=
  asserting (is_type t MYSQL_TIMESTAMP_DATETIME) (negb (check_datetime_range t)).
Definition datetime_is_valid_value_slow (t : MYSQL_TIME) : option bool :=
  if is_type t MYSQL_TIMESTAMP_NONE then Some true else is_valid_datetime_slow t.
Definition assert_datetime_value {A} (f : MYSQL_TIME) (a : A) : option A :=
  v ← datetime_is_valid_value_slow f; asserting v a.
Definition is_valid_datetime (t : MYSQL_TIME) : option bool := assert_datetime_value t (is_type t MYSQL_TIMESTAMP_DATETIME).
Definition datetime_asserting {A} (f : MYSQL_TIME -> A) (t : MYSQL_TIME) : option A :=
  v ← is_valid_datetime_slow t; asserting v (f t).

Definition round_or_invalidate_nsec (t : MYSQL_TIME) (dec warn nsec : Z) : option (bool * MYSQL_TIME * Z) :=
  v ← is_valid_datetime_slow t; _ ← asserting v tt;
  let r := datetime_round_nsec t dec warn nsec in
  assert_datetime_value r.1.2 r.
Definition date_to_datetime_if_needed (t : MYSQL_TIME) : option MYSQL_TIME :=
  if is_type t MYSQL_TIMESTAMP_DATE then date_to_datetime t else Some t.

Definition datetime_of_item (t : MYSQL_TIME) : option MYSQL_TIME :=
  t ← date_to_datetime_if_needed t; assert_datetime_value t t.
Definition datetime_of_sec6 (this : MYSQL_TIME) (warn : Z) (nr : Sec6) (flags : date_mode_t) : option (MYSQL_TIME * Z) :=
  '(t, warn) ← temporal_with_date_of_sec6 this warn nr flags;
  t ← datetime_of_item t;
  Some (t, warn).
Definition datetime_of_sec9 (this : MYSQL_TIME) (warn : Z) (nr : Sec9) (fuzzydate : date_mode_t) : option (MYSQL_TIME * Z) :=
  '(t, warn) ← datetime_of_sec6 this warn (s9_sec6 nr) fuzzydate;
  v ← is_valid_datetime t;
  '(t, warn) ←
    (if (v : bool) then
       r ← mode_to_round fuzzydate;
       if round_eqb r TIME_FRAC_ROUND then '(_, t, warn) ← round_or_invalidate_nsec t 6 warn (m_nsec nr); Some (t, warn)
       else Some (t, warn)
     else Some (t, warn));
  assert_datetime_value t (t, warn).
Definition datetime_zero (this : MYSQL_TIME) (warn : Z) : option MYSQL_TIME :=
  '(t, _) ← datetime_of_sec6 this warn (sec6_make_from_int (mkHybrid 0 false)) (mode_of 0); Some t.

Definition hhmmssff_is_zero : MYSQL_TIME -> option bool :=
  datetime_asserting (fun t => (t_hour t =? 0) && (t_minute t =? 0) && (t_second t =? 0) && (t_second_part t =? 0)).
Definition datetime_daynr : MYSQL_TIME -> option Z := datetime_asserting daynr.
Definition datetime_dayofyear : MYSQL_TIME -> option Z := datetime_asserting dayofyear.
Definition datetime_quarter : MYSQL_TIME -> option Z := datetime_asserting quarter.
Definition hhmmss_to_seconds_abs : MYSQL_TIME -> option Z :=
  datetime_asserting (fun t => t_hour t * 3600 + u32 (t_minute t * 60) + t_second t).
Definition hhmmss_to_seconds (t : MYSQL_TIME) : option Z :=
  s ← hhmmss_to_seconds_abs t; Some (if t_neg t then - s else s).
Definition datetime_to_seconds (t : MYSQL_TIME) : option Z :=
  s ← hhmmss_to_seconds t; d ← datetime_daynr t; Some (s + s64 d * 24 * 3600).
Definition datetime_copy_to_mysql_time (t ltime : MYSQL_TIME) : option (bool * MYSQL_TIME) :=
  if is_type t MYSQL_TIMESTAMP_NONE then Some (true, set_type ltime MYSQL_TIMESTAMP_NONE)
  else v ← is_valid_datetime_slow t; asserting v (false, t).
Definition datetime_copy_to_mysql_time_type (t ltime : MYSQL_TIME) (ty : timestamp_type) : option (bool * MYSQL_TIME) :=
  _ ← asserting (bool_decide (ty = MYSQL_TIMESTAMP_DATE \/ ty = MYSQL_TIMESTAMP_DATETIME)) tt;
  '(err, ltime) ← datetime_copy_to_mysql_time t ltime;
  if (err : bool) then Some (true, ltime)
  else
    ok ← (if bool_decide (ty <> MYSQL_TIMESTAMP_DATE) then Some true else hhmmssff_is_zero t);
    asserting ok (false, set_type ltime ty).
Definition datetime_to_packed (t : MYSQL_TIME) : option Z :=
  v ← is_valid_datetime t; Some (if (v : bool) then to_packed t else 0).
Definition datetime_fraction_remainder (t : MYSQL_TIME) (dec : Z) : option Z :=
  v ← is_valid_datetime t; _ ← asserting v tt; fraction_remainder t dec.

Definition datetime_trunc (t : MYSQL_TIME) (dec : Z) : option MYSQL_TIME :=
  v ← is_valid_datetime t;
  t ← (if (v : bool) then my_datetime_trunc t dec else Some t);
  assert_datetime_value t t.
Definition datetime_ceiling (t : MYSQL_TIME) (warn : Z) : option (MYSQL_TIME * Z) :=
  v ← is_valid_datetime t;
  '(t, warn) ←
    (if v && c_true (t_second_part t) then '(_, t, warn) ← round_or_invalidate_nsec t 0 warn 999999999; Some (t, warn)
     else Some (t, warn));
  assert_datetime_value t (t, warn).
Definition datetime_round_dec (t : MYSQL_TIME) (dec warn : Z) : option (MYSQL_TIME * Z) :=
  v ← is_valid_datetime t;
  let '(t, warn) := if (v : bool) then let '(_, t, warn) := datetime_round t dec warn in (t, warn) else (t, warn) in
  assert_datetime_value t (t, warn).
Definition datetime_round_mode (t : MYSQL_TIME) (dec : Z) (mode : time_round_mode_t) (warn : Z) : option (MYSQL_TIME * Z) :=
  if round_mode mode =? Round.FRAC_NONE then
    r ← datetime_fraction_remainder t dec;
    _ ← asserting (r =? 0) tt;
    t ← datetime_trunc t dec; Some (t, warn)
  else if round_mode mode =? Round.FRAC_TRUNCATE then t ← datetime_trunc t dec; Some (t, warn)
  else if round_mode mode =? Round.FRAC_ROUND then datetime_round_dec t dec warn
  else Some (t, warn).

(** * [Timestamp] *)

(** The constructor asserts that the fraction is below a second. *)
Definition Timestamp_of (sec usec : Z) : option timeval := asserting (usec <? 1000000) (mkTv sec (u32 usec)).
Definition add_nanoseconds_usec (tv : timeval) (nanoseconds : Z) : option (bool * timeval) :=
  _ ← asserting (nanoseconds <=? 1000000000) tt;
  if nanoseconds <? 500 then Some (false, tv)
  else
    let usec := tv_usec tv + u32 (nanoseconds + 500) / 1000 in
    if usec <? 1000000 then Some (false, mkTv (tv_sec tv) usec) else Some (true, mkTv (tv_sec tv) (Z.rem usec 1000000)).
Definition timestamp_cmp (t other : timeval) : Z :=
  if tv_sec t <? tv_sec other then -1 else if tv_sec other <? tv_sec t then 1
  else if tv_usec t <? tv_usec other then -1 else if tv_usec other <? tv_usec t then 1 else 0.
Definition timestamp_fraction_remainder (t : timeval) (dec : Z) : option Z := my_time_fraction_remainder (tv_usec t) dec.
Definition timestamp_trunc (t : timeval) (dec : Z) : option timeval := my_timeval_trunc t dec.
Definition timestamp_round_mode (t : timeval) (dec : Z) (mode : time_round_mode_t) (warn : Z) : option (timeval * Z) :=
  if round_mode mode =? Round.FRAC_NONE then
    r ← timestamp_fraction_remainder t dec;
    _ ← asserting (r =? 0) tt;
    t ← timestamp_trunc t dec; Some (t, warn)
  else if round_mode mode =? Round.FRAC_TRUNCATE then t ← timestamp_trunc t dec; Some (t, warn)
  else if round_mode mode =? Round.FRAC_ROUND then Some (timestamp_round_or_set_max t dec warn)
  else Some (t, warn).

(** * [Timestamp_or_zero_datetime] *)

Record Timestamp_or_zero_datetime := mkTsz { tsz : timeval; is_zero_datetime : bool }.

Definition tsz_zero : Timestamp_or_zero_datetime := mkTsz (mkTv 0 0) true.
Definition tsz_trunc (t : Timestamp_or_zero_datetime) (decimals : Z) : option Timestamp_or_zero_datetime :=
  if negb (is_zero_datetime t) then tv ← timestamp_trunc (tsz t) decimals; Some (mkTsz tv (is_zero_datetime t)) else Some t.
Definition tsz_cmp (t other : Timestamp_or_zero_datetime) : Z :=
  if is_zero_datetime t then (if is_zero_datetime other then 0 else -1)
  else if is_zero_datetime other then 1 else timestamp_cmp (tsz t) (tsz other).
End time.

(** * Conversion to TIME *)

(** A valid TIME: what the class promises of its objects, and the range. *)
Definition time_ok (t : MYSQL_TIME) : Prop :=
  time_type t = MYSQL_TIMESTAMP_TIME /\ has_zero_YYYYMMDD t = true /\ time_fields t /\ t_hour t <= TIME_MAX_HOUR.
Definition time_value_ok (t : MYSQL_TIME) : Prop := time_type t = MYSQL_TIMESTAMP_NONE \/ time_ok t.
(** A DATE or DATETIME as the conversion routines return it. *)
Definition date_ok (t : MYSQL_TIME) : Prop :=
  is_date_or_datetime t = true /\ time_fields t /\ t_hour t <= 23 /\ 0 <= t_day t <= 31 /\ t_neg t = false.
(** What [Time] may be made of. *)
Definition temporal_ok (t : MYSQL_TIME) : Prop :=
  match time_type t with
  | MYSQL_TIMESTAMP_DATE | MYSQL_TIMESTAMP_DATETIME => date_ok t
  | MYSQL_TIMESTAMP_TIME => time_ok t
  | _ => True
  end.

(** The difference of two times is a TIME, of any number of hours. *)
Class current_date_laws `{time_library} := {
  calc_time_diff_time t mode b t' : date_ok t -> calc_time_diff t current_date 1 mode = (b, t') ->
    time_type t' = MYSQL_TIMESTAMP_TIME /\ has_zero_YYYYMMDD t' = true /\ time_fields t'
}.

Lemma time_fields_valid t : time_fields t -> has_valid_mmssff t = true.
Proof.
  intros (_ & ? & ? & ?). unfold has_valid_mmssff, TIME_MAX_MINUTE, TIME_MAX_SECOND, TIME_MAX_SECOND_PART. by rewrite !(proj2 (Z.leb_le _ _)) by lia.
Qed.

Lemma is_type_eq t ty : is_type t ty = true <-> time_type t = ty.
Proof. apply bool_decide_eq_true. Qed.

Lemma time_ok_slow t : time_ok t -> is_valid_time_slow t = true /\ time_is_valid_value_slow t = true /\ is_valid_time t = Some true.
Proof.
  intros (Hty & Hz & Hf & _). assert (is_valid_time_slow t = true) as E.
  { unfold is_valid_time_slow. by rewrite (proj2 (is_type_eq _ _) Hty), Hz, (time_fields_valid t Hf). }
  assert (time_is_valid_value_slow t = true) as E2 by (unfold time_is_valid_value_slow; by rewrite E, orb_true_r).
  split; [done|]. split; [done|]. unfold is_valid_time, asserting. by rewrite E2, (proj2 (is_type_eq _ _) Hty).
Qed.

Lemma has_zero_day t : has_zero_YYYYMMDD t = true -> t_day t = 0.
Proof. unfold has_zero_YYYYMMDD. intros [_ ?%Z.eqb_eq]%andb_true_iff. done. Qed.

Lemma date_type t : is_date_or_datetime t = true -> time_type t = MYSQL_TIMESTAMP_DATE \/ time_type t = MYSQL_TIMESTAMP_DATETIME.
Proof. apply bool_decide_eq_true. Qed.

Section conversion.
Context `{L : time_library} `{D : !digit_laws} `{R : !range_laws} `{C : !current_date_laws}.

(** Decide the comparisons of conversion modes that are known. *)
Ltac decide_modes :=
  repeat match goal with
  | |- context [bool_decide (?a = ?b :> datetime_to_time_mode_t)] =>
      first [rewrite (bool_decide_true (a = b)) by reflexivity | rewrite (bool_decide_false (a = b)) by discriminate]
  end.

(** Cutting a TIME to the range. *)
Lemma check_time_range_time t w : time_type t = MYSQL_TIMESTAMP_TIME -> has_zero_YYYYMMDD t = true -> time_fields t ->
  exists t' w', check_time_range t TIME_SECOND_PART_DIGITS w = (0, t', w') /\ time_ok t'.
Proof.
  intros Hty Hz Hf. pose proof (has_zero_day t Hz) as Hday. destruct (Z.le_gt_cases (t_hour t) TIME_MAX_HOUR) as [Hle|Hgt].
  - rewrite check_time_range_in; try done; [by eexists _, _|]. rewrite time_usec_split. destruct Hf as (? & ? & ? & ?).
    change (999999 - 999999 mod frac_step TIME_SECOND_PART_DIGITS) with 999999. change TIME_MAX_VALUE_SECONDS with 3020399. unfold TIME_MAX_HOUR in Hle. lia.
  - destruct (check_time_range_max t TIME_SECOND_PART_DIGITS w) as [w' ->]; try done. eexists _, _. split; [done|].
    split; [done|]. split; [done|]. split; [|done]. change (999999 - 999999 mod frac_step TIME_SECOND_PART_DIGITS) with 999999.
    unfold time_fields. cbn. unfold TIME_MAX_HOUR. lia.
Qed.

Lemma minus_current_date_ok t : date_ok t -> exists t', datetime_to_time_minus_current_date t = Some t' /\ time_ok t'.
Proof.
  intros Ht. unfold datetime_to_time_minus_current_date. destruct (calc_time_diff t current_date 1 (mode_of 0)) as [b t1] eqn:E.
  destruct (calc_time_diff_time _ _ _ _ Ht E) as (H1 & H2 & H3). destruct (check_time_range_time t1 0 H1 H2 H3) as (t' & w' & -> & Ht').
  destruct (time_ok_slow t' Ht') as (_ & _ & ->). cbn. eauto.
Qed.

(** The date removed, with its days in the hours or not. *)
Lemma without_date_ok t h : time_fields t -> 0 <= h <= 767 ->
  time_ok (set_type (set_YYYYMMDD (set_hhmmssff t h (t_minute t) (t_second t) (t_second_part t)) 0 0 0) MYSQL_TIMESTAMP_TIME).
Proof. intros (? & ? & ? & ?) Hh. split; [done|]. split; [done|]. unfold time_fields, TIME_MAX_HOUR. cbn. lia. Qed.

Lemma valid_datetime_to_valid_time_val t w opt : date_ok t ->
  exists t' w', valid_datetime_to_valid_time t w opt = Some (t', w') /\ time_ok t' /\
    match opt_datetime_to_time opt with
    | DATETIME_TO_TIME_MINUS_CURRENT_DATE => w' = w
    | DATETIME_TO_TIME_YYYYMMDD_000000DD_MIX_TO_HOURS =>
        if has_zero_YYYYMM t then w' = w /\ time_value t' = time_value t + t_day t * 86400000000
        else w' = w .| MYSQL_TIME_NOTE_TRUNCATED /\ time_value t' = time_value t
    | _ => w' = w /\ time_value t' = time_value t
    end.
Proof.
  intros Ht. pose proof Ht as (Hd & Hf & Hh & Hday & Hn). pose proof Hf as (Hh0 & _).
  unfold valid_datetime_to_valid_time, asserting. rewrite Hd, !(proj2 (Z.ltb_lt _ _)) by lia. cbn [mbind option_bind].
  assert (forall t' (w' : Z), time_ok t' -> (if is_valid_time_slow t' then Some (t', w') else None) = Some (t', w')) as Hfin.
  { intros t' w' H. by destruct (time_ok_slow t' H) as (-> & _). }
  pose proof (without_date_ok t (t_hour t) Hf ltac:(lia)) as Hplain.
  replace (set_hhmmssff t (t_hour t) (t_minute t) (t_second t) (t_second_part t)) with t in Hplain by (by destruct t).
  assert (time_value (set_type (set_YYYYMMDD t 0 0 0) MYSQL_TIMESTAMP_TIME) = time_value t) as Hval by done.
  destruct (opt_datetime_to_time opt); decide_modes; cbn [mbind option_bind].
  1, 3, 4: (rewrite Hfin by done; eexists _, _; split; [reflexivity|split; [exact Hplain|by split]]).
  - unfold datetime_to_time_YYYYMMDD_000000DD_mix_to_hours. cbn. unfold c_true, has_zero_YYYYMM.
    destruct (Z.eqb_spec (t_year t) 0), (Z.eqb_spec (t_month t) 0); cbn [negb orb andb mbind option_bind];
      [|rewrite Hfin by done; eexists _, _; split; [reflexivity|split; [exact Hplain|by split]]..].
    rewrite (uwrap_small 32 (t_day t * 24)), uwrap_small by (unfold ufits; lia).
    pose proof (without_date_ok t (t_hour t + t_day t * 24) Hf ltac:(lia)) as Hmix. rewrite Hfin by done. eexists _, _.
    split; [reflexivity|]. split; [done|]. split; [done|]. unfold time_value. cbn. rewrite Hn. cbn [signed]. rewrite !time_usec_split. cbn. lia.
  - destruct (minus_current_date_ok t Ht) as (t' & -> & Ht'). cbn. rewrite Hfin by done. eexists _, _. split; [reflexivity|]. by split.
Qed.

(** C6.  Every conversion to TIME leaves a valid TIME, of at most 838 hours, or a
    NULL, and no assertion fails.  By conversion mode, a DATE or DATETIME is refused
    with a warning (always, or when it has a date part), loses its date part, or has
    its days turned into hours when year and month are zero and gets a note
    otherwise; its time of the day is kept.  A TIME or a NULL is left as it is, and
    an error value becomes 00:00:00. *)
Theorem conversion_to_time_valid t w opt :
  temporal_ok t ->
  exists t' w', valid_MYSQL_TIME_to_valid_value t w opt = Some (t', w') /\ time_value_ok t' /\
    match time_type t with
    | MYSQL_TIMESTAMP_DATE | MYSQL_TIMESTAMP_DATETIME =>
        match opt_datetime_to_time opt with
        | DATETIME_TO_TIME_DISALLOW => time_type t' = MYSQL_TIMESTAMP_NONE /\ w' = MYSQL_TIME_WARN_OUT_OF_RANGE
        | DATETIME_TO_TIME_YYYYMMDD_00000000_ONLY =>
            if has_zero_YYYYMMDD t then time_ok t' /\ w' = w /\ time_value t' = time_value t
            else time_type t' = MYSQL_TIMESTAMP_NONE /\ w' = MYSQL_TIME_WARN_OUT_OF_RANGE
        | DATETIME_TO_TIME_YYYYMMDD_TRUNCATE => time_ok t' /\ w' = w /\ time_value t' = time_value t
        | DATETIME_TO_TIME_YYYYMMDD_000000DD_MIX_TO_HOURS =>
            time_ok t' /\
            if has_zero_YYYYMM t then w' = w /\ time_value t' = time_value t + t_day t * 86400000000
            else w' = w .| MYSQL_TIME_NOTE_TRUNCATED /\ time_value t' = time_value t
        | DATETIME_TO_TIME_MINUS_CURRENT_DATE => time_ok t' /\ w' = w
        end
    | MYSQL_TIMESTAMP_ERROR => time_ok t' /\ time_value t' = 0 /\ w' = w
    | _ => t' = t /\ w' = w
    end.
Proof.
  intros Ht. assert (is_date_or_datetime t = true -> temporal_ok t -> date_ok t) as Hdate.
  { intros [E|E]%date_type; unfold temporal_ok; by rewrite E. }
  unfold valid_MYSQL_TIME_to_valid_value.
  assert (forall ty, time_type t = ty -> (ty = MYSQL_TIMESTAMP_DATE \/ ty = MYSQL_TIMESTAMP_DATETIME) -> date_ok t) as Hd2.
  { intros ty E Hty. apply Hdate; [|done]. apply bool_decide_eq_true. by rewrite E. }
  assert (c_true (t_year t) || c_true (t_month t) || c_true (t_day t) = negb (has_zero_YYYYMMDD t)) as ->.
  { unfold c_true, has_zero_YYYYMMDD. by rewrite !negb_andb. }
  assert (date_ok t -> exists t' w',
    (if bool_decide (opt_datetime_to_time opt = DATETIME_TO_TIME_YYYYMMDD_00000000_ONLY) && negb (has_zero_YYYYMMDD t)
     then Some (make_from_out_of_range t)
     else if bool_decide (opt_datetime_to_time opt = DATETIME_TO_TIME_DISALLOW) then Some (make_from_out_of_range t)
     else valid_datetime_to_valid_time t w opt) = Some (t', w') /\ time_value_ok t' /\
    match opt_datetime_to_time opt with
    | DATETIME_TO_TIME_DISALLOW => time_type t' = MYSQL_TIMESTAMP_NONE /\ w' = MYSQL_TIME_WARN_OUT_OF_RANGE
    | DATETIME_TO_TIME_YYYYMMDD_00000000_ONLY =>
        if has_zero_YYYYMMDD t then time_ok t' /\ w' = w /\ time_value t' = time_value t
        else time_type t' = MYSQL_TIMESTAMP_NONE /\ w' = MYSQL_TIME_WARN_OUT_OF_RANGE
    | DATETIME_TO_TIME_YYYYMMDD_TRUNCATE => time_ok t' /\ w' = w /\ time_value t' = time_value t
    | DATETIME_TO_TIME_YYYYMMDD_000000DD_MIX_TO_HOURS =>
        time_ok t' /\
        if has_zero_YYYYMM t then w' = w /\ time_value t' = time_value t + t_day t * 86400000000
        else w' = w .| MYSQL_TIME_NOTE_TRUNCATED /\ time_value t' = time_value t
    | DATETIME_TO_TIME_MINUS_CURRENT_DATE => time_ok t' /\ w' = w
    end) as Hconv.
  { intros Hok. destruct (valid_datetime_to_valid_time_val t w opt Hok) as (t' & w' & E & Hv & Hm). unfold time_value_ok.
    destruct (opt_datetime_to_time opt); decide_modes; cbn [andb].
    4: destruct (has_zero_YYYYMMDD t); cbn [negb].
    all: first [by eexists _, _; (split; [exact E|]); split; [by right|] | by eexists _, _; (split; [reflexivity|]); split; [by left|]]. }
  destruct (time_type t) eqn:Et.
  - eexists _, _. split; [done|]. split; [by left|done].
  - eexists _, _. split; [done|]. rewrite set_zero_time_zero. assert (time_ok (mkTime 0 0 0 0 0 0 0 false MYSQL_TIMESTAMP_TIME)) by done.
    split; [by right|done].
  - apply Hconv. eapply Hd2; [done|by left].
  - apply Hconv. eapply Hd2; [done|by right].
  - unfold temporal_ok in Ht. rewrite Et in Ht. destruct (time_ok_slow t Ht) as (-> & _). eexists _, _. split; [done|]. split; [by right|done].
Qed.
End conversion.

Lemma concrete_time_fields n s us : 0 <= s -> 0 <= us <= 999999 -> time_fields (concrete_time n s us).
Proof. intros. unfold time_fields, concrete_time. cbn. repeat split; lia_mod. Qed.

Lemma concrete_current_date_laws : @current_date_laws concrete_library.
Proof.
  split. intros t mode b t' _. cbn. unfold concrete_diff. intros [= _ <-]. split; [done|]. split; [done|].
  apply concrete_time_fields; lia_mod.
Qed.

Lemma conversion_to_time_valid_witness :
  let t := mkTime 0 0 31 23 59 59 999999 false MYSQL_TIMESTAMP_DATETIME in let opt := time_options_default TIME_FRAC_NONE in
  exists t' w', @valid_MYSQL_TIME_to_valid_value concrete_library t 0 opt = Some (t', w') /\ time_value_ok t' /\
    time_ok t' /\ w' = 0 /\ time_value t' = time_value t + 31 * 86400000000.
Proof.
  apply (@conversion_to_time_valid concrete_library concrete_digit_laws concrete_range_laws concrete_current_date_laws
    (mkTime 0 0 31 23 59 59 999999 false MYSQL_TIMESTAMP_DATETIME) 0 (time_options_default TIME_FRAC_NONE)).
  by vm_compute.
Defined.

(** * Extraction *)

(** What [EXTRACT] may be given: a TIME (of an interval too), or a DATE or DATETIME. *)
Definition extract_ok (t : MYSQL_TIME) : Prop :=
  match time_type t with
  | MYSQL_TIMESTAMP_TIME => time_interval t
  | MYSQL_TIMESTAMP_DATE | MYSQL_TIMESTAMP_DATETIME => date_ok t
  | _ => False
  end.
Definition sgn (t : MYSQL_TIME) : Z := if t_neg t then -1 else 1.

Lemma extract_slow g :
  time_type g <> MYSQL_TIMESTAMP_NONE -> time_type g <> MYSQL_TIMESTAMP_ERROR -> t_hour g <= 23 ->
  (time_type g = MYSQL_TIMESTAMP_TIME -> has_zero_YYYYMM g = true) ->
  extract_get_mysql_time g = Some g /\ extract_is_valid_value_slow g = Some true.
Proof.
  intros Hn He Hh Hz. assert (is_valid_extract_source_slow g = Some true) as E.
  { unfold is_valid_extract_source_slow, is_valid_temporal, asserting. rewrite (bool_decide_true _ He), (bool_decide_true _ Hn). cbn [mbind option_bind andb].
    rewrite (proj2 (Z.ltb_lt _ _)) by lia. cbn [andb]. do 2 f_equal. unfold is_type. case_bool_decide as Ht; [by rewrite Hz|by rewrite orb_true_r]. }
  unfold extract_get_mysql_time, extract_is_valid_value_slow, is_type. by rewrite E, bool_decide_false.
Qed.

Lemma extract_source_split t : extract_ok t ->
  exists g, extract_source_of t = Some g /\ extract_get_mysql_time g = Some g /\
    time_fields g /\ t_hour g <= 23 /\ 0 <= t_day g <= TIME_MAX_INTERVAL_DAY /\ t_neg g = t_neg t /\
    (t_day g * 24 + t_hour g = (if is_type t MYSQL_TIMESTAMP_TIME then 0 else t_day t * 24) + t_hour t) /\
    t_minute g = t_minute t /\ t_second g = t_second t /\ t_second_part g = t_second_part t.
Proof.
  unfold extract_ok, extract_source_of, TIME_MAX_INTERVAL_DAY. intros H.
  destruct (is_type t MYSQL_TIMESTAMP_TIME) eqn:Ety.
  - apply is_type_eq in Ety. rewrite Ety in H. destruct H as (_ & Hz & (Hh0 & Hm & Hs & Hff) & Hh). unfold TIME_MAX_INTERVAL_HOUR in Hh.
    unfold time_to_daytime_interval, asserting. rewrite (proj2 (is_type_eq _ _) Ety), Hz. cbn [andb mbind option_bind]. set (g := set_hhmmssff _ _ _ _ _).
    assert (0 <= t_hour t / 24 <= 3652058 /\ 0 <= t_hour t mod 24 <= 23 /\ t_hour t / 24 * 24 + t_hour t mod 24 = t_hour t) as (H1 & H2 & H3).
    { split; [lia_mod|]. split; lia_mod. }
    assert (time_type g = MYSQL_TIMESTAMP_TIME) as Eg by exact Ety.
    destruct (extract_slow g) as [E1 E2]; [by rewrite Eg|by rewrite Eg|cbn; lia| |].
    { intros _. unfold has_zero_YYYYMMDD in Hz. apply andb_true_iff in Hz as [Hz _]. exact Hz. }
    exists g. rewrite E2. cbn [mbind option_bind]. split; [done|]. split; [done|].
    split; [unfold time_fields; cbn; lia|]. cbn. repeat split; try done; lia.
  - assert (date_ok t) as (Hd & Hf & Hh & Hday & Hn) by (destruct (time_type t) eqn:Et; try done; by apply is_type_eq in Et; rewrite Et in Ety).
    destruct (extract_slow t) as [E1 E2]; [by destruct (date_type t Hd) as [-> | ->]..|lia|intros Et; by apply is_type_eq in Et; rewrite Et in Ety|].
    exists t. cbn [mbind option_bind]. rewrite E2. cbn [mbind option_bind]. split; [done|]. split; [done|]. split; [done|]. repeat split; try done; lia.
Qed.

Lemma ex_int_val f g : extract_get_mysql_time g = Some g -> 0 <= f g < 2 ^ 31 -> ex_int f g = Some (sgn g * f g).
Proof.
  intros Eg Hf. unfold ex_int, ex_sign. rewrite Eg. cbn [mbind option_bind]. rewrite (swrap_small 32 (f g)) by (unfold sfits; lia).
  unfold sgn. destruct (t_neg g); rewrite swrap_small by (unfold sfits; lia); f_equal; lia.
Qed.

Lemma ex_join64_val s a k b : s = 1 \/ s = -1 -> 0 <= a -> 0 <= b -> 0 <= k -> a * k + b < 2 ^ 63 ->
  ex_join64 (Some (s * a)) k (Some (s * b)) = Some (s * (a * k + b)).
Proof.
  intros Hs Ha Hb Hk Hr. unfold ex_join64. cbn [mbind option_bind]. f_equal.
  assert (0 <= a * k) by nia. rewrite (swrap_small 64 (s * a * k)) by (done || unfold sfits; destruct Hs as [-> | ->]; lia).
  rewrite swrap_small by (done || unfold sfits; destruct Hs as [-> | ->]; lia). destruct Hs as [-> | ->]; lia.
Qed.

Lemma ex_join32_val s a k b : s = 1 \/ s = -1 -> 0 <= a -> 0 <= b -> 0 <= k -> a * k + b < 2 ^ 31 ->
  ex_join32 (Some (s * a)) k (Some (s * b)) = Some (s * (a * k + b)).
Proof.
  intros Hs Ha Hb Hk Hr. unfold ex_join32. cbn [mbind option_bind]. f_equal.
  assert (0 <= a * k) by nia. rewrite (swrap_small 32 (s * a * k)) by (done || unfold sfits; destruct Hs as [-> | ->]; lia).
  rewrite swrap_small by (done || unfold sfits; destruct Hs as [-> | ->]; lia). destruct Hs as [-> | ->]; lia.
Qed.

(** EXTRACT from a TIME, an interval of up to 87649415 hours or a DATETIME: no
    assertion fails; the hours of a TIME are split into days and hours below 24; and
    each compound unit is the sign of the value times its parts written side by
    side, two digits for each part down to seconds and six for microseconds,
    without overflow of the [int] or [longlong] it is computed in. *)
Theorem extraction_exact t :
  extract_ok t ->
  exists g D h, let m := t_minute t in let s := t_second t in let u := t_second_part t in
    extract_source_of t = Some g /\ 0 <= h <= 23 /\ 0 <= D <= TIME_MAX_INTERVAL_DAY /\
    D * 24 + h = (if is_type t MYSQL_TIMESTAMP_TIME then 0 else t_day t * 24) + t_hour t /\
    ex_day g = Some (sgn t * D) /\ ex_hour g = Some (sgn t * h) /\ ex_minute g = Some (sgn t * m) /\
    ex_second g = Some (sgn t * s) /\ ex_microsecond g = Some (sgn t * u) /\
    ex_day_hour g = Some (sgn t * (D * 100 + h)) /\ ex_day_minute g = Some (sgn t * (D * 10000 + h * 100 + m)) /\
    ex_day_second g = Some (sgn t * (D * 1000000 + h * 10000 + m * 100 + s)) /\
    ex_day_microsecond g = Some (sgn t * ((D * 1000000 + h * 10000 + m * 100 + s) * 1000000 + u)) /\
    ex_hour_minute g = Some (sgn t * (h * 100 + m)) /\ ex_hour_second g = Some (sgn t * (h * 10000 + m * 100 + s)) /\
    ex_hour_microsecond g = Some (sgn t * ((h * 10000 + m * 100 + s) * 1000000 + u)) /\
    ex_minute_second g = Some (sgn t * (m * 100 + s)) /\ ex_minute_microsecond g = Some (sgn t * ((m * 100 + s) * 1000000 + u)) /\
    ex_second_microsecond g = Some (sgn t * (s * 1000000 + u)).
Proof.
  intros Ht. destruct (extract_source_split t Ht) as (g & E & Eg & (Hh0 & Hm & Hs & Hf) & Hh & HD & En & Eh & Em & Es & Eu).
  exists g, (t_day g), (t_hour g). cbn zeta. rewrite <- Em, <- Es, <- Eu. unfold TIME_MAX_INTERVAL_DAY in *.
  assert (sgn t = sgn g) as -> by (unfold sgn; by rewrite En). assert (sgn g = 1 \/ sgn g = -1) as Hsg by (unfold sgn; destruct (t_neg g); lia).
  assert (ex_day g = Some (sgn g * t_day g)) as E1 by (apply ex_int_val; lia || done).
  assert (ex_hour g = Some (sgn g * t_hour g)) as E2 by (apply ex_int_val; lia || done).
  assert (ex_minute g = Some (sgn g * t_minute g)) as E3 by (apply ex_int_val; lia || done).
  assert (ex_second g = Some (sgn g * t_second g)) as E4 by (apply ex_int_val; lia || done).
  assert (ex_microsecond g = Some (sgn g * t_second_part g)) as E5 by (apply ex_int_val; lia || done).
  split; [done|]. split; [lia|]. split; [lia|]. split; [done|]. do 5 (split; [done|]).
  unfold ex_day_microsecond, ex_hour_microsecond, ex_minute_microsecond, ex_second_microsecond, ex_day_second, ex_day_minute, ex_day_hour,
    ex_hour_second, ex_hour_minute, ex_minute_second.
  rewrite E1, E2, E3, E4, E5. rewrite !ex_join64_val, !ex_join32_val by lia. rewrite !ex_join64_val by lia.
  repeat split; do 2 f_equal; lia.
Qed.

Lemma extraction_exact_witness :
  let t := mkTime 0 0 0 87649415 59 59 999999 true MYSQL_TIMESTAMP_TIME in
  exists g D h, let m := 59 in let s := 59 in let u := 999999 in
    extract_source_of t = Some g /\ 0 <= h <= 23 /\ 0 <= D <= TIME_MAX_INTERVAL_DAY /\
    D * 24 + h = (if is_type t MYSQL_TIMESTAMP_TIME then 0 else 0) + 87649415 /\
    ex_day g = Some (sgn t * D) /\ ex_hour g = Some (sgn t * h) /\ ex_minute g = Some (sgn t * m) /\
    ex_second g = Some (sgn t * s) /\ ex_microsecond g = Some (sgn t * u) /\
    ex_day_hour g = Some (sgn t * (D * 100 + h)) /\ ex_day_minute g = Some (sgn t * (D * 10000 + h * 100 + m)) /\
    ex_day_second g = Some (sgn t * (D * 1000000 + h * 10000 + m * 100 + s)) /\
    ex_day_microsecond g = Some (sgn t * ((D * 1000000 + h * 10000 + m * 100 + s) * 1000000 + u)) /\
    ex_hour_minute g = Some (sgn t * (h * 100 + m)) /\ ex_hour_second g = Some (sgn t * (h * 10000 + m * 100 + s)) /\
    ex_hour_microsecond g = Some (sgn t * ((h * 10000 + m * 100 + s) * 1000000 + u)) /\
    ex_minute_second g = Some (sgn t * (m * 100 + s)) /\ ex_minute_microsecond g = Some (sgn t * ((m * 100 + s) * 1000000 + u)) /\
    ex_second_microsecond g = Some (sgn t * (s * 1000000 + u)).
Proof. apply (extraction_exact (mkTime 0 0 0 87649415 59 59 999999 true MYSQL_TIMESTAMP_TIME)). by vm_compute. Defined.

(** * Floor, ceiling and truncation of TIME *)

Section truncating.
Context `{L : time_library} `{D : !digit_laws}.

Lemma time_usec_nonneg t : time_fields t -> 0 <= time_usec t.
Proof. intros (? & ? & ? & ?). rewrite time_usec_split. lia. Qed.

Lemma time_trunc_val t dec : 0 <= dec <= 6 -> time_ok t ->
  exists t', my_time_trunc t dec = Some t' /\ time_trunc t dec = Some t' /\ time_ok t' /\ time_is_valid_value_slow t' = true /\
    time_value t' = Z.quot (time_value t) (frac_step dec) * frac_step dec.
Proof.
  intros Hd Ht. pose proof Ht as (Hty & Hz & Hf & Hh). destruct (time_ok_slow t Ht) as (_ & _ & Ev).
  destruct (my_time_trunc_val t dec Hd Hf) as (t' & E & Eu & Hf' & En & Et' & Ez & Eh). exists t'. split; [done|].
  assert (time_ok t') as Ht' by (split; [by rewrite Et'|split; [by rewrite Ez|split; [done|by rewrite Eh]]]).
  destruct (time_ok_slow t' Ht') as (_ & Ev' & _). unfold time_trunc. rewrite Ev. cbn [mbind option_bind]. rewrite E. cbn [mbind option_bind]. unfold asserting. rewrite Ev'.
  split; [done|]. split; [done|]. split; [done|]. destruct (frac_step_cases dec Hd) as (_ & Hp & _). pose proof (time_usec_nonneg t Hf).
  pose proof (Z.div_mod (time_usec t) (frac_step dec) ltac:(lia)) as Hdm.
  unfold time_value, signed. rewrite En. destruct (t_neg t); cbn [andb].
  - rewrite Z.quot_opp_l, Z.quot_div_nonneg by lia. destruct (Z.eqb_spec (time_usec t') 0); cbn [negb]; lia.
  - rewrite Z.quot_div_nonneg by lia. lia.
Qed.

Lemma quot_step_0 x : Z.quot x (frac_step 0) * frac_step 0 = if x <? 0 then - (- x / 1000000) * 1000000 else x / 1000000 * 1000000.
Proof.
  change (frac_step 0) with 1000000. destruct (Z.ltb_spec x 0); [|by rewrite Z.quot_div_nonneg by lia].
  replace x with (- (- x)) at 1 by lia. rewrite Z.quot_opp_l, Z.quot_div_nonneg by lia. done.
Qed.

(** A valid TIME stays one: [floor] of a positive and [ceiling] of a negative
    value give the whole second below, resp. above; on a whole second both change
    nothing; the rounding mode TRUNCATE cuts towards zero; the mode NONE does the
    same when no digit is lost, and fails its assertion when one is.  A NULL stays
    NULL under all of these except the mode NONE, which asserts a value. *)
Theorem time_truncating_modes t n w dec :
  time_ok t -> time_type n = MYSQL_TIMESTAMP_NONE -> 0 <= dec <= 6 ->
  (t_neg t = false -> exists t', time_floor t w = Some (t', w) /\ time_ok t' /\ time_value t' = time_value t / 1000000 * 1000000) /\
  (t_neg t = true -> exists t', time_ceiling t w = Some (t', w) /\ time_ok t' /\ time_value t' = - (- time_value t / 1000000) * 1000000) /\
  (t_second_part t = 0 -> (t_neg t = true -> time_usec t <> 0) -> time_floor t w = Some (t, w) /\ time_ceiling t w = Some (t, w)) /\
  (exists t', time_round_mode t dec TIME_FRAC_TRUNCATE w = Some (t', w) /\ time_ok t' /\
     time_value t' = Z.quot (time_value t) (frac_step dec) * frac_step dec) /\
  (if t_second_part t mod frac_step dec =? 0
   then exists t', time_round_mode t dec TIME_FRAC_NONE w = Some (t', w) /\ time_ok t' /\ time_value t' = time_value t
   else time_round_mode t dec TIME_FRAC_NONE w = None) /\
  (time_floor n w = Some (n, w) /\ time_ceiling n w = Some (n, w) /\ time_trunc n dec = Some n /\
   time_round_mode n dec TIME_FRAC_TRUNCATE w = Some (n, w) /\ time_round_mode n dec TIME_FRAC_NONE w = None).
Proof.
  intros Ht Hn Hd. pose proof Ht as (Hty & Hz & Hf & Hh). destruct (time_ok_slow t Ht) as (_ & Ev & Ev').
  destruct (time_trunc_val t 0 ltac:(lia) Ht) as (t0 & E0 & _ & Ht0 & Ev0 & Eval0). rewrite quot_step_0 in Eval0.
  destruct (time_trunc_val t dec Hd Ht) as (t1 & E1 & E1' & Ht1 & _ & Eval1).
  pose proof (time_usec_nonneg t Hf) as Hu. pose proof Hf as (Hf1 & Hf2 & Hf3 & Hf4).
  assert (forall A (x : A), asserting (time_is_valid_value_slow t0) x = Some x) as Has by (intros; unfold asserting; by rewrite Ev0).
  split; [|split; [|split; [|split; [|split]]]].
  - intros Eneg. exists t0. unfold time_floor. rewrite Ev'. cbn [mbind option_bind negb]. rewrite Eneg. cbn [negb]. rewrite E0. cbn [mbind option_bind].
    rewrite Has. split; [done|]. split; [done|]. rewrite Eval0. unfold time_value. rewrite Eneg. cbn [signed]. destruct (Z.ltb_spec (time_usec t) 0); [lia|done].
  - intros Eneg. exists t0. unfold time_ceiling. rewrite Ev'. cbn [mbind option_bind negb]. rewrite Eneg, E0. cbn [mbind option_bind].
    rewrite Has. split; [done|]. split; [done|]. rewrite Eval0. unfold time_value. rewrite Eneg. cbn [signed].
    destruct (Z.ltb_spec (- time_usec t) 0); [done|]. assert (time_usec t = 0) as -> by lia. done.
  - intros Hff Hnz. assert (my_time_trunc t 0 = Some t) as Esame.
    { unfold my_time_trunc. rewrite Hff. destruct (trunc_part_val 0 0 ltac:(lia) ltac:(lia)) as (-> & _). cbn [mbind option_bind].
      change (0 - 0 mod frac_step 0) with 0. replace (set_second_part t 0) with t by (destruct t; cbn in *; by subst). rewrite Hff.
      rewrite time_usec_split, Hff in Hnz. unfold c_true.
      destruct (t_neg t); cbn [andb negb] in *; [specialize (Hnz eq_refl)|done]. destruct (Z.eqb_spec (t_hour t) 0), (Z.eqb_spec (t_minute t) 0), (Z.eqb_spec (t_second t) 0); cbn [andb negb]; try done.
      lia. }
    unfold time_floor, time_ceiling. rewrite Ev'. cbn [mbind option_bind negb]. rewrite Hff, Esame. unfold asserting. cbn [c_true negb Z.eqb mbind option_bind].
    destruct (t_neg t); cbn [negb mbind option_bind]; by rewrite Ev.
  - exists t1. unfold time_round_mode. cbn. rewrite E1'. done.
  - unfold time_round_mode, time_fraction_remainder. cbn [round_mode TIME_FRAC_NONE Z.eqb Round.FRAC_NONE]. rewrite Ev'. cbn [mbind option_bind asserting].
    unfold fraction_remainder. rewrite (swrap_small 64) by (unfold sfits; lia). rewrite remainder_val by lia. cbn [mbind option_bind]. unfold asserting.
    destruct (Z.eqb_spec (t_second_part t mod frac_step dec) 0) as [Er|]; [|done]. cbn [mbind option_bind]. rewrite E1'. exists t1. split; [done|]. split; [done|].
    destruct (frac_step_cases dec Hd) as (_ & Hp & _).
    assert (time_usec t mod frac_step dec = 0) as Eu by (by rewrite time_usec_split, trunc_whole).
    rewrite Eval1. unfold time_value, signed. pose proof (Z.div_mod (time_usec t) (frac_step dec) ltac:(lia)).
    destruct (t_neg t); [rewrite Z.quot_opp_l by lia|]; rewrite Z.quot_div_nonneg by lia; lia.
  - assert (time_is_valid_value_slow n = true /\ is_valid_time n = Some false) as [En En'].
    { unfold is_valid_time, time_is_valid_value_slow, is_type. rewrite Hn, bool_decide_true by done. done. }
    unfold time_floor, time_ceiling, time_round_mode, time_fraction_remainder, time_trunc. rewrite En'. cbn [mbind option_bind negb]. unfold asserting. rewrite En. by cbn.
Qed.
End truncating.

Lemma time_truncating_modes_witness :
  let t := mkTime 0 0 0 1 2 3 500000 false MYSQL_TIMESTAMP_TIME in let n := time_null in
  (t_neg t = false -> exists t', @time_floor concrete_library t 0 = Some (t', 0) /\ time_ok t' /\ time_value t' = time_value t / 1000000 * 1000000) /\
  (t_neg t = true -> exists t', @time_ceiling concrete_library t 0 = Some (t', 0) /\ time_ok t' /\ time_value t' = - (- time_value t / 1000000) * 1000000) /\
  (t_second_part t = 0 -> (t_neg t = true -> time_usec t <> 0) -> @time_floor concrete_library t 0 = Some (t, 0) /\ @time_ceiling concrete_library t 0 = Some (t, 0)) /\
  (exists t', @time_round_mode concrete_library t 3 TIME_FRAC_TRUNCATE 0 = Some (t', 0) /\ time_ok t' /\
     time_value t' = Z.quot (time_value t) (frac_step 3) * frac_step 3) /\
  (if t_second_part t mod frac_step 3 =? 0
   then exists t', @time_round_mode concrete_library t 3 TIME_FRAC_NONE 0 = Some (t', 0) /\ time_ok t' /\ time_value t' = time_value t
   else @time_round_mode concrete_library t 3 TIME_FRAC_NONE 0 = None) /\
  (@time_floor concrete_library n 0 = Some (n, 0) /\ @time_ceiling concrete_library n 0 = Some (n, 0) /\ @time_trunc concrete_library n 3 = Some n /\
   @time_round_mode concrete_library n 3 TIME_FRAC_TRUNCATE 0 = Some (n, 0) /\ @time_round_mode concrete_library n 3 TIME_FRAC_NONE 0 = None).
Proof.
  apply (@time_truncating_modes concrete_library concrete_digit_laws (mkTime 0 0 0 1 2 3 500000 false MYSQL_TIMESTAMP_TIME) time_null 0 3); by vm_compute.
Defined.

(** * Timestamps *)

Definition tv_ok (t : timeval) : Prop := 0 <= tv_usec t <= 999999.
Definition tv_value (t : timeval) : Z := tv_sec t * 1000000 + tv_usec t.
(** Where a value stands in the order: the zero datetime below every timestamp. *)
Definition tsz_le (a b : Timestamp_or_zero_datetime) : Prop :=
  is_zero_datetime a = true \/ (is_zero_datetime b = false /\ tv_value (tsz a) <= tv_value (tsz b)).

Section timestamps.
Context `{L : time_library} `{D : !digit_laws}.

Lemma timestamp_cmp_compare a b : tv_ok a -> tv_ok b -> timestamp_cmp a b = compare_int (tv_value a ?= tv_value b).
Proof.
  unfold tv_ok, timestamp_cmp, tv_value. intros Ha Hb.
  destruct (Z.compare_spec (tv_sec a * 1000000 + tv_usec a) (tv_sec b * 1000000 + tv_usec b)); cbn [compare_int];
    destruct (Z.ltb_spec (tv_sec a) (tv_sec b)), (Z.ltb_spec (tv_sec b) (tv_sec a)), (Z.ltb_spec (tv_usec a) (tv_usec b)), (Z.ltb_spec (tv_usec b) (tv_usec a)); lia.
Qed.

Lemma tsz_cmp_le a b : tv_ok (tsz a) -> tv_ok (tsz b) -> tsz_cmp a b <= 0 <-> tsz_le a b.
Proof.
  intros Ha Hb. unfold tsz_cmp, tsz_le. rewrite timestamp_cmp_compare by done. destruct (is_zero_datetime a), (is_zero_datetime b); try (split; intros; try lia; by left).
  destruct (Z.compare_spec (tv_value (tsz a)) (tv_value (tsz b))); cbn [compare_int].
  - split; [intros _; right; split; [done|lia]|lia].
  - split; [intros _; right; split; [done|lia]|lia].
  - split; [lia|]. intros [|[_ ?]]; [done|lia].
Qed.

Lemma timestamp_trunc_val t dec : 0 <= dec <= 6 -> tv_ok t ->
  exists t', timestamp_trunc t dec = Some t' /\ tv_ok t' /\ tv_value t' = tv_value t - tv_value t mod frac_step dec.
Proof.
  intros Hd Ht. unfold timestamp_trunc, my_timeval_trunc, tv_ok in *. rewrite remainder_val by lia. cbn [mbind option_bind]. eexists. split; [reflexivity|].
  destruct (trunc_part_val (tv_usec t) dec Hd ltac:(lia)) as (_ & Hr & _). split; [cbn; lia|].
  unfold tv_value. rewrite trunc_whole by done. cbn. lia.
Qed.

(** [cmp] on timestamps and the zero datetime is a total order: it agrees with
    [tsz_le], which places the zero datetime below all; both signs of a comparison
    agree; truncation to any number of digits keeps the order and never raises a
    value; and adding nanoseconds to the fraction is exact up to the carry. *)
Theorem timestamp_order a b c dec ns :
  tv_ok (tsz a) -> tv_ok (tsz b) -> tv_ok (tsz c) -> 0 <= dec <= 6 -> 0 <= ns <= 1000000000 ->
  (tsz_cmp a b <= 0 <-> tsz_le a b) /\ tsz_cmp b a = - tsz_cmp a b /\
  (tsz_cmp a b <= 0 -> tsz_cmp b c <= 0 -> tsz_cmp a c <= 0) /\
  (exists a' b', tsz_trunc a dec = Some a' /\ tsz_trunc b dec = Some b' /\ tsz_cmp a' a <= 0 /\ (tsz_cmp a b <= 0 -> tsz_cmp a' b' <= 0)) /\
  (exists carry t', add_nanoseconds_usec (tsz a) ns = Some (carry, t') /\ tv_ok t' /\
     tv_value t' + (if (carry : bool) then 1000000 else 0) = tv_value (tsz a) + (ns + 500) / 1000).
Proof.
  intros Ha Hb Hc Hd Hn. split; [by apply tsz_cmp_le|]. split; [|split; [|split]].
  - unfold tsz_cmp. rewrite !timestamp_cmp_compare, (Z.compare_antisym (tv_value (tsz a))) by done.
    destruct (is_zero_datetime a), (is_zero_datetime b); try done. by destruct (tv_value (tsz a) ?= tv_value (tsz b)).
  - rewrite !tsz_cmp_le by done. unfold tsz_le. intros [|[H1 ?]] [|[H2 ?]]; try (by left); [congruence|right; split; [done|lia]].
  - assert (forall t, tv_ok (tsz t) -> exists t', tsz_trunc t dec = Some t' /\ tv_ok (tsz t') /\ is_zero_datetime t' = is_zero_datetime t /\
      (is_zero_datetime t = false -> tv_value (tsz t') = tv_value (tsz t) - tv_value (tsz t) mod frac_step dec)) as Htr.
    { intros t Ht. unfold tsz_trunc. destruct (is_zero_datetime t) eqn:Ez; cbn [negb]; [by exists t|].
      destruct (timestamp_trunc_val (tsz t) dec Hd Ht) as (t' & -> & Ht' & Ev). cbn [mbind option_bind]. eexists. split; [reflexivity|]. by cbn. }
    destruct (Htr a Ha) as (a' & Ea & Ha' & Eza & Eva), (Htr b Hb) as (b' & Eb & Hb' & Ezb & Evb). exists a', b'. split; [done|]. split; [done|].
    destruct (frac_step_cases dec Hd) as (_ & Hp & _).
    rewrite !tsz_cmp_le by done. unfold tsz_le. rewrite Eza, Ezb. destruct (is_zero_datetime a) eqn:Eaz; [by split; [left|intros _; left]|].
    specialize (Eva eq_refl). pose proof (Z.mod_pos_bound (tv_value (tsz a)) _ Hp). split; [right; split; [done|lia]|].
    intros [|[Ebz Hle]]; [done|]. right. split; [done|]. specialize (Evb Ebz). rewrite Eva, Evb.
    pose proof (Z.div_mod (tv_value (tsz a)) (frac_step dec) ltac:(lia)). pose proof (Z.div_mod (tv_value (tsz b)) (frac_step dec) ltac:(lia)).
    pose proof (Z.div_le_mono _ _ (frac_step dec) Hp Hle). nia.
  - unfold add_nanoseconds_usec, asserting. rewrite (proj2 (Z.leb_le _ _)) by lia. cbn [mbind option_bind]. unfold tv_ok, tv_value in *.
    destruct (Z.ltb_spec ns 500); [eexists _, _; split; [reflexivity|]; rewrite rounding_small by lia; lia|].
    destruct (u32_rounding ns Hn) as [-> Hr]. destruct (carry_usec _ _ Ha Hr) as [_ Hcar].
    destruct (Z.ltb_spec (tv_usec (tsz a) + (ns + 500) / 1000) 1000000); eexists _, _; (split; [reflexivity|]); cbn [tv_sec tv_usec]; [lia|].
    rewrite Z.rem_mod_nonneg by lia. destruct Hcar as [-> ?]; lia.
Qed.
End timestamps.

Lemma timestamp_order_witness :
  let a := tsz_zero in let b := mkTsz (mkTv (-5) 999999) false in let c := mkTsz (mkTv 7 0) false in
  (tsz_cmp a b <= 0 <-> tsz_le a b) /\ tsz_cmp b a = - tsz_cmp a b /\
  (tsz_cmp a b <= 0 -> tsz_cmp b c <= 0 -> tsz_cmp a c <= 0) /\
  (exists a' b', @tsz_trunc concrete_library a 2 = Some a' /\ @tsz_trunc concrete_library b 2 = Some b' /\ tsz_cmp a' a <= 0 /\ (tsz_cmp a b <= 0 -> tsz_cmp a' b' <= 0)) /\
  (exists carry t', add_nanoseconds_usec (tsz a) 999 = Some (carry, t') /\ tv_ok t' /\
     tv_value t' + (if (carry : bool) then 1000000 else 0) = tv_value (tsz a) + (999 + 500) / 1000).
Proof.
  apply (@timestamp_order concrete_library concrete_digit_laws tsz_zero (mkTsz (mkTv (-5) 999999) false) (mkTsz (mkTv 7 0) false) 2 999);
    unfold tv_ok; cbn; lia.
Defined.

(** * Numbers to temporal values *)

(** The conversion routines of numbers: a value in range, or an error (-1, or
    nonzero) with a warning. *)
Class number_laws `{time_library} := {
  number_to_time_only_val n nr usec t w rc t' w' : 0 <= nr -> 0 <= usec <= 999999 ->
    number_to_time_only n nr usec TIME_MAX_HOUR t w = (rc, t', w') -> if rc =? 0 then time_ok t' else w' <> 0;
  number_to_datetime_or_date_val nr usec t fl w rc t' w' : 0 <= usec <= 999999 ->
    number_to_datetime_or_date nr usec t fl w = (rc, t', w') ->
    if rc =? -1 then w' <> 0 else 0 <= rc /\ date_ok t' /\ check_datetime_range t' = false;
  check_datetime_range_type t : date_ok t -> check_datetime_range (set_type t MYSQL_TIMESTAMP_DATETIME) = check_datetime_range t
}.

Section numbers.
Context `{L : time_library} `{D : !digit_laws} `{R : !range_laws} `{C : !current_date_laws} `{N : !number_laws}.

Definition sec6_ok (s : Sec6) : Prop := 0 <= m_sec s < 2 ^ 64 /\ 0 <= m_usec s <= 999999.

Lemma date_temporal_ok t : date_ok t -> temporal_ok t /\ time_type t <> MYSQL_TIMESTAMP_ERROR.
Proof. intros Ht. pose proof Ht as (Hd & _). unfold temporal_ok. destruct (date_type t Hd) as [E|E]; by rewrite E. Qed.

(** An error comes with a warning; a value is one [Time] accepts. *)
Lemma to_datetime_or_time_ok s this w mode : sec6_ok s ->
  exists err t' w', to_datetime_or_time s this w mode = Some (err, t', w') /\
    (err = false -> temporal_ok t' /\ time_type t' <> MYSQL_TIMESTAMP_ERROR).
Proof.
  intros [Hs Hu]. unfold to_datetime_or_time. destruct ((9999999 <? m_sec s) && (m_sec s <=? 99991231235959) && negb (m_neg s)).
  - destruct (number_to_datetime_or_date _ _ _ _ _) as [[rc t'] w'] eqn:E.
    pose proof (number_to_datetime_or_date_val _ _ _ _ _ _ _ _ Hu E) as Hv. unfold with_warning, asserting. cbn [fst snd].
    destruct (Z.eqb_spec rc (-1)) as [->|Hrc].
    + rewrite (proj2 (c_true_spec w') Hv). eexists _, _, _. split; [reflexivity|done].
    + destruct Hv as (Hrc' & Hd & _). rewrite (proj2 (Z.ltb_ge rc 0)) by done. cbn [negb]. rewrite orb_true_r.
      eexists _, _, _. split; [reflexivity|]. intros _. by apply date_temporal_ok.
  - destruct (number_to_time_only _ _ _ _ _ _) as [[rc t'] w'] eqn:E.
    pose proof (number_to_time_only_val _ _ _ _ _ _ _ _ (proj1 Hs) Hu E) as Hv. unfold with_warning, asserting. cbn [fst snd].
    destruct (Z.eqb_spec rc 0) as [->|Hrc].
    + cbn. rewrite orb_true_r. eexists _, _, _. split; [reflexivity|]. intros _. pose proof Hv as (Hty & _).
      unfold temporal_ok. by rewrite Hty.
    + rewrite (proj2 (c_true_spec w') Hv). eexists _, _, _. split; [reflexivity|]. intros Hf. by apply c_true_false in Hf.
Qed.

(** The DATETIME made of a DATE or DATETIME in range. *)
Lemma datetime_of_item_ok t : date_ok t -> check_datetime_range t = false ->
  exists t', datetime_of_item t = Some t' /\ time_type t' = MYSQL_TIMESTAMP_DATETIME /\ check_datetime_range t' = false.
Proof.
  intros Ht Hr. pose proof Ht as (Hd & _ & _ & _ & Hn).
  assert (date_to_datetime_if_needed t = Some (set_type t MYSQL_TIMESTAMP_DATETIME)) as E.
  { unfold date_to_datetime_if_needed, is_type. case_bool_decide as Hty.
    - unfold date_to_datetime, asserting. by rewrite Hd, Hn.
    - destruct (date_type t Hd) as [|Hty']; [done|]. f_equal. destruct t. cbn in *. by subst. }
  exists (set_type t MYSQL_TIMESTAMP_DATETIME). unfold datetime_of_item. rewrite E. cbn [mbind option_bind].
  unfold assert_datetime_value, datetime_is_valid_value_slow, is_valid_datetime_slow, is_type, asserting. cbn [time_type set_type].
  rewrite bool_decide_false, bool_decide_true by done. rewrite check_datetime_range_type by done. rewrite Hr. by cbn.
Qed.

(** From any number of seconds and microseconds: the constructor of [Time]
    never fails an assertion and gives a valid TIME or NULL; that of [Datetime]
    gives a DATETIME in range or NULL, NULL and an out of range warning for a
    negative number, and fails its assertion exactly when the flags ask for a time
    only. *)
Theorem number_to_temporal_valid this w nr opt flags :
  sec6_ok nr ->
  (exists t w', time_of_sec6 this w nr opt = Some (t, w') /\ time_value_ok t) /\
  (if conv_to_bool (mode_and_conv flags TIME_TIME_ONLY) then datetime_of_sec6 this w nr flags = None
   else exists t w', datetime_of_sec6 this w nr flags = Some (t, w') /\
     (time_type t = MYSQL_TIMESTAMP_NONE \/ (time_type t = MYSQL_TIMESTAMP_DATETIME /\ check_datetime_range t = false)) /\
     (m_neg nr = true -> time_type t = MYSQL_TIMESTAMP_NONE /\ w' = MYSQL_TIME_WARN_OUT_OF_RANGE)).
Proof.
  intros Hnr. assert (forall t (w' : Z), datetime_of_item (set_type t MYSQL_TIMESTAMP_NONE) = Some (set_type t MYSQL_TIMESTAMP_NONE)) as Hnull by done.
  split.
  - unfold time_of_sec6. destruct (to_datetime_or_time_ok nr this w TIME_INVALID_DATES Hnr) as (err & t & w' & -> & Hv). cbn [mbind option_bind].
    unfold xxx_to_time_result_to_valid_value, is_type, asserting. destruct err.
    + cbn. eexists _, _. split; [reflexivity|]. by left.
    + destruct (Hv eq_refl) as [Hok Hne]. rewrite bool_decide_false by done. cbn [negb mbind option_bind].
      assert (exists t' w'', valid_MYSQL_TIME_to_valid_value t w' opt = Some (t', w'') /\ time_value_ok t') as (t' & w'' & E & H'); [|by exists t', w''].
      unfold valid_MYSQL_TIME_to_valid_value, temporal_ok in *. unfold asserting.
      destruct (time_type t) eqn:Et; [eexists _, _; split; [reflexivity|by left]|done| | |destruct (time_ok_slow t Hok) as (-> & _); eexists _, _; split; [reflexivity|by right]].
      all: destruct (valid_datetime_to_valid_time_val t w' opt Hok) as (t' & w'' & E & Ht' & _);
        repeat match goal with |- context [if ?b then _ else _] => destruct b end;
        first [by eexists _, _; split; [exact E|right]|eexists _, _; split; [reflexivity|by left]].
  - unfold datetime_of_sec6, temporal_with_date_of_sec6, asserting. destruct (conv_to_bool _); [done|]. cbn [negb mbind option_bind].
    unfold to_datetime_or_date. destruct (m_neg nr) eqn:En.
    + cbn [mbind option_bind]. rewrite (Hnull this w). cbn [mbind option_bind]. eexists _, _. split; [reflexivity|]. split; [by left|done].
    + destruct (number_to_datetime_or_date _ _ _ _ _) as [[rc t'] w'] eqn:E. destruct Hnr as [_ Hu].
      pose proof (number_to_datetime_or_date_val _ _ _ _ _ _ _ _ Hu E) as Hv. unfold with_warning, asserting. cbn [fst snd].
      destruct (Z.eqb_spec rc (-1)) as [->|Hrc].
      * rewrite (proj2 (c_true_spec w') Hv). cbn [orb mbind option_bind]. rewrite (Hnull t' w'). cbn [mbind option_bind].
        eexists _, _. split; [reflexivity|]. split; [by left|done].
      * destruct Hv as (_ & Hd & Hr). cbn [negb]. rewrite orb_true_r. cbn [mbind option_bind].
        destruct (datetime_of_item_ok t' Hd Hr) as (t & -> & Ht & Hrt). cbn [mbind option_bind]. eexists _, _. split; [reflexivity|]. split; [by right|done].
Qed.
End numbers.

Lemma concrete_number_laws : @number_laws concrete_library.
Proof.
  split.
  - intros n nr usec t w rc t' w' Hnr Hu. cbn. destruct (_ && _) eqn:Eb; intros [= <- <- <-]; [|done].
    apply andb_true_iff in Eb as [[H1%Z.leb_le H2%Z.leb_le]%andb_true_iff H3%Z.leb_le]. cbn. split; [done|]. split; [done|].
    unfold time_fields. cbn. repeat split; try lia; lia_mod.
  - intros nr usec t fl w rc t' w' Hu. cbn. destruct (_ || _) eqn:Eb; intros [= <- <- <-]; [done|].
    apply orb_false_iff in Eb as [Hnr%Z.ltb_ge Eb]. cbn. split; [lia|]. split; [|done].
    unfold concrete_date_range in Eb. apply negb_false_iff in Eb. rewrite !andb_true_iff, !Z.leb_le in Eb. unfold has_valid_mmssff in Eb.
    rewrite !andb_true_iff, !Z.leb_le in Eb. unfold TIME_MAX_MINUTE, TIME_MAX_SECOND, TIME_MAX_SECOND_PART in Eb.
    destruct Eb as ((((Hy & Hm) & Hd) & Hh) & ((Hmi & Hs) & Hf)). cbn in Hy, Hm, Hd, Hh, Hmi, Hs, Hf.
    split; [done|]. unfold time_fields. cbn. repeat split; try lia; lia_mod.
  - done.
Qed.

Lemma number_to_temporal_valid_witness :
  let nr := mkSec6 99991231235959 5 false false in let flags := mode_of 0 in
  (exists t w', @time_of_sec6 concrete_library time_null 0 nr (time_options_default TIME_FRAC_NONE) = Some (t, w') /\ time_value_ok t) /\
  (if conv_to_bool (mode_and_conv flags TIME_TIME_ONLY) then @datetime_of_sec6 concrete_library time_null 0 nr flags = None
   else exists t w', @datetime_of_sec6 concrete_library time_null 0 nr flags = Some (t, w') /\
     (time_type t = MYSQL_TIMESTAMP_NONE \/ (time_type t = MYSQL_TIMESTAMP_DATETIME /\ @check_datetime_range concrete_library t = false)) /\
     (m_neg nr = true -> time_type t = MYSQL_TIMESTAMP_NONE /\ w' = MYSQL_TIME_WARN_OUT_OF_RANGE)).
Proof.
  apply (@number_to_temporal_valid concrete_library concrete_range_laws concrete_current_date_laws concrete_number_laws
    time_null 0 (mkSec6 99991231235959 5 false false) (time_options_default TIME_FRAC_NONE) (mode_of 0)).
  unfold sec6_ok. cbn. lia.
Defined.
