(* ===== verification/SqlString.v ===== *)
(** The growing byte strings of [private/sql_string.h]: [Binary_string], the
    character-set half of [String] and [StringBuffer].

    Memory is a heap of blocks, each read-only (a literal), writable, or
    allocated with [my_malloc]; a pointer is a block and an offset.  A method is a
    function of the heap and of the string's members in a small state monad,
    where [None] is a failed [DBUG_ASSERT] or an access outside of a block, a
    write to a read-only block, or a [memcpy] of overlapping areas.  The
    methods whose body is not in the header ([realloc_raw], [real_alloc]), the
    allocator and the tables the header declares are the fields of a class,
    [string_library], and what the code relies on is the class [StringLaws]. *)

From S2P Require Import Prelude ByteOrder.

(** * Memory *)

Inductive block_kind := Literal | Writable | Malloced.
#[export] Instance block_kind_eq_dec : EqDecision block_kind.
Proof. solve_decision. Defined.

Record block := Block { kind : block_kind; bytes : list byte }.
Abbreviation heap := (gmap positive block).

Inductive ptr := Null | Addr (b : positive) (o : nat).
#[export] Instance ptr_eq_dec : EqDecision ptr.
Proof. solve_decision. Defined.

(** Pointer addition, by an unsigned amount. *)
Definition padd (p : ptr) (n : Z) : ptr := match p with Null => Null | Addr b o => Addr b (o + Z.to_nat n) end.

(** The bytes from a pointer to the end of its block. *)
Definition view (h : heap) (p : ptr) : option (list byte) :=
  match p with
  | Null => Some []
  | Addr b o => k ← h !! b; if decide (o <= length (bytes k))%nat then Some (drop o (bytes k)) else None
  end.
Definition load_at (h : heap) (p : ptr) (n : Z) : option (list byte) :=
  v ← view h p; if decide (Z.to_nat n <= length v)%nat then Some (take (Z.to_nat n) v) else None.

Definition overwrite (o : nat) (bs l : list byte) : list byte := take o l ++ bs ++ drop (o + length bs) l.
Definition store_at (h : heap) (p : ptr) (bs : list byte) : option heap :=
  match p with
  | Null => None
  | Addr b o =>
      k ← h !! b;
      if decide (kind k <> Literal /\ (o + length bs <= length (bytes k))%nat)
      then Some (<[b := Block (kind k) (overwrite o bs (bytes k))]> h) else None
  end.

Definition overlap (p q : ptr) (n : Z) : bool :=
  match p, q with
  | Addr b o, Addr c d => bool_decide (b = c) && (Z.of_nat o <? Z.of_nat d + n) && (Z.of_nat d <? Z.of_nat o + n)
  | _, _ => false
  end.
Definition memcpy (h : heap) (dst src : ptr) (n : Z) : option heap :=
  if overlap dst src n then None else l ← load_at h src n; store_at h dst l.

(** * The members and the monad *)

Record Binary_string := mkString {
  Ptr : ptr; str_length : Z; Alloced_length : Z; extra_alloc : Z; alloced : bool; thread_specific : bool
}.

Definition set_Ptr (p : ptr) (s : Binary_string) : Binary_string :=
  mkString p (str_length s) (Alloced_length s) (extra_alloc s) (alloced s) (thread_specific s).
Definition set_str_length (n : Z) (s : Binary_string) : Binary_string :=
  mkString (Ptr s) n (Alloced_length s) (extra_alloc s) (alloced s) (thread_specific s).
Definition set_Alloced_length (n : Z) (s : Binary_string) : Binary_string :=
  mkString (Ptr s) (str_length s) n (extra_alloc s) (alloced s) (thread_specific s).
Definition set_extra_alloc (n : Z) (s : Binary_string) : Binary_string :=
  mkString (Ptr s) (str_length s) (Alloced_length s) n (alloced s) (thread_specific s).
Definition set_alloced_flag (b : bool) (s : Binary_string) : Binary_string :=
  mkString (Ptr s) (str_length s) (Alloced_length s) (extra_alloc s) b (thread_specific s).
Definition set_thread_flag (b : bool) (s : Binary_string) : Binary_string :=
  mkString (Ptr s) (str_length s) (Alloced_length s) (extra_alloc s) (alloced s) b.

Definition strM (A : Type) : Type := heap -> Binary_string -> option (A * heap * Binary_string).

#[export] Instance strM_ret : MRet strM := fun A a h s => Some (a, h, s).
#[export] Instance strM_bind : MBind strM := fun A B f m h s =>
  match m h s with Some (a, h', s') => f a h' s' | None => None end.

Definition this : strM Binary_string := fun h s => Some (s, h, s).
Definition modify (f : Binary_string -> Binary_string) : strM unit := fun h s => Some (tt, h, f s).
Definition dbug_assert (b : bool) : strM unit := fun h s => if b then Some (tt, h, s) else None.
(** [p[0], ..., p[n-1]] *)
Definition peek (p : ptr) (n : Z) : strM (list byte) := fun h s => l ← load_at h p n; Some (l, h, s).
(** [Ptr[i]= ...] *)
Definition poke (i : Z) (bs : list byte) : strM unit := fun h s => h' ← store_at h (padd (Ptr s) i) bs; Some (tt, h', s).
Definition copy_to (i : Z) (src : ptr) (n : Z) : strM unit :=
  fun h s => h' ← memcpy h (padd (Ptr s) i) src n; Some (tt, h', s).

(** What is declared in the headers and defined elsewhere. *)
Class string_library := {
  my_free : heap -> ptr -> option heap;
  realloc_raw : Z -> strM bool;
  real_alloc : Z -> strM bool;
  _dig_vec_lower : list byte;
  net_length_size : Z -> Z;
  net_store_length : Z -> list byte;
  ll2str : Z -> Z -> list byte;
  empty_literal : ptr
}.

Definition UINT_MAX32 : Z := 4294967295.

(** A double is the eight bytes of its representation; [float8store] of the
    little-endian headers copies them. *)
Definition le_double (d : Z) : list byte := Zbyte <$> le_list 8 d.

(** The bytes one of the store macros of [my_byteorder.h] leaves in a buffer of its size. *)
Definition store_bytes_of (n : nat) (put : list byte -> nat -> Z -> list byte) (z : Z) : list byte :=
  put (replicate n x00) 0%nat z.

(** [LEX_CSTRING]: a pointer and a length. *)
Record LEX_CSTRING := mkLex { lex_str : ptr; lex_length : Z }.

Section Binary_string.
Context `{L : string_library}.

(** ** Construction *)

Definition init_private_data : Binary_string := mkString Null 0 0 0 false false.

Definition call_free (p : ptr) : strM unit := fun h s => h' ← my_free h p; Some (tt, h', s).
Definition free_buffer : strM unit :=
  s ← this; if alloced s then modify (set_alloced_flag false);; call_free (Ptr s) else mret tt.

Definition Binary_string_of_length (length_arg : Z) : strM unit :=
  modify (fun _ => init_private_data);; real_alloc length_arg;; mret tt.
Definition Binary_string_of_const (str : ptr) (len : Z) : Binary_string := mkString str (u32 len) 0 0 false false.
Definition Binary_string_of_buffer (str : ptr) (len : Z) : Binary_string := mkString str (u32 len) (u32 len) 0 false false.
Definition Binary_string_copy (str : Binary_string) : Binary_string :=
  mkString (Ptr str) (str_length str) (Alloced_length str) 0 false false.

(** ** Reading *)

Definition length_ (s : Binary_string) : Z := str_length s.
Definition at_ (i : Z) : strM byte :=
  s ← this; l ← peek (padd (Ptr s) i) 1; mret (hd x00 l).
Definition set_length (len : Z) : strM unit := modify (set_str_length (u32 len)).
Definition string_is_empty (s : Binary_string) : bool := str_length s =? 0.
Definition end_ (s : Binary_string) : ptr := padd (Ptr s) (str_length s).
Definition my_isascii (c : Z) : bool := negb (c_true (c .& Z.lnot 127)).
Definition has_8bit_bytes : strM bool :=
  s ← this; l ← peek (Ptr s) (str_length s); mret (existsb (fun c => negb (my_isascii (swrap 8 (byteZ c)))) l).
Definition bin_eq (other : Binary_string) : strM bool :=
  s ← this;
  if str_length s =? str_length other
  then a ← peek (Ptr s) (str_length s); b ← peek (Ptr other) (str_length s); mret (bool_decide (a = b))
  else mret false.

(** [strlen(p)], [None] without a terminator. *)
Fixpoint strlen (l : list byte) : option Z :=
  match l with
  | [] => None
  | c :: l => if bool_decide (c = x00) then Some 0 else n ← strlen l; Some (n + 1)
  end.
Definition strlen_at (p : ptr) : strM Z := fun h s => v ← view h p; n ← strlen v; Some (n, h, s).

Definition chop : strM unit :=
  s ← this;
  if c_true (str_length s)
  then modify (set_str_length (str_length s - 1));;
       poke (str_length s - 1) [x00];;
       n ← strlen_at (Ptr s);
       dbug_assert (n =? str_length s - 1)
  else mret tt.

(** ** Appending without growing *)

Definition ASSERT_LENGTH (n : Z) : strM unit :=
  s ← this; dbug_assert (u32 (str_length s + u32 n) <=? Alloced_length s).
(** Writes at the end, and moves the end. *)
Definition append_here (bs : list byte) : strM unit :=
  s ← this; poke (str_length s) bs;; modify (set_str_length (u32 (str_length s + Z.of_nat (length bs)))).

Definition q_append_char (c : byte) : strM unit := ASSERT_LENGTH 1;; append_here [c].
Definition q_append2b (n : Z) : strM unit := ASSERT_LENGTH 2;; append_here (store_bytes_of 2 X86_64.int2store n).
Definition q_append_uint32 (n : Z) : strM unit := ASSERT_LENGTH 4;; append_here (store_bytes_of 4 X86_64.int4store n).
Definition q_append_double (d : Z) : strM unit := ASSERT_LENGTH 8;; append_here (le_double d).
Definition q_append (data : ptr) (data_len : Z) : strM unit :=
  ASSERT_LENGTH data_len;;
  s ← this;
  (if c_true data_len then copy_to (str_length s) data data_len else mret tt);;
  dbug_assert (str_length s <=? u64 (UINT_MAX32 - data_len));;
  modify (set_str_length (u32 (str_length s + u32 data_len))).
(** The check of a [LEX_CSTRING]: no more than [UINT_MAX32] bytes, null or terminated. *)
Definition assert_lex (ls : LEX_CSTRING) : strM unit :=
  dbug_assert (lex_length ls <? UINT_MAX32);;
  if (lex_length ls =? 0) && bool_decide (lex_str ls = Null) then mret tt
  else n ← strlen_at (lex_str ls); dbug_assert (lex_length ls =? n).
Definition q_append_lex (ls : LEX_CSTRING) : strM unit := assert_lex ls;; q_append (lex_str ls) (u32 (lex_length ls)).

Definition write_at_position (position value : Z) : strM unit :=
  s ← this; dbug_assert (u32 (position + 4) <=? str_length s);; poke position (store_bytes_of 4 X86_64.int4store value).

Definition qs_append_char (c : byte) : strM unit := ASSERT_LENGTH 1;; append_here [c].
Definition qs_append_longlong (i radix : Z) : strM unit :=
  ASSERT_LENGTH 22;;
  s ← this;
  poke (str_length s) (ll2str i radix ++ [x00]);;
  modify (set_str_length (u32 (str_length s + Z.of_nat (length (ll2str i radix))))).

(** ** Members *)

Definition set_thread_specific : strM unit :=
  modify (fun s => if alloced s then s else set_thread_flag true s).
Definition is_alloced (s : Binary_string) : bool := alloced s.
Definition alloced_length (s : Binary_string) : Z := Alloced_length s.
Definition extra_allocation (s : Binary_string) : Z := extra_alloc s.
Definition set_extra_allocation (len : Z) : strM unit := modify (set_extra_alloc (u32 len)).
Definition mark_as_const : strM unit := modify (set_Alloced_length 0).

Definition uses_buffer_owned_by (t s : Binary_string) : bool :=
  match Ptr t, Ptr s with
  | Addr b o, Addr c d =>
      alloced s && bool_decide (b = c) && (d <=? o)%nat && (Z.of_nat o <? Z.of_nat d + Alloced_length s)
  | _, _ => false
  end.

(** Exchanges four of the six members. *)
Definition swap (t s : Binary_string) : Binary_string * Binary_string :=
  (mkString (Ptr s) (str_length s) (Alloced_length s) (extra_alloc t) (alloced s) (thread_specific t),
   mkString (Ptr t) (str_length t) (Alloced_length t) (extra_alloc s) (alloced t) (thread_specific s)).

(** ** Changing the buffer *)

Definition set_alloced (str : ptr) (length alloced_length : Z) : strM unit :=
  free_buffer;;
  modify (fun s => set_str_length (u32 length) (set_Ptr str s));;
  dbug_assert (alloced_length <? UINT_MAX32);;
  modify (set_Alloced_length (u32 alloced_length)).
Definition set_buffer (str : ptr) (arg_length : Z) : strM unit := set_alloced str arg_length arg_length.
Definition set_const (str : ptr) (length : Z) : strM unit :=
  free_buffer;; modify (fun s => set_Alloced_length 0 (set_str_length (u32 length) (set_Ptr str s))).
(** [str] is another object. *)
Definition set_substring (str : Binary_string) (offset length : Z) : strM unit :=
  free_buffer;;
  modify (fun s => set_Alloced_length 0 (set_str_length (u32 length) (set_Ptr (padd (Ptr str) offset) s)));;
  if c_true (Alloced_length str) then modify (set_Alloced_length (u32 (Alloced_length str - offset))) else mret tt.
Definition to_lex_cstring (s : Binary_string) : LEX_CSTRING := mkLex (Ptr s) (str_length s).
Definition get_value (s : Binary_string) : LEX_CSTRING := mkLex (Ptr s) (str_length s).

Definition reset (ptr_arg : ptr) (length_arg alloced_length_arg : Z) : strM unit :=
  set_alloced ptr_arg length_arg alloced_length_arg;; modify (set_alloced_flag (negb (bool_decide (ptr_arg = Null)))).
Definition release : strM ptr := s ← this; modify (fun _ => init_private_data);; mret (Ptr s).
Definition set_buffer_if_not_allocated (str : ptr) (arg_length : Z) : strM unit :=
  modify (fun s => if alloced s then s
                   else set_Alloced_length (u32 arg_length) (set_str_length (u32 arg_length) (set_Ptr str s))).
(** [s] is another object. *)
Definition assign (s : Binary_string) : strM unit :=
  t ← this; dbug_assert (negb (uses_buffer_owned_by s t));; set_alloced (Ptr s) (str_length s) (Alloced_length s).
Definition move (s : Binary_string) : strM Binary_string :=
  set_alloced (Ptr s) (str_length s) (Alloced_length s);;
  modify (fun t => set_thread_flag (thread_specific s) (set_alloced_flag (alloced s) (set_extra_alloc (extra_alloc s) t)));;
  mret (set_alloced_flag false s).

Definition free : strM unit :=
  free_buffer;; modify (fun s => set_extra_alloc 0 (set_Alloced_length 0 (set_str_length 0 (set_Ptr Null s)))).
Definition alloc (arg_length : Z) : strM bool :=
  s ← this;
  if (arg_length <=? Alloced_length s) && c_true (Alloced_length s) then mret false else real_alloc arg_length.

(** ** Growing.  [true] is the failure of an allocation. *)

Definition realloc (arg_length : Z) : strM bool :=
  r ← realloc_raw (u64 (arg_length + 1));
  if (r : bool) then mret true else poke arg_length [x00];; mret false.
Definition realloc_with_extra (arg_length : Z) : strM bool :=
  modify (fun s => if extra_alloc s <? 4096 then set_extra_alloc (u32 (extra_alloc s * 2 + 128)) s else s);;
  s ← this;
  r ← realloc_raw (u64 (arg_length + extra_alloc s));
  if (r : bool) then mret true else poke arg_length [x00];; mret false.
Definition realloc_with_extra_if_needed (arg_length : Z) : strM bool :=
  s ← this;
  if arg_length <? Alloced_length s then poke arg_length [x00];; mret false else realloc_with_extra arg_length.
Definition reserve (space_needed : Z) : strM bool :=
  s ← this;
  dbug_assert (u64 (str_length s + space_needed) <? UINT_MAX32);;
  realloc (u64 (str_length s + space_needed)).

Definition append (str : ptr) (size : Z) : strM bool :=
  if negb (c_true size) then mret false
  else
    s ← this;
    r ← realloc_with_extra_if_needed (u64 (str_length s + size));
    if (r : bool) then mret true else q_append str size;; mret false.
Definition append_lex (s : LEX_CSTRING) : strM bool := append (lex_str s) (lex_length s).
Definition append_string (s : Binary_string) : strM bool := append (Ptr s) (str_length s).

Definition append_char (chr : byte) : strM bool :=
  s ← this;
  if str_length s <? Alloced_length s then append_here [chr];; mret false
  else
    r ← realloc_with_extra (u32 (str_length s + 1));
    if (r : bool) then mret true else append_here [chr];; mret false.

Definition dig (n : Z) : byte := nth (Z.to_nat n) _dig_vec_lower x00.
(** The loop over the source; [n] bytes are left. *)
Fixpoint append_hex_from (n : nat) (src : ptr) : strM bool :=
  match n with
  | O => mret false
  | S n =>
      l ← peek src 1;
      r ← append_char (dig (byteZ (hd x00 l) .>> 4));
      if (r : bool) then mret true
      else
        l ← peek src 1;
        r ← append_char (dig (byteZ (hd x00 l) .& 0x0F));
        if (r : bool) then mret true else append_hex_from n (padd src 1)
  end.
Definition append_hex (src : ptr) (srclen : Z) : strM bool := append_hex_from (Z.to_nat srclen) src.

(** The sum is a [uint32]. *)
Definition append_with_step (str : ptr) (arg_length step_alloc : Z) : strM bool :=
  s ← this;
  let new_length := u32 (arg_length + str_length s) in
  r ← (if Alloced_length s <? new_length then realloc (u32 (new_length + step_alloc)) else mret false);
  if (r : bool) then mret true else q_append str arg_length;; mret false.

Definition prep_append (arg_length step_alloc : Z) : strM ptr :=
  s ← this;
  let new_length := u32 (arg_length + str_length s) in
  r ← (if Alloced_length s <? new_length then realloc (u32 (new_length + step_alloc)) else mret false);
  if (r : bool) then mret Null
  else
    s ← this;
    modify (set_str_length (u32 (str_length s + arg_length)));;
    mret (padd (Ptr s) (str_length s)).

Definition c_ptr : strM ptr :=
  s ← this;
  if bool_decide (Ptr s = Null) then mret empty_literal
  else
    z ← (if alloced s then mret false else l ← peek (padd (Ptr s) (str_length s)) 1; mret (bool_decide (l = [x00])));
    if (z : bool) then mret (Ptr s)
    else if str_length s <? Alloced_length s then poke (str_length s) [x00];; mret (Ptr s)
    else realloc (str_length s);; s ← this; mret (Ptr s).
Definition c_ptr_safe : strM ptr :=
  s ← this;
  (if negb (bool_decide (Ptr s = Null)) && (str_length s <? Alloced_length s)
   then poke (str_length s) [x00] else realloc (str_length s);; mret tt);;
  s ← this; mret (Ptr s).
Definition c_ptr_quick : strM ptr := c_ptr_safe.

(** ** The length prefix of the network protocol *)

Definition q_net_store_length (length : Z) : strM unit :=
  s ← this;
  dbug_assert (u32 (str_length s + net_length_size length) <=? Alloced_length s);;
  poke (str_length s) (net_store_length length);;
  modify (set_str_length (u32 (str_length s + Z.of_nat (List.length (net_store_length length))))).
Definition q_net_store_data (from : ptr) (length : Z) : strM unit :=
  dbug_assert (length <? UINT_MAX32);;
  s ← this;
  dbug_assert (u64 (str_length s + length + net_length_size length) <=? Alloced_length s);;
  q_net_store_length length;;
  q_append from (u32 length).
End Binary_string.

(** * [Charset], [String] and [StringBuffer] *)

(** The character sets of [m_ctype.h], and their functions on a text. *)
Class charset_library (CHARSET_INFO : Type) := {
  my_charset_bin : CHARSET_INFO;
  cs_eq : CHARSET_INFO -> CHARSET_INFO -> bool;
  cs_use_mb : CHARSET_INFO -> bool;
  cs_mbminlen : CHARSET_INFO -> Z;
  cs_mbmaxlen : CHARSET_INFO -> Z;
  cs_numchars : CHARSET_INFO -> list byte -> Z;
  cs_lengthsp : CHARSET_INFO -> list byte -> Z;
  cs_charpos : CHARSET_INFO -> list byte -> Z -> Z;
  my_charset_same : CHARSET_INFO -> CHARSET_INFO -> bool
}.

Section String.
Context `{L : string_library} `{C : charset_library CHARSET_INFO}.

Record Charset := mkCharset { m_charset : CHARSET_INFO }.
Definition charset_default : Charset := mkCharset my_charset_bin.
Definition charset (c : Charset) : CHARSET_INFO := m_charset c.
Definition use_mb (c : Charset) : bool := cs_use_mb (m_charset c).
Definition mbminlen (c : Charset) : Z := cs_mbminlen (m_charset c).
Definition mbmaxlen (c : Charset) : Z := cs_mbmaxlen (m_charset c).
Definition is_good_for_ft (c : Charset) : bool := negb (cs_eq (m_charset c) my_charset_bin) && (cs_mbminlen (m_charset c) =? 1).
Definition same_encoding (c other : Charset) : bool := my_charset_same (m_charset c) (m_charset other).

(** A [String] is a [Binary_string] and a [Charset]. *)
Record String := mkStringCs { str_cs : Charset; str_bin : Binary_string }.
Definition StrM (A : Type) : Type := heap -> String -> option (A * heap * String).
(** A method of the [Binary_string] on the [String]. *)
Definition of_bin {A} (m : strM A) : StrM A :=
  fun h s => '(a, h', b) ← m h (str_bin s); Some (a, h', mkStringCs (str_cs s) b).
(** After [set_charset(cs)] or before it. *)
Definition with_cs {A} (c : Charset) (m : strM A) : StrM A :=
  fun h s => '(a, h', b) ← m h (str_bin s); Some (a, h', mkStringCs c b).

Definition String_of_const (str : ptr) (len : Z) (cs : CHARSET_INFO) : String := mkStringCs (mkCharset cs) (Binary_string_of_const str len).
Definition String_of_buffer (str : ptr) (len : Z) (cs : CHARSET_INFO) : String := mkStringCs (mkCharset cs) (Binary_string_of_buffer str len).
Definition String_copy (str : String) : String := mkStringCs (str_cs str) (Binary_string_copy (str_bin str)).
Definition String_set_substring (str : String) (offset arg_length : Z) : StrM unit := with_cs (str_cs str) (set_substring (str_bin str) offset arg_length).
Definition String_set_buffer (str : ptr) (arg_length : Z) (cs : CHARSET_INFO) : StrM unit := with_cs (mkCharset cs) (set_buffer str arg_length).
Definition String_set_const (str : ptr) (arg_length : Z) (cs : CHARSET_INFO) : StrM unit := with_cs (mkCharset cs) (set_const str arg_length).
Definition String_set_buffer_if_not_allocated (str : ptr) (arg_length : Z) (cs : CHARSET_INFO) : StrM unit :=
  with_cs (mkCharset cs) (set_buffer_if_not_allocated str arg_length).
Definition String_reset (ptr_arg : ptr) (length_arg alloced_length_arg : Z) (cs : CHARSET_INFO) : StrM unit :=
  with_cs (mkCharset cs) (reset ptr_arg length_arg alloced_length_arg).
(** [s] is another object. *)
Definition String_assign (s : String) : StrM unit := with_cs (str_cs s) (assign (str_bin s)).
Definition String_append_string (s : String) : StrM bool := of_bin (append_string (str_bin s)).
Definition String_append_char (chr : byte) : StrM bool := of_bin (append_char chr).
Definition String_append_hex (src : ptr) (srclen : Z) : StrM bool := of_bin (append_hex src srclen).
Definition String_append_with_step (str : ptr) (arg_length step_alloc : Z) : StrM bool := of_bin (append_with_step str arg_length step_alloc).
Definition String_text (h : heap) (s : String) : option (list byte) := load_at h (Ptr (str_bin s)) (str_length (str_bin s)).
Definition numchars (h : heap) (s : String) : option Z := l ← String_text h s; Some (u32 (cs_numchars (m_charset (str_cs s)) l)).
Definition charpos (h : heap) (s : String) (i offset : Z) : option Z :=
  if i <=? 0 then Some (s32 i)
  else
    let b := str_bin s in
    l ← load_at h (padd (Ptr b) offset) (str_length b - offset);
    Some (s32 (cs_charpos (m_charset (str_cs s)) l (u64 i))).
Definition lengthsp (h : heap) (s : String) : option Z := l ← String_text h s; Some (cs_lengthsp (m_charset (str_cs s)) l).
Definition String_swap (t s : String) : String * String :=
  let '(b, c) := swap (str_bin t) (str_bin s) in (mkStringCs (str_cs s) b, mkStringCs (str_cs t) c).
Definition is_ascii : StrM bool := fun h s =>
  if length_ (str_bin s) =? 0 then Some (true, h, s)
  else if 1 <? mbminlen (str_cs s) then Some (false, h, s)
  else '(r, h, s) ← of_bin has_8bit_bytes h s; Some (negb r, h, s).

(** [buff] is the array of [buff_sz] bytes in the object. *)
Definition StringBuffer (buff : ptr) (buff_sz : Z) (cs : CHARSET_INFO) : String :=
  let s := String_of_buffer buff buff_sz cs in mkStringCs (str_cs s) (set_str_length 0 (str_bin s)).
Definition StringBuffer_set_buffer_if_not_allocated (buff : ptr) (buff_sz : Z) (cs : CHARSET_INFO) : StrM unit :=
  with_cs (mkCharset cs)
    (modify (fun s => set_str_length 0 (if is_alloced s then s else set_Alloced_length (u32 buff_sz) (set_Ptr buff s)))).
Definition BinaryStringBuffer (buff : ptr) (buff_sz : Z) : Binary_string := set_str_length 0 (Binary_string_of_buffer buff buff_sz).
End String.

(** * What a string represents *)

(** The block of the buffer the string may write to, if it may. *)
Definition footprint (s : Binary_string) : option positive :=
  match Ptr s with
  | Addr b _ => if alloced s || (0 <? Alloced_length s) then Some b else None
  | Null => None
  end.

Definition block_of_kind (h : heap) (p : ptr) (P : block_kind -> Prop) : Prop :=
  match p with Null => False | Addr b _ => exists k, h !! b = Some k /\ P (kind k) end.
Definition malloced_at (h : heap) (p : ptr) : Prop :=
  exists b k, p = Addr b 0 /\ h !! b = Some k /\ kind k = Malloced.

(** The members describe memory: the text and the space are in the block, the
    space may be written to, and a buffer the string owns is the allocator's. *)
Record string_wf (h : heap) (s : Binary_string) : Prop := {
  wf_length : ufits 32 (str_length s);
  wf_space : 0 <= Alloced_length s < UINT_MAX32;
  wf_extra : ufits 32 (extra_alloc s);
  wf_cap : Alloced_length s = 0 \/ str_length s <= Alloced_length s;
  wf_view : exists v, view h (Ptr s) = Some v /\ Z.max (str_length s) (Alloced_length s) <= Z.of_nat (length v);
  wf_writable : 0 < Alloced_length s -> block_of_kind h (Ptr s) (fun k => k <> Literal);
  wf_alloced : alloced s = true -> malloced_at h (Ptr s) /\ 0 < Alloced_length s
}.

(** The string holds the bytes [bs]. *)
Definition holds (h : heap) (s : Binary_string) (bs : list byte) : Prop :=
  string_wf h s /\ Z.of_nat (length bs) = str_length s /\ load_at h (Ptr s) (str_length s) = Some bs.

(** Nothing but the string's own buffer changed. *)
Definition framed (h : heap) (s : Binary_string) (h' : heap) (s' : Binary_string) : Prop :=
  forall b k, h !! b = Some k -> footprint s <> Some b -> h' !! b = Some k /\ footprint s' <> Some b.

(** The [n] bytes at [p] are [bs], and they are not in the string's buffer. *)
Definition source (h : heap) (s : Binary_string) (p : ptr) (bs : list byte) : Prop :=
  load_at h p (Z.of_nat (length bs)) = Some bs /\
  match p with Null => True | Addr b _ => footprint s <> Some b end.

(** What the code relies on from the code in [sql_string.cc] and from the allocator. *)
Class StringLaws (L : string_library) : Prop := {
  my_free_frees h b k : h !! b = Some k -> kind k = Malloced -> my_free h (Addr b 0) = Some (delete b h);
  (** makes room for [n] bytes and keeps the text, or fails and changes nothing *)
  realloc_raw_grows h s bs n : holds h s bs -> str_length s <= n < 2 ^ 64 ->
    if n <=? Alloced_length s then realloc_raw n h s = Some (false, h, s)
    else realloc_raw n h s = Some (true, h, s) \/
      exists h' s', realloc_raw n h s = Some (false, h', s') /\ holds h' s' bs /\ framed h s h' s' /\
        n <= Alloced_length s' /\ alloced s' = true /\
        str_length s' = str_length s /\ extra_alloc s' = extra_alloc s /\ thread_specific s' = thread_specific s;
  (** makes room for [n] bytes and empties the string *)
  real_alloc_empties h s bs n : holds h s bs -> 0 <= n < UINT_MAX32 ->
    exists r h' s', real_alloc n h s = Some (r, h', s') /\ holds h' s' [] /\ framed h s h' s' /\
      (r = false -> n <= Alloced_length s');
  dig_vec_digits : take 16 _dig_vec_lower =
    [x30; x31; x32; x33; x34; x35; x36; x37; x38; x39; x61; x62; x63; x64; x65; x66]
}.

(** ** Memory lemmas *)

Lemma length_overwrite o bs l : (o + length bs <= length l)%nat -> length (overwrite o bs l) = length l.
Proof. intros H. unfold overwrite. rewrite !length_app, length_take, length_drop. lia. Qed.

Lemma drop_overwrite o i bs l : (o + i <= length l)%nat -> drop o (overwrite (o + i) bs l) = overwrite i bs (drop o l).
Proof.
  intros H. unfold overwrite. rewrite drop_app_le by (rewrite length_take; lia).
  rewrite skipn_firstn_comm, drop_drop. do 2 f_equal; [f_equal; lia|]. f_equal. lia.
Qed.

Lemma take_overwrite_before n i bs l : (n <= i)%nat -> (i <= length l)%nat -> take n (overwrite i bs l) = take n l.
Proof.
  intros H Hi. unfold overwrite. rewrite take_app_le by (rewrite length_take; lia). rewrite take_take. f_equal. lia.
Qed.

Lemma take_overwrite_end i bs l : (i <= length l)%nat -> take (i + length bs) (overwrite i bs l) = take i l ++ bs.
Proof.
  intros Hi. unfold overwrite. rewrite app_assoc, take_app_length'; [done|]. rewrite length_app, length_take. lia.
Qed.

Lemma view_padd h p i v :
  view h p = Some v -> 0 <= i <= Z.of_nat (length v) -> view h (padd p i) = Some (drop (Z.to_nat i) v).
Proof.
  destruct p as [|b o]; cbn [view padd]; intros E Hi.
  - injection E as <-. by rewrite drop_nil.
  - destruct (h !! b) as [k|]; cbn [mbind option_bind] in *; [|done].
    case_decide; [|done]. injection E as <-. rewrite length_drop in Hi.
    rewrite decide_True by lia. by rewrite drop_drop.
Qed.

Lemma load_at_view h p n v : view h p = Some v -> 0 <= n <= Z.of_nat (length v) -> load_at h p n = Some (take (Z.to_nat n) v).
Proof. intros E H. unfold load_at. rewrite E. cbn [mbind option_bind]. by rewrite decide_True by lia. Qed.

Lemma load_at_inv h p n bs : load_at h p n = Some bs ->
  exists v, view h p = Some v /\ (Z.to_nat n <= length v)%nat /\ bs = take (Z.to_nat n) v.
Proof.
  unfold load_at. destruct (view h p) as [v|]; cbn [mbind option_bind]; [|done].
  case_decide; [|done]. intros [= <-]. eauto.
Qed.

(** Writing into the space: the blocks but the string's own stay, and the view changes there. *)
Lemma store_at_space h s v i bs :
  string_wf h s -> view h (Ptr s) = Some v -> 0 <= i -> i + Z.of_nat (length bs) <= Alloced_length s -> 0 < Alloced_length s ->
  exists h', store_at h (padd (Ptr s) i) bs = Some h' /\
    (forall b k, h !! b = Some k -> footprint s <> Some b -> h' !! b = Some k) /\
    view h' (Ptr s) = Some (overwrite (Z.to_nat i) bs v) /\
    (forall P, block_of_kind h (Ptr s) P -> block_of_kind h' (Ptr s) P) /\
    (malloced_at h (Ptr s) -> malloced_at h' (Ptr s)).
Proof.
  intros [] Ev Hi Hl Ha. specialize (wf_writable0 Ha). destruct wf_view0 as (v' & Ev' & Hv).
  assert (v' = v) as -> by congruence.
  unfold footprint in *. destruct (Ptr s) as [|b o]; [done|]. destruct wf_writable0 as (k & Ek & Hk).
  cbn [view padd store_at] in *. rewrite Ek in *. cbn [mbind option_bind] in *. case_decide as Ho; [|done]. injection Ev as <-.
  rewrite length_drop in Hv. rewrite decide_True by (split; [done|lia]).
  eexists. split; [reflexivity|]. split_and!.
  - intros c k' Ec Hc. rewrite (proj2 (Z.ltb_lt _ _) Ha), orb_true_r in Hc. rewrite lookup_insert_ne by congruence. done.
  - rewrite lookup_insert_eq. cbn [mbind option_bind bytes]. rewrite length_overwrite by lia.
    rewrite decide_True by done. f_equal. apply drop_overwrite. lia.
  - intros P (k' & Ek' & HP). exists (Block (kind k) (overwrite (o + Z.to_nat i) bs (bytes k))).
    rewrite lookup_insert_eq. split; [done|]. by assert (k' = k) as -> by congruence.
  - intros (b' & k' & [= -> ->] & Ek' & HP). assert (k' = k) as -> by congruence.
    eexists b', _. by rewrite lookup_insert_eq.
Qed.

(** A string with the same buffer and another length within its space. *)
Lemma holds_resize h h' s v n e :
  string_wf h s -> 0 < Alloced_length s -> 0 <= n <= Alloced_length s -> ufits 32 e ->
  view h' (Ptr s) = Some v -> Alloced_length s <= Z.of_nat (length v) ->
  (forall P, block_of_kind h (Ptr s) P -> block_of_kind h' (Ptr s) P) ->
  (malloced_at h (Ptr s) -> malloced_at h' (Ptr s)) ->
  holds h' (set_extra_alloc e (set_str_length n s)) (take (Z.to_nat n) v).
Proof.
  intros [] Ha Hn He Ev Hl HP HM. unfold holds. cbn. split_and!.
  - constructor; cbn; try done.
    + unfold ufits, UINT_MAX32 in *. lia.
    + right. lia.
    + exists v. split; [done|]. lia.
    + intros _. apply HP. auto.
    + intros Hal. destruct (wf_alloced0 Hal). auto.
  - rewrite length_take. lia.
  - apply load_at_view; [done|lia].
Qed.

Lemma set_same s : set_extra_alloc (extra_alloc s) (set_str_length (str_length s) s) = s.
Proof. by destruct s. Qed.
Lemma set_extra_same n s : set_extra_alloc (extra_alloc s) (set_str_length n s) = set_str_length n s.
Proof. by destruct s. Qed.

(** ** Frames *)

Lemma framed_same h s s' : footprint s' = footprint s -> framed h s h s'.
Proof. intros E b k Hb Hf. rewrite E. done. Qed.

Lemma framed_trans h1 s1 h2 s2 h3 s3 : framed h1 s1 h2 s2 -> framed h2 s2 h3 s3 -> framed h1 s1 h3 s3.
Proof. intros H1 H2 b k E F. destruct (H1 b k E F) as [E' F']. exact (H2 b k E' F'). Qed.

Lemma view_framed h s h' s' p v :
  framed h s h' s' -> view h p = Some v -> match p with Null => True | Addr b _ => footprint s <> Some b end ->
  view h' p = Some v /\ match p with Null => True | Addr b _ => footprint s' <> Some b end.
Proof.
  intros F E Hp. destruct p as [|b o]; [done|]. cbn [view] in *.
  destruct (h !! b) as [k|] eqn:Ek; cbn [mbind option_bind] in *; [|done].
  destruct (F b k Ek Hp) as [-> ?]. done.
Qed.

Lemma source_framed h s h' s' p bs : framed h s h' s' -> source h s p bs -> source h' s' p bs.
Proof.
  intros F [E Hp]. apply load_at_inv in E as (v & Ev & Hl & Eb).
  destruct (view_framed _ _ _ _ _ _ F Ev Hp) as [Ev' Hp']. split; [|done].
  unfold load_at. rewrite Ev'. cbn [mbind option_bind]. rewrite decide_True by done. by rewrite <- Eb.
Qed.

Lemma holds_fits h s bs : holds h s bs -> ufits 32 (str_length s) /\ 0 <= Alloced_length s < UINT_MAX32 /\ str_length s = Z.of_nat (length bs).
Proof. intros ([] & El & _). done. Qed.

(** * The specifications of the operations *)

(** [m] is defined and its result satisfies [Q]. *)
Definition outcome {A} (m : strM A) (h : heap) (s : Binary_string) (Q : A -> heap -> Binary_string -> Prop) : Prop :=
  exists a h' s', m h s = Some (a, h', s') /\ Q a h' s'.

Lemma outcome_ret {A} (a : A) h s (Q : A -> heap -> Binary_string -> Prop) : Q a h s -> outcome (mret a) h s Q.
Proof. intros H. by exists a, h, s. Qed.
Lemma outcome_bind {A B} (m : strM A) (f : A -> strM B) h s Q :
  outcome m h s (fun a h' s' => outcome (f a) h' s' Q) -> outcome (m ≫= f) h s Q.
Proof.
  intros (a & h' & s' & E & (b & h2 & s2 & E2 & H)). exists b, h2, s2. split; [|done].
  unfold mbind, strM_bind. by rewrite E.
Qed.
Lemma outcome_this h s (Q : Binary_string -> heap -> Binary_string -> Prop) : Q s h s -> outcome this h s Q.
Proof. intros H. by exists s, h, s. Qed.
Lemma outcome_modify f h s (Q : unit -> heap -> Binary_string -> Prop) : Q tt h (f s) -> outcome (modify f) h s Q.
Proof. intros H. by exists tt, h, (f s). Qed.
Lemma outcome_assert b h s (Q : unit -> heap -> Binary_string -> Prop) : b = true -> Q tt h s -> outcome (dbug_assert b) h s Q.
Proof. intros -> H. by exists tt, h, s. Qed.
Lemma outcome_peek p n h s l (Q : list byte -> heap -> Binary_string -> Prop) : load_at h p n = Some l -> Q l h s -> outcome (peek p n) h s Q.
Proof. intros E H. exists l, h, s. unfold peek. by rewrite E. Qed.
Lemma outcome_mono {A} (m : strM A) h s (P Q : A -> heap -> Binary_string -> Prop) :
  outcome m h s P -> (forall a h' s', P a h' s' -> Q a h' s') -> outcome m h s Q.
Proof. intros (a & h' & s' & E & H) HPQ. exists a, h', s'. auto. Qed.

(** Steps through a sequence of the primitive operations. *)
Ltac m_step :=
  first
    [ apply outcome_bind
    | apply outcome_this; cbv beta
    | apply outcome_ret; cbv beta
    | apply outcome_modify; cbv beta
    | apply outcome_assert; [|cbv beta] ].

Section ops.
Context `{L : string_library}.

(** A write to the space after the text: the text stays, and what follows it is the bytes written. *)
Lemma poke_spec h s bs i l (Q : unit -> heap -> Binary_string -> Prop) :
  holds h s bs -> str_length s <= i -> i + Z.of_nat (length l) <= Alloced_length s -> 0 < Alloced_length s ->
  (forall h', framed h s h' s -> holds h' s bs ->
     (i = str_length s -> holds h' (set_str_length (str_length s + Z.of_nat (length l)) s) (bs ++ l)) -> Q tt h' s) ->
  outcome (poke i l) h s Q.
Proof.
  intros (Hw & El & Eb) Hi Hl Ha HQ. pose proof Hw as [Hlen Hsp Hex _ (v & Ev & Hv) _ _].
  destruct (store_at_space h s v i l Hw Ev) as (h' & Es & Hf & Ev' & HP & HM); [unfold ufits in *; lia..|].
  exists tt, h', s. split; [unfold poke; by rewrite Es|].
  assert (length (overwrite (Z.to_nat i) l v) = length v) as Elen by (apply length_overwrite; unfold ufits in *; lia).
  assert (forall n, 0 <= n <= Alloced_length s ->
    holds h' (set_str_length n s) (take (Z.to_nat n) (overwrite (Z.to_nat i) l v))) as HR.
  { intros n Hn. rewrite <- set_extra_same. apply (holds_resize h); auto with lia. }
  rewrite (load_at_view _ _ _ _ Ev) in Eb by (unfold ufits in *; lia). injection Eb as Eb.
  apply HQ; [intros b k Hb Hfp; split; [by apply Hf|done]| |].
  - specialize (HR (str_length s)). rewrite take_overwrite_before, Eb in HR by (unfold ufits in *; lia).
    rewrite <- set_extra_same, set_same in HR. apply HR. unfold ufits in *; lia.
  - intros ->. specialize (HR (str_length s + Z.of_nat (length l)) ltac:(unfold ufits in *; lia)).
    rewrite Z2Nat.inj_add, Nat2Z.id, take_overwrite_end, Eb in HR by (unfold ufits in *; lia). done.
Qed.

Lemma append_here_spec h s bs l (Q : unit -> heap -> Binary_string -> Prop) :
  holds h s bs -> str_length s + Z.of_nat (length l) <= Alloced_length s -> 0 < Alloced_length s ->
  (forall h' s', framed h s h' s' -> holds h' s' (bs ++ l) -> Alloced_length s' = Alloced_length s -> Q tt h' s') ->
  outcome (append_here l) h s Q.
Proof.
  intros H Hl Ha HQ. destruct (holds_fits _ _ _ H) as (Hlen & Hsp & _).
  unfold append_here. do 3 m_step. eapply poke_spec; [done|lia..|]. intros h' F _ HR. m_step.
  rewrite (uwrap_small 32) by (unfold ufits, UINT_MAX32 in *; lia). apply HQ; [|by apply HR|done].
  exact F.
Qed.

Lemma no_overlap h s p l i :
  source h s p l -> 0 < Alloced_length s -> overlap (padd (Ptr s) i) p (Z.of_nat (length l)) = false.
Proof.
  intros [_ Hp] Ha. unfold overlap, footprint in *. destruct (Ptr s) as [|b o], p as [|c d]; try done. cbn [padd].
  rewrite (proj2 (Z.ltb_lt _ _) Ha), orb_true_r in Hp. by rewrite bool_decide_false by congruence.
Qed.

Lemma q_append_spec h s bs p l (Q : unit -> heap -> Binary_string -> Prop) :
  holds h s bs -> source h s p l -> str_length s + Z.of_nat (length l) <= Alloced_length s ->
  (forall h' s', framed h s h' s' -> holds h' s' (bs ++ l) -> Alloced_length s' = Alloced_length s -> Q tt h' s') ->
  outcome (q_append p (Z.of_nat (length l))) h s Q.
Proof.
  intros H Hs Hl HQ. destruct (holds_fits _ _ _ H) as (Hlen & Hsp & _).
  assert (u32 (Z.of_nat (length l)) = Z.of_nat (length l)) as E1 by (apply uwrap_small; unfold ufits, UINT_MAX32 in *; lia).
  assert (u32 (str_length s + Z.of_nat (length l)) = str_length s + Z.of_nat (length l)) as E2
    by (apply uwrap_small; unfold ufits, UINT_MAX32 in *; lia).
  unfold q_append, ASSERT_LENGTH. do 4 m_step; [rewrite E1, E2; by apply Z.leb_le|]. do 2 m_step. rewrite E1.
  assert (str_length s <=? u64 (UINT_MAX32 - Z.of_nat (length l)) = true) as E3.
  { rewrite uwrap_small by (unfold ufits, UINT_MAX32 in *; lia). apply Z.leb_le. unfold UINT_MAX32 in *. lia. }
  destruct l as [|c l'].
  - cbn [length c_true Z.eqb negb Z.of_nat]. do 4 m_step; [done|]. m_step.
    apply HQ; [by apply framed_same| |done]. rewrite Z.add_0_r, app_nil_r, (uwrap_small 32) by done.
    rewrite <- set_extra_same, set_same. done.
  - assert (0 < Alloced_length s) as Ha by (cbn [length] in Hl; unfold ufits in *; lia).
    assert (c_true (Z.of_nat (length (c :: l'))) = true) as -> by (apply c_true_spec; cbn [length]; lia).
    m_step. destruct (poke_spec h s bs (str_length s) (c :: l') (fun _ h' s' => s' = s /\ framed h s h' s /\
      holds h' (set_str_length (str_length s + Z.of_nat (length (c :: l'))) s) (bs ++ c :: l'))) as (u & h' & s' & E & -> & F & HR);
      [done|lia..|intros; by eauto|].
    exists tt, h', s. split.
    { unfold copy_to, memcpy. rewrite (no_overlap h) by done. destruct Hs as [-> _]. cbn [mbind option_bind].
      revert E. unfold poke. destruct (store_at _ _ _); cbn [mbind option_bind]; by intros [= _ ->]. }
    do 2 m_step; [done|]. m_step. rewrite E2. by apply HQ.
Qed.

Context `{!StringLaws L}.

Lemma realloc_raw_spec h s bs n (Q : bool -> heap -> Binary_string -> Prop) :
  holds h s bs -> str_length s <= n < 2 ^ 64 ->
  (Q true h s) ->
  (forall h' s', framed h s h' s' -> holds h' s' bs -> n <= Alloced_length s' -> Alloced_length s <= Alloced_length s' -> Q false h' s') ->
  outcome (realloc_raw n) h s Q.
Proof.
  intros H Hn H1 H2. pose proof (realloc_raw_grows h s bs n H Hn) as HL.
  destruct (Z.leb_spec n (Alloced_length s)).
  - exists false, h, s. split; [done|]. by apply H2.
  - destruct HL as [E | (h' & s' & E & ? & ? & ? & _)].
    + by exists true, h, s.
    + exists false, h', s'. split; [done|]. apply H2; [done..|lia].
Qed.

Lemma realloc_spec h s bs n (Q : bool -> heap -> Binary_string -> Prop) :
  holds h s bs -> str_length s <= n < 2 ^ 64 - 1 ->
  (Q true h s) ->
  (forall h' s', framed h s h' s' -> holds h' s' bs -> n < Alloced_length s' -> Alloced_length s <= Alloced_length s' ->
     (n = str_length s -> holds h' (set_str_length (n + 1) s') (bs ++ [x00])) -> Q false h' s') ->
  outcome (realloc n) h s Q.
Proof.
  intros H Hn H1 H2. destruct (holds_fits _ _ _ H) as (Hlen & Hsp & El). unfold realloc. m_step.
  rewrite (uwrap_small 64) by (unfold ufits in *; lia).
  eapply realloc_raw_spec; [done|lia|by m_step|]. intros h' s' F H' Ha Hm.
  destruct (holds_fits _ _ _ H') as (_ & _ & El'). m_step.
  eapply poke_spec; [done|cbn [length]; unfold ufits in *; lia..|]. intros h2 F2 H2' HR. m_step.
  apply H2; [by eapply framed_trans|done|lia|done|]. intros ->. cbn [length Z.of_nat Pos.of_succ_nat] in HR.
  rewrite <- El in El'. rewrite El' in HR. by apply HR.
Qed.

Lemma set_extra_holds h s bs e : holds h s bs -> ufits 32 e -> holds h (set_extra_alloc e s) bs.
Proof. intros ([] & ? & ?) He. split_and!; [|done|done]. by constructor. Qed.

Lemma realloc_with_extra_spec h s bs n (Q : bool -> heap -> Binary_string -> Prop) :
  holds h s bs -> str_length s <= n < 2 ^ 63 ->
  (forall h' s' r, framed h s h' s' -> holds h' s' bs -> (r = false -> n < Alloced_length s') ->
     Alloced_length s <= Alloced_length s' -> Q r h' s') ->
  outcome (realloc_with_extra n) h s Q.
Proof.
  intros H Hn HQ. unfold realloc_with_extra. do 2 m_step.
  set (s1 := if extra_alloc s <? 4096 then _ else _).
  assert (holds h s1 bs /\ framed h s h s1 /\ 0 < extra_alloc s1 < 2 ^ 32 /\ str_length s1 = str_length s /\
    Alloced_length s1 = Alloced_length s) as (H' & F & He & El & Ea).
  { destruct (holds_fits _ _ _ H) as (Hlen & Hsp & _). pose proof H as ([? ? Hex _ _ _ _] & _).
    unfold s1. destruct (Z.ltb_spec (extra_alloc s) 4096);
      (split; [|split; [by apply framed_same|]]); try done; [|cbn|unfold ufits in *; lia].
    - apply set_extra_holds; [done|]. by apply uwrap_range.
    - rewrite (uwrap_small 32) by (unfold ufits in *; lia). unfold ufits in *; lia. }
  clearbody s1. do 3 m_step. rewrite (uwrap_small 64) by (unfold ufits in *; destruct (holds_fits _ _ _ H) as ([? ?] & _); lia).
  eapply realloc_raw_spec; [exact H'|lia|m_step; apply HQ; [done..|lia]|]. intros h' s' F' H2 Ha Hm.
  destruct (holds_fits _ _ _ H) as ([? ?] & _ & E1). destruct (holds_fits _ _ _ H2) as (_ & _ & E2).
  m_step. eapply poke_spec; [done|cbn [length]; lia..|]. intros h2 F2 H3 _. m_step.
  apply HQ; [|done|lia..]. eapply framed_trans; [exact F|]. by eapply framed_trans.
Qed.

Lemma realloc_with_extra_if_needed_spec h s bs n (Q : bool -> heap -> Binary_string -> Prop) :
  holds h s bs -> str_length s <= n < 2 ^ 63 ->
  (forall h' s' r, framed h s h' s' -> holds h' s' bs -> (r = false -> n < Alloced_length s') ->
     Alloced_length s <= Alloced_length s' -> Q r h' s') ->
  outcome (realloc_with_extra_if_needed n) h s Q.
Proof.
  intros H Hn HQ. unfold realloc_with_extra_if_needed. do 2 m_step. destruct (Z.ltb_spec n (Alloced_length s)).
  - destruct (holds_fits _ _ _ H) as ([? ?] & _). m_step. eapply poke_spec; [done|cbn [length]; lia..|].
    intros h2 F2 H3 _. m_step. by apply HQ.
  - by apply (realloc_with_extra_spec h s bs).
Qed.

(** ** Operations that append *)

(** The text after appending [l], or after failing to. *)
Definition appends (h : heap) (s : Binary_string) (bs l : list byte) (r : bool) (h' : heap) (s' : Binary_string) : Prop :=
  framed h s h' s' /\ holds h' s' (if r then bs else bs ++ l) /\ Alloced_length s <= Alloced_length s' /\
  (r = false -> l <> [] -> 0 < Alloced_length s').

Lemma c_true_length (l : list byte) : l <> [] -> c_true (Z.of_nat (length l)) = true.
Proof. intros H. apply c_true_spec. destruct l; [done|]. cbn [length]. lia. Qed.

Lemma string_append_spec h s bs p l :
  holds h s bs -> source h s p l -> Z.of_nat (length l) < 2 ^ 62 ->
  outcome (append p (Z.of_nat (length l))) h s (appends h s bs l).
Proof.
  intros H Hs Hl. unfold append. destruct (decide (l = [])) as [->|Hne].
  { m_step. split_and!; [by apply framed_same|by rewrite app_nil_r|done|done]. }
  rewrite c_true_length by done. cbn [negb]. do 3 m_step.
  destruct (holds_fits _ _ _ H) as (Hlen & Hsp & El). rewrite (uwrap_small 64) by (unfold ufits in *; lia).
  apply (realloc_with_extra_if_needed_spec h s bs); [done|unfold ufits in *; lia|]. intros h' s' [|] F H' Ha Hm.
  - m_step. by split_and!.
  - specialize (Ha eq_refl). destruct (holds_fits _ _ _ H') as (_ & _ & El'). m_step.
    apply (q_append_spec h' s' bs); [done|by eapply source_framed|lia|]. intros h2 s2 F2 H2 Ea. m_step.
    split_and!; [by eapply framed_trans|done|unfold ufits in *; lia..].
Qed.

Lemma append_char_spec h s bs c :
  holds h s bs -> Z.of_nat (length bs) < UINT_MAX32 ->
  outcome (append_char c) h s (appends h s bs [c]).
Proof.
  intros H Hl. unfold append_char. do 2 m_step. destruct (holds_fits _ _ _ H) as (Hlen & Hsp & El).
  destruct (Z.ltb_spec (str_length s) (Alloced_length s)).
  - m_step. eapply append_here_spec; [done|cbn [length]; unfold ufits in *; lia..|]. intros h' s' F H' Ea. m_step.
    split_and!; [done|done|lia|unfold ufits in *; lia].
  - m_step. rewrite (uwrap_small 32) by (unfold ufits, UINT_MAX32 in *; lia).
    apply (realloc_with_extra_spec h s bs); [done|unfold ufits in *; lia|]. intros h' s' [|] F H' Ha Hm.
    + m_step. by split_and!.
    + specialize (Ha eq_refl). destruct (holds_fits _ _ _ H') as (_ & _ & El'). m_step.
      eapply append_here_spec; [done|cbn [length]; unfold ufits in *; lia..|]. intros h2 s2 F2 H2 Ea. m_step.
      split_and!; [by eapply framed_trans|done|unfold ufits in *; lia..].
Qed.

(** *** Hexadecimal digits *)

Definition hex_digit (n : Z) : byte :=
  nth (Z.to_nat n) [x30; x31; x32; x33; x34; x35; x36; x37; x38; x39; x61; x62; x63; x64; x65; x66] x00.
Definition hex_of (l : list byte) : list byte := mjoin ((fun b => [hex_digit (byteZ b / 16); hex_digit (byteZ b mod 16)]) <$> l).

Lemma length_hex_of l : length (hex_of l) = (2 * length l)%nat.
Proof. unfold hex_of. induction l as [|b l IH]; [done|]. rewrite fmap_cons, mjoin_cons, length_app, IH. cbn [length]. lia. Qed.

Lemma dig_hex n : 0 <= n < 16 -> dig n = hex_digit n.
Proof.
  intros Hn. unfold dig, hex_digit. rewrite <- dig_vec_digits.
  assert (forall m (l : list byte) k, (m < k)%nat -> nth m (take k l) x00 = nth m l x00) as G.
  { induction m as [|m IH]; intros [|x l] [|k] Hk; try done; try lia. cbn. apply IH. lia. }
  by rewrite G by lia.
Qed.

Lemma dig_high b : dig (byteZ b .>> 4) = hex_digit (byteZ b / 16).
Proof.
  rewrite Z.shiftr_div_pow2 by lia. apply dig_hex. pose proof (byteZ_range b) as [? ?]. change (2 ^ 8) with 256 in *.
  change (2 ^ 4) with 16. lia_mod.
Qed.
Lemma dig_low b : dig (byteZ b .& 0x0F) = hex_digit (byteZ b mod 16).
Proof.
  change 0x0F with (Z.ones 4). rewrite Z.land_ones by lia. apply dig_hex. change (2 ^ 4) with 16. lia_mod.
Qed.

Lemma source_head h s p b l : source h s p (b :: l) -> load_at h p 1 = Some [b] /\ source h s (padd p 1) l.
Proof.
  intros [E Hp]. apply load_at_inv in E as (v & Ev & Hl & Eb). rewrite Nat2Z.id in *. cbn [length] in *.
  destruct v as [|b' v]; [done|]. cbn [take length] in *. injection Eb as -> ->. split.
  - rewrite (load_at_view _ _ _ _ Ev) by (cbn [length]; lia). done.
  - split; [|by destruct p].
    pose proof (view_padd _ _ 1 _ Ev ltac:(cbn [length]; lia)) as Ev'. change (drop (Z.to_nat 1) (b' :: v)) with v in Ev'.
    rewrite length_take, (load_at_view _ _ _ _ Ev') by lia. do 2 f_equal. lia.
Qed.

(** Either all the digits are appended, or some of them. *)
Lemma append_hex_spec h s bs p l :
  holds h s bs -> source h s p l -> Z.of_nat (length bs + 2 * length l) < UINT_MAX32 ->
  outcome (append_hex p (Z.of_nat (length l))) h s (fun r h' s' => exists k,
    framed h s h' s' /\ holds h' s' (bs ++ take k (hex_of l)) /\ Alloced_length s <= Alloced_length s' /\
    (if r then (k < length (hex_of l))%nat else (length (hex_of l) <= k)%nat /\ (l <> [] -> 0 < Alloced_length s'))).
Proof.
  unfold append_hex. rewrite Nat2Z.id. revert h s bs p. induction l as [|b l IH]; intros h s bs p H Hs Hl; cbn [length append_hex_from].
  { m_step. exists 0%nat. split_and!; [by apply framed_same|by rewrite app_nil_r|done|done|done]. }
  destruct (source_head _ _ _ _ _ Hs) as [E1 Hs']. cbn [length] in Hl.
  m_step. eapply outcome_peek; [exact E1|]. m_step. cbn [hd]. rewrite dig_high.
  eapply outcome_mono; [by apply (append_char_spec h s bs); [|lia]|]. intros r h1 s1 (F1 & H1 & Hm1 & _). destruct r.
  { m_step. exists 0%nat. split_and!; [done|by rewrite app_nil_r|done|]. rewrite length_hex_of. cbn [length]. lia. }
  pose proof (source_framed _ _ _ _ _ _ F1 Hs) as Hs1. destruct (source_head _ _ _ _ _ Hs1) as [E2 _].
  m_step. eapply outcome_peek; [exact E2|]. m_step. cbn [hd]. rewrite dig_low.
  eapply outcome_mono; [apply (append_char_spec h1 s1); [done|rewrite length_app; cbn [length]; lia]|].
  intros r h2 s2 (F2 & H2 & Hm2 & Hp2). destruct r.
  { m_step. exists 1%nat. split_and!; [by eapply framed_trans|done|lia|]. rewrite length_hex_of. cbn [length]. lia. }
  eapply outcome_mono; [apply (IH h2 s2); [done| |rewrite !length_app; cbn [length]; lia]|].
  { eapply source_framed; [exact F2|]. eapply source_framed; [exact F1|done]. }
  intros r h3 s3 (k & F3 & H3 & Hm3 & Hk). exists (S (S k)).
  unfold hex_of in *. rewrite fmap_cons, mjoin_cons. cbn [app take]. rewrite <- !app_assoc in H3. cbn [app] in H3.
  split_and!; [by repeat (eapply framed_trans; [eassumption|])|done|lia|].
  destruct r; cbn [length]; [lia|]. split; [lia|]. intros _. specialize (Hp2 eq_refl ltac:(done)). lia.
Qed.

Lemma append_with_step_spec h s bs p l step :
  holds h s bs -> source h s p l -> 0 <= step -> Z.of_nat (length bs + length l) + step < UINT_MAX32 ->
  outcome (append_with_step p (Z.of_nat (length l)) step) h s (appends h s bs l).
Proof.
  intros H Hs Hp Hl. destruct (holds_fits _ _ _ H) as (Hlen & Hsp & El). unfold append_with_step. do 3 m_step. 
  rewrite !(uwrap_small 32) by (unfold ufits, UINT_MAX32 in *; lia).
  destruct (Z.ltb_spec (Alloced_length s) (Z.of_nat (length l) + str_length s)) as [Hlt|Hge].
  - apply (realloc_spec h s bs); [done|unfold UINT_MAX32 in *; lia| |].
    + m_step. by split_and!.
    + intros h' s' F H' Ha Hm _. destruct (holds_fits _ _ _ H') as (_ & _ & El'). m_step.
      apply (q_append_spec h' s' bs); [done|by eapply source_framed|lia|]. intros h2 s2 F2 H2 Ea. m_step.
      split_and!; [by eapply framed_trans|done|unfold ufits in *; lia..].
  - do 2 m_step. apply (q_append_spec h s bs); [done..|lia|]. intros h2 s2 F2 H2 Ea. m_step.
    split_and!; [done|done|unfold ufits in *; lia|]. intros _ Hne. apply c_true_length, c_true_spec in Hne. unfold ufits in *; lia.
Qed.

(** ** Operations that shorten, terminate or release *)

Lemma truncate_holds h s bs n : holds h s bs -> 0 <= n <= str_length s -> holds h (set_str_length n s) (take (Z.to_nat n) bs).
Proof.
  intros ([Hlen Hsp Hex Hcap (v & Ev & Hv) Hw Ha] & El & Eb) Hn. unfold holds. cbn. split_and!.
  - constructor; cbn; try done; [unfold ufits in *; lia..|]. exists v. split; [done|]. lia.
  - rewrite length_take. lia.
  - rewrite (load_at_view _ _ _ _ Ev) in Eb by (unfold ufits in *; lia). injection Eb as <-.
    rewrite (load_at_view _ _ _ _ Ev) by (unfold ufits in *; lia). rewrite take_take. do 2 f_equal. lia.
Qed.

Lemma set_length_spec h s bs len :
  holds h s bs -> 0 <= len <= Z.of_nat (length bs) ->
  outcome (set_length len) h s (fun _ h' s' => framed h s h' s' /\ holds h' s' (take (Z.to_nat len) bs) /\ Alloced_length s' = Alloced_length s).
Proof.
  intros H Hn. destruct (holds_fits _ _ _ H) as (Hlen & Hsp & El). unfold set_length. m_step.
  rewrite (uwrap_small 32) by (unfold ufits in *; lia). split_and!; [by apply framed_same|apply truncate_holds; [done|lia]|done].
Qed.

(** The terminated text is at [p]. *)
Definition terminated (h : heap) (p : ptr) (bs : list byte) : Prop :=
  load_at h p (Z.of_nat (length bs) + 1) = Some (bs ++ [x00]).

Lemma holds_terminated h s bs : holds h (set_str_length (Z.of_nat (length bs) + 1) s) (bs ++ [x00]) -> terminated h (Ptr s) bs.
Proof. intros (_ & _ & E). exact E. Qed.

Lemma strlen_app (l r : list byte) : x00 ∉ l -> strlen (l ++ x00 :: r) = Some (Z.of_nat (length l)).
Proof.
  induction l as [|c l IH]; intros Hn; [done|]. apply not_elem_of_cons in Hn as [Hc Hl]. cbn [app strlen length].
  rewrite bool_decide_false by congruence. rewrite (IH Hl). cbn [mbind option_bind]. f_equal. lia.
Qed.

Lemma strlen_terminated h p bs : x00 ∉ bs -> terminated h p bs ->
  exists v, view h p = Some v /\ strlen v = Some (Z.of_nat (length bs)).
Proof.
  intros Hn E. apply load_at_inv in E as (v & Ev & Hl & E). exists v. split; [done|].
  rewrite <- (take_drop (Z.to_nat (Z.of_nat (length bs) + 1)) v), <- E, <- app_assoc. by apply strlen_app.
Qed.

(** With space to write to, and no zero byte in what remains. *)
Lemma chop_spec h s bs :
  holds h s bs -> 0 < Alloced_length s -> x00 ∉ take (length bs - 1) bs ->
  outcome chop h s (fun _ h' s' => framed h s h' s' /\ holds h' s' (take (length bs - 1) bs) /\ Alloced_length s' = Alloced_length s).
Proof.
  intros H Ha Hz. destruct (holds_fits _ _ _ H) as (Hlen & Hsp & El). unfold chop. do 2 m_step.
  destruct (c_true (str_length s)) eqn:Ec.
  - apply c_true_spec in Ec. do 2 m_step. set (n := str_length s - 1).
    assert (Z.to_nat n = (length bs - 1)%nat) as En by (unfold n; lia).
    pose proof (truncate_holds h s bs n H ltac:(unfold n, ufits in *; lia)) as H1. rewrite En in H1.
    set (bs' := take (length bs - 1) bs) in *.
    assert (Z.of_nat (length bs') = n) as En' by (unfold bs'; rewrite length_take; unfold n, ufits in *; lia).
    destruct H as ([_ _ _ Hcap _ _ _] & _). m_step.
    eapply poke_spec; [exact H1|cbn; unfold n, ufits in *; lia..|]. intros h' F H2 HR. specialize (HR eq_refl).
    m_step. cbn in HR. rewrite <- En' in HR. apply holds_terminated in HR. cbn in HR.
    destruct (strlen_terminated _ _ _ Hz HR) as (v & Ev & Es).
    exists (Z.of_nat (length bs')), h', (set_str_length n s). split; [unfold strlen_at; by rewrite Ev; cbn [mbind option_bind]; rewrite Es|].
    m_step; [rewrite En'; by apply Z.eqb_refl|]. done.
  - apply c_true_false in Ec. m_step. destruct bs as [|? ?]; [|cbn [length] in El; lia]. split_and!; [by apply framed_same|done|done].
Qed.

Lemma free_buffer_spec h s :
  string_wf h s ->
  outcome free_buffer h s (fun _ h' s' => s' = set_alloced_flag false s /\
    forall b k, h !! b = Some k -> footprint s <> Some b -> h' !! b = Some k).
Proof.
  intros [_ _ _ _ _ _ Ha]. unfold free_buffer. do 2 m_step. destruct (alloced s) eqn:Ea.
  - destruct (Ha eq_refl) as [(b & k & Ep & Eb & Ek) _]. do 2 m_step.
    exists tt, (delete b h), (set_alloced_flag false s). split; [unfold call_free; by rewrite Ep, (my_free_frees h b k)|].
    split; [done|]. intros c k' Ec Hc. rewrite lookup_delete_ne; [done|]. unfold footprint in Hc. rewrite Ep, Ea in Hc. cbn in Hc. congruence.
  - m_step. split; [by destruct s; cbn in Ea; subst|done].
Qed.

Lemma free_spec h s bs :
  holds h s bs ->
  outcome free h s (fun _ h' s' => framed h s h' s' /\ holds h' s' [] /\ s' = set_thread_flag (thread_specific s) init_private_data).
Proof.
  intros [Hw _]. unfold free. m_step. eapply outcome_mono; [by apply free_buffer_spec|]. intros [] h' s' [-> Hf].
  m_step. split_and!; [|by split_and!; [constructor; cbn; try done; [by left|by exists []]|..]|done].
  intros b k Eb Hb. split; [by apply Hf|done].
Qed.

Lemma set_const_spec h s bs p l :
  holds h s bs -> source h s p l -> Z.of_nat (length l) < 2 ^ 32 ->
  outcome (set_const p (Z.of_nat (length l))) h s (fun _ h' s' => framed h s h' s' /\ holds h' s' l /\ Alloced_length s' = 0 /\ Ptr s' = p).
Proof.
  intros [Hw _] [Hs Hp] Hl. pose proof Hw as [_ _ Hex _ _ _ _]. unfold set_const. m_step.
  eapply outcome_mono; [by apply free_buffer_spec|]. intros [] h' s' [-> Hf].
  m_step. rewrite (uwrap_small 32) by (unfold ufits; lia).
  assert (load_at h' p (Z.of_nat (length l)) = Some l) as Hs'.
  { apply (source_framed h s h' (set_Alloced_length 0 (set_str_length 0 (set_Ptr Null s))) p l); [|done].
    intros b k Eb Hb. split; [by apply Hf|done]. }
  cbn. split_and!; [| |done|done].
  - intros b k Eb Hb. split; [by apply Hf|]. unfold footprint. cbn. by destruct p.
  - split_and!; [|done|done]. apply load_at_inv in Hs' as (v & Ev & Hv & _).
    constructor; cbn; try done; [unfold ufits; lia|by left|]. exists v. split; [done|]. lia.
Qed.

(** The text after [c_ptr] is unchanged; it is terminated, unless the string has no
    space and none could be allocated, and then nothing has changed. *)
Definition c_string (h : heap) (s : Binary_string) (bs : list byte) (p : ptr) (h' : heap) (s' : Binary_string) : Prop :=
  framed h s h' s' /\ holds h' s' bs /\ Alloced_length s <= Alloced_length s' /\ p = Ptr s' /\
  (terminated h' p bs \/ (h' = h /\ s' = s /\ Alloced_length s <= str_length s)).

Lemma terminate_spec h s bs :
  holds h s bs -> outcome (realloc (str_length s);; s ← this; mret (Ptr s)) h s (c_string h s bs).
Proof.
  intros H. destruct (holds_fits _ _ _ H) as (Hlen & Hsp & El). m_step.
  destruct (decide (Alloced_length s <= str_length s)).
  - apply (realloc_spec h s bs); [done|unfold ufits in *; lia| |].
    + do 3 m_step. split_and!; [by apply framed_same|done|done|done|by right].
    + intros h' s' F H' Ha Hm HR. do 3 m_step. split_and!; [done..|]. left. apply holds_terminated. rewrite <- El. by apply HR.
  - unfold realloc. apply outcome_bind. pose proof (realloc_raw_grows h s bs (str_length s + 1) H ltac:(unfold ufits in *; lia)) as HL.
    destruct (Z.leb_spec (str_length s + 1) (Alloced_length s)); [|lia].
    rewrite (uwrap_small 64) by (unfold ufits in *; lia).
    exists false, h, s. split; [done|]. m_step. eapply poke_spec; [done|cbn [length]; unfold ufits in *; lia..|]. intros h' F H' HR.
    do 4 m_step. split_and!; [done..|]. left. apply holds_terminated. rewrite <- El. by apply HR.
Qed.

Lemma poke_terminates h s bs :
  holds h s bs -> str_length s < Alloced_length s ->
  outcome (poke (str_length s) [x00];; s ← this; mret (Ptr s)) h s (c_string h s bs).
Proof.
  intros H Ha. destruct (holds_fits _ _ _ H) as (Hlen & Hsp & El). m_step.
  eapply poke_spec; [done|cbn [length]; unfold ufits in *; lia..|]. intros h' F H' HR.
  do 3 m_step. split_and!; [done..|]. left. apply holds_terminated. rewrite <- El. by apply HR.
Qed.

Lemma c_ptr_safe_spec h s bs : holds h s bs -> outcome c_ptr_safe h s (c_string h s bs).
Proof.
  intros H. unfold c_ptr_safe. do 2 m_step.
  destruct (negb (bool_decide (Ptr s = Null)) && (str_length s <? Alloced_length s)) eqn:Eb.
  - apply andb_true_iff in Eb as [_ Eb%Z.ltb_lt]. apply (poke_terminates h s bs H Eb).
  - destruct (terminate_spec h s bs H) as (p & h' & s' & E & HQ). exists p, h', s'. split; [|done]. revert E.
    unfold mbind, strM_bind, mret, strM_ret. by destruct (realloc (str_length s) h s) as [[[? ?] ?]|].
Qed.

(** A string that does not own its buffer must have a byte to read after its text. *)
Lemma c_ptr_spec h s bs :
  holds h s bs -> Ptr s <> Null -> (alloced s = false -> exists c, load_at h (end_ s) 1 = Some [c]) ->
  outcome c_ptr h s (c_string h s bs).
Proof.
  intros H Hn Hc. destruct (holds_fits _ _ _ H) as (Hlen & Hsp & El). unfold c_ptr. do 2 m_step. rewrite bool_decide_false by done. m_step.
  apply (outcome_mono _ h s (fun z h' s' => h' = h /\ s' = s /\ (z = true -> terminated h (Ptr s) bs))).
  - destruct (alloced s); [by m_step|]. destruct (Hc eq_refl) as [c Ec]. m_step. eapply outcome_peek; [exact Ec|].
    m_step. split_and!; [done|done|]. rewrite bool_decide_eq_true. intros [= ->].
    destruct H as (Hw & _ & Eb). unfold terminated. pose proof Hw as [_ _ _ _ (v & Ev & Hv) _ _].
    rewrite (load_at_view _ _ _ _ Ev) in Eb by (unfold ufits in *; lia). injection Eb as Eb.
    pose proof (view_padd _ _ (str_length s) _ Ev ltac:(unfold ufits in *; lia)) as Ev'.
    apply load_at_inv in Ec as (v' & Ev2 & Hv2 & Ec). unfold end_ in Ev2. rewrite Ev2 in Ev'. injection Ev' as ->.
    rewrite length_drop in Hv2. change (Z.to_nat 1) with 1%nat in *.
    rewrite (load_at_view _ _ _ _ Ev) by (unfold ufits in *; lia). f_equal.
    rewrite Z2Nat.inj_add by lia. rewrite <- (take_drop (Z.to_nat (str_length s)) v) at 1. rewrite Eb.
    rewrite take_app_ge by lia. f_equal. rewrite Nat2Z.id.
    change (Z.to_nat 1) with 1%nat. replace (length bs + 1 - length bs)%nat with 1%nat by lia. done.
  - intros z h' s' (-> & -> & Hz). destruct z.
    + m_step. split_and!; [by apply framed_same|done|done|done|left; auto].
    + destruct (Z.ltb_spec (str_length s) (Alloced_length s)); [|by apply terminate_spec].
      destruct (poke_terminates h s bs H) as (p & h' & s' & E & HQ); [done|]. exists p, h', s'. split; [|done]. revert E.
      unfold mbind, strM_bind, mret, strM_ret, this, poke.
      destruct (store_at _ _ _); cbn [mbind option_bind]; done.
Qed.

(** ** Making room, and taking a buffer over *)

Lemma reserve_spec h s bs n :
  holds h s bs -> 0 <= n -> Z.of_nat (length bs) + n < UINT_MAX32 ->
  outcome (reserve n) h s (fun r h' s' => framed h s h' s' /\ holds h' s' bs /\ Alloced_length s <= Alloced_length s' /\
    (r = false -> Z.of_nat (length bs) + n < Alloced_length s')).
Proof.
  intros H Hn Hl. destruct (holds_fits _ _ _ H) as (Hlen & Hsp & El). unfold reserve. do 2 m_step.
  rewrite (uwrap_small 64) by (unfold ufits, UINT_MAX32 in *; lia). do 2 m_step; [apply Z.ltb_lt; lia|].
  apply (realloc_spec h s bs); [done|unfold UINT_MAX32 in *; lia| |].
  - by split_and!.
  - intros h' s' F H' Ha Hm _. split_and!; [done..|]. intros _. lia.
Qed.

(** Keeps the text, or empties it; with room for [n] bytes on success. *)
Lemma alloc_spec h s bs n :
  holds h s bs -> 0 <= n < UINT_MAX32 ->
  outcome (alloc n) h s (fun r h' s' => framed h s h' s' /\ (holds h' s' bs \/ holds h' s' []) /\ (r = false -> n <= Alloced_length s')).
Proof.
  intros H Hn. destruct (holds_fits _ _ _ H) as (Hlen & Hsp & El). unfold alloc. do 2 m_step.
  destruct ((n <=? Alloced_length s) && c_true (Alloced_length s)) eqn:E.
  - apply andb_true_iff in E as [E%Z.leb_le _]. m_step. split_and!; [by apply framed_same|by left|done].
  - destruct (real_alloc_empties h s bs n H Hn) as (r & h' & s' & Er & H' & F & Ha).
    exists r, h', s'. split; [done|]. split_and!; [done|by right|done].
Qed.

(** The text of a live string that is not in this string's buffer. *)
Definition apart (s t : Binary_string) : Prop :=
  match Ptr t with Addr b _ => footprint s <> Some b | Null => True end.

Lemma apart_holds h s h' t bs :
  (forall b k, h !! b = Some k -> footprint s <> Some b -> h' !! b = Some k) -> apart s t -> holds h t bs -> holds h' t bs.
Proof.
  intros Hf Hp ([Hlen Hsp Hex Hcap (v & Ev & Hv) Hw Ha] & El & Eb). unfold apart in Hp.
  assert (view h' (Ptr t) = Some v) as Ev'.
  { destruct (Ptr t) as [|b o]; [done|]. cbn [view] in *. destruct (h !! b) as [k|] eqn:Ek; [|done]. by rewrite (Hf b k). }
  split_and!; [|done|].
  - constructor; try done; [by exists v| |].
    + intros H0. specialize (Hw H0). destruct (Ptr t) as [|b o]; [done|]. destruct Hw as (k & Ek & HP). exists k. split; [by apply Hf|done].
    + intros H0. destruct (Ha H0) as [(b & k & Ep & Ek & HP) ?]. split; [|done]. rewrite Ep in *. exists b, k. split_and!; [done|by apply Hf|done].
  - rewrite (load_at_view _ _ _ _ Ev) in Eb by (unfold ufits in *; lia). by rewrite (load_at_view _ _ _ _ Ev') by (unfold ufits in *; lia).
Qed.

(** The buffer and who frees it pass from [t] to this string. *)
Lemma move_spec h s t bs bt :
  holds h s bs -> holds h t bt -> apart s t ->
  outcome (move t) h s (fun t' h' s' => s' = t /\ t' = set_alloced_flag false t /\ holds h' s' bt /\
    forall b k, h !! b = Some k -> footprint s <> Some b -> h' !! b = Some k).
Proof.
  intros [Hw _] Ht Hp. destruct (holds_fits _ _ _ Ht) as (Hlen & Hsp & _). unfold move, set_alloced. m_step. m_step.
  eapply outcome_mono; [by apply free_buffer_spec|]. intros [] h' s' [-> Hf].
  do 4 m_step; [apply Z.ltb_lt; lia|]. do 4 m_step. cbn.
  rewrite !(uwrap_small 32) by (unfold ufits, UINT_MAX32 in *; lia). destruct t; cbn in *.
  split_and!; [done|done| |done]. by eapply apart_holds.
Qed.

Lemma prep_append_spec h s bs n step :
  holds h s bs -> 0 <= n -> 0 <= step -> Z.of_nat (length bs) + n + step < UINT_MAX32 -> Ptr s <> Null ->
  outcome (prep_append n step) h s (fun p h' s' => framed h s h' s' /\
    if bool_decide (p = Null) then holds h' s' bs
    else p = padd (Ptr s') (Z.of_nat (length bs)) /\ exists area, Z.of_nat (length area) = n /\ holds h' s' (bs ++ area) /\
      str_length s' <= Alloced_length s').
Proof.
  intros H Hn Hp Hl Hnn. destruct (holds_fits _ _ _ H) as (Hlen & Hsp & El). unfold prep_append. do 3 m_step.
  rewrite !(uwrap_small 32) by (unfold ufits, UINT_MAX32 in *; lia).
  assert (forall h' s', framed h s h' s' -> holds h' s' bs -> Ptr s' <> Null -> str_length s' + n <= Alloced_length s' ->
    outcome (s ← this; modify (set_str_length (u32 (str_length s + n)));; mret (padd (Ptr s) (str_length s))) h' s'
     (fun p h' s' => framed h s h' s' /\
      if bool_decide (p = Null) then holds h' s' bs
      else p = padd (Ptr s') (Z.of_nat (length bs)) /\ exists area, Z.of_nat (length area) = n /\ holds h' s' (bs ++ area) /\
        str_length s' <= Alloced_length s')) as G.
  { intros h' s' F H' Hn' Ha. destruct (holds_fits _ _ _ H') as (Hlen' & Hsp' & El'). do 5 m_step.
    rewrite (uwrap_small 32) by (unfold ufits, UINT_MAX32 in *; lia).
    split; [exact F|]. rewrite bool_decide_false by (destruct (Ptr s'); done). cbn. split; [by rewrite El'|].
    destruct H' as ([? ? ? ? (v & Ev & Hv) Hw' Ha'] & _ & Eb).
    rewrite (load_at_view _ _ _ _ Ev) in Eb by (unfold ufits in *; lia). injection Eb as Eb.
    exists (take (Z.to_nat n) (drop (length bs) v)). split_and!; [rewrite length_take, length_drop; lia| |lia].
    split_and!; cbn.
    - constructor; cbn; try done; [unfold ufits, UINT_MAX32 in *; lia|right; lia|]. exists v. split; [done|]. lia.
    - rewrite length_app, length_take, length_drop. lia.
    - rewrite (load_at_view _ _ _ _ Ev) by (unfold ufits in *; lia). f_equal. rewrite <- (take_drop (length bs) v) at 1.
      replace (Z.to_nat (str_length s' + n)) with (length (take (length bs) v) + Z.to_nat n)%nat by (rewrite length_take; lia).
      rewrite firstn_app_2. f_equal. transitivity (take (Z.to_nat (str_length s')) v); [f_equal; lia|done]. }
  destruct (Z.ltb_spec (Alloced_length s) (n + str_length s)) as [Hlt|Hge].
  - apply (realloc_spec h s bs); [done|unfold UINT_MAX32 in *; lia| |].
    + m_step. split; [by apply framed_same|]. by rewrite bool_decide_true.
    + intros h' s' F H' Ha Hm _. destruct (holds_fits _ _ _ H') as (_ & _ & El'). apply G; [done|done| |lia].
      destruct H' as ([_ _ _ _ _ Hw _] & _). specialize (Hw ltac:(unfold ufits in *; lia)). by destruct (Ptr s').
  - m_step. apply G; [by apply framed_same|done|done|lia].
Qed.

(** The same addition in [uint32]: on a buffer of one byte, room for [2^32 - 1]
    more is "there", and the area handed out begins after the last byte. *)
Lemma prep_append_wraps h s n step :
  0 <= n < 2 ^ 32 -> ufits 32 (str_length s) -> 2 ^ 32 <= n + str_length s -> n + str_length s - 2 ^ 32 <= Alloced_length s ->
  prep_append n step h s = Some (padd (Ptr s) (str_length s), h, set_str_length (n + str_length s - 2 ^ 32) s).
Proof.
  intros Hn Hs Hw Ha. assert (u32 (n + str_length s) = n + str_length s - 2 ^ 32) as E.
  { unfold uwrap. symmetry. apply Z.mod_unique_pos with 1; unfold ufits in *; lia. }
  unfold prep_append, mbind, strM_bind, this, mret, strM_ret, modify. rewrite E, (proj2 (Z.ltb_ge _ _)) by done.
  by rewrite (Z.add_comm (str_length s)), E.
Qed.

(** ** Clients: any sequence of operations *)

(** The bytes at a pointer argument are given next to it. *)
Inductive string_op :=
| OpAppend (p : ptr) (l : list byte)
| OpAppendChar (c : byte)
| OpAppendHex (p : ptr) (l : list byte)
| OpAppendStep (p : ptr) (l : list byte) (step_alloc : Z)
| OpReserve (n : Z)
| OpAlloc (n : Z)
| OpSetLength (n : Z)
| OpChop
| OpCPtrSafe
| OpSetConst (p : ptr) (l : list byte)
| OpFree.

Definition exec_op (op : string_op) : strM bool :=
  match op with
  | OpAppend p l => append p (Z.of_nat (length l))
  | OpAppendChar c => append_char c
  | OpAppendHex p l => append_hex p (Z.of_nat (length l))
  | OpAppendStep p l step => append_with_step p (Z.of_nat (length l)) step
  | OpReserve n => reserve n
  | OpAlloc n => alloc n
  | OpSetLength n => set_length n;; mret false
  | OpChop => chop;; mret false
  | OpCPtrSafe => c_ptr_safe;; mret false
  | OpSetConst p l => set_const p (Z.of_nat (length l));; mret false
  | OpFree => free;; mret false
  end.

Definition op_source (h : heap) (s : Binary_string) (op : string_op) : Prop :=
  match op with
  | OpAppend p l | OpAppendHex p l | OpAppendStep p l _ | OpSetConst p l => source h s p l
  | _ => True
  end.

(** What a client knows: the text, and whether there is space to write to. *)
Record text := mkText { chars : list byte; writable : bool }.

Definition op_pre (t : text) (op : string_op) : Prop :=
  match op with
  | OpAppend _ l => Z.of_nat (length l) < 2 ^ 62
  | OpAppendChar _ => Z.of_nat (length (chars t)) < UINT_MAX32
  | OpAppendHex _ l => Z.of_nat (length (chars t) + 2 * length l) < UINT_MAX32
  | OpAppendStep _ l step => 0 <= step /\ Z.of_nat (length (chars t) + length l) + step < UINT_MAX32
  | OpReserve n => 0 <= n /\ Z.of_nat (length (chars t)) + n < UINT_MAX32
  | OpAlloc n => 0 <= n < UINT_MAX32
  | OpSetLength n => 0 <= n <= Z.of_nat (length (chars t))
  | OpChop => writable t = true /\ x00 ∉ take (length (chars t) - 1) (chars t)
  | OpSetConst _ l => Z.of_nat (length l) < 2 ^ 32
  | OpCPtrSafe | OpFree => True
  end.

Definition nonempty (l : list byte) : bool := match l with [] => false | _ => true end.

(** The text after the operation, [r] being what it returned. *)
Definition op_spec (op : string_op) (t : text) (r : bool) (t' : text) : Prop :=
  match op with
  | OpAppend _ l | OpAppendStep _ l _ => t' = if r then t else mkText (chars t ++ l) (writable t || nonempty l)
  | OpAppendChar c => t' = if r then t else mkText (chars t ++ [c]) true
  | OpAppendHex _ l =>
      if r then exists k, (k < 2 * length l)%nat /\ t' = mkText (chars t ++ take k (hex_of l)) (writable t)
      else t' = mkText (chars t ++ hex_of l) (writable t || nonempty l)
  | OpReserve _ => t' = if r then t else mkText (chars t) true
  | OpAlloc n => (chars t' = chars t \/ chars t' = []) /\ writable t' = negb r && (0 <? n)
  | OpSetLength n => r = false /\ t' = mkText (take (Z.to_nat n) (chars t)) (writable t)
  | OpChop => r = false /\ t' = mkText (take (length (chars t) - 1) (chars t)) (writable t)
  | OpCPtrSafe => r = false /\ t' = t
  | OpSetConst _ l => r = false /\ t' = mkText l false
  | OpFree => r = false /\ t' = mkText [] false
  end.

Definition simulates (h : heap) (s : Binary_string) (t : text) : Prop :=
  holds h s (chars t) /\ (writable t = true -> 0 < Alloced_length s).

Fixpoint run_ops (ops : list string_op) : strM (list bool) :=
  match ops with
  | [] => mret []
  | op :: ops => r ← exec_op op; rs ← run_ops ops; mret (r :: rs)
  end.

(** The operations are allowed, whatever the earlier ones returned. *)
Fixpoint ops_pre (t : text) (ops : list string_op) : Prop :=
  match ops with
  | [] => True
  | op :: ops => op_pre t op /\ forall r t', op_spec op t r t' -> ops_pre t' ops
  end.

Fixpoint ops_spec (ops : list string_op) (t : text) (rs : list bool) (t' : text) : Prop :=
  match ops, rs with
  | [], [] => t' = t
  | op :: ops, r :: rs => exists t1, op_spec op t r t1 /\ ops_spec ops t1 rs t'
  | _, _ => False
  end.

Lemma appends_sim h s t l r h' s' :
  simulates h s t -> appends h s (chars t) l r h' s' ->
  framed h s h' s' /\ simulates h' s' (if r then t else mkText (chars t ++ l) (writable t || nonempty l)).
Proof.
  intros [H Hw] (F & H' & Hm & Hp). split; [done|]. destruct r; split; cbn; try done; [intros; specialize (Hw ltac:(done)); lia|].
  intros [E|E]%orb_true_iff; [specialize (Hw E); lia|]. apply Hp; [done|]. by destruct l.
Qed.

(** A step that cannot fail. *)
Lemma outcome_void {A} (m : strM A) h s (P : A -> heap -> Binary_string -> Prop) (Q : bool -> heap -> Binary_string -> Prop) :
  outcome m h s P -> (forall a h' s', P a h' s' -> Q false h' s') -> outcome (m;; mret false) h s Q.
Proof. intros H HPQ. m_step. eapply outcome_mono; [exact H|]. intros a h' s' HP. m_step. eauto. Qed.

Lemma exec_op_sim h s t op :
  simulates h s t -> op_source h s op -> op_pre t op ->
  outcome (exec_op op) h s (fun r h' s' => framed h s h' s' /\ exists t', op_spec op t r t' /\ simulates h' s' t').
Proof.
  intros Hsim Hs Hp. pose proof Hsim as [H Hw]. destruct op; cbn [exec_op op_source op_pre op_spec] in *.
  - eapply outcome_mono; [by apply (string_append_spec h s (chars t))|]. intros r h' s' HA.
    destruct (appends_sim _ _ _ _ _ _ _ Hsim HA). eauto.
  - eapply outcome_mono; [by apply (append_char_spec h s (chars t))|]. intros r h' s' HA.
    destruct (appends_sim _ _ _ _ _ _ _ Hsim HA) as [F HS]. cbn [nonempty] in HS. rewrite orb_true_r in HS. eauto.
  - eapply outcome_mono; [by apply (append_hex_spec h s (chars t))|]. intros r h' s' (k & F & H' & Hm & Hk).
    split; [done|]. rewrite length_hex_of in Hk. destruct r.
    + eexists. split; [by exists k|]. split; [done|]. cbn. intros E. specialize (Hw E). lia.
    + destruct Hk as [Hk Hp']. rewrite take_ge in H' by (rewrite length_hex_of; lia). eexists. split; [done|]. split; [done|].
      cbn. intros [E|E]%orb_true_iff; [specialize (Hw E); lia|]. apply Hp'. by destruct l.
  - destruct Hp. eapply outcome_mono; [by apply (append_with_step_spec h s (chars t))|]. intros r h' s' HA.
    destruct (appends_sim _ _ _ _ _ _ _ Hsim HA). eauto.
  - destruct Hp. eapply outcome_mono; [by apply (reserve_spec h s (chars t))|]. intros r h' s' (F & H' & Hm & Ha).
    split; [done|]. eexists. split; [done|]. destruct r; split; cbn; try done; [intros E; specialize (Hw E); lia|].
    specialize (Ha eq_refl). intros; lia.
  - eapply outcome_mono; [by apply (alloc_spec h s (chars t))|]. intros r h' s' (F & H' & Ha). split; [done|].
    destruct H' as [H'|H']; [exists (mkText (chars t) (negb r && (0 <? n)))|exists (mkText [] (negb r && (0 <? n)))]; cbn.
    1: split; [by split; [left|]|]. 2: split; [by split; [right|]|].
    all: split; [done|]; cbn; intros [E1 E2%Z.ltb_lt]%andb_true_iff; destruct r; [done|]; specialize (Ha eq_refl); lia.
  - eapply outcome_void; [by apply (set_length_spec h s (chars t))|]. intros _ h' s' (F & H' & Ea). split; [done|].
    eexists. split; [done|]. split; [done|]. cbn. by rewrite Ea.
  - destruct Hp as [Hp1 Hp2]. eapply outcome_void; [by apply (chop_spec h s (chars t)); [|auto|]|]. intros _ h' s' (F & H' & Ea). split; [done|].
    eexists. split; [done|]. split; [done|]. cbn. by rewrite Ea.
  - eapply outcome_void; [by apply (c_ptr_safe_spec h s (chars t))|]. intros _ h' s' (F & H' & Hm & _). split; [done|].
    eexists. split; [done|]. split; [done|]. intros E. specialize (Hw E). lia.
  - eapply outcome_void; [by apply (set_const_spec h s (chars t))|]. intros _ h' s' (F & H' & _). split; [done|].
    eexists. split; [done|]. by split.
  - eapply outcome_void; [by apply (free_spec h s (chars t))|]. intros _ h' s' (F & H' & _). split; [done|].
    eexists. split; [done|]. by split.
Qed.

Lemma op_source_framed h s h' s' op : framed h s h' s' -> op_source h s op -> op_source h' s' op.
Proof. destruct op; cbn; try done; by apply source_framed. Qed.

Lemma run_ops_sim ops : forall h s t,
  simulates h s t -> Forall (op_source h s) ops -> ops_pre t ops ->
  outcome (run_ops ops) h s (fun rs h' s' => framed h s h' s' /\ exists t', ops_spec ops t rs t' /\ simulates h' s' t').
Proof.
  induction ops as [|op ops IH]; intros h s t Hsim Hs Hp; cbn [run_ops].
  { m_step. split; [by apply framed_same|]. by exists t. }
  apply Forall_cons in Hs as [Hs1 Hs2]. destruct Hp as [Hp1 Hp2]. m_step.
  eapply outcome_mono; [by apply (exec_op_sim h s t)|]. intros r h1 s1 (F1 & t1 & Ht1 & Hsim1). m_step.
  eapply outcome_mono; [apply (IH h1 s1 t1 Hsim1)|].
  - eapply Forall_impl; [exact Hs2|]. intros o Ho. by eapply op_source_framed.
  - by eapply Hp2.
  - intros rs h2 s2 (F2 & t2 & Ht2 & Hsim2). m_step. split; [by eapply framed_trans|]. exists t2. split; [|done]. by exists t1.
Qed.

(** C2.  A sequence of the operations on a string that keeps to the contract
    [ops_pre] (the lengths stay within their 32 bits, [set_length] only shortens,
    and [chop] is called on a text that may be written to and that has no zero
    byte before its last: [chop_writes_read_only] shows what happens on another),
    started on a string that
    holds a text and with sources outside of its buffer, runs without an access
    outside of a block, without a write to read-only memory and without a failed
    assertion; it leaves all other memory as it was; what each operation returned
    and the text at the end are those of the list of bytes, where a failed
    allocation ([true]) leaves the text or, for [append_hex], adds a part of the
    digits; and [c_ptr_safe] then gives a terminated copy of that text unless
    there is no space for the terminator and none can be allocated. *)
Theorem binary_string_refines_bytes ops h s t :
  simulates h s t -> Forall (op_source h s) ops -> ops_pre t ops ->
  outcome (rs ← run_ops ops; p ← c_ptr_safe; mret (rs, p)) h s (fun '(rs, p) h' s' =>
    framed h s h' s' /\ exists t', ops_spec ops t rs t' /\ simulates h' s' t' /\ p = Ptr s' /\
      (terminated h' p (chars t') \/ Alloced_length s' <= str_length s')).
Proof.
  intros Hsim Hs Hp. m_step. eapply outcome_mono; [by apply (run_ops_sim ops h s t)|].
  intros rs h1 s1 (F1 & t1 & Ht1 & [H1 Hw1]). m_step.
  eapply outcome_mono; [by apply (c_ptr_safe_spec h1 s1 (chars t1))|]. intros p h2 s2 (F2 & H2 & Hm & -> & HT). m_step.
  split; [by eapply framed_trans|]. exists t1. split; [done|]. split.
  - split; [done|]. intros E. specialize (Hw1 E). lia.
  - split; [done|]. destruct HT as [HT|(-> & -> & HT)]; auto.
Qed.

(** [chop] does not ask whether the text may be written to: on a nonempty
    string that was set to read-only memory ([Alloced_length] 0, as the
    constructor from [const char *] leaves it) it stores the terminator there. *)
Theorem chop_writes_read_only h s bs :
  holds h s bs -> bs <> [] -> block_of_kind h (Ptr s) (fun k => k = Literal) -> chop h s = None.
Proof.
  intros ([Hlen Hsp _ _ (v & Ev & Hv) _ _] & El & _) Hne Hk. unfold chop, mbind, strM_bind, this.
  rewrite <- El, c_true_length by done. unfold modify, poke. cbn [Ptr set_str_length].
  destruct (Ptr s) as [|b o]; [done|]. destruct Hk as (k & Ek & Hk). cbn [padd store_at]. rewrite Ek. cbn [mbind option_bind].
  by rewrite decide_False by naive_solver.
Qed.

(** [swap] exchanges the texts and who owns them, and is its own inverse. *)
Lemma string_swap_spec h s t bs bt : holds h s bs -> holds h t bt ->
  holds h (swap s t).1 bt /\ holds h (swap s t).2 bs /\
  footprint (swap s t).1 = footprint t /\ footprint (swap s t).2 = footprint s /\
  swap (swap s t).1 (swap s t).2 = (s, t).
Proof.
  intros (Hs & ? & ?) (Ht & ? & ?).
  assert (forall a b, string_wf h a -> string_wf h b -> string_wf h (swap a b).1) as G.
  { intros a b [] []. by constructor. }
  pose proof (G s t Hs Ht) as G1. pose proof (G t s Ht Hs) as G2.
  split_and!; try done; [by destruct s, t..|]. by destruct s, t.
Qed.
End ops.

(** * A library that keeps the laws

    Blocks are allocated at a fresh place, up to [limit] bytes, and freed blocks
    leave the heap. *)

Section simple_library.
Context (limit : Z).

Definition simple_free (h : heap) (p : ptr) : option heap :=
  match p with
  | Null => Some h
  | Addr b O => k ← h !! b; if decide (kind k = Malloced) then Some (delete b h) else None
  | Addr _ _ => None
  end.

(** A new block of [n] bytes that begins with [l]. *)
Definition simple_new (n : Z) (l : list byte) (h : heap) (s : Binary_string) : heap * Binary_string :=
  let b := fresh (dom h) in
  (<[b := Block Malloced (l ++ replicate (Z.to_nat n - length l) x00)]> h,
   mkString (Addr b 0) (Z.of_nat (length l)) n (extra_alloc s) true (thread_specific s)).
Definition simple_drop (h : heap) (s : Binary_string) : option heap :=
  if alloced s then simple_free h (Ptr s) else Some h.

Definition simple_realloc_raw (n : Z) : strM bool := fun h s =>
  if n <=? Alloced_length s then Some (false, h, s)
  else if limit <? n then Some (true, h, s)
  else l ← load_at h (Ptr s) (str_length s);
       let '(h1, s1) := simple_new n l h s in
       h2 ← simple_drop h1 s; Some (false, h2, s1).
Definition simple_real_alloc (n : Z) : strM bool := fun h s =>
  h1 ← simple_drop h s;
  if limit <? n + 1 then Some (true, h1, init_private_data)
  else let '(h2, s2) := simple_new (n + 1) [] h1 s in Some (false, h2, s2).

Definition simple_library : string_library := {|
  my_free := simple_free; realloc_raw := simple_realloc_raw; real_alloc := simple_real_alloc;
  _dig_vec_lower := [x30; x31; x32; x33; x34; x35; x36; x37; x38; x39; x61; x62; x63; x64; x65; x66; x67; x68];
  net_length_size := fun n => if n <? 251 then 1 else if n <? 65536 then 3 else if n <? 16777216 then 4 else 9;
  net_store_length := fun n =>
    if n <? 251 then [Zbyte n] else if n <? 65536 then xfc :: (Zbyte <$> le_list 2 n)
    else if n <? 16777216 then xfd :: (Zbyte <$> le_list 3 n) else xfe :: (Zbyte <$> le_list 8 n);
  ll2str := fun _ _ => [];
  empty_literal := Addr 1 0
|}.

Lemma simple_drop_spec h s : string_wf h s ->
  exists h', simple_drop h s = Some h' /\ (forall b k, h !! b = Some k -> footprint s <> Some b -> h' !! b = Some k) /\
    (forall b, footprint s <> Some b -> h' !! b = h !! b) /\ dom h' ⊆ dom h.
Proof.
  intros [_ _ _ _ _ _ Ha]. unfold simple_drop. destruct (alloced s) eqn:Ea; [|by exists h].
  destruct (Ha eq_refl) as [(b & k & Ep & Eb & Ek) _]. exists (delete b h). rewrite Ep. cbn. rewrite Eb. cbn. rewrite decide_True by done.
  unfold footprint. rewrite Ep, Ea. cbn. split_and!; [done| | |rewrite dom_delete; set_solver].
  - intros c k' Ec Hc. by rewrite lookup_delete_ne by congruence.
  - intros c Hc. by rewrite lookup_delete_ne by congruence.
Qed.

Lemma simple_new_spec n l h s :
  Z.of_nat (length l) <= n -> 0 < n < UINT_MAX32 -> ufits 32 (extra_alloc s) ->
  let '(h', s') := simple_new n l h s in
  holds h' s' l /\ Alloced_length s' = n /\ alloced s' = true /\ extra_alloc s' = extra_alloc s /\
  thread_specific s' = thread_specific s /\
  forall b k, h !! b = Some k -> h' !! b = Some k /\ footprint s' <> Some b.
Proof.
  intros Hl Hn He. unfold simple_new. set (b := fresh (dom h)).
  assert (h !! b = None) as Hb by (apply not_elem_of_dom, is_fresh).
  set (blk := Block Malloced (l ++ replicate (Z.to_nat n - length l) x00)).
  assert (view (<[b := blk]> h) (Addr b 0) = Some (bytes blk)) as Ev.
  { cbn [view]. by rewrite lookup_insert_eq. }
  assert (length (bytes blk) = Z.to_nat n) as Elen by (cbn; rewrite length_app, length_replicate; lia).
  split_and!; cbn; try done.
  - split_and!; [|done|].
    + constructor; cbn -[view]; unfold ufits, UINT_MAX32 in *; try done; try lia.
      * exists (bytes blk). split; [done|]. lia.
      * intros _. exists blk. by rewrite lookup_insert_eq.
      * intros _. split; [|lia]. exists b, blk. by rewrite lookup_insert_eq.
    + cbn -[view load_at]. rewrite (load_at_view _ _ _ _ Ev) by lia. rewrite Nat2Z.id. cbn. by rewrite take_app_length.
  - intros c k Hc. rewrite lookup_insert_ne by congruence. split; [done|]. congruence.
Qed.
End simple_library.

#[export] Instance simple_library_laws limit : limit < UINT_MAX32 -> StringLaws (simple_library limit).
Proof.
  intros Hlim. split.
  - intros h b k Eb Ek. cbn. rewrite Eb. cbn. by rewrite decide_True.
  - intros h s bs n H Hn. cbn [realloc_raw simple_library]. unfold simple_realloc_raw.
    destruct (Z.leb_spec n (Alloced_length s)) as [|Hn1]; [done|]. destruct (Z.ltb_spec limit n) as [|Hn2]; [by left|]. right.
    pose proof H as (Hw & El & Eb). rewrite Eb. cbn [mbind option_bind].
    pose proof Hw as [Hlen Hsp Hex _ (v & Ev & Hv) _ Ha].
    pose proof (simple_new_spec n bs h s ltac:(lia) ltac:(unfold ufits in *; lia) Hex) as HS.
    destruct (simple_new n bs h s) as [h1 s1]. destruct HS as (H1 & E1 & E2 & E3 & E4 & HF).
    assert (string_wf h1 s) as Hw1.
    { destruct Hw. constructor; try done.
      - exists v. split; [|done]. destruct (Ptr s) as [|b o]; [done|]. cbn [view] in *. destruct (h !! b) as [k|] eqn:Ek; [|done].
        by rewrite (proj1 (HF b k Ek)).
      - intros H0. specialize (wf_writable0 H0). destruct (Ptr s) as [|b o]; [done|]. destruct wf_writable0 as (k & Ek & HP).
        exists k. split; [by apply HF|done].
      - intros H0. destruct (Ha H0) as [(b & k & Ep & Ek & HP) ?]. split; [|done]. exists b, k. split_and!; [done|by apply HF|done]. }
    destruct (simple_drop_spec h1 s Hw1) as (h2 & -> & Hf & _). cbn [mbind option_bind]. exists h2, s1.
    assert (apart s s1) as Hap.
    { unfold apart. destruct H1 as ([_ _ _ _ _ _ Ha1] & _). destruct (Ha1 E2) as [(b & k & Ep & Ek & _) _]. rewrite Ep.
      intros Hfp. destruct (footprint s1) as [c|] eqn:Ec; [|unfold footprint in Ec; by rewrite Ep, E2 in Ec].
      unfold footprint in Hfp, Ec. rewrite Ep, E2 in Ec. cbn in Ec. injection Ec as <-.
      destruct (Ptr s) as [|d o]; [done|]. destruct (alloced s || (0 <? Alloced_length s)); [|done]. injection Hfp as ->.
      cbn [view] in Ev. destruct (h !! b) as [k'|] eqn:Ek'; [|done]. destruct (HF b k' Ek') as [_ HN]. done. }
    split_and!; try done; [by eapply apart_holds| |lia|].
    + intros b k Hb Hfp. destruct (HF b k Hb). split; [by apply Hf|done].
    + destruct H1 as (_ & <- & _). lia.
  - intros h s bs n H Hn. cbn [real_alloc simple_library]. unfold simple_real_alloc.
    pose proof H as ([Hlen Hsp Hex _ _ _ _] & El & Eb). destruct (simple_drop_spec h s (proj1 H)) as (h1 & -> & Hf & _ & Hd). cbn [mbind option_bind].
    destruct (Z.ltb_spec limit (n + 1)) as [|Hn1].
    + exists true, h1, init_private_data. split; [done|]. split_and!; [|by intros b k Hb Hfp; split; [apply Hf|]|done].
      split_and!; [|done|done]. constructor; cbn; try done; [by left|by exists []].
    + pose proof (simple_new_spec (n + 1) [] h1 s ltac:(cbn; lia) ltac:(lia) Hex) as HS.
      destruct (simple_new (n + 1) [] h1 s) as [h2 s2]. destruct HS as (H1 & E1 & E2 & E3 & E4 & HF).
      exists false, h2, s2. split; [done|]. split_and!; [done| |lia].
      intros b k Hb Hfp. apply HF. by apply Hf.
  - done.
Qed.

(** ** Examples *)

(** Three bytes to append from, in read-only memory, and a local buffer of eight. *)
Definition example_heap : heap :=
  <[2%positive := Block Literal [x61; x62; x63; x00]]> (<[3%positive := Block Writable (replicate 8 x00)]> (<[1%positive := Block Literal [x00]]> ∅)).
Definition example_string : Binary_string := set_str_length 0 (Binary_string_of_buffer (Addr 3 0) 8).
Definition example_ops : list string_op :=
  [OpAppend (Addr 2 0) [x61; x62; x63]; OpChop; OpAppendHex (Addr 2 1) [x62; x63]; OpAppendStep (Addr 2 0) [x61; x62; x63] 500;
   OpCPtrSafe; OpAppend (Addr 2 0) [x61; x62; x63]].

(** With room for 200 bytes at most, the growth to 500 fails and the others do not. *)
Example example_run :
  (r ← @run_ops (simple_library 200) example_ops example_heap example_string;
   let '(rs, h, s) := r in l ← load_at h (Ptr s) (str_length s); Some (rs, l)) =
  Some ([false; false; false; true; false; false], [x61; x62; x36; x32; x36; x33; x61; x62; x63]).
Proof. vm_compute. reflexivity. Qed.

Lemma example_simulates : simulates example_heap example_string (mkText [] true).
Proof.
  split; [|done]. split_and!; [|done|done]. constructor; try done; [by right|by eexists|by eexists].
Qed.

Lemma example_ops_pre : ops_pre (mkText [] true) example_ops.
Proof.
  unfold example_ops. split; [cbn; lia|]. intros r1 t1 E1. split.
  { destruct r1; cbn in E1; subst t1; (split; [done|]); cbn; set_solver. }
  intros r2 t2 [-> ->]. assert (length (take (length (chars t1) - 1) (chars t1)) <= 2)%nat as B2.
  { rewrite length_take. destruct r1; cbn in E1; subst t1; cbn; lia. }
  cbn [chars]. split; [cbn; unfold UINT_MAX32; lia|]. intros r3 t3 E3.
  assert (length (chars t3) <= 6)%nat as B3.
  { destruct r3; [destruct E3 as (k & Hk & ->)|rewrite E3]; cbn [chars]; rewrite length_app; [rewrite (length_take _ k)|]; cbn in *; lia. }
  split; [cbn; unfold UINT_MAX32; lia|]. intros r4 t4 _. split; [done|]. intros r5 t5 _. split; [cbn; lia|]. done.
Qed.

(** The theorem at that run. *)
Lemma binary_string_refines_bytes_witness :
  exists rs p h s, (rs ← @run_ops (simple_library 200) example_ops; p ← @c_ptr_safe (simple_library 200); mret (rs, p)) example_heap example_string =
    Some ((rs, p), h, s) /\ framed example_heap example_string h s.
Proof.
  destruct (@binary_string_refines_bytes (simple_library 200) (simple_library_laws 200 eq_refl) example_ops example_heap example_string (mkText [] true))
    as ([rs p] & h & s & E & F & _); [apply example_simulates| | |].
  - repeat (apply Forall_cons; split; [first [exact I|split; [vm_compute; reflexivity|vm_compute; discriminate]]|]).
    by apply Forall_nil.
  - apply example_ops_pre.
  - by exists rs, p, h, s.
Defined.

(** A string set to the literal of the example. *)
Lemma example_literal_holds : holds example_heap (Binary_string_of_const (Addr 2 0) 3) [x61; x62; x63].
Proof.
  split_and!; [|done|done]. constructor; try done; [by left|]. by eexists.
Qed.

Lemma chop_writes_read_only_witness :
  holds example_heap (Binary_string_of_const (Addr 2 0) 3) [x61; x62; x63] /\
  chop example_heap (Binary_string_of_const (Addr 2 0) 3) = None.
Proof.
  split; [apply example_literal_holds|].
  apply (chop_writes_read_only example_heap (Binary_string_of_const (Addr 2 0) 3) [x61; x62; x63]); [apply example_literal_holds|discriminate|].
  by eexists.
Defined.

(** ** [StringBuffer] *)

Section StringBuffer.
Context `{C : charset_library CHARSET_INFO}.

(** A buffer on the stack is an empty string with all of its bytes as space. *)
Lemma StringBuffer_spec h b o k n cs :
  h !! b = Some k -> kind k <> Literal -> (o + Z.to_nat n <= length (bytes k))%nat -> 0 < n < UINT_MAX32 ->
  let s := str_bin (StringBuffer (CHARSET_INFO := CHARSET_INFO) (Addr b o) n cs) in simulates h s (mkText [] true) /\ Alloced_length s = n.
Proof.
  intros Ek Hk Hl Hn. cbn. unfold Binary_string_of_buffer. rewrite (uwrap_small 32) by (unfold ufits, UINT_MAX32 in *; lia). split; [|done].
  split; [|cbn; lia]. split_and!; [|done|].
  - constructor; cbn -[view]; try done; [lia|right; lia| |by exists k].
    exists (drop o (bytes k)). cbn [view]. rewrite Ek. cbn. rewrite decide_True by lia. rewrite length_drop. split; [done|lia].
  - cbn. unfold load_at. cbn [view]. rewrite Ek. cbn. by rewrite decide_True by lia.
Qed.

Lemma my_isascii_spec z : ufits 8 z -> my_isascii (swrap 8 z) = (z <? 128).
Proof.
  intros Hz. apply (narrow_values 8 (fun z => Bool.eqb (my_isascii (swrap 8 z)) (z <? 128)) ltac:(vm_compute; reflexivity)) in Hz.
  by apply eqb_prop.
Qed.

Lemma existsb_ascii l : existsb (fun c => negb (my_isascii (swrap 8 (byteZ c)))) l = negb (forallb (fun c => byteZ c <? 128) l).
Proof. induction l as [|x l IH]; [done|]. cbn [existsb forallb]. by rewrite IH, my_isascii_spec, negb_andb. Qed.

(** A text is ASCII by [is_ascii] exactly when every byte is below 128, in a
    character set of one-byte units. *)
Lemma is_ascii_spec h (s : String) l :
  holds h (str_bin s) l -> mbminlen (str_cs s) <= 1 ->
  is_ascii h s = Some (forallb (fun c => byteZ c <? 128) l, h, s).
Proof.
  intros (Hw & El & Eb) Hm. unfold is_ascii, length_. destruct (Z.eqb_spec (str_length (str_bin s)) 0) as [E0|_].
  { destruct l; [done|cbn [length] in El; lia]. }
  rewrite (proj2 (Z.ltb_ge _ _)) by done. unfold of_bin, has_8bit_bytes, mbind, strM_bind, this, peek.
  rewrite Eb. cbn [mbind option_bind mret strM_ret]. destruct s as [c b]. cbn [str_bin str_cs].
  rewrite (existsb_ascii l). by rewrite negb_involutive.
Qed.
End StringBuffer.
