(* ===== verification/CDouble.v ===== *)
(** C's [double] and the functions of [math.h] the code uses, as the IEEE 754
    binary64 numbers of the Standard Library's [SpecFloat]: every operation is
    executable, rounding included.  The lemmas are about the numbers of rows the
    code converts: an integer below [2^53] converts exactly, different integers
    to different doubles, and a number divided by itself is one. *)

From Stdlib Require Import Floats.SpecFloat.
From S2P Require Import Prelude.

Definition double : Type := spec_float.
Definition dprec : Z := 53.
Definition demax : Z := 1024.

(** [(double) z] *)
Definition Zdouble (z : Z) : double := binary_normalize dprec demax z 0 false.
Definition dadd : double -> double -> double := SFadd dprec demax.
Definition dsub : double -> double -> double := SFsub dprec demax.
Definition dmul : double -> double -> double := SFmul dprec demax.
Definition ddiv : double -> double -> double := SFdiv dprec demax.
(** [x < y], [x <= y], [x == y]: false when one of them is not a number. *)
Definition dlt : double -> double -> bool := SFltb.
Definition dle : double -> double -> bool := SFleb.
Definition deq : double -> double -> bool := SFeqb.

(** The greatest integer below, and the least above, a finite number. *)
Definition floorZ (x : double) : Z :=
  match x with
  | S754_finite s m e => let z := if s then Zneg m else Zpos m in if 0 <=? e then z * 2 ^ e else z / 2 ^ (- e)
  | _ => 0
  end.
Definition ceilZ (x : double) : Z :=
  match x with
  | S754_finite s m e => let z := if s then Zneg m else Zpos m in if 0 <=? e then z * 2 ^ e else - ((- z) / 2 ^ (- e))
  | _ => 0
  end.
(** [floor] and [ceil]: a number with no fraction is its own, and the result of
    the others is an integer below [2^53]. *)
Definition dfloor (x : double) : double :=
  match x with
  | S754_finite s m e => if 0 <=? e then x else binary_normalize dprec demax (floorZ x) 0 s
  | _ => x
  end.
Definition dceil (x : double) : double :=
  match x with
  | S754_finite s m e => if 0 <=? e then x else binary_normalize dprec demax (ceilZ x) 0 s
  | _ => x
  end.

(** [(uint) x] for a number that fits; undefined for the others. *)
Definition uint_of_double (w : Z) (x : double) : option Z :=
  match x with
  | S754_zero _ => Some 0
  | S754_finite false _ _ => asserting (floorZ x <? 2 ^ w) (floorZ x)
  | S754_finite true _ _ => asserting (-1 <? ceilZ x) 0
  | _ => None
  end.

(** * Exact conversion *)

Definition dzero : double := S754_zero false.
Definition done_ : double := S754_finite false 4503599627370496 (-52).

Lemma Zdouble_0 : Zdouble 0 = dzero.
Proof. done. Qed.
Lemma Zdouble_1 : Zdouble 1 = done_.
Proof. done. Qed.

Lemma digits2_pos_log m : Zpos (digits2_pos m) = Z.log2 (Zpos m) + 1.
Proof.
  induction m as [m IH|m IH|]; cbn [digits2_pos]; [| |done]; rewrite Pos2Z.inj_succ, IH.
  - change (Zpos m~1) with (2 * Zpos m + 1). rewrite Z.log2_succ_double by lia. lia.
  - change (Zpos m~0) with (2 * Zpos m). rewrite Z.log2_double by lia. lia.
Qed.

Lemma nat_iter_xO m n : Zpos (Nat.iter n xO m) = Zpos m * 2 ^ Z.of_nat n.
Proof.
  induction n as [|n IH]; [cbn; lia|]. rewrite Nat2Z.inj_succ, Z.pow_succ_r by lia.
  change (Zpos (Nat.iter (S n) xO m)) with (2 * Zpos (Nat.iter n xO m)). rewrite IH. lia.
Qed.
Lemma iter_xO m d : Zpos (Pos.iter xO m d) = Zpos m * 2 ^ Zpos d.
Proof. rewrite <- (positive_nat_Z d), Pos2Nat.inj_iter. apply nat_iter_xO. Qed.

(** The mantissa and exponent of an integer of at most 53 bits. *)
Definition exact_exp (z : Z) : Z := Z.log2 z - 52.
Definition exact_mant (z : Z) : positive := Z.to_pos (z * 2 ^ (52 - Z.log2 z)).

Lemma fexp_small e : -1021 <= e -> fexp dprec demax e = e - 53.
Proof. intros H. unfold fexp, emin, dprec, demax. lia. Qed.

(** A mantissa of exactly 53 bits is rounded to itself. *)
Lemma binary_round_aux_exact s m e :
  2 ^ 52 <= Zpos m < 2 ^ 53 -> -1074 <= e <= 971 -> binary_round_aux dprec demax s (Zpos m) e loc_Exact = S754_finite s m e.
Proof.
  intros Hm He. assert (Z.log2 (Zpos m) = 52) as El by (apply Z.log2_unique; lia).
  assert (shr_fexp dprec demax (Zpos m) e loc_Exact = ({| shr_m := Zpos m; shr_r := false; shr_s := false |}, e)) as ES.
  { unfold shr_fexp. cbn [Zdigits2 shr_record_of_loc]. rewrite digits2_pos_log, El, fexp_small by lia.
    by replace (52 + 1 + e - 53 - e) with 0 by lia. }
  unfold binary_round_aux. rewrite ES. cbn [shr_m loc_of_shr_record round_nearest_even]. rewrite ES. cbn [shr_m].
  by rewrite (proj2 (Z.leb_le _ _)) by (unfold dprec, demax; lia).
Qed.

Lemma Zdouble_exact z : 0 < z < 2 ^ 53 -> Zdouble z = S754_finite false (exact_mant z) (exact_exp z).
Proof.
  intros Hz. destruct z as [|m|m]; try lia. unfold Zdouble, binary_normalize, binary_round.
  pose proof (Z.log2_nonneg (Zpos m)). assert (Z.log2 (Zpos m) < 53) as Hl by (apply Z.log2_lt_pow2; lia).
  pose proof (Z.log2_spec (Zpos m) ltac:(lia)) as [L1 L2].
  rewrite digits2_pos_log, Z.add_0_r, fexp_small by lia.
  assert (Zpos m * 2 ^ (52 - Z.log2 (Zpos m)) = Zpos (exact_mant (Zpos m))) as EM.
  { unfold exact_mant. rewrite Z2Pos.id; [done|]. apply Z.mul_pos_pos; [lia|]. apply Z.pow_pos_nonneg; lia. }
  assert (2 ^ 52 <= Zpos (exact_mant (Zpos m)) < 2 ^ 53) as HM.
  { rewrite <- EM. assert (2 ^ 52 = 2 ^ Z.log2 (Zpos m) * 2 ^ (52 - Z.log2 (Zpos m))) as E1 by (rewrite <- Z.pow_add_r by lia; f_equal; lia).
    assert (2 ^ 53 = 2 ^ Z.succ (Z.log2 (Zpos m)) * 2 ^ (52 - Z.log2 (Zpos m))) as E2 by (rewrite <- Z.pow_add_r by lia; f_equal; lia).
    assert (0 < 2 ^ (52 - Z.log2 (Zpos m))) by (apply Z.pow_pos_nonneg; lia). rewrite E1, E2. nia. }
  assert (shl_align m 0 (Z.log2 (Zpos m) + 1 - 53) = (exact_mant (Zpos m), exact_exp (Zpos m))) as ->.
  { unfold shl_align, exact_exp. rewrite Z.sub_0_r. destruct (Z.log2 (Zpos m) + 1 - 53) as [|d|d] eqn:Ed; [|lia|].
    - f_equal; [|lia]. apply (inj Zpos). rewrite <- EM. replace (52 - Z.log2 (Zpos m)) with 0 by lia. lia.
    - f_equal; [|lia]. apply (inj Zpos). rewrite <- EM, iter_xO. do 2 f_equal. lia. }
  rewrite binary_round_aux_exact; [done|done|]. unfold exact_exp. lia.
Qed.

Lemma exact_inj a b : 0 < a -> 0 < b -> a < 2 ^ 53 -> b < 2 ^ 53 ->
  exact_mant a = exact_mant b -> exact_exp a = exact_exp b -> a = b.
Proof.
  unfold exact_mant, exact_exp. intros Ha Hb La Lb EM EE. assert (Z.log2 a = Z.log2 b) as El by lia. rewrite El in EM.
  assert (Z.log2 b <= 52) as Hl.
  { assert (Z.log2 b < 53); [|lia]. apply Z.log2_lt_pow2; lia. }
  assert (0 < 2 ^ (52 - Z.log2 b)) by (apply Z.pow_pos_nonneg; lia).
  apply Z2Pos.inj in EM; [|apply Z.mul_pos_pos; lia..]. nia.
Qed.

(** Integers compare as their doubles. *)
Lemma deq_Zdouble a b : 0 <= a < 2 ^ 53 -> 0 <= b < 2 ^ 53 -> deq (Zdouble a) (Zdouble b) = (a =? b).
Proof.
  intros Ha Hb. unfold deq, SFeqb. destruct (decide (a = 0)) as [->|Na], (decide (b = 0)) as [->|Nb]; [done| | |].
  - by rewrite Zdouble_0, Zdouble_exact, (proj2 (Z.eqb_neq _ _)) by lia.
  - by rewrite Zdouble_0, Zdouble_exact, (proj2 (Z.eqb_neq _ _)) by lia.
  - rewrite !Zdouble_exact by lia. cbn [SFcompare]. destruct (Z.eqb_spec a b) as [->|Hne].
    + rewrite Z.compare_refl. change (Pos.compare_cont Eq ?x ?y) with (Pos.compare x y). by rewrite Pos.compare_refl.
    + destruct (Z.compare_spec (exact_exp a) (exact_exp b)) as [E| |]; [|done|done].
      change (Pos.compare_cont Eq ?x ?y) with (Pos.compare x y).
      destruct (Pos.compare_spec (exact_mant a) (exact_mant b)) as [E2| |]; [|done|done].
      destruct Hne. by apply exact_inj; try lia.
Qed.

(** A finite number other than zero, divided by itself. *)
Lemma ddiv_self m e : ddiv (S754_finite false m e) (S754_finite false m e) = done_.
Proof.
  unfold ddiv, SFdiv, SFdiv_core_binary. cbn [xorb Zdigits2].
  rewrite !Z.sub_diag. change (fexp dprec demax 0) with (-53). change (Z.min (-53) 0) with (-53). change (0 - -53) with 53.
  rewrite Z.shiftl_mul_pow2 by lia.
  assert (Z.div_eucl (Zpos m * 2 ^ 53) (Zpos m) = (2 ^ 53, 0)) as ->.
  { rewrite (surjective_pairing (Z.div_eucl _ _)). change (fst (Z.div_eucl ?a ?b)) with (a / b). change (snd (Z.div_eucl ?a ?b)) with (a mod b).
    f_equal; [rewrite Z.mul_comm; apply Z.div_mul; lia|rewrite Z.mul_comm; apply Z.mod_mul; lia]. }
  assert (new_location (Zpos m) 0 = loc_Exact) as ->.
  { unfold new_location, new_location_even, new_location_odd. by destruct (Z.even _). }
  reflexivity.
Qed.

Lemma ddiv_Zdouble_self z : 0 < z < 2 ^ 53 -> ddiv (Zdouble z) (Zdouble z) = done_.
Proof. intros H. rewrite Zdouble_exact by done. apply ddiv_self. Qed.

(** An integer below [2^53] comes back from its double. *)
Lemma uint_of_Zdouble w z : 0 <= z < 2 ^ 53 -> z < 2 ^ w -> uint_of_double w (Zdouble z) = Some z.
Proof.
  intros Hz Hw. destruct (decide (z = 0)) as [->|N]; [done|]. rewrite Zdouble_exact by lia. unfold uint_of_double.
  assert (F : floorZ (S754_finite false (exact_mant z) (exact_exp z)) = z).
  { assert (L : Z.log2 z <= 52) by (apply Z.lt_succ_r, Z.log2_lt_pow2; lia). pose proof (Z.log2_nonneg z).
    assert (P : 0 < 2 ^ (52 - Z.log2 z)) by (apply Z.pow_pos_nonneg; lia).
    unfold floorZ, exact_mant, exact_exp. rewrite Z2Pos.id by nia. destruct (Z.leb_spec 0 (Z.log2 z - 52)) as [G|G].
    - replace (Z.log2 z) with 52 by lia. rewrite Z.sub_diag, Z.pow_0_r. lia.
    - replace (- (Z.log2 z - 52)) with (52 - Z.log2 z) by lia. apply Z.div_mul. lia. }
  rewrite F. unfold asserting. by rewrite (proj2 (Z.ltb_lt _ _)) by lia.
Qed.
(** Not above one is below or equal to one, for a number. *)
Lemma SFcompare_antisym a b : SFcompare b a = CompOpp <$> SFcompare a b.
Proof.
  destruct a as [s|[|]| |s m e], b as [s'|[|]| |s' m' e']; try reflexivity; try (by destruct s); try (by destruct s').
  cbn [SFcompare fmap option_fmap option_map]. rewrite (Z.compare_antisym e e'). change (Pos.compare_cont Eq ?x ?y) with (Pos.compare x y).
  rewrite (Pos.compare_antisym m m'). by destruct s, s', (Z.compare e e'), (Pos.compare m m').
Qed.

Lemma dle_not_lt a p : SFcompare a p <> None -> dlt a p = false -> dle p a = true.
Proof.
  unfold dlt, dle, SFltb, SFleb. rewrite (SFcompare_antisym a p). by destruct (SFcompare a p) as [[]|].
Qed.

Lemma dle_one p : dlt done_ p = false -> deq p p = true -> dle p done_ = true.
Proof. intros H Hp. apply dle_not_lt; [|done]. by destruct p as [s|[|]| |s m e]. Qed.

(** [x < y] is an order, numbers or not. *)
Lemma dlt_irrefl x : dlt x x = false.
Proof.
  destruct x as [s|[|]| |s m e]; try reflexivity. unfold dlt, SFltb. cbn [SFcompare]. rewrite Z.compare_refl.
  change (Pos.compare_cont Eq m m) with (Pos.compare m m). rewrite Pos.compare_refl. by destruct s.
Qed.
Lemma dlt_finite s m e s' m' e' : dlt (S754_finite s m e) (S754_finite s' m' e') = true <->
  match s, s' with
  | true, false => True | false, true => False
  | false, false => e < e' \/ (e = e' /\ (m < m')%positive)
  | true, true => e' < e \/ (e = e' /\ (m' < m)%positive)
  end.
Proof.
  unfold dlt, SFltb. cbn [SFcompare]. change (Pos.compare_cont Eq ?x ?y) with (Pos.compare x y).
  destruct s, s'; [| done | done |]; destruct (Z.compare_spec e e'), (Pos.compare_spec m m'); cbn; split; intros; try done; try lia.
Qed.
Lemma dlt_trans x y z : dlt x y = true -> dlt y z = true -> dlt x z = true.
Proof.
  destruct x as [s|[]| |[] m e], y as [s'|[]| |[] m' e'], z as [s2|[]| |[] m2 e2]; try done; rewrite !dlt_finite; lia.
Qed.

(** * Bounds of a rounded result

    A number [t] is given as [a / (b * 2^K)] for integers [a] and [b]: the
    scale makes every exponent in use nonnegative. *)

Definition K : Z := 5000.
Definition scaled (m e : Z) : Z := m * 2 ^ (e + K).

(** The record is [t] at the exponent [e], rounded down, with its remainder. *)
Definition record_of (r : shr_record) (e a b : Z) : Prop :=
  0 <= shr_m r /\ scaled (shr_m r) e * b <= a < scaled (shr_m r + 1) e * b /\
  (shr_r r || shr_s r = false <-> a = scaled (shr_m r) e * b).

Lemma scaled_S m e : - K <= e -> scaled m (e + 1) = scaled (2 * m) e.
Proof. intros H. unfold scaled. replace (e + 1 + K) with (Z.succ (e + K)) by lia. rewrite Z.pow_succ_r by lia. lia. Qed.

Lemma shr_1_record r e a b : - K <= e -> 0 < b -> record_of r e a b ->
  record_of (shr_1 r) (e + 1) a b /\ shr_m (shr_1 r) = shr_m r / 2.
Proof.
  intros He Hb (Hm & Ha & Hx). destruct r as [m x s]. cbn [shr_m shr_r shr_s] in *. unfold record_of. rewrite !scaled_S by done.
  assert (0 < 2 ^ (e + K)) by (apply Z.pow_pos_nonneg; lia). unfold scaled in *. set (P := 2 ^ (e + K)) in *. clearbody P.
  destruct m as [|[p|p|]|p]; try lia; cbn [shr_1 shr_m shr_r shr_s].
  - split; [|done]. split_and!; [lia|nia|nia|]. destruct x, s; cbn in Hx |- *; rewrite Hx; nia.
  - split; [|rewrite (Pos2Z.inj_xI p); apply Z.div_unique with 1; lia]. rewrite (Pos2Z.inj_xI p) in *.
    split_and!; [lia|nia|nia|]. cbn [orb]. split; [done|]. nia.
  - split; [|rewrite (Pos2Z.inj_xO p); apply Z.div_unique with 0; lia]. rewrite (Pos2Z.inj_xO p) in *.
    split_and!; [lia|nia|nia|]. destruct x, s; cbn in Hx |- *; rewrite Hx; nia.
  - split; [|done]. split_and!; [lia|nia|nia|]. cbn [orb]. split; [done|]. nia.
Qed.

Lemma iter_pos_nat {A} (f : A -> A) n x : SpecFloat.iter_pos f n x = Nat.iter (Pos.to_nat n) f x.
Proof.
  revert x. induction n as [n IH|n IH|]; intros x; cbn [SpecFloat.iter_pos]; [| |done]; rewrite !IH, <- Nat.iter_add.
  - rewrite Pos2Nat.inj_xI. replace (S (2 * Pos.to_nat n))%nat with (Pos.to_nat n + Pos.to_nat n + 1)%nat by lia. by rewrite (Nat.iter_add _ 1).
  - rewrite Pos2Nat.inj_xO. f_equal. lia.
Qed.

Lemma iter_shr_record k r e a b : - K <= e -> 0 < b -> record_of r e a b ->
  record_of (Nat.iter k shr_1 r) (e + Z.of_nat k) a b /\ shr_m (Nat.iter k shr_1 r) = shr_m r / 2 ^ Z.of_nat k.
Proof.
  intros He Hb Hr. induction k as [|k [IH1 IH2]]; [cbn; rewrite Z.add_0_r, Z.div_1_r; done|].
  change (Nat.iter (S k) shr_1 r) with (shr_1 (Nat.iter k shr_1 r)).
  destruct (shr_1_record _ (e + Z.of_nat k) _ _ ltac:(lia) Hb IH1) as [H1 H2]. split; [by replace (e + Z.of_nat (S k)) with (e + Z.of_nat k + 1) by lia|].
  rewrite H2, IH2, Nat2Z.inj_succ, Z.pow_succ_r by lia. rewrite Z.div_div by (try apply Z.pow_nonzero; lia). f_equal. lia.
Qed.

Lemma shr_record_spec n r e a b : 0 <= n -> - K <= e -> 0 < b -> record_of r e a b ->
  exists r', shr r e n = (r', e + n) /\ record_of r' (e + n) a b /\ shr_m r' = shr_m r / 2 ^ n.
Proof.
  intros Hn He Hb Hr. destruct n as [|n|n]; [|unfold shr|lia].
  - exists r. rewrite Z.add_0_r, Z.div_1_r. done.
  - rewrite iter_pos_nat. destruct (iter_shr_record (Pos.to_nat n) r e a b He Hb Hr) as [H1 H2]. rewrite positive_nat_Z in *. eauto.
Qed.

(** A double between two integers, with the mantissa and exponent it must have. *)
Definition dbetween (lo hi : Z) (x : double) : Prop :=
  match x with
  | S754_zero _ => lo <= 0
  | S754_finite false m e =>
      -1074 <= e <= 0 /\ Zpos m < 2 ^ 53 /\ (e = -1074 \/ 2 ^ 52 <= Zpos m) /\ lo * 2 ^ (- e) <= Zpos m <= hi * 2 ^ (- e)
  | _ => False
  end.

Lemma pow_K e : - K <= e <= 0 -> 2 ^ K = 2 ^ (e + K) * 2 ^ (- e) /\ 0 < 2 ^ (e + K) /\ 0 < 2 ^ (- e).
Proof.
  intros He. split_and!; [rewrite <- Z.pow_add_r by lia; f_equal; lia|apply Z.pow_pos_nonneg; lia..].
Qed.

Lemma loc_of_exact r : loc_of_shr_record r = loc_Exact <-> shr_r r || shr_s r = false.
Proof. by destruct r as [m [] []]. Qed.
Lemma shr_m_of_loc m l : shr_m (shr_record_of_loc m l) = m.
Proof. by destruct l as [|[]]. Qed.
Lemma Zdigits2_log m : 0 < m -> Zdigits2 m = Z.log2 m + 1.
Proof. intros H. destruct m as [|m|m]; try lia. apply digits2_pos_log. Qed.

(** One rounding position: the mantissa is cut to 53 bits, or to the exponent of
    the subnormal numbers. *)
Lemma shr_fexp_spec m e l a b lo hi :
  0 < m -> -2200 <= e <= 0 -> e <= fexp dprec demax (Zdigits2 m + e) -> record_of (shr_record_of_loc m l) e a b -> 0 < b ->
  hi < 2 ^ 53 -> lo * 2 ^ K * b <= a <= hi * 2 ^ K * b ->
  exists r e', shr_fexp dprec demax m e l = (r, e') /\ -1074 <= e' <= 0 /\ record_of r e' a b /\
    (e' = -1074 \/ 2 ^ 52 <= shr_m r) /\ shr_m r < 2 ^ 53 /\ lo * 2 ^ (- e') <= shr_m r <= hi * 2 ^ (- e').
Proof.
  intros Hm He Hf Hr Hb Hhi Ha. unfold shr_fexp. rewrite Zdigits2_log in * by done.
  pose proof (Z.log2_nonneg m). pose proof (Z.log2_spec m Hm) as [L1 L2]. set (D := Z.log2 m + 1) in *.
  assert (D + e <= 53) as HD.
  { destruct (pow_K e ltac:(unfold K; lia)) as (E1 & E2 & E3). destruct Hr as (_ & [Hl _] & _). rewrite shr_m_of_loc in Hl. unfold scaled in Hl.
    assert (m * 2 ^ (e + K) * b <= hi * 2 ^ (- e) * 2 ^ (e + K) * b) as Hx by nia.
    assert (m <= hi * 2 ^ (- e)) by nia. assert (m < 2 ^ (53 - e)) as Hx2.
    { replace (53 - e) with (53 + - e) by lia. rewrite Z.pow_add_r by lia. nia. }
    apply Z.log2_lt_pow2 in Hx2; lia. }
  assert (fexp dprec demax (D + e) = Z.max (D + e - 53) (-1074)) as EF by (unfold fexp, emin, dprec, demax; lia).
  rewrite EF in *. set (e' := Z.max (D + e - 53) (-1074)) in *.
  destruct (shr_record_spec (e' - e) _ e a b ltac:(lia) ltac:(unfold K; lia) Hb Hr) as (r & Er & Hr' & Em).
  rewrite shr_m_of_loc in Em. replace (e + (e' - e)) with e' in * by lia. exists r, e'. split; [done|]. split; [lia|]. split; [done|].
  assert (0 < 2 ^ (e' - e)) as Hpos by (apply Z.pow_pos_nonneg; lia).
  destruct (pow_K e' ltac:(unfold K; lia)) as (E1 & E2 & E3). destruct Hr' as (Hm0 & [Hl Hu] & _). unfold scaled in *.
  split_and!.
  - destruct (decide (D + e - 53 <= -1074)); [left; lia|right]. rewrite Em. apply Z.div_le_lower_bound; [done|].
    rewrite Z.mul_comm, <- Z.pow_add_r by lia. replace (52 + (e' - e)) with (Z.log2 m) by lia. done.
  - rewrite Em. apply Z.div_lt_upper_bound; [done|]. rewrite <- Z.pow_add_r by lia.
    apply Z.lt_le_trans with (2 ^ D); [by unfold D|]. apply Z.pow_le_mono_r; lia.
  - assert (lo * 2 ^ (- e') * 2 ^ (e' + K) * b < (shr_m r + 1) * 2 ^ (e' + K) * b) by nia. nia.
  - assert (shr_m r * 2 ^ (e' + K) * b <= hi * 2 ^ (- e') * 2 ^ (e' + K) * b) by nia. nia.
Qed.

(** Rounding does not cross an integer below [2^53]. *)
Lemma round_between m e l a b lo hi :
  0 < m -> -2200 <= e <= 0 -> e <= fexp dprec demax (Zdigits2 m + e) -> record_of (shr_record_of_loc m l) e a b -> 0 < b ->
  hi < 2 ^ 53 -> lo * 2 ^ K * b <= a <= hi * 2 ^ K * b ->
  dbetween lo hi (binary_round_aux dprec demax false m e l).
Proof.
  intros Hm He Hf Hr Hb Hhi Ha. unfold binary_round_aux.
  destruct (shr_fexp_spec m e l a b lo hi Hm He Hf Hr Hb Hhi Ha) as (r & e1 & -> & He1 & (Hr0 & Hr1 & Hr2) & Hc & Hlt & Hlo & Hup).
  set (m1 := round_nearest_even (shr_m r) (loc_of_shr_record r)).
  destruct (pow_K e1 ltac:(unfold K; lia)) as (E1 & E2 & E3).
  assert (shr_m r <= m1 <= hi * 2 ^ (- e1)) as Hm1.
  { assert (m1 = shr_m r \/ (m1 = shr_m r + 1 /\ loc_of_shr_record r <> loc_Exact)) as [->|[-> Hne]]; [|lia|].
    - unfold m1, round_nearest_even. destruct (loc_of_shr_record r) as [|[]]; [by left| |by left|by right].
      destruct (Z.even (shr_m r)); [by left|by right].
    - rewrite loc_of_exact, Hr2 in Hne. unfold scaled in *.
      assert (shr_m r * 2 ^ (e1 + K) * b < hi * 2 ^ (- e1) * 2 ^ (e1 + K) * b) by nia. nia. }
  destruct (decide (m1 = 0)) as [E0|N0].
  - rewrite E0. unfold shr_fexp. cbn [Zdigits2 shr_record_of_loc].
    assert (fexp dprec demax (0 + e1) - e1 <= 0) as Hle by (unfold fexp, emin, dprec, demax; lia).
    destruct (fexp dprec demax (0 + e1) - e1) as [|n|n]; [|lia|]; cbn [shr shr_m]; cbn [dbetween]; nia.
  - assert (e1 <= fexp dprec demax (Zdigits2 m1 + e1)) as Hf1.
    { rewrite Zdigits2_log by lia. destruct Hc as [->|Hc]; [unfold fexp, emin, dprec, demax; lia|].
      assert (52 <= Z.log2 m1) by (apply Z.log2_le_pow2; lia). unfold fexp, dprec. lia. }
    destruct (shr_fexp_spec m1 e1 loc_Exact (scaled m1 e1) 1 lo hi) as (r2 & e2 & -> & He2 & (Hp & _) & Hc2 & Hlt2 & Hlo2 & Hup2);
      [lia|lia|done| |lia|done|unfold scaled; nia|].
    { split_and!; cbn [shr_record_of_loc shr_m shr_r shr_s orb]; [lia|lia|unfold scaled; nia|]. rewrite Z.mul_1_r. done. }
    destruct (shr_m r2) as [|m2|m2] eqn:Em2; [|rewrite (proj2 (Z.leb_le _ _)) by (unfold dprec, demax; lia)|lia].
    + cbn [dbetween]. assert (0 < 2 ^ (- e2)) by (apply Z.pow_pos_nonneg; lia). nia.
    + cbn [dbetween]. auto.
Qed.

(** ** The operations *)

Lemma exact_spec k : 0 < k < 2 ^ 53 ->
  let m := exact_mant k in let e := exact_exp k in
  -52 <= e <= 0 /\ 2 ^ 52 <= Zpos m < 2 ^ 53 /\ Zpos m = k * 2 ^ (- e).
Proof.
  intros Hk. cbn. unfold exact_mant, exact_exp. pose proof (Z.log2_nonneg k). pose proof (Z.log2_spec k ltac:(lia)) as [L1 L2].
  assert (Z.log2 k < 53) by (apply Z.log2_lt_pow2; lia). replace (- (Z.log2 k - 52)) with (52 - Z.log2 k) by lia.
  assert (0 < 2 ^ (52 - Z.log2 k)) by (apply Z.pow_pos_nonneg; lia).
  assert (2 ^ 52 = 2 ^ Z.log2 k * 2 ^ (52 - Z.log2 k)) as E1 by (rewrite <- Z.pow_add_r by lia; f_equal; lia).
  assert (2 ^ 53 = 2 ^ Z.succ (Z.log2 k) * 2 ^ (52 - Z.log2 k)) as E2 by (rewrite <- Z.pow_add_r by lia; f_equal; lia).
  rewrite Z2Pos.id by nia. split; [lia|]. split; [|done]. rewrite E1, E2. nia.
Qed.

Lemma record_exact m e : 0 <= m -> - K <= e -> record_of (shr_record_of_loc m loc_Exact) e (scaled m e) 1.
Proof.
  intros Hm He. assert (0 < 2 ^ (e + K)) by (apply Z.pow_pos_nonneg; lia). unfold scaled.
  split_and!; cbn [shr_record_of_loc shr_m shr_r shr_s orb]; [done|unfold scaled; lia|unfold scaled; lia|]. unfold scaled. by rewrite Z.mul_1_r.
Qed.

(** Scaling by [2^e] for a negative [e]. *)
Lemma scaled_le m e n : - K <= e <= 0 -> scaled m e <= n * 2 ^ K <-> m <= n * 2 ^ (- e).
Proof. intros He. destruct (pow_K e He) as (E1 & E2 & E3). unfold scaled. rewrite E1. split; intros; nia. Qed.
Lemma scaled_ge m e n : - K <= e <= 0 -> n * 2 ^ K <= scaled m e <-> n * 2 ^ (- e) <= m.
Proof. intros He. destruct (pow_K e He) as (E1 & E2 & E3). unfold scaled. rewrite E1. split; intros; nia. Qed.

Lemma round_exact_between m e lo hi :
  0 < m -> -2200 <= e <= 0 -> e <= fexp dprec demax (Zdigits2 m + e) -> hi < 2 ^ 53 -> lo * 2 ^ (- e) <= m <= hi * 2 ^ (- e) ->
  dbetween lo hi (binary_round_aux dprec demax false m e loc_Exact).
Proof.
  intros Hm He Hf Hhi [H1 H2]. apply (round_between m e loc_Exact (scaled m e) 1); try done; [|].
  - apply record_exact; unfold K; lia.
  - rewrite !Z.mul_1_r. by split; [apply scaled_ge|apply scaled_le]; (unfold K; lia) || done.
Qed.

(** [p * k] for a number [p] from 0 to 1. *)
Lemma dmul_between p k : dbetween 0 1 p -> 0 <= k < 2 ^ 53 -> dbetween 0 k (dmul p (Zdouble k)).
Proof.
  intros Hp Hk. destruct (decide (k = 0)) as [->|Nk].
  { rewrite Zdouble_0. destruct p as [s|s| |[|] m e]; done. }
  destruct (exact_spec k ltac:(lia)) as (He & Hm & Ek). rewrite Zdouble_exact by lia.
  set (mk := exact_mant k) in *. set (ek := exact_exp k) in *. clearbody mk ek.
  destruct p as [s|s| |[|] m e]; try done. destruct Hp as (Hep & Hmp & Hc & [_ Hup]).
  unfold dmul, SFmul. cbn [xorb]. apply round_exact_between; [lia|lia| |lia|].
  - rewrite Zdigits2_log by lia. destruct Hc as [->|Hc]; [unfold fexp, emin, dprec, demax; lia|].
    assert (104 <= Z.log2 (Zpos (m * mk))) by (apply Z.log2_le_pow2; [lia|]; change (2 ^ 104) with (2 ^ 52 * 2 ^ 52); nia).
    unfold fexp, dprec. lia.
  - split; [lia|]. replace (- (e + ek)) with (- e + - ek) by lia. rewrite Z.pow_add_r by lia. rewrite Pos2Z.inj_mul, Ek.
    assert (0 < 2 ^ (- ek)) by (apply Z.pow_pos_nonneg; lia). nia.
Qed.

Lemma shl_align_spec m e e' : let '(m', e2) := shl_align m e e' in e2 = Z.min e e' /\ Zpos m' = Zpos m * 2 ^ (e - e2).
Proof.
  unfold shl_align. destruct (e' - e) as [|d|d] eqn:E; [split; [lia|]; rewrite Z.sub_diag; lia..|].
  split; [lia|]. rewrite iter_xO. do 2 f_equal. lia.
Qed.

(** [1 + x], where an integer bounds [x]. *)
Lemma dadd_one_between x n : dbetween 0 (n - 1) x -> 1 <= n < 2 ^ 53 -> dbetween 1 n (dadd (Zdouble 1) x).
Proof.
  intros Hx Hn. rewrite Zdouble_1. destruct x as [s|s| |[|] m e]; try done.
  { cbn. change (1 * 4503599627370496) with 4503599627370496. change (2 ^ (- -52)) with 4503599627370496. change (2 ^ 53) with 9007199254740992 in *. lia. }
  destruct Hx as (He & Hm & Hc & [_ Hup]). unfold dadd, SFadd, done_. cbn [cond_Zopp].
  pose proof (shl_align_spec 4503599627370496 (-52) (Z.min (-52) e)) as H1. pose proof (shl_align_spec m e (Z.min (-52) e)) as H2.
  destruct (shl_align 4503599627370496 (-52) (Z.min (-52) e)) as [m1 e1], (shl_align m e (Z.min (-52) e)) as [m2 e2]. cbn [fst].
  destruct H1 as [-> E1], H2 as [-> E2]. rewrite Z.min_r in E1 by lia. rewrite (Z.min_r e) in E2 by lia.
  set (ez := Z.min (-52) e) in *. unfold binary_normalize. rewrite <- Pos2Z.inj_add. set (S := (m1 + m2)%positive).
  assert (1 * 2 ^ (- ez) <= Zpos S <= n * 2 ^ (- ez)) as HS.
  { unfold S. rewrite Pos2Z.inj_add, E1, E2. change 4503599627370496 with (2 ^ 52). rewrite <- Z.pow_add_r by lia.
    replace (52 + (-52 - ez)) with (- ez) by lia.
    assert (2 ^ (- ez) = 2 ^ (e - ez) * 2 ^ (- e)) as E3 by (rewrite <- Z.pow_add_r by lia; f_equal; lia).
    assert (0 < 2 ^ (e - ez)) by (apply Z.pow_pos_nonneg; lia). split; [nia|]. nia. }
  clearbody S. unfold binary_round. pose proof (shl_align_spec S ez (fexp dprec demax (Zpos (digits2_pos S) + ez))) as H3.
  destruct (shl_align S ez _) as [m' e']. destruct H3 as [E' Em].
  assert (-1074 <= ez <= -52) as Hez by lia.
  assert (-1074 <= fexp dprec demax (Zpos (digits2_pos S) + ez)) by (unfold fexp, emin, dprec, demax; lia).
  assert (Z.log2 (Zpos m') = Z.log2 (Zpos S) + (ez - e')) as El by (rewrite Em, Z.log2_mul_pow2 by lia; lia).
  apply round_exact_between; [lia|lia| |lia|].
  - rewrite Zdigits2_log by lia. rewrite digits2_pos_log in E'. rewrite El. replace (_ + (ez - e') + 1 + e') with (Z.log2 (Zpos S) + 1 + ez) by lia. lia.
  - rewrite Em. assert (2 ^ (- e') = 2 ^ (- ez) * 2 ^ (ez - e')) as -> by (rewrite <- Z.pow_add_r by lia; f_equal; lia).
    assert (0 < 2 ^ (ez - e')) by (apply Z.pow_pos_nonneg; lia). nia.
Qed.

(** A quotient of two numbers of rows, the first no more than the second. *)
Lemma ddiv_between a b : 0 <= a <= b -> 0 < b < 2 ^ 53 -> dbetween 0 1 (ddiv (Zdouble a) (Zdouble b)).
Proof.
  intros Ha Hb. rewrite (Zdouble_exact b) by lia. destruct (decide (a = 0)) as [->|Na]; [done|]. rewrite Zdouble_exact by lia.
  destruct (exact_spec a ltac:(lia)) as (He1 & Hm1 & E1). destruct (exact_spec b ltac:(lia)) as (He2 & Hm2 & E2).
  set (m1 := exact_mant a) in *. set (e1 := exact_exp a) in *. set (m2 := exact_mant b) in *. set (e2 := exact_exp b) in *.
  assert (Zpos m1 * 2 ^ (- e2) <= Zpos m2 * 2 ^ (- e1)) as Hle.
  { rewrite E1, E2. assert (0 < 2 ^ (- e1)) by (apply Z.pow_pos_nonneg; lia). assert (0 < 2 ^ (- e2)) by (apply Z.pow_pos_nonneg; lia).
    replace (a * 2 ^ (- e1) * 2 ^ (- e2)) with (a * (2 ^ (- e1) * 2 ^ (- e2))) by lia.
    replace (b * 2 ^ (- e2) * 2 ^ (- e1)) with (b * (2 ^ (- e1) * 2 ^ (- e2))) by lia. nia. }
  clearbody m1 e1 m2 e2. unfold ddiv, SFdiv, SFdiv_core_binary. cbn [xorb]. rewrite !Zdigits2_log by lia.
  assert (Z.log2 (Zpos m1) = 52) as -> by (apply Z.log2_unique; lia). assert (Z.log2 (Zpos m2) = 52) as -> by (apply Z.log2_unique; lia).
  replace (52 + 1 + e1 - (52 + 1 + e2)) with (e1 - e2) by lia.
  assert (fexp dprec demax (e1 - e2) = e1 - e2 - 53) as -> by (apply fexp_small; lia). rewrite Z.min_l by lia.
  replace (e1 - e2 - (e1 - e2 - 53)) with 53 by lia. rewrite Z.shiftl_mul_pow2 by lia.
  rewrite (surjective_pairing (Z.div_eucl _ _)). change (fst (Z.div_eucl ?x ?y)) with (x / y). change (snd (Z.div_eucl ?x ?y)) with (x mod y).
  pose proof (Z.div_mod (Zpos m1 * 2 ^ 53) (Zpos m2) ltac:(lia)) as Ed. pose proof (Z.mod_pos_bound (Zpos m1 * 2 ^ 53) (Zpos m2) ltac:(lia)) as Em.
  assert (new_location (Zpos m2) (Zpos m1 * 2 ^ 53 mod Zpos m2) = loc_Exact <-> Zpos m1 * 2 ^ 53 mod Zpos m2 = 0) as Hloc.
  { unfold new_location, new_location_even, new_location_odd. destruct (Z.even _), (Z.eqb_spec (Zpos m1 * 2 ^ 53 mod Zpos m2) 0) as [->|Hne]; done. }
  set (q := Zpos m1 * 2 ^ 53 / Zpos m2) in *. set (r := Zpos m1 * 2 ^ 53 mod Zpos m2) in *. set (l := new_location (Zpos m2) r) in *.
  set (e := e1 - e2 - 53) in *. assert (2 ^ 52 <= q) as Hq by nia. clearbody q r l.
  assert (0 < 2 ^ (e + K)) as HP by (apply Z.pow_pos_nonneg; unfold K; lia).
  (* the quotient is [m1 * 2^53 / m2 * 2^e] *)
  apply (round_between q e l (Zpos m1 * 2 ^ 53 * 2 ^ (e + K)) (Zpos m2)); [lia|lia| | |lia|lia|].
  - rewrite Zdigits2_log by lia. assert (52 <= Z.log2 q) by (apply Z.log2_le_pow2; lia). unfold fexp, dprec. lia.
  - split; [rewrite shr_m_of_loc; lia|]. rewrite shr_m_of_loc. unfold scaled. split; [nia|].
    rewrite <- loc_of_exact. assert (loc_of_shr_record (shr_record_of_loc q l) = l) as -> by (by destruct l as [|[]]). rewrite Hloc. nia.
  - split; [nia|]. destruct (pow_K e ltac:(unfold K; lia)) as (EK & _ & HP2). rewrite EK.
    assert (Zpos m1 * 2 ^ 53 <= 2 ^ (- e) * Zpos m2); [|nia].
    assert (2 ^ (- e) * 2 ^ (- e2) = 2 ^ 53 * 2 ^ (- e1)) as EE by (rewrite <- !Z.pow_add_r by lia; f_equal; lia).
    assert (0 < 2 ^ (- e2)) by (apply Z.pow_pos_nonneg; lia).
    apply (Z.mul_le_mono_pos_r _ _ (2 ^ (- e2))); [done|].
    replace (2 ^ (- e) * Zpos m2 * 2 ^ (- e2)) with (Zpos m2 * (2 ^ (- e) * 2 ^ (- e2))) by lia. rewrite EE.
    replace (Zpos m1 * 2 ^ 53 * 2 ^ (- e2)) with (2 ^ 53 * (Zpos m1 * 2 ^ (- e2))) by lia.
    replace (Zpos m2 * (2 ^ 53 * 2 ^ (- e1))) with (2 ^ 53 * (Zpos m2 * 2 ^ (- e1))) by lia.
    apply Z.mul_le_mono_nonneg_l; [lia|done].
Qed.

Lemma SFcompare_one m e : SFcompare done_ (S754_finite false m e) =
  Some (match Z.compare (-52) e with Lt => Lt | Gt => Gt | Eq => Z.compare (2 ^ 52) (Zpos m) end).
Proof. reflexivity. Qed.

(** A double from 0 to 1 by C's comparisons, and by its mantissa and exponent. *)
Lemma between_0_1 x : valid_binary dprec demax x = true ->
  (deq x x = true /\ dlt x dzero = false /\ dlt done_ x = false) <-> dbetween 0 1 x.
Proof.
  intros Hv. destruct x as [s|[|]| |[|] m e]; cbn [dbetween];
    try (split; [intros (E1 & E2 & E3)|]; done).
  unfold valid_binary, bounded, canonical_mantissa in Hv. apply andb_true_iff in Hv as [Hc%Z.eqb_eq He%Z.leb_le].
  rewrite digits2_pos_log in Hc. unfold fexp, emin, dprec, demax in *. pose proof (Z.log2_nonneg (Zpos m)). pose proof (Z.log2_spec (Zpos m) ltac:(lia)) as [L1 L2].
  assert (Zpos m < 2 ^ 53) as Hm.
  { apply Z.lt_le_trans with (2 ^ Z.succ (Z.log2 (Zpos m))); [done|]. apply Z.pow_le_mono_r; lia. }
  assert (e = -1074 \/ 2 ^ 52 <= Zpos m) as Hn.
  { destruct (decide (e = -1074)); [by left|right]. apply Z.le_trans with (2 ^ Z.log2 (Zpos m)); [|done]. apply Z.pow_le_mono_r; lia. }
  assert (deq (S754_finite false m e) (S754_finite false m e) = true) as ->.
  { unfold deq, SFeqb. cbn [SFcompare]. rewrite Z.compare_refl. change (Pos.compare_cont Eq ?x ?y) with (Pos.compare x y). by rewrite Pos.compare_refl. }
  change (dlt (S754_finite false m e) dzero) with false. unfold dlt, SFltb. rewrite SFcompare_one. split.
  - intros (_ & _ & Hlt). destruct (Z.compare_spec (-52) e) as [<-|L|L]; [|discriminate|].
    + change (2 ^ (- -52)) with (2 ^ 52). destruct (Z.compare_spec (2 ^ 52) (Zpos m)); [lia|discriminate|lia].
    + assert (2 ^ 53 <= 2 ^ (- e)) by (apply Z.pow_le_mono_r; lia). lia.
  - intros (He2 & _ & _ & _ & Hup). split; [reflexivity|]. split; [reflexivity|].
    destruct (Z.compare_spec (-52) e) as [<-|L|L]; [| |reflexivity].
    + change (2 ^ (- -52)) with (2 ^ 52) in Hup. destruct (Z.compare_spec (2 ^ 52) (Zpos m)); [reflexivity|lia|reflexivity].
    + assert (2 ^ (- e) < 2 ^ 52) by (apply Z.pow_lt_mono_r; lia). lia.
Qed.

Lemma dbetween_valid lo hi x : dbetween lo hi x -> valid_binary dprec demax x = true.
Proof.
  destruct x as [s|s| |[|] m e]; try done. intros (He & Hm & Hc & _). unfold valid_binary, bounded, canonical_mantissa.
  apply andb_true_iff. rewrite Z.eqb_eq, Z.leb_le, digits2_pos_log. unfold fexp, emin, dprec, demax. pose proof (Z.log2_nonneg (Zpos m)).
  assert (Z.log2 (Zpos m) < 53) by (apply Z.log2_lt_pow2; lia). split; [|lia]. destruct Hc as [->|Hc]; [lia|].
  assert (52 <= Z.log2 (Zpos m)) by (apply Z.log2_le_pow2; lia). lia.
Qed.

Lemma dle_0_1 x : dbetween 0 1 x -> dle dzero x = true /\ dle x done_ = true.
Proof.
  intros H. pose proof (proj2 (between_0_1 x (dbetween_valid _ _ _ H)) H) as (H1 & H2 & H3).
  split; [|by apply dle_one]. destruct x as [s|s| |[|] m e]; done.
Qed.

(** ** [floor] and [ceil] *)

Lemma floor_ceil_spec lo hi x : dbetween lo hi x -> 1 <= lo -> hi < 2 ^ 53 ->
  lo <= floorZ x <= ceilZ x /\ ceilZ x <= hi /\ ceilZ x <= floorZ x + 1 /\
  dfloor x = Zdouble (floorZ x) /\ dceil x = Zdouble (ceilZ x).
Proof.
  intros Hx Hlo Hhi. destruct x as [s|s| |[|] m e]; cbn [dbetween] in Hx; try lia.
  destruct Hx as (He & Hm & Hc & H1 & H2). unfold dfloor, dceil, floorZ, ceilZ. destruct (Z.leb_spec 0 e) as [L|L].
  - assert (e = 0) as -> by lia. cbn [Z.opp] in *. rewrite Z.pow_0_r, !Z.mul_1_r in *.
    assert (Zdouble (Zpos m) = S754_finite false m 0) as ->; [|by split_and!; try lia].
    rewrite Zdouble_exact by lia. assert (Z.log2 (Zpos m) = 52) as El by (apply Z.log2_unique; lia).
    unfold exact_mant, exact_exp. rewrite El. f_equal. rewrite Z.sub_diag, Z.pow_0_r, Z.mul_1_r. done.
  - assert (0 < 2 ^ (- e)) as HP by (apply Z.pow_pos_nonneg; lia). set (P := 2 ^ (- e)) in *.
    pose proof (Z.div_mod (Zpos m) P ltac:(lia)). pose proof (Z.mod_pos_bound (Zpos m) P HP).
    pose proof (Z.div_mod (- Zpos m) P ltac:(lia)). pose proof (Z.mod_pos_bound (- Zpos m) P HP).
    set (q := Zpos m / P) in *. set (q' := - Zpos m / P) in *. clearbody P q q'. split_and!; [nia..|done|done].
Qed.
