(* ===== verification/SqlWindow.v ===== *)
(** The window functions of [private/item_windowfunc.h]: the tracker of group
    bounds, [ROW_NUMBER], [PERCENT_RANK], [CUME_DIST], [NTILE],
    [PERCENTILE_DISC], [PERCENTILE_CONT], and the phases of [Item_window_func].

    A function object is a record of its members; [clear], [add] and the [val_]
    methods are functions on it.  What a function is computed over is given by
    the arguments of [add]: the value of the argument in the current row, and
    that of the ORDER BY item.  The items, the fields of the temporary table, the
    caches and the comparison of groups are code of other files, and are the
    fields of classes. *)

From Stdlib Require Import Floats.SpecFloat.
From S2P Require Import Prelude CDouble.

(** * [Group_bound_tracker] *)

(** A [Cached_item] has an item and the value it had in an earlier row; comparing
    gives 0 when the two are equal. *)
Class cached_items (Row Cached_item : Type) := {
  test_if_group_changed : Row -> list Cached_item -> Z * list Cached_item;
  cmp_read_only : Row -> Cached_item -> Z
}.

Section Group_bound_tracker.
Context `{cached_items Row Cached_item} {ORDER : Type}.

Record Group_bound_tracker := mkTracker { group_fields : list Cached_item; first_check : bool }.

(** The constructor leaves [first_check] unset. *)
Definition new_tracker (new_Cached_item : ORDER -> Cached_item) (list : list ORDER) (unset : bool) : Group_bound_tracker :=
  mkTracker (new_Cached_item <$> list) unset.
Definition tracker_init (t : Group_bound_tracker) : Group_bound_tracker := mkTracker (group_fields t) true.
Definition check_if_next_group (r : Row) (t : Group_bound_tracker) : bool * Group_bound_tracker :=
  let '(n, g) := test_if_group_changed r (group_fields t) in
  if (-1 <? n) || first_check t then (true, mkTracker g false) else (false, mkTracker g (first_check t)).
Fixpoint compare_loop (r : Row) (li : list Cached_item) : Z :=
  match li with
  | [] => 0
  | p :: li => let res := cmp_read_only r p in if c_true res then res else compare_loop r li
  end.
Definition compare_with_cache (r : Row) (t : Group_bound_tracker) : Z := compare_loop r (group_fields t).
End Group_bound_tracker.

Arguments Group_bound_tracker : clear implicits.

(** * Errors *)

Inductive wf_error := ER_INVALID_NTILE_ARGUMENT | ER_ARGUMENT_NOT_CONSTANT | ER_ARGUMENT_OUT_OF_RANGE.

(** * [ROW_NUMBER], [RANK], [DENSE_RANK] *)

Module Row_number.
Record t := mk { count : Z }.
Definition init : t := mk 0.
Definition clear (_ : t) : t := mk 0.
Definition add (s : t) : bool * t := (false, mk (s64 (count s + 1))).
Definition val_int (s : t) : Z := count s.
End Row_number.

(** [add] of the two is not in the header. *)
Module Rank.
Record t := mk { row_number : Z; cur_rank : Z }.
Definition clear (_ : t) : t := mk 0 1.
Definition val_int (s : t) : Z := cur_rank s.
End Rank.

Module Dense_rank.
Record t := mk { dense_rank : Z; first_add : bool }.
Definition init : t := mk 0 true.
Definition clear (_ : t) : t := mk 0 true.
Definition val_int (s : t) : Z := dense_rank s.
End Dense_rank.

(** * [Partition_row_count] and [Current_row_count] *)

Definition get_row_count (partition_row_count_ : Z) : Z := s64 partition_row_count_.
(** The value and [null_value]. *)
Definition calc_val_real (partition_row_count_ current_row_count : Z) : double * bool :=
  if partition_row_count_ =? 0 then (dzero, true)
  else (ddiv (Zdouble current_row_count) (Zdouble partition_row_count_), false).

(** * [PERCENT_RANK] *)

Module Percent_rank.
Record t := mk { partition_row_count_ : Z; cur_rank : Z; row_number : Z; null_value : bool }.
Definition clear (s : t) : t := mk (partition_row_count_ s) 1 0 (null_value s).
Definition set_partition_row_count (count : Z) (s : t) : t := mk count (cur_rank s) (row_number s) (null_value s).
Definition val_real (s : t) : double * t :=
  let partition_rows := u64 (get_row_count (partition_row_count_ s)) in
  (if 1 <? partition_rows then ddiv (Zdouble (s64 (cur_rank s - 1))) (Zdouble (u64 (partition_rows - 1))) else dzero,
   mk (partition_row_count_ s) (cur_rank s) (row_number s) (negb (0 <? partition_rows))).
End Percent_rank.

(** * [CUME_DIST] *)

Module Cume_dist.
Record t := mk { partition_row_count_ : Z; current_row_count_ : Z; null_value : bool }.
Definition clear (s : t) : t := mk 0 0 (null_value s).
Definition set_partition_row_count (count : Z) (s : t) : t := mk count (current_row_count_ s) (null_value s).
Definition add (s : t) : bool * t := (false, mk (partition_row_count_ s) (u64 (current_row_count_ s + 1)) (null_value s)).
Definition val_real (s : t) : double * t :=
  let '(v, null) := calc_val_real (partition_row_count_ s) (current_row_count_ s) in
  (v, mk (partition_row_count_ s) (current_row_count_ s) null).
End Cume_dist.

(** * [NTILE] *)

Module Ntile.
Record t := mk { partition_row_count_ : Z; current_row_count_ : Z; n_old_val_ : Z; null_value : bool }.
Definition clear (s : t) : t := mk 0 0 0 (null_value s).
Definition set_partition_row_count (count : Z) (s : t) : t := mk count (current_row_count_ s) (n_old_val_ s) (null_value s).
Definition add (s : t) : bool * t :=
  (false, mk (partition_row_count_ s) (u64 (current_row_count_ s + 1)) (n_old_val_ s) (null_value s)).
(** Unsigned division, undefined by zero. *)
Definition udiv (a b : Z) : option Z := if b =? 0 then None else Some (a / b).
(** [num_quantiles] is the argument's value in the current row.  The value, the
    error raised if any, and the object. *)
Definition val_int (num_quantiles : Z) (s : t) : option (Z * option wf_error * t) :=
  let rows := get_row_count (partition_row_count_ s) in
  if rows =? 0 then Some (0, None, mk (partition_row_count_ s) (current_row_count_ s) (n_old_val_ s) true)
  else if (num_quantiles <=? 0) || (negb (u64 num_quantiles =? n_old_val_ s) && (0 <? n_old_val_ s))
  then Some (1, Some ER_INVALID_NTILE_ARGUMENT, s)
  else
    let s' := mk (partition_row_count_ s) (current_row_count_ s) (u64 num_quantiles) false in
    let quantile_size := u64 (rows ÷ num_quantiles) in
    let extra_rows := u64 (rows - quantile_size * num_quantiles) in
    if current_row_count_ s <=? u64 (extra_rows * u64 (quantile_size + 1))
    then q ← udiv (u64 (current_row_count_ s - 1)) (u64 (quantile_size + 1)); Some (s64 (u64 (q + 1)), None, s')
    else q ← udiv (u64 (current_row_count_ s - 1 - extra_rows)) quantile_size; Some (s64 (u64 (q + 1)), None, s').
End Ntile.

(** * [PERCENTILE_DISC] *)

(** An [Item_cache]: [store] and [cache_value] of the ORDER BY item, whose value
    in the current row may be NULL; the value, and [null_value]. *)
Class item_cache (V Cache : Type) := {
  cache_store : option V -> Cache -> Cache;
  cache_clear : Cache -> Cache;
  cache_null_value : Cache -> bool
}.

Module Percentile_disc.
Section Percentile_disc.
Context `{item_cache V Cache}.

Record t := mk {
  partition_row_count_ : Z; current_row_count_ : Z; null_value : bool;
  value : Cache; val_calculated : bool; first_call : bool; prev_value : double
}.

Definition clear (s : t) : t := mk 0 0 (null_value s) (cache_clear (value s)) false true (prev_value s).
Definition set_partition_row_count (count : Z) (s : t) : t :=
  mk count (current_row_count_ s) (null_value s) (value s) (val_calculated s) (first_call s) (prev_value s).

(** The shape of [val_real], [val_int], [val_str], [val_decimal], [get_date] and
    [val_native]: [none] is returned for NULL, and [get] reads the cache. *)
Definition val {A} (none : A) (get : Cache -> A) (arg_is_null : bool) (s : t) : A * t :=
  let set_null b := mk (partition_row_count_ s) (current_row_count_ s) b (value s) (val_calculated s) (first_call s) (prev_value s) in
  if (get_row_count (partition_row_count_ s) =? 0) || arg_is_null then (none, set_null true) else (get (value s), set_null false).
Definition val_real (get : Cache -> double) := val dzero get.
Definition val_int (get : Cache -> Z) := val 0 get.
Definition val_decimal {A} (get : Cache -> option A) := val None get.
Definition val_str {A} (get : Cache -> option A) := val None get.
Definition get_date {A} (get : Cache -> bool * option A) := val (true, None) get.
Definition val_native {A} (get : Cache -> bool * option A) := val (true, None) get.

(** [arg] is the value of the argument and [order] that of the ORDER BY item in
    the current row, [None] for NULL.  Whether it fails, with which error, and
    the object. *)
Definition add (arg : option double) (order : option V) (s : t) : bool * option wf_error * t :=
  match arg with
  | None => (false, None, s)
  | Some arg_val =>
      let '(err, s) :=
        if first_call s then
          let s1 := mk (partition_row_count_ s) (current_row_count_ s) (null_value s) (value s) (val_calculated s) (first_call s) arg_val in
          if dlt done_ arg_val || dlt arg_val dzero then (true, s1)
          else (false, mk (partition_row_count_ s) (current_row_count_ s) (null_value s) (value s) (val_calculated s) false arg_val)
        else (false, s) in
      if (err : bool) then (true, Some ER_ARGUMENT_OUT_OF_RANGE, s)
      else if negb (deq (prev_value s) arg_val) then (true, Some ER_ARGUMENT_NOT_CONSTANT, s)
      else if val_calculated s then (false, None, s)
      else
        let c := cache_store order (value s) in
        if cache_null_value c
        then (false, None, mk (partition_row_count_ s) (current_row_count_ s) (null_value s) c (val_calculated s) (first_call s) (prev_value s))
        else
          let current := u64 (current_row_count_ s + 1) in
          let '(v, null) := calc_val_real (partition_row_count_ s) current in
          (false, None,
           mk (partition_row_count_ s) current null c (dle (prev_value s) v || val_calculated s) (first_call s) (prev_value s))
  end.
End Percentile_disc.
End Percentile_disc.

(** * [PERCENTILE_CONT] *)

Module Percentile_cont.
Section Percentile_cont.
Context `{item_cache V Cache}.

Record t := mk {
  partition_row_count_ : Z; current_row_count_ : Z; null_value : bool;
  floor_value : Cache; ceil_value : Cache; first_call : bool; prev_value : double;
  ceil_val_calculated : bool; floor_val_calculated : bool
}.

Definition clear (s : t) : t :=
  mk 0 0 (null_value s) (cache_clear (floor_value s)) (cache_clear (ceil_value s)) true (prev_value s) false false.
Definition set_partition_row_count (count : Z) (s : t) : t :=
  mk count (current_row_count_ s) (null_value s) (floor_value s) (ceil_value s) (first_call s) (prev_value s)
    (ceil_val_calculated s) (floor_val_calculated s).

(** The row number of the percentile. *)
Definition row_of (prev_value : double) (partition_row_count_ : Z) : double :=
  dadd (Zdouble 1) (dmul prev_value (Zdouble (s64 (get_row_count partition_row_count_ - 1)))).

Definition val_real (get : Cache -> double) (arg_is_null : bool) (s : t) : double * t :=
  let set_null b := mk (partition_row_count_ s) (current_row_count_ s) b (floor_value s) (ceil_value s) (first_call s) (prev_value s)
    (ceil_val_calculated s) (floor_val_calculated s) in
  if (get_row_count (partition_row_count_ s) =? 0) || arg_is_null then (dzero, set_null true)
  else
    let v := row_of (prev_value s) (partition_row_count_ s) in
    (if deq (dceil v) (dfloor v) then get (floor_value s)
     else dadd (dmul (dsub v (dfloor v)) (get (ceil_value s))) (dmul (dsub (dceil v) v) (get (floor_value s))),
     set_null false).

Definition add (arg : option double) (order : option V) (s : t) : bool * option wf_error * t :=
  match arg with
  | None => (false, None, s)
  | Some arg_val =>
      let '(err, s) :=
        if first_call s then
          (dlt done_ arg_val || dlt arg_val dzero,
           mk (partition_row_count_ s) (current_row_count_ s) (null_value s) (floor_value s) (ceil_value s) false arg_val
             (ceil_val_calculated s) (floor_val_calculated s))
        else (false, s) in
      if (err : bool) then (true, Some ER_ARGUMENT_OUT_OF_RANGE, s)
      else if negb (deq (prev_value s) arg_val) then (true, Some ER_ARGUMENT_NOT_CONSTANT, s)
      else
        let fv := if floor_val_calculated s then floor_value s else cache_store order (floor_value s) in
        let cv := if floor_val_calculated s && negb (ceil_val_calculated s) then cache_store order (ceil_value s) else ceil_value s in
        let with_caches := mk (partition_row_count_ s) (current_row_count_ s) (null_value s) fv cv (first_call s) (prev_value s)
          (ceil_val_calculated s) (floor_val_calculated s) in
        if (negb (floor_val_calculated s) && cache_null_value fv) ||
           (floor_val_calculated s && negb (ceil_val_calculated s) && cache_null_value cv)
        then (false, None, with_caches)
        else
          let current := u64 (current_row_count_ s + 1) in
          let v := row_of (prev_value s) (partition_row_count_ s) in
          (false, None,
           mk (partition_row_count_ s) current (null_value s) fv cv (first_call s) (prev_value s)
             (ceil_val_calculated s || deq (Zdouble current) (dceil v))
             (floor_val_calculated s || deq (Zdouble current) (dfloor v)))
  end.
End Percentile_cont.
End Percentile_cont.

(** * [Item_window_func] *)

(** [Item_sum::Sumfunctype] *)
Inductive Sumfunctype :=
| COUNT_FUNC | COUNT_DISTINCT_FUNC | SUM_FUNC | SUM_DISTINCT_FUNC | AVG_FUNC
| AVG_DISTINCT_FUNC | MIN_FUNC | MAX_FUNC | STD_FUNC
| VARIANCE_FUNC | SUM_BIT_FUNC | UDF_SUM_FUNC | GROUP_CONCAT_FUNC
| ROW_NUMBER_FUNC | RANK_FUNC | DENSE_RANK_FUNC | PERCENT_RANK_FUNC
| CUME_DIST_FUNC | NTILE_FUNC | FIRST_VALUE_FUNC | LAST_VALUE_FUNC
| NTH_VALUE_FUNC | LEAD_FUNC | LAG_FUNC | PERCENTILE_CONT_FUNC
| PERCENTILE_DISC_FUNC | SP_AGGREGATE_FUNC | JSON_ARRAYAGG_FUNC
| JSON_OBJECTAGG_FUNC.
#[export] Instance Sumfunctype_eq_dec : EqDecision Sumfunctype.
Proof. solve_decision. Defined.

Definition is_aggr_sum_func (f : Sumfunctype) : bool :=
  match f with
  | COUNT_FUNC | COUNT_DISTINCT_FUNC | SUM_FUNC | SUM_DISTINCT_FUNC | AVG_FUNC | AVG_DISTINCT_FUNC | MIN_FUNC | MAX_FUNC
  | STD_FUNC | VARIANCE_FUNC | SUM_BIT_FUNC | UDF_SUM_FUNC | GROUP_CONCAT_FUNC | JSON_ARRAYAGG_FUNC => true
  | _ => false
  end.
Definition is_frame_prohibited (f : Sumfunctype) : bool :=
  match f with
  | ROW_NUMBER_FUNC | RANK_FUNC | DENSE_RANK_FUNC | PERCENT_RANK_FUNC | CUME_DIST_FUNC | NTILE_FUNC
  | PERCENTILE_CONT_FUNC | PERCENTILE_DISC_FUNC => true
  | _ => false
  end.
Definition requires_special_cursors (f : Sumfunctype) : bool :=
  match f with
  | FIRST_VALUE_FUNC | LAST_VALUE_FUNC | NTH_VALUE_FUNC | LAG_FUNC | LEAD_FUNC => true
  | _ => false
  end.
Definition requires_partition_size (f : Sumfunctype) : bool :=
  match f with
  | PERCENT_RANK_FUNC | CUME_DIST_FUNC | NTILE_FUNC | PERCENTILE_CONT_FUNC | PERCENTILE_DISC_FUNC => true
  | _ => false
  end.
Definition requires_peer_size (f : Sumfunctype) : bool := match f with CUME_DIST_FUNC => true | _ => false end.
Definition is_order_list_mandatory (f : Sumfunctype) : bool :=
  match f with
  | RANK_FUNC | DENSE_RANK_FUNC | PERCENT_RANK_FUNC | CUME_DIST_FUNC | LAG_FUNC | LEAD_FUNC
  | PERCENTILE_CONT_FUNC | PERCENTILE_DISC_FUNC => true
  | _ => false
  end.
Definition only_single_element_order_list (f : Sumfunctype) : bool :=
  match f with PERCENTILE_CONT_FUNC | PERCENTILE_DISC_FUNC => true | _ => false end.

(** The methods of the function computed, [window_func()], on its own state. *)
Class window_function (W : Type) := {
  w_val_real : W -> double * W; w_val_int : W -> Z * W; w_val_str : W -> option (list byte) * W;
  w_val_decimal : W -> option Z * W; w_get_date : W -> bool * option Z * W; w_val_native : W -> bool * option (list byte) * W;
  w_is_null : W -> bool * W; w_null_value : W -> bool
}.
(** The methods of [result_field] on the current row of the temporary table. *)
Class result_fields (F : Type) := {
  f_val_real : F -> double; f_val_int : F -> Z; f_val_str : F -> option (list byte); f_val_decimal : F -> option Z;
  f_get_date : F -> bool * option Z; f_val_native : F -> bool * option (list byte); f_is_null : F -> bool
}.

Module Item_window_func.
Section Item_window_func.
Context `{window_function W} `{result_fields F}.

Record t := mk { window_func : W; result_field : F; force_return_blank : bool; read_value_from_result_field : bool; null_value : bool }.

Definition new_item (win_func : W) (field : F) (null : bool) : t := mk win_func field true false null.
Definition set_phase (blank retrieval : bool) (s : t) : t := mk (window_func s) (result_field s) blank retrieval (null_value s).
Definition set_phase_to_initial (s : t) : t := set_phase true false s.
Definition set_phase_to_computation (s : t) : t := set_phase false false s.
Definition set_phase_to_retrieval (s : t) : t := set_phase false true s.
Definition set_null (b : bool) (s : t) : t :=
  mk (window_func s) (result_field s) (force_return_blank s) (read_value_from_result_field s) b.
Definition set_func (w : W) (s : t) : t :=
  mk w (result_field s) (force_return_blank s) (read_value_from_result_field s) (null_value s).

Definition is_null (s : t) : bool * t :=
  if force_return_blank s then (true, s)
  else if read_value_from_result_field s then (f_is_null (result_field s), s)
  else let '(b, w) := w_is_null (window_func s) in (b, set_func w s).

(** The shape of [val_real] and [val_int]. *)
Definition val_num {A} (blank : A) (of_field : F -> A) (of_func : W -> A * W) (s : t) : A * t :=
  if force_return_blank s then (blank, set_null true s)
  else if read_value_from_result_field s then (of_field (result_field s), set_null (f_is_null (result_field s)) s)
  else let '(res, w) := of_func (window_func s) in (res, set_null (w_null_value w) (set_func w s)).
(** The shape of [val_str], [val_decimal] and [get_date]: the field is not read when it is NULL. *)
Definition val_obj {A} (blank : A) (of_field : F -> A) (of_func : W -> A * W) (s : t) : A * t :=
  if force_return_blank s then (blank, set_null true s)
  else if read_value_from_result_field s then
    (if f_is_null (result_field s) then blank else of_field (result_field s), set_null (f_is_null (result_field s)) s)
  else let '(res, w) := of_func (window_func s) in (res, set_null (w_null_value w) (set_func w s)).

Definition val_real : t -> double * t := val_num dzero f_val_real w_val_real.
Definition val_int : t -> Z * t := val_num 0 f_val_int w_val_int.
Definition val_str : t -> option (list byte) * t := val_obj None f_val_str w_val_str.
Definition val_decimal : t -> option Z * t := val_obj None f_val_decimal w_val_decimal.
Definition get_date : t -> (bool * option Z) * t :=
  val_obj (true, None) f_get_date (fun s => let '(b, d, s') := w_get_date s in ((b, d), s')).
(** [Item::val_native_from_field] and [Item::val_native_from_item]; the second
    asserts that the function's [null_value] is what it returned. *)
Definition val_native_from_field (s : t) : (bool * option (list byte)) * t :=
  if f_is_null (result_field s) then ((true, None), set_null true s)
  else let r := f_val_native (result_field s) in (r, set_null r.1 s).
Definition val_native_from_item (s : t) : option ((bool * option (list byte)) * t) :=
  let '(b, v, w) := w_val_native (window_func s) in
  if Bool.eqb b (w_null_value w) then Some ((b, v), set_null b (set_func w s)) else None.
Definition val_native (s : t) : option ((bool * option (list byte)) * t) :=
  if force_return_blank s then Some ((true, None), set_null true s)
  else if read_value_from_result_field s then Some (val_native_from_field s) else val_native_from_item s.
End Item_window_func.
End Item_window_func.

(** * [NTILE]: the distribution of the rows *)

Module Ntile_spec.
Import Ntile.

(** For every row of the partition, [add] and then [val_int]. *)
Fixpoint rows (k : nat) (num_quantiles : Z) (s : t) : option (list (Z * option wf_error) * t) :=
  match k with
  | O => Some ([], s)
  | S k =>
      let '(_, s) := add s in
      '(v, e, s) ← val_int num_quantiles s;
      '(l, s) ← rows k num_quantiles s;
      Some ((v, e) :: l, s)
  end.

Section spec.
Context (R n : Z) (HR : 0 <= R < 2 ^ 63) (Hn : 0 < n < 2 ^ 63).

(** The number of rows before bucket [b], and the bucket of row [k]. *)
Definition before (b : Z) : Z := (b - 1) * (R / n) + Z.min (b - 1) (R mod n).
Definition bucket (k : Z) : Z :=
  if k <=? R mod n * (R / n + 1) then (k - 1) / (R / n + 1) + 1 else (k - 1 - R mod n) / (R / n) + 1.

Lemma quot_rem : R = n * (R / n) + R mod n /\ 0 <= R mod n < n /\ 0 <= R / n.
Proof using HR Hn.
  pose proof (Z.div_mod R n ltac:(lia)). pose proof (Z.mod_pos_bound R n ltac:(lia)).
  pose proof (Z.div_pos R n ltac:(lia) ltac:(lia)). lia.
Qed.

(** Bucket [b] has the rows after those before it. *)
Lemma bucket_range k : 1 <= k <= R -> before (bucket k) < k <= before (bucket k + 1) /\ 1 <= bucket k <= n.
Proof using HR Hn.
  intros Hk. destruct quot_rem as (E & He & Hq). unfold bucket, before.
  set (q := R / n) in *. set (e := R mod n) in *. clearbody q e.
  destruct (Z.leb_spec k (e * (q + 1))) as [L|L].
  - pose proof (Z.div_mod (k - 1) (q + 1) ltac:(lia)). pose proof (Z.mod_pos_bound (k - 1) (q + 1) ltac:(lia)).
    set (d := (k - 1) / (q + 1)) in *. set (m := (k - 1) mod (q + 1)) in *. clearbody d m.
    assert (0 <= d) by nia. assert (d < e) by nia. rewrite !Z.min_l by lia. nia.
  - assert (0 < q) by nia.
    pose proof (Z.div_mod (k - 1 - e) q ltac:(lia)). pose proof (Z.mod_pos_bound (k - 1 - e) q ltac:(lia)).
    set (d := (k - 1 - e) / q) in *. set (m := (k - 1 - e) mod q) in *. clearbody d m.
    assert (e <= d) by nia. assert (d < n) by nia. rewrite !Z.min_r by lia. nia.
Qed.

Lemma before_mono a b : a <= b -> before a <= before b.
Proof using HR Hn. intros H. destruct quot_rem as (_ & _ & Hq). unfold before. nia. Qed.

Lemma before_end : before (n + 1) = R.
Proof using HR Hn. destruct quot_rem as (E & He & _). unfold before. rewrite Z.min_r by lia. lia. Qed.

Lemma bucket_iff k b : 1 <= k <= R -> bucket k = b <-> before b < k <= before (b + 1).
Proof using HR Hn.
  intros Hk. destruct (bucket_range k Hk) as [[H1 H2] _]. split; [by intros <-|]. intros [H3 H4].
  destruct (Z.lt_trichotomy (bucket k) b) as [L|[->|L]]; [|done|].
  - pose proof (before_mono (bucket k + 1) b ltac:(lia)). lia.
  - pose proof (before_mono (b + 1) (bucket k) ltac:(lia)). lia.
Qed.

Lemma bucket_mono k l : 1 <= k <= l -> l <= R -> bucket k <= bucket l.
Proof using HR Hn.
  intros Hk Hl. destruct (bucket_range k ltac:(lia)) as [[H1 H2] _], (bucket_range l ltac:(lia)) as [[H3 H4] _].
  destruct (Z.le_gt_cases (bucket k) (bucket l)) as [|L]; [done|].
  pose proof (before_mono (bucket l + 1) (bucket k) ltac:(lia)). lia.
Qed.

(** The code computes the bucket of the current row. *)
Lemma val_int_bucket k old null : 1 <= k <= R -> (old = 0 \/ old = n) ->
  val_int n (mk R k old null) = Some (bucket k, None, mk R k n false).
Proof using HR Hn.
  intros Hk Hold. destruct quot_rem as (E & He & Hq). unfold val_int. cbn [partition_row_count_ current_row_count_ n_old_val_ null_value].
  unfold get_row_count. rewrite (swrap_small 64) by (unfold sfits; lia).
  rewrite (proj2 (Z.eqb_neq R 0)), (proj2 (Z.leb_gt n 0)) by lia. rewrite (uwrap_small 64 n) by (unfold ufits; lia).
  assert (negb (n =? old) && (0 <? old) = false) as ->.
  { destruct Hold as [->| ->]; [by rewrite andb_false_r|by rewrite Z.eqb_refl]. }
  cbn [orb]. rewrite Z.quot_div_nonneg by lia.
  assert (R / n <= R) by (apply Z.div_le_upper_bound; nia).
  rewrite (uwrap_small 64 (R / n)) by (unfold ufits; lia).
  replace (R - R / n * n) with (R mod n) by lia. rewrite (uwrap_small 64 (R mod n)) by (unfold ufits; lia).
  rewrite (uwrap_small 64 (R / n + 1)) by (unfold ufits; lia).
  pose proof (bucket_range k Hk) as [_ HB]. unfold bucket in *.
  assert (R mod n * (R / n + 1) <= R) by nia. rewrite (uwrap_small 64 (R mod n * _)) by (unfold ufits; nia).
  destruct (Z.leb_spec k (R mod n * (R / n + 1))) as [L|L].
  - rewrite (uwrap_small 64 (k - 1)) by (unfold ufits; lia). unfold udiv. rewrite (proj2 (Z.eqb_neq _ 0)) by lia. cbn [mbind option_bind].
    rewrite (uwrap_small 64) by (unfold ufits; lia). by rewrite (swrap_small 64) by (unfold sfits; lia).
  - assert (0 < R / n) by nia. rewrite (uwrap_small 64 (k - 1 - R mod n)) by (unfold ufits; nia).
    unfold udiv. rewrite (proj2 (Z.eqb_neq _ 0)) by lia. cbn [mbind option_bind].
    rewrite (uwrap_small 64) by (unfold ufits; lia). by rewrite (swrap_small 64) by (unfold sfits; lia).
Qed.

Lemma rows_bucket j k old null : 0 <= k -> k + Z.of_nat j <= R -> (old = 0 \/ old = n) ->
  exists s, rows j n (mk R k old null) = Some ((fun v => (bucket v, None)) <$> seqZ (k + 1) (Z.of_nat j), s).
Proof using HR Hn.
  revert k old null. induction j as [|j IH]; intros k old null Hk Hj Hold; [by eexists|]. cbn [rows add].
  cbn [partition_row_count_ current_row_count_ n_old_val_ null_value]. rewrite (uwrap_small 64) by (unfold ufits; lia).
  rewrite val_int_bucket by (lia || done). cbn [mbind option_bind].
  destruct (IH (k + 1) n false) as [s ->]; [lia|lia|by right|]. cbn [mbind option_bind]. exists s.
  rewrite (seqZ_cons (k + 1)) by lia. rewrite fmap_cons. by replace (Z.pred (Z.of_nat (S j))) with (Z.of_nat j) by lia.
Qed.
End spec.

Lemma length_filter_fmap {A B} (P : B -> Prop) `{forall x, Decision (P x)} (f : A -> B) l :
  length (filter P (f <$> l)) = length (filter (fun x => P (f x)) l).
Proof. induction l as [|x l IH]; [done|]. rewrite fmap_cons, !filter_cons. case_decide; cbn [length]; by rewrite IH. Qed.

(** How many of the integers in a range are in a smaller one. *)
Lemma length_filter_seqZ a b lo len : lo <= a + 1 -> a <= b -> b <= lo + len - 1 ->
  Z.of_nat (length (filter (fun k => a < k <= b) (seqZ lo len))) = b - a.
Proof.
  intros H1 H2 H3. replace len with (Z.of_nat (Z.to_nat len)) in * by lia. generalize dependent lo. generalize dependent a.
  induction (Z.to_nat len) as [|m IH]; intros a Hab lo H1 H3; [assert (a = b) as -> by lia; rewrite seqZ_nil by lia; simpl; lia|].
  rewrite seqZ_cons by lia. replace (Z.pred (Z.of_nat (S m))) with (Z.of_nat m) by lia. rewrite filter_cons. case_decide as Hlo.
  - assert (lo = a + 1) as -> by lia. cbn [length].
    rewrite (list_filter_ext_in _ (fun k => a + 1 < k <= b)).
    + rewrite Nat2Z.inj_succ, (IH (a + 1)); lia.
    + intros x Hx. apply elem_of_seqZ in Hx. lia.
  - destruct (decide (a = b)) as [->|].
    + rewrite filter_none by (intros; lia). cbn. lia.
    + rewrite IH; lia.
Qed.
End Ntile_spec.

(** C30.  [NTILE(n)] over a partition of [R] rows, computed by [clear],
    [set_partition_row_count] and, for each row, [add] and [val_int]: no error, no
    division by zero and no overflow; the buckets are numbered from 1 to [n] and
    do not decrease from row to row; and every bucket [b] has [R / n] rows, one
    more if [b] is among the first [R mod n]. *)
Theorem ntile_distribution R n s :
  0 <= R < 2 ^ 63 -> 0 < n < 2 ^ 63 ->
  exists vs s', Ntile_spec.rows (Z.to_nat R) n (Ntile.set_partition_row_count R (Ntile.clear s)) =
      Some ((fun v => (v, None)) <$> vs, s') /\
    Z.of_nat (length vs) = R /\ StronglySorted Z.le vs /\ Forall (fun v => 1 <= v <= n) vs /\
    forall b, 1 <= b <= n ->
      Z.of_nat (length (filter (fun v => v = b) vs)) = R / n + (if b <=? R mod n then 1 else 0).
Proof.
  intros HR Hn. destruct (Ntile_spec.rows_bucket R n HR Hn (Z.to_nat R) 0 0 (Ntile.null_value s)) as [s' E]; [lia|lia|by left|].
  exists (Ntile_spec.bucket R n <$> seqZ 1 R), s'. split_and!.
  - rewrite <- list_fmap_compose. unfold Ntile.clear, Ntile.set_partition_row_count. cbn. rewrite E. by rewrite Z2Nat.id by lia.
  - rewrite length_fmap, length_seqZ. lia.
  - assert (forall j lo, 1 <= lo -> lo + Z.of_nat j <= R + 1 -> StronglySorted Z.le (Ntile_spec.bucket R n <$> seqZ lo (Z.of_nat j))) as G.
    { induction j as [|j IH]; intros lo Hlo Hj; [constructor|]. rewrite seqZ_cons, fmap_cons by lia.
      replace (Z.pred (Z.of_nat (S j))) with (Z.of_nat j) by lia. constructor; [apply IH; lia|].
      apply Forall_fmap, Forall_forall. intros x Hx%elem_of_seqZ. cbn. apply Ntile_spec.bucket_mono; lia. }
    specialize (G (Z.to_nat R) 1). rewrite Z2Nat.id in G by lia. apply G; lia.
  - apply Forall_fmap, Forall_forall. intros x Hx%elem_of_seqZ. apply Ntile_spec.bucket_range; lia.
  - intros b Hb. rewrite Ntile_spec.length_filter_fmap.
    rewrite (list_filter_ext_in _ (fun k => Ntile_spec.before R n b < k <= Ntile_spec.before R n (b + 1))).
    + destruct (Ntile_spec.quot_rem R n HR Hn) as (Eq & He & Hq).
      pose proof (Ntile_spec.before_mono R n HR Hn b (b + 1) ltac:(lia)). pose proof (Ntile_spec.before_mono R n HR Hn (b + 1) (n + 1) ltac:(lia)) as HE.
      rewrite (Ntile_spec.before_end R n HR Hn) in HE.
      pose proof (Ntile_spec.before_mono R n HR Hn 1 b ltac:(lia)) as HB. change (Ntile_spec.before R n 1) with (0 * (R / n) + Z.min 0 (R mod n)) in HB.
      rewrite Z.min_l in HB by lia. rewrite Ntile_spec.length_filter_seqZ by lia. unfold Ntile_spec.before.
      destruct (Z.leb_spec b (R mod n)); [rewrite !Z.min_l by lia; lia|]. rewrite !Z.min_r by lia. lia.
    + intros x Hx%elem_of_seqZ. apply Ntile_spec.bucket_iff; lia.
Qed.

Lemma ntile_distribution_witness :
  exists vs s', Ntile_spec.rows 10 4 (Ntile.set_partition_row_count 10 (Ntile.clear (Ntile.mk 7 7 7 true))) = Some ((fun v => (v, None)) <$> vs, s') /\
    Z.of_nat (length (filter (fun v => v = 2) vs)) = 3 /\ Z.of_nat (length (filter (fun v => v = 3) vs)) = 2.
Proof.
  destruct (ntile_distribution 10 4 (Ntile.mk 7 7 7 true)) as (vs & s' & E & _ & _ & _ & H); [lia..|].
  exists vs, s'. split; [exact E|]. split; [exact (H 2 ltac:(lia))|exact (H 3 ltac:(lia))].
Defined.

(** The other results of [NTILE]: NULL on an empty partition, without a look at
    the argument; an error, and the value 1, when the argument is not positive or
    is not the one of an earlier row of the partition. *)
Theorem ntile_errors n s :
  0 <= Ntile.partition_row_count_ s < 2 ^ 63 -> sfits 64 n -> 0 <= Ntile.n_old_val_ s < 2 ^ 63 ->
  if decide (Ntile.partition_row_count_ s = 0)
  then exists s', Ntile.val_int n s = Some (0, None, s') /\ Ntile.null_value s' = true
  else if decide (n <= 0 \/ Ntile.n_old_val_ s <> 0 /\ Ntile.n_old_val_ s <> n)
  then Ntile.val_int n s = Some (1, Some ER_INVALID_NTILE_ARGUMENT, s)
  else forall r, Ntile.val_int n s = Some r -> r.1.2 = None /\ Ntile.null_value r.2 = false /\ Ntile.n_old_val_ r.2 = n.
Proof.
  intros HR Hn Ho. unfold Ntile.val_int, get_row_count. rewrite (swrap_small 64) by (unfold sfits; lia).
  destruct (decide (Ntile.partition_row_count_ s = 0)) as [->|NR]; [by eexists|]. rewrite (proj2 (Z.eqb_neq _ _)) by done.
  destruct (decide _) as [H|H].
  - assert ((n <=? 0) || (negb (u64 n =? Ntile.n_old_val_ s) && (0 <? Ntile.n_old_val_ s)) = true) as ->; [|done].
    destruct (Z.leb_spec n 0); [done|]. rewrite (uwrap_small 64) by (unfold ufits, sfits in *; lia).
    destruct H as [?|[? ?]]; [lia|]. rewrite (proj2 (Z.eqb_neq _ _)), (proj2 (Z.ltb_lt _ _)) by lia. done.
  - assert ((n <=? 0) || (negb (u64 n =? Ntile.n_old_val_ s) && (0 <? Ntile.n_old_val_ s)) = false) as ->.
    { rewrite (uwrap_small 64) by (unfold ufits, sfits in *; lia). destruct (Z.leb_spec n 0); [lia|]. cbn.
      destruct (Z.eqb_spec n (Ntile.n_old_val_ s)); [done|]. cbn. apply Z.ltb_ge. lia. }
    intros r. unfold Ntile.udiv. rewrite (uwrap_small 64 n) by (unfold ufits, sfits in *; lia).
    destruct (_ <=? _); (destruct (_ =? _); [done|]); by intros [= <-].
Qed.

Lemma ntile_errors_witness :
  Ntile.val_int (-1) (Ntile.mk 10 1 0 false) = Some (1, Some ER_INVALID_NTILE_ARGUMENT, Ntile.mk 10 1 0 false) /\
  Ntile.val_int 3 (Ntile.mk 10 2 4 false) = Some (1, Some ER_INVALID_NTILE_ARGUMENT, Ntile.mk 10 2 4 false).
Proof.
  split; [exact (ntile_errors (-1) (Ntile.mk 10 1 0 false) ltac:(cbn; lia) ltac:(unfold sfits; lia) ltac:(cbn; lia))|].
  exact (ntile_errors 3 (Ntile.mk 10 2 4 false) ltac:(cbn; lia) ltac:(unfold sfits; lia) ltac:(cbn; lia)).
Defined.

(** * The tracker marks the groups *)

Section tracker.
Context `{cached_items Row Cached_item} {V : Type} `{EqDecision V}.
Context (item_value : Cached_item -> Row -> V) (cached_value : Cached_item -> V).

(** What the comparisons promise: the first finds a change when there is one, and
    leaves the values of the current row in the caches; the second is 0 when the
    values are equal. *)
Class CachedLaws : Prop := {
  test_changed r g : -1 < (test_if_group_changed r g).1 <-> exists c, c ∈ g /\ item_value c r <> cached_value c;
  test_updates r g : Forall2 (fun c c' => item_value c' = item_value c /\ cached_value c' = item_value c r) g (test_if_group_changed r g).2;
  cmp_zero r c : cmp_read_only r c = 0 <-> item_value c r = cached_value c
}.
Context `{!CachedLaws}.

(** The values of a row in the columns of the tracker. *)
Definition group_key (g : list Cached_item) (r : Row) : list V := (fun c => item_value c r) <$> g.

Fixpoint check_all (rows : list Row) (t : Group_bound_tracker Cached_item) : list bool * Group_bound_tracker Cached_item :=
  match rows with
  | [] => ([], t)
  | r :: rows => let '(b, t) := check_if_next_group r t in let '(bs, t) := check_all rows t in (b :: bs, t)
  end.

Lemma key_eq_iff g r : (exists c, c ∈ g /\ item_value c r <> cached_value c) <-> group_key g r <> cached_value <$> g.
Proof.
  unfold group_key. induction g as [|c g IH]; [set_solver|]. rewrite !fmap_cons. split.
  - intros (d & [->|Hd]%elem_of_cons & Hne); [congruence|]. intros [= _ E]. destruct IH as [IH _]. by apply IH; [exists d|].
  - intros Hne. destruct (decide (item_value c r = cached_value c)) as [E|E]; [|exists c; split; [left|done]].
    destruct IH as [_ IH]. destruct IH as (d & ? & ?); [intros E2; apply Hne; congruence|]. exists d. split; [by right|done].
Qed.

Lemma check_step r t :
  let '(b, t') := check_if_next_group r t in
  b = first_check t || bool_decide (group_key (group_fields t) r <> cached_value <$> group_fields t) /\
  first_check t' = false /\ (forall r', group_key (group_fields t') r' = group_key (group_fields t) r') /\
  cached_value <$> group_fields t' = group_key (group_fields t) r.
Proof.
  unfold check_if_next_group. pose proof (test_changed r (group_fields t)) as HC. pose proof (test_updates r (group_fields t)) as HU.
  destruct (test_if_group_changed r (group_fields t)) as [n g]. cbn [fst snd] in *. rewrite key_eq_iff in HC.
  assert ((forall r', group_key g r' = group_key (group_fields t) r') /\ cached_value <$> g = group_key (group_fields t) r) as [E1 E2].
  { unfold group_key. split; [intros r'|]; clear HC; induction HU as [|c c' l l' [Hi Hc] _ IH]; try done; rewrite !fmap_cons, ?IH; by rewrite ?Hi, ?Hc. }
  destruct (first_check t) eqn:Ef; rewrite ?orb_true_r, ?orb_false_r; cbn.
  - done.
  - destruct (Z.ltb_spec (-1) n) as [L|L]; cbn; (split_and!; [|done..]); symmetry;
      [rewrite bool_decide_true by tauto|rewrite bool_decide_false by (intros Hx; apply HC in Hx; lia)]; done.
Qed.

(** After [init], the calls of [check_if_next_group] for the rows in turn return
    true for the first row and for those whose values are not all those of the
    row before, the first call not depending on what the caches held; and
    [compare_with_cache] for another row then returns 0 exactly when that row is in the
    group of the last one. *)
Lemma check_all_spec rows t :
  let '(bs, t') := check_all rows t in
  length bs = length rows /\
  (forall r', group_key (group_fields t') r' = group_key (group_fields t) r') /\
  (forall i r, rows !! i = Some r -> bs !! i = Some (match i with
     | O => first_check t || bool_decide (group_key (group_fields t) r <> cached_value <$> group_fields t)
     | S j => bool_decide (group_key (group_fields t) <$> rows !! j <> Some (group_key (group_fields t) r)) end)) /\
  cached_value <$> group_fields t' = match last rows with Some r => group_key (group_fields t) r | None => cached_value <$> group_fields t end.
Proof.
  revert t. induction rows as [|r rows IH]; intros t; cbn [check_all]; [by split_and!|].
  pose proof (check_step r t) as HS. destruct (check_if_next_group r t) as [b t1]. destruct HS as (-> & Hf & Hk & Hc).
  specialize (IH t1). destruct (check_all rows t1) as [bs t2]. destruct IH as (Hl & Hk2 & Hi & Hlast).
  split_and!.
  - cbn. by rewrite Hl.
  - intros r'. by rewrite Hk2, Hk.
  - intros [|i] r' Hr; [injection Hr as ->; done|].
    change ((?b :: bs) !! S i) with (bs !! i). change ((r :: rows) !! S i) with (rows !! i) in Hr.
    rewrite (Hi i r' Hr). f_equal. rewrite Hf, Hc, Hk. cbn [orb].
    destruct i as [|j]; cbn; [apply bool_decide_ext; split; congruence|].
    destruct (rows !! j) as [rj|]; cbn; [by rewrite Hk|done].
  - rewrite Hlast. destruct rows as [|r2 rows]; [done|]. change (last (r :: r2 :: rows)) with (last (r2 :: rows)).
    destruct (last (r2 :: rows)) as [r'|] eqn:El; [by rewrite Hk|]. by apply last_None in El.
Qed.

(** After [init], [check_if_next_group] called for the rows in turn returns true
    for the first row, whatever the caches held, and then for exactly the rows
    that differ from the row before in some column; and [compare_with_cache] for
    another row, which changes nothing, returns 0 exactly when that row has the
    values of the last row checked. *)
Theorem tracker_marks_groups rows t :
  let '(bs, t') := check_all rows (tracker_init t) in
  length bs = length rows /\ head bs = (fun _ => true) <$> head rows /\
  (forall i r r', rows !! i = Some r -> rows !! S i = Some r' ->
     bs !! S i = Some (bool_decide (group_key (group_fields t) r <> group_key (group_fields t) r'))) /\
  (forall r r', last rows = Some r -> compare_with_cache r' t' = 0 <-> group_key (group_fields t) r' = group_key (group_fields t) r).
Proof.
  pose proof (check_all_spec rows (tracker_init t)) as HS. destruct (check_all rows (tracker_init t)) as [bs t'].
  destruct HS as (Hl & Hk & Hi & Hlast). cbn [tracker_init group_fields first_check orb] in *. split_and!; [done| | |].
  - destruct rows as [|r rows]; [by destruct bs|]. specialize (Hi 0%nat r eq_refl). by destruct bs as [|b bs]; cbn in *; simplify_eq.
  - intros i r r' Hr Hr'. rewrite (Hi (S i) r' Hr'), Hr. cbn. f_equal. apply bool_decide_ext. split; congruence.
  - intros r r' Er. rewrite Er in Hlast. rewrite <- Hlast, <- Hk. unfold compare_with_cache, group_key.
    clear Hk Hlast Hi Hl. induction (group_fields t') as [|c g IH]; [done|]. cbn [compare_loop]. rewrite !fmap_cons.
    pose proof (cmp_zero r' c) as HC. destruct (c_true (cmp_read_only r' c)) eqn:Ec.
    + apply c_true_spec in Ec. split; [done|]. intros [= E _]. tauto.
    + apply c_true_false in Ec. rewrite IH. apply HC in Ec. rewrite Ec. split; [by intros ->|by intros [= ]].
Qed.
End tracker.

(** Columns of integers: a [Cached_item] is a column number and a value. *)
Module Concrete_items.
Definition item : Type := nat * Z.
Definition value_of (c : item) (r : list Z) : Z := nth c.1 r 0.
Fixpoint test (r : list Z) (g : list item) : Z * list item :=
  match g with
  | [] => (-1, [])
  | c :: g => let '(n, g') := test r g in
              (if -1 <? n then n + 1 else if value_of c r =? c.2 then -1 else 0, (c.1, value_of c r) :: g')
  end.
End Concrete_items.

#[export] Instance concrete_items : cached_items (list Z) Concrete_items.item := {|
  test_if_group_changed := Concrete_items.test;
  cmp_read_only r c := if Concrete_items.value_of c r <? c.2 then -1 else if c.2 <? Concrete_items.value_of c r then 1 else 0
|}.

#[export] Instance concrete_items_laws : CachedLaws Concrete_items.value_of snd.
Proof.
  split.
  - intros r g. cbn [test_if_group_changed concrete_items]. induction g as [|c g IH]; [set_solver by lia|]. cbn.
    destruct (Concrete_items.test r g) as [n g']. cbn [fst] in *. destruct (Z.ltb_spec (-1) n) as [L|L].
    + split; [|lia]. intros _. destruct IH as [IH _]. destruct (IH L) as (d & ? & ?). exists d. split; [by right|done].
    + destruct (Z.eqb_spec (Concrete_items.value_of c r) c.2) as [E|E].
      * split; [lia|]. intros (d & [->|Hd]%elem_of_cons & Hne); [done|]. destruct IH as [_ IH]. assert (-1 < n); [|lia]. apply IH. by exists d.
      * split; [|lia]. intros _. exists c. split; [left|done].
  - intros r g. cbn [test_if_group_changed concrete_items]. induction g as [|c g IH]; [constructor|]. cbn.
    destruct (Concrete_items.test r g) as [n g']. by constructor.
  - intros r c. cbn. destruct (Z.ltb_spec (Concrete_items.value_of c r) c.2), (Z.ltb_spec c.2 (Concrete_items.value_of c r)); lia.
Qed.

Lemma tracker_marks_groups_witness :
  let rows := [[0; 5]; [0; 6]; [1; 6]; [1; 6]] in
  let t := mkTracker [(0%nat, 0); (1%nat, 5)] false in
  (check_all rows (tracker_init t)).1 = [true; true; true; false] /\ head (check_all rows (tracker_init t)).1 = Some true.
Proof.
  split; [reflexivity|].
  exact (proj1 (proj2 (tracker_marks_groups Concrete_items.value_of snd [[0; 5]; [0; 6]; [1; 6]; [1; 6]] (mkTracker [(0%nat, 0); (1%nat, 5)] false)))).
Defined.

(** * The percentiles *)

(** What a cache promises: after [store] and [cache_value] it has the item's value. *)
Class CacheLaws {V Cache} (C : item_cache V Cache) (cache_val : Cache -> option V) : Prop := {
  store_val v c : cache_val (cache_store v c) = v;
  store_null v c : cache_null_value (cache_store v c) = bool_decide (v = None)
}.

(** A number from 0 to 1. *)
Definition percentile (p : double) : Prop := deq p p = true /\ dlt p dzero = false /\ dlt done_ p = false.
#[export] Instance percentile_dec p : Decision (percentile p).
Proof. unfold percentile. apply _. Defined.

(** The values that are not NULL. *)
Definition values {V} (rows : list (option V)) : list V := omap id rows.

Module Percentile_disc_spec.
Import Percentile_disc.
Section spec.
Context `{C : item_cache V Cache} (cache_val : Cache -> option V) `{!CacheLaws C cache_val}.
Context (p : double) (n : Z) (Hp : percentile p) (Hn : 0 < n < 2 ^ 53).

(** [add] for every row, with the constant argument [p]. *)
Fixpoint add_all (rows : list (option V)) (s : @t Cache) : list (bool * option wf_error) * @t Cache :=
  match rows with
  | [] => ([], s)
  | o :: rows => let '(b, e, s) := add (Some p) o s in let '(l, s) := add_all rows s in ((b, e) :: l, s)
  end.

(** The cumulative distribution of the [k]th value is at least [p]. *)
Definition reached (k : Z) : bool := dle p (ddiv (Zdouble k) (Zdouble n)).

Definition ready (c : Z) (s : @t Cache) : Prop :=
  partition_row_count_ s = n /\ current_row_count_ s = c /\ val_calculated s = false /\ (first_call s = false -> prev_value s = p).

Lemma add_all_done rows s :
  val_calculated s = true -> first_call s = false -> prev_value s = p ->
  let '(l, s') := add_all rows s in Forall (fun r => r = (false, None)) l /\ s' = s.
Proof using Hp.
  intros Hv Hf Hpv. induction rows as [|o rows IH]; [by split|]. cbn [add_all]. unfold add. rewrite Hf, Hpv.
  destruct Hp as (-> & _ & _). cbn [negb]. rewrite Hv. destruct (add_all rows s) as [l s']. destruct IH as [IH1 IH2].
  split; [by constructor|done].
Qed.

Lemma add_ready o c s : ready c s -> 0 <= c < 2 ^ 53 ->
  exists s', add (Some p) o s = (false, None, s') /\ first_call s' = false /\ prev_value s' = p /\ partition_row_count_ s' = n /\
    match o with
    | None => ready c s'
    | Some v => cache_val (value s') = Some v /\ current_row_count_ s' = c + 1 /\ val_calculated s' = reached (c + 1)
    end.
Proof.
  intros (E1 & E2 & E3 & E4) Hc. destruct Hp as (H1 & H2 & H3). unfold add.
  assert (exists s1, (if first_call s then
     if dlt done_ p || dlt p dzero
     then (true, mk (partition_row_count_ s) (current_row_count_ s) (null_value s) (value s) (val_calculated s) (first_call s) p)
     else (false, mk (partition_row_count_ s) (current_row_count_ s) (null_value s) (value s) (val_calculated s) false p)
     else (false, s)) = (false, s1) /\ first_call s1 = false /\ prev_value s1 = p /\ partition_row_count_ s1 = n /\ current_row_count_ s1 = c /\
     val_calculated s1 = false) as (s1 & -> & F1 & F2 & F3 & F4 & F5).
  { destruct (first_call s) eqn:Ef; [rewrite H2, H3; by eexists|]. exists s. by rewrite E4. }
  clear E1 E2 E3 E4. rewrite F2, H1, F5. cbn [negb]. rewrite store_null. destruct o as [v|]; [change (option_list (Some v)) with [v]|].
  - rewrite bool_decide_false by done. rewrite F4, F3, (uwrap_small 64) by (unfold ufits; lia). unfold calc_val_real.
    rewrite (proj2 (Z.eqb_neq _ _)) by lia. eexists. split; [done|]. cbn. rewrite orb_false_r, store_val. done.
  - rewrite bool_decide_true by done. eexists. split; [done|]. cbn. done.
Qed.

Lemma add_all_spec rows : forall c s,
  ready c s -> 0 <= c -> c + Z.of_nat (length (values rows)) < 2 ^ 53 ->
  let '(l, s') := add_all rows s in
  Forall (fun r => r = (false, None)) l /\ partition_row_count_ s' = n /\
  ((val_calculated s' = true /\ exists k v, values rows !! k = Some v /\ reached (c + Z.of_nat k + 1) = true /\
      (forall j, (j < k)%nat -> reached (c + Z.of_nat j + 1) = false) /\ cache_val (value s') = Some v) \/
   (val_calculated s' = false /\ forall j, (j < length (values rows))%nat -> reached (c + Z.of_nat j + 1) = false)).
Proof using Hp Hn CacheLaws0.
  induction rows as [|o rows IH]; intros c s Hr Hc Hl.
  { cbn. split_and!; [done|apply Hr|right; split; [apply Hr|intros; lia]]. }
  cbn [add_all]. destruct (add_ready o c s Hr) as (s1 & -> & F1 & F2 & F3 & F4); [lia|]. destruct o as [v|]; cbn [values omap list_omap id] in *.
  - fold (values rows) in *. cbn [length] in Hl. destruct F4 as (Fv & Fc & Fr). destruct (reached (c + 1)) eqn:Er.
    + pose proof (add_all_done rows s1 Fr F1 F2) as HD. destruct (add_all rows s1) as [l s']. destruct HD as [HD ->].
      split_and!; [by constructor|done|left]. split; [done|]. exists 0%nat, v. split_and!; [done|by replace (c + Z.of_nat 0 + 1) with (c + 1) by lia|intros; lia|done].
    + specialize (IH (c + 1) s1 ltac:(done) ltac:(lia) ltac:(lia)). destruct (add_all rows s1) as [l s']. destruct IH as (Hf & Hn' & HX).
      split_and!; [by constructor|done|]. destruct HX as [(Hv & k & w & Ek & Hk & Hj & Hw)|(Hv & Hj)]; [left|right]; (split; [done|]).
      * exists (S k), w. split_and!; [done| | |done].
        -- rewrite <- Hk. f_equal. lia.
        -- intros [|j] Hlt; [by replace (c + Z.of_nat 0 + 1) with (c + 1) by lia|]. rewrite <- (Hj j) by lia. f_equal. lia.
      * intros [|j] Hlt; [by replace (c + Z.of_nat 0 + 1) with (c + 1) by lia|]. cbn [length] in Hlt. rewrite <- (Hj j) by lia. f_equal. lia.
  - fold (values rows) in *. specialize (IH c s1 F4 Hc Hl). destruct (add_all rows s1) as [l s']. destruct IH as (Hf & Hn' & HX).
    split_and!; [by constructor|done|done].
Qed.

(** The last value reaches every percentile: [n / n] is one. *)
Lemma reached_last : reached n = true.
Proof using Hp Hn. unfold reached. rewrite ddiv_Zdouble_self by lia. destruct Hp as (H1 & _ & H3). by apply dle_one. Qed.

Lemma start_ready s : ready 0 (set_partition_row_count n (clear s)).
Proof. by split_and!. Qed.
End spec.
End Percentile_disc_spec.

(** [PERCENTILE_DISC(p)], [p] a number from 0 to 1, over a partition with [n] rows
    whose ORDER BY value is not NULL: [add] succeeds for every row, and the value
    is that of the first row, NULLs left out, whose number divided by [n], in
    double precision, is at least [p]. *)
Theorem percentile_disc_first_reached `{C : item_cache V Cache} (cache_val : Cache -> option V) `{!CacheLaws C cache_val} p rows s :
  percentile p -> 0 < Z.of_nat (length (values rows)) < 2 ^ 53 ->
  let n := Z.of_nat (length (values rows)) in
  let '(l, s') := Percentile_disc_spec.add_all p rows (Percentile_disc.set_partition_row_count n (Percentile_disc.clear s)) in
  Forall (fun r => r = (false, None)) l /\
  exists k v, values rows !! k = Some v /\ Percentile_disc_spec.reached p n (Z.of_nat k + 1) = true /\
    (forall j, (j < k)%nat -> Percentile_disc_spec.reached p n (Z.of_nat j + 1) = false) /\
    cache_val (Percentile_disc.value s') = Some v /\
    forall A (none : A) get, exists s2, Percentile_disc.val none get false s' = (get (Percentile_disc.value s'), s2) /\ Percentile_disc.null_value s2 = false.
Proof.
  intros Hp Hn n. pose proof (Percentile_disc_spec.add_all_spec cache_val p n Hp Hn rows 0 _ (Percentile_disc_spec.start_ready p n s) ltac:(lia) ltac:(lia)) as HS.
  destruct (Percentile_disc_spec.add_all _ _ _) as [l s']. destruct HS as (Hf & Hpn & HX). split; [done|].
  destruct HX as [(Hv & k & v & Ek & Hk & Hj & Hw)|(Hv & Hj)].
  - exists k, v. split_and!; [done|by rewrite <- Hk|intros j Hlt; by rewrite <- (Hj j Hlt)|done|].
    intros A none get. unfold Percentile_disc.val, get_row_count. rewrite Hpn, (swrap_small 64) by (unfold sfits; lia).
    rewrite (proj2 (Z.eqb_neq _ _)) by lia. by eexists.
  - specialize (Hj (length (values rows) - 1)%nat ltac:(lia)).
    replace (0 + Z.of_nat (length (values rows) - 1) + 1) with n in Hj by lia. by rewrite Percentile_disc_spec.reached_last in Hj.
Qed.

(** However the rows and NULLs are ordered, by the time the last of the [n] values
    of the partition has been added the percentile has been found, for every
    percentile: no partition ends with [val_calculated] still false. *)
Theorem percentile_disc_terminates `{C : item_cache V Cache} (cache_val : Cache -> option V) `{!CacheLaws C cache_val} p rows s :
  percentile p -> 0 < Z.of_nat (length (values rows)) < 2 ^ 53 ->
  Percentile_disc.val_calculated
    (Percentile_disc_spec.add_all p rows (Percentile_disc.set_partition_row_count (Z.of_nat (length (values rows))) (Percentile_disc.clear s))).2 = true.
Proof.
  intros Hp Hn. set (n := Z.of_nat (length (values rows))).
  pose proof (Percentile_disc_spec.add_all_spec cache_val p n Hp Hn rows 0 _ (Percentile_disc_spec.start_ready p n s) ltac:(lia) ltac:(lia)) as HS.
  destruct (Percentile_disc_spec.add_all _ _ _) as [l s']. destruct HS as (_ & _ & [[Hv _]|[_ Hj]]); [done|].
  specialize (Hj (length (values rows) - 1)%nat ltac:(lia)).
  replace (0 + Z.of_nat (length (values rows) - 1) + 1) with n in Hj by lia. by rewrite Percentile_disc_spec.reached_last in Hj.
Qed.

(** A cache of an optional value. *)
#[export] Instance option_cache V : item_cache V (option V) := {|
  cache_store v _ := v; cache_clear _ := None; cache_null_value c := bool_decide (c = None)
|}.
#[export] Instance option_cache_laws V : CacheLaws (option_cache V) id.
Proof. by split. Qed.

(** One half, and a partition of four rows with a NULL. *)
Definition half : double := S754_finite false 4503599627370496 (-53).
Definition example_rows : list (option Z) := [Some 10; None; Some 20; Some 30; Some 40].
Definition example_disc : @Percentile_disc.t (option Z) := Percentile_disc.mk 3 3 true (Some 5) true false done_.

Lemma percentile_disc_first_reached_witness :
  percentile half /\ exists k v, values example_rows !! k = Some v /\ Percentile_disc_spec.reached half 4 (Z.of_nat k + 1) = true /\ v = 20.
Proof.
  split; [vm_compute; done|].
  destruct (percentile_disc_first_reached id half example_rows example_disc ltac:(vm_compute; done) ltac:(cbn; lia)) as (_ & k & v & Ek & Hk & _ & Hv & _).
  exists k, v. split; [exact Ek|]. split; [exact Hk|]. vm_compute in Hv. congruence.
Defined.

Lemma percentile_disc_terminates_witness :
  Percentile_disc.val_calculated (Percentile_disc_spec.add_all half example_rows (Percentile_disc.set_partition_row_count 4 (Percentile_disc.clear example_disc))).2 = true.
Proof. exact (percentile_disc_terminates id half example_rows example_disc ltac:(vm_compute; done) ltac:(cbn; lia)). Defined.

Module Percentile_cont_spec.
Import Percentile_cont.
Section spec.
Context `{C : item_cache V Cache} (cache_val : Cache -> option V) `{!CacheLaws C cache_val}.
Context (p : double) (n : Z) (Hv : valid_binary dprec demax p = true) (Hp : percentile p) (Hn : 0 < n < 2 ^ 53).

Fixpoint add_all (rows : list (option V)) (s : @t Cache) : list (bool * option wf_error) * @t Cache :=
  match rows with
  | [] => ([], s)
  | o :: rows => let '(b, e, s) := add (Some p) o s in let '(l, s) := add_all rows s in ((b, e) :: l, s)
  end.

(** The rows the percentile lies between. *)
Definition floor_row : Z := floorZ (row_of p n).
Definition ceil_row : Z := ceilZ (row_of p n).

(** The percentile is at a row from 1 to [n]. *)
Lemma row_of_between : dbetween 1 n (row_of p n).
Proof using Hv Hp Hn.
  unfold row_of, get_row_count. rewrite (swrap_small 64 n) by (unfold sfits; lia). rewrite (swrap_small 64) by (unfold sfits; lia).
  apply dadd_one_between; [|lia]. apply dmul_between; [|lia]. by apply between_0_1.
Qed.

Lemma rows_spec : 1 <= floor_row <= ceil_row /\ ceil_row <= n /\ ceil_row <= floor_row + 1 /\
  dfloor (row_of p n) = Zdouble floor_row /\ dceil (row_of p n) = Zdouble ceil_row.
Proof using Hv Hp Hn. apply (floor_ceil_spec 1 n); [apply row_of_between|lia..]. Qed.

(** What the object knows after the values [pre]. *)
Record knows (pre : list V) (s : @t Cache) : Prop := {
  k_rows : partition_row_count_ s = n;
  k_count : current_row_count_ s = Z.of_nat (length pre) \/ ceil_row <= Z.of_nat (length pre);
  k_prev : first_call s = false -> prev_value s = p;
  k_floor : floor_val_calculated s = (floor_row <=? Z.of_nat (length pre));
  k_ceil : ceil_val_calculated s = (ceil_row <=? Z.of_nat (length pre));
  k_floor_value : floor_row <= Z.of_nat (length pre) -> cache_val (floor_value s) = pre !! Z.to_nat (floor_row - 1);
  k_ceil_value : floor_row < ceil_row <= Z.of_nat (length pre) -> cache_val (ceil_value s) = pre !! Z.to_nat (ceil_row - 1);
  k_called : pre <> [] -> first_call s = false
}.

Lemma lookup_end (pre : list V) v k : k = Z.of_nat (length pre) + 1 -> (pre ++ [v]) !! Z.to_nat (k - 1) = Some v.
Proof. intros ->. replace (Z.to_nat _) with (length pre) by lia. by apply list_lookup_middle. Qed.
Lemma lookup_before (pre : list V) v k : 1 <= k <= Z.of_nat (length pre) -> (pre ++ [v]) !! Z.to_nat (k - 1) = pre !! Z.to_nat (k - 1).
Proof. intros H. apply lookup_app_l. lia. Qed.

Ltac members :=
  cbn [partition_row_count_ current_row_count_ null_value floor_value ceil_value first_call prev_value ceil_val_calculated floor_val_calculated option_list].

Lemma add_knows o pre s : knows pre s -> Z.of_nat (length pre) < 2 ^ 53 - 1 ->
  exists s', add (Some p) o s = (false, None, s') /\ knows (pre ++ option_list o) s'.
Proof using Hv Hp Hn CacheLaws0.
  intros [] Hl. destruct rows_spec as (H1 & H2 & H3 & EF & EC). destruct Hp as (P1 & P2 & P3). unfold add.
  assert (exists s1, (if first_call s then
     (dlt done_ p || dlt p dzero, mk (partition_row_count_ s) (current_row_count_ s) (null_value s) (floor_value s) (ceil_value s) false p
        (ceil_val_calculated s) (floor_val_calculated s))
     else (false, s)) = (false, s1) /\ prev_value s1 = p /\ partition_row_count_ s1 = n /\ current_row_count_ s1 = current_row_count_ s /\
     floor_val_calculated s1 = floor_val_calculated s /\ ceil_val_calculated s1 = ceil_val_calculated s /\
     floor_value s1 = floor_value s /\ ceil_value s1 = ceil_value s /\ first_call s1 = false) as (s1 & -> & F1 & F2 & F3 & F4 & F5 & F6 & F7 & F8).
  { destruct (first_call s) eqn:Ef; [rewrite P2, P3; by eexists|]. exists s. by rewrite k_prev0. }
  rewrite F1, P1, F4, F5, F6, F7, F2, F3, F8, EF, EC, k_floor0, k_ceil0. cbn [negb].
  destruct (Z.leb_spec floor_row (Z.of_nat (length pre))) as [Lf|Lf].
  - destruct (Z.leb_spec ceil_row (Z.of_nat (length pre))) as [Lc|Lc]; cbn [negb andb orb].
    + (* both rows were found *)
      eexists. split; [done|]. constructor; members; rewrite ?length_app; [done|right; lia|done|symmetry; apply Z.leb_le; lia|symmetry; apply Z.leb_le; lia| | |done].
      * intros _. destruct o as [v|]; [change (option_list (Some v)) with [v]; rewrite lookup_before by lia|rewrite app_nil_r]; auto.
      * intros [Hx _]. destruct o as [v|]; [change (option_list (Some v)) with [v]; rewrite lookup_before by lia|rewrite app_nil_r]; auto.
    + rewrite store_null. destruct o as [v|]; [change (option_list (Some v)) with [v]|].
      * rewrite bool_decide_false by done. eexists. split; [done|]. assert (ceil_row = Z.of_nat (length pre) + 1 /\ floor_row = Z.of_nat (length pre)) as [Ec Efl] by lia.
        destruct k_count0 as [Ek|]; [|lia]. rewrite Ek, (uwrap_small 64) by (unfold ufits; lia). rewrite !deq_Zdouble by lia.
        constructor; members; rewrite ?length_app; cbn [length]; [done|left; lia|done|rewrite (proj2 (Z.leb_le _ _)) by lia; done| | | |done].
        -- rewrite (proj2 (Z.eqb_eq _ _)), (proj2 (Z.leb_le _ _)) by lia. done.
        -- intros _. rewrite lookup_before by lia. auto.
        -- intros _. rewrite store_val. symmetry. apply lookup_end. lia.
      * rewrite bool_decide_true by done. eexists. split; [done|]. rewrite app_nil_r. constructor; members; auto; try lia.
  - rewrite (proj2 (Z.leb_gt ceil_row _)) by lia. cbn [negb andb orb]. rewrite store_null. destruct o as [v|]; [change (option_list (Some v)) with [v]|].
    + rewrite bool_decide_false by done. cbn [orb]. eexists. split; [done|].
      destruct k_count0 as [Ek|]; [|lia]. rewrite Ek, (uwrap_small 64) by (unfold ufits; lia). rewrite !deq_Zdouble by lia.
      constructor; members; rewrite ?length_app; cbn [length]; [done|left; lia|done| | | | |done].
      * destruct (Z.eqb_spec (Z.of_nat (length pre) + 1) floor_row), (Z.leb_spec floor_row (Z.of_nat (length pre + 1))); (done || lia).
      * destruct (Z.eqb_spec (Z.of_nat (length pre) + 1) ceil_row), (Z.leb_spec ceil_row (Z.of_nat (length pre + 1))); (done || lia).
      * intros Hx. rewrite store_val. symmetry. apply lookup_end. lia.
      * intros Hx. lia.
    + rewrite bool_decide_true by done. cbn [orb]. eexists. split; [done|]. rewrite app_nil_r. constructor; members; auto; try lia.
Qed.

Lemma add_all_knows rows : forall pre s, knows pre s -> Z.of_nat (length pre + length (values rows)) < 2 ^ 53 - 1 ->
  let '(l, s') := add_all rows s in Forall (fun r => r = (false, None)) l /\ knows (pre ++ values rows) s'.
Proof using Hv Hp Hn CacheLaws0.
  induction rows as [|o rows IH]; intros pre s Hk Hl; [by rewrite app_nil_r|]. cbn [add_all].
  assert (values (o :: rows) = option_list o ++ values rows) as Ev by (by destruct o). rewrite Ev, length_app in *.
  destruct (add_knows o pre s Hk ltac:(lia)) as (s1 & -> & Hk1).
  specialize (IH _ s1 Hk1 ltac:(rewrite length_app; lia)). destruct (add_all rows s1) as [l s']. destruct IH as [H1 H2].
  rewrite <- app_assoc in H2. by split; [constructor|].
Qed.

Lemma start_knows s : knows [] (set_partition_row_count n (clear s)).
Proof using Hv Hp Hn.
  destruct rows_spec as (H1 & H2 & H3 & _). constructor; members; try done; try lia.
  - by left.
  - symmetry. apply Z.leb_gt. cbn. lia.
  - symmetry. apply Z.leb_gt. cbn. lia.
  - cbn. lia.
  - cbn. lia.
Qed.
End spec.
End Percentile_cont_spec.

(** C34.  [PERCENTILE_CONT(p)], [p] a double from 0 to 1, over a partition with [n] rows
    whose ORDER BY value is not NULL.  The row number [1 + p * (n - 1)], computed
    in double precision, lies between 1 and [n] in spite of rounding; [add]
    succeeds for every row; and at the end the two caches hold the values of the
    rows (NULLs left out) just below and above it, of which [val_real] gives the
    interpolation, or the value of the row itself when it is one. *)
Theorem percentile_cont_interpolates `{C : item_cache V Cache} (cache_val : Cache -> option V) `{!CacheLaws C cache_val} p rows s get :
  valid_binary dprec demax p = true -> percentile p -> 0 < Z.of_nat (length (values rows)) < 2 ^ 53 - 1 ->
  let n := Z.of_nat (length (values rows)) in
  let v := Percentile_cont.row_of p n in
  let run := Percentile_cont_spec.add_all p rows (Percentile_cont.set_partition_row_count n (Percentile_cont.clear s)) in
  let s' := run.2 in
  Forall (fun r => r = (false, None)) run.1 /\
  1 <= floorZ v <= ceilZ v /\ ceilZ v <= n /\ ceilZ v <= floorZ v + 1 /\
  cache_val (Percentile_cont.floor_value s') = values rows !! Z.to_nat (floorZ v - 1) /\
  (floorZ v <> ceilZ v -> cache_val (Percentile_cont.ceil_value s') = values rows !! Z.to_nat (ceilZ v - 1)) /\
  (Percentile_cont.val_real get false s').1 =
    (if floorZ v =? ceilZ v then get (Percentile_cont.floor_value s')
     else dadd (dmul (dsub v (Zdouble (floorZ v))) (get (Percentile_cont.ceil_value s')))
               (dmul (dsub (Zdouble (ceilZ v)) v) (get (Percentile_cont.floor_value s')))).
Proof.
  intros Hv Hp Hn n v run s'. pose proof (Percentile_cont_spec.rows_spec p n Hv Hp ltac:(lia)) as (H1 & H2 & H3 & EF & EC).
  unfold Percentile_cont_spec.floor_row, Percentile_cont_spec.ceil_row in *. fold v in H1, H2, H3, EF, EC.
  pose proof (Percentile_cont_spec.add_all_knows cache_val p n Hv Hp ltac:(lia) rows [] _ (Percentile_cont_spec.start_knows cache_val p n Hv Hp ltac:(lia) s) ltac:(cbn [length]; lia)) as HS.
  fold run in HS. subst s'. destruct run as [l s']. cbn [fst snd]. destruct HS as [Hf []]. cbn [app] in *.
  unfold Percentile_cont_spec.floor_row, Percentile_cont_spec.ceil_row in *. fold v in k_floor, k_ceil, k_floor_value, k_ceil_value.
  split_and!; [done|lia|lia|lia|lia|apply k_floor_value; lia|intros; apply k_ceil_value; lia|].
  assert (Percentile_cont.prev_value s' = p) as Epv.
  { apply k_prev, k_called. intros E. rewrite E in Hn. cbn in Hn. lia. }
  unfold Percentile_cont.val_real, get_row_count. rewrite k_rows, (swrap_small 64) by (unfold sfits; lia).
  rewrite (proj2 (Z.eqb_neq n 0)) by lia. cbn [orb fst]. rewrite Epv. fold v. rewrite EF, EC, deq_Zdouble, Z.eqb_sym by lia. done.
Qed.

(** The 60th percentile of four values lies between the second and the third. *)
Definition six_tenths : double := S754_finite false 5404319552844595 (-53).
Definition example_cont : @Percentile_cont.t (option Z) := Percentile_cont.mk 3 3 true (Some 5) None false done_ true true.

Lemma percentile_cont_interpolates_witness :
  let s' := (Percentile_cont_spec.add_all six_tenths example_rows (Percentile_cont.set_partition_row_count 4 (Percentile_cont.clear example_cont))).2 in
  Percentile_cont.floor_value s' = Some 20 /\ Percentile_cont.ceil_value s' = Some 30.
Proof.
  destruct (percentile_cont_interpolates id six_tenths example_rows example_cont (fun c => Zdouble (default 0 c)) eq_refl ltac:(vm_compute; done) ltac:(cbn; lia))
    as (_ & _ & _ & _ & H1 & H2 & _).
  split; [exact H1|apply H2; vm_compute; discriminate].
Defined.

(** [CUME_DIST] and [PERCENT_RANK] are from 0 to 1; the first is 1 for the last row,
    and the second 0 for a row of rank 1 and 1 for a row of rank [R]. *)
Theorem relative_ranks_bounded R k s t null :
  1 <= k <= R -> R < 2 ^ 53 -> Cume_dist.partition_row_count_ s = R -> Cume_dist.current_row_count_ s = k ->
  t = Percent_rank.mk R k k null ->
  let c := (Cume_dist.val_real s).1 in let r := (Percent_rank.val_real t).1 in
  (dle dzero c = true /\ dle c done_ = true) /\ (k = R -> c = done_) /\
  (dle dzero r = true /\ dle r done_ = true) /\ (k = 1 -> r = dzero) /\ (k = R -> 1 < R -> r = done_) /\
  Cume_dist.null_value (Cume_dist.val_real s).2 = false /\ Percent_rank.null_value (Percent_rank.val_real t).2 = false.
Proof.
  intros Hk HR E1 E2 -> c r. unfold c, r, Cume_dist.val_real, Percent_rank.val_real, calc_val_real. rewrite E1, E2.
  cbn [Percent_rank.partition_row_count_ Percent_rank.cur_rank]. rewrite (proj2 (Z.eqb_neq R 0)) by lia. cbn [fst snd].
  unfold get_row_count. rewrite (swrap_small 64 R) by (unfold sfits; lia). rewrite (uwrap_small 64 R) by (unfold ufits; lia).
  rewrite (swrap_small 64 (k - 1)) by (unfold sfits; lia). rewrite (uwrap_small 64 (R - 1)) by (unfold ufits; lia).
  split_and!.
  - by apply dle_0_1, ddiv_between; lia.
  - by apply dle_0_1, ddiv_between; lia.
  - intros ->. apply ddiv_Zdouble_self. lia.
  - destruct (Z.ltb_spec 1 R); [|done]. by apply dle_0_1, ddiv_between; lia.
  - destruct (Z.ltb_spec 1 R); [|done]. by apply dle_0_1, ddiv_between; lia.
  - intros ->. destruct (Z.ltb_spec 1 R); [|done]. rewrite Z.sub_diag, (Zdouble_exact (R - 1)) by lia. done.
  - intros -> H. rewrite (proj2 (Z.ltb_lt _ _)) by done. apply ddiv_Zdouble_self. lia.
  - done.
  - cbn. by rewrite (proj2 (Z.ltb_lt 0 R)) by lia.
Qed.

Lemma relative_ranks_bounded_witness :
  (Cume_dist.val_real (Cume_dist.mk 7 7 true)).1 = done_ /\ (Percent_rank.val_real (Percent_rank.mk 7 7 7 true)).1 = done_.
Proof.
  destruct (relative_ranks_bounded 7 7 (Cume_dist.mk 7 7 true) (Percent_rank.mk 7 7 7 true) true ltac:(lia) ltac:(lia) eq_refl eq_refl eq_refl)
    as (_ & H1 & _ & _ & H2 & _).
  split; [apply H1; reflexivity|apply H2; lia].
Defined.

(** * The phases of a window function *)

Section phases.
Context `{window_function W} `{result_fields F}.
Import Item_window_func.

Inductive phase := Initial | Computation | Retrieval.
Definition enter (s : @t W F) (p : phase) : t :=
  match p with
  | Initial => set_phase_to_initial s
  | Computation => set_phase_to_computation s
  | Retrieval => set_phase_to_retrieval s
  end.

(** Whatever phases an item went through, the last one decides where its value
    comes from: a blank NULL before the first, the function during the
    computation, and the field of the temporary table at the retrieval. *)
Lemma phase_decides ps w f null :
  let s := foldl enter (new_item w f null) ps in
  (val_int s).1 = match default Initial (last ps) with Initial => 0 | Computation => (w_val_int w).1 | Retrieval => f_val_int f end /\
  null_value (val_int s).2 = match default Initial (last ps) with Initial => true | Computation => w_null_value (w_val_int w).2 | Retrieval => f_is_null f end /\
  (val_str s).1 = match default Initial (last ps) with Initial => None | Computation => (w_val_str w).1
                  | Retrieval => if f_is_null f then None else f_val_str f end /\
  (is_null s).1 = match default Initial (last ps) with Initial => true | Computation => (w_is_null w).1 | Retrieval => f_is_null f end.
Proof.
  cbn.
  destruct (ps) as [|p ps' _] using rev_ind; [done|]. rewrite foldl_app, last_snoc. cbn [foldl default].
  set (s := foldl enter (new_item w f null) ps'). assert (window_func s = w /\ result_field s = f) as [E1 E2].
  { unfold s. clear. induction ps' as [|p ps IH] using rev_ind; [done|]. rewrite foldl_app. cbn [foldl]. split; destruct p; apply IH. }
  destruct p; unfold val_int, val_num, val_str, val_obj, is_null; cbn; rewrite ?E1, ?E2; try done;
    destruct (w_val_int w), (w_val_str w), (w_is_null w); done.
Qed.
End phases.
