(* ===== verification/SqlStatistics.v ===== *)
(** The table statistics of [private/sql_statistics.h]: the height-balanced
    histogram and its binary search for a bucket, the counters of a column, and
    the bitmap of the statistics that are known.

    A histogram is its type, the size of its array and the bytes of the array; a
    read beyond the array or a failed assertion is [None].  The search loops with
    a measure; its fuel is the width, and the search is proved to end within it. *)

From Stdlib Require Import Floats.SpecFloat.
From S2P Require Import Prelude ByteOrder SqlError CDouble.

(** * [Histogram_binary] *)

Inductive Histogram_type := SINGLE_PREC_HB | DOUBLE_PREC_HB | JSON_HB | INVALID_HISTOGRAM.
#[export] Instance Histogram_type_eq_dec : EqDecision Histogram_type.
Proof. solve_decision. Defined.

Record Histogram_binary := mkHistogram { hist_type : Histogram_type; hist_size : Z; hist_values : list byte }.

Definition prec_factor (h : Histogram_binary) : option Z :=
  match hist_type h with
  | SINGLE_PREC_HB => Some (u32 (1 .<< 8) - 1)
  | DOUBLE_PREC_HB => Some (u32 (1 .<< 16) - 1)
  | _ => None
  end.
Definition get_width (h : Histogram_binary) : option Z :=
  match hist_type h with
  | SINGLE_PREC_HB => Some (hist_size h)
  | DOUBLE_PREC_HB => Some (hist_size h / 2)
  | _ => None
  end.
(** [values[i]], within the array. *)
Definition in_values (h : Histogram_binary) (i n : nat) : option unit :=
  asserting ((i + n <=? length (hist_values h))%nat) tt.
Definition get_value (h : Histogram_binary) (i : Z) : option Z :=
  w ← get_width h;
  _ ← asserting (i <? w) tt;
  match hist_type h with
  | SINGLE_PREC_HB => _ ← in_values h (Z.to_nat i) 1; Some (uc (hist_values h) (Z.to_nat i))
  | DOUBLE_PREC_HB => _ ← in_values h (Z.to_nat (i * 2)) 2; Some (X86_64.uint2korr (hist_values h) (Z.to_nat (i * 2)))
  | _ => None
  end.

(** The loop: [lp], [rp] and [d], with [i = lp + d]. *)
Fixpoint bucket_loop (fuel : nat) (h : Histogram_binary) (val lp rp d : Z) : option Z :=
  let i := lp + d in
  if d =? 0 then Some i
  else
    match fuel with
    | O => None
    | S fuel =>
        v ← get_value h i;
        if val =? v then Some i
        else if val <? v then bucket_loop fuel h val lp i ((i - lp) ÷ 2)
        else
          v' ← get_value h (i + 1);
          if v' <? val then bucket_loop fuel h val (i + 1) rp ((rp - (i + 1)) ÷ 2) else Some i
    end.

(** The two scans over equal values; the fuel is the number of values on that side. *)
Fixpoint scan_down (fuel : nat) (h : Histogram_binary) (val i : Z) : option Z :=
  match fuel with
  | O => Some i
  | S fuel => if i =? 0 then Some i else v ← get_value h (i - 1); if val =? v then scan_down fuel h val (i - 1) else Some i
  end.
Fixpoint scan_up (fuel : nat) (h : Histogram_binary) (w val i : Z) : option Z :=
  match fuel with
  | O => Some i
  | S fuel => if i + 1 <? w then v ← get_value h (i + 1); if val =? v then scan_up fuel h w val (i + 1) else Some i else Some i
  end.

Definition find_bucket_of (h : Histogram_binary) (val : Z) (first : bool) : option Z :=
  w ← get_width h;
  let rp := s32 (w - 1) in
  let d := w / 2 in
  i ← bucket_loop (Z.to_nat w) h val 0 rp d;
  v ← get_value h i;
  let i := if (v <? val) && (i <? u32 (w - 1)) then i + 1 else i in
  v ← get_value h i;
  if val =? v then (if first then scan_down (Z.to_nat i) h val i else scan_up (Z.to_nat w) h w val i) else Some i.
Definition find_bucket (h : Histogram_binary) (pos : double) (first : bool) : option Z :=
  f ← prec_factor h;
  val ← uint_of_double 32 (dmul pos (Zdouble f));
  find_bucket_of h val first.

Definition set_value (h : Histogram_binary) (i : Z) (val : double) : option Histogram_binary :=
  f ← prec_factor h;
  match hist_type h with
  | SINGLE_PREC_HB =>
      v ← uint_of_double 8 (dmul val (Zdouble f)); _ ← in_values h (Z.to_nat i) 1;
      Some (mkHistogram (hist_type h) (hist_size h) (put (hist_values h) (Z.to_nat i) v))
  | DOUBLE_PREC_HB =>
      v ← uint_of_double 16 (dmul val (Zdouble f)); _ ← in_values h (Z.to_nat (i * 2)) 2;
      Some (mkHistogram (hist_type h) (hist_size h) (X86_64.int2store (hist_values h) (Z.to_nat (i * 2)) v))
  | _ => None
  end.
Definition set_prev_value (h : Histogram_binary) (i : Z) : option Histogram_binary :=
  match hist_type h with
  | SINGLE_PREC_HB =>
      _ ← asserting (1 <=? i) tt; _ ← in_values h (Z.to_nat i) 1;
      Some (mkHistogram (hist_type h) (hist_size h) (<[Z.to_nat i := hist_values h !!! Z.to_nat (i - 1)]> (hist_values h)))
  | DOUBLE_PREC_HB =>
      _ ← asserting (1 <=? i) tt; _ ← in_values h (Z.to_nat (i * 2)) 2;
      Some (mkHistogram (hist_type h) (hist_size h)
        (X86_64.int2store (hist_values h) (Z.to_nat (i * 2)) (X86_64.uint2korr (hist_values h) (Z.to_nat (i * 2 - 2)))))
  | _ => None
  end.

(** * [Basic_stats_collector] *)

Record Basic_stats_collector := mkStats { st_count : Z; st_count_distinct : Z; st_count_single : Z }.
Definition stats_init : Basic_stats_collector := mkStats 0 0 0.
Definition stats_next (c : Basic_stats_collector) (elem_cnt : Z) : Basic_stats_collector :=
  mkStats (u64 (st_count c + elem_cnt)) (u64 (st_count_distinct c + 1))
    (if elem_cnt =? 1 then u64 (st_count_single c + 1) else st_count_single c).

(** * [Column_statistics] *)

Definition COLUMN_STAT_COLUMN_NAME : Z := 2.
Definition COLUMN_STAT_MIN_VALUE : Z := 3.
Definition COLUMN_STAT_MAX_VALUE : Z := 4.
Definition COLUMN_STAT_HISTOGRAM : Z := 10.
Definition Scale_factor : Z := 100000.

Record Column_statistics := mkColumn { column_stat_nulls : Z; nulls_ratio : Z; avg_length : Z; avg_frequency : Z }.

Definition no_values_provided_bitmap : Z :=
  u32 (s32 ((1 .<< (COLUMN_STAT_HISTOGRAM - COLUMN_STAT_COLUMN_NAME)) - 1) .<< (COLUMN_STAT_COLUMN_NAME + 1)).
Definition set_nulls_bits (b : Z) (c : Column_statistics) : Column_statistics :=
  mkColumn b (nulls_ratio c) (avg_length c) (avg_frequency c).
Definition set_all_nulls (c : Column_statistics) : Column_statistics := set_nulls_bits no_values_provided_bitmap c.
Definition set_not_null (stat_field_no : Z) (c : Column_statistics) : Column_statistics :=
  set_nulls_bits (column_stat_nulls c .& unot 32 (1 .<< stat_field_no)) c.
Definition stat_is_null (stat_field_no : Z) (c : Column_statistics) : bool :=
  c_true (column_stat_nulls c .& u32 (1 .<< stat_field_no)).
Definition min_max_values_are_provided (c : Column_statistics) : bool :=
  negb (stat_is_null COLUMN_STAT_MIN_VALUE c) && negb (stat_is_null COLUMN_STAT_MAX_VALUE c).
Definition no_stat_values_provided (c : Column_statistics) : bool := column_stat_nulls c =? no_values_provided_bitmap.

Definition unscale (n : Z) : double := ddiv (Zdouble n) (Zdouble Scale_factor).
Definition scale (val : double) : option Z := uint_of_double 64 (dmul val (Zdouble Scale_factor)).
Definition get_nulls_ratio (c : Column_statistics) : double := unscale (nulls_ratio c).
Definition get_avg_length (c : Column_statistics) : double := unscale (avg_length c).
Definition get_avg_frequency (c : Column_statistics) : double := unscale (avg_frequency c).
Definition set_nulls_ratio (val : double) (c : Column_statistics) : option Column_statistics :=
  v ← scale val; Some (mkColumn (column_stat_nulls c) v (avg_length c) (avg_frequency c)).
Definition set_avg_length (val : double) (c : Column_statistics) : option Column_statistics :=
  v ← scale val; Some (mkColumn (column_stat_nulls c) (nulls_ratio c) v (avg_frequency c)).
Definition set_avg_frequency (val : double) (c : Column_statistics) : option Column_statistics :=
  v ← scale val; Some (mkColumn (column_stat_nulls c) (nulls_ratio c) (avg_length c) v).

(** * [Index_statistics]: one frequency for each prefix *)

Definition index_get_avg_frequency (avg_frequency : list Z) (i : nat) : option double := v ← avg_frequency !! i; Some (unscale v).
Definition index_set_avg_frequency (avg_frequency : list Z) (i : nat) (val : double) : option (list Z) :=
  v ← scale val; _ ← avg_frequency !! i; Some (<[i := v]> avg_frequency).

(** * The histogram *)

(** The array has the bytes its size promises. *)
Definition hist_ok (h : Histogram_binary) : Prop :=
  (hist_type h = SINGLE_PREC_HB \/ hist_type h = DOUBLE_PREC_HB) /\ ufits 8 (hist_size h) /\
  hist_size h <= Z.of_nat (length (hist_values h)).
Definition width (h : Histogram_binary) : Z := default 0 (get_width h).
Definition value (h : Histogram_binary) (i : Z) : Z := default 0 (get_value h i).
Definition factor (h : Histogram_binary) : Z := default 0 (prec_factor h).

Lemma width_spec h : hist_ok h -> get_width h = Some (width h) /\ 0 <= width h <= 255 /\ prec_factor h = Some (factor h) /\ 0 < factor h < 2 ^ 16.
Proof.
  intros ([E|E] & [? ?] & _); unfold width, get_width, factor, prec_factor; rewrite E; cbn; change (2 ^ 8) with 256 in *;
    (split; [done|]); (split; [|done]); [lia|lia_mod].
Qed.

Lemma get_value_spec h i : hist_ok h -> 0 <= i < width h -> get_value h i = Some (value h i).
Proof.
  intros H Hi. destruct (width_spec h H) as (Ew & _ & _). unfold value. assert (is_Some (get_value h i)) as [v ->]; [|done].
  unfold get_value. rewrite Ew. cbn [mbind option_bind]. rewrite (proj2 (Z.ltb_lt _ _)) by lia. cbn [asserting mbind option_bind].
  destruct H as ([E|E] & [? ?] & Hl); rewrite E; unfold width, get_width in *; rewrite E in *; cbn in *; simplify_eq; unfold in_values, asserting.
  - rewrite (proj2 (Nat.leb_le _ _)) by lia. done.
  - rewrite (proj2 (Nat.leb_le _ _)) by lia_mod. done.
Qed.

Section search.
Context (h : Histogram_binary) (val : Z) (Hok : hist_ok h) (Hw : 1 <= width h) (Hw2 : width h <> 2).
Context (Hsorted : forall i j, 0 <= i <= j -> j < width h -> value h i <= value h j).

(** Where the loop stops: on the value, just before it, or with nothing between the ends. *)
Definition stops (i : Z) : Prop :=
  0 <= i < width h /\
  (value h i = val \/ (value h i < val /\ i + 1 < width h /\ val <= value h (i + 1)) \/
   exists rp, i <= rp <= i + 1 /\ rp < width h /\ (i = 0 \/ value h i < val) /\ (rp = width h - 1 \/ val < value h rp)).

Lemma bucket_loop_spec fuel : forall lp rp d,
  0 <= lp <= rp -> rp < width h -> (lp = 0 \/ value h lp < val) -> (rp = width h - 1 \/ val < value h rp) ->
  0 <= d -> (d = 0 -> rp - lp <= 1) -> (0 < d -> lp + d + 1 <= rp) -> rp - lp <= Z.of_nat fuel ->
  exists i, bucket_loop fuel h val lp rp d = Some i /\ stops i.
Proof using Hok Hw Hw2 Hsorted.
  induction fuel as [|fuel IH]; intros lp rp d Hl Hr Il Ir Hd H0 H1 Hf; cbn [bucket_loop]; destruct (Z.eqb_spec d 0) as [->|Nd].
  - exists (lp + 0). split; [done|]. rewrite Z.add_0_r. split; [lia|]. right; right. exists rp. split_and!; [lia..|done|done].
  - lia.
  - exists (lp + 0). split; [done|]. rewrite Z.add_0_r. split; [lia|]. right; right. exists rp. specialize (H0 eq_refl). split_and!; [lia..|done|done].
  - specialize (H1 ltac:(lia)). rewrite (get_value_spec h (lp + d)) by (done || lia). cbn [mbind option_bind].
    destruct (Z.eqb_spec val (value h (lp + d))) as [E|Ne].
    { exists (lp + d). split; [done|]. split; [lia|]. by left. }
    destruct (Z.ltb_spec val (value h (lp + d))) as [Lv|Lv].
    + rewrite Z.quot_div_nonneg by lia. apply IH; first [lia|lia_mod].
    + rewrite (get_value_spec h (lp + d + 1)) by (done || lia). cbn [mbind option_bind]. destruct (Z.ltb_spec (value h (lp + d + 1)) val) as [L2|L2].
      * rewrite Z.quot_div_nonneg by lia. apply IH; first [lia|lia_mod].
      * exists (lp + d). split; [done|]. split; [lia|]. right; left. lia.
Qed.

Lemma scan_down_spec fuel : forall i, 0 <= i < width h -> value h i = val -> i <= Z.of_nat fuel ->
  exists k, scan_down fuel h val i = Some k /\ 0 <= k <= i /\ value h k = val /\ forall j, 0 <= j < k -> value h j < val.
Proof using Hok Hw Hw2 Hsorted.
  induction fuel as [|fuel IH]; intros i Hi Hv Hf; cbn [scan_down].
  - exists i. split_and!; [done|lia..|done|lia].
  - destruct (Z.eqb_spec i 0) as [->|Ni]; [exists 0; split_and!; [done|lia..|done|lia]|].
    rewrite get_value_spec by (done || lia). cbn [mbind option_bind]. destruct (Z.eqb_spec val (value h (i - 1))) as [E|E].
    + destruct (IH (i - 1)) as (k & Ek & Hk & Hvk & Hj); [lia|done|lia|]. exists k. split_and!; [done|lia..|done|done].
    + exists i. split_and!; [done|lia..|done|]. intros j Hj. pose proof (Hsorted j (i - 1) ltac:(lia) ltac:(lia)). pose proof (Hsorted (i - 1) i ltac:(lia) ltac:(lia)). lia.
Qed.

Lemma scan_up_spec fuel : forall i, 0 <= i < width h -> value h i = val -> width h - i <= Z.of_nat fuel ->
  exists k, scan_up fuel h (width h) val i = Some k /\ i <= k < width h /\ value h k = val /\ forall j, k < j < width h -> val < value h j.
Proof using Hok Hw Hw2 Hsorted.
  induction fuel as [|fuel IH]; intros i Hi Hv Hf; cbn [scan_up]; [lia|].
  destruct (Z.ltb_spec (i + 1) (width h)) as [L|L]; [|exists i; split_and!; [done|lia..|done|lia]].
  rewrite get_value_spec by (done || lia). cbn [mbind option_bind]. destruct (Z.eqb_spec val (value h (i + 1))) as [E|E].
  - destruct (IH (i + 1)) as (k & Ek & Hk & Hvk & Hj); [lia|done|lia|]. exists k. split_and!; [done|lia..|done|done].
  - exists i. split_and!; [done|lia..|done|]. intros j Hj. pose proof (Hsorted (i + 1) j ltac:(lia) ltac:(lia)). pose proof (Hsorted i (i + 1) ltac:(lia) ltac:(lia)). lia.
Qed.

(** The bucket of [val]: the first, or the last, whose bound is [val], and if there
    is none the first whose bound is above it, or the last bucket. *)
Definition is_bucket (first : bool) (i : Z) : Prop :=
  0 <= i < width h /\
  ((value h i = val /\ if first then forall j, 0 <= j < i -> value h j < val else forall j, i < j < width h -> val < value h j) \/
   ((forall k, 0 <= k < width h -> value h k <> val) /\ (forall j, 0 <= j < i -> value h j < val) /\ (val < value h i \/ i = width h - 1))).

Lemma find_bucket_of_spec first : exists i, find_bucket_of h val first = Some i /\ is_bucket first i.
Proof using Hok Hw Hw2 Hsorted.
  destruct (width_spec h Hok) as (Ew & Hw3 & _). unfold find_bucket_of. rewrite Ew. cbn [mbind option_bind].
  rewrite (swrap_small 32) by (unfold sfits; lia). rewrite (uwrap_small 32) by (unfold ufits; lia).
  destruct (bucket_loop_spec (Z.to_nat (width h)) 0 (width h - 1) (width h / 2)) as (i & -> & Hi & Hs); [lia|lia|by left|by left|lia_mod|lia_mod|lia_mod|lia|].
  cbn [mbind option_bind]. rewrite (get_value_spec h i) by (done || lia). cbn [mbind option_bind].
  assert (exists i', (if (value h i <? val) && (i <? width h - 1) then i + 1 else i) = i' /\ 0 <= i' < width h /\
    (value h i' = val \/ ((forall j, 0 <= j < i' -> value h j < val) /\ (val < value h i' \/ (i' = width h - 1 /\ value h i' <> val))))) as (i' & -> & Hi' & Hq).
  { destruct (Z.ltb_spec (value h i) val) as [L|L]; cbn [andb].
    - assert (forall j, 0 <= j < i + 1 -> value h j < val) as Hlow by (intros j Hj; pose proof (Hsorted j i ltac:(lia) ltac:(lia)); lia).
      destruct (Z.ltb_spec i (width h - 1)) as [L2|L2].
      + exists (i + 1). split; [done|]. split; [lia|]. destruct (decide (value h (i + 1) = val)); [by left|right]. split; [done|].
        destruct Hs as [?|[(_ & _ & ?)|(rp & Hrp & Hrw & _ & [->|Hv])]]; [lia|lia|right; split; [lia|done]|left].
        destruct (decide (rp = i)) as [->|]; [lia|]. by replace (i + 1) with rp by lia.
      + exists i. split; [done|]. split; [lia|]. right. split; [intros; apply Hlow; lia|right; lia].
    - exists i. split; [done|]. split; [lia|]. destruct (decide (value h i = val)); [by left|right].
      destruct Hs as [?|[?|(rp & _ & _ & [->|?] & _)]]; [lia|lia| |lia]. split; [intros; lia|left; lia]. }
  rewrite get_value_spec by (done || lia). cbn [mbind option_bind]. destruct (Z.eqb_spec val (value h i')) as [E|E].
  - destruct first.
    + destruct (scan_down_spec (Z.to_nat i') i') as (k & -> & Hk & Hvk & Hj); [lia|done|lia|]. exists k. split; [done|]. split; [lia|]. by left.
    + destruct (scan_up_spec (Z.to_nat (width h)) i') as (k & -> & Hk & Hvk & Hj); [lia|done|lia|]. exists k. split; [done|]. split; [lia|]. by left.
  - destruct Hq as [?|[Hlow Hup]]; [lia|]. exists i'. split; [done|]. split; [lia|]. right. split_and!; [|done|destruct Hup as [?|[? _]]; auto].
    intros k Hk Hv. destruct (decide (k < i')) as [Hlt|Hge]; [pose proof (Hlow k ltac:(lia)); lia|].
    destruct Hup as [Hup|[-> Hne]]; [pose proof (Hsorted i' k ltac:(lia) ltac:(lia)); lia|]. apply Hne. by replace (width h - 1) with k by lia.
Qed.
End search.

(** The truncation of a double between two integers. *)
Lemma uint_of_double_between w hi x : dbetween 0 hi x -> hi < 2 ^ w -> exists v, uint_of_double w x = Some v /\ v = floorZ x /\ 0 <= v <= Z.max 0 hi.
Proof.
  intros Hx Hhi. destruct x as [s|s| |[|] m e]; try done; [exists 0; split_and!; [done|done|lia..]|].
  destruct Hx as (He & Hm & _ & _ & Hup). exists (floorZ (S754_finite false m e)).
  assert (0 <= floorZ (S754_finite false m e) <= hi) as Hf.
  { unfold floorZ. destruct (Z.leb_spec 0 e) as [L|L].
    - assert (e = 0) as -> by lia. cbn in Hup. lia.
    - assert (0 < 2 ^ (- e)) by (apply Z.pow_pos_nonneg; lia). split; [apply Z.div_pos; lia|].
      apply Z.div_le_upper_bound; lia. }
  split_and!; [|done|lia..]. unfold uint_of_double, asserting. by rewrite (proj2 (Z.ltb_lt _ _)) by lia.
Qed.

(** The search for a position from 0 to 1 in a histogram with sorted bounds, of any
    width but 2, ends, reads only its own bounds, and finds the bucket of the
    position scaled to the histogram's precision: the first or the last bucket
    with that bound, as asked, and if no bucket has it the first with a greater
    one, or the last bucket of all. *)
Theorem find_bucket_spec h pos first :
  hist_ok h -> 1 <= width h -> width h <> 2 ->
  (forall i j, 0 <= i <= j -> j < width h -> value h i <= value h j) ->
  dbetween 0 1 pos ->
  let val := floorZ (dmul pos (Zdouble (factor h))) in
  0 <= val <= factor h /\ exists i, find_bucket h pos first = Some i /\ is_bucket h val first i.
Proof.
  intros Hok Hw Hw2 Hs Hp val. destruct (width_spec h Hok) as (_ & _ & Ef & Hf).
  destruct (uint_of_double_between 32 (factor h) (dmul pos (Zdouble (factor h)))) as (v & Ev & -> & Hv); [apply dmul_between; [done|lia]|lia|].
  split; [lia|]. unfold find_bucket. rewrite Ef. cbn [mbind option_bind]. rewrite Ev. cbn [mbind option_bind].
  by apply find_bucket_of_spec.
Qed.

(** Three bounds, one twice. *)
Definition example_hist : Histogram_binary := mkHistogram SINGLE_PREC_HB 4 [x10; x80; x80; xf0].
Lemma find_bucket_spec_witness :
  exists i, find_bucket example_hist (ddiv (Zdouble 1) (Zdouble 2)) true = Some i /\
    is_bucket example_hist (floorZ (dmul (ddiv (Zdouble 1) (Zdouble 2)) (Zdouble (factor example_hist)))) true i.
Proof.
  apply (find_bucket_spec example_hist (ddiv (Zdouble 1) (Zdouble 2)) true); [|cbn; lia|cbn; lia| |apply ddiv_between; lia].
  - split; [by left|]. split; [unfold ufits; cbn; lia|cbn; lia].
  - intros i j Hij Hj. change (width example_hist) with 4 in Hj.
    assert (forallb (fun p => (value example_hist (Z.of_nat p.1) <=? value example_hist (Z.of_nat p.2)) || (p.2 <? p.1)%nat)
      (list_prod (seq 0 4) (seq 0 4)) = true) as HF by (vm_compute; reflexivity).
    rewrite forallb_forall in HF. specialize (HF (Z.to_nat i, Z.to_nat j)). cbn [fst snd] in HF.
    rewrite orb_true_iff, Nat.ltb_lt, Z.leb_le, !Z2Nat.id in HF by lia. destruct HF as [HF|HF]; [|done|lia].
    apply in_prod; apply in_seq; lia.
Defined.

(** In a histogram of width 2 the loop looks at a bound that is not there, when the
    position is above the second bound. *)
Theorem find_bucket_width_2 h val first :
  hist_ok h -> width h = 2 -> value h 1 < val -> find_bucket_of h val first = None.
Proof.
  intros Hok Hw Hv. destruct (width_spec h Hok) as (Ew & _). unfold find_bucket_of. rewrite Ew, Hw. cbn [mbind option_bind].
  change (Z.to_nat 2) with 2%nat. cbn [bucket_loop]. change (2 / 2 =? 0) with false. cbn [Z.add]. change (0 + 2 / 2) with 1.
  rewrite (get_value_spec h 1) by (done || lia). cbn [mbind option_bind]. rewrite (proj2 (Z.eqb_neq _ _)), (proj2 (Z.ltb_ge _ _)) by lia.
  assert (get_value h (1 + 1) = None) as ->; [|done]. unfold get_value. rewrite Ew, Hw. reflexivity.
Qed.

Lemma find_bucket_width_2_witness : find_bucket_of (mkHistogram SINGLE_PREC_HB 2 [x10; x80]) 200 true = None.
Proof.
  apply find_bucket_width_2; [|reflexivity|reflexivity]. split; [by left|]. split; [unfold ufits; cbn; lia|cbn; lia].
Defined.

(** ** Storing and reading a bound *)

(** A bound in the array, whatever the precision. *)
Lemma value_SINGLE t n l i : t = SINGLE_PREC_HB -> hist_ok (mkHistogram t n l) -> 0 <= i < n -> value (mkHistogram t n l) i = uc l (Z.to_nat i).
Proof.
  intros -> (_ & _ & Hl) Hi. cbn in Hl. unfold value, get_value. cbn. rewrite (proj2 (Z.ltb_lt _ _)) by lia. cbn.
  unfold in_values, asserting. cbn [hist_values]. by rewrite (proj2 (Nat.leb_le _ _)) by lia.
Qed.
Lemma value_DOUBLE t n l i : t = DOUBLE_PREC_HB -> hist_ok (mkHistogram t n l) -> 0 <= i < n / 2 -> value (mkHistogram t n l) i = load_word 2 l (Z.to_nat (i * 2)).
Proof.
  intros -> (_ & _ & Hl) Hi. cbn in Hl. unfold value, get_value. cbn. rewrite (proj2 (Z.ltb_lt _ _)) by lia. cbn.
  unfold in_values, asserting. cbn [hist_values]. by rewrite (proj2 (Nat.leb_le _ _)) by lia_mod.
Qed.

Lemma rd_2_ext l l' T : uc l T = uc l' T -> uc l (S T) = uc l' (S T) -> load_word 2 l T = load_word 2 l' T.
Proof. intros E1 E2. unfold load_word, rd. cbn [seq fmap list_fmap]. by rewrite E1, E2. Qed.

(** [set_value] then [get_value] gives the position scaled and truncated, and the
    other bounds stay; [set_prev_value] copies the bound before. *)
Theorem hist_value_roundtrip h i pos :
  hist_ok h -> 0 <= i < width h -> dbetween 0 1 pos ->
  (exists h', set_value h i pos = Some h' /\ hist_ok h' /\ width h' = width h /\
     get_value h' i = Some (floorZ (dmul pos (Zdouble (factor h)))) /\
     forall j, 0 <= j < width h -> j <> i -> get_value h' j = get_value h j) /\
  (1 <= i -> exists h', set_prev_value h i = Some h' /\ hist_ok h' /\ width h' = width h /\
     get_value h' i = get_value h (i - 1) /\ forall j, 0 <= j < width h -> j <> i -> get_value h' j = get_value h j).
Proof.
  intros Hok Hi Hp. destruct (width_spec h Hok) as (Ew & Hw & Ef & Hf).
  assert (dbetween 0 (factor h) (dmul pos (Zdouble (factor h)))) as Hb by (apply dmul_between; [done|lia]).
  assert (forall l', length l' = length (hist_values h) -> hist_ok (mkHistogram (hist_type h) (hist_size h) l') /\ width (mkHistogram (hist_type h) (hist_size h) l') = width h) as G.
  { intros l' El. destruct Hok as (Ht & Hs & Hl). split; [|done]. split_and!; [done|done|]. cbn. by rewrite El. }
  pose proof Hok as (Ht & Hs & Hl). destruct h as [t n l]. cbn [hist_type hist_size hist_values] in *.
  unfold set_value, set_prev_value. rewrite Ef. cbn [mbind option_bind hist_type hist_size hist_values]. destruct Ht as [Et|Et].
  - assert (width (mkHistogram t n l) = n) as EW by (by rewrite Et). assert (factor (mkHistogram t n l) = 2 ^ 8 - 1) as EF by (by rewrite Et). rewrite EW, EF in *. rewrite Et.
    destruct (uint_of_double_between 8 (2 ^ 8 - 1) _ Hb ltac:(lia)) as (v & Ev & -> & Hv). rewrite Ev. cbn [mbind option_bind].
    unfold in_values, asserting. cbn [hist_values]. rewrite (proj2 (Nat.leb_le _ _)) by lia. cbn [mbind option_bind]. rewrite <- Et. split.
    + eexists. split; [done|]. destruct (G (put l (Z.to_nat i) (floorZ (dmul pos (Zdouble (2 ^ 8 - 1))))) ltac:(apply length_put)) as [Hok' Hw']. split_and!; [done|done| |].
      * rewrite get_value_spec, value_SINGLE by (done || lia). rewrite uc_put_eq by lia. by rewrite uwrap_small by (unfold ufits; lia).
      * intros j Hj Hne. rewrite !get_value_spec, !value_SINGLE by (done || lia). by rewrite uc_put_ne by lia.
    + intros Hi1. rewrite (proj2 (Z.leb_le _ _)) by done. cbn [mbind option_bind]. eexists. split; [done|].
      destruct (G (<[Z.to_nat i := l !!! Z.to_nat (i - 1)]> l) ltac:(apply length_insert)) as [Hok' Hw']. split_and!; [done|done| |].
      * rewrite !get_value_spec, !value_SINGLE by (done || lia). unfold uc. by rewrite list_lookup_total_insert_eq by lia.
      * intros j Hj Hne. rewrite !get_value_spec, !value_SINGLE by (done || lia). unfold uc. by rewrite list_lookup_total_insert_ne by lia.
  - assert (width (mkHistogram t n l) = n / 2) as EW by (by rewrite Et). assert (factor (mkHistogram t n l) = 2 ^ 16 - 1) as EF by (by rewrite Et). rewrite EW, EF in *. rewrite Et.
    destruct (uint_of_double_between 16 (2 ^ 16 - 1) _ Hb ltac:(lia)) as (v & Ev & -> & Hv). rewrite Ev. cbn [mbind option_bind].
    unfold in_values, asserting. cbn [hist_values]. rewrite (proj2 (Nat.leb_le _ _)) by lia_mod. cbn [mbind option_bind]. rewrite <- Et. unfold X86_64.int2store. split.
    + eexists. split; [done|]. match goal with |- hist_ok (mkHistogram _ _ ?l') /\ _ => destruct (G l' ltac:(apply length_store_word)) as [Hok' Hw'] end.
      split_and!; [exact Hok'|done| |].
      * rewrite get_value_spec, value_DOUBLE by (done || lia). rewrite load_store_word by lia_mod. change (8 * Z.of_nat 2) with 16.
        by rewrite uwrap_uwrap, uwrap_small by (unfold ufits; lia).
      * intros j Hj Hne. rewrite !get_value_spec, !value_DOUBLE by (done || lia). f_equal. apply rd_2_ext; apply uc_store_word_ne; lia.
    + intros Hi1. rewrite (proj2 (Z.leb_le _ _)) by done. cbn [mbind option_bind]. eexists. split; [done|].
      match goal with |- hist_ok (mkHistogram _ _ ?l') /\ _ => destruct (G l' ltac:(apply length_store_word)) as [Hok' Hw'] end.
      split_and!; [exact Hok'|done| |].
      * rewrite !get_value_spec, !value_DOUBLE by (done || lia). rewrite load_store_word by lia_mod. f_equal.
        change (8 * Z.of_nat 2) with 16. rewrite uwrap_uwrap. unfold X86_64.uint2korr. replace (Z.to_nat ((i - 1) * 2)) with (Z.to_nat (i * 2 - 2)) by lia.
        apply uwrap_small. apply (load_word_fits 2).
      * intros j Hj Hne. rewrite !get_value_spec, !value_DOUBLE by (done || lia). f_equal. apply rd_2_ext; apply uc_store_word_ne; lia.
Qed.

Lemma hist_value_roundtrip_witness :
  exists h', set_value example_hist 1 (ddiv (Zdouble 1) (Zdouble 4)) = Some h' /\ get_value h' 1 = Some 63 /\ get_value h' 2 = Some 128.
Proof.
  destruct (hist_value_roundtrip example_hist 1 (ddiv (Zdouble 1) (Zdouble 4))) as [(h' & E & _ & _ & E1 & E2) _].
  - split; [by left|]. split; [unfold ufits; cbn; lia|cbn; lia].
  - cbn. lia.
  - apply ddiv_between; lia.
  - exists h'. split; [exact E|]. split; [exact E1|]. exact (E2 2 ltac:(cbn; lia) ltac:(lia)).
Defined.

(** * The counters and the bitmap of a column *)

(** The counters after the distinct values of a column, each with its number of
    occurrences: how many rows, how many values, and how many values occur once,
    each modulo [2^64]. *)
Lemma stats_next_all cnts c :
  ufits 64 (st_count c) -> ufits 64 (st_count_distinct c) -> ufits 64 (st_count_single c) ->
  foldl stats_next c cnts = mkStats (u64 (st_count c + foldr Z.add 0 cnts)) (u64 (st_count_distinct c + Z.of_nat (length cnts)))
    (u64 (st_count_single c + Z.of_nat (length (filter (fun n => n = 1) cnts)))).
Proof.
  revert c. induction cnts as [|n cnts IH]; intros c H1 H2 H3.
  { cbn. rewrite !Z.add_0_r, !uwrap_small by done. by destruct c. }
  cbn [foldl foldr]. rewrite filter_cons, IH; cbn [stats_next st_count st_count_distinct st_count_single].
  - unfold uwrap. rewrite !Zplus_mod_idemp_l. f_equal; [f_equal; lia|f_equal; cbn [length]; lia|].
    destruct (Z.eqb_spec n 1) as [E|E]; [rewrite decide_True by done|rewrite decide_False by done; done].
    rewrite Zplus_mod_idemp_l. cbn [length]. f_equal. lia.
  - by apply uwrap_range.
  - by apply uwrap_range.
  - case_match; [by apply uwrap_range|done].
Qed.

Lemma no_values_bits k : Z.testbit no_values_provided_bitmap k = (3 <=? k) && (k <=? 10).
Proof.
  change no_values_provided_bitmap with 2040. destruct (Z.leb_spec 3 k), (Z.leb_spec k 10); cbn [andb]; try lia.
  - assert (k = 3 \/ k = 4 \/ k = 5 \/ k = 6 \/ k = 7 \/ k = 8 \/ k = 9 \/ k = 10) as Hk by lia. by destruct Hk as [->|[->|[->|[->|[->|[->|[->| ->]]]]]]].
  - apply (ufits_testbit 11); [unfold ufits; lia|lia].
  - destruct (decide (k < 0)); [by apply Z.testbit_neg_r|]. assert (k = 0 \/ k = 1 \/ k = 2) as Hk by lia. by destruct Hk as [->|[->| ->]].
Qed.

(** After [set_all_nulls] and [set_not_null] for some statistics: a statistic, from
    the minimum to the histogram, is NULL unless it is one of them; and there are
    none exactly when none of the eight was set. *)
Theorem column_stat_nulls_spec c ks :
  Forall (fun k => 0 <= k < 31) ks ->
  let c' := foldl (fun c k => set_not_null k c) (set_all_nulls c) ks in
  (forall k, 0 <= k < 31 -> stat_is_null k c' = (3 <=? k) && (k <=? 10) && bool_decide (k ∉ ks)) /\
  no_stat_values_provided c' = forallb (fun k => negb ((3 <=? k) && (k <=? 10))) ks.
Proof.
  intros Hks. cbn.
  assert (forall ks c0, Forall (fun k => 0 <= k < 31) ks -> ufits 32 (column_stat_nulls c0) ->
    let b := column_stat_nulls (foldl (fun c k => set_not_null k c) c0 ks) in
    ufits 32 b /\ forall k, Z.testbit b k = Z.testbit (column_stat_nulls c0) k && bool_decide (k ∉ ks)) as G.
  { clear. induction ks as [|k ks IH]; intros c0 Hks Hc; cbn [foldl].
    - split; [done|]. intros k. rewrite bool_decide_true by set_solver. by rewrite andb_true_r.
    - apply Forall_cons in Hks as [Hk Hks]. destruct (IH (set_not_null k c0) Hks) as [H1 H2].
      { unfold set_not_null, set_nulls_bits. cbn. apply ufits_land; [lia|done|]. pose proof (unot_range 32 (1 .<< k) ltac:(lia)) as [? ?]. done. }
      split; [done|]. intros j. rewrite H2. unfold set_not_null, set_nulls_bits. cbn [column_stat_nulls].
      rewrite Z.land_spec, unot_testbit, shiftl_1_l, pow2_testbit by lia.
      destruct (decide (j = k)) as [->|Ne].
      + rewrite Z.eqb_refl, !andb_false_r. cbn. by rewrite bool_decide_false, andb_false_r by set_solver.
      + rewrite (proj2 (Z.eqb_neq j k)) by done. cbn. rewrite andb_true_r.
        destruct (Z.leb_spec 0 j), (Z.ltb_spec j 32); cbn; rewrite ?andb_true_r, ?andb_false_r; cbn.
        * f_equal. apply bool_decide_ext. set_solver.
        * by rewrite (ufits_testbit 32) by (done || lia).
        * by rewrite Z.testbit_neg_r by lia.
        * lia. }
  destruct (G ks (set_all_nulls c) Hks ltac:(unfold ufits; change (column_stat_nulls (set_all_nulls c)) with 2040; lia)) as [H1 H2]. cbn [set_all_nulls set_nulls_bits column_stat_nulls] in H2. split.
  - intros k Hk. unfold stat_is_null. rewrite shiftl_1_l, uwrap_small.
    + rewrite c_true_land_pow2 by lia. by rewrite H2, no_values_bits.
    + unfold ufits. split; [lia|]. apply Z.pow_lt_mono_r; lia.
  - unfold no_stat_values_provided. apply eq_bool_prop_intro. rewrite !Is_true_true, Z.eqb_eq, forallb_forall. split.
    + intros E k Hin. rewrite E in H2. specialize (H2 k). rewrite no_values_bits in H2. apply list_elem_of_In in Hin.
      rewrite bool_decide_false, andb_false_r in H2 by (intros Hx; by apply Hx). by rewrite H2.
    + intros HF. apply Z.bits_inj'. intros k Hk. rewrite H2. destruct (decide (k ∈ ks)) as [Hin|Hin].
      * rewrite bool_decide_false, andb_false_r by (intros Hx; by apply Hx). symmetry. rewrite no_values_bits. apply negb_true_iff, HF. by apply list_elem_of_In.
      * by rewrite bool_decide_true, andb_true_r.
Qed.

Lemma column_stat_nulls_spec_witness :
  let c' := foldl (fun c k => set_not_null k c) (set_all_nulls (mkColumn 5 0 0 0)) [3; 4] in
  stat_is_null 3 c' = false /\ stat_is_null 10 c' = true /\ no_stat_values_provided c' = false.
Proof.
  destruct (column_stat_nulls_spec (mkColumn 5 0 0 0) [3; 4] ltac:(repeat constructor; lia)) as [H1 H2].
  split; [exact (H1 3 ltac:(lia))|]. split; [exact (H1 10 ltac:(lia))|exact H2].
Defined.
