(* ===== verification/SqlHashFilo.v ===== *)
(** The cache of [private/hash_filo.h]: a hash of elements that are also linked in
    the order of their use, the least recently used one leaving when the cache is
    full.

    The links of the elements are a heap; an access through a null or dangling
    pointer, a failed assertion and a mutex used in the wrong state are [None].
    The hash ([my_hash_*] of [hash.h]) is the class [hash_table]; what the cache
    relies on is [HashLaws].  The abstract cache is the list of the elements, the
    most recently used first. *)

From S2P Require Import Prelude SqlError.

(** * The elements *)

Definition element : Type := positive.
Record links := mkLinks { next_used : option element; prev_used : option element }.
Abbreviation link_heap := (gmap element links).

Definition set_next (e : element) (v : option element) (L : link_heap) : option link_heap :=
  l ← L !! e; Some (<[e := mkLinks v (prev_used l)]> L).
Definition set_prev (e : element) (v : option element) (L : link_heap) : option link_heap :=
  l ← L !! e; Some (<[e := mkLinks (next_used l) v]> L).

(** The hash: its search, its insertion, which returns [true] when it fails, its
    deletion, its number of records, a hash that was freed with the records it
    held, and the initialisation. *)
Class hash_table (HASH Key : Type) := {
  my_hash_search : HASH -> Key -> option element;
  my_hash_insert : HASH -> element -> bool * HASH;
  my_hash_delete : HASH -> element -> HASH;
  records : HASH -> Z;
  my_hash_free : HASH -> HASH * list element;
  my_hash_init : HASH -> Z -> HASH
}.

(** * [hash_filo] *)

Section hash_filo.
Context `{hash_table HASH Key}.

Record hash_filo := mkFilo {
  m_size : Z; free_element : bool; init : bool; first_link : option element; last_link : option element;
  lock : bool; cache : HASH
}.

Definition new_hash_filo (size_arg : Z) (free_element_arg : bool) (zeroed : HASH) : hash_filo :=
  mkFilo size_arg free_element_arg false None None false zeroed.

Definition with_links (f l : option element) (c : hash_filo) : hash_filo :=
  mkFilo (m_size c) (free_element c) (init c) f l (lock c) (cache c).
Definition with_cache (h : HASH) (c : hash_filo) : hash_filo :=
  mkFilo (m_size c) (free_element c) (init c) (first_link c) (last_link c) (lock c) h.
Definition with_size (n : Z) (c : hash_filo) : hash_filo :=
  mkFilo n (free_element c) (init c) (first_link c) (last_link c) (lock c) (cache c).
Definition with_init (i l : bool) (c : hash_filo) : hash_filo :=
  mkFilo (m_size c) (free_element c) i (first_link c) (last_link c) l (cache c).
(** A mutex is initialised before it is locked, and not locked twice by a thread. *)
Definition mutex_lock (c : hash_filo) : option hash_filo :=
  asserting (init c && negb (lock c)) (with_init (init c) true c).
Definition mutex_unlock (c : hash_filo) : option hash_filo :=
  asserting (init c && lock c) (with_init (init c) false c).

(** Freeing an element takes it out of the heap. *)
Definition release_element (c : hash_filo) (e : element) (L : link_heap) : link_heap :=
  if free_element c then delete e L else L.

Definition filo_clear (locked : bool) (c : hash_filo) (L : link_heap) : option (hash_filo * link_heap) :=
  let c := if init c then c else with_init true false c in
  c ← (if locked then Some c else mutex_lock c);
  let c := with_links None None c in
  let '(h, es) := my_hash_free (cache c) in
  let L := foldr (release_element c) L es in
  let c := with_cache (my_hash_init h (m_size c)) c in
  c ← (if locked then Some c else mutex_unlock c);
  Some (c, L).

Definition filo_first (c : hash_filo) : option (option element) := asserting (lock c) (first_link c).
Definition filo_last (c : hash_filo) : option (option element) := asserting (lock c) (last_link c).

(** The links after taking [entry] out of the chain, and the last link. *)
Definition unlink_entry (entry : element) (first last : element) (L : link_heap) : option (link_heap * option element) :=
  if bool_decide (entry = last)
  then
    l ← L !! last;
    p ← prev_used l;
    L ← set_next p None L;
    Some (L, Some p)
  else
    l ← L !! entry;
    n ← next_used l;
    p ← prev_used l;
    L ← set_prev n (Some p) L;
    L ← set_next p (Some n) L;
    Some (L, Some last).

Definition filo_search (key : Key) (c : hash_filo) (L : link_heap) : option (option element * hash_filo * link_heap) :=
  _ ← asserting (lock c) tt;
  match my_hash_search (cache c) key with
  | None => Some (None, c, L)
  | Some entry =>
      first ← first_link c;
      last ← last_link c;
      if bool_decide (entry = first) then Some (Some entry, c, L)
      else
        '(L, last') ← unlink_entry entry first last L;
        L ← set_prev entry None L;
        L ← set_next entry (Some first) L;
        L ← set_prev first (Some entry) L;
        Some (Some entry, with_links (Some entry) last' c, L)
  end.

(** The eviction of the least recently used element. *)
Definition filo_evict (c : hash_filo) (L : link_heap) : option (hash_filo * link_heap) :=
  tmp ← last_link c;
  l ← L !! tmp;
  '(first, L) ← (match prev_used l with
    | Some p => L ← set_next p None L; Some (first_link c, L)
    | None => Some (None, L)
    end);
  Some (with_cache (my_hash_delete (cache c) tmp) (with_links first (prev_used l) c), release_element c tmp L).

Definition filo_add (entry : element) (c : hash_filo) (L : link_heap) : option (bool * hash_filo * link_heap) :=
  if m_size c =? 0 then Some (true, c, L)
  else
    '(c, L) ← (if records (cache c) =? m_size c then filo_evict c L else Some (c, L));
    let '(failed, h) := my_hash_insert (cache c) entry in
    let c := with_cache h c in
    if failed then Some (true, c, release_element c entry L)
    else
      L ← set_prev entry None L;
      L ← set_next entry (first_link c) L;
      '(last, L) ← (match first_link c with
        | Some f => L ← set_prev f (Some entry) L; Some (last_link c, L)
        | None => Some (Some entry, L)
        end);
      Some (false, with_links (Some entry) last c, L).

Definition filo_resize (new_size : Z) (c : hash_filo) (L : link_heap) : option (hash_filo * link_heap) :=
  c ← mutex_lock c;
  '(c, L) ← filo_clear true (with_size new_size c) L;
  c ← mutex_unlock c;
  Some (c, L).
End hash_filo.

Arguments hash_filo : clear implicits.

(** * Chains of links *)

(** The elements [xs] are linked to each other, to [p] before the first and to [t] after the last. *)
Fixpoint chain (L : link_heap) (p : option element) (xs : list element) (t : option element) : Prop :=
  match xs with
  | [] => True
  | x :: xs => L !! x = Some (mkLinks (match xs with [] => t | y :: _ => Some y end) p) /\ chain L (Some x) xs t
  end.

Definition or_head (xs : list element) (t : option element) : option element := match xs with [] => t | y :: _ => Some y end.

Lemma filo_chain_app L p xs ys t :
  chain L p (xs ++ ys) t <-> chain L p xs (or_head ys t) /\ chain L (from_option Some p (last xs)) ys t.
Proof.
  revert p. induction xs as [|x xs IH]; intros p; [cbn; tauto|]. cbn [app chain]. rewrite IH.
  assert (from_option Some p (last (x :: xs)) = from_option Some (Some x) (last xs)) as ->.
  { destruct xs as [|y xs]; [done|]. change (last (x :: y :: xs)) with (last (y :: xs)).
    destruct (last (y :: xs)) eqn:E; [done|by apply last_None in E]. }
  destruct xs as [|y xs]; cbn [app]; tauto.
Qed.

Lemma chain_insert L p xs t y l : y ∉ xs -> chain L p xs t -> chain (<[y := l]> L) p xs t.
Proof.
  revert p. induction xs as [|x xs IH]; intros p Hy; [done|]. apply not_elem_of_cons in Hy as [Hx Hy]. cbn [chain].
  intros [E H]. split; [by rewrite lookup_insert_ne|]. by apply IH.
Qed.
Lemma chain_delete L p xs t y : y ∉ xs -> chain L p xs t -> chain (delete y L) p xs t.
Proof.
  revert p. induction xs as [|x xs IH]; intros p Hy; [done|]. apply not_elem_of_cons in Hy as [Hx Hy]. cbn [chain].
  intros [E H]. split; [by rewrite lookup_delete_ne|]. by apply IH.
Qed.

(** The first element gets another predecessor. *)
Lemma chain_set_prev L p q x xs t : chain L p (x :: xs) t -> x ∉ xs ->
  exists L', set_prev x q L = Some L' /\ chain L' q (x :: xs) t /\
    (forall r ys u, x ∉ ys -> chain L r ys u -> chain L' r ys u) /\ (forall y, y <> x -> L' !! y = L !! y).
Proof.
  cbn [chain]. intros [E H] Hx. unfold set_prev. rewrite E. cbn [mbind option_bind]. eexists. split; [done|]. split_and!.
  - by rewrite lookup_insert_eq.
  - by apply chain_insert.
  - intros r ys u Hy. by apply chain_insert.
  - intros y Hy. by rewrite lookup_insert_ne.
Qed.

(** The last element gets another successor. *)
Lemma chain_set_next L p xs z t u : chain L p (xs ++ [z]) t -> z ∉ xs ->
  exists L', set_next z u L = Some L' /\ chain L' p (xs ++ [z]) u /\
    (forall r ys v, z ∉ ys -> chain L r ys v -> chain L' r ys v) /\ (forall y, y <> z -> L' !! y = L !! y).
Proof.
  rewrite !filo_chain_app. cbn [chain or_head]. intros [H [E _]] Hz. unfold set_next. rewrite E. cbn [mbind option_bind]. eexists. split; [done|]. split_and!.
  - rewrite filo_chain_app. split; [by apply chain_insert|]. cbn [chain]. by rewrite lookup_insert_eq.
  - intros r ys v Hy. by apply chain_insert.
  - intros y Hy. by rewrite lookup_insert_ne.
Qed.

(** Setting a link of an element neither allocates nor frees one. *)
Lemma set_next_dom e v L L' : set_next e v L = Some L' -> dom L' = dom L.
Proof. unfold set_next. destruct (L !! e) eqn:E; [|done]. intros [= <-]. apply dom_insert_lookup_L. eauto. Qed.
Lemma set_prev_dom e v L L' : set_prev e v L = Some L' -> dom L' = dom L.
Proof. unfold set_prev. destruct (L !! e) eqn:E; [|done]. intros [= <-]. apply dom_insert_lookup_L. eauto. Qed.
Ltac links_dom :=
  repeat match goal with
  | H : set_next _ _ _ = Some _ |- _ => apply set_next_dom in H
  | H : set_prev _ _ _ = Some _ |- _ => apply set_prev_dom in H
  end; congruence.
Lemma unlink_entry_dom e f z L L' l : unlink_entry e f z L = Some (L', l) -> dom L' = dom L.
Proof.
  unfold unlink_entry. intros Hu. destruct (bool_decide (e = z)); repeat (apply bind_Some in Hu as (? & ? & Hu));
    injection Hu as <- <-; links_dom.
Qed.

(** An element that is not in the chain becomes its first. *)
Lemma link_first L e ys : chain L None ys None -> NoDup ys -> e ∉ ys -> is_Some (L !! e) ->
  exists L1 L2, set_prev e None L = Some L1 /\ set_next e (head ys) L1 = Some L2 /\
    match ys with
    | [] => chain L2 None [e] None
    | f :: _ => exists L3, set_prev f (Some e) L2 = Some L3 /\ chain L3 None (e :: ys) None
    end.
Proof.
  intros H Hnd He [l El]. unfold set_prev at 1. rewrite El. cbn [mbind option_bind]. eexists _, _. split; [done|].
  unfold set_next. rewrite lookup_insert_eq. cbn [mbind option_bind next_used prev_used]. split; [done|].
  rewrite insert_insert_eq. set (L2 := <[e := _]> L). assert (chain L2 None ys None) as H2 by (by apply chain_insert).
  assert (L2 !! e = Some (mkLinks (head ys) None)) as E2 by (unfold L2; by rewrite lookup_insert_eq).
  clearbody L2. destruct ys as [|f ys]; cbn [head chain] in *; [done|].
  apply not_elem_of_cons in He as [Hf He]. apply list.NoDup_cons in Hnd as [Hfy Hnd]. destruct H2 as [Ef H2].
  unfold set_prev. rewrite Ef. cbn [mbind option_bind next_used]. eexists. split; [done|].
  rewrite lookup_insert_ne, E2, lookup_insert_eq by done. split_and!; [done..|]. by apply chain_insert.
Qed.

(** An element that is not the first is taken out of the chain. *)
Lemma unlink_middle L a p e b first last_ : NoDup (a ++ p :: e :: b) -> chain L None (a ++ p :: e :: b) None ->
  last (e :: b) = Some last_ ->
  exists L', unlink_entry e first last_ L = Some (L', last (p :: b)) /\ chain L' None (a ++ p :: b) None /\
    is_Some (L' !! e).
Proof.
  intros Hnd H Hl. unfold unlink_entry. apply list.NoDup_app in Hnd as (Ha & Hd & Hb).
  apply list.NoDup_cons in Hb as [Hp Hb]. apply list.NoDup_cons in Hb as [He Hb]. apply not_elem_of_cons in Hp as [Hpe Hp].
  assert (p ∉ a /\ e ∉ a) as [Hpa Hea] by (split; intros Hin; apply (Hd _ Hin); set_solver).
  apply filo_chain_app in H as [Hca H]. cbn [or_head] in Hca. cbn [chain] in H. destruct H as (Ep & Ee & Hcb).
  destruct b as [|n b].
  - cbn in Hl. injection Hl as <-. rewrite bool_decide_eq_true_2 by done. rewrite Ee. cbn [mbind option_bind prev_used].
    unfold set_next. rewrite Ep. cbn [mbind option_bind prev_used]. eexists. split; [done|].
    rewrite lookup_insert_ne by done. split; [|eauto]. apply filo_chain_app. cbn [or_head chain]. rewrite lookup_insert_eq.
    split; [by apply chain_insert|done].
  - assert (e <> last_) as Hne.
    { intros ->. apply He. change (last (last_ :: n :: b)) with (last (n :: b)) in Hl. by apply last_Some_elem_of. }
    rewrite bool_decide_eq_false_2 by done. rewrite Ee. cbn [mbind option_bind prev_used next_used].
    apply not_elem_of_cons in He as [Hen He]. apply not_elem_of_cons in Hp as [Hpn Hp].
    apply list.NoDup_cons in Hb as [Hn Hb]. assert (n ∉ a) as Hna by (intros Hin; apply (Hd _ Hin); set_solver).
    destruct Hcb as [En Hcb]. unfold set_prev, set_next. rewrite En. cbn [mbind option_bind next_used].
    rewrite lookup_insert_ne, Ep by done. cbn [mbind option_bind prev_used]. eexists. split.
    { do 3 f_equal. symmetry. exact Hl. }
    rewrite !lookup_insert_ne by done. split; [|eauto]. apply filo_chain_app. cbn [or_head]. split; [by repeat (apply chain_insert; [done|])|].
    cbn [chain]. rewrite lookup_insert_eq, lookup_insert_ne, lookup_insert_eq by done. split_and!; [done..|].
    by repeat (apply chain_insert; [done|]).
Qed.

(** * The cache as a list of elements by use *)

(** What the cache relies on: a hash holds a set of elements, counts them, finds
    one that matches the key if there is one, and frees the ones it holds. *)
Class HashLaws (HASH Key : Type) `{hash_table HASH Key} (matches : element -> Key -> bool) (contents : HASH -> gset element) := {
  records_size h : records h = Z.of_nat (size (contents h));
  search_found h k e : my_hash_search h k = Some e -> e ∈ contents h /\ matches e k = true;
  search_missed h k : my_hash_search h k = None -> forall e, e ∈ contents h -> matches e k = false;
  insert_contents h e : e ∉ contents h ->
    contents (my_hash_insert h e).2 = if (my_hash_insert h e).1 then contents h else {[e]} ∪ contents h;
  delete_contents h e : e ∈ contents h -> contents (my_hash_delete h e) = contents h ∖ {[e]};
  free_contents h : list_to_set (my_hash_free h).2 = contents h;
  init_contents h n : contents (my_hash_init h n) = ∅
}.

(** The element moves to the front. *)
Definition used (e : element) (xs : list element) : list element := e :: filter (.≠ e) xs.
(** The elements without the last one when there are [n]. *)
Definition evicted (n : Z) (xs : list element) : list element :=
  if Z.of_nat (length xs) =? n then take (length xs - 1) xs else xs.

Lemma filter_ne_not_in e (xs : list element) : e ∉ xs -> filter (.≠ e) xs = xs.
Proof.
  induction xs as [|x xs IH]; intros Hn; [done|]. apply not_elem_of_cons in Hn as [Hx Hn].
  rewrite filter_cons_True by done. by rewrite IH.
Qed.
Lemma filter_ne_middle (e : element) a b : e ∉ a -> e ∉ b -> filter (.≠ e) (a ++ e :: b) = a ++ b.
Proof. intros Ha Hb. rewrite filter_app, filter_cons_False by auto. by rewrite !filter_ne_not_in. Qed.
Lemma used_permutation e xs : NoDup xs -> e ∈ xs -> used e xs ≡ₚ xs.
Proof.
  intros Hnd He. apply list_elem_of_split in He as (a & b & ->). apply list.NoDup_app in Hnd as (Ha & Hd & Hb).
  apply list.NoDup_cons in Hb as [Hb _]. unfold used. rewrite filter_ne_middle; [apply Permutation_middle| |done].
  intros Hin. apply (Hd _ Hin). set_solver.
Qed.

Section refinement.
Context `{HashLaws HASH Key matches contents}.

Record filo_rep (c : hash_filo HASH) (L : link_heap) (xs : list element) : Prop := {
  rep_nodup : NoDup xs;
  rep_chain : chain L None xs None;
  rep_first : first_link c = head xs;
  rep_last : last_link c = last xs;
  rep_contents : contents (cache c) = list_to_set xs;
  rep_length : Z.of_nat (length xs) <= m_size c
}.

Lemma rep_records c L xs : filo_rep c L xs -> records (cache c) = Z.of_nat (length xs).
Proof. intros Hr. rewrite records_size, (rep_contents _ _ _ Hr), size_list_to_set; [done|]. by destruct Hr. Qed.

Lemma rep_chain_in L p xs t e : chain L p xs t -> e ∈ xs -> is_Some (L !! e).
Proof.
  revert p. induction xs as [|x xs IH]; intros p Hc He; [by apply elem_of_nil in He|]. destruct Hc as [E Hc].
  apply elem_of_cons in He as [->|He]; [eauto|]. by apply (IH (Some x)).
Qed.


(** Searching moves the found element to the front, and leaves the others in their order. *)
Lemma search_rep key c L xs : filo_rep c L xs -> lock c = true ->
  match my_hash_search (cache c) key with
  | None => filo_search key c L = Some (None, c, L)
  | Some e => e ∈ xs /\ exists c' L', filo_search key c L = Some (Some e, c', L') /\ filo_rep c' L' (used e xs) /\
      cache c' = cache c /\ m_size c' = m_size c /\ lock c' = true
  end.
Proof.
  intros Hr Hl. unfold filo_search. rewrite Hl. cbn [asserting mbind option_bind].
  destruct (my_hash_search (cache c) key) as [e|] eqn:Es; [|done].
  apply search_found in Es as [He _]. rewrite (rep_contents _ _ _ Hr), elem_of_list_to_set in He.
  split; [done|]. pose proof Hr as [Hnd Hch Hf Hla Hco Hlen].
  pose proof He as (a & b & ->)%list_elem_of_split. rewrite Hf, Hla.
  pose proof Hnd as (Ha & Hd & Hb)%list.NoDup_app. apply list.NoDup_cons in Hb as [Hb Hndb].
  assert (e ∉ a) as Hea by (intros Hin; apply (Hd _ Hin); set_solver).
  pose proof (used_permutation e _ Hnd He) as Hperm. unfold used in *. rewrite filter_ne_middle in * by done.
  rewrite last_app_cons in *. destruct (last (e :: b)) as [z|] eqn:Ez; [|by apply last_None in Ez].
  destruct a as [|f a]; cbn [app head] in *; cbn [mbind option_bind].
  { rewrite bool_decide_eq_true_2 by done. eauto 10. }
  apply not_elem_of_cons in Hea as [Hef Hea]. rewrite bool_decide_eq_false_2 by done.
  destruct (exists_last (l := f :: a)) as (a' & p & Ea); [done|].
  rewrite !app_comm_cons in *. rewrite Ea in *. rewrite <-!app_assoc in *. cbn [app] in *.
  assert ((a' ++ [p]) ++ b = a' ++ p :: b) as Hass by (by rewrite <-app_assoc). rewrite ?Hass in *. clear Hass.
  destruct (unlink_middle _ _ _ _ _ f z Hnd Hch Ez) as (L1 & -> & Hch1 & He1). cbn [mbind option_bind].
  assert (head (a' ++ p :: b) = Some f) as Hhd by (rewrite (cons_middle p a' b), app_assoc, <-Ea; done).
  rewrite <-Hperm in Hnd. pose proof (Hnd) as [Hen Hnd']%list.NoDup_cons.
  destruct (link_first L1 e _ Hch1 Hnd' Hen He1) as (L2 & L3 & -> & E3 & Hm). cbn [mbind option_bind].
  rewrite Hhd in E3. rewrite E3. cbn [mbind option_bind].
  destruct (a' ++ p :: b) as [|f' ys] eqn:Ey; [done|]. cbn in Hhd. injection Hhd as ->.
  destruct Hm as (L4 & -> & Hch4). cbn [mbind option_bind]. eexists _, _. split; [done|]. split_and!; [|done..].
  split; cbn -[last]; [done|done|done| | |by rewrite <-Hperm in Hlen].
  - change (last (e :: f :: ys)) with (last (f :: ys)). by rewrite <-Ey, last_app_cons.
  - rewrite Hco. symmetry. exact (list_to_set_perm_L _ _ Hperm).
Qed.

Lemma rep_release c L xs e : filo_rep c L xs -> e ∉ xs -> filo_rep c (release_element c e L) xs.
Proof. intros [Hnd Hch ? ? ? ?] He. unfold release_element. destruct free_element; split; try done. by apply chain_delete. Qed.

(** The eviction takes the last element out, and leaves the links of those outside the cache. *)
Lemma evict_rep c L ys z : filo_rep c L (ys ++ [z]) ->
  exists c' L', filo_evict c L = Some (c', L') /\ filo_rep c' L' ys /\ Z.of_nat (length ys) < m_size c' /\
    m_size c' = m_size c /\ lock c' = lock c /\ free_element c' = free_element c /\
    (forall e, e ∉ ys ++ [z] -> L' !! e = L !! e).
Proof.
  intros [Hnd Hch Hf Hl Hc Hlen]. unfold filo_evict. rewrite Hl, last_snoc. cbn [mbind option_bind].
  pose proof Hch as [Hcy [Ez _]]%filo_chain_app. cbn [or_head] in Hcy. rewrite Ez. cbn [mbind option_bind prev_used].
  apply list.NoDup_app in Hnd as (Hnd & Hd & _). assert (z ∉ ys) as Hz by (intros Hin; apply (Hd _ Hin); set_solver).
  rewrite length_app in Hlen. cbn [length] in Hlen.
  assert (contents (my_hash_delete (cache c) z) = list_to_set ys) as Hcd.
  { rewrite delete_contents, Hc by (rewrite Hc; set_solver). set_solver. }
  destruct (exists_last_or_nil ys) as [->|(a & p & ->)]; cbn [from_option last app head] in *.
  - cbn [mbind option_bind]. eexists _, _. split; [done|]. split; [|split; [cbn; lia|]].
    + split; cbn; try done; lia.
    + split_and!; try done. intros e He. unfold release_element. destruct free_element; [|done]. cbn.
      apply lookup_delete_ne. set_solver.
  - rewrite last_snoc. cbn [from_option]. apply not_elem_of_app in Hz as [Hza Hzp%not_elem_of_cons].
    apply list.NoDup_app in Hnd as (Hna & Hda & _).
    assert (p ∉ a) as Hp by (intros Hin; apply (Hda _ Hin); set_solver).
    destruct (chain_set_next _ _ _ _ _ None Hcy Hp) as (L1 & -> & Hch1 & _ & Hsame). cbn [mbind option_bind].
    eexists _, _. split; [done|]. split; [|split; [cbn in *; lia|]].
    + set (c' := with_cache _ _). change (release_element c) with (release_element c').
      apply rep_release; [|set_solver]. split; cbn -[last]; try done.
      * rewrite list.NoDup_app. split_and!; [done..|]. apply NoDup_singleton.
      * rewrite Hf. by destruct a.
      * by rewrite last_snoc.
      * lia.
    + split_and!; try done. intros e He. rewrite <-(Hsame e) by set_solver. unfold release_element. cbn. destruct free_element; [|done].
      apply lookup_delete_ne. set_solver.
Qed.

(** An element outside the cache becomes the first one. *)
Lemma push_rep e c L ys h : filo_rep c L ys -> Z.of_nat (length ys) < m_size c -> e ∉ ys -> is_Some (L !! e) ->
  contents h = {[e]} ∪ contents (cache c) ->
  exists L1 L2 last' L3, set_prev e None L = Some L1 /\ set_next e (first_link c) L1 = Some L2 /\
    match first_link c with
    | Some f => L3 ← set_prev f (Some e) L2; Some (last_link c, L3)
    | None => Some (Some e, L2)
    end = Some (last', L3) /\ filo_rep (with_links (Some e) last' (with_cache h c)) L3 (e :: ys).
Proof.
  intros [Hnd Hch Hf Hl Hc Hlen] Hlt He Hin Hh. rewrite Hf.
  destruct (link_first L e ys Hch Hnd He Hin) as (L1 & L2 & E1 & E2 & Hm).
  destruct ys as [|f ys]; cbn [head] in *.
  - eexists L1, L2, _, _. split_and!; [done..|]. split; cbn in *; try done; try lia.
    + apply NoDup_singleton.
    + by rewrite Hh, Hc.
  - destruct Hm as (L3 & E3 & Hm). eexists L1, L2, _, _. rewrite E3. cbn [mbind option_bind]. split_and!; [done..|].
    split; cbn -[last]; try done.
    + by apply list.NoDup_cons.
    + by rewrite Hh, Hc.
    + cbn in Hlt |- *. lia.
Qed.

(** Adding evicts the least recently used element when the cache is full, whether or
    not the insertion into the hash then fails. *)
Lemma add_rep e c L xs : filo_rep c L xs -> 0 < m_size c -> e ∉ xs -> is_Some (L !! e) ->
  exists r c' L', filo_add e c L = Some (r, c', L') /\ m_size c' = m_size c /\ lock c' = lock c /\
    filo_rep c' L' (if r then evicted (m_size c) xs else e :: evicted (m_size c) xs) /\
    ((forall h, (my_hash_insert h e).1 = false) -> r = false) /\
    (forall y, y ∉ e :: xs -> y ∈ dom L -> y ∈ dom L').
Proof.
  intros Hr Hpos He Hin. unfold filo_add. rewrite (proj2 (Z.eqb_neq _ _)) by lia. rewrite (rep_records _ _ _ Hr).
  set (ys := evicted (m_size c) xs).
  assert (exists c1 L1, (if Z.of_nat (length xs) =? m_size c then filo_evict c L else Some (c, L)) = Some (c1, L1) /\
    filo_rep c1 L1 ys /\ Z.of_nat (length ys) < m_size c1 /\ m_size c1 = m_size c /\ lock c1 = lock c /\ e ∉ ys /\
    forall y, y ∉ xs -> y ∈ dom L -> y ∈ dom L1) as (c1 & L1 & -> & Hr1 & Hlt & Hms & Hlk & He1 & Hdom).
  { unfold ys, evicted. destruct (Z.eqb_spec (Z.of_nat (length xs)) (m_size c)) as [E|E].
    - destruct (exists_last_or_nil xs) as [->|(us & z & ->)]; [cbn in E; lia|]. rewrite length_app. cbn [length].
      replace (length us + 1 - 1)%nat with (length us) by lia. rewrite take_app_length.
      destruct (evict_rep _ _ _ _ Hr) as (c1 & L1 & -> & Hr1 & Hlt & Hms & Hlk & _ & Hsame). exists c1, L1.
      split_and!; try done; [set_solver|]. intros y Hy. by rewrite !elem_of_dom, Hsame.
    - exists c, L. split_and!; try done. pose proof (rep_length _ _ _ Hr). lia. }
  assert (is_Some (L1 !! e)) as Hin1 by (by apply elem_of_dom, Hdom, elem_of_dom).
  cbn [mbind option_bind].
  assert (e ∉ contents (cache c1)) as Hec by (rewrite (rep_contents _ _ _ Hr1); set_solver).
  pose proof (insert_contents (cache c1) e Hec) as Hic.
  destruct (my_hash_insert (cache c1) e) as [[] h] eqn:Ei; cbn [fst snd] in Hic.
  - eexists _, _, _. split; [done|]. split_and!; try done.
    + apply rep_release; [|done]. destruct Hr1. split; cbn; congruence.
    + intros Hno. specialize (Hno (cache c1)). by rewrite Ei in Hno.
    + intros y Hy Hyd. unfold release_element. destruct free_element; [|set_solver]. rewrite dom_delete. set_solver.
  - destruct (push_rep e c1 L1 ys h Hr1 Hlt He1 Hin1 Hic) as (L2 & L3 & l' & L4 & E2 & E3 & E4 & Hr').
    cbn [first_link last_link with_cache] in *. rewrite E2. cbn [mbind option_bind]. rewrite E3. cbn [mbind option_bind].
    rewrite E4. cbn [mbind option_bind]. eexists _, _, _. split_and!; try done.
    intros y Hy Hyd. assert (dom L4 = dom L1) as ->; [|apply Hdom; set_solver].
    destruct (first_link c1); [apply bind_Some in E4 as (? & ? & E4)|]; injection E4 as <- <-; links_dom.
Qed.

(** Clearing empties the cache; the mutex is initialised the first time. *)
Lemma clear_rep b c L : 0 <= m_size c -> (b = lock c /\ init c = true) \/ (b = false /\ lock c = false) ->
  exists c' L', filo_clear b c L = Some (c', L') /\ m_size c' = m_size c /\ lock c' = lock c /\ init c' = true /\
    filo_rep c' L' [].
Proof.
  intros Hm Hb. unfold filo_clear, mutex_lock, mutex_unlock.
  assert (forall c2, first_link c2 = None -> last_link c2 = None -> m_size c2 = m_size c -> contents (cache c2) = ∅ ->
    forall L2, filo_rep c2 L2 []) as Hrep.
  { intros c2 Hf Hl Hs Hc L2. split; cbn; try done; [apply NoDup_nil_2|lia]. }
  destruct Hb as [[-> Hi]|[-> Hlk]].
  - rewrite Hi. destruct (lock c) eqn:El; cbn; rewrite ?Hi, ?El; cbn; destruct (my_hash_free (cache c)) as [h es];
      cbn; rewrite ?Hi; cbn; eexists _, _; (split; [done|]); split_and!; try done; apply Hrep; try done; apply init_contents.
  - destruct (init c) eqn:Hi; cbn; rewrite ?Hi, ?Hlk; cbn; destruct (my_hash_free (cache c)) as [h es];
      cbn; rewrite ?Hi; cbn; eexists _, _; (split; [done|]); split_and!; try done; apply Hrep; try done; apply init_contents.
Qed.

(** A resized cache is empty and keeps at most the new number of elements; the mutex
    must have been initialised by [clear], which [resize] calls too late. *)
Lemma filo_resize_rep n c L : 0 <= n -> lock c = false ->
  if init c
  then exists c' L', filo_resize n c L = Some (c', L') /\ m_size c' = n /\ lock c' = false /\ filo_rep c' L' []
  else filo_resize n c L = None.
Proof.
  intros Hn Hl. unfold filo_resize, mutex_lock. rewrite Hl. destruct (init c) eqn:Hi; [|done]. cbn [andb negb asserting mbind option_bind].
  destruct (clear_rep true (with_size n (with_init true true c)) L) as (c' & L' & -> & Hm & Hl' & Hi' & [? ? ? ? Hc ?]); [done|by left|].
  cbn [mbind option_bind]. unfold mutex_unlock. rewrite Hi', Hl'. cbn [lock with_size with_init andb asserting mbind option_bind].
  eexists _, _. split; [done|]. split_and!; [done..|]. split; cbn; try done; solve [apply NoDup_nil_2 | by rewrite Hm].
Qed.

Lemma search_dom key c L r c' L' : filo_search key c L = Some (r, c', L') -> dom L' = dom L.
Proof.
  unfold filo_search. intros Hs. apply bind_Some in Hs as (_ & _ & Hs).
  destruct (my_hash_search (cache c) key) as [e|]; [|by injection Hs as <- <- <-].
  apply bind_Some in Hs as (f & _ & Hs). apply bind_Some in Hs as (z & _ & Hs).
  destruct (bool_decide (e = f)); [by injection Hs as <- <- <-|].
  apply bind_Some in Hs as ([L1 l'] & Hu%unlink_entry_dom & Hs). repeat (apply bind_Some in Hs as (? & ? & Hs)).
  injection Hs as <- <- <-. links_dom.
Qed.
End refinement.

Arguments filo_rep {HASH} contents c L xs.

(** * Sequences of searches and additions *)

Inductive cache_op (Key : Type) := Search (key : Key) | Add (e : element).
Arguments Search {Key}.
Arguments Add {Key}.

(** The distinct elements of a list of uses, the most recently used first. *)
Fixpoint by_recency (us : list element) : list element :=
  match us with
  | [] => []
  | e :: us => used e (by_recency us)
  end.

Lemma by_recency_nodup us : NoDup (by_recency us).
Proof.
  induction us as [|e us IH]; cbn; [apply NoDup_nil_2|]. apply list.NoDup_cons. split; [|by apply list.NoDup_filter].
  rewrite list_elem_of_filter. tauto.
Qed.
Lemma by_recency_in e us : e ∈ by_recency us <-> e ∈ us.
Proof.
  induction us as [|x us IH]; cbn; [done|]. unfold used. rewrite !elem_of_cons, list_elem_of_filter, IH.
  destruct (decide (e = x)); tauto.
Qed.

Lemma take_filter_in (e : element) n (xs : list element) : e ∈ take n xs -> NoDup xs ->
  filter (.≠ e) (take n xs) = take (n - 1) (filter (.≠ e) xs).
Proof.
  revert xs. induction n as [|n IH]; intros xs He Hnd; [by apply elem_of_nil in He|].
  destruct xs as [|x xs]; [by apply elem_of_nil in He|]. cbn [take] in *. apply list.NoDup_cons in Hnd as [Hx Hnd].
  destruct (decide (x = e)) as [->|Hne].
  - rewrite !filter_cons_False by auto. rewrite !filter_ne_not_in; [by replace (S n - 1)%nat with n by lia|done|].
    intros (i & Hi & _)%elem_of_take. by apply Hx, (list_elem_of_lookup_2 _ i).
  - rewrite !filter_cons_True by done. apply elem_of_cons in He as [->|He]; [done|]. rewrite IH by done.
    destruct n as [|n]; [by apply elem_of_nil in He|]. cbn [Nat.sub take]. by rewrite Nat.sub_0_r.
Qed.

(** The cache of the [n] most recently used ones, when another one is used. *)
Lemma take_used_hit e n us : e ∈ take n (by_recency us) -> used e (take n (by_recency us)) = take n (by_recency (e :: us)).
Proof.
  intros He. cbn [by_recency]. unfold used. rewrite take_filter_in; [|done|apply by_recency_nodup].
  destruct n as [|n]; [by apply elem_of_nil in He|]. cbn [take]. by replace (S n - 1)%nat with n by lia.
Qed.
Lemma take_used_miss e n us : e ∉ us -> (0 < n)%nat ->
  e :: evicted (Z.of_nat n) (take n (by_recency us)) = take n (by_recency (e :: us)).
Proof.
  intros He Hn. cbn [by_recency]. unfold used. rewrite filter_ne_not_in by (by rewrite by_recency_in).
  destruct n as [|n]; [lia|]. cbn [take]. f_equal. unfold evicted. rewrite length_take.
  destruct (Z.eqb_spec (Z.of_nat (S n `min` length (by_recency us))) (Z.of_nat (S n))) as [E|E].
  - rewrite take_take. f_equal. lia.
  - rewrite !take_ge by lia. done.
Qed.

Section sequences.
Context `{HashLaws HASH Key matches contents}.

(** An operation gives the element that it uses, a miss and a failed insertion none. *)
Definition run_op (op : cache_op Key) (c : hash_filo HASH) (L : link_heap) : option (option element * hash_filo HASH * link_heap) :=
  match op with
  | Search key => filo_search key c L
  | Add e => r ← filo_add e c L; Some (if (r.1.1 : bool) then None else Some e, r.1.2, r.2)
  end.

(** The elements used, the last one first. *)
Fixpoint run_ops (ops : list (cache_op Key)) (c : hash_filo HASH) (L : link_heap) (us : list element) :
    option (list element * hash_filo HASH * link_heap) :=
  match ops with
  | [] => Some (us, c, L)
  | op :: ops => '(r, c, L) ← run_op op c L; run_ops ops c L (option_list r ++ us)
  end.

Definition added (ops : list (cache_op Key)) : list element := omap (λ op : cache_op Key, match op with Search _ => None | Add e => Some e end) ops.

(** An addition to a cache of the [n] most recently used elements. *)
Lemma add_most_recent n e c L us : filo_rep contents c L (take n (by_recency us)) -> m_size c = Z.of_nat n -> (0 < n)%nat ->
  lock c = true -> (forall h x, (my_hash_insert h x).1 = false) -> e ∉ us -> e ∈ dom L ->
  exists c' L', filo_add e c L = Some (false, c', L') /\ m_size c' = Z.of_nat n /\ lock c' = true /\
    filo_rep contents c' L' (take n (by_recency (e :: us))) /\ (forall y, y ∉ e :: us -> y ∈ dom L -> y ∈ dom L').
Proof.
  intros Hr Hm Hn Hl Hins He Hin. assert (forall y, y ∈ take n (by_recency us) -> y ∈ us) as Hsub.
  { intros y (i & Hi & _)%elem_of_take. by apply by_recency_in, (list_elem_of_lookup_2 _ i). }
  destruct (add_rep e c L _ Hr) as (r & c' & L' & E & Hm' & Hl' & Hr' & Hf & Hd); [lia|auto|by apply elem_of_dom|].
  rewrite Hf in * by done. exists c', L'. rewrite Hm, take_used_miss in Hr' by done.
  split_and!; [done|congruence|congruence|done|]. intros y Hy. apply Hd. set_solver.
Qed.

Lemma run_most_recent n ops c L us : filo_rep contents c L (take n (by_recency us)) -> m_size c = Z.of_nat n -> (0 < n)%nat ->
  lock c = true -> (forall h x, (my_hash_insert h x).1 = false) ->
  NoDup (added ops) -> (forall e, e ∈ added ops -> e ∈ dom L /\ e ∉ us) ->
  exists us' c' L', run_ops ops c L us = Some (us', c', L') /\ m_size c' = Z.of_nat n /\
    filo_rep contents c' L' (take n (by_recency us')).
Proof.
  revert c L us. induction ops as [|[key|e] ops IH]; intros c L us Hr Hm Hn Hl Hins Hnd Hadd; cbn [run_ops run_op].
  - eauto 10.
  - pose proof (search_rep key c L _ Hr Hl) as Hs. destruct (my_hash_search (cache c) key) as [e|].
    + destruct Hs as (Hin & c' & L' & E & Hr' & _ & Hm' & Hl'). pose proof (search_dom _ _ _ _ _ _ E) as Hd.
      rewrite E. cbn [mbind option_bind]. change (option_list (Some e) ++ us) with (e :: us).
      assert (e ∈ us) as Heu by (apply elem_of_take in Hin as (i & Hi & _); by apply by_recency_in, (list_elem_of_lookup_2 _ i)).
      rewrite take_used_hit in Hr' by done. apply IH; try done; [congruence|]. rewrite Hd.
      intros y Hy. destruct (Hadd y Hy) as [? Hyu]. split; [done|]. intros [->|]%elem_of_cons; done.
    + rewrite Hs. by apply IH.
  - cbn [added omap list_omap] in *. apply list.NoDup_cons in Hnd as [He Hnd].
    destruct (Hadd e) as [Hin Heu]; [by left|].
    destruct (add_most_recent n e c L us Hr Hm Hn Hl Hins Heu Hin) as (c' & L' & -> & Hm' & Hl' & Hr' & Hd).
    cbn [mbind option_bind fst snd]. change (option_list (Some e) ++ us) with (e :: us). apply IH; try done.
    intros y Hy. destruct (Hadd y) as [? Hyu]; [by right|].
    assert (y ∉ e :: us) as Hyn by (apply not_elem_of_cons; split; [by intros ->|done]). auto.
Qed.

(** With a hash whose insertions do not fail, any sequence of searches and of
    additions of new elements to a new, cleared and locked cache runs to its end
    without an access through a dangling pointer, and the cache then holds exactly the
    [m_size] most recently used elements, linked in the order of their last use: the
    evicted one is always the least recently used. *)
Theorem cache_keeps_most_recently_used ops n fr zeroed L0
  (Hn : (0 < n)%nat) (Hins : forall h e, (my_hash_insert h e).1 = false) (Hz : contents zeroed = ∅)
  (Hnd : NoDup (added ops)) (Hadd : forall e, e ∈ added ops -> e ∈ dom L0) :
  exists us c2 L2,
    ('(c, L) ← filo_clear false (new_hash_filo (Z.of_nat n) fr zeroed) L0; c ← mutex_lock c; run_ops ops c L []) =
      Some (us, c2, L2) /\ m_size c2 = Z.of_nat n /\ filo_rep contents c2 L2 (take n (by_recency us)).
Proof.
  destruct (clear_rep false (new_hash_filo (Z.of_nat n) fr zeroed) L0) as (c0 & L1 & E & Hm & Hl & Hi & Hr);
    [cbn; lia|by right|].
  assert (L1 = L0) as ->.
  { unfold filo_clear in E. cbn in E. pose proof (free_contents zeroed) as Hf. rewrite Hz in Hf.
    destruct (my_hash_free zeroed) as [h [|x es]]; cbn in *; [by injection E|set_solver]. }
  rewrite E. cbn [mbind option_bind]. unfold mutex_lock. rewrite Hi, Hl. cbn [new_hash_filo lock andb negb asserting mbind option_bind].
  destruct (run_most_recent n ops (with_init (init c0) true c0) L0 []) as (us & c2 & L2 & E2 & Hm2 & Hr2); try done.
  - cbn [by_recency]. rewrite take_nil. by destruct Hr.
  - intros e He. split; [auto|]. apply not_elem_of_nil.
  - rewrite Hi in E2. eauto 10.
Qed.
End sequences.

(** * A hash *)

Module simple_hash.

(** A set of elements; the key of an element is its last decimal digit. *)
Definition matches (e : element) (k : Z) : bool := Z.pos e mod 10 =? k.

#[export] Instance simple_hash_table : hash_table (gset element) Z := {|
  my_hash_search h k := head (filter (λ e, matches e k = true) (elements h));
  my_hash_insert h e := (false, {[e]} ∪ h);
  my_hash_delete h e := h ∖ {[e]};
  records h := Z.of_nat (size h);
  my_hash_free h := (∅, elements h);
  my_hash_init h n := ∅
|}.

#[export] Instance simple_hash_laws : HashLaws (gset element) Z matches id.
Proof.
  split; cbn; try done.
  - intros h k e He. apply head_Some_elem_of, list_elem_of_filter in He as [Hm He]. by rewrite elem_of_elements in He.
  - intros h k Hn%head_None e He. destruct (matches e k) eqn:Em; [|done]. exfalso.
    assert (e ∈ filter (λ e, matches e k = true) (elements h)) as Hin by (apply list_elem_of_filter; by rewrite elem_of_elements).
    rewrite Hn in Hin. by apply elem_of_nil in Hin.
  - intros h. apply list_to_set_elements_L.
Qed.

Definition three_elements : link_heap := list_to_map [(1%positive, mkLinks None None); (2%positive, mkLinks None None); (13%positive, mkLinks None None)].
Definition some_ops : list (cache_op Z) := [Add 1%positive; Add 2%positive; Search 1; Search 7; Add 13%positive].

(** In a cache of two elements, the third one evicts the one that was not searched. *)
Lemma cache_keeps_most_recently_used_witness :
  exists us c2 L2,
    ('(c, L) ← filo_clear (Key := Z) false (new_hash_filo 2 true ∅) three_elements; c ← mutex_lock c; run_ops some_ops c L []) =
      Some (us, c2, L2) /\ m_size c2 = 2 /\ filo_rep id c2 L2 (take 2 (by_recency us)).
Proof.
  apply (cache_keeps_most_recently_used some_ops 2 true ∅ three_elements).
  - lia.
  - done.
  - done.
  - apply (bool_decide_unpack _). vm_compute. exact I.
  - intros e He. assert (e ∈ [1; 2; 13]%positive) as Hin by exact He. apply elem_of_dom.
    repeat (apply elem_of_cons in Hin as [->|Hin]; [vm_compute; eauto|]). by apply elem_of_nil in Hin.
Defined.

Example two_elements_left :
  (λ r, (r.1.1, first_link r.1.2, last_link r.1.2, r.2.*1)) <$>
    (('(c, L) ← filo_clear (Key := Z) false (new_hash_filo 2 true ∅) three_elements;
      c ← mutex_lock c;
      r ← run_ops some_ops c L []; Some (r.1, map_to_list r.2))) =
  Some ([13; 1; 2; 1]%positive, Some 13%positive, Some 1%positive, [13; 1]%positive).
Proof. vm_compute. reflexivity. Qed.
End simple_hash.
