(* ===== verification/SqlTranxAlloc.v ===== *)
(** The allocator of transaction nodes of [private/semisync_master.h]
    ([Tranx_node_allocator]): a list of blocks of 16 nodes, handed out in sequence
    and freed from the front.

    The blocks are a heap from their address to their [next] and their nodes.  A
    node pointer is the address of its block and its index; where the code compares
    pointers the addresses are compared.  [None] is an access through a pointer
    that is null or not to a block, and the assertion that fails.  What [my_malloc]
    answers is an argument of the operations. *)

From S2P Require Import Prelude SqlError.

(** * Nodes and blocks *)

Definition FN_REFLEN : Z := 512.
Definition BLOCK_TRANX_NODES : nat := 16.

Definition node_ptr : Type := Z * nat.
Record Tranx_node := mkNode { log_name : list byte; log_pos : Z; next : option node_ptr; hash_next : option node_ptr }.
Record Block := mkBlock { block_next : option Z; nodes : list Tranx_node }.
Abbreviation heap := (gmap Z Block).

(** The layout: [next] and then the nodes, each with its name, position and two pointers. *)
Definition sizeof_node : Z := FN_REFLEN + 8 + 8 + 8.
Definition sizeof_block : Z := 8 + sizeof_node * Z.of_nat BLOCK_TRANX_NODES.
Definition node_addr (p : node_ptr) : Z := p.1 + 8 + sizeof_node * Z.of_nat p.2.

Definition set_block_next (b : Z) (v : option Z) (H : heap) : option heap :=
  blk ← H !! b; Some (<[b := mkBlock v (nodes blk)]> H).
Definition read_node (p : node_ptr) (H : heap) : option Tranx_node := blk ← H !! p.1; nodes blk !! p.2.
Definition write_node (p : node_ptr) (n : Tranx_node) (H : heap) : option heap :=
  blk ← H !! p.1; _ ← nodes blk !! p.2; Some (<[p.1 := mkBlock (block_next blk) (<[p.2 := n]> (nodes blk))]> H).

(** * The allocator *)

Record Tranx_node_allocator := mkAlloc {
  reserved_blocks : Z; first_block : option Z; last_block : option Z; current_block : option Z; last_node : Z; block_num : Z
}.

Definition new_allocator (reserved_nodes : Z) : Tranx_node_allocator :=
  mkAlloc (u32 (reserved_nodes / Z.of_nat BLOCK_TRANX_NODES + (if 1 <? reserved_nodes mod Z.of_nat BLOCK_TRANX_NODES then 2 else 1)))
    None None None (-1) 0.

Definition with_current (c : option Z) (ln : Z) (a : Tranx_node_allocator) : Tranx_node_allocator :=
  mkAlloc (reserved_blocks a) (first_block a) (last_block a) c ln (block_num a).
Definition with_ends (f l : option Z) (a : Tranx_node_allocator) : Tranx_node_allocator :=
  mkAlloc (reserved_blocks a) f l (current_block a) (last_node a) (block_num a).
Definition with_num (n : Z) (a : Tranx_node_allocator) : Tranx_node_allocator :=
  mkAlloc (reserved_blocks a) (first_block a) (last_block a) (current_block a) (last_node a) n.

(** [m] is the answer of [my_malloc]: an address and what the memory there holds. *)
Definition allocate_block (m : option (Z * list Tranx_node)) (a : Tranx_node_allocator) (H : heap) :
    option (bool * Tranx_node_allocator * heap) :=
  match m with
  | None => Some (true, a, H)
  | Some (b, junk) =>
      let H := <[b := mkBlock None junk]> H in
      '(first, H) ← (match first_block a with
        | None => Some (Some b, H)
        | Some f => l ← last_block a; H ← set_block_next l (Some b) H; Some (Some f, H)
        end);
      let a := with_ends first (Some b) a in
      Some (false, with_num (u32 (block_num a + 1)) (with_current (Some b) (last_node a) a), H)
  end.

(** The node after [last_node] in the current block. *)
Definition take_node (a : Tranx_node_allocator) (H : heap) : option (node_ptr * Tranx_node_allocator * heap) :=
  c ← current_block a;
  let i := last_node a + 1 in
  let p := (c, Z.to_nat i) in
  old ← read_node p H;
  H ← write_node p (mkNode (<[0%nat := x00]> (log_name old)) 0 None None) H;
  Some (p, with_current (Some c) i a, H).

Definition allocate_node (m : option (Z * list Tranx_node)) (a : Tranx_node_allocator) (H : heap) :
    option (option node_ptr * Tranx_node_allocator * heap) :=
  let block := current_block a in
  a ← (if last_node a =? Z.of_nat BLOCK_TRANX_NODES - 1
       then c ← current_block a; blk ← H !! c; Some (with_current (block_next blk) (-1) a)
       else Some a);
  match current_block a with
  | Some _ => '(p, a, H) ← take_node a H; Some (Some p, a, H)
  | None =>
      '(failed, a, H) ← allocate_block m a H;
      if (failed : bool)
      then Some (None, with_current block (if block is Some _ then Z.of_nat BLOCK_TRANX_NODES - 1 else last_node a) a, H)
      else '(p, a, H) ← take_node a H; Some (Some p, a, H)
  end.

Definition free_block (b : Z) (a : Tranx_node_allocator) (H : heap) : option (Tranx_node_allocator * heap) :=
  _ ← H !! b; Some (with_num (u32 (block_num a - 1)) a, delete b H).

(** The loop frees blocks from [block] on. *)
Fixpoint free_blocks_loop (fuel : nat) (block : option Z) (a : Tranx_node_allocator) (H : heap) :
    option (option Z * Tranx_node_allocator * heap) :=
  match block with
  | Some b =>
      if reserved_blocks a <? block_num a
      then match fuel with
           | O => None
           | S fuel =>
               blk ← H !! b;
               '(a, H) ← free_block b a H;
               free_blocks_loop fuel (block_next blk) a H
           end
      else Some (block, a, H)
  | None => Some (None, a, H)
  end.

Definition free_blocks (a : Tranx_node_allocator) (H : heap) : option (Tranx_node_allocator * heap) :=
  match current_block a with
  | None => Some (a, H)
  | Some c =>
      cb ← H !! c;
      match block_next cb with
      | None => Some (a, H)
      | Some f =>
          fb ← H !! f;
          '(block, a, H) ← free_blocks_loop (size H) (block_next fb) a H;
          H ← set_block_next f block H;
          Some (if block is Some _ then a else with_ends (first_block a) (Some f) a, H)
      end
  end.

Definition free_all_nodes (a : Tranx_node_allocator) (H : heap) : option (Z * Tranx_node_allocator * heap) :=
  '(a, H) ← free_blocks (with_current (first_block a) (-1) a) H;
  Some (0, a, H).

(** The search for the block of [node], with the block before it. *)
Fixpoint find_block (fuel : nat) (node : node_ptr) (block prev_block stop : option Z) (H : heap) : option (Z * option Z) :=
  if bool_decide (block = stop) then None
  else
    b ← block;
    if (node_addr (b, 0%nat) <=? node_addr node) && (node_addr node <=? node_addr (b, BLOCK_TRANX_NODES))
    then Some (b, prev_block)
    else
      match fuel with
      | O => None
      | S fuel => blk ← H !! b; find_block fuel node (block_next blk) block stop H
      end.

Definition free_nodes_before (node : node_ptr) (a : Tranx_node_allocator) (H : heap) : option (Z * Tranx_node_allocator * heap) :=
  c ← current_block a;
  cb ← H !! c;
  '(b, prev_block) ← find_block (size H) node (first_block a) None (block_next cb) H;
  if bool_decide (first_block a = Some b) then Some (0, a, H)
  else
    l ← last_block a;
    H ← set_block_next l (first_block a) H;
    p ← prev_block;
    H ← set_block_next p None H;
    '(a, H) ← free_blocks (with_ends (Some b) (Some p) a) H;
    Some (0, a, H).

(** The destructor. *)
Fixpoint free_chain (fuel : nat) (block : option Z) (a : Tranx_node_allocator) (H : heap) : option (Tranx_node_allocator * heap) :=
  match block, fuel with
  | None, _ => Some (a, H)
  | Some b, O => None
  | Some b, S fuel => blk ← H !! b; '(a, H) ← free_block b a H; free_chain fuel (block_next blk) a H
  end.
Definition delete_allocator (a : Tranx_node_allocator) (H : heap) : option (Tranx_node_allocator * heap) :=
  free_chain (size H) (first_block a) a H.

(** * Chains of blocks *)

Definition or_head (bs : list Z) (t : option Z) : option Z := match bs with [] => t | b :: _ => Some b end.

(** The blocks [bs] are linked to each other, and the last one to [t]. *)
Fixpoint linked (H : heap) (bs : list Z) (t : option Z) : Prop :=
  match bs with
  | [] => True
  | b :: bs => block_next <$> H !! b = Some (or_head bs t) /\ linked H bs t
  end.

Lemma linked_app H xs ys t : linked H (xs ++ ys) t <-> linked H xs (or_head ys t) /\ linked H ys t.
Proof.
  induction xs as [|x xs IH]; cbn [app linked]; [tauto|]. rewrite IH. destruct xs; cbn [app or_head]; tauto.
Qed.
Lemma linked_ext H H' bs t : (forall b, b ∈ bs -> block_next <$> H' !! b = block_next <$> H !! b) -> linked H bs t -> linked H' bs t.
Proof.
  induction bs as [|b bs IH]; intros Hext; [done|]. cbn [linked]. intros [E Hl]. rewrite Hext by by left.
  split; [done|]. apply IH; [|done]. intros b' Hb'. apply Hext. by right.
Qed.
Lemma linked_insert H bs t b blk : b ∉ bs -> linked H bs t -> linked (<[b := blk]> H) bs t.
Proof. intros Hb. apply linked_ext. intros b' Hb'. rewrite lookup_insert_ne; [done|by intros ->]. Qed.
Lemma linked_delete H bs t b : b ∉ bs -> linked H bs t -> linked (delete b H) bs t.
Proof. intros Hb. apply linked_ext. intros b' Hb'. rewrite lookup_delete_ne; [done|by intros ->]. Qed.
Lemma linked_in H bs t b : linked H bs t -> b ∈ bs -> is_Some (H !! b).
Proof.
  induction bs as [|b' bs IH]; intros Hl Hb; [by apply elem_of_nil in Hb|]. destruct Hl as [E Hl].
  apply elem_of_cons in Hb as [->|Hb]; [|auto]. destruct (H !! b'); [eauto|done].
Qed.

(** Changing where the last block points. *)
Lemma set_last_next H bs b t v : linked H (bs ++ [b]) t -> b ∉ bs ->
  exists H' blk, H !! b = Some blk /\ set_block_next b v H = Some H' /\ H' = <[b := mkBlock v (nodes blk)]> H /\
    linked H' (bs ++ [b]) v.
Proof.
  intros [Hl [E _]]%linked_app Hb. destruct (H !! b) as [blk|] eqn:Eb; [|done]. eexists _, blk. split; [done|].
  unfold set_block_next. rewrite Eb. cbn [mbind option_bind]. split; [done|]. split; [done|]. apply linked_app.
  split; [by apply linked_insert|]. cbn. by rewrite lookup_insert_eq.
Qed.

(** * The state *)

(** Two blocks do not overlap. *)
Definition apart (b b' : Z) : Prop := b + sizeof_block <= b' \/ b' + sizeof_block <= b.

(** Every node has its contents. *)
Definition block_ok (blk : Block) : Prop := length (nodes blk) = BLOCK_TRANX_NODES.

(** The blocks [us], of which the last is the current one, hold all nodes that are
    in use; the blocks [fs] are free.  The heap holds these blocks and no others. *)
Record alloc_rep (a : Tranx_node_allocator) (H : heap) (us fs : list Z) : Prop := {
  rep_nodup : NoDup (us ++ fs);
  rep_dom : dom H = list_to_set (us ++ fs);
  rep_linked : linked H (us ++ fs) None;
  rep_first : first_block a = head (us ++ fs);
  rep_last : last_block a = last (us ++ fs);
  rep_current : current_block a = last us;
  rep_empty : us = [] -> fs = [] /\ last_node a = -1;
  rep_last_node : -1 <= last_node a < Z.of_nat BLOCK_TRANX_NODES;
  rep_num : block_num a = Z.of_nat (length (us ++ fs));
  rep_num_fits : ufits 32 (block_num a);
  rep_apart : forall b b', b ∈ us ++ fs -> b' ∈ us ++ fs -> b <> b' -> apart b b';
  rep_blocks : map_Forall (fun _ => block_ok) H
}.

(** The nodes in use, in the order of their allocation. *)
Definition block_nodes (b : Z) : list node_ptr := pair b <$> seq 0 BLOCK_TRANX_NODES.
Definition nodes_of (bs : list Z) : list node_ptr := bs ≫= block_nodes.
Definition in_use (us : list Z) (last_node : Z) : list node_ptr :=
  take (Z.to_nat (Z.of_nat BLOCK_TRANX_NODES * Z.of_nat (length us - 1) + last_node + 1)) (nodes_of us).

Lemma nodes_of_length bs : length (nodes_of bs) = (BLOCK_TRANX_NODES * length bs)%nat.
Proof. induction bs as [|b bs IH]; [done|]. cbn [nodes_of mbind list_bind]. rewrite length_app. fold (nodes_of bs). rewrite IH. cbn [length]. unfold block_nodes. rewrite length_fmap, length_seq. lia. Qed.
Lemma nodes_of_app xs ys : nodes_of (xs ++ ys) = nodes_of xs ++ nodes_of ys.
Proof. apply bind_app. Qed.
Lemma nodes_of_in p bs : p ∈ nodes_of bs <-> p.1 ∈ bs /\ (p.2 < BLOCK_TRANX_NODES)%nat.
Proof.
  unfold nodes_of. rewrite list_elem_of_bind. unfold block_nodes. setoid_rewrite list_elem_of_fmap.
  setoid_rewrite elem_of_seq. destruct p as [b i]. cbn [fst snd]. split.
  - intros (b' & (i' & [= -> ->] & Hi) & Hb). split; [done|lia].
  - intros [Hb Hi]. exists b. split; [|done]. exists i. split; [done|lia].
Qed.
Lemma nodes_of_nodup bs : NoDup bs -> NoDup (nodes_of bs).
Proof.
  induction bs as [|b bs IH]; intros Hnd; [apply NoDup_nil_2|]. apply list.NoDup_cons in Hnd as [Hb Hnd].
  change (nodes_of (b :: bs)) with (block_nodes b ++ nodes_of bs). apply list.NoDup_app. split_and!; [|intros p Hp|auto].
  - unfold block_nodes. apply NoDup_fmap_2; [by intros ? ? [=]|apply NoDup_seq].
  - rewrite nodes_of_in. intros [Hin _]. apply Hb. unfold block_nodes in Hp. by apply list_elem_of_fmap in Hp as (i & -> & _).
Qed.
Lemma in_use_nil : in_use [] (-1) = [].
Proof. reflexivity. Qed.
Lemma in_use_snoc us c ln : -1 <= ln < Z.of_nat BLOCK_TRANX_NODES ->
  in_use (us ++ [c]) ln = nodes_of us ++ (pair c <$> seq 0 (Z.to_nat (ln + 1))).
Proof.
  intros Hln. unfold in_use. rewrite length_app, nodes_of_app. cbn [length].
  replace (Z.to_nat _) with (length (nodes_of us) + Z.to_nat (ln + 1))%nat by (rewrite nodes_of_length; lia).
  rewrite take_app_add' by done. f_equal. change (nodes_of [c]) with (block_nodes c ++ []). rewrite app_nil_r.
  unfold block_nodes. rewrite <-fmap_take. f_equal. rewrite take_seq. f_equal. lia.
Qed.
Lemma in_use_step us c ln : -1 <= ln < Z.of_nat BLOCK_TRANX_NODES - 1 ->
  in_use (us ++ [c]) (ln + 1) = in_use (us ++ [c]) ln ++ [(c, Z.to_nat (ln + 1))].
Proof.
  intros Hln. rewrite !in_use_snoc by lia. rewrite <-app_assoc. f_equal.
  replace (Z.to_nat (ln + 1 + 1)) with (Z.to_nat (ln + 1) + 1)%nat by lia. by rewrite seq_app, fmap_app.
Qed.
Lemma in_use_next us f : in_use us (Z.of_nat BLOCK_TRANX_NODES - 1) = in_use (us ++ [f]) (-1) \/ us = [].
Proof.
  destruct (exists_last_or_nil us) as [->|(vs & c & ->)]; [by right|left]. rewrite !in_use_snoc by (cbn; lia).
  rewrite nodes_of_app. cbn [Z.to_nat seq fmap list_fmap]. by rewrite app_nil_r.
Qed.
Lemma in_use_drop xs us ln : us <> [] -> -1 <= ln < Z.of_nat BLOCK_TRANX_NODES ->
  in_use (xs ++ us) ln = nodes_of xs ++ in_use us ln.
Proof.
  intros Hus Hln. destruct (exists_last_or_nil us) as [->|(vs & c & ->)]; [done|].
  rewrite app_assoc, !in_use_snoc, nodes_of_app by done. by rewrite app_assoc.
Qed.
Lemma in_use_in p us ln : p ∈ in_use us ln -> p.1 ∈ us /\ (p.2 < BLOCK_TRANX_NODES)%nat.
Proof. intros (i & Hi & _)%elem_of_take. apply nodes_of_in. by apply (list_elem_of_lookup_2 _ i). Qed.
Lemma in_use_nodup us ln : NoDup us -> NoDup (in_use us ln).
Proof. intros Hnd. eapply sublist_NoDup; [by apply nodes_of_nodup|apply sublist_take]. Qed.

(** * The operations *)

(** Writing a node of a block keeps the blocks and the other nodes. *)
Lemma write_node_rep a H us fs p n : alloc_rep a H us fs -> p.1 ∈ us ++ fs -> (p.2 < BLOCK_TRANX_NODES)%nat ->
  exists H', is_Some (read_node p H) /\ write_node p n H = Some H' /\ alloc_rep a H' us fs /\ read_node p H' = Some n /\
    forall q, q <> p -> read_node q H' = read_node q H.
Proof.
  intros Hr Hb Hi. destruct Hr as [Hnd Hd Hl ? ? ? ? ? ? ? ? Hbl]. destruct (linked_in _ _ _ _ Hl Hb) as [blk Eb].
  pose proof (Hbl _ _ Eb) as Hlen. unfold block_ok in Hlen.
  destruct (lookup_lt_is_Some_2 (nodes blk) p.2) as [old Eo]; [lia|].
  unfold write_node. unfold read_node at 1. rewrite Eb. cbn [mbind option_bind]. rewrite Eo. cbn [mbind option_bind].
  eexists. split; [eauto|]. split; [done|]. split_and!.
  - split; try done.
    + rewrite dom_insert_lookup_L; [done|eauto].
    + revert Hl. apply linked_ext. intros b' Hb'. destruct (decide (b' = p.1)) as [->|Hne].
      * by rewrite lookup_insert_eq, Eb.
      * by rewrite lookup_insert_ne.
    + apply map_Forall_insert_2; [|done]. unfold block_ok. cbn. by rewrite length_insert.
  - unfold read_node. rewrite lookup_insert_eq. cbn [mbind option_bind nodes]. by rewrite list_lookup_insert_eq by lia.
  - intros q Hq. unfold read_node. destruct (decide (q.1 = p.1)) as [E|E].
    + rewrite E, lookup_insert_eq, Eb. cbn [mbind option_bind nodes]. rewrite list_lookup_insert_ne; [done|].
      intros E2. apply Hq. destruct p, q; cbn in *; congruence.
    + by rewrite lookup_insert_ne.
Qed.

(** What a new node holds; the rest of its name is what the memory held. *)
Definition cleared (n : Tranx_node) : Prop :=
  log_pos n = 0 /\ next n = None /\ hash_next n = None /\ (log_name n = [] \/ head (log_name n) = Some x00).

Lemma take_node_rep a H us c fs : alloc_rep a H (us ++ [c]) fs -> last_node a < Z.of_nat BLOCK_TRANX_NODES - 1 ->
  exists p a' H', take_node a H = Some (p, a', H') /\ alloc_rep a' H' (us ++ [c]) fs /\
    reserved_blocks a' = reserved_blocks a /\
    in_use (us ++ [c]) (last_node a') = in_use (us ++ [c]) (last_node a) ++ [p] /\
    (forall q, q <> p -> read_node q H' = read_node q H) /\
    exists n, read_node p H' = Some n /\ cleared n.
Proof.
  intros Hr Hln. pose proof (rep_last_node _ _ _ _ Hr) as Hln0. unfold take_node. rewrite (rep_current _ _ _ _ Hr), last_snoc. cbn [mbind option_bind].
  set (p := (c, Z.to_nat (last_node a + 1))).
  assert (p.1 ∈ (us ++ [c]) ++ fs) as Hin by (cbn; set_solver). assert (p.2 < BLOCK_TRANX_NODES)%nat as Hi by (cbn in *; lia).
  destruct (read_node p H) as [old|] eqn:Eo.
  2: { destruct (write_node_rep a H _ fs p (mkNode [] 0 None None) Hr Hin Hi) as (? & [? E] & _). congruence. }
  cbn [mbind option_bind].
  destruct (write_node_rep a H _ fs p (mkNode (<[0%nat := x00]> (log_name old)) 0 None None) Hr Hin Hi) as (H' & _ & -> & Hr' & Er & Hq).
  cbn [mbind option_bind]. eexists p, _, H'. split; [done|]. split_and!.
  - destruct Hr'. split; cbn; try done.
    + by rewrite last_snoc.
    + intros Hnil. by destruct us.
    + lia.
  - done.
  - cbn [last_node with_current]. apply in_use_step. lia.
  - done.
  - eexists. split; [done|]. cbn. split_and!; [done..|]. destruct (log_name old); [by left|by right].
Qed.

(** The memory that [my_malloc] gives is a block that overlaps none of the others. *)
Definition malloc_ok (m : option (Z * list Tranx_node)) (H : heap) : Prop :=
  match m with
  | None => True
  | Some (b, junk) => length junk = BLOCK_TRANX_NODES /\ (forall b', b' ∈ dom H -> apart b b') /\ Z.of_nat (size H) + 1 < 2 ^ 32
  end.

Lemma rep_size a H us fs : alloc_rep a H us fs -> Z.of_nat (size H) = block_num a.
Proof.
  intros Hr. rewrite <-size_dom, (rep_dom _ _ _ _ Hr), size_list_to_set by apply (rep_nodup _ _ _ _ Hr).
  by rewrite (rep_num _ _ _ _ Hr).
Qed.
Lemma apart_ne b b' : apart b b' -> b <> b'.
Proof. intros [?|?] ->; unfold sizeof_block, sizeof_node, FN_REFLEN, BLOCK_TRANX_NODES in *; lia. Qed.

(** A new block becomes the last and the current one. *)
Lemma allocate_block_rep a H us b junk : alloc_rep a H us [] -> malloc_ok (Some (b, junk)) H ->
  exists a' H', allocate_block (Some (b, junk)) (with_current None (-1) a) H = Some (false, a', H') /\
    alloc_rep a' H' (us ++ [b]) [] /\ last_node a' = -1 /\ reserved_blocks a' = reserved_blocks a /\
    (forall q, q.1 ∈ us -> read_node q H' = read_node q H).
Proof.
  intros Hr (Hj & Hap & Hsz). rewrite (rep_size _ _ _ _ Hr) in Hsz.
  pose proof Hr as [Hnd Hd Hl Hf Hla _ He _ Hn Hnf Hsp Hbl]. rewrite app_nil_r in *.
  assert (b ∉ us) as Hb.
  { intros Hin. assert (b ∈ dom H) as Hin' by (rewrite Hd; by apply elem_of_list_to_set). apply Hap, apart_ne in Hin'. done. }
  unfold allocate_block. cbn [first_block last_block with_current]. rewrite Hf, Hla.
  set (H1 := <[b := mkBlock None junk]> H).
  assert (map_Forall (fun _ => block_ok) H1) as Hbl1 by (apply map_Forall_insert_2; done).
  assert (dom H1 = list_to_set (us ++ [b])) as Hd1 by (unfold H1; rewrite dom_insert_L, Hd; set_solver).
  assert (linked H1 us None) as Hl1 by (by apply linked_insert).
  assert (forall a' H', dom H' = dom H1 -> linked H' (us ++ [b]) None -> map_Forall (fun _ => block_ok) H' ->
    first_block a' = head (us ++ [b]) -> last_block a' = Some b -> current_block a' = Some b -> last_node a' = -1 ->
    block_num a' = u32 (block_num a + 1) -> alloc_rep a' H' (us ++ [b]) []) as Hmk.
  { intros a' H' Hd' Hl' Hbl' Hf' Hla' Hc' Hln' Hn'. assert (u32 (block_num a + 1) = block_num a + 1) as Hu.
    { apply uwrap_small. unfold ufits in *. lia. }
    split; rewrite ?app_nil_r, ?last_snoc; try done.
    - apply list.NoDup_app. split_and!; [done| |apply NoDup_singleton]. intros x Hx ->%list_elem_of_singleton. done.
    - congruence.
    - rewrite Hln'. cbn. lia.
    - rewrite Hn', Hu, Hn, length_app. cbn [length]. lia.
    - rewrite Hn', Hu. unfold ufits in *. lia.
    - intros x y Hx Hy Hxy. apply elem_of_app in Hx as [Hx|Hx%list_elem_of_singleton], Hy as [Hy|Hy%list_elem_of_singleton]; subst.
      + by apply Hsp.
      + apply or_comm, Hap. rewrite Hd. by apply elem_of_list_to_set.
      + apply Hap. rewrite Hd. by apply elem_of_list_to_set.
      + done. }
  destruct (exists_last_or_nil us) as [->|(vs & c & ->)]; cbn [head last app] in *.
  - eexists _, _. split; [done|]. split_and!; try done; [|by intros q Hq%elem_of_nil].
    apply Hmk; try done. cbn. unfold H1. by rewrite lookup_insert_eq.
  - rewrite last_snoc. destruct (head (vs ++ [c])) as [f|] eqn:Eh; [|by destruct vs]. cbn [mbind option_bind].
    apply list.NoDup_app in Hnd as (_ & Hdis & _).
    assert (c ∉ vs) as Hc by (intros Hin; apply (Hdis _ Hin); set_solver).
    destruct (set_last_next H1 vs c None (Some b) Hl1 Hc) as (H2 & cb & Ec & -> & EH2 & Hl2). cbn [mbind option_bind].
    eexists _, _. split; [done|]. split_and!; try done.
    + apply Hmk; try done.
      * rewrite EH2. apply dom_insert_lookup_L. eauto.
      * apply linked_app. split; [done|]. cbn. rewrite EH2, lookup_insert_ne by set_solver. unfold H1. by rewrite lookup_insert_eq.
      * rewrite EH2. apply map_Forall_insert_2; [|done]. exact (Hbl1 _ _ Ec).
      * cbn. destruct vs; cbn in *; congruence.
    + intros q Hq. unfold read_node. assert (q.1 <> b) as Hqb by (intros E; by rewrite E in Hq).
      assert (H1 !! q.1 = H !! q.1) as E1 by (unfold H1; by rewrite lookup_insert_ne).
      rewrite EH2. destruct (decide (q.1 = c)) as [E|E].
      * rewrite E in *. rewrite lookup_insert_eq, <-E1, Ec. done.
      * by rewrite lookup_insert_ne, E1.
Qed.

(** Going on to the next free block. *)
Lemma advance_rep a H us f fs : alloc_rep a H us (f :: fs) -> alloc_rep (with_current (Some f) (-1) a) H (us ++ [f]) fs.
Proof.
  assert (us ++ f :: fs = (us ++ [f]) ++ fs) as Happ by (by rewrite <-app_assoc).
  intros [Hnd Hd Hl Hf Hla Hc He Hln Hn Hnf Hsp Hbl]. rewrite Happ in *. split; try done.
  - by rewrite last_snoc.
  - intros E. by destruct us.
Qed.

(** The outcome of an allocation of a node when [us] was in use up to [ln]. *)
Definition allocated (a : Tranx_node_allocator) (H : heap) (us : list Z) (ln : Z) (p : node_ptr) (a' : Tranx_node_allocator) (H' : heap) : Prop :=
  reserved_blocks a' = reserved_blocks a /\
  exists us' fs', alloc_rep a' H' us' fs' /\ in_use us' (last_node a') = in_use us ln ++ [p] /\
    (forall q, q.1 ∈ us -> q <> p -> read_node q H' = read_node q H) /\
    exists n, read_node p H' = Some n /\ cleared n.

Lemma take_node_allocated a H us c fs ln vs : alloc_rep a H (us ++ [c]) fs -> last_node a < Z.of_nat BLOCK_TRANX_NODES - 1 ->
  in_use (us ++ [c]) (last_node a) = in_use vs ln ->
  exists p a' H', take_node a H = Some (p, a', H') /\ allocated a H vs ln p a' H'.
Proof.
  intros Hr Hlt Hin. destruct (take_node_rep a H us c fs Hr Hlt) as (p & a' & H' & E & Hr' & Hres & Hin' & Hq & Hn).
  exists p, a', H'. split; [done|]. split; [done|]. exists (us ++ [c]), fs. split_and!; [done|congruence|auto|done].
Qed.

Lemma in_use_full us b ln : (us = [] /\ ln = -1) \/ ln = Z.of_nat BLOCK_TRANX_NODES - 1 -> in_use (us ++ [b]) (-1) = in_use us ln.
Proof.
  intros [[-> ->]| ->]; [done|]. destruct (in_use_next us b) as [E| ->]; [done|]. done.
Qed.

Lemma allocate_node_new a H us b junk : alloc_rep a H us [] -> malloc_ok (Some (b, junk)) H ->
  (us = [] /\ last_node a = -1) \/ last_node a = Z.of_nat BLOCK_TRANX_NODES - 1 ->
  exists a1 H1 p a' H', allocate_block (Some (b, junk)) (with_current None (-1) a) H = Some (false, a1, H1) /\
    take_node a1 H1 = Some (p, a', H') /\ allocated a H us (last_node a) p a' H'.
Proof.
  intros Hr Hm Hfull. destruct (allocate_block_rep a H us b junk Hr Hm) as (a1 & H1 & E & Hr1 & Hln & Hres & Hq).
  destruct (take_node_allocated a1 H1 us b [] (last_node a) us Hr1) as (p & a' & H' & E' & Hres' & us' & fs' & Hr' & Hin & Hq' & Hn).
  - by rewrite Hln.
  - rewrite Hln. by apply in_use_full.
  - exists a1, H1, p, a', H'. split_and!; [done..|]. split; [congruence|]. exists us', fs'. split_and!; try done.
    intros q Hqu Hqp. rewrite Hq' by done. by apply Hq.
Qed.

(** [allocate_node] gives a node after those in use, or none when memory is out; the
    nodes in use keep their contents. *)
Lemma allocate_node_rep m a H us fs : alloc_rep a H us fs -> malloc_ok m H ->
  exists r a' H', allocate_node m a H = Some (r, a', H') /\
    match r with
    | None => m = None /\ a' = a /\ H' = H
    | Some p => allocated a H us (last_node a) p a' H'
    end.
Proof.
  intros Hr Hm. pose proof Hr as [Hnd Hd Hl Hf Hla Hc He Hln Hn Hnf Hsp Hbl]. unfold allocate_node.
  assert (fs = [] -> (us = [] /\ last_node a = -1) \/ last_node a = Z.of_nat BLOCK_TRANX_NODES - 1 ->
    exists r a' H', (let a1 := with_current None (-1) a in
      '(failed, a2, H) ← allocate_block m a1 H;
      if (failed : bool)
      then Some (None, with_current (current_block a) (if current_block a is Some _ then Z.of_nat BLOCK_TRANX_NODES - 1 else last_node a2) a2, H)
      else '(p, a, H) ← take_node a2 H; Some (Some p, a, H)) = Some (r, a', H') /\
    match r with
    | None => m = None /\ a' = a /\ H' = H
    | Some p => allocated a H us (last_node a) p a' H'
    end) as Hnew.
  { intros -> Hfull. destruct m as [[b junk]|]; cbn zeta.
    - destruct (allocate_node_new a H us b junk Hr Hm Hfull) as (a1 & H1 & p & a' & H' & -> & E & Ha). cbn [mbind option_bind].
      rewrite E. cbn [mbind option_bind]. by eexists _, _, _.
    - cbn. eexists None, _, H. split; [done|]. split_and!; try done. rewrite Hc in *. destruct a; cbn in *; subst.
      destruct (exists_last_or_nil us) as [->|(vs & c & ->)].
      + destruct He as [_ ->]; done.
      + rewrite last_snoc. unfold with_current. cbn. destruct Hfull as [[? _]|Hf]; [by destruct vs|]. cbn in Hf. by rewrite Hf. }
  destruct (exists_last_or_nil us) as [->|(vs & c & ->)].
  - destruct He as [-> Hln1]; [done|]. specialize (Hnew eq_refl (or_introl (conj eq_refl Hln1))).
    assert (with_current None (-1) a = a) as E by (destruct a; cbn in *; by subst). rewrite E in Hnew. cbn zeta in Hnew.
    rewrite Hln1 in *. change (-1 =? Z.of_nat BLOCK_TRANX_NODES - 1) with false. cbn [mbind option_bind].
    rewrite Hc in *. cbn [last] in *. exact Hnew.
  - destruct (Z.eqb_spec (last_node a) (Z.of_nat BLOCK_TRANX_NODES - 1)) as [Hfull|Hfull].
    + rewrite Hc, last_snoc. cbn [mbind option_bind]. rewrite <-app_assoc in Hl. cbn [app] in Hl. apply linked_app in Hl as [_ [Ec _]].
      destruct (H !! c) as [cb|] eqn:Ecb; [|done]. injection Ec as Ec. cbn [mbind option_bind]. rewrite Ec.
      destruct fs as [|f fs]; cbn [or_head].
      * rewrite Hc, last_snoc in Hnew. apply Hnew; auto.
      * cbn [current_block with_current]. destruct (take_node_allocated _ _ _ _ _ (last_node a) (vs ++ [c]) (advance_rep _ _ _ _ _ Hr)) as (p & a' & H' & E & Ha).
        -- done.
        -- cbn [last_node with_current]. apply in_use_full. by right.
        -- rewrite E. cbn [mbind option_bind]. by eexists (Some p), a', H'.
    + cbn [mbind option_bind]. rewrite Hc, last_snoc.
      destruct (take_node_allocated a H vs c fs (last_node a) (vs ++ [c]) Hr) as (p & a' & H' & E & Ha); [lia|done|].
      rewrite E. cbn [mbind option_bind]. by eexists (Some p), a', H'.
Qed.

(** ** Freeing blocks *)

Definition delete_all (bs : list Z) (H : heap) : heap := foldl (fun H b => delete b H) H bs.
Lemma delete_all_lookup bs H b : b ∉ bs -> delete_all bs H !! b = H !! b.
Proof.
  revert H. induction bs as [|b' bs IH]; intros H Hb; [done|]. apply not_elem_of_cons in Hb as [Hne Hb]. cbn.
  fold (delete_all bs (delete b' H)). rewrite IH by done. by apply lookup_delete_ne.
Qed.
Lemma delete_all_dom bs H : dom (delete_all bs H) = dom H ∖ list_to_set bs.
Proof.
  revert H. induction bs as [|b' bs IH]; intros H; cbn; [set_solver|]. fold (delete_all bs (delete b' H)).
  rewrite IH, dom_delete_L. set_solver.
Qed.
Lemma delete_all_forall bs H P : map_Forall P H -> map_Forall P (delete_all bs H).
Proof. revert H. induction bs as [|b' bs IH]; intros H HP; [done|]. apply IH. by apply map_Forall_delete. Qed.
Lemma linked_delete_all bs H gs t : (forall g, g ∈ gs -> g ∉ bs) -> linked H gs t -> linked (delete_all bs H) gs t.
Proof. intros Hd. apply linked_ext. intros b Hb. by rewrite delete_all_lookup by auto. Qed.

(** How many of the [g] blocks behind the first free one are freed. *)
Definition surplus (a : Tranx_node_allocator) (g : nat) : nat := g `min` Z.to_nat (block_num a - reserved_blocks a).

Lemma free_blocks_loop_spec fuel gs a H : (length gs <= fuel)%nat -> NoDup gs -> linked H gs None ->
  ufits 32 (block_num a) -> Z.of_nat (length gs) <= block_num a ->
  let n := surplus a (length gs) in
  free_blocks_loop fuel (head gs) a H =
    Some (head (drop n gs), with_num (block_num a - Z.of_nat n) a, delete_all (take n gs) H).
Proof.
  revert gs a H. induction fuel as [|fuel IH]; intros gs a H Hfu Hnd Hl Hn Hg; cbn zeta; unfold surplus.
  - destruct gs; [|cbn in Hfu; lia]. cbn. rewrite Z.sub_0_r. by destruct a.
  - destruct gs as [|g gs]; [cbn; rewrite Z.sub_0_r; by destruct a|]. cbn [head free_blocks_loop length].
    destruct (Z.ltb_spec (reserved_blocks a) (block_num a)) as [Hlt|Hge].
    + destruct Hl as [Eg Hl]. apply list.NoDup_cons in Hnd as [Hgn Hnd]. destruct (H !! g) as [blk|] eqn:Eb; [|done]. injection Eg as Eg.
      unfold free_block. rewrite Eb. cbn [mbind option_bind]. rewrite Eg. cbn [length] in Hfu, Hg.
      assert (u32 (block_num a - 1) = block_num a - 1) as -> by (apply uwrap_small; unfold ufits in *; lia).
      replace (or_head gs None) with (head gs) by (by destruct gs).
      rewrite IH; cbn [block_num reserved_blocks with_num]; [|lia|done|by apply linked_delete|unfold ufits in *; lia|lia].
      unfold surplus. cbn [block_num reserved_blocks with_num].
      replace (S (length gs) `min` Z.to_nat (block_num a - reserved_blocks a))%nat
        with (S (length gs `min` Z.to_nat (block_num a - 1 - reserved_blocks a))) by lia.
      set (k := (length gs `min` _)%nat). rewrite Nat2Z.inj_succ.
      by replace (block_num a - Z.succ (Z.of_nat k)) with (block_num a - 1 - Z.of_nat k) by lia.
    + replace (S (length gs) `min` _)%nat with 0%nat by lia. cbn. rewrite Z.sub_0_r. by destruct a.
Qed.

(** Freeing the blocks [ds] behind the first free one. *)
Lemma free_middle_rep a H us f ds gs fb : alloc_rep a H us (f :: ds ++ gs) -> H !! f = Some fb -> us <> [] ->
  alloc_rep (with_ends (first_block a) (if head gs is Some _ then last_block a else Some f)
      (with_num (block_num a - Z.of_nat (length ds)) a))
    (<[f := mkBlock (head gs) (nodes fb)]> (delete_all ds H)) us (f :: gs).
Proof.
  intros [Hnd Hd Hl Hf Hla Hc He Hln Hn Hnf Hsp Hbl] Efb Hus.
  assert (us ++ f :: gs `sublist_of` us ++ f :: ds ++ gs) as Hsub.
  { apply sublist_app; [done|]. apply sublist_skip. by apply sublist_inserts_l. }
  assert (forall b, b ∈ us ++ f :: gs -> b ∈ us ++ f :: ds ++ gs) as Hsub' by set_solver.
  pose proof Hnd as (_ & Hdis & [Hfd Hnd2]%list.NoDup_cons)%list.NoDup_app.
  pose proof Hnd2 as (_ & Hdis2 & _)%list.NoDup_app.
  assert (f ∉ us) as Hfu by (intros Hin; apply (Hdis _ Hin); by left).
  pose proof Hl as [Hlu [_ [_ Hlg]%linked_app]]%linked_app. cbn [or_head] in Hlu.
  assert (length (us ++ f :: ds ++ gs) = length (us ++ f :: gs) + length ds)%nat as Hlen by (rewrite !length_app; cbn; rewrite length_app; lia).
  split; cbn [first_block last_block current_block last_node block_num with_ends with_num]; try done.
  - exact (sublist_NoDup _ _ Hnd Hsub).
  - rewrite dom_insert_L, delete_all_dom, Hd. set_solver.
  - apply linked_app. cbn [or_head linked]. rewrite lookup_insert_eq. cbn. split_and!.
    + apply linked_insert; [done|]. apply linked_delete_all; [|done]. set_solver.
    + by destruct gs.
    + apply linked_insert; [set_solver|]. apply linked_delete_all; [set_solver|done].
  - rewrite Hf. by destruct us.
  - rewrite Hla, !last_app_cons. destruct gs as [|g gs]; [done|]. cbn [head]. rewrite app_comm_cons, last_app_cons. done.
  - rewrite Hn, Hlen. lia.
  - unfold ufits in *. lia.
  - auto.
  - apply map_Forall_insert_2; [exact (Hbl _ _ Efb)|]. by apply delete_all_forall.
Qed.

(** [free_blocks] keeps the blocks in use and one free block, and of the others no more than are reserved. *)
Lemma free_blocks_rep a H us fs : alloc_rep a H us fs ->
  exists a' H' n, free_blocks a H = Some (a', H') /\ alloc_rep a' H' us (take 1 fs ++ drop n (tail fs)) /\
    last_node a' = last_node a /\ reserved_blocks a' = reserved_blocks a /\
    (forall q, q.1 ∈ us -> read_node q H' = read_node q H) /\
    block_num a' = Z.max (Z.of_nat (length us + length (take 1 fs))) (Z.min (block_num a) (reserved_blocks a)).
Proof.
  intros Hr. pose proof Hr as [Hnd Hd Hl Hf Hla Hc He Hln Hn Hnf Hsp Hbl]. unfold free_blocks. rewrite Hc.
  destruct (exists_last_or_nil us) as [->|(vs & c & ->)].
  { destruct He as [-> _]; [done|]. exists a, H, 0%nat. cbn in *. split_and!; try done. lia. }
  rewrite last_snoc. pose proof Hl as Hl'. rewrite <-app_assoc in Hl'. cbn [app] in Hl'. apply linked_app in Hl' as [_ [Ec Hlf]].
  destruct (H !! c) as [cb|] eqn:Ecb; [|done]. injection Ec as Ec. cbn [mbind option_bind]. rewrite Ec.
  destruct fs as [|f gs]; cbn [or_head].
  { exists a, H, 0%nat. cbn [take drop tail app]. split_and!; try done. rewrite app_nil_r in Hn. cbn [length]. lia. }
  destruct Hlf as [Ef Hlg]. destruct (H !! f) as [fb|] eqn:Efb; [|done]. injection Ef as Ef. cbn [mbind option_bind]. rewrite Ef.
  assert (NoDup (f :: gs)) as [Hfg Hndg]%list.NoDup_cons by (by apply list.NoDup_app in Hnd as (_ & _ & ?)).
  set (n := surplus a (length gs)).
  replace (or_head gs None) with (head gs) by (by destruct gs).
  assert (Z.of_nat (length gs) <= block_num a) as Hg by (rewrite Hn, length_app; cbn [length]; lia).
  rewrite free_blocks_loop_spec; [|pose proof (rep_size _ _ _ _ Hr); lia|done..].
  fold n. cbn [mbind option_bind].
  assert (delete_all (take n gs) H !! f = Some fb) as Ef1.
  { rewrite delete_all_lookup; [done|]. intros (i & Hi & _)%elem_of_take. apply Hfg. by apply (list_elem_of_lookup_2 _ i). }
  unfold set_block_next. rewrite Ef1. cbn [mbind option_bind].
  pose proof (free_middle_rep a H (vs ++ [c]) f (take n gs) (drop n gs) fb) as Hr'. rewrite take_drop in Hr'.
  assert (length (take n gs) = n) as Hlt by (rewrite length_take; unfold n, surplus; lia). rewrite Hlt in Hr'.
  eexists _, _, n. split; [done|]. cbn [tail take app]. split_and!.
  - specialize (Hr' Hr Efb). assert (vs ++ [c] <> []) as Hne by (by destruct vs). specialize (Hr' Hne).
    destruct (head (drop n gs)); [|exact Hr']. destruct a; exact Hr'.
  - by destruct (head (drop n gs)).
  - by destruct (head (drop n gs)).
  - intros q Hq. assert (q.1 ∉ f :: gs) as Hq' by (apply list.NoDup_app in Hnd as (_ & Hdis & _); auto).
    unfold read_node. rewrite lookup_insert_ne by set_solver. rewrite delete_all_lookup; [done|].
    intros (i & Hi & _)%elem_of_take. apply Hq'. right. by apply (list_elem_of_lookup_2 _ i).
  - assert (block_num a = Z.of_nat (length (vs ++ [c]) + 1 + length gs)) as HN by (rewrite Hn, length_app; cbn [length]; lia).
    change (length (f :: take 0 gs)) with 1%nat.
    destruct (head (drop n gs)); cbn [block_num with_num with_ends]; unfold n, surplus in *; lia.
Qed.

(** Freeing all nodes. *)
Lemma free_all_nodes_rep a H us fs : alloc_rep a H us fs ->
  exists a' H', free_all_nodes a H = Some (0, a', H') /\ reserved_blocks a' = reserved_blocks a /\
    (exists us' fs', alloc_rep a' H' us' fs' /\ in_use us' (last_node a') = []) /\
    block_num a' = Z.max (Z.min (block_num a) 2) (Z.min (block_num a) (reserved_blocks a)).
Proof.
  intros [Hnd Hd Hl Hf Hla Hc He Hln Hn Hnf Hsp Hbl]. unfold free_all_nodes.
  destruct us as [|u us].
  - destruct He as [-> He]; [done|]. cbn in *. rewrite Hf. cbn. eexists _, _. split; [done|]. split_and!; [done| |cbn; lia].
    exists [], []. split; [|done]. split; cbn; try done.
  - cbn [app head] in Hf. rewrite Hf.
    assert (alloc_rep (with_current (Some u) (-1) a) H [u] (us ++ fs)) as Hr by (split; done).
    destruct (free_blocks_rep _ _ _ _ Hr) as (a' & H' & n & -> & Hr' & Hl' & Hres & _ & Hnum).
    cbn [mbind option_bind]. eexists a', H'. split; [done|]. split_and!; [done| |].
    + exists [u], (take 1 (us ++ fs) ++ drop n (tail (us ++ fs))). split; [done|]. by rewrite Hl'.
    + rewrite Hnum. cbn [block_num reserved_blocks with_current]. rewrite length_take. rewrite Hn. cbn [app length]. lia.
Qed.

(** The addresses of a node lie in its block only. *)
Lemma node_in_block b i b' : (i < BLOCK_TRANX_NODES)%nat -> b = b' \/ apart b b' ->
  (node_addr (b', 0%nat) <=? node_addr (b, i)) && (node_addr (b, i) <=? node_addr (b', BLOCK_TRANX_NODES)) = bool_decide (b = b').
Proof.
  intros Hi Hb. unfold node_addr, apart, sizeof_block, sizeof_node, FN_REFLEN, BLOCK_TRANX_NODES in *. cbn [fst snd].
  destruct (decide (b = b')) as [->|Hne].
  - rewrite bool_decide_eq_true_2 by done. apply andb_true_iff. rewrite !Z.leb_le. lia.
  - rewrite bool_decide_eq_false_2 by done. apply andb_false_iff. rewrite !Z.leb_gt. lia.
Qed.

Lemma find_block_spec fuel H xs b rest i prev stop : (length xs <= fuel)%nat -> (i < BLOCK_TRANX_NODES)%nat ->
  linked H (xs ++ b :: rest) None -> (forall x, x ∈ xs -> apart b x) -> (forall x, x ∈ xs ++ [b] -> Some x <> stop) ->
  find_block fuel (b, i) (head (xs ++ b :: rest)) prev stop H = Some (b, from_option Some prev (last xs)).
Proof.
  intros Hfu Hi. revert fuel Hfu prev. induction xs as [|x xs IH]; intros fuel Hfu prev Hl Hap Hst.
  - destruct fuel; cbn [app head find_block];
      rewrite bool_decide_eq_false_2 by (apply Hst; by left); cbn [mbind option_bind];
      rewrite node_in_block, bool_decide_eq_true_2 by (done || by left); done.
  - destruct fuel as [|fuel]; [cbn in Hfu; lia|]. cbn [app head find_block].
    rewrite bool_decide_eq_false_2 by (apply Hst; by left). cbn [mbind option_bind].
    assert (apart b x) as Hx by (apply Hap; by left).
    rewrite node_in_block by (done || by right). rewrite bool_decide_eq_false_2 by by apply apart_ne.
    destruct Hl as [Ex Hl]. destruct (H !! x) as [blk|]; [|done]. injection Ex as Ex. cbn [mbind option_bind]. rewrite Ex.
    replace (or_head (xs ++ b :: rest) None) with (head (xs ++ b :: rest)) by (by destruct xs).
    rewrite IH; [|cbn in Hfu; lia|done|intros y Hy; apply Hap; by right|intros y Hy; apply Hst; by right].
    f_equal. f_equal. destruct xs as [|y xs]; [done|]. change (last (x :: y :: xs)) with (last (y :: xs)).
    destruct (last (y :: xs)) eqn:E; [done|by apply last_None in E].
Qed.

(** Linking the last block to another one leaves the nodes. *)
Lemma set_block_next_read b v H H' blk q : H !! b = Some blk -> H' = <[b := mkBlock v (nodes blk)]> H -> read_node q H' = read_node q H.
Proof.
  intros Eb ->. unfold read_node. destruct (decide (q.1 = b)) as [->|Hne]; [by rewrite lookup_insert_eq, Eb|by rewrite lookup_insert_ne].
Qed.

(** Two chains in a row are exchanged by two writes. *)
Lemma rotate_chain H xs p zs l : NoDup ((xs ++ [p]) ++ zs ++ [l]) -> linked H ((xs ++ [p]) ++ zs ++ [l]) None -> map_Forall (fun _ => block_ok) H ->
  exists H1 H2, set_block_next l (head (xs ++ [p])) H = Some H1 /\ set_block_next p None H1 = Some H2 /\
    linked H2 ((zs ++ [l]) ++ xs ++ [p]) None /\ dom H2 = dom H /\ map_Forall (fun _ => block_ok) H2 /\
    forall q, read_node q H2 = read_node q H.
Proof.
  intros (HndA & Hdis & HndB)%list.NoDup_app [HlA HlB]%linked_app Hbl.
  assert (l ∉ zs) as Hlz by (apply list.NoDup_app in HndB as (_ & Hd & _); intros Hin; apply (Hd _ Hin); by left).
  assert (p ∉ xs) as Hpx by (apply list.NoDup_app in HndA as (_ & Hd & _); intros Hin; apply (Hd _ Hin); by left).
  destruct (set_last_next H zs l None (head (xs ++ [p])) HlB Hlz) as (H1 & lb & El & E1 & EH1 & Hl1).
  assert (linked H1 (xs ++ [p]) (or_head (zs ++ [l]) None)) as HlA1.
  { rewrite EH1. apply linked_insert; [|done]. intros Hin. apply (Hdis _ Hin). set_solver. }
  destruct (set_last_next H1 xs p _ None HlA1 Hpx) as (H2 & pb & Ep & E2 & EH2 & Hl2).
  exists H1, H2. split_and!; [done|done| | | |].
  - apply linked_app. split; [|done]. replace (or_head (xs ++ [p]) None) with (head (xs ++ [p])) by (by destruct xs).
    rewrite EH2. apply linked_insert; [|done]. apply Hdis. set_solver.
  - rewrite EH2, dom_insert_lookup_L by eauto. rewrite EH1. apply dom_insert_lookup_L. eauto.
  - assert (map_Forall (fun _ => block_ok) H1) as Hbl1 by (rewrite EH1; apply map_Forall_insert_2; [exact (Hbl _ _ El)|done]).
    rewrite EH2. apply map_Forall_insert_2; [exact (Hbl1 _ _ Ep)|done].
  - intros q. rewrite (set_block_next_read p None H1 H2 pb q Ep EH2). by apply (set_block_next_read l (head (xs ++ [p])) H H1 lb).
Qed.

(** The blocks before [b] move to the end. *)
Lemma rotate_rep a H xs p b ys fs : alloc_rep a H ((xs ++ [p]) ++ b :: ys) fs ->
  exists l H1 H2, last_block a = Some l /\ set_block_next l (first_block a) H = Some H1 /\ set_block_next p None H1 = Some H2 /\
    alloc_rep (with_ends (Some b) (Some p) a) H2 (b :: ys) (fs ++ xs ++ [p]) /\
    forall q, read_node q H2 = read_node q H.
Proof.
  intros [Hnd Hd Hl Hf Hla Hc He Hln Hn Hnf Hsp Hbl].
  assert (((xs ++ [p]) ++ b :: ys) ++ fs = (xs ++ [p]) ++ b :: ys ++ fs) as E1 by (by rewrite <-!app_assoc).
  assert ((b :: ys) ++ fs ++ xs ++ [p] = (b :: ys ++ fs) ++ xs ++ [p]) as E2 by (cbn; by rewrite <-!app_assoc).
  rewrite E1 in *. assert ((b :: ys ++ fs) ++ xs ++ [p] ≡ₚ (xs ++ [p]) ++ b :: ys ++ fs) as Hperm by apply Permutation_app_comm.
  destruct (exists_last_or_nil (b :: ys ++ fs)) as [?|(zs & l & EB)]; [done|].
  assert (first_block a = head (xs ++ [p])) as Hf' by (rewrite Hf; by destruct xs).
  assert (last_block a = Some l) as Hla' by (rewrite Hla, EB, app_assoc; apply last_snoc).
  pose proof Hnd as Hnd'. pose proof Hl as Hl'. rewrite EB in Hnd', Hl'.
  destruct (rotate_chain H xs p zs l Hnd' Hl' Hbl) as (H1 & H2 & ES1 & ES2 & HL2 & Hd2 & Hbl2 & Hrd).
  rewrite Hf'. exists l, H1, H2. split_and!; [done..| |done].
  split; rewrite ?E2; cbn [first_block last_block current_block last_node block_num with_ends]; try done.
  - by rewrite Hperm.
  - rewrite Hd2, Hd. by rewrite Hperm.
  - by rewrite EB.
  - by rewrite app_assoc, last_snoc.
  - rewrite Hc. by rewrite last_app_cons.
  - by rewrite Hperm.
  - setoid_rewrite Hperm. done.
Qed.

(** [free_nodes_before] frees the nodes of the blocks before that of [node]; [node] and
    those after it stay. *)
Lemma free_nodes_before_rep node a H us fs : alloc_rep a H us fs -> node ∈ in_use us (last_node a) ->
  exists a' H', free_nodes_before node a H = Some (0, a', H') /\ reserved_blocks a' = reserved_blocks a /\
    exists xs us' fs', us = xs ++ us' /\ head us' = Some node.1 /\ alloc_rep a' H' us' fs' /\ last_node a' = last_node a /\
      forall q, q.1 ∈ us' -> read_node q H' = read_node q H.
Proof.
  intros Hr [Hb Hi]%in_use_in. destruct node as [b i]. cbn [fst snd] in *.
  apply list_elem_of_split in Hb as (xs & ys & ->).
  pose proof Hr as [Hnd Hd Hl Hf Hla Hc He Hln Hn Hnf Hsp Hbl]. unfold free_nodes_before. rewrite Hc.
  destruct (exists_last_or_nil (b :: ys)) as [?|(vs & c & EB)]; [done|].
  rewrite EB, app_assoc, last_snoc. cbn [mbind option_bind].
  assert (linked H ((xs ++ vs) ++ c :: fs) None) as Hl'.
  { rewrite EB in Hl. by rewrite <-!app_assoc in *. }
  apply linked_app in Hl' as [_ [Ec _]]. destruct (H !! c) as [cb|]; [|done]. injection Ec as Ec. cbn [mbind option_bind]. rewrite Ec.
  pose proof Hl as Hl'. rewrite <-app_assoc in Hl', Hf. cbn [app] in Hl', Hf.
  assert (NoDup (xs ++ b :: ys ++ fs)) as Hnd' by (by rewrite <-app_assoc in Hnd).
  pose proof Hnd' as (_ & Hdis & Hndb)%list.NoDup_app.
  assert (forall x, x ∈ xs -> x <> b) as Hxb by (intros x Hx ->; apply (Hdis _ Hx); by left).
  rewrite Hf, (find_block_spec (size H) H xs b (ys ++ fs) i None (or_head fs None)); [|..|done|done| |]; cycle 1.
  { pose proof (rep_size _ _ _ _ Hr) as Hs. rewrite Hn, !length_app in Hs. lia. }
  { intros x Hx. apply Hsp; [set_solver..|]. intros <-. by apply (Hxb b). }
  { intros x Hx. destruct fs as [|f fs]; [done|]. cbn. intros [= ->]. apply elem_of_app in Hx as [Hx|Hx%list_elem_of_singleton].
    - apply (Hdis _ Hx). set_solver.
    - subst. apply list.NoDup_cons in Hndb as [Hn' _]. set_solver. }
  cbn [mbind option_bind]. destruct (exists_last_or_nil xs) as [->|(xs' & p & ->)].
  - cbn [app head]. rewrite bool_decide_eq_true_2 by done. eexists _, _. split; [done|]. split; [done|].
    exists [], (b :: ys), fs. done.
  - rewrite bool_decide_eq_false_2.
    2: { destruct xs' as [|x xs']; cbn; intros [= E]; eapply Hxb; [|exact E| |exact E]; set_solver. }
    destruct (rotate_rep a H xs' p b ys fs Hr) as (l & H1 & H2 & -> & E1 & E2 & Hr2 & Hq2).
    rewrite Hf in E1. cbn [mbind option_bind]. rewrite E1. cbn [mbind option_bind]. rewrite last_snoc. cbn [from_option mbind option_bind].
    rewrite E2. cbn [mbind option_bind].
    destruct (free_blocks_rep _ _ _ _ Hr2) as (a' & H' & n & -> & Hr' & Hln' & Hres & Hq & _). cbn [mbind option_bind].
    eexists a', H'. split; [done|]. split; [by rewrite Hres|]. eexists (xs' ++ [p]), (b :: ys), _.
    split; [by rewrite EB, app_assoc|]. split; [done|]. split; [exact Hr'|]. split; [done|]. intros q Hqb. rewrite Hq by done. apply Hq2.
Qed.

(** The destructor frees every block. *)
Lemma free_chain_spec fuel bs a H : (length bs <= fuel)%nat -> NoDup bs -> linked H bs None -> dom H = list_to_set bs ->
  block_num a = Z.of_nat (length bs) -> ufits 32 (block_num a) ->
  free_chain fuel (head bs) a H = Some (with_num 0 a, ∅).
Proof.
  revert fuel a H. induction bs as [|b bs IH]; intros fuel a H Hfu Hnd Hl Hd Hn Hnf.
  - cbn in *. assert (H = ∅) as -> by (by apply dom_empty_inv_L). destruct fuel; (do 2 f_equal; destruct a; cbn in *; by subst).
  - destruct fuel as [|fuel]; [cbn in Hfu; lia|]. cbn [head free_chain]. destruct Hl as [Eb Hl].
    destruct (H !! b) as [blk|] eqn:E; [|done]. injection Eb as Eb. cbn [mbind option_bind]. unfold free_block. rewrite E. cbn [mbind option_bind].
    rewrite Eb. replace (or_head bs None) with (head bs) by (by destruct bs). cbn [length] in Hn, Hfu.
    apply list.NoDup_cons in Hnd as [Hb Hnd].
    assert (u32 (block_num a - 1) = block_num a - 1) as Hu by (apply uwrap_small; unfold ufits in *; lia).
    rewrite IH; cbn [block_num with_num]; [done|lia|done|by apply linked_delete| |rewrite Hu; lia|rewrite Hu; unfold ufits in *; lia].
    rewrite dom_delete_L, Hd. set_solver.
Qed.

(** * Clients *)

Inductive alloc_op :=
  | Alloc (m : option (Z * list Tranx_node))
  | Put (p : node_ptr) (n : Tranx_node)
  | FreeBefore (p : node_ptr)
  | FreeAll.

Definition run_op (op : alloc_op) (a : Tranx_node_allocator) (H : heap) : option (option node_ptr * Tranx_node_allocator * heap) :=
  match op with
  | Alloc m => allocate_node m a H
  | Put p n => H ← write_node p n H; Some (None, a, H)
  | FreeBefore p => '(e, a, H) ← free_nodes_before p a H; Some (None, a, H)
  | FreeAll => '(e, a, H) ← free_all_nodes a H; Some (None, a, H)
  end.

(** What a client holds is a queue of nodes with what it wrote in them. *)
Abbreviation client := (list (node_ptr * Tranx_node)).

(** It writes and frees only what it holds. *)
Definition op_ok (op : alloc_op) (H : heap) (q : client) : Prop :=
  match op with
  | Alloc m => malloc_ok m H
  | Put p _ | FreeBefore p => p ∈ q.*1
  | FreeAll => True
  end.

Definition put (p : node_ptr) (n : Tranx_node) (x : node_ptr * Tranx_node) : node_ptr * Tranx_node :=
  if decide (x.1 = p) then (p, n) else x.

(** The queue after an operation: a new node at its end, which is not one of the
    others and is cleared; or the part from a node on; or nothing. *)
Definition queue_after (op : alloc_op) (r : option node_ptr) (H' : heap) (q q' : client) : Prop :=
  match op with
  | Alloc m =>
      match r with
      | None => m = None /\ q' = q
      | Some p => p ∉ q.*1 /\ exists n, read_node p H' = Some n /\ cleared n /\ q' = q ++ [(p, n)]
      end
  | Put p n => q' = put p n <$> q
  | FreeBefore p => exists pre, q = pre ++ q' /\ head q'.*1 = Some p
  | FreeAll => q' = []
  end.

(** The states of an allocator with its clients. *)
Inductive reaches (reserved : Z) : Tranx_node_allocator -> heap -> client -> Prop :=
  | reach_new : reaches reserved (new_allocator reserved) ∅ []
  | reach_op a H q op r a' H' q' :
      reaches reserved a H q -> op_ok op H q -> run_op op a H = Some (r, a', H') -> queue_after op r H' q q' ->
      reaches reserved a' H' q'.

Record simulates (a : Tranx_node_allocator) (H : heap) (q : client) (us fs : list Z) : Prop := {
  sim_rep : alloc_rep a H us fs;
  sim_queue : q.*1 `suffix_of` in_use us (last_node a);
  sim_read : forall p n, (p, n) ∈ q -> read_node p H = Some n
}.

Lemma sim_in_use a H q us fs p : simulates a H q us fs -> p ∈ q.*1 -> p ∈ in_use us (last_node a).
Proof. intros [_ [pre ->] _] Hp. apply elem_of_app. by right. Qed.
Lemma sim_nodup a H q us fs : simulates a H q us fs -> NoDup q.*1.
Proof.
  intros [Hr [pre E] _]. assert (NoDup (in_use us (last_node a))) as Hnd.
  { apply in_use_nodup. by apply rep_nodup, list.NoDup_app in Hr as [? _]. }
  rewrite E in Hnd. by apply list.NoDup_app in Hnd as (_ & _ & ?).
Qed.

Lemma sim_alloc m a H q us fs : simulates a H q us fs -> malloc_ok m H ->
  exists r a' H' q' us' fs', run_op (Alloc m) a H = Some (r, a', H') /\ queue_after (Alloc m) r H' q q' /\ simulates a' H' q' us' fs'.
Proof.
  intros Hs Hm. pose proof Hs as [Hr [pre Epre] Hrd]. cbn [run_op queue_after].
  destruct (allocate_node_rep m a H us fs Hr Hm) as ([p|] & a' & H' & E & Hout).
  - destruct Hout as (_ & us' & fs' & Hr' & Hin & Hq & n & Hn & Hcl).
    assert (p ∉ in_use us (last_node a)) as Hp.
    { assert (NoDup (in_use us' (last_node a'))) as Hnd by (apply in_use_nodup; by apply rep_nodup, list.NoDup_app in Hr' as [? _]).
      rewrite Hin in Hnd. apply list.NoDup_app in Hnd as (_ & Hd & _). intros Hx. apply (Hd _ Hx). by left. }
    exists (Some p), a', H', (q ++ [(p, n)]), us', fs'. split; [done|]. split.
    + split; [|by exists n]. intros Hx. apply Hp. by apply (sim_in_use _ _ _ _ _ _ Hs).
    + split; [done| |].
      * rewrite Hin, Epre, fmap_app, <-app_assoc. by exists pre.
      * intros p' n' [Hx|Hx%list_elem_of_singleton]%elem_of_app; [|by injection Hx as -> ->].
        assert (p' ∈ q.*1) as Hx1 by (apply list_elem_of_fmap; by exists (p', n')).
        pose proof (sim_in_use _ _ _ _ _ _ Hs Hx1) as Hx2. rewrite Hq; [by apply Hrd|by apply in_use_in in Hx2 as [? _]|by intros ->].
  - destruct Hout as (-> & -> & ->). exists None, a, H, q, us, fs. by split_and!.
Qed.

Lemma sim_put p n a H q us fs : simulates a H q us fs -> p ∈ q.*1 ->
  exists a' H' us' fs', run_op (Put p n) a H = Some (None, a', H') /\ simulates a' H' (put p n <$> q) us' fs'.
Proof.
  intros Hs Hp. pose proof Hs as [Hr Hsuf Hrd]. cbn [run_op].
  pose proof (sim_in_use _ _ _ _ _ _ Hs Hp) as [Hpu Hpi]%in_use_in.
  destruct (write_node_rep a H us fs p n Hr) as (H' & _ & -> & Hr' & Hrp & Hq); [by apply elem_of_app; left|done|].
  cbn [mbind option_bind]. exists a, H', us, fs. split; [done|]. split; [done| |].
  - replace ((put p n <$> q).*1) with (q.*1); [done|]. rewrite <-list_fmap_compose. apply list_fmap_ext.
    intros i [x m] _. unfold put. cbn. by destruct (decide (x = p)).
  - intros p' n' (x & Ex & Hx)%list_elem_of_fmap. unfold put in Ex. destruct (decide (x.1 = p)) as [E|E].
    + by injection Ex as -> ->.
    + subst x. cbn in *. rewrite Hq by done. by apply Hrd.
Qed.

(** The part of a list of nodes that starts at the first node of the block of [p] contains the part from [p] on. *)
Lemma suffix_from p (xs us' : list Z) ln q : NoDup (xs ++ us') -> -1 <= ln < Z.of_nat BLOCK_TRANX_NODES ->
  q.*1 `suffix_of` in_use (xs ++ us') ln -> p ∈ (q : client).*1 -> head us' = Some p.1 ->
  exists pre q', q = pre ++ q' /\ head q'.*1 = Some p /\ q'.*1 `suffix_of` in_use us' ln.
Proof.
  intros Hnd Hln [pre0 Eq] Hp Hh. apply list_elem_of_fmap in Hp as ([p' n] & -> & Hp). cbn in *.
  apply list_elem_of_split in Hp as (pre & post & ->). exists pre, ((p', n) :: post). split_and!; [done..|].
  assert (us' <> []) as Hus by (by intros ->). rewrite in_use_drop in Eq by done.
  rewrite fmap_app in Eq. cbn [fmap list_fmap fst] in Eq. rewrite app_assoc in Eq.
  assert (p' ∉ nodes_of xs) as Hpx.
  { intros [Hin _]%nodes_of_in. apply list.NoDup_app in Hnd as (_ & Hd & _). apply (Hd _ Hin).
    destruct us'; [done|]. injection Hh as ->. by left. }
  apply app_eq_inv in Eq as [(k & E1 & E2)|(k & E1 & E2)].
  - destruct k as [|x k]; [rewrite app_nil_r in E1; subst; by exists []|]. exfalso. apply Hpx. rewrite E1. injection E2 as -> _. set_solver.
  - rewrite E2. by exists k.
Qed.

Lemma sim_free_before p a H q us fs : simulates a H q us fs -> p ∈ q.*1 ->
  exists a' H' q' us' fs', run_op (FreeBefore p) a H = Some (None, a', H') /\
    queue_after (FreeBefore p) None H' q q' /\ simulates a' H' q' us' fs'.
Proof.
  intros Hs Hp. pose proof Hs as [Hr Hsuf Hrd]. cbn [run_op queue_after].
  destruct (free_nodes_before_rep p a H us fs Hr) as (a' & H' & -> & _ & xs & us' & fs' & -> & Hh & Hr' & Hln & Hq);
    [by apply (sim_in_use _ _ _ _ _ _ Hs)|].
  assert (NoDup (xs ++ us')) as Hnd by (by apply rep_nodup, list.NoDup_app in Hr as [? _]).
  destruct (suffix_from p xs us' _ q Hnd (rep_last_node _ _ _ _ Hr) Hsuf Hp Hh) as (pre & q' & -> & Hh' & Hsuf').
  cbn [mbind option_bind]. exists a', H', q', us', fs'. split; [done|]. split; [by exists pre|]. split; [done|by rewrite Hln|].
  intros x n Hx. assert (x ∈ q'.*1) as Hx1 by (apply list_elem_of_fmap; by exists (x, n)).
  rewrite Hq; [apply Hrd, elem_of_app; by right|]. destruct Hsuf' as [k Ek].
  assert (x ∈ in_use us' (last_node a)) as Hin by (rewrite Ek; apply elem_of_app; by right). by apply in_use_in in Hin as [? _].
Qed.

Lemma sim_step op a H q us fs : simulates a H q us fs -> op_ok op H q ->
  exists r a' H' q' us' fs', run_op op a H = Some (r, a', H') /\ queue_after op r H' q q' /\ simulates a' H' q' us' fs'.
Proof.
  intros Hs Hok. destruct op as [m|p n|p|]; cbn [op_ok] in Hok.
  - by eapply sim_alloc.
  - destruct (sim_put p n a H q us fs Hs Hok) as (a' & H' & us' & fs' & E & Hs'). by eexists None, a', H', _, us', fs'.
  - destruct (sim_free_before p a H q us fs Hs Hok) as (a' & H' & q' & us' & fs' & E & Hq & Hs'). by eexists None, a', H', _, us', fs'.
  - destruct (free_all_nodes_rep a H us fs) as (a' & H' & E & _ & (us' & fs' & Hr & Hin) & _); [by destruct Hs|].
    exists None, a', H', [], us', fs'. cbn [run_op]. rewrite E. split_and!; [done..|]. split; [done|by rewrite Hin|].
    intros p n Hx. by apply elem_of_nil in Hx.
Qed.

(** The queue after an operation is determined. *)
Lemma queue_after_det op r H' q q1 q2 : NoDup q.*1 -> queue_after op r H' q q1 -> queue_after op r H' q q2 -> q1 = q2.
Proof.
  intros Hnd. destruct op as [m|p n|p|]; cbn.
  - destruct r as [p|]; [|naive_solver]. intros (_ & n1 & E1 & _ & ->) (_ & n2 & E2 & _ & ->). congruence.
  - congruence.
  - intros (pre1 & -> & Hh1) (pre2 & E & Hh2). destruct q1 as [|[p1 n1] q1]; [done|]. destruct q2 as [|[p2 n2] q2]; [done|].
    cbn in Hh1, Hh2. injection Hh1 as ->. injection Hh2 as ->. rewrite fmap_app in Hnd. cbn in Hnd.
    apply list.NoDup_app in Hnd as (_ & Hd & [Hn Hnd]%list.NoDup_cons).
    apply app_eq_inv in E as [(k & E1 & E2)|(k & E1 & E2)].
    + destruct k as [|x k]; [cbn in E2; congruence|]. exfalso. injection E2 as <- E2. apply (Hd p); [|by left].
      rewrite E1, fmap_app. apply elem_of_app. right. by left.
    + destruct k as [|x k]; [cbn in E2; congruence|]. exfalso. injection E2 as <- E2. apply Hn. rewrite E2, fmap_app.
      apply elem_of_app. right. by left.
  - congruence.
Qed.

Lemma reaches_simulates reserved a H q : reaches reserved a H q -> exists us fs, simulates a H q us fs.
Proof.
  induction 1 as [|a H q op r a' H' q' Hre (us & fs & Hs) Hok Hrun Hq].
  - exists [], []. split; [split; cbn; try done; [apply NoDup_nil_2|by intros b b' Hb%elem_of_nil]|by exists []|].
    intros p n Hx. by apply elem_of_nil in Hx.
  - destruct (sim_step op a H q us fs Hs Hok) as (r2 & a2 & H2 & q2 & us2 & fs2 & E & Hq2 & Hs2).
    rewrite Hrun in E. injection E as <- <- <-. rewrite (queue_after_det op r H' q q' q2) by eauto using sim_nodup. eauto.
Qed.

(** C8.  The allocator serves its clients as a queue of nodes.  In every state that it
    can reach, an allocation, a write to a node that is held, the freeing of the
    nodes before one that is held, or of all nodes, is done without an invalid access;
    an allocated node is new, and the nodes that are still held stay distinct and keep
    what was written to them; the blocks counted are those in memory, and the
    destructor frees them all. *)
Theorem allocator_serves_clients reserved a H q op :
  reaches reserved a H q -> op_ok op H q ->
  exists r a' H' q', run_op op a H = Some (r, a', H') /\ queue_after op r H' q q' /\
    NoDup q'.*1 /\ (forall p n, (p, n) ∈ q' -> read_node p H' = Some n) /\
    block_num a' = Z.of_nat (size H') /\ exists a'', delete_allocator a' H' = Some (a'', ∅).
Proof.
  intros (us & fs & Hs)%reaches_simulates Hok.
  destruct (sim_step op a H q us fs Hs Hok) as (r & a' & H' & q' & us' & fs' & E & Hq & Hs').
  exists r, a', H', q'. split_and!; [done|done|by eapply sim_nodup|by destruct Hs'| |].
  - symmetry. eapply rep_size. by destruct Hs'.
  - destruct Hs' as [Hr _ _]. pose proof (rep_size _ _ _ _ Hr) as Hsz. destruct Hr as [Hnd Hd Hl Hf _ _ _ _ Hn Hnf _ _].
    unfold delete_allocator. rewrite Hf. rewrite (free_chain_spec _ (us' ++ fs')); eauto. lia.
Qed.

(** After [free_all_nodes] nothing is in use, and at most two blocks, or the
    reserved ones, are kept. *)
Theorem free_all_keeps_reserved reserved a H q : reaches reserved a H q ->
  exists a' H', free_all_nodes a H = Some (0, a', H') /\
    Z.of_nat (size H') = Z.max (Z.min (Z.of_nat (size H)) 2) (Z.min (Z.of_nat (size H)) (reserved_blocks a)).
Proof.
  intros (us & fs & [Hr _ _])%reaches_simulates. destruct (free_all_nodes_rep a H us fs Hr) as (a' & H' & E & _ & (us' & fs' & Hr' & _) & Hn).
  exists a', H'. split; [done|]. by rewrite (rep_size _ _ _ _ Hr'), (rep_size _ _ _ _ Hr).
Qed.

(** ** An allocator after one allocation *)

Definition junk_node : Tranx_node := mkNode [x41; x42] 7 None None.
Definition one_node : Tranx_node := mkNode [x00; x42] 0 None None.
Definition one_heap : heap := {[8 := mkBlock None (one_node :: replicate 15 junk_node)]}.
Definition one_alloc : Tranx_node_allocator := mkAlloc 3 (Some 8) (Some 8) (Some 8) 0 1.

Lemma one_reaches : reaches 20 one_alloc one_heap [((8, 0%nat), one_node)].
Proof.
  apply (reach_op 20 (new_allocator 20) ∅ [] (Alloc (Some (8, replicate 16 junk_node))) (Some (8, 0%nat))).
  - apply reach_new.
  - split; [done|]. split; [|done]. intros b Hb. by rewrite dom_empty_L in Hb.
  - vm_compute. reflexivity.
  - split; [by intros ?%elem_of_nil|]. exists one_node. split; [vm_compute; reflexivity|]. split; [|done]. split_and!; try done. by right.
Qed.

Lemma allocator_serves_clients_witness :
  exists r a' H' q', run_op (Alloc None) one_alloc one_heap = Some (r, a', H') /\
    queue_after (Alloc None) r H' [((8, 0%nat), one_node)] q' /\ NoDup q'.*1 /\
    (forall p n, (p, n) ∈ q' -> read_node p H' = Some n) /\ block_num a' = Z.of_nat (size H') /\
    exists a'', delete_allocator a' H' = Some (a'', ∅).
Proof. apply (allocator_serves_clients 20 one_alloc one_heap _ (Alloc None)); [apply one_reaches|exact I]. Defined.

Lemma free_all_keeps_reserved_witness :
  exists a' H', free_all_nodes one_alloc one_heap = Some (0, a', H') /\ Z.of_nat (size H') = Z.max (Z.min 1 2) (Z.min 1 3).
Proof. apply (free_all_keeps_reserved 20 one_alloc one_heap [((8, 0%nat), one_node)]). apply one_reaches. Defined.
