(* ===== verification/SqlArray.v ===== *)
(** Arrays: [Mem_root_array] of [private/mem_root_array.h] and
    [Bounds_checked_array] of [private/sql_array.h].

    The memory is a heap of arrays of slots; a slot holds an element or, where no
    element was constructed or it was destroyed, nothing.  An argument of type
    [const Element_type &] is a value from elsewhere or a slot, since code passes
    elements of an array to the array's own methods.  [None] is a failed assertion,
    an access outside of an array, or the use of an element that is not there. *)

From S2P Require Import Prelude SqlError.

(** * Memory *)

Abbreviation slots E := (list (option E)).
Abbreviation memory E := (gmap positive (list (option E))).

Section memory.
Context {E : Type}.

(** [const Element_type &]. *)
Inductive element_ref := Value (v : E) | Slot (b : positive) (i : nat).

Definition slot_read (b : positive) (i : nat) (H : memory E) : option E := ss ← H !! b; s ← ss !! i; s.
Definition slot_write (b : positive) (i : nat) (v : option E) (H : memory E) : option (memory E) :=
  ss ← H !! b; _ ← ss !! i; Some (<[b := <[i := v]> ss]> H).
Definition read_ref (r : element_ref) (H : memory E) : option E :=
  match r with Value v => Some v | Slot b i => slot_read b i H end.

(** Destroying an element that is there. *)
Definition destroy (trivial : bool) (b : positive) (i : nat) (H : memory E) : option (memory E) :=
  if trivial then Some H else _ ← slot_read b i H; slot_write b i None H.
End memory.

Arguments element_ref : clear implicits.

(** * [Mem_root_array] *)

Section Mem_root_array.
Context {E : Type} (sizeof_E : Z) (has_trivial_destructor : bool).

Record Mem_root_array := mkArray { m_array : option positive; m_size : nat; m_capacity : Z }.

Definition new_array : Mem_root_array := mkArray None 0 0.

Definition set_size (n : nat) (a : Mem_root_array) : Mem_root_array := mkArray (m_array a) n (m_capacity a).

Definition empty (a : Mem_root_array) : bool := (m_size a =? 0)%nat.

Definition elem_at (n : nat) (a : Mem_root_array) (H : memory E) : option E :=
  b ← m_array a; asserting (n <? m_size a)%nat tt ;; slot_read b n H.
Definition set_at (n : nat) (v : E) (a : Mem_root_array) (H : memory E) : option (memory E) :=
  b ← m_array a; asserting (n <? m_size a)%nat tt ;; _ ← slot_read b n H; slot_write b n (Some v) H.
Definition back (a : Mem_root_array) (H : memory E) : option E := elem_at (m_size a - 1) a H.

(** The loop of [chop], from [ix] on. *)
Fixpoint destroy_from (n : nat) (b : positive) (ix : nat) (H : memory E) : option (memory E) :=
  match n with
  | O => Some H
  | S n => H ← destroy has_trivial_destructor b ix H; destroy_from n b (S ix) H
  end.

Definition chop (pos : nat) (a : Mem_root_array) (H : memory E) : option (Mem_root_array * memory E) :=
  _ ← asserting (pos <? m_size a)%nat tt;
  b ← m_array a;
  H ← (if has_trivial_destructor then Some H else destroy_from (m_size a - pos) b pos H);
  Some (set_size pos a, H).

Definition clear (a : Mem_root_array) (H : memory E) : option (Mem_root_array * memory E) :=
  if empty a then Some (a, H) else chop 0 a H.

(** The copy of the elements from [ix] on to a new array. *)
Fixpoint copy_from (n : nat) (old new : positive) (ix : nat) (H : memory E) : option (memory E) :=
  match n with
  | O => Some H
  | S n =>
      v ← slot_read old ix H;
      H ← slot_write new ix (Some v) H;
      H ← destroy has_trivial_destructor old ix H;
      copy_from n old new (S ix) H
  end.

(** [alloc_root] is asked for [n * sizeof_E] bytes, computed in a [size_t]; [mem] is
    whether it has them.  It gives an array of as many slots as fit. *)
Definition alloc_slots (n : Z) : slots E := replicate (Z.to_nat (u64 (n * sizeof_E) / sizeof_E)) None.

Definition reserve (mem : bool) (n : Z) (a : Mem_root_array) (H : memory E) : option (bool * Mem_root_array * memory E) :=
  if n <=? m_capacity a then Some (false, a, H)
  else if negb mem then Some (true, a, H)
  else
    let new := fresh (dom H) in
    let H := <[new := alloc_slots n]> H in
    H ← (match m_array a with
      | None => Some H
      | Some old => copy_from (m_size a) old new 0 H
      end);
    Some (false, mkArray (Some new) (m_size a) n, H).

Definition min_capacity : Z := 20.
Definition expansion_factor : Z := 2.

Definition push_back (mem : bool) (element : element_ref E) (a : Mem_root_array) (H : memory E) : option (bool * Mem_root_array * memory E) :=
  '(oom, a, H) ← (if m_capacity a =? 0 then reserve mem min_capacity a H else Some (false, a, H));
  if (oom : bool) then Some (true, a, H)
  else
    '(oom, a, H) ← (if Z.of_nat (m_size a) =? m_capacity a then reserve mem (u64 (m_capacity a * expansion_factor)) a H else Some (false, a, H));
    if (oom : bool) then Some (true, a, H)
    else
      b ← m_array a;
      v ← read_ref element H;
      H ← slot_write b (m_size a) (Some v) H;
      Some (false, set_size (S (m_size a)) a, H).

Definition pop_back (a : Mem_root_array) (H : memory E) : option (Mem_root_array * memory E) :=
  _ ← asserting (negb (empty a)) tt;
  H ← (if has_trivial_destructor then Some H
       else b ← m_array a; _ ← elem_at (m_size a - 1) a H; destroy has_trivial_destructor b (m_size a - 1) H);
  Some (set_size (m_size a - 1) a, H).

(** The two loops of [resize]: [k] elements are missing, or too many. *)
Fixpoint push_many (mem : bool) (k : nat) (val : element_ref E) (a : Mem_root_array) (H : memory E) : option (Mem_root_array * memory E) :=
  match k with
  | O => Some (a, H)
  | S k => '(_, a, H) ← push_back mem val a H; push_many mem k val a H
  end.
Fixpoint pop_many (k : nat) (a : Mem_root_array) (H : memory E) : option (Mem_root_array * memory E) :=
  match k with
  | O => Some (a, H)
  | S k => '(a, H) ← pop_back a H; pop_many k a H
  end.

Definition resize (mem : bool) (n : nat) (val : element_ref E) (a : Mem_root_array) (H : memory E) : option (Mem_root_array * memory E) :=
  if (n =? m_size a)%nat then Some (a, H)
  else if (m_size a <? n)%nat
  then
    '(oom, a, H) ← reserve mem (Z.of_nat n) a H;
    if (oom : bool) then Some (a, H) else push_many mem (n - m_size a) val a H
  else
    '(a, H) ← (if has_trivial_destructor then Some (a, H) else pop_many (m_size a - n) a H);
    Some (set_size n a, H).

(** The destructor. *)
Definition delete_array (a : Mem_root_array) (H : memory E) : option (Mem_root_array * memory E) := clear a H.
End Mem_root_array.

(** * Slots *)

Section slot_lemmas.
Context {E : Type}.
Implicit Types (H : memory E) (ss : slots E).

Lemma slot_read_middle b H pre x post i : H !! b = Some (pre ++ x :: post) -> length pre = i -> slot_read b i H = x.
Proof. intros Eb <-. unfold slot_read. rewrite Eb. cbn [mbind option_bind]. by rewrite list_lookup_middle. Qed.
Lemma slot_write_middle b H pre x post i v : H !! b = Some (pre ++ x :: post) -> length pre = i ->
  slot_write b i v H = Some (<[b := pre ++ v :: post]> H).
Proof. intros Eb <-. unfold slot_write. rewrite Eb. cbn [mbind option_bind]. rewrite list_lookup_middle by done. cbn [mbind option_bind]. by rewrite insert_app_r_alt, Nat.sub_diag by lia. Qed.
Lemma slot_read_ne b b' i H ss : b <> b' -> slot_read b i (<[b' := ss]> H) = slot_read b i H.
Proof. intros Hne. unfold slot_read. by rewrite lookup_insert_ne. Qed.
Lemma destroy_middle trivial b H pre v post i : H !! b = Some (pre ++ Some v :: post) -> length pre = i ->
  destroy trivial b i H = Some (<[b := pre ++ (if trivial then Some v else None) :: post]> H).
Proof.
  intros Eb Hi. unfold destroy. destruct trivial; [by rewrite insert_id|].
  rewrite (slot_read_middle _ _ _ _ _ _ Eb Hi). cbn [mbind option_bind]. by apply slot_write_middle with (x := Some v).
Qed.
Lemma app_cons_assoc {A} (xs ys : list A) y : xs ++ y :: ys = (xs ++ [y]) ++ ys.
Proof. by rewrite <-app_assoc. Qed.

(** What is left of elements that were destroyed. *)
Definition remains (trivial : bool) (vs : list E) : slots E := (λ v, if trivial then Some v else None) <$> vs.

Lemma destroy_from_spec trivial vs : forall pre post b H, H !! b = Some (pre ++ (Some <$> vs) ++ post) ->
  destroy_from trivial (length vs) b (length pre) H = Some (<[b := pre ++ remains trivial vs ++ post]> H).
Proof.
  induction vs as [|v vs IH]; intros pre post b H Eb; cbn [length destroy_from fmap list_fmap remains app] in *.
  - by rewrite insert_id.
  - rewrite (destroy_middle trivial b H pre v _ _ Eb eq_refl). cbn [mbind option_bind].
    rewrite app_cons_assoc. set (pre' := pre ++ [_]). assert (S (length pre) = length pre') as -> by (unfold pre'; rewrite length_app; cbn; lia).
    rewrite (IH pre' post b) by (by rewrite lookup_insert_eq). rewrite insert_insert_eq. unfold pre'. by rewrite <-app_assoc.
Qed.

Lemma copy_from_spec trivial vs : forall pre post pre' mid post' old new H,
  old <> new -> H !! old = Some (pre ++ (Some <$> vs) ++ post) -> H !! new = Some (pre' ++ mid ++ post') ->
  length pre = length pre' -> length mid = length vs ->
  copy_from trivial (length vs) old new (length pre) H =
    Some (<[new := pre' ++ (Some <$> vs) ++ post']> (<[old := pre ++ remains trivial vs ++ post]> H)).
Proof.
  induction vs as [|v vs IH]; intros pre post pre' mid post' old new H Hne Eo En Hpre Hmid; cbn [length copy_from fmap list_fmap remains app] in *.
  - destruct mid; [|done]. cbn [app] in *. by rewrite (insert_id H old), insert_id.
  - destruct mid as [|m mid]; [done|]. cbn [app] in *. injection Hmid as Hmid.
    rewrite (slot_read_middle _ _ _ _ _ _ Eo eq_refl). cbn [mbind option_bind].
    rewrite (slot_write_middle new H pre' m _ _ (Some v) En (eq_sym Hpre)). cbn [mbind option_bind].
    rewrite (destroy_middle trivial old _ pre v _ (length pre)) by (by rewrite ?lookup_insert_ne). cbn [mbind option_bind].
    set (H1 := <[old := _]> _). set (d := if trivial then Some v else None) in *.
    assert (S (length pre) = length (pre ++ [d])) as -> by (rewrite length_app; cbn; lia).
    rewrite (IH (pre ++ [d]) post (pre' ++ [Some v]) mid post' old new H1); [|done| | |rewrite !length_app; cbn; lia|done].
    + unfold H1. rewrite <-!app_assoc. cbn [app]. f_equal. rewrite insert_insert_eq.
      rewrite (insert_insert_ne _ old new) by done. by rewrite insert_insert_eq.
    + unfold H1. by rewrite lookup_insert_eq, <-app_assoc.
    + unfold H1. by rewrite lookup_insert_ne, lookup_insert_eq, <-app_assoc by done.
Qed.
End slot_lemmas.

(** * The array as a list *)

Section refinement.
Context {E : Type} (sizeof_E : Z) (trivial : bool).
Implicit Types (H : memory E) (xs : list E) (a : Mem_root_array).

(** The array holds the elements [xs]; behind them is raw memory if elements are destroyed. *)
Definition array_rep a H xs : Prop :=
  m_size a = length xs /\
  match m_array a with
  | None => xs = [] /\ m_capacity a = 0
  | Some b => exists rest, H !! b = Some ((Some <$> xs) ++ rest) /\ Z.of_nat (length xs + length rest) = m_capacity a /\
      (trivial = false -> Forall (eq None) rest)
  end.

Lemma array_rep_capacity a H xs : array_rep a H xs -> Z.of_nat (length xs) <= m_capacity a.
Proof. intros [Hs Hm]. destruct (m_array a); [destruct Hm as (rest & _ & Hc & _); lia|destruct Hm as [-> ->]; done]. Qed.

Lemma alloc_slots_length n : 0 < sizeof_E -> 0 <= n -> n * sizeof_E < 2 ^ 64 -> alloc_slots (E := E) sizeof_E n = replicate (Z.to_nat n) None.
Proof. intros Hs Hn Hf. unfold alloc_slots. rewrite uwrap_small by (unfold ufits; nia). by rewrite Z.div_mul by lia. Qed.

Lemma remains_trivial vs post : (trivial = false -> Forall (eq None) post) -> trivial = false -> Forall (eq None) (@remains E trivial vs ++ post).
Proof. intros Hp Ht. apply Forall_app. split; [|auto]. unfold remains. rewrite Ht. apply Forall_fmap, Forall_true. done. Qed.

(** Reserving keeps the elements; those of the old array are destroyed unless trivial. *)
Lemma reserve_rep mem n a H xs : array_rep a H xs -> 0 < sizeof_E -> 0 <= n -> n * sizeof_E < 2 ^ 64 ->
  exists oom a' H', reserve sizeof_E trivial mem n a H = Some (oom, a', H') /\ array_rep a' H' xs /\
    (oom = true -> mem = false /\ m_capacity a < n) /\ (oom = false -> m_capacity a' = Z.max n (m_capacity a)) /\
    (n <= m_capacity a -> a' = a /\ H' = H) /\
    (forall b i v, slot_read b i H = Some v -> trivial = true \/ m_array a <> Some b -> slot_read b i H' = Some v).
Proof.
  intros Hr Hsz Hn Hf. pose proof (array_rep_capacity _ _ _ Hr) as Hcap. unfold reserve.
  destruct (Z.leb_spec n (m_capacity a)) as [Hle|Hgt].
  { exists false, a, H. split_and!; try done. intros _. lia. }
  destruct mem; cbn [negb]; [|exists true, a, H; split_and!; try done; lia].
  rewrite alloc_slots_length by done. set (new := fresh (dom H)).
  assert (new ∉ dom H) as Hnew by apply is_fresh. set (H1 := <[new := _]> H).
  assert (forall b i v, slot_read b i H = Some v -> slot_read b i H1 = Some v) as Hkeep.
  { intros b i v Hv. unfold H1. destruct (decide (b = new)) as [->|Hne]; [|by rewrite slot_read_ne].
    unfold slot_read in Hv. apply not_elem_of_dom in Hnew. by rewrite Hnew in Hv. }
  destruct Hr as [Hsize Hm]. destruct (m_array a) as [old|].
  - destruct Hm as (rest & Eo & Hc & Hraw). assert (old <> new) as Hon.
    { intros ->. apply Hnew, elem_of_dom. eauto. }
    rewrite Hsize. pose proof (copy_from_spec trivial xs [] rest [] (replicate (length xs) None) (replicate (Z.to_nat n - length xs) None) old new H1 Hon) as Hcopy.
    cbn [app length] in Hcopy. rewrite Hcopy; [|unfold H1; by rewrite lookup_insert_ne| |done|by rewrite length_replicate].
    2: { unfold H1. rewrite lookup_insert_eq, <-replicate_add. do 2 f_equal. lia. }
    cbn [mbind option_bind]. eexists false, _, _. split; [done|]. split_and!.
    + split; [done|]. cbn [m_array m_capacity]. eexists. split; [by rewrite lookup_insert_eq|]. split.
      * rewrite length_replicate. lia.
      * intros _. apply Forall_replicate, eq_refl.
    + done.
    + cbn. lia.
    + intros ?. lia.
    + intros b i v Hv Hor. assert (b <> new) as Hbn.
      { intros ->. unfold slot_read in Hv. apply not_elem_of_dom in Hnew. by rewrite Hnew in Hv. }
      rewrite slot_read_ne by done. destruct (decide (b = old)) as [->|Hbo].
      * destruct Hor as [->|Hor]; [|done]. unfold slot_read in *. rewrite lookup_insert_eq. by rewrite Eo in Hv.
      * rewrite slot_read_ne by done. by apply Hkeep.
  - destruct Hm as [-> Hc0]. cbn [mbind option_bind]. eexists false, _, H1. split; [done|]. split_and!; [|done| |intros; lia|auto].
    + split; [done|]. cbn [m_array m_capacity]. eexists. split; [unfold H1; by rewrite lookup_insert_eq|]. split.
      * cbn. rewrite length_replicate. lia.
      * intros _. apply Forall_replicate, eq_refl.
    + cbn. lia.
Qed.

(** An element is constructed behind the last one. *)
Lemma construct_rep a H xs v : array_rep a H xs -> Z.of_nat (length xs) < m_capacity a ->
  exists b H', m_array a = Some b /\ slot_write b (m_size a) (Some v) H = Some H' /\ array_rep (set_size (S (m_size a)) a) H' (xs ++ [v]) /\
    (forall b' i, m_array a <> Some b' -> slot_read b' i H' = slot_read b' i H).
Proof.
  intros [Hs Hm] Hlt. destruct (m_array a) as [b|] eqn:Eb; [|destruct Hm as [-> Hm]; cbn in Hlt; lia].
  destruct Hm as (rest & Er & Hc & Hraw). destruct rest as [|r rest]; [cbn in Hc; lia|].
  exists b, (<[b := (Some <$> xs) ++ Some v :: rest]> H). split; [done|]. split; [|split].
  - apply slot_write_middle with (x := r); [done|]. by rewrite length_fmap.
  - split; [cbn; rewrite Hs, length_app; cbn; lia|]. cbn [m_array m_capacity set_size]. rewrite Eb.
    exists rest. rewrite lookup_insert_eq, fmap_app, <-app_assoc. split; [done|]. split; [rewrite length_app; cbn in *; lia|].
    intros Ht. by apply Hraw, Forall_cons in Ht as [_ ?].
  - intros b' i Hne. apply slot_read_ne. congruence.
Qed.

(** What [push_back] can be given: a value, or an element that is there when it is
    copied: one of the array itself only if the array does not grow or its elements
    are trivial. *)
Definition arg_ok (r : element_ref E) (v : E) a H : Prop :=
  read_ref r H = Some v /\ match r with
    | Value _ => True
    | Slot b i => m_array a <> Some b \/ (i < m_size a)%nat /\ (trivial = true \/ Z.of_nat (m_size a) < m_capacity a)
    end.

(** Growing when the array is full. *)
Lemma grow_rep mem n r v a H xs : array_rep a H xs -> 0 < sizeof_E -> 0 <= n -> n * sizeof_E < 2 ^ 64 -> m_capacity a < n ->
  Z.of_nat (m_size a) = m_capacity a -> arg_ok r v a H ->
  exists oom a' H', reserve sizeof_E trivial mem n a H = Some (oom, a', H') /\ array_rep a' H' xs /\
    (oom = true -> mem = false) /\ (oom = false -> m_capacity a' = n) /\ (oom = true -> m_capacity a' = m_capacity a) /\
    (oom = false -> read_ref r H' = Some v).
Proof.
  intros Hr Hsz Hn Hf Hgt Hfull [Hv Hs].
  destruct (reserve_rep mem n a H xs Hr Hsz Hn Hf) as (oom & a' & H' & E' & Hr' & Ho1 & Ho2 & _ & Hk). exists oom, a', H'. split_and!; try done.
  - intros Ho. by apply Ho1.
  - intros Ho. rewrite Ho2 by done. lia.
  - intros ->. unfold reserve in E'. rewrite (proj2 (Z.leb_gt _ _)) in E' by lia.
    destruct (negb mem); [by injection E' as <- <-|]. by apply bind_Some in E' as (? & _ & ?).
  - intros _. destruct r as [v'|b i]; [done|]. cbn in *. apply Hk; [done|]. destruct Hs as [?|[_ [?|?]]]; [by right|by left|lia].
Qed.

Lemma push_back_rep mem r v a H xs : array_rep a H xs -> 0 < sizeof_E -> (20 + 2 * m_capacity a) * sizeof_E < 2 ^ 64 ->
  arg_ok r v a H ->
  exists oom a' H', push_back sizeof_E trivial mem r a H = Some (oom, a', H') /\
    array_rep a' H' (if oom then xs else xs ++ [v]) /\ (oom = true -> mem = false) /\
    m_capacity a <= m_capacity a' <= 20 + 2 * m_capacity a.
Proof.
  intros Hr Hsz Hf Ha. pose proof (array_rep_capacity _ _ _ Hr) as Hcap. pose proof (proj1 Hr) as Hs.
  assert (forall a1 H1, array_rep a1 H1 xs -> Z.of_nat (length xs) < m_capacity a1 -> read_ref r H1 = Some v ->
    exists a' H', (b ← m_array a1; v ← read_ref r H1; H ← slot_write b (m_size a1) (Some v) H1; Some (false, set_size (S (m_size a1)) a1, H)) =
      Some (false, a', H') /\ array_rep a' H' (xs ++ [v]) /\ m_capacity a' = m_capacity a1) as Hlast.
  { intros a1 H1 Hr1 Hlt Hv. destruct (construct_rep a1 H1 xs v Hr1 Hlt) as (b & H' & -> & Hw & Hr' & _). cbn [mbind option_bind].
    rewrite Hv. cbn [mbind option_bind]. rewrite Hw. cbn [mbind option_bind]. by eexists _, _. }
  unfold push_back. destruct (Z.eqb_spec (m_capacity a) 0) as [Hc0|Hc0].
  - destruct (grow_rep mem min_capacity r v a H xs Hr Hsz) as (oom & a1 & H1 & -> & Hr1 & Ho1 & Ho2 & Ho3 & Hv1); unfold min_capacity; try done; try lia.
    cbn [mbind option_bind]. destruct oom; [exists true, a1, H1; split_and!; try done; rewrite Ho3 by done; lia|].
    rewrite (proj2 (Z.eqb_neq _ _)) by (rewrite (proj1 Hr1), Ho2 by done; unfold min_capacity; lia). cbn [mbind option_bind].
    destruct (Hlast a1 H1 Hr1) as (a' & H' & -> & Hr' & Hc'); [rewrite Ho2 by done; unfold min_capacity; lia|by apply Hv1|].
    exists false, a', H'. split_and!; try done; rewrite Hc', Ho2 by done; unfold min_capacity; lia.
  - cbn [mbind option_bind]. destruct (Z.eqb_spec (Z.of_nat (m_size a)) (m_capacity a)) as [Hfull|Hfull].
    + assert (u64 (m_capacity a * expansion_factor) = 2 * m_capacity a) as ->.
      { unfold expansion_factor. rewrite uwrap_small; [lia|]. unfold ufits. nia. }
      destruct (grow_rep mem (2 * m_capacity a) r v a H xs Hr Hsz) as (oom & a1 & H1 & -> & Hr1 & Ho1 & Ho2 & Ho3 & Hv1); try done; try lia; try nia.
      cbn [mbind option_bind]. destruct oom; [exists true, a1, H1; split_and!; try done; rewrite Ho3 by done; lia|].
      destruct (Hlast a1 H1 Hr1) as (a' & H' & -> & Hr' & Hc'); [rewrite Ho2 by done; lia|by apply Hv1|].
      exists false, a', H'. split_and!; try done; rewrite Hc', Ho2 by done; lia.
    + cbn [mbind option_bind]. destruct (Hlast a H Hr) as (a' & H' & -> & Hr' & Hc'); [lia|by destruct Ha|].
      exists false, a', H'. split_and!; try done; rewrite Hc'; lia.
Qed.
(** Pushing without growing. *)
Lemma push_room_rep mem r v a H xs : array_rep a H xs -> Z.of_nat (length xs) < m_capacity a -> arg_ok r v a H ->
  exists a' H', push_back sizeof_E trivial mem r a H = Some (false, a', H') /\ array_rep a' H' (xs ++ [v]) /\
    m_capacity a' = m_capacity a /\ m_array a' = m_array a /\ read_ref r H' = Some v.
Proof.
  intros Hr Hlt [Hv Hs]. pose proof (proj1 Hr) as Hsize. unfold push_back.
  rewrite (proj2 (Z.eqb_neq _ _)) by lia. cbn [mbind option_bind]. rewrite (proj2 (Z.eqb_neq _ _)) by lia. cbn [mbind option_bind].
  destruct (construct_rep a H xs v Hr Hlt) as (b & H' & Hb & Hw & Hr' & Hk). rewrite Hb. cbn [mbind option_bind]. rewrite Hv. cbn [mbind option_bind].
  rewrite Hw. cbn [mbind option_bind]. eexists _, H'. split; [done|]. split_and!; try done.
  destruct r as [v'|b' i]; [done|]. cbn in *. destruct (decide (b' = b)) as [->|Hne]; [|rewrite Hk; [done|congruence]].
  destruct Hs as [?|[Hi _]]; [done|]. unfold slot_write in Hw. unfold slot_read in *.
  destruct (H !! b) as [ss|]; [|done]. cbn [mbind option_bind] in *. apply bind_Some in Hw as (? & _ & [= <-]).
  rewrite lookup_insert_eq. cbn [mbind option_bind]. rewrite list_lookup_insert_ne by lia. done.
Qed.

Lemma push_many_rep mem k r v : forall a H xs, array_rep a H xs -> Z.of_nat (length xs + k) <= m_capacity a ->
  read_ref r H = Some v -> (forall b i, r = Slot b i -> m_array a = Some b -> (i < m_size a)%nat) ->
  exists a' H', push_many sizeof_E trivial mem k r a H = Some (a', H') /\ array_rep a' H' (xs ++ replicate k v).
Proof.
  induction k as [|k IH]; intros a H xs Hr Hk Hv Hi; cbn [push_many replicate].
  - exists a, H. by rewrite app_nil_r.
  - assert (arg_ok r v a H) as Ha.
    { split; [done|]. destruct r as [|b i]; [done|]. destruct (decide (m_array a = Some b)) as [E1|E1]; [right|by left].
      split; [by eapply Hi|]. right. rewrite (proj1 Hr). lia. }
    destruct (push_room_rep mem r v a H xs Hr) as (a1 & H1 & -> & Hr1 & Hc1 & Hm1 & Hv1); [lia|done|]. cbn [mbind option_bind].
    destruct (IH a1 H1 (xs ++ [v]) Hr1) as (a' & H' & -> & Hr'); [rewrite length_app, Hc1; cbn; lia|done| |].
    + intros b i E1 E2. rewrite Hm1 in E2. specialize (Hi b i E1 E2). rewrite (proj1 Hr1), length_app. rewrite (proj1 Hr) in Hi. cbn. lia.
    + exists a', H'. rewrite <-app_assoc in Hr'. done.
Qed.

(** Dropping the elements [ys] at the end. *)
Lemma drop_tail_rep a H xs ys : array_rep a H (xs ++ ys) -> exists b H', (ys = [] \/ m_array a = Some b) /\
  (if trivial then Some H else destroy_from trivial (length ys) b (length xs) H) = Some H' /\ array_rep (set_size (length xs) a) H' xs.
Proof.
  intros [Hs Hm]. destruct (m_array a) as [b|] eqn:Eb.
  - destruct Hm as (rest & Er & Hc & Hraw). rewrite fmap_app, <-app_assoc in Er. exists b.
    pose proof (destroy_from_spec trivial ys (Some <$> xs) rest b H Er) as Hd. rewrite length_fmap in Hd.
    destruct trivial eqn:Et.
    + exists H. split; [by right|]. split; [done|]. split; [done|]. cbn [m_array set_size]. rewrite Eb. exists ((Some <$> ys) ++ rest).
      split; [done|]. split; [cbn; rewrite !length_app, length_fmap in *; lia|congruence].
    + eexists. split; [by right|]. split; [exact Hd|]. split; [done|]. cbn [m_array set_size]. rewrite Eb. eexists. rewrite lookup_insert_eq. split; [done|].
      split; [cbn; rewrite !length_app in *; unfold remains; rewrite length_fmap; lia|]. intros _. rewrite <-Et. apply remains_trivial; [|done]. intros _. by apply Hraw.
  - destruct Hm as [Hnil Hc]. apply app_nil in Hnil as [-> ->]. exists 1%positive, H. split; [by left|]. split; [by destruct trivial|].
    split; [done|]. cbn. by rewrite Eb.
Qed.

Lemma chop_rep pos a H xs : array_rep a H xs -> (pos < length xs)%nat ->
  exists H', chop trivial pos a H = Some (set_size pos a, H') /\ array_rep (set_size pos a) H' (take pos xs).
Proof.
  intros Hr Hpos. rewrite <-(take_drop pos xs) in Hr. pose proof (proj1 Hr) as Hs. rewrite take_drop in Hs.
  assert (length (take pos xs) = pos) as Hlt by (rewrite length_take; lia).
  destruct (drop_tail_rep a H _ _ Hr) as (b & H' & Hb & Hd & Hr'). rewrite Hlt, length_drop in *.
  unfold chop. rewrite (proj2 (Nat.ltb_lt _ _)) by lia. cbn [asserting mbind option_bind].
  destruct Hb as [Hn| ->]; [apply (f_equal length) in Hn; rewrite length_drop in Hn; cbn in Hn; lia|]. cbn [mbind option_bind].
  rewrite Hs, Hd. cbn [mbind option_bind]. eauto.
Qed.

Lemma pop_back_rep a H xs x : array_rep a H (xs ++ [x]) ->
  exists H', pop_back trivial a H = Some (set_size (length xs) a, H') /\ array_rep (set_size (length xs) a) H' xs.
Proof.
  intros Hr. pose proof (proj1 Hr) as Hs. rewrite length_app in Hs. cbn [length] in Hs.
  destruct (drop_tail_rep a H _ _ Hr) as (b & H' & Hb & Hd & Hr'). exists H'. split; [|done].
  unfold pop_back, empty. rewrite (proj2 (Nat.eqb_neq _ _)) by lia. cbn [negb asserting mbind option_bind].
  replace (m_size a - 1)%nat with (length xs) by lia. destruct trivial; [injection Hd as ->; done|].
  destruct Hb as [?| Hb]; [done|]. rewrite Hb. cbn [mbind option_bind]. unfold elem_at. rewrite Hb. cbn [mbind option_bind].
  rewrite (proj2 (Nat.ltb_lt _ _)) by lia. cbn [asserting mbind option_bind]. cbn [length destroy_from] in Hd.
  apply bind_Some in Hd as (H1 & Hd & [= ->]). unfold destroy in *. apply bind_Some in Hd as (w & -> & Hd). cbn [mbind option_bind].
  rewrite Hd. done.
Qed.

Lemma pop_many_rep k : forall a H xs, array_rep a H xs -> (k <= length xs)%nat ->
  exists H', pop_many trivial k a H = Some (set_size (length xs - k) a, H') /\ array_rep (set_size (length xs - k) a) H' (take (length xs - k) xs).
Proof.
  induction k as [|k IH]; intros a H xs Hr Hk; cbn [pop_many].
  - rewrite Nat.sub_0_r, take_ge by lia. exists H. assert (set_size (length xs) a = a) as -> by (rewrite <-(proj1 Hr); by destruct a). done.
  - destruct (exists_last_or_nil xs) as [->|(ys & y & ->)]; [cbn in Hk; lia|]. rewrite length_app in *. cbn [length] in *.
    destruct (pop_back_rep a H ys y Hr) as (H1 & -> & Hr1). cbn [mbind option_bind].
    destruct (IH _ H1 ys Hr1) as (H' & -> & Hr'); [lia|]. exists H'.
    replace (length ys + 1 - S k)%nat with (length ys - k)%nat by lia. rewrite take_app_le by lia. done.
Qed.

(** The argument of [resize]: as for [push_back], if the array has to grow. *)
Definition resize_arg_ok (n : nat) (r : element_ref E) (v : E) a H : Prop :=
  read_ref r H = Some v /\ match r with
    | Value _ => True
    | Slot b i => m_array a <> Some b \/ (i < m_size a)%nat /\ (trivial = true \/ Z.of_nat n <= m_capacity a)
    end.

Lemma resize_rep mem n r v a H xs : array_rep a H xs -> 0 < sizeof_E -> Z.of_nat n * sizeof_E < 2 ^ 64 -> resize_arg_ok n r v a H ->
  exists a' H', resize sizeof_E trivial mem n r a H = Some (a', H') /\
    (array_rep a' H' (take n xs ++ replicate (n - length xs) v) \/ mem = false /\ m_capacity a < Z.of_nat n /\ a' = a /\ H' = H).
Proof.
  intros Hr Hsz Hf [Hv Hs]. pose proof (proj1 Hr) as Hsize. unfold resize. rewrite Hsize.
  destruct (Nat.eqb_spec n (length xs)) as [->|Hne].
  { exists a, H. split; [done|]. left. by rewrite take_ge, Nat.sub_diag, app_nil_r by lia. }
  destruct (Nat.ltb_spec (length xs) n) as [Hlt|Hge].
  - destruct (reserve_rep mem (Z.of_nat n) a H xs Hr Hsz) as (oom & a1 & H1 & E1 & Hr1 & Ho1 & Ho2 & Hid & Hk); [lia|done|].
    rewrite E1. cbn [mbind option_bind]. destruct oom.
    { destruct (Ho1 eq_refl) as [-> Hcap]. unfold reserve in E1. rewrite (proj2 (Z.leb_gt _ _)) in E1 by lia. injection E1 as <- <-.
      exists a, H. split; [done|]. by right. }
    rewrite (take_ge xs) by lia. rewrite (proj1 Hr1).
    destruct (push_many_rep mem (n - length xs) r v a1 H1 xs Hr1) as (a' & H' & -> & Hr'); [rewrite Ho2 by done; lia| | |by eauto].
    + destruct r as [v'|b i]; [done|]. cbn in *. destruct (Z.le_gt_cases (Z.of_nat n) (m_capacity a)) as [Hle|Hgt]; [by destruct (Hid Hle) as [_ ->]|].
      apply Hk; [done|]. destruct Hs as [?|[_ [?|?]]]; [by right|by left|lia].
    + intros b i -> Hb. cbn in Hs. rewrite (proj1 Hr1), <-Hsize. destruct (Z.le_gt_cases (Z.of_nat n) (m_capacity a)) as [Hle|Hgt].
      * destruct (Hid Hle) as [-> _]. destruct Hs as [?|[? _]]; done.
      * destruct (decide (m_array a = Some b)) as [Eb|Eb]; [by destruct Hs as [?|[? _]]|].
        cbn in Hv. unfold reserve in E1. rewrite (proj2 (Z.leb_gt _ _)) in E1 by lia. destruct mem; cbn [negb] in E1; [|done].
        apply bind_Some in E1 as (H2 & _ & [= <- _]). cbn in Hb. injection Hb as <-. unfold slot_read in Hv.
        assert (H !! fresh (dom H) = None) as Hf1 by (apply not_elem_of_dom, is_fresh). by rewrite Hf1 in Hv.
  - rewrite (proj2 (Nat.sub_0_le n (length xs))) by lia. cbn [replicate]. rewrite app_nil_r.
    destruct trivial eqn:Et; cbn [mbind option_bind].
    + eexists _, H. split; [done|]. left. rewrite <-(take_drop n xs) in Hr.
      destruct (drop_tail_rep a H _ _ Hr) as (b & H' & _ & Hd & Hr'). rewrite Et in Hd. injection Hd as ->.
      rewrite length_take in Hr'. by replace (n `min` length xs)%nat with n in Hr' by lia.
    + destruct (pop_many_rep (length xs - n) a H xs Hr) as (H' & E1 & Hr'); [lia|]. rewrite Et in E1. rewrite E1. cbn [mbind option_bind].
      replace (length xs - (length xs - n))%nat with n in Hr' by lia. eexists _, H'. split; [done|]. left.
      replace (length xs - (length xs - n))%nat with n by lia. by destruct a.
Qed.
End refinement.

(** ** Clients of an array *)

(** An argument is a new value or an element of the array itself. *)
Inductive array_arg (E : Type) := New (v : E) | Own (i : nat).
Arguments New {E}.
Arguments Own {E}.

Inductive array_op (E : Type) :=
  | Push (mem : bool) (r : array_arg E)
  | Pop
  | Chop (pos : nat)
  | Clear
  | Resize (mem : bool) (n : nat) (r : array_arg E)
  | Reserve (mem : bool) (n : nat)
  | SetAt (i : nat) (v : E).
Arguments Push {E}.
Arguments Pop {E}.
Arguments Chop {E}.
Arguments Clear {E}.
Arguments Resize {E}.
Arguments Reserve {E}.
Arguments SetAt {E}.

Section clients.
Context {E : Type} (sizeof_E : Z) (trivial : bool).
Implicit Types (H : memory E) (xs : list E) (a : Mem_root_array).

Definition arg_ref (r : array_arg E) a : option (element_ref E) :=
  match r with New v => Some (Value v) | Own i => b ← m_array a; Some (Slot b i) end.
Definition arg_value (r : array_arg E) xs : option E := match r with New v => Some v | Own i => xs !! i end.

Definition run_array (op : array_op E) a H : option (Mem_root_array * memory E) :=
  match op with
  | Push mem r => r ← arg_ref r a; '(_, a, H) ← push_back sizeof_E trivial mem r a H; Some (a, H)
  | Pop => pop_back trivial a H
  | Chop pos => chop trivial pos a H
  | Clear => clear trivial a H
  | Resize mem n r => r ← arg_ref r a; resize sizeof_E trivial mem n r a H
  | Reserve mem n => '(_, a, H) ← reserve sizeof_E trivial mem (Z.of_nat n) a H; Some (a, H)
  | SetAt i v => H ← set_at i v a H; Some (a, H)
  end.

(** The documented preconditions, that the bytes asked for fit a [size_t], and that an
    element of the array itself is not given to an operation that moves it, unless
    its destruction is trivial. *)
Definition array_op_ok (op : array_op E) a xs : Prop :=
  match op with
  | Push mem r => (20 + 2 * m_capacity a) * sizeof_E < 2 ^ 64 /\ is_Some (arg_value r xs) /\
      match r with New _ => True | Own i => trivial = true \/ Z.of_nat (length xs) < m_capacity a end
  | Pop => xs <> []
  | Chop pos => (pos < length xs)%nat
  | Clear => True
  | Resize mem n r => Z.of_nat n * sizeof_E < 2 ^ 64 /\ is_Some (arg_value r xs) /\
      match r with New _ => True | Own i => trivial = true \/ Z.of_nat n <= m_capacity a end
  | Reserve mem n => Z.of_nat n * sizeof_E < 2 ^ 64
  | SetAt i v => (i < length xs)%nat
  end.

(** The operation on lists. *)
Definition list_op (op : array_op E) xs : list E :=
  match op with
  | Push mem r => match arg_value r xs with Some v => xs ++ [v] | None => xs end
  | Pop => take (length xs - 1) xs
  | Chop pos => take pos xs
  | Clear => []
  | Resize mem n r => match arg_value r xs with Some v => take n xs ++ replicate (n - length xs) v | None => xs end
  | Reserve mem n => xs
  | SetAt i v => <[i := v]> xs
  end.

Lemma arg_ref_read r a H xs v : array_rep trivial a H xs -> arg_value r xs = Some v ->
  exists e, arg_ref r a = Some e /\ read_ref e H = Some v /\
    match e with Value _ => exists w, r = New w | Slot b i => r = Own i /\ m_array a = Some b /\ (i < m_size a)%nat end.
Proof.
  intros [Hs Hm] Hv. destruct r as [w|i]; cbn in *; [injection Hv as ->; exists (Value v); eauto|].
  destruct (m_array a) as [b|]; [|by destruct Hm as [-> _]]. destruct Hm as (rest & Eb & _). cbn. exists (Slot b i). split; [done|]. cbn.
  pose proof (lookup_lt_Some _ _ _ Hv) as Hi. split; [|split_and!; [done..|lia]]. unfold slot_read. rewrite Eb. cbn [mbind option_bind].
  rewrite lookup_app_l by (by rewrite length_fmap). by rewrite list_lookup_fmap, Hv.
Qed.

(** Every element can be read where it is. *)
Lemma at_rep a H xs i : array_rep trivial a H xs -> (i < length xs)%nat -> elem_at i a H = xs !! i.
Proof.
  intros [Hs Hm] Hi. unfold elem_at. destruct (m_array a) as [b|]; [|destruct Hm as [-> _]; cbn in Hi; lia].
  destruct Hm as (rest & Eb & _). cbn [mbind option_bind]. rewrite (proj2 (Nat.ltb_lt _ _)) by lia. cbn [asserting mbind option_bind].
  unfold slot_read. rewrite Eb. cbn [mbind option_bind]. rewrite lookup_app_l by (by rewrite length_fmap).
  rewrite list_lookup_fmap. by destruct (xs !! i).
Qed.

Lemma set_at_rep a H xs i v : array_rep trivial a H xs -> (i < length xs)%nat ->
  exists H', set_at i v a H = Some H' /\ array_rep trivial a H' (<[i := v]> xs).
Proof.
  intros Hr Hi. pose proof (at_rep a H xs i Hr Hi) as Hat. pose proof Hr as [Hs Hm]. unfold set_at, elem_at in *.
  destruct (m_array a) as [b|] eqn:Eb; [|destruct Hm as [-> _]; cbn in Hi; lia]. destruct Hm as (rest & Er & Hc & Hraw). cbn [mbind option_bind] in *.
  rewrite (proj2 (Nat.ltb_lt _ _)) in * by lia. cbn [asserting mbind option_bind] in *. rewrite Hat.
  destruct (lookup_lt_is_Some_2 xs i Hi) as [w Hw]. rewrite Hw. cbn [mbind option_bind]. unfold slot_write. rewrite Er. cbn [mbind option_bind].
  assert (((Some <$> xs) ++ rest) !! i = Some (Some w)) as -> by (rewrite lookup_app_l by (by rewrite length_fmap); by rewrite list_lookup_fmap, Hw).
  cbn [mbind option_bind]. eexists. split; [done|]. split; [by rewrite length_insert|]. rewrite Eb. exists rest.
  rewrite lookup_insert_eq, length_insert. split_and!; [|done|done]. rewrite insert_app_l by (by rewrite length_fmap). by rewrite list_fmap_insert.
Qed.

(** Any operation of an array, done within its preconditions, has no invalid
    access and does to the array what it does to a list; only a failed allocation
    can leave the list as it was.  Growing moves the elements, so the array must not
    be given one of its own elements by reference unless it is trivial or there is
    room. *)
Theorem mem_root_array_refines_list op a H xs :
  0 < sizeof_E -> array_rep trivial a H xs -> array_op_ok op a xs ->
  exists a' H' xs', run_array op a H = Some (a', H') /\ array_rep trivial a' H' xs' /\
    (xs' = list_op op xs \/ xs' = xs /\ match op with Push false _ | Resize false _ _ => True | _ => False end) /\
    forall i, (i < length xs')%nat -> elem_at i a' H' = xs' !! i.
Proof.
  intros Hsz Hr Hok.
  cut (exists a' H' xs', run_array op a H = Some (a', H') /\ array_rep trivial a' H' xs' /\
    (xs' = list_op op xs \/ xs' = xs /\ match op with Push false _ | Resize false _ _ => True | _ => False end)).
  { intros (a' & H' & xs' & E1 & Hr' & Hx). exists a', H', xs'. split_and!; try done. intros i Hi. by apply at_rep. }
  destruct op as [mem r| |pos| |mem n r|mem n|i v]; cbn [run_array array_op_ok list_op] in *.
  - destruct Hok as (Hf & [v Hv] & Harg). destruct (arg_ref_read r a H xs v Hr Hv) as (e & -> & He & Hown). cbn [mbind option_bind].
    destruct (push_back_rep sizeof_E trivial mem e v a H xs Hr Hsz Hf) as (oom & a' & H' & -> & Hr' & Ho & _).
    { split; [done|]. destruct e as [|b i]; [done|]. destruct Hown as (-> & Hb & Hi). right. rewrite (proj1 Hr) in *. done. }
    cbn [mbind option_bind]. rewrite Hv. exists a', H', (if oom then xs else xs ++ [v]). split_and!; try done.
    destruct oom; [right|by left]. by rewrite Ho.
  - destruct (exists_last_or_nil xs) as [->|(ys & y & ->)]; [done|]. destruct (pop_back_rep trivial a H ys y Hr) as (H' & -> & Hr').
    eexists _, H', ys. split_and!; [done..|]. left. rewrite length_app. cbn [length]. by rewrite Nat.add_sub, take_app_length.
  - destruct (chop_rep trivial pos a H xs Hr Hok) as (H' & -> & Hr'). eexists _, H', _. split_and!; [done..|by left].
  - unfold clear, empty. rewrite (proj1 Hr). destruct xs as [|x xs]; cbn [length Nat.eqb].
    + eexists a, H, []. split_and!; [done..|by left].
    + destruct (chop_rep trivial 0 a H (x :: xs) Hr) as (H' & -> & Hr'); [cbn; lia|]. eexists _, H', _. split_and!; [done..|by left].
  - destruct Hok as (Hf & [v Hv] & Harg). destruct (arg_ref_read r a H xs v Hr Hv) as (e & -> & He & Hown). cbn [mbind option_bind].
    destruct (resize_rep sizeof_E trivial mem n e v a H xs Hr Hsz Hf) as (a' & H' & -> & Hres).
    { split; [done|]. destruct e as [|b i]; [done|]. destruct Hown as (-> & Hb & Hi). by right. }
    rewrite Hv. destruct Hres as [Hr'|(-> & _ & -> & ->)]; [eauto 10|]. exists a, H, xs. split_and!; [done..|by right].
  - destruct (reserve_rep sizeof_E trivial mem (Z.of_nat n) a H xs Hr Hsz) as (oom & a' & H' & -> & Hr' & _); [lia|done|].
    cbn [mbind option_bind]. eauto 10.
  - destruct (set_at_rep a H xs i v Hr Hok) as (H' & -> & Hr'). cbn [mbind option_bind]. eauto 10.
Qed.

(** A full array whose elements are destroyed cannot be pushed one of its own
    elements: it is read after the move has destroyed it. *)
Theorem push_back_own_element mem b i a H xs : trivial = false ->
  0 < sizeof_E -> array_rep trivial a H xs -> m_array a = Some b -> (i < length xs)%nat ->
  Z.of_nat (length xs) = m_capacity a -> 2 * m_capacity a * sizeof_E < 2 ^ 64 ->
  push_back sizeof_E trivial mem (Slot b i) a H = if mem then None else Some (true, a, H).
Proof.
  intros Ht Hsz Hr Hb Hi Hcap Hf. pose proof Hr as [Hs Hm]. rewrite Hb in Hm. destruct Hm as (rest & Er & Hc & Hraw).
  assert (rest = []) as -> by (destruct rest; [done|cbn in Hc; lia]). rewrite app_nil_r in Er.
  unfold push_back. rewrite (proj2 (Z.eqb_neq _ _)) by lia. cbn [mbind option_bind]. rewrite (proj2 (Z.eqb_eq _ _)) by lia.
  unfold expansion_factor. rewrite uwrap_small by (unfold ufits; nia). unfold reserve. rewrite (proj2 (Z.leb_gt _ _)) by lia.
  destruct mem; cbn [negb]; [|done]. rewrite alloc_slots_length by (done || lia || nia). set (new := fresh (dom H)).
  assert (b <> new) as Hbn by (intros ->; pose proof (is_fresh (dom H)) as Hx; apply Hx, elem_of_dom; eauto).
  rewrite Hb, Hs. set (H1 := <[new := _]> H).
  pose proof (copy_from_spec trivial xs [] [] [] (replicate (length xs) None) (replicate (Z.to_nat (m_capacity a * 2) - length xs) None) b new H1 Hbn) as Hcopy.
  cbn [app length] in Hcopy. rewrite app_nil_r in Hcopy. rewrite Hcopy; [|unfold H1; by rewrite lookup_insert_ne| |done|by rewrite length_replicate].
  2: { unfold H1. rewrite lookup_insert_eq, <-replicate_add. do 2 f_equal. lia. }
  cbn [mbind option_bind m_array read_ref]. rewrite slot_read_ne by done. unfold slot_read at 1. rewrite lookup_insert_eq. cbn [mbind option_bind].
  rewrite app_nil_r. unfold remains. rewrite list_lookup_fmap. rewrite Ht. destruct (xs !! i); done.
Qed.
End clients.

(** When the number of bytes overflows, the array believes in a capacity that it does
    not have, and the first element is written outside of it. *)
Example reserve_overflow :
  (r ← reserve (E := Z) 16 true true (2 ^ 60) new_array ∅; Some (r.1.1, m_capacity r.1.2)) = Some (false, 2 ^ 60) /\
  (r ← reserve (E := Z) 16 true true (2 ^ 60) new_array ∅; push_back 16 true true (Value 5) r.1.2 r.2) = None.
Proof. split; vm_compute; reflexivity. Qed.

(** ** Three elements *)

Definition three : memory Z := {[1%positive := [Some 4; Some 5; Some 6]]}.
Definition three_array : Mem_root_array := mkArray (Some 1%positive) 3 3.

Lemma three_rep : array_rep false three_array three [4; 5; 6].
Proof. split; [done|]. exists []. split_and!; [done|done|intros _; by apply Forall_nil]. Qed.

Lemma mem_root_array_refines_list_witness :
  exists a' H' xs', run_array 8 false (Push true (New 7)) three_array three = Some (a', H') /\ array_rep false a' H' xs' /\
    (xs' = [4; 5; 6; 7] \/ xs' = [4; 5; 6] /\ False) /\ forall i, (i < length xs')%nat -> elem_at i a' H' = xs' !! i.
Proof.
  apply (mem_root_array_refines_list 8 false (Push true (New 7)) three_array three [4; 5; 6]); [lia|apply three_rep|].
  split; [cbn; lia|]. split; [by eexists|exact I].
Defined.

Lemma push_back_own_element_witness : push_back 8 false true (Slot 1%positive 0) three_array three = None.
Proof. apply (push_back_own_element 8 false true 1%positive 0 three_array three [4; 5; 6]); [done|lia|apply three_rep|done|cbn; lia|done|cbn; lia]. Defined.

(** * [Bounds_checked_array]: a window on an array that it does not own *)

Section Bounds_checked_array.
Context {E : Type}.

(** The arrays that windows point into; a pointer is an array and an offset. *)
Abbreviation arrays E := (gmap positive (list E)).
Record Bounds_checked_array := mkWindow { w_array : option (positive * nat); w_size : nat }.

Definition empty_window : Bounds_checked_array := mkWindow None 0.
Definition new_window (el : option (positive * nat)) (size_arg : nat) : Bounds_checked_array := mkWindow el size_arg.
Definition reset (w : Bounds_checked_array) : Bounds_checked_array := mkWindow None 0.
Definition reset_to (array_arg : option (positive * nat)) (size_arg : nat) (w : Bounds_checked_array) : Bounds_checked_array := mkWindow array_arg size_arg.
Definition window_resize (new_size : nat) (w : Bounds_checked_array) : option Bounds_checked_array :=
  asserting (new_size <=? w_size w)%nat (mkWindow (w_array w) new_size).

Definition window_get (n : nat) (w : Bounds_checked_array) (A : arrays E) : option E :=
  _ ← asserting (n <? w_size w)%nat tt; '(b, o) ← w_array w; xs ← A !! b; xs !! (o + n)%nat.
Definition window_set (n : nat) (v : E) (w : Bounds_checked_array) (A : arrays E) : option (arrays E) :=
  _ ← asserting (n <? w_size w)%nat tt; '(b, o) ← w_array w; xs ← A !! b; _ ← xs !! (o + n)%nat; Some (<[b := <[(o + n)%nat := v]> xs]> A).

Definition window_size (w : Bounds_checked_array) : nat := w_size w.
Definition window_is_null (w : Bounds_checked_array) : bool := bool_decide (w_array w = None).
Definition pop_front (w : Bounds_checked_array) : option Bounds_checked_array :=
  _ ← asserting (0 <? w_size w)%nat tt; '(b, o) ← w_array w; Some (mkWindow (Some (b, S o)) (w_size w - 1)).
Definition window_begin (w : Bounds_checked_array) : option (positive * nat) := w_array w.
Definition window_end (w : Bounds_checked_array) : option (positive * nat) := '(b, o) ← w_array w; Some (b, o + w_size w)%nat.
Definition window_eq (w w' : Bounds_checked_array) : bool := bool_decide (w_array w = w_array w') && (w_size w =? w_size w')%nat.

(** The elements that the window shows. *)
Definition shows (w : Bounds_checked_array) (A : arrays E) (xs : list E) : Prop :=
  w_size w = length xs /\
  match w_array w with
  | None => xs = []
  | Some (b, o) => exists before behind, A !! b = Some (before ++ xs ++ behind) /\ length before = o
  end.

Lemma window_get_shows w A xs n : shows w A xs -> (n < length xs)%nat -> window_get n w A = xs !! n.
Proof.
  intros [Hs Hm] Hn. unfold window_get. rewrite Hs, (proj2 (Nat.ltb_lt _ _)) by lia. cbn [asserting mbind option_bind].
  destruct (w_array w) as [[b o]|]; [|subst; cbn in Hn; lia]. destruct Hm as (before & behind & Eb & <-). cbn [mbind option_bind]. rewrite Eb. cbn [mbind option_bind].
  rewrite lookup_app_r by lia. rewrite Nat.add_comm, Nat.add_sub. by rewrite lookup_app_l by lia.
Qed.

(** Narrowing a window from the front and from the back shows the elements in
    between, which are not copied: writing one through the window changes it in the
    array, and so in every window that shows it. *)
Theorem narrowed_window_shares w A xs k m : shows w A xs -> (k + m <= length xs)%nat -> w_array w <> None ->
  exists w', (w' ← Nat.iter k (λ o, w ← o; pop_front w) (Some w); window_resize m w') = Some w' /\
    shows w' A (take m (drop k xs)) /\
    forall n v, (n < m)%nat -> exists A', window_set n v w' A = Some A' /\ shows w A' (<[(k + n)%nat := v]> xs) /\ shows w' A' (<[n := v]> (take m (drop k xs))).
Proof.
  intros [Hs Hm] Hk Hnn. destruct (w_array w) as [[b o]|] eqn:Ew; [|done]. destruct Hm as (before & behind & Eb & Ho).
  assert (Nat.iter k (λ o, w ← o; pop_front w) (Some w) = Some (mkWindow (Some (b, o + k)%nat) (length xs - k))) as ->.
  { assert (k <= length xs)%nat as Hk' by lia. clear Hk. induction k as [|k IH]; cbn [Nat.iter nat_rect].
    - rewrite Nat.add_0_r, Nat.sub_0_r, <-Hs, <-Ew. by destruct w.
    - unfold Nat.iter in IH. rewrite IH by lia. cbn [mbind option_bind]. unfold pop_front. cbn [w_size w_array].
      rewrite (proj2 (Nat.ltb_lt _ _)) by lia. cbn [asserting mbind option_bind]. do 2 f_equal; [do 2 f_equal|]; lia. }
  cbn [mbind option_bind]. unfold window_resize. cbn [w_size w_array]. rewrite (proj2 (Nat.leb_le _ _)) by lia. eexists. split; [done|].
  assert (length (take m (drop k xs)) = m) as Hlen by (rewrite length_take, length_drop; lia).
  assert (xs = take k xs ++ take m (drop k xs) ++ drop m (drop k xs)) as Exs by (by rewrite take_drop, take_drop).
  assert (length (take k xs) = k) as Hlk by (rewrite length_take; lia).
  split; [|intros n v Hn].
  - split; [done|]. cbn [w_array]. exists (before ++ take k xs), (drop m (drop k xs) ++ behind). split; [|rewrite length_app; lia].
    rewrite Eb. f_equal. rewrite <-!app_assoc. f_equal. rewrite Exs at 1. by rewrite <-!app_assoc.
  - unfold window_set. cbn [w_size w_array]. rewrite (proj2 (Nat.ltb_lt _ _)) by lia. cbn [asserting mbind option_bind]. rewrite Eb. cbn [mbind option_bind].
    destruct ((before ++ xs ++ behind) !! (o + k + n)%nat) as [old|] eqn:El.
    2: { apply lookup_ge_None in El. rewrite !length_app in El. lia. }
    cbn [mbind option_bind]. eexists. split; [done|].
    assert (<[(o + k + n)%nat:=v]> (before ++ xs ++ behind) = before ++ <[(k + n)%nat := v]> xs ++ behind) as EI.
    { rewrite insert_app_r_alt by lia. f_equal. replace (o + k + n - length before)%nat with (k + n)%nat by lia. by rewrite insert_app_l by lia. }
    rewrite EI. split.
    + split; [by rewrite length_insert|]. rewrite Ew. exists before, behind. by rewrite lookup_insert_eq.
    + split; [cbn; by rewrite length_insert|]. cbn [w_array]. exists (before ++ take k xs), (drop m (drop k xs) ++ behind).
      rewrite lookup_insert_eq. split; [|rewrite length_app; lia]. f_equal. rewrite <-!app_assoc. f_equal.
      rewrite Exs at 1. rewrite insert_app_r_alt by lia. replace (k + n - length (take k xs))%nat with n by lia.
      rewrite insert_app_l by lia. by rewrite <-!app_assoc.
Qed.
End Bounds_checked_array.

Lemma narrowed_window_shares_witness :
  exists w', (w' ← Nat.iter 1 (λ o, w ← o; pop_front w) (Some (new_window (Some (1%positive, 0%nat)) 4)); window_resize 2 w') = Some w' /\
    shows w' {[1%positive := [4; 5; 6; 7]]} [5; 6].
Proof.
  destruct (narrowed_window_shares (new_window (Some (1%positive, 0%nat)) 4) {[1%positive := [4; 5; 6; 7]]} [4; 5; 6; 7] 1 2) as (w' & E & Hs & _).
  - split; [done|]. by exists [], [].
  - cbn. lia.
  - done.
  - by exists w'.
Defined.
