(* ===== verification/SqlJsonWriter.v ===== *)
(** The JSON helpers of [private/my_json_writer.h]: [String_with_limit], and the
    scoped objects [Json_writer_object], [Json_writer_array] and
    [Json_writer_nesting_guard] through which documents are written.

    [Json_writer] itself is only declared in the header: it is the class
    [json_writer] of operations on a state [W], and so is the byte string of
    [String_with_limit] ([byte_string]).  A C++ scope that constructs a helper, runs
    a body and destroys the helper is the function [in_scope].  [None] is a failed
    assertion, or a call through a null writer. *)

From S2P Require Import Prelude SqlError.

(** * [String_with_limit] *)

(** The string: its bytes, and appending to it. *)
Class byte_string (S : Type) := {
  contents : S -> list byte;
  str_length : S -> Z;
  str_append : list byte -> S -> S
}.
Class ByteStringLaws (S : Type) `{byte_string S} := {
  str_length_contents s : str_length s = Z.of_nat (length (contents s));
  str_append_contents bs s : contents (str_append bs s) = contents s ++ bs
}.

Section String_with_limit.
Context {S : Type} `{byte_string S}.

Record String_with_limit := mkLimited { str : S; size_limit : Z; truncated_len : Z }.

Definition SIZE_T_MAX : Z := 2 ^ 64 - 1.
Definition new_string_with_limit (emptied : S) : String_with_limit := mkLimited emptied SIZE_T_MAX 0.

Definition set_size_limit (limit_arg : Z) (s : String_with_limit) : option String_with_limit :=
  asserting (str_length (str s) <? size_limit s) (mkLimited (str s) limit_arg (truncated_len s)).

(** [append] of [size] bytes. *)
Definition limited_append (bs : list byte) (s : String_with_limit) : String_with_limit :=
  let size := Z.of_nat (length bs) in
  if u64 (str_length (str s) + size) <=? size_limit s
  then mkLimited (str_append bs (str s)) (size_limit s) (truncated_len s)
  else if str_length (str s) <? size_limit s
  then
    let bytes_to_add := u64 (size_limit s - str_length (str s)) in
    mkLimited (str_append (take (Z.to_nat bytes_to_add) bs) (str s)) (size_limit s) (u64 (truncated_len s + (size - bytes_to_add)))
  else mkLimited (str s) (size_limit s) (u64 (truncated_len s + size)).

Definition limited_append_char (c : byte) (s : String_with_limit) : String_with_limit :=
  if size_limit s <? u64 (str_length (str s) + 1)
  then mkLimited (str s) (size_limit s) (u64 (truncated_len s + 1))
  else mkLimited (str_append [c] (str s)) (size_limit s) (truncated_len s).

Definition get_truncated_bytes (s : String_with_limit) : Z := truncated_len s.
Definition limited_length (s : String_with_limit) : Z := str_length (str s).

(** What is appended: a string or a character. *)
Definition append_piece (p : list byte + byte) (s : String_with_limit) : String_with_limit :=
  match p with inl bs => limited_append bs s | inr c => limited_append_char c s end.
End String_with_limit.

Arguments String_with_limit : clear implicits.

Definition piece_bytes (p : list byte + byte) : list byte := match p with inl bs => bs | inr c => [c] end.

Section limited.
Context {S : Type} `{ByteStringLaws S}.

(** The contents are the first bytes of all that was appended, and the others were counted. *)
Definition limited_ok (all : list byte) (s : String_with_limit S) : Prop :=
  0 <= size_limit s < 2 ^ 64 /\ contents (str s) = take (Z.to_nat (size_limit s)) all /\
  truncated_len s = Z.max 0 (Z.of_nat (length all) - size_limit s).

Lemma limited_ok_length all s : limited_ok all s -> str_length (str s) = Z.min (size_limit s) (Z.of_nat (length all)).
Proof. intros (Hl & Hc & _). rewrite str_length_contents, Hc, length_take. lia. Qed.

Lemma limited_append_ok all bs s : limited_ok all s -> Z.of_nat (length all + length bs) < 2 ^ 64 -> limited_ok (all ++ bs) (limited_append bs s).
Proof.
  intros Ho Hf. pose proof (limited_ok_length _ _ Ho) as Hlen. destruct Ho as (Hl & Hc & Ht). unfold limited_append. rewrite Hlen.
  rewrite (uwrap_small 64 (_ + _)) by (unfold ufits; lia).
  destruct (Z.leb_spec (Z.min (size_limit s) (Z.of_nat (length all)) + Z.of_nat (length bs)) (size_limit s)) as [Hle|Hgt].
  - unfold limited_ok. cbn [str size_limit truncated_len]. rewrite str_append_contents, Hc, length_app. split_and!; [lia|lia| |lia].
    destruct (Z.le_gt_cases (Z.of_nat (length all)) (size_limit s)).
    + rewrite !take_ge; [done|rewrite length_app; lia|lia].
    + destruct bs; [by rewrite !app_nil_r|cbn in Hle; lia].
  - destruct (Z.ltb_spec (Z.min (size_limit s) (Z.of_nat (length all))) (size_limit s)) as [Hlt|Hge]; unfold limited_ok; cbn [str size_limit truncated_len]; rewrite length_app.
    + rewrite !uwrap_small by (unfold ufits; try lia; rewrite uwrap_small by (unfold ufits; lia); lia).
      rewrite str_append_contents, Hc. split_and!; [lia|lia| |lia]. rewrite (take_ge all) by lia.
      rewrite take_app_ge by lia. do 2 f_equal. lia.
    + rewrite uwrap_small by (unfold ufits; lia). split_and!; [lia|lia| |lia]. rewrite Hc, take_app_le by lia. done.
Qed.
End limited.

Section limited_pieces.
Context {S : Type} `{ByteStringLaws S}.

Lemma limited_append_char_ok all c s : limited_ok all s -> Z.of_nat (length all) + 1 < 2 ^ 64 -> limited_ok (all ++ [c]) (limited_append_char c s).
Proof.
  intros Ho Hf. pose proof (limited_ok_length _ _ Ho) as Hlen. destruct Ho as (Hl & Hc & Ht). unfold limited_append_char. rewrite Hlen.
  rewrite (uwrap_small 64 (_ + 1)) by (unfold ufits; lia).
  destruct (Z.ltb_spec (size_limit s) (Z.min (size_limit s) (Z.of_nat (length all)) + 1)) as [Hlt|Hge];
    unfold limited_ok; cbn [str size_limit truncated_len]; rewrite length_app; cbn [length].
  - rewrite uwrap_small by (unfold ufits; lia). split_and!; [lia|lia| |lia]. rewrite Hc, take_app_le by lia. done.
  - rewrite str_append_contents, Hc. split_and!; [lia|lia| |lia]. rewrite (take_ge all), take_ge; [done|rewrite length_app; cbn; lia|lia].
Qed.

(** Whatever is appended, in strings or characters, a limited string holds the
    first [size_limit] bytes of it and counts the others. *)
Theorem string_with_limit_truncates ps emptied n : contents emptied = [] -> 0 <= n < 2 ^ 64 ->
  Z.of_nat (length (ps ≫= piece_bytes)) < 2 ^ 64 - 1 ->
  exists s0, set_size_limit n (new_string_with_limit emptied) = Some s0 /\
  let s := foldl (λ s p, append_piece p s) s0 ps in
  contents (str s) = take (Z.to_nat n) (ps ≫= piece_bytes) /\
  get_truncated_bytes s = Z.max 0 (Z.of_nat (length (ps ≫= piece_bytes)) - n) /\
  limited_length s = Z.min n (Z.of_nat (length (ps ≫= piece_bytes))).
Proof.
  intros He Hn Hlen. unfold set_size_limit. cbn [new_string_with_limit str size_limit truncated_len].
  rewrite str_length_contents, He. eexists. split; [done|]. cbn zeta.
  assert (forall all s, limited_ok all s -> Z.of_nat (length all + length (ps ≫= piece_bytes)) < 2 ^ 64 - 1 ->
    size_limit s = n -> let s := foldl (λ s p, append_piece p s) s ps in limited_ok (all ++ (ps ≫= piece_bytes)) s /\ size_limit s = n) as G.
  { clear -H0. induction ps as [|p ps IH]; intros all s Ho Hl Hs; cbn [mbind list_bind foldl] in *; [by rewrite app_nil_r|].
    change (mbind piece_bytes ps) with (ps ≫= piece_bytes) in *. rewrite length_app in Hl. rewrite app_assoc. apply IH.
    - destruct p as [bs|c]; cbn [append_piece piece_bytes] in *; [apply limited_append_ok; [done|lia]|apply limited_append_char_ok; [done|cbn in Hl; lia]].
    - rewrite length_app. lia.
    - destruct p as [bs|c]; cbn [append_piece]; unfold limited_append, limited_append_char; repeat case_match; done. }
  destruct (G [] (mkLimited emptied n 0)) as [Ho Hsz]; [|cbn; lia|done|].
  { split; [done|]. cbn [str size_limit truncated_len]. rewrite He, take_nil. split; [done|]. cbn. lia. }
  cbn [app] in Ho. pose proof (limited_ok_length _ _ Ho) as Hll. destruct Ho as (_ & Hc & Ht). rewrite Hsz in *. done.
Qed.

(** The assertion of [set_size_limit] is about the old limit: a limit below the length is accepted. *)
Lemma set_size_limit_below s n : str_length (str s) < size_limit s -> set_size_limit n s = Some (mkLimited (str s) n (truncated_len s)).
Proof. intros Hs. unfold set_size_limit. by rewrite (proj2 (Z.ltb_lt _ _)). Qed.
End limited_pieces.

(** Lists of bytes are byte strings. *)
#[export] Instance list_byte_string : byte_string (list byte) := {|
  contents s := s; str_length s := Z.of_nat (length s); str_append bs s := s ++ bs |}.
#[export] Instance list_byte_string_laws : ByteStringLaws (list byte).
Proof. by split. Qed.

Lemma string_with_limit_truncates_witness :
  exists s0, set_size_limit 3 (new_string_with_limit ([] : list byte)) = Some s0 /\
  let s := foldl (λ s p, append_piece p s) s0 [inl [x41; x42]; inr x43; inl [x44; x45]] in
  contents (str s) = [x41; x42; x43] /\ get_truncated_bytes s = 2 /\ limited_length s = 3.
Proof. apply (string_with_limit_truncates [inl [x41; x42]; inr x43; inl [x44; x45]] [] 3); [done|lia|cbn; lia]. Defined.

(** * The writer *)

(** [Json_writer]: what is only declared of it, with the types of the server objects
    that it can be given. *)
Class json_writer (W Item Dbl Join_tab Table : Type) := {
  add_member : list byte -> W -> W;
  add_str : list byte -> W -> W;
  add_str_item : Item -> W -> W;
  add_ll : Z -> W -> W;
  add_ull : Z -> W -> W;
  add_size : Z -> W -> W;
  add_double : Dbl -> W -> W;
  add_bool : bool -> W -> W;
  add_null : W -> W;
  add_join_tab : Join_tab -> W -> W;
  add_table : Table -> W -> W;
  start_object : W -> W;
  start_array : W -> W;
  end_object : W -> W;
  end_array : W -> W;
  indent_level : W -> Z
}.

Section Json_writer.
Context `{json_writer W Item Dbl Join_tab Table}.

(** ** [Json_value_helper]: each method passes its argument on. *)

Definition value_add_str (val : list byte) (w : W) : W := add_str val w.
Definition value_add_item (val : Item) (w : W) : W := add_str_item val w.
Definition value_add_ll (val : Z) (w : W) : W := add_ll val w.
Definition value_add_size (val : Z) (w : W) : W := add_size val w.
Definition value_add_double (val : Dbl) (w : W) : W := add_double val w.
Definition value_add_bool (val : bool) (w : W) : W := add_bool val w.
Definition value_add_null (w : W) : W := add_null w.
Definition value_add_join_tab (tab : Join_tab) (w : W) : W := add_join_tab tab w.
Definition value_add_table (table : Table) (w : W) : W := add_table table w.

(** ** [Json_writer_struct]: [my_writer] is whether the writer is not null. *)

Record Json_writer_struct := mkStruct { my_writer : bool; closed : bool }.
Definition new_struct (writer : bool) : Json_writer_struct := mkStruct writer false.
Definition trace_started (s : Json_writer_struct) : bool := my_writer s.
Definition close (s : Json_writer_struct) : Json_writer_struct := mkStruct (my_writer s) true.

(** A call through [my_writer]. *)
Definition through (f : W -> W) (s : Json_writer_struct) (w : W) : option W := asserting (my_writer s) (f w).

(** ** [Json_writer_object] *)

Definition new_object (writer : bool) (str : option (list byte)) (w : W) : Json_writer_struct * W :=
  let s := new_struct writer in
  (s, if my_writer s then start_object (match str with Some n => add_member n w | None => w end) else w).
Definition delete_object (s : Json_writer_struct) (w : W) : Json_writer_struct * W :=
  (close s, if my_writer s && negb (closed s) then end_object w else w).
Definition object_end (s : Json_writer_struct) (w : W) : option (Json_writer_struct * W) :=
  asserting (negb (closed s)) (close s, if my_writer s then end_object w else w).

Definition object_add_member (name : list byte) (s : Json_writer_struct) (w : W) : option W := through (add_member name) s w.

(** The body that most of the [add] methods share: nothing is done in ignore mode. *)
Definition object_add (name : list byte) (put : W -> W) (s : Json_writer_struct) (w : W) : option W :=
  _ ← asserting (negb (closed s)) tt;
  if my_writer s then w ← object_add_member name s w; Some (put w) else Some w.

Definition object_add_bool (name : list byte) (value : bool) := object_add name (value_add_bool value).
Definition object_add_ull (name : list byte) (value : Z) := object_add name (add_ull value).
(** The template for the other integral types converts to [longlong]. *)
Definition object_add_int (name : list byte) (value : Z) := object_add name (value_add_ll (s64 value)).
Definition object_add_double (name : list byte) (value : Dbl) := object_add name (value_add_double value).
Definition object_add_cstr (name value : list byte) := object_add name (value_add_str value).
Definition object_add_lex (name value : list byte) := object_add name (value_add_str value).
Definition object_add_item (name : list byte) (value : Item) := object_add name (value_add_item value).
Definition object_add_null (name : list byte) := object_add name value_add_null.
Definition table_name : list byte := [x74; x61; x62; x6c; x65].
Definition object_add_join_tab (tab : Join_tab) := object_add table_name (value_add_join_tab tab).
Definition object_add_table (table : Table) := object_add table_name (value_add_table table).
Definition select_id_name : list byte := [x73; x65; x6c; x65; x63; x74; x5f; x69; x64].
Definition fake_name : list byte := [x66; x61; x6b; x65].
Definition FAKE_SELECT_LEX_ID : Z := 2 ^ 32 - 1.
Definition object_add_select_number (select_number : Z) :=
  object_add select_id_name (if select_number =? FAKE_SELECT_LEX_ID then value_add_str fake_name else value_add_ll select_number).

(** This one checks neither [closed] nor the writer. *)
Definition object_add_str_n (name value : list byte) (s : Json_writer_struct) (w : W) : option W :=
  w ← object_add_member name s w; through (value_add_str value) s w.

(** ** [Json_writer_array] *)

Definition new_json_array (writer : bool) (str : option (list byte)) (w : W) : Json_writer_struct * W :=
  let s := new_struct writer in
  (s, if my_writer s then start_array (match str with Some n => add_member n w | None => w end) else w).
Definition delete_json_array (s : Json_writer_struct) (w : W) : Json_writer_struct * W :=
  if my_writer s && negb (closed s) then (close s, end_array w) else (s, w).
Definition array_end (s : Json_writer_struct) (w : W) : option (Json_writer_struct * W) :=
  asserting (negb (closed s)) (close s, if my_writer s then end_array w else w).

Definition array_add (put : W -> W) (s : Json_writer_struct) (w : W) : option W :=
  _ ← asserting (negb (closed s)) tt; if my_writer s then Some (put w) else Some w.

Definition array_add_bool (value : bool) := array_add (value_add_bool value).
Definition array_add_ull (value : Z) := array_add (value_add_ll (s64 value)).
Definition array_add_ll (value : Z) := array_add (value_add_ll value).
Definition array_add_double (value : Dbl) := array_add (value_add_double value).
Definition array_add_size (value : Z) := array_add (value_add_ll (s64 value)).
Definition array_add_cstr (value : list byte) := array_add (value_add_str value).
Definition array_add_str_n (value : list byte) := array_add (value_add_str value).
Definition array_add_lex (value : list byte) := array_add (value_add_str value).
Definition array_add_item (value : Item) := array_add (value_add_item value).
Definition array_add_null := array_add value_add_null.
Definition array_add_join_tab (tab : Join_tab) := array_add (value_add_join_tab tab).
Definition array_add_table (table : Table) := array_add (value_add_table table).

(** ** [Json_writer_nesting_guard] *)

Definition new_guard (w : W) : Z := indent_level w.
Definition delete_guard (guard : Z) (w : W) : option W := asserting (guard =? indent_level w) w.
End Json_writer.

(** * Scopes *)

Section scopes.
Context `{json_writer W Item Dbl Join_tab Table}.

(** What an [add] method is given. *)
Inductive json_value :=
  | VBool (b : bool) | VUll (z : Z) | VInt (z : Z) | VDouble (d : Dbl) | VCstr (s : list byte) | VLex (s : list byte)
  | VStrN (s : list byte) | VItem (i : Item) | VNull | VJoinTab (t : Join_tab) | VTable (t : Table) | VSelect (n : Z).

Definition add_to_object (name : list byte) (v : json_value) : Json_writer_struct -> W -> option W :=
  match v with
  | VBool b => object_add_bool name b
  | VUll z => object_add_ull name z
  | VInt z => object_add_int name z
  | VDouble d => object_add_double name d
  | VCstr s => object_add_cstr name s
  | VLex s => object_add_lex name s
  | VStrN s => object_add_str_n name s
  | VItem i => object_add_item name i
  | VNull => object_add_null name
  | VJoinTab t => object_add_join_tab t
  | VTable t => object_add_table t
  | VSelect n => object_add_select_number n
  end.
Definition add_to_array (v : json_value) (s : Json_writer_struct) (w : W) : option W :=
  match v with
  | VBool b => array_add_bool b s w
  | VUll z => array_add_ull z s w
  | VInt z => array_add_ll z s w
  | VDouble d => array_add_double d s w
  | VCstr x => array_add_cstr x s w
  | VLex x => array_add_lex x s w
  | VStrN x => array_add_str_n x s w
  | VItem i => array_add_item i s w
  | VNull => array_add_null s w
  | VJoinTab t => array_add_join_tab t s w
  | VTable t => array_add_table t s w
  | VSelect _ => None
  end.

(** The code of a scope: values are added, and helpers are constructed for objects
    ([true]) and arrays, by name or not, filled, closed by [end] or not, and destroyed. *)
Inductive stmt :=
  | AddTo (name : option (list byte)) (v : json_value)
  | Scope (object : bool) (name : option (list byte)) (body : list stmt) (ended : bool).

Fixpoint exec (writer object : bool) (s : Json_writer_struct) (st : stmt) (w : W) : option W :=
  match st with
  | AddTo name v =>
      if object then n ← name; add_to_object n v s w
      else match name with None => add_to_array v s w | Some _ => None end
  | Scope obj name body ended =>
      let '(s', w) := if obj then new_object writer name w else new_json_array writer name w in
      w ← (fix run (body : list stmt) (w : W) : option W :=
             match body with [] => Some w | st :: body => w ← exec writer obj s' st w; run body w end) body w;
      '(s', w) ← (if ended then (if obj then object_end s' w else array_end s' w) else Some (s', w));
      Some (if obj then (delete_object s' w).2 else (delete_json_array s' w).2)
  end.

Definition exec_body (writer object : bool) (s : Json_writer_struct) : list stmt -> W -> option W :=
  fix run (body : list stmt) (w : W) : option W :=
    match body with [] => Some w | st :: body => w ← exec writer object s st w; run body w end.

(** ** Documents *)

(** A call that writes a value. *)
Inductive leaf := LBool (b : bool) | LUll (z : Z) | LLl (z : Z) | LDouble (d : Dbl) | LStr (s : list byte) | LItem (i : Item)
  | LNull | LJoinTab (t : Join_tab) | LTable (t : Table).

Inductive json := JLeaf (l : leaf) | JObject (ms : list (list byte * json)) | JArray (js : list json).

Definition write_leaf (l : leaf) : W -> W :=
  match l with
  | LBool b => add_bool b | LUll z => add_ull z | LLl z => add_ll z | LDouble d => add_double d | LStr s => add_str s
  | LItem i => add_str_item i | LNull => add_null | LJoinTab t => add_join_tab t | LTable t => add_table t
  end.
Fixpoint write_json (j : json) (w : W) : W :=
  match j with
  | JLeaf l => write_leaf l w
  | JObject ms => end_object (foldl (λ w m, write_json m.2 (add_member m.1 w)) (start_object w) ms)
  | JArray js => end_array (foldl (λ w j, write_json j w) (start_array w) js)
  end.

(** The call for a value: unsigned values are converted in arrays only. *)
Definition value_leaf (object : bool) (v : json_value) : leaf :=
  match v with
  | VBool b => LBool b
  | VUll z => if object then LUll z else LLl (s64 z)
  | VInt z => if object then LLl (s64 z) else LLl z
  | VDouble d => LDouble d
  | VCstr s | VLex s | VStrN s => LStr s
  | VItem i => LItem i
  | VNull => LNull
  | VJoinTab t => LJoinTab t
  | VTable t => LTable t
  | VSelect n => if n =? FAKE_SELECT_LEX_ID then LStr fake_name else LLl n
  end.
(** The name under which it is added to an object. *)
Definition value_name (name : list byte) (v : json_value) : list byte :=
  match v with VJoinTab _ | VTable _ => table_name | VSelect _ => select_id_name | _ => name end.

(** Code in an object names what it adds, and code in an array does not. *)
Fixpoint well_scoped (object : bool) (st : stmt) : bool :=
  match st with
  | AddTo name v => Bool.eqb object (bool_decide (is_Some name)) && (object || match v with VSelect _ => false | _ => true end)
  | Scope obj name body ended => Bool.eqb object (bool_decide (is_Some name)) && forallb (well_scoped obj) body
  end.
(** The method without the check of the writer is not used. *)
Fixpoint no_str_n (object : bool) (st : stmt) : bool :=
  match st with
  | AddTo name v => negb (object && match v with VStrN _ => true | _ => false end)
  | Scope obj name body ended => forallb (no_str_n obj) body
  end.

(** The member, of which the name is that of the object it is in, or empty. *)
Fixpoint stmt_json (object : bool) (st : stmt) : list byte * json :=
  match st with
  | AddTo name v => (if object then value_name (default [] name) v else [], JLeaf (value_leaf object v))
  | Scope obj name body ended =>
      (default [] name,
       if obj then JObject (stmt_json obj <$> body) else JArray ((λ st, (stmt_json obj st).2) <$> body))
  end.

(** Writing a member of an object, or an element of an array. *)
Definition write_member (object : bool) (m : list byte * json) (w : W) : W :=
  write_json m.2 (if object then add_member m.1 w else w).
End scopes.

Section documents.
Context `{json_writer W Item Dbl Join_tab Table}.
Let statement := (@stmt Item Dbl Join_tab Table).

(** Induction on the code of scopes. *)
Lemma stmt_induction (P : statement -> Prop) :
  (forall name v, P (AddTo name v)) -> (forall obj name body ended, Forall P body -> P (Scope obj name body ended)) -> forall st, P st.
Proof.
  intros HA HS. fix IH 1. intros [name v|obj name body ended]; [apply HA|apply HS].
  induction body as [|st body IHb]; constructor; [apply IH|apply IHb].
Qed.

Lemma exec_scope writer object s obj name body ended w :
  exec writer object s (Scope obj name body ended) w =
  (let '(s', w) := if obj then new_object writer name w else new_json_array writer name w in
   w ← exec_body writer obj s' body w;
   '(s', w) ← (if ended then (if obj then object_end s' w else array_end s' w) else Some (s', w));
   Some (if obj then (delete_object s' w).2 else (delete_json_array s' w).2)).
Proof. reflexivity. Qed.

Lemma add_value_exec writer object name v w : well_scoped object (AddTo name v) = true -> writer = true \/ no_str_n object (AddTo name v) = true ->
  exec writer object (mkStruct writer false) (AddTo name v) w =
    Some (if writer then write_member object (stmt_json object (AddTo (Item := Item) name v)) w else w).
Proof.
  intros Hw Hn. cbn [exec well_scoped no_str_n stmt_json] in *. apply andb_true_iff in Hw as [Hw Hv]. apply Bool.eqb_prop in Hw.
  unfold write_member. cbn [fst snd write_json]. destruct object; cbn [orb] in *.
  - symmetry in Hw. apply bool_decide_eq_true in Hw as [n ->]. cbn [mbind option_bind default].
    destruct writer; destruct v; try reflexivity.
    + cbn. unfold object_add_select_number. by case_match.
    + by destruct Hn.
  - symmetry in Hw. apply bool_decide_eq_false in Hw. destruct name as [n|]; [exfalso; apply Hw; eauto|].
    destruct writer; destruct v; try reflexivity; discriminate.
Qed.

Lemma exec_body_members writer object (body : list statement) :
  Forall (fun st => forall w, exec writer object (mkStruct writer false) st w = Some (if writer then write_member object (stmt_json object st) w else w)) body ->
  forall w, exec_body writer object (mkStruct writer false) body w =
    Some (if writer then foldl (λ w st, write_member object (stmt_json object st) w) w body else w).
Proof.
  induction 1 as [|st body Hst _ IH]; intros w; [by destruct writer|]. cbn [exec_body foldl]. rewrite Hst. cbn [mbind option_bind].
  unfold exec_body in IH. rewrite IH. by destruct writer.
Qed.

Lemma foldl_fmap {A B C} (f : C -> B -> C) (g : A -> B) (xs : list A) (c : C) : foldl f c (g <$> xs) = foldl (λ c x, f c (g x)) c xs.
Proof. revert c. induction xs as [|x xs IH]; intros c; [done|]. apply IH. Qed.

Lemma exec_stmt writer object (st : statement) : well_scoped object st = true -> writer = true \/ no_str_n object st = true ->
  forall w, exec writer object (mkStruct writer false) st w = Some (if writer then write_member object (stmt_json object st) w else w).
Proof.
  revert object. induction st as [name v|obj name body ended IH] using stmt_induction; intros object Hw Hn w.
  { by apply add_value_exec. }
  rewrite exec_scope. cbn [well_scoped no_str_n stmt_json] in *. apply andb_true_iff in Hw as [Hw Hb]. apply Bool.eqb_prop in Hw.
  assert (Forall (fun st => forall w, exec writer obj (mkStruct writer false) st w = Some (if writer then write_member obj (stmt_json obj st) w else w)) body) as HF.
  { clear -IH Hb Hn. induction body as [|st body IHb]; constructor.
    - apply Forall_cons in IH as [IH _]. cbn in Hb, Hn. apply andb_true_iff in Hb as [Hb _]. intros w. apply IH; [done|].
      destruct Hn as [?|Hn]; [by left|]. apply andb_true_iff in Hn as [Hn _]. by right.
    - apply Forall_cons in IH as [_ IH]. cbn in Hb, Hn. apply andb_true_iff in Hb as [_ Hb]. apply IHb; [done|done|].
      destruct Hn as [?|Hn]; [by left|]. apply andb_true_iff in Hn as [_ Hn]. by right. }
  assert (writer = true -> (match name with Some n => add_member n w | None => w end) = (if object then add_member (default [] name) w else w)) as Hname.
  { intros _. destruct object; symmetry in Hw.
    - apply bool_decide_eq_true in Hw as [n ->]. done.
    - apply bool_decide_eq_false in Hw. destruct name; [exfalso; apply Hw; eauto|done]. }
  unfold write_member. destruct writer; cbn [fst snd].
  - rewrite <-Hname by done. destruct obj; cbn [new_object new_json_array new_struct my_writer]; rewrite exec_body_members by done; cbn [mbind option_bind write_json];
      rewrite foldl_fmap; by destruct ended.
  - destruct obj; cbn [new_object new_json_array new_struct my_writer]; rewrite exec_body_members by done; by destruct ended.
Qed.
(** Without a writer such code does nothing up to the method that does not check it, which calls through the null pointer. *)
Lemma exec_null object (st : statement) : well_scoped object st = true -> no_str_n object st = false ->
  forall w, exec false object (mkStruct false false) st w = None.
Proof.
  revert object. induction st as [name v|obj name body ended IH] using stmt_induction; intros object Hw Hn w.
  - cbn [exec well_scoped no_str_n] in *. apply negb_false_iff, andb_true_iff in Hn as [-> Hv]. cbn [orb] in Hw. rewrite andb_true_r in Hw.
    apply Bool.eqb_prop in Hw. symmetry in Hw. apply bool_decide_eq_true in Hw as [n ->]. by destruct v.
  - rewrite exec_scope. cbn [well_scoped no_str_n] in *. apply andb_true_iff in Hw as [_ Hb].
    assert (exec_body false obj (mkStruct false false) body w = None) as Hx.
    { induction body as [|st body IHb]; [done|]. apply Forall_cons in IH as [IH IHs]. cbn [forallb exec_body] in *. apply andb_true_iff in Hb as [Hb Hbs].
      destruct (no_str_n obj st) eqn:E; [|by rewrite IH]. rewrite exec_stmt by (done || by right). cbn [mbind option_bind]. by apply IHb. }
    change (mkStruct false false) with (new_struct false) in Hx.
    destruct obj; cbn [new_object new_json_array my_writer new_struct]; fold (new_struct false); by rewrite Hx.
Qed.
End documents.

(** * What is written *)

Section theorems.
Context `{json_writer W Item Dbl Join_tab Table}.
Let statement := (@stmt Item Dbl Join_tab Table).
Let document := (@json Item Dbl Join_tab Table).

(** Induction on documents. *)
Lemma json_induction (P : document -> Prop) :
  (forall l, P (JLeaf l)) -> (forall ms, Forall (fun m => P m.2) ms -> P (JObject ms)) -> (forall js, Forall P js -> P (JArray js)) -> forall j, P j.
Proof.
  intros HL HO HA. fix IH 1. intros [l|ms|js]; [apply HL|apply HO|apply HA].
  - induction ms as [|m ms IHm]; constructor; [apply IH|apply IHm].
  - induction js as [|j js IHj]; constructor; [apply IH|apply IHj].
Qed.

(** C18.  Code that names what it adds to objects and does not name what it adds to
    arrays writes exactly one document, nested as its scopes are, whether a scope is
    closed by [end] or by its destructor.  When the writer is null it does nothing at
    all, and fails nowhere, exactly when it does not use the one method that does not
    check the writer, [add(name, value, num_bytes)] of an object; when it does, it
    calls through the null pointer. *)
Theorem scopes_write_document (writer obj ended : bool) (body : list statement) (w : W) :
  forallb (well_scoped obj) body = true ->
  exec writer false (mkStruct writer false) (Scope obj None body ended) w =
    if writer then Some (write_json (stmt_json false (Scope obj None body ended)).2 w)
    else if forallb (no_str_n obj) body then Some w else None.
Proof.
  intros Hb. destruct writer; [rewrite exec_stmt; [done|cbn; by rewrite Hb|by left]|].
  destruct (forallb (no_str_n obj) body) eqn:E; [rewrite exec_stmt; [done|cbn; by rewrite Hb|by right]|].
  apply exec_null; [cbn; by rewrite Hb|exact E].
Qed.

(** The laws of the level of indentation, which the guard relies on. *)
Class IndentLaws : Prop := {
  indent_start_object w : indent_level (start_object w) = indent_level w + 1;
  indent_start_array w : indent_level (start_array w) = indent_level w + 1;
  indent_end_object w : indent_level (end_object w) = indent_level w - 1;
  indent_end_array w : indent_level (end_array w) = indent_level w - 1;
  indent_add_member n w : indent_level (add_member n w) = indent_level w;
  indent_leaf l w : indent_level (write_leaf l w) = indent_level w
}.

Lemma write_json_indent `{IndentLaws} (j : document) w : indent_level (write_json j w) = indent_level w.
Proof.
  revert w. induction j as [l|ms IH|js IH] using json_induction; intros w; cbn [write_json].
  - apply indent_leaf.
  - rewrite indent_end_object. assert (forall w, indent_level (foldl (λ w m, write_json m.2 (add_member m.1 w)) w ms) = indent_level w) as ->.
    { induction IH as [|m ms Hm _ IHm]; intros w'; cbn [foldl]; [done|]. rewrite IHm, Hm. apply indent_add_member. }
    rewrite indent_start_object. lia.
  - rewrite indent_end_array. assert (forall w, indent_level (foldl (λ w j, write_json j w) w js) = indent_level w) as ->.
    { induction IH as [|j js Hj _ IHj]; intros w'; cbn [foldl]; [done|]. by rewrite IHj, Hj. }
    rewrite indent_start_array. lia.
Qed.

(** A nesting guard around such code finds the level that it remembered. *)
Theorem nesting_guard_passes `{IndentLaws} (writer obj ended : bool) (body : list statement) (w : W) :
  forallb (well_scoped obj) body = true -> (writer = true \/ forallb (no_str_n obj) body = true) ->
  (let guard := new_guard w in
   w' ← exec writer false (mkStruct writer false) (Scope obj None body ended) w; delete_guard guard w') =
  exec writer false (mkStruct writer false) (Scope obj None body ended) w.
Proof.
  intros Hb Hn. cbn zeta. rewrite exec_stmt; [|cbn; by rewrite Hb|by destruct Hn; [left|right]].
  cbn [mbind option_bind]. unfold delete_guard, new_guard. rewrite (proj2 (Z.eqb_eq _ _)); [done|].
  destruct writer; [|done]. unfold write_member. by rewrite write_json_indent.
Qed.

(** With a null writer, or after [end], every other method of an object does
    nothing or fails its assertion; the one that takes a length calls through the
    null pointer, and writes to the document after the object was closed. *)
Theorem add_with_length_unchecked (name value : list byte) (w : W) :
  object_add_str_n name value (new_struct false) w = None /\
  object_add_cstr name value (new_struct false) w = Some w /\
  object_add_cstr name value (close (new_struct true)) w = None /\
  object_add_str_n name value (close (new_struct true)) w = Some (add_str value (add_member name w)).
Proof. done. Qed.

(** An array writes an unsigned value of 64 bits as a negative one. *)
Lemma array_add_ull_negative z s w : 2 ^ 63 <= z < 2 ^ 64 -> my_writer s = true -> closed s = false ->
  array_add_ull z s w = Some (add_ll (z - 2 ^ 64) w).
Proof.
  intros Hz Hm Hc. unfold array_add_ull, array_add. rewrite Hm, Hc. cbn. unfold value_add_ll. do 2 f_equal. unfold swrap.
  change (2 ^ (64 - 1)) with (2 ^ 63). replace (z + 2 ^ 63) with (z - 2 ^ 63 + 1 * 2 ^ 64) by lia. rewrite Z.mod_add by lia. rewrite Z.mod_small by lia. lia.
Qed.
End theorems.

(** ** A writer of events *)

Section events.
Context {Item Dbl Join_tab Table : Type}.
Let document := (@json Item Dbl Join_tab Table).

Inductive event :=
  | EMember (name : list byte) | ELeaf (l : @leaf Item Dbl Join_tab Table) | EStartObject | EStartArray | EEndObject | EEndArray.

Definition level (e : event) : Z := match e with EStartObject | EStartArray => 1 | EEndObject | EEndArray => -1 | _ => 0 end.

#[export] Instance event_writer : json_writer (list event) Item Dbl Join_tab Table := {|
  add_member n w := w ++ [EMember n]; add_str s w := w ++ [ELeaf (LStr s)]; add_str_item i w := w ++ [ELeaf (LItem i)];
  add_ll z w := w ++ [ELeaf (LLl z)]; add_ull z w := w ++ [ELeaf (LUll z)]; add_size z w := w ++ [ELeaf (LLl z)];
  add_double d w := w ++ [ELeaf (LDouble d)]; add_bool b w := w ++ [ELeaf (LBool b)]; add_null w := w ++ [ELeaf LNull];
  add_join_tab t w := w ++ [ELeaf (LJoinTab t)]; add_table t w := w ++ [ELeaf (LTable t)];
  start_object w := w ++ [EStartObject]; start_array w := w ++ [EStartArray]; end_object w := w ++ [EEndObject]; end_array w := w ++ [EEndArray];
  indent_level w := foldr (λ e n, level e + n) 0 w
|}.

Lemma level_app (w : list event) e : foldr (λ e n, level e + n) 0 (w ++ [e]) = foldr (λ e n, level e + n) 0 w + level e.
Proof. induction w as [|e' w IH]; cbn; [lia|]. rewrite IH. lia. Qed.

#[export] Instance event_indent_laws : IndentLaws (W := list event).
Proof. split; intros; try destruct l; cbn; rewrite level_app; cbn; lia. Qed.

(** Reading a document back: the objects and arrays that are open, and the document once it is there. *)
Inductive frame := FObject (ms : list (list byte * document)) (name : option (list byte)) | FArray (js : list document).
Definition reader : Type := list frame * option document.

Definition place (j : document) (r : reader) : option reader :=
  match r with
  | ([], None) => Some ([], Some j)
  | (FObject ms (Some n) :: st, None) => Some (FObject (ms ++ [(n, j)]) None :: st, None)
  | (FArray js :: st, None) => Some (FArray (js ++ [j]) :: st, None)
  | _ => None
  end.
Definition read_event (e : event) (r : reader) : option reader :=
  match e, r with
  | EMember n, (FObject ms None :: st, None) => Some (FObject ms (Some n) :: st, None)
  | ELeaf l, r => place (JLeaf l) r
  | EStartObject, (st, None) => Some (FObject [] None :: st, None)
  | EStartArray, (st, None) => Some (FArray [] :: st, None)
  | EEndObject, (FObject ms None :: st, None) => place (JObject ms) (st, None)
  | EEndArray, (FArray js :: st, None) => place (JArray js) (st, None)
  | _, _ => None
  end.
Definition read_events (w : list event) : option reader := foldl (λ r e, r ≫= read_event e) (Some ([], None)) w.
Definition read_document (w : list event) : option document :=
  match read_events w with Some ([], Some j) => Some j | _ => None end.

Lemma read_events_app w e : read_events (w ++ [e]) = read_events w ≫= read_event e.
Proof. unfold read_events. by rewrite foldl_app. Qed.

Lemma read_written (j : document) : forall w r r', read_events w = Some r -> place j r = Some r' -> read_events (write_json j w) = Some r'.
Proof.
  induction j as [l|ms IH|js IH] using json_induction; intros w r r' Hr Hp; cbn [write_json].
  - assert (write_leaf l w = w ++ [ELeaf l]) as -> by (by destruct l). rewrite read_events_app, Hr. exact Hp.
  - destruct r as [st [?|]]; [by destruct st as [|[? [?|]|?] ?]|].
    assert (forall w d, read_events w = Some (FObject d None :: st, None) ->
      read_events (foldl (λ w m, write_json m.2 (add_member m.1 w)) w ms) = Some (FObject (d ++ ms) None :: st, None)) as G.
    { clear -IH. induction IH as [|m ms Hm _ IHm]; intros w d Hw; cbn [foldl]; [by rewrite app_nil_r|].
      rewrite (IHm _ (d ++ [m])); [by rewrite <-app_assoc|]. eapply Hm; [cbn; rewrite read_events_app, Hw; done|]. cbn. by destruct m. }
    cbn [end_object event_writer]. rewrite read_events_app, (G _ []); [exact Hp|]. cbn. by rewrite read_events_app, Hr.
  - destruct r as [st [?|]]; [by destruct st as [|[? [?|]|?] ?]|].
    assert (forall w d, read_events w = Some (FArray d :: st, None) ->
      read_events (foldl (λ w j, write_json j w) w js) = Some (FArray (d ++ js) :: st, None)) as G.
    { clear -IH. induction IH as [|j js Hj _ IHj]; intros w d Hw; cbn [foldl]; [by rewrite app_nil_r|].
      rewrite (IHj _ (d ++ [j])); [by rewrite <-app_assoc|]. eapply Hj; [exact Hw|]. done. }
    cbn [end_array event_writer]. rewrite read_events_app, (G _ []); [exact Hp|]. cbn. by rewrite read_events_app, Hr.
Qed.

(** What the scopes write can be read back as one document, the nesting, the names
    and the values of which are those of the code. *)
Theorem scopes_read_back (obj ended : bool) (body : list stmt) :
  forallb (well_scoped obj) body = true ->
  exists w, exec true false (mkStruct true false) (Scope obj None body ended) [] = Some w /\
    read_document w = Some (stmt_json false (Scope obj None body ended)).2.
Proof.
  intros Hb. eexists. split; [apply exec_stmt; [cbn; by rewrite Hb|by left]|]. unfold read_document, write_member.
  by rewrite (read_written _ [] ([], None) ([], Some (stmt_json false (Scope obj None body ended)).2)).
Qed.
End events.

(** ** An example: an object with a number and an array of two values *)

Abbreviation unit_event := (@event unit unit unit unit).
Definition example_body : list (@stmt unit unit unit unit) :=
  [AddTo (Some [x6e]) (VUll 5); Scope false (Some [x61]) [AddTo None (VBool true); AddTo None VNull] true; AddTo (Some [x73]) (VCstr [x68])].

Lemma scopes_write_document_witness :
  exec true false (mkStruct true false) (Scope true None example_body false) ([] : list unit_event) =
    Some (write_json (stmt_json false (Scope true None example_body false)).2 []) /\
  exec false false (mkStruct false false) (Scope true None example_body false) ([] : list unit_event) = Some [].
Proof.
  split; [apply (scopes_write_document true true false example_body)|rewrite (scopes_write_document false true false example_body)];
    vm_compute; reflexivity.
Defined.

Lemma nesting_guard_passes_witness :
  (let guard := new_guard ([] : list unit_event) in
   w' ← exec false false (mkStruct false false) (Scope true None example_body false) ([] : list unit_event); delete_guard guard w') =
  exec false false (mkStruct false false) (Scope true None example_body false) [].
Proof. apply (nesting_guard_passes false true false example_body); [vm_compute; reflexivity|right; vm_compute; reflexivity]. Defined.

Lemma scopes_read_back_witness :
  exists w, exec true false (mkStruct true false) (Scope true None example_body false) ([] : list unit_event) = Some w /\
    read_document w = Some (stmt_json false (Scope true None example_body false)).2.
Proof. apply (scopes_read_back true false example_body). vm_compute. reflexivity. Defined.
