(* ===== verification/SqlThreadCache.v ===== *)
(** The cache of idle threads of [private/thread_cache.h]: threads park in it until
    they are given a new connection, the cache is flushed, or a timeout.

    The members of [Thread_cache] are only used with [LOCK_thread_cache] held, so a
    part of a method between two points where the lock is taken and left is one
    function on the members ([park_enter], [park_wake], [enqueue_enter],
    [flush_enter], [flush_wake]).  A call in progress is a program counter; the
    condition variables are the calls that wait on them.  [step] is the interleaving
    of the calls of any number of threads: a signal wakes one waiting call, a
    broadcast all of them, a waiting call may time out, and where [spurious] it may
    wake for no reason, as the documentation of [pthread_cond_wait] allows.

    The queue of connections is an [I_List], which [SqlIList] refines to a
    sequence; it is the sequence here. *)

From S2P Require Import Prelude.

(** * The members and the methods *)

Section Thread_cache.
Context {CONNECT : Type} (thread_cache_size : Z).

Record Thread_cache := mkCache { conns : list CONNECT; cached_thread_count : Z; kill_cached_threads : Z }.

Definition cache_init : Thread_cache := mkCache [] 0 0.
Definition cache_destroy (c : Thread_cache) : option unit :=
  asserting ((cached_thread_count c =? 0) && match conns c with [] => true | _ => false end) tt.
Definition cache_size (c : Thread_cache) : Z := cached_thread_count c.

Definition with_conns (l : list CONNECT) (c : Thread_cache) : Thread_cache := mkCache l (cached_thread_count c) (kill_cached_threads c).
Definition count_up (c : Thread_cache) : Thread_cache := mkCache (conns c) (u64 (cached_thread_count c + 1)) (kill_cached_threads c).
Definition count_down (c : Thread_cache) : Thread_cache := mkCache (conns c) (u64 (cached_thread_count c - 1)) (kill_cached_threads c).
Definition kill_up (c : Thread_cache) : Thread_cache := mkCache (conns c) (cached_thread_count c) (u32 (kill_cached_threads c + 1)).
Definition kill_down (c : Thread_cache) : Thread_cache := mkCache (conns c) (cached_thread_count c) (u32 (kill_cached_threads c - 1)).

(** Where a call is: in [park] waiting on [COND_thread_cache], woken (by a timeout or
    not) and about to take the lock again, about to signal [COND_flush_thread_cache],
    or returned; in [enqueue] about to signal, or returned; in [final_flush] about to
    call [flush]; in [flush] waiting, woken, or returned. *)
Inductive pc :=
  | PWait | PAwake (timed_out : bool) | PSignal (connect : option CONNECT) | PDone (connect : option CONNECT)
  | ESignal | EDone (r : bool)
  | FFinal | FWait | FAwake | FDone.

(** [list.get()]. *)
Definition get (c : Thread_cache) : option (CONNECT * Thread_cache) :=
  match conns c with [] => None | x :: l => Some (x, with_conns l c) end.

(** [park], up to the first wait or the return. *)
Definition park_enter (c : Thread_cache) : Thread_cache * pc :=
  match get c with
  | Some (connect, c) => (count_up c, PDone (Some connect))
  | None =>
      if (cached_thread_count c <? thread_cache_size) && (kill_cached_threads c =? 0)
      then (count_up c, PWait)
      else (c, PDone None)
  end.
(** One round of its loop, after the wait. *)
Definition park_wake (timed_out : bool) (c : Thread_cache) : Thread_cache * pc :=
  let flushed := negb (kill_cached_threads c =? 0) in
  let leave connect := if flushed then PSignal connect else PDone connect in
  match get c with
  | Some (connect, c) => (c, leave (Some connect))
  | None => if flushed || timed_out then (count_down c, leave None) else (c, PWait)
  end.

Definition enqueue_enter (connect : CONNECT) (c : Thread_cache) : Thread_cache * pc :=
  if negb (cached_thread_count c =? 0)
  then (count_down (with_conns (conns c ++ [connect]) c), ESignal)
  else (c, EDone false).

(** The loop of [flush]; the boolean is whether it broadcasts. *)
Definition flush_wake (c : Thread_cache) : Thread_cache * bool * pc :=
  if negb (cached_thread_count c =? 0) then (c, true, FWait) else (kill_down c, false, FDone).
Definition flush_enter (c : Thread_cache) : Thread_cache * bool * pc := flush_wake (kill_up c).
(** The part of [final_flush] before it calls [flush]. *)
Definition final_flush_enter (c : Thread_cache) : Thread_cache := kill_up c.

(** * Interleavings *)

Record state := mkState { cache : Thread_cache; calls : list pc }.

Definition wake_all (cs : list pc) : list pc := (λ p, match p with PWait => PAwake false | p => p end) <$> cs.

(** What a step does to the connections: it accepts or hands out one, or none. *)
Inductive label := Tau | Accept (connect : CONNECT) | Serve (connect : CONNECT).
Definition served (p : pc) : label := match p with PDone (Some x) | PSignal (Some x) => Serve x | _ => Tau end.

Inductive step (spurious : bool) : state -> label -> state -> Prop :=
  | step_park c cs c' p : park_enter c = (c', p) -> step spurious (mkState c cs) (served p) (mkState c' (cs ++ [p]))
  | step_timeout c cs i : cs !! i = Some PWait -> step spurious (mkState c cs) Tau (mkState c (<[i := PAwake true]> cs))
  | step_park_wake c cs i t c' p : cs !! i = Some (PAwake t) -> park_wake t c = (c', p) ->
      step spurious (mkState c cs) (served p) (mkState c' (<[i := p]> cs))
  | step_park_signal c cs i r j : cs !! i = Some (PSignal r) -> cs !! j = Some FWait ->
      step spurious (mkState c cs) Tau (mkState c (<[j := FAwake]> (<[i := PDone r]> cs)))
  | step_park_signal_none c cs i r : cs !! i = Some (PSignal r) -> FWait ∉ cs ->
      step spurious (mkState c cs) Tau (mkState c (<[i := PDone r]> cs))
  | step_enqueue c cs x c' : enqueue_enter x c = (c', ESignal) ->
      step spurious (mkState c cs) (Accept x) (mkState c' (cs ++ [ESignal]))
  | step_enqueue_none c cs x c' : enqueue_enter x c = (c', EDone false) ->
      step spurious (mkState c cs) Tau (mkState c' (cs ++ [EDone false]))
  | step_enqueue_signal c cs i j : cs !! i = Some ESignal -> cs !! j = Some PWait ->
      step spurious (mkState c cs) Tau (mkState c (<[j := PAwake false]> (<[i := EDone true]> cs)))
  | step_enqueue_signal_none c cs i : cs !! i = Some ESignal -> PWait ∉ cs ->
      step spurious (mkState c cs) Tau (mkState c (<[i := EDone true]> cs))
  | step_flush c cs c' b p : flush_enter c = (c', b, p) ->
      step spurious (mkState c cs) Tau (mkState c' ((if b then wake_all cs else cs) ++ [p]))
  | step_final_flush c cs : step spurious (mkState c cs) Tau (mkState (final_flush_enter c) (cs ++ [FFinal]))
  | step_final_flush_flush c cs i c' b p : cs !! i = Some FFinal -> flush_enter c = (c', b, p) ->
      step spurious (mkState c cs) Tau (mkState c' (<[i := p]> (if b then wake_all cs else cs)))
  | step_flush_wake c cs i c' b p : cs !! i = Some FAwake -> flush_wake c = (c', b, p) ->
      step spurious (mkState c cs) Tau (mkState c' (<[i := p]> (if b then wake_all cs else cs)))
  | step_spurious_park c cs i : spurious = true -> cs !! i = Some PWait ->
      step spurious (mkState c cs) Tau (mkState c (<[i := PAwake false]> cs))
  | step_spurious_flush c cs i : spurious = true -> cs !! i = Some FWait ->
      step spurious (mkState c cs) Tau (mkState c (<[i := FAwake]> cs)).

(** The states after any steps, with what was accepted and what was handed out. *)
Inductive run (spurious : bool) (s0 : state) : list CONNECT -> list CONNECT -> state -> Prop :=
  | run_refl : run spurious s0 [] [] s0
  | run_step accepted handed s l s' : run spurious s0 accepted handed s -> step spurious s l s' ->
      run spurious s0 (accepted ++ match l with Accept x => [x] | _ => [] end) (handed ++ match l with Serve x => [x] | _ => [] end) s'.

Definition initial : state := mkState cache_init [].
End Thread_cache.

Arguments Thread_cache : clear implicits.
Arguments pc : clear implicits.
Arguments state : clear implicits.
Arguments label : clear implicits.

(** * Counting calls *)

Section counting.
Context {CONNECT : Type}.
Implicit Types (cs : list (pc CONNECT)) (f g : pc CONNECT -> bool).

Definition is_wait (p : pc CONNECT) : bool := match p with PWait => true | _ => false end.
Definition is_awake (p : pc CONNECT) : bool := match p with PAwake _ => true | _ => false end.
Definition is_parked (p : pc CONNECT) : bool := is_wait p || is_awake p.
Definition is_signaller (p : pc CONNECT) : bool := match p with ESignal => true | _ => false end.
Definition is_flusher (p : pc CONNECT) : bool := match p with FWait | FAwake => true | _ => false end.

Lemma count_wake_all f g cs : (forall p, g p = f (match p with PWait => PAwake false | p => p end)) ->
  count_calls f (wake_all cs) = count_calls g cs.
Proof. intros Hfg. induction cs as [|p cs IH]; [done|]. cbn [wake_all fmap list_fmap count_calls]. rewrite Hfg. unfold wake_all in IH. by rewrite IH. Qed.
Lemma count_parked cs : count_calls is_parked cs = count_calls is_wait cs + count_calls is_awake cs.
Proof. induction cs as [|[] cs IH]; cbn [count_calls is_parked is_wait is_awake orb Z.b2z]; lia. Qed.
Lemma count_none cs : PWait ∉ cs -> count_calls is_wait cs = 0.
Proof.
  induction cs as [|p cs IH]; [done|]. intros [Hp Hn]%not_elem_of_cons. cbn [count_calls]. rewrite IH by done. by destruct p.
Qed.
End counting.

(** * The invariant *)

Section invariant.
Context {CONNECT : Type} (thread_cache_size : Z).
Implicit Types (s : state CONNECT) (cs : list (pc CONNECT)).
Hypothesis Hsize : 0 <= thread_cache_size < 2 ^ 64.

(** Every parked thread is counted or has a connection waiting for it; no more are
    parked than may be; and for every waiting connection a thread is awake, or is
    going to be woken. *)
Record cache_inv s : Prop := {
  inv_parked : count_calls is_parked (calls s) = cached_thread_count (cache s) + Z.of_nat (length (conns (cache s)));
  inv_count : 0 <= cached_thread_count (cache s);
  inv_size : count_calls is_parked (calls s) <= thread_cache_size;
  inv_awake : Z.of_nat (length (conns (cache s))) <= count_calls is_awake (calls s) + count_calls is_signaller (calls s)
}.

Lemma count_up_small (c : Thread_cache CONNECT) : 0 <= cached_thread_count c < 2 ^ 64 - 1 ->
  count_up c = mkCache (conns c) (cached_thread_count c + 1) (kill_cached_threads c).
Proof. intros Hc. unfold count_up. by rewrite uwrap_small by (unfold ufits; lia). Qed.
Lemma count_down_small (c : Thread_cache CONNECT) : 0 < cached_thread_count c <= 2 ^ 64 ->
  count_down c = mkCache (conns c) (cached_thread_count c - 1) (kill_cached_threads c).
Proof. intros Hc. unfold count_down. by rewrite uwrap_small by (unfold ufits; lia). Qed.

Ltac counts := rewrite ?count_app; repeat match goal with
  | Hi : ?cs !! ?i = Some ?p |- context [count_calls ?f (<[?i := ?q]> ?cs)] => rewrite (count_insert f cs i p q Hi)
  end; cbn [count_calls is_parked is_wait is_awake is_signaller is_flusher orb Z.b2z] in *.

Lemma park_enter_inv c cs c' p : cache_inv (mkState c cs) -> park_enter thread_cache_size c = (c', p) -> cache_inv (mkState c' (cs ++ [p])).
Proof.
  intros [H1 H2 H3 H4] E. cbn [cache calls] in *. pose proof (count_nonneg is_awake cs). pose proof (count_nonneg is_signaller cs).
  unfold park_enter, get in E. destruct (conns c) as [|x l] eqn:Ec; cbn [length] in *.
  - destruct (Z.ltb_spec (cached_thread_count c) thread_cache_size) as [Hlt|Hge]; cbn [andb] in E.
    + destruct (kill_cached_threads c =? 0); injection E as <- <-; [|split; cbn [cache calls]; rewrite ?Ec; cbn [length]; counts; lia].
      rewrite count_up_small by lia. split; cbn [cache calls conns cached_thread_count]; rewrite ?Ec; cbn [length]; counts; lia.
    + injection E as <- <-. split; cbn [cache calls]; rewrite ?Ec; cbn [length]; counts; lia.
  - injection E as <- <-. rewrite count_up_small by (cbn; lia). split; cbn [cache calls conns cached_thread_count with_conns]; counts; lia.
Qed.

Lemma park_wake_inv c cs i t c' p : cache_inv (mkState c cs) -> cs !! i = Some (PAwake t) -> park_wake t c = (c', p) ->
  cache_inv (mkState c' (<[i := p]> cs)).
Proof.
  intros [H1 H2 H3 H4] Hi E. cbn [cache calls] in *.
  pose proof (count_in is_awake cs i _ Hi eq_refl). pose proof (count_in is_parked cs i _ Hi eq_refl). pose proof (count_nonneg is_signaller cs).
  unfold park_wake, get in E. destruct (conns c) as [|x l] eqn:Ec; cbn [length] in *.
  - destruct (negb (kill_cached_threads c =? 0)); cbn [orb] in E; [|destruct t]; injection E as <- <-; rewrite ?count_down_small by lia;
      split; cbn [cache calls conns cached_thread_count]; rewrite ?Ec; cbn [length]; counts; lia.
  - destruct (negb (kill_cached_threads c =? 0)); injection E as <- <-; split; cbn [cache calls conns cached_thread_count with_conns]; counts; lia.
Qed.

Lemma enqueue_inv x c cs c' p : cache_inv (mkState c cs) -> enqueue_enter x c = (c', p) -> cache_inv (mkState c' (cs ++ [p])).
Proof.
  intros [H1 H2 H3 H4] E. cbn [cache calls] in *. unfold enqueue_enter in E. destruct (Z.eqb_spec (cached_thread_count c) 0) as [Hz|Hz]; cbn [negb] in E; injection E as <- <-.
  - split; cbn [cache calls]; counts; lia.
  - rewrite count_down_small by (cbn; lia). split; cbn [cache calls conns cached_thread_count with_conns]; rewrite ?length_app; cbn [length]; counts; lia.
Qed.

Lemma wake_all_inv c cs : cache_inv (mkState c cs) -> cache_inv (mkState c (wake_all cs)) /\ count_calls is_awake cs <= count_calls is_awake (wake_all cs).
Proof.
  intros [H1 H2 H3 H4]. cbn [cache calls] in *. pose proof (count_parked cs) as Hp. pose proof (count_nonneg is_wait cs) as Hw.
  assert (count_calls is_parked (wake_all cs) = count_calls is_parked cs) as E1 by (apply count_wake_all; by intros []).
  assert (count_calls is_awake (wake_all cs) = count_calls is_parked cs) as E2 by (apply count_wake_all; by intros []).
  assert (count_calls is_signaller (wake_all cs) = count_calls is_signaller cs) as E3 by (apply count_wake_all; by intros []).
  split; [split; cbn [cache calls]; lia|lia].
Qed.

(** Steps of [flush] change neither the connections nor the count. *)
Lemma flush_wake_cache (c : Thread_cache CONNECT) c' b p : flush_wake c = (c', b, p) ->
  conns c' = conns c /\ cached_thread_count c' = cached_thread_count c /\ (p = FWait \/ p = FDone).
Proof. unfold flush_wake. destruct (negb _); intros [= <- <- <-]; cbn; auto. Qed.

Lemma inv_same_cache c c' cs : cache_inv (mkState c cs) -> conns c' = conns c -> cached_thread_count c' = cached_thread_count c -> cache_inv (mkState c' cs).
Proof. intros [H1 H2 H3 H4] E1 E2. split; cbn [cache calls] in *; rewrite ?E1, ?E2; done. Qed.
Lemma inv_append_flusher c cs p : cache_inv (mkState c cs) -> p = FWait \/ p = FDone -> cache_inv (mkState c (cs ++ [p])).
Proof. intros [H1 H2 H3 H4] Hp. split; cbn [cache calls] in *; destruct Hp as [-> | ->]; counts; lia. Qed.
Lemma inv_insert_other c cs i p q : cache_inv (mkState c cs) -> cs !! i = Some p ->
  is_parked q = is_parked p -> Z.b2z (is_awake p) <= Z.b2z (is_awake q) -> is_signaller p = is_signaller q -> cache_inv (mkState c (<[i := q]> cs)).
Proof.
  intros [H1 H2 H3 H4] Hi E1 E2 E3. split; cbn [cache calls] in *; rewrite ?(count_insert _ _ _ _ _ Hi), ?E1, ?E3; lia.
Qed.

Ltac other_call := eapply inv_insert_other; [eassumption|eassumption|done|cbn; lia|done].

Lemma step_inv spurious s l s' : step thread_cache_size spurious s l s' -> cache_inv s -> cache_inv s'.
Proof.
  intros Hstep Hinv. destruct Hstep as [c cs c' p E|c cs i Hi|c cs i t c' p Hi E|c cs i r j Hi Hj|c cs i r Hi Hn|c cs x c' E|c cs x c' E|c cs i j Hi Hj|c cs i Hi Hn
    |c cs c' b p E|c cs|c cs i c' b p Hi E|c cs i c' b p Hi E|c cs i _ Hi|c cs i _ Hi].
  - by eapply park_enter_inv.
  - other_call.
  - by eapply park_wake_inv.
  - assert (i <> j) as Hij by (intros ->; congruence). eapply inv_insert_other; [other_call|by rewrite list_lookup_insert_ne|done|cbn; lia|done].
  - other_call.
  - by eapply enqueue_inv.
  - by eapply enqueue_inv.
  - assert (i <> j) as Hij by (intros ->; congruence). destruct Hinv as [H1 H2 H3 H4]. cbn [cache calls] in *.
    assert (<[i := EDone true]> cs !! j = Some PWait) as Hj' by (by rewrite list_lookup_insert_ne).
    split; cbn [cache calls]; rewrite ?(count_insert _ _ _ _ _ Hj'); counts; lia.
  - destruct Hinv as [H1 H2 H3 H4]. cbn [cache calls] in *. pose proof (count_parked cs) as Hp. rewrite (count_none cs Hn) in Hp.
    pose proof (count_nonneg is_signaller cs). pose proof (count_in is_signaller cs i _ Hi eq_refl). split; cbn [cache calls]; counts; lia.
  - apply flush_wake_cache in E as (E1 & E2 & Hp). apply inv_append_flusher; [|done]. apply inv_same_cache with (c := c); [|done|done].
    destruct b; [by apply wake_all_inv|done].
  - apply inv_same_cache with (c := c); [|done|done]. destruct Hinv as [H1 H2 H3 H4]. split; cbn [cache calls] in *; counts; lia.
  - apply flush_wake_cache in E as (E1 & E2 & Hp). apply inv_same_cache with (c := c); [|done|done].
    assert ((if b then wake_all cs else cs) !! i = Some FFinal) as Hi' by (destruct b; [unfold wake_all; by rewrite list_lookup_fmap, Hi|done]).
    eapply inv_insert_other; [|exact Hi'|by destruct Hp as [-> | ->]|by destruct Hp as [-> | ->]; cbn; lia|by destruct Hp as [-> | ->]]. destruct b; [by apply wake_all_inv|done].
  - apply flush_wake_cache in E as (E1 & E2 & Hp). apply inv_same_cache with (c := c); [|done|done].
    assert ((if b then wake_all cs else cs) !! i = Some FAwake) as Hi' by (destruct b; [unfold wake_all; by rewrite list_lookup_fmap, Hi|done]).
    eapply inv_insert_other; [|exact Hi'|by destruct Hp as [-> | ->]|by destruct Hp as [-> | ->]; cbn; lia|by destruct Hp as [-> | ->]]. destruct b; [by apply wake_all_inv|done].
  - other_call.
  - other_call.
Qed.

Lemma run_inv spurious accepted handed s : run thread_cache_size spurious initial accepted handed s -> cache_inv s.
Proof.
  induction 1 as [|accepted handed s l s' _ IH Hs]; [|by eapply step_inv]. split; cbn; lia.
Qed.
End invariant.

(** * What the cache guarantees *)

Section guarantees.
Context {CONNECT : Type} (thread_cache_size : Z).
Implicit Types (s : state CONNECT) (cs : list (pc CONNECT)).

Definition accepted_by (l : label CONNECT) : list CONNECT := match l with Accept x => [x] | _ => [] end.
Definition handed_by (l : label CONNECT) : list CONNECT := match l with Serve x => [x] | _ => [] end.

(** Connections are handed out in the order in which they were accepted. *)
Lemma step_fifo spurious s l s' : step thread_cache_size spurious s l s' ->
  conns (cache s) ++ accepted_by l = handed_by l ++ conns (cache s').
Proof.
  intros Hs. destruct Hs as [c cs c' p E|c cs i Hi|c cs i t c' p Hi E|c cs i r j Hi Hj|c cs i r Hi Hn|c cs x c' E|c cs x c' E|c cs i j Hi Hj|c cs i Hi Hn
    |c cs c' b p E|c cs|c cs i c' b p Hi E|c cs i c' b p Hi E|c cs i _ Hi|c cs i _ Hi]; cbn [cache accepted_by handed_by app]; rewrite ?app_nil_r; try done.
  - unfold park_enter, get in E. destruct (conns c) as [|x l] eqn:Ec; [|injection E as <- <-; cbn; by rewrite app_nil_r].
    destruct (_ && _); injection E as <- <-; cbn; by rewrite Ec.
  - unfold park_wake, get in E. destruct (conns c) as [|x l] eqn:Ec.
    + destruct (negb _); cbn [orb] in E; [|destruct t]; injection E as <- <-; cbn; by rewrite Ec.
    + destruct (negb _); injection E as <- <-; cbn; by rewrite app_nil_r.
  - unfold enqueue_enter in E. destruct (negb _); by injection E as <-.
  - unfold enqueue_enter in E. destruct (negb _); [done|by injection E as <-].
  - by apply flush_wake_cache in E as (-> & _).
  - by apply flush_wake_cache in E as (-> & _).
  - by apply flush_wake_cache in E as (-> & _).
Qed.

Lemma run_fifo spurious accepted handed s : run thread_cache_size spurious initial accepted handed s -> accepted = handed ++ conns (cache s).
Proof.
  induction 1 as [|accepted handed s l s' _ IH Hs]; [done|]. apply step_fifo in Hs. unfold accepted_by, handed_by in Hs.
  rewrite IH, <-!app_assoc. f_equal. exact Hs.
Qed.

Lemma run_trans spurious s0 a h s a' h' s' : run thread_cache_size spurious s0 a h s -> run thread_cache_size spurious s a' h' s' ->
  run thread_cache_size spurious s0 (a ++ a') (h ++ h') s'.
Proof.
  intros H1 H2. induction H2 as [|a' h' s2 l s' _ IH Hs]; [by rewrite !app_nil_r|]. rewrite !app_assoc. by eapply run_step.
Qed.
Lemma run_one spurious s l s' : step thread_cache_size spurious s l s' -> run thread_cache_size spurious s (accepted_by l) (handed_by l) s'.
Proof. intros Hs. apply (run_step _ _ s [] [] s l s'); [apply run_refl|done]. Qed.

(** C4.  In every state that any calls of [park], [enqueue], [flush] and [final_flush]
    can reach, in any order: the threads that are parked are those counted and one
    for each waiting connection, and never more than [thread_cache_size]; the
    counter never wraps around; the connections accepted are those handed out,
    each once and in the same order, and those still waiting. *)
Theorem thread_cache_accounts spurious accepted handed s : 0 <= thread_cache_size < 2 ^ 64 ->
  run thread_cache_size spurious initial accepted handed s ->
  count_calls is_parked (calls s) = cached_thread_count (cache s) + Z.of_nat (length (conns (cache s))) /\
  0 <= cached_thread_count (cache s) /\ count_calls is_parked (calls s) <= thread_cache_size /\
  accepted = handed ++ conns (cache s) /\
  (count_calls is_parked (calls s) = 0 -> cache_destroy (cache s) = Some tt).
Proof.
  intros Hsz Hr. pose proof (run_fifo _ _ _ _ Hr) as Hf. apply run_inv in Hr as [H1 H2 H3 H4]; [|done]. split_and!; try done.
  intros Hz. unfold cache_destroy. destruct (conns (cache s)); [|cbn in H1; lia]. cbn in H1.
  by rewrite (proj2 (Z.eqb_eq _ _)) by lia.
Qed.

(** ** Serving what was accepted *)

(** A call that waits for nothing: an [enqueue] about to signal, or a parked thread that
    has been woken.  [advance] is a step of such a call: no call begins, no wait times
    out, and no thread wakes unless it is signalled. *)
Definition is_running (p : pc CONNECT) : bool := is_signaller p || is_awake p.
Definition advance s (l : label CONNECT) s' : Prop :=
  step thread_cache_size false s l s' /\
  exists i p, calls s !! i = Some p /\ is_running p = true /\ calls s' !! i <> Some p.
Inductive advances : nat -> state CONNECT -> list CONNECT -> state CONNECT -> Prop :=
  | advances_none s : advances 0 s [] s
  | advances_step n s h s1 l s' : advances n s h s1 -> advance s1 l s' -> advances (S n) s (h ++ handed_by l) s'.

(** What running calls can still do. *)
Definition work s : Z := 2 * count_calls is_signaller (calls s) + count_calls is_awake (calls s).

Lemma work_bounds s : 0 <= work s <= 2 * Z.of_nat (length (calls s)).
Proof.
  unfold work. destruct s as [c cs]. cbn [calls]. clear c. induction cs as [|[] cs IH]; cbn [count_calls is_signaller is_awake Z.b2z length] in *; lia.
Qed.

Lemma wake_all_running cs i p : cs !! i = Some p -> is_running p = true -> wake_all cs !! i = Some p.
Proof. intros Hi Hp. unfold wake_all. rewrite list_lookup_fmap, Hi. by destruct p. Qed.

Lemma advance_work s l s' : advance s l s' -> work s' < work s /\ accepted_by l = [].
Proof.
  intros [Hs (k & q & Hk & Hq & Hne)].
  destruct Hs as [c cs c' p E|c cs i Hi|c cs i t c' p Hi E|c cs i r j Hi Hj|c cs i r Hi Hn|c cs x c' E|c cs x c' E|c cs i j Hi Hj|c cs i Hi Hn
    |c cs c' b p E|c cs|c cs i c' b p Hi E|c cs i c' b p Hi E|c cs i Hsp Hi|c cs i Hsp Hi]; cbn [cache calls] in *; try discriminate Hsp;
    try (exfalso; apply Hne; by apply lookup_app_l_Some).
  - exfalso. apply Hne. rewrite list_lookup_insert_ne; [done|]. intros ->. rewrite Hk in Hi. by injection Hi as ->.
  - assert (p <> PAwake t /\ is_running p = false /\ accepted_by (served p) = []) as (_ & Hr & ->).
    { unfold park_wake in E. destruct (get c) as [[x c1]|]; (destruct (negb _); cbn [orb] in E; [|try destruct t]); by injection E as <- <-. }
    split; [|done]. unfold work. cbn [calls]. rewrite !(count_insert _ _ _ _ _ Hi). unfold is_running in Hr. destruct p; cbn in *; try done; lia.
  - exfalso. apply Hne. rewrite !list_lookup_insert_ne; [done|..]; intros ->; rewrite Hk in *; simplify_eq; done.
  - exfalso. apply Hne. rewrite !list_lookup_insert_ne; [done|..]; intros ->; rewrite Hk in *; simplify_eq; done.
  - split; [|done]. assert (i <> j) as Hij by (intros ->; congruence).
    assert (<[i := EDone true]> cs !! j = Some PWait) as Hj' by (by rewrite list_lookup_insert_ne).
    unfold work. cbn [calls]. rewrite !(count_insert _ _ _ _ _ Hj'), !(count_insert _ _ _ _ _ Hi). cbn. lia.
  - split; [|done]. unfold work. cbn [calls]. rewrite !(count_insert _ _ _ _ _ Hi). cbn. lia.
  - exfalso. apply Hne. apply lookup_app_l_Some. destruct b; [by apply wake_all_running|done].
  - exfalso. apply Hne. rewrite list_lookup_insert_ne; [|intros ->; rewrite Hk in *; by simplify_eq]. destruct b; [by apply wake_all_running|done].
  - exfalso. apply Hne. rewrite list_lookup_insert_ne; [|intros ->; rewrite Hk in *; by simplify_eq]. destruct b; [by apply wake_all_running|done].
Qed.

(** While a connection waits, a running call is there for it: a thread that was woken
    for it, or the [enqueue] that is going to wake one. *)
Lemma advance_possible s : cache_inv thread_cache_size s -> conns (cache s) <> [] -> exists l s', advance s l s'.
Proof.
  intros [H1 H2 H3 H4] Hne. destruct s as [c cs]. cbn [cache calls] in *. pose proof (count_nonneg is_awake cs).
  assert (0 < Z.of_nat (length (conns c))) by (destruct (conns c); [done|cbn; lia]).
  destruct (Z.eq_dec (count_calls is_awake cs) 0) as [Hz|Hz].
  - destruct (count_positive is_signaller cs) as (i & p & Hi & Hp); [lia|]. destruct p; try done.
    rewrite count_parked in H1. destruct (count_positive is_wait cs) as (j & q & Hj & Hq); [lia|]. destruct q; try done.
    exists Tau, (mkState c (<[j := PAwake false]> (<[i := EDone true]> cs))). split; [by apply step_enqueue_signal|].
    exists i, ESignal. split; [done|]. split; [done|]. cbn [calls]. assert (i <> j) as Hij by (intros ->; congruence).
    rewrite list_lookup_insert_ne, list_lookup_insert_eq by (done || by eapply lookup_lt_Some). done.
  - destruct (count_positive is_awake cs) as (i & p & Hi & Hp); [lia|]. destruct p as [|t| | | | | | | |]; try done.
    destruct (park_wake t c) as [c' p] eqn:E. exists (served p), (mkState c' (<[i := p]> cs)). split; [by eapply step_park_wake|].
    exists i, (PAwake t). split; [done|]. split; [done|]. cbn [calls]. rewrite list_lookup_insert_eq by (by eapply lookup_lt_Some).
    unfold park_wake in E. destruct (get c) as [[x c1]|]; (destruct (negb _); cbn [orb] in E; [|try destruct t]); by injection E as <- <-.
Qed.

Lemma advances_inv n s h s' : 0 <= thread_cache_size < 2 ^ 64 -> cache_inv thread_cache_size s -> advances n s h s' ->
  cache_inv thread_cache_size s' /\ conns (cache s) = h ++ conns (cache s') /\ Z.of_nat n + work s' <= work s.
Proof.
  intros Hsz Hinv Ha. induction Ha as [s|n s h s1 l s' _ IH Hadv]; [split_and!; [done|done|lia]|].
  destruct (IH Hinv) as (I1 & I2 & I3). destruct (advance_work _ _ _ Hadv) as [Hw Hl]. destruct Hadv as [Hs _].
  split_and!; [by eapply step_inv| |lia]. apply step_fifo in Hs. rewrite Hl, app_nil_r in Hs. by rewrite I2, Hs, app_assoc.
Qed.

(** C31.  No wake-up is lost.  From any state that any calls can reach, let only the calls
    run that are under way and wait for nothing (threads that have been woken, and calls
    of [enqueue] that are about to signal), in any order: no new call, no timeout and no
    spurious wake-up.  They stop after at most two steps for each call; they never stop
    before every accepted connection has been handed out; and what they hand out is what
    was accepted and not yet handed out, in its order. *)
Theorem accepted_connections_served spurious accepted handed s n handed' s' : 0 <= thread_cache_size < 2 ^ 64 ->
  run thread_cache_size spurious initial accepted handed s -> advances n s handed' s' ->
  (n <= 2 * length (calls s))%nat /\
  (conns (cache s') <> [] -> exists l s'', advance s' l s'') /\
  accepted = handed ++ handed' ++ conns (cache s').
Proof.
  intros Hsz Hr Ha. pose proof (run_fifo _ _ _ _ Hr) as Hf. apply run_inv in Hr; [|done].
  destruct (advances_inv n s handed' s' Hsz Hr Ha) as (I1 & I2 & I3). pose proof (work_bounds s). pose proof (work_bounds s').
  split_and!; [lia|by apply advance_possible|]. by rewrite Hf, I2.
Qed.
End guarantees.

(** * Flushing *)

Section flushing.
Context {CONNECT : Type} (thread_cache_size : Z).
Implicit Types (s : state CONNECT) (cs : list (pc CONNECT)).

Definition is_flush_signal (p : pc CONNECT) : bool := match p with PSignal _ => true | _ => false end.
Definition is_flush_waiting (p : pc CONNECT) : bool := match p with FWait => true | _ => false end.
Definition is_final (p : pc CONNECT) : bool := match p with FFinal => true | _ => false end.

Ltac counts := rewrite ?count_app; repeat match goal with
  | Hi : ?cs !! ?i = Some ?p |- context [count_calls ?f (<[?i := ?q]> ?cs)] => rewrite (count_insert f cs i p q Hi)
  end; cbn [count_calls is_parked is_wait is_awake is_signaller is_flusher is_flush_signal is_flush_waiting orb Z.b2z] in *.

(** At most one flush is in progress, it is counted in [kill_cached_threads], it left no
    thread waiting, and if it waits, a thread is parked or about to signal it. *)
Record flush_inv s : Prop := {
  fl_kill : count_calls is_flusher (calls s) <= kill_cached_threads (cache s) <= Z.of_nat (length (calls s)) + count_calls is_flusher (calls s);
  fl_one : count_calls is_flusher (calls s) <= 1;
  fl_woken : 0 < count_calls is_flusher (calls s) -> count_calls is_wait (calls s) = 0;
  fl_signal : 0 < count_calls is_flush_waiting (calls s) -> 0 < count_calls is_parked (calls s) + count_calls is_flush_signal (calls s)
}.

(** The states in which flushes come one at a time. *)
Inductive one_flush : state CONNECT -> Prop :=
  | one_flush_initial : one_flush initial
  | one_flush_step spurious s l s' : one_flush s -> step thread_cache_size spurious s l s' ->
      count_calls is_flusher (calls s') <= 1 -> Z.of_nat (length (calls s')) < 2 ^ 32 - 2 -> one_flush s'.

Lemma flusher_waiting cs : count_calls is_flush_waiting cs <= count_calls is_flusher cs.
Proof. induction cs as [|[] cs IH]; cbn [count_calls is_flush_waiting is_flusher Z.b2z]; lia. Qed.

Lemma wake_all_counts cs : count_calls is_wait (wake_all cs) = 0 /\ count_calls is_parked (wake_all cs) = count_calls is_parked cs /\
  count_calls is_flusher (wake_all cs) = count_calls is_flusher cs /\ count_calls is_flush_waiting (wake_all cs) = count_calls is_flush_waiting cs /\
  count_calls is_flush_signal (wake_all cs) = count_calls is_flush_signal cs /\ length (wake_all cs) = length cs.
Proof.
  unfold wake_all. rewrite length_fmap. fold (wake_all cs). split_and!; try (apply count_wake_all; by intros []); [|done].
  induction cs as [|p cs IH]; [done|]. change (wake_all (p :: cs)) with ((match p with PWait => PAwake false | p => p end) :: wake_all cs).
  cbn [count_calls]. rewrite IH. by destruct p.
Qed.

(** [flush_enter] and [flush_wake]: a flush that waits has threads to wait for. *)
Lemma flush_wake_cases c cs c' b p : cache_inv thread_cache_size (mkState c cs) -> 0 < kill_cached_threads c < 2 ^ 32 ->
  flush_wake c = (c', b, p) ->
  (p = FWait /\ b = true /\ c' = c /\ 0 < count_calls is_parked cs) \/ (p = FDone /\ b = false /\ kill_cached_threads c' = kill_cached_threads c - 1).
Proof.
  intros [H1 H2 _ _] Hk E. cbn [cache calls] in *. unfold flush_wake in E. destruct (Z.eqb_spec (cached_thread_count c) 0) as [Hz|Hz]; cbn [negb] in E; injection E as <- <- <-.
  - right. split_and!; [done|done|]. cbn. rewrite uwrap_small by (unfold ufits; lia). done.
  - left. split_and!; [done..|lia].
Qed.

Lemma count_not_waiting cs : FWait ∉ cs -> count_calls is_flush_waiting cs = 0.
Proof.
  induction cs as [|p cs IH]; [done|]. intros [Hp Hn]%not_elem_of_cons. cbn [count_calls]. rewrite IH by done. by destruct p.
Qed.

(** The call [i] goes through the loop of [flush] once. *)
Lemma flush_call_inv c0 c cs i q c' b p : cache_inv thread_cache_size (mkState c cs) -> flush_inv (mkState c0 cs) ->
  cs !! i = Some q -> is_wait q = false -> is_parked q = false -> is_flush_waiting q = false -> is_flush_signal q = false ->
  kill_cached_threads c = kill_cached_threads c0 + 1 - Z.b2z (is_flusher q) -> 0 < kill_cached_threads c < 2 ^ 32 ->
  flush_wake c = (c', b, p) -> count_calls is_flusher (<[i := p]> (if b then wake_all cs else cs)) <= 1 ->
  flush_inv (mkState c' (<[i := p]> (if b then wake_all cs else cs))).
Proof.
  intros Hinv [F1 F2 F3 F4] Hi Q1 Q2 Q3 Q4 Hk Hkr E Hone. cbn [cache calls] in *.
  destruct (wake_all_counts cs) as (W1 & W2 & W3 & W4 & W5 & W6). pose proof (flusher_waiting cs).
  pose proof (count_nonneg is_flush_signal cs). pose proof (count_nonneg is_flush_waiting cs).
  assert (is_flusher q = true -> 0 < count_calls is_flusher cs) as Hq by (by apply count_in with (i := i)).
  destruct (flush_wake_cases c cs c' b p Hinv Hkr E) as [(-> & -> & -> & Hp)|(-> & -> & Hk')].
  - assert (wake_all cs !! i = Some q) as Hi' by (unfold wake_all; rewrite list_lookup_fmap, Hi; by destruct q).
    rewrite (count_insert _ _ _ _ _ Hi') in Hone. split; cbn [cache calls]; rewrite ?length_insert, ?(count_insert _ _ _ _ _ Hi'), ?Q1, ?Q2, ?Q3, ?Q4 in *; cbn [is_flusher is_wait is_flush_waiting is_parked is_flush_signal is_awake orb Z.b2z] in *; destruct (is_flusher q); cbn [Z.b2z] in *; lia.
  - rewrite (count_insert _ _ _ _ _ Hi) in Hone. split; cbn [cache calls]; rewrite ?length_insert, ?(count_insert _ _ _ _ _ Hi), ?Q1, ?Q2, ?Q3, ?Q4 in *; cbn [is_flusher is_wait is_flush_waiting is_parked is_flush_signal is_awake orb Z.b2z] in *; destruct (is_flusher q); cbn [Z.b2z] in *; try lia.
    all: specialize (Hq eq_refl); lia.
Qed.

Lemma park_results c cs c' p t i : park_enter thread_cache_size c = (c', p) \/ cs !! i = Some (PAwake t) /\ park_wake t c = (c', p) ->
  kill_cached_threads c' = kill_cached_threads c /\ is_flusher p = false /\ is_flush_waiting p = false /\
  (kill_cached_threads c <> 0 -> is_wait p = false).
Proof.
  intros [E|[_ E]].
  - unfold park_enter, get in E. destruct (conns c) as [|x l]; [|by injection E as <- <-]. destruct (Z.eqb_spec (kill_cached_threads c) 0) as [Hz|Hz].
    + destruct (_ && true); injection E as <- <-; split_and!; done.
    + rewrite andb_false_r in E. by injection E as <- <-.
  - unfold park_wake, get in E. destruct (Z.eqb_spec (kill_cached_threads c) 0) as [Hz|Hz]; cbn [negb orb] in E.
    + destruct (conns c); [destruct t|]; injection E as <- <-; split_and!; done.
    + destruct (conns c); injection E as <- <-; split_and!; done.
Qed.
Lemma park_wake_flushed c t c' p : kill_cached_threads c <> 0 -> park_wake t c = (c', p) -> is_flush_signal p = true.
Proof.
  intros Hk E. unfold park_wake, get in E. rewrite (proj2 (Z.eqb_neq _ _)) in E by done. cbn [negb orb] in E.
  destruct (conns c); by injection E as <- <-.
Qed.

Lemma kill_up_small (c : Thread_cache CONNECT) : 0 <= kill_cached_threads c < 2 ^ 32 - 1 ->
  kill_up c = mkCache (conns c) (cached_thread_count c) (kill_cached_threads c + 1).
Proof. intros Hk. unfold kill_up. by rewrite uwrap_small by (unfold ufits; lia). Qed.
(** A new call of [flush] is one that is about to enter it. *)
Lemma append_final c cs : cache_inv thread_cache_size (mkState c cs) -> flush_inv (mkState c cs) ->
  cache_inv thread_cache_size (mkState c (cs ++ [FFinal])) /\ flush_inv (mkState c (cs ++ [FFinal])).
Proof.
  intros [H1 H2 H3 H4] [F1 F2 F3 F4]. cbn [cache calls] in *.
  split; split; cbn [cache calls]; rewrite ?length_app; cbn [length]; counts; lia.
Qed.
Lemma append_call (b : bool) p cs : (if b then wake_all cs else cs) ++ [p] =
  <[length cs := p]> (if b then wake_all (cs ++ [FFinal]) else cs ++ [FFinal]).
Proof.
  destruct b; [|by rewrite insert_app_r_alt, Nat.sub_diag by lia]. unfold wake_all. rewrite fmap_app, insert_app_r_alt by (rewrite length_fmap; lia).
  by rewrite length_fmap, Nat.sub_diag.
Qed.

Lemma flush_step_inv spurious s l s' : step thread_cache_size spurious s l s' -> cache_inv thread_cache_size s -> flush_inv s ->
  count_calls is_flusher (calls s') <= 1 -> Z.of_nat (length (calls s')) < 2 ^ 32 - 2 -> flush_inv s'.
Proof.
  intros Hs Hinv HF Hone Hlen.
  destruct Hs as [c cs c' p E|c cs i Hi|c cs i t c' p Hi E|c cs i r j Hi Hj|c cs i r Hi Hn|c cs x c' E|c cs x c' E|c cs i j Hi Hj|c cs i Hi Hn
    |c cs c' b p E|c cs|c cs i c' b p Hi E|c cs i c' b p Hi E|c cs i _ Hi|c cs i _ Hi];
    pose proof HF as [F1 F2 F3 F4]; cbn [cache calls] in *; pose proof (flusher_waiting cs) as Hfw; pose proof (count_nonneg is_flush_signal cs) as Hns; pose proof (count_nonneg is_flusher cs) as Hnf.
  - destruct (park_results c cs c' p false 0 (or_introl E)) as (Hk & P1 & P2 & P3).
    split; cbn [cache calls]; rewrite ?length_app; cbn [length]; counts; rewrite ?Hk, ?P1, ?P2; cbn [Z.b2z]; try lia.
    + intros Hf. rewrite P3 by lia. cbn [Z.b2z]. lia.
    + intros Hf. pose proof (count_nonneg is_parked [p]). pose proof (count_nonneg is_flush_signal [p]). cbn [count_calls is_parked] in *. lia.
  - pose proof (count_in is_wait cs i _ Hi eq_refl). split; cbn [cache calls]; rewrite ?length_insert; counts; lia.
  - destruct (park_results c cs c' p t i (or_intror (conj Hi E))) as (Hk & P1 & P2 & P3).
    split; cbn [cache calls]; rewrite ?length_insert; counts; rewrite ?Hk, ?P1, ?P2; cbn [Z.b2z]; try lia.
    + intros Hf. rewrite P3 by lia. cbn [Z.b2z]. lia.
    + intros Hf. rewrite (park_wake_flushed c t c' p) by (done || lia). cbn [Z.b2z]. pose proof (count_in is_parked cs i _ Hi eq_refl).
      pose proof (count_nonneg is_parked [p]). cbn [count_calls is_parked] in *. lia.
  - assert (i <> j) as Hij by (intros ->; congruence). assert (<[i := PDone r]> cs !! j = Some FWait) as Hj' by (by rewrite list_lookup_insert_ne).
    pose proof (count_in is_flush_waiting cs j _ Hj eq_refl).
    split; cbn [cache calls]; rewrite ?length_insert, ?(count_insert _ _ _ _ _ Hj'); counts; lia.
  - pose proof (count_not_waiting cs Hn). split; cbn [cache calls]; rewrite ?length_insert; counts; lia.
  - unfold enqueue_enter in E. destruct (negb _); injection E as <-; [|done].
    split; cbn [cache calls kill_cached_threads count_down with_conns]; rewrite ?length_app; cbn [length]; counts; lia.
  - unfold enqueue_enter in E. destruct (negb _); [done|]. injection E as <-.
    split; cbn [cache calls]; rewrite ?length_app; cbn [length]; counts; lia.
  - assert (i <> j) as Hij by (intros ->; congruence). assert (<[i := EDone true]> cs !! j = Some PWait) as Hj' by (by rewrite list_lookup_insert_ne).
    pose proof (count_in is_wait cs j _ Hj eq_refl). split; cbn [cache calls]; rewrite ?length_insert, ?(count_insert _ _ _ _ _ Hj'); counts; lia.
  - split; cbn [cache calls]; rewrite ?length_insert; counts; lia.
  - assert (length (if b then wake_all cs else cs) = length cs) as Hl by (destruct b; [apply wake_all_counts|done]). rewrite length_app, Hl in Hlen. cbn [length] in Hlen.
    unfold flush_enter in E. rewrite kill_up_small in E by lia.
    destruct (append_final c cs Hinv HF) as [Hinv' HF']. rewrite (append_call b p cs) in *.
    eapply (flush_call_inv c (mkCache (conns c) (cached_thread_count c) (kill_cached_threads c + 1)) _ (length cs) FFinal); [|exact HF'|by apply list_lookup_middle|done|done|done|done|cbn; lia|cbn; lia|exact E|exact Hone].
    apply inv_same_cache with (c := c); [exact Hinv'|done|done].
  - unfold final_flush_enter, kill_up. rewrite length_app in Hlen. cbn [length] in Hlen.
    split; cbn [cache calls kill_cached_threads]; rewrite ?length_app; counts; rewrite ?uwrap_small by (unfold ufits; lia); cbn [length]; lia.
  - rewrite length_insert in Hlen. assert (length (if b then wake_all cs else cs) = length cs) as Hl by (destruct b; [apply wake_all_counts|done]). rewrite Hl in Hlen.
    unfold flush_enter in E. rewrite kill_up_small in E by lia.
    eapply (flush_call_inv c (mkCache (conns c) (cached_thread_count c) (kill_cached_threads c + 1)) cs i FFinal); [|done|done|done|done|done|done|cbn; lia|cbn; lia|exact E|exact Hone].
    apply inv_same_cache with (c := c); [exact Hinv|done|done].
  - rewrite length_insert in Hlen. assert (length (if b then wake_all cs else cs) = length cs) as Hl by (destruct b; [apply wake_all_counts|done]). rewrite Hl in Hlen.
    pose proof (count_in is_flusher cs i _ Hi eq_refl).
    eapply (flush_call_inv c c cs i FAwake); [exact Hinv|exact HF|done|done|done|done|done|cbn; lia|lia|exact E|exact Hone].
  - pose proof (count_in is_wait cs i _ Hi eq_refl). split; cbn [cache calls]; rewrite ?length_insert; counts; lia.
  - pose proof (count_in is_flush_waiting cs i _ Hi eq_refl). split; cbn [cache calls]; rewrite ?length_insert; counts; lia.
Qed.

Hypothesis Hsize : 0 <= thread_cache_size < 2 ^ 64.

(** What [one_flush] gives. *)
Record flushing s : Prop := {
  fi_cache : cache_inv thread_cache_size s;
  fi_flush : flush_inv s;
  fi_calls : Z.of_nat (length (calls s)) < 2 ^ 32 - 2
}.

Lemma one_flush_flushing s : one_flush s -> flushing s.
Proof.
  induction 1 as [|spurious s l s' _ [H1 H2 _] Hs Hone Hlen]; [split; [|split|]; (split || idtac); cbn; lia|].
  split; [by eapply step_inv|by eapply flush_step_inv|done].
Qed.

Lemma flushing_step spurious s l s' : step thread_cache_size spurious s l s' -> flushing s ->
  length (calls s') = length (calls s) -> count_calls is_flusher (calls s') = count_calls is_flusher (calls s) -> flushing s'.
Proof.
  intros Hs [H1 H2 H3] Hl Hf. split; [by eapply step_inv| |by rewrite Hl].
  eapply flush_step_inv; [done|done|done|rewrite Hf; apply H2|by rewrite Hl].
Qed.

(** While a flush is in progress its threads leave one by one. *)
Lemma parked_leave s i p : flushing s -> calls s !! i = Some p -> is_flusher p = true ->
  exists handed s', run thread_cache_size false s [] handed s' /\ flushing s' /\ calls s' !! i = Some p /\ count_calls is_parked (calls s') = 0.
Proof.
  remember (Z.to_nat (count_calls is_parked (calls s))) as n eqn:En. revert s En. induction n as [|n IH]; intros s En HF Hi Hp.
  - exists [], s. split_and!; [apply run_refl|done|done|pose proof (count_nonneg is_parked (calls s)); lia].
  - pose proof HF as [Hc [F1 F2 F3 F4] Hlen]. pose proof (count_in is_flusher _ i _ Hi Hp) as Hpos.
    destruct s as [c cs]. cbn [cache calls] in *. rewrite count_parked, F3 in En by done.
    destruct (count_positive is_awake cs) as (j & q & Hj & Hq); [lia|]. destruct q as [|t| | | | | | | |]; try done.
    destruct (park_wake t c) as [c' q] eqn:E. assert (is_flush_signal q = true) as Hsig by (eapply park_wake_flushed; [|exact E]; lia).
    assert (i <> j) as Hij by (intros ->; rewrite Hi in Hj; injection Hj as ->; done).
    pose proof (step_park_wake thread_cache_size false c cs j t c' q Hj E) as Hst.
    assert (is_flusher q = false /\ is_parked q = false) as [Hq1 Hq2] by (by destruct q).
    destruct (IH (mkState c' (<[j := q]> cs))) as (h & s' & Hr & HF' & Hi' & Hp').
    + cbn [calls]. rewrite (count_insert _ _ _ _ _ Hj), Hq2, count_parked, F3 by done. cbn [is_parked is_wait is_awake orb Z.b2z]. lia.
    + eapply flushing_step; [exact Hst|exact HF|cbn [calls]; by rewrite length_insert|cbn [calls]; rewrite (count_insert _ _ _ _ _ Hj), Hq1; cbn; lia].
    + cbn [calls]. by rewrite list_lookup_insert_ne.
    + done.
    + eexists _, s'. split; [|done]. refine (run_trans _ _ _ [] _ _ [] _ _ _ Hr).
      assert (accepted_by (served q) = []) as Ha by (by destruct q as [| |[x|]|[x|]| | | | | |]). rewrite <-Ha. apply run_one. exact Hst.
Qed.

(** A flush that has no other beside it returns: from every state in which flushes
    have come one at a time, the threads can go on, without timeouts, spurious
    wake-ups or new calls, until the flush in progress returns; every parked
    thread has then left the cache. *)
Theorem flush_returns s i p : one_flush s -> calls s !! i = Some p -> is_flusher p = true ->
  exists handed s', run thread_cache_size false s [] handed s' /\ calls s' !! i = Some FDone /\
    count_calls is_parked (calls s') = 0 /\ cache_destroy (cache s') = Some tt.
Proof.
  intros Hone Hi Hp. apply one_flush_flushing in Hone.
  destruct (parked_leave s i p Hone Hi Hp) as (h & s1 & Hr1 & HF & Hi1 & Hz). clear Hone Hi.
  assert (exists s2, run thread_cache_size false s1 [] [] s2 /\ flushing s2 /\ calls s2 !! i = Some FAwake /\ count_calls is_parked (calls s2) = 0) as (s2 & Hr2 & HF2 & Hi2 & Hz2).
  { destruct p; try done; [|exists s1; split; [apply run_refl|done]]. destruct s1 as [c cs]. cbn [calls] in *.
    pose proof (fl_signal _ (fi_flush _ HF) (count_in is_flush_waiting _ _ _ Hi1 eq_refl)) as Hs. cbn [calls] in Hs. rewrite Hz in Hs.
    destruct (count_positive is_flush_signal cs) as (j & q & Hj & Hq); [lia|]. destruct q as [| |r| | | | | | |]; try done.
    assert (j <> i) as Hij by (intros ->; congruence). assert (<[j := PDone r]> cs !! i = Some FWait) as Hi' by (by rewrite list_lookup_insert_ne).
    pose proof (step_park_signal thread_cache_size false c cs j r i Hj Hi1) as Hst. eexists. split; [apply (run_one _ _ _ Tau _ Hst)|]. split_and!.
    - eapply flushing_step; [exact Hst|done|cbn; by rewrite !length_insert|].
      cbn [calls]. rewrite (count_insert _ _ _ _ _ Hi'), (count_insert _ _ _ _ _ Hj). cbn. lia.
    - cbn [calls]. apply list_lookup_insert_eq. rewrite length_insert. by eapply lookup_lt_Some.
    - cbn [calls]. rewrite (count_insert _ _ _ _ _ Hi'), (count_insert _ _ _ _ _ Hj), Hz. done. }
  destruct HF2 as [[H1 H2 _ _] HF2 _]. destruct s2 as [c cs]. cbn [cache calls] in *.
  assert (cached_thread_count c = 0 /\ conns c = []) as [Hc Hl] by (destruct (conns c); cbn in *; split; (lia || done)).
  assert (flush_wake c = (kill_down c, false, FDone)) as E by (unfold flush_wake; by rewrite Hc).
  pose proof (step_flush_wake thread_cache_size false c cs i _ _ _ Hi2 E) as Hst.
  eexists (h ++ [] ++ []), _. split_and!.
  - apply (run_trans _ _ _ [] _ _ [] _ _ Hr1), (run_trans _ _ _ [] _ _ [] _ _ Hr2), (run_one _ _ _ Tau _ Hst).
  - cbn [calls]. apply list_lookup_insert_eq. by eapply lookup_lt_Some.
  - cbn [calls]. rewrite (count_insert _ _ _ _ _ Hi2). cbn. lia.
  - unfold cache_destroy. cbn. by rewrite Hc, Hl.
Qed.
End flushing.

(** * Two flushes at once *)

Section concurrent_flushes.
Context {CONNECT : Type} (thread_cache_size : Z).
Implicit Types (s : state CONNECT) (cs : list (pc CONNECT)).

(** Calls that nothing but a wake-up of [COND_flush_thread_cache] can take further, and
    calls that have no effect on the waiting ones. *)
Definition is_idle (p : pc CONNECT) : bool := match p with PDone _ | EDone _ | FDone | FFinal | FWait => true | _ => false end.

(** The flush [k] waits, nothing is parked or about to signal, and threads are kept out. *)
Record hung (k : nat) s : Prop := {
  h_call : calls s !! k = Some FWait;
  h_idle : forall i p, calls s !! i = Some p -> is_idle p = true;
  h_empty : conns (cache s) = [] /\ cached_thread_count (cache s) = 0;
  h_kill : 1 <= kill_cached_threads (cache s) <= Z.of_nat (length (calls s))
}.

Lemma hung_append k c c' cs p : hung k (mkState c cs) -> is_idle p = true -> conns c' = [] /\ cached_thread_count c' = 0 ->
  1 <= kill_cached_threads c' <= kill_cached_threads c + 1 -> hung k (mkState c' (cs ++ [p])).
Proof.
  intros [H1 H2 H3 H4] Hp Hc Hk. cbn [cache calls] in *. split; cbn [cache calls]; [by apply lookup_app_l_Some| |done|rewrite length_app; cbn [length]; lia].
  intros i q [Hi|[_ Hi]]%lookup_app_Some; [by eapply H2|]. destruct (i - length cs)%nat; [by injection Hi as <-|done].
Qed.

Lemma flush_enter_empty (c : Thread_cache CONNECT) : conns c = [] /\ cached_thread_count c = 0 -> 0 <= kill_cached_threads c < 2 ^ 32 ->
  flush_enter c = (c, false, FDone).
Proof.
  intros [Hl Hc] Hk. destruct c as [l n k]. cbn in *. subst l n. unfold flush_enter, flush_wake. cbn [cached_thread_count kill_up kill_down kill_cached_threads conns Z.eqb negb].
  unfold kill_up, kill_down. cbn [cached_thread_count kill_cached_threads conns]. do 3 f_equal.
  destruct (Z.eq_dec k (2 ^ 32 - 1)) as [->|]; [reflexivity|]. rewrite (uwrap_small 32 (k + 1)) by (unfold ufits; lia).
  rewrite uwrap_small by (unfold ufits; lia). lia.
Qed.

Lemma hung_step k s l s' : hung k s -> step thread_cache_size false s l s' -> Z.of_nat (length (calls s')) < 2 ^ 32 ->
  hung k s'.
Proof.
  intros HH Hs Hlen. pose proof HH as [H1 H2 H3 H4].
  destruct Hs as [c cs c' p E|c cs i Hi|c cs i t c' p Hi E|c cs i r j Hi Hj|c cs i r Hi Hn|c cs x c' E|c cs x c' E|c cs i j Hi Hj|c cs i Hi Hn
    |c cs c' b p E|c cs|c cs i c' b p Hi E|c cs i c' b p Hi E|c cs i Hsp Hi|c cs i Hsp Hi]; cbn [cache calls] in *; try discriminate Hsp;
    try (apply H2 in Hi; discriminate Hi).
  - unfold park_enter, get in E. destruct H3 as [Hl Hc]. rewrite Hl, (proj2 (Z.eqb_neq (kill_cached_threads c) 0)), andb_false_r in E by lia. injection E as <- <-.
    apply hung_append with (c := c); [done|done|done|lia].
  - unfold enqueue_enter in E. destruct H3 as [Hl Hc]. by rewrite Hc in E.
  - unfold enqueue_enter in E. destruct H3 as [Hl Hc]. rewrite Hc in E. injection E as <-. apply hung_append with (c := c); [done|done|done|lia].
  - rewrite length_app in Hlen. assert (length (if b then wake_all cs else cs) = length cs) as Hwl by (destruct b; [apply length_fmap|done]). rewrite Hwl in Hlen. cbn [length] in Hlen.
    rewrite flush_enter_empty in E by (done || lia). injection E as <- <- <-. apply hung_append with (c := c); [done|done|done|lia].
  - rewrite length_app in Hlen. cbn [length] in Hlen. unfold final_flush_enter, kill_up. rewrite uwrap_small by (unfold ufits; lia).
    apply hung_append with (c := c); [done|done|done|cbn; lia].
  - rewrite length_insert in Hlen. assert (length (if b then wake_all cs else cs) = length cs) as Hwl by (destruct b; [apply length_fmap|done]). rewrite Hwl in Hlen.
    rewrite flush_enter_empty in E by (done || lia). injection E as <- <- <-. assert (i <> k) as Hik by (intros ->; congruence).
    split; cbn [cache calls]; [by rewrite list_lookup_insert_ne| |done|by rewrite length_insert].
    intros j q Hj. destruct (decide (i = j)) as [<-|Hij]; [|rewrite list_lookup_insert_ne in Hj by done; by eapply H2].
    rewrite list_lookup_insert_eq in Hj by (by eapply lookup_lt_Some). by injection Hj as <-.
Qed.

Lemma step_length spurious s l s' : step thread_cache_size spurious s l s' -> (length (calls s) <= length (calls s'))%nat.
Proof.
  intros Hs. destruct Hs; cbn [calls]; rewrite ?length_app, ?length_insert; try lia; destruct b; unfold wake_all; rewrite ?length_fmap; lia.
Qed.

Lemma hung_run k s accepted handed s' : hung k s -> run thread_cache_size false s accepted handed s' -> Z.of_nat (length (calls s')) < 2 ^ 32 -> hung k s'.
Proof.
  intros HH Hr. induction Hr as [|accepted handed s1 l s' _ IH Hs]; [done|]. intros Hlen. pose proof (step_length _ _ _ _ Hs).
  eapply hung_step; [apply IH; lia|exact Hs|exact Hlen].
Qed.

(** One thread parks, two flushes start, the thread leaves and signals one of them. *)
Definition two_flushes : state CONNECT := mkState (mkCache [] 0 1) [PDone None; FDone; FWait].

Lemma two_flushes_reached : 0 < thread_cache_size -> run thread_cache_size false initial [] [] two_flushes.
Proof.
  intros Hsz.
  assert (forall s s1 s2 : state CONNECT, run thread_cache_size false s [] [] s1 -> step thread_cache_size false s1 Tau s2 -> run thread_cache_size false s [] [] s2) as Hgo
    by (intros s s1 s2 Hr Hs; exact (run_step _ _ s [] [] s1 Tau s2 Hr Hs)).
  apply Hgo with (mkState (mkCache [] 0 2) [PDone None; FAwake; FWait]); [|by apply (step_flush_wake _ _ (mkCache [] 0 2) [PDone None; FAwake; FWait] 1 (mkCache [] 0 1) false FDone)].
  apply Hgo with (mkState (mkCache [] 0 2) [PSignal None; FWait; FWait]); [|by apply (step_park_signal _ _ _ [PSignal None; FWait; FWait] 0 None 1)].
  apply Hgo with (mkState (mkCache [] 1 2) [PAwake false; FWait; FWait]); [|by apply (step_park_wake _ _ (mkCache [] 1 2) [PAwake false; FWait; FWait] 0 false (mkCache [] 0 2) (PSignal None))].
  apply Hgo with (mkState (mkCache [] 1 1) [PAwake false; FWait]); [|by apply (step_flush _ _ (mkCache [] 1 1) [PAwake false; FWait] (mkCache [] 1 2) true FWait)].
  apply Hgo with (mkState (mkCache [] 1 0) [PWait]); [|by apply (step_flush _ _ (mkCache [] 1 0) [PWait] (mkCache [] 1 1) true FWait)].
  apply Hgo with initial; [apply run_refl|]. apply (step_park _ _ cache_init [] (mkCache [] 1 0) PWait).
  unfold park_enter. cbn. by rewrite (proj2 (Z.ltb_lt _ _)).
Qed.

(** Two flushes at once can wait for ever: the last parked thread signals
    [COND_flush_thread_cache] once, for one of them.  From the state that is reached
    then, no steps at all (timeouts and further calls of any method included) make
    the other flush return, and as it stays counted in [kill_cached_threads], no
    thread can be parked again: the cache stays empty and refuses every
    connection. *)
Theorem concurrent_flushes_hang : 0 < thread_cache_size ->
  exists s, run thread_cache_size false initial [] [] s /\ calls s !! 2%nat = Some FWait /\
    forall accepted handed s', run thread_cache_size false s accepted handed s' -> Z.of_nat (length (calls s')) < 2 ^ 32 ->
      calls s' !! 2%nat = Some FWait /\ cache_size (cache s') = 0 /\
      park_enter thread_cache_size (cache s') = (cache s', PDone None) /\
      forall x, enqueue_enter x (cache s') = (cache s', EDone false).
Proof.
  intros Hsz. exists two_flushes. split_and!; [by apply two_flushes_reached|done|]. intros accepted handed s' Hr Hlen.
  assert (hung 2 two_flushes) as HH.
  { split; [done| |done|cbn; lia]. intros i p Hi. do 3 (destruct i as [|i]; [by injection Hi as <-|]). done. }
  destruct (hung_run 2 _ _ _ _ HH Hr Hlen) as [H1 _ [Hl Hc] H4]. split_and!; [done|done| |].
  - unfold park_enter, get. rewrite Hl, (proj2 (Z.eqb_neq (kill_cached_threads (cache s')) 0)), andb_false_r by lia. done.
  - intros x. unfold enqueue_enter. by rewrite Hc.
Qed.
End concurrent_flushes.

(** * Concrete runs *)

(** A thread parks and a connection is accepted for it. *)
Definition accepted_one : state nat := mkState (mkCache [7%nat] 0 0) [PWait; ESignal].
Lemma accepted_one_reached : run 1 false initial [7%nat] [] accepted_one.
Proof.
  apply (run_step _ _ _ [] [] (mkState (mkCache [] 1 0) [PWait]) (Accept 7%nat)); [|by apply (step_enqueue 1 false (mkCache [] 1 0) [PWait])].
  apply (run_step _ _ _ [] [] initial Tau); [apply run_refl|]. by apply (step_park 1 false cache_init [] (mkCache [] 1 0) PWait).
Qed.
(** A thread parks and a flush wakes it. *)
Definition flushed_one : state nat := mkState (mkCache [] 1 1) [PAwake false; FWait].
Lemma flushed_one_reached : one_flush 1 flushed_one.
Proof.
  apply (one_flush_step 1 false (mkState (mkCache [] 1 0) [PWait]) Tau); [|by apply (step_flush 1 false (mkCache [] 1 0) [PWait] (mkCache [] 1 1) true FWait)|done|done].
  apply (one_flush_step 1 false initial Tau); [apply one_flush_initial| |done|done]. by apply (step_park 1 false cache_init [] (mkCache [] 1 0) PWait).
Qed.

Lemma thread_cache_accounts_witness : cache_size (cache accepted_one) = 0 /\ count_calls is_parked (calls accepted_one) = 1 /\ count_calls is_parked (calls accepted_one) <= 1.
Proof.
  destruct (thread_cache_accounts 1 false [7%nat] [] accepted_one) as (_ & _ & H & _); [lia|apply accepted_one_reached|]. split; [reflexivity|]. split; [reflexivity|exact H].
Defined.
(** The [enqueue] signals, and the parked thread takes the connection. *)
Definition served_one : state nat := mkState (mkCache [] 0 0) [PDone (Some 7%nat); EDone true].
Lemma served_one_advances : advances 1 2 accepted_one [7%nat] served_one.
Proof.
  apply (advances_step 1 1 accepted_one [] (mkState (mkCache [7%nat] 0 0) [PAwake false; EDone true]) (Serve 7%nat)).
  - apply (advances_step 1 0 accepted_one [] accepted_one Tau); [apply advances_none|].
    split; [by apply (step_enqueue_signal 1 false _ [PWait; ESignal] 1 0)|]. by exists 1%nat, ESignal.
  - split; [by apply (step_park_wake 1 false (mkCache [7%nat] 0 0) [PAwake false; EDone true] 0 false (mkCache [] 0 0) (PDone (Some 7%nat)))|].
    by exists 0%nat, (PAwake false).
Qed.
Lemma accepted_connections_served_witness : (exists l s', advance 1 accepted_one l s') /\ [7%nat] = [] ++ [7%nat] ++ conns (cache served_one).
Proof.
  split.
  - apply (accepted_connections_served 1 false [7%nat] [] accepted_one 0 [] accepted_one); [lia|apply accepted_one_reached|apply advances_none|done].
  - apply (accepted_connections_served 1 false [7%nat] [] accepted_one 2 [7%nat] served_one); [lia|apply accepted_one_reached|apply served_one_advances].
Defined.
Lemma flush_returns_witness : exists handed s', run 1 false flushed_one [] handed s' /\ calls s' !! 1%nat = Some FDone.
Proof.
  destruct (flush_returns 1 ltac:(lia) flushed_one 1 FWait flushed_one_reached eq_refl eq_refl) as (h & s' & Hr & Hi & _).
  exists h, s'. split; assumption.
Defined.
Lemma concurrent_flushes_hang_witness : exists s : state nat, run 1 false initial [] [] s /\ calls s !! 2%nat = Some FWait.
Proof.
  destruct (concurrent_flushes_hang (CONNECT := nat) 1 eq_refl) as (s & Hr & Hi & _). exists s. split; assumption.
Defined.
