(* ===== verification/SqlLexInput.v ===== *)
(** The input of the lexical scanner, from [private/sql_lex.h]: the strings that the
    scanner makes ([Lex_string_with_metadata_st], [Lex_ident_cli_st]) and the
    character stream [Lex_input_stream].

    The stream reads the query in a raw buffer and, in echo mode, copies what it
    accepts to a pre-processed buffer ([cpp]).  A pointer into one of the buffers is
    an offset from the buffer's start; [None] is an access outside the buffer, or an
    assertion that fails.  What the stream promises is stated by [text_rel]: the two
    buffers are those of a sequence of accepted characters, each echoed or not, and
    one of pending ones. *)

From S2P Require Import Prelude.

(** * Strings of the scanner *)

Module Lex_string.
(** [LEX_CSTRING] with the flag and the quote character; [str] is an offset. *)
Record Lex_string := mkStr { str : Z; length : Z; m_is_8bit : bool; m_quote : Z }.

Definition set_8bit (is_8bit : bool) (s : Lex_string) : Lex_string := mkStr (str s) (length s) is_8bit (m_quote s).
Definition set_metadata (is_8bit : bool) (quote : Z) (s : Lex_string) : Lex_string := mkStr (str s) (length s) is_8bit quote.
Definition set (p len : Z) (is_8bit : bool) (quote : Z) : Lex_string := mkStr p len is_8bit quote.
Definition is_quoted (s : Lex_string) : bool := negb (m_quote s =? 0).

Inductive my_repertoire_t := MY_REPERTOIRE_ASCII | MY_REPERTOIRE_UNICODE30.
(** [my_charset_is_ascii_based(cs)] is not part of the header. *)
Definition repertoire_cs (is_ascii_based : bool) (s : Lex_string) : my_repertoire_t :=
  if negb (m_is_8bit s) && is_ascii_based then MY_REPERTOIRE_ASCII else MY_REPERTOIRE_UNICODE30.
Definition repertoire (s : Lex_string) : my_repertoire_t :=
  if negb (m_is_8bit s) then MY_REPERTOIRE_ASCII else MY_REPERTOIRE_UNICODE30.

Definition set_keyword (p len : Z) : Lex_string := set p len false 0.
Definition set_ident (p len : Z) (is_8bit : bool) : Lex_string := set p len is_8bit 0.
Definition set_ident_quoted (p len : Z) (is_8bit : bool) (quote : Z) : Lex_string := set p len is_8bit quote.
Definition set_unquoted (s : Lex_string) (is_8bit : bool) : Lex_string := set (str s) (length s) is_8bit 0.
(** Where the identifier starts and ends in the query, with its quotes. *)
Definition ident_pos (s : Lex_string) : Z := str s - Z.b2z (is_quoted s).
Definition ident_end (s : Lex_string) : Z := str s + length s + Z.b2z (is_quoted s).
End Lex_string.

(** * The stream *)

Inductive enum_comment_state := NO_COMMENT | PRESERVE_COMMENT | DISCARD_COMMENT.

Record Lex_input_stream := mkInput {
  m_buf : list Z; m_ptr : Z; m_end_of_query : Z;
  m_tok_start : Z; m_tok_end : Z; m_tok_start_prev : Z;
  m_cpp_buf : list Z; m_cpp_ptr : Z;
  m_cpp_tok_start : Z; m_cpp_tok_end : Z; m_cpp_tok_start_prev : Z;
  m_echo : bool; m_echo_saved : bool;
  in_comment : enum_comment_state; in_comment_saved : enum_comment_state;
  lookahead_token : Z
}.

Section stream.
Implicit Types s : Lex_input_stream.

Definition with_raw s (buf : list Z) (ptr : Z) : Lex_input_stream :=
  mkInput buf ptr (m_end_of_query s) (m_tok_start s) (m_tok_end s) (m_tok_start_prev s) (m_cpp_buf s) (m_cpp_ptr s) (m_cpp_tok_start s) (m_cpp_tok_end s) (m_cpp_tok_start_prev s) (m_echo s) (m_echo_saved s) (in_comment s) (in_comment_saved s) (lookahead_token s).
Definition with_cpp s (buf : list Z) (ptr : Z) : Lex_input_stream :=
  mkInput (m_buf s) (m_ptr s) (m_end_of_query s) (m_tok_start s) (m_tok_end s) (m_tok_start_prev s) buf ptr (m_cpp_tok_start s) (m_cpp_tok_end s) (m_cpp_tok_start_prev s) (m_echo s) (m_echo_saved s) (in_comment s) (in_comment_saved s) (lookahead_token s).
Definition with_echo s (echo echo_saved : bool) (comment comment_saved : enum_comment_state) : Lex_input_stream :=
  mkInput (m_buf s) (m_ptr s) (m_end_of_query s) (m_tok_start s) (m_tok_end s) (m_tok_start_prev s) (m_cpp_buf s) (m_cpp_ptr s) (m_cpp_tok_start s) (m_cpp_tok_end s) (m_cpp_tok_start_prev s) echo echo_saved comment comment_saved (lookahead_token s).
Definition with_tokens s (start tend prev cpp_start cpp_end cpp_prev : Z) : Lex_input_stream :=
  mkInput (m_buf s) (m_ptr s) (m_end_of_query s) start tend prev (m_cpp_buf s) (m_cpp_ptr s) cpp_start cpp_end cpp_prev (m_echo s) (m_echo_saved s) (in_comment s) (in_comment_saved s) (lookahead_token s).

(** [n] bytes read from, and written to, an offset of a buffer. *)
Definition read_at (b : list Z) (i n : Z) : option (list Z) :=
  asserting ((0 <=? i) && (0 <=? n) && (i + n <=? Z.of_nat (length b))) (take (Z.to_nat n) (drop (Z.to_nat i) b)).
Definition write_at (b : list Z) (i : Z) (bs : list Z) : option (list Z) :=
  asserting ((0 <=? i) && (i + Z.of_nat (length bs) <=? Z.of_nat (length b)))
    (take (Z.to_nat i) b ++ bs ++ drop (Z.to_nat i + length bs) b).
Definition char_at (b : list Z) (i : Z) : option Z := bs ← read_at b i 1; head bs.

Definition set_echo (echo : bool) s : Lex_input_stream := with_echo s echo (m_echo_saved s) (in_comment s) (in_comment_saved s).
Definition set_in_comment (c : enum_comment_state) s : Lex_input_stream := with_echo s (m_echo s) (m_echo_saved s) c (in_comment_saved s).
Definition save_in_comment_state s : Lex_input_stream := with_echo s (m_echo s) (m_echo s) (in_comment s) (in_comment s).
Definition restore_in_comment_state s : Lex_input_stream := with_echo s (m_echo_saved s) (m_echo_saved s) (in_comment_saved s) (in_comment_saved s).

(** [memcpy(m_cpp_ptr, bs, n); m_cpp_ptr+= n]. *)
Definition echo_bytes (bs : list Z) s : option Lex_input_stream :=
  b ← write_at (m_cpp_buf s) (m_cpp_ptr s) bs; Some (with_cpp s b (m_cpp_ptr s + Z.of_nat (length bs))).

Definition yySkipn (n : Z) s : option Lex_input_stream :=
  s ← (if m_echo s then bs ← read_at (m_buf s) (m_ptr s) n; echo_bytes bs s else Some s);
  Some (with_raw s (m_buf s) (m_ptr s + n)).
Definition skip_binary (n : Z) s : option Lex_input_stream := yySkipn n s.
Definition yyGet s : option (Z * Lex_input_stream) :=
  c ← char_at (m_buf s) (m_ptr s);
  let s := with_raw s (m_buf s) (m_ptr s + 1) in
  s ← (if m_echo s then echo_bytes [c] s else Some s);
  Some (c, s).
Definition yyGetLast s : option Z := char_at (m_buf s) (m_ptr s - 1).
Definition yyPeek s : option Z := char_at (m_buf s) (m_ptr s).
Definition yyPeekn (n : Z) s : option Z := char_at (m_buf s) (m_ptr s + n).
Definition yyUnget s : Lex_input_stream :=
  let s := with_raw s (m_buf s) (m_ptr s - 1) in
  if m_echo s then with_cpp s (m_cpp_buf s) (m_cpp_ptr s - 1) else s.
Definition yySkip s : option Lex_input_stream :=
  if m_echo s
  then c ← char_at (m_buf s) (m_ptr s); s ← echo_bytes [c] s; Some (with_raw s (m_buf s) (m_ptr s + 1))
  else Some (with_raw s (m_buf s) (m_ptr s + 1)).
Definition yyUnput (ch : Z) s : option Lex_input_stream :=
  b ← write_at (m_buf s) (m_ptr s - 1) [ch];
  let s := with_raw s b (m_ptr s - 1) in
  Some (if m_echo s then with_cpp s (m_cpp_buf s) (m_cpp_ptr s - 1) else s).

Definition eof_n (n : Z) s : bool := m_end_of_query s <=? m_ptr s + n.
Definition eof s : bool := m_end_of_query s <=? m_ptr s.

Definition start_token s : Lex_input_stream :=
  with_tokens s (m_ptr s) (m_ptr s) (m_tok_start s) (m_cpp_ptr s) (m_cpp_ptr s) (m_cpp_tok_start s).
Definition restart_token s : Lex_input_stream :=
  with_tokens s (m_ptr s) (m_tok_end s) (m_tok_start_prev s) (m_cpp_ptr s) (m_cpp_tok_end s) (m_cpp_tok_start_prev s).
Definition set_cpp_tok_start (pos : Z) s : Lex_input_stream :=
  with_tokens s (m_tok_start s) (m_tok_end s) (m_tok_start_prev s) pos (m_cpp_tok_end s) (m_cpp_tok_start_prev s).
Definition yyLength s : option Z := asserting (m_tok_start s <? m_ptr s) (u32 (m_ptr s - m_tok_start s - 1)).
Definition has_lookahead s : bool := 0 <=? lookahead_token s.
Definition get_tok_start s : Z := if has_lookahead s then m_tok_start_prev s else m_tok_start s.
Definition get_cpp_tok_start s : Z := if has_lookahead s then m_cpp_tok_start_prev s else m_cpp_tok_start s.

(** The loop of the two functions; [my_isspace(system_charset_info, c)] is not part of
    the header.  The fuel is the number of bytes before [p]. *)
Section rtrim.
Context (my_isspace : Z -> bool).
Fixpoint rtrim_loop (fuel : nat) (b : list Z) (p : Z) : option Z :=
  if 0 <? p
  then c ← char_at b (p - 1);
       if (my_isspace c : bool) then match fuel with O => None | S fuel => rtrim_loop fuel b (p - 1) end else Some p
  else Some p.
Definition get_cpp_tok_end_rtrim s : option Z := rtrim_loop (Z.to_nat (m_cpp_tok_end s)) (m_cpp_buf s) (m_cpp_tok_end s).
Definition get_cpp_ptr_rtrim s : option Z := rtrim_loop (Z.to_nat (m_cpp_ptr s)) (m_cpp_buf s) (m_cpp_ptr s).
End rtrim.
End stream.

(** * The text behind the buffers *)

(** What was accepted so far, with whether it was echoed, what is still to come, and
    the echo mode with its saved value. *)
Record text := mkText { accepted : list (Z * bool); pending : list Z; echo : bool; echo_saved : bool }.

Definition echoed (l : list (Z * bool)) : list Z := (filter (λ c, c.2 = true) l).*1.

(** [s] holds the text [t]; the pre-processed buffer has room for the whole query. *)
Record text_rel (s : Lex_input_stream) (t : text) : Prop := {
  tr_raw : m_buf s = (accepted t).*1 ++ pending t;
  tr_ptr : m_ptr s = Z.of_nat (length (accepted t));
  tr_cpp_ptr : m_cpp_ptr s = Z.of_nat (length (echoed (accepted t)));
  tr_cpp : take (length (echoed (accepted t))) (m_cpp_buf s) = echoed (accepted t);
  tr_room : (length (m_buf s) <= length (m_cpp_buf s))%nat;
  tr_echo : m_echo s = echo t /\ m_echo_saved s = echo_saved t
}.

(** The operations on the characters, and what each does to a text; [None] where its
    caller must not use it: there are no such characters, or the last one accepted
    was accepted in the other mode. *)
Inductive op := Get | Peek (n : Z) | GetLast | Skip | Skipn (n : Z) | Unget | Unput (ch : Z)
  | SetEcho (e : bool) | SetComment (c : enum_comment_state) | SaveState | RestoreState.

Definition run_op (o : op) (s : Lex_input_stream) : option (list Z * Lex_input_stream) :=
  match o with
  | Get => '(c, s) ← yyGet s; Some ([c], s)
  | Peek n => c ← yyPeekn n s; Some ([c], s)
  | GetLast => c ← yyGetLast s; Some ([c], s)
  | Skip => s ← yySkip s; Some ([], s)
  | Skipn n => s ← yySkipn n s; Some ([], s)
  | Unget => Some ([], yyUnget s)
  | Unput ch => s ← yyUnput ch s; Some ([], s)
  | SetEcho e => Some ([], set_echo e s)
  | SetComment c => Some ([], set_in_comment c s)
  | SaveState => Some ([], save_in_comment_state s)
  | RestoreState => Some ([], restore_in_comment_state s)
  end.

Definition accept (n : nat) (t : text) : text :=
  mkText (accepted t ++ ((λ c, (c, echo t)) <$> take n (pending t))) (drop n (pending t)) (echo t) (echo_saved t).
(** The last accepted character goes back, as [f] of what it was. *)
Definition give_back (f : Z -> Z) (t : text) : option text :=
  match last (accepted t) with
  | Some (c, e) => asserting (eqb e (echo t)) (mkText (take (pred (length (accepted t))) (accepted t)) (f c :: pending t) (echo t) (echo_saved t))
  | None => None
  end.
Definition text_op (o : op) (t : text) : option (list Z * text) :=
  match o with
  | Get => c ← head (pending t); Some ([c], accept 1 t)
  | Peek n => c ← (if n <? 0 then None else pending t !! Z.to_nat n); Some ([c], t)
  | GetLast => '(c, _) ← last (accepted t); Some ([c], t)
  | Skip => _ ← head (pending t); Some ([], accept 1 t)
  | Skipn n => asserting ((0 <=? n) && (n <=? Z.of_nat (length (pending t)))) ([], accept (Z.to_nat n) t)
  | Unget => t ← give_back (λ c, c) t; Some ([], t)
  | Unput ch => t ← give_back (λ _, ch) t; Some ([], t)
  | SetEcho e => Some ([], mkText (accepted t) (pending t) e (echo_saved t))
  | SetComment _ => Some ([], t)
  | SaveState => Some ([], mkText (accepted t) (pending t) (echo t) (echo t))
  | RestoreState => Some ([], mkText (accepted t) (pending t) (echo_saved t) (echo_saved t))
  end.

(** Any sequence of operations; the characters are those that [Get], [Peek] and
    [GetLast] return. *)
Fixpoint run_all {S} (f : op -> S -> option (list Z * S)) (ops : list op) (s : S) : option (list Z * S) :=
  match ops with
  | [] => Some ([], s)
  | o :: ops => '(out, s) ← f o s; '(out', s) ← run_all f ops s; Some (out ++ out', s)
  end.

(** ** Reading and writing a buffer *)

Section buffers.
Implicit Types b bs : list Z.

Lemma read_at_app b bs b' buf i n : buf = b ++ bs ++ b' -> i = Z.of_nat (length b) -> n = Z.of_nat (length bs) -> read_at buf i n = Some bs.
Proof.
  intros -> -> ->. unfold read_at. rewrite asserting_true by (rewrite !length_app, !andb_true_iff, !Z.leb_le; lia).
  by rewrite !Nat2Z.id, drop_app_length, take_app_length.
Qed.
Lemma write_at_app b old b' bs : length old = length bs ->
  write_at (b ++ old ++ b') (Z.of_nat (length b)) bs = Some (b ++ bs ++ b').
Proof.
  intros Hl. unfold write_at. rewrite asserting_true by (rewrite !length_app, andb_true_iff, !Z.leb_le; lia).
  by rewrite Nat2Z.id, take_app_length, <-Hl, (app_assoc b old b'), <-length_app, drop_app_length.
Qed.
Lemma char_at_lookup b i : 0 <= i -> char_at b i = b !! Z.to_nat i.
Proof.
  intros Hi. unfold char_at, read_at. destruct (b !! Z.to_nat i) as [c|] eqn:E.
  - pose proof (lookup_lt_Some _ _ _ E). rewrite asserting_true by (rewrite !andb_true_iff, !Z.leb_le; lia).
    cbn [mbind option_bind]. rewrite (drop_S _ _ _ E). done.
  - apply lookup_ge_None in E. unfold asserting. by rewrite (proj2 (Z.leb_gt (i + 1) _)), andb_false_r by lia.
Qed.
(** Writing at the end of a known prefix extends it. *)
Lemma write_at_prefix b p bs : take (length p) b = p -> (length p + length bs <= length b)%nat ->
  exists b', write_at b (Z.of_nat (length p)) bs = Some b' /\ take (length (p ++ bs)) b' = p ++ bs /\ length b' = length b.
Proof.
  intros Hp Hl. exists (p ++ bs ++ drop (length p + length bs) b). split; [|split].
  - rewrite <-(take_drop (length p) b) at 1. rewrite Hp. rewrite <-(take_drop (length bs) (drop (length p) b)) at 1.
    rewrite write_at_app by (rewrite length_take, length_drop; lia). by rewrite drop_drop.
  - by rewrite app_assoc, take_app_length.
  - rewrite !length_app, length_drop. lia.
Qed.
End buffers.

Lemma echoed_app l l' : echoed (l ++ l') = echoed l ++ echoed l'.
Proof. unfold echoed. by rewrite filter_app, fmap_app. Qed.
Lemma echoed_same (e : bool) (cs : list Z) : echoed ((λ c, (c, e)) <$> cs) = if e then cs else [].
Proof.
  induction cs as [|c cs IH]; [by destruct e|]. unfold echoed in *. rewrite fmap_cons, filter_cons. cbn [snd].
  case_decide; destruct e; try done. by rewrite fmap_cons, IH.
Qed.
Lemma echoed_length l : (length (echoed l) <= length l)%nat.
Proof. unfold echoed. rewrite length_fmap. apply length_filter. Qed.

(** ** Accepting and giving back *)

Section refinement.
Implicit Types (s : Lex_input_stream) (t : text).

Lemma text_rel_ptr s t : text_rel s t -> m_buf s = (accepted t).*1 ++ pending t /\ m_ptr s = Z.of_nat (length (accepted t).*1).
Proof. intros [H1 H2 _ _ _ _]. split; [done|]. by rewrite length_fmap. Qed.

(** Echoing characters that are still pending fits the pre-processed buffer. *)
Lemma echo_pending s t bs : text_rel s t -> echo t = true -> (length bs <= length (pending t))%nat ->
  exists b, echo_bytes bs s = Some (with_cpp s b (m_cpp_ptr s + Z.of_nat (length bs))) /\
    take (length (echoed (accepted t) ++ bs)) b = echoed (accepted t) ++ bs /\ length b = length (m_cpp_buf s).
Proof.
  intros [H1 H2 H3 H4 H5 H6] He Hl. pose proof (echoed_length (accepted t)). rewrite H1, length_app, length_fmap in H5.
  destruct (write_at_prefix (m_cpp_buf s) (echoed (accepted t)) bs H4) as (b & Hw & Ht & Hb); [lia|].
  exists b. unfold echo_bytes. by rewrite H3, Hw.
Qed.

Lemma skipn_accept s t n : text_rel s t -> (n <= length (pending t))%nat ->
  exists s', yySkipn (Z.of_nat n) s = Some s' /\ text_rel s' (accept n t).
Proof.
  intros HR Hn. pose proof HR as [H1 H2 H3 H4 H5 [H6 H7]]. pose proof (text_rel_ptr s t HR) as [_ Hp].
  assert (length (take n (pending t)) = n) as Hl by (rewrite length_take; lia).
  assert (read_at (m_buf s) (m_ptr s) (Z.of_nat n) = Some (take n (pending t))) as Hrd.
  { apply (read_at_app (accepted t).*1 _ (drop n (pending t))); [by rewrite take_drop|done|by rewrite Hl]. }
  assert (forall s1, m_buf s1 = m_buf s -> m_echo s1 = echo t -> m_echo_saved s1 = echo_saved t -> length (m_cpp_buf s1) = length (m_cpp_buf s) ->
    m_cpp_ptr s1 = Z.of_nat (length (echoed (accepted (accept n t)))) -> take (length (echoed (accepted (accept n t)))) (m_cpp_buf s1) = echoed (accepted (accept n t)) ->
    text_rel (with_raw s1 (m_buf s1) (m_ptr s + Z.of_nat n)) (accept n t)) as Hfin.
  { intros s1 E1 E2 E3 E4 E5 E6. split; cbn; [|rewrite H2, length_app, length_fmap, Hl; lia|done|done|by rewrite E1, E4|done].
    rewrite E1, H1, fmap_app, <-app_assoc, <-list_fmap_compose. f_equal. rewrite <-(take_drop n (pending t)) at 1. f_equal. symmetry. apply list_fmap_id. }
  assert (echoed (accepted (accept n t)) = echoed (accepted t) ++ if echo t then take n (pending t) else []) as He by (unfold accept; cbn [accepted]; by rewrite echoed_app, echoed_same).
  unfold yySkipn. rewrite H6, Hrd. cbn [mbind option_bind]. destruct (echo t) eqn:Eo.
  - destruct (echo_pending s t (take n (pending t)) HR Eo) as (b & Hb & Ht & Hlb); [lia|]. rewrite Hb. cbn [mbind option_bind].
    eexists. split; [reflexivity|]. apply Hfin; cbn [m_buf m_echo m_echo_saved m_cpp_buf m_cpp_ptr with_cpp]; rewrite ?He; try done. rewrite length_app, H3. lia.
  - cbn [mbind option_bind]. eexists. split; [reflexivity|]. apply Hfin; rewrite ?He, ?app_nil_r; done.
Qed.

(** Accepting one character is [yySkipn(1)], for [yyGet] and for [yySkip]. *)
Lemma char_pending s t : text_rel s t -> char_at (m_buf s) (m_ptr s) = head (pending t).
Proof.
  intros HR. apply text_rel_ptr in HR as [H1 H2]. rewrite char_at_lookup, H1, H2, Nat2Z.id, lookup_app_r, Nat.sub_diag by lia. by destruct (pending t).
Qed.
Lemma read_one b i c : char_at b i = Some c -> read_at b i 1 = Some [c].
Proof.
  unfold char_at. destruct (read_at b i 1) as [bs|] eqn:E; [|done]. cbn. intros Hc. unfold read_at, asserting in E. destruct (_ && _); [|done].
  injection E as <-. destruct (drop (Z.to_nat i) b); [done|]. by injection Hc as ->.
Qed.
Lemma get_skipn s c : char_at (m_buf s) (m_ptr s) = Some c -> yyGet s = (s' ← yySkipn 1 s; Some (c, s')).
Proof.
  intros Hc. unfold yyGet, yySkipn. rewrite Hc, (read_one _ _ _ Hc). cbn [mbind option_bind with_raw m_echo]. destruct (m_echo s); [|done].
  unfold echo_bytes. cbn [with_raw m_cpp_buf m_cpp_ptr]. by destruct (write_at _ _ _).
Qed.
Lemma skip_skipn s c : char_at (m_buf s) (m_ptr s) = Some c -> yySkip s = yySkipn 1 s.
Proof.
  intros Hc. unfold yySkip, yySkipn. rewrite Hc, (read_one _ _ _ Hc). cbn [mbind option_bind]. destruct (m_echo s); [|done]. unfold echo_bytes. by destruct (write_at _ _ _).
Qed.

(** Giving the last character back, changed or not, in the mode in which it was accepted. *)
Lemma give_back_rel s t f t' b : text_rel s t -> give_back f t = Some t' ->
  m_buf s = b -> 0 < m_ptr s /\ text_rel (with_cpp (with_raw s (<[Z.to_nat (m_ptr s - 1) := f (b !!! Z.to_nat (m_ptr s - 1))]> b) (m_ptr s - 1)) (m_cpp_buf s) (if m_echo s then m_cpp_ptr s - 1 else m_cpp_ptr s)) t'.
Proof.
  intros [H1 H2 H3 H4 H5 [H6 H7]] Hg <-. unfold give_back in Hg. destruct (exists_last_or_nil (accepted t)) as [E|(a & [c e] & E)]; rewrite E in *; [done|].
  rewrite last_snoc in Hg. rewrite fmap_app, <-app_assoc in H1. rewrite length_app in *. cbn [length] in *.
  unfold asserting in Hg. destruct (eqb e (echo t)) eqn:Ee; [|done]. apply eqb_prop in Ee as ->. injection Hg as <-.
  replace (pred (length a + 1)) with (length a) by lia. rewrite take_app_length. split; [lia|].
  assert (Z.to_nat (m_ptr s - 1) = length a) as Hi by lia. rewrite Hi, H1, insert_app_r_alt, lookup_total_app_r, !length_fmap, !Nat.sub_diag by (rewrite length_fmap; lia).
  rewrite echoed_app in *. assert (echoed [(c, echo t)] = if echo t then [c] else []) as Hs by apply (echoed_same (echo t) [c]).
  split; cbn [m_buf m_ptr m_cpp_buf m_cpp_ptr m_echo m_echo_saved with_cpp with_raw accepted pending echo echo_saved].
  - done.
  - lia.
  - rewrite H6. rewrite length_app in H3. rewrite Hs in H3. destruct (echo t); cbn [length] in H3; lia.
  - rewrite length_app in H4. apply (f_equal (take (length (echoed a)))) in H4. rewrite take_take, take_app_length in H4. by rewrite Nat.min_l in H4 by lia.
  - rewrite H1, length_app, length_fmap in H5. rewrite length_app, length_fmap, length_insert. exact H5.
  - done.
Qed.

Lemma stream_op_refines o s t out t' : text_rel s t -> text_op o t = Some (out, t') ->
  exists s', run_op o s = Some (out, s') /\ text_rel s' t'.
Proof.
  intros HR Ho. pose proof HR as [H1 H2 H3 H4 H5 [H6 H7]]. pose proof (text_rel_ptr s t HR) as [_ Hp].
  pose proof (char_pending s t HR) as Hc. destruct o as [|n| | |n| |ch|e|c| |]; cbn [text_op run_op] in *.
  - destruct (head (pending t)) as [c|] eqn:E; [|done]. injection Ho as <- <-.
    destruct (skipn_accept s t 1 HR) as (s' & Hs & HR'); [destruct (pending t); [done|cbn; lia]|].
    exists s'. split; [|done]. rewrite (get_skipn s c Hc). change (Z.of_nat 1) with 1 in Hs. by rewrite Hs.
  - destruct (Z.ltb_spec n 0); [done|]. destruct (pending t !! Z.to_nat n) as [c|] eqn:E; [|done]. injection Ho as <- <-.
    exists s. split; [|done]. unfold yyPeekn. rewrite char_at_lookup, H1, lookup_app_r by (rewrite ?length_fmap; lia).
    replace (Z.to_nat (m_ptr s + n) - length (accepted t).*1)%nat with (Z.to_nat n) by lia. by rewrite E.
  - destruct (exists_last_or_nil (accepted t)) as [E|(a & [c e] & E)]; rewrite E in *; [done|]. rewrite last_snoc in Ho. injection Ho as <- <-.
    rewrite length_app in H2. cbn [length] in H2. exists s. split; [|done]. unfold yyGetLast. rewrite char_at_lookup, H1 by lia.
    rewrite fmap_app, <-app_assoc, lookup_app_r by (rewrite length_fmap; lia). by replace (Z.to_nat (m_ptr s - 1) - length a.*1)%nat with 0%nat by (rewrite length_fmap; lia).
  - destruct (head (pending t)) as [c|] eqn:E; [|done]. injection Ho as <- <-.
    destruct (skipn_accept s t 1 HR) as (s' & Hs & HR'); [destruct (pending t); [done|cbn; lia]|].
    exists s'. split; [|done]. rewrite (skip_skipn s c Hc). change (Z.of_nat 1) with 1 in Hs. by rewrite Hs.
  - unfold asserting in Ho. destruct (Z.leb_spec 0 n), (Z.leb_spec n (Z.of_nat (length (pending t)))); try done. injection Ho as <- <-.
    destruct (skipn_accept s t (Z.to_nat n) HR) as (s' & Hs & HR'); [lia|]. exists s'. rewrite Z2Nat.id in Hs by lia. by rewrite Hs.
  - destruct (give_back (λ c, c) t) as [t1|] eqn:E; [|done]. injection Ho as <- <-.
    destruct (give_back_rel s t _ t1 (m_buf s) HR E eq_refl) as [Hpos HR']. eexists. split; [reflexivity|].
    assert (Z.to_nat (m_ptr s - 1) < length (m_buf s))%nat as Hlt by (rewrite H1, length_app, length_fmap; lia).
    rewrite list_insert_id in HR' by (by apply list_lookup_lookup_total_lt). unfold yyUnget. cbn [m_echo with_raw m_cpp_ptr m_cpp_buf]. by destruct (m_echo s).
  - destruct (give_back (λ _, ch) t) as [t1|] eqn:E; [|done]. injection Ho as <- <-.
    destruct (give_back_rel s t _ t1 (m_buf s) HR E eq_refl) as [Hpos HR'].
    assert (Z.to_nat (m_ptr s - 1) < length (m_buf s))%nat as Hlt by (rewrite H1, length_app, length_fmap; lia).
    assert (write_at (m_buf s) (m_ptr s - 1) [ch] = Some (<[Z.to_nat (m_ptr s - 1) := ch]> (m_buf s))) as Hw.
    { unfold write_at. rewrite asserting_true by (rewrite andb_true_iff, !Z.leb_le; cbn [length]; lia). f_equal. rewrite insert_take_drop by done. cbn [length app]. by rewrite Nat.add_1_r. }
    unfold yyUnput. rewrite Hw. cbn [mbind option_bind]. eexists. split; [reflexivity|]. cbn [m_echo with_raw m_cpp_ptr m_cpp_buf]. by destruct (m_echo s).
  - injection Ho as <- <-. eexists. split; [reflexivity|]. by split.
  - injection Ho as <- <-. eexists. split; [reflexivity|]. by split.
  - injection Ho as <- <-. eexists. split; [reflexivity|]. by split.
  - injection Ho as <- <-. eexists. split; [reflexivity|]. by split.
Qed.

Lemma run_all_refines ops s t out t' : text_rel s t -> run_all text_op ops t = Some (out, t') ->
  exists s', run_all run_op ops s = Some (out, s') /\ text_rel s' t'.
Proof.
  revert s t out. induction ops as [|o ops IH]; intros s t out HR Ho; cbn [run_all] in *; [injection Ho as <- <-; eauto|].
  destruct (text_op o t) as [[o1 t1]|] eqn:E; [|done]. cbn [mbind option_bind] in Ho.
  destruct (run_all text_op ops t1) as [[o2 t2]|] eqn:E'; [|done]. injection Ho as <- <-.
  destruct (stream_op_refines o s t o1 t1 HR E) as (s1 & -> & HR1). destruct (IH s1 t1 o2 HR1 E') as (s2 & Hs2 & HR2).
  exists s2. cbn [mbind option_bind]. by rewrite Hs2.
Qed.
End refinement.

(** * What the scanner may rely on *)

Section guarantees.
Implicit Types (s : Lex_input_stream) (t : text).

(** The marks, which operations on characters leave alone. *)
Definition marks s := (m_tok_start s, m_tok_end s, m_tok_start_prev s, m_cpp_tok_start s, (m_cpp_tok_end s, m_cpp_tok_start_prev s, lookahead_token s, m_end_of_query s)).

Lemma echo_bytes_marks bs s s' : echo_bytes bs s = Some s' -> marks s' = marks s.
Proof. unfold echo_bytes. destruct (write_at _ _ _); [|done]. by intros [= <-]. Qed.
Lemma run_op_marks o s out s' : run_op o s = Some (out, s') -> marks s' = marks s.
Proof.
  assert (forall n s s', yySkipn n s = Some s' -> marks s' = marks s) as Hskip.
  { intros n s1 s2. unfold yySkipn. destruct (m_echo s1); [|by intros [= <-]]. destruct (read_at _ _ _) as [bs|]; [|done]. cbn [mbind option_bind].
    destruct (echo_bytes bs s1) as [s3|] eqn:E; [|done]. intros [= <-]. by apply echo_bytes_marks in E. }
  intros Ho. destruct o as [|n| | |n| |ch|e|c| |]; cbn [run_op] in Ho.
  - destruct (yyGet s) as [[c s1]|] eqn:E; [|done]. injection Ho as <- <-.
    destruct (char_at (m_buf s) (m_ptr s)) as [c'|] eqn:Ec; [|by unfold yyGet in E; rewrite Ec in E].
    rewrite (get_skipn s c' Ec) in E. destruct (yySkipn 1 s) eqn:E'; [|done]. injection E as <- <-. by eapply Hskip.
  - destruct (yyPeekn n s); [|done]. by injection Ho as <- <-.
  - destruct (yyGetLast s); [|done]. by injection Ho as <- <-.
  - destruct (yySkip s) as [s1|] eqn:E; [|done]. injection Ho as <- <-. unfold yySkip in E. destruct (m_echo s) eqn:Em; [|by injection E as <-].
    destruct (char_at (m_buf s) (m_ptr s)) as [c|] eqn:Ec; [|done]. cbn [mbind option_bind] in E. destruct (echo_bytes [c] s) eqn:E'; [|done]. injection E as <-. by apply echo_bytes_marks in E'.
  - destruct (yySkipn n s) eqn:E; [|done]. injection Ho as <- <-. by eapply Hskip.
  - injection Ho as <- <-. unfold yyUnget. cbn [m_echo with_raw]. by destruct (m_echo s).
  - unfold yyUnput in Ho. destruct (write_at _ _ _); [|done]. injection Ho as <- <-. cbn [m_echo with_raw]. by destruct (m_echo s).
  - by injection Ho as <- <-.
  - by injection Ho as <- <-.
  - by injection Ho as <- <-.
  - by injection Ho as <- <-.
Qed.
Lemma run_all_marks ops s out s' : run_all run_op ops s = Some (out, s') -> marks s' = marks s.
Proof.
  revert s out. induction ops as [|o ops IH]; intros s out Ho; cbn [run_all] in Ho; [by injection Ho as <- <-|].
  destruct (run_op o s) as [[o1 s1]|] eqn:E; [|done]. cbn [mbind option_bind] in Ho. destruct (run_all run_op ops s1) as [[o2 s2]|] eqn:E'; [|done].
  injection Ho as <- <-. apply run_op_marks in E. rewrite <-E. by eapply IH.
Qed.

(** C11.  Whatever the scanner does with the characters of the query (within what is
    pending, and giving back characters only in the mode in which it accepted
    them), no access leaves a buffer, it sees the characters of the query, and the
    pre-processed buffer holds, in order, exactly those that were accepted in echo
    mode and not given back. *)
Theorem scanned_text_in_buffers ops s t out t' : text_rel s t -> run_all text_op ops t = Some (out, t') ->
  exists s', run_all run_op ops s = Some (out, s') /\ text_rel s' t' /\
    read_at (m_cpp_buf s') 0 (m_cpp_ptr s') = Some (echoed (accepted t')) /\ yyPeek s' = head (pending t').
Proof.
  intros HR Ho. destruct (run_all_refines ops s t out t' HR Ho) as (s' & Hs & HR'). exists s'. split_and!; [done|done| |by apply char_pending].
  destruct HR' as [_ _ H3 H4 _ _]. apply (read_at_app [] _ (drop (length (echoed (accepted t'))) (m_cpp_buf s'))); [|done|done].
  cbn [app]. by rewrite <-H4, take_drop at 1.
Qed.

(** Between [start_token] and any later point, the text between the token's start
    and the stream pointer is what was accepted since, in the raw buffer, and what
    was accepted and echoed, in the other; the token's length is one less than what
    was accepted, and asking for it is an error if nothing was.  If the scanner has
    looked ahead, the token's start is that of the token before. *)
Theorem token_text ops s t out t' new : text_rel s t -> run_all text_op ops t = Some (out, t') ->
  accepted t' = accepted t ++ new -> Z.of_nat (length new) <= 2 ^ 32 ->
  exists s', run_all run_op ops (start_token s) = Some (out, s') /\
    read_at (m_buf s') (m_tok_start s') (m_ptr s' - m_tok_start s') = Some new.*1 /\
    read_at (m_cpp_buf s') (m_cpp_tok_start s') (m_cpp_ptr s' - m_cpp_tok_start s') = Some (echoed new) /\
    yyLength s' = (if decide (new = []) then None else Some (Z.of_nat (length new) - 1)) /\
    get_tok_start s' = (if has_lookahead s then m_tok_start s else m_ptr s).
Proof.
  intros HR Ho Hnew Hlen. assert (text_rel (start_token s) t) as HR0 by (by destruct HR).
  destruct (run_all_refines ops (start_token s) t out t' HR0 Ho) as (s' & Hs & HR'). exists s'. split; [done|].
  apply run_all_marks in Hs. injection Hs as E1 E2 E3 E4 E5 E6 E7 E8. cbn in E1, E2, E3, E4, E5, E6, E7, E8.
  destruct HR as [_ P1 P2 _ _ _], HR' as [B1 B2 B3 B4 _ _]. rewrite Hnew in B1, B2, B3, B4. rewrite echoed_app in B3, B4. rewrite length_app in B2, B3.
  split_and!.
  - apply (read_at_app (accepted t).*1 _ (pending t')); [by rewrite B1, fmap_app, app_assoc|by rewrite length_fmap; lia|rewrite length_fmap; lia].
  - apply (read_at_app (echoed (accepted t)) _ (drop (length (echoed (accepted t) ++ echoed new)) (m_cpp_buf s'))); [|lia|lia].
    by rewrite app_assoc, <-B4, take_drop at 1.
  - unfold yyLength, asserting. destruct (decide (new = [])) as [->|Hne].
    + rewrite (proj2 (Z.ltb_ge _ _)); [done|]. cbn [length] in B2. lia.
    + assert (length new <> 0%nat) by (by destruct new). rewrite (proj2 (Z.ltb_lt _ _)) by lia. f_equal. rewrite uwrap_small; [lia|]. unfold ufits. lia.
  - unfold get_tok_start, has_lookahead. rewrite E7, E3, E1. done.
Qed.

(** [rtrim_loop] stops at the start or after the last byte that is not a space. *)
Lemma rtrim_loop_spec my_isspace b p : forall fuel, (p <= length b)%nat -> (p <= fuel)%nat ->
  exists q, rtrim_loop my_isspace fuel b (Z.of_nat p) = Some (Z.of_nat q) /\ (q <= p)%nat /\
    Forall (λ c, my_isspace c = true) (take (p - q) (drop q b)) /\
    (forall c, last (take q b) = Some c -> my_isspace c = false).
Proof.
  induction p as [|p IH]; intros fuel Hp Hf; [exists 0%nat; by destruct fuel|].
  destruct fuel as [|fuel]; [lia|]. destruct (lookup_lt_is_Some_2 b p) as [c Hc]; [lia|].
  cbn [rtrim_loop]. rewrite (proj2 (Z.ltb_lt _ _)) by lia. replace (Z.of_nat (S p) - 1) with (Z.of_nat p) by lia.
  rewrite char_at_lookup, Nat2Z.id, Hc by lia. cbn [mbind option_bind]. destruct (my_isspace c) eqn:Ec.
  - destruct (IH fuel) as (q & Hq & Hqp & Hs & Hl); [lia|lia|]. exists q. split_and!; [done|lia| |done].
    replace (S p - q)%nat with (S (p - q)) by lia. rewrite (take_S_r _ _ c) by (rewrite lookup_drop; by replace (q + (p - q))%nat with p by lia).
    apply Forall_app. by split; [|apply Forall_singleton].
  - exists (S p). split_and!; [done|lia|by rewrite Nat.sub_diag|]. intros c'. rewrite (take_S_r _ _ c Hc), last_snoc. by intros [= <-].
Qed.

(** Trimming ends, inside the buffer, and takes off exactly the spaces at the end of
    the pre-processed text: what is left is empty or does not end in a space. *)
Theorem get_cpp_ptr_rtrim_spec my_isspace s t : text_rel s t ->
  exists left spaces, echoed (accepted t) = left ++ spaces /\ get_cpp_ptr_rtrim my_isspace s = Some (Z.of_nat (length left)) /\
    Forall (λ c, my_isspace c = true) spaces /\ (forall c, last left = Some c -> my_isspace c = false).
Proof.
  intros [H1 H2 H3 H4 H5 _]. set (E := echoed (accepted t)) in *. pose proof (f_equal length H4) as Hl. rewrite length_take in Hl.
  destruct (rtrim_loop_spec my_isspace (m_cpp_buf s) (length E) (Z.to_nat (Z.of_nat (length E)))) as (q & Hq & Hqp & Hs & Hc); [lia|lia|].
  exists (take q E), (drop q E). split; [by rewrite take_drop|]. assert (take q E = take q (m_cpp_buf s)) as Hte by (rewrite <-H4, take_take; f_equal; lia).
  split_and!.
  - unfold get_cpp_ptr_rtrim. rewrite H3, Hq. rewrite length_take. do 2 f_equal. lia.
  - by rewrite <-H4, skipn_firstn_comm.
  - by rewrite Hte.
Qed.

(** [eof(n)] is documented to answer whether fewer than [n] characters are left; it
    also does so when exactly [n] are. *)
Lemma eof_n_exact n s : eof_n n s = true <-> m_end_of_query s - m_ptr s <= n.
Proof. unfold eof_n. rewrite Z.leb_le. lia. Qed.
End guarantees.

(** * A concrete query *)

(** [a/**/b ], of which the comment is not echoed; the last byte is the terminator. *)
Definition query : list Z := [97; 47; 42; 42; 47; 98; 32; 0].
Definition query_stream : Lex_input_stream :=
  mkInput query 0 7 0 0 0 (replicate 8 0) 0 0 0 0 true true NO_COMMENT NO_COMMENT (-1).
Definition query_text : text := mkText [] query true true.
Lemma query_rel : text_rel query_stream query_text.
Proof. by split. Qed.
Definition query_ops : list op := [Get; SaveState; SetEcho false; Skipn 4; RestoreState; Get; Get; Get; Unget].
Definition is_space (c : Z) : bool := c =? 32.

Lemma scanned_text_in_buffers_witness : exists s', run_all run_op query_ops query_stream = Some ([97; 98; 32; 0], s') /\
  read_at (m_cpp_buf s') 0 (m_cpp_ptr s') = Some [97; 98; 32].
Proof.
  destruct (scanned_text_in_buffers query_ops query_stream query_text [97; 98; 32; 0] _ query_rel eq_refl) as (s' & Hs & _ & Hr & _).
  exists s'. split; [exact Hs|exact Hr].
Defined.
Lemma token_text_witness : exists s', run_all run_op query_ops (start_token query_stream) = Some ([97; 98; 32; 0], s') /\
  read_at (m_cpp_buf s') (m_cpp_tok_start s') (m_cpp_ptr s' - m_cpp_tok_start s') = Some [97; 98; 32] /\ yyLength s' = Some 6.
Proof.
  destruct (token_text query_ops query_stream query_text [97; 98; 32; 0] _ _ query_rel eq_refl eq_refl ltac:(vm_compute; discriminate)) as (s' & Hs & _ & Hc & Hl & _).
  exists s'. split; [exact Hs|]. split; [exact Hc|exact Hl].
Defined.
(** [b ], all of it accepted. *)
Definition trim_stream : Lex_input_stream :=
  mkInput [98; 32; 0] 2 2 0 0 0 [98; 32; 0] 2 0 0 0 true true NO_COMMENT NO_COMMENT (-1).
Lemma trim_rel : text_rel trim_stream (mkText [(98, true); (32, true)] [0] true true).
Proof. by split. Qed.
Lemma get_cpp_ptr_rtrim_spec_witness : exists left spaces, [98; 32] = left ++ spaces /\
  Some 1 = Some (Z.of_nat (length left)) /\ Forall (λ c, is_space c = true) spaces.
Proof.
  destruct (get_cpp_ptr_rtrim_spec is_space _ _ trim_rel) as (l & sp & He & Hr & Hs & _). exists l, sp. split; [exact He|]. split; [|exact Hs].
  rewrite <-Hr. reflexivity.
Defined.
(** The mode must be the same: a character that was accepted in echo mode and given back
    in the other stays in the pre-processed buffer. *)
Example unget_after_mode_change :
  (match run_all run_op [Get; SetEcho false; Unget; SetEcho true; Get] query_stream with
   | Some (_, s) => Some (m_ptr s, take (Z.to_nat (m_cpp_ptr s)) (m_cpp_buf s)) | None => None end) = Some (1, [97; 97]).
Proof. reflexivity. Qed.
