(* ===== verification/SqlQueryTables.v ===== *)
(** [Query_tables_list] of [private/sql_lex.h]: the list of the tables of a statement
    with its own and its prelocking part, and the flags that say why the statement
    is unsafe to be logged as a statement and which kinds of tables it uses.

    A table is a number; [next_global] and [prev_global] are the two links of
    [SqlPList] ([TABLE_LIST **] is a slot: the [query_tables] member of an object, or
    the [next_global] member of a table). *)

From S2P Require Import Prelude SqlPList.

(** * The list of tables *)

(** The members of an object: [PFirst l] is the address of [query_tables] of object [l]. *)
Record Query_tables_list := mkQTL { query_tables : option nat; query_tables_last : pslot; query_tables_own_last : option pslot }.
Record qstore := mkQStore { qtables : gmap nat plinks; qlists : gmap nat Query_tables_list }.

Definition set_table (st : qstore) (t : nat) (k : plinks) : qstore := mkQStore (<[t := k]> (qtables st)) (qlists st).
Definition set_qlist (st : qstore) (l : nat) (o : Query_tables_list) : qstore := mkQStore (qtables st) (<[l := o]> (qlists st)).
Definition qread (st : qstore) (s : pslot) : option (option nat) :=
  match s with PFirst l => query_tables <$> qlists st !! l | PNext t => pl_next <$> qtables st !! t end.
Definition qwrite (st : qstore) (s : pslot) (p : option nat) : option qstore :=
  match s with
  | PFirst l => o ← qlists st !! l; Some (set_qlist st l (mkQTL p (query_tables_last o) (query_tables_own_last o)))
  | PNext t => k ← qtables st !! t; Some (set_table st t (mkPLinks p (pl_prev k)))
  end.

(** [*(table->prev_global= query_tables_last)= table;
    query_tables_last= &table->next_global;] *)
Definition add_to_query_tables (st : qstore) (l t : nat) : option qstore :=
  o ← qlists st !! l;
  k ← qtables st !! t;
  st ← qwrite (set_table st t (mkPLinks (pl_next k) (Some (query_tables_last o)))) (query_tables_last o) (Some t);
  o ← qlists st !! l;
  Some (set_qlist st l (mkQTL (query_tables o) (PNext t) (query_tables_own_last o))).
Definition requires_prelocking (o : Query_tables_list) : bool := bool_decide (is_Some (query_tables_own_last o)).
Definition mark_as_requiring_prelocking (st : qstore) (l : nat) (tables_own_last : option pslot) : option qstore :=
  o ← qlists st !! l; Some (set_qlist st l (mkQTL (query_tables o) (query_tables_last o) tables_own_last)).
Definition first_not_own_table (st : qstore) (l : nat) : option (option nat) :=
  o ← qlists st !! l; match query_tables_own_last o with Some s => qread st s | None => Some None end.
Definition chop_off_not_own_tables (st : qstore) (l : nat) : option qstore :=
  o ← qlists st !! l;
  match query_tables_own_last o with
  | Some s => st ← qwrite st s None; o ← qlists st !! l; Some (set_qlist st l (mkQTL (query_tables o) s None))
  | None => Some st
  end.
(** The object that [query_tables_last] is a member of; it is not a table's when the
    pointer is that of [query_tables]. *)
Definition last_table (st : qstore) (l : nat) : option (option nat) :=
  o ← qlists st !! l;
  match query_tables o with
  | None => Some None
  | Some _ => match query_tables_last o with PNext t => Some (Some t) | PFirst _ => None end
  end.
(** [*this= *state]. *)
Definition set_query_tables_list (st : qstore) (l state : nat) : option qstore :=
  o ← qlists st !! state; _ ← qlists st !! l; Some (set_qlist st l o).

(** * Why a statement is unsafe *)

Inductive enum_binlog_stmt_unsafe :=
  | BINLOG_STMT_UNSAFE_LIMIT | BINLOG_STMT_UNSAFE_INSERT_DELAYED | BINLOG_STMT_UNSAFE_SYSTEM_TABLE | BINLOG_STMT_UNSAFE_AUTOINC_COLUMNS
  | BINLOG_STMT_UNSAFE_UDF | BINLOG_STMT_UNSAFE_SYSTEM_VARIABLE | BINLOG_STMT_UNSAFE_SYSTEM_FUNCTION | BINLOG_STMT_UNSAFE_NONTRANS_AFTER_TRANS
  | BINLOG_STMT_UNSAFE_MULTIPLE_ENGINES_AND_SELF_LOGGING_ENGINE | BINLOG_STMT_UNSAFE_MIXED_STATEMENT | BINLOG_STMT_UNSAFE_INSERT_IGNORE_SELECT
  | BINLOG_STMT_UNSAFE_INSERT_SELECT_UPDATE | BINLOG_STMT_UNSAFE_WRITE_AUTOINC_SELECT | BINLOG_STMT_UNSAFE_REPLACE_SELECT
  | BINLOG_STMT_UNSAFE_CREATE_IGNORE_SELECT | BINLOG_STMT_UNSAFE_CREATE_REPLACE_SELECT | BINLOG_STMT_UNSAFE_CREATE_SELECT_AUTOINC
  | BINLOG_STMT_UNSAFE_UPDATE_IGNORE | BINLOG_STMT_UNSAFE_INSERT_TWO_KEYS | BINLOG_STMT_UNSAFE_AUTOINC_NOT_FIRST
  | BINLOG_STMT_UNSAFE_AUTOINC_LOCK_MODE | BINLOG_STMT_UNSAFE_SKIP_LOCKED.

#[export] Instance unsafe_eq_dec : EqDecision enum_binlog_stmt_unsafe.
Proof. solve_decision. Defined.

Definition all_unsafe : list enum_binlog_stmt_unsafe :=
  [BINLOG_STMT_UNSAFE_LIMIT; BINLOG_STMT_UNSAFE_INSERT_DELAYED; BINLOG_STMT_UNSAFE_SYSTEM_TABLE; BINLOG_STMT_UNSAFE_AUTOINC_COLUMNS;
   BINLOG_STMT_UNSAFE_UDF; BINLOG_STMT_UNSAFE_SYSTEM_VARIABLE; BINLOG_STMT_UNSAFE_SYSTEM_FUNCTION; BINLOG_STMT_UNSAFE_NONTRANS_AFTER_TRANS;
   BINLOG_STMT_UNSAFE_MULTIPLE_ENGINES_AND_SELF_LOGGING_ENGINE; BINLOG_STMT_UNSAFE_MIXED_STATEMENT; BINLOG_STMT_UNSAFE_INSERT_IGNORE_SELECT;
   BINLOG_STMT_UNSAFE_INSERT_SELECT_UPDATE; BINLOG_STMT_UNSAFE_WRITE_AUTOINC_SELECT; BINLOG_STMT_UNSAFE_REPLACE_SELECT;
   BINLOG_STMT_UNSAFE_CREATE_IGNORE_SELECT; BINLOG_STMT_UNSAFE_CREATE_REPLACE_SELECT; BINLOG_STMT_UNSAFE_CREATE_SELECT_AUTOINC;
   BINLOG_STMT_UNSAFE_UPDATE_IGNORE; BINLOG_STMT_UNSAFE_INSERT_TWO_KEYS; BINLOG_STMT_UNSAFE_AUTOINC_NOT_FIRST;
   BINLOG_STMT_UNSAFE_AUTOINC_LOCK_MODE; BINLOG_STMT_UNSAFE_SKIP_LOCKED].
(** The value of an enumerator: its position. *)
Fixpoint position {A} `{EqDecision A} (x : A) (l : list A) : Z := match l with [] => 0 | y :: l => if decide (x = y) then 0 else 1 + position x l end.
Definition unsafe_value (u : enum_binlog_stmt_unsafe) : Z := position u all_unsafe.
Definition BINLOG_STMT_UNSAFE_COUNT : Z := 22.
Definition BINLOG_STMT_UNSAFE_ALL_FLAGS : Z := u32 (1 .<< BINLOG_STMT_UNSAFE_COUNT) - 1.
Definition BINLOG_STMT_TYPE_ROW_INJECTION : Z := BINLOG_STMT_UNSAFE_COUNT.

(** The functions are on the member [binlog_stmt_flags]. *)
Definition get_stmt_unsafe_flags (flags : Z) : Z := flags .& BINLOG_STMT_UNSAFE_ALL_FLAGS.
Definition is_stmt_unsafe (flags : Z) : bool := negb (get_stmt_unsafe_flags flags =? 0).
Definition is_stmt_unsafe_of (unsafe : enum_binlog_stmt_unsafe) (flags : Z) : bool := c_true (flags .& (1 .<< unsafe_value unsafe)).
Definition set_stmt_unsafe (unsafe_type : enum_binlog_stmt_unsafe) (flags : Z) : Z := flags .| u32 (1 .<< unsafe_value unsafe_type).
Definition set_stmt_unsafe_flags (new : Z) (flags : Z) : option Z :=
  asserting (new .& unot 32 BINLOG_STMT_UNSAFE_ALL_FLAGS =? 0) (flags .| new).
Definition clear_stmt_unsafe (flags : Z) : Z := flags .& unot 32 BINLOG_STMT_UNSAFE_ALL_FLAGS.
Definition is_stmt_row_injection (flags : Z) : bool := c_true (flags .& u32 (1 .<< BINLOG_STMT_TYPE_ROW_INJECTION)).
Definition set_stmt_row_injection (flags : Z) : Z := flags .| u32 (1 .<< BINLOG_STMT_TYPE_ROW_INJECTION).

(** * Which tables a statement uses *)

Inductive enum_stmt_accessed_table :=
  | STMT_READS_TRANS_TABLE | STMT_READS_NON_TRANS_TABLE | STMT_READS_TEMP_TRANS_TABLE | STMT_READS_TEMP_NON_TRANS_TABLE
  | STMT_WRITES_TRANS_TABLE | STMT_WRITES_NON_TRANS_TABLE | STMT_WRITES_TEMP_TRANS_TABLE | STMT_WRITES_TEMP_NON_TRANS_TABLE.

#[export] Instance accessed_eq_dec : EqDecision enum_stmt_accessed_table.
Proof. solve_decision. Defined.

Definition access_value (a : enum_stmt_accessed_table) : Z :=
  match a with
  | STMT_READS_TRANS_TABLE => 0 | STMT_READS_NON_TRANS_TABLE => 1 | STMT_READS_TEMP_TRANS_TABLE => 2 | STMT_READS_TEMP_NON_TRANS_TABLE => 3
  | STMT_WRITES_TRANS_TABLE => 4 | STMT_WRITES_NON_TRANS_TABLE => 5 | STMT_WRITES_TEMP_TRANS_TABLE => 6 | STMT_WRITES_TEMP_NON_TRANS_TABLE => 7
  end.
Definition STMT_ACCESS_TABLE_COUNT : Z := 8.
(** [1U << a]. *)
Definition access_bit (a : enum_stmt_accessed_table) : Z := u32 (1 .<< access_value a).

(** The functions are on the member [stmt_accessed_table_flag]. *)
Definition set_stmt_accessed_table (a : enum_stmt_accessed_table) (flag : Z) : Z := flag .| access_bit a.
Definition stmt_accessed_table (a : enum_stmt_accessed_table) (flag : Z) : bool := negb (flag .& access_bit a =? 0).
Definition stmt_accessed_trans_temp_table (flag : Z) : bool :=
  negb (flag .& (access_bit STMT_READS_TEMP_TRANS_TABLE .| access_bit STMT_WRITES_TEMP_TRANS_TABLE) =? 0).
Definition stmt_accessed_non_trans_temp_table (flag : Z) : bool :=
  negb (flag .& (access_bit STMT_READS_TEMP_NON_TRANS_TABLE .| access_bit STMT_WRITES_TEMP_NON_TRANS_TABLE) =? 0).
Definition stmt_accessed_temp_table (flag : Z) : bool := stmt_accessed_non_trans_temp_table flag || stmt_accessed_trans_temp_table flag.
Definition stmt_writes_to_non_temp_table (flag : Z) : bool :=
  c_true (flag .& (access_bit STMT_WRITES_TRANS_TABLE .| access_bit STMT_WRITES_NON_TRANS_TABLE)).

Definition BINLOG_DIRECT_ON : Z := 0xF0.
Definition BINLOG_DIRECT_OFF : Z := 0xF.
Definition TRX_CACHE_EMPTY : Z := 0x33.
Definition TRX_CACHE_NOT_EMPTY : Z := 0xCC.
Definition IL_LT_REPEATABLE : Z := 0xAA.
Definition IL_GTE_REPEATABLE : Z := 0x55.
Definition ISO_REPEATABLE_READ : Z := 2.

Definition unsafe_condition (binlog_direct trx_cache_is_not_empty : bool) (tx_isolation : Z) : Z :=
  (if binlog_direct then BINLOG_DIRECT_ON else BINLOG_DIRECT_OFF) .&
  (if trx_cache_is_not_empty then TRX_CACHE_NOT_EMPTY else TRX_CACHE_EMPTY) .&
  (if ISO_REPEATABLE_READ <=? tx_isolation then IL_GTE_REPEATABLE else IL_LT_REPEATABLE).
(** [binlog_unsafe_map], an array of 256 entries, is filled in elsewhere; an access
    outside of it is [None]. *)
Definition is_mixed_stmt_unsafe (binlog_unsafe_map : list Z) (in_multi_stmt_transaction_mode binlog_direct trx_cache_is_not_empty : bool)
    (tx_isolation flag : Z) : option bool :=
  unsafe ← (if in_multi_stmt_transaction_mode
            then m ← binlog_unsafe_map !! Z.to_nat flag; Some (c_true (m .& unsafe_condition binlog_direct trx_cache_is_not_empty tx_isolation))
            else Some false);
  Some (if stmt_accessed_table STMT_WRITES_NON_TRANS_TABLE flag && stmt_accessed_table STMT_READS_TRANS_TABLE flag && (tx_isolation <? ISO_REPEATABLE_READ) then true
        else if stmt_accessed_table STMT_WRITES_TEMP_NON_TRANS_TABLE flag && stmt_accessed_table STMT_READS_TRANS_TABLE flag && (tx_isolation <? ISO_REPEATABLE_READ) then true
        else unsafe).

(** * The list refines a sequence in two parts *)

Section tables.
Implicit Types (st : qstore) (own others : list nat) (marked : bool).

(** Object [l] holds the tables [own ++ others]; [others] are those for prelocking. *)
Definition tables_rep st (l : nat) own others marked : Prop :=
  exists o, qlists st !! l = Some o /\
    pseg (qtables st) (PFirst l) (query_tables o) (own ++ others) (query_tables_last o) None /\ NoDup (own ++ others) /\
    query_tables_own_last o = (if marked then Some (pend (PFirst l) own) else None) /\ (marked = false -> others = []).

Lemma pseg_pend h s p ns s' p' : pseg h s p ns s' p' -> s' = pend s ns.
Proof. revert s p. induction ns as [|a ns IH]; intros s p; [by intros [-> _]|]. intros (_ & nx & _ & Hd). cbn. by eapply IH. Qed.

Lemma qwrite_seg st l o ns s p q :
  qlists st !! l = Some o -> pseg (qtables st) (PFirst l) (query_tables o) ns s p -> NoDup ns ->
  exists st' f, qwrite st s q = Some st' /\ qlists st' = <[l := mkQTL f (query_tables_last o) (query_tables_own_last o)]> (qlists st) /\
    pseg (qtables st') (PFirst l) f ns s q /\ (forall a, a ∉ ns -> qtables st' !! a = qtables st !! a).
Proof.
  intros Hl. destruct (exists_last_or_nil ns) as [->|(ns' & a & ->)].
  - intros [<- <-] _. cbn. rewrite Hl. cbn. by exists (set_qlist st l (mkQTL q (query_tables_last o) (query_tables_own_last o))), q.
  - intros (s1 & Hd & Ha & ->)%pseg_snoc (Hnd & Hdis & _)%NoDup_app. cbn. rewrite Ha. cbn.
    exists (set_table st a (mkPLinks q (Some s1))), (query_tables o). split; [done|]. cbn.
    split; [rewrite insert_id; [done|]; by destruct o|]. split.
    + apply pseg_snoc. exists s1. rewrite lookup_insert_eq. split; [|done]. apply pseg_frame with (qtables st); [|done].
      intros b Hb. apply lookup_insert_ne. intros ->. apply (Hdis b Hb). left.
    + intros b Hb. apply lookup_insert_ne. intros ->. apply Hb, elem_of_app. right. left.
Qed.

Lemma qread_seg st l o ns s p :
  qlists st !! l = Some o -> pseg (qtables st) (PFirst l) (query_tables o) ns s p -> qread st s = Some p.
Proof.
  intros Hl. destruct (exists_last_or_nil ns) as [->|(ns' & a & ->)].
  - intros [<- <-]. cbn. by rewrite Hl.
  - intros (s1 & Hd & Ha & ->)%pseg_snoc. cbn. by rewrite Ha.
Qed.

Lemma add_to_query_tables_spec st l own others marked t k : tables_rep st l own others marked ->
  qtables st !! t = Some (mkPLinks None k) -> t ∉ own ++ others ->
  exists st', add_to_query_tables st l t = Some st' /\
    tables_rep st' l (if marked then own else own ++ [t]) (if marked then others ++ [t] else others) marked /\
    (forall a, a ∉ own ++ others -> a <> t -> qtables st' !! a = qtables st !! a) /\
    (forall l', l' <> l -> qlists st' !! l' = qlists st !! l').
Proof.
  intros (o & Hl & Hseg & Hnd & Hown & Hm) Ht Hin. unfold add_to_query_tables. rewrite Hl, Ht. cbn [mbind option_bind pl_next].
  set (st1 := set_table st t _).
  assert (pseg (qtables st1) (PFirst l) (query_tables o) (own ++ others) (query_tables_last o) None) as Hseg1.
  { apply pseg_frame with (qtables st); [|done]. intros a Ha. apply lookup_insert_ne. by intros ->. }
  destruct (qwrite_seg st1 l o (own ++ others) _ None (Some t) Hl Hseg1 Hnd) as (st2 & f & -> & Hl2 & Hseg2 & Hfr).
  cbn [mbind option_bind]. rewrite Hl2, lookup_insert_eq. cbn [mbind option_bind query_tables query_tables_own_last].
  eexists. split; [done|]. split.
  - exists (mkQTL f (PNext t) (query_tables_own_last o)). cbn [set_qlist qlists qtables query_tables query_tables_last query_tables_own_last].
    rewrite lookup_insert_eq. split; [done|].
    replace ((if marked then own else own ++ [t]) ++ (if marked then others ++ [t] else others)) with ((own ++ others) ++ [t]).
    + split; [|split; [|split; [|by destruct marked]]].
      * apply pseg_snoc. exists (query_tables_last o). split; [done|]. split; [|done]. rewrite Hfr by done. apply lookup_insert_eq.
      * apply NoDup_app. split; [done|]. split; [|apply NoDup_singleton]. by intros b Hb ->%list_elem_of_singleton.
      * rewrite Hown. by destruct marked.
    + destruct marked; [by rewrite app_assoc|]. by rewrite Hm, !app_nil_r.
  - split; [intros a Ha Hat; cbn [set_qlist qtables]; rewrite Hfr by done; by apply lookup_insert_ne|].
    intros l' Hl'. cbn [set_qlist qlists]. by rewrite lookup_insert_ne, Hl2, lookup_insert_ne.
Qed.

Lemma mark_spec st l own others marked : tables_rep st l own others marked ->
  exists o st', qlists st !! l = Some o /\ mark_as_requiring_prelocking st l (Some (query_tables_last o)) = Some st' /\
    tables_rep st' l (own ++ others) [] true /\ qtables st' = qtables st /\
    (forall l', l' <> l -> qlists st' !! l' = qlists st !! l').
Proof.
  intros (o & Hl & Hseg & Hnd & Hown & Hm). exists o. unfold mark_as_requiring_prelocking. rewrite Hl. eexists. split; [done|]. split; [done|].
  split; [|split; [done|]; intros l' Hl'; by apply lookup_insert_ne].
  exists (mkQTL (query_tables o) (query_tables_last o) (Some (query_tables_last o))). cbn. rewrite lookup_insert_eq, app_nil_r.
  split_and!; try done. f_equal. by eapply pseg_pend.
Qed.

Lemma chop_tables_spec st l own others marked : tables_rep st l own others marked ->
  exists st', chop_off_not_own_tables st l = Some st' /\ tables_rep st' l own [] false /\
    (forall a, a ∉ own -> qtables st' !! a = qtables st !! a) /\
    (forall l', l' <> l -> qlists st' !! l' = qlists st !! l').
Proof.
  intros (o & Hl & Hseg & Hnd & Hown & Hm). unfold chop_off_not_own_tables. rewrite Hl. cbn [mbind option_bind]. rewrite Hown. destruct marked.
  - apply pseg_app in Hseg as (s1 & p1 & Hs1 & _). pose proof (pseg_pend _ _ _ _ _ _ Hs1) as Hp. subst s1. apply NoDup_app in Hnd as (Hnd & _ & _).
    destruct (qwrite_seg st l o own _ p1 None Hl Hs1 Hnd) as (st2 & f & -> & Hl2 & Hseg2 & Hfr). cbn [mbind option_bind]. rewrite Hl2, lookup_insert_eq.
    cbn [mbind option_bind query_tables]. eexists. split; [done|].
    split; [|split; [done|]; intros l' Hl'; cbn [set_qlist qlists]; by rewrite lookup_insert_ne, Hl2, lookup_insert_ne].
    exists (mkQTL f (pend (PFirst l) own) None). cbn. rewrite lookup_insert_eq, app_nil_r. by split_and!.
  - rewrite Hm in * by done. exists st. split; [done|]. split; [|done]. exists o. by split_and!.
Qed.

Lemma first_not_own_spec st l own others marked : tables_rep st l own others marked -> first_not_own_table st l = Some (if marked then head others else None).
Proof.
  intros (o & Hl & Hseg & Hnd & Hown & Hm). unfold first_not_own_table. rewrite Hl. cbn [mbind option_bind]. rewrite Hown. destruct marked; [|done].
  apply pseg_app in Hseg as (s1 & p1 & Hs1 & Hs2). pose proof (pseg_pend _ _ _ _ _ _ Hs1) as Hp. subst s1.
  rewrite (qread_seg st l o own _ p1) by done. f_equal. apply pseg_ptr in Hs2. by destruct others.
Qed.
Lemma last_table_spec st l own others marked : tables_rep st l own others marked -> last_table st l = Some (last (own ++ others)).
Proof.
  intros (o & Hl & Hseg & Hnd & Hown & Hm). unfold last_table. rewrite Hl. cbn [mbind option_bind]. destruct (exists_last_or_nil (own ++ others)) as [E|(ns & a & E)]; rewrite E in *.
  - by destruct Hseg as [_ ->].
  - rewrite last_snoc. pose proof Hseg as Hp. apply pseg_ptr in Hp. apply pseg_snoc in Hseg as (s1 & _ & _ & ->). rewrite Hp. by destruct ns.
Qed.

(** The operations, the last but one with the argument that its callers pass. *)
Inductive qop := AddTable (t : nat) | MarkPrelocking | ChopOff.
Definition run_qop st (l : nat) (op : qop) : option qstore :=
  match op with
  | AddTable t => add_to_query_tables st l t
  | MarkPrelocking => o ← qlists st !! l; mark_as_requiring_prelocking st l (Some (query_tables_last o))
  | ChopOff => chop_off_not_own_tables st l
  end.
Definition run_qops (l : nat) : list qop -> qstore -> option qstore :=
  fix go ops st := match ops with [] => Some st | op :: ops => st ← run_qop st l op; go ops st end.
Definition added (ops : list qop) : list nat := omap (λ op, match op with AddTable t => Some t | _ => None end) ops.

(** What they do to the two parts. *)
Definition qop_spec '(own, others, marked) (op : qop) : list nat * list nat * bool :=
  match op with
  | AddTable t => if (marked : bool) then (own, others ++ [t], true) else (own ++ [t], others, false)
  | MarkPrelocking => (own ++ others, [], true)
  | ChopOff => (own, [], false)
  end.

Lemma run_qops_refines l ops : forall st own others marked, tables_rep st l own others marked ->
  (forall t, t ∈ added ops -> exists k, qtables st !! t = Some (mkPLinks None k)) -> NoDup (added ops) ->
  (forall t, t ∈ added ops -> t ∉ own ++ others) ->
  exists st' own' others' marked', run_qops l ops st = Some st' /\ foldl qop_spec (own, others, marked) ops = (own', others', marked') /\
    tables_rep st' l own' others' marked' /\
    (forall a, a ∉ own ++ others -> a ∉ added ops -> qtables st' !! a = qtables st !! a) /\
    (forall l', l' <> l -> qlists st' !! l' = qlists st !! l').
Proof.
  induction ops as [|op ops IH]; intros st own others marked HR Hfresh Hnd Hout; [by exists st, own, others, marked|].
  cbn [run_qops foldl]. destruct op as [t| |]; cbn [run_qop qop_spec]; cbn [added omap list_omap] in *.
  - destruct (Hfresh t) as [k Hk]; [left|]. apply list.NoDup_cons in Hnd as [Htn Hnd].
    destruct (add_to_query_tables_spec st l own others marked t k HR Hk) as (st1 & Hs1 & HR1 & Hfr & Hfl); [apply Hout; left|]. rewrite Hs1. cbn [mbind option_bind].
    destruct (IH st1 _ _ _ HR1) as (st' & ow & ot & m & Hr & Hf & HR' & Hft & Hfl'); [|done| |].
    + intros t' Ht'. assert (t' <> t) by (by intros ->). rewrite Hfr by (done || apply Hout; by right). apply Hfresh. by right.
    + intros t' Ht'. assert (t' <> t) by (by intros ->). assert (t' ∉ own ++ others) as Hn by (apply Hout; by right). destruct marked; set_solver.
    + exists st', ow, ot, m. split; [done|]. split; [by destruct marked|]. split; [done|]. split; [|intros l' Hl'; by rewrite Hfl', Hfl].
      intros a Ha Hadd. apply not_elem_of_cons in Hadd as [Hat Hadd]. rewrite Hft, Hfr; [done|done|done| |done]. destruct marked; set_solver.
  - destruct (mark_spec st l own others marked HR) as (o & st1 & Ho & Hs1 & HR1 & Hq & Hfl). rewrite Ho. cbn [mbind option_bind]. rewrite Hs1. cbn [mbind option_bind].
    destruct (IH st1 _ _ _ HR1) as (st' & ow & ot & m & Hr & Hf & HR' & Hft & Hfl'); [by rewrite Hq|done|by rewrite app_nil_r|].
    exists st', ow, ot, m. rewrite app_nil_r, Hq in Hft. split_and!; [done..|intros l' Hl'; by rewrite Hfl', Hfl].
  - destruct (chop_tables_spec st l own others marked HR) as (st1 & Hs1 & HR1 & Hfr & Hfl). rewrite Hs1. cbn [mbind option_bind].
    destruct (IH st1 _ _ _ HR1) as (st' & ow & ot & m & Hr & Hf & HR' & Hft & Hfl'); [|done| |].
    + intros t' Ht'. rewrite Hfr; [by apply Hfresh|]. specialize (Hout t' Ht'). set_solver.
    + intros t' Ht'. specialize (Hout t' Ht'). set_solver.
    + exists st', ow, ot, m. split_and!; [done..| |intros l' Hl'; by rewrite Hfl', Hfl].
      intros a Ha Hadd. rewrite Hft, Hfr; [done| |rewrite app_nil_r|done]; set_solver.
Qed.

(** The list of the tables of a statement is two sequences, its own tables and
    those added for prelocking: every sequence of additions of new tables, marks and
    chops is safe and does to the pointers what it does to the two sequences; the
    first table that is not its own and the last table are read off from them, and
    a chop gives back the own tables, to which others can be added again. *)
Theorem query_tables_refine st l own others marked ops : tables_rep st l own others marked ->
  (forall t, t ∈ added ops -> exists k, qtables st !! t = Some (mkPLinks None k)) -> NoDup (added ops) ->
  (forall t, t ∈ added ops -> t ∉ own ++ others) ->
  exists st' own' others' marked', run_qops l ops st = Some st' /\ foldl qop_spec (own, others, marked) ops = (own', others', marked') /\
    tables_rep st' l own' others' marked' /\
    first_not_own_table st' l = Some (if marked' then head others' else None) /\ last_table st' l = Some (last (own' ++ others')).
Proof.
  intros HR Hfresh Hnd Hout. destruct (run_qops_refines l ops st own others marked HR Hfresh Hnd Hout) as (st' & ow & ot & m & Hr & Hf & HR' & _).
  exists st', ow, ot, m. split_and!; [done..|by eapply first_not_own_spec|by eapply last_table_spec].
Qed.

(** Saving the list in another object, using the first one from empty for other
    tables, and copying the saved one back restores the list, with all of its
    tables and links. *)
Theorem backup_restore_roundtrip st l b bo own others marked ops : tables_rep st l own others marked -> qlists st !! b = Some bo -> b <> l ->
  (forall t, t ∈ added ops -> exists k, qtables st !! t = Some (mkPLinks None k)) -> NoDup (added ops) ->
  (forall t, t ∈ added ops -> t ∉ own ++ others) ->
  exists st1 st2 st3, set_query_tables_list st b l = Some st1 /\
    run_qops l ops (set_qlist st1 l (mkQTL None (PFirst l) None)) = Some st2 /\
    set_query_tables_list st2 l b = Some st3 /\ tables_rep st3 l own others marked.
Proof.
  intros (o & Hl & Hseg & Hnd & Hown & Hm) Hb Hne Hfresh Hndo Hout. set (st1 := set_qlist st b o). set (st1' := set_qlist st1 l (mkQTL None (PFirst l) None)).
  assert (tables_rep st1' l [] [] false) as HR1.
  { exists (mkQTL None (PFirst l) None). cbn. rewrite lookup_insert_eq. split_and!; try done. constructor. }
  destruct (run_qops_refines l ops st1' [] [] false HR1) as (st2 & ow & ot & m & Hr & _ & HR2 & Hft & Hfl); [done|done|set_solver|].
  assert (qlists st2 !! b = Some o) as Hb2 by (rewrite Hfl by done; cbn; by rewrite lookup_insert_ne, lookup_insert_eq).
  destruct HR2 as (o2 & Hl2 & _).
  exists st1, st2, (set_qlist st2 l o). split; [unfold set_query_tables_list; rewrite Hl, Hb; done|]. split; [done|].
  split; [unfold set_query_tables_list; rewrite Hb2, Hl2; done|]. exists o. cbn. rewrite lookup_insert_eq. split; [done|]. split; [|done].
  apply pseg_frame with (qtables st); [|done]. intros a Ha. apply Hft; [set_solver|]. intros Hadd. by apply (Hout a Hadd).
Qed.
End tables.

(** * The flags are sets *)

Section flags.
Implicit Types (u : enum_binlog_stmt_unsafe) (a : enum_stmt_accessed_table).

Lemma unsafe_value_range u : 0 <= unsafe_value u < 22.
Proof. destruct u; vm_compute; split; congruence. Qed.
Lemma unsafe_value_inj u u' : unsafe_value u = unsafe_value u' -> u = u'.
Proof. intros E. assert (nth_error all_unsafe (Z.to_nat (unsafe_value u)) = nth_error all_unsafe (Z.to_nat (unsafe_value u'))) as H by (by rewrite E). by destruct u, u'. Qed.
Lemma unsafe_value_surj i : 0 <= i < 22 -> exists u, unsafe_value u = i.
Proof.
  intros Hi. destruct (nth_error all_unsafe (Z.to_nat i)) as [u|] eqn:E; [|apply nth_error_None in E; cbn in E; lia]. exists u.
  assert (i ∈ Z.of_nat <$> seq 0 22) as Hin by (apply list_elem_of_fmap; exists (Z.to_nat i); rewrite elem_of_seq; lia).
  cbn in Hin. repeat (apply elem_of_cons in Hin as [->|Hin]; [vm_compute in E; injection E as <-; reflexivity|]). by apply not_elem_of_nil in Hin.
Qed.
Lemma bit_of_unsafe u : u32 (1 .<< unsafe_value u) = 2 ^ unsafe_value u.
Proof. by destruct u. Qed.

(** [flags] holds the set [U] of the types and whether the statement is a row injection. *)
Definition flags_rep (flags : Z) (U : enum_binlog_stmt_unsafe -> bool) (row : bool) : Prop :=
  0 <= flags /\ (forall u, Z.testbit flags (unsafe_value u) = U u) /\ forall i, 22 <= i -> Z.testbit flags i = row && (i =? 22).

Inductive flag_op := SetUnsafe (u : enum_binlog_stmt_unsafe) | SetUnsafeFlags (new : Z) | ClearUnsafe | SetRowInjection.
Definition run_flag_op (flags : Z) (op : flag_op) : option Z :=
  match op with
  | SetUnsafe u => Some (set_stmt_unsafe u flags)
  | SetUnsafeFlags new => set_stmt_unsafe_flags new flags
  | ClearUnsafe => Some (clear_stmt_unsafe flags)
  | SetRowInjection => Some (set_stmt_row_injection flags)
  end.
Definition flag_op_spec '(U, row) (op : flag_op) : (enum_binlog_stmt_unsafe -> bool) * bool :=
  match op with
  | SetUnsafe u => (λ u', bool_decide (u' = u) || U u', row : bool)
  | SetUnsafeFlags new => (λ u, Z.testbit new (unsafe_value u) || U u, row)
  | ClearUnsafe => (λ _, false, row)
  | SetRowInjection => (U, true)
  end.
Definition run_flag_ops : list flag_op -> Z -> option Z :=
  fix go ops flags := match ops with [] => Some flags | op :: ops => flags ← run_flag_op flags op; go ops flags end.
Definition flag_op_ok (op : flag_op) : Prop := match op with SetUnsafeFlags new => 0 <= new < 2 ^ 22 | _ => True end.

Lemma unot_all i : 0 <= i -> Z.testbit (unot 32 BINLOG_STMT_UNSAFE_ALL_FLAGS) i = (22 <=? i) && (i <? 32).
Proof.
  intros Hi. rewrite unot_testbit by lia. change BINLOG_STMT_UNSAFE_ALL_FLAGS with (Z.ones 22). rewrite Z.testbit_ones by lia.
  destruct (Z.ltb_spec i 22), (Z.ltb_spec i 32), (Z.leb_spec 22 i), (Z.leb_spec 0 i); cbn; lia || done.
Qed.
Lemma all_testbit i : 0 <= i -> Z.testbit BINLOG_STMT_UNSAFE_ALL_FLAGS i = (i <? 22).
Proof. intros Hi. change BINLOG_STMT_UNSAFE_ALL_FLAGS with (Z.ones 22). rewrite Z.testbit_ones by lia. by rewrite (proj2 (Z.leb_le 0 i)). Qed.

Lemma run_flag_op_refines flags U row op : flags_rep flags U row -> flag_op_ok op ->
  exists flags', run_flag_op flags op = Some flags' /\ flags_rep flags' (flag_op_spec (U, row) op).1 (flag_op_spec (U, row) op).2.
Proof.
  intros (H0 & HU & Hr) Hok. destruct op as [u|new| |]; cbn [run_flag_op flag_op_spec fst snd].
  - eexists. split; [done|]. unfold set_stmt_unsafe. rewrite bit_of_unsafe. pose proof (unsafe_value_range u). split; [|split].
    + apply Z.lor_nonneg. split; [done|apply Z.pow_nonneg; lia].
    + intros u'. rewrite Z.lor_spec, HU, pow2_testbit by lia. destruct (Z.eqb_spec (unsafe_value u') (unsafe_value u)) as [->%unsafe_value_inj|Hn].
      * by rewrite bool_decide_true, orb_true_r.
      * rewrite bool_decide_false by congruence. by rewrite orb_false_r.
    + intros i Hi. rewrite Z.lor_spec, Hr, pow2_testbit by lia. rewrite (proj2 (Z.eqb_neq i (unsafe_value u))) by lia. by rewrite orb_false_r.
  - cbn in Hok. assert (forall i, 22 <= i -> Z.testbit new i = false) as Hhi by (intros i Hi; apply (ufits_testbit 22); [done|lia]).
    assert (new .& unot 32 BINLOG_STMT_UNSAFE_ALL_FLAGS = 0) as E.
    { apply Z.bits_inj'. intros i Hi. rewrite Z.land_spec, Z.bits_0, unot_all by done. destruct (Z.leb_spec 22 i); [by rewrite Hhi|by rewrite andb_false_r]. }
    unfold set_stmt_unsafe_flags. rewrite E. eexists. split; [done|]. split; [apply Z.lor_nonneg; lia|]. split.
    + intros u. by rewrite Z.lor_spec, HU, orb_comm.
    + intros i Hi. by rewrite Z.lor_spec, Hr, Hhi, orb_false_r.
  - eexists. split; [done|]. unfold clear_stmt_unsafe. split; [|split].
    + apply Z.land_nonneg. by left.
    + intros u. pose proof (unsafe_value_range u). rewrite Z.land_spec, unot_all, (proj2 (Z.leb_gt 22 _)) by lia. by rewrite andb_false_r.
    + intros i Hi. rewrite Z.land_spec, Hr, unot_all, (proj2 (Z.leb_le 22 i)) by lia. destruct row, (Z.eqb_spec i 22) as [->|]; done.
  - eexists. split; [done|]. unfold set_stmt_row_injection. change (u32 (1 .<< BINLOG_STMT_TYPE_ROW_INJECTION)) with (2 ^ 22). split; [apply Z.lor_nonneg; lia|]. split.
    + intros u. pose proof (unsafe_value_range u). rewrite Z.lor_spec, HU, pow2_testbit, (proj2 (Z.eqb_neq (unsafe_value u) 22)) by lia. by rewrite orb_false_r.
    + intros i Hi. rewrite Z.lor_spec, Hr, pow2_testbit by lia. by destruct row, (i =? 22).
Qed.

Lemma run_flag_ops_refines ops : forall flags U row, flags_rep flags U row -> Forall flag_op_ok ops ->
  exists flags', run_flag_ops ops flags = Some flags' /\ flags_rep flags' (foldl flag_op_spec (U, row) ops).1 (foldl flag_op_spec (U, row) ops).2.
Proof.
  induction ops as [|op ops IH]; intros flags U row HR Hok; [by exists flags|]. apply Forall_cons in Hok as [Hop Hok]. cbn [run_flag_ops foldl].
  destruct (run_flag_op_refines flags U row op HR Hop) as (f1 & -> & HR1). cbn [mbind option_bind].
  destruct (flag_op_spec (U, row) op) as [U1 row1] eqn:E. cbn [fst snd] in HR1. by apply IH.
Qed.

(** The flag word of a statement is a set of reasons for being unsafe and, apart
    from it, whether the statement is a row injection: whatever is set, in any order,
    and cleared, the tests answer for that set; clearing the reasons keeps the other
    flag, and no reason touches another. *)
Theorem unsafe_flags_are_a_set ops : Forall flag_op_ok ops ->
  exists flags U row, run_flag_ops ops 0 = Some flags /\ foldl flag_op_spec (λ _, false, false) ops = (U, row) /\
    (forall u, is_stmt_unsafe_of u flags = U u) /\ (is_stmt_unsafe flags = true <-> exists u, U u = true) /\
    is_stmt_row_injection flags = row /\ 0 <= get_stmt_unsafe_flags flags < 2 ^ 22.
Proof.
  intros Hok. destruct (run_flag_ops_refines ops 0 (λ _, false) false) as (flags & Hr & HR); [split; [lia|split; intros; by rewrite Z.bits_0]|done|].
  destruct (foldl _ _ ops) as [U row]. cbn [fst snd] in HR. destruct HR as (H0 & HU & Hrow). exists flags, U, row.
  assert (forall i, 0 <= i -> Z.testbit (get_stmt_unsafe_flags flags) i = Z.testbit flags i && (i <? 22)) as Hget.
  { intros i Hi. unfold get_stmt_unsafe_flags. by rewrite Z.land_spec, all_testbit. }
  split_and!; try done.
  - intros u. pose proof (unsafe_value_range u). unfold is_stmt_unsafe_of. by rewrite shiftl_1_l, c_true_land_pow2, HU by lia.
  - unfold is_stmt_unsafe. rewrite negb_true_iff, Z.eqb_neq. split.
    + intros Hne. destruct (existsb U all_unsafe) eqn:E; [apply existsb_exists in E as (u & _ & Hu); by exists u|].
      exfalso. apply Hne, Z.bits_inj'. intros i Hi. rewrite Hget, Z.bits_0 by done. destruct (Z.ltb_spec i 22); [|by rewrite andb_false_r].
      destruct (unsafe_value_surj i) as [u <-]; [lia|]. rewrite HU, andb_true_r. apply not_true_is_false. intros Hu.
      apply not_true_iff_false in E. apply E, existsb_exists. exists u. split; [by destruct u; cbn; auto 30|done].
    + intros (u & Hu) E. pose proof (unsafe_value_range u). pose proof (Hget (unsafe_value u) ltac:(lia)) as Hb. rewrite E, Z.bits_0, HU, Hu, (proj2 (Z.ltb_lt _ _)) in Hb by lia. done.
  - unfold is_stmt_row_injection. change (u32 (1 .<< BINLOG_STMT_TYPE_ROW_INJECTION)) with (2 ^ 22). rewrite c_true_land_pow2, Hrow by lia. by rewrite andb_true_r.
  - apply Z.land_nonneg. by right.
  - apply testbit_ufits; [lia|apply Z.land_nonneg; by right|]. intros i Hi. rewrite Hget, (proj2 (Z.ltb_ge _ _)) by lia. apply andb_false_r.
Qed.
End flags.

Section accesses.
Implicit Types (a : enum_stmt_accessed_table) (accesses : list enum_stmt_accessed_table).

(** The flag after the tables [accesses] are about to be used. *)
Definition accessed accesses : Z := foldl (λ flag a, set_stmt_accessed_table a flag) 0 accesses.

Lemma access_value_range a : 0 <= access_value a < 8.
Proof. destruct a; cbn; lia. Qed.
Lemma access_value_inj a a' : access_value a = access_value a' -> a = a'.
Proof. by destruct a, a'. Qed.
Lemma access_bit_pow2 a : access_bit a = 2 ^ access_value a.
Proof. by destruct a. Qed.

Lemma accessed_snoc accesses a : accessed (accesses ++ [a]) = accessed accesses .| 2 ^ access_value a.
Proof. unfold accessed. rewrite foldl_app. cbn [foldl]. unfold set_stmt_accessed_table. by rewrite access_bit_pow2. Qed.
Lemma accessed_range accesses : ufits 8 (accessed accesses).
Proof.
  induction accesses as [|a accesses IH] using rev_ind; [by vm_compute|]. rewrite accessed_snoc. apply ufits_lor; [lia|done|].
  pose proof (access_value_range a). split; [apply Z.pow_nonneg; lia|apply Z.pow_lt_mono_r; lia].
Qed.
Lemma accessed_testbit accesses a : Z.testbit (accessed accesses) (access_value a) = bool_decide (a ∈ accesses).
Proof.
  induction accesses as [|b accesses IH] using rev_ind; [apply Z.bits_0|]. pose proof (access_value_range b). rewrite accessed_snoc, Z.lor_spec, IH, pow2_testbit by lia.
  destruct (Z.eqb_spec (access_value a) (access_value b)) as [->%access_value_inj|Hn].
  - rewrite orb_true_r, bool_decide_true; [done|]. apply elem_of_app. right. left.
  - rewrite orb_false_r. apply bool_decide_ext. rewrite elem_of_app, list_elem_of_singleton. split; [by left|]. intros [?| ->]; [done|congruence].
Qed.
Lemma stmt_accessed_table_spec accesses a : stmt_accessed_table a (accessed accesses) = bool_decide (a ∈ accesses).
Proof.
  unfold stmt_accessed_table. rewrite access_bit_pow2, <-accessed_testbit. pose proof (access_value_range a).
  rewrite <-(c_true_land_pow2 (accessed accesses)) by lia. done.
Qed.
Lemma either_bit flag a b : negb (flag .& (access_bit a .| access_bit b) =? 0) = Z.testbit flag (access_value a) || Z.testbit flag (access_value b).
Proof.
  pose proof (access_value_range a). pose proof (access_value_range b). rewrite !access_bit_pow2, Z.land_lor_distr_r, !land_pow2 by lia.
  assert (forall n, 0 <= n -> 2 ^ n <> 0) as Hp by (intros n Hn; apply Z.pow_nonzero; lia).
  destruct (Z.testbit flag (access_value a)), (Z.testbit flag (access_value b)); rewrite ?Z.lor_0_l, ?Z.lor_0_r; cbn [orb]; try done; apply negb_true_iff, Z.eqb_neq; [|apply Hp; lia|apply Hp; lia].
  rewrite Z.lor_eq_0_iff. intros [E _]. revert E. apply Hp. lia.
Qed.

(** The condition of the caller selects the bit of the map that the table of the header
    documents. *)
Lemma unsafe_condition_bit binlog_direct trx_cache_is_not_empty tx_isolation :
  unsafe_condition binlog_direct trx_cache_is_not_empty tx_isolation =
  2 ^ (4 * Z.b2z binlog_direct + 2 * Z.b2z trx_cache_is_not_empty + Z.b2z (tx_isolation <? ISO_REPEATABLE_READ)).
Proof.
  unfold unsafe_condition. destruct binlog_direct, trx_cache_is_not_empty, (Z.leb_spec ISO_REPEATABLE_READ tx_isolation);
    first [rewrite (proj2 (Z.ltb_ge tx_isolation _)) by done|rewrite (proj2 (Z.ltb_lt tx_isolation _)) by done]; reflexivity.
Qed.

(** Whatever tables a statement is going to use, the index into [binlog_unsafe_map]
    is inside the map, and a statement is unsafe when, in a transaction, the bit that
    the header documents for the caller's situation is set in the entry for those
    tables, or when it reads a transactional table and writes a non-transactional
    one below REPEATABLE READ; the tests for temporary and other tables answer for
    the set of tables. *)
Theorem mixed_stmt_unsafe_spec binlog_unsafe_map accesses in_multi binlog_direct trx_cache_is_not_empty tx_isolation : length binlog_unsafe_map = 256%nat ->
  let reads_or_writes a := bool_decide (a ∈ accesses) in
  exists m, binlog_unsafe_map !! Z.to_nat (accessed accesses) = Some m /\
    is_mixed_stmt_unsafe binlog_unsafe_map in_multi binlog_direct trx_cache_is_not_empty tx_isolation (accessed accesses) =
      Some (in_multi && Z.testbit m (4 * Z.b2z binlog_direct + 2 * Z.b2z trx_cache_is_not_empty + Z.b2z (tx_isolation <? ISO_REPEATABLE_READ)) ||
            (tx_isolation <? ISO_REPEATABLE_READ) && reads_or_writes STMT_READS_TRANS_TABLE &&
            (reads_or_writes STMT_WRITES_NON_TRANS_TABLE || reads_or_writes STMT_WRITES_TEMP_NON_TRANS_TABLE)) /\
    stmt_accessed_temp_table (accessed accesses) =
      reads_or_writes STMT_READS_TEMP_TRANS_TABLE || reads_or_writes STMT_WRITES_TEMP_TRANS_TABLE ||
      reads_or_writes STMT_READS_TEMP_NON_TRANS_TABLE || reads_or_writes STMT_WRITES_TEMP_NON_TRANS_TABLE /\
    stmt_writes_to_non_temp_table (accessed accesses) = reads_or_writes STMT_WRITES_TRANS_TABLE || reads_or_writes STMT_WRITES_NON_TRANS_TABLE.
Proof.
  intros Hlen reads_or_writes. pose proof (accessed_range accesses) as Hr. unfold ufits in Hr.
  destruct (lookup_lt_is_Some_2 binlog_unsafe_map (Z.to_nat (accessed accesses))) as [m Hm]; [lia|]. exists m. split; [done|]. split; [|split].
  - unfold is_mixed_stmt_unsafe. rewrite Hm, !stmt_accessed_table_spec. cbn [mbind option_bind].
    rewrite unsafe_condition_bit, c_true_land_pow2 by (destruct binlog_direct, trx_cache_is_not_empty, (tx_isolation <? ISO_REPEATABLE_READ); cbn; lia).
    unfold reads_or_writes. generalize (tx_isolation <? ISO_REPEATABLE_READ). intros lt.
    destruct (bool_decide (STMT_WRITES_NON_TRANS_TABLE ∈ accesses)), (bool_decide (STMT_READS_TRANS_TABLE ∈ accesses)),
      (bool_decide (STMT_WRITES_TEMP_NON_TRANS_TABLE ∈ accesses)), lt, in_multi; cbn [andb orb negb mbind option_bind]; rewrite ?orb_true_r, ?orb_false_r; done.
  - unfold stmt_accessed_temp_table, stmt_accessed_non_trans_temp_table, stmt_accessed_trans_temp_table. rewrite !either_bit, !accessed_testbit.
    unfold reads_or_writes. by rewrite orb_comm, !orb_assoc.
  - unfold stmt_writes_to_non_temp_table, c_true. by rewrite either_bit, !accessed_testbit.
Qed.
End accesses.

(** * Concrete statements *)

(** Five tables outside of any list, an empty list and an unused object. *)
Definition qstart : qstore := mkQStore (list_to_map ((λ t, (t, mkPLinks None None)) <$> [1; 2; 3; 4; 5]%nat)) {[0%nat := mkQTL None (PFirst 0) None; 1%nat := mkQTL None (PFirst 1) None]}.
Lemma qstart_ok : tables_rep qstart 0 [] [] false.
Proof. exists (mkQTL None (PFirst 0) None). split_and!; try done. constructor. Qed.
Lemma qstart_fresh t : t ∈ [1; 2; 3; 4; 5]%nat -> exists k, qtables qstart !! t = Some (mkPLinks None k).
Proof. intros Ht. exists None. repeat (apply elem_of_cons in Ht as [->|Ht]; [reflexivity|]). by apply not_elem_of_nil in Ht. Qed.

Lemma query_tables_refine_witness : exists st', run_qops 0 [AddTable 1; AddTable 2; MarkPrelocking; AddTable 3; ChopOff; AddTable 4] qstart = Some st' /\
  tables_rep st' 0 [1; 2; 4]%nat [] false /\ last_table st' 0 = Some (Some 4%nat).
Proof.
  destruct (query_tables_refine qstart 0 [] [] false [AddTable 1; AddTable 2; MarkPrelocking; AddTable 3; ChopOff; AddTable 4] qstart_ok) as (st' & ow & ot & m & Hr & E & HR & _ & Hl).
  - intros t Ht. apply qstart_fresh. cbn in Ht. set_solver.
  - cbn. repeat (apply list.NoDup_cons; split; [set_solver|]). constructor.
  - intros t _. apply not_elem_of_nil.
  - injection E as <- <- <-. exists st'. split; [exact Hr|]. split; [exact HR|exact Hl].
Defined.
Lemma backup_restore_roundtrip_witness : exists st1 st2 st3, set_query_tables_list qstart 1 0 = Some st1 /\
  run_qops 0 [AddTable 1] (set_qlist st1 0 (mkQTL None (PFirst 0) None)) = Some st2 /\ set_query_tables_list st2 0 1 = Some st3 /\ tables_rep st3 0 [] [] false.
Proof.
  apply (backup_restore_roundtrip qstart 0 1 (mkQTL None (PFirst 1) None) [] [] false [AddTable 1] qstart_ok eq_refl).
  - discriminate.
  - intros t Ht. apply qstart_fresh. cbn in Ht. set_solver.
  - apply NoDup_singleton.
  - intros t _. apply not_elem_of_nil.
Defined.
Lemma unsafe_flags_are_a_set_witness : exists flags, run_flag_ops [SetRowInjection; SetUnsafe BINLOG_STMT_UNSAFE_UDF; ClearUnsafe; SetUnsafeFlags 3] 0 = Some flags /\
  is_stmt_unsafe_of BINLOG_STMT_UNSAFE_UDF flags = false /\ is_stmt_unsafe_of BINLOG_STMT_UNSAFE_LIMIT flags = true /\ is_stmt_row_injection flags = true.
Proof.
  destruct (unsafe_flags_are_a_set [SetRowInjection; SetUnsafe BINLOG_STMT_UNSAFE_UDF; ClearUnsafe; SetUnsafeFlags 3]) as (flags & U & row & Hr & E & HU & _ & Hrow & _).
  - repeat (apply Forall_cons; split; [cbn; lia|]). constructor.
  - exists flags. injection E as <- <-. rewrite !HU, Hrow. split; [exact Hr|]. vm_compute. repeat split.
Defined.
Lemma mixed_stmt_unsafe_spec_witness : exists m, replicate 256 0 !! Z.to_nat (accessed [STMT_READS_TRANS_TABLE; STMT_WRITES_NON_TRANS_TABLE]) = Some m /\
  is_mixed_stmt_unsafe (replicate 256 0) false false false 1 (accessed [STMT_READS_TRANS_TABLE; STMT_WRITES_NON_TRANS_TABLE]) = Some true.
Proof.
  destruct (mixed_stmt_unsafe_spec (replicate 256 0) [STMT_READS_TRANS_TABLE; STMT_WRITES_NON_TRANS_TABLE] false false false 1 eq_refl) as (m & Hm & Hu & _).
  exists m. split; [exact Hm|]. rewrite Hu. vm_compute. reflexivity.
Defined.
