(* ===== verification/SqlSelectTree.v ===== *)
(** The links between the SELECTs of a statement ([st_select_lex_node]) and the stack of
    SELECTs being parsed ([LEX::push_select] and its neighbours), from
    [private/sql_lex.h].

    A node is a number.  Nodes are linked twice in the same way, by [next] and [prev]
    to their neighbours and by [link_next] and [link_prev] to the list of all SELECTs,
    so both are [plinks] of [SqlPList]; a slot is the [next] member of a node, or the
    head of a list (the [slave] member of the master, or the list of all). *)

From S2P Require Import Prelude SqlPList.

(** * Links *)

Record chains := mkChains { links : gmap nat plinks; heads : gmap nat (option nat) }.

Definition set_links (st : chains) (a : nat) (k : plinks) : chains := mkChains (<[a := k]> (links st)) (heads st).
Definition cwrite (st : chains) (s : pslot) (p : option nat) : option chains :=
  match s with
  | PFirst l => _ ← heads st !! l; Some (mkChains (links st) (<[l := p]> (heads st)))
  | PNext a => k ← links st !! a; Some (set_links st a (mkPLinks p (pl_prev k)))
  end.
Definition set_prev (st : chains) (a : nat) (s : option pslot) : option chains :=
  k ← links st !! a; Some (set_links st a (mkPLinks (pl_next k) s)).
Definition set_next (st : chains) (a : nat) (p : option nat) : option chains := cwrite st (PNext a) p.
Definition unlinked_node : plinks := mkPLinks None None.

Definition link_neighbour (st : chains) (this neighbour : nat) : option chains :=
  k ← links st !! this;
  _ ← asserting (bool_decide (pl_next k = None)) tt;
  st ← set_next st this (Some neighbour);
  set_prev st neighbour (Some (PNext this)).
Definition cut_next (st : chains) (this : nat) : option chains := set_next st this None.
(** [set_slave] and [cut_subtree]. *)
Definition set_slave (st : chains) (this : nat) (slave_arg : option nat) : option chains := cwrite st (PFirst this) slave_arg.
Definition cut_subtree (st : chains) (this : nat) : option chains := set_slave st this None.

Definition exclude_from_global (st : chains) (this : nat) : option chains :=
  k ← links st !! this;
  match pl_prev k with
  | None => Some st
  | Some s =>
      st ← cwrite st s (pl_next k);
      st ← match pl_next k with Some b => set_prev st b (Some s) | None => Some st end;
      Some (set_links st this unlinked_node)
  end.

Definition move_node (st : chains) (this where_to_move : nat) : option chains :=
  if decide (where_to_move = this) then Some st
  else
    k ← links st !! this;
    st ← match pl_next k with Some b => set_prev st b (pl_prev k) | None => Some st end;
    prev ← pl_prev k;
    st ← cwrite st prev (pl_next k);
    kw ← links st !! where_to_move;
    wprev ← pl_prev kw;
    st ← cwrite st wprev (Some this);
    set_next st this (Some where_to_move).

Inductive sub_select_type := UNSPECIFIED_TYPE | UNION_TYPE | INTERSECT_TYPE | EXCEPT_TYPE | GLOBAL_OPTIONS_TYPE | DERIVED_TABLE_TYPE | OLAP_TYPE.
#[export] Instance sub_select_type_eq_dec : EqDecision sub_select_type.
Proof. solve_decision. Defined.
Definition is_linkage_set (linkage : sub_select_type) : bool :=
  bool_decide (linkage = UNION_TYPE) || bool_decide (linkage = INTERSECT_TYPE) || bool_decide (linkage = EXCEPT_TYPE).
Definition cmp_unit_op (op1 op2 : sub_select_type) : option Z :=
  asserting (is_linkage_set op1 && is_linkage_set op2)
    ((if decide (op1 = INTERSECT_TYPE) then 1 else 0) - (if decide (op2 = INTERSECT_TYPE) then 1 else 0)).
(** The SELECTs of a unit, as their [tvc] and [linkage]; a unit has a first one. *)
Definition is_unit_op (selects : list (bool * sub_select_type)) : option bool :=
  match selects with
  | [] => None
  | [(tvc, _)] => Some tvc
  | _ :: (_, linkage) :: _ => Some (is_linkage_set linkage)
  end.

(** * The stack of SELECTs *)

Definition SELECT_NESTING_MAP_SIZE : Z := 64.
Definition MAX_SELECT_NESTING : Z := SELECT_NESTING_MAP_SIZE - 1.

(** [push_context] and [pop_context] are only declared in the header: the stack of name
    resolution contexts is a class of operations. *)
Class Contexts := {
  contexts : Type;
  (** [None]: out of memory, the function returns true. *)
  push_context : nat -> contexts -> option contexts;
  pop_context : contexts -> contexts
}.
Class ContextsLaws (C : Contexts) := {
  pop_push : forall x c c', push_context x c = Some c' -> pop_context c' = c
}.

Section selects.
Context {C : Contexts}.

(** A SELECT and its [context] are one number; [builtin_select] is 0. *)
Definition builtin_select : nat := 0.
Record LEX := mkLEX {
  context_stack : contexts; select_stack : list (option nat); select_stack_top : Z; select_stack_outer_barrier : Z;
  current_select : option nat; builtin_is_service : bool
}.

Definition select_stack_head (lex : LEX) : option (option nat) :=
  if c_true (select_stack_top lex) then select_stack lex !! Z.to_nat (select_stack_top lex - 1) else Some None.
(** [(true, _)]: the error was reported. *)
Definition push_select (lex : LEX) (select_lex : nat) : option (bool * LEX) :=
  if MAX_SELECT_NESTING <? select_stack_top lex then Some (true, lex)
  else match push_context select_lex (context_stack lex) with
  | None => Some (true, lex)
  | Some c =>
      asserting (Z.to_nat (select_stack_top lex) <? length (select_stack lex))%nat
        (false, mkLEX c (<[Z.to_nat (select_stack_top lex) := Some select_lex]> (select_stack lex)) (u32 (select_stack_top lex + 1))
           (select_stack_outer_barrier lex) (Some select_lex) (builtin_is_service lex))
  end.
Definition pop_select (lex : LEX) : option (nat * LEX) :=
  '(s, top) ← (if c_true (select_stack_top lex)
               then s ← select_stack lex !! Z.to_nat (select_stack_top lex - 1); Some (s, select_stack_top lex - 1)
               else Some (None, select_stack_top lex));
  select_lex ← s;
  let c := pop_context (context_stack lex) in
  if negb (c_true top)
  then Some (select_lex, mkLEX c (select_stack lex) top (select_stack_outer_barrier lex) (Some builtin_select) false)
  else current ← select_stack lex !! Z.to_nat (top - 1);
       Some (select_lex, mkLEX c (select_stack lex) top (select_stack_outer_barrier lex) current (builtin_is_service lex)).
Definition current_select_or_default (lex : LEX) : nat := default builtin_select (current_select lex).
Definition inc_select_stack_outer_barrier (lex : LEX) : LEX :=
  mkLEX (context_stack lex) (select_stack lex) (select_stack_top lex) (u32 (select_stack_outer_barrier lex + 1)) (current_select lex) (builtin_is_service lex).
Definition parser_current_outer_select (lex : LEX) : option (option nat) :=
  if u32 (select_stack_top lex - 1) =? select_stack_outer_barrier lex then Some None
  else select_stack lex !! Z.to_nat (u32 (select_stack_top lex - 2)).
End selects.

(** * Well-formed lists of nodes *)

Section lists.
Implicit Types (st : chains) (ns : list nat).

(** List [l] links the nodes [ns], forwards and backwards. *)
Definition chain_rep st (l : nat) ns : Prop :=
  exists f s, heads st !! l = Some f /\ pseg (links st) (PFirst l) f ns s None /\ NoDup ns.
(** Following [next] from the head of list [l] gives the nodes [ns]. *)
Fixpoint nchain (h : gmap nat plinks) (p : option nat) ns : Prop :=
  match ns with [] => p = None | a :: ns => p = Some a /\ exists k, h !! a = Some k /\ nchain h (pl_next k) ns end.
Definition next_chain st (l : nat) ns : Prop := exists f, heads st !! l = Some f /\ nchain (links st) f ns.

Lemma pseg_slot h s p ns s' p' : pseg h s p ns s' p' -> s' = pend s ns.
Proof. revert s p. induction ns as [|a ns IH]; intros s p; [by intros [-> _]|]. intros (_ & nx & _ & Hd). cbn. by eapply IH. Qed.
Lemma pseg_nchain h s p ns s' : pseg h s p ns s' None -> nchain h p ns.
Proof. revert s p. induction ns as [|a ns IH]; intros s p; [by intros [_ ->]|]. intros (-> & nx & Ha & Hd). split; [done|]. eexists. split; [exact Ha|]. by eapply IH. Qed.
Lemma pseg_app_nchain h s p ns ns' s' p' : pseg h s p ns s' p' -> nchain h p' ns' -> nchain h p (ns ++ ns').
Proof. revert s p. induction ns as [|a ns IH]; intros s p; [by intros [_ ->]|]. intros (-> & nx & Ha & Hd) Hn. split; [done|]. eexists. split; [exact Ha|]. by eapply IH. Qed.
Lemma nchain_frame h h' p ns : (forall a, a ∈ ns -> h' !! a = h !! a) -> nchain h p ns -> nchain h' p ns.
Proof.
  revert p. induction ns as [|a ns IH]; intros p E; [done|]. intros (-> & k & Ha & Hn). split; [done|]. exists k.
  split; [rewrite E; [done|left]|]. apply IH; [|done]. intros; apply E; by right.
Qed.

(** Writing the slot at the end of a run. *)
Lemma cwrite_seg st l f ns s p q : heads st !! l = Some f -> pseg (links st) (PFirst l) f ns s p -> NoDup ns ->
  exists st' f', cwrite st s q = Some st' /\ heads st' !! l = Some f' /\ pseg (links st') (PFirst l) f' ns s q /\
    (forall a, a ∉ ns -> links st' !! a = links st !! a).
Proof.
  intros Hl. destruct (exists_last_or_nil ns) as [->|(ns' & a & ->)].
  - intros [<- <-] _. cbn. rewrite Hl. cbn. eexists _, q. split; [done|]. cbn. by rewrite lookup_insert_eq.
  - intros (s1 & Hd & Ha & ->)%pseg_snoc (Hnd & Hdis & _)%NoDup_app. cbn. rewrite Ha. cbn.
    exists (set_links st a (mkPLinks q (Some s1))), f. split; [done|]. split; [done|]. split.
    + apply pseg_snoc. exists s1. cbn. rewrite lookup_insert_eq. split; [|done]. apply pseg_frame with (links st); [|done].
      intros b Hb. apply lookup_insert_ne. intros ->. apply (Hdis b Hb). left.
    + intros b Hb. cbn. apply lookup_insert_ne. intros ->. apply Hb, elem_of_app. right. left.
Qed.

(** The first node of a run gets another slot before it. *)
Definition reslot st (p : option nat) (s : pslot) : option chains := match p with Some b => set_prev st b (Some s) | None => Some st end.
Lemma reslot_seg st s p ns s' s2 : pseg (links st) s p ns s' None -> NoDup ns ->
  exists st' s3, reslot st p s2 = Some st' /\ heads st' = heads st /\ pseg (links st') s2 p ns s3 None /\
    (forall a, a ∉ ns -> links st' !! a = links st !! a).
Proof.
  destruct ns as [|b ns].
  - intros [<- ->] _. exists st, s2. by split_and!.
  - intros (-> & nx & Hb & Hd) (Hb' & Hnd)%list.NoDup_cons. cbn. unfold set_prev. rewrite Hb. cbn. eexists _, s'. split; [done|]. split; [done|]. cbn. split.
    + split; [done|]. exists nx. rewrite lookup_insert_eq. split; [done|]. apply pseg_frame with (links st); [|done].
      intros a Ha. apply lookup_insert_ne. by intros ->.
    + intros a Ha. apply lookup_insert_ne. intros ->. apply Ha. left.
Qed.

(** A node is bypassed: the slot that led to it leads to the next one, in either order
    of the two writes. *)
Lemma bypass_seg st l a this b : chain_rep st l (a ++ this :: b) ->
  exists k, links st !! this = Some k /\ pl_prev k = Some (pend (PFirst l) a) /\ pl_next k = head b /\
    (exists st1 st2, cwrite st (pend (PFirst l) a) (pl_next k) = Some st1 /\ reslot st1 (pl_next k) (pend (PFirst l) a) = Some st2 /\
       chain_rep st2 l (a ++ b) /\ links st2 !! this = Some k /\ forall c, c ∉ a ++ b -> links st2 !! c = links st !! c) /\
    (exists st1 st2, reslot st (pl_next k) (pend (PFirst l) a) = Some st1 /\ cwrite st1 (pend (PFirst l) a) (pl_next k) = Some st2 /\
       chain_rep st2 l (a ++ b) /\ links st2 !! this = Some k /\ forall c, c ∉ a ++ b -> links st2 !! c = links st !! c).
Proof.
  intros (f & s & Hl & Hd & Hnd). apply pseg_app in Hd as (s1 & p1 & Ha & -> & nx & Ht & Hb).
  pose proof (pseg_slot _ _ _ _ _ _ Ha) as ->. apply NoDup_app in Hnd as (Hnda & Hdis & (Htb & Hndb)%list.NoDup_cons).
  assert (this ∉ a) as Hta by (intros Hin; apply (Hdis this Hin); left).
  assert (forall c, c ∈ a -> c ∉ b) as Hab by (intros c Hc Hcb; apply (Hdis c Hc); by right).
  assert (NoDup (a ++ b)) as Hndab by (by apply NoDup_app).
  exists (mkPLinks nx (Some (pend (PFirst l) a))). split; [done|]. split; [done|]. cbn [pl_next]. split; [apply pseg_ptr in Hb; by destruct b|]. split.
  - destruct (cwrite_seg st l f a _ _ nx Hl Ha Hnda) as (st1 & f1 & Hw & Hl1 & Ha1 & Hfr1).
    assert (pseg (links st1) (PNext this) nx b s None) as Hb1 by (apply pseg_frame with (links st); [|done]; intros c Hc; apply Hfr1; intros Hca; by apply (Hab c)).
    destruct (reslot_seg st1 _ nx b s (pend (PFirst l) a) Hb1 Hndb) as (st2 & s3 & Hr & Hh & Hb2 & Hfr2). exists st1, st2. split_and!; try done.
    + exists f1, s3. rewrite Hh. split_and!; [done| |done]. apply pseg_app. exists (pend (PFirst l) a), nx. split; [|done].
      apply pseg_frame with (links st1); [|done]. intros c Hc. apply Hfr2. by apply Hab.
    + by rewrite Hfr2, Hfr1.
    + intros c Hc. rewrite Hfr2, Hfr1; [done|set_solver|set_solver].
  - destruct (reslot_seg st _ nx b s (pend (PFirst l) a) Hb Hndb) as (st1 & s3 & Hr & Hh & Hb1 & Hfr1). rewrite <-Hh in Hl.
    assert (pseg (links st1) (PFirst l) f a (pend (PFirst l) a) (Some this)) as Ha1 by (apply pseg_frame with (links st); [|done]; intros c Hc; apply Hfr1; by apply Hab).
    destruct (cwrite_seg st1 l f a _ _ nx Hl Ha1 Hnda) as (st2 & f1 & Hw & Hl1 & Ha2 & Hfr2). exists st1, st2. split_and!; try done.
    + exists f1, s3. split_and!; [done| |done]. apply pseg_app. exists (pend (PFirst l) a), nx. split; [done|].
      apply pseg_frame with (links st1); [|done]. intros c Hc. apply Hfr2. intros Hca. by apply (Hab c).
    + by rewrite Hfr2, Hfr1.
    + intros c Hc. rewrite Hfr2, Hfr1; [done|set_solver|set_solver].
Qed.

(** Excluding a SELECT from the list of all takes exactly it out, leaves the list
    well linked both ways, and leaves the SELECT unlinked, so that excluding it once
    more does nothing. *)
Theorem exclude_from_global_removes st l a this b : chain_rep st l (a ++ this :: b) ->
  exists st', exclude_from_global st this = Some st' /\ chain_rep st' l (a ++ b) /\ links st' !! this = Some unlinked_node /\
    exclude_from_global st' this = Some st'.
Proof.
  intros HR. pose proof HR as (f & s & _ & _ & Hnd). destruct (bypass_seg st l a this b HR) as (k & Hk & Hp & Hn & (st1 & st2 & Hw & Hr & HR2 & Ht2 & _) & _).
  unfold exclude_from_global. rewrite Hk. cbn [mbind option_bind]. rewrite Hp, Hw. cbn [mbind option_bind].
  unfold reslot in Hr. rewrite Hr. cbn [mbind option_bind]. eexists. split; [done|].
  assert (this ∉ a ++ b) as Hnin by (apply NoDup_app in Hnd as (_ & Hdis & (Htb & _)%list.NoDup_cons); intros [Hin|Hin]%elem_of_app; [by apply (Hdis this Hin); left|done]).
  cbn [set_links links]. rewrite lookup_insert_eq. split; [|split; [done|]].
  - destruct HR2 as (f2 & s2 & Hl2 & Hd2 & Hnd2). exists f2, s2. split_and!; [done| |done]. cbn. apply pseg_frame with (links st2); [|done].
    intros c Hc. apply lookup_insert_ne. by intros ->.
  - cbn. done.
Qed.

Lemma link_neighbour_spec st l ns this neighbour kn : chain_rep st l (ns ++ [this]) -> links st !! neighbour = Some kn -> pl_next kn = None ->
  neighbour ∉ ns ++ [this] ->
  exists st', link_neighbour st this neighbour = Some st' /\ chain_rep st' l (ns ++ [this; neighbour]).
Proof.
  intros (f & s & Hl & Hd & Hnd) Hk Hkn Hnin. pose proof Hd as (s1 & Hd1 & Ht & ->)%pseg_snoc. unfold link_neighbour. rewrite Ht. cbn [mbind option_bind pl_next].
  rewrite bool_decide_true by done. cbn [asserting mbind option_bind]. unfold set_next.
  destruct (cwrite_seg st l f (ns ++ [this]) _ _ (Some neighbour) Hl Hd Hnd) as (st1 & f1 & Hw & Hl1 & Hd2 & Hfr). rewrite Hw. cbn [mbind option_bind].
  unfold set_prev. rewrite Hfr, Hk by done. cbn [mbind option_bind]. rewrite Hkn. eexists. split; [done|].
  exists f1, (PNext neighbour). split; [done|]. change [this; neighbour] with ([this] ++ [neighbour]). rewrite app_assoc. split.
  - apply pseg_snoc. exists (PNext this). cbn. rewrite lookup_insert_eq. split_and!; [|done|done].
    apply pseg_frame with (links st1); [|done]. intros c Hc. apply lookup_insert_ne. by intros ->.
  - apply NoDup_app. split; [done|]. split; [|apply NoDup_singleton]. by intros c Hc ->%list_elem_of_singleton.
Qed.

Lemma move_node_spec st l a this b front where_to_move back : chain_rep st l (a ++ this :: b) -> a ++ b = front ++ where_to_move :: back ->
  exists st', move_node st this where_to_move = Some st' /\ next_chain st' l (front ++ this :: where_to_move :: back) /\
    (exists k, links st' !! where_to_move = Some k /\ pl_prev k = Some (pend (PFirst l) front)) /\
    (exists k, links st' !! this = Some k /\ pl_prev k = Some (pend (PFirst l) a)).
Proof.
  intros HR E. pose proof HR as (f & s & _ & _ & Hnd). destruct (bypass_seg st l a this b HR) as (k & Hk & Hp & Hn & _ & (st1 & st2 & Hr & Hw & HR2 & Ht2 & _)).
  assert (this ∉ a ++ b) as Hnin by (apply NoDup_app in Hnd as (_ & Hdis & (Htb & _)%list.NoDup_cons); intros [Hin|Hin]%elem_of_app; [by apply (Hdis this Hin); left|done]).
  rewrite E in Hnin, HR2. assert (where_to_move <> this) as Hne by (intros ->; apply Hnin, elem_of_app; right; left).
  unfold move_node. rewrite decide_False by done. rewrite Hk. cbn [mbind option_bind]. unfold reslot in Hr. rewrite Hp, Hr. cbn [mbind option_bind]. rewrite Hw. cbn [mbind option_bind].
  destruct HR2 as (f2 & s2 & Hl2 & Hd2 & Hnd2). apply pseg_app in Hd2 as (sw & pw & Hfront & -> & nx & Hwh & Hback).
  pose proof (pseg_slot _ _ _ _ _ _ Hfront) as ->. rewrite Hwh. cbn [mbind option_bind pl_prev]. apply NoDup_app in Hnd2 as (Hndf & Hdis & _).
  destruct (cwrite_seg st2 l f2 front _ _ (Some this) Hl2 Hfront Hndf) as (st3 & f3 & Hw3 & Hl3 & Hfront3 & Hfr3). rewrite Hw3. cbn [mbind option_bind].
  assert (this ∉ front /\ this ∉ back) as [Htf Htb] by set_solver. assert (where_to_move ∉ front) as Hwf by (intros Hin; apply (Hdis where_to_move Hin); left).
  unfold set_next, cwrite. rewrite Hfr3, Ht2 by done. cbn [mbind option_bind]. eexists. split; [done|]. cbn [set_links links heads]. split_and!.
  - exists f3. split; [done|]. cbn [set_links links heads]. apply pseg_app_nchain with (PFirst l) (pend (PFirst l) front) (Some this).
    + apply pseg_frame with (links st3); [|done]. intros c Hc. apply lookup_insert_ne. by intros ->.
    + split; [done|]. eexists. rewrite lookup_insert_eq. split; [done|]. cbn [pl_next]. split; [done|]. exists (mkPLinks nx (Some (pend (PFirst l) front))).
      rewrite lookup_insert_ne, Hfr3 by done. split; [done|]. cbn [pl_next]. apply nchain_frame with (links st2); [|by eapply pseg_nchain].
      intros c Hc. rewrite lookup_insert_ne by (by intros ->). apply Hfr3. intros Hcf. apply (Hdis c Hcf). by right.
  - eexists. rewrite lookup_insert_ne, Hfr3 by done. split; [done|]. done.
  - eexists. rewrite lookup_insert_eq. split; [done|]. done.
Qed.

(** [move_node] moves a SELECT in front of another in the order of the [next] links,
    but it writes neither the moved node's [prev] nor that of the one behind it:
    afterwards the list is never well linked, whatever the nodes are. *)
Theorem move_node_breaks_back_links st l a this b front where_to_move back : chain_rep st l (a ++ this :: b) -> a ++ b = front ++ where_to_move :: back ->
  exists st', move_node st this where_to_move = Some st' /\ next_chain st' l (front ++ this :: where_to_move :: back) /\
    forall ns, ~ chain_rep st' l ns.
Proof.
  intros HR E. destruct (move_node_spec st l a this b front where_to_move back HR E) as (st' & Hm & (f & Hl & Hn) & (kw & Hkw & Hpw) & _).
  exists st'. split; [done|]. split; [by exists f|]. intros ns (f' & s & Hl' & Hd & Hnd). rewrite Hl in Hl'. injection Hl' as <-.
  assert (ns = front ++ this :: where_to_move :: back) as ->.
  { apply pseg_nchain in Hd. clear -Hd Hn. revert f ns Hd Hn. generalize (front ++ this :: where_to_move :: back). intros ms. induction ms as [|m ms IH]; intros f ns Hd Hn.
    - destruct ns as [|n ns]; [done|]. destruct Hd as [-> _]. done.
    - destruct Hn as (-> & k & Hk & Hn). destruct ns as [|n ns]; [done|]. destruct Hd as (Ee & k' & Hk' & Hd). injection Ee as <-. rewrite Hk in Hk'. injection Hk' as <-. f_equal. by eapply IH. }
  apply pseg_app in Hd as (s1 & p1 & _ & _ & nx & _ & _ & nx' & Hwh & _). rewrite Hkw in Hwh. injection Hwh as ->. cbn in Hpw. injection Hpw as Hs.
  assert (forall l0 fr, pend (PFirst l0) fr = PNext this -> this ∈ fr) as Hend.
  { intros l0 fr. assert (forall s0, pend s0 fr = PNext this -> s0 = PNext this \/ this ∈ fr) as Hg.
    { induction fr as [|x fr IH]; intros s0; cbn; [by left|]. intros [Hx|Hin]%IH; [right; injection Hx as ->; left|right; by right]. }
    intros [?|?]%Hg; done. }
  symmetry in Hs. apply Hend in Hs. apply NoDup_app in Hnd as (_ & Hdis & _). apply (Hdis this Hs). left.
Qed.
End lists.

(** Three SELECTs: after moving the last to the front, moving the second to where the
    first is loses the one that was moved. *)
Definition three_selects : chains :=
  mkChains (list_to_map [(1%nat, mkPLinks (Some 2%nat) (Some (PFirst 0))); (2%nat, mkPLinks (Some 3%nat) (Some (PNext 1))); (3%nat, mkPLinks None (Some (PNext 2)))]) {[0%nat := Some 1%nat]}.
Example move_node_loses_a_select :
  (st ← move_node three_selects 3 1; st ← move_node st 2 1; f ← heads st !! 0%nat; Some (f, pl_next <$> links st !! 2%nat, pl_next <$> links st !! 1%nat)) =
  Some (Some 2%nat, Some (Some 1%nat), Some None).
Proof. reflexivity. Qed.

(** * The stack holds the SELECTs being parsed *)

Section stack.
Context {C : Contexts} {CL : ContextsLaws C}.
Implicit Types (lex : LEX) (xs : list nat).

(** The contexts of the SELECTs [xs], the innermost first, over those of [c0]. *)
Fixpoint contexts_rep (c0 : contexts) xs (c : contexts) : Prop :=
  match xs with [] => c = c0 | x :: xs => exists c1, contexts_rep c0 xs c1 /\ push_context x c1 = Some c end.
Record stack_rep (c0 : contexts) xs lex : Prop := {
  st_top : select_stack_top lex = Z.of_nat (length xs);
  st_max : Z.of_nat (length xs) <= SELECT_NESTING_MAP_SIZE;
  st_array : length (select_stack lex) = Z.to_nat SELECT_NESTING_MAP_SIZE;
  st_prefix : take (length xs) (select_stack lex) = Some <$> reverse xs;
  st_contexts : contexts_rep c0 xs (context_stack lex);
  st_current : xs <> [] -> current_select lex = head xs
}.

Lemma stack_lookup c0 x xs lex : stack_rep c0 (x :: xs) lex ->
  select_stack lex !! length xs = Some (Some x) /\ take (length xs) (select_stack lex) = Some <$> reverse xs.
Proof.
  intros [_ _ _ H _ _]. cbn [length] in H. rewrite reverse_cons, fmap_app in H. split.
  - rewrite <-(lookup_take_lt _ (S (length xs))) by lia. rewrite H, lookup_app_r by (by rewrite length_fmap, length_reverse). by rewrite length_fmap, length_reverse, Nat.sub_diag.
  - apply (f_equal (take (length xs))) in H. rewrite take_take, Nat.min_l in H by lia. rewrite H. apply take_app_length'. by rewrite length_fmap, length_reverse.
Qed.

(** The array, its top and the stack of contexts are one stack of at most 64
    SELECTs: a push beyond that, or without memory for the context, reports an error
    and changes nothing; every other push and every pop stays inside the array, keeps
    the contexts in step and leaves [current_select] at the innermost SELECT, which is
    the builtin one when none is left; a pop from the empty stack fails its assertion. *)
Theorem select_stack_refines c0 xs lex : stack_rep c0 xs lex ->
  (forall x, match push_context x (context_stack lex) with
     | Some _ => Z.of_nat (length xs) < SELECT_NESTING_MAP_SIZE ->
         exists lex', push_select lex x = Some (false, lex') /\ stack_rep c0 (x :: xs) lex'
     | None => push_select lex x = Some (true, lex)
     end /\ (Z.of_nat (length xs) = SELECT_NESTING_MAP_SIZE -> push_select lex x = Some (true, lex))) /\
  select_stack_head lex = Some (head xs) /\
  match xs with
  | [] => pop_select lex = None
  | x :: xs' => exists lex', pop_select lex = Some (x, lex') /\ stack_rep c0 xs' lex' /\ current_select lex' = Some (default builtin_select (head xs'))
  end.
Proof.
  intros HR. pose proof HR as [H1 H2 H3 H4 H5 H6]. unfold SELECT_NESTING_MAP_SIZE in *. split; [|split].
  - intros x. unfold push_select, MAX_SELECT_NESTING, SELECT_NESTING_MAP_SIZE. rewrite H1. split.
    + destruct (push_context x (context_stack lex)) as [c|] eqn:Ec.
      * intros Hlt. rewrite (proj2 (Z.ltb_ge _ _)), Nat2Z.id, H3, (proj2 (Nat.ltb_lt _ _)) by lia. eexists. split; [reflexivity|].
        split; cbn [select_stack_top select_stack context_stack current_select length]; [rewrite uwrap_small; unfold ufits; lia|unfold SELECT_NESTING_MAP_SIZE; lia|by rewrite length_insert| |by exists (context_stack lex)|done].
        rewrite (take_S_r _ _ (Some x)) by (apply list_lookup_insert_eq; lia). rewrite take_insert_ge by lia. by rewrite H4, reverse_cons, fmap_app.
      * by destruct (_ <? _).
    + intros E. by rewrite (proj2 (Z.ltb_lt _ _)) by lia.
  - unfold select_stack_head. rewrite H1. destruct xs as [|x xs]; [done|]. rewrite (proj2 (c_true_spec _)) by (cbn; lia).
    destruct (stack_lookup c0 x xs lex HR) as [Hl _]. cbn [length head]. replace (Z.to_nat (Z.of_nat (S (length xs)) - 1)) with (length xs) by lia. exact Hl.
  - unfold pop_select. rewrite H1. destruct xs as [|x xs]; [done|]. rewrite (proj2 (c_true_spec _)) by (cbn; lia).
    destruct (stack_lookup c0 x xs lex HR) as [Hl Ht]. cbn [length] in *. replace (Z.to_nat (Z.of_nat (S (length xs)) - 1)) with (length xs) by lia.
    rewrite Hl. cbn [mbind option_bind]. replace (Z.of_nat (S (length xs)) - 1) with (Z.of_nat (length xs)) by lia.
    destruct H5 as (c1 & Hc1 & Hpush). rewrite (pop_push _ _ _ Hpush). destruct xs as [|y xs].
    + eexists. split; [done|]. split; [|done]. by split.
    + rewrite (proj2 (c_true_spec _)) by (cbn; lia). cbn [negb]. cbn [length] in *. replace (Z.to_nat (Z.of_nat (S (length xs)) - 1)) with (length xs) by lia.
      assert (select_stack lex !! length xs = Some (Some y)) as Hy.
      { rewrite <-(lookup_take_lt _ (S (length xs))) by lia. rewrite Ht, reverse_cons, fmap_app, lookup_app_r by (by rewrite length_fmap, length_reverse). by rewrite length_fmap, length_reverse, Nat.sub_diag. }
      rewrite Hy. cbn [mbind option_bind]. eexists. split; [done|]. split; [|done].
      split; cbn [select_stack_top select_stack context_stack current_select length]; try done. unfold SELECT_NESTING_MAP_SIZE. lia.
Qed.

(** The SELECT around the one being parsed, within the innermost barrier. *)
Lemma parser_current_outer_select_spec c0 x xs lex : stack_rep c0 (x :: xs) lex -> 0 <= select_stack_outer_barrier lex <= Z.of_nat (length xs) ->
  parser_current_outer_select lex = Some (if Z.of_nat (length xs) =? select_stack_outer_barrier lex then None else head xs).
Proof.
  intros HR Hb. pose proof HR as [H1 H2 _ _ _ _]. unfold SELECT_NESTING_MAP_SIZE in *. cbn [length] in *. unfold parser_current_outer_select. rewrite H1.
  replace (Z.of_nat (S (length xs)) - 1) with (Z.of_nat (length xs)) by lia. rewrite (uwrap_small 32 (Z.of_nat (length xs))) by (unfold ufits; lia).
  destruct (Z.eqb_spec (Z.of_nat (length xs)) (select_stack_outer_barrier lex)) as [E|Hne]; [done|]. destruct xs as [|y xs]; cbn [length] in *; [lia|].
  rewrite uwrap_small by (unfold ufits; lia). replace (Z.to_nat (Z.of_nat (S (S (length xs))) - 2)) with (length xs) by lia.
  destruct (stack_lookup c0 x (y :: xs) lex HR) as [_ Ht]. cbn [length head] in *. rewrite <-(lookup_take_lt _ (S (length xs))) by lia.
  rewrite Ht, reverse_cons, fmap_app, lookup_app_r by (by rewrite length_fmap, length_reverse). by rewrite length_fmap, length_reverse, Nat.sub_diag.
Qed.
End stack.

(** * Concrete statements *)

Lemma three_selects_ok : chain_rep three_selects 0 [1; 2; 3]%nat.
Proof. exists (Some 1%nat), (PNext 3). split; [reflexivity|]. split; [|repeat (apply list.NoDup_cons; split; [set_solver|]); constructor].
  split; [done|]. eexists. split; [reflexivity|]. split; [done|]. eexists. split; [reflexivity|]. split; [done|]. eexists. split; [reflexivity|]. done.
Qed.
Lemma exclude_from_global_removes_witness : exists st', exclude_from_global three_selects 2 = Some st' /\ chain_rep st' 0 [1; 3]%nat.
Proof.
  destruct (exclude_from_global_removes three_selects 0 [1%nat] 2 [3%nat] three_selects_ok) as (st' & Hx & HR & _). exists st'. split; [exact Hx|exact HR].
Defined.
Lemma move_node_breaks_back_links_witness : exists st', move_node three_selects 3 1 = Some st' /\ next_chain st' 0 [3; 1; 2]%nat /\ (chain_rep st' 0 [3; 1; 2]%nat -> False).
Proof.
  destruct (move_node_breaks_back_links three_selects 0 [1; 2]%nat 3 [] [] 1 [2%nat] three_selects_ok eq_refl) as (st' & Hm & Hn & Hb).
  exists st'. split; [exact Hm|]. split; [exact Hn|]. apply Hb.
Defined.

(** Contexts as a list with room for ten. *)
Definition ten_contexts : Contexts := {|
  contexts := list nat;
  push_context := λ x c, if decide (length c < 10)%nat then Some (x :: c) else None;
  pop_context := tail
|}.
#[export] Instance ten_contexts_laws : ContextsLaws ten_contexts.
Proof. constructor. intros x c c'. cbn. case_decide; [|done]. by intros [= <-]. Qed.
Definition lex_two : LEX (C := ten_contexts) := mkLEX (C := ten_contexts) [2; 1]%nat (Some 1%nat :: Some 2%nat :: replicate 62 None) 2 0 (Some 2%nat) false.
Lemma lex_two_ok : stack_rep (C := ten_contexts) [] [2; 1]%nat lex_two.
Proof.
  split; [reflexivity|unfold SELECT_NESTING_MAP_SIZE; cbn; lia|reflexivity|reflexivity| |reflexivity].
  exists [1%nat]. split; [|reflexivity]. exists []. split; reflexivity.
Qed.
Lemma select_stack_refines_witness : select_stack_head (C := ten_contexts) lex_two = Some (Some 2%nat) /\
  exists lex', pop_select (C := ten_contexts) lex_two = Some (2%nat, lex') /\ current_select lex' = Some 1%nat.
Proof.
  destruct (select_stack_refines (C := ten_contexts) [] [2; 1]%nat lex_two lex_two_ok) as (_ & Hh & lex' & Hp & _ & Hc).
  split; [exact Hh|]. exists lex'. split; [exact Hp|exact Hc].
Defined.
