(* ===== verification/SqlRange.v ===== *)
(** The intervals of the range optimizer, from [private/opt_range.h]: [SEL_ARG], one
    interval of the values of a key part, the lists of intervals linked through
    [next_key_part], and [QUICK_RANGE], a range of an index.

    A value is the bytes of a key part: a byte that is not 0 for NULL, if the part may
    be NULL, and the data.  [Field::key_cmp] compares data and [sel_cmp] compares the
    bounds of intervals; neither is defined in the headers, so they are the class
    [KeyCompare], and [KeyCompareLaws] says that the one is an order and that the
    other is the order of the bounds: a bound that excludes its value lies just
    beside it, and a missing bound beyond every value. *)

From S2P Require Import Prelude.

(** * Flags *)

Definition NO_MIN_RANGE : Z := 1.
Definition NO_MAX_RANGE : Z := 2.
Definition NEAR_MIN : Z := 4.
Definition NEAR_MAX : Z := 8.
Definition EQ_RANGE : Z := 32.
Definition GEOM_FLAG : Z := 128.
Definition HA_REVERSE_SORT : Z := 128.

Definition invert_min_flag (min_flag : Z) : Z :=
  let max_flag_out := min_flag .& unot 32 (NEAR_MIN .| NO_MIN_RANGE) in
  let max_flag_out := if c_true (min_flag .& NEAR_MIN) then max_flag_out .| NEAR_MAX else max_flag_out in
  if c_true (min_flag .& NO_MIN_RANGE) then max_flag_out .| NO_MAX_RANGE else max_flag_out.
Definition invert_max_flag (max_flag : Z) : Z :=
  let min_flag_out := max_flag .& unot 32 (NEAR_MAX .| NO_MAX_RANGE) in
  let min_flag_out := if c_true (max_flag .& NEAR_MAX) then min_flag_out .| NEAR_MIN else min_flag_out in
  if c_true (max_flag .& NO_MAX_RANGE) then min_flag_out .| NO_MIN_RANGE else min_flag_out.

(** * Comparing values and bounds *)

Definition value : Type := list Z.

(** A [Field] is the number of its key part. *)
Class KeyCompare := {
  real_maybe_null : Z -> bool;
  key_cmp : Z -> value -> value -> Z;
  sel_cmp : Z -> value -> value -> Z -> Z -> Z
}.

Section compare.
Context {K : KeyCompare}.

Definition is_null (part : Z) (v : value) : bool := real_maybe_null part && c_true (hd 0 v).
Definition key_data (part : Z) (v : value) : value := if real_maybe_null part then tail v else v.
(** Two values of a key part; NULL is before the others. *)
Definition val_cmp (part : Z) (a b : value) : Z :=
  if is_null part a then if is_null part b then 0 else -1
  else if is_null part b then 1 else key_cmp part (key_data part a) (key_data part b).

(** A bound as a position: how far beyond every value, and on which side of its own. *)
Definition beyond (flag : Z) : Z := if c_true (flag .& NO_MIN_RANGE) then -1 else if c_true (flag .& NO_MAX_RANGE) then 1 else 0.
Definition beside (flag : Z) : Z := if c_true (flag .& NEAR_MIN) then 1 else if c_true (flag .& NEAR_MAX) then -1 else 0.
Definition bound_cmp (part : Z) (a : value) (a_flag : Z) (b : value) (b_flag : Z) : Z :=
  if (beyond a_flag =? 0) && (beyond b_flag =? 0)
  then if val_cmp part a b =? 0 then beside a_flag - beside b_flag else val_cmp part a b
  else beyond a_flag - beyond b_flag.
End compare.

Class KeyCompareLaws (K : KeyCompare) := {
  key_cmp_opp : forall part a b, Z.sgn (key_cmp part a b) = - Z.sgn (key_cmp part b a);
  key_cmp_trans : forall part a b c, key_cmp part a b <= 0 -> key_cmp part b c <= 0 -> key_cmp part a c <= 0;
  sel_cmp_sgn : forall part a b a_flag b_flag, Z.sgn (sel_cmp part a b a_flag b_flag) = Z.sgn (bound_cmp part a a_flag b b_flag)
}.

(** * Intervals *)

Inductive sel_type := IMPOSSIBLE | MAYBE | MAYBE_KEY | KEY_RANGE.
#[export] Instance sel_type_eq_dec : EqDecision sel_type.
Proof. solve_decision. Defined.

(** The members that the functions below use; [maybe_null] is [real_maybe_null part]. *)
Record SEL_ARG := mkSel { type : sel_type; part : Z; min_value : value; max_value : value; min_flag : Z; max_flag : Z; maybe_flag : Z }.

Record KEY_PART := mkKP { store_length : Z; kp_flag : Z }.

Section intervals.
Context {K : KeyCompare}.
Implicit Types s arg : SEL_ARG.

(** [SEL_ARG(field, part, min_value, max_value, min_flag, max_flag, maybe_flag)] makes a [KEY_RANGE]. *)
Definition new_sel (part : Z) (min_value max_value : value) (min_flag max_flag maybe_flag : Z) : SEL_ARG :=
  mkSel KEY_RANGE part min_value max_value min_flag max_flag maybe_flag.
Definition with_min s (v : value) (flag : Z) : SEL_ARG := mkSel (type s) (part s) v (max_value s) flag (max_flag s) (maybe_flag s).
Definition with_max s (v : value) (flag : Z) : SEL_ARG := mkSel (type s) (part s) (min_value s) v (min_flag s) flag (maybe_flag s).
Definition merge_flags s arg : SEL_ARG := mkSel (type s) (part s) (min_value s) (max_value s) (min_flag s) (max_flag s) (maybe_flag s .| maybe_flag arg).
Definition maybe_smaller s : SEL_ARG := mkSel (type s) (part s) (min_value s) (max_value s) (min_flag s) (max_flag s) 1.

Definition cmp_min_to_min s arg : Z := sel_cmp (part s) (min_value s) (min_value arg) (min_flag s) (min_flag arg).
Definition cmp_min_to_max s arg : Z := sel_cmp (part s) (min_value s) (max_value arg) (min_flag s) (max_flag arg).
Definition cmp_max_to_max s arg : Z := sel_cmp (part s) (max_value s) (max_value arg) (max_flag s) (max_flag arg).
Definition cmp_max_to_min s arg : Z := sel_cmp (part s) (max_value s) (min_value arg) (max_flag s) (min_flag arg).

Definition is_null_interval s : bool := real_maybe_null (part s) && (hd 0 (max_value s) =? 1).
Definition is_same s arg : bool :=
  if negb (bool_decide (type s = type arg) && (part s =? part arg)) then false
  else if negb (bool_decide (type s = KEY_RANGE)) then true
  else (cmp_min_to_min s arg =? 0) && (cmp_max_to_max s arg =? 0).
(** The loop of [all_same], over the intervals of the two lists from their first ones. *)
Fixpoint same_intervals (cur_args cmp_args : list SEL_ARG) : bool :=
  match cur_args, cmp_args with
  | cur_arg :: curs, cmp_arg :: cmps => if is_same cur_arg cmp_arg then same_intervals curs cmps else false
  | [], [] => true
  | _, _ => false
  end.
(** [same_pointer]: [arg == this]. *)
Definition all_same (same_pointer : bool) s (cur_args : list SEL_ARG) arg (cmp_args : list SEL_ARG) : bool :=
  if negb (bool_decide (type s = type arg) && (part s =? part arg)) then false
  else if negb (bool_decide (type s = KEY_RANGE)) then true
  else if same_pointer then true else same_intervals cur_args cmp_args.

Definition clone_and s arg : SEL_ARG :=
  let '(new_min, flag_min) := if 0 <=? cmp_min_to_min s arg then (min_value s, min_flag s) else (min_value arg, min_flag arg) in
  let '(new_max, flag_max) := if cmp_max_to_max s arg <=? 0 then (max_value s, max_flag s) else (max_value arg, max_flag arg) in
  new_sel (part s) new_min new_max flag_min flag_max (Z.b2z (c_true (maybe_flag s) && c_true (maybe_flag arg))).
Definition clone_first s arg : SEL_ARG :=
  new_sel (part s) (min_value s) (min_value arg) (min_flag s) (if c_true (min_flag arg .& NEAR_MIN) then 0 else NEAR_MAX) (maybe_flag s .| maybe_flag arg).
Definition clone_last s arg : SEL_ARG :=
  new_sel (part s) (min_value s) (max_value arg) (min_flag s) (max_flag arg) (maybe_flag s .| maybe_flag arg).

Definition full_range_flags (max_flag : Z) : bool := max_flag .& (NO_MAX_RANGE .| NO_MIN_RANGE) =? NO_MAX_RANGE .| NO_MIN_RANGE.
(** [true]: the interval became the full range. *)
Definition copy_min s arg : bool * SEL_ARG :=
  if 0 <? cmp_min_to_min s arg
  then let s := with_min s (min_value arg) (min_flag arg) in if full_range_flags (max_flag s) then (true, s) else (false, merge_flags s arg)
  else (false, merge_flags s arg).
Definition copy_max s arg : bool * SEL_ARG :=
  if cmp_max_to_max s arg <=? 0
  then let s := with_max s (max_value arg) (max_flag arg) in if full_range_flags (max_flag s) then (true, s) else (false, merge_flags s arg)
  else (false, merge_flags s arg).
Definition copy_min_to_min s arg : SEL_ARG := with_min s (min_value arg) (min_flag arg).
Definition copy_min_to_max s arg : SEL_ARG := with_max s (min_value arg) (if c_true (min_flag arg .& NEAR_MIN) then 0 else NEAR_MAX).
Definition copy_max_to_min s arg : SEL_ARG := with_min s (max_value arg) (if c_true (max_flag arg .& NEAR_MAX) then 0 else NEAR_MIN).

Definition is_singlepoint s : bool :=
  if c_true (min_flag s) || c_true (max_flag s) then false
  else if real_maybe_null (part s)
  then if negb (hd 0 (min_value s) =? hd 0 (max_value s)) then false
       else if c_true (hd 0 (min_value s)) then true
       else key_cmp (part s) (tail (min_value s)) (tail (max_value s)) =? 0
  else key_cmp (part s) (min_value s) (max_value s) =? 0.

(** ** Endpoints of ranges *)

(** The bytes that [store_min] and [store_max] append to the key, if any; [None] where
    [memcpy] would read beyond the value. *)
Definition store_value s (v : value) (length : Z) : option value :=
  if real_maybe_null (part s) && c_true (hd 0 v) then Some (1 :: replicate (Z.to_nat (length - 1)) 0)
  else asserting (length <=? Z.of_nat (List.length v)) (take (Z.to_nat length) v).
Definition store_min s (length : Z) (min_key_flag : Z) : option (option value) :=
  if c_true (min_flag s .& GEOM_FLAG) || (negb (c_true (min_flag s .& NO_MIN_RANGE)) && negb (c_true (min_key_flag .& (NO_MIN_RANGE .| NEAR_MIN))))
  then b ← store_value s (min_value s) length; Some (Some b) else Some None.
Definition store_max s (length : Z) (max_key_flag : Z) : option (option value) :=
  if negb (c_true (max_flag s .& NO_MAX_RANGE)) && negb (c_true (max_key_flag .& (NO_MAX_RANGE .| NEAR_MAX)))
  then b ← store_value s (max_value s) length; Some (Some b) else Some None.

Context (kp : Z -> KEY_PART).

Definition is_reverse (p : Z) : bool := c_true (kp_flag (kp p) .& HA_REVERSE_SORT).
Definition get_min_flag s : Z := if is_reverse (part s) then invert_max_flag (max_flag s) else min_flag s.
Definition get_max_flag s : Z := if is_reverse (part s) then invert_min_flag (min_flag s) else max_flag s.
(** The keys with what is appended to each and how many parts that is. *)
Definition append_part (key : value) (b : option value) : value * Z := match b with Some b => (key ++ b, 1) | None => (key, 0) end.
Definition store_min_max s (length : Z) (min_key : value) (min_flag : Z) (max_key : value) (max_flag : Z) : option ((value * Z) * (value * Z)) :=
  if is_reverse (part s)
  then bmax ← store_min s length min_flag; bmin ← store_max s length max_flag; Some (append_part min_key bmin, append_part max_key bmax)
  else bmin ← store_min s length min_flag; bmax ← store_max s length max_flag; Some (append_part min_key bmin, append_part max_key bmax).
Definition index_order_prev {A} (p : Z) (next prev : A) : A := if is_reverse p then next else prev.
Definition index_order_next {A} (p : Z) (next prev : A) : A := if is_reverse p then prev else next.
End intervals.

(** The intervals of one key part, from [first()] to [last()], each with its
    [next_key_part]; [type] and [part] of the root. *)
Inductive sel_tree := Tree (t : sel_type) (p : Z) (nodes : list (SEL_ARG * option sel_tree)).
Definition tree_type (t : sel_tree) : sel_type := let 'Tree ty _ _ := t in ty.
Definition tree_part (t : sel_tree) : Z := let 'Tree _ p _ := t in p.
Definition tree_nodes (t : sel_tree) : list (SEL_ARG * option sel_tree) := let 'Tree _ _ ns := t in ns.

Section keys.
Context {K : KeyCompare} (kp : Z -> KEY_PART) (last_part : Z) (start_key : bool).

(** Whether the key part after [key_tree] is appended too. *)
Definition continues (key_tree : SEL_ARG) (nkp : sel_tree) (range_key_flag : Z) (stop : Z) : bool :=
  bool_decide (tree_type nkp = KEY_RANGE) && negb (part key_tree =? last_part) && (tree_part nkp =? part key_tree + 1) && negb (c_true (range_key_flag .& stop)).

(** The number of parts appended, the key and the flag. *)
Fixpoint store_min_key (t : sel_tree) (range_key : value) (range_key_flag : Z) : option (Z * value * Z) :=
  match t with
  | Tree _ _ ((key_tree, nkp) :: _) =>
      b ← store_min key_tree (store_length (kp (part key_tree))) range_key_flag;
      match b with
      | None => Some (0, range_key, range_key_flag)
      | Some b =>
          let range_key := range_key ++ b in
          let range_key_flag := range_key_flag .| min_flag key_tree in
          match nkp with
          | None => Some (1, range_key, range_key_flag)
          | Some nkp =>
              if continues key_tree nkp range_key_flag (NO_MIN_RANGE .| NEAR_MIN)
              then let asc := negb (is_reverse kp (part key_tree)) in
                   if eqb start_key asc
                   then '(n, k, f) ← store_min_key nkp range_key range_key_flag; Some (1 + n, k, f)
                   else '(n, k, f) ← store_max_key nkp range_key (invert_min_flag range_key_flag); Some (1 + n, k, invert_max_flag f)
              else Some (1, range_key, range_key_flag)
          end
      end
  | Tree _ _ [] => None
  end
with store_max_key (t : sel_tree) (range_key : value) (range_key_flag : Z) : option (Z * value * Z) :=
  match t with
  | Tree _ _ nodes =>
      (fix at_last (nodes : list (SEL_ARG * option sel_tree)) :=
        match nodes with
        | [] => None
        | [(key_tree, nkp)] =>
            b ← store_max key_tree (store_length (kp (part key_tree))) range_key_flag;
            match b with
            | None => Some (0, range_key, range_key_flag)
            | Some b =>
                let range_key := range_key ++ b in
                let range_key_flag := range_key_flag .| max_flag key_tree in
                match nkp with
                | None => Some (1, range_key, range_key_flag)
                | Some nkp =>
                    if continues key_tree nkp range_key_flag (NO_MAX_RANGE .| NEAR_MAX)
                    then let asc := negb (is_reverse kp (part key_tree)) in
                         if (negb start_key && asc) || (start_key && negb asc)
                         then '(n, k, f) ← store_max_key nkp range_key range_key_flag; Some (1 + n, k, f)
                         else '(n, k, f) ← store_min_key nkp range_key (invert_max_flag range_key_flag); Some (1 + n, k, invert_min_flag f)
                    else Some (1, range_key, range_key_flag)
                end
            end
        | _ :: nodes => at_last nodes
        end) nodes
  end.
End keys.

(** * Ranges for the storage engine *)

Inductive ha_rkey_function := HA_READ_KEY_EXACT | HA_READ_KEY_OR_NEXT | HA_READ_BEFORE_KEY | HA_READ_AFTER_KEY.
Record QUICK_RANGE := mkQuick { min_key : value; max_key : value; min_length : Z; max_length : Z; quick_flag : Z; min_keypart_map : Z; max_keypart_map : Z }.
Record key_range := mkKeyRange { kr_key : value; kr_length : Z; kr_keypart_map : Z; kr_flag : ha_rkey_function }.

Definition make_min_endpoint (q : QUICK_RANGE) : key_range :=
  mkKeyRange (min_key q) (min_length q) (min_keypart_map q)
    (if c_true (quick_flag q .& NEAR_MIN) then HA_READ_AFTER_KEY else if c_true (quick_flag q .& EQ_RANGE) then HA_READ_KEY_EXACT else HA_READ_KEY_OR_NEXT).
Definition make_max_endpoint (q : QUICK_RANGE) : key_range :=
  mkKeyRange (max_key q) (max_length q) (max_keypart_map q) (if c_true (quick_flag q .& NEAR_MAX) then HA_READ_BEFORE_KEY else HA_READ_AFTER_KEY).
Definition limit_endpoint (prefix_length keypart_map : Z) (kr : key_range) : key_range :=
  mkKeyRange (kr_key kr) (Z.min (kr_length kr) prefix_length) (kr_keypart_map kr .& keypart_map) (kr_flag kr).
Definition make_min_endpoint_prefix (q : QUICK_RANGE) (prefix_length keypart_map : Z) : key_range := limit_endpoint prefix_length keypart_map (make_min_endpoint q).
Definition make_max_endpoint_prefix (q : QUICK_RANGE) (prefix_length keypart_map : Z) : key_range := limit_endpoint prefix_length keypart_map (make_max_endpoint q).

(** Evaluates the tests on flags that are constants. *)
Ltac flags := repeat match goal with
  | |- context [c_true (Z.land ?a ?b)] => let v := eval vm_compute in (c_true (Z.land a b)) in match v with true => idtac | false => idtac end; change (c_true (Z.land a b)) with v
  end.

(** * The order of bounds *)

Section order.
Context {K : KeyCompare} {KL : KeyCompareLaws K}.
Implicit Types (a b c v : value).

Lemma val_cmp_opp part a b : Z.sgn (val_cmp part a b) = - Z.sgn (val_cmp part b a).
Proof. unfold val_cmp. destruct (is_null part a), (is_null part b); try done. apply key_cmp_opp. Qed.
Lemma val_cmp_refl part a : val_cmp part a a = 0.
Proof. pose proof (val_cmp_opp part a a). lia. Qed.
Lemma val_cmp_trans part a b c : val_cmp part a b <= 0 -> val_cmp part b c <= 0 -> val_cmp part a c <= 0.
Proof. unfold val_cmp. destruct (is_null part a), (is_null part b), (is_null part c); try lia. apply key_cmp_trans. Qed.
(** Values that compare equal compare alike. *)
Lemma val_cmp_congr part a b c : val_cmp part a b = 0 -> Z.sgn (val_cmp part a c) = Z.sgn (val_cmp part b c).
Proof.
  intros E. pose proof (val_cmp_opp part a b). pose proof (val_cmp_opp part a c). pose proof (val_cmp_opp part b c).
  pose proof (val_cmp_trans part a b c). pose proof (val_cmp_trans part b a c). pose proof (val_cmp_trans part c a b). pose proof (val_cmp_trans part c b a). lia.
Qed.

Lemma val_cmp_lt_le part a b c : val_cmp part a b < 0 -> val_cmp part b c <= 0 -> val_cmp part a c < 0.
Proof. intros H1 H2. pose proof (val_cmp_opp part a b). pose proof (val_cmp_opp part a c). pose proof (val_cmp_trans part b c a). lia. Qed.
Lemma val_cmp_le_lt part a b c : val_cmp part a b <= 0 -> val_cmp part b c < 0 -> val_cmp part a c < 0.
Proof. intros H1 H2. pose proof (val_cmp_opp part b c). pose proof (val_cmp_opp part a c). pose proof (val_cmp_trans part c a b). lia. Qed.
Lemma val_cmp_eq_trans part a b c : val_cmp part a b = 0 -> val_cmp part b c = 0 -> val_cmp part a c = 0.
Proof. intros E1 E2. pose proof (val_cmp_congr part a b c E1). lia. Qed.

Lemma beside_range f : -1 <= beside f <= 1.
Proof. unfold beside. destruct (c_true _); [lia|]. destruct (c_true _); lia. Qed.
Lemma beyond_range f : -1 <= beyond f <= 1.
Proof. unfold beyond. destruct (c_true _); [lia|]. destruct (c_true _); lia. Qed.

Lemma bound_cmp_opp part a fa b fb : Z.sgn (bound_cmp part a fa b fb) = - Z.sgn (bound_cmp part b fb a fa).
Proof.
  unfold bound_cmp. pose proof (val_cmp_opp part a b). rewrite (andb_comm (beyond fb =? 0)). destruct ((beyond fa =? 0) && (beyond fb =? 0)); [|lia].
  destruct (Z.eqb_spec (val_cmp part a b) 0), (Z.eqb_spec (val_cmp part b a) 0); lia.
Qed.
Lemma bound_cmp_trans part a fa b fb c fc : bound_cmp part a fa b fb <= 0 -> bound_cmp part b fb c fc <= 0 -> bound_cmp part a fa c fc <= 0.
Proof.
  unfold bound_cmp. pose proof (beyond_range fa). pose proof (beyond_range fb). pose proof (beyond_range fc).
  destruct (Z.eqb_spec (beyond fa) 0), (Z.eqb_spec (beyond fb) 0), (Z.eqb_spec (beyond fc) 0); cbn [andb]; try lia.
  pose proof (val_cmp_lt_le part a b c) as H2. pose proof (val_cmp_le_lt part a b c) as H3. pose proof (val_cmp_eq_trans part a b c) as H4.
  destruct (Z.eqb_spec (val_cmp part a b) 0) as [E1|N1], (Z.eqb_spec (val_cmp part b c) 0) as [E2|N2]; intros L1 L2.
  - rewrite (H4 E1 E2). cbn [Z.eqb]. lia.
  - assert (val_cmp part a c < 0) by (apply H3; lia). rewrite (proj2 (Z.eqb_neq _ _)) by lia. lia.
  - assert (val_cmp part a c < 0) by (apply H2; lia). rewrite (proj2 (Z.eqb_neq _ _)) by lia. lia.
  - assert (val_cmp part a c < 0) by (apply H2; lia). rewrite (proj2 (Z.eqb_neq _ _)) by lia. lia.
Qed.
Lemma sel_cmp_le part a fa b fb : sel_cmp part a b fa fb <= 0 <-> bound_cmp part a fa b fb <= 0.
Proof. pose proof (sel_cmp_sgn part a b fa fb). lia. Qed.
Lemma sel_cmp_ge part a fa b fb : 0 <= sel_cmp part a b fa fb <-> bound_cmp part b fb a fa <= 0.
Proof. pose proof (sel_cmp_sgn part a b fa fb). pose proof (bound_cmp_opp part a fa b fb). lia. Qed.

(** ** What an interval contains *)

(** Whether a flag has a bit. *)
Definition has (flag bit : Z) : bool := c_true (flag .& bit).
Definition above (s : SEL_ARG) (x : value) : Prop :=
  has (min_flag s) NO_MIN_RANGE = true \/ if has (min_flag s) NEAR_MIN then 0 < val_cmp (part s) x (min_value s) else 0 <= val_cmp (part s) x (min_value s).
Definition below (s : SEL_ARG) (x : value) : Prop :=
  has (max_flag s) NO_MAX_RANGE = true \/ if has (max_flag s) NEAR_MAX then val_cmp (part s) x (max_value s) < 0 else val_cmp (part s) x (max_value s) <= 0.
Definition in_interval (s : SEL_ARG) (x : value) : Prop := above s x /\ below s x.

(** The flags of each bound are those of its side, and the interval is of no spatial index. *)
Record sel_ok (s : SEL_ARG) : Prop := {
  ok_min : has (min_flag s) NO_MAX_RANGE = false /\ has (min_flag s) NEAR_MAX = false /\ has (min_flag s) GEOM_FLAG = false;
  ok_max : has (max_flag s) NO_MIN_RANGE = false /\ has (max_flag s) NEAR_MIN = false
}.

Lemma above_bound s x : sel_ok s -> above s x <-> bound_cmp (part s) (min_value s) (min_flag s) x 0 <= 0.
Proof.
  intros [(H1 & H2 & _) _]. unfold above, bound_cmp, beyond, beside. unfold has in *. rewrite H1, H2. flags. pose proof (val_cmp_opp (part s) x (min_value s)).
  destruct (c_true (min_flag s .& NO_MIN_RANGE)); cbn [Z.eqb andb]; [split; [lia|by left]|].
  destruct (Z.eqb_spec (val_cmp (part s) (min_value s) x) 0), (c_true (min_flag s .& NEAR_MIN)); split; intros; try (destruct H0; [done|lia]); try (right; lia); lia.
Qed.
Lemma below_bound s x : sel_ok s -> below s x <-> bound_cmp (part s) x 0 (max_value s) (max_flag s) <= 0.
Proof.
  intros [_ (H1 & H2)]. unfold below, bound_cmp, beyond, beside. unfold has in *. rewrite H1, H2. flags. cbn [Z.eqb andb].
  destruct (c_true (max_flag s .& NO_MAX_RANGE)); cbn [Z.eqb]; [split; [lia|by left]|].
  destruct (Z.eqb_spec (val_cmp (part s) x (max_value s)) 0), (c_true (max_flag s .& NEAR_MAX)); split; intros; try (destruct H; [done|lia]); try (right; lia); lia.
Qed.
End order.

(** * Intervals as sets of values *)

Section sets.
Context {K : KeyCompare} {KL : KeyCompareLaws K}.
Implicit Types (s arg : SEL_ARG) (x : value).

Lemma above_mono s arg x : sel_ok s -> sel_ok arg -> part s = part arg ->
  bound_cmp (part s) (min_value arg) (min_flag arg) (min_value s) (min_flag s) <= 0 -> above s x -> above arg x.
Proof. intros Hs Ha Hp Hle. rewrite !above_bound, <-Hp by done. by apply bound_cmp_trans. Qed.
Lemma below_mono s arg x : sel_ok s -> sel_ok arg -> part s = part arg ->
  bound_cmp (part s) (max_value s) (max_flag s) (max_value arg) (max_flag arg) <= 0 -> below s x -> below arg x.
Proof. intros Hs Ha Hp Hle. rewrite !below_bound, <-Hp by done. intros H. by eapply bound_cmp_trans. Qed.

(** The tighter and the looser of two lower, and of two upper bounds. *)
Lemma min_to_min_spec s arg x : sel_ok s -> sel_ok arg -> part s = part arg ->
  if 0 <=? cmp_min_to_min s arg then above s x -> above arg x else above arg x -> above s x.
Proof.
  intros Hs Ha Hp. unfold cmp_min_to_min. pose proof (sel_cmp_ge (part s) (min_value s) (min_flag s) (min_value arg) (min_flag arg)).
  pose proof (bound_cmp_opp (part s) (min_value s) (min_flag s) (min_value arg) (min_flag arg)).
  destruct (Z.leb_spec 0 (sel_cmp (part s) (min_value s) (min_value arg) (min_flag s) (min_flag arg))); apply above_mono; try done; rewrite <-?Hp; lia.
Qed.
Lemma max_to_max_spec s arg x : sel_ok s -> sel_ok arg -> part s = part arg ->
  if cmp_max_to_max s arg <=? 0 then below s x -> below arg x else below arg x -> below s x.
Proof.
  intros Hs Ha Hp. unfold cmp_max_to_max. pose proof (sel_cmp_le (part s) (max_value s) (max_flag s) (max_value arg) (max_flag arg)).
  pose proof (bound_cmp_opp (part s) (max_value s) (max_flag s) (max_value arg) (max_flag arg)).
  destruct (Z.leb_spec (sel_cmp (part s) (max_value s) (max_value arg) (max_flag s) (max_flag arg)) 0); apply below_mono; try done; rewrite <-?Hp; lia.
Qed.
(** Comparing for [0 <], as [copy_min] does, gives the same sets. *)
Lemma min_to_min_strict s arg x : sel_ok s -> sel_ok arg -> part s = part arg ->
  if 0 <? cmp_min_to_min s arg then above s x -> above arg x else above arg x -> above s x.
Proof.
  intros Hs Ha Hp. unfold cmp_min_to_min. pose proof (sel_cmp_le (part s) (min_value s) (min_flag s) (min_value arg) (min_flag arg)).
  pose proof (bound_cmp_opp (part s) (min_value s) (min_flag s) (min_value arg) (min_flag arg)).
  destruct (Z.ltb_spec 0 (sel_cmp (part s) (min_value s) (min_value arg) (min_flag s) (min_flag arg))); apply above_mono; try done; rewrite <-?Hp; lia.
Qed.

Lemma above_clone_and s arg x : sel_ok s -> sel_ok arg -> part s = part arg -> above (clone_and s arg) x <-> above s x /\ above arg x.
Proof.
  intros Hs Ha Hp. pose proof (min_to_min_spec s arg x Hs Ha Hp) as Hm. unfold clone_and.
  destruct (0 <=? cmp_min_to_min s arg), (cmp_max_to_max s arg <=? 0); unfold above in *; cbn [new_sel min_flag min_value part] in *; rewrite <-?Hp in *; tauto.
Qed.
Lemma below_clone_and s arg x : sel_ok s -> sel_ok arg -> part s = part arg -> below (clone_and s arg) x <-> below s x /\ below arg x.
Proof.
  intros Hs Ha Hp. pose proof (max_to_max_spec s arg x Hs Ha Hp) as Hm. unfold clone_and.
  destruct (0 <=? cmp_min_to_min s arg), (cmp_max_to_max s arg <=? 0); unfold below in *; cbn [new_sel max_flag max_value part] in *; rewrite <-?Hp in *; tauto.
Qed.

(** Turning a lower bound into the upper bound of what lies before it, and back. *)
Lemma below_copy_min_to_max s arg x : sel_ok arg -> part s = part arg -> has (min_flag arg) NO_MIN_RANGE = false ->
  below (copy_min_to_max s arg) x <-> ~ above arg x.
Proof.
  intros [(_ & H2 & _) _] Hp Hno. unfold below, above, copy_min_to_max. cbn [with_max max_flag max_value part]. rewrite Hp. unfold has in *. rewrite Hno.
  destruct (c_true (min_flag arg .& NEAR_MIN)); flags; (split; [intros [?|?] [?|?]; done || lia|]); intros H; right;
    (apply Z.nlt_ge || apply Z.nle_gt); intros ?; apply H; right; lia.
Qed.
Lemma above_copy_max_to_min s arg x : sel_ok arg -> part s = part arg -> has (max_flag arg) NO_MAX_RANGE = false ->
  above (copy_max_to_min s arg) x <-> ~ below arg x.
Proof.
  intros [_ (H2 & _)] Hp Hno. unfold below, above, copy_max_to_min. cbn [with_min min_flag min_value part]. rewrite Hp. unfold has in *. rewrite Hno.
  destruct (c_true (max_flag arg .& NEAR_MAX)); flags; (split; [intros [?|?] [?|?]; done || lia|]); intros H; right;
    (apply Z.nlt_ge || apply Z.nle_gt); intros ?; apply H; right; lia.
Qed.

(** The operations on intervals are those on sets of values: [clone_and] is the
    intersection; [copy_min] and [copy_max] extend an interval to the lower and the
    upper bound of another if that is further; [copy_min_to_max] and
    [copy_max_to_min] end an interval just before another and start it just behind
    one, whether the bounds are open or closed; [clone_first] and [clone_last] are the
    two together. *)
Theorem interval_algebra s arg x : sel_ok s -> sel_ok arg -> part s = part arg ->
  (in_interval (clone_and s arg) x <-> in_interval s x /\ in_interval arg x) /\
  (in_interval (copy_min s arg).2 x <-> (above s x \/ above arg x) /\ below s x) /\
  (in_interval (copy_max s arg).2 x <-> above s x /\ (below s x \/ below arg x)) /\
  (has (min_flag arg) NO_MIN_RANGE = false ->
     (in_interval (copy_min_to_max s arg) x <-> above s x /\ ~ above arg x) /\ (in_interval (clone_first s arg) x <-> above s x /\ ~ above arg x)) /\
  (has (max_flag arg) NO_MAX_RANGE = false -> (in_interval (copy_max_to_min s arg) x <-> ~ below arg x /\ below s x)) /\
  (in_interval (clone_last s arg) x <-> above s x /\ below arg x).
Proof.
  intros Hs Ha Hp. split_and!.
  - unfold in_interval. rewrite above_clone_and, below_clone_and by done. tauto.
  - pose proof (min_to_min_strict s arg x Hs Ha Hp) as Hm. unfold copy_min. destruct (0 <? cmp_min_to_min s arg); [destruct (full_range_flags _)|];
      unfold in_interval, above, below in *; cbn [snd with_min merge_flags min_flag min_value max_flag max_value part] in *; rewrite <-?Hp in *; tauto.
  - pose proof (max_to_max_spec s arg x Hs Ha Hp) as Hm. unfold copy_max. destruct (cmp_max_to_max s arg <=? 0); [destruct (full_range_flags _)|];
      unfold in_interval, above, below in *; cbn [snd with_max merge_flags min_flag min_value max_flag max_value part] in *; rewrite <-?Hp in *; tauto.
  - intros Hno. pose proof (below_copy_min_to_max s arg x Ha Hp Hno) as Hb. unfold in_interval.
    assert (below (clone_first s arg) x <-> below (copy_min_to_max s arg) x) as -> by done.
    assert (above (clone_first s arg) x <-> above s x) as -> by done. assert (above (copy_min_to_max s arg) x <-> above s x) as -> by done. tauto.
  - intros Hno. pose proof (above_copy_max_to_min s arg x Ha Hp Hno) as Hb. unfold in_interval. assert (below (copy_max_to_min s arg) x <-> below s x) as -> by done. tauto.
  - unfold in_interval, above, below. cbn. by rewrite Hp.
Qed.

(** The test for the full range looks at the flags of the upper bound alone, which
    never say that the lower bound is missing: neither operation ever reports the full
    range, not even when the interval has become one. *)
Theorem full_range_never_reported s arg : sel_ok s -> sel_ok arg ->
  (copy_min s arg).1 = false /\ (copy_max s arg).1 = false.
Proof.
  assert (forall f, has f NO_MIN_RANGE = false -> full_range_flags f = false) as Hf.
  { intros f Hf. unfold full_range_flags. apply Z.eqb_neq. intros E. unfold has in Hf. apply c_true_false in Hf.
    assert (f .& NO_MIN_RANGE = (f .& (NO_MAX_RANGE .| NO_MIN_RANGE)) .& NO_MIN_RANGE) as E' by (by rewrite <-Z.land_assoc). rewrite E' in Hf. rewrite E in Hf. done. }
  intros [_ (Hs & _)] [_ (Ha & _)]. unfold copy_min, copy_max. cbn [with_min with_max max_flag]. rewrite (Hf _ Hs), (Hf _ Ha).
  split; [by destruct (_ <? _)|by destruct (_ <=? _)].
Qed.

(** The null marker of a value is 0 or 1. *)
Definition marked s : Prop := real_maybe_null (part s) = true -> hd 0 (min_value s) ∈ [0; 1] /\ hd 0 (max_value s) ∈ [0; 1].

(** [is_singlepoint] answers whether both bounds are closed and equal; such an
    interval holds exactly the values equal to its bound, or only NULL. *)
Theorem is_singlepoint_spec s x : marked s ->
  (is_singlepoint s = true <-> min_flag s = 0 /\ max_flag s = 0 /\ val_cmp (part s) (min_value s) (max_value s) = 0) /\
  (is_singlepoint s = true -> in_interval s x <-> val_cmp (part s) x (min_value s) = 0).
Proof.
  intros Hm. assert (is_singlepoint s = true <-> min_flag s = 0 /\ max_flag s = 0 /\ val_cmp (part s) (min_value s) (max_value s) = 0) as H.
  { unfold is_singlepoint, c_true, val_cmp, is_null, key_data. destruct (Z.eqb_spec (min_flag s) 0), (Z.eqb_spec (max_flag s) 0); cbn [negb orb]; try (split; [done|lia]).
    destruct (real_maybe_null (part s)) eqn:Er; cbn [andb].
    - destruct (Hm Er) as [H1 H2]. unfold c_true. cbn in H1, H2. repeat setoid_rewrite elem_of_cons in H1. repeat setoid_rewrite elem_of_cons in H2. rewrite elem_of_nil in H1, H2.
      destruct (Z.eqb_spec (hd 0 (min_value s)) (hd 0 (max_value s))) as [E|N]; cbn [negb].
      + rewrite <-E. destruct (Z.eqb_spec (hd 0 (min_value s)) 0); cbn [negb]; [rewrite Z.eqb_eq; tauto|tauto].
      + split; [done|]. intros (_ & _ & Hv). destruct (Z.eqb_spec (hd 0 (min_value s)) 0), (Z.eqb_spec (hd 0 (max_value s)) 0); cbn [negb] in Hv; lia.
    - rewrite Z.eqb_eq. tauto. }
  split; [done|]. intros (E1 & E2 & E3)%H. unfold in_interval, above, below, has. rewrite E1, E2. flags.
  pose proof (val_cmp_congr (part s) _ _ x E3). pose proof (val_cmp_opp (part s) x (min_value s)). pose proof (val_cmp_opp (part s) x (max_value s)).
  split; [intros [[?|?] [?|?]]; [done|done|done|lia]|intros E; split; right; lia].
Qed.

(** Two lists of intervals that [all_same] accepts hold the same values. *)
Theorem all_same_sound s cur_args arg cmp_args x : all_same false s cur_args arg cmp_args = true -> type s = KEY_RANGE ->
  Forall (λ i, sel_ok i /\ type i = KEY_RANGE) cur_args -> Forall sel_ok cmp_args ->
  Exists (λ i, in_interval i x) cur_args <-> Exists (λ i, in_interval i x) cmp_args.
Proof.
  unfold all_same. intros H Hty. destruct (negb _); [done|]. rewrite bool_decide_true in H by done. cbn [negb] in H. clear Hty s arg. revert cmp_args H.
  induction cur_args as [|i cur_args IH]; intros [|j cmp_args] H Hc Ha; cbn [same_intervals] in H; try done.
  destruct (is_same i j) eqn:E; [|done]. apply Forall_cons in Hc as [[Hi Hti] Hc]. apply Forall_cons in Ha as [Hj Ha].
  assert (in_interval i x <-> in_interval j x) as Hij.
  { unfold is_same in E. destruct (bool_decide (type i = type j)); [|done]. destruct (Z.eqb_spec (part i) (part j)) as [Hp|]; [|done]. cbn [andb negb] in E.
    rewrite bool_decide_true in E by done. cbn [negb] in E. apply andb_true_iff in E as [E1%Z.eqb_eq E2%Z.eqb_eq].
    pose proof (min_to_min_spec i j x Hi Hj Hp) as M1. pose proof (min_to_min_strict i j x Hi Hj Hp) as M2. pose proof (max_to_max_spec i j x Hi Hj Hp) as M3. rewrite E1 in M1, M2. rewrite E2 in M3. cbn in M1, M2, M3.
    assert (below j x -> below i x) as M4.
    { apply below_mono; [done|done|done|]. rewrite <-Hp. unfold cmp_max_to_max in E2. pose proof (sel_cmp_sgn (part i) (max_value i) (max_value j) (max_flag i) (max_flag j)).
      pose proof (bound_cmp_opp (part i) (max_value i) (max_flag i) (max_value j) (max_flag j)). lia. }
    unfold in_interval. tauto. }
  rewrite !Exists_cons, Hij, IH by done. done.
Qed.
End sets.

(** * Endpoints bound the rows *)

Section endpoints.
Context {K : KeyCompare} {KL : KeyCompareLaws K} (kp : Z -> KEY_PART) (last_part : Z) (start_key : bool).
Implicit Types (row : Z -> value) (i j : SEL_ARG) (vs : list value).

(** A value as it is stored: as many bytes as the key part has. *)
Definition value_ok (p : Z) (v : value) : Prop := is_null p v = false -> Z.of_nat (length v) = store_length (kp p).
(** An interval of the part [p] with its bounds in order. *)
Record node_ok (p : Z) i : Prop := {
  nd_part : part i = p;
  nd_flags : sel_ok i;
  nd_values : (has (min_flag i) NO_MIN_RANGE = false -> value_ok p (min_value i)) /\ (has (max_flag i) NO_MAX_RANGE = false -> value_ok p (max_value i));
  nd_order : bound_cmp p (min_value i) (min_flag i) (max_value i) (max_flag i) <= 0
}.
Definition before (p : Z) i j : Prop := bound_cmp p (max_value i) (max_flag i) (min_value j) (min_flag j) < 0.
(** The intervals of each part are disjoint and in order. *)
Inductive tree_ok : sel_tree -> Prop :=
  | tree_ok_intro p nodes : nodes <> [] -> Forall (λ n, node_ok p n.1) nodes -> StronglySorted (λ n m, before p n.1 m.1) nodes ->
      (forall i t, (i, Some t) ∈ nodes -> tree_type t = KEY_RANGE -> tree_ok t) -> tree_ok (Tree KEY_RANGE p nodes).
(** The rows that a tree accepts; only intervals are considered. *)
Inductive tree_in row : sel_tree -> Prop :=
  | in_other t : tree_type t <> KEY_RANGE -> tree_in row t
  | in_node p nodes i nkp : (i, nkp) ∈ nodes -> in_interval i (row (part i)) -> (forall t, nkp = Some t -> tree_in row t) -> tree_in row (Tree KEY_RANGE p nodes).

(** A row's key parts from [p] on against the stored values, in the order of values. *)
Fixpoint lex (p : Z) vs row : Z :=
  match vs with [] => 0 | v :: vs => let c := val_cmp p (row p) v in if c =? 0 then lex (p + 1) vs row else c end.

Lemma has_lor a b n : 0 <= n -> has (a .| b) (2 ^ n) = has a (2 ^ n) || has b (2 ^ n).
Proof. intros Hn. unfold has. by rewrite !c_true_land_pow2, Z.lor_spec. Qed.

Lemma store_value_ok i p v : part i = p -> value_ok p v -> exists b, store_value i v (store_length (kp p)) = Some b /\ forall x, Z.sgn (val_cmp p x b) = Z.sgn (val_cmp p x v).
Proof.
  intros Hp Hv. unfold store_value, value_ok, is_null in *. rewrite Hp. destruct (real_maybe_null p && c_true (hd 0 v)) eqn:En.
  - eexists. split; [done|]. intros x. unfold val_cmp, is_null. rewrite En. apply andb_true_iff in En as [-> _]. cbn. by destruct (c_true (hd 0 x)).
  - specialize (Hv eq_refl). eexists. rewrite asserting_true by (apply Z.leb_le; lia). split; [done|]. intros x. by rewrite <-Hv, Nat2Z.id, firstn_all.
Qed.

Lemma bound_lt_le p a fa b fb c fc : bound_cmp p a fa b fb < 0 -> bound_cmp p b fb c fc <= 0 -> bound_cmp p a fa c fc < 0.
Proof. intros H1 H2. pose proof (bound_cmp_opp p a fa b fb). pose proof (bound_cmp_opp p a fa c fc). pose proof (bound_cmp_trans p b fb c fc a fa H2). lia. Qed.
Lemma bound_le_lt p a fa b fb c fc : bound_cmp p a fa b fb <= 0 -> bound_cmp p b fb c fc < 0 -> bound_cmp p a fa c fc < 0.
Proof. intros H1 H2. pose proof (bound_cmp_opp p b fb c fc). pose proof (bound_cmp_opp p a fa c fc). pose proof (bound_cmp_trans p c fc a fa b fb). lia. Qed.

(** The first interval bounds all from below, the others strictly; so does the last from above. *)
Lemma first_bounds p (a : SEL_ARG * option sel_tree) nodes : Forall (λ n, node_ok p n.1) (a :: nodes) -> StronglySorted (λ n m, before p n.1 m.1) (a :: nodes) ->
  forall n x, n ∈ nodes -> above n.1 x -> bound_cmp p (min_value a.1) (min_flag a.1) x 0 < 0.
Proof.
  intros [[Hp Hf _ Ho] Hall]%Forall_cons Hs n x Hn Hx. apply StronglySorted_inv in Hs as [_ Hs].
  destruct (proj1 (Forall_forall _ _) Hall n Hn) as [Hpn Hfn _ _]. apply above_bound in Hx; [|done]. rewrite Hpn in Hx.
  pose proof (proj1 (Forall_forall _ _) Hs n Hn) as Hb. unfold before in Hb. eapply bound_le_lt; [exact Ho|]. by eapply bound_lt_le.
Qed.
Lemma last_bounds p (a : SEL_ARG * option sel_tree) nodes : Forall (λ n, node_ok p n.1) (nodes ++ [a]) -> StronglySorted (λ n m, before p n.1 m.1) (nodes ++ [a]) ->
  forall n x, n ∈ nodes -> below n.1 x -> bound_cmp p x 0 (max_value a.1) (max_flag a.1) < 0.
Proof.
  intros [Hall [[Hp Hf _ Ho] _]%Forall_cons]%Forall_app Hs n x Hn Hx.
  destruct (proj1 (Forall_forall _ _) Hall n Hn) as [Hpn Hfn _ _]. apply below_bound in Hx; [|done]. rewrite Hpn in Hx.
  assert (before p n.1 a.1) as Hb.
  { apply list_elem_of_split in Hn as (l1 & l2 & ->). rewrite <-app_assoc in Hs. clear -Hs. induction l1 as [|b l1 IH]; cbn [app] in Hs; apply StronglySorted_inv in Hs as [Hs Hf]; [|by apply IH].
    apply (proj1 (Forall_forall _ _) Hf). apply elem_of_app. right. left. }
  unfold before in Hb. eapply bound_le_lt; [exact Hx|]. by eapply bound_lt_le.
Qed.

(** What a stored endpoint says of every row of a tree: none lies before it (behind it),
    and none is at it if the last stored bound is open. *)
Definition bounds_below (p : Z) vs (open : bool) (t : sel_tree) : Prop :=
  forall row, tree_in row t -> 0 <= lex p vs row /\ (open = true -> 0 < lex p vs row).
Definition bounds_above (p : Z) vs (open : bool) (t : sel_tree) : Prop :=
  forall row, tree_in row t -> lex p vs row <= 0 /\ (open = true -> lex p vs row < 0).

(** One key part: the row is strictly inside, or equal to a closed bound, of the first
    interval, and what follows decides. *)
Lemma bounds_below_node p i nkp nodes b vs open : tree_ok (Tree KEY_RANGE p ((i, nkp) :: nodes)) ->
  has (min_flag i) NO_MIN_RANGE = false -> (forall x, Z.sgn (val_cmp p x b) = Z.sgn (val_cmp p x (min_value i))) ->
  (if has (min_flag i) NEAR_MIN then vs = [] else forall row, (forall t, nkp = Some t -> tree_in row t) -> 0 <= lex (p + 1) vs row /\ (open = true -> 0 < lex (p + 1) vs row)) ->
  bounds_below p (b :: vs) open (Tree KEY_RANGE p ((i, nkp) :: nodes)).
Proof.
  intros Hok Hno Hb Hrest row Hin. inversion Hok as [? ? _ Hall Hsort _]; subst. pose proof Hall as [[Hp Hf _ _] _]%Forall_cons. cbn [fst] in *.
  inversion Hin as [? Hty|? ? j nj Hj Hx Ht]; subst; [done|]. cbn [lex]. specialize (Hb (row (part i))).
  apply elem_of_cons in Hj as [[= -> ->]|Hj].
  - destruct Hx as [Hx _]. unfold above in Hx. rewrite Hno in Hx. destruct Hx as [?|Hx]; [done|].
    destruct (has (min_flag i) NEAR_MIN); [rewrite (proj2 (Z.eqb_neq _ _)) by lia; lia|].
    destruct (Z.eqb_spec (val_cmp (part i) (row (part i)) b) 0); [by apply Hrest|lia].
  - assert (part j = part i) as Hpj by (pose proof (proj1 (Forall_forall _ _) Hall (j, nj) ltac:(by right)) as [? _ _ _]; done). rewrite Hpj in Hx. destruct Hx as [Hx _].
    pose proof (first_bounds (part i) (i, nkp) nodes Hall Hsort (j, nj) (row (part i)) Hj Hx) as Hlt. cbn [fst] in Hlt.
    unfold bound_cmp, beyond, beside in Hlt. destruct Hf as [(H1 & H2 & _) _]. unfold has in *. rewrite Hno, H1, H2 in Hlt.
    change (c_true (0 .& NO_MIN_RANGE)) with false in Hlt. change (c_true (0 .& NO_MAX_RANGE)) with false in Hlt. change (c_true (0 .& NEAR_MIN)) with false in Hlt. change (c_true (0 .& NEAR_MAX)) with false in Hlt. cbn [Z.eqb andb] in Hlt.
    pose proof (val_cmp_opp (part i) (row (part i)) (min_value i)). destruct (Z.eqb_spec (val_cmp (part i) (min_value i) (row (part i))) 0); [destruct (c_true (min_flag i .& NEAR_MIN)); lia|].
    rewrite (proj2 (Z.eqb_neq _ _)) by lia. lia.
Qed.
Lemma bounds_above_node p i nkp nodes b vs open : tree_ok (Tree KEY_RANGE p (nodes ++ [(i, nkp)])) ->
  has (max_flag i) NO_MAX_RANGE = false -> (forall x, Z.sgn (val_cmp p x b) = Z.sgn (val_cmp p x (max_value i))) ->
  (if has (max_flag i) NEAR_MAX then vs = [] else forall row, (forall t, nkp = Some t -> tree_in row t) -> lex (p + 1) vs row <= 0 /\ (open = true -> lex (p + 1) vs row < 0)) ->
  bounds_above p (b :: vs) open (Tree KEY_RANGE p (nodes ++ [(i, nkp)])).
Proof.
  intros Hok Hno Hb Hrest row Hin. inversion Hok as [? ? _ Hall Hsort _]; subst. pose proof Hall as [_ [[Hp Hf _ _] _]%Forall_cons]%Forall_app. cbn [fst] in *.
  inversion Hin as [? Hty|? ? j nj Hj Hx Ht]; subst; [done|]. cbn [lex]. specialize (Hb (row (part i))).
  apply elem_of_app in Hj as [Hj|Hj].
  - assert (part j = part i) as Hpj by (pose proof (proj1 (Forall_forall _ _) Hall (j, nj) ltac:(apply elem_of_app; by left)) as [? _ _ _]; done). rewrite Hpj in Hx. destruct Hx as [_ Hx].
    pose proof (last_bounds (part i) (i, nkp) nodes Hall Hsort (j, nj) (row (part i)) Hj Hx) as Hlt. cbn [fst] in Hlt.
    unfold bound_cmp, beyond, beside in Hlt. destruct Hf as [_ (H1 & H2)]. unfold has in *. rewrite Hno, H1, H2 in Hlt.
    change (c_true (0 .& NO_MIN_RANGE)) with false in Hlt. change (c_true (0 .& NO_MAX_RANGE)) with false in Hlt. change (c_true (0 .& NEAR_MIN)) with false in Hlt. change (c_true (0 .& NEAR_MAX)) with false in Hlt. cbn [Z.eqb andb] in Hlt.
    destruct (Z.eqb_spec (val_cmp (part i) (row (part i)) (max_value i)) 0); [destruct (c_true (max_flag i .& NEAR_MAX)); lia|].
    rewrite (proj2 (Z.eqb_neq _ _)) by lia. lia.
  - apply list_elem_of_singleton in Hj as [= -> ->]. destruct Hx as [_ Hx]. unfold below in Hx. rewrite Hno in Hx. destruct Hx as [?|Hx]; [done|].
    destruct (has (max_flag i) NEAR_MAX); [rewrite (proj2 (Z.eqb_neq _ _)) by lia; lia|].
    destruct (Z.eqb_spec (val_cmp (part i) (row (part i)) b) 0); [by apply Hrest|lia].
Qed.

Lemma has_either f a b : c_true (f .& (a .| b)) = has f a || has f b.
Proof.
  unfold has, c_true. rewrite Z.land_lor_distr_r. destruct (Z.eqb_spec (f .& a) 0) as [->|Ha]; [by rewrite Z.lor_0_l|]. cbn [negb orb]. apply negb_true_iff, Z.eqb_neq.
  intros E. apply Z.lor_eq_0_iff in E as [E _]. done.
Qed.

(** [store_max_key] works on the last interval. *)
Lemma store_max_key_last ty p nodes i nkp range_key range_key_flag :
  store_max_key kp last_part start_key (Tree ty p (nodes ++ [(i, nkp)])) range_key range_key_flag =
  store_max_key kp last_part start_key (Tree ty p [(i, nkp)]) range_key range_key_flag.
Proof.
  induction nodes as [|n nodes IH]; [done|]. rewrite <-IH. clear IH. destruct nodes; [by destruct n|]. by destruct n.
Qed.

Lemma store_min_key_bounds t : tree_ok t -> (forall q, is_reverse kp q = negb start_key) ->
  forall range_key range_key_flag, has range_key_flag NO_MIN_RANGE = false -> has range_key_flag NEAR_MIN = false ->
  exists vs flag, store_min_key kp last_part start_key t range_key range_key_flag = Some (Z.of_nat (length vs), range_key ++ concat vs, flag) /\
    bounds_below (tree_part t) vs (has flag NEAR_MIN) t.
Proof.
  intros Hok Hdir. induction Hok as [p nodes Hne Hall Hsort Hsub IH]. intros range_key rf Hr1 Hr2. destruct nodes as [|[i nkp] nodes]; [done|].
  pose proof Hall as [[Hp Hf [Hv _] _] _]%Forall_cons. pose proof Hf as [(_ & _ & Hg) _]. cbn [fst tree_part] in *. subst p.
  assert (tree_ok (Tree KEY_RANGE (part i) ((i, nkp) :: nodes))) as Hok by (by constructor).
  cbn [store_min_key]. unfold store_min. rewrite has_either, Hr1, Hr2. unfold has in Hg. rewrite Hg. cbn [orb negb andb]. rewrite andb_true_r.
  destruct (has (min_flag i) NO_MIN_RANGE) eqn:Eno; unfold has in Eno; rewrite Eno; cbn [negb mbind option_bind].
  { exists [], rf. cbn [length Z.of_nat concat]. rewrite app_nil_r. split; [done|]. intros row _. cbn. rewrite Hr2. lia. }
  destruct (store_value_ok i (part i) (min_value i) eq_refl (Hv eq_refl)) as (b & Hb & Hbc). rewrite Hb. cbn [mbind option_bind].
  assert (has (rf .| min_flag i) NEAR_MIN = has (min_flag i) NEAR_MIN) as Hn by (change NEAR_MIN with (2 ^ 2) in *; by rewrite has_lor, Hr2 by lia).
  assert (has (rf .| min_flag i) NO_MIN_RANGE = false) as Hn' by (change NO_MIN_RANGE with (2 ^ 0) in *; unfold has in *; by rewrite c_true_land_pow2, Z.lor_spec, <-!c_true_land_pow2, Hr1, Eno by lia).
  assert (exists vs flag, Some (1, range_key ++ b, rf .| min_flag i) = Some (Z.of_nat (length vs), range_key ++ concat vs, flag) /\ bounds_below (part i) vs (has flag NEAR_MIN) (Tree KEY_RANGE (part i) ((i, nkp) :: nodes))) as Hstop.
  { exists [b], (rf .| min_flag i). cbn [length Z.of_nat Pos.of_succ_nat concat]. rewrite app_nil_r. split; [done|]. rewrite Hn. apply bounds_below_node; [done|done|done|].
    destruct (has (min_flag i) NEAR_MIN); [done|]. intros row _. cbn. lia. }
  destruct nkp as [t'|]; [|exact Hstop]. unfold continues. rewrite has_either, Hn, Hn'. cbn [orb].
  destruct (bool_decide (tree_type t' = KEY_RANGE)) eqn:Ety; [|exact Hstop]. apply bool_decide_eq_true in Ety.
  destruct (negb (part i =? last_part)); [|exact Hstop]. destruct (Z.eqb_spec (tree_part t') (part i + 1)) as [Ept|]; [|exact Hstop]. cbn [andb].
  destruct (has (min_flag i) NEAR_MIN) eqn:En; [exact Hstop|]. cbn [negb]. rewrite Hdir, negb_involutive, eqb_reflx.
  destruct (IH i t' ltac:(left) Ety (range_key ++ b) (rf .| min_flag i) Hn' Hn) as (vs & flag & Hs & Hbd). rewrite Hs. cbn [mbind option_bind].
  exists (b :: vs), flag. split; [cbn [length concat]; do 3 f_equal; [lia|by rewrite app_assoc]|].
  apply bounds_below_node; [done|done|done|]. rewrite En, <-Ept. intros row Ht. apply Hbd. by apply Ht.
Qed.

Lemma store_max_key_bounds t : tree_ok t -> (forall q, is_reverse kp q = start_key) ->
  forall range_key range_key_flag, has range_key_flag NO_MAX_RANGE = false -> has range_key_flag NEAR_MAX = false ->
  exists vs flag, store_max_key kp last_part start_key t range_key range_key_flag = Some (Z.of_nat (length vs), range_key ++ concat vs, flag) /\
    bounds_above (tree_part t) vs (has flag NEAR_MAX) t.
Proof.
  intros Hok Hdir. induction Hok as [p nodes Hne Hall Hsort Hsub IH]. intros range_key rf Hr1 Hr2.
  destruct (exists_last_or_nil nodes) as [->|(nodes' & [i nkp] & ->)]; [done|]. rename nodes' into nodes.
  pose proof Hall as [_ [[Hp Hf [_ Hv] _] _]%Forall_cons]%Forall_app. cbn [fst tree_part] in *. subst p.
  assert (tree_ok (Tree KEY_RANGE (part i) (nodes ++ [(i, nkp)]))) as Hok by (by constructor).
  rewrite store_max_key_last. cbn [store_max_key]. unfold store_max. rewrite has_either, Hr1, Hr2. cbn [orb negb andb]. rewrite andb_true_r.
  destruct (has (max_flag i) NO_MAX_RANGE) eqn:Eno; unfold has in Eno; rewrite Eno; cbn [negb mbind option_bind].
  { exists [], rf. cbn [length Z.of_nat concat]. rewrite app_nil_r. split; [done|]. intros row _. cbn. rewrite Hr2. lia. }
  destruct (store_value_ok i (part i) (max_value i) eq_refl (Hv eq_refl)) as (b & Hb & Hbc). rewrite Hb. cbn [mbind option_bind].
  assert (has (rf .| max_flag i) NEAR_MAX = has (max_flag i) NEAR_MAX) as Hn by (change NEAR_MAX with (2 ^ 3) in *; by rewrite has_lor, Hr2 by lia).
  assert (has (rf .| max_flag i) NO_MAX_RANGE = false) as Hn' by (change NO_MAX_RANGE with (2 ^ 1) in *; unfold has in *; by rewrite c_true_land_pow2, Z.lor_spec, <-!c_true_land_pow2, Hr1, Eno by lia).
  assert (exists vs flag, Some (1, range_key ++ b, rf .| max_flag i) = Some (Z.of_nat (length vs), range_key ++ concat vs, flag) /\ bounds_above (part i) vs (has flag NEAR_MAX) (Tree KEY_RANGE (part i) (nodes ++ [(i, nkp)]))) as Hstop.
  { exists [b], (rf .| max_flag i). cbn [length Z.of_nat Pos.of_succ_nat concat]. rewrite app_nil_r. split; [done|]. rewrite Hn. apply bounds_above_node; [done|done|done|].
    destruct (has (max_flag i) NEAR_MAX); [done|]. intros row _. cbn. lia. }
  destruct nkp as [t'|]; [|exact Hstop]. unfold continues. rewrite has_either, Hn, Hn'. cbn [orb].
  destruct (bool_decide (tree_type t' = KEY_RANGE)) eqn:Ety; [|exact Hstop]. apply bool_decide_eq_true in Ety.
  destruct (negb (part i =? last_part)); [|exact Hstop]. destruct (Z.eqb_spec (tree_part t') (part i + 1)) as [Ept|]; [|exact Hstop]. cbn [andb].
  destruct (has (max_flag i) NEAR_MAX) eqn:En; [exact Hstop|]. cbn [negb]. rewrite Hdir, negb_involutive, !andb_diag. rewrite orb_comm, orb_negb_r.
  destruct (IH i t' ltac:(apply elem_of_app; right; left) Ety (range_key ++ b) (rf .| max_flag i) Hn' Hn) as (vs & flag & Hs & Hbd). rewrite Hs. cbn [mbind option_bind].
  exists (b :: vs), flag. split; [cbn [length concat]; do 3 f_equal; [lia|by rewrite app_assoc]|].
  apply bounds_above_node; [done|done|done|]. rewrite En, <-Ept. intros row Ht. apply Hbd. by apply Ht.
Qed.
End endpoints.

(** * Endpoints in the order of the index *)

Section index_order.
Context {K : KeyCompare} (kp : Z -> KEY_PART) (last_part : Z).

(** The endpoints of the range of a tree, the first and the last in the index, as the
    description of DESC key parts in the header has them. *)
Definition start_endpoint (t : sel_tree) : option (Z * value * Z) :=
  if is_reverse kp (tree_part t) then store_max_key kp last_part true t [] 0 else store_min_key kp last_part true t [] 0.
Definition end_endpoint (t : sel_tree) : option (Z * value * Z) :=
  if is_reverse kp (tree_part t) then store_min_key kp last_part false t [] 0 else store_max_key kp last_part false t [] 0.
(** A row against an endpoint in the order of the index. *)
Fixpoint index_lex (p : Z) (vs : list value) (row : Z -> value) : Z :=
  match vs with
  | [] => 0
  | v :: vs => let c := if is_reverse kp p then - val_cmp p (row p) v else val_cmp p (row p) v in if c =? 0 then index_lex (p + 1) vs row else c
  end.
(** Which flag says that an endpoint is open. *)
Definition start_open (t : sel_tree) (flag : Z) : bool := has flag (if is_reverse kp (tree_part t) then NEAR_MAX else NEAR_MIN).
Definition end_open (t : sel_tree) (flag : Z) : bool := has flag (if is_reverse kp (tree_part t) then NEAR_MIN else NEAR_MAX).

Lemma index_lex_uniform rev : (forall q, is_reverse kp q = rev) -> forall p vs row, index_lex p vs row = if rev then - lex p vs row else lex p vs row.
Proof.
  intros Hrev p vs. revert p. induction vs as [|v vs IH]; intros p row; [by destruct rev|]. cbn [index_lex lex]. rewrite Hrev, IH. destruct rev; [|done].
  destruct (Z.eqb_spec (val_cmp p (row p) v) 0) as [->|]; [done|]. by rewrite (proj2 (Z.eqb_neq _ _)) by lia.
Qed.

Context {KL : KeyCompareLaws K}.

(** C15.  In an index whose key parts are all ascending or all descending (with parts
    of both directions it does not hold: [mixed_directions_lose_rows]), a range covers every row
    of its intervals: whatever intervals the key parts have (ordered, with open,
    closed or missing bounds, with NULL), both endpoints are computed, as the stored
    values of a prefix of the key parts, and in the order of the index no row lies
    before the first one or behind the last, nor at one that is flagged as open. *)
Theorem endpoints_bound_rows rev t : (forall q, is_reverse kp q = rev) -> tree_ok kp t ->
  (exists vs flag, start_endpoint t = Some (Z.of_nat (length vs), concat vs, flag) /\
     forall row, tree_in row t -> 0 <= index_lex (tree_part t) vs row /\ (start_open t flag = true -> 0 < index_lex (tree_part t) vs row)) /\
  (exists vs flag, end_endpoint t = Some (Z.of_nat (length vs), concat vs, flag) /\
     forall row, tree_in row t -> index_lex (tree_part t) vs row <= 0 /\ (end_open t flag = true -> index_lex (tree_part t) vs row < 0)).
Proof.
  intros Hrev Hok. unfold start_endpoint, end_endpoint, start_open, end_open. rewrite Hrev. setoid_rewrite (index_lex_uniform rev Hrev). destruct rev.
  - destruct (store_max_key_bounds kp last_part true t Hok Hrev [] 0 eq_refl eq_refl) as (vs & flag & Hs & Hb).
    destruct (store_min_key_bounds kp last_part false t Hok Hrev [] 0 eq_refl eq_refl) as (vs' & flag' & Hs' & Hb').
    split; [exists vs, flag|exists vs', flag']; (split; [done|]); intros row Hin; [destruct (Hb row Hin)|destruct (Hb' row Hin)]; split; [lia|intros Ho; specialize (H0 Ho); lia|lia|intros Ho; specialize (H0 Ho); lia].
  - destruct (store_min_key_bounds kp last_part true t Hok Hrev [] 0 eq_refl eq_refl) as (vs & flag & Hs & Hb).
    destruct (store_max_key_bounds kp last_part false t Hok Hrev [] 0 eq_refl eq_refl) as (vs' & flag' & Hs' & Hb').
    split; [exists vs, flag|exists vs', flag']; (split; [done|]); [apply Hb|apply Hb'].
Qed.

(** With key parts of different directions the endpoints are wrong: the functions
    go on to the bound of the next key part that the direction of the present one asks
    for.  In an index on (kp0 ASC, kp1 DESC), for kp0 = a AND kp1 BETWEEN lo AND hi,
    the first endpoint is (a, lo), and the matching row (a, hi) lies before it. *)
Theorem mixed_directions_lose_rows a lo hi : is_reverse kp 0 = false -> is_reverse kp 1 = true -> last_part <> 0 -> val_cmp 1 lo hi < 0 ->
  is_null 0 a = false -> is_null 1 lo = false -> Z.of_nat (length a) = store_length (kp 0) -> Z.of_nat (length lo) = store_length (kp 1) ->
  let t := Tree KEY_RANGE 0 [(new_sel 0 a a 0 0 0, Some (Tree KEY_RANGE 1 [(new_sel 1 lo hi 0 0 0, None)]))] in
  let row p := if p =? 0 then a else hi in
  start_endpoint t = Some (2, a ++ lo, 0) /\ tree_in row t /\ index_lex 0 [a; lo] row < 0.
Proof.
  intros H0 H1 Hlast Hlt Hn0 Hn1 Hl0 Hl1 t row. pose proof (val_cmp_refl 0 a) as Hr0. pose proof (val_cmp_refl 1 hi) as Hr1. pose proof (val_cmp_opp 1 lo hi) as Hopp. split; [|split].
  - assert (forall p v w, is_null p v = false -> Z.of_nat (length v) = store_length (kp p) -> store_min (new_sel p v w 0 0 0) (store_length (kp p)) 0 = Some (Some v)) as Hst.
    { intros p v w Hn Hl. unfold store_min, store_value, is_null in *. cbn [new_sel min_flag part min_value]. flags. cbn [orb andb negb]. rewrite Hn, <-Hl, asserting_true by (apply Z.leb_le; lia).
      by rewrite Nat2Z.id, firstn_all. }
    unfold start_endpoint, t. cbn [tree_part]. rewrite H0. cbn [store_min_key]. cbn [new_sel part]. fold (new_sel 0 a a 0 0 0). fold (new_sel 1 lo hi 0 0 0). rewrite (Hst 0 a a Hn0 Hl0). cbn [mbind option_bind].
    unfold continues. cbn [tree_type tree_part part new_sel min_flag]. fold (new_sel 1 lo hi 0 0 0). flags. rewrite bool_decide_true, (proj2 (Z.eqb_neq 0 last_part)) by (done || lia). cbn [negb andb Z.eqb Z.add Pos.eqb]. rewrite H0. cbn [negb eqb].
    change (0 .| 0) with 0. by rewrite (Hst 1 lo hi Hn1 Hl1).
  - eapply in_node; [left|split; right; unfold has, row; cbn [new_sel min_flag max_flag min_value max_value part Z.eqb Pos.eqb]; flags; cbv iota; lia|]. intros t' [= <-]. eapply in_node; [left| |done].
    split; right; unfold has, row; cbn [new_sel min_flag max_flag min_value max_value part Z.eqb Pos.eqb]; flags; cbv iota; lia.
  - cbn [index_lex]. rewrite H0. change (row 0) with a. rewrite Hr0. change (0 =? 0) with true. cbv iota. change (0 + 1) with 1. rewrite H1. change (row 1) with hi.
    rewrite (proj2 (Z.eqb_neq _ _)) by lia. lia.
Qed.
End index_order.

(** * Key parts of one byte *)

Definition byte_keys0 : KeyCompare := {| real_maybe_null := λ _, false; key_cmp := λ _ a b, hd 0 a - hd 0 b; sel_cmp := λ _ _ _ _ _, 0 |}.
Definition byte_keys : KeyCompare :=
  {| real_maybe_null := λ _, false; key_cmp := λ _ a b, hd 0 a - hd 0 b; sel_cmp := λ p a b fa fb, bound_cmp (K := byte_keys0) p a fa b fb |}.
#[export] Instance byte_keys_laws : KeyCompareLaws byte_keys.
Proof. constructor; cbn; intros; lia || done. Qed.
Definition byte_index (rev : Z -> bool) (p : Z) : KEY_PART := mkKP 1 (if rev p then HA_REVERSE_SORT else 0).

(** [2 <= kp0 < 5 OR kp0 = 9 AND kp1 > 3]. *)
Definition byte_tree : sel_tree :=
  Tree KEY_RANGE 0 [(mkSel KEY_RANGE 0 [2] [5] 0 NEAR_MAX 0, None); (mkSel KEY_RANGE 0 [9] [9] 0 0 0, Some (Tree KEY_RANGE 1 [(mkSel KEY_RANGE 1 [3] [] NEAR_MIN NO_MAX_RANGE 0, None)]))].
Lemma byte_tree_ok rev : tree_ok (K := byte_keys) (byte_index rev) byte_tree.
Proof.
  constructor; [done| | |].
  - repeat (apply Forall_cons; split; [split; [reflexivity|by split|by split|vm_compute; discriminate]|]). constructor.
  - repeat constructor.
  - intros i t Hin _. apply elem_of_cons in Hin as [E|Hin]; [discriminate E|]. apply list_elem_of_singleton in Hin as [= -> ->].
    constructor; [done| |repeat constructor|].
    + apply Forall_cons. split; [|constructor]. split; [reflexivity|by split|by split|vm_compute; discriminate].
    + intros i t Hin _. apply list_elem_of_singleton in Hin. discriminate Hin.
Qed.

Lemma interval_algebra_witness : in_interval (K := byte_keys) (clone_and (K := byte_keys) (mkSel KEY_RANGE 0 [2] [5] 0 NEAR_MAX 0) (mkSel KEY_RANGE 0 [3] [9] NEAR_MIN 0 0)) [4].
Proof.
  apply (interval_algebra (K := byte_keys) (mkSel KEY_RANGE 0 [2] [5] 0 NEAR_MAX 0) (mkSel KEY_RANGE 0 [3] [9] NEAR_MIN 0 0) [4]); [split; vm_compute; repeat split|split; vm_compute; repeat split|reflexivity|].
  split; split; right; vm_compute; congruence.
Defined.
Lemma full_range_never_reported_witness :
  (copy_min (K := byte_keys) (mkSel KEY_RANGE 0 [2] [] 0 NO_MAX_RANGE 0) (mkSel KEY_RANGE 0 [] [5] NO_MIN_RANGE 0 0)).1 = false /\
  in_interval (K := byte_keys) (copy_min (K := byte_keys) (mkSel KEY_RANGE 0 [2] [] 0 NO_MAX_RANGE 0) (mkSel KEY_RANGE 0 [] [5] NO_MIN_RANGE 0 0)).2 [200].
Proof.
  split; [|split; left; reflexivity].
  apply (full_range_never_reported (K := byte_keys) (mkSel KEY_RANGE 0 [2] [] 0 NO_MAX_RANGE 0) (mkSel KEY_RANGE 0 [] [5] NO_MIN_RANGE 0 0)); split; vm_compute; repeat split.
Defined.
Lemma is_singlepoint_spec_witness : is_singlepoint (K := byte_keys) (mkSel KEY_RANGE 0 [7] [7] 0 0 0) = true /\ in_interval (K := byte_keys) (mkSel KEY_RANGE 0 [7] [7] 0 0 0) [7].
Proof.
  destruct (is_singlepoint_spec (K := byte_keys) (mkSel KEY_RANGE 0 [7] [7] 0 0 0) [7]) as [H1 H2]; [discriminate|]. split; [|apply H2; reflexivity].
  apply H1. repeat split.
Defined.
Lemma endpoints_bound_rows_witness : exists vs flag, start_endpoint (K := byte_keys) (byte_index (λ _, true)) 5 byte_tree = Some (Z.of_nat (length vs), concat vs, flag).
Proof.
  destruct (endpoints_bound_rows (K := byte_keys) (byte_index (λ _, true)) 5 true byte_tree) as [(vs & flag & Hs & _) _]; [reflexivity|apply byte_tree_ok|]. exists vs, flag. exact Hs.
Defined.
Lemma mixed_directions_lose_rows_witness :
  start_endpoint (K := byte_keys) (byte_index (λ p, p =? 1)) 5 (Tree KEY_RANGE 0 [(new_sel 0 [1] [1] 0 0 0, Some (Tree KEY_RANGE 1 [(new_sel 1 [2] [8] 0 0 0, None)]))]) = Some (2, [1; 2], 0).
Proof.
  apply (mixed_directions_lose_rows (K := byte_keys) (byte_index (λ p, p =? 1)) 5 [1] [2] [8]); vm_compute; congruence.
Defined.

(** Inverting flags for a DESC key part twice gives them back. *)
Lemma invert_flags_roundtrip f : 0 <= f < 2 ^ 8 ->
  (has f NEAR_MAX = false -> has f NO_MAX_RANGE = false -> invert_max_flag (invert_min_flag f) = f) /\
  (has f NEAR_MIN = false -> has f NO_MIN_RANGE = false -> invert_min_flag (invert_max_flag f) = f).
Proof.
  intros Hf.
  assert (implb (negb (has f NEAR_MAX) && negb (has f NO_MAX_RANGE)) (invert_max_flag (invert_min_flag f) =? f) && implb (negb (has f NEAR_MIN) && negb (has f NO_MIN_RANGE)) (invert_min_flag (invert_max_flag f) =? f) = true) as H
    by (apply (narrow_values 8 (λ f, implb (negb (has f NEAR_MAX) && negb (has f NO_MAX_RANGE)) (invert_max_flag (invert_min_flag f) =? f) && implb (negb (has f NEAR_MIN) && negb (has f NO_MIN_RANGE)) (invert_min_flag (invert_max_flag f) =? f))); [vm_compute; reflexivity|done]).
  apply andb_true_iff in H as [H1 H2]. split; intros E1 E2; [rewrite E1, E2 in H1; by apply Z.eqb_eq|rewrite E1, E2 in H2; by apply Z.eqb_eq].
Qed.
