(* ===== verification/SqlAsync.v ===== *)
(** [thd_async_state] of [private/sql_class.h]: the counter of asynchronous operations
    that a statement waits for, and the suspension of a statement until they are done.

    The body of each method under [m_mtx] is a function on the members
    ([inc_body], [dec_body], [try_suspend_body]).  A session runs one call at a time,
    from whichever thread it is on: its progress is an [owner_pc].  Any number of
    calls of [dec_pending_ops] go on at the same time, at most one for each
    [inc_pending_ops].  [step] interleaves them; what is done without the mutex (the
    "dirty" read of the counter, the destructor) is a step of its own, and the
    mutex is part of the state, so that using or destroying it at the wrong time is
    [Undefined].  A suspended session goes on on the thread whose call of
    [dec_pending_ops] returned 0 and saw it suspended, as the comments of
    the class ask for. *)

From S2P Require Import Prelude.

(** * The members and the methods *)

Inductive enum_async_state := NONE | SUSPENDED | RESUMED.
#[export] Instance enum_async_state_eq_dec : EqDecision enum_async_state.
Proof. solve_decision. Defined.

Record thd_async_state := mkAsync { m_state : enum_async_state; m_pending_ops : Z; m_dbg_thread : nat }.

Definition async_init : thd_async_state := mkAsync NONE 0 0.
Definition with_state (s : enum_async_state) (a : thd_async_state) : thd_async_state := mkAsync s (m_pending_ops a) (m_dbg_thread a).
Definition with_pending (n : Z) (a : thd_async_state) : thd_async_state := mkAsync (m_state a) n (m_dbg_thread a).

Definition try_suspend_body (a : thd_async_state) : option (bool * thd_async_state) :=
  asserting (bool_decide (m_state a = NONE) && (0 <=? m_pending_ops a))
    (if negb (m_pending_ops a =? 0) then (true, with_state SUSPENDED a) else (false, a)).

(** [self] is the calling thread. *)
Definition inc_body (self : nat) (a : thd_async_state) : option thd_async_state :=
  let up a := with_pending (swrap 32 (m_pending_ops a + 1)) a in
  if m_pending_ops a =? 0 then Some (up (mkAsync (m_state a) (m_pending_ops a) self))
  else asserting (bool_decide (self = m_dbg_thread a)) (up a).

(** The decrement, and its result [ret]; the signal and the state that is returned are steps. *)
Definition dec_body (a : thd_async_state) : Z * thd_async_state :=
  let ret := swrap 32 (m_pending_ops a - 1) in (ret, with_pending ret a).
Definition pending_ops (a : thd_async_state) : Z := m_pending_ops a.

(** * Calls in progress *)

(** The session: no call in progress; holding the mutex at the end of [inc_pending_ops]
    or [try_suspend]; suspended; in [wait_for_pending_ops] about to lock, waiting for
    the signal, signalled, holding the mutex at the end, or returned, where [true]
    is the call from the destructor; destroyed. *)
Inductive owner_pc :=
  | ORun | OIncUnlock | OSuspendUnlock (r : bool) | OSuspended
  | OLock (final : bool) | OSleep (final : bool) | OAwake (final : bool) | OWaitUnlock (final : bool) | ODestroy
  | ODestroyed.

(** A call of [dec_pending_ops]: decremented, about to unlock, returned; [DTaken]: returned,
    and the caller has gone on with the session. *)
Inductive dec_pc := DLocked (ret : Z) | DUnlock (ret : Z) (state : enum_async_state) | DDone (ret : Z) (state : enum_async_state) | DTaken.

Record sys := mkSys { async : thd_async_state; held : bool; owner : owner_pc; self : nat; tickets : Z; decs : list dec_pc }.
Inductive config := Sys (s : sys) | Undefined.

(** How [wait_for_pending_ops] returns: to the session, or to the destructor. *)
Definition waited (final : bool) : owner_pc := if final then ODestroy else ORun.
(** The loop of [wait_for_pending_ops], holding the mutex; [true]: it stays held. *)
Definition wait_loop (final : bool) (a : thd_async_state) : bool * owner_pc :=
  if negb (m_pending_ops a =? 0) then (false, OSleep final) else (true, OWaitUnlock final).
(** [mysql_cond_signal]: there is at most one waiting call. *)
Definition signal (o : owner_pc) : owner_pc := match o with OSleep final => OAwake final | o => o end.

(** [tickets] counts the increments whose decrement has not begun.  Where [spurious], a
    waiting call may wake for no reason, as [pthread_cond_wait] may. *)
Inductive step (spurious : bool) : config -> config -> Prop :=
  | step_inc a self n ds a' : n < 2 ^ 31 - 1 -> inc_body self a = Some a' ->
      step spurious (Sys (mkSys a false ORun self n ds)) (Sys (mkSys a' true OIncUnlock self (n + 1) ds))
  | step_inc_assert a self n ds : inc_body self a = None -> step spurious (Sys (mkSys a false ORun self n ds)) Undefined
  | step_inc_unlock a self n ds : step spurious (Sys (mkSys a true OIncUnlock self n ds)) (Sys (mkSys a false ORun self n ds))
  | step_suspend a self n ds r a' : m_state a = NONE -> try_suspend_body a = Some (r, a') ->
      step spurious (Sys (mkSys a false ORun self n ds)) (Sys (mkSys a' true (OSuspendUnlock r) self n ds))
  | step_suspend_assert a self n ds : m_state a = NONE -> try_suspend_body a = None -> step spurious (Sys (mkSys a false ORun self n ds)) Undefined
  | step_suspend_unlock a self n ds r :
      step spurious (Sys (mkSys a true (OSuspendUnlock r) self n ds)) (Sys (mkSys a false (if r : bool then OSuspended else ORun) self n ds))
  | step_wait a h self n ds final : step spurious (Sys (mkSys a h ORun self n ds)) (Sys (mkSys a h (if pending_ops a =? 0 then waited final else OLock final) self n ds))
  | step_wait_lock a self n ds final : 0 <= m_pending_ops a ->
      step spurious (Sys (mkSys a false (OLock final) self n ds)) (Sys (mkSys a (wait_loop final a).1 (wait_loop final a).2 self n ds))
  | step_wait_assert a self n ds final : m_pending_ops a < 0 -> step spurious (Sys (mkSys a false (OLock final) self n ds)) Undefined
  | step_wait_spurious a h self n ds final : spurious = true -> step spurious (Sys (mkSys a h (OSleep final) self n ds)) (Sys (mkSys a h (OAwake final) self n ds))
  | step_wait_again a self n ds final :
      step spurious (Sys (mkSys a false (OAwake final) self n ds)) (Sys (mkSys a (wait_loop final a).1 (wait_loop final a).2 self n ds))
  | step_wait_unlock a self n ds final : step spurious (Sys (mkSys a true (OWaitUnlock final) self n ds)) (Sys (mkSys a false (waited final) self n ds))
  | step_destroy a self n ds : step spurious (Sys (mkSys a false ODestroy self n ds)) (Sys (mkSys a false ODestroyed self n ds))
  | step_destroy_held a self n ds : step spurious (Sys (mkSys a true ODestroy self n ds)) Undefined
  | step_dec a o self n ds ret a' : 0 < n -> o <> ODestroyed -> dec_body a = (ret, a') ->
      step spurious (Sys (mkSys a false o self n ds)) (Sys (mkSys a' true o self (n - 1) (ds ++ [DLocked ret])))
  | step_dec_signal a o self n ds i ret : ds !! i = Some (DLocked ret) ->
      step spurious (Sys (mkSys a true o self n ds)) (Sys (mkSys a true (if ret =? 0 then signal o else o) self n (<[i := DUnlock ret (m_state a)]> ds)))
  | step_dec_unlock a o self n ds i ret st : ds !! i = Some (DUnlock ret st) ->
      step spurious (Sys (mkSys a true o self n ds)) (Sys (mkSys a false o self n (<[i := DDone ret st]> ds)))
  | step_dec_destroyed a h self n ds : 0 < n -> step spurious (Sys (mkSys a h ODestroyed self n ds)) Undefined
  | step_resume a h self n ds i thread : ds !! i = Some (DDone 0 SUSPENDED) ->
      step spurious (Sys (mkSys a h OSuspended self n ds)) (Sys (mkSys (with_state RESUMED a) h ORun thread n (<[i := DTaken]> ds)))
  | step_finish a h self n ds : m_state a = RESUMED -> step spurious (Sys (mkSys a h ORun self n ds)) (Sys (mkSys (with_state NONE a) h ORun self n ds)).

Definition async_start (self : nat) : config := Sys (mkSys async_init false ORun self 0 []).
Definition reachable (self : nat) (c : config) : Prop := rtc (step true) (async_start self) c.

(** * The invariant *)

Definition holds_mutex (p : dec_pc) : bool := match p with DLocked _ | DUnlock _ _ => true | _ => false end.
Definition owner_holds (o : owner_pc) : bool := match o with OIncUnlock | OSuspendUnlock _ | OWaitUnlock _ => true | _ => false end.
Definition suspended (o : owner_pc) : bool := match o with OSuspendUnlock true | OSuspended => true | _ => false end.
(** A call that brings the counter to 0 and will see, or has seen, the session suspended. *)
Definition is_resumer (s : bool) (p : dec_pc) : bool :=
  match p with DLocked ret => s && (ret =? 0) | DUnlock ret st | DDone ret st => (ret =? 0) && bool_decide (st = SUSPENDED) | DTaken => false end.
(** Where a call of [wait_for_pending_ops] has seen no operation pending. *)
Definition seen_none (o : owner_pc) : bool := match o with OWaitUnlock _ | ODestroy | ODestroyed => true | _ => false end.

Record async_inv (s : sys) : Prop := {
  inv_range : 0 <= tickets s < 2 ^ 31;
  inv_pending : m_pending_ops (async s) = tickets s;
  inv_mutex : Z.b2z (owner_holds (owner s)) + count_calls holds_mutex (decs s) = Z.b2z (held s);
  inv_thread : 0 < tickets s -> m_dbg_thread (async s) = self s;
  inv_sleep : forall final, owner s = OSleep final -> 0 < tickets s \/ DLocked 0 ∈ decs s;
  inv_state : suspended (owner s) = bool_decide (m_state (async s) = SUSPENDED);
  inv_resumers : count_calls (is_resumer (suspended (owner s))) (decs s) + Z.b2z (suspended (owner s) && (0 <? tickets s)) = Z.b2z (suspended (owner s));
  inv_seen : seen_none (owner s) = true -> tickets s = 0
}.

Lemma resumer_signalled o : suspended (signal o) = suspended o /\ owner_holds (signal o) = owner_holds o /\ seen_none (signal o) = seen_none o.
Proof. by destruct o. Qed.
Lemma suspended_waited final : suspended (waited final) = false.
Proof. by destruct final. Qed.
Lemma wait_loop_spec final a : 0 <= m_pending_ops a ->
  (0 < m_pending_ops a /\ wait_loop final a = (false, OSleep final)) \/ (m_pending_ops a = 0 /\ wait_loop final a = (true, OWaitUnlock final)).
Proof. intros Ha. unfold wait_loop. destruct (Z.eqb_spec (m_pending_ops a) 0); [by right|left; split; [lia|done]]. Qed.
Lemma pending_small n : 0 <= n < 2 ^ 31 -> swrap 32 n = n.
Proof. intros Hn. apply swrap_small; [lia|]. unfold sfits. lia. Qed.

Lemma count_mono {A} (f g : A -> bool) l : (forall p, f p = true -> g p = true) -> count_calls f l <= count_calls g l.
Proof. intros Hfg. induction l as [|p l IH]; cbn [count_calls]; [lia|]. specialize (Hfg p). destruct (f p), (g p); cbn; (lia || naive_solver). Qed.
Lemma count_free s s' ds : count_calls holds_mutex ds = 0 -> count_calls (is_resumer s) ds = count_calls (is_resumer s') ds.
Proof.
  induction ds as [|p ds IH]; [done|]. cbn [count_calls]. pose proof (count_nonneg holds_mutex ds). intros Hc.
  rewrite IH by (destruct (holds_mutex p); cbn in Hc; lia). destruct p; [cbn in Hc; lia|done..].
Qed.
Lemma locked_stays (ds : list dec_pc) (i : nat) p q r : ds !! i = Some p -> p <> DLocked r -> DLocked r ∈ ds -> DLocked r ∈ <[i := q]> ds.
Proof.
  intros Hi Hp [j Hj]%list_elem_of_lookup. apply list_elem_of_lookup. exists j. rewrite list_lookup_insert_ne; [done|]. intros ->. congruence.
Qed.

Ltac counts := rewrite ?count_app; repeat match goal with
  | Hi : ?cs !! ?i = Some ?p |- context [count_calls ?f (<[?i := ?q]> ?cs)] => rewrite (count_insert f cs i p q Hi)
  end; cbn [count_calls holds_mutex is_resumer owner_holds suspended seen_none Z.b2z andb] in *.

Lemma inc_body_spec self a a' : inc_body self a = Some a' -> 0 <= m_pending_ops a < 2 ^ 31 - 1 ->
  m_pending_ops a' = m_pending_ops a + 1 /\ m_state a' = m_state a /\ m_dbg_thread a' = self.
Proof.
  unfold inc_body. intros H Hr. destruct (Z.eqb_spec (m_pending_ops a) 0) as [E|E].
  - injection H as <-. cbn. rewrite pending_small by lia. done.
  - unfold asserting in H. destruct (bool_decide_reflect (self = m_dbg_thread a)); [|done]. injection H as <-. cbn. rewrite pending_small by lia. done.
Qed.
Lemma dec_body_spec a ret a' : dec_body a = (ret, a') -> 0 < m_pending_ops a < 2 ^ 31 -> ret = m_pending_ops a - 1 /\ a' = with_pending (m_pending_ops a - 1) a.
Proof. unfold dec_body. intros [= <- <-] H. by rewrite pending_small by lia. Qed.
Lemma try_suspend_body_spec a r a' : try_suspend_body a = Some (r, a') -> m_pending_ops a' = m_pending_ops a /\ m_dbg_thread a' = m_dbg_thread a /\
  m_state a = NONE /\ r = negb (m_pending_ops a =? 0) /\ m_state a' = if r : bool then SUSPENDED else NONE.
Proof.
  unfold try_suspend_body, asserting. destruct (bool_decide_reflect (m_state a = NONE)); [|done]. destruct (0 <=? m_pending_ops a); [|done].
  cbn [andb]. intros [= H]. destruct (m_pending_ops a =? 0); injection H as <- <-; done.
Qed.

Lemma dec_inv a o me n ds ret a' : async_inv (mkSys a false o me n ds) -> 0 < n -> dec_body a = (ret, a') ->
  async_inv (mkSys a' true o me (n - 1) (ds ++ [DLocked ret])).
Proof.
  intros [H1 H2 H3 H4 H5 H6 H7 H8] Hn Hd. cbn [async held owner self tickets decs] in *. apply dec_body_spec in Hd as [-> ->]; [|lia].
  split; cbn [async held owner self tickets decs with_pending m_pending_ops m_state m_dbg_thread]; try lia; try done.
  - counts. lia.
  - intros final Ho. destruct (Z.eq_dec n 1) as [E|]; [right|left; lia]. rewrite H2, E. apply elem_of_app. right. by apply list_elem_of_singleton.
  - rewrite H2. counts. destruct (suspended o); cbn [andb Z.b2z] in *; [|lia]. destruct (Z.eqb_spec (n - 1) 0), (Z.ltb_spec 0 (n - 1)), (Z.ltb_spec 0 n); cbn in *; lia.
  - intros Hs. specialize (H8 Hs). lia.
Qed.

Lemma signal_inv a o me n ds i ret : async_inv (mkSys a true o me n ds) -> ds !! i = Some (DLocked ret) ->
  async_inv (mkSys a true (if ret =? 0 then signal o else o) me n (<[i := DUnlock ret (m_state a)]> ds)).
Proof.
  intros [H1 H2 H3 H4 H5 H6 H7 H8] Hi. cbn [async held owner self tickets decs] in *.
  destruct (resumer_signalled o) as (R1 & R2 & R3). set (o' := if ret =? 0 then signal o else o).
  assert (suspended o' = suspended o /\ owner_holds o' = owner_holds o /\ seen_none o' = seen_none o) as (E1 & E2 & E3) by (unfold o'; destruct (ret =? 0); done).
  split; cbn [async held owner self tickets decs]; rewrite ?E1, ?E2, ?E3; try done; try lia.
  - counts. lia.
  - intros final Ho. unfold o' in Ho. destruct (Z.eqb_spec ret 0) as [->|Hr]; [by destruct o|].
    destruct (H5 final Ho) as [|Hin]; [by left|]. right. eapply locked_stays; [done| |done]. congruence.
  - counts. rewrite <-H6, (andb_comm (ret =? 0)). lia.
Qed.

Lemma unlock_inv a o me n ds i ret st : async_inv (mkSys a true o me n ds) -> ds !! i = Some (DUnlock ret st) ->
  async_inv (mkSys a false o me n (<[i := DDone ret st]> ds)).
Proof.
  intros [H1 H2 H3 H4 H5 H6 H7 H8] Hi. cbn [async held owner self tickets decs] in *.
  pose proof (count_in holds_mutex ds i _ Hi eq_refl). pose proof (count_nonneg holds_mutex ds). split; cbn [async held owner self tickets decs]; try done; try lia.
  - counts. lia.
  - intros final Ho. destruct (H5 final Ho) as [|Hin]; [by left|]. right. by eapply locked_stays.
  - counts. lia.
Qed.

Lemma resume_inv a h me n ds i thread : async_inv (mkSys a h OSuspended me n ds) -> ds !! i = Some (DDone 0 SUSPENDED) ->
  n = 0 /\ async_inv (mkSys (with_state RESUMED a) h ORun thread n (<[i := DTaken]> ds)).
Proof.
  intros [H1 H2 H3 H4 H5 H6 H7 H8] Hi. cbn [async held owner self tickets decs] in *.
  pose proof (count_in (is_resumer true) ds i _ Hi eq_refl). pose proof (count_in (is_resumer false) ds i _ Hi eq_refl).
  pose proof (count_mono (is_resumer false) (is_resumer true) ds) as Hm. cbn in Hm. pose proof (count_nonneg (is_resumer true) ds).
  assert (count_calls (is_resumer false) ds <= count_calls (is_resumer true) ds) by (apply Hm; by intros []). clear Hm.
  assert (n = 0) as ->. { cbn [suspended andb] in H7. destruct (Z.ltb_spec 0 n); cbn in H7; lia. } split; [done|].
  split; cbn [async held owner self tickets decs with_state m_pending_ops m_state]; try done; try lia; cbn [suspended andb Z.b2z] in *; counts; try change (bool_decide (SUSPENDED = SUSPENDED)) with true; cbn in *; lia.
Qed.

(** A step of the session that keeps the counter and does not suspend or resume. *)
Lemma owner_inv a h h' o o' me n ds : async_inv (mkSys a h o me n ds) -> suspended o' = suspended o ->
  Z.b2z (owner_holds o') - Z.b2z h' = Z.b2z (owner_holds o) - Z.b2z h ->
  (forall final, o' = OSleep final -> 0 < n) -> (seen_none o' = true -> n = 0) -> async_inv (mkSys a h' o' me n ds).
Proof.
  intros [H1 H2 H3 H4 H5 H6 H7 H8] Es Eh Hsl Hno. cbn [async held owner self tickets decs] in *.
  split; cbn [async held owner self tickets decs]; rewrite ?Es; try done; try lia. intros final Ho. left. by eapply Hsl.
Qed.

Lemma async_step_inv b s c : async_inv s -> step b (Sys s) c ->
  (exists s', c = Sys s' /\ async_inv s') \/ (c = Undefined /\ owner s = ODestroy /\ held s = true).
Proof.
  intros Hinv Hstep. pose proof Hinv as [H1 H2 H3 H4 H5 H6 H7 H8].
  inversion Hstep; subst; cbn [async held owner self tickets decs] in *; try (left; eexists; split; [done|]).
  - match goal with H : inc_body _ _ = Some _ |- _ => destruct (inc_body_spec _ _ _ H) as (E1 & E2 & E3); [lia|] end.
    split; cbn [async held owner self tickets decs]; rewrite ?E1, ?E2, ?E3; try done; try lia; counts; lia.
  - exfalso. match goal with H : inc_body _ _ = None |- _ => revert H; unfold inc_body end. destruct (Z.eqb_spec (m_pending_ops a) 0); [done|]. by rewrite H4, bool_decide_true by (done || lia).
  - by eapply owner_inv.
  - match goal with H : try_suspend_body _ = Some _ |- _ => destruct (try_suspend_body_spec _ _ _ H) as (E1 & E2 & _ & E4 & E5) end. assert (suspended (OSuspendUnlock r) = r) as Er by (by destruct r). cbn [owner_holds Z.b2z] in H3. change (suspended ORun) with false in H7. cbn [andb Z.b2z] in H7.
    pose proof (count_free false r ds) as Hc. split; cbn [async held owner self tickets decs]; rewrite ?Er, ?E1, ?E2, ?E5; try done; try lia; try (by destruct r).
    { cbn [owner_holds Z.b2z]. lia. }
    rewrite <-Hc by lia. rewrite E4, H2. destruct (Z.eqb_spec n 0), (Z.ltb_spec 0 n); cbn in *; lia.
  - exfalso. match goal with H : try_suspend_body _ = None |- _ => revert H; unfold try_suspend_body end. by rewrite bool_decide_true, (proj2 (Z.leb_le _ _)) by (done || lia).
  - eapply owner_inv; [done|by destruct r|by destruct r|by destruct r|by destruct r].
  - unfold pending_ops. rewrite H2. destruct (Z.eqb_spec n 0) as [->|Hn]; [|by eapply owner_inv].
    eapply owner_inv; [done|by rewrite suspended_waited|by destruct final|by destruct final|done].
  - destruct (wait_loop_spec final a) as [[Hp ->]|[Hp ->]]; [lia| |]; (eapply owner_inv; [done|done|done| |]); cbn; intros; (lia || done).
  - lia.
  - by eapply owner_inv.
  - destruct (wait_loop_spec final a) as [[Hp ->]|[Hp ->]]; [lia| |]; (eapply owner_inv; [done|done|done| |]); cbn; intros; (lia || done).
  - eapply owner_inv; [done|by rewrite suspended_waited|by destruct final|by destruct final|intros _; by apply H8].
  - by eapply owner_inv.
  - by right.
  - by eapply dec_inv.
  - by apply signal_inv.
  - by eapply unlock_inv.
  - specialize (H8 eq_refl). lia.
  - by eapply resume_inv.
  - assert (m_state a = RESUMED) as E by done. split; cbn [async held owner self tickets decs with_state m_state m_pending_ops m_dbg_thread]; try done; counts; lia.
Qed.

Lemma start_inv t : async_inv (mkSys async_init false ORun t 0 []).
Proof. split; cbn; try done; lia. Qed.

Lemma async_run_inv b s c : async_inv s -> rtc (step b) (Sys s) c -> (exists s', c = Sys s' /\ async_inv s') \/ c = Undefined.
Proof.
  intros Hs Hr. revert c Hr. refine (rtc_ind_r (λ c, (exists s', c = Sys s' /\ async_inv s') \/ c = Undefined) (Sys s) _ _); [left; by exists s|].
  intros c d _ Hd [(s' & -> & Hs')| ->]; [|by inversion Hd]. destruct (async_step_inv b s' d Hs' Hd) as [?|[-> _]]; [by left|by right].
Qed.
Lemma reachable_inv t s : reachable t (Sys s) -> async_inv s.
Proof. intros Hr. destruct (async_run_inv _ _ _ (start_inv t) Hr) as [(s' & [= ->] & Hs')|]; done. Qed.

(** * Waiting *)

(** [wait_for_pending_ops] in progress. *)
Definition waiting (final : bool) (o : owner_pc) : bool :=
  match o with OLock f | OSleep f | OAwake f | OWaitUnlock f => eqb f final | _ => false end.

Lemma waiting_signal final o : waiting final o = true -> seen_none o = false -> waiting final (signal o) = true /\ seen_none (signal o) = false.
Proof. by destruct o. Qed.

(** The call of [dec_pending_ops] that holds the mutex goes on to its end. *)
Lemma finish_dec final a o me n ds : async_inv (mkSys a true o me n ds) -> waiting final o = true -> seen_none o = false ->
  exists o' ds', rtc (step false) (Sys (mkSys a true o me n ds)) (Sys (mkSys a false o' me n ds')) /\ waiting final o' = true /\ seen_none o' = false.
Proof.
  intros Hi Hw Hn. destruct (count_positive holds_mutex ds) as (i & p & Hp & Hh).
  { destruct Hi as [_ _ H3 _ _ _ _ _]. cbn in H3. destruct o; cbn in *; (done || lia). }
  assert (forall o i ret st ds, ds !! i = Some (DUnlock ret st) -> rtc (step false) (Sys (mkSys a true o me n ds)) (Sys (mkSys a false o me n (<[i := DDone ret st]> ds)))) as Hu.
  { intros. eapply rtc_once, step_dec_unlock. done. }
  destruct p as [ret|ret st|ret st|]; try done; [|exists o; eexists; split; [by eapply Hu|done]].
  destruct (waiting_signal final o Hw Hn) as [Hw' Hn']. exists (if ret =? 0 then signal o else o). eexists. split; [|by destruct (ret =? 0)].
  eapply rtc_l; [by eapply step_dec_signal|]. eapply Hu, list_lookup_insert_eq. by eapply lookup_lt_Some.
Qed.

(** Once no operation is pending, the waiting call returns in two steps of its own. *)
Lemma wait_ends final a o me ds : async_inv (mkSys a false o me 0 ds) -> waiting final o = true -> seen_none o = false ->
  rtc (step false) (Sys (mkSys a false o me 0 ds)) (Sys (mkSys a false (waited final) me 0 ds)).
Proof.
  intros Hi Hw Hn. pose proof Hi as [_ H2 H3 _ H5 _ _ _]. cbn [async held owner self tickets decs] in *.
  assert (wait_loop final a = (true, OWaitUnlock final)) as Hl by (unfold wait_loop; by rewrite H2).
  destruct o as [| | | |f|f|f|f| |]; try done; cbn [waiting] in Hw; apply eqb_prop in Hw as ->.
  - eapply rtc_l; [eapply step_wait_lock; lia|]. rewrite Hl. eapply rtc_once, step_wait_unlock.
  - destruct (H5 _ eq_refl) as [|Hin]; [lia|]. exfalso. apply list_elem_of_lookup in Hin as [i Hin].
    pose proof (count_in holds_mutex ds i _ Hin eq_refl). cbn in H3. lia.
  - eapply rtc_l; [eapply step_wait_again|]. rewrite Hl. eapply rtc_once, step_wait_unlock.
Qed.

Lemma wait_drains final k : forall a o me n ds, n = Z.of_nat k -> async_inv (mkSys a false o me n ds) -> waiting final o = true -> seen_none o = false ->
  exists a' ds', rtc (step false) (Sys (mkSys a false o me n ds)) (Sys (mkSys a' false (waited final) me 0 ds')).
Proof.
  induction k as [|k IH]; intros a o me n ds -> Hi Hw Hn; [exists a, ds; by apply wait_ends|].
  destruct (dec_body a) as [ret a'] eqn:Ed. assert (step false (Sys (mkSys a false o me (Z.of_nat (S k)) ds)) (Sys (mkSys a' true o me (Z.of_nat (S k) - 1) (ds ++ [DLocked ret])))) as Hs.
  { constructor; [lia|by destruct o|done]. }
  destruct (async_step_inv _ _ _ Hi Hs) as [(s' & [= <-] & Hi')|[? _]]; [|done].
  destruct (finish_dec final _ _ _ _ _ Hi' Hw Hn) as (o' & ds' & Hr & Hw' & Hn').
  destruct (async_run_inv _ _ _ Hi' Hr) as [(s' & [= <-] & Hi'')|]; [|done].
  destruct (IH a' o' me (Z.of_nat (S k) - 1) ds') as (a'' & ds'' & Hr'); [lia|done..|].
  exists a'', ds''. eapply rtc_l; [done|]. by etrans.
Qed.

(** * The theorems *)

(** C32.  However the calls are interleaved, [wait_for_pending_ops] does not lose its
    wake-up: it returns only when no operation is pending; while it waits for the
    signal, an operation is pending or a call of [dec_pending_ops] is going to send
    it; and when the pending operations end it returns, without a spurious wake-up. *)
Theorem wait_for_pending_ops_returns t s final : reachable t (Sys s) -> waiting final (owner s) = true ->
  (owner s = OWaitUnlock final -> m_pending_ops (async s) = 0) /\
  (owner s = OSleep final -> 0 < m_pending_ops (async s) \/ DLocked 0 ∈ decs s) /\
  (exists s', rtc (step false) (Sys s) (Sys s') /\ owner s' = waited final /\ m_pending_ops (async s') = 0 /\ held s' = false).
Proof.
  intros Hr Hw. pose proof (reachable_inv t s Hr) as Hi. pose proof Hi as [H1 H2 H3 H4 H5 H6 H7 H8]. rewrite H2. split_and!.
  - intros E. apply H8. by rewrite E.
  - intros E. by eapply H5.
  - assert (forall s', rtc (step false) (Sys s) (Sys s') -> owner s' = waited final -> held s' = false -> tickets s' = 0 ->
      exists s', rtc (step false) (Sys s) (Sys s') /\ owner s' = waited final /\ m_pending_ops (async s') = 0 /\ held s' = false) as Hd.
    { intros s' Hrun Ho Hh Ht. exists s'. split_and!; try done. destruct (async_run_inv _ _ _ Hi Hrun) as [(s'' & [= <-] & [_ -> _ _ _ _ _ _])|]; done. }
    destruct s as [a h o me n ds]. cbn [async held owner self tickets decs] in *. destruct (seen_none o) eqn:En.
    + destruct o as [| | | |f|f|f|f| |]; try done. cbn in Hw. apply eqb_prop in Hw as ->. cbn in H3. pose proof (count_nonneg holds_mutex ds).
      assert (h = true) as -> by (destruct h; cbn in H3; (done || lia)). eapply (Hd (mkSys a false (waited final) me n ds)); try done; [|by apply H8]. eapply rtc_once, step_wait_unlock.
    + assert (exists o' ds', rtc (step false) (Sys (mkSys a h o me n ds)) (Sys (mkSys a false o' me n ds')) /\ waiting final o' = true /\ seen_none o' = false) as (o' & ds' & Hrun & Hw' & En').
      { destruct h; [by apply finish_dec|]. exists o, ds. by split. }
      destruct (async_run_inv _ _ _ Hi Hrun) as [(s' & [= <-] & Hi')|]; [|done].
      destruct (wait_drains final (Z.to_nat n) a o' me n ds') as (a' & ds'' & Hrun'); [lia|done..|].
      eapply (Hd (mkSys a' false (waited final) me 0 ds'')); try done. by etrans.
Qed.

(** Whether a call of [dec_pending_ops] is over. *)
Definition returned (p : dec_pc) : bool := match p with DDone _ _ | DTaken => true | _ => false end.

Lemma count_resumers ds i p : count_calls (is_resumer true) ds = 1 -> ds !! i = Some p -> is_resumer true p = true ->
  forall j q, ds !! j = Some q -> is_resumer true q = true -> j = i.
Proof.
  intros Hc Hi Hp j q Hj Hq. destruct (decide (j = i)) as [|Hne]; [done|]. exfalso.
  pose proof (count_insert (is_resumer true) ds i p DTaken Hi) as Hins. rewrite Hp in Hins. cbn [is_resumer Z.b2z] in Hins.
  pose proof (count_in (is_resumer true) (<[i := DTaken]> ds) j q) as Hin. rewrite list_lookup_insert_ne in Hin by done. specialize (Hin Hj Hq). lia.
Qed.

(** C5.  A suspended session is handed over exactly once.  [try_suspend] suspends it
    only while an operation is pending; at any time later there is a pending
    operation, or exactly one call of [dec_pending_ops] that brings the counter to 0
    and sees the session suspended; so when all calls have returned exactly
    one of them has been told to go on with the session.  While the session is not
    suspended, no call is ever told so. *)
Theorem suspension_handed_over t s : reachable t (Sys s) ->
  (suspended (owner s) = true ->
     (0 < m_pending_ops (async s) /\ forall i p, decs s !! i = Some p -> is_resumer true p = false) \/
     (m_pending_ops (async s) = 0 /\ exists i p, decs s !! i = Some p /\ is_resumer true p = true /\ forall j q, decs s !! j = Some q -> is_resumer true q = true -> j = i)) /\
  (suspended (owner s) = true -> tickets s = 0 -> Forall (λ p, returned p = true) (decs s) ->
     exists i, decs s !! i = Some (DDone 0 SUSPENDED) /\ forall j, decs s !! j = Some (DDone 0 SUSPENDED) -> j = i) /\
  (suspended (owner s) = false -> forall i, decs s !! i <> Some (DUnlock 0 SUSPENDED) /\ decs s !! i <> Some (DDone 0 SUSPENDED)).
Proof.
  intros Hr. destruct (reachable_inv t s Hr) as [H1 H2 H3 H4 H5 H6 H7 H8]. rewrite H2.
  assert (forall f i p, count_calls f (decs s) = 0 -> decs s !! i = Some p -> f p = false) as Hno.
  { intros f i p Hc Hp. destruct (f p) eqn:E; [|done]. pose proof (count_in f _ _ _ Hp E). lia. }
  assert (suspended (owner s) = true -> tickets s = 0 -> exists i p, decs s !! i = Some p /\ is_resumer true p = true /\ forall j q, decs s !! j = Some q -> is_resumer true q = true -> j = i) as Hone.
  { intros Es Hz. rewrite Es, Hz in H7. cbn in H7. destruct (count_positive (is_resumer true) (decs s)) as (i & p & Hi & Hp); [lia|].
    exists i, p. split_and!; [done|done|]. eapply count_resumers; [lia|done|done]. }
  split_and!.
  - intros Es. destruct (Z.eq_dec (tickets s) 0) as [E|E]; [right; split; [done|by apply Hone]|left]. split; [lia|].
    intros i p. apply Hno. rewrite Es in H7. rewrite (proj2 (Z.ltb_lt _ _)) in H7 by lia. cbn in H7. lia.
  - intros Es Hz Hall. destruct (Hone Es Hz) as (i & p & Hi & Hp & Hu). exists i.
    pose proof (proj1 (Forall_lookup _ _) Hall i p Hi) as Hret. split; [|intros j Hj; by eapply Hu].
    destruct p as [| |ret st|]; try done. cbn in Hp. apply andb_true_iff in Hp as [->%Z.eqb_eq ->%bool_decide_eq_true]. done.
  - intros Es i. rewrite Es in H7. cbn in H7. split; intros Hi; assert (count_calls (is_resumer false) (decs s) = 0) as Hc by lia; by pose proof (Hno _ _ _ Hc Hi).
Qed.

(** The destructor's wait is over, by way of the mutex, or the object is gone; no call uses the mutex. *)
Definition quiet (s : sys) : Prop :=
  tickets s = 0 /\ count_calls holds_mutex (decs s) = 0 /\ (owner s = OWaitUnlock true /\ held s = true \/ owner s = ODestroy /\ held s = false \/ owner s = ODestroyed /\ held s = false).

Lemma step_quiet b s c : quiet s -> step b (Sys s) c -> exists s', c = Sys s' /\ quiet s'.
Proof.
  intros (Ht & Hc & Ho) Hs. assert (forall i p, decs s !! i = Some p -> holds_mutex p = false) as Hno.
  { intros i p Hp. destruct (holds_mutex p) eqn:E; [|done]. pose proof (count_in holds_mutex _ _ _ Hp E). lia. }
  inversion Hs; subst; cbn [async held owner self tickets decs] in *; try (destruct Ho as [[Ho Hh]|[[Ho Hh]|[Ho Hh]]]; (done || lia)); try (by specialize (Hno _ _ H));
    try (by match goal with H : _ !! _ = Some _ |- _ => specialize (Hno _ _ H) end).
  - destruct Ho as [[[= ->] _]|[[? _]|[? _]]]; try done. eexists. split; [done|]. split_and!; [done|done|]. right. by left.
  - eexists. split; [done|]. split_and!; [done|done|]. right. by right.
Qed.

(** The destructor is the only hazard.  No assertion of the class ever fails and the
    mutex is not used after it is destroyed, whatever is interleaved, unless the
    destructor destroys it while a call of [dec_pending_ops] holds it; and that can
    not happen when the destructor's wait has gone through the mutex. *)
Theorem only_destructor_races t :
  (reachable t Undefined -> exists s i p, reachable t (Sys s) /\ owner s = ODestroy /\ decs s !! i = Some p /\ holds_mutex p = true) /\
  (forall s, reachable t (Sys s) -> owner s = OWaitUnlock true -> ~ rtc (step true) (Sys s) Undefined).
Proof.
  split.
  - intros Hr. apply rtc_inv_r in Hr as [[=]|(c & Hr & Hs)]. destruct c as [s|]; [|by inversion Hs]. pose proof (reachable_inv t s Hr) as Hi.
    destruct (async_step_inv _ _ _ Hi Hs) as [(s' & [=] & _)|(_ & Ho & Hh)]. destruct Hi as [_ _ H3 _ _ _ _ _]. rewrite Ho, Hh in H3. cbn in H3.
    destruct (count_positive holds_mutex (decs s)) as (i & p & Hp & Hq); [lia|]. by exists s, i, p.
  - intros s Hr Ho Hrun. destruct (reachable_inv t s Hr) as [_ _ H3 _ _ _ _ H8]. rewrite Ho in *. cbn in H3. pose proof (count_nonneg holds_mutex (decs s)).
    assert (quiet s) as Hq. { split_and!; [by apply H8|destruct (held s); cbn in *; lia|]. left. split; [done|]. destruct (held s); cbn in *; (done || lia). }
    assert (forall c, rtc (step true) (Sys s) c -> exists s', c = Sys s' /\ quiet s') as Hall.
    { refine (rtc_ind_r (λ c, exists s', c = Sys s' /\ quiet s') (Sys s) _ _); [by exists s|]. intros c d _ Hd (s' & -> & Hs'). by eapply step_quiet. }
    destruct (Hall _ Hrun) as (? & ? & _). done.
Qed.

(** One operation begun by thread 1; its decrement has brought the counter to 0 and
    still holds the mutex. *)
Lemma inc_reached : reachable 1 (Sys (mkSys (mkAsync NONE 1 1) false ORun 1 1 [])).
Proof. apply (rtc_l _ _ (Sys (mkSys (mkAsync NONE 1 1) true OIncUnlock 1 1 []))); [by constructor|]. eapply rtc_once. constructor. Qed.
Lemma dec_in_progress : reachable 1 (Sys (mkSys (mkAsync NONE 0 1) true ORun 1 0 [DLocked 0])).
Proof. eapply rtc_r; [apply inc_reached|]. by apply (step_dec true (mkAsync NONE 1 1) ORun 1 1 []). Qed.
(** The session is suspended with one operation pending, which then ends. *)
Lemma suspended_reached : reachable 1 (Sys (mkSys (mkAsync SUSPENDED 0 1) false OSuspended 1 0 [DDone 0 SUSPENDED])).
Proof.
  apply (rtc_r _ (Sys (mkSys (mkAsync SUSPENDED 0 1) true OSuspended 1 0 [DUnlock 0 SUSPENDED]))); [|by apply (step_dec_unlock true (mkAsync SUSPENDED 0 1) OSuspended 1 0 [DUnlock 0 SUSPENDED] 0 0 SUSPENDED)].
  apply (rtc_r _ (Sys (mkSys (mkAsync SUSPENDED 0 1) true OSuspended 1 0 [DLocked 0]))); [|by apply (step_dec_signal true (mkAsync SUSPENDED 0 1) OSuspended 1 0 [DLocked 0] 0 0)].
  apply (rtc_r _ (Sys (mkSys (mkAsync SUSPENDED 1 1) false OSuspended 1 1 []))); [|by apply (step_dec true (mkAsync SUSPENDED 1 1) OSuspended 1 1 [])].
  apply (rtc_r _ (Sys (mkSys (mkAsync SUSPENDED 1 1) true (OSuspendUnlock true) 1 1 []))); [|apply (step_suspend_unlock true (mkAsync SUSPENDED 1 1) 1 1 [] true)].
  eapply rtc_r; [apply inc_reached|]. by constructor.
Qed.
Lemma asleep_reached : reachable 1 (Sys (mkSys (mkAsync NONE 1 1) false (OSleep false) 1 1 [])).
Proof.
  apply (rtc_r _ (Sys (mkSys (mkAsync NONE 1 1) false (OLock false) 1 1 []))); [|by apply (step_wait_lock true (mkAsync NONE 1 1) 1 1 [] false)].
  eapply rtc_r; [apply inc_reached|]. by apply (step_wait true (mkAsync NONE 1 1) false 1 1 [] false).
Qed.

(** The destructor can destroy the mutex while it is held: when the last call of
    [dec_pending_ops] has brought the counter to 0 but not yet given the mutex
    back, the read without the mutex in [wait_for_pending_ops] already finds no
    operation pending, and the destructor goes on. *)
Theorem destructor_destroys_held_mutex : exists s, reachable 1 (Sys s) /\ owner s = ODestroy /\ decs s = [DLocked 0] /\ step true (Sys s) Undefined.
Proof.
  exists (mkSys (mkAsync NONE 0 1) true ODestroy 1 0 [DLocked 0]). split_and!; try done; [|apply step_destroy_held].
  eapply rtc_r; [apply dec_in_progress|]. by apply (step_wait true (mkAsync NONE 0 1) true 1 0 [DLocked 0] true).
Qed.

Lemma wait_for_pending_ops_returns_witness : exists s', rtc (step false) (Sys (mkSys (mkAsync NONE 1 1) false (OSleep false) 1 1 [])) (Sys s') /\ owner s' = ORun.
Proof.
  destruct (wait_for_pending_ops_returns 1 _ false asleep_reached eq_refl) as (_ & _ & s' & H & Ho & _). by exists s'.
Defined.
Lemma suspension_handed_over_witness : exists i, [DDone 0 SUSPENDED] !! i = Some (DDone 0 SUSPENDED).
Proof.
  destruct (suspension_handed_over 1 _ suspended_reached) as (_ & H & _). destruct (H eq_refl eq_refl) as (i & Hi & _); [by repeat constructor|]. by exists i.
Defined.
Lemma destructor_locked : reachable 1 (Sys (mkSys (mkAsync NONE 0 1) true (OWaitUnlock true) 1 0 [DDone 0 NONE])).
Proof.
  apply (rtc_r _ (Sys (mkSys (mkAsync NONE 0 1) false (OLock true) 1 0 [DDone 0 NONE]))); [|by apply (step_wait_lock true (mkAsync NONE 0 1) 1 0 [DDone 0 NONE] true)].
  apply (rtc_r _ (Sys (mkSys (mkAsync NONE 0 1) true (OLock true) 1 0 [DUnlock 0 NONE]))); [|by apply (step_dec_unlock true (mkAsync NONE 0 1) (OLock true) 1 0 [DUnlock 0 NONE] 0 0 NONE)].
  apply (rtc_r _ (Sys (mkSys (mkAsync NONE 0 1) true (OLock true) 1 0 [DLocked 0]))); [|by apply (step_dec_signal true (mkAsync NONE 0 1) (OLock true) 1 0 [DLocked 0] 0 0)].
  apply (rtc_r _ (Sys (mkSys (mkAsync NONE 1 1) false (OLock true) 1 1 []))); [|by apply (step_dec true (mkAsync NONE 1 1) (OLock true) 1 1 [])].
  eapply rtc_r; [apply inc_reached|]. by apply (step_wait true (mkAsync NONE 1 1) false 1 1 [] true).
Qed.
Lemma only_destructor_races_witness : ~ rtc (step true) (Sys (mkSys (mkAsync NONE 0 1) true (OWaitUnlock true) 1 0 [DDone 0 NONE])) Undefined.
Proof. by apply (proj2 (only_destructor_races 1) _ destructor_locked). Defined.
