(* ===== verification/SqlFilesort.v ===== *)
(** Sorting: the sort buffer of [private/filesort_utils.h] and the format of the records
    in it, of [private/sql_sort.h].

    A pointer is an address; the array of record pointers, which grows down from the end of
    the buffer, is a store of cells of 8 bytes, and a write outside the buffer is
    undefined.  The bytes of the records are in the second part only, where
    a record is read at an offset.  [alloc_sort_buffer] and the sorting itself are
    only declared in the headers; [fb_allocated] is what the comment of the former
    promises. *)

From S2P Require Import Prelude ByteOrder.

(** * The sort buffer *)

Record Filesort_buffer := mkFB {
  m_next_rec_ptr : Z; m_rawmem : Z; m_record_pointers : Z; m_sort_keys : Z;
  m_num_records : Z; m_record_length : Z; m_sort_length : Z; m_size_in_bytes : Z; m_idx : Z
}.
(** [sizeof(uchar* )]. *)
Definition sizeof_ptr : Z := 8.

Definition fb_init : Filesort_buffer := mkFB 0 0 0 0 0 0 0 0 0.
(** Where the next record goes, and how many there are. *)
Definition with_next (next idx : Z) (fb : Filesort_buffer) : Filesort_buffer :=
  mkFB next (m_rawmem fb) (m_record_pointers fb) (m_sort_keys fb) (m_num_records fb) (m_record_length fb) (m_sort_length fb) (m_size_in_bytes fb) idx.
Definition with_sort_keys (p : Z) (fb : Filesort_buffer) : Filesort_buffer :=
  mkFB (m_next_rec_ptr fb) (m_rawmem fb) (m_record_pointers fb) p (m_num_records fb) (m_record_length fb) (m_sort_length fb) (m_size_in_bytes fb) (m_idx fb).
Definition set_sort_length (val : Z) (fb : Filesort_buffer) : Filesort_buffer :=
  mkFB (m_next_rec_ptr fb) (m_rawmem fb) (m_record_pointers fb) (m_sort_keys fb) (m_num_records fb) (m_record_length fb) val (m_size_in_bytes fb) (m_idx fb).
Definition fb_reset (fb : Filesort_buffer) : Filesort_buffer :=
  mkFB (m_next_rec_ptr fb) 0 (m_record_pointers fb) (m_sort_keys fb) (m_num_records fb) (m_record_length fb) (m_sort_length fb) (m_size_in_bytes fb) (m_idx fb).
Definition is_allocated (fb : Filesort_buffer) : bool := c_true (m_rawmem fb).

(** The cells that hold record pointers. *)
Abbreviation cells := (gmap Z Z).
Definition write_cell (fb : Filesort_buffer) (mem : cells) (p v : Z) : option cells :=
  asserting ((m_rawmem fb <=? p) && (p + sizeof_ptr <=? m_rawmem fb + m_size_in_bytes fb)) (<[p := v]> mem).

Definition init_next_record_pointer (fb : Filesort_buffer) : Filesort_buffer := with_sort_keys 0 (with_next (m_rawmem fb) 0 fb).
Definition space_used_for_data (fb : Filesort_buffer) : Z := if c_true (m_next_rec_ptr fb) then m_next_rec_ptr fb - m_rawmem fb else 0.
Definition spaceleft (fb : Filesort_buffer) : option Z :=
  asserting (m_rawmem fb <=? m_next_rec_ptr fb)
    (let spaceused := u64 (m_next_rec_ptr fb - m_rawmem fb + u64 (u64 (m_idx fb) * sizeof_ptr)) in u64 (m_size_in_bytes fb - spaceused)).
Definition isfull (fb : Filesort_buffer) : option bool :=
  if m_idx fb <? m_num_records fb then Some false
  else left ← spaceleft fb; Some (left <? m_record_length fb + sizeof_ptr).
Definition get_next_record_pointer (fb : Filesort_buffer) (mem : cells) : option (Z * Filesort_buffer * cells) :=
  let retval := m_next_rec_ptr fb in
  mem ← write_cell fb mem (m_record_pointers fb + sizeof_ptr * - m_idx fb) (m_next_rec_ptr fb);
  Some (retval, with_next (m_next_rec_ptr fb + m_record_length fb) (m_idx fb + 1) fb, mem).
Definition adjust_next_record_pointer (val : Z) (fb : Filesort_buffer) : Filesort_buffer :=
  with_next (m_next_rec_ptr fb - u32 (m_record_length fb - val)) (m_idx fb) fb.
Definition get_sort_keys (fb : Filesort_buffer) : Z := if m_idx fb =? 0 then 0 else m_record_pointers fb + sizeof_ptr * (1 - m_idx fb).
Definition get_sorted_record (fb : Filesort_buffer) (mem : cells) (ix : Z) : option Z := mem !! (m_sort_keys fb + sizeof_ptr * ix).

(** The loop of [reverse_record_pointers], from [ix]; each round takes one unit of fuel. *)
Fixpoint reverse_loop (fuel : nat) (fb : Filesort_buffer) (keys count ix : Z) (mem : cells) : option cells :=
  match fuel with
  | O => None
  | S fuel =>
      if ix <=? count ÷ 2
      then tmp ← mem !! (keys + sizeof_ptr * (count - ix));
           other ← mem !! (keys + sizeof_ptr * ix);
           mem ← write_cell fb mem (keys + sizeof_ptr * (count - ix)) other;
           mem ← write_cell fb mem (keys + sizeof_ptr * ix) tmp;
           reverse_loop fuel fb keys count (ix + 1) mem
      else Some mem
  end.
Definition reverse_record_pointers (fb : Filesort_buffer) (mem : cells) : option cells :=
  if m_idx fb <? 2 then Some mem
  else let count := m_idx fb - 1 in reverse_loop (Z.to_nat (m_idx fb)) fb (get_sort_keys fb) count 0 mem.
(** The loop of [init_record_pointers]. *)
Fixpoint init_loop (fuel : nat) (fb : Filesort_buffer) (mem : cells) : option (Filesort_buffer * cells) :=
  match fuel with
  | O => None
  | S fuel => if m_idx fb <? m_num_records fb then '(_, fb, mem) ← get_next_record_pointer fb mem; init_loop fuel fb mem else Some (fb, mem)
  end.
Definition init_record_pointers (fb : Filesort_buffer) (mem : cells) : option (Filesort_buffer * cells) :=
  '(fb, mem) ← init_loop (S (Z.to_nat (m_num_records fb))) (init_next_record_pointer fb) mem;
  mem ← reverse_record_pointers fb mem;
  Some (fb, mem).

(** How the buffer is filled: a record of [val] bytes is made at the next pointer, unless the
    buffer is full. *)
Fixpoint fill (vals : list Z) (fb : Filesort_buffer) (mem : cells) : option (list Z * Filesort_buffer * cells) :=
  match vals with
  | [] => Some ([], fb, mem)
  | val :: vals =>
      full ← isfull fb;
      if full : bool then Some ([], fb, mem)
      else '(to, fb, mem) ← get_next_record_pointer fb mem;
           '(tos, fb, mem) ← fill vals (adjust_next_record_pointer val fb) mem;
           Some (to :: tos, fb, mem)
  end.

(** * Records *)

(** [Addon_fields]; its buffer is an address and [None] is [NULL]. *)
Record Addon_fields := mkAddon { m_addon_buf : option Z; m_addon_buf_length : Z; m_using_packed_addons : bool }.
Definition addon_init : Addon_fields := mkAddon None 0 false.
(** [block]: what [my_malloc] returns. *)
Definition allocate_addon_buf (block : option Z) (sz : Z) (a : Addon_fields) : option Z * Addon_fields :=
  (block, mkAddon block (match block with Some _ => sz | None => m_addon_buf_length a end) (m_using_packed_addons a)).
Definition free_addon_buff (a : Addon_fields) : Addon_fields := mkAddon None 0 (m_using_packed_addons a).
Definition set_using_packed_addons (val : bool) (a : Addon_fields) : Addon_fields := mkAddon (m_addon_buf a) (m_addon_buf_length a) val.
Definition can_pack_addon_fields (record_length : Z) : bool := record_length <=? 0xFFFF.

Definition addon_length_field : Z := 2.
Definition in_record (p : list byte) (T n : nat) : option unit := asserting ((T + n <=? length p)%nat) tt.
Definition read_addon_length (p : list byte) (T : nat) : option Z := _ ← in_record p T 2; Some (u32 (addon_length_field + X86_64.uint2korr p T)).
Definition store_addon_length (p : list byte) (T : nat) (sz : Z) : list byte := X86_64.int2store p T (u32 (sz - addon_length_field)).

(** [Sort_keys], without its array of fields. *)
Record Sort_keys := mkKeys {
  m_using_packed_sortkeys : bool; size_of_packable_fields : Z; sort_length_with_original_values : Z; sort_length_with_memcmp_values : Z; parameters_computed : bool
}.
Definition sort_keys_init : Sort_keys := mkKeys false 0 0 0 false.
Definition set_using_packed_sortkeys (val : bool) (k : Sort_keys) : Sort_keys :=
  mkKeys val (size_of_packable_fields k) (sort_length_with_original_values k) (sort_length_with_memcmp_values k) (parameters_computed k).
Definition increment_size_of_packable_fields (len : Z) (k : Sort_keys) : Sort_keys :=
  mkKeys (m_using_packed_sortkeys k) (u32 (size_of_packable_fields k + len)) (sort_length_with_original_values k) (sort_length_with_memcmp_values k) (parameters_computed k).
Definition increment_original_sort_length (len : Z) (k : Sort_keys) : Sort_keys :=
  mkKeys (m_using_packed_sortkeys k) (size_of_packable_fields k) (u32 (sort_length_with_original_values k + len)) (sort_length_with_memcmp_values k) (parameters_computed k).

Definition sortkey_length_field : Z := 4.
Definition read_sortkey_length (p : list byte) (T : nat) : option Z := _ ← in_record p T 4; Some (u32 (sortkey_length_field + X86_64.uint4korr p T)).
Definition store_sortkey_length (p : list byte) (T : nat) (sz : Z) : list byte := X86_64.int4store p T (u32 (sz - sortkey_length_field)).

Record Sort_param := mkParam {
  rec_length : Z; sort_length : Z; addon_length : Z; res_length : Z; addon_fields : option Addon_fields; sort_keys : option Sort_keys;
  cached_packed_addons : bool; cached_packed_sortkeys : bool; m_packed_format : bool
}.
Inductive compare_function := packed_keys_compare | ptr_compare (length : Z).

Section param.
Implicit Types (sp : Sort_param) (p : list byte) (T : nat).

Definition param_packed_addons sp : option bool :=
  asserting (eqb (cached_packed_addons sp) (match addon_fields sp with Some a => m_using_packed_addons a | None => false end)) (cached_packed_addons sp).
Definition param_packed_sortkeys sp : option bool :=
  asserting (eqb (cached_packed_sortkeys sp) (match sort_keys sp with Some k => m_using_packed_sortkeys k | None => false end)) (cached_packed_sortkeys sp).
Definition using_addon_fields sp : bool := match addon_fields sp with Some _ => true | None => false end.
Definition get_result_length sp p T : option Z := if negb (cached_packed_addons sp) then Some (res_length sp) else read_addon_length p T.
Definition get_addon_length sp p T : option Z :=
  packed ← param_packed_addons sp;
  if packed : bool then read_addon_length p T else Some (addon_length sp).
Definition get_sort_length sp p T : option Z :=
  packed ← param_packed_sortkeys sp;
  if packed : bool
  then n ← read_sortkey_length p T; Some (u32 (n + (if using_addon_fields sp then 0 else res_length sp)))
  else Some (sort_length sp).
Definition get_record_length sp p T : option Z :=
  if m_packed_format sp
  then sort_len ← get_sort_length sp p T; addon_len ← get_addon_length sp p (T + Z.to_nat sort_len); Some (u32 (sort_len + addon_len))
  else Some (rec_length sp).
Definition get_rec_and_res_len sp p T : option (Z * Z) :=
  if m_packed_format sp
  then sort_len ← get_sort_length sp p T; addon_len ← get_addon_length sp p (T + Z.to_nat sort_len);
       Some (u32 (sort_len + addon_len), if using_addon_fields sp then addon_len else res_length sp)
  else Some (rec_length sp, res_length sp).
Definition get_compare_function sp : option compare_function :=
  packed ← param_packed_sortkeys sp; Some (if packed : bool then packed_keys_compare else ptr_compare (sort_length sp)).
End param.

(** * Chunks of a merge *)

(** A sorted part of a file, and the part of the merge buffer that it has; 0 is [NULL]. *)
Record Merge_chunk := mkChunk { m_current_key : Z; m_file_position : Z; m_buffer_start : Z; m_buffer_end : Z; m_rowcount : Z; m_mem_count : Z; m_max_keys : Z }.
Definition chunk_init : Merge_chunk := mkChunk 0 0 0 0 0 0 0.
Definition chunk_set_buffer (first last : Z) (c : Merge_chunk) : Merge_chunk :=
  mkChunk (m_current_key c) (m_file_position c) first last (m_rowcount c) (m_mem_count c) (m_max_keys c).
Definition chunk_set_buffer_end (last : Z) (c : Merge_chunk) : option Merge_chunk :=
  asserting ((m_buffer_end c =? 0) || (last <=? m_buffer_end c)) (chunk_set_buffer (m_buffer_start c) last c).
Definition with_max_keys (n : Z) (c : Merge_chunk) : Merge_chunk :=
  mkChunk (m_current_key c) (m_file_position c) (m_buffer_start c) (m_buffer_end c) (m_rowcount c) (m_mem_count c) n.
Definition init_current_key (c : Merge_chunk) : Merge_chunk :=
  mkChunk (m_buffer_start c) (m_file_position c) (m_buffer_start c) (m_buffer_end c) (m_rowcount c) (m_mem_count c) (m_max_keys c).
Definition advance_current_key (val : Z) (c : Merge_chunk) : Merge_chunk :=
  mkChunk (m_current_key c + val) (m_file_position c) (m_buffer_start c) (m_buffer_end c) (m_rowcount c) (m_mem_count c) (m_max_keys c).
Definition advance_file_position (val : Z) (c : Merge_chunk) : Merge_chunk :=
  mkChunk (m_current_key c) (u64 (m_file_position c + val)) (m_buffer_start c) (m_buffer_end c) (m_rowcount c) (m_mem_count c) (m_max_keys c).
Definition decrement_rowcount (val : Z) (c : Merge_chunk) : Merge_chunk :=
  mkChunk (m_current_key c) (m_file_position c) (m_buffer_start c) (m_buffer_end c) (u64 (m_rowcount c - val)) (m_mem_count c) (m_max_keys c).
Definition decrement_mem_count (c : Merge_chunk) : Z * Merge_chunk :=
  let n := u64 (m_mem_count c - 1) in (n, mkChunk (m_current_key c) (m_file_position c) (m_buffer_start c) (m_buffer_end c) (m_rowcount c) n (m_max_keys c)).
Definition buffer_size (c : Merge_chunk) : Z := u64 (m_buffer_end c - m_buffer_start c).
(** [this] is given up and its buffer goes to [mc] if it is next to it. *)
Definition merge_freed_buff (this mc : Merge_chunk) : bool * Merge_chunk :=
  if m_buffer_end mc =? m_buffer_start this
  then (true, with_max_keys (u64 (m_max_keys mc + m_max_keys this)) (chunk_set_buffer (m_buffer_start mc) (m_buffer_end this) mc))
  else if m_buffer_start mc =? m_buffer_end this
  then (true, with_max_keys (u64 (m_max_keys mc + m_max_keys this)) (chunk_set_buffer (m_buffer_start this) (m_buffer_end mc) mc))
  else (false, mc).

(** * What the buffer holds *)

(** A buffer as [alloc_sort_buffer] leaves it: room for the records it was asked for and
    their pointers, the first of which is at the very end. *)
Record fb_allocated (fb : Filesort_buffer) : Prop := {
  al_raw : 0 < m_rawmem fb;
  al_size : m_num_records fb * (m_record_length fb + sizeof_ptr) <= m_size_in_bytes fb;
  al_fits : m_rawmem fb + m_size_in_bytes fb < 2 ^ 63;
  al_num : 0 < m_num_records fb < 2 ^ 32;
  al_len : 0 <= m_record_length fb < 2 ^ 32;
  al_ptrs : m_record_pointers fb = m_rawmem fb + m_size_in_bytes fb - sizeof_ptr
}.

(** The addresses of records of these lengths, one behind the other, and the end of the last. *)
Fixpoint addresses (p : Z) (lens : list Z) : list Z := match lens with [] => [] | len :: lens => p :: addresses (p + len) lens end.
Definition sum_Z (l : list Z) : Z := foldr Z.add 0 l.

(** The buffer holds records of these lengths, none longer than [m_record_length]. *)
Record buffer_rep (fb : Filesort_buffer) (mem : cells) (lens : list Z) : Prop := {
  fr_alloc : fb_allocated fb;
  fr_idx : m_idx fb = Z.of_nat (length lens);
  fr_next : m_next_rec_ptr fb = m_rawmem fb + sum_Z lens;
  fr_lens : Forall (λ len, 0 <= len <= m_record_length fb) lens;
  fr_room : sum_Z lens + sizeof_ptr * Z.of_nat (length lens) <= m_size_in_bytes fb;
  fr_cells : forall i a, addresses (m_rawmem fb) lens !! i = Some a -> mem !! (m_record_pointers fb - sizeof_ptr * Z.of_nat i) = Some a;
  fr_below : forall i a, addresses (m_rawmem fb) lens !! i = Some a -> m_rawmem fb <= a /\ a + m_record_length fb <= m_record_pointers fb - sizeof_ptr * Z.of_nat i
}.

Lemma sum_Z_app l l' : sum_Z (l ++ l') = sum_Z l + sum_Z l'.
Proof. unfold sum_Z. induction l as [|x l IH]; cbn [app foldr]; lia. Qed.
Lemma sum_Z_bounds l b : Forall (λ x, 0 <= x <= b) l -> 0 <= sum_Z l <= b * Z.of_nat (length l).
Proof. unfold sum_Z. induction 1 as [|x l Hx _ IH]; cbn [foldr length]; [lia|]. lia. Qed.
Lemma length_addresses p l : length (addresses p l) = length l.
Proof. revert p. induction l as [|x l IH]; intros p; [done|]. cbn. by rewrite IH. Qed.
Lemma addresses_app p l l' : addresses p (l ++ l') = addresses p l ++ addresses (p + sum_Z l) l'.
Proof.
  revert p. induction l as [|x l IH]; intros p; cbn [app addresses]; [by rewrite Z.add_0_r|]. rewrite IH. cbn. do 3 f_equal. unfold sum_Z. cbn [foldr]. lia.
Qed.
Lemma addresses_repeat p len n i : (i < n)%nat -> addresses p (replicate n len) !! i = Some (p + Z.of_nat i * len).
Proof.
  revert p i. induction n as [|n IH]; intros p [|i] Hi; [lia|lia| |]; cbn [replicate addresses lookup list_lookup]; [f_equal; lia|]. rewrite IH by lia. f_equal. lia.
Qed.

Section buffer.
Implicit Types (fb : Filesort_buffer) (mem : cells) (lens : list Z).

Lemma allocated_with fb next idx : fb_allocated fb -> fb_allocated (with_next next idx fb).
Proof. by intros [? ? ? ? ?]. Qed.
Lemma init_rep fb mem : fb_allocated fb -> buffer_rep (init_next_record_pointer fb) mem [].
Proof.
  intros Ha. pose proof Ha as [? ? ? ? ? ?]. split; cbn [init_next_record_pointer with_next with_sort_keys m_idx m_next_rec_ptr m_rawmem m_size_in_bytes m_record_length length]; try done.
  - cbn. lia.
  - cbn. unfold sizeof_ptr in *. nia.
Qed.

(** No room for one more record of the full length and its pointer. *)
Definition no_room fb lens : Prop := m_size_in_bytes fb < sum_Z lens + sizeof_ptr * Z.of_nat (length lens) + m_record_length fb + sizeof_ptr.

Lemma isfull_spec fb mem lens : buffer_rep fb mem lens -> exists full, isfull fb = Some full /\
  if full : bool then m_num_records fb <= Z.of_nat (length lens) /\ no_room fb lens
  else sum_Z lens + sizeof_ptr * Z.of_nat (length lens) + m_record_length fb + sizeof_ptr <= m_size_in_bytes fb.
Proof.
  intros [[H1 H2 H3 H4 H5 H6] Hi Hn Hl Hr _ _]. unfold isfull, no_room, sizeof_ptr in *. rewrite Hi. pose proof (sum_Z_bounds _ _ Hl).
  destruct (Z.ltb_spec (Z.of_nat (length lens)) (m_num_records fb)).
  - exists false. split; [done|]. nia.
  - unfold spaceleft. rewrite Hn, Hi, asserting_true by (apply Z.leb_le; lia). cbn [mbind option_bind]. unfold sizeof_ptr.
    rewrite (uwrap_small 64 (Z.of_nat _)), (uwrap_small 64 (_ * 8)), (uwrap_small 64 (_ + _)), (uwrap_small 64 (_ - _)) by (unfold ufits; lia).
    eexists. split; [done|]. destruct (Z.ltb_spec (m_size_in_bytes fb - (m_rawmem fb + sum_Z lens - m_rawmem fb + Z.of_nat (length lens) * 8)) (m_record_length fb + 8)); lia.
Qed.

(** The new record has all its room below its pointer, and so below all of them. *)
Lemma get_next_rep fb mem lens val : buffer_rep fb mem lens -> isfull fb = Some false -> 0 <= val <= m_record_length fb ->
  exists fb' mem', get_next_record_pointer fb mem = Some (m_rawmem fb + sum_Z lens, fb', mem') /\
    buffer_rep (adjust_next_record_pointer val fb') mem' (lens ++ [val]) /\ adjust_next_record_pointer (m_record_length fb) fb' = fb' /\
    m_rawmem fb + sum_Z lens + m_record_length fb <= m_record_pointers fb - sizeof_ptr * Z.of_nat (length lens).
Proof.
  intros Hrep Hfull Hval. destruct (isfull_spec _ _ _ Hrep) as (full & Hf & Hroom). assert (full = false) as -> by congruence.
  pose proof Hrep as [Ha Hi Hn Hl Hr Hc Hb]. pose proof Ha as [H1 H2 H3 H4 H5 H6]. pose proof (sum_Z_bounds _ _ Hl).
  unfold get_next_record_pointer, write_cell. rewrite Hi, Hn, asserting_true by (rewrite H6; apply andb_true_iff; unfold sizeof_ptr in *; split; apply Z.leb_le; lia). cbn [mbind option_bind].
  eexists _, _. split; [done|]. split_and!; [|unfold adjust_next_record_pointer; cbn; rewrite Z.sub_diag; unfold with_next; cbn; f_equal; change (u32 0) with 0; lia|unfold sizeof_ptr in *; rewrite H6; lia].
  split; cbn [adjust_next_record_pointer with_next m_idx m_next_rec_ptr m_rawmem m_size_in_bytes m_record_length m_record_pointers m_num_records].
  - by repeat apply allocated_with.
  - rewrite length_app. cbn [length]. lia.
  - rewrite sum_Z_app, uwrap_small by (unfold ufits; lia). cbn. lia.
  - apply Forall_app. split; [done|]. by apply Forall_singleton.
  - rewrite sum_Z_app, length_app. unfold sizeof_ptr in *. cbn. lia.
  - intros i a. rewrite addresses_app. cbn [addresses]. intros [Hia|[Hge Hia]]%lookup_app_Some.
    + pose proof (lookup_lt_Some _ _ _ Hia) as Hlt. rewrite length_addresses in Hlt. setoid_rewrite lookup_insert_ne; [by apply Hc|unfold sizeof_ptr; lia].
    + rewrite length_addresses in *. destruct (i - length lens)%nat eqn:E; [|done]. injection Hia as <-. assert (i = length lens) as -> by lia.
      replace (m_record_pointers fb - sizeof_ptr * Z.of_nat (length lens)) with (m_record_pointers fb + sizeof_ptr * - Z.of_nat (length lens)) by lia. apply lookup_insert_eq.
  - intros i a. rewrite addresses_app. cbn [addresses]. intros [Hia|[Hge Hia]]%lookup_app_Some; [by apply Hb|].
    rewrite length_addresses in *. destruct (i - length lens)%nat eqn:E; [|done]. injection Hia as <-. unfold sizeof_ptr in *. lia.
Qed.

Lemma fill_rep vals fb mem lens : buffer_rep fb mem lens -> Forall (λ val, 0 <= val <= m_record_length fb) vals ->
  exists k fb' mem', (k <= length vals)%nat /\ fill vals fb mem = Some (addresses (m_rawmem fb + sum_Z lens) (take k vals), fb', mem') /\
    buffer_rep fb' mem' (lens ++ take k vals) /\ m_rawmem fb' = m_rawmem fb /\ m_record_length fb' = m_record_length fb /\ m_num_records fb' = m_num_records fb /\
    m_size_in_bytes fb' = m_size_in_bytes fb /\
    ((k < length vals)%nat -> m_num_records fb <= Z.of_nat (length (lens ++ take k vals)) /\ no_room fb (lens ++ take k vals)).
Proof.
  revert fb mem lens. induction vals as [|val vals IH]; intros fb mem lens Hrep Hvals; cbn [fill].
  { exists O, fb, mem. rewrite app_nil_r. split_and!; try done. cbn [length]. lia. }
  apply Forall_cons in Hvals as [Hval Hvals]. destruct (isfull_spec _ _ _ Hrep) as (full & Hf & Hroom). rewrite Hf. cbn [mbind option_bind].
  destruct full; [exists O, fb, mem; rewrite app_nil_r; split_and!; (done || (cbn [length]; lia))|].
  destruct (get_next_rep fb mem lens val Hrep Hf Hval) as (fb1 & mem1 & Hg & Hrep1 & _ & _).
  assert (m_rawmem fb1 = m_rawmem fb /\ m_record_length fb1 = m_record_length fb /\ m_num_records fb1 = m_num_records fb /\ m_size_in_bytes fb1 = m_size_in_bytes fb) as (E1 & E2 & E3 & E4).
  { unfold get_next_record_pointer in Hg. destruct (write_cell _ _ _ _); [|done]. by injection Hg as _ <- _. }
  rewrite Hg. cbn [mbind option_bind]. destruct (IH _ _ _ Hrep1) as (k & fb' & mem' & Hk & -> & Hrep' & F1 & F2 & F3 & F4 & Hno); [cbn; by rewrite E2|].
  cbn [mbind option_bind adjust_next_record_pointer with_next m_rawmem m_record_length m_num_records m_size_in_bytes] in *.
  exists (S k), fb', mem'. cbn [take addresses length]. rewrite <-app_assoc in Hrep', Hno. cbn [app] in Hrep', Hno. split_and!; try congruence; try lia; try done.
  - do 3 f_equal. rewrite E1, sum_Z_app. cbn. f_equal. f_equal. lia.
  - intros Hlt. destruct Hno as [Hn1 Hn2]; [lia|]. split; [by rewrite <-E3|]. unfold no_room in *. cbn in Hn2. by rewrite E4, E2 in Hn2.
Qed.

(** The [i]-th element of the array that [get_sort_keys] returns. *)
Definition sort_key fb mem (i : Z) : option Z := mem !! (get_sort_keys fb + sizeof_ptr * i).

Lemma sort_key_rep fb mem lens i : buffer_rep fb mem lens -> (i < length lens)%nat -> sort_key fb mem (Z.of_nat i) = reverse (addresses (m_rawmem fb) lens) !! i.
Proof.
  intros [Ha Hi Hn Hl Hr Hc _] Hlt. unfold sort_key, get_sort_keys. rewrite Hi, (proj2 (Z.eqb_neq _ _)) by lia.
  rewrite reverse_lookup by (by rewrite length_addresses). rewrite length_addresses.
  destruct (lookup_lt_is_Some_2 (addresses (m_rawmem fb) lens) (length lens - S i)) as [a Hla]; [rewrite length_addresses; lia|]. rewrite Hla. erewrite <-Hc by done. f_equal. unfold sizeof_ptr. lia.
Qed.

(** C22.  Whatever records are made, one after the other until the buffer says that it is
    full, they are packed without a gap, each has room for the full record length below the
    array of pointers while it is made, and the array, read from its other end, is
    their addresses in reverse order.  The buffer is full only when it holds as many records
    as it was allocated for and has no room for one more. *)
Theorem filesort_buffer_packs fb mem vals : fb_allocated fb -> Forall (λ val, 0 <= val <= m_record_length fb) vals ->
  exists k fb' mem', (k <= length vals)%nat /\
    fill vals (init_next_record_pointer fb) mem = Some (addresses (m_rawmem fb) (take k vals), fb', mem') /\
    ((k < length vals)%nat -> m_num_records fb <= Z.of_nat k /\ no_room fb (take k vals)) /\
    (forall i, (i < k)%nat -> sort_key fb' mem' (Z.of_nat i) = reverse (addresses (m_rawmem fb) (take k vals)) !! i) /\
    (forall i a, addresses (m_rawmem fb) (take k vals) !! i = Some a -> m_rawmem fb <= a /\ a + m_record_length fb <= m_record_pointers fb - sizeof_ptr * Z.of_nat i) /\
    space_used_for_data fb' = sum_Z (take k vals).
Proof.
  intros Ha Hvals. destruct (fill_rep vals _ mem [] (init_rep fb mem Ha) Hvals) as (k & fb' & mem' & Hk & Hf & Hrep & E1 & E2 & E3 & E4 & Hno).
  cbn [app] in *. cbn [init_next_record_pointer with_next with_sort_keys m_rawmem m_record_length m_num_records m_size_in_bytes] in *.
  assert (length (take k vals) = k) as Hlen by (rewrite length_take; lia). exists k, fb', mem'. split_and!; try done.
  - rewrite Hf. do 3 f_equal. cbn. f_equal. lia.
  - intros Hlt. destruct (Hno Hlt) as [H1 H2]. by rewrite Hlen in H1.
  - intros i Hi. rewrite <-E1. apply sort_key_rep; [done|]. by rewrite Hlen.
  - intros i a Hia. destruct Hrep as [[_ _ _ _ _ Hp'] _ _ _ _ _ Hb], Ha as [_ _ _ _ _ Hp]. rewrite Hp. rewrite E1, E4 in Hp'. rewrite Hp', E1, E2 in Hb. by apply Hb.
  - unfold space_used_for_data. destruct Hrep as [[? ? ? ? ? ?] _ -> Hl _ _ _]. pose proof (sum_Z_bounds _ _ Hl).
    assert (c_true (m_rawmem fb' + sum_Z (take k vals)) = true) as -> by (apply c_true_spec; lia). lia.
Qed.

(** Decides every comparison. *)
Ltac bounds := repeat match goal with |- context [?a <? ?b] => destruct (Z.ltb_spec a b) end; cbn [orb]; solve [done | lia | do 2 f_equal; lia].

Lemma reverse_loop_spec fb keys count orig fuel : forall ix mem, 0 <= ix -> 0 <= count ->
  (forall j, 0 <= j <= count -> m_rawmem fb <= keys + sizeof_ptr * j /\ keys + sizeof_ptr * j + sizeof_ptr <= m_rawmem fb + m_size_in_bytes fb) ->
  (forall j, 0 <= j <= count -> mem !! (keys + sizeof_ptr * j) = Some (if (j <? ix) || (count - ix <? j) then orig (count - j) else orig j)) ->
  ix <= count / 2 + 1 -> (Z.to_nat (count / 2 + 1 - ix) < fuel)%nat ->
  exists mem', reverse_loop fuel fb keys count ix mem = Some mem' /\ forall j, 0 <= j <= count -> mem' !! (keys + sizeof_ptr * j) = Some (orig (count - j) : Z).
Proof.
  induction fuel as [|fuel IH]; intros ix mem Hix Hc Hin Hmem Hle Hf; [lia|]. cbn [reverse_loop]. rewrite Z.quot_div_nonneg by lia.
  destruct (Z.leb_spec ix (count / 2)) as [Hlt|Hge].
  - assert (ix <= count - ix) by lia_mod. rewrite !Hmem by lia. cbn [mbind option_bind]. unfold write_cell. destruct (Hin ix), (Hin (count - ix)); [lia..|].
    do 2 (rewrite asserting_true by (apply andb_true_iff; split; apply Z.leb_le; lia); cbn [mbind option_bind]). apply IH; try done; try lia. intros j Hj.
    destruct (Z.eq_dec j ix) as [->|N1]; [rewrite lookup_insert_eq; bounds|]. rewrite lookup_insert_ne by (unfold sizeof_ptr; lia).
    destruct (Z.eq_dec j (count - ix)) as [->|N2]; [rewrite lookup_insert_eq; bounds|]. rewrite lookup_insert_ne by (unfold sizeof_ptr; lia). rewrite Hmem by lia. bounds.
  - exists mem. split; [done|]. intros j Hj. rewrite Hmem by done. destruct (Z.ltb_spec j ix), (Z.ltb_spec (count - ix) j); cbn [orb]; try done. exfalso. lia_mod.
Qed.

Lemma reverse_pointers_spec fb mem lens : buffer_rep fb mem lens ->
  exists mem', reverse_record_pointers fb mem = Some mem' /\ forall i, (i < length lens)%nat -> sort_key fb mem' (Z.of_nat i) = addresses (m_rawmem fb) lens !! i.
Proof.
  intros Hrep. pose proof Hrep as [[H1 H2 H3 H4 H5 H6] Hi Hn Hl Hr Hc Hb]. unfold reverse_record_pointers. rewrite Hi. pose proof (sum_Z_bounds _ _ Hl).
  destruct (Z.ltb_spec (Z.of_nat (length lens)) 2) as [Hs|Hs].
  - exists mem. split; [done|]. intros i Hlt. rewrite (sort_key_rep _ _ lens) by done. destruct lens as [|a [|b lens]]; cbn [length] in *; [lia| |lia]. by destruct i.
  - set (orig j := reverse (addresses (m_rawmem fb) lens) !!! Z.to_nat j).
    assert (forall i, (i < length lens)%nat -> sort_key fb mem (Z.of_nat i) = Some (orig (Z.of_nat i))) as Hk.
    { intros i Hlt. rewrite (sort_key_rep _ _ lens) by done. unfold orig. rewrite Nat2Z.id. apply list_lookup_lookup_total_lt. by rewrite length_reverse, length_addresses. }
    destruct (reverse_loop_spec fb (get_sort_keys fb) (Z.of_nat (length lens) - 1) orig (Z.to_nat (Z.of_nat (length lens))) 0 mem) as (mem' & Hm & Hkeys); [lia|lia| | |lia_mod|lia_mod|].
    + intros j Hj. unfold get_sort_keys. rewrite Hi, (proj2 (Z.eqb_neq _ _)) by lia. unfold sizeof_ptr in *. lia.
    + intros j Hj. rewrite (proj2 (Z.ltb_ge j 0)), (proj2 (Z.ltb_ge _ j)) by lia. specialize (Hk (Z.to_nat j) ltac:(lia)). rewrite Z2Nat.id in Hk by lia. done.
    + exists mem'. split; [done|]. intros i Hlt. unfold sort_key. rewrite Hkeys by lia. unfold orig.
      replace (Z.to_nat (Z.of_nat (length lens) - 1 - Z.of_nat i)) with (length (addresses (m_rawmem fb) lens) - S i)%nat by (rewrite length_addresses; lia).
      rewrite <-list_lookup_lookup_total_lt by (rewrite length_reverse, length_addresses; lia). rewrite reverse_lookup by (rewrite length_addresses; lia). f_equal. rewrite length_addresses. lia.
Qed.

Lemma init_loop_rep k fuel : forall fb mem n, buffer_rep fb mem (replicate n (m_record_length fb)) ->
  m_num_records fb = Z.of_nat (n + k) -> (k < fuel)%nat ->
  exists fb' mem', init_loop fuel fb mem = Some (fb', mem') /\ buffer_rep fb' mem' (replicate (n + k) (m_record_length fb)) /\ m_rawmem fb' = m_rawmem fb.
Proof.
  revert k. induction fuel as [|fuel IH]; intros k fb mem n Hrep Hnum Hf; [lia|]. cbn [init_loop]. pose proof (fr_idx _ _ _ Hrep) as Hi. rewrite length_replicate in Hi. rewrite Hi, Hnum.
  destruct k as [|k].
  - rewrite (proj2 (Z.ltb_ge _ _)) by lia. exists fb, mem. rewrite Nat.add_0_r. done.
  - rewrite (proj2 (Z.ltb_lt _ _)) by lia. assert (isfull fb = Some false) as Hfull by (unfold isfull; by rewrite Hi, Hnum, (proj2 (Z.ltb_lt _ _)) by lia).
    destruct (get_next_rep fb mem _ (m_record_length fb) Hrep Hfull) as (fb1 & mem1 & Hg & Hrep1 & Hadj & _); [destruct Hrep as [[] ? ? ? ? ? ?]; lia|].
    assert (m_record_length fb1 = m_record_length fb /\ m_num_records fb1 = m_num_records fb /\ m_rawmem fb1 = m_rawmem fb) as (E1 & E2 & E3).
    { unfold get_next_record_pointer in Hg. destruct (write_cell _ _ _ _); [|done]. by injection Hg as _ <- _. }
    rewrite Hg. cbn [mbind option_bind]. rewrite Hadj in Hrep1.
    assert (replicate n (m_record_length fb) ++ [m_record_length fb] = replicate (S n) (m_record_length fb1)) as Er by (rewrite E1; symmetry; apply replicate_S_end). rewrite Er in Hrep1.
    destruct (IH k fb1 mem1 (S n) Hrep1) as (fb' & mem' & Hl & Hr & E4); [rewrite E2; lia|lia|]. exists fb', mem'. rewrite <-E1. split_and!; [done| |congruence]. by replace (n + S k)%nat with (S n + k)%nat by lia.
Qed.

(** [init_record_pointers] stays inside the buffer and leaves the array of pointers
    in order: element [i] is where the [i]-th record of the full length goes. *)
Theorem init_record_pointers_spec fb mem : fb_allocated fb ->
  exists fb' mem', init_record_pointers fb mem = Some (fb', mem') /\ m_idx fb' = m_num_records fb /\
    forall i, (i < Z.to_nat (m_num_records fb))%nat -> sort_key fb' mem' (Z.of_nat i) = Some (m_rawmem fb + Z.of_nat i * m_record_length fb).
Proof.
  intros Ha. pose proof (al_num _ Ha). unfold init_record_pointers.
  destruct (init_loop_rep (Z.to_nat (m_num_records fb)) (S (Z.to_nat (m_num_records fb))) (init_next_record_pointer fb) mem 0 (init_rep fb mem Ha)) as (fb' & mem' & Hl & Hrep & E); [cbn; lia|lia|].
  rewrite Hl. cbn [mbind option_bind]. cbn [Nat.add] in Hrep. change (m_record_length (init_next_record_pointer fb)) with (m_record_length fb) in Hrep. change (m_rawmem (init_next_record_pointer fb)) with (m_rawmem fb) in E.
  destruct (reverse_pointers_spec _ _ _ Hrep) as (mem'' & -> & Hk). cbn [mbind option_bind]. exists fb', mem''. split_and!; [done| |].
  - rewrite (fr_idx _ _ _ Hrep), length_replicate. lia.
  - intros i Hi. rewrite Hk by (by rewrite length_replicate). rewrite E. by apply addresses_repeat.
Qed.
End buffer.

(** * Records are read back *)

(** A record: the bytes of its key, and the row id or the added fields. *)
Record sort_record := mkRecord { key : list byte; payload : list byte }.

Section records.
Implicit Types (sp : Sort_param) (r : sort_record).

(** A record in the sort buffer, as the comments of the header draw it. *)
Definition packed_keys sp : bool := cached_packed_sortkeys sp.
Definition packed_addons sp : bool := cached_packed_addons sp.
Definition key_part sp r : list byte :=
  if packed_keys sp then store_sortkey_length (replicate 4 (Zbyte 0) ++ key r) 0 (4 + Z.of_nat (length (key r))) else key r.
Definition payload_part sp r : list byte :=
  if packed_addons sp then store_addon_length (replicate 2 (Zbyte 0) ++ payload r) 0 (2 + Z.of_nat (length (payload r))) else payload r.
Definition record_bytes sp r : list byte := key_part sp r ++ payload_part sp r.

(** The lengths that [init_for_filesort] sets up. *)
Record param_ok sp : Prop := {
  po_addons : cached_packed_addons sp = match addon_fields sp with Some a => m_using_packed_addons a | None => false end;
  po_keys : cached_packed_sortkeys sp = match sort_keys sp with Some k => m_using_packed_sortkeys k | None => false end;
  po_format : m_packed_format sp = packed_addons sp || packed_keys sp;
  po_lengths : 0 <= rec_length sp /\ 0 <= sort_length sp /\ 0 <= addon_length sp /\ 0 <= res_length sp;
  po_rec : rec_length sp = sort_length sp + addon_length sp;
  po_res : if using_addon_fields sp then res_length sp = addon_length sp else addon_length sp = 0
}.
(** The lengths of the parts of a record fit their fields, or are those of all records. *)
Record record_ok sp r : Prop := {
  ro_key : packed_keys sp = false -> Z.of_nat (length (key r)) + (if using_addon_fields sp then 0 else res_length sp) = sort_length sp;
  ro_payload : if using_addon_fields sp then if packed_addons sp then Z.of_nat (length (payload r)) < 2 ^ 16 else Z.of_nat (length (payload r)) = addon_length sp
               else Z.of_nat (length (payload r)) = res_length sp;
  ro_total : Z.of_nat (length (record_bytes sp r)) < 2 ^ 32
}.

Lemma rd_middle n pre x post : length x = n -> rd n (pre ++ x ++ post) (length pre) = rd n x 0.
Proof.
  intros Hx. unfold rd. apply list_eq. intros i. rewrite !list_lookup_fmap. destruct (decide (i < n)%nat) as [Hi|Hi].
  - rewrite !lookup_seq_lt by done. cbn. f_equal. unfold uc. f_equal. rewrite lookup_total_app_r by lia. rewrite lookup_total_app_l by lia. f_equal. lia.
  - rewrite !lookup_seq_ge by lia. done.
Qed.
Lemma load_prefix n pre x post : (n <= length x)%nat -> load_word n (pre ++ x ++ post) (length pre) = load_word n x 0.
Proof.
  intros Hx. unfold load_word. f_equal. rewrite <-(take_drop n x) at 1. rewrite <-app_assoc, rd_middle by (rewrite length_take; lia).
  rewrite <-(take_drop n x) at 2. symmetry. apply (rd_middle n [] (take n x) (drop n x)). rewrite length_take. lia.
Qed.

Lemma length_key_part sp r : Z.of_nat (length (key_part sp r)) = Z.of_nat (length (key r)) + if packed_keys sp then 4 else 0.
Proof. unfold key_part. destruct (packed_keys sp); [|lia]. unfold store_sortkey_length, X86_64.int4store. rewrite length_store_word, length_app, length_replicate. lia. Qed.
Lemma length_payload_part sp r : Z.of_nat (length (payload_part sp r)) = Z.of_nat (length (payload r)) + if packed_addons sp then 2 else 0.
Proof. unfold payload_part. destruct (packed_addons sp); [|lia]. unfold store_addon_length, X86_64.int2store. rewrite length_store_word, length_app, length_replicate. lia. Qed.

Lemma read_key_part sp r pre post : packed_keys sp = true -> Z.of_nat (length (record_bytes sp r)) < 2 ^ 32 ->
  read_sortkey_length (pre ++ key_part sp r ++ post) (length pre) = Some (Z.of_nat (length (key_part sp r))).
Proof.
  intros Hp Hl. unfold record_bytes in Hl. rewrite length_app in Hl. pose proof (length_key_part sp r) as Hk. rewrite Hp in Hk.
  unfold read_sortkey_length, in_record. rewrite asserting_true by (apply Nat.leb_le; rewrite !length_app; lia). cbn [mbind option_bind]. unfold X86_64.uint4korr. rewrite load_prefix by lia.
  unfold key_part at 1. rewrite Hp. unfold store_sortkey_length, X86_64.int4store. rewrite load_store_word by (rewrite length_app, length_replicate; lia).
  change (8 * Z.of_nat 4) with 32. unfold sortkey_length_field. rewrite ?uwrap_uwrap, (uwrap_small 32 (_ - 4)) by (unfold ufits; lia). rewrite uwrap_small by (unfold ufits; lia). f_equal. lia.
Qed.
Lemma read_payload_part sp r pre post : packed_addons sp = true -> Z.of_nat (length (payload r)) < 2 ^ 16 ->
  read_addon_length (pre ++ payload_part sp r ++ post) (length pre) = Some (Z.of_nat (length (payload_part sp r))).
Proof.
  intros Hp Hl. pose proof (length_payload_part sp r) as Hk. rewrite Hp in Hk.
  unfold read_addon_length, in_record. rewrite asserting_true by (apply Nat.leb_le; rewrite !length_app; lia). cbn [mbind option_bind]. unfold X86_64.uint2korr. rewrite load_prefix by lia.
  unfold payload_part at 1. rewrite Hp. unfold store_addon_length, X86_64.int2store. rewrite load_store_word by (rewrite length_app, length_replicate; lia).
  change (8 * Z.of_nat 2) with 16. unfold addon_length_field. rewrite uwrap_uwrap. rewrite (uwrap_small 32 (_ - 2)) by (unfold ufits; lia).
  rewrite (uwrap_small 16) by (unfold ufits; lia). rewrite uwrap_small by (unfold ufits; lia). f_equal. lia.
Qed.

Lemma sort_length_read sp r pre post : param_ok sp -> record_ok sp r ->
  exists sort_len, get_sort_length sp (pre ++ record_bytes sp r ++ post) (length pre) = Some sort_len /\
    sort_len = Z.of_nat (length (key_part sp r)) + if using_addon_fields sp then 0 else res_length sp.
Proof.
  intros [H1 H2 H3 H4 H5 H6] [R1 R2 R3]. unfold get_sort_length, param_packed_sortkeys. rewrite H2, asserting_true by apply eqb_reflx. rewrite <-H2. cbn [mbind option_bind].
  pose proof (length_key_part sp r) as Hk. pose proof (length_payload_part sp r) as Hp. unfold record_bytes in R3. rewrite length_app in R3.
  change (cached_packed_sortkeys sp) with (packed_keys sp). destruct (packed_keys sp) eqn:E.
  - unfold record_bytes. rewrite <-app_assoc, read_key_part by (unfold record_bytes; rewrite ?length_app; (done || lia)). cbn [mbind option_bind]. eexists. split; [done|].
    rewrite uwrap_small; [done|]. unfold ufits. destruct (using_addon_fields sp); [lia|]. split; [lia|]. rewrite <-R2. destruct (packed_addons sp); lia.
  - eexists. split; [done|]. rewrite <-R1 by done. destruct (using_addon_fields sp); lia.
Qed.

Lemma addon_length_read sp r pre post : param_ok sp -> record_ok sp r ->
  (using_addon_fields sp = true -> get_addon_length sp (pre ++ payload_part sp r ++ post) (length pre) = Some (Z.of_nat (length (payload_part sp r)))) /\
  (using_addon_fields sp = false -> forall p T, get_addon_length sp p T = Some 0).
Proof.
  intros [H1 H2 H3 H4 H5 H6] [R1 R2 R3]. unfold get_addon_length, param_packed_addons. rewrite H1, asserting_true by apply eqb_reflx. rewrite <-H1. cbn [mbind option_bind].
  change (cached_packed_addons sp) with (packed_addons sp). split; intros Hu; rewrite Hu in *.
  - destruct (packed_addons sp) eqn:E; [by apply read_payload_part|]. f_equal. pose proof (length_payload_part sp r). rewrite E in *. lia.
  - assert (packed_addons sp = false) as -> by (unfold packed_addons, using_addon_fields in *; rewrite H1; by destruct (addon_fields sp)). intros. by f_equal.
Qed.

Lemma record_lengths_read sp r pre post : param_ok sp -> record_ok sp r ->
  get_rec_and_res_len sp (pre ++ record_bytes sp r ++ post) (length pre) = Some (Z.of_nat (length (record_bytes sp r)), Z.of_nat (length (payload_part sp r))) /\
  get_record_length sp (pre ++ record_bytes sp r ++ post) (length pre) = Some (Z.of_nat (length (record_bytes sp r))).
Proof.
  intros Hsp Hr. unfold get_rec_and_res_len, get_record_length. destruct (sort_length_read sp r pre post Hsp Hr) as (n & Hn & En).
  pose proof Hsp as [H1 H2 H3 H4 H5 H6]. pose proof Hr as [R1 R2 R3]. pose proof (length_key_part sp r) as Hk. pose proof (length_payload_part sp r) as Hp.
  assert (using_addon_fields sp = false -> packed_addons sp = false) as Hpa by (unfold packed_addons, using_addon_fields; rewrite H1; by destruct (addon_fields sp)).
  assert (length (record_bytes sp r) = length (key_part sp r) + length (payload_part sp r))%nat as Hl by (unfold record_bytes; by rewrite length_app). rewrite Hl in *.
  destruct (m_packed_format sp) eqn:Ef.
  - rewrite Hn. cbn [mbind option_bind]. destruct (using_addon_fields sp) eqn:Eu.
    + unfold record_bytes. rewrite <-!app_assoc, (app_assoc pre). replace (length pre + Z.to_nat n)%nat with (length (pre ++ key_part sp r)) by (rewrite length_app; lia).
      rewrite (proj1 (addon_length_read sp r _ post Hsp Hr) Eu). cbn [mbind option_bind]. rewrite uwrap_small by (unfold ufits; lia). split; do 2 f_equal; lia.
    + rewrite (proj2 (addon_length_read sp r pre post Hsp Hr) Eu). cbn [mbind option_bind]. rewrite Hpa in * by done. rewrite uwrap_small by (unfold ufits; lia). split; do 2 f_equal; lia.
  - symmetry in H3. apply orb_false_iff in H3 as [Ea Ek]. rewrite Ea, Ek in *. specialize (R1 eq_refl). destruct (using_addon_fields sp); split; do 2 f_equal; lia.
Qed.
End records.

(** Reading [n] records, one behind the other: the bytes of each, and of its last part. *)
Fixpoint split_records (sp : Sort_param) (n : nat) (p : list byte) (T : nat) : option (list (list byte * list byte)) :=
  match n with
  | O => Some []
  | S n =>
      '(recl, resl) ← get_rec_and_res_len sp p T;
      rest ← split_records sp n p (T + Z.to_nat recl);
      let record := take (Z.to_nat recl) (drop T p) in
      Some ((record, drop (Z.to_nat (recl - resl)) record) :: rest)
  end.

(** Records that are packed one behind the other in any of the formats (fixed or packed
    keys; row ids, fixed or packed added fields) are read back: from the lengths that are
    stored in them, or that all have, each is found, with its last part, whose length is
    the one that [get_rec_and_res_len] gives as the length of the result. *)
Theorem records_read_back sp rs : param_ok sp -> Forall (record_ok sp) rs ->
  split_records sp (length rs) (mjoin (record_bytes sp <$> rs)) 0 = Some ((λ r, (record_bytes sp r, payload_part sp r)) <$> rs).
Proof.
  intros Hsp Hrs. assert (forall pre, split_records sp (length rs) (pre ++ mjoin (record_bytes sp <$> rs)) (length pre) = Some ((λ r, (record_bytes sp r, payload_part sp r)) <$> rs)) as H; [|apply (H [])].
  induction Hrs as [|r rs Hr _ IH]; intros pre; [done|]. cbn [length split_records]. rewrite fmap_cons, mjoin_cons.
  rewrite (proj1 (record_lengths_read sp r pre _ Hsp Hr)). cbn [mbind option_bind]. rewrite app_assoc, Nat2Z.id, <-length_app, IH. cbn [mbind option_bind]. rewrite fmap_cons. do 3 f_equal.
  - rewrite <-app_assoc, drop_app_length. by rewrite take_app_length.
  - rewrite <-app_assoc, drop_app_length, take_app_length. unfold record_bytes. rewrite length_app.
    replace (Z.to_nat _) with (length (key_part sp r)) by lia. by rewrite drop_app_length.
Qed.

(** * Chunks *)

(** The addresses of the buffer of a chunk. *)
Definition in_chunk (c : Merge_chunk) (p : Z) : Prop := m_buffer_start c <= p < m_buffer_end c.

(** A chunk that is given up is merged into exactly those that it touches, from
    either side; the buffer that results is the two together, with room for the
    keys of both, and nothing else of the chunk changes. *)
Theorem merge_freed_buff_spec this mc ok mc' : merge_freed_buff this mc = (ok, mc') ->
  m_buffer_start this < m_buffer_end this -> m_buffer_start mc < m_buffer_end mc -> 0 <= m_max_keys mc -> 0 <= m_max_keys this -> m_max_keys mc + m_max_keys this < 2 ^ 64 ->
  (ok = true <-> m_buffer_end mc = m_buffer_start this \/ m_buffer_start mc = m_buffer_end this) /\
  (ok = false -> mc' = mc) /\
  (ok = true -> (forall p, in_chunk mc' p <-> in_chunk this p \/ in_chunk mc p) /\ m_max_keys mc' = m_max_keys mc + m_max_keys this /\
     m_current_key mc' = m_current_key mc /\ m_file_position mc' = m_file_position mc /\ m_rowcount mc' = m_rowcount mc /\ m_mem_count mc' = m_mem_count mc).
Proof.
  unfold merge_freed_buff, in_chunk. intros H H1 H2 H3 H4 H5. destruct (Z.eqb_spec (m_buffer_end mc) (m_buffer_start this)); [|destruct (Z.eqb_spec (m_buffer_start mc) (m_buffer_end this))];
    injection H as <- <-; cbn; rewrite ?uwrap_small by (unfold ufits; lia); (split_and!; [|done|]); try (split; intros; (done || lia)); try tauto; intros _; split_and!; try done; intros p; lia.
Qed.

(** * Examples *)

(** Room for three records of 16 bytes. *)
Definition buffer3 : Filesort_buffer := mkFB 0 1000 1064 0 3 16 16 72 0.
Lemma buffer3_allocated : fb_allocated buffer3.
Proof. split; vm_compute; repeat split; congruence. Qed.
(** A record that is packed in half of its room leaves it to the next. *)
Lemma filesort_buffer_packs_witness : exists k, (3 <= k)%nat /\ exists fb' mem', fill [8; 8; 8; 16; 16] (init_next_record_pointer buffer3) ∅ = Some (addresses 1000 (take k [8; 8; 8; 16; 16]), fb', mem').
Proof.
  destruct (filesort_buffer_packs buffer3 ∅ [8; 8; 8; 16; 16] buffer3_allocated) as (k & fb' & mem' & Hk & Hf & Hno & _); [repeat constructor; vm_compute; congruence|].
  exists k. split; [|by exists fb', mem']. destruct (decide (k < 3)%nat) as [Hlt|]; [|lia]. destruct Hno as [H _]; [cbn; lia|]. cbn in H. lia.
Defined.
Lemma init_record_pointers_spec_witness : exists fb' mem', init_record_pointers buffer3 ∅ = Some (fb', mem') /\ sort_key fb' mem' 2 = Some 1032.
Proof.
  destruct (init_record_pointers_spec buffer3 ∅ buffer3_allocated) as (fb' & mem' & H & _ & Hk). exists fb', mem'. split; [done|]. apply (Hk 2%nat). cbn. lia.
Defined.
(** Packed keys and packed added fields. *)
Definition packed_param : Sort_param := mkParam 40 20 20 20 (Some (mkAddon None 0 true)) (Some (mkKeys true 0 0 0 true)) true true true.
Definition two_records : list sort_record := [mkRecord (Zbyte <$> [7; 8]) (Zbyte <$> [1]); mkRecord (Zbyte <$> [9]) (Zbyte <$> [2; 3; 4])].
Lemma records_read_back_witness : split_records packed_param 2 (mjoin (record_bytes packed_param <$> two_records)) 0 =
  Some ((λ r, (record_bytes packed_param r, payload_part packed_param r)) <$> two_records).
Proof. apply (records_read_back packed_param two_records); [split; vm_compute; repeat split; congruence|]. repeat (apply Forall_cons; split; [split; vm_compute; congruence|]). constructor. Defined.
Lemma merge_freed_buff_spec_witness : merge_freed_buff (mkChunk 0 0 100 200 0 0 5) (mkChunk 0 0 200 300 0 0 6) = (true, mkChunk 0 0 100 300 0 0 11).
Proof.
  destruct (merge_freed_buff (mkChunk 0 0 100 200 0 0 5) (mkChunk 0 0 200 300 0 0 6)) as [ok mc'] eqn:E.
  destruct (merge_freed_buff_spec _ _ _ _ E) as (H1 & _ & H3); [vm_compute; congruence..|]. assert (ok = true) as -> by (apply H1; right; reflexivity).
  destruct (H3 eq_refl) as (Hp & Hm & _). rewrite <-E. vm_compute. reflexivity.
Defined.
