(* ===== verification/SqlBoundedQueue.v ===== *)
(** The queue of [private/bounded_queue.h] that keeps the first rows of an ORDER BY with
    LIMIT, over [private/queues.h].

    The functions on a [QUEUE] are only declared; they are the class [QueueOps], with the
    laws of a priority queue in [QueueLaws].  An element of the queue is a pointer
    into the array of keys, so it is the index of a key here, and the keys are a
    memory that the queue compares through: a key may change while it is queued. *)

From S2P Require Import Prelude.

(** * Priority queues *)

(** What [compare] says of two elements with the keys as they are now. *)
Abbreviation comparison := (nat -> nat -> Z).

(** [st_queue]: [root] is [root[1]], [root[2]], up to [root[elements]]. *)
Record st_queue := mkQueue { root : list nat; max_elements : Z; max_at_top : bool }.
Definition elements (q : st_queue) : Z := Z.of_nat (length (root q)).
Definition queue_is_full (q : st_queue) : bool := elements q =? max_elements q.
Definition queue_first_element : Z := 1.
Definition queue_element (q : st_queue) (index : Z) : option nat := if 1 <=? index then root q !! Z.to_nat (index - 1) else None.
Definition queue_top (q : st_queue) : option nat := queue_element q 1.
Definition with_root (l : list nat) (q : st_queue) : st_queue := mkQueue l (max_elements q) (max_at_top q).
Definition queue_remove_all (q : st_queue) : st_queue := with_root [] q.
Definition queue_set_max_at_top (m : bool) (q : st_queue) : st_queue := mkQueue (root q) (max_elements q) m.

(** Each function gets the present comparison, [max_at_top] and the array. *)
Class QueueOps := {
  queue_insert : comparison -> bool -> list nat -> nat -> list nat;
  downheap : comparison -> bool -> list nat -> Z -> list nat;
  queue_remove : comparison -> bool -> list nat -> Z -> option (nat * list nat);
  ordered : comparison -> bool -> list nat -> Prop
}.
Definition queue_replace_top `{QueueOps} (cmp : comparison) (q : st_queue) : st_queue := with_root (downheap cmp (max_at_top q) (root q) 1) q.
Definition queue_remove_top `{QueueOps} (cmp : comparison) (q : st_queue) : option (nat * st_queue) :=
  '(x, l) ← queue_remove cmp (max_at_top q) (root q) queue_first_element; Some (x, with_root l q).

(** [x] may be above [y]. *)
Definition above_ok (cmp : comparison) (m : bool) (x y : nat) : Prop := if m then 0 <= cmp x y else cmp x y <= 0.
Record total_order (cmp : comparison) : Prop := {
  cmp_opp : forall x y, Z.sgn (cmp x y) = - Z.sgn (cmp y x);
  cmp_trans : forall x y z, cmp x y <= 0 -> cmp y z <= 0 -> cmp x z <= 0
}.

(** A queue in order has a first element on top; the functions keep the order, also
    when the key of the top has changed. *)
Class QueueLaws (O : QueueOps) := {
  ordered_nil cmp m : ordered cmp m [];
  ordered_top cmp m t l x : total_order cmp -> ordered cmp m (t :: l) -> x ∈ l -> above_ok cmp m t x;
  insert_ordered cmp m l x : total_order cmp -> ordered cmp m l -> ordered cmp m (queue_insert cmp m l x) /\ queue_insert cmp m l x ≡ₚ x :: l;
  downheap_ordered cmp cmp' m t l : total_order cmp -> total_order cmp' -> ordered cmp m (t :: l) -> t ∉ l -> (forall x y, x <> t -> y <> t -> cmp' x y = cmp x y) ->
    ordered cmp' m (downheap cmp' m (t :: l) 1) /\ downheap cmp' m (t :: l) 1 ≡ₚ t :: l;
  ordered_ext cmp cmp' m l : (forall x y, x ∈ l -> y ∈ l -> cmp x y = cmp' x y) -> ordered cmp m l -> ordered cmp' m l
}.

(** * Bounded_queue *)

Section Bounded_queue.
Context `{O : QueueOps} {Element Key : Type} `{Inhabited Key}.
(** [keymaker] and [compare]. *)
Context (make_key : Element -> Key) (compare : Key -> Key -> Z).

(** The keys, one for each entry of [m_sort_keys], and the queue. *)
Record Bounded_queue := mkBQ { sort_keys : list Key; m_queue : st_queue }.

(** [init]; [ok]: whether [init_queue] could allocate. *)
Definition bq_init (ok : bool) (max_elements : Z) (max_at_top : bool) (sort_keys : list Key) : option Bounded_queue :=
  if 2 ^ 32 - 1 - 1 <=? max_elements then None
  else if ok then Some (mkBQ sort_keys (mkQueue [] (u32 (u32 max_elements + 1)) max_at_top)) else None.
Definition num_elements (bq : Bounded_queue) : Z := elements (m_queue bq).
Definition is_initialized (bq : Bounded_queue) : bool := 0 <? max_elements (m_queue bq).

Definition cmp_keys (keys : list Key) : comparison := λ x y, compare (keys !!! x) (keys !!! y).
(** [keymaker] writes the key of an element into the buffer of an entry. *)
Definition write_key (keys : list Key) (i : nat) (k : Key) : option (list Key) := asserting (i <? length keys)%nat (<[i := k]> keys).

Definition push (element : Element) (bq : Bounded_queue) : option Bounded_queue :=
  let q := m_queue bq in
  _ ← asserting (is_initialized bq) tt;
  if queue_is_full q
  then pq_top ← queue_top q;
       keys ← write_key (sort_keys bq) pq_top (make_key element);
       Some (mkBQ keys (queue_replace_top (cmp_keys keys) q))
  else let i := length (root q) in
       keys ← write_key (sort_keys bq) i (make_key element);
       Some (mkBQ keys (with_root (queue_insert (cmp_keys keys) (max_at_top q) (root q) i) q)).
Fixpoint push_all (els : list Element) (bq : Bounded_queue) : option Bounded_queue :=
  match els with [] => Some bq | e :: els => bq ← push e bq; push_all els bq end.

(** [pop], with the index 0 that it passes to [queue_remove]. *)
Definition bq_pop (bq : Bounded_queue) : option (option nat * Bounded_queue) :=
  let cmp := cmp_keys (sort_keys bq) in
  let remove q := '(x, l) ← queue_remove cmp (max_at_top q) (root q) 0; Some (x, with_root l q) in
  q ← (if queue_is_full (m_queue bq) then '(_, q) ← remove (m_queue bq); Some q else Some (m_queue bq));
  _ ← asserting (0 <? elements q) tt;
  '(x, q) ← remove q; Some (Some x, mkBQ (sort_keys bq) q).

(** * The keys that are kept *)

Context {L : QueueLaws O}.
Hypothesis compare_opp : forall a b, Z.sgn (compare a b) = - Z.sgn (compare b a).
Hypothesis compare_trans : forall a b c, compare a b <= 0 -> compare b c <= 0 -> compare a c <= 0.

(** [a] is to be kept rather than [b], or is equal to it. *)
Definition first_of (m : bool) (a b : Key) : Prop := if m then compare a b <= 0 else 0 <= compare a b.
(** The entries that are kept: all, without the top of a full queue, which is the next to go. *)
Definition kept_entries (bq : Bounded_queue) : list nat := if queue_is_full (m_queue bq) then tail (root (m_queue bq)) else root (m_queue bq).
Definition keys_at (keys : list Key) (l : list nat) : list Key := (λ i, keys !!! i) <$> l.

Lemma cmp_keys_order keys : total_order (cmp_keys keys).
Proof. split; unfold cmp_keys; eauto. Qed.
Lemma first_of_trans m a b c : first_of m a b -> first_of m b c -> first_of m a c.
Proof.
  unfold first_of. destruct m; [eauto|]. intros H1 H2. pose proof (compare_opp a b). pose proof (compare_opp b c). pose proof (compare_opp a c). pose proof (compare_trans c b a). lia.
Qed.
Lemma first_of_top keys m t l x : ordered (cmp_keys keys) m (t :: l) -> x ∈ l -> first_of m (keys !!! x) (keys !!! t).
Proof.
  intros Ho Hx. pose proof (ordered_top _ _ _ _ _ (cmp_keys_order keys) Ho Hx) as Ha. unfold above_ok, cmp_keys, first_of in *. pose proof (compare_opp (keys !!! x) (keys !!! t)). destruct m; lia.
Qed.
Lemma keys_at_insert keys i k l : i ∉ l -> keys_at (<[i := k]> keys) l = keys_at keys l.
Proof.
  intros Hi. unfold keys_at. apply list_fmap_ext. intros j x Hx. rewrite list_lookup_total_insert_ne; [done|]. intros ->. apply Hi. by eapply list_elem_of_lookup_2.
Qed.

(** What the queue holds after some keys were pushed: each in an entry of its own, those
    that are kept before all others. *)
Record bq_inv (n : nat) (m : bool) (pushed : list Key) (bq : Bounded_queue) : Prop := {
  bi_max : max_elements (m_queue bq) = Z.of_nat (S n);
  bi_dir : max_at_top (m_queue bq) = m;
  bi_keys : length (sort_keys bq) = S n;
  bi_entries : root (m_queue bq) ≡ₚ seq 0 (length (root (m_queue bq)));
  bi_size : length (root (m_queue bq)) = min (S n) (length pushed);
  bi_ordered : ordered (cmp_keys (sort_keys bq)) m (root (m_queue bq));
  bi_first : exists rest, pushed ≡ₚ keys_at (sort_keys bq) (root (m_queue bq)) ++ rest /\ (rest <> [] -> length (root (m_queue bq)) = S n) /\
    forall x r, x ∈ kept_entries bq -> r ∈ rest -> first_of m (sort_keys bq !!! x) r
}.

Lemma entries_nodup bq n m pushed : bq_inv n m pushed bq -> NoDup (root (m_queue bq)).
Proof. intros [_ _ _ He _ _ _]. rewrite He. apply NoDup_seq. Qed.
Lemma keys_at_perm keys l l' : l ≡ₚ l' -> keys_at keys l ≡ₚ keys_at keys l'.
Proof. intros E. unfold keys_at. by rewrite E. Qed.

Lemma push_room n m pushed bq e : bq_inv n m pushed bq -> queue_is_full (m_queue bq) = false ->
  exists bq', push e bq = Some bq' /\ bq_inv n m (make_key e :: pushed) bq'.
Proof.
  intros [H1 H2 H3 H4 H5 H6 (rest & H7 & H8 & H9)] Hf. unfold push. unfold is_initialized. rewrite H1, asserting_true by (apply Z.ltb_lt; lia). cbn [mbind option_bind]. rewrite Hf.
  unfold queue_is_full, elements in Hf. rewrite H1 in Hf. apply Z.eqb_neq in Hf. set (i := length (root (m_queue bq))) in *.
  unfold write_key. rewrite asserting_true by (apply Nat.ltb_lt; lia). cbn [mbind option_bind]. eexists. split; [done|].
  assert (i ∉ root (m_queue bq)) as Hi by (rewrite H4, elem_of_seq; lia). set (keys := <[i := make_key e]> (sort_keys bq)).
  assert (ordered (cmp_keys keys) m (root (m_queue bq))) as Ho.
  { eapply ordered_ext; [|exact H6]. intros x y Hx Hy. unfold cmp_keys, keys. rewrite !list_lookup_total_insert_ne by (intros <-; done). done. }
  rewrite H2. destruct (insert_ordered (cmp_keys keys) m _ i (cmp_keys_order keys) Ho) as [Ho' Hp].
  assert (rest = []) as -> by (destruct rest; [done|]; specialize (H8 ltac:(done)); lia).
  assert (length (queue_insert (cmp_keys keys) m (root (m_queue bq)) i) = S i) as Hl by (rewrite Hp; done).
  split; cbn [m_queue sort_keys root max_elements max_at_top with_root]; try done.
  - unfold keys. by rewrite length_insert.
  - rewrite Hl, seq_S. cbn [Nat.add]. rewrite Hp, H4. by rewrite Permutation_cons_append.
  - rewrite Hl. cbn [length]. lia.
  - exists []. rewrite app_nil_r in *. split_and!; [|done|intros x r _ Hr; by apply not_elem_of_nil in Hr].
    rewrite (keys_at_perm _ _ _ Hp). unfold keys_at. rewrite fmap_cons. fold (keys_at keys (root (m_queue bq))). unfold keys. rewrite keys_at_insert, list_lookup_total_insert_eq by (done || lia).
    by rewrite H7.
Qed.

Lemma push_full n m pushed bq e : bq_inv n m pushed bq -> queue_is_full (m_queue bq) = true ->
  exists bq', push e bq = Some bq' /\ bq_inv n m (make_key e :: pushed) bq'.
Proof.
  intros Hinv Hf. pose proof (entries_nodup _ _ _ _ Hinv) as Hnd. destruct Hinv as [H1 H2 H3 H4 H5 H6 (rest & H7 & H8 & H9)]. unfold push, is_initialized. rewrite H1, asserting_true by (apply Z.ltb_lt; lia).
  cbn [mbind option_bind]. rewrite Hf. unfold kept_entries in H9. rewrite Hf in H9. pose proof Hf as Hlen. unfold queue_is_full, elements in Hlen. rewrite H1 in Hlen. apply Z.eqb_eq in Hlen.
  unfold queue_top, queue_element. change (1 <=? 1) with true. change (Z.to_nat (1 - 1)) with 0%nat. cbv iota.
  destruct (root (m_queue bq)) as [|t l] eqn:Er; [cbn in Hlen; lia|]. cbn [lookup list_lookup mbind option_bind]. apply list.NoDup_cons in Hnd as [Ht Hnd].
  assert (t < S n)%nat as Hlt. { assert (t ∈ t :: l) as Hin by left. rewrite H4, elem_of_seq in Hin. lia. }
  unfold write_key. rewrite asserting_true by (apply Nat.ltb_lt; lia). cbn [mbind option_bind]. eexists. split; [done|]. set (keys := <[t := make_key e]> (sort_keys bq)).
  unfold queue_replace_top. rewrite Er, H2.
  destruct (downheap_ordered (cmp_keys (sort_keys bq)) (cmp_keys keys) m t l (cmp_keys_order _) (cmp_keys_order _) H6 Ht) as [Ho' Hp].
  { intros x y Hx Hy. unfold cmp_keys, keys. by rewrite !list_lookup_total_insert_ne by done. }
  set (l' := downheap (cmp_keys keys) m (t :: l) 1) in *. assert (length l' = S (length l)) as Hl by (by rewrite Hp).
  assert (NoDup l') as Hnd' by (rewrite Hp; by constructor).
  assert (forall x, x ∈ l -> keys !!! x = sort_keys bq !!! x) as Hsame by (intros x Hx; unfold keys; apply list_lookup_total_insert_ne; congruence).
  split; cbn [m_queue sort_keys root max_elements max_at_top with_root]; try done.
  - unfold keys. by rewrite length_insert.
  - rewrite Hl, Hp. done.
  - rewrite Hl. cbn [length] in *. lia.
  - exists (sort_keys bq !!! t :: rest). split_and!.
    + rewrite (keys_at_perm _ _ _ Hp), H7. unfold keys_at. rewrite !fmap_cons. fold (keys_at keys l) (keys_at (sort_keys bq) l). unfold keys. rewrite keys_at_insert, list_lookup_total_insert_eq by (done || lia).
      cbn [app]. apply Permutation_skip. by rewrite Permutation_middle.
    + intros _. cbn [length] in *. lia.
    + assert (forall x r, x ∈ l -> r ∈ sort_keys bq !!! t :: rest -> first_of m (keys !!! x) r) as Hold.
      { intros x r Hx [->|Hr]%elem_of_cons; rewrite Hsame by done; [by eapply first_of_top|by apply H9]. }
      unfold kept_entries, queue_is_full, elements. cbn [m_queue root max_elements with_root sort_keys]. rewrite Hl, H1, (proj2 (Z.eqb_eq _ _)) by (cbn [length] in *; lia).
      intros x r Hx Hr. destruct l' as [|t' l'']; [done|]. cbn [tail] in Hx. apply list.NoDup_cons in Hnd' as [Ht' _].
      assert (forall y, y ∈ t' :: l'' -> y = t \/ y ∈ l) as Hin by (intros y; rewrite Hp, elem_of_cons; tauto).
      destruct (Hin x) as [->|Hx']; [by right| |by apply Hold]. destruct (Hin t') as [->|Ht'']; [by left|done|].
      eapply first_of_trans; [by eapply first_of_top|]. by apply Hold.
Qed.

Lemma push_all_inv n m els : forall pushed bq, bq_inv n m pushed bq -> exists bq', push_all els bq = Some bq' /\ bq_inv n m (reverse (make_key <$> els) ++ pushed) bq'.
Proof.
  induction els as [|e els IH]; intros pushed bq Hinv; [by exists bq|]. cbn [push_all].
  assert (exists bq1, push e bq = Some bq1 /\ bq_inv n m (make_key e :: pushed) bq1) as (bq1 & -> & Hinv1).
  { destruct (queue_is_full (m_queue bq)) eqn:E; [by apply push_full|by apply push_room]. }
  cbn [mbind option_bind]. destruct (IH _ _ Hinv1) as (bq' & -> & Hinv'). exists bq'. split; [done|]. rewrite fmap_cons, reverse_cons, <-app_assoc. done.
Qed.

(** C23.  The queue keeps the first [max_elements] keys: after any elements were pushed, the
    keys of its entries, without the top when it is full, are among those that were
    made, as many as asked for or as there were, and every other one comes after
    all of them in the order (before, when it is to keep the largest).  Each is in a
    buffer of its own, no push is undefined, and one buffer more than
    [max_elements] is enough. *)
Theorem bounded_queue_keeps_first n m keys els : Z.of_nat n < 2 ^ 32 - 2 -> length keys = S n ->
  exists bq bq' rest, bq_init true (Z.of_nat n) m keys = Some bq /\ push_all els bq = Some bq' /\
    keys_at (sort_keys bq') (kept_entries bq') ++ rest ≡ₚ make_key <$> els /\
    length (kept_entries bq') = min n (length els) /\ NoDup (kept_entries bq') /\
    forall k r, k ∈ keys_at (sort_keys bq') (kept_entries bq') -> r ∈ rest -> first_of m k r.
Proof.
  intros Hn Hk. unfold bq_init. rewrite (proj2 (Z.leb_gt _ _)) by lia. rewrite (uwrap_small 32 (Z.of_nat n)), uwrap_small by (unfold ufits; lia). eexists.
  assert (bq_inv n m [] (mkBQ keys (mkQueue [] (Z.of_nat n + 1) m))) as Hinv.
  { split; cbn [m_queue max_elements max_at_top sort_keys root length]; try done; [lia|apply ordered_nil|]. exists []. split_and!; [done|done|intros x r _ Hr; by apply not_elem_of_nil in Hr]. }
  destruct (push_all_inv n m els _ _ Hinv) as (bq' & Hp & Hinv'). rewrite app_nil_r in Hinv'. pose proof (entries_nodup _ _ _ _ Hinv') as Hnd. destruct Hinv' as [H1 H2 H3 H4 H5 H6 (rest & H7 & H8 & H9)].
  rewrite length_reverse, length_fmap in H5. exists bq'. unfold kept_entries, queue_is_full, elements in *. rewrite H1 in *.
  destruct (Z.eqb_spec (Z.of_nat (length (root (m_queue bq')))) (Z.of_nat (S n))) as [Ef|Ef].
  - destruct (root (m_queue bq')) as [|t l] eqn:Er; [cbn in Ef; lia|]. cbn [tail length] in *. exists (sort_keys bq' !!! t :: rest). apply list.NoDup_cons in Hnd as [_ Hnd]. split_and!; try done; [|lia|].
    + rewrite <-(reverse_Permutation (make_key <$> els)), H7. unfold keys_at. rewrite fmap_cons. cbn [app]. by rewrite Permutation_middle.
    + intros k r (x & -> & Hx)%list_elem_of_fmap [->|Hr]%elem_of_cons; [by eapply first_of_top|by apply H9].
  - exists rest. split_and!; try done; [|lia|].
    + by rewrite <-(reverse_Permutation (make_key <$> els)), H7.
    + intros k r (x & -> & Hx)%list_elem_of_fmap Hr. by apply H9.
Qed.
End Bounded_queue.

(** * A queue that is a sorted array *)

Fixpoint insert_by (cmp : comparison) (m : bool) (l : list nat) (x : nat) : list nat :=
  match l with
  | [] => [x]
  | y :: l' => if (if m then 0 <=? cmp x y else cmp x y <=? 0) then x :: l else y :: insert_by cmp m l' x
  end.
#[export] Instance sorted_queue : QueueOps := {
  queue_insert := insert_by;
  downheap cmp m l index := match l with [] => [] | t :: l' => if index =? 1 then insert_by cmp m l' t else l end;
  queue_remove cmp m l index := if 1 <=? index then x ← l !! Z.to_nat (index - 1); Some (x, take (Z.to_nat (index - 1)) l ++ drop (Z.to_nat index) l) else None;
  ordered cmp m := StronglySorted (above_ok cmp m)
}.

Lemma above_ok_trans cmp m x y z : total_order cmp -> above_ok cmp m x y -> above_ok cmp m y z -> above_ok cmp m x z.
Proof.
  intros [Ho Ht]. unfold above_ok. destruct m; [|apply Ht]. intros H1 H2. pose proof (Ho x y). pose proof (Ho y z). pose proof (Ho x z). pose proof (Ht z y x). lia.
Qed.
Lemma insert_by_perm cmp m l x : insert_by cmp m l x ≡ₚ x :: l.
Proof.
  induction l as [|y l IH]; [done|]. cbn [insert_by]. set (b := if m then _ else _). destruct b; [done|]. rewrite IH. apply Permutation_swap.
Qed.
Lemma insert_by_sorted cmp m l x : total_order cmp -> StronglySorted (above_ok cmp m) l -> StronglySorted (above_ok cmp m) (insert_by cmp m l x).
Proof.
  intros Hc. induction 1 as [|y l Hs IH Hy]; cbn [insert_by]; [by repeat constructor|].
  assert ((if m then 0 <=? cmp x y else cmp x y <=? 0) = true <-> above_ok cmp m x y) as Hb by (unfold above_ok; destruct m; apply Z.leb_le).
  destruct (if m then 0 <=? cmp x y else cmp x y <=? 0) eqn:E.
  - assert (above_ok cmp m x y) as Hxy by (by apply Hb). constructor; [by constructor|]. constructor; [done|]. eapply Forall_impl; [exact Hy|]. intros z Hz. by eapply above_ok_trans.
  - constructor; [done|]. rewrite insert_by_perm. constructor; [|done]. destruct Hc as [Ho _]. specialize (Ho x y). unfold above_ok in *.
    assert (~ (if m then 0 <= cmp x y else cmp x y <= 0)) as Hno by (rewrite <-Hb; done). destruct m; lia.
Qed.
Lemma sorted_ext cmp cmp' m l : (forall x y, x ∈ l -> y ∈ l -> cmp x y = cmp' x y) -> StronglySorted (above_ok cmp m) l -> StronglySorted (above_ok cmp' m) l.
Proof.
  intros He. induction 1 as [|x l Hs IH Hx]; constructor.
  - apply IH. intros a b Ha Hb. apply He; by right.
  - apply Forall_forall. intros y Hy. unfold above_ok. rewrite <-He by (by constructor). by apply (proj1 (Forall_forall _ _) Hx).
Qed.
#[export] Instance sorted_queue_laws : QueueLaws sorted_queue.
Proof.
  constructor; cbn.
  - constructor.
  - intros cmp m t l x _ Hs Hx. apply StronglySorted_inv in Hs as [_ Ht]. by apply (proj1 (Forall_forall _ _) Ht).
  - intros cmp m l x Hc Hs. split; [by apply insert_by_sorted|apply insert_by_perm].
  - intros cmp cmp' m t l _ Hc' Hs Ht He. split; [|apply insert_by_perm]. apply insert_by_sorted; [done|]. apply StronglySorted_inv in Hs as [Hs _].
    eapply sorted_ext; [|exact Hs]. intros x y Hx Hy. symmetry. apply He; congruence.
  - apply sorted_ext.
Qed.

(** The three smallest of seven. *)
Lemma bounded_queue_keeps_first_witness : exists bq' rest, push_all id Z.sub [5; 9; 2; 8; 1; 7; 3] (mkBQ [0; 0; 0; 0] (mkQueue [] 4 true)) = Some bq' /\
  keys_at (sort_keys bq') (kept_entries bq') ++ rest ≡ₚ [5; 9; 2; 8; 1; 7; 3] /\ length (kept_entries bq') = 3%nat.
Proof.
  destruct (bounded_queue_keeps_first id Z.sub ltac:(cbn; lia) ltac:(cbn; lia) 3 true [0; 0; 0; 0] [5; 9; 2; 8; 1; 7; 3] eq_refl eq_refl) as (bq & bq' & rest & Hi & Hp & Hk & Hl & _).
  injection Hi as <-. exists bq', rest. split; [exact Hp|]. by split.
Defined.
Example keeps_three_smallest : (bq ← push_all id Z.sub [5; 9; 2; 8; 1; 7; 3] (mkBQ [0; 0; 0; 0] (mkQueue [] 4 true)); Some (keys_at (sort_keys bq) (kept_entries bq))) = Some [3; 2; 1].
Proof. reflexivity. Qed.
