(* ===== verification/SqlClock.v ===== *)
(** The times of a statement, from class [THD] of [private/sql_class.h]: the clock of the
    session, which never gives the same time twice while the clock of the system
    does not go back, and the start of a statement.

    [my_hrtime()] and [microsecond_interval_timer()] are the readings [now] and [utime]. *)

From S2P Require Import Prelude SqlTemporal.

Definition HRTIME_RESOLUTION : Z := 1000000.
Definition hrtime_to_my_time (t : Z) : Z := s64 (t / HRTIME_RESOLUTION).
Definition hrtime_from_time (x : Z) : Z := u64 (x * HRTIME_RESOLUTION).
Definition hrtime_sec_part (t : Z) : Z := t mod HRTIME_RESOLUTION.

(** [system_time]. *)
Record system_time := mkSystem { sys_start : Z; sys_sec : Z; sys_sec_part : Z }.
(** The members of [THD] for the time; [0] in [user_time] is none. *)
Record times := mkTimes {
  sys : system_time; user_time : Z; start_time : Z; start_time_sec_part : Z; start_utime : Z; utime_after_lock : Z; utime_after_query : Z;
  query_start_sec_part_used : bool; query_was_slow : bool
}.

Definition with_sys (s : system_time) (t : times) : times :=
  mkTimes s (user_time t) (start_time t) (start_time_sec_part t) (start_utime t) (utime_after_lock t) (utime_after_query t) (query_start_sec_part_used t) (query_was_slow t).
Definition with_user (u : Z) (t : times) : times :=
  mkTimes (sys t) u (start_time t) (start_time_sec_part t) (start_utime t) (utime_after_lock t) (utime_after_query t) (query_start_sec_part_used t) (query_was_slow t).
Definition with_start (sec sec_part : Z) (t : times) : times :=
  mkTimes (sys t) (user_time t) sec sec_part (start_utime t) (utime_after_lock t) (utime_after_query t) (query_start_sec_part_used t) (query_was_slow t).
Definition with_utime (u : Z) (t : times) : times :=
  mkTimes (sys t) (user_time t) (start_time t) (start_time_sec_part t) u u (utime_after_query t) (query_start_sec_part_used t) (query_was_slow t).

Definition set_system_time (now : Z) (s : system_time) : system_time :=
  let sec := hrtime_to_my_time now in
  let sec_part := hrtime_sec_part now in
  if (sys_sec s <? sec) || ((sec =? sys_sec s) && (sys_sec_part s <? sec_part)) || (now <? sys_start s)
  then mkSystem now sec sec_part
  else if sys_sec_part s <? TIME_MAX_SECOND_PART then mkSystem (sys_start s) (sys_sec s) (sys_sec_part s + 1)
       else mkSystem (sys_start s) (sys_sec s + 1) 0.
Definition set_start_time (now : Z) (t : times) : times :=
  if c_true (user_time t) then with_start (hrtime_to_my_time (user_time t)) (hrtime_sec_part (user_time t)) t
  else let s := set_system_time now (sys t) in with_start (sys_sec s) (sys_sec_part s) (with_sys s t).
Definition set_time (now utime : Z) (t : times) : times := with_utime utime (set_start_time now t).
(** [set_time(my_hrtime_t t)], for [SET @@timestamp]. *)
Definition set_time_user (u now utime : Z) (t : times) : times := set_time now utime (with_user u t).
Definition force_set_time (sec sec_part : Z) (t : times) : times := with_start sec sec_part (with_sys (mkSystem (sys_start (sys t)) sec sec_part) t).

Inductive secure_timestamp := SECTIME_NO | SECTIME_SUPER | SECTIME_REPL | SECTIME_YES.
Definition secure_value (s : secure_timestamp) : Z := match s with SECTIME_NO => 0 | SECTIME_SUPER => 1 | SECTIME_REPL => 2 | SECTIME_YES => 3 end.

(** [set_time(my_time_t t, ulong sec_part)], for replication and BINLOG. *)
Definition set_time_repl (opt_secure_timestamp : secure_timestamp) (slave_thread : bool) (sec sec_part now utime : Z) (t : times) : times :=
  if secure_value (if slave_thread then SECTIME_REPL else SECTIME_SUPER) <? secure_value opt_secure_timestamp then set_time now utime t
  else let t :=
         if sec_part <=? TIME_MAX_SECOND_PART then force_set_time sec sec_part t
         else if negb (sec =? sys_sec (sys t)) then force_set_time sec 0 t
         else let part := u64 (sys_sec_part (sys t) + 1) in with_start sec part (with_sys (mkSystem (sys_start (sys t)) (sys_sec (sys t)) part) t) in
       with_utime utime (with_user (u64 (hrtime_from_time (start_time t) + start_time_sec_part t)) t).

Definition set_time_after_lock (utime : Z) (t : times) : times :=
  mkTimes (sys t) (user_time t) (start_time t) (start_time_sec_part t) (start_utime t) utime (utime_after_query t) (query_start_sec_part_used t) (query_was_slow t).
Definition set_time_for_next_stage (utime : Z) (t : times) : times :=
  mkTimes (sys t) (user_time t) (start_time t) (start_time_sec_part t) (start_utime t) (utime_after_lock t) utime (query_start_sec_part_used t) (query_was_slow t).
Definition update_server_status (long_query_time utime : Z) (t : times) : times :=
  let t := set_time_for_next_stage utime t in
  if u64 (utime_after_lock t + long_query_time) <=? utime_after_query t
  then mkTimes (sys t) (user_time t) (start_time t) (start_time_sec_part t) (start_utime t) (utime_after_lock t) (utime_after_query t) (query_start_sec_part_used t) true
  else t.
Definition query_start (t : times) : Z := start_time t.
Definition query_start_sec_part (t : times) : Z * times :=
  (start_time_sec_part t, mkTimes (sys t) (user_time t) (start_time t) (start_time_sec_part t) (start_utime t) (utime_after_lock t) (utime_after_query t) true (query_was_slow t)).
(** [st_trans_time::reset] and [transaction_time]; [start] is the start time of the transaction. *)
Definition trans_time_reset (t : times) : (Z * Z) * times := let '(usec, t') := query_start_sec_part t in ((query_start t, s64 usec), t').
Definition transaction_time (in_multi_stmt_transaction_mode : bool) (start : Z * Z) (t : times) : (Z * Z) * times :=
  if negb in_multi_stmt_transaction_mode then trans_time_reset t else (start, t).

(** * The clock never stands still *)

(** A time in microseconds. *)
Definition micros (sec sec_part : Z) : Z := sec * HRTIME_RESOLUTION + sec_part.
Definition sys_micros (s : system_time) : Z := micros (sys_sec s) (sys_sec_part s).
Definition part_ok (sec_part : Z) : Prop := 0 <= sec_part <= TIME_MAX_SECOND_PART.
Definition reading_ok (now : Z) : Prop := 0 <= now < 2 ^ 64.

Lemma reading_split now : reading_ok now -> micros (hrtime_to_my_time now) (hrtime_sec_part now) = now /\ part_ok (hrtime_sec_part now).
Proof.
  unfold reading_ok, micros, hrtime_to_my_time, hrtime_sec_part, part_ok, TIME_MAX_SECOND_PART, HRTIME_RESOLUTION. intros H.
  rewrite swrap_small by (lia || (unfold sfits; lia_mod)). lia_mod.
Qed.
(** The new time in microseconds: the reading if it is later or the system clock went back, else one more. *)
Lemma set_system_time_spec now s : reading_ok now -> part_ok (sys_sec_part s) ->
  sys_micros (set_system_time now s) = (if (sys_micros s <? now) || (now <? sys_start s) then now else sys_micros s + 1) /\
  part_ok (sys_sec_part (set_system_time now s)) /\
  sys_start (set_system_time now s) = (if (sys_micros s <? now) || (now <? sys_start s) then now else sys_start s).
Proof.
  intros Hn Hp. destruct (reading_split now Hn) as [Hr Hpart]. unfold set_system_time.
  assert ((sys_sec s <? hrtime_to_my_time now) || ((hrtime_to_my_time now =? sys_sec s) && (sys_sec_part s <? hrtime_sec_part now)) = (sys_micros s <? now)) as ->.
  { unfold sys_micros, micros, part_ok, TIME_MAX_SECOND_PART, HRTIME_RESOLUTION in *.
    destruct (Z.ltb_spec (sys_sec s) (hrtime_to_my_time now)), (Z.eqb_spec (hrtime_to_my_time now) (sys_sec s)), (Z.ltb_spec (sys_sec_part s) (hrtime_sec_part now)); cbn [orb andb]; symmetry; (apply Z.ltb_lt || apply Z.ltb_ge); lia. }
  destruct (_ || _); [done|]. unfold sys_micros, micros, part_ok, TIME_MAX_SECOND_PART, HRTIME_RESOLUTION in *. destruct (Z.ltb_spec (sys_sec_part s) 999999); cbn [sys_sec sys_sec_part sys_start]; lia.
Qed.

(** The times that the session gives for some readings of the system clock. *)
Fixpoint ticks (nows : list Z) (s : system_time) : list Z :=
  match nows with [] => [] | now :: nows => let s := set_system_time now s in sys_micros s :: ticks nows s end.

Lemma ticks_advance nows : forall s base, Forall reading_ok nows -> part_ok (sys_sec_part s) -> Sorted Z.le (sys_start s :: nows) -> sys_micros s <= base ->
  Sorted Z.lt (sys_micros s :: ticks nows s) /\ Forall2 Z.le nows (ticks nows s) /\
  forall i now t, nows !! i = Some now -> ticks nows s !! i = Some t -> t <= Z.max now base + Z.of_nat i + 1.
Proof.
  induction nows as [|now nows IH]; intros s base Hr Hp Hs Hb; cbn [ticks]; [split_and!; [by repeat constructor|constructor|done]|].
  apply Forall_cons in Hr as [Hnow Hr]. apply Sorted_inv in Hs as [Hs Hle]. inversion Hle as [|? ? Hge]; subst.
  destruct (set_system_time_spec now s Hnow Hp) as (E1 & E2 & E3). rewrite (proj2 (Z.ltb_ge now (sys_start s))), orb_false_r in E1, E3 by done.
  assert (sys_start (set_system_time now s) <= now) as Hst by (rewrite E3; destruct (_ <? _); lia).
  assert (sys_micros s < sys_micros (set_system_time now s) /\ now <= sys_micros (set_system_time now s) <= Z.max now base + 1) as [Hlt Hbd] by (rewrite E1; destruct (Z.ltb_spec (sys_micros s) now); lia).
  destruct (IH (set_system_time now s) (Z.max now base + 1) Hr E2) as (H1 & H2 & H3); [|lia|].
  { apply Sorted_inv in Hs as [Hs Hle']. constructor; [done|]. inversion Hle'; subst; constructor; lia. }
  split_and!.
  - constructor; [done|]. by constructor.
  - constructor; [lia|done].
  - intros [|i] now' t Hi Ht; cbn in Hi, Ht; [injection Hi as ->; injection Ht as <-; lia|]. specialize (H3 i now' t Hi Ht).
    assert (now <= now') as Hnn. { apply Sorted_StronglySorted in Hs; [|intros x y z; lia]. apply StronglySorted_inv in Hs as [_ Hf]. apply (proj1 (Forall_forall _ _) Hf). by eapply list_elem_of_lookup_2. }
    lia.
Qed.

(** C24.  While the clock of the system does not go back, the session never gives a time
    twice: the times of its statements strictly increase, whatever the resolution of
    the readings, each is no earlier than its reading, and later than it (or than the time
    the session had been given before) by at most one microsecond for each statement so
    far.  A reading before the last one that was taken over puts the clock back to it. *)
Theorem session_clock_advances nows s : Forall reading_ok nows -> part_ok (sys_sec_part s) ->
  (Sorted Z.le (sys_start s :: nows) ->
     Sorted Z.lt (sys_micros s :: ticks nows s) /\ Forall2 Z.le nows (ticks nows s) /\
     forall i now t, nows !! i = Some now -> ticks nows s !! i = Some t -> t <= Z.max now (sys_micros s) + Z.of_nat i + 1) /\
  (forall now, reading_ok now -> now < sys_start s -> sys_micros (set_system_time now s) = now /\ sys_start (set_system_time now s) = now).
Proof.
  intros Hr Hp. split; [intros Hs; by apply ticks_advance|].
  intros now Hn Hlt. destruct (set_system_time_spec now s Hn Hp) as (E1 & _ & E3). rewrite (proj2 (Z.ltb_lt now (sys_start s))), orb_true_r in E1, E3 by done. done.
Qed.

(** * The start of a statement *)

Definition start_micros (t : times) : Z := micros (start_time t) (start_time_sec_part t).

Lemma set_time_user_start u now utime t : reading_ok u -> u <> 0 -> user_time t = u ->
  start_micros (set_time now utime t) = u /\ part_ok (start_time_sec_part (set_time now utime t)) /\ sys (set_time now utime t) = sys t.
Proof.
  intros Hu H0 <-. unfold set_time, set_start_time. assert (c_true (user_time t) = true) as -> by (by apply c_true_spec). cbn [with_utime with_start start_time start_time_sec_part sys]. unfold start_micros. cbn.
  destruct (reading_split _ Hu). by split_and!.
Qed.

(** A time that is set for the session stays: after [SET @@timestamp] to a time that
    is not 0, and after a replicated event with microseconds (unless timestamps are
    secured), this statement and every later one starts at exactly that time, whatever
    the clock says, and the clock of the session is not used up; where timestamps are
    secured the event has no say. *)
Theorem set_times_stay opt slave sec sec_part u now utime now' utime' t : part_ok sec_part -> 0 <= sec -> 0 < micros sec sec_part < 2 ^ 64 -> reading_ok u -> u <> 0 ->
  (start_micros (set_time_user u now utime t) = u /\ start_micros (set_time now' utime' (set_time_user u now utime t)) = u /\ sys (set_time_user u now utime t) = sys t) /\
  (let t' := set_time_repl opt slave sec sec_part now utime t in
   if secure_value (if slave then SECTIME_REPL else SECTIME_SUPER) <? secure_value opt then t' = set_time now utime t
   else start_time t' = sec /\ start_time_sec_part t' = sec_part /\ start_micros (set_time now' utime' t') = micros sec sec_part).
Proof.
  intros Hp Hs Hm Hu H0. split.
  - unfold set_time_user. destruct (set_time_user_start u now utime (with_user u t)) as (E1 & _ & E2); [done..|].
    assert (user_time (set_time now utime (with_user u t)) = u) as Eu by (unfold set_time, set_start_time; cbn; destruct (c_true u); done).
    destruct (set_time_user_start u now' utime' (set_time now utime (with_user u t))) as (E3 & _ & _); [done..|]. done.
  - cbv zeta. unfold set_time_repl. destruct (_ <? _); [done|]. unfold part_ok in Hp. rewrite (proj2 (Z.leb_le _ _)) by lia.
    assert (u64 (hrtime_from_time sec + sec_part) = micros sec sec_part) as Eh by (unfold hrtime_from_time, micros, HRTIME_RESOLUTION in *; rewrite (uwrap_small 64 (sec * _)), uwrap_small by (unfold ufits; lia); done).
    split_and!; [done|done|]. apply set_time_user_start; [unfold reading_ok; lia|lia|]. cbn. exact Eh.
Qed.

(** Replicated events without microseconds in the same second count up the part
    of the second without a limit: after the last of a second comes a part of 1000000,
    which is not the part of any second, and the next statement, whose time is
    computed from it, starts in the next second. *)
Theorem replicated_part_overflows opt (slave : bool) sec sec_part now utime now' utime' t :
  secure_value opt <= secure_value (if slave then SECTIME_REPL else SECTIME_SUPER) -> TIME_MAX_SECOND_PART < sec_part -> 0 <= sec < 2 ^ 40 ->
  sys_sec (sys t) = sec -> sys_sec_part (sys t) = TIME_MAX_SECOND_PART ->
  let t' := set_time_repl opt slave sec sec_part now utime t in
  start_time t' = sec /\ start_time_sec_part t' = 1000000 /\ ~ part_ok (start_time_sec_part t') /\
  start_time (set_time now' utime' t') = sec + 1 /\ start_time_sec_part (set_time now' utime' t') = 0.
Proof.
  intros Ho Hp Hs E1 E2. cbv zeta. unfold set_time_repl. rewrite (proj2 (Z.ltb_ge _ _)) by done. rewrite (proj2 (Z.leb_gt _ _)) by done. rewrite E1, (Z.eqb_refl sec), E2. cbn [negb].
  change (u64 (TIME_MAX_SECOND_PART + 1)) with 1000000. cbn [with_utime with_user with_start start_time start_time_sec_part].
  split_and!; [done|done|unfold part_ok, TIME_MAX_SECOND_PART; lia| |];
    (unfold set_time, set_start_time; cbn [with_utime with_user user_time]; unfold hrtime_from_time; change HRTIME_RESOLUTION with 1000000;
     rewrite (uwrap_small 64 (sec * _)), (uwrap_small 64 (_ + _)) by (unfold ufits; lia);
     assert (c_true (sec * 1000000 + 1000000) = true) as -> by (apply c_true_spec; lia); cbn [with_start start_time start_time_sec_part];
     unfold hrtime_to_my_time, hrtime_sec_part, HRTIME_RESOLUTION).
  - replace ((sec * 1000000 + 1000000) / 1000000) with (sec + 1) by lia_mod. apply swrap_small; [lia|]. unfold sfits. lia.
  - replace (sec * 1000000 + 1000000) with ((sec + 1) * 1000000) by lia. by apply Z.mod_mul.
Qed.

(** A statement is slow when it took at least [long_query_time] after it had its locks. *)
Lemma update_server_status_spec long utime t : 0 <= utime_after_lock t -> 0 <= long -> utime_after_lock t + long < 2 ^ 64 ->
  query_was_slow (update_server_status long utime t) = query_was_slow t || (long <=? utime - utime_after_lock t).
Proof.
  intros H1 H2 H3. unfold update_server_status. cbn [set_time_for_next_stage utime_after_lock utime_after_query]. rewrite uwrap_small by (unfold ufits; lia).
  destruct (Z.leb_spec (utime_after_lock t + long) utime), (Z.leb_spec long (utime - utime_after_lock t)); try lia; cbn; [by rewrite orb_true_r|by rewrite orb_false_r].
Qed.

(** * Examples *)

Definition times0 : times := mkTimes (mkSystem 0 0 0) 0 0 0 0 0 0 false false.
(** Three statements within one tick of a clock that counts milliseconds. *)
Lemma session_clock_advances_witness : Sorted Z.lt (0 :: ticks [5000; 5000; 5000] (mkSystem 0 0 0)) /\ ticks [5000; 5000; 5000] (mkSystem 0 0 0) = [5000; 5001; 5002].
Proof.
  split; [|reflexivity]. apply (session_clock_advances [5000; 5000; 5000] (mkSystem 0 0 0)); [repeat constructor; vm_compute; congruence|vm_compute; split; congruence|].
  repeat constructor; vm_compute; congruence.
Defined.
Lemma set_times_stay_witness : start_micros (set_time 77 88 (set_time_repl SECTIME_NO true 1000 25 5 6 times0)) = 1000000025.
Proof.
  apply (set_times_stay SECTIME_NO true 1000 25 1 5 6 77 88 times0); unfold part_ok, TIME_MAX_SECOND_PART, micros, HRTIME_RESOLUTION, reading_ok; lia.
Defined.
Lemma replicated_part_overflows_witness : start_time_sec_part (set_time_repl SECTIME_NO true 1000 1000000 5 6 (with_sys (mkSystem 0 1000 999999) times0)) = 1000000.
Proof. apply (replicated_part_overflows SECTIME_NO true 1000 1000000 5 6 7 8 (with_sys (mkSystem 0 1000 999999) times0)); cbn; lia || reflexivity. Defined.
