(* ===== verification/SqlFixedBin.v ===== *)
(** Data types with a fixed-size binary format, such as INET6 and UUID:
    [private/sql_type_fixedbin.h], the classes that make a type of an implementation
    [FbtImpl], and [private/sql_type_fixedbin_storage.h], the storage that an
    implementation has by default.

    An implementation is the class [FbtImpl], with the laws [FbtLaws] that the comments of
    the headers state.  A value is the bytes in memory, [record] bytes are those of a
    row.  An item is what its methods return.  A character set is what
    the code asks of it; [String_copier::well_formed_copy] is one of its members. *)

From S2P Require Import Prelude ByteOrder.

Abbreviation bytes := (list byte).

(** [memcmp], as an integer. *)
Definition memcmp_Z (n : nat) (a b : bytes) : Z := match memcmp n a 0 b 0 with Eq => 0 | Lt => -1 | Gt => 1 end.

(** * The storage of a type *)

Section Storage.
Context (NATIVE_LEN : nat).

Definition storage_zero : bytes := replicate NATIVE_LEN x00.
(** The constructor from the representation in memory. *)
Definition storage_init (str : bytes) : bytes := if (length str =? NATIVE_LEN)%nat then str else storage_zero.
Definition storage_cmp (a b : bytes) : option Z :=
  _ ← asserting (length a =? NATIVE_LEN)%nat tt; _ ← asserting (length b =? NATIVE_LEN)%nat tt; Some (memcmp_Z (length b) a b).
Definition storage_memory_to_record (from : bytes) : bytes := take NATIVE_LEN from.
Definition storage_record_to_memory (from : bytes) : bytes := take NATIVE_LEN from.
End Storage.
(** The loop of [only_zero_bytes]. *)
Fixpoint only_zero_bytes (ptr : bytes) : bool := match ptr with [] => true | b :: ptr => if negb (byteZ b =? 0) then false else only_zero_bytes ptr end.

(** * An implementation *)

Class FbtImpl := {
  binary_length : nat;
  max_char_length : nat;
  ascii_to_fbt : bytes -> option bytes;
  fbt_to_string : bytes -> bytes;
  memory_to_record : bytes -> bytes;
  record_to_memory : bytes -> bytes;
  fbt_cmp : bytes -> bytes -> option Z;
  hash_record : bytes -> Z * Z -> Z * Z;
  type_name : bytes
}.
Class FbtLaws (F : FbtImpl) := {
  memory_to_record_length b : length b = binary_length -> length (memory_to_record b) = binary_length;
  record_to_memory_length r : length r = binary_length -> length (record_to_memory r) = binary_length;
  record_memory b : length b = binary_length -> record_to_memory (memory_to_record b) = b;
  memory_record r : length r = binary_length -> memory_to_record (record_to_memory r) = r;
  zero_record : memory_to_record (storage_zero binary_length) = storage_zero binary_length;
  cmp_record a b : length a = binary_length -> length b = binary_length -> exists c, fbt_cmp a b = Some c /\ Z.sgn c = memcmp_Z binary_length (memory_to_record a) (memory_to_record b);
  ascii_length s b : ascii_to_fbt s = Some b -> length b = binary_length;
  to_string_length b : length b = binary_length -> (length (fbt_to_string b) <= max_char_length)%nat;
  to_string_ascii b : length b = binary_length -> ascii_to_fbt (fbt_to_string b) = Some b
}.

(** The storage by default, for an implementation with this text format. *)
Definition default_impl (n max_char : nat) (parse : bytes -> option bytes) (print : bytes -> bytes) (hash : bytes -> Z * Z -> Z * Z) (name : bytes) : FbtImpl := {|
  binary_length := n; max_char_length := max_char; ascii_to_fbt := parse; fbt_to_string := print;
  memory_to_record := storage_memory_to_record n; record_to_memory := storage_record_to_memory n; fbt_cmp := storage_cmp n; hash_record := hash; type_name := name
|}.

(** * Strings and items *)

(** [cs_latin1 n s]: [s] converted to latin1, at most [n] bytes of it. *)
Record fbt_charset := mkCS { cs_binary : bool; cs_nonascii : bool; cs_latin1 : nat -> bytes -> bytes }.
Record String := mkStr { str_bytes : bytes; str_cs : fbt_charset }.
(** The type handlers that the code tells apart. *)
Inductive handler := H_fbt | H_null | H_varchar | H_string | H_tiny_blob | H_blob | H_medium_blob | H_long_blob | H_hex_hybrid | H_other (n : nat).
#[export] Instance handler_eq_dec : EqDecision handler.
Proof. solve_decision. Defined.
(** What an item returns; [None] is an error or NULL. *)
Record Item := mkItem { it_handler : handler; it_maybe_null : bool; it_const : bool; it_expensive : bool; it_native : option bytes; it_str : option String }.

(** * Values *)

Section Fbt.
Context {F : FbtImpl}.
Implicit Types (item : Item) (str : String) (cs : fbt_charset).

Definition Fbt_zero : bytes := storage_zero binary_length.

(** Each conversion gives the value, or [None] where the code returns [true]. *)
Definition character_string_to_fbt (s : bytes) cs : option bytes :=
  if cs_nonascii cs then ascii_to_fbt (cs_latin1 cs (max_char_length + 1) s) else ascii_to_fbt s.
Definition binary_to_fbt (s : bytes) : option bytes := if negb (length s =? binary_length)%nat then None else Some s.
(** The number of warnings comes with the value. *)
Definition make_from_character_or_binary_string str (warn : bool) : option bytes * Z :=
  let pushed := if warn then 1 else 0 in
  if negb (cs_binary (str_cs str))
  then match character_string_to_fbt (str_bytes str) (str_cs str) with Some b => (Some b, 0) | None => (None, pushed) end
  else if negb (length (str_bytes str) =? binary_length)%nat then (None, pushed) else (Some (str_bytes str), 0).
Definition make_from_item item (warn : bool) : option (option bytes * Z) :=
  if bool_decide (it_handler item = H_fbt)
  then match it_native item with None => Some (None, 0) | Some b => asserting (length b =? binary_length)%nat (Some b, 0) end
  else match it_str item with Some str => Some (make_from_character_or_binary_string str warn) | None => Some (None, 0) end.

(** [Fbt_null]: [None] is null. *)
Abbreviation Fbt_null := (option bytes).
Definition Fbt_null_item item (warn : bool) : option Fbt_null := r ← make_from_item item warn; Some r.1.
Definition Fbt_null_text (s : bytes) cs : Fbt_null := character_string_to_fbt s cs.
Definition Fbt_null_binary (s : bytes) : Fbt_null := binary_to_fbt s.
Definition Fbt_null_string str : Fbt_null := Fbt_null_text (str_bytes str) (str_cs str).

Definition fix_fields_maybe_null_on_conversion_to_fbt item : option bool :=
  if it_maybe_null item then Some true
  else if bool_decide (it_handler item = H_fbt) then Some false
  else if negb (it_const item) || it_expensive item then Some true
  else v ← Fbt_null_item item false; Some (match v with None => true | Some _ => false end).

(** [ok]: whether memory could be allocated for the result. *)
Definition to_record (str_size : nat) (b : bytes) : option bytes := asserting (binary_length <=? str_size)%nat (memory_to_record b).
Definition to_native (ok : bool) (b : bytes) : option bytes := if ok then Some b else None.
Definition latin1 : fbt_charset := mkCS false false (λ n s, take n s).
Definition bin : fbt_charset := mkCS true false (λ n s, take n s).
Definition to_binary (ok : bool) (b : bytes) : option String := if ok then Some (mkStr b bin) else None.
Definition to_string (ok : bool) (b : bytes) : option String := if ok then Some (mkStr (fbt_to_string b) latin1) else None.
Definition Fbt_cmp (a b : bytes) : option Z := fbt_cmp a b.

(** * The type handler *)

(** [character_or_binary_string_to_native]; [to->copy] may fail. *)
Definition string_to_native (ok : bool) str : option bytes * Z :=
  if cs_binary (str_cs str)
  then if negb (length (str_bytes str) =? binary_length)%nat || negb ok then (None, 1) else (Some (str_bytes str), 0)
  else match Fbt_null_string str with None => (None, 1) | Some b => (to_native ok b, 0) end.

(** The value of a field of this type is its [val_native]. *)
Definition stored_field_cmp_to_item (field_native : option bytes) item : option Z :=
  v ← Fbt_null_item item true;
  match v with
  | None => Some 0
  | Some ni => match field_native with None => None | Some tmp => c ← Fbt_cmp ni tmp; Some (- c) end
  end.
Definition Item_decimal_precision : Z := ((Z.of_nat binary_length * 8 + 7) ÷ 10) * 3.
Definition partition_field_append_value (to : bytes) item : option (option bytes) :=
  v ← Fbt_null_item item true;
  Some (match v with None => None | Some b => Some (to ++ [x27] ++ fbt_to_string b ++ [x27]) end).

(** [make_sort_key_part]: all that is written at [to]; [sort_length] is that of the sort field. *)
Definition make_sort_key_part (sort_length : nat) item : option bytes :=
  _ ← asserting (bool_decide (it_handler item = H_fbt)) tt;
  let value := match it_native item with
    | None => None
    | Some tmp => asserting ((binary_length =? length tmp) && (binary_length =? sort_length))%nat (memory_to_record tmp)
    end in
  if it_maybe_null item
  then match it_native item with None => Some (replicate (binary_length + 1) x00) | Some _ => r ← value; Some (x01 :: r) end
  else value.
(** [make_packed_sort_key_part], with the length that it returns. *)
Definition make_packed_sort_key_part (sort_length : nat) item : option (bytes * nat) :=
  _ ← asserting (bool_decide (it_handler item = H_fbt)) tt;
  let value := match it_native item with
    | None => None
    | Some tmp => asserting ((binary_length =? length tmp) && (binary_length =? sort_length))%nat (memory_to_record tmp)
    end in
  if it_maybe_null item
  then match it_native item with None => Some ([x00], 0%nat) | Some tmp => r ← value; Some (x01 :: r, length tmp) end
  else r ← value; Some (r, length r).

(** [Item_save_in_value]: the value, NULL or not, and whether a warning was pushed. *)
Definition Item_save_in_value (same_buffer : bool) item : option String * Z :=
  match it_str item with
  | None => (None, 0)
  | Some str => if negb same_buffer && negb (match Fbt_null_string str with Some _ => true | None => false end) then (None, 1) else (Some str, 0)
  end.
Definition print_item_value (ok : bool) item : option bytes :=
  match it_str item with None => None | Some result => if ok then Some ([x27] ++ str_bytes result ++ [x27]) else None end.
Definition subquery_type_allows_materialization (inner outer : Item) : option bool :=
  asserting (bool_decide (it_handler inner = H_fbt)) (bool_decide (it_handler outer = H_fbt)).
(** An item for a constant: NULL or a literal. *)
Inductive const_item := Item_null | Item_literal_fbt (m_value : bytes).
Definition make_const_item_for_comparison (src : Item) : option const_item :=
  v ← Fbt_null_item src true; Some (match v with None => Item_null | Some b => Item_literal_fbt b end).
Definition cmp_native (a b : bytes) : option Z := fbt_cmp a b.
Definition Item_eq_value (a b : Item) : option bool :=
  na ← Fbt_null_item a true; nb ← Fbt_null_item b true;
  match na, nb with Some na, Some nb => c ← Fbt_cmp na nb; Some (c =? 0) | _, _ => Some false end.
(** Whether the function becomes nullable; [is_ifnull] skips the first argument. *)
Fixpoint hybrid_maybe_null (items : list Item) : option bool :=
  match items with [] => Some false | i :: items => b ← fix_fields_maybe_null_on_conversion_to_fbt i; if b : bool then Some true else hybrid_maybe_null items end.
Definition Item_hybrid_func_fix_attributes (is_ifnull : bool) (maybe_null : bool) (items : list Item) : option bool :=
  b ← hybrid_maybe_null (if is_ifnull then tail items else items); Some (b || maybe_null).
Definition Item_val_native_with_conversion (ok : bool) item : option bytes * Z :=
  if bool_decide (it_handler item = H_fbt) then (it_native item, 0)
  else match it_str item with Some str => string_to_native ok str | None => (None, 0) end.
Definition Item_val_bool item : bool := match it_native item with None => false | Some tmp => negb (only_zero_bytes tmp) end.
(** [set_hex] is [Binary_string::set_hex]. *)
Definition Item_func_hex_val_str_ascii (set_hex : bytes -> bytes) (ok : bool) (arg : Item) : option (option bytes) :=
  match it_native arg with
  | None => Some None
  | Some tmp => asserting (length tmp =? binary_length)%nat (Some (if ok then set_hex tmp else []))
  end.
Definition Item_func_hybrid_field_type_val_str (ok : bool) item : option (option String) :=
  match it_native item with
  | None => Some None
  | Some native => asserting (length native =? binary_length)%nat (match Fbt_null_binary native with None => None | Some b => to_string ok b end)
  end.
Definition Item_func_min_max_val_str (ok : bool) item : option (option String) :=
  v ← Fbt_null_item item true; Some (match v with None => None | Some b => to_string ok b end).

(** * [cmp_item_fbt] *)

Definition UNKNOWN : Z := -1.
Record cmp_item_fbt := mkCmp { m_native : bytes; m_null_value : bool }.
(** [m_null_value] is not initialised. *)
Definition cmp_item_new (u : bool) : cmp_item_fbt := mkCmp Fbt_zero u.
(** [u]: what is in the buffer of a value that was not converted. *)
Definition cmp_store_value (u : bytes) item : option cmp_item_fbt :=
  r ← make_from_item item true; Some (match r.1 with Some b => mkCmp b false | None => mkCmp u true end).
Definition cmp_not_null (c : cmp_item_fbt) (val : option String) : option Z :=
  match val with None => None | Some str => match Fbt_null_string str with None => None | Some b => Fbt_cmp (m_native c) b end end.
Definition cmp_item_cmp (c : cmp_item_fbt) (arg : Item) : option Z :=
  v ← Fbt_null_item arg true;
  if m_null_value c then Some UNKNOWN
  else match v with None => Some UNKNOWN | Some b => r ← Fbt_cmp (m_native c) b; Some (Z.b2z (negb (r =? 0))) end.
Definition cmp_item_compare (c ci : cmp_item_fbt) : option Z :=
  _ ← asserting (negb (m_null_value c)) tt; _ ← asserting (negb (m_null_value ci)) tt; Fbt_cmp (m_native c) (m_native ci).

(** * [Field_fbt] *)

(** [null_ptr]: whether the field has a null bit; [tab_maybe_null] and [tab_null_row] are those
    of its table. *)
Record Field_fbt := mkField { ptr : bytes; null_ptr : bool; null_bit : bool; tab_maybe_null : bool; tab_null_row : bool; warnings : Z }.
Implicit Types f : Field_fbt.
Definition CHECK_FIELD_EXPRESSION : Z := 1.
Context (count_cuted_fields : Z).

Definition maybe_null f : bool := null_ptr f || tab_maybe_null f.
Definition is_null f : bool := if null_ptr f then null_bit f else tab_null_row f.
Definition is_real_null f : bool := null_ptr f && null_bit f.
Definition set_null f : Field_fbt := mkField (ptr f) (null_ptr f) (if null_ptr f then true else null_bit f) (tab_maybe_null f) (tab_null_row f) (warnings f).
Definition with_ptr (b : bytes) f : Field_fbt := mkField b (null_ptr f) (null_bit f) (tab_maybe_null f) (tab_null_row f) (warnings f).
Definition set_min_value f : Field_fbt := with_ptr (replicate binary_length x00) f.
Definition set_max_value f : Field_fbt := with_ptr (replicate binary_length xff) f.
Definition store_warning f : Field_fbt :=
  if count_cuted_fields <=? CHECK_FIELD_EXPRESSION then f
  else mkField (ptr f) (null_ptr f) (null_bit f) (tab_maybe_null f) (tab_null_row f) (warnings f + 1).
Definition set_null_with_warn f : Z * Field_fbt := (1, set_null (store_warning f)).
Definition set_min_value_with_warn f : Z * Field_fbt := (1, set_min_value (store_warning f)).
Definition set_max_value_with_warn f : Z * Field_fbt := (1, set_max_value (store_warning f)).
Definition store_fbt_null_with_warn f (fbt : Fbt_null) : option (Z * Field_fbt) :=
  match fbt with
  | None => Some (if maybe_null f then set_null_with_warn f else set_min_value_with_warn f)
  | Some b => r ← to_record binary_length b; Some (0, with_ptr r f)
  end.
Definition pack_length : nat := binary_length.
Definition Field_cmp (a b : bytes) : Z := memcmp_Z pack_length a b.
Definition sort_string (len : nat) f : option bytes := asserting (len =? pack_length)%nat (take len (ptr f)).
Definition val_native (ok : bool) f : option (option bytes) := asserting (negb (is_null f)) (if ok then Some (record_to_memory (ptr f)) else None).
Definition to_fbt f : option bytes := asserting (negb (is_null f)) (record_to_memory (ptr f)).
Definition val_str (ok : bool) f : option (option String) := b ← to_fbt f; Some (to_string ok b).
Definition val_bool f : bool := negb (only_zero_bytes (ptr f)).
Definition store_native f (value : bytes) : option (Z * Field_fbt) := asserting (length value =? binary_length)%nat (0, with_ptr (memory_to_record value) f).
Definition store_text f (s : bytes) cs : option (Z * Field_fbt) := store_fbt_null_with_warn f (Fbt_null_text s cs).
Definition store_binary f (s : bytes) : option (Z * Field_fbt) := store_fbt_null_with_warn f (Fbt_null_binary s).
Definition Field_store f str : option (Z * Field_fbt) := if cs_binary (str_cs str) then store_binary f (str_bytes str) else store_text f (str_bytes str) (str_cs str).
Definition store_hex_hybrid f (s : bytes) : option (Z * Field_fbt) := store_binary f s.
(** [store_decimal], [Field_store] of numbers and [store_time_dec]. *)
Definition store_other f : Z * Field_fbt := set_min_value_with_warn f.
Definition Field_hash f (nr : Z * Z) : Z * Z := if is_null f then (Z.lxor nr.1 (Z.lor (uwrap 64 (Z.shiftl nr.1 1)) 1), nr.2) else hash_record (ptr f) nr.

(** The copying functions to a field of another type. *)
Inductive Copy_func := do_field_eq | do_field_fbt_native_to_binary | do_field_string.
Definition get_copy_func_to (to_handler : handler) (to_binary to_general_purpose_string : bool) : Copy_func :=
  if bool_decide (to_handler = H_fbt) then do_field_eq
  else if to_binary && to_general_purpose_string then do_field_fbt_native_to_binary
  else do_field_string.
(** What is given to [to->store]: the bytes, as binary ones or as text. *)
Definition save_in_field (to_binary to_general_purpose_string : bool) f : option (option String) :=
  if to_binary && to_general_purpose_string
  then r ← val_native true f; Some (match r with None => None | Some res => Some (mkStr res bin) end)
  else val_str true f.
Definition memcpy_field_possible (from : handler) : bool := bool_decide (from = H_fbt).
(** Whether the conversion is that of the same type, or impossible. *)
Definition rpl_conv_type_from (source : handler) (max_display_length_for_field : nat) : bool :=
  bool_decide (source = H_fbt) || (bool_decide (source = H_string) && (max_display_length_for_field =? binary_length)%nat).
Inductive subst_constraint := ANY_SUBST | IDENTITY_SUBST.
Definition can_be_substituted_to_equal_item (s : subst_constraint) (ctx_handler item_equal_handler : handler) : bool :=
  match s with ANY_SUBST => bool_decide (ctx_handler = item_equal_handler) | IDENTITY_SUBST => true end.
Definition get_equal_const_item (i : Item) : option (option const_item) :=
  v ← Fbt_null_item i true; Some (match v with None => None | Some b => Some (Item_literal_fbt b) end).
(** [op_eq] is [=] or [<=>], [op_equal] is [<=>]; [err] is what saving the value in this field returned. *)
Inductive mm_leaf := mm_none | mm_null_element | mm_impossible | mm_stored.
Definition get_mm_leaf (can_optimize op_eq op_equal : bool) (err : Z) f : mm_leaf :=
  if negb can_optimize then mm_none
  else if (negb op_equal && is_real_null f) || (err <? 0) then mm_null_element
  else if 0 <? err then (if op_eq || op_equal then mm_impossible else mm_none)
  else mm_stored.

(** * Items *)

Definition Item_typecast_val_native (ok : bool) (arg : Item) : option (option bytes) :=
  v ← Fbt_null_item arg true; Some (match v with None => None | Some b => to_native ok b end).
Definition Item_typecast_val_str (ok : bool) (arg : Item) : option (option String) :=
  v ← Fbt_null_item arg true; Some (match v with None => None | Some b => to_string ok b end).
Definition Item_typecast_fix_length_and_dec (null : bool) (arg : Item) : option bool :=
  b ← fix_fields_maybe_null_on_conversion_to_fbt arg; Some (if b : bool then true else null).
Definition cast_as : bytes := [x63; x61; x73; x74; x5f; x61; x73; x5f].
(** [u] is what was in the memory that [alloc] gives. *)
Definition func_name_cstring (u : bytes) : bytes :=
  let len := (9 + length type_name + 1)%nat in
  let written := cast_as ++ type_name ++ [x00] in
  written ++ drop (length written) (take len u).
Definition Item_typecast_print (arg : bytes) : bytes := [x63; x61; x73; x74; x28] ++ arg ++ [x20; x61; x73; x20] ++ type_name ++ [x29].

Record Item_cache_fbt := mkCache { example : option Item; value_cached : bool; cache_null : bool; cache_native : bytes }.
Definition Item_cache_new : Item_cache_fbt := mkCache None false true [].
Definition cache_value (ok : bool) (c : Item_cache_fbt) : bool * Item_cache_fbt :=
  match example c with
  | None => (false, c)
  | Some i =>
    match (Item_val_native_with_conversion ok i).1 with
    | Some b => (true, mkCache (example c) true false b)
    | None => (true, mkCache (example c) true true (cache_native c))
    end
  end.
Definition has_value (ok : bool) (c : Item_cache_fbt) : bool * Item_cache_fbt :=
  let '(r, c) := if value_cached c then (true, c) else cache_value ok c in (r && negb (cache_null c), c).
Definition Item_cache_val_native (ok : bool) (c : Item_cache_fbt) : option bytes * Item_cache_fbt :=
  let '(r, c) := has_value ok c in (if r : bool then to_native ok (cache_native c) else None, c).
Definition Item_cache_val_str (ok : bool) (c : Item_cache_fbt) : option String * Item_cache_fbt :=
  let '(r, c) := has_value ok c in
  (if r : bool then match Fbt_null_binary (cache_native c) with None => None | Some b => to_string ok b end else None, c).
Definition Item_cache_clear (c : Item_cache_fbt) : Item_cache_fbt := mkCache (example c) false true (cache_native c).

Definition Item_literal_val_native (ok : bool) (m_value : bytes) : option bytes := to_native ok m_value.
Definition Item_literal_val_str (ok : bool) (m_value : bytes) : option String := to_string ok m_value.
Definition Item_literal_print (my_caseup_str : bytes -> bytes) (m_value : bytes) : bytes := my_caseup_str type_name ++ [x27] ++ fbt_to_string m_value ++ [x27].

Record Item_copy_fbt := mkCopy { copy_null : bool; copy_native : bytes }.
Definition copy (item : Item) (c : Item_copy_fbt) : Item_copy_fbt := match it_native item with Some b => mkCopy false b | None => mkCopy true (copy_native c) end.
Definition Item_copy_val_native (ok : bool) (c : Item_copy_fbt) : option bytes := if copy_null c then None else to_native ok (copy_native c).
Definition Item_copy_val_str (ok : bool) (c : Item_copy_fbt) : option String :=
  if copy_null c then None else match Fbt_null_binary (copy_native c) with None => None | Some b => to_string ok b end.

(** * [in_fbt] *)

Definition in_cmp_fbt (a b : bytes) : option Z := Fbt_cmp a b.
Definition in_set (base : list bytes) (pos : nat) item : option (list bytes) :=
  v ← Fbt_null_item item true; asserting (pos <? length base)%nat (<[pos := match v with None => Fbt_zero | Some b => b end]> base).
Definition in_get_value item : option (option bytes) := Fbt_null_item item true.
Definition in_value_to_item (base : list bytes) (pos : nat) : option const_item := b ← base !! pos; Some (Item_literal_fbt b).
Definition MAX_FIELD_VARCHARLENGTH : Z := 65535 - 2 - 1.
Definition return_type_handler (blob_type_handler : Z -> handler) (max_length : Z) : handler :=
  if MAX_FIELD_VARCHARLENGTH <? max_length then blob_type_handler max_length else if 255 <? max_length then H_varchar else H_string.
End Fbt.

(** * [Type_collection_fbt] *)

Definition aggregate_common (a b : handler) : option handler := if bool_decide (a = b) then Some a else None.
Fixpoint find_handler_in_array (pairs : list (handler * handler * handler)) (h1 h2 : handler) (commutative : bool) : option handler :=
  match pairs with
  | [] => None
  | (p1, p2, r) :: pairs =>
    if bool_decide (p1 = h1) && bool_decide (p2 = h2) then Some r
    else if commutative && (bool_decide (p1 = h2) && bool_decide (p2 = h1)) then Some r
    else find_handler_in_array pairs h1 h2 commutative
  end.
Definition aggregate_if_string (a b : handler) : option handler :=
  find_handler_in_array ((λ h, (H_fbt, h, H_fbt)) <$> [H_null; H_varchar; H_string; H_tiny_blob; H_blob; H_medium_blob; H_long_blob; H_hex_hybrid]) a b true.
Definition aggregate_for_result (a b : handler) : option handler :=
  match aggregate_common a b with Some h => Some h | None => aggregate_if_string a b end.
Definition aggregate_for_min_max (a b : handler) : option handler := aggregate_for_result a b.
Definition aggregate_for_comparison (a b : handler) : option handler :=
  match aggregate_common a b with Some h => Some h | None => find_handler_in_array [(H_fbt, H_null, H_fbt); (H_fbt, H_long_blob, H_fbt)] a b true end.
Definition aggregate_for_num_op (a b : handler) : option handler := None.

(** The lengths of a packed string. *)
Definition max_packed_col_length (max_length : Z) : Z := uwrap 32 ((if 255 <? max_length then 2 else 1) + max_length).
Definition packed_col_length (data_ptr : bytes) (len : Z) : Z := if 255 <? len then X86_64.uint2korr data_ptr 0 + 2 else uwrap 32 (uc data_ptr 0 + 1).


(** * Lemmas *)

Lemma memcmp_Z_cons n x y (a b : bytes) :
  memcmp_Z (S n) (x :: a) (y :: b) = match byteZ x ?= byteZ y with Eq => memcmp_Z n a b | Lt => -1 | Gt => 1 end.
Proof. unfold memcmp_Z. cbn [memcmp]. change (uc (x :: a) 0) with (byteZ x). change (uc (y :: b) 0) with (byteZ y). rewrite memcmp_cons. by destruct (byteZ x ?= byteZ y). Qed.
Lemma memcmp_Z_refl n a : memcmp_Z n a a = 0.
Proof. unfold memcmp_Z. by rewrite memcmp_refl. Qed.
Lemma memcmp_Z_sym n a b : memcmp_Z n b a = - memcmp_Z n a b.
Proof. unfold memcmp_Z. rewrite !memcmp_be_val, (Z.compare_antisym (be_val (rd n a 0)) (be_val (rd n b 0))). by destruct (be_val (rd n a 0) ?= be_val (rd n b 0)). Qed.
Lemma memcmp_Z_sgn n a b : Z.sgn (memcmp_Z n a b) = memcmp_Z n a b.
Proof. unfold memcmp_Z. by destruct (memcmp n a 0 b 0). Qed.
(** [memcmp] tells buffers of this length apart. *)
Lemma memcmp_Z_eq n (a b : bytes) : length a = n -> length b = n -> memcmp_Z n a b = 0 <-> a = b.
Proof.
  revert a b. induction n as [|n IH]; intros [|x a] [|y b]; try discriminate; [done|]. cbn [length]. intros Ha Hb.
  rewrite memcmp_Z_cons. destruct (Z.compare_spec (byteZ x) (byteZ y)) as [E|E|E].
  - assert (x = y) as <- by (rewrite <- (Zbyte_byteZ x), <- (Zbyte_byteZ y); congruence). rewrite IH by lia. split; congruence.
  - split; [lia|]. intros [= -> _]. lia.
  - split; [lia|]. intros [= -> _]. lia.
Qed.
(** The record of [set_min_value] is the smallest. *)
Lemma memcmp_Z_min n (r : bytes) : length r = n -> memcmp_Z n (replicate n x00) r <= 0.
Proof.
  revert r. induction n as [|n IH]; intros [|x r]; try discriminate. cbn [length replicate]. intros Hr. rewrite memcmp_Z_cons.
  change (byteZ x00) with 0. pose proof (byteZ_range x) as Hx. unfold ufits in Hx.
  destruct (Z.compare_spec 0 (byteZ x)) as [E|E|E]; [|lia..]. apply IH. lia.
Qed.
Lemma only_zero_spec ptr : only_zero_bytes ptr = true <-> ptr = replicate (length ptr) x00.
Proof.
  induction ptr as [|b ptr IH]; [done|]. cbn [only_zero_bytes length replicate].
  destruct (byteZ b =? 0) eqn:E; cbn [negb].
  - apply Z.eqb_eq in E. assert (b = x00) as -> by (rewrite <- (Zbyte_byteZ b), E; done). rewrite IH. split; congruence.
  - split; [done|]. intros [= -> _]. done.
Qed.

Section Laws.
Context {F : FbtImpl} {L : FbtLaws F}.
Implicit Types (a b : bytes) (i : Item) (f : Field_fbt).

(** What the code asserts of the items of this type. *)
Definition native_ok i : Prop := it_handler i = H_fbt -> forall b, it_native i = Some b -> length b = binary_length.

Lemma cmp_sgn a b : length a = binary_length -> length b = binary_length ->
  exists c, Fbt_cmp a b = Some c /\ Z.sgn c = memcmp_Z binary_length (memory_to_record a) (memory_to_record b).
Proof. apply cmp_record. Qed.
(** Two values compare equal when they are the same bytes. *)
Lemma cmp_zero a b c : length a = binary_length -> length b = binary_length -> Fbt_cmp a b = Some c -> c = 0 <-> a = b.
Proof.
  intros Ha Hb Hc. destruct (cmp_sgn a b Ha Hb) as (c' & Hc' & Hs). assert (c' = c) as -> by congruence.
  assert (Z.sgn c = 0 <-> c = 0) as <- by (destruct c; cbn; lia). rewrite Hs, memcmp_Z_eq by (by apply memory_to_record_length).
  split; [|congruence]. intros E. rewrite <- (record_memory a Ha), <- (record_memory b Hb). by rewrite E.
Qed.
Lemma zero_length : length Fbt_zero = binary_length.
Proof. apply length_replicate. Qed.
(** Every conversion gives values of the right length. *)
Lemma string_value_length str w b n : make_from_character_or_binary_string str w = (Some b, n) -> length b = binary_length.
Proof.
  unfold make_from_character_or_binary_string, character_string_to_fbt. destruct (cs_binary (str_cs str)); cbn [negb].
  - destruct (length (str_bytes str) =? binary_length)%nat eqn:E; cbn [negb]; [|done]. intros [= <- _]. by apply Nat.eqb_eq in E.
  - destruct (if cs_nonascii (str_cs str) then _ else _) eqn:E; [|done]. intros [= <- _].
    destruct (cs_nonascii (str_cs str)); eauto using ascii_length.
Qed.
Lemma item_value_total i w : native_ok i -> exists r, make_from_item i w = Some r /\ (forall b, r.1 = Some b -> length b = binary_length).
Proof.
  intros Hi. unfold make_from_item. case_bool_decide as Eh.
  - destruct (it_native i) as [b|] eqn:En; [|eexists; split; [done|]; by intros ? [=]].
    pose proof (Hi Eh b En) as Hb. exists (Some b, 0). rewrite asserting_true by (by apply Nat.eqb_eq). split; [done|]. by intros ? [= <-].
  - destruct (it_str i) as [str|]; [|eexists; split; [done|]; by intros ? [=]].
    eexists. split; [done|]. intros b E. destruct (make_from_character_or_binary_string str w) as [v n] eqn:E2. cbn in E. subst v.
    by eapply string_value_length.
Qed.
(** Warnings do not change the value. *)
Lemma string_value_warn str w : (make_from_character_or_binary_string str w).1 = (make_from_character_or_binary_string str true).1.
Proof. unfold make_from_character_or_binary_string. by repeat case_match. Qed.
Lemma item_null_warn i w : Fbt_null_item i w = Fbt_null_item i true.
Proof.
  unfold Fbt_null_item, make_from_item. case_bool_decide; [done|]. destruct (it_str i); [|done].
  cbn [mbind option_bind]. by rewrite string_value_warn.
Qed.
Lemma item_null_total i w : native_ok i -> exists v, Fbt_null_item i w = Some v /\ (forall b, v = Some b -> length b = binary_length).
Proof. intros Hi. destruct (item_value_total i w Hi) as (r & E & Hr). exists r.1. unfold Fbt_null_item. by rewrite E. Qed.

(** ** Sorting *)

(** NULL before the values, in the order of the type. *)
Definition null_first (a b : option bytes) : option Z :=
  match a, b with
  | None, None => Some 0 | None, Some _ => Some (-1) | Some _, None => Some 1
  | Some a, Some b => c ← Fbt_cmp a b; Some (Z.sgn c)
  end.
(** A key for NULL, or of a value. *)
Definition sort_key (v : option bytes) : bytes := match v with None => replicate (binary_length + 1) x00 | Some b => x01 :: memory_to_record b end.

Lemma make_sort_key i : native_ok i -> it_handler i = H_fbt -> it_maybe_null i = true -> make_sort_key_part binary_length i = Some (sort_key (it_native i)).
Proof.
  intros Hi Hh Hm. unfold make_sort_key_part. rewrite bool_decide_eq_true_2 by done. cbn [asserting mbind option_bind]. rewrite Hm.
  destruct (it_native i) as [b|] eqn:E; [|done]. specialize (Hi Hh b E).
  rewrite asserting_true by (by rewrite Hi, !Nat.eqb_refl). done.
Qed.
Lemma length_sort_key v : (forall b, v = Some b -> length b = binary_length) -> length (sort_key v) = S binary_length.
Proof. intros H. destruct v as [b|]; cbn; [by rewrite memory_to_record_length by auto|]. rewrite length_replicate. lia. Qed.
Lemma sort_key_cmp v w : (forall b, v = Some b -> length b = binary_length) -> (forall b, w = Some b -> length b = binary_length) ->
  null_first v w = Some (memcmp_Z (S binary_length) (sort_key v) (sort_key w)).
Proof.
  intros Hv Hw. destruct v as [a|], w as [b|]; cbn [null_first sort_key].
  - destruct (cmp_sgn a b) as (c & -> & Hs); [auto..|]. cbn [mbind option_bind]. rewrite Hs. rewrite memcmp_Z_cons. done.
  - rewrite Nat.add_comm. cbn [Nat.add replicate]. by rewrite memcmp_Z_cons.
  - rewrite Nat.add_comm. cbn [Nat.add replicate]. by rewrite memcmp_Z_cons.
  - by rewrite memcmp_Z_refl.
Qed.

(** C13.  Comparing sort keys with [memcmp] is comparing values: the keys of two nullable
    items of the type, of the length that [sort_length] gives plus one, are ordered as
    the values with NULL first; a packed key is the key of the value, or its first byte when
    it is NULL; and the records of two values stored in fields are ordered as the values. *)
Theorem sort_keys_order i j f : native_ok i -> native_ok j -> it_handler i = H_fbt -> it_handler j = H_fbt ->
  it_maybe_null i = true -> it_maybe_null j = true ->
  exists ki kj, make_sort_key_part binary_length i = Some ki /\ make_sort_key_part binary_length j = Some kj /\
    length ki = S binary_length /\ length kj = S binary_length /\
    null_first (it_native i) (it_native j) = Some (memcmp_Z (S binary_length) ki kj) /\
    (exists n, make_packed_sort_key_part binary_length i = Some (match it_native i with None => take 1 ki | Some _ => ki end, n)) /\
    (forall a b, it_native i = Some a -> it_native j = Some b ->
      exists fa fb, store_native f a = Some (0, fa) /\ store_native f b = Some (0, fb) /\
        null_first (Some a) (Some b) = Some (Field_cmp (ptr fa) (ptr fb))).
Proof.
  intros Hi Hj Ei Ej Mi Mj. exists (sort_key (it_native i)), (sort_key (it_native j)).
  pose proof (Hi Ei) as Li. pose proof (Hj Ej) as Lj.
  split; [by apply make_sort_key|]. split; [by apply make_sort_key|].
  split; [by apply length_sort_key|]. split; [by apply length_sort_key|]. split; [by apply sort_key_cmp|]. split.
  - unfold make_packed_sort_key_part. rewrite bool_decide_eq_true_2 by done. cbn [asserting mbind option_bind]. rewrite Mi.
    destruct (it_native i) as [b|]; [|eexists; cbn; by rewrite Nat.add_comm].
    rewrite asserting_true by (by rewrite Li, !Nat.eqb_refl). by eexists.
  - intros a b Ea Eb. unfold store_native. exists (with_ptr (memory_to_record a) f), (with_ptr (memory_to_record b) f).
    rewrite !asserting_true by (apply Nat.eqb_eq; auto). split; [done|]. split; [done|].
    cbn [null_first ptr with_ptr]. destruct (cmp_sgn a b) as (c & -> & Hs); [auto..|]. cbn [mbind option_bind]. by rewrite Hs.
Qed.

(** ** Fields *)

(** A value stored in a field is the one read from it: as native bytes, as binary
    bytes, or as text in a character set that is ASCII or converts to it, the three put
    the same record in the field, and it gives back the bytes and the text. *)
Theorem field_roundtrip chk f b cs : length b = binary_length -> is_null f = false -> cs_binary cs = false ->
  (cs_nonascii cs = true -> cs_latin1 cs (max_char_length + 1) (fbt_to_string b) = fbt_to_string b) ->
  exists f', store_native f b = Some (0, f') /\ Field_store chk f (mkStr b bin) = Some (0, f') /\ Field_store chk f (mkStr (fbt_to_string b) cs) = Some (0, f') /\
    length (ptr f') = binary_length /\ is_null f' = false /\ warnings f' = warnings f /\
    val_native true f' = Some (Some b) /\ val_str true f' = Some (Some (mkStr (fbt_to_string b) latin1)) /\
    (val_bool f' = false <-> b = Fbt_zero).
Proof.
  intros Hb Hn Hc Hl. exists (with_ptr (memory_to_record b) f).
  assert (Fbt_null_text (fbt_to_string b) cs = Some b) as Ht
    by (unfold Fbt_null_text, character_string_to_fbt; destruct (cs_nonascii cs); [rewrite Hl by done|]; by apply to_string_ascii).
  assert (Fbt_null_binary b = Some b) as Hbin by (unfold Fbt_null_binary, binary_to_fbt; by rewrite Hb, Nat.eqb_refl).
  assert (to_record binary_length b = Some (memory_to_record b)) as Hr by (unfold to_record; apply asserting_true; by apply Nat.leb_le).
  split; [unfold store_native; apply asserting_true; by apply Nat.eqb_eq|].
  split; [unfold Field_store, store_binary; cbn [cs_binary str_cs str_bytes bin]; rewrite Hbin; unfold store_fbt_null_with_warn; by rewrite Hr|].
  split; [unfold Field_store, store_text; cbn [str_cs str_bytes]; rewrite Hc, Ht; unfold store_fbt_null_with_warn; by rewrite Hr|].
  split; [by apply memory_to_record_length|]. split; [done|]. split; [done|].
  assert (is_null (with_ptr (memory_to_record b) f) = false) as Hn' by done.
  split; [unfold val_native; rewrite asserting_true by (by rewrite Hn'); cbn [ptr with_ptr]; by rewrite record_memory|].
  split; [unfold val_str, to_fbt; rewrite asserting_true by (by rewrite Hn'); cbn [ptr with_ptr mbind option_bind]; by rewrite record_memory|].
  unfold val_bool. rewrite negb_false_iff, only_zero_spec. cbn [ptr with_ptr]. rewrite memory_to_record_length by done. split.
  - intros E. rewrite <- (record_memory b Hb), E. change (replicate binary_length x00) with (storage_zero binary_length).
    rewrite <- zero_record. apply record_memory. apply zero_length.
  - intros ->. apply zero_record.
Qed.

(** A value that is not one of the type never makes a record that is not: storing
    it returns 1 and warns when the statement checks fields, and leaves NULL in a
    field with a null bit, in the others the smallest record, unless the table of the field may be
    NULL-complemented, when the record stays as it was; numbers and times store the smallest record. *)
Theorem invalid_value_stored chk f str : length (ptr f) = binary_length ->
  (if cs_binary (str_cs str) then Fbt_null_binary (str_bytes str) else Fbt_null_text (str_bytes str) (str_cs str)) = None ->
  exists f', Field_store chk f str = Some (1, f') /\ length (ptr f') = binary_length /\
    warnings f' = warnings f + Z.b2z (CHECK_FIELD_EXPRESSION <? chk) /\
    (if null_ptr f then is_null f' = true /\ ptr f' = ptr f
     else is_null f' = is_null f /\ if tab_maybe_null f then ptr f' = ptr f else forall r, length r = binary_length -> ptr f' = replicate binary_length x00 /\ Field_cmp (ptr f') r <= 0) /\
    ptr (store_other chk f).2 = replicate binary_length x00.
Proof.
  intros Hp Hs.
  assert (Field_store chk f str = Some (if maybe_null f then set_null_with_warn chk f else set_min_value_with_warn chk f)) as E.
  { unfold Field_store, store_binary, store_text. destruct (cs_binary (str_cs str)); by rewrite Hs. }
  assert (warnings (store_warning chk f) = warnings f + Z.b2z (CHECK_FIELD_EXPRESSION <? chk)) as Hw
    by (unfold store_warning; destruct (Z.leb_spec chk CHECK_FIELD_EXPRESSION) as [H|H], (Z.ltb_spec CHECK_FIELD_EXPRESSION chk); cbn; lia).
  assert (ptr (store_warning chk f) = ptr f /\ null_ptr (store_warning chk f) = null_ptr f /\ is_null (store_warning chk f) = is_null f) as (Wp & Wn & Wi)
    by (unfold store_warning; by destruct (chk <=? CHECK_FIELD_EXPRESSION)).
  assert (if null_ptr f then maybe_null f = true else maybe_null f = tab_maybe_null f) as Hm
    by (unfold maybe_null; by destruct (null_ptr f)).
  rewrite E. destruct (maybe_null f).
  - eexists. split; [done|]. cbn [set_null ptr warnings]. rewrite Wp. split; [done|]. split; [done|]. split; [|done].
    unfold is_null, set_null. cbn [ptr null_ptr null_bit tab_null_row]. rewrite Wn. destruct (null_ptr f) eqn:En; [done|]. rewrite <- Hm.
    split; [|done]. unfold is_null in Wi. by rewrite Wn, En in Wi.
  - eexists. split; [done|]. cbn [set_min_value with_ptr ptr warnings]. split; [apply length_replicate|]. split; [done|]. split; [|done].
    destruct (null_ptr f) eqn:En; [discriminate|]. split; [exact Wi|]. rewrite <- Hm. intros r Hr. split; [done|]. by apply memcmp_Z_min.
Qed.

(** ** Converted items *)

Lemma string_to_native_spec str : (string_to_native true str).1 = (make_from_character_or_binary_string str true).1.
Proof.
  unfold string_to_native, make_from_character_or_binary_string, Fbt_null_string, Fbt_null_text. destruct (cs_binary (str_cs str)); cbn [negb].
  - destruct (negb (length (str_bytes str) =? binary_length)%nat); done.
  - by destruct (character_string_to_fbt (str_bytes str) (str_cs str)).
Qed.
(** [Item_val_native_with_conversion] is the conversion of [Fbt_null]. *)
Lemma with_conversion_spec i : native_ok i -> Fbt_null_item i true = Some (Item_val_native_with_conversion true i).1.
Proof.
  intros Hi. unfold Fbt_null_item, make_from_item, Item_val_native_with_conversion. case_bool_decide as Eh.
  - destruct (it_native i) as [b|] eqn:En; [|done]. rewrite asserting_true by (apply Nat.eqb_eq; by apply Hi). done.
  - destruct (it_str i) as [str|]; [|done]. cbn [mbind option_bind]. by rewrite string_to_native_spec.
Qed.
Definition text_of (v : option bytes) : option String := b ← v; Some (mkStr (fbt_to_string b) latin1).

(** However an item is converted to the type the value is the same, with its text: by the
    cast, by a cache, on the first reading and on the next ones, after which the item is not
    evaluated again until the cache is cleared, by the literal that replaces a constant, NULL when it is
    NULL, and, for an item of the type, by a copy; the cast is
    declared nullable when the value is NULL. *)
Theorem converted_items_agree i u : native_ok i -> exists v, (forall b, v = Some b -> length b = binary_length) /\
  Item_typecast_val_native true i = Some v /\ Item_typecast_val_str true i = Some (text_of v) /\
  (exists c, Item_cache_val_native true (mkCache (Some i) false true u) = (v, c) /\ Item_cache_val_str true (mkCache (Some i) false true u) = (text_of v, c) /\
    value_cached c = true /\ Item_cache_val_native true c = (v, c) /\ Item_cache_val_str true c = (text_of v, c) /\
    Item_cache_val_native true (Item_cache_clear c) = (v, c)) /\
  make_const_item_for_comparison i = Some (match v with None => Item_null | Some b => Item_literal_fbt b end) /\
  (forall b, v = Some b -> Item_literal_val_native true b = v /\ Item_literal_val_str true b = text_of v) /\
  (it_handler i = H_fbt -> forall c, Item_copy_val_native true (copy i c) = v /\ Item_copy_val_str true (copy i c) = text_of v) /\
  (v = None -> it_handler i = H_fbt -> it_maybe_null i = true -> forall n, Item_typecast_fix_length_and_dec n i = Some true) /\
  (v = None -> it_handler i <> H_fbt -> forall n, Item_typecast_fix_length_and_dec n i = Some true).
Proof.
  intros Hi. pose proof (with_conversion_spec i Hi) as Hc. destruct (item_null_total i true Hi) as (v & Hv & Hl).
  assert ((Item_val_native_with_conversion true i).1 = v) as Ev by congruence. exists v.
  assert (forall b, v = Some b -> Fbt_null_binary b = Some b) as Hb
    by (intros b E; unfold Fbt_null_binary, binary_to_fbt; by rewrite (Hl b E), Nat.eqb_refl).
  split; [done|]. unfold Item_typecast_val_native, Item_typecast_val_str, make_const_item_for_comparison, Item_typecast_fix_length_and_dec, fix_fields_maybe_null_on_conversion_to_fbt.
  rewrite (item_null_warn i false), Hv. cbn [mbind option_bind].
  split; [by destruct v|]. split; [by destruct v|]. split.
  - exists (mkCache (Some i) true (match v with None => true | Some _ => false end) (default u v)).
    unfold Item_cache_val_native, Item_cache_val_str, has_value, cache_value. cbn [value_cached example cache_null cache_native Item_cache_clear]. rewrite Ev.
    destruct v as [b|]; cbn [andb negb default from_option id]; [|done].
    cbn [cache_null cache_native negb andb]. rewrite (Hb b eq_refl). done.
  - split; [done|]. split; [intros b ->; done|]. split; [|split].
    + intros Eh c. unfold Item_val_native_with_conversion in Ev. rewrite bool_decide_eq_true_2 in Ev by done. cbn [fst] in Ev.
      unfold copy, Item_copy_val_native, Item_copy_val_str. rewrite Ev. destruct v as [b|]; [|done]. cbn [copy_null copy_native]. by rewrite (Hb b eq_refl).
    + intros -> _ -> n. done.
    + intros -> Eh n. rewrite (bool_decide_eq_false_2 _ Eh). destruct (it_maybe_null i); [done|]. by destruct (negb (it_const i) || it_expensive i).
Qed.

(** The comparisons of two items agree: [Item_eq_value], the comparison of [IN] and of
    the simple [CASE], which is [UNKNOWN] when one of the two is NULL whatever the buffer of a value that was not
    converted holds, and that of a stored field, whose value is greater than an item exactly when the order of the type says so. *)
Theorem comparisons_agree i j u : native_ok i -> native_ok j -> exists v w c,
  Item_typecast_val_native true i = Some v /\ Item_typecast_val_native true j = Some w /\ cmp_store_value u i = Some c /\
  Item_eq_value i j = Some (match v, w with Some a, Some b => bool_decide (a = b) | _, _ => false end) /\
  cmp_item_cmp c j = Some (match v, w with Some a, Some b => Z.b2z (negb (bool_decide (a = b))) | _, _ => UNKNOWN end) /\
  (forall d b, cmp_store_value u j = Some d -> v <> None -> w = Some b -> cmp_item_compare c d = Fbt_cmp (m_native c) b) /\
  (forall a, v = Some a -> m_native c = a) /\
  (forall f a, v = Some a -> is_null f = false -> length (ptr f) = binary_length ->
    exists tmp r, val_native true f = Some tmp /\ stored_field_cmp_to_item tmp i = Some r /\ Z.sgn r = Field_cmp (ptr f) (memory_to_record a)).
Proof.
  intros Hi Hj. destruct (item_null_total i true Hi) as (v & Hv & Lv), (item_null_total j true Hj) as (w & Hw & Lw).
  destruct (item_value_total i true Hi) as ([v' n] & Ev & _).
  assert (v' = v) as -> by (unfold Fbt_null_item in Hv; rewrite Ev in Hv; cbn in Hv; congruence).
  exists v, w, (match v with Some b => mkCmp b false | None => mkCmp u true end).
  assert (forall a b c, v = Some a -> w = Some b -> Fbt_cmp a b = Some c -> (c =? 0) = bool_decide (a = b)) as Hz.
  { intros a b c Ea Eb Ec. pose proof (cmp_zero a b c (Lv a Ea) (Lw b Eb) Ec) as H.
    case_bool_decide as H'; [apply Z.eqb_eq | apply Z.eqb_neq]; tauto. }
  assert (forall a b, v = Some a -> w = Some b -> exists c, Fbt_cmp a b = Some c) as Ht
    by (intros a b Ea Eb; destruct (cmp_sgn a b (Lv a Ea) (Lw b Eb)) as (c & Hc & _); eauto).
  split; [unfold Item_typecast_val_native; rewrite Hv; by destruct v|].
  split; [unfold Item_typecast_val_native; rewrite Hw; by destruct w|].
  split; [unfold cmp_store_value; rewrite Ev; by destruct v|].
  split; [|split; [|split; [|split]]].
  - unfold Item_eq_value. rewrite Hv, Hw. cbn [mbind option_bind]. destruct v as [a|], w as [b|]; [|done..].
    destruct (Ht a b) as (c & Hc); [done..|]. rewrite Hc. cbn. by rewrite (Hz a b c).
  - unfold cmp_item_cmp. rewrite Hw. cbn [mbind option_bind]. destruct v as [a|], w as [b|]; [|done..]. cbn [m_null_value m_native].
    destruct (Ht a b) as (c & Hc); [done..|]. rewrite Hc. cbn. by rewrite (Hz a b c).
  - intros d b Ed Nv Eb. destruct v as [a|]; [|done]. unfold cmp_store_value in Ed. destruct (make_from_item j true) as [[w' m]|] eqn:Ej; [|done].
    assert (w' = w) as -> by (unfold Fbt_null_item in Hw; rewrite Ej in Hw; cbn in Hw; congruence). cbn in Ed. rewrite Eb in Ed. injection Ed as <-. done.
  - by intros a ->.
  - intros f a Ea Hn Hp. exists (Some (record_to_memory (ptr f))).
    destruct (cmp_sgn a (record_to_memory (ptr f))) as (c & Hc & Hs); [auto|by apply record_to_memory_length|].
    exists (- c). split; [unfold val_native; by rewrite asserting_true by (by rewrite Hn)|]. split.
    + unfold stored_field_cmp_to_item. rewrite Hv. cbn [mbind option_bind]. rewrite Ea, Hc. done.
    + rewrite Z.sgn_opp, Hs, memory_record, <- memcmp_Z_sym by done. done.
Qed.

(** ** The name of the cast *)

(** The name of the cast is not [cast_as_] and the name of the type: its length counts
    the terminating NUL byte and one byte more, which is never written. *)
Theorem cast_name_too_long u : (9 + length type_name + 1 <= length u)%nat ->
  length (func_name_cstring u) = (length (cast_as ++ type_name) + 2)%nat /\
  exists x, func_name_cstring u = cast_as ++ type_name ++ [x00; x] /\ u !! (9 + length type_name)%nat = Some x.
Proof.
  intros Hu. unfold func_name_cstring. destruct (lookup_lt_is_Some_2 u (9 + length type_name)) as [b Hb]; [lia|].
  assert (drop (length (cast_as ++ type_name ++ [x00])) (take (9 + length type_name + 1) u) = [b]) as ->.
  { rewrite <- (take_drop_middle u _ _ Hb) at 1. rewrite !length_app. cbn [length cast_as].
    rewrite take_app_ge by (rewrite length_take; lia). rewrite length_take, Nat.min_l by lia.
    rewrite drop_app_ge by (rewrite length_take; lia). rewrite length_take, Nat.min_l by lia.
    by replace (9 + length type_name + 1 - (9 + length type_name))%nat with 1%nat by lia; replace (8 + (length type_name + 1) - (9 + length type_name))%nat with 0%nat by lia. }
  split; [rewrite !length_app; cbn [length]; lia|]. exists b. split; [|done]. by rewrite <- !app_assoc.
Qed.
End Laws.

(** ** The default storage *)

(** A type with the default storage has the laws, if its text format has them. *)
Lemma default_laws n mc parse print hash name :
  (forall s b, parse s = Some b -> length b = n) -> (forall b, length b = n -> (length (print b) <= mc)%nat) ->
  (forall b, length b = n -> parse (print b) = Some b) -> FbtLaws (default_impl n mc parse print hash name).
Proof.
  intros Hp Hl Hr. split; cbn [binary_length max_char_length ascii_to_fbt fbt_to_string memory_to_record record_to_memory fbt_cmp default_impl];
    unfold storage_memory_to_record, storage_record_to_memory; auto.
  - intros b Hb. rewrite length_take. lia.
  - intros b Hb. rewrite length_take. lia.
  - intros b Hb. rewrite !take_ge; [done|lia|]. rewrite length_take. lia.
  - intros b Hb. rewrite !take_ge; [done|lia|]. rewrite length_take. lia.
  - apply take_ge. unfold storage_zero. rewrite length_replicate. lia.
  - intros a b Ha Hb. exists (memcmp_Z n a b). rewrite !take_ge by lia. split; [|apply memcmp_Z_sgn].
    unfold storage_cmp. rewrite !asserting_true by (by apply Nat.eqb_eq). cbn [mbind option_bind]. by rewrite Hb.
Qed.

(** ** Aggregation *)

(** The types that a fixed-size type is mixed with. *)
Definition mixable (h : handler) : bool :=
  match h with H_null | H_varchar | H_string | H_tiny_blob | H_blob | H_medium_blob | H_long_blob | H_hex_hybrid => true | _ => false end.

Lemma find_pairs_spec hs a b : a <> b ->
  find_handler_in_array ((λ h, (H_fbt, h, H_fbt)) <$> hs) a b true =
  if decide ((a = H_fbt /\ b ∈ hs) \/ (b = H_fbt /\ a ∈ hs)) then Some H_fbt else None.
Proof.
  intros Hab. induction hs as [|h hs IH]; cbn [fmap list_fmap find_handler_in_array].
  - rewrite decide_False; [done|]. intros [[_ H]|[_ H]]; by apply not_elem_of_nil in H.
  - cbn [andb].
    assert (N : ~ ((H_fbt = a /\ h = b) \/ (H_fbt = b /\ h = a)) -> (if decide ((a = H_fbt /\ b ∈ hs) \/ (b = H_fbt /\ a ∈ hs)) then Some H_fbt else None) =
      (if decide ((a = H_fbt /\ b ∈ h :: hs) \/ (b = H_fbt /\ a ∈ h :: hs)) then Some H_fbt else None)).
    { intros N. apply decide_ext. rewrite !elem_of_cons. naive_solver. }
    assert (Y : (H_fbt = a /\ h = b) \/ (H_fbt = b /\ h = a) -> Some H_fbt = (if decide ((a = H_fbt /\ b ∈ h :: hs) \/ (b = H_fbt /\ a ∈ h :: hs)) then Some H_fbt else None)).
    { intros Y. rewrite decide_True; [done|]. rewrite !elem_of_cons. naive_solver. }
    rewrite IH. repeat case_bool_decide; cbn [andb]; (apply Y; tauto) || (apply N; tauto).
Qed.

(** The type of a result of two types does not depend on their order: the type
    itself of two of it, the fixed-size type of it and NULL, a string, a blob or a
    hexadecimal literal, and otherwise none; what may be compared may be mixed, with
    the same type, and with numeric operators there is no type. *)
Theorem aggregation_spec a b :
  aggregate_for_result a b = aggregate_for_result b a /\ aggregate_for_comparison a b = aggregate_for_comparison b a /\
  aggregate_for_min_max a b = aggregate_for_result a b /\
  aggregate_for_result a b = (if decide (a = b) then Some a else if decide ((a = H_fbt /\ mixable b = true) \/ (b = H_fbt /\ mixable a = true)) then Some H_fbt else None) /\
  (forall h, aggregate_for_comparison a b = Some h -> aggregate_for_result a b = Some h) /\
  aggregate_for_num_op a b = None.
Proof.
  assert (forall h, h ∈ [H_null; H_varchar; H_string; H_tiny_blob; H_blob; H_medium_blob; H_long_blob; H_hex_hybrid] <-> mixable h = true) as Hm.
  { intros h. split; [intros H; repeat (apply elem_of_cons in H as [->|H]; [done|]); by apply not_elem_of_nil in H|]. destruct h; try done; intros _; set_solver. }
  assert (forall x y, aggregate_for_result x y = if decide (x = y) then Some x else if decide ((x = H_fbt /\ mixable y = true) \/ (y = H_fbt /\ mixable x = true)) then Some H_fbt else None) as Hr.
  { intros x y. unfold aggregate_for_result, aggregate_common, aggregate_if_string. case_bool_decide as E; [by rewrite decide_True by done|].
    rewrite (decide_False (P := x = y)) by done. rewrite find_pairs_spec by done. apply decide_ext. by rewrite !Hm. }
  assert (forall x y, aggregate_for_comparison x y = if decide (x = y) then Some x else if decide ((x = H_fbt /\ y ∈ [H_null; H_long_blob]) \/ (y = H_fbt /\ x ∈ [H_null; H_long_blob])) then Some H_fbt else None) as Hc.
  { intros x y. unfold aggregate_for_comparison, aggregate_common. case_bool_decide as E; [by rewrite decide_True by done|].
    rewrite (decide_False (P := x = y)) by done. by apply (find_pairs_spec [H_null; H_long_blob]). }
  rewrite !Hr, !Hc. split; [|split; [|split; [|split; [|split]]]]; try done.
  - destruct (decide (a = b)) as [->|N]; [by rewrite decide_True by done|]. rewrite (decide_False (P := b = a)) by congruence. apply decide_ext. tauto.
  - destruct (decide (a = b)) as [->|N]; [by rewrite decide_True by done|]. rewrite (decide_False (P := b = a)) by congruence. apply decide_ext. tauto.
  - intros h. destruct (decide (a = b)); [done|]. assert (forall h, h ∈ [H_null; H_long_blob] -> mixable h = true) as Hi by (intros ? H; repeat (apply elem_of_cons in H as [->|H]; [done|]); by apply not_elem_of_nil in H).
    destruct (decide _) as [Hd|]; [|done]. intros [= <-]. rewrite decide_True; [done|]. destruct Hd as [[? ?]|[? ?]]; auto.
Qed.

(** * Witnesses *)

(** Two bytes, which are their own text. *)
Definition sample : FbtImpl := default_impl 2 2 (λ s, if (length s =? 2)%nat then Some s else None) (λ b, b) (λ r nr, nr) [x74; x77; x6f].
Definition sample_laws : FbtLaws sample.
Proof.
  apply default_laws.
  - intros s b. destruct (length s =? 2)%nat eqn:E; [|done]. intros [= <-]. by apply Nat.eqb_eq.
  - intros b H. lia.
  - intros b H. by rewrite H.
Defined.
Definition sample_item (v : option bytes) : Item := mkItem H_fbt true false false v None.
Definition sample_text (v : option String) : Item := mkItem H_varchar true false false None v.
Definition sample_field : Field_fbt := mkField [x00; x00] true false false false 0.

Lemma sample_item_ok (v : option bytes) : match v with Some b => length b = 2%nat | None => True end -> @native_ok sample (sample_item v).
Proof. intros Hv _ b E. cbn in E. subst v. done. Defined.
Lemma sample_text_ok v : @native_ok sample (sample_text v).
Proof. intros E. discriminate E. Defined.

Lemma sort_keys_order_witness : exists ki kj, @make_sort_key_part sample 2 (sample_item None) = Some ki /\ @make_sort_key_part sample 2 (sample_item (Some [x00; x01])) = Some kj /\ memcmp_Z 3 ki kj = -1.
Proof.
  destruct (@sort_keys_order sample sample_laws (sample_item None) (sample_item (Some [x00; x01])) sample_field
    (sample_item_ok None I) (sample_item_ok (Some [x00; x01]) eq_refl) eq_refl eq_refl eq_refl eq_refl) as (ki & kj & Hi & Hj & _ & _ & E & _).
  exists ki, kj. split; [exact Hi|]. split; [exact Hj|]. cbn [null_first sample_item it_native] in E. injection E as E. exact (eq_sym E).
Defined.
Lemma field_roundtrip_witness : exists f', @Field_store sample 2 sample_field (mkStr [x41; x42] latin1) = Some (0, f') /\ @val_native sample true f' = Some (Some [x41; x42]).
Proof.
  destruct (@field_roundtrip sample sample_laws 2 sample_field [x41; x42] latin1 eq_refl eq_refl eq_refl) as (f' & _ & _ & Hs & _ & _ & _ & Hv & _); [done|].
  exists f'. by split.
Defined.
Lemma invalid_value_stored_witness : exists f', @Field_store sample 2 sample_field (mkStr [x41] latin1) = Some (1, f') /\ is_null f' = true /\ warnings f' = 1.
Proof.
  destruct (@invalid_value_stored sample 2 sample_field (mkStr [x41] latin1) eq_refl eq_refl) as (f' & Hs & _ & Hw & Hn & _).
  exists f'. split; [exact Hs|]. split; [exact (proj1 Hn)|exact Hw].
Defined.
Lemma converted_items_agree_witness : @Item_typecast_val_native sample true (sample_text (Some (mkStr [x41; x42] latin1))) = Some (Some [x41; x42]).
Proof.
  destruct (@converted_items_agree sample sample_laws (sample_text (Some (mkStr [x41; x42] latin1))) [] (sample_text_ok _)) as (v & _ & Hv & _ & _ & Hc & _).
  rewrite Hv. vm_compute in Hc. by destruct v as [b|]; simplify_eq.
Defined.
Lemma comparisons_agree_witness : exists c, @cmp_store_value sample [] (sample_text (Some (mkStr [x41; x42] latin1))) = Some c /\ @cmp_item_cmp sample c (sample_item (Some [x41; x42])) = Some 0.
Proof.
  destruct (@comparisons_agree sample sample_laws (sample_text (Some (mkStr [x41; x42] latin1))) (sample_item (Some [x41; x42])) [] (sample_text_ok _) (sample_item_ok (Some [x41; x42]) eq_refl))
    as (v & w & c & Hv & Hw & Hs & _ & Hc & _).
  exists c. split; [exact Hs|]. vm_compute in Hv, Hw. injection Hv as <-. injection Hw as <-. exact Hc.
Defined.
Lemma cast_name_too_long_witness : exists b, @func_name_cstring sample (replicate 13 x2a) = cast_as ++ [x74; x77; x6f] ++ [x00; b].
Proof. destruct (@cast_name_too_long sample (replicate 13 x2a)) as (_ & b & Hb & _); [cbn; lia|]. exists b. exact Hb. Defined.
