(* ===== verification/SqlSpatial.v ===== *)
(** Spatial values: [MBR], the reading of points of [Geometry] and [Gis_point] of
    [private/spatial.h], and the tokens of [Gis_read_stream] of [private/gstream.h].

    A coordinate is a [double] of [CDouble]; the order of the doubles of the machine is that of
    the integers [dval].  The data of a geometry is the list of its bytes, with a
    position in it; a stream is the bytes from [m_cur] to [m_limit]. *)

From Stdlib Require Import Floats.SpecFloat.
From S2P Require Import Prelude ByteOrder CDouble.

Abbreviation bytes := (list byte).

(** * Definitions *)

Definition SIZEOF_STORED_DOUBLE : Z := 8.
Definition POINT_DATA_SIZE : Z := SIZEOF_STORED_DOUBLE * 2.
Definition WKB_HEADER_SIZE : Z := 1 + 4.
Definition DBL_MAX : double := S754_finite false 9007199254740991 971.
Definition minus_DBL_MAX : double := S754_finite true 9007199254740991 971.

(** ** [MBR] *)

Record MBR := mkMBR { xmin : double; ymin : double; xmax : double; ymax : double }.
Implicit Types m mbr : MBR.
Definition dgt (x y : double) : bool := dlt y x.
Definition dge (x y : double) : bool := dle y x.
Definition MY_MAX (a b : double) : double := if dgt a b then a else b.
Definition MY_MIN (a b : double) : double := if dlt a b then a else b.

Definition MBR_new : MBR := mkMBR DBL_MAX DBL_MAX minus_DBL_MAX minus_DBL_MAX.
Definition add_xy (x y : double) m : MBR :=
  let m := if dlt x (xmin m) then mkMBR x (ymin m) (xmax m) (ymax m) else m in
  let m := if dgt x (xmax m) then mkMBR (xmin m) (ymin m) x (ymax m) else m in
  let m := if dlt y (ymin m) then mkMBR (xmin m) y (xmax m) (ymax m) else m in
  if dgt y (ymax m) then mkMBR (xmin m) (ymin m) (xmax m) y else m.
Definition add_mbr mbr m : MBR :=
  let m := if dlt (xmin mbr) (xmin m) then mkMBR (xmin mbr) (ymin m) (xmax m) (ymax m) else m in
  let m := if dgt (xmax mbr) (xmax m) then mkMBR (xmin m) (ymin m) (xmax mbr) (ymax m) else m in
  let m := if dlt (ymin mbr) (ymin m) then mkMBR (xmin m) (ymin mbr) (xmax m) (ymax m) else m in
  if dgt (ymax mbr) (ymax m) then mkMBR (xmin m) (ymin m) (xmax m) (ymax mbr) else m.
(** The constructors from two points and from two rectangles. *)
Definition MBR_points (min max : double * double) : MBR := mkMBR min.1 min.2 max.1 max.2.
Definition MBR_union m1 m2 : MBR := add_mbr m2 (mkMBR (xmin m1) (ymin m1) (xmax m1) (ymax m1)).
Definition buffer (d : double) m : MBR := mkMBR (dsub (xmin m) d) (dsub (ymin m) d) (dadd (xmax m) d) (dadd (ymax m) d).
Definition equals m mbr : bool := deq (xmin mbr) (xmin m) && deq (ymin mbr) (ymin m) && deq (xmax mbr) (xmax m) && deq (ymax mbr) (ymax m).
Definition disjoint m mbr : bool := dgt (xmin mbr) (xmax m) || dgt (ymin mbr) (ymax m) || dlt (xmax mbr) (xmin m) || dlt (ymax mbr) (ymin m).
Definition intersects m mbr : bool := negb (disjoint m mbr).
Definition touches m mbr : bool :=
  ((deq (xmin mbr) (xmax m) || deq (xmax mbr) (xmin m)) &&
   ((dge (ymin mbr) (ymin m) && dle (ymin mbr) (ymax m)) || (dge (ymax mbr) (ymin m) && dle (ymax mbr) (ymax m)))) ||
  ((deq (ymin mbr) (ymax m) || deq (ymax mbr) (ymin m)) &&
   ((dge (xmin mbr) (xmin m) && dle (xmin mbr) (xmax m)) || (dge (xmax mbr) (xmin m) && dle (xmax mbr) (xmax m)))).
Definition contains m mbr : bool := dge (xmin mbr) (xmin m) && dge (ymin mbr) (ymin m) && dle (xmax mbr) (xmax m) && dle (ymax mbr) (ymax m).
Definition inner_point m (x y : double) : bool := dlt (xmin m) x && dgt (xmax m) x && dlt (ymin m) y && dgt (ymax m) y.
Definition dimension m : Z :=
  let d := 0 in
  if dgt (xmin m) (xmax m) then -1
  else let d := if dlt (xmin m) (xmax m) then d + 1 else d in
    if dgt (ymin m) (ymax m) then -1
    else if dlt (ymin m) (ymax m) then d + 1 else d.
(** [within] is only declared. *)
Definition overlaps (within : MBR -> MBR -> bool) m mbr : bool :=
  let d := dimension m in
  if negb (d =? dimension mbr) || (d <=? 0) || contains m mbr || within m mbr then false
  else let intersection := mkMBR (MY_MAX (xmin m) (xmin mbr)) (MY_MAX (ymin m) (ymin mbr)) (MY_MIN (xmax m) (xmax mbr)) (MY_MIN (ymax m) (ymax mbr)) in
    d =? dimension intersection.
Definition MBR_valid m : bool := dle (xmin m) (xmax m) && dle (ymin m) (ymax m).

(** ** The data of a geometry *)

(** [float8get]: the eight bytes at [i], lowest first, as the bits of a [double]. *)
Definition double_of_bits (b : Z) : double :=
  let s := Z.testbit b 63 in
  let e := (b / 2 ^ 52) mod 2 ^ 11 in
  let f := b mod 2 ^ 52 in
  if e =? 2047 then (if f =? 0 then S754_infinity s else S754_nan)
  else if e =? 0 then (if f =? 0 then S754_zero s else S754_finite s (Z.to_pos f) (-1074))
  else S754_finite s (Z.to_pos (f + 2 ^ 52)) (e - 1075).
Definition float8get (data : bytes) (i : nat) : double := double_of_bits (X86_64.uint8korr data i).

(** [m_data] with its bytes up to [m_data_end], and a position from [m_data]. *)
Definition no_data (m_data : bytes) (cur amount : Z) : bool := Z.of_nat (length m_data) <? cur + amount.
Definition not_enough_points (m_data : bytes) (data expected_points extra_point_space : Z) : bool :=
  (Z.of_nat (length m_data) <? data) ||
  ((Z.of_nat (length m_data) - data) ÷ uwrap 32 (POINT_DATA_SIZE + extra_point_space) <? expected_points).
Definition shift_wkb_header (m_data : bytes) : bytes := drop (Z.to_nat WKB_HEADER_SIZE) m_data.
(** [None] for an error. *)
Definition get_xy (m_data : bytes) : option (double * double) :=
  if no_data m_data 0 (SIZEOF_STORED_DOUBLE * 2) then None else Some (float8get m_data 0, float8get m_data 8).
Definition get_x (m_data : bytes) : option double := if no_data m_data 0 SIZEOF_STORED_DOUBLE then None else Some (float8get m_data 0).
Definition get_y (m_data : bytes) : option double := if no_data m_data 0 (SIZEOF_STORED_DOUBLE * 2) then None else Some (float8get m_data 8).
(** [pi] is [M_PI]. *)
Definition get_xy_radian (pi : double) (m_data : bytes) : option (double * double) :=
  match get_xy m_data with
  | Some (x, y) => Some (ddiv (dmul x pi) (Zdouble 180), ddiv (dmul y pi) (Zdouble 180))
  | None => None
  end.
(** [add_xy] of stored coordinates. *)
Definition add_stored_xy (px py : bytes) m : MBR := add_xy (float8get px 0) (float8get py 0) m.
Definition find_class {A} (ci_collection : Z -> A) (type_id : Z) : option A :=
  if (type_id <? 1) || (7 <? type_id) then None else Some (ci_collection type_id).

(** ** [Gis_read_stream] *)

Section Stream.
(** [my_isspace] of latin1. *)
Context (my_isspace : byte -> bool).
Fixpoint skip_space (s : bytes) : bytes := match s with [] => [] | c :: s' => if my_isspace c then skip_space s' else s end.
(** [true] when the character was not found. *)
Definition skip_char (skip : byte) (s : bytes) : bool * bytes :=
  match skip_space s with [] => (true, []) | c :: s' => if negb (byteZ c =? byteZ skip) then (true, c :: s') else (false, s') end.
Definition next_symbol (s : bytes) : Z * bytes := match skip_space s with [] => (0, []) | c :: s' => (byteZ c, c :: s') end.
End Stream.

(** * The order of the doubles *)

Definition number (x : double) : bool := valid_binary dprec demax x && match x with S754_nan => false | _ => true end.
Definition finite (x : double) : bool := valid_binary dprec demax x && match x with S754_nan | S754_infinity _ => false | _ => true end.
(** A number that is even and above every finite one. *)
Definition infinity_sig : { i : Z | 2 ^ 6999 < i /\ exists k, i = 2 * k }.
Proof. exists (2 ^ 7000). split; [done|]. by exists (2 ^ 6999). Qed.
Definition infinity_val : Z := proj1_sig infinity_sig.
Definition sgn (s : bool) (z : Z) : Z := if s then - z else z.
Definition dval (x : double) : Z :=
  match x with
  | S754_zero _ | S754_nan => 0
  | S754_infinity s => sgn s infinity_val
  | S754_finite s m e => sgn s (scaled (Zpos m) e)
  end.

Lemma bounded_spec (m : positive) e : bounded dprec demax m e = true ->
  e = Z.max (Z.log2 (Zpos m) + 1 + e - 53) (-1074) /\ e <= 971.
Proof.
  unfold bounded, canonical_mantissa, fexp, emin. rewrite digits2_pos_log. intros H. apply andb_prop in H as [H1 H2].
  apply Z.eqb_eq in H1. apply Z.leb_le in H2. unfold dprec, demax in *. lia.
Qed.
Lemma scaled_range (m : positive) e : bounded dprec demax m e = true -> exists k, scaled (Zpos m) e = 2 * k /\ 0 < k /\ scaled (Zpos m) e <= dval DBL_MAX.
Proof.
  intros H. apply bounded_spec in H as [He Hm]. exists (Zpos m * 2 ^ (e + K - 1)).
  assert (0 < Zpos m < 2 ^ 53) as Hl by (split; [lia|]; apply Z.log2_lt_pow2; lia).
  assert (0 <= e + K - 1) by (unfold K; lia).
  assert (2 ^ (e + K) = 2 * 2 ^ (e + K - 1)) as E by (rewrite <- Z.pow_succ_r by lia; f_equal; lia).
  unfold scaled. rewrite E.
  assert (0 < 2 ^ (e + K - 1)) by (apply Z.pow_pos_nonneg; lia).
  split; [ring|]. split; [nia|]. change (dval DBL_MAX) with (scaled 9007199254740991 971). unfold scaled.
  assert (2 * 2 ^ (e + K - 1) <= 2 ^ (971 + K)) as Hp by (rewrite <- Z.pow_succ_r by lia; apply Z.pow_le_mono_r; lia).
  change (2 ^ 53) with 9007199254740992 in Hl. apply Z.mul_le_mono_nonneg; lia.
Qed.
Lemma scaled_lt (m m' : positive) e e' : bounded dprec demax m e = true -> bounded dprec demax m' e' = true -> e < e' -> scaled (Zpos m) e < scaled (Zpos m') e'.
Proof.
  intros H H' Hlt. apply bounded_spec in H as [He _], H' as [He' _].
  assert (Z.log2 (Zpos m') = 52) as Hl by lia. assert (Zpos m < 2 ^ 53) as Hm by (apply Z.log2_lt_pow2; lia).
  assert (2 ^ 52 <= Zpos m') as Hm' by (rewrite <- Hl; apply Z.log2_spec; lia).
  unfold scaled. replace (e' + K) with (Z.succ (e + K) + (e' - e - 1)) by lia.
  assert (0 <= e + K) by (unfold K; lia). rewrite (Z.pow_add_r 2 (Z.succ (e + K))), Z.pow_succ_r by lia.
  assert (0 < 2 ^ (e + K)) by (apply Z.pow_pos_nonneg; lia). assert (1 <= 2 ^ (e' - e - 1)) by (assert (0 < 2 ^ (e' - e - 1)) by (apply Z.pow_pos_nonneg; lia); lia).
  change (2 ^ 53) with (2 * 2 ^ 52) in Hm.
  apply Z.lt_le_trans with (2 * 2 ^ 52 * 2 ^ (e + K)); [by apply Z.mul_lt_mono_pos_r|].
  replace (2 * 2 ^ 52 * 2 ^ (e + K)) with (2 ^ 52 * (2 * 2 ^ (e + K) * 1)) by ring. apply Z.mul_le_mono_nonneg; [lia|done|lia|].
  apply Z.mul_le_mono_nonneg_l; lia.
Qed.
Lemma scaled_compare (m m' : positive) e e' : bounded dprec demax m e = true -> bounded dprec demax m' e' = true ->
  (scaled (Zpos m) e ?= scaled (Zpos m') e') = match e ?= e' with Eq => (m ?= m')%positive | c => c end.
Proof.
  intros H H'. destruct (Z.compare_spec e e') as [<-|L|L].
  - unfold scaled. assert (0 < 2 ^ (e + K)) by (apply bounded_spec in H as [H _]; apply Z.pow_pos_nonneg; unfold K; lia).
    rewrite <- Zmult_compare_compat_r by lia. done.
  - apply Z.compare_lt_iff. by apply scaled_lt.
  - apply Z.compare_gt_iff. by apply scaled_lt.
Qed.
Lemma dval_max_inf : 0 < dval DBL_MAX < infinity_val.
Proof.
  change (dval DBL_MAX) with (scaled 9007199254740991 971). unfold scaled, K. change (971 + 5000) with 5971.
  assert (0 < 2 ^ 5971) as Hp by (by apply Z.pow_pos_nonneg). split; [lia|].
  apply Z.lt_trans with (2 ^ 6999); [|exact (proj1 (proj2_sig infinity_sig))].
  apply Z.lt_le_trans with (2 ^ 53 * 2 ^ 5971); [by apply Z.mul_lt_mono_pos_r|].
  rewrite <- Z.pow_add_r by lia. by apply Z.pow_le_mono_r.
Qed.
Lemma dval_zero s : dval (S754_zero s) = 0.
Proof. done. Qed.
Lemma dval_infinity s : dval (S754_infinity s) = sgn s infinity_val.
Proof. done. Qed.
Lemma dval_number s (m : positive) e : bounded dprec demax m e = true ->
  dval (S754_finite s m e) = sgn s (scaled (Zpos m) e) /\ 0 < scaled (Zpos m) e <= dval DBL_MAX /\ (exists k, scaled (Zpos m) e = 2 * k).
Proof. intros H. destruct (scaled_range m e H) as (k & Hk & Hp & Hm). split; [done|]. split; [lia|by exists k]. Qed.
#[local] Opaque dval scaled.

Lemma finite_number x : finite x = true -> number x = true.
Proof. unfold finite, number. destruct x; rewrite ?andb_true_r, ?andb_false_r; done. Qed.
(** The integers of the doubles are even, so that there is one between any two of them. *)
Lemma dval_even x : number x = true -> exists k, dval x = 2 * k.
Proof.
  unfold number. destruct x as [s|s| |s m e]; cbn [valid_binary]; rewrite ?andb_true_r, ?andb_false_r; intros H; [by exists 0| |done|].
  - rewrite dval_infinity. destruct (proj2 (proj2_sig infinity_sig)) as [k Hk]. fold infinity_val in Hk. exists (sgn s k). destruct s; cbn [sgn]; lia.
  - destruct (dval_number s m e H) as (-> & _ & k & Hk). exists (sgn s k). destruct s; cbn [sgn]; lia.
Qed.
Lemma dval_finite x : finite x = true -> - dval DBL_MAX <= dval x <= dval DBL_MAX.
Proof.
  pose proof dval_max_inf. unfold finite.
  destruct x as [s|s| |s m e]; cbn [valid_binary]; rewrite ?andb_true_r, ?andb_false_r; intros H1; [rewrite dval_zero; lia|discriminate|discriminate|].
  destruct (dval_number s m e H1) as (-> & Hp & _). destruct s; cbn [sgn]; lia.
Qed.
Ltac sign_compare := first [apply Z.compare_eq_iff; lia|apply Z.compare_lt_iff; lia|apply Z.compare_gt_iff; lia].
Lemma SFcompare_dval x y : number x = true -> number y = true -> SFcompare x y = Some (dval x ?= dval y).
Proof.
  pose proof dval_max_inf as Hi. unfold number.
  destruct x as [s|s| |s m e], y as [s'|s'| |s' m' e']; cbn [valid_binary]; rewrite ?andb_true_r, ?andb_false_r; intros Hx Hy; try discriminate;
    cbn [SFcompare]; f_equal; rewrite ?dval_infinity, ?dval_zero; symmetry;
    try (destruct (dval_number s m e Hx) as (-> & Hp & _)); try (destruct (dval_number s' m' e' Hy) as (-> & Hp' & _)).
  all: try solve [repeat match goal with b : bool |- _ => destruct b end; cbn [sgn]; sign_compare].
  destruct s, s'; cbn [sgn]; [|sign_compare|sign_compare|].
  - rewrite Z.compare_opp, (Z.compare_antisym (scaled (Zpos m) e)), scaled_compare by done. by destruct (e ?= e').
  - rewrite scaled_compare by done. by destruct (e ?= e').
Qed.
Lemma dlt_dval x y : number x = true -> number y = true -> dlt x y = (dval x <? dval y).
Proof. intros Hx Hy. unfold dlt, SFltb. rewrite SFcompare_dval by done. unfold Z.ltb. by destruct (dval x ?= dval y). Qed.
Lemma dle_dval x y : number x = true -> number y = true -> dle x y = (dval x <=? dval y).
Proof. intros Hx Hy. unfold dle, SFleb. rewrite SFcompare_dval by done. unfold Z.leb. by destruct (dval x ?= dval y). Qed.
Lemma deq_dval x y : number x = true -> number y = true -> deq x y = (dval x =? dval y).
Proof. intros Hx Hy. unfold deq, SFeqb. rewrite SFcompare_dval by done. rewrite Z.eqb_compare. by destruct (dval x ?= dval y). Qed.

(** * Rectangles as sets of points *)

Record numbers m : Prop := { num_xmin : number (xmin m) = true; num_ymin : number (ymin m) = true; num_xmax : number (xmax m) = true; num_ymax : number (ymax m) = true }.
(** The points of a rectangle, of its interior and their coordinates on the scale of [dval]. *)
Definition covers m (p : Z * Z) : Prop := dval (xmin m) <= p.1 <= dval (xmax m) /\ dval (ymin m) <= p.2 <= dval (ymax m).
Definition interior m (p : Z * Z) : Prop := dval (xmin m) < p.1 < dval (xmax m) /\ dval (ymin m) < p.2 < dval (ymax m).

Ltac mbr_compare :=
  unfold MBR_valid, contains, intersects, disjoint, equals, touches, inner_point, dgt, dge in *;
  repeat first [rewrite dlt_dval in * by (auto using num_xmin, num_ymin, num_xmax, num_ymax)
               |rewrite dle_dval in * by (auto using num_xmin, num_ymin, num_xmax, num_ymax)
               |rewrite deq_dval in * by (auto using num_xmin, num_ymin, num_xmax, num_ymax)].
(** A case for each way in which a disjunction holds. *)
Ltac naive_lia := repeat match goal with H : _ \/ _ |- _ => destruct H | H : _ /\ _ |- _ => destruct H end; lia.
(** Names for the coordinates. *)
Ltac mbr_coordinates m :=
  let a := fresh "x1" in let b := fresh "y1" in let c := fresh "x2" in let d := fresh "y2" in
  set (a := dval (xmin m)) in *; set (b := dval (ymin m)) in *; set (c := dval (xmax m)) in *; set (d := dval (ymax m)) in *; clearbody a b c d.
Lemma valid_spec m : numbers m -> MBR_valid m = true <-> dval (xmin m) <= dval (xmax m) /\ dval (ymin m) <= dval (ymax m).
Proof. intros H. mbr_compare. lia. Qed.

(** There is a point between any two different coordinates. *)
Lemma between_even x y : number x = true -> number y = true -> dval x < dval y -> dval x + 1 < dval y.
Proof. intros Hx Hy. destruct (dval_even x Hx) as [k ->], (dval_even y Hy) as [l ->]. lia. Qed.
Lemma dval_between m : numbers m ->
  (dval (xmin m) < dval (xmax m) -> dval (xmin m) + 1 < dval (xmax m)) /\ (dval (ymin m) < dval (ymax m) -> dval (ymin m) + 1 < dval (ymax m)).
Proof. intros []. split; by apply between_even. Qed.

Lemma max_min_gap u v w t : (u < v -> u + 1 < v) -> (u < t -> u + 1 < t) -> (w < v -> w + 1 < v) -> (w < t -> w + 1 < t) ->
  Z.max u w < Z.min v t -> u < Z.max u w + 1 < v /\ w < Z.max u w + 1 < t.
Proof. intros. destruct (Z.max_spec u w) as [[? ->]|[? ->]]; lia. Qed.
Lemma dval_cross a b : numbers a -> numbers b ->
  (dval (xmin a) < dval (xmax b) -> dval (xmin a) + 1 < dval (xmax b)) /\ (dval (xmin b) < dval (xmax a) -> dval (xmin b) + 1 < dval (xmax a)) /\
  (dval (ymin a) < dval (ymax b) -> dval (ymin a) + 1 < dval (ymax b)) /\ (dval (ymin b) < dval (ymax a) -> dval (ymin b) + 1 < dval (ymax a)) /\
  (dval (xmin a) < dval (xmax a) -> dval (xmin a) + 1 < dval (xmax a)) /\ (dval (xmin b) < dval (xmax b) -> dval (xmin b) + 1 < dval (xmax b)) /\
  (dval (ymin a) < dval (ymax a) -> dval (ymin a) + 1 < dval (ymax a)) /\ (dval (ymin b) < dval (ymax b) -> dval (ymin b) + 1 < dval (ymax b)).
Proof. intros [] []. repeat split; by apply between_even. Qed.

(** C19.  The tests on valid rectangles of numbers are those on the closed sets of points
    that they cover: equality, disjunction and intersection, inclusion, and the points of
    the interior; the dimension is 2 exactly when there is an interior, and 0 when there is one point. *)
Theorem relations_are_geometric a b : numbers a -> numbers b -> MBR_valid a = true -> MBR_valid b = true ->
  (equals a b = true <-> forall p, covers a p <-> covers b p) /\
  (disjoint a b = true <-> forall p, ~ (covers a p /\ covers b p)) /\
  (intersects a b = true <-> exists p, covers a p /\ covers b p) /\
  (contains a b = true <-> forall p, covers b p -> covers a p) /\
  (forall x y, number x = true -> number y = true -> inner_point a x y = true <-> interior a (dval x, dval y)) /\
  (dimension a = 2 <-> exists p, interior a p) /\ (dimension a = 0 <-> forall p q, covers a p -> covers a q -> p = q) /\
  (0 <= dimension a <= 2).
Proof.
  intros Ha Hb Va Vb. apply valid_spec in Va; [|done]. apply valid_spec in Vb; [|done]. unfold covers, interior.
  assert (0 <= dimension a <= 2 /\ (dimension a = 2 <-> dval (xmin a) < dval (xmax a) /\ dval (ymin a) < dval (ymax a)) /\
          (dimension a = 0 <-> dval (xmin a) = dval (xmax a) /\ dval (ymin a) = dval (ymax a))) as (D1 & D2 & D0).
  { unfold dimension. mbr_compare. mbr_coordinates a. repeat case_match; lia. }
  assert (forall x y, number x = true -> number y = true -> inner_point a x y = true <-> dval (xmin a) < dval x < dval (xmax a) /\ dval (ymin a) < dval y < dval (ymax a)) as Hin
    by (intros x y Hx Hy; mbr_compare; lia).
  rewrite D2, D0. pose proof (dval_between a Ha) as (Bx & By). mbr_compare. mbr_coordinates a. mbr_coordinates b. split; [|split; [|split; [|split; [|split; [|split; [|split]]]]]].
  - split; [intros H p; lia|]. intros H. pose proof (H (x1, y1)). pose proof (H (x2, y2)). pose proof (H (x0, y0)). pose proof (H (x3, y3)). cbn [fst snd] in *. lia.
  - split; [intros H p; lia|]. intros H. pose proof (H (Z.max x1 x0, Z.max y1 y0)). cbn [fst snd] in *. lia.
  - split; [|intros (p & H); lia]. intros H. exists (Z.max x1 x0, Z.max y1 y0). cbn [fst snd]. lia.
  - split; [intros H p; lia|]. intros H. pose proof (H (x0, y0)). pose proof (H (x3, y3)). cbn [fst snd] in *. lia.
  - exact Hin.
  - split; [intros H; exists (x1 + 1, y1 + 1); cbn [fst snd]; lia|intros (p & H); lia].
  - split; [intros H [p p'] [q q'] Hp Hq; cbn [fst snd] in *; f_equal; lia|].
    intros H. pose proof (H (x1, y1) (x2, y2)) as E. cbn [fst snd] in E. assert ((x1, y1) = (x2, y2)) as [= -> ->] by (apply E; lia). done.
  - done.
Qed.

Lemma touches_spec a b : numbers a -> numbers b -> touches a b = true <->
  let x1 := dval (xmin a) in let y1 := dval (ymin a) in let x2 := dval (xmax a) in let y2 := dval (ymax a) in
  let x3 := dval (xmin b) in let y3 := dval (ymin b) in let x4 := dval (xmax b) in let y4 := dval (ymax b) in
  (x3 = x2 \/ x4 = x1) /\ (y1 <= y3 <= y2 \/ y1 <= y4 <= y2) \/ (y3 = y2 \/ y4 = y1) /\ (x1 <= x3 <= x2 \/ x1 <= x4 <= x2).
Proof.
  intros Ha Hb. mbr_compare. rewrite !orb_true_iff, !andb_true_iff, !orb_true_iff, !andb_true_iff, !Z.eqb_eq, !Z.leb_le. done.
Qed.

(** [touches] tells rectangles that meet without a common interior point, but it is not
    symmetric: it looks whether an end of the other rectangle's side is in its own, and
    misses a side that its own is in.  For rectangles with an interior the test in either
    direction is exact. *)
Theorem touches_one_way a b : numbers a -> numbers b -> MBR_valid a = true -> MBR_valid b = true ->
  (touches a b = true -> (exists p, covers a p /\ covers b p) /\ forall p, ~ (interior a p /\ interior b p)) /\
  (dimension a = 2 -> dimension b = 2 ->
    touches a b || touches b a = true <-> (exists p, covers a p /\ covers b p) /\ forall p, ~ (interior a p /\ interior b p)) /\
  (exists c d, numbers c /\ numbers d /\ dimension c = 2 /\ dimension d = 2 /\ touches c d = false /\ touches d c = true).
Proof.
  intros Ha Hb Va Vb.
  assert (forall m, numbers m -> MBR_valid m = true -> dimension m = 2 -> dval (xmin m) < dval (xmax m) /\ dval (ymin m) < dval (ymax m)) as D2.
  { intros m Hm Vm. unfold dimension. mbr_compare. mbr_coordinates m. repeat case_match; lia. }
  pose proof (D2 a Ha Va) as Da. pose proof (D2 b Hb Vb) as Db. clear D2.
  apply valid_spec in Va; [|done]. apply valid_spec in Vb; [|done]. unfold covers, interior. rewrite orb_true_iff, !touches_spec by done. cbv zeta.
  pose proof (dval_cross a b Ha Hb) as Hc. mbr_coordinates a. mbr_coordinates b. split; [|split].
  - intros H. split; [exists (Z.max x1 x0, Z.max y1 y0); cbn [fst snd]; clear Hc; naive_lia|intros p; clear Hc; naive_lia].
  - intros Ea Eb. specialize (Da Ea). specialize (Db Eb). split.
    + intros H. split; [exists (Z.max x1 x0, Z.max y1 y0); cbn [fst snd]; clear Hc; naive_lia|intros p; clear Hc; naive_lia].
    + intros ((p & Hp) & Hn). pose proof (Hn (Z.max x1 x0 + 1, Z.max y1 y0 + 1)) as Hn'. cbn [fst snd] in Hn'.
      assert (x0 = x2 \/ x3 = x1 \/ y0 = y2 \/ y3 = y1) as He by lia. clear Hn Hn' Hc. destruct He as [He|[He|[He|He]]]; lia.
  - set (r x y x' y' := mkMBR (Zdouble x) (Zdouble y) (Zdouble x') (Zdouble y')).
    exists (r 0 1 1 2), (r 1 0 2 3). repeat split; vm_compute; done.
Qed.

Lemma MY_MAX_dval x y : number x = true -> number y = true -> number (MY_MAX x y) = true /\ dval (MY_MAX x y) = Z.max (dval x) (dval y).
Proof. intros Hx Hy. unfold MY_MAX, dgt. rewrite dlt_dval by done. destruct (Z.ltb_spec (dval y) (dval x)); split; try done; lia. Qed.
Lemma MY_MIN_dval x y : number x = true -> number y = true -> number (MY_MIN x y) = true /\ dval (MY_MIN x y) = Z.min (dval x) (dval y).
Proof. intros Hx Hy. unfold MY_MIN. rewrite dlt_dval by done. destruct (Z.ltb_spec (dval x) (dval y)); split; try done; lia. Qed.
Definition dim_Z (x1 y1 x2 y2 : Z) : Z := if x2 <? x1 then -1 else if y2 <? y1 then -1 else Z.b2z (x1 <? x2) + Z.b2z (y1 <? y2).
Lemma dim_Z_2 x1 y1 x2 y2 : dim_Z x1 y1 x2 y2 = 2 <-> x1 < x2 /\ y1 < y2.
Proof. unfold dim_Z. destruct (Z.ltb_spec x2 x1), (Z.ltb_spec y2 y1), (Z.ltb_spec x1 x2), (Z.ltb_spec y1 y2); cbn [Z.b2z]; lia. Qed.
Lemma dim_Z_pos x1 y1 x2 y2 : 1 <= dim_Z x1 y1 x2 y2 -> x1 <= x2 /\ y1 <= y2.
Proof. unfold dim_Z. destruct (Z.ltb_spec x2 x1), (Z.ltb_spec y2 y1); lia. Qed.
Lemma dimension_dval m : numbers m -> dimension m = dim_Z (dval (xmin m)) (dval (ymin m)) (dval (xmax m)) (dval (ymax m)).
Proof. intros H. unfold dimension, dim_Z. mbr_compare. mbr_coordinates m. repeat case_match; cbn [Z.b2z]; lia. Qed.
Definition intersection a b : MBR := mkMBR (MY_MAX (xmin a) (xmin b)) (MY_MAX (ymin a) (ymin b)) (MY_MIN (xmax a) (xmax b)) (MY_MIN (ymax a) (ymax b)).
Lemma intersection_dimension a b : numbers a -> numbers b -> dimension (intersection a b) =
  dim_Z (Z.max (dval (xmin a)) (dval (xmin b))) (Z.max (dval (ymin a)) (dval (ymin b))) (Z.min (dval (xmax a)) (dval (xmax b))) (Z.min (dval (ymax a)) (dval (ymax b))).
Proof.
  intros [] [].
  destruct (MY_MAX_dval (xmin a) (xmin b)) as [? E1], (MY_MAX_dval (ymin a) (ymin b)) as [? E2], (MY_MIN_dval (xmax a) (xmax b)) as [? E3], (MY_MIN_dval (ymax a) (ymax b)) as [? E4]; try done.
  rewrite dimension_dval by done. unfold intersection. cbn [xmin ymin xmax ymax]. by rewrite E1, E2, E3, E4.
Qed.
Lemma overlaps_spec within a b : overlaps within a b = true <->
  dimension a = dimension b /\ 1 <= dimension a /\ contains a b = false /\ within a b = false /\ dimension a = dimension (intersection a b).
Proof.
  unfold overlaps. fold (intersection a b). rewrite <- not_true_iff_false, <- (not_true_iff_false (within a b)).
  destruct (dimension a =? dimension b) eqn:E, (dimension a <=? 0) eqn:E2, (contains a b), (within a b); cbn [negb orb]; rewrite ?Z.eqb_eq; lia || naive_solver lia.
Qed.

(** [overlaps] on valid rectangles: they have the same dimension, 1 or 2, common points, and neither is in
    the other; with dimension 2 it is that, and common points of the interiors;
    it is symmetric when [within] is [contains] the other way. *)
Theorem overlaps_common_interior within a b : numbers a -> numbers b -> MBR_valid a = true -> MBR_valid b = true ->
  (overlaps within a b = true -> dimension a = dimension b /\ 1 <= dimension a /\ contains a b = false /\ within a b = false /\ exists p, covers a p /\ covers b p) /\
  (dimension a = 2 -> dimension b = 2 ->
    overlaps within a b = true <-> (exists p, interior a p /\ interior b p) /\ contains a b = false /\ within a b = false) /\
  (within a b = contains b a -> within b a = contains a b -> overlaps within a b = overlaps within b a).
Proof.
  intros Ha Hb Va Vb. pose proof (overlaps_spec within a b) as Ho. pose proof (overlaps_spec within b a) as Ho'.
  rewrite (dimension_dval a), (dimension_dval b), intersection_dimension in Ho, Ho' by done. rewrite (dimension_dval a), (dimension_dval b) by done.
  apply valid_spec in Va; [|done]. apply valid_spec in Vb; [|done]. unfold covers, interior. pose proof (dval_cross a b Ha Hb) as Hc.
  set (ca := contains a b) in *. set (cb := contains b a) in *. set (o := overlaps within a b) in *. set (o' := overlaps within b a) in *. clearbody ca cb o o'.
  mbr_coordinates a. mbr_coordinates b. split; [|split].
  - intros H. apply Ho in H as (H1 & H2 & H3 & H4 & H5). do 4 (split; [done|]). clear Ho Ho' Hc. rewrite H5 in H2. clear H1 H5. exists (Z.max x1 x0, Z.max y1 y0). cbn [fst snd].
    apply dim_Z_pos in H2. lia.
  - intros Da Db. rewrite Ho. clear Ho Ho'. split.
    + intros (H1 & H2 & H3 & H4 & H5). split; [|done]. exists (Z.max x1 x0 + 1, Z.max y1 y0 + 1). cbn [fst snd].
      rewrite Da in H5. symmetry in H5. apply dim_Z_2 in H5. destruct H5 as [H5 H6]. clear Da Db H1 H2 H3 H4.
      destruct Hc as (C1 & C2 & C3 & C4 & C5 & C6 & C7 & C8).
      destruct (max_min_gap x1 x2 x0 x3 C5 C1 C2 C6 H5), (max_min_gap y1 y2 y0 y3 C7 C3 C4 C8 H6). done.
    + intros ((p & Hp & Hq) & H3 & H4). split; [lia|]. split; [lia|]. split; [done|]. split; [done|]. rewrite Da. symmetry. apply dim_Z_2. lia.
  - intros Hw Hw'. apply eq_true_iff_eq. rewrite Ho, Ho', Hw, Hw'. clear Ho Ho' Hw Hw' Hc.
    rewrite (Z.max_comm x0), (Z.max_comm y0), (Z.min_comm x3), (Z.min_comm y3). intuition congruence || lia.
Qed.

(** ** Rectangles of points *)

Definition add_point m (p : double * double) : MBR := add_xy p.1 p.2 m.
(** The rectangle of these points: [add_xy] of each to a new one. *)
Definition mbr_of (ps : list (double * double)) : MBR := fold_left add_point ps MBR_new.
Definition finite_point (p : double * double) : Prop := finite p.1 = true /\ finite p.2 = true.
Definition point_of (p : double * double) : Z * Z := (dval p.1, dval p.2).

Lemma DBL_MAX_number : number DBL_MAX = true /\ number minus_DBL_MAX = true.
Proof. split; vm_compute; done. Qed.
Lemma numbers_new : numbers MBR_new.
Proof. destruct DBL_MAX_number. by split. Qed.
Lemma minus_DBL_MAX_dval : dval minus_DBL_MAX = - dval DBL_MAX.
Proof. done. Qed.
(** The number that a test keeps, below or above the other. *)
Lemma keep_min x y : number x = true -> number y = true -> number (if dlt x y then x else y) = true /\ dval (if dlt x y then x else y) = Z.min (dval y) (dval x).
Proof. intros Hx Hy. rewrite dlt_dval by done. destruct (Z.ltb_spec (dval x) (dval y)); split; try done; lia. Qed.
Lemma keep_max x y : number x = true -> number y = true -> number (if dlt y x then x else y) = true /\ dval (if dlt y x then x else y) = Z.max (dval y) (dval x).
Proof. intros Hx Hy. rewrite dlt_dval by done. destruct (Z.ltb_spec (dval y) (dval x)); split; try done; lia. Qed.
Lemma add_mbr_eq r m : add_mbr r m =
  mkMBR (if dlt (xmin r) (xmin m) then xmin r else xmin m) (if dlt (ymin r) (ymin m) then ymin r else ymin m)
        (if dlt (xmax m) (xmax r) then xmax r else xmax m) (if dlt (ymax m) (ymax r) then ymax r else ymax m).
Proof.
  unfold add_mbr, dgt. destruct m as [a b c d]. cbn [xmin ymin xmax ymax].
  destruct (dlt (xmin r) a); cbn [xmin ymin xmax ymax]; destruct (dlt c (xmax r)); cbn [xmin ymin xmax ymax];
    destruct (dlt (ymin r) b); cbn [xmin ymin xmax ymax]; by destruct (dlt d (ymax r)).
Qed.
Lemma add_xy_eq x y m : add_xy x y m = add_mbr (mkMBR x y x y) m.
Proof. done. Qed.
Lemma add_mbr_dval r m : numbers r -> numbers m -> numbers (add_mbr r m) /\
  dval (xmin (add_mbr r m)) = Z.min (dval (xmin m)) (dval (xmin r)) /\ dval (ymin (add_mbr r m)) = Z.min (dval (ymin m)) (dval (ymin r)) /\
  dval (xmax (add_mbr r m)) = Z.max (dval (xmax m)) (dval (xmax r)) /\ dval (ymax (add_mbr r m)) = Z.max (dval (ymax m)) (dval (ymax r)).
Proof.
  intros [] []. rewrite add_mbr_eq. cbn [xmin ymin xmax ymax].
  destruct (keep_min (xmin r) (xmin m)), (keep_min (ymin r) (ymin m)), (keep_max (xmax r) (xmax m)), (keep_max (ymax r) (ymax m)); try done.
Qed.

Definition min_of (z : Z) (l : list Z) : Z := foldr Z.min z l.
Definition max_of (z : Z) (l : list Z) : Z := foldr Z.max z l.
Lemma min_of_min a b l : min_of (Z.min a b) l = Z.min a (min_of b l).
Proof. induction l as [|x l IH]; cbn; [done|]. fold (min_of (Z.min a b) l) (min_of b l). lia. Qed.
Lemma max_of_max a b l : max_of (Z.max a b) l = Z.max a (max_of b l).
Proof. induction l as [|x l IH]; cbn; [done|]. fold (max_of (Z.max a b) l) (max_of b l). lia. Qed.
Lemma min_of_spec z l w : w <= min_of z l <-> w <= z /\ forall x, x ∈ l -> w <= x.
Proof.
  induction l as [|x l IH]; cbn; [split; [intros; split; [done|]; by intros ? ?%not_elem_of_nil|tauto]|].
  fold (min_of z l). rewrite Z.min_glb_iff, IH. setoid_rewrite elem_of_cons. naive_solver.
Qed.
Lemma max_of_spec z l w : max_of z l <= w <-> z <= w /\ forall x, x ∈ l -> x <= w.
Proof.
  induction l as [|x l IH]; cbn; [split; [intros; split; [done|]; by intros ? ?%not_elem_of_nil|tauto]|].
  fold (max_of z l). rewrite Z.max_lub_iff, IH. setoid_rewrite elem_of_cons. naive_solver.
Qed.
Lemma add_points_dval ps m : Forall finite_point ps -> numbers m ->
  let r := fold_left add_point ps m in numbers r /\
  dval (xmin r) = min_of (dval (xmin m)) (dval ∘ fst <$> ps) /\ dval (ymin r) = min_of (dval (ymin m)) (dval ∘ snd <$> ps) /\
  dval (xmax r) = max_of (dval (xmax m)) (dval ∘ fst <$> ps) /\ dval (ymax r) = max_of (dval (ymax m)) (dval ∘ snd <$> ps).
Proof.
  intros Hp. revert m. induction Hp as [|p ps [Hx Hy] _ IH]; intros m Hm; [done|]. cbn [fold_left]. unfold add_point at 2 4 6 8 10. rewrite add_xy_eq.
  destruct (add_mbr_dval (mkMBR p.1 p.2 p.1 p.2) m) as (Hn & E1 & E2 & E3 & E4); [by split; apply finite_number|done|].
  destruct (IH _ Hn) as (Hr & F1 & F2 & F3 & F4). split; [exact Hr|]. rewrite F1, F2, F3, F4, E1, E2, E3, E4. cbn [xmin ymin xmax ymax fmap list_fmap min_of max_of foldr compose].
  rewrite (Z.min_comm _ (dval p.1)), (Z.min_comm _ (dval p.2)), (Z.max_comm _ (dval p.1)), (Z.max_comm _ (dval p.2)).
  by rewrite !min_of_min, !max_of_max.
Qed.

Lemma coordinate_in (ps : list (double * double)) (p : double * double) : p ∈ ps -> dval p.1 ∈ dval ∘ fst <$> ps /\ dval p.2 ∈ dval ∘ snd <$> ps.
Proof. intros H. split; [apply (list_elem_of_fmap_2 (dval ∘ fst) ps p H)|apply (list_elem_of_fmap_2 (dval ∘ snd) ps p H)]. Qed.

(** Adding the points of a shape to a new rectangle makes the smallest rectangle that
    covers them: it is valid, covers each of them, and every rectangle that covers them contains it;
    adding the rectangle of other points is adding the points. *)
Theorem mbr_smallest ps : ps <> [] -> Forall finite_point ps ->
  numbers (mbr_of ps) /\ MBR_valid (mbr_of ps) = true /\ (forall p, p ∈ ps -> covers (mbr_of ps) (point_of p)) /\
  (forall r, numbers r -> (forall p, p ∈ ps -> covers r (point_of p)) -> contains r (mbr_of ps) = true) /\
  (forall qs, Forall finite_point qs -> equals (add_mbr (mbr_of qs) (mbr_of ps)) (mbr_of (ps ++ qs)) = true /\ equals (MBR_union (mbr_of ps) (mbr_of qs)) (mbr_of (ps ++ qs)) = true).
Proof.
  intros Hne Hp. destruct (add_points_dval ps MBR_new Hp numbers_new) as (Hn & E1 & E2 & E3 & E4). fold (mbr_of ps) in Hn, E1, E2, E3, E4.
  cbn [MBR_new xmin ymin xmax ymax] in E1, E2, E3, E4. rewrite minus_DBL_MAX_dval in E3, E4.
  assert (forall p, p ∈ ps -> covers (mbr_of ps) (point_of p)) as Hc.
  { intros p Hi. unfold covers, point_of. cbn [fst snd]. rewrite E1, E2, E3, E4.
    pose proof (proj1 (min_of_spec (dval DBL_MAX) (dval ∘ fst <$> ps) _) (Z.le_refl _)) as [_ A].
    pose proof (proj1 (min_of_spec (dval DBL_MAX) (dval ∘ snd <$> ps) _) (Z.le_refl _)) as [_ B].
    pose proof (proj1 (max_of_spec (- dval DBL_MAX) (dval ∘ fst <$> ps) _) (Z.le_refl _)) as [_ C].
    pose proof (proj1 (max_of_spec (- dval DBL_MAX) (dval ∘ snd <$> ps) _) (Z.le_refl _)) as [_ D].
    split; split; [apply A|apply C|apply B|apply D]; by apply coordinate_in. }
  split; [done|]. split.
  { apply valid_spec; [done|]. destruct ps as [|p ps]; [exfalso; exact (Hne eq_refl)|]. specialize (Hc p (list_elem_of_here _ _)). unfold covers in Hc. lia. }
  split; [done|]. split.
  - intros r Hr Hcov. mbr_compare. rewrite !andb_true_iff, !Z.leb_le, E1, E2, E3, E4.
    destruct ps as [|p0 ps']; [exfalso; exact (Hne eq_refl)|]. pose proof (proj1 (Forall_forall _ _) Hp) as Hf.
    assert (forall p, p ∈ p0 :: ps' -> covers r (point_of p) /\ - dval DBL_MAX <= dval p.1 <= dval DBL_MAX /\ - dval DBL_MAX <= dval p.2 <= dval DBL_MAX) as Hb
      by (intros p Hi; destruct (Hf p Hi) as [Hx Hy]; split; [by apply Hcov|split; by apply dval_finite]).
    destruct (Hb p0 (list_elem_of_here _ _)) as ([H1 H2] & H3 & H4). unfold point_of in H1, H2. cbn [fst snd] in H1, H2.
    split; [split; [split|]|]; [apply min_of_spec|apply min_of_spec|apply max_of_spec|apply max_of_spec]; split; try lia;
      intros z (p & -> & Hi)%list_elem_of_fmap; destruct (Hb p Hi) as ([H5 H6] & _); unfold point_of in H5, H6; cbn [fst snd compose] in *; lia.
  - intros qs Hq. assert (MBR_union (mbr_of ps) (mbr_of qs) = add_mbr (mbr_of qs) (mbr_of ps)) as -> by (unfold MBR_union; by destruct (mbr_of ps)).
    destruct (add_points_dval qs MBR_new Hq numbers_new) as (Hn' & F1 & F2 & F3 & F4). fold (mbr_of qs) in Hn', F1, F2, F3, F4.
    cbn [MBR_new xmin ymin xmax ymax] in F1, F2, F3, F4. rewrite minus_DBL_MAX_dval in F3, F4.
    destruct (add_points_dval qs (mbr_of ps) Hq Hn) as (Hn2 & G1 & G2 & G3 & G4).
    assert (mbr_of (ps ++ qs) = fold_left add_point qs (mbr_of ps)) as -> by (unfold mbr_of; apply fold_left_app).
    destruct (add_mbr_dval (mbr_of qs) (mbr_of ps) Hn' Hn) as (Hn3 & A1 & A2 & A3 & A4).
    enough (equals (add_mbr (mbr_of qs) (mbr_of ps)) (fold_left add_point qs (mbr_of ps)) = true) by done.
    mbr_compare. rewrite !andb_true_iff, !Z.eqb_eq, G1, G2, G3, G4, A1, A2, A3, A4, F1, F2, F3, F4, <- !min_of_min, <- !max_of_max.
    assert (dval (xmin (mbr_of ps)) <= dval DBL_MAX /\ dval (ymin (mbr_of ps)) <= dval DBL_MAX /\ - dval DBL_MAX <= dval (xmax (mbr_of ps)) /\ - dval DBL_MAX <= dval (ymax (mbr_of ps))) as (B1 & B2 & B3 & B4).
    { rewrite E1, E2, E3, E4. pose proof (proj1 (min_of_spec (dval DBL_MAX) (dval ∘ fst <$> ps) _) (Z.le_refl _)).
      pose proof (proj1 (min_of_spec (dval DBL_MAX) (dval ∘ snd <$> ps) _) (Z.le_refl _)).
      pose proof (proj1 (max_of_spec (- dval DBL_MAX) (dval ∘ fst <$> ps) _) (Z.le_refl _)).
      pose proof (proj1 (max_of_spec (- dval DBL_MAX) (dval ∘ snd <$> ps) _) (Z.le_refl _)). tauto. }
    rewrite !Z.min_l, !Z.max_l by done. done.
Qed.

(** ** Stored points *)

Lemma double_of_bits_valid b : ufits 64 b -> valid_binary dprec demax (double_of_bits b) = true.
Proof.
  intros Hb. unfold double_of_bits. set (e := (b / 2 ^ 52) mod 2 ^ 11). set (f := b mod 2 ^ 52).
  assert (0 <= e < 2048) as He by (apply Z.mod_pos_bound; lia). assert (0 <= f < 2 ^ 52) as Hf by (apply Z.mod_pos_bound; lia). clearbody e f.
  assert (forall g x, 0 < g -> -1074 <= x <= 971 -> x = Z.max (Z.log2 g + 1 + x - 53) (-1074) -> bounded dprec demax (Z.to_pos g) x = true) as Hbd.
  { intros g x Hg Hx E. unfold bounded, canonical_mantissa, fexp, emin, dprec, demax. rewrite digits2_pos_log, Z2Pos.id by done.
    rewrite andb_true_iff, Z.eqb_eq, Z.leb_le. lia. }
  destruct (e =? 2047) eqn:E1; [by destruct (f =? 0)|]. apply Z.eqb_neq in E1. destruct (e =? 0) eqn:E2.
  - destruct (f =? 0) eqn:E3; [done|]. apply Z.eqb_neq in E3. cbn [valid_binary]. apply Hbd; [lia|lia|].
    assert (Z.log2 f < 52) by (apply Z.log2_lt_pow2; lia). lia.
  - apply Z.eqb_neq in E2. cbn [valid_binary]. assert (Z.log2 (f + 2 ^ 52) = 52) as El by (apply Z.log2_unique; lia).
    apply Hbd; lia.
Qed.

(** A point is read only when its two coordinates are in the data, and then they are
    valid doubles; a test that finds enough points guarantees that so many of
    them, with the space between them, end in the data, and conversely. *)
Theorem points_read_in_bounds data :
  (get_xy data = None <-> (length data < 16)%nat) /\ (get_x data = None <-> (length data < 8)%nat) /\ (get_y data = None <-> get_xy data = None) /\
  (forall x y, get_xy data = Some (x, y) -> get_x data = Some x /\ get_y data = Some y /\
    valid_binary dprec demax x = true /\ valid_binary dprec demax y = true) /\
  (forall pos n extra, 0 <= pos -> 0 <= n -> 0 <= extra < 2 ^ 32 - 16 ->
    not_enough_points data pos n extra = false <-> pos <= Z.of_nat (length data) /\ pos + n * (16 + extra) <= Z.of_nat (length data)).
Proof.
  assert (forall i, valid_binary dprec demax (float8get data i) = true) as Hv by (intros i; apply double_of_bits_valid, load_word_fits; lia).
  assert (get_xy data = None <-> (length data < 16)%nat) as Hxy.
  { unfold get_xy, no_data, SIZEOF_STORED_DOUBLE. destruct (Z.ltb_spec (Z.of_nat (length data)) (0 + 8 * 2)); split; try done; lia. }
  split; [exact Hxy|]. split; [|split; [|split]].
  - unfold get_x, no_data, SIZEOF_STORED_DOUBLE. destruct (Z.ltb_spec (Z.of_nat (length data)) (0 + 8)); split; try done; lia.
  - unfold get_y, get_xy. by destruct (no_data data 0 (SIZEOF_STORED_DOUBLE * 2)).
  - intros x y H. unfold get_xy, get_x, get_y, no_data, SIZEOF_STORED_DOUBLE in *.
    destruct (Z.ltb_spec (Z.of_nat (length data)) (0 + 8 * 2)); [done|]. injection H as <- <-.
    destruct (Z.ltb_spec (Z.of_nat (length data)) (0 + 8)); [lia|]. auto.
  - intros pos n extra Hp Hn He. unfold not_enough_points, POINT_DATA_SIZE, SIZEOF_STORED_DOUBLE.
    rewrite (uwrap_small 32 (8 * 2 + extra)) by (unfold ufits; lia). rewrite orb_false_iff, !Z.ltb_ge.
    split; intros [H1 H2]; (split; [done|]); rewrite Z.quot_div_nonneg in * by lia.
    + pose proof (Z.mul_div_le (Z.of_nat (length data) - pos) (8 * 2 + extra)). nia.
    + apply Z.div_le_lower_bound; lia.
Qed.

(** ** Reading text *)

(** Skipping spaces stops at the first character that is not one, or at the limit;
    a character is skipped exactly when it is that one, with the spaces before it, and
    otherwise only the spaces are skipped; what is at the position is never 0 but at the limit or for a NUL. *)
Theorem stream_tokens isspace s : exists sp rest, s = sp ++ rest /\ Forall (λ c, isspace c = true) sp /\
  (forall c r, rest = c :: r -> isspace c = false) /\ skip_space isspace s = rest /\ skip_space isspace rest = rest /\
  next_symbol isspace s = (match rest with [] => 0 | c :: _ => byteZ c end, rest) /\
  (forall k, skip_char isspace k s = match rest with c :: r => if bool_decide (c = k) then (false, r) else (true, rest) | [] => (true, []) end).
Proof.
  assert (exists sp rest, s = sp ++ rest /\ Forall (λ c, isspace c = true) sp /\ (forall c r, rest = c :: r -> isspace c = false) /\ skip_space isspace s = rest) as (sp & rest & Hs & Hsp & Hr & Hk).
  { induction s as [|c s (sp & rest & Hs & Hsp & Hr & Hk)]; [by exists [], []|]. cbn [skip_space]. destruct (isspace c) eqn:E.
    - exists (c :: sp), rest. cbn [app]. split; [congruence|]. split; [by constructor|]. done.
    - exists [], (c :: s). split; [done|]. split; [done|]. split; [by intros ? ? [= -> _]|done]. }
  exists sp, rest. split; [done|]. split; [done|]. split; [done|]. split; [done|]. split; [|split].
  - destruct rest as [|c r]; [done|]. cbn [skip_space]. by rewrite (Hr c r eq_refl).
  - unfold next_symbol. rewrite Hk. by destruct rest.
  - intros k. unfold skip_char. rewrite Hk. destruct rest as [|c r]; [done|]. case_bool_decide as Ek.
    + subst. by rewrite Z.eqb_refl.
    + destruct (Z.eqb_spec (byteZ c) (byteZ k)) as [E|]; [|done]. exfalso. apply Ek. rewrite <- (Zbyte_byteZ c), <- (Zbyte_byteZ k). by rewrite E.
Qed.

(** * Witnesses *)

Definition rect (x y x' y' : Z) : MBR := mkMBR (Zdouble x) (Zdouble y) (Zdouble x') (Zdouble y').
Lemma rect_numbers : numbers (rect 0 0 2 2) /\ numbers (rect 1 1 3 3) /\ MBR_valid (rect 0 0 2 2) = true /\ MBR_valid (rect 1 1 3 3) = true.
Proof. repeat split; vm_compute; reflexivity. Defined.

Lemma relations_are_geometric_witness : exists p, covers (rect 0 0 2 2) p /\ covers (rect 1 1 3 3) p.
Proof.
  destruct rect_numbers as (Ha & Hb & Va & Vb).
  destruct (relations_are_geometric (rect 0 0 2 2) (rect 1 1 3 3) Ha Hb Va Vb) as (_ & _ & H & _).
  apply (proj1 H). vm_compute. reflexivity.
Defined.
Lemma touches_one_way_witness : exists p, covers (rect 0 0 2 2) p /\ covers (rect 2 1 3 3) p.
Proof.
  assert (numbers (rect 2 1 3 3)) as Hb by (split; vm_compute; reflexivity). destruct rect_numbers as (Ha & _ & Va & _).
  apply (touches_one_way (rect 0 0 2 2) (rect 2 1 3 3) Ha Hb Va); vm_compute; reflexivity.
Defined.
Lemma overlaps_common_interior_witness : exists p, interior (rect 0 0 2 2) p /\ interior (rect 1 1 3 3) p.
Proof.
  destruct rect_numbers as (Ha & Hb & Va & Vb).
  destruct (overlaps_common_interior (λ a b, contains b a) (rect 0 0 2 2) (rect 1 1 3 3) Ha Hb Va Vb) as (_ & H & _).
  apply (proj1 (H ltac:(vm_compute; reflexivity) ltac:(vm_compute; reflexivity))). vm_compute. reflexivity.
Defined.
Lemma mbr_smallest_witness : MBR_valid (mbr_of [(Zdouble 1, Zdouble 5); (Zdouble 3, Zdouble 2)]) = true.
Proof.
  apply (mbr_smallest [(Zdouble 1, Zdouble 5); (Zdouble 3, Zdouble 2)]); [intros H; discriminate H|].
  repeat constructor; vm_compute; reflexivity.
Defined.
