(* ===== verification/SqlTrans.v ===== *)
(** Transactions of a session: the engines that take part in a statement and in its
    transaction ([Ha_trx_info], [THD_TRANS]) and the identifiers [XID] of
    [private/handler.h], and what [THD] of [private/sql_class.h] does with them.

    The store maps the address of each [Ha_trx_info] to its members; 0 is [NULL].  The
    bytes of an [XID] are its [data]; numbers are copied to and from it in the order of
    x86-64. *)

From S2P Require Import Prelude ByteOrder.

Abbreviation bytes := (list byte).

(** * [Ha_trx_info] and [THD_TRANS] *)

Record Ha_trx_info := mkInfo { m_next : Z; m_ht : Z; m_flags : Z }.
Abbreviation infos := (gmap Z Ha_trx_info).
Record THD_TRANS := mkTrans { no_2pc : bool; ha_list : Z; modified_non_trans_table : bool; m_unsafe_rollback_flags : Z }.
Implicit Types (st : infos) (trans : THD_TRANS).

Definition TRX_READ_ONLY : Z := 0.
Definition TRX_READ_WRITE : Z := 1.

(** ** [Ha_trx_info] *)

Definition info_reset : Ha_trx_info := mkInfo 0 0 0.
Definition is_started (r : Ha_trx_info) : bool := negb (m_ht r =? 0).
(** The members of [this], the object at [a]. *)
Definition reset st (a : Z) : option infos := _ ← st !! a; Some (<[a := info_reset]> st).
Definition register_ha st (a : Z) trans (ht_arg : Z) : option (infos * THD_TRANS) :=
  r ← st !! a;
  _ ← asserting (m_flags r =? 0) tt; _ ← asserting (m_ht r =? 0) tt; _ ← asserting (m_next r =? 0) tt;
  Some (<[a := mkInfo (ha_list trans) ht_arg TRX_READ_ONLY]> st,
        mkTrans (no_2pc trans) a (modified_non_trans_table trans) (m_unsafe_rollback_flags trans)).
Definition set_trx_read_write st (a : Z) : option infos :=
  r ← st !! a; _ ← asserting (is_started r) tt; Some (<[a := mkInfo (m_next r) (m_ht r) (uwrap 8 (Z.lor (m_flags r) TRX_READ_WRITE))]> st).
Definition info_is_trx_read_write st (a : Z) : option bool :=
  r ← st !! a; asserting (is_started r) (c_true (Z.land (m_flags r) TRX_READ_WRITE)).
Definition coalesce_trx_with st (a stmt_trx : Z) : option infos :=
  r ← st !! a; _ ← asserting (is_started r) tt;
  rw ← info_is_trx_read_write st stmt_trx;
  if rw : bool then set_trx_read_write st a else Some st.
Definition info_next st (a : Z) : option Z := r ← st !! a; asserting (is_started r) (m_next r).
Definition info_ht st (a : Z) : option Z := r ← st !! a; asserting (is_started r) (m_ht r).

(** ** [THD_TRANS] *)

Definition MODIFIED_NON_TRANS_TABLE : Z := 1.
Definition CREATED_TEMP_TABLE : Z := 2.
Definition DROPPED_TEMP_TABLE : Z := 4.
Definition DID_WAIT : Z := 8.
Definition DID_DDL : Z := 16.
Definition EXECUTED_TABLE_ADMIN_CMD : Z := 32.

Definition trans_reset trans : THD_TRANS := mkTrans false (ha_list trans) false 0.
Definition trans_is_empty trans : bool := ha_list trans =? 0.
Definition with_flags trans (f : Z) : THD_TRANS := mkTrans (no_2pc trans) (ha_list trans) (modified_non_trans_table trans) f.
Definition mark_flag (bit : Z) trans : THD_TRANS := with_flags trans (Z.lor (m_unsafe_rollback_flags trans) bit).
Definition has_flag (bits : Z) trans : bool := negb (Z.land (m_unsafe_rollback_flags trans) bits =? 0).
Definition mark_modified_non_trans_temp_table trans : THD_TRANS := mark_flag MODIFIED_NON_TRANS_TABLE trans.
Definition has_modified_non_trans_temp_table trans : bool := has_flag MODIFIED_NON_TRANS_TABLE trans.
Definition mark_executed_table_admin_cmd trans : THD_TRANS := mark_flag EXECUTED_TABLE_ADMIN_CMD trans.
Definition trans_executed_admin_cmd trans : bool := has_flag EXECUTED_TABLE_ADMIN_CMD trans.
Definition mark_created_temp_table trans : THD_TRANS := mark_flag CREATED_TEMP_TABLE trans.
Definition mark_dropped_temp_table trans : THD_TRANS := mark_flag DROPPED_TEMP_TABLE trans.
Definition has_created_dropped_temp_table trans : bool := has_flag (Z.lor CREATED_TEMP_TABLE DROPPED_TEMP_TABLE) trans.
Definition mark_trans_did_wait trans : THD_TRANS := mark_flag DID_WAIT trans.
Definition trans_did_wait trans : bool := has_flag DID_WAIT trans.
Definition mark_trans_did_ddl trans : THD_TRANS := mark_flag DID_DDL trans.
Definition trans_did_ddl trans : bool := has_flag DID_DDL trans.

(** The loop of [is_trx_read_write]. *)
Fixpoint trx_read_write_from (fuel : nat) st (ha_info : Z) : option bool :=
  match fuel with
  | O => None
  | S fuel =>
    if ha_info =? 0 then Some false
    else rw ← info_is_trx_read_write st ha_info;
      if rw : bool then Some true else next ← info_next st ha_info; trx_read_write_from fuel st next
  end.
(** One turn per object of the store and one for [NULL]. *)
Definition is_trx_read_write st trans : option bool := trx_read_write_from (S (size st)) st (ha_list trans).

(** * The transactions of a session *)

(** [st_transactions]: of the whole transaction and of the statement. *)
Record st_transactions := mkTr { tr_all : THD_TRANS; tr_stmt : THD_TRANS }.
Definition is_active (t : st_transactions) : bool := negb (ha_list (tr_all t) =? 0).
Definition tr_is_empty (t : st_transactions) : bool := trans_is_empty (tr_all t) && trans_is_empty (tr_stmt t).
Definition merge_mask : Z :=
  Z.lor (Z.lor (Z.lor (Z.lor (Z.lor MODIFIED_NON_TRANS_TABLE DID_WAIT) CREATED_TEMP_TABLE) DROPPED_TEMP_TABLE) DID_DDL) EXECUTED_TABLE_ADMIN_CMD.
Definition merge_unsafe_rollback_flags (t : st_transactions) : st_transactions :=
  let all := tr_all t in
  let all := if modified_non_trans_table (tr_stmt t) then mkTrans (no_2pc all) (ha_list all) true (m_unsafe_rollback_flags all) else all in
  mkTr (with_flags all (Z.lor (m_unsafe_rollback_flags all) (Z.land (m_unsafe_rollback_flags (tr_stmt t)) merge_mask))) (tr_stmt t).
Definition MODE_STRICT_ALL_TABLES : Z := 2 ^ 22.
Definition really_abort_on_warning (abort_on_warning : bool) (sql_mode : Z) (t : st_transactions) : bool :=
  abort_on_warning && (negb (modified_non_trans_table (tr_stmt t)) || c_true (Z.land sql_mode MODE_STRICT_ALL_TABLES)).

Definition SERVER_STATUS_IN_TRANS : Z := 1.
Definition in_active_multi_stmt_transaction (server_status : Z) : bool := c_true (Z.land server_status SERVER_STATUS_IN_TRANS).
(** The variables for [get_net_wait_timeout]. *)
Record timeouts := mkTimeouts { idle_write_transaction_timeout : Z; idle_readonly_transaction_timeout : Z; idle_transaction_timeout : Z; net_wait_timeout : Z }.
Definition get_net_wait_timeout (v : timeouts) (server_status : Z) st (t : st_transactions) : option Z :=
  if in_active_multi_stmt_transaction server_status then
    rw ← is_trx_read_write st (tr_all t);
    if rw && (0 <? idle_write_transaction_timeout v) then Some (idle_write_transaction_timeout v)
    else if negb rw && (0 <? idle_readonly_transaction_timeout v) then Some (idle_readonly_transaction_timeout v)
    else if 0 <? idle_transaction_timeout v then Some (idle_transaction_timeout v) else Some (uwrap 32 (net_wait_timeout v))
  else Some (uwrap 32 (net_wait_timeout v)).
(** [handler::mark_trx_read_write]: whether [mark_trx_read_write_internal] is called. *)
Definition mark_trx_read_write (mark_done : bool) : bool * bool := if negb mark_done then (true, true) else (false, true).

(** * [XID] *)

Definition XIDDATASIZE : nat := 128.
Definition MYSQL_XID_PREFIX : bytes := [x4d; x79; x53; x51; x4c; x58; x69; x64].
Definition MYSQL_XID_PREFIX_LEN : nat := 8.
Definition MYSQL_XID_OFFSET : nat := MYSQL_XID_PREFIX_LEN + 8.
Definition MYSQL_XID_GTRID_LEN : nat := MYSQL_XID_OFFSET + 8.

Record XID := mkXid { formatID : Z; gtrid_length : Z; bqual_length : Z; data : bytes }.
Implicit Types x y : XID.
Definition xid_is_null x : bool := formatID x =? -1.
Definition xid_null x : XID := mkXid (-1) (gtrid_length x) (bqual_length x) (data x).
(** [memcmp] of so many bytes of the data. *)
Definition same_bytes (n : Z) (a b : bytes) : bool := match memcmp (Z.to_nat n) a 0 b 0 with Eq => true | _ => false end.
Definition xid_eq_data x (g b : Z) (d : bytes) : bool := negb (xid_is_null x) && (g =? gtrid_length x) && (b =? bqual_length x) && same_bytes (g + b) d (data x).
Definition xid_eq x y : bool := negb (xid_is_null y) && xid_eq_data x (gtrid_length y) (bqual_length y) (data y).
(** [memcpy] of the first [n] bytes of [src] to position [i] of [dst]. *)
Definition memcpy_at (dst : bytes) (i n : nat) (src : bytes) : bytes := take i dst ++ take n src ++ drop (i + n) dst.
Definition xid_key_length x : Z := 8 + 8 + gtrid_length x + bqual_length x.
Definition xid_length x : Z := uwrap 32 (8 + xid_key_length x).
(** [set] of another one copies the members that its length counts. *)
Definition xid_set_xid x y : XID := mkXid (formatID y) (gtrid_length y) (bqual_length y) (memcpy_at (data x) 0 (Z.to_nat (xid_length y - 24)) (data y)).
Definition xid_set_parts x (f : Z) (g : bytes) (gl : Z) (b : bytes) (bl : Z) : XID :=
  let d := if gl =? 0 then data x else memcpy_at (data x) 0 (Z.to_nat gl) g in
  let d := if bl =? 0 then d else memcpy_at d (Z.to_nat gl) (Z.to_nat bl) b in
  mkXid f gl bl d.
Definition xid_set_data x (g b : Z) (d : bytes) : XID := mkXid 1 g b (memcpy_at (data x) 0 (Z.to_nat (g + b)) d).
Definition xid_set x (xid trx_server_id : Z) : XID :=
  let x := xid_set_data x (Z.of_nat MYSQL_XID_PREFIX_LEN) 0 MYSQL_XID_PREFIX in
  let d := X86_64.int8store (data x) MYSQL_XID_PREFIX_LEN trx_server_id in
  let d := X86_64.int8store d MYSQL_XID_OFFSET xid in
  mkXid 1 (Z.of_nat MYSQL_XID_GTRID_LEN) (bqual_length x) d.
Definition quick_get_my_xid x : Z := X86_64.uint8korr (data x) MYSQL_XID_OFFSET.
Definition get_my_xid x : Z :=
  if (gtrid_length x =? Z.of_nat MYSQL_XID_GTRID_LEN) && (bqual_length x =? 0) && same_bytes (Z.of_nat MYSQL_XID_PREFIX_LEN) (data x) MYSQL_XID_PREFIX
  then quick_get_my_xid x else 0.
Definition get_trx_server_id x : Z := X86_64.uint8korr (data x) MYSQL_XID_PREFIX_LEN.
(** The key of a hash table: the lengths and that part of the data. *)
Definition xid_key x : Z * Z * bytes := (gtrid_length x, bqual_length x, take (Z.to_nat (gtrid_length x + bqual_length x)) (data x)).

(** * Lists of engines *)

(** The specification of a list: the objects registered, last one first, with the engine of
    each and whether it writes. *)
Abbreviation entries := (list (Z * (Z * bool))).
Fixpoint chain st (p : Z) (l : entries) : Prop :=
  match l with
  | [] => p = 0
  | (a, (ht, rw)) :: l => p = a /\ a <> 0 /\ ht <> 0 /\ exists n, st !! a = Some (mkInfo n ht (Z.b2z rw)) /\ chain st n l
  end.
(** The entry of [a] marked as writing. *)
Definition mark_rw (a : Z) (l : entries) : entries := (λ e, if decide (e.1 = a) then (e.1, (e.2.1, true)) else e) <$> l.

Lemma trx_chain_frame st p l a r : a ∉ l.*1 -> chain st p l -> chain (<[a := r]> st) p l.
Proof.
  revert p. induction l as [|[b [ht rw]] l IH]; intros p Ha Hc; [done|]. cbn [fmap list_fmap fst] in Ha. apply not_elem_of_cons in Ha as [Hn Ha].
  destruct Hc as (-> & Hb & Hh & n & Hl & Hc). split; [done|]. split; [done|]. split; [done|]. exists n. rewrite lookup_insert_ne by done. auto.
Qed.
Lemma chain_in st p l a ht rw : chain st p l -> (a, (ht, rw)) ∈ l -> exists n, st !! a = Some (mkInfo n ht (Z.b2z rw)) /\ ht <> 0 /\ a <> 0.
Proof.
  revert p. induction l as [|[b [h w]] l IH]; intros p Hc Hi; [by apply not_elem_of_nil in Hi|].
  destruct Hc as (-> & Hb & Hh & n & Hl & Hc). apply elem_of_cons in Hi as [[= -> -> ->]|Hi]; eauto.
Qed.
Lemma chain_mark st p l a n ht rw : NoDup l.*1 -> chain st p l -> st !! a = Some (mkInfo n ht (Z.b2z rw)) ->
  chain (<[a := mkInfo n ht 1]> st) p (mark_rw a l).
Proof.
  intros Hd Hc Ha. revert p Hc. induction l as [|[b [h w]] l IH]; intros p Hc; [done|].
  cbn [fmap list_fmap fst] in Hd. apply list.NoDup_cons in Hd as [Hn Hd]. destruct Hc as (-> & Hb & Hh & m & Hl & Hc).
  cbn [mark_rw fmap list_fmap fst snd]. destruct (decide (b = a)) as [->|Hne].
  - split; [done|]. split; [done|]. split; [done|]. exists m. rewrite lookup_insert_eq. assert (m = n /\ h = ht) as [-> ->] by (split; congruence).
    split; [done|]. by apply IH.
  - split; [done|]. split; [done|]. split; [done|]. exists m. rewrite lookup_insert_ne by congruence. split; [done|]. by apply IH.
Qed.
Lemma mark_rw_keys a l : (mark_rw a l).*1 = l.*1.
Proof. unfold mark_rw. induction l as [|e l IH]; [done|]. cbn [fmap list_fmap]. rewrite IH. by destruct (decide (e.1 = a)). Qed.
Lemma chain_size st p l : NoDup l.*1 -> chain st p l -> (length l <= size st)%nat.
Proof.
  intros Hd Hc. rewrite <- (length_fmap fst). rewrite <- size_dom, <- (size_list_to_set (C := gset Z) l.*1) by done.
  apply subseteq_size. intros a Ha%elem_of_list_to_set. apply list_elem_of_fmap in Ha as ([b [h w]] & -> & Hi).
  destruct (chain_in _ _ _ _ _ _ Hc Hi) as (n & Hl & _). apply elem_of_dom. by exists (mkInfo n h (Z.b2z w)).
Qed.
Lemma read_write_from_spec st p l fuel : chain st p l -> (length l < fuel)%nat -> trx_read_write_from fuel st p = Some (existsb (λ e, e.2.2) l).
Proof.
  revert p fuel. induction l as [|[b [h w]] l IH]; intros p [|fuel] Hc Hf; try (cbn in Hf; lia).
  - cbn in Hc. by subst p.
  - destruct Hc as (-> & Hb & Hh & n & Hl & Hc). cbn [trx_read_write_from existsb snd length] in *.
    rewrite (proj2 (Z.eqb_neq b 0)) by done. unfold info_is_trx_read_write, info_next. rewrite Hl. cbn [mbind option_bind]. unfold is_started. cbn [m_ht m_flags m_next].
    rewrite !asserting_true by (rewrite negb_true_iff, Z.eqb_neq; done). destruct w; [done|]. cbn. apply IH; [done|lia].
Qed.

(** * Refinement *)

(** What is done with the engines of a statement ([false]) and of its transaction ([true]). *)
Inductive op := Register (all : bool) (a ht : Z) | Set_rw (a : Z) | Coalesce (a stmt_trx : Z) | Is_rw (all : bool) | Is_active | Is_empty.
Definition valid_op (o : op) : Prop := match o with Register _ _ ht => ht <> 0 | _ => True end.
Definition exec (o : op) (c : infos * st_transactions) : option ((infos * st_transactions) * bool) :=
  let '(st, t) := c in
  match o with
  | Register true a ht => '(st', all) ← register_ha st a (tr_all t) ht; Some ((st', mkTr all (tr_stmt t)), true)
  | Register false a ht => '(st', stmt) ← register_ha st a (tr_stmt t) ht; Some ((st', mkTr (tr_all t) stmt), true)
  | Set_rw a => st' ← set_trx_read_write st a; Some ((st', t), true)
  | Coalesce a b => st' ← coalesce_trx_with st a b; Some ((st', t), true)
  | Is_rw all => b ← is_trx_read_write st (if all then tr_all t else tr_stmt t); Some ((st, t), b)
  | Is_active => Some ((st, t), is_active t)
  | Is_empty => Some ((st, t), tr_is_empty t)
  end.

(** The objects that no list has, and the two lists. *)
Record spec := mkSpec { idle : gset Z; in_stmt : entries; in_all : entries }.
Definition entry_of (s : spec) (a : Z) : option (Z * bool) := (list_to_map (in_stmt s ++ in_all s) : gmap Z (Z * bool)) !! a.
Definition mark_spec (a : Z) (s : spec) : spec := mkSpec (idle s) (mark_rw a (in_stmt s)) (mark_rw a (in_all s)).
Definition spec_exec (o : op) (s : spec) : option (spec * bool) :=
  match o with
  | Register all a ht =>
    if decide (a ∈ idle s) then
      let e := (a, (ht, false)) in
      Some (if all then mkSpec (idle s ∖ {[a]}) (in_stmt s) (e :: in_all s) else mkSpec (idle s ∖ {[a]}) (e :: in_stmt s) (in_all s), true)
    else None
  | Set_rw a => _ ← entry_of s a; Some (mark_spec a s, true)
  | Coalesce a b => _ ← entry_of s a; match entry_of s b with Some (_, w) => Some (if w : bool then mark_spec a s else s, true) | None => None end
  | Is_rw all => Some (s, existsb (λ e, e.2.2) (if all then in_all s else in_stmt s))
  | Is_active => Some (s, match in_all s with [] => false | _ => true end)
  | Is_empty => Some (s, match in_all s, in_stmt s with [], [] => true | _, _ => false end)
  end.

Record refines (c : infos * st_transactions) (s : spec) : Prop := {
  ref_stmt : chain c.1 (ha_list (tr_stmt c.2)) (in_stmt s);
  ref_all : chain c.1 (ha_list (tr_all c.2)) (in_all s);
  ref_nodup : NoDup (in_stmt s ++ in_all s).*1;
  ref_idle a : a ∈ idle s -> a <> 0 /\ c.1 !! a = Some info_reset;
  ref_dom a : a ∈ dom c.1 <-> a ∈ idle s \/ a ∈ (in_stmt s ++ in_all s).*1
}.

Lemma entry_spec s a e : NoDup (in_stmt s ++ in_all s).*1 -> entry_of s a = Some e <-> (a, e) ∈ in_stmt s ++ in_all s.
Proof. intros Hd. unfold entry_of. symmetry. by apply elem_of_list_to_map. Qed.
Lemma entry_none s a : entry_of s a = None <-> a ∉ (in_stmt s ++ in_all s).*1.
Proof. unfold entry_of. symmetry. apply not_elem_of_list_to_map. Qed.
Section Refines.
Context (c : infos * st_transactions) (s : spec) (R : refines c s).
Lemma entry_info a ht rw : entry_of s a = Some (ht, rw) -> exists n, c.1 !! a = Some (mkInfo n ht (Z.b2z rw)) /\ ht <> 0 /\ a <> 0.
Proof.
  intros He. apply entry_spec in He; [|exact (ref_nodup _ _ R)]. apply elem_of_app in He as [He|He].
  - by apply (chain_in _ _ _ _ _ _ (ref_stmt _ _ R)).
  - by apply (chain_in _ _ _ _ _ _ (ref_all _ _ R)).
Qed.
Lemma key_info a : a ∈ (in_stmt s ++ in_all s).*1 -> exists r, c.1 !! a = Some r /\ m_ht r <> 0.
Proof.
  intros Hk. destruct (entry_of s a) as [[ht rw]|] eqn:He; [|by apply entry_none in He].
  destruct (entry_info _ _ _ He) as (n & Hl & Hh & _). eauto.
Qed.
(** What is not registered is idle or not an object. *)
Lemma not_entry_info a : entry_of s a = None -> match c.1 !! a with Some r => r = info_reset | None => True end.
Proof.
  intros Hn. apply entry_none in Hn. destruct (c.1 !! a) as [r|] eqn:Hr; [|done].
  assert (a ∈ dom c.1) as Hd by (apply elem_of_dom; by exists r). apply (ref_dom _ _ R) in Hd as [Hd|]; [|done].
  apply (ref_idle _ _ R) in Hd as [_ Hd]. congruence.
Qed.
Lemma nodup_parts : NoDup (in_stmt s).*1 /\ NoDup (in_all s).*1.
Proof. pose proof (ref_nodup _ _ R) as Hd. rewrite fmap_app in Hd. apply NoDup_app in Hd as (? & _ & ?). done. Qed.
Lemma set_rw_refines a : match entry_of s a with
  | Some _ => exists st', set_trx_read_write c.1 a = Some st' /\ refines (st', c.2) (mark_spec a s)
  | None => set_trx_read_write c.1 a = None
  end.
Proof.
  unfold set_trx_read_write. destruct (entry_of s a) as [[ht rw]|] eqn:He.
  - destruct (entry_info _ _ _ He) as (n & Hn & Hh & Ha). rewrite Hn. cbn [mbind option_bind]. unfold is_started. cbn [m_ht m_flags m_next].
    rewrite asserting_true by (rewrite negb_true_iff, Z.eqb_neq; done). cbn [mbind option_bind].
    eexists. split; [done|]. replace (uwrap 8 (Z.lor (Z.b2z rw) TRX_READ_WRITE)) with 1 by (by destruct rw).
    destruct nodup_parts as [D1 D2]. split; cbn [fst snd mark_spec in_stmt in_all idle].
    + by apply chain_mark with rw; [|apply (ref_stmt _ _ R)|].
    + by apply chain_mark with rw; [|apply (ref_all _ _ R)|].
    + rewrite fmap_app, !mark_rw_keys, <- fmap_app. apply (ref_nodup _ _ R).
    + intros b Hb. destruct (ref_idle _ _ R b Hb) as [Hb0 Hr]. split; [done|]. rewrite lookup_insert_ne; [done|]. intros ->.
      rewrite Hn in Hr. injection Hr as _ -> _. done.
    + intros b. rewrite fmap_app, !mark_rw_keys, <- fmap_app, dom_insert_L. rewrite <- (ref_dom _ _ R b).
      assert (a ∈ dom c.1) by (apply elem_of_dom; by eexists). set_solver.
  - apply not_entry_info in He. destruct (c.1 !! a) as [r|]; [|done]. by subst r.
Qed.
End Refines.

Lemma register_spec st a trans ht : st !! a = Some info_reset ->
  register_ha st a trans ht = Some (<[a := mkInfo (ha_list trans) ht 0]> st, mkTrans (no_2pc trans) a (modified_non_trans_table trans) (m_unsafe_rollback_flags trans)).
Proof. intros Ha. unfold register_ha. rewrite Ha. done. Qed.
Lemma register_refines c s all a ht : refines c s -> ht <> 0 ->
  match spec_exec (Register all a ht) s with
  | Some (s', o) => exists c', exec (Register all a ht) c = Some (c', o) /\ refines c' s'
  | None => exec (Register all a ht) c = None
  end.
Proof.
  intros R Hh. destruct c as [st t]. cbn [spec_exec]. destruct (decide (a ∈ idle s)) as [Hi|Hi].
  - destruct (ref_idle _ _ R a Hi) as [Ha Hr]. cbn [fst] in Hr.
    assert (a ∉ (in_stmt s ++ in_all s).*1) as Hn.
    { intros Hk. destruct (key_info _ _ R a Hk) as (r & Hl & Hne). cbn [fst] in Hl. rewrite Hr in Hl. by injection Hl as <-. }
    pose proof Hn as Hn2. rewrite fmap_app in Hn2. apply not_elem_of_app in Hn2 as [Hs Hal].
    assert (forall b, b ∈ idle s ∖ {[a]} -> b <> 0 /\ forall r, (<[a := r]> st : infos) !! b = Some info_reset) as Hid.
    { intros b Hb. destruct (ref_idle _ _ R b) as [Hb0 Hbr]; [set_solver|]. split; [done|]. intros r. rewrite lookup_insert_ne; [done|set_solver]. }
    assert (forall b r, b ∈ dom (<[a := r]> st : infos) <-> b ∈ idle s ∖ {[a]} \/ b ∈ a :: (in_stmt s ++ in_all s).*1) as Hdm.
    { intros b r. pose proof (ref_dom _ _ R b) as Hd. cbn [fst] in Hd. rewrite dom_insert_L, elem_of_union, Hd, elem_of_cons, elem_of_difference, elem_of_singleton.
      destruct (decide (b = a)); set_solver. }
    destruct all; cbn [exec]; rewrite register_spec by done; cbn [mbind option_bind]; eexists; (split; [done|]); split; cbn [fst snd in_stmt in_all idle tr_all tr_stmt].
    + apply trx_chain_frame; [done|]. apply (ref_stmt _ _ R).
    + cbn [chain]. split; [done|]. split; [done|]. split; [done|]. exists (ha_list (tr_all t)). rewrite lookup_insert_eq. split; [done|].
      apply trx_chain_frame; [done|]. apply (ref_all _ _ R).
    + rewrite fmap_app. cbn [fmap list_fmap fst]. rewrite <- Permutation_middle, <- fmap_app. apply list.NoDup_cons. split; [done|apply (ref_nodup _ _ R)].
    + intros b Hb. destruct (Hid b Hb). auto.
    + intros b. rewrite Hdm, !fmap_app. cbn [fmap list_fmap fst]. set_solver.
    + cbn [chain]. split; [done|]. split; [done|]. split; [done|]. exists (ha_list (tr_stmt t)). rewrite lookup_insert_eq. split; [done|].
      apply trx_chain_frame; [done|]. apply (ref_stmt _ _ R).
    + apply trx_chain_frame; [done|]. apply (ref_all _ _ R).
    + cbn [app fmap list_fmap fst]. apply list.NoDup_cons. split; [done|apply (ref_nodup _ _ R)].
    + intros b Hb. destruct (Hid b Hb). auto.
    + intros b. rewrite Hdm. done.
  - assert (forall trans, register_ha st a trans ht = None) as Hnone.
    { intros trans. unfold register_ha. destruct (st !! a) as [r|] eqn:Hr; [|done]. cbn [mbind option_bind].
      assert (a ∈ dom st) as Hd by (apply elem_of_dom; by eexists). apply (ref_dom _ _ R) in Hd as [|Hd]; [done|].
      destruct (key_info _ _ R a Hd) as (r' & Hl & Hm). assert (r' = r) as -> by (cbn [fst] in Hl; congruence).
      destruct (m_flags r =? 0); [|done]. cbn. by rewrite (proj2 (Z.eqb_neq (m_ht r) 0)). }
    destruct all; cbn [exec]; by rewrite Hnone.
Qed.

Lemma exec_refines c s o : refines c s -> valid_op o ->
  match spec_exec o s with
  | Some (s', b) => exists c', exec o c = Some (c', b) /\ refines c' s'
  | None => exec o c = None
  end.
Proof.
  intros R Hv. destruct o as [all a ht|a|a b|all| |]; [by apply register_refines|..]; destruct c as [st t]; cbn [spec_exec exec].
  - pose proof (set_rw_refines _ _ R a) as H. cbn [fst snd] in H. destruct (entry_of s a); cbn [mbind option_bind]; [|by rewrite H].
    destruct H as (st' & -> & R'). cbn [mbind option_bind]. eauto.
  - unfold coalesce_trx_with, info_is_trx_read_write. pose proof (set_rw_refines _ _ R a) as H. cbn [fst snd] in H.
    destruct (entry_of s a) as [[ht rw]|] eqn:Ea; cbn [mbind option_bind].
    + destruct (entry_info _ _ R _ _ _ Ea) as (n & Hn & Hh & _). cbn [fst] in Hn. rewrite Hn. cbn [mbind option_bind].
      unfold is_started. cbn [m_ht m_flags m_next]. rewrite asserting_true by (rewrite negb_true_iff, Z.eqb_neq; done). cbn [mbind option_bind].
      destruct (entry_of s b) as [[ht' w]|] eqn:Eb.
      * destruct (entry_info _ _ R _ _ _ Eb) as (n' & Hn' & Hh' & _). cbn [fst] in Hn'. rewrite Hn'. cbn [mbind option_bind].
        unfold is_started. cbn [m_ht m_flags]. rewrite asserting_true by (rewrite negb_true_iff, Z.eqb_neq; done). cbn [mbind option_bind].
        destruct H as (st' & H & R'). destruct w; cbn; [rewrite H; cbn; eauto|eauto].
      * pose proof (not_entry_info _ _ R _ Eb) as Hb. cbn [fst] in Hb. destruct (st !! b) as [r|]; [|done]. by subst r.
    + pose proof (not_entry_info _ _ R _ Ea) as Ha. cbn [fst] in Ha. destruct (st !! a) as [r|]; [|done]. by subst r.
  - pose proof (nodup_parts _ _ R) as [D1 D2]. unfold is_trx_read_write. destruct all.
    + rewrite (read_write_from_spec _ _ (in_all s)); [cbn; eauto|apply (ref_all _ _ R)|]. pose proof (chain_size _ _ _ D2 (ref_all _ _ R)). cbn [fst] in *. lia.
    + rewrite (read_write_from_spec _ _ (in_stmt s)); [cbn; eauto|apply (ref_stmt _ _ R)|]. pose proof (chain_size _ _ _ D1 (ref_stmt _ _ R)). cbn [fst] in *. lia.
  - pose proof (ref_all _ _ R) as H. cbn [fst snd] in H. exists (st, t). split; [|done]. unfold is_active.
    destruct (in_all s) as [|[a [h w]] l]; [by rewrite H|]. destruct H as (-> & Ha & _). by rewrite (proj2 (Z.eqb_neq a 0)).
  - pose proof (ref_all _ _ R) as H. pose proof (ref_stmt _ _ R) as H'. cbn [fst snd] in H, H'. exists (st, t). split; [|done]. unfold tr_is_empty, trans_is_empty.
    destruct (in_all s) as [|[a [h w]] l]; [rewrite H|destruct H as (-> & Ha & _); by rewrite (proj2 (Z.eqb_neq a 0))].
    destruct (in_stmt s) as [|[a' [h' w']] l']; [by rewrite H'|destruct H' as (-> & Ha' & _); by rewrite (proj2 (Z.eqb_neq a' 0))].
Qed.

Fixpoint exec_run (os : list op) (c : infos * st_transactions) : option ((infos * st_transactions) * list bool) :=
  match os with [] => Some (c, []) | o :: os => '(c, b) ← exec o c; '(c, bs) ← exec_run os c; Some (c, b :: bs) end.
Fixpoint spec_run (os : list op) (s : spec) : option (spec * list bool) :=
  match os with [] => Some (s, []) | o :: os => '(s, b) ← spec_exec o s; '(s, bs) ← spec_run os s; Some (s, b :: bs) end.
(** Objects that are not registered, and new transactions. *)
Definition new_infos (addrs : list Z) : infos := list_to_map ((λ a, (a, info_reset)) <$> addrs).
Definition new_trans : THD_TRANS := mkTrans false 0 false 0.
Lemma new_refines addrs : 0 ∉ addrs -> NoDup addrs -> refines (new_infos addrs, mkTr new_trans new_trans) (mkSpec (list_to_set addrs) [] []).
Proof.
  intros H0 Hd. assert (((λ a, (a, info_reset)) <$> addrs).*1 = addrs) as Hk by (rewrite <- list_fmap_compose; apply list_fmap_id).
  assert (forall a, new_infos addrs !! a = Some info_reset <-> a ∈ addrs) as Hl.
  { intros a. unfold new_infos. rewrite <- elem_of_list_to_map by (by rewrite Hk). rewrite list_elem_of_fmap. naive_solver. }
  split; cbn [fst snd in_stmt in_all idle]; [done|done|constructor|..].
  - intros a Ha%elem_of_list_to_set. split; [congruence|]. by apply Hl.
  - intros a. unfold new_infos. rewrite dom_list_to_map_L, Hk. set_solver.
Qed.

(** C20.  The lists of engines of a statement and of its transaction, through the links of
    their objects, are lists of registered engines with a flag each: any sequence of
    registrations, marks and questions gives the answers of the lists, and is refused, by
    an assertion, exactly where an object is registered twice or used without being registered;
    asking whether a transaction writes looks at every engine and ends. *)
Theorem engines_refine addrs os : 0 ∉ addrs -> NoDup addrs -> Forall valid_op os ->
  match spec_run os (mkSpec (list_to_set addrs) [] []) with
  | Some (s, bs) => exists c, exec_run os (new_infos addrs, mkTr new_trans new_trans) = Some (c, bs) /\ refines c s
  | None => exec_run os (new_infos addrs, mkTr new_trans new_trans) = None
  end.
Proof.
  intros H0 Hd Hv. pose proof (new_refines addrs H0 Hd) as R. revert R.
  generalize (new_infos addrs, mkTr new_trans new_trans) as c, (mkSpec (list_to_set addrs) [] []) as s.
  induction Hv as [|o os Ho Hv IH]; intros c s R; [by exists c|]. cbn [spec_run exec_run].
  pose proof (exec_refines c s o R Ho) as H. destruct (spec_exec o s) as [[s' b]|]; cbn [mbind option_bind]; [|by rewrite H].
  destruct H as (c' & -> & R'). cbn [mbind option_bind]. specialize (IH c' s' R').
  destruct (spec_run os s') as [[s'' bs]|]; cbn [mbind option_bind]; [|by rewrite IH].
  destruct IH as (c'' & -> & R''). cbn. eauto.
Qed.

(** * Flags of the transaction *)

(** The flags that these statements, in turn, leave in the transaction. *)
Definition run_statements (t : st_transactions) (stmts : list THD_TRANS) : st_transactions :=
  fold_left (λ t s, merge_unsafe_rollback_flags (mkTr (tr_all t) s)) stmts t.

(** After any sequence of statements the transaction has a mark, of a temporary table
    modified, created or dropped, of a wait, of a definition statement, or of a table
    administration, exactly when it had it before or one of the statements has it, and the
    same for the tables that cannot be rolled back; the engines stay as they are. *)
Theorem transaction_marks stmts t :
  let r := tr_all (run_statements t stmts) in
  ha_list r = ha_list (tr_all t) /\
  modified_non_trans_table r = modified_non_trans_table (tr_all t) || existsb modified_non_trans_table stmts /\
  (forall f, f ∈ [has_modified_non_trans_temp_table; trans_executed_admin_cmd; has_created_dropped_temp_table; trans_did_wait; trans_did_ddl] ->
    f r = f (tr_all t) || existsb f stmts) /\
  (forall m f, (m, f) ∈ [(mark_modified_non_trans_temp_table, has_modified_non_trans_temp_table); (mark_executed_table_admin_cmd, trans_executed_admin_cmd);
      (mark_created_temp_table, has_created_dropped_temp_table); (mark_dropped_temp_table, has_created_dropped_temp_table);
      (mark_trans_did_wait, trans_did_wait); (mark_trans_did_ddl, trans_did_ddl)] -> forall s, f (m s) = true).
Proof.
  assert (forall bits, Z.land bits merge_mask = bits -> forall stmts t, has_flag bits (tr_all (run_statements t stmts)) = has_flag bits (tr_all t) || existsb (has_flag bits) stmts) as Hf.
  { intros bits Hb. clear stmts t. induction stmts as [|s stmts IH]; intros t; cbn [run_statements fold_left existsb]; [by rewrite orb_false_r|].
    fold (run_statements (merge_unsafe_rollback_flags (mkTr (tr_all t) s)) stmts). rewrite IH, orb_assoc. f_equal.
    unfold merge_unsafe_rollback_flags, has_flag, with_flags. cbn [tr_all tr_stmt m_unsafe_rollback_flags].
    assert (m_unsafe_rollback_flags (if modified_non_trans_table s then mkTrans (no_2pc (tr_all t)) (ha_list (tr_all t)) true (m_unsafe_rollback_flags (tr_all t)) else tr_all t)
            = m_unsafe_rollback_flags (tr_all t)) as -> by (by destruct (modified_non_trans_table s)).
    rewrite Z.land_lor_distr_l, <- Z.land_assoc, (Z.land_comm merge_mask), Hb, <- negb_andb. f_equal.
    apply eq_true_iff_eq. rewrite andb_true_iff, !Z.eqb_eq. apply Z.lor_eq_0_iff. }
  assert (forall bits b s, c_true (Z.land b bits) = true -> has_flag bits (mark_flag b s) = true) as Hm.
  { intros bits b s Hb. unfold has_flag, mark_flag, with_flags. cbn [m_unsafe_rollback_flags]. rewrite Z.land_lor_distr_l.
    unfold c_true in Hb. rewrite negb_true_iff, Z.eqb_neq in *. intros [_ H]%Z.lor_eq_0_iff. done. }
  cbv zeta. split; [|split; [|split]].
  - revert t. induction stmts as [|s stmts IH]; intros t; [done|]. cbn [run_statements fold_left].
    etrans; [apply IH|]. unfold merge_unsafe_rollback_flags, with_flags. cbn [tr_all tr_stmt ha_list]. by destruct (modified_non_trans_table s).
  - revert t. induction stmts as [|s stmts IH]; intros t; cbn [existsb]; [by rewrite orb_false_r|]. cbn [run_statements fold_left].
    etrans; [apply IH|]. rewrite orb_assoc. f_equal. unfold merge_unsafe_rollback_flags, with_flags. cbn [tr_all tr_stmt modified_non_trans_table].
    destruct (modified_non_trans_table s); cbn [modified_non_trans_table]; [by rewrite orb_true_r|by rewrite orb_false_r].
  - intros f Hin. repeat (apply elem_of_cons in Hin as [->|Hin]; [by apply Hf|]). by apply not_elem_of_nil in Hin.
  - intros m f Hin s. repeat (apply elem_of_cons in Hin as [[= -> ->]|Hin]; [by apply Hm|]). by apply not_elem_of_nil in Hin.
Qed.

(** The time for which a client may be idle is always found: outside of a transaction the
    general one, in one that of the kind of transaction, that writes when one of its
    engines does, then that of any transaction, the first that is set. *)
Theorem idle_timeout_selected v status c s : refines c s ->
  get_net_wait_timeout v status c.1 c.2 = Some (
    if in_active_multi_stmt_transaction status then
      default (uwrap 32 (net_wait_timeout v))
        (head (filter (λ t, 0 < t) [if existsb (λ e, e.2.2) (in_all s) then idle_write_transaction_timeout v else idle_readonly_transaction_timeout v; idle_transaction_timeout v]))
    else uwrap 32 (net_wait_timeout v)).
Proof.
  intros R. unfold get_net_wait_timeout, is_trx_read_write. destruct (in_active_multi_stmt_transaction status); [|done].
  pose proof (nodup_parts _ _ R) as [_ D]. pose proof (chain_size _ _ _ D (ref_all _ _ R)) as Hs.
  rewrite (read_write_from_spec _ _ (in_all s)); [|apply (ref_all _ _ R)|lia]. cbn [mbind option_bind].
  assert (forall t (a b : option Z), (if decide (0 < t) then a else b) = if 0 <? t then a else b) as Hd
    by (intros t a b; destruct (decide (0 < t)), (Z.ltb_spec 0 t); done || lia).
  assert (forall t l, head (filter (λ t, 0 < t) (t :: l)) = if 0 <? t then Some t else head (filter (λ t, 0 < t) l)) as Hh.
  { intros t l. destruct (Z.ltb_spec 0 t); [by rewrite filter_cons_True|rewrite filter_cons_False by lia; done]. }
  rewrite !Hh. destruct (existsb (λ e, e.2.2) (in_all s)); cbn [andb negb];
    [destruct (0 <? idle_write_transaction_timeout v); [done|]|destruct (0 <? idle_readonly_transaction_timeout v); [done|]];
    by destruct (0 <? idle_transaction_timeout v).
Qed.

(** * Identifiers *)

(** The lengths are those of some bytes of the data. *)
Record xid_ok x : Prop := { xid_data : length (data x) = XIDDATASIZE; xid_g : 0 <= gtrid_length x; xid_b : 0 <= bqual_length x; xid_len : gtrid_length x + bqual_length x <= 128 }.

Lemma length_memcpy_at dst i n src : (i + n <= length dst)%nat -> (n <= length src)%nat -> length (memcpy_at dst i n src) = length dst.
Proof. intros. unfold memcpy_at. rewrite !length_app, !length_take, length_drop. lia. Qed.
Lemma take_memcpy_at dst n src : (n <= length src)%nat -> take n (memcpy_at dst 0 n src) = take n src.
Proof. intros. unfold memcpy_at. rewrite take_0. cbn [app]. rewrite take_app_le by (rewrite length_take; lia). by rewrite take_take, Nat.min_id. Qed.
Lemma same_bytes_take n (a b : bytes) : 0 <= n <= Z.of_nat (length a) -> n <= Z.of_nat (length b) -> same_bytes n a b = true <-> take (Z.to_nat n) a = take (Z.to_nat n) b.
Proof.
  intros Ha Hb. unfold same_bytes. rewrite <- memcmp_take by lia. by destruct (memcmp (Z.to_nat n) a 0 b 0).
Qed.
Lemma xid_set_ok x n sid : length (data x) = XIDDATASIZE -> xid_ok (xid_set x n sid).
Proof.
  intros Hx. split; [|by vm_compute|by vm_compute|by vm_compute]. unfold xid_set. cbn [data].
  rewrite !x_int8store, !length_store_word. cbn [xid_set_data data]. rewrite length_memcpy_at; [done|rewrite Hx; vm_compute; lia|vm_compute; lia].
Qed.
Lemma take_store_word k n buf T A : (k <= T)%nat -> take k (store_word n buf T A) = take k buf.
Proof.
  intros Hk. unfold store_word, wr. revert buf T Hk A. induction n as [|n IH]; intros buf T Hk A; [done|]. cbn [seq le_list zip zip_with foldl].
  etrans; [apply IH; lia|]. unfold put. cbn [fst]. by rewrite take_insert_ge by lia.
Qed.
Lemma load_store_word_ne n m buf T U A : (T + n <= U \/ U + m <= T)%nat -> load_word n (store_word m buf U A) T = load_word n buf T.
Proof.
  intros H. unfold load_word, rd. f_equal. apply list_fmap_ext. intros i j Hj%lookup_seq. apply uc_store_word_ne. lia.
Qed.
(** Bytes are those of the words that they make. *)
Lemma take_words (a b : bytes) : (24 <= length a)%nat -> (24 <= length b)%nat -> take 8 a = take 8 b ->
  load_word 8 a 8 = load_word 8 b 8 -> load_word 8 a 16 = load_word 8 b 16 -> take (8 + (8 + 8)) a = take (8 + (8 + 8)) b.
Proof.
  intros Ha Hb H1 H2 H3.
  assert (forall T, load_word 8 a T = load_word 8 b T -> rd 8 a T = rd 8 b T) as Hrd.
  { intros T E. unfold load_word in E. rewrite <- (le_list_le_val (rd 8 a T)), <- (le_list_le_val (rd 8 b T)) by apply rd_fits. rewrite !length_rd. by rewrite E. }
  apply Hrd in H2, H3. apply list_eq_total; [rewrite !length_take; lia|]. intros j Hj. rewrite length_take in Hj.
  assert (forall T i, rd 8 a T = rd 8 b T -> (i < 8)%nat -> a !!! (T + i)%nat = b !!! (T + i)%nat) as Hi.
  { intros T i E Hlt. apply byteZ_inj. assert (rd 8 a T !! i = rd 8 b T !! i) as E2 by (by rewrite E). unfold rd in E2.
    rewrite !list_lookup_fmap, !lookup_seq_lt in E2 by done. cbn in E2. by injection E2. }
  rewrite !list_lookup_total_alt, !lookup_take_lt by lia. rewrite <- !list_lookup_total_alt.
  destruct (decide (j < 8)%nat).
  - assert (take 8 a !! j = take 8 b !! j) as E by (by rewrite H1). rewrite !lookup_take_lt in E by done. rewrite !list_lookup_total_alt. by rewrite E.
  - destruct (decide (j < 16)%nat); [replace j with (8 + (j - 8))%nat by lia|replace j with (16 + (j - 16))%nat by lia]; apply Hi; done || lia.
Qed.
(** The data of an identifier of this server, as a function of its number and server. *)
Lemma xid_set_take x n sid : length (data x) = XIDDATASIZE ->
  take 8 (data (xid_set x n sid)) = MYSQL_XID_PREFIX /\ load_word 8 (data (xid_set x n sid)) 8 = uwrap 64 sid /\ load_word 8 (data (xid_set x n sid)) 16 = uwrap 64 n.
Proof.
  intros Hx. unfold xid_set. cbn [data]. rewrite !x_int8store.
  set (d := data (xid_set_data x (Z.of_nat MYSQL_XID_PREFIX_LEN) 0 MYSQL_XID_PREFIX)).
  assert (length d = 128%nat) as Hd by (unfold d; cbn [xid_set_data data]; rewrite length_memcpy_at; rewrite ?Hx; vm_compute; lia).
  change MYSQL_XID_PREFIX_LEN with 8%nat. change MYSQL_XID_OFFSET with 16%nat. split; [|split].
  - rewrite !take_store_word by lia. unfold d. cbn [xid_set_data data]. by rewrite (take_memcpy_at _ 8) by (vm_compute; lia).
  - rewrite load_store_word_ne by lia. rewrite load_store_word by lia. done.
  - rewrite load_store_word by (rewrite length_store_word; lia). done.
Qed.

(** The number and the server of an identifier made for them are read back, and only an
    identifier that is, up to the bytes after its data, one made for a number gives a
    number other than 0; two identifiers are equal exactly when neither is null and their
    keys are the same, and copying one makes them so. *)
Theorem xid_roundtrip x y n sid : xid_ok x -> xid_ok y ->
  get_my_xid (xid_set x n sid) = uwrap 64 n /\ get_trx_server_id (xid_set x n sid) = uwrap 64 sid /\ xid_is_null (xid_set x n sid) = false /\ xid_ok (xid_set x n sid) /\
  (get_my_xid y <> 0 -> xid_key (xid_set x (get_my_xid y) (get_trx_server_id y)) = xid_key y) /\
  (xid_eq x y = true <-> xid_is_null x = false /\ xid_is_null y = false /\ xid_key x = xid_key y) /\
  (xid_is_null y = false -> xid_eq (xid_set_xid x y) y = true).
Proof.
  intros Hx Hy. pose proof (xid_data _ Hx) as Dx. pose proof (xid_data _ Hy) as Dy. unfold XIDDATASIZE in *.
  destruct (xid_set_take x n sid Dx) as (T & S8 & S16).
  assert (forall u v, xid_ok u -> xid_ok v -> xid_eq u v = true <-> xid_is_null u = false /\ xid_is_null v = false /\ xid_key u = xid_key v) as Heq.
  { intros u v [Du Gu Bu Lu] [Dv Gv Bv Lv]. unfold XIDDATASIZE in *. unfold xid_eq, xid_eq_data, xid_key. rewrite !andb_true_iff, !negb_true_iff, !Z.eqb_eq.
    rewrite same_bytes_take by lia. split; [intros (? & ((? & E1) & E2) & E3)|intros (? & ? & [= E1 E2 E3])].
    - do 2 (split; [done|]). rewrite <- E1, <- E2. by f_equal.
    - split; [done|]. split; [split; [split; [done|]|]|]; congruence. }
  split; [|split; [|split; [|split; [|split; [|split]]]]].
  - unfold get_my_xid, quick_get_my_xid. change (gtrid_length (xid_set x n sid)) with 24. change (bqual_length (xid_set x n sid)) with 0.
    assert (same_bytes (Z.of_nat MYSQL_XID_PREFIX_LEN) (data (xid_set x n sid)) MYSQL_XID_PREFIX = true) as ->; [|done].
    apply same_bytes_take; [rewrite (xid_data _ (xid_set_ok x n sid Dx)); vm_compute; done|vm_compute; done|exact T].
  - exact S8.
  - done.
  - by apply xid_set_ok.
  - intros Hn. unfold get_my_xid in Hn. destruct ((gtrid_length y =? Z.of_nat MYSQL_XID_GTRID_LEN) && (bqual_length y =? 0) && same_bytes (Z.of_nat MYSQL_XID_PREFIX_LEN) (data y) MYSQL_XID_PREFIX) eqn:E; [|done].
    apply andb_prop in E as [[Eg%Z.eqb_eq Eb%Z.eqb_eq]%andb_prop Es].
    pose proof Es as Es0. apply same_bytes_take in Es; [|rewrite Dy; vm_compute; done|vm_compute; done].
    assert (get_my_xid y = load_word 8 (data y) 16) as ->.
    { unfold get_my_xid. rewrite Eg, Eb. cbn [Z.eqb andb]. by rewrite Es0. }
    change (get_trx_server_id y) with (load_word 8 (data y) 8).
    destruct (xid_set_take x (load_word 8 (data y) 16) (load_word 8 (data y) 8) Dx) as (T' & S8' & S16').
    rewrite !uwrap_small in S8', S16' by apply (load_word_fits 8).
    unfold xid_key. rewrite Eg, Eb. change (gtrid_length (xid_set x (load_word 8 (data y) 16) (load_word 8 (data y) 8))) with (Z.of_nat MYSQL_XID_GTRID_LEN).
    change (bqual_length (xid_set x (load_word 8 (data y) 16) (load_word 8 (data y) 8))) with 0. f_equal.
    change (Z.to_nat (Z.of_nat MYSQL_XID_GTRID_LEN + 0)) with (8 + (8 + 8))%nat.
    pose proof (xid_data _ (xid_set_ok x (load_word 8 (data y) 16) (load_word 8 (data y) 8) Dx)) as Dz. unfold XIDDATASIZE in Dz.
    apply take_words; [lia|lia|exact (eq_trans T' (eq_sym Es))|exact S8'|exact S16'].
  - by apply Heq.
  - intros Hn. destruct Hy as [_ Gy By Ly].
    assert (Z.to_nat (xid_length y - 24) = Z.to_nat (gtrid_length y + bqual_length y)) as El.
    { f_equal. unfold xid_length, xid_key_length. rewrite uwrap_small by (unfold ufits; lia). lia. }
    apply Heq.
    + split; cbn [xid_set_xid data gtrid_length bqual_length]; try done. unfold XIDDATASIZE. rewrite El, length_memcpy_at; lia.
    + by split.
    + split; [done|]. split; [done|]. unfold xid_key. cbn [xid_set_xid data gtrid_length bqual_length]. rewrite El, take_memcpy_at by lia. done.
Qed.

(** * Witnesses *)

Definition sample_ops : list op := [Register false 1 7; Register true 2 7; Set_rw 1; Coalesce 2 1; Is_rw true; Is_rw false; Is_active; Is_empty].
Lemma engines_refine_witness : exists c, exec_run sample_ops (new_infos [1; 2; 3], mkTr new_trans new_trans) = Some (c, [true; true; true; true; true; true; true; false]).
Proof.
  assert (0 ∉ [1; 2; 3] /\ NoDup [1; 2; 3]) as [H0 Hd] by (split; [intros H; repeat (apply elem_of_cons in H as [H|H]; [discriminate H|]); by apply not_elem_of_nil in H|repeat constructor; set_solver]).
  assert (Forall valid_op sample_ops) as Hv by (repeat constructor; discriminate).
  pose proof (engines_refine [1; 2; 3] sample_ops H0 Hd Hv) as H.
  assert (exists s, spec_run sample_ops (mkSpec (list_to_set [1; 2; 3]) [] []) = Some (s, [true; true; true; true; true; true; true; false])) as [s Hs] by (eexists; vm_compute; reflexivity).
  rewrite Hs in H. destruct H as (c & H & _). exists c. exact H.
Defined.
Lemma transaction_marks_witness : trans_did_wait (tr_all (run_statements (mkTr new_trans new_trans) [mark_trans_did_wait new_trans; new_trans])) = true.
Proof.
  destruct (transaction_marks [mark_trans_did_wait new_trans; new_trans] (mkTr new_trans new_trans)) as (_ & _ & H & _).
  etrans; [apply (H trans_did_wait); do 3 apply list_elem_of_further; apply list_elem_of_here|]. vm_compute. reflexivity.
Defined.
Lemma idle_timeout_selected_witness : get_net_wait_timeout (mkTimeouts 10 20 30 40) 1 ∅ (mkTr new_trans new_trans) = Some 20.
Proof.
  assert (refines (∅, mkTr new_trans new_trans) (mkSpec ∅ [] [])) as R by (apply (new_refines []); [apply not_elem_of_nil|constructor]).
  etrans; [apply (idle_timeout_selected (mkTimeouts 10 20 30 40) 1 _ _ R)|]. vm_compute. reflexivity.
Defined.
Definition sample_xid : XID := mkXid (-1) 0 0 (replicate 128 x2a).
Lemma xid_roundtrip_witness : get_my_xid (xid_set sample_xid 258 3) = 258 /\ xid_eq (xid_set_xid sample_xid (xid_set sample_xid 258 3)) (xid_set sample_xid 258 3) = true.
Proof.
  assert (xid_ok sample_xid) as Hx by (split; vm_compute; done).
  split; [apply (xid_roundtrip sample_xid sample_xid 258 3 Hx Hx)|].
  apply (xid_roundtrip sample_xid (xid_set sample_xid 258 3) 0 0 Hx); [by apply xid_set_ok|]. reflexivity.
Defined.
