(* ===== verification/SqlSession.v ===== *)
(** State of a session that is not of its transactions: the intervals of generated numbers
    and the options of a definition statement ([private/structs.h]), and from
    [private/sql_class.h] the identifiers that a session generates, how it is killed, the
    format of its binary log, the list of sessions that wait for its commit,
    its prepared statements and qualified names.

    Objects that are linked are in a store from addresses to their members, where 0 is
    [NULL]; a position of the code that points to a pointer is the variable or the object whose
    link it is. *)

From S2P Require Import Prelude.

Abbreviation bytes := (list byte).

(** * [Discrete_interval] *)

Definition ULONGLONG_MAX : Z := 2 ^ 64 - 1.
Record Discrete_interval := mkInterval { interval_min : Z; interval_values : Z; interval_max : Z; interval_next : Z }.
Implicit Types d : Discrete_interval.
Definition interval_replace d (start val incr : Z) : Discrete_interval :=
  mkInterval start val (if val =? ULONGLONG_MAX then val else uwrap 64 (start + uwrap 64 (val * incr))) (interval_next d).
Definition new_interval (start val incr : Z) : Discrete_interval := interval_replace (mkInterval 0 0 0 0) start val incr.
Definition empty_interval : Discrete_interval := interval_replace (mkInterval 0 0 0 0) 0 0 0.
(** [false] when it was merged. *)
Definition merge_if_contiguous d (start val incr : Z) : bool * Discrete_interval :=
  if interval_max d =? start
  then (false, if val =? ULONGLONG_MAX then mkInterval (interval_min d) val val (interval_next d)
               else mkInterval (interval_min d) (uwrap 64 (interval_values d + val)) (uwrap 64 (start + uwrap 64 (val * incr))) (interval_next d))
  else (true, d).

(** ** [Discrete_intervals_list] *)

Abbreviation intervals := (gmap Z Discrete_interval).
Record Discrete_intervals_list := mkIList { il_head : Z; il_tail : Z; il_current : Z; il_elements : Z }.
Implicit Types (h : intervals) (l : Discrete_intervals_list).
(** [tail] is not initialised. *)
Definition new_list (u : Z) : Discrete_intervals_list := mkIList 0 u 0 0.
Definition set_members l (hd t c el : Z) : Discrete_intervals_list := mkIList hd t c el.
Definition empty_no_free l : Discrete_intervals_list := set_members l 0 0 0 0.
(** The loop of [empty]: each interval is deleted. *)
Fixpoint empty_from (fuel : nat) h (i : Z) : option intervals :=
  match fuel with
  | O => None
  | S fuel => if i =? 0 then Some h else d ← h !! i; empty_from fuel (delete i h) (interval_next d)
  end.
Definition il_empty h l : option (intervals * Discrete_intervals_list) := h' ← empty_from (S (size h)) h (il_head l); Some (h', empty_no_free l).
Definition copy_shallow l (dli : Discrete_intervals_list) : Discrete_intervals_list := mkIList (il_head dli) (il_tail dli) (il_current dli) (il_elements dli).
(** The two lists afterwards. *)
Definition il_swap l (dli : Discrete_intervals_list) : Discrete_intervals_list * Discrete_intervals_list :=
  let hd := il_head dli in let t := il_tail dli in let c := il_current dli in let el := il_elements dli in
  let dli := copy_shallow dli l in (set_members l hd t c el, dli).
Definition il_get_next h l : option (Z * Discrete_intervals_list) :=
  let tmp := il_current l in
  if negb (il_current l =? 0) then d ← h !! il_current l; Some (tmp, mkIList (il_head l) (il_tail l) (interval_next d) (il_elements l)) else Some (tmp, l).
Definition il_minimum h l : option Z := if negb (il_head l =? 0) then d ← h !! il_head l; Some (interval_min d) else Some 0.
Definition il_maximum h l : option Z := if negb (il_head l =? 0) then d ← h !! il_tail l; Some (interval_max d) else Some 0.

(** * [DDL_options_st] *)

Definition OPT_NONE : Z := 0.
Definition OPT_IF_NOT_EXISTS : Z := 2.
Definition OPT_LIKE : Z := 4.
Definition OPT_OR_REPLACE : Z := 16.
Definition OPT_OR_REPLACE_SLAVE_GENERATED : Z := 32.
Definition OPT_IF_EXISTS : Z := 64.
Definition OPT_CREATE_SELECT : Z := 128.
Definition create_like_options (o : Z) : Z := Z.land o (Z.lor OPT_IF_NOT_EXISTS OPT_OR_REPLACE).
Definition if_not_exists (o : Z) : bool := c_true (Z.land o OPT_IF_NOT_EXISTS).
Definition or_replace (o : Z) : bool := c_true (Z.land o OPT_OR_REPLACE).
Definition or_replace_slave_generated (o : Z) : bool := c_true (Z.land o OPT_OR_REPLACE_SLAVE_GENERATED).
Definition opt_like (o : Z) : bool := c_true (Z.land o OPT_LIKE).
Definition if_exists (o : Z) : bool := c_true (Z.land o OPT_IF_EXISTS).
Definition is_create_select (o : Z) : bool := c_true (Z.land o OPT_CREATE_SELECT).
Definition opt_add (o other : Z) : Z := Z.lor o other.
(** [a | b]: its value and [a] afterwards. *)
Definition opt_or (o other : Z) : Z * Z := let o := opt_add o other in (o, o).
Definition opt_or_assign (o other : Z) : Z * Z := let o := opt_add o other in (o, o).

(** * Generated identifiers *)

Record insert_ids := mkIds { prev_stmt : Z; prev_stmt_for_binlog : Z; cur_stmt : Z; stmt_depends : bool }.
Implicit Types s : insert_ids.
Definition record_first_successful_insert_id_in_cur_stmt (id_arg : Z) s : insert_ids :=
  if cur_stmt s =? 0 then mkIds (prev_stmt s) (prev_stmt_for_binlog s) id_arg (stmt_depends s) else s.
Definition read_first_successful_insert_id_in_prev_stmt s : Z * insert_ids :=
  let s := if negb (stmt_depends s) then mkIds (prev_stmt s) (prev_stmt s) (cur_stmt s) true else s in (prev_stmt s, s).
(** The other assignments of the value: [LAST_INSERT_ID(id)], [SET LAST_INSERT_ID=id]. *)
Definition set_prev_stmt (id : Z) s : insert_ids := mkIds id (prev_stmt_for_binlog s) (cur_stmt s) (stmt_depends s).

(** * Killing *)

Definition KILL_HARD_BIT : Z := 1.
Definition KILL_QUERY : Z := 4.
Definition KILL_QUERY_HARD : Z := 5.
Definition ABORT_QUERY : Z := 6.
Definition KILL_CONNECTION : Z := 12.
Definition killed_mask_hard (killed : Z) : Z := Z.land killed (Z.lnot KILL_HARD_BIT).
Record kill_state := mkKill { killed : Z; killed_err : option (Z * bytes) }.
Implicit Types k : kill_state.
(** [ok]: whether memory could be allocated for the message, of at most 255 bytes. *)
Definition set_killed_no_mutex (killed_arg killed_errno_arg : Z) (killed_err_msg_arg : bytes) (ok : bool) k : kill_state :=
  if killed k <=? killed_arg
  then mkKill killed_arg (if c_true killed_errno_arg then (if ok then Some (killed_errno_arg, take 255 killed_err_msg_arg) else None) else killed_err k)
  else k.
(** Whether [reset_killed] is called. *)
Definition reset_kill_query_calls k : bool := killed k <? KILL_CONNECTION.

(** * Format of the binary log *)

Definition BINLOG_FORMAT_MIXED : Z := 0.
Definition BINLOG_FORMAT_STMT : Z := 1.
Definition BINLOG_FORMAT_ROW : Z := 2.
Definition BINLOG_FORMAT_UNSPEC : Z := 3.
(** [variables.binlog_format], [current_stmt_binlog_format], [in_sub_stmt],
    [has_temporary_tables()] and [wsrep_forced_binlog_format]. *)
Record binlog := mkBinlog { session_format : Z; current_format : Z; in_sub_stmt : bool; has_temporary_tables : bool; forced_format : Z }.
Implicit Types b : binlog.
Definition wsrep_binlog_format b : Z := if negb (forced_format b =? BINLOG_FORMAT_UNSPEC) then forced_format b else session_format b.
Definition with_current_format b (f : Z) : binlog := mkBinlog (session_format b) f (in_sub_stmt b) (has_temporary_tables b) (forced_format b).
Definition is_current_stmt_binlog_format_row b : option bool :=
  asserting ((current_format b =? BINLOG_FORMAT_STMT) || (current_format b =? BINLOG_FORMAT_ROW)) (current_format b =? BINLOG_FORMAT_ROW).
Definition set_binlog_format (format current : Z) b : binlog := mkBinlog format current (in_sub_stmt b) (has_temporary_tables b) (forced_format b).
Definition set_binlog_format_stmt b : binlog := set_binlog_format BINLOG_FORMAT_STMT BINLOG_FORMAT_STMT b.
Definition set_current_stmt_binlog_format (format : Z) b : binlog := with_current_format b format.
Definition set_current_stmt_binlog_format_row b : binlog := with_current_format b BINLOG_FORMAT_ROW.
Definition set_current_stmt_binlog_format_stmt b : Z * binlog := (current_format b, with_current_format b BINLOG_FORMAT_STMT).
Definition set_current_stmt_binlog_format_row_if_mixed b : binlog :=
  if (wsrep_binlog_format b =? BINLOG_FORMAT_MIXED) && negb (in_sub_stmt b) then set_current_stmt_binlog_format_row b else b.
Definition restore_stmt_binlog_format (format : Z) b : option binlog :=
  row ← is_current_stmt_binlog_format_row b; asserting (negb row) (with_current_format b format).
Definition reset_current_stmt_binlog_format_row b : binlog :=
  if negb (in_sub_stmt b)
  then if wsrep_binlog_format b =? BINLOG_FORMAT_ROW then set_current_stmt_binlog_format_row b
    else if negb (has_temporary_tables b) then (set_current_stmt_binlog_format_stmt b).2 else b
  else b.

(** * [wait_for_commit] *)

Record wait_for_commit := mkWait { next_subsequent_commit : Z; waitee : Z; wakeup_error : Z; subsequent_commits_list : Z }.
Abbreviation waits := (gmap Z wait_for_commit).
Implicit Types w : waits.
(** Where a pointer to a waiter is: the list of the object at [a], or the link of the waiter at [a]. *)
Inductive next_ptr := List_of (a : Z) | Link_of (a : Z).
Definition load_ptr w (p : next_ptr) : option Z :=
  match p with List_of a => subsequent_commits_list <$> w !! a | Link_of a => next_subsequent_commit <$> w !! a end.
Definition assign_at w (p : next_ptr) (v : Z) : option waits :=
  match p with
  | List_of a => r ← w !! a; Some (<[a := mkWait (next_subsequent_commit r) (waitee r) (wakeup_error r) v]> w)
  | Link_of a => r ← w !! a; Some (<[a := mkWait v (waitee r) (wakeup_error r) (subsequent_commits_list r)]> w)
  end.
Definition set_waitee w (a v : Z) : option waits :=
  r ← w !! a; Some (<[a := mkWait (next_subsequent_commit r) v (wakeup_error r) (subsequent_commits_list r)]> w).
Fixpoint unlink_from (fuel : nat) w (this : Z) (next_ptr_ptr : next_ptr) : option waits :=
  match fuel with
  | O => None
  | S fuel =>
    cur ← load_ptr w next_ptr_ptr;
    if cur =? 0 then Some w
    else if cur =? this then r ← w !! this; assign_at w next_ptr_ptr (next_subsequent_commit r)
    else unlink_from fuel w this (Link_of cur)
  end.
Definition remove_from_list w (this : Z) (next_ptr_ptr : next_ptr) : option waits :=
  w ← unlink_from (S (size w)) w this next_ptr_ptr; set_waitee w this 0.
(** The result, or [None] when [wait_for_prior_commit2] is called. *)
Definition wait_for_prior_commit w (this : Z) : option (option Z) :=
  r ← w !! this; Some (if negb (waitee r =? 0) then None else Some (wakeup_error r)).
(** Whether [wakeup_subsequent_commits2] is called. *)
Definition wakeup_subsequent_commits w (this : Z) : option bool := r ← w !! this; Some (negb (subsequent_commits_list r =? 0)).
(** [None] inside when [unregister_wait_for_prior_commit2] is called. *)
Definition unregister_wait_for_prior_commit w (this : Z) : option (option waits) :=
  r ← w !! this;
  Some (if negb (waitee r =? 0) then None else Some (<[this := mkWait (next_subsequent_commit r) (waitee r) 0 (subsequent_commits_list r)]> w)).

(** * [Statement_map::find] *)

(** A statement is its identifier and whether it has a name; [st_hash] is the hash of
    the statements by identifier. *)
Abbreviation statements := (gmap Z bool).
Definition find_statement (st_hash : statements) (id : Z) (last_found_statement : option Z) : option Z * option Z :=
  if match last_found_statement with None => true | Some l => negb (id =? l) end
  then match st_hash !! id with
    | Some true => (None, last_found_statement)
    | Some false => (Some id, Some id)
    | None => (None, None)
    end
  else (last_found_statement, last_found_statement).

(** * Names *)

(** The bytes that [quote_unescape] writes. *)
Fixpoint unescape (src : bytes) (quote : byte) : bytes :=
  match src with
  | [] => []
  | c :: src => c :: (if byteZ c =? byteZ quote then match src with [] => [] | _ :: src => unescape src quote end else unescape src quote)
  end.
(** The destination, with the byte that ends it, and the room allocated. *)
Definition quote_unescape (ok : bool) (src : bytes) (quote : byte) : option (bytes * nat) :=
  if ok then Some (unescape src quote ++ [x00], (length src + 1)%nat) else None.

Definition dot : byte := x2e.
(** [m_db] is [None] for [NULL]. *)
Record Database_qualified_name := mkName { m_db : option bytes; m_name : bytes }.
(** [strchr]: the bytes before the character and after it. *)
Fixpoint strchr (txt : bytes) (c : byte) : option (bytes * bytes) :=
  match txt with
  | [] => None
  | x :: txt => if byteZ x =? byteZ c then Some ([], txt) else if byteZ x =? 0 then None else '(before, after) ← strchr txt c; Some (x :: before, after)
  end.
(** The text is terminated by a NUL byte that is not counted. *)
Definition split (txt : bytes) : Database_qualified_name :=
  match strchr txt dot with None => mkName None txt | Some (db, name) => mkName (Some db) name end.
Definition db_bytes (n : Database_qualified_name) : bytes := default [] (m_db n).
(** [make_qname] in a buffer of [dstlen] bytes: what is written before the NUL byte. *)
Definition make_qname_buf (dstlen : nat) (n : Database_qualified_name) : bytes := take (dstlen - 1) (db_bytes n ++ [dot] ++ m_name n).
(** [make_qname] on a memory root: the string and its length. *)
Definition make_qname (ok : bool) (n : Database_qualified_name) : option (bytes * nat) :=
  let d := if (length (db_bytes n) =? 0)%nat then 0%nat else 1%nat in
  if ok then Some ((if (length (db_bytes n) =? 0)%nat then [] else db_bytes n) ++ take d [dot] ++ m_name n, (length (db_bytes n) + d + length (m_name n))%nat) else None.
Definition make_package_routine_name (ok : bool) (package routine : bytes) : option bytes :=
  let len := (length package + 1 + length routine + 1)%nat in
  if ok then Some (take (len - 1) (package ++ [dot] ++ routine)) else None.
(** [strnncoll] of the collation in use is an argument. *)
Definition qname_eq (strnncoll : bytes -> bytes -> Z) (a b : Database_qualified_name) : bool :=
  (length (db_bytes a) =? length (db_bytes b))%nat && (length (m_name a) =? length (m_name b))%nat &&
  (strnncoll (db_bytes a) (db_bytes b) =? 0) && (strnncoll (m_name a) (m_name b) =? 0).
(** [copy_db_to]: the error [ER_NO_DB_ERROR] and the copy, [None] for [true]. *)
Definition copy_db_to (ok with_cte_resolution : bool) (db : option bytes) : bool * option bytes :=
  match db with None => (negb with_cte_resolution, None) | Some db => (false, if ok then Some db else None) end.

(** * Intervals *)

(** The numbers of an interval with this increment. *)
Definition interval_has d (incr v : Z) : Prop := exists i, 0 <= i < interval_values d /\ v = interval_min d + i * incr.
(** Its end is the number after the last one. *)
Definition interval_ok d (incr : Z) : Prop :=
  0 <= interval_min d /\ 0 <= interval_values d < ULONGLONG_MAX /\ interval_max d = interval_min d + interval_values d * incr /\ interval_max d < 2 ^ 64.

(** An interval that begins where another ends is merged into it, which then has the
    numbers of both, and any other leaves it as it is; an interval without an end ends at the largest number. *)
Theorem merge_is_union d start val incr : 0 < incr -> interval_ok d incr -> 0 <= val < ULONGLONG_MAX -> 0 <= start -> start + val * incr < 2 ^ 64 ->
  (interval_ok (new_interval start val incr) incr) /\
  (forall v, interval_has (new_interval start val incr) incr v <-> exists i, 0 <= i < val /\ v = start + i * incr) /\
  (if interval_max d =? start then
    exists d', merge_if_contiguous d start val incr = (false, d') /\ interval_next d' = interval_next d /\
      (interval_values d + val < ULONGLONG_MAX -> interval_ok d' incr /\
        forall v, interval_has d' incr v <-> interval_has d incr v \/ interval_has (new_interval start val incr) incr v)
   else merge_if_contiguous d start val incr = (true, d)) /\
  interval_max (new_interval start ULONGLONG_MAX incr) = ULONGLONG_MAX.
Proof.
  intros Hi (D0 & D1 & D2 & D3) Hv Hs Hb. assert (ULONGLONG_MAX = 18446744073709551615) as Em by done. assert (2 ^ 64 = 18446744073709551616) as Ep by done.
  assert (0 <= val * incr) as Hm by nia.
  assert (uwrap 64 (start + uwrap 64 (val * incr)) = start + val * incr) as Ew
    by (rewrite (uwrap_small 64 (val * incr)) by (unfold ufits; lia); apply uwrap_small; unfold ufits; lia).
  assert ((val =? ULONGLONG_MAX) = false) as Ev by (apply Z.eqb_neq; lia).
  assert (new_interval start val incr = mkInterval start val (start + val * incr) 0) as En
    by (unfold new_interval, interval_replace; by rewrite Ev, Ew).
  rewrite En. split; [unfold interval_ok; cbn [interval_min interval_values interval_max]; lia|]. split; [done|]. split; [|done].
  unfold merge_if_contiguous. rewrite Ev, Ew. destruct (Z.eqb_spec (interval_max d) start) as [<-|Hne]; [|done].
  eexists. split; [done|]. split; [done|]. intros Hl. rewrite (uwrap_small 64 (interval_values d + val)) by (unfold ufits; lia).
  split; [unfold interval_ok; cbn [interval_min interval_values interval_max]; nia|].
  intros v. unfold interval_has. cbn [interval_min interval_values]. split.
  - intros (i & Hr & ->). destruct (Z.lt_ge_cases i (interval_values d)); [left; exists i; lia|]. right. exists (i - interval_values d). rewrite D2. split; [lia|ring].
  - intros [(i & Hr & ->)|(i & Hr & ->)]; [exists i; lia|]. exists (interval_values d + i). rewrite D2. split; [lia|ring].
Qed.

Fixpoint ichain h (p : Z) (is_ : list Z) : Prop :=
  match is_ with [] => p = 0 | i :: is_ => p = i /\ i <> 0 /\ exists d, h !! i = Some d /\ ichain h (interval_next d) is_ end.
Lemma ichain_delete h p is_ a : a ∉ is_ -> ichain h p is_ -> ichain (delete a h) p is_.
Proof.
  revert p. induction is_ as [|i is_ IH]; intros p Ha Hc; [done|]. apply not_elem_of_cons in Ha as [Hn Ha].
  destruct Hc as (-> & Hi & d & Hd & Hc). split; [done|]. split; [done|]. exists d. rewrite lookup_delete_ne by done. auto.
Qed.
Lemma empty_from_spec is_ : forall h p fuel, NoDup is_ -> ichain h p is_ -> (length is_ < fuel)%nat ->
  exists h', empty_from fuel h p = Some h' /\ (forall a, h' !! a = if decide (a ∈ is_) then None else h !! a).
Proof.
  induction is_ as [|i is_ IH]; intros h p [|fuel] Hd Hc Hf; try (cbn in Hf; lia).
  - cbn in Hc. subst p. exists h. split; [done|]. intros a. rewrite decide_False; [done|]. apply not_elem_of_nil.
  - destruct Hc as (-> & Hi & d & Hl & Hc). apply list.NoDup_cons in Hd as [Hn Hd]. cbn [empty_from length] in *.
    rewrite (proj2 (Z.eqb_neq i 0)), Hl by done. cbn [mbind option_bind].
    destruct (IH (delete i h) (interval_next d) fuel) as (h' & -> & Hh); [done|by apply ichain_delete|lia|].
    exists h'. split; [done|]. intros a. rewrite Hh. destruct (decide (a ∈ is_)); [rewrite decide_True by set_solver; done|].
    destruct (decide (a = i)) as [->|]; [rewrite decide_True by set_solver; apply lookup_delete_eq|].
    rewrite decide_False by set_solver. by rewrite lookup_delete_ne.
Qed.
Lemma ichain_size h p is_ : NoDup is_ -> ichain h p is_ -> (length is_ <= size h)%nat.
Proof.
  intros Hd Hc. rewrite <- size_dom, <- (size_list_to_set (C := gset Z) is_) by done. apply subseteq_size.
  intros a Ha%elem_of_list_to_set. clear Hd. revert p Hc. induction is_ as [|i is_ IH]; intros p Hc; [by apply not_elem_of_nil in Ha|].
  destruct Hc as (-> & Hi & d & Hl & Hc). apply elem_of_cons in Ha as [->|Ha]; [apply elem_of_dom; by exists d|by eapply IH].
Qed.
(** The list of these intervals, of which the last ones are still to be used. *)
Record list_is h l (used rest : list Z) : Prop := {
  li_head : ichain h (il_head l) (used ++ rest); li_nodup : NoDup (used ++ rest);
  li_current : ichain h (il_current l) rest; li_elements : il_elements l = Z.of_nat (length (used ++ rest));
  li_tail i : last (used ++ rest) = Some i -> il_tail l = i
}.

(** A list of intervals gives each interval once, in order, and then NULL; emptying it deletes
    exactly its intervals, swapping two lists exchanges them, and its bounds are those of its first and last intervals. *)
Theorem intervals_list_spec h l used rest : list_is h l used rest ->
  (match rest with
   | [] => il_get_next h l = Some (0, l)
   | i :: rest => exists l', il_get_next h l = Some (i, l') /\ list_is h l' (used ++ [i]) rest
   end) /\
  (exists h', il_empty h l = Some (h', mkIList 0 0 0 0) /\ (forall a, h' !! a = if decide (a ∈ used ++ rest) then None else h !! a) /\ list_is h' (mkIList 0 0 0 0) [] []) /\
  (forall m, il_swap l m = (m, l)) /\
  (forall i d, head (used ++ rest) = Some i -> h !! i = Some d -> il_minimum h l = Some (interval_min d)) /\
  (forall i d, last (used ++ rest) = Some i -> h !! i = Some d -> il_maximum h l = Some (interval_max d)) /\
  (used ++ rest = [] -> il_minimum h l = Some 0 /\ il_maximum h l = Some 0).
Proof.
  intros [Hh Hd Hc He Ht]. split; [|split; [|split; [|split; [|split]]]].
  - unfold il_get_next. destruct rest as [|i rest]; [cbn in Hc; by rewrite Hc|].
    destruct Hc as (Ec & Hi & d & Hl & Hc). rewrite Ec, (proj2 (Z.eqb_neq i 0)) by done. cbn [negb]. rewrite Hl. cbn [mbind option_bind].
    eexists. split; [done|]. assert (used ++ i :: rest = (used ++ [i]) ++ rest) as Ea by (by rewrite <- app_assoc). rewrite Ea in *. by split.
  - destruct (empty_from_spec (used ++ rest) h (il_head l) (S (size h)) Hd Hh) as (h' & E & Hh'); [pose proof (ichain_size _ _ _ Hd Hh); lia|].
    exists h'. unfold il_empty. rewrite E. split; [done|]. split; [done|]. split; cbn; try done. apply NoDup_nil_2.
  - intros m. unfold il_swap, copy_shallow, set_members. by destruct l, m.
  - intros i d Hi Hl. unfold il_minimum. destruct (used ++ rest) as [|x xs]; [done|]. injection Hi as ->. destruct Hh as (-> & Hi & _). rewrite (proj2 (Z.eqb_neq i 0)) by done. cbn. by rewrite Hl.
  - intros i d Hi Hl. unfold il_maximum. pose proof (Ht i Hi) as Et. destruct (used ++ rest) as [|x xs] eqn:Eu; [done|]. destruct Hh as (-> & Hx & _). rewrite (proj2 (Z.eqb_neq x 0)) by done. cbn [negb]. by rewrite Et, Hl.
  - intros E. rewrite E in Hh. cbn in Hh. unfold il_minimum, il_maximum. by rewrite Hh.
Qed.

(** * Options *)

(** Adding options is their union: each test holds afterwards when it did for one of the two, and
    the operator [|], which should only compute it, also changes its first operand. *)
Theorem ddl_options_union (a b : Z) t :
  t ∈ [if_not_exists; or_replace; or_replace_slave_generated; opt_like; if_exists; is_create_select] ->
  t (opt_add a b) = t a || t b /\ (t OPT_NONE = false) /\ opt_or a b = (opt_add a b, opt_add a b) /\
  create_like_options (opt_add a b) = Z.lor (create_like_options a) (create_like_options b) /\
  exists x y, (opt_or x y).2 <> x.
Proof.
  assert (forall m, c_true (Z.land (Z.lor a b) m) = c_true (Z.land a m) || c_true (Z.land b m)) as Hm.
  { intros m. unfold c_true. rewrite Z.land_lor_distr_l, <- negb_andb. f_equal. apply eq_true_iff_eq. rewrite andb_true_iff, !Z.eqb_eq. apply Z.lor_eq_0_iff. }
  intros Ht. split; [|split; [|split; [|split]]].
  - repeat (apply elem_of_cons in Ht as [->|Ht]; [apply Hm|]). by apply not_elem_of_nil in Ht.
  - repeat (apply elem_of_cons in Ht as [->|Ht]; [done|]). by apply not_elem_of_nil in Ht.
  - done.
  - apply Z.land_lor_distr_l.
  - by exists OPT_NONE, OPT_LIKE.
Qed.

(** * Identifiers *)

Inductive id_op := Record_id (id : Z) | Read_prev | Set_prev (id : Z).
Definition id_step (o : id_op) s : insert_ids :=
  match o with
  | Record_id id => record_first_successful_insert_id_in_cur_stmt id s
  | Read_prev => (read_first_successful_insert_id_in_prev_stmt s).2
  | Set_prev id => set_prev_stmt id s
  end.
Definition id_run (os : list id_op) s : insert_ids := fold_left (λ s o, id_step o s) os s.
Definition recorded (os : list id_op) : list Z := omap (λ o, match o with Record_id id => if decide (id = 0) then None else Some id | _ => None end) os.
(** The value of the previous statement at each reading. *)
Fixpoint reads (prev : Z) (os : list id_op) : list Z :=
  match os with [] => [] | Record_id _ :: os => reads prev os | Read_prev :: os => prev :: reads prev os | Set_prev id :: os => reads id os end.

(** Through a statement that started anew, the identifier of the statement is the first one
    generated, the previous one is read as it is at the time, and the one for the binary log is the
    one that was read first, whatever is set later, and the statement depends on it exactly when it was read. *)
Theorem insert_ids_of_statement os prev old :
  let r := id_run os (mkIds prev old 0 false) in
  cur_stmt r = default 0 (head (recorded os)) /\
  prev_stmt_for_binlog r = default old (head (reads prev os)) /\
  stmt_depends r = match reads prev os with [] => false | _ => true end /\
  (read_first_successful_insert_id_in_prev_stmt r).1 = prev_stmt r.
Proof.
  assert (forall os s, cur_stmt (id_run os s) = (if cur_stmt s =? 0 then default 0 (head (recorded os)) else cur_stmt s) /\
    prev_stmt_for_binlog (id_run os s) = (if stmt_depends s then prev_stmt_for_binlog s else default (prev_stmt_for_binlog s) (head (reads (prev_stmt s) os))) /\
    stmt_depends (id_run os s) = stmt_depends s || match reads (prev_stmt s) os with [] => false | _ => true end) as H.
  { clear. induction os as [|o os IH]; intros s; cbn [id_run fold_left recorded omap list_omap reads].
    - rewrite orb_false_r. destruct (Z.eqb_spec (cur_stmt s) 0), (stmt_depends s); cbn; auto.
    - destruct (IH (id_step o s)) as (E1 & E2 & E3). unfold id_run in E1, E2, E3. rewrite E1, E2, E3.
      destruct o as [id| |id]; cbn [id_step].
      + unfold record_first_successful_insert_id_in_cur_stmt. destruct (Z.eqb_spec (cur_stmt s) 0) as [E|E]; cbn [cur_stmt prev_stmt stmt_depends prev_stmt_for_binlog].
        * destruct (decide (id = 0)) as [->|Hn]; [done|]. rewrite (proj2 (Z.eqb_neq id 0)) by done. done.
        * rewrite (proj2 (Z.eqb_neq (cur_stmt s) 0)) by done. done.
      + unfold read_first_successful_insert_id_in_prev_stmt. destruct (stmt_depends s) eqn:Ed; cbn [negb snd cur_stmt prev_stmt stmt_depends prev_stmt_for_binlog]; rewrite ?Ed; done.
      + done. }
  cbv zeta. destruct (H os (mkIds prev old 0 false)) as (E1 & E2 & E3). split; [exact E1|]. split; [exact E2|]. split; [exact E3|].
  unfold read_first_successful_insert_id_in_prev_stmt. by destruct (negb _).
Qed.

(** * Killing *)

(** A call of [set_killed]: the state, the error number, the message and whether it could be kept. *)
Abbreviation kill_call := (Z * Z * bytes * bool)%type.
Definition kill_run (cs : list kill_call) k : kill_state := fold_left (λ k c, set_killed_no_mutex c.1.1.1 c.1.1.2 c.1.2 c.2 k) cs k.

(** However a session is killed its state is the largest one asked for, so that it is
    never replaced by one with a smaller number and a killed connection stays killed; but
    a larger number may be a softer kill, so that a hard [KILL QUERY] becomes a soft abort. *)
Theorem killed_is_largest cs k :
  killed (kill_run cs k) = foldr Z.max (killed k) ((λ c, c.1.1.1) <$> cs) /\
  (KILL_CONNECTION <= killed k -> reset_kill_query_calls (kill_run cs k) = false) /\
  (forall c, c ∈ cs -> c.1.1.1 < killed k -> set_killed_no_mutex c.1.1.1 c.1.1.2 c.1.2 c.2 k = k) /\
  (exists k', killed k' = KILL_QUERY_HARD /\ killed (kill_run [(ABORT_QUERY, 0, [], true)] k') = ABORT_QUERY /\
     killed_mask_hard (killed k') = KILL_QUERY /\ Z.testbit (killed (kill_run [(ABORT_QUERY, 0, [], true)] k')) 0 = false).
Proof.
  assert (forall c k, killed (set_killed_no_mutex c.1.1.1 c.1.1.2 c.1.2 c.2 k) = Z.max (killed k) c.1.1.1) as Hs.
  { intros c k'. unfold set_killed_no_mutex. destruct (Z.leb_spec (killed k') c.1.1.1); cbn [killed]; lia. }
  assert (forall cs k, killed (kill_run cs k) = foldr Z.max (killed k) ((λ c, c.1.1.1) <$> cs)) as Hm.
  { clear -Hs. induction cs as [|c cs IH]; intros k; [done|]. cbn [kill_run fold_left fmap list_fmap foldr]. etrans; [apply IH|]. rewrite Hs.
    assert (forall (l : list Z) (a b : Z), foldr Z.max (Z.max a b) l = Z.max b (foldr Z.max a l)) as Hf by (induction l as [|x l IHl]; intros a b; cbn; [lia|rewrite IHl; lia]).
    apply Hf. }
  split; [apply Hm|]. split; [|split].
  - intros Hk. unfold reset_kill_query_calls. apply Z.ltb_ge. rewrite Hm.
    assert (forall (l : list Z) (a : Z), a <= foldr Z.max a l) as Hf by (induction l as [|x l IHl]; intros a; cbn; [lia|specialize (IHl a); lia]).
    specialize (Hf ((λ c, c.1.1.1) <$> cs) (killed k)). unfold KILL_CONNECTION in *. lia.
  - intros c _ Hc. unfold set_killed_no_mutex. by rewrite (proj2 (Z.leb_gt _ _) Hc).
  - exists (mkKill KILL_QUERY_HARD None). done.
Qed.

(** * Format of the binary log *)

(** What may happen between the statements of a session, and in one. *)
Inductive binlog_op := Row_if_mixed | Reset_row | Enter_sub (sub : bool) | Temporary (has : bool) | Statement_only (restore : bool).
Definition binlog_step (o : binlog_op) b : binlog :=
  match o with
  | Row_if_mixed => set_current_stmt_binlog_format_row_if_mixed b
  | Reset_row => reset_current_stmt_binlog_format_row b
  | Enter_sub sub => mkBinlog (session_format b) (current_format b) sub (has_temporary_tables b) (forced_format b)
  | Temporary has => mkBinlog (session_format b) (current_format b) (in_sub_stmt b) has (forced_format b)
  | Statement_only restore => let '(orig, b') := set_current_stmt_binlog_format_stmt b in if restore then default b' (restore_stmt_binlog_format orig b') else b'
  end.
Definition current_ok b : Prop := current_format b = BINLOG_FORMAT_STMT \/ current_format b = BINLOG_FORMAT_ROW.

(** The format of a statement is always that of statements or of rows, so that asking
    for it never fails; a sub-statement does not change it; it does not go back from rows to
    statements while there are temporary tables; at the end of a statement without them it
    is rows exactly when the session, or the cluster, asks for rows; and putting the old format back after a
    statement-only section gives the format before. *)
Theorem binlog_format_kept os b : current_ok b ->
  let r := fold_left (λ b o, binlog_step o b) os b in
  current_ok r /\ (exists row, is_current_stmt_binlog_format_row r = Some row) /\
  (in_sub_stmt r = true -> set_current_stmt_binlog_format_row_if_mixed r = r /\ reset_current_stmt_binlog_format_row r = r) /\
  (has_temporary_tables r = true -> current_format r = BINLOG_FORMAT_ROW ->
    current_format (reset_current_stmt_binlog_format_row r) = BINLOG_FORMAT_ROW /\ current_format (set_current_stmt_binlog_format_row_if_mixed r) = BINLOG_FORMAT_ROW) /\
  (has_temporary_tables r = false -> in_sub_stmt r = false ->
    is_current_stmt_binlog_format_row (reset_current_stmt_binlog_format_row r) = Some (wsrep_binlog_format r =? BINLOG_FORMAT_ROW)) /\
  binlog_step (Statement_only true) r = r.
Proof.
  intros Hb. cbv zeta. assert (current_ok (fold_left (λ b o, binlog_step o b) os b)) as Hr.
  { revert b Hb. induction os as [|o os IH]; intros b Hb; [done|]. cbn [fold_left]. apply IH. unfold current_ok in *.
    destruct o as [| |sub|has|restore]; cbn [binlog_step]; [| |done|done|].
    - unfold set_current_stmt_binlog_format_row_if_mixed. destruct (_ && _); [by right|done].
    - unfold reset_current_stmt_binlog_format_row. destruct (negb (in_sub_stmt b)); [|done]. destruct (_ =? _); [by right|].
      destruct (negb _); [by left|done].
    - destruct restore; [exact Hb|by left]. }
  generalize dependent (fold_left (λ b o, binlog_step o b) os b). intros r Hr.
  assert ((current_format r =? BINLOG_FORMAT_STMT) || (current_format r =? BINLOG_FORMAT_ROW) = true) as Ha by (destruct Hr as [-> | ->]; done).
  split; [done|]. split; [|split; [|split; [|split]]].
  - exists (current_format r =? BINLOG_FORMAT_ROW). unfold is_current_stmt_binlog_format_row. by rewrite asserting_true.
  - intros Hs. unfold set_current_stmt_binlog_format_row_if_mixed, reset_current_stmt_binlog_format_row. rewrite Hs. cbn [negb]. by rewrite andb_false_r.
  - intros Ht Hc. unfold set_current_stmt_binlog_format_row_if_mixed, reset_current_stmt_binlog_format_row. rewrite Ht. cbn [negb]. by repeat case_match.
  - intros Ht Hs. unfold reset_current_stmt_binlog_format_row. rewrite Ht, Hs. cbn [negb]. by destruct (wsrep_binlog_format r =? BINLOG_FORMAT_ROW).
  - cbn [binlog_step set_current_stmt_binlog_format_stmt]. by destruct r.
Qed.

(** * Waiting for a commit *)

Definition link w (x : Z) : option Z := next_subsequent_commit <$> w !! x.
Definition signal w (x : Z) : option (Z * Z) := (λ r, (waitee r, wakeup_error r)) <$> w !! x.
(** The waiters of a list that begins at [p]. *)
Fixpoint waiters w (p : Z) (xs : list Z) : Prop :=
  match xs with [] => p = 0 | x :: xs => p = x /\ x <> 0 /\ exists n, link w x = Some n /\ waiters w n xs end.
Lemma waiters_ext w w' p xs : (forall x, x ∈ xs -> link w' x = link w x) -> waiters w p xs -> waiters w' p xs.
Proof.
  revert p. induction xs as [|x xs IH]; intros p H Hc; [done|]. destruct Hc as (-> & Hx & n & Hn & Hc).
  split; [done|]. split; [done|]. exists n. rewrite H by set_solver. split; [done|]. apply IH; [|done]. set_solver.
Qed.
Lemma waiters_size w p xs : NoDup xs -> waiters w p xs -> (length xs <= size w)%nat.
Proof.
  intros Hd Hc. rewrite <- size_dom, <- (size_list_to_set (C := gset Z) xs) by done. apply subseteq_size.
  intros a Ha%elem_of_list_to_set. clear Hd. revert p Hc. induction xs as [|x xs IH]; intros p Hc; [by apply not_elem_of_nil in Ha|].
  destruct Hc as (-> & Hx & n & Hn & Hc). apply elem_of_cons in Ha as [->|Ha]; [|by eapply IH]. apply fmap_Some in Hn as (r & Hr & _). apply elem_of_dom. by exists r.
Qed.
Lemma filter_keep {A} (P : A -> Prop) `{forall x, Decision (P x)} (xs : list A) : (forall x, x ∈ xs -> P x) -> filter P xs = xs.
Proof.
  induction xs as [|x xs IH]; intros E; [done|]. rewrite filter_cons_True by (apply E; left). f_equal. apply IH. intros y Hy. apply E. by right.
Qed.
Definition next_ptr_object (p : next_ptr) : Z := match p with List_of a | Link_of a => a end.
(** Writing at a position changes no other link, and no signal. *)
Lemma assign_at_spec w p v : is_Some (load_ptr w p) -> exists w', assign_at w p v = Some w' /\ load_ptr w' p = Some v /\ dom w' = dom w /\
  (forall x, signal w' x = signal w x) /\ (forall x, p <> Link_of x -> link w' x = link w x) /\
  (forall q, q <> p -> load_ptr w' q = load_ptr w q).
Proof.
  intros [h Hl]. destruct p as [a|a]; cbn [load_ptr assign_at] in *; apply fmap_Some in Hl as (r & Hr & ->); rewrite Hr; cbn [mbind option_bind]; eexists; (split; [done|]).
  all: split; [by rewrite lookup_insert_eq|].
  all: split; [rewrite dom_insert_L; assert (a ∈ dom w) by (apply elem_of_dom; by eexists); set_solver|].
  all: unfold signal, link; split; [intros x; destruct (decide (x = a)) as [->|]; [by rewrite lookup_insert_eq, Hr|by rewrite lookup_insert_ne]|].
  all: split; [intros x Hx; destruct (decide (x = a)) as [->|]; [rewrite lookup_insert_eq, Hr; done || congruence|by rewrite lookup_insert_ne]|].
  all: intros [c|c] Hq; cbn [load_ptr]; (destruct (decide (c = a)) as [->|]; [rewrite lookup_insert_eq, Hr; done || congruence|by rewrite lookup_insert_ne]).
Qed.
Lemma waiters_unlink_spec this xs : forall w p (h : Z) fuel, load_ptr w p = Some h -> waiters w h xs -> NoDup xs -> next_ptr_object p ∉ xs -> (length xs < fuel)%nat ->
  exists w' (h' : Z), unlink_from fuel w this p = Some w' /\ load_ptr w' p = Some h' /\ waiters w' h' (filter (λ x, x <> this) xs) /\ dom w' = dom w /\ (forall x, signal w' x = signal w x) /\
    (forall q, q <> p -> next_ptr_object q ∉ xs -> load_ptr w' q = load_ptr w q).
Proof.
  induction xs as [|x xs IH]; intros w p h [|fuel] Hl Hc Hd Hp Hf; try (cbn in Hf; lia); cbn [unlink_from]; rewrite Hl; cbn [mbind option_bind].
  - cbn in Hc. subst h. exists w, 0. done.
  - destruct Hc as (-> & Hx & n & Hn & Hc). apply list.NoDup_cons in Hd as [Hxn Hd]. apply not_elem_of_cons in Hp as [Hpx Hp].
    rewrite (proj2 (Z.eqb_neq x 0)) by done. destruct (Z.eqb_spec x this) as [<-|Hne].
    + apply fmap_Some in Hn as Hn'. destruct Hn' as (r & Hr & En). rewrite Hr. cbn [mbind option_bind]. rewrite <- En.
      destruct (assign_at_spec w p n (ex_intro _ x Hl)) as (w' & -> & Hl' & Hdom & Hs & Hlk & Hq).
      exists w', n. split; [done|]. split; [done|]. rewrite filter_cons_False by naive_solver.
      assert (filter (λ y, y <> x) xs = xs) as -> by (apply filter_keep; intros y Hy ->; done).
      split; [|split; [done|split; [done|by intros q Hne _; apply Hq]]].
      apply waiters_ext with w; [|done]. intros y Hy. apply Hlk. intros ->. by apply Hp.
    + rewrite filter_cons_True by done. cbn [length] in Hf.
      destruct (IH w (Link_of x) n fuel) as (w' & n' & E & Hl' & Hc' & Hdom & Hs & Hq); [exact Hn|done|done|exact Hxn|lia|].
      exists w', x. split; [exact E|]. split; [rewrite Hq; [done| |done]|].
      * destruct p; intros [= ->]; by apply Hpx.
      * split; [|split; [done|split; [done|]]].
        -- split; [done|]. split; [done|]. by exists n'.
        -- intros q Hqp Hqx. apply not_elem_of_cons in Hqx as [Hqx Hqn]. apply Hq; [|done]. intros ->. by apply Hqx.
Qed.

(** Removing a waiter from the list of the commit that it waits for always ends, whether it is
    in the list or not: the list is that of the other waiters in the same order,
    the waiter waits for nothing, so that its next wait returns at once with the error that it
    was woken with, and no other waiter is signalled. *)
Theorem remove_from_list_spec w a this xs (h : Z) : load_ptr w (List_of a) = Some h -> waiters w h xs -> NoDup xs -> a ∉ xs -> is_Some (w !! this) ->
  exists w' (h' : Z), remove_from_list w this (List_of a) = Some w' /\ load_ptr w' (List_of a) = Some h' /\ waiters w' h' (filter (λ x, x <> this) xs) /\
    (exists e, signal w this = Some e /\ signal w' this = Some (0, e.2) /\ wait_for_prior_commit w' this = Some (Some e.2) /\ unregister_wait_for_prior_commit w' this <> None) /\
    (forall x, x <> this -> signal w' x = signal w x).
Proof.
  intros Hl Hc Hd Ha [r Hr].
  destruct (waiters_unlink_spec this xs w (List_of a) h (S (size w)) Hl Hc Hd Ha) as (w1 & h1 & E & Hl1 & Hc1 & Hdom & Hs & _); [pose proof (waiters_size _ _ _ Hd Hc); lia|].
  assert (is_Some (w1 !! this)) as [r1 Hr1] by (apply elem_of_dom; rewrite Hdom; apply elem_of_dom; by exists r).
  unfold remove_from_list. rewrite E. cbn [mbind option_bind]. unfold set_waitee. rewrite Hr1. cbn [mbind option_bind].
  set (w2 := <[this := _]> w1). exists w2, h1.
  assert (forall x, link w2 x = link w1 x) as Hlk.
  { intros x. unfold link, w2. destruct (decide (x = this)) as [->|]; [by rewrite lookup_insert_eq, Hr1|by rewrite lookup_insert_ne]. }
  split; [done|]. split; [|split; [by apply waiters_ext with w1|split]].
  - cbn [load_ptr] in *. unfold w2. destruct (decide (a = this)) as [->|]; [rewrite lookup_insert_eq; rewrite Hr1 in Hl1; exact Hl1|by rewrite lookup_insert_ne].
  - exists (waitee r, wakeup_error r). assert (signal w this = Some (waitee r, wakeup_error r)) as E1 by (unfold signal; by rewrite Hr).
    pose proof (Hs this) as E2. rewrite E1 in E2. unfold signal in E2. rewrite Hr1 in E2. injection E2 as E2 E3.
    split; [done|]. unfold signal, wait_for_prior_commit, unregister_wait_for_prior_commit, w2. rewrite !lookup_insert_eq. cbn. by rewrite E3.
  - intros x Hx. rewrite <- Hs. unfold signal, w2. by rewrite lookup_insert_ne.
Qed.

(** * Statements and names *)

(** The answers of these searches, one after the other. *)
Fixpoint find_run (st_hash : statements) (ids : list Z) (last : option Z) : list (option Z) :=
  match ids with [] => [] | id :: ids => let '(r, last) := find_statement st_hash id last in r :: find_run st_hash ids last end.
(** Searching statements through the last one found is searching the hash: each
    search finds the statement with the identifier, if there is one and it has no name. *)
Theorem find_statement_spec st_hash ids last : (forall x : Z, last = Some x -> st_hash !! x = Some false) ->
  find_run st_hash ids last = (λ id, match st_hash !! id with Some false => Some id | _ => None end) <$> ids.
Proof.
  revert last. induction ids as [|id ids IH]; intros last Hl; [done|]. cbn [find_run fmap list_fmap]. unfold find_statement.
  destruct last as [x|].
  - destruct (Z.eqb_spec id x) as [->|Hn]; cbn [negb].
    + rewrite (Hl x eq_refl). f_equal. by apply IH.
    + destruct (st_hash !! id) as [[]|] eqn:E; f_equal; apply IH; [done|by intros y [= <-]|done].
  - destruct (st_hash !! id) as [[]|] eqn:E; f_equal; apply IH; [done|by intros y [= <-]|done].
Qed.

(** No NUL byte and no separator. *)
Definition plain (c : byte) (txt : bytes) : Prop := Forall (λ x, byteZ x <> byteZ c /\ byteZ x <> 0) txt.
Lemma strchr_plain c before after : plain c before -> strchr (before ++ [c] ++ after) c = Some (before, after).
Proof.
  intros Hp. induction Hp as [|x before [Hx H0] Hp IH]; cbn [app strchr]; [by rewrite Z.eqb_refl|].
  rewrite (proj2 (Z.eqb_neq _ _) Hx), (proj2 (Z.eqb_neq _ _) H0). cbn [app] in IH. by rewrite IH.
Qed.
Lemma strchr_none c txt : plain c txt -> strchr txt c = None.
Proof.
  intros Hp. induction Hp as [|x txt [Hx H0] Hp IH]; cbn [strchr]; [done|]. by rewrite (proj2 (Z.eqb_neq _ _) Hx), (proj2 (Z.eqb_neq _ _) H0), IH.
Qed.
Lemma strchr_split c txt before after : strchr txt c = Some (before, after) -> exists x, byteZ x = byteZ c /\ txt = before ++ [x] ++ after.
Proof.
  revert before. induction txt as [|x txt IH]; intros before; [done|]. cbn [strchr]. destruct (Z.eqb_spec (byteZ x) (byteZ c)) as [E|E].
  - intros [= <- <-]. by exists x.
  - destruct (byteZ x =? 0); [done|]. destruct (strchr txt c) as [[b a]|]; [|done]. cbn. intros [= <- <-].
    destruct (IH b eq_refl) as (y & Hy & ->). by exists y.
Qed.

(** A qualified name is written as the database, if there is one, a dot and the name,
    with the length that is returned, and is split into them again when the database has no dot;
    a name without a dot is split into itself, with no database, and writing what was split gives the text back unless it begins with a dot;
    the name of a routine of a package is complete and split in the same way. *)
Theorem qualified_name_roundtrip db name : plain dot db -> plain dot name ->
  (db <> [] -> exists txt, make_qname true (mkName (Some db) name) = Some (txt, length txt) /\ split txt = mkName (Some db) name) /\
  (exists txt, make_qname true (mkName None name) = Some (txt, length txt) /\ split txt = mkName None name) /\
  (forall txt, match m_db (split txt) with Some [] => True | _ => option_map fst (make_qname true (split txt)) = Some txt end) /\
  (exists txt, make_package_routine_name true db name = Some txt /\ split txt = mkName (Some db) name) /\
  (forall n dstlen, (length (db_bytes n) + 1 + length (m_name n) < dstlen)%nat -> make_qname_buf dstlen n = db_bytes n ++ [dot] ++ m_name n).
Proof.
  intros Hdb Hn. split; [|split; [|split; [|split]]].
  - intros Hne. exists (db ++ [dot] ++ name). unfold make_qname, db_bytes. cbn [m_db m_name default from_option id].
    destruct db as [|x db]; [done|]. cbn [length Nat.eqb]. split; [f_equal; f_equal; rewrite !length_app; cbn; lia|].
    unfold split. by rewrite strchr_plain.
  - exists name. split; [unfold make_qname, db_bytes; cbn; done|]. unfold split. by rewrite strchr_none.
  - intros txt. unfold split. destruct (strchr txt dot) as [[b a]|] eqn:E; [|done]. cbn [m_db]. destruct b as [|x b]; [done|].
    apply strchr_split in E as (y & Hy & ->). unfold make_qname, db_bytes. cbn. assert (y = dot) as ->; [|done].
    rewrite <- (Zbyte_byteZ y), <- (Zbyte_byteZ dot). by rewrite Hy.
  - exists (db ++ [dot] ++ name). unfold make_package_routine_name. split; [|unfold split; by rewrite strchr_plain].
    rewrite take_ge; [done|]. rewrite !length_app. cbn. lia.
  - intros n dstlen H. unfold make_qname_buf. apply take_ge. rewrite !length_app. cbn. lia.
Qed.

Definition escape (quote : byte) (txt : bytes) : bytes := mjoin ((λ c, if byteZ c =? byteZ quote then [quote; quote] else [c]) <$> txt).
(** Text with doubled quotes is read back with single ones, and whatever the text the
    result and its terminating byte fit in the memory allocated for them. *)
Theorem quote_unescape_spec quote txt :
  unescape (escape quote txt) quote = txt /\
  (forall src, exists dst room, quote_unescape true src quote = Some (dst, room) /\ (length dst <= room)%nat /\ last dst = Some x00).
Proof.
  split.
  - induction txt as [|c txt IH]; [done|]. unfold escape in *. cbn [fmap list_fmap]. rewrite mjoin_cons.
    destruct (Z.eqb_spec (byteZ c) (byteZ quote)) as [E|E].
    + cbn [app unescape]. rewrite Z.eqb_refl. assert (c = quote) as -> by (rewrite <- (Zbyte_byteZ c), <- (Zbyte_byteZ quote); by rewrite E). by rewrite IH.
    + cbn [app unescape]. by rewrite (proj2 (Z.eqb_neq _ _) E), IH.
  - intros src. unfold quote_unescape. eexists _, _. split; [done|]. split; [|by rewrite last_snoc]. rewrite length_app. cbn [length].
    assert (forall n src, (length src <= n)%nat -> (length (unescape src quote) <= length src)%nat) as H; [|specialize (H (length src) src); lia].
    clear. induction n as [|n IH]; intros [|c src] Hl; cbn [length unescape] in *; try lia.
    destruct (byteZ c =? byteZ quote); [destruct src as [|c' src]|]; cbn [length] in *; [lia|specialize (IH src); lia|specialize (IH src); lia].
Qed.

(** * Witnesses *)

Lemma merge_is_union_witness : exists d', merge_if_contiguous (new_interval 1 2 3) 7 2 3 = (false, d') /\ interval_has d' 3 10.
Proof.
  assert (interval_ok (new_interval 1 2 3) 3) as Ho by (vm_compute; done).
  destruct (merge_is_union (new_interval 1 2 3) 7 2 3) as (_ & Hv & H & _); [done|exact Ho|done|done|done|].
  change (interval_max (new_interval 1 2 3) =? 7) with true in H. destruct H as (d' & E & _ & H).
  exists d'. split; [exact E|]. apply H; [done|]. right. apply Hv. exists 1. done.
Defined.
Definition sample_intervals : intervals := <[8 := mkInterval 1 2 7 16]> (<[16 := mkInterval 20 1 23 0]> ∅).
Lemma intervals_list_spec_witness : il_maximum sample_intervals (mkIList 8 16 8 2) = Some 23.
Proof.
  assert (list_is sample_intervals (mkIList 8 16 8 2) [] [8; 16]) as H.
  { split; [| |..].
    - cbn. split; [done|]. split; [done|]. exists (mkInterval 1 2 7 16). split; [vm_compute; reflexivity|]. split; [done|]. split; [done|]. exists (mkInterval 20 1 23 0). split; [vm_compute; reflexivity|reflexivity].
    - repeat constructor; set_solver.
    - cbn. split; [done|]. split; [done|]. exists (mkInterval 1 2 7 16). split; [vm_compute; reflexivity|]. split; [done|]. split; [done|]. exists (mkInterval 20 1 23 0). split; [vm_compute; reflexivity|reflexivity].
    - reflexivity.
    - intros i [= <-]. reflexivity. }
  destruct (intervals_list_spec sample_intervals (mkIList 8 16 8 2) [] [8; 16] H) as (_ & _ & _ & _ & Hm & _).
  apply (Hm 16 (mkInterval 20 1 23 0)); [reflexivity|vm_compute; reflexivity].
Defined.
Lemma ddl_options_union_witness : or_replace (opt_add OPT_LIKE OPT_OR_REPLACE) = true.
Proof. etrans; [apply (ddl_options_union OPT_LIKE OPT_OR_REPLACE or_replace); apply list_elem_of_further, list_elem_of_here|]. reflexivity. Defined.
Lemma killed_is_largest_witness : set_killed_no_mutex KILL_QUERY 0 [] true (mkKill KILL_CONNECTION None) = mkKill KILL_CONNECTION None.
Proof.
  apply (killed_is_largest [(KILL_QUERY, 0, [], true)] (mkKill KILL_CONNECTION None)) with (c := (KILL_QUERY, 0, [], true)); [apply list_elem_of_here|reflexivity].
Defined.
Definition sample_binlog : binlog := mkBinlog BINLOG_FORMAT_MIXED BINLOG_FORMAT_STMT false false BINLOG_FORMAT_UNSPEC.
Lemma binlog_format_kept_witness : is_current_stmt_binlog_format_row (reset_current_stmt_binlog_format_row (set_current_stmt_binlog_format_row_if_mixed sample_binlog)) = Some false.
Proof. apply (binlog_format_kept [Row_if_mixed] sample_binlog); [by left|reflexivity|reflexivity]. Defined.
Definition sample_waits : waits := <[8 := mkWait 0 0 0 16]> (<[16 := mkWait 24 8 5 0]> (<[24 := mkWait 0 8 6 0]> ∅)).
Lemma remove_from_list_spec_witness : exists w', remove_from_list sample_waits 24 (List_of 8) = Some w' /\ waiters w' 16 [16].
Proof.
  assert (waiters sample_waits 16 [16; 24]) as Hc.
  { cbn. split; [done|]. split; [done|]. exists 24. split; [vm_compute; reflexivity|]. split; [done|]. split; [done|]. exists 0. split; [vm_compute; reflexivity|reflexivity]. }
  destruct (remove_from_list_spec sample_waits 8 24 [16; 24] 16) as (w' & h' & E & Hl & H & _);
    [vm_compute; reflexivity|exact Hc|repeat constructor; set_solver|set_solver|by (eexists; vm_compute; reflexivity)|].
  exists w'. split; [exact E|]. change (filter (λ x, x <> 24) [16; 24]) with [16] in H. destruct H as (-> & H). split; [reflexivity|exact H].
Defined.
Lemma find_statement_spec_witness : find_run {[1 := false; 2 := true]} [1; 1; 2; 3; 1] None = [Some 1; Some 1; None; None; Some 1].
Proof. etrans; [apply find_statement_spec; intros x [=]|]. vm_compute. reflexivity. Defined.
Lemma qualified_name_roundtrip_witness : split [x61; x62; x2e; x63] = mkName (Some [x61; x62]) [x63].
Proof.
  assert (plain dot [x61; x62] /\ plain dot [x63]) as [Hd Hn] by (split; repeat constructor; vm_compute; congruence).
  destruct (qualified_name_roundtrip [x61; x62] [x63] Hd Hn) as (_ & _ & _ & (txt & E & H) & _). vm_compute in E. injection E as <-. exact H.
Defined.
