(* ===== verification/SqlInList.v ===== *)
(** Comparing a value with a list of values: the comparators [cmp_item] and
    [Predicant_to_list_comparator] of [private/item_cmpfunc.h], which IN, CASE and
    DECODE_ORACLE are made of.

    An item is what its methods return, with the [null_value] that they leave; [null_value]
    is a member that evaluating sets, in a store indexed by the item.  A type handler is its
    address.  The class [CmpItem] is the interface of a comparator, and its law that storing a value
    forgets the one before; the scalar comparators that the header defines are an instance.
    The comparators of rows and of the other types are only declared there. *)

From S2P Require Import Prelude CDouble.

Abbreviation bytes := (list byte).

(** * Items and values *)

Definition FALSE : Z := 0.
Definition TRUE : Z := 1.
Definition UNKNOWN : Z := -1.

(** [m_type] with the member of the union that it selects. *)
Inductive Value := DYN_COL_NULL | DYN_COL_INT (m_longlong : Z) | DYN_COL_UINT (m_longlong : Z) | DYN_COL_DOUBLE (m_double : double) | DYN_COL_STRING (m_string : bytes) | DYN_COL_DECIMAL | DYN_COL_DATETIME.
Definition is_null (v : Value) : bool := match v with DYN_COL_NULL => true | _ => false end.
Definition value_longlong (v : Value) : option Z := match v with DYN_COL_INT n | DYN_COL_UINT n => Some n | _ => None end.
Definition value_double (v : Value) : option double := match v with DYN_COL_DOUBLE x => Some x | _ => None end.
Definition value_string (v : Value) : option bytes := match v with DYN_COL_STRING s => Some s | _ => None end.

(** What [val_int], [val_real] and [val_str] return, whether the string is in the buffer that was passed,
    the [null_value] after any of them, and what [Item_save_in_value] of a handler saves. *)
Record Item := mkItem { val_int : Z; val_real : double; val_str : option bytes; str_in_buffer : bool; null_after : bool; saved : Z -> Value }.
Implicit Types (it p a : Item).

(** * Comparators *)

Class CmpItem (C : Type) := {
  store_value : C -> Item -> C;
  ci_cmp : C -> Item -> Z;
  cmp_not_null : C -> Value -> option Z
}.
Class CmpItemLaws C `{CmpItem C} : Prop := {
  store_again c it it' : store_value (store_value c it) it' = store_value c it'
}.

(** ** The scalar comparators *)

Section Scalar.
(** [sortcmp] in the collation [cmp_charset], and whether [String::copy] fails. *)
Context (sortcmp : Z -> bytes -> bytes -> Z) (copy_fails : bytes -> bool).

Inductive cmp_item :=
| cmp_item_int (value : Z) (m_null_value : bool)
| cmp_item_real (value : double) (m_null_value : bool)
| cmp_item_sort_string (cmp_charset : Z) (value_res : option bytes) (m_null_value : bool).

(** [value_res] when the result is cached in [value]. *)
Definition cached_string it : option bytes :=
  match val_str it with
  | Some s => Some (if str_in_buffer it then s else if copy_fails s then [] else s)
  | None => None
  end.
Definition c_rc (b : bool) : Z := if b then TRUE else FALSE.

(** [cmp_item_int]. *)
Definition int_store_value it : cmp_item := cmp_item_int (val_int it) (null_after it).
Definition int_cmp_not_null (value : Z) (val : Value) : option Z :=
  _ ← asserting (negb (is_null val)) tt; n ← value_longlong val; Some (c_rc (negb (value =? n))).
Definition int_cmp (value : Z) (m_null_value : bool) (arg : Item) : Z :=
  let rc := c_rc (negb (value =? val_int arg)) in if m_null_value || null_after arg then UNKNOWN else rc.
Definition int_compare (value l_value : Z) : Z := if value <? l_value then -1 else if value =? l_value then 0 else 1.

(** [cmp_item_real]. *)
Definition real_store_value it : cmp_item := cmp_item_real (val_real it) (null_after it).
Definition real_cmp_not_null (value : double) (val : Value) : option Z :=
  _ ← asserting (negb (is_null val)) tt; x ← value_double val; Some (c_rc (negb (deq value x))).
Definition real_cmp (value : double) (m_null_value : bool) (arg : Item) : Z :=
  let rc := c_rc (negb (deq value (val_real arg))) in if m_null_value || null_after arg then UNKNOWN else rc.
Definition real_compare (value l_value : double) : Z := if dlt value l_value then -1 else if deq value l_value then 0 else 1.

(** [cmp_item_sort_string]. *)
Definition string_store_value (cs : Z) it : cmp_item := cmp_item_sort_string cs (cached_string it) (null_after it).
Definition string_cmp_not_null (cs : Z) (value_res : option bytes) (val : Value) : option Z :=
  _ ← asserting (negb (is_null val)) tt; s ← value_string val; r ← value_res; Some (c_rc (negb (sortcmp cs r s =? 0))).
Definition string_cmp (cs : Z) (value_res : option bytes) (m_null_value : bool) (arg : Item) : Z :=
  let res := val_str arg in
  if m_null_value || null_after arg then UNKNOWN
  else match value_res, res with
       | Some v, Some r => c_rc (negb (sortcmp cs v r =? 0))
       | None, None => FALSE
       | _, _ => TRUE
       end.
Definition string_compare (cs : Z) (value_res l_res : option bytes) : option Z := v ← value_res; l ← l_res; Some (sortcmp cs v l).

(** The virtual methods. *)
Definition scalar_store_value (c : cmp_item) it : cmp_item :=
  match c with cmp_item_int _ _ => int_store_value it | cmp_item_real _ _ => real_store_value it | cmp_item_sort_string cs _ _ => string_store_value cs it end.
Definition scalar_cmp (c : cmp_item) (arg : Item) : Z :=
  match c with cmp_item_int v n => int_cmp v n arg | cmp_item_real v n => real_cmp v n arg | cmp_item_sort_string cs v n => string_cmp cs v n arg end.
Definition scalar_cmp_not_null (c : cmp_item) (val : Value) : option Z :=
  match c with cmp_item_int v _ => int_cmp_not_null v val | cmp_item_real v _ => real_cmp_not_null v val | cmp_item_sort_string cs v _ => string_cmp_not_null cs v val end.
(** [compare] of two comparators of the same class; [None] when the pointer is cast wrongly or there is no string. *)
Definition scalar_compare (c ci : cmp_item) : option Z :=
  match c, ci with
  | cmp_item_int v _, cmp_item_int l _ => Some (int_compare v l)
  | cmp_item_real v _, cmp_item_real l _ => Some (real_compare v l)
  | cmp_item_sort_string cs v _, cmp_item_sort_string _ l _ => string_compare cs v l
  | _, _ => None
  end.
#[export] Instance scalar_CmpItem : CmpItem cmp_item := {|
  store_value := scalar_store_value; ci_cmp := scalar_cmp; cmp_not_null := scalar_cmp_not_null |}.
#[export] Instance scalar_CmpItemLaws : CmpItemLaws cmp_item.
Proof. constructor. intros [] ??; reflexivity. Qed.
End Scalar.

(** * [Predicant_to_list_comparator] *)

Section List.
Context {C : Type} `{CI : CmpItem C}.
(** What the items of the program return, and the address of [type_handler_row]. *)
Context (items : Z -> Item) (type_handler_row : Z).

Record Predicant_to_value_comparator := mkPVC { m_handler : Z; m_cmp_item : option C; m_arg_index : nat; m_handler_index : nat }.
Record Predicant_to_list_comparator := mkPLC { m_comparators : list Predicant_to_value_comparator; m_comparator_count : nat; m_predicant_index : nat }.
(** The members [null_value] of the items. *)
Abbreviation nulls := (gmap Z bool).
Implicit Types (c : Predicant_to_value_comparator) (l : Predicant_to_list_comparator) (s : nulls) (args : list Z).
Definition null_value s (p : Z) : bool := default false (s !! p).
Definition eval s (p : Z) : nulls := <[p := null_after (items p)]> s.

(** The loop of [find_handler] from [i]: [None] out of the array. *)
Fixpoint find_handler_from l (handler : Z) (count i : nat) : option (option nat) :=
  match count with
  | O => Some None
  | S count => c ← m_comparators l !! i; if m_handler c =? handler then Some (Some i) else find_handler_from l handler count (S i)
  end.
(** [None] inside for [true], not found. *)
Definition find_handler l (handler : Z) (count : nat) : option (option nat) :=
  _ ← asserting (count <? m_comparator_count l)%nat tt; find_handler_from l handler count 0.

Definition with_cmp_item l (i : nat) (ci : C) : Predicant_to_list_comparator :=
  match m_comparators l !! i with
  | Some c => mkPLC (<[i := mkPVC (m_handler c) (Some ci) (m_arg_index c) (m_handler_index c)]> (m_comparators l)) (m_comparator_count l) (m_predicant_index l)
  | None => l
  end.
Definition cmp_arg l s args (i : nat) : option (Z * Predicant_to_list_comparator * nulls) :=
  c ← m_comparators l !! i; cmp ← m_comparators l !! m_handler_index c; in_item ← m_cmp_item cmp; predicant ← args !! m_predicant_index l;
  let '(in_item, l, s) :=
    if (m_handler_index c =? i)%nat
    then let in_item := store_value in_item (items predicant) in (in_item, with_cmp_item l (m_handler_index c) in_item, eval s predicant)
    else (in_item, l, s) in
  if null_value s predicant && negb (m_handler c =? type_handler_row) then Some (UNKNOWN, l, s)
  else arg ← args !! m_arg_index c; Some (ci_cmp in_item (items arg), l, eval s arg).
Definition cmp_args_nulls_equal l s args (i : nat) : option (Z * Predicant_to_list_comparator * nulls) :=
  c ← m_comparators l !! i; cmp ← m_comparators l !! m_handler_index c; in_item ← m_cmp_item cmp;
  predicant ← args !! m_predicant_index l; arg ← args !! m_arg_index c;
  let '(in_item, l, s) :=
    if (m_handler_index c =? i)%nat
    then let in_item := store_value in_item (items predicant) in (in_item, with_cmp_item l (m_handler_index c) in_item, eval s predicant)
    else (in_item, l, s) in
  let val := saved (items arg) (m_handler c) in
  let s := eval s arg in
  if null_value s predicant && is_null val then Some (FALSE, l, s)
  else if null_value s predicant || is_null val then Some (UNKNOWN, l, s)
  else rc ← cmp_not_null in_item val; Some (rc, l, s).

(** [cleanup] of each comparator, and the constructor before the allocation. *)
Definition pvc_cleanup : Predicant_to_value_comparator := mkPVC 0 None 0 0.
Definition plc_cleanup l : Predicant_to_list_comparator :=
  mkPLC (replicate (m_comparator_count l) pvc_cleanup ++ drop (m_comparator_count l) (m_comparators l)) 0 0.
Definition add_predicant l args (predicant_index : nat) : option Predicant_to_list_comparator :=
  _ ← asserting (m_comparator_count l =? 0)%nat tt; _ ← asserting (m_predicant_index l =? 0)%nat tt; _ ← asserting (predicant_index <? length args)%nat tt;
  Some (mkPLC (m_comparators l) (m_comparator_count l) predicant_index).

(** The loop of [cmp] with [n] comparators left from [i]; [found] is [None] for a null pointer.  The results are the return value, [*idx] and [*found_unknown_values]. *)
Abbreviation outcome := (bool * nat * option bool * Predicant_to_list_comparator * nulls)%type.
Fixpoint cmp_from (n i : nat) l s args (idx : nat) (found_unknown_values : option bool) : option outcome :=
  match n with
  | O => Some (true, idx, found_unknown_values, l, s)
  | S n =>
      c ← m_comparators l !! i; _ ← asserting (negb (m_handler c =? 0)) tt;
      r ← cmp_arg l s args i;
      let '(rc, l, s) := r in
      if rc =? FALSE then Some (false, m_arg_index c, found_unknown_values, l, s)
      else if rc =? UNKNOWN
           then match found_unknown_values with
                | None => Some (true, idx, None, l, s)
                | Some _ => cmp_from n (S i) l s args idx (Some true)
                end
           else cmp_from n (S i) l s args idx found_unknown_values
  end.
Definition cmp l s args (idx : nat) (found_unknown_values : option bool) : option outcome :=
  cmp_from (m_comparator_count l) 0 l s args idx found_unknown_values.
Fixpoint cmp_nulls_equal_from (n i : nat) l s args (idx : nat) : option (bool * nat * Predicant_to_list_comparator * nulls) :=
  match n with
  | O => Some (true, idx, l, s)
  | S n =>
      c ← m_comparators l !! i; _ ← asserting (negb (m_handler c =? 0)) tt;
      r ← cmp_args_nulls_equal l s args i;
      let '(rc, l, s) := r in
      if rc =? FALSE then Some (false, m_arg_index c, l, s) else cmp_nulls_equal_from n (S i) l s args idx
  end.
Definition cmp_nulls_equal l s args (idx : nat) : option (bool * nat * Predicant_to_list_comparator * nulls) :=
  cmp_nulls_equal_from (m_comparator_count l) 0 l s args idx.

(** * Pairs compared on their own *)

(** A comparator per handler, as [make_unique_cmp_items] creates, before any value is stored. *)
Context (make : Z -> C).
Definition pair_result (handler : Z) p a : Z :=
  if null_after p && negb (handler =? type_handler_row) then UNKNOWN else ci_cmp (store_value (make handler) p) a.
Definition pair_nulls_equal (handler : Z) p a : option Z :=
  if null_after p && is_null (saved a handler) then Some FALSE
  else if null_after p || is_null (saved a handler) then Some UNKNOWN
  else cmp_not_null (store_value (make handler) p) (saved a handler).
(** A comparator that behaves as a new one once a value is stored. *)
Definition like (ci ci' : C) : Prop := forall p, store_value ci p = store_value ci' p.
(** What [all_values_added] and [make_unique_cmp_items] establish (they are only declared). *)
Record prepared l args : Prop := {
  prep_predicant : is_Some (args !! m_predicant_index l);
  prep_count : (m_comparator_count l <= length (m_comparators l))%nat;
  prep_handlers : forall i c, (i < m_comparator_count l)%nat -> m_comparators l !! i = Some c ->
    m_handler c <> 0 /\ is_Some (args !! m_arg_index c) /\ (m_handler_index c <= i)%nat /\
    exists c' ci, m_comparators l !! m_handler_index c = Some c' /\ m_handler c' = m_handler c /\ m_handler_index c' = m_handler_index c /\
      m_cmp_item c' = Some ci /\ like ci (make (m_handler c))
}.
(** The results of the pairs one by one. *)
Definition pair_of l args c : Z := pair_result (m_handler c) (items (default 0 (args !! m_predicant_index l))) (items (default 0 (args !! m_arg_index c))).
Definition pairs l args : list Z := pair_of l args <$> take (m_comparator_count l) (m_comparators l).
End List.
Arguments Predicant_to_value_comparator : clear implicits.
Arguments Predicant_to_list_comparator : clear implicits.

(** * One comparator per handler *)

Section Facts.
Context {C : Type} {CI : CmpItem C} {CL : CmpItemLaws C}.
Context (items : Z -> Item) (type_handler_row : Z) (make : Z -> C).
Abbreviation plc := (Predicant_to_list_comparator C).
Abbreviation nulls := (gmap Z bool).
Implicit Types (c : Predicant_to_value_comparator C) (l : plc) (s : nulls) (args : list Z).
Abbreviation prepared := (@prepared C _ make).
Abbreviation cmp_arg := (@cmp_arg C _ items type_handler_row).
Abbreviation pair_of := (@pair_of C _ items type_handler_row make).
Abbreviation pairs := (@pairs C _ items type_handler_row make).

Definition shape c : Z * nat * nat := (m_handler c, m_arg_index c, m_handler_index c).
(** Only stored values differ. *)
Record same_pairs l l' : Prop := {
  sp_count : m_comparator_count l' = m_comparator_count l;
  sp_predicant : m_predicant_index l' = m_predicant_index l;
  sp_shape : shape <$> m_comparators l' = shape <$> m_comparators l
}.
Lemma same_pairs_refl l : same_pairs l l.
Proof. split; reflexivity. Qed.
Lemma same_pairs_trans l1 l2 l3 : same_pairs l1 l2 -> same_pairs l2 l3 -> same_pairs l1 l3.
Proof. intros [] []. split; congruence. Qed.
Lemma same_pairs_lookup l l' i c : same_pairs l l' -> m_comparators l !! i = Some c -> exists c', m_comparators l' !! i = Some c' /\ shape c' = shape c.
Proof.
  intros [_ _ Hs] Hc. assert (H : (shape <$> m_comparators l') !! i = Some (shape c)) by (rewrite Hs, list_lookup_fmap, Hc; reflexivity).
  rewrite list_lookup_fmap in H. destruct (m_comparators l' !! i) as [c'|]; [|discriminate]. exists c'; split; [reflexivity|exact (inj Some _ _ H)].
Qed.
Lemma pair_of_shape l l' args c c' : m_predicant_index l' = m_predicant_index l -> shape c' = shape c -> pair_of l' args c' = pair_of l args c.
Proof. intros E H. injection H as E1 E2 E3. unfold SqlInList.pair_of. rewrite E, E1, E2. reflexivity. Qed.
Lemma pairs_lookup l args i : (i < m_comparator_count l)%nat -> pairs l args !! i = pair_of l args <$> m_comparators l !! i.
Proof. intros H. unfold SqlInList.pairs. rewrite list_lookup_fmap, lookup_take_lt by exact H. reflexivity. Qed.

(** The state when the pairs before [i] were compared. *)
Record stored l s args (p : Z) (i : nat) : Prop := {
  st_items : forall j c, (j < i)%nat -> (j < m_comparator_count l)%nat -> m_comparators l !! j = Some c -> m_handler_index c = j ->
    m_cmp_item c = Some (store_value (make (m_handler c)) (items p));
  st_null : (0 < i)%nat -> null_value s p = null_after (items p)
}.
Lemma stored_start l s args (p : Z) : stored l s args p 0.
Proof. split; intros; lia. Qed.
Lemma null_value_eval s (p q : Z) : null_value s p = null_after (items p) -> null_value (eval items s q) p = null_after (items p).
Proof.
  unfold null_value, eval. intros H. destruct (Z.eq_dec q p) as [->|N]; [rewrite lookup_insert_eq; reflexivity|rewrite lookup_insert_ne by exact N; exact H].
Qed.
Lemma null_value_eval_eq s (p : Z) : null_value (eval items s p) p = null_after (items p).
Proof. unfold null_value, eval. rewrite lookup_insert_eq. reflexivity. Qed.
Lemma stored_eval l s args (p q : Z) i : (0 < i)%nat -> stored l s args p i -> stored l (eval items s q) args p i.
Proof. intros Hi [H1 H2]. split; [exact H1|intros _; apply null_value_eval, H2, Hi]. Qed.

Definition set_item c (ci : C) : Predicant_to_value_comparator C := mkPVC (m_handler c) (Some ci) (m_arg_index c) (m_handler_index c).
Lemma with_cmp_item_comparators l i ci c : m_comparators l !! i = Some c ->
  with_cmp_item l i ci = mkPLC (<[i := set_item c ci]> (m_comparators l)) (m_comparator_count l) (m_predicant_index l).
Proof. intros H. unfold with_cmp_item. rewrite H. reflexivity. Qed.
Lemma with_cmp_item_same l i ci c : m_comparators l !! i = Some c -> same_pairs l (with_cmp_item l i ci).
Proof.
  intros H. rewrite (with_cmp_item_comparators _ _ _ _ H). split; try reflexivity. cbn. rewrite list_fmap_insert.
  apply list_insert_id. rewrite list_lookup_fmap, H. reflexivity.
Qed.
Lemma with_cmp_item_lookup l i ci c j c1 : m_comparators l !! i = Some c -> m_comparators (with_cmp_item l i ci) !! j = Some c1 ->
  (j = i /\ c1 = set_item c ci) \/ (j <> i /\ m_comparators l !! j = Some c1).
Proof.
  intros H. rewrite (with_cmp_item_comparators _ _ _ _ H). cbn. destruct (decide (j = i)) as [->|N]; intros H1.
  - left. rewrite list_lookup_insert_eq in H1 by (eapply lookup_lt_Some, H). injection H1 as <-. split; reflexivity.
  - right. rewrite list_lookup_insert_ne in H1 by congruence. split; assumption.
Qed.
Lemma prepared_with l args i c ci : prepared l args -> m_comparators l !! i = Some c -> like ci (make (m_handler c)) ->
  prepared (with_cmp_item l i ci) args.
Proof.
  intros [Hp Hn Hh] Hc Hl. pose proof (with_cmp_item_same l i ci c Hc) as Hs. pose proof Hs as [Ecount Epred Eshape].
  split.
  - rewrite Epred. exact Hp.
  - rewrite Ecount. apply (f_equal length) in Eshape. rewrite !length_fmap in Eshape. lia.
  - rewrite Ecount. intros j c1 Hj H1.
    assert (Hc0 : exists c0, m_comparators l !! j = Some c0 /\ shape c0 = shape c1).
    { destruct (with_cmp_item_lookup _ _ _ _ _ _ Hc H1) as [[-> ->]|[N H]]; [exists c|exists c1]; auto. }
    destruct Hc0 as (c0 & H0 & E0). injection E0 as Eh Ea Ei. destruct (Hh _ _ Hj H0) as (A1 & A2 & A3 & c' & ci' & Hc' & A4 & A5 & A6 & A7).
    rewrite <- Eh, <- Ea, <- Ei. do 3 (split; [assumption|]).
    destruct (same_pairs_lookup _ _ _ _ Hs Hc') as (c2 & Hc2 & E2). injection E2 as B1 B2 B3.
    destruct (with_cmp_item_lookup _ _ _ _ _ _ Hc Hc2) as [[E ->]|[N Hc2']].
    + exists (set_item c ci), ci. cbn. rewrite E in Hc'. assert (c' = c) by congruence. subst c'. repeat split; try assumption; try congruence.
    + exists c2, ci'. assert (c2 = c') by congruence. subst c2. repeat split; assumption.
Qed.

(** The comparator of a pair is read, after the value was stored in it if it is its leftmost. *)
Lemma load_spec l s args (i : nat) c (p : Z) : prepared l args -> (i < m_comparator_count l)%nat -> m_comparators l !! i = Some c ->
  args !! m_predicant_index l = Some p -> stored l s args p i ->
  exists cmp in_item l1 s1, m_comparators l !! m_handler_index c = Some cmp /\ m_cmp_item cmp = Some in_item /\
    (if (m_handler_index c =? i)%nat
     then (store_value in_item (items p), with_cmp_item l (m_handler_index c) (store_value in_item (items p)), eval items s p)
     else (in_item, l, s)) = (store_value (make (m_handler c)) (items p), l1, s1) /\
    prepared l1 args /\ same_pairs l l1 /\ stored l1 s1 args p (S i).
Proof.
  intros Hprep Hi Hc Hp [Hst Hnull]. pose proof (prep_handlers _ _ _ Hprep _ _ Hi Hc) as (Hh & _ & Hle & cmp & ci & Hcmp & E1 & E2 & E3 & Hlike).
  exists cmp, ci. destruct (Nat.eqb_spec (m_handler_index c) i) as [E|N].
  - rewrite E in Hcmp. assert (cmp = c) by congruence. subst cmp. rewrite E.
    exists (with_cmp_item l i (store_value ci (items p))), (eval items s p). do 2 (split; [assumption|]). cbv zeta. rewrite (Hlike (items p)).
    split; [reflexivity|]. split; [|split; [apply (with_cmp_item_same _ _ _ _ Hc)|split]].
    + apply (prepared_with _ _ _ _ _ Hprep Hc). intros q. apply store_again.
    + rewrite (sp_count _ _ (with_cmp_item_same _ _ (store_value (make (m_handler c)) (items p)) _ Hc)).
      intros j c1 Hj Hjn H1 Ej. destruct (with_cmp_item_lookup _ _ _ _ _ _ Hc H1) as [[-> ->]|[N H2]]; [reflexivity|].
      apply (Hst j c1); [lia|assumption..].
    + intros _. apply null_value_eval_eq.
  - exists l, s. do 2 (split; [assumption|]).
    assert (Hci : m_cmp_item cmp = Some (store_value (make (m_handler cmp)) (items p))) by (apply (Hst (m_handler_index c)); [lia..|exact Hcmp|exact E2]).
    rewrite E1 in Hci. assert (ci = store_value (make (m_handler c)) (items p)) by congruence. subst ci.
    split; [reflexivity|]. split; [exact Hprep|]. split; [apply same_pairs_refl|]. split.
    + intros j c1 Hj Hjn H1 Ej. destruct (decide (j = i)) as [->|]; [congruence|]. apply (Hst j c1); [lia|assumption..].
    + intros _. apply Hnull. lia.
Qed.
Lemma cmp_arg_spec l s args i c (p : Z) : prepared l args -> (i < m_comparator_count l)%nat -> m_comparators l !! i = Some c ->
  args !! m_predicant_index l = Some p -> stored l s args p i ->
  exists l1 s1, cmp_arg l s args i = Some (pair_of l args c, l1, s1) /\ prepared l1 args /\ same_pairs l l1 /\ stored l1 s1 args p (S i).
Proof.
  intros Hprep Hi Hc Hp Hst. destruct (load_spec _ _ _ _ _ _ Hprep Hi Hc Hp Hst) as (cmp & ci & l1 & s1 & Hcmp & Hci & E & Hprep1 & Hs & Hst1).
  destruct (prep_handlers _ _ _ Hprep _ _ Hi Hc) as (_ & [q Hq] & _). pose proof (st_null _ _ _ _ _ Hst1 ltac:(lia)) as Hn.
  unfold SqlInList.cmp_arg, SqlInList.pair_of, pair_result. rewrite Hc. cbn [mbind option_bind]. rewrite Hcmp. cbn [mbind option_bind]. rewrite Hci. cbn [mbind option_bind].
  rewrite Hp. cbn [mbind option_bind default id from_option]. rewrite E, Hn, Hq. cbn [mbind option_bind default id from_option].
  destruct (null_after (items p) && negb (m_handler c =? type_handler_row)).
  - exists l1, s1. auto.
  - exists l1, (eval items s1 q). split; [reflexivity|]. do 2 (split; [assumption|]). apply stored_eval; [lia|assumption].
Qed.
Lemma cmp_args_nulls_equal_spec l s args i c (p q : Z) rc : prepared l args -> (i < m_comparator_count l)%nat -> m_comparators l !! i = Some c ->
  args !! m_predicant_index l = Some p -> args !! m_arg_index c = Some q -> stored l s args p i ->
  pair_nulls_equal make (m_handler c) (items p) (items q) = Some rc ->
  exists l1 s1, cmp_args_nulls_equal items l s args i = Some (rc, l1, s1) /\ prepared l1 args /\ same_pairs l l1 /\ stored l1 s1 args p (S i).
Proof.
  intros Hprep Hi Hc Hp Hq Hst. destruct (load_spec _ _ _ _ _ _ Hprep Hi Hc Hp Hst) as (cmp & ci & l1 & s1 & Hcmp & Hci & E & Hprep1 & Hs & Hst1).
  pose proof (stored_eval _ _ _ _ q _ (Nat.lt_0_succ i) Hst1) as Hst2. pose proof (st_null _ _ _ _ _ Hst2 (Nat.lt_0_succ i)) as Hn.
  unfold cmp_args_nulls_equal, pair_nulls_equal. rewrite Hc. cbn [mbind option_bind]. rewrite Hcmp. cbn [mbind option_bind]. rewrite Hci. cbn [mbind option_bind].
  rewrite Hp. cbn [mbind option_bind]. rewrite Hq. cbn [mbind option_bind]. rewrite E. cbv zeta. rewrite Hn. intros Hrc. exists l1, (eval items s1 q).
  split; [|auto]. destruct (null_after (items p) && is_null _); [congruence|]. destruct (null_after (items p) || is_null _); [congruence|].
  rewrite Hrc. reflexivity.
Qed.

(** ** The loops *)

(** The result of three-valued logic of a pair that is compared: equal, different, or unknown. *)
Definition eq3 (rc : Z) : option bool := if rc =? FALSE then Some true else if rc =? UNKNOWN then None else Some false.
Definition or3 (a b : option bool) : option bool :=
  match a, b with Some true, _ | _, Some true => Some true | Some false, Some false => Some false | _, _ => None end.
(** What [x = y1 OR x = y2 OR ...] is. *)
Definition any3 (rcs : list Z) : option bool := foldr or3 (Some false) (eq3 <$> rcs).
(** What [Item_func_in] makes of the results of [cmp]. *)
Definition in_value (r found : bool) : option bool := if negb r then Some true else if found then None else Some false.

Definition some_unknown (rcs : list Z) : bool := existsb (fun rc => rc =? UNKNOWN) rcs.
Fixpoint first_equal (rcs : list Z) : option nat :=
  match rcs with [] => None | rc :: rcs => if rc =? FALSE then Some O else S <$> first_equal rcs end.
Lemma any3_spec rcs : any3 rcs = match first_equal rcs with Some _ => Some true | None => if some_unknown rcs then None else Some false end.
Proof.
  unfold any3. induction rcs as [|rc rcs IH]; [reflexivity|]. cbn [fmap list_fmap foldr first_equal]. change (list_fmap _ _ eq3 rcs) with (eq3 <$> rcs). rewrite IH. unfold eq3.
  destruct (Z.eqb_spec rc FALSE) as [->|N]; [reflexivity|]. destruct (first_equal rcs) as [k|] eqn:Ek; cbn.
  - destruct (rc =? UNKNOWN); reflexivity.
  - unfold some_unknown. cbn [existsb]. destruct (rc =? UNKNOWN), (existsb _ rcs); reflexivity.
Qed.
Definition index_of l (idx : nat) (k : option nat) : nat :=
  match k with Some k => match m_comparators l !! k with Some c => m_arg_index c | None => idx end | None => idx end.
Lemma index_of_same l l' idx k : same_pairs l l' -> index_of l' idx k = index_of l idx k.
Proof.
  intros Hs. destruct k as [k|]; [|reflexivity]. cbn. destruct (m_comparators l !! k) as [c|] eqn:Hc.
  - destruct (same_pairs_lookup _ _ _ _ Hs Hc) as (c' & -> & E). injection E as _ E _. exact E.
  - apply lookup_ge_None in Hc. pose proof (f_equal length (sp_shape _ _ Hs)) as E. rewrite !length_fmap in E.
    rewrite (proj2 (lookup_ge_None _ _)); [reflexivity|lia].
Qed.
Lemma pairs_same l l' args : same_pairs l l' -> pairs l' args = pairs l args.
Proof.
  intros [En Ep Es]. apply list_eq. intros i. unfold SqlInList.pairs. rewrite En, !list_lookup_fmap.
  destruct (decide (i < m_comparator_count l)%nat) as [Hi|Hi].
  - rewrite !lookup_take_lt by exact Hi. apply (f_equal (.!! i)) in Es. rewrite !list_lookup_fmap in Es.
    destruct (m_comparators l' !! i), (m_comparators l !! i); cbn in *; try discriminate; [|reflexivity].
    f_equal. apply pair_of_shape; [exact Ep|congruence].
  - rewrite !lookup_take_ge by lia. reflexivity.
Qed.
Lemma pairs_drop l args i c : prepared l args -> (i < m_comparator_count l)%nat -> m_comparators l !! i = Some c ->
  drop i (pairs l args) = pair_of l args c :: drop (S i) (pairs l args).
Proof. intros Hp Hi Hc. apply drop_S. rewrite pairs_lookup by exact Hi. rewrite Hc. reflexivity. Qed.
Lemma pairs_length l args : prepared l args -> length (pairs l args) = m_comparator_count l.
Proof. intros [_ H _]. unfold SqlInList.pairs. rewrite length_fmap, length_take. lia. Qed.
Lemma comparator_there l args i : prepared l args -> (i < m_comparator_count l)%nat -> exists c, m_comparators l !! i = Some c /\ m_handler c <> 0.
Proof.
  intros Hp Hi. destruct (lookup_lt_is_Some_2 (m_comparators l) i) as [c Hc]; [pose proof (prep_count _ _ _ Hp); lia|].
  exists c. split; [exact Hc|apply (prep_handlers _ _ _ Hp _ _ Hi Hc)].
Qed.
Lemma cmp_from_found (n i : nat) l s args idx f (p : Z) : prepared l args -> args !! m_predicant_index l = Some p -> stored l s args p i -> (n + i = m_comparator_count l)%nat ->
  exists l' s' found, let k := first_equal (drop i (pairs l args)) in
    cmp_from items type_handler_row n i l s args idx (Some f)
    = Some (match k with Some _ => false | None => true end, index_of l idx (Nat.add i <$> k), Some found, l', s') /\
    (k = None -> found = f || some_unknown (drop i (pairs l args))) /\ prepared l' args /\ same_pairs l l'.
Proof.
  revert i l s f. induction n as [|n IH]; intros i l s f Hprep Hp Hst Hn.
  - exists l, s, f. rewrite drop_ge by (rewrite pairs_length by exact Hprep; lia). cbn. rewrite orb_false_r. auto using same_pairs_refl.
  - assert (Hi : (i < m_comparator_count l)%nat) by lia. destruct (comparator_there _ _ _ Hprep Hi) as (c & Hc & Hh0).
    destruct (cmp_arg_spec _ _ _ _ _ _ Hprep Hi Hc Hp Hst) as (l1 & s1 & E & Hprep1 & Hs & Hst1).
    rewrite (pairs_drop _ _ _ _ Hprep Hi Hc). cbn [first_equal some_unknown existsb cmp_from]. rewrite Hc. cbn [mbind option_bind].
    rewrite asserting_true by (apply negb_true_iff, Z.eqb_neq, Hh0). cbn [mbind option_bind]. rewrite E. cbn [mbind option_bind].
    destruct (Z.eqb_spec (pair_of l args c) FALSE) as [Ef|Nf].
    + exists l1, s1, f. cbn. rewrite Nat.add_0_r, Hc. split; [reflexivity|]. split; [discriminate|]. split; [exact Hprep1|exact Hs].
    + rewrite <- (sp_predicant _ _ Hs) in Hp. assert (Hn1 : (n + S i = m_comparator_count l1)%nat) by (rewrite (sp_count _ _ Hs); lia).
      assert (Hk : forall k : option nat, index_of l1 idx (Nat.add (S i) <$> k) = index_of l idx (Nat.add i <$> (S <$> k))).
      { intros k. rewrite (index_of_same _ _ _ _ Hs). destruct k as [k|]; cbn; [rewrite Nat.add_succ_r|]; reflexivity. }
      assert (Hm : forall k : option nat, match S <$> k with Some _ => false | None => true end = match k with Some _ => false | None => true end) by (intros []; reflexivity).
      cbv zeta. rewrite Hm. destruct (Z.eqb_spec (pair_of l args c) UNKNOWN) as [Eu|Nu].
      * destruct (IH (S i) l1 s1 true Hprep1 Hp Hst1 Hn1) as (l' & s' & found & E' & Hf & Hprep' & Hs'). rewrite (pairs_same _ _ _ Hs), Hk in *.
        exists l', s', found. split; [exact E'|]. split; [|split; [exact Hprep'|exact (same_pairs_trans _ _ _ Hs Hs')]].
        intros Hk0. rewrite Hf by (destruct (first_equal _); [discriminate|reflexivity]). cbn. rewrite orb_true_r. reflexivity.
      * destruct (IH (S i) l1 s1 f Hprep1 Hp Hst1 Hn1) as (l' & s' & found & E' & Hf & Hprep' & Hs'). rewrite (pairs_same _ _ _ Hs), Hk in *.
        exists l', s', found. split; [exact E'|]. split; [|split; [exact Hprep'|exact (same_pairs_trans _ _ _ Hs Hs')]].
        intros Hk0. apply Hf. destruct (first_equal _); [discriminate|reflexivity].
Qed.
(** With a null pointer the loop ends at the first pair that is not different. *)
Fixpoint first_not_different (rcs : list Z) : option (nat * Z) :=
  match rcs with
  | [] => None
  | rc :: rcs => if (rc =? FALSE) || (rc =? UNKNOWN) then Some (O, rc) else match first_not_different rcs with Some (k, rc) => Some (S k, rc) | None => None end
  end.
Lemma cmp_from_null (n i : nat) l s args idx (p : Z) : prepared l args -> args !! m_predicant_index l = Some p -> stored l s args p i -> (n + i = m_comparator_count l)%nat ->
  exists l' s', cmp_from items type_handler_row n i l s args idx None
    = Some (match first_not_different (drop i (pairs l args)) with
            | Some (k, rc) => if rc =? FALSE then (false, index_of l idx (Some (i + k)%nat), None, l', s') else (true, idx, None, l', s')
            | None => (true, idx, None, l', s')
            end) /\ prepared l' args /\ same_pairs l l'.
Proof.
  revert i l s. induction n as [|n IH]; intros i l s Hprep Hp Hst Hn.
  - exists l, s. rewrite drop_ge by (rewrite pairs_length by exact Hprep; lia). cbn. auto using same_pairs_refl.
  - assert (Hi : (i < m_comparator_count l)%nat) by lia. destruct (comparator_there _ _ _ Hprep Hi) as (c & Hc & Hh0).
    destruct (cmp_arg_spec _ _ _ _ _ _ Hprep Hi Hc Hp Hst) as (l1 & s1 & E & Hprep1 & Hs & Hst1).
    rewrite (pairs_drop _ _ _ _ Hprep Hi Hc). cbn [first_not_different cmp_from]. rewrite Hc. cbn [mbind option_bind].
    rewrite asserting_true by (apply negb_true_iff, Z.eqb_neq, Hh0). cbn [mbind option_bind]. rewrite E. cbn [mbind option_bind].
    destruct (pair_of l args c =? FALSE) eqn:Ef.
    + exists l1, s1. cbn [orb]. rewrite Ef. cbn. rewrite Nat.add_0_r, Hc. auto.
    + destruct (pair_of l args c =? UNKNOWN) eqn:Eu; cbn [orb].
      * exists l1, s1. rewrite Ef. auto.
      * rewrite <- (sp_predicant _ _ Hs) in Hp. assert (Hn1 : (n + S i = m_comparator_count l1)%nat) by (rewrite (sp_count _ _ Hs); lia).
        destruct (IH (S i) l1 s1 Hprep1 Hp Hst1 Hn1) as (l' & s' & E' & Hprep' & Hs'). rewrite (pairs_same _ _ _ Hs) in E'.
        exists l', s'. rewrite E'. split; [|split; [exact Hprep'|exact (same_pairs_trans _ _ _ Hs Hs')]].
        destruct (first_not_different _) as [[k rc]|]; [|reflexivity]. rewrite Nat.add_succ_r, (index_of_same _ _ _ _ Hs). reflexivity.
Qed.
(** The pairs when two nulls are equal. *)
Definition nulls_equal_of l args c : option Z := pair_nulls_equal make (m_handler c) (items (default 0 (args !! m_predicant_index l))) (items (default 0 (args !! m_arg_index c))).
Lemma nulls_equal_of_shape l l' args c c' : m_predicant_index l' = m_predicant_index l -> shape c' = shape c -> nulls_equal_of l' args c' = nulls_equal_of l args c.
Proof. intros E H. injection H as E1 E2 E3. unfold nulls_equal_of. rewrite E, E1, E2. reflexivity. Qed.
Lemma cmp_nulls_equal_from_spec (n i : nat) l s args idx (p : Z) rcs : prepared l args -> args !! m_predicant_index l = Some p -> stored l s args p i -> (n + i = m_comparator_count l)%nat ->
  length rcs = n -> (forall j rc, rcs !! j = Some rc -> exists c, m_comparators l !! (i + j)%nat = Some c /\ nulls_equal_of l args c = Some rc) ->
  exists l' s', cmp_nulls_equal_from items n i l s args idx
    = Some (match first_equal rcs with Some k => (false, index_of l idx (Some (i + k)%nat), l', s') | None => (true, idx, l', s') end) /\ prepared l' args /\ same_pairs l l'.
Proof.
  revert i l s rcs. induction n as [|n IH]; intros i l s rcs Hprep Hp Hst Hn Hlen Hrcs.
  - destruct rcs; [|discriminate]. exists l, s. auto using same_pairs_refl.
  - destruct rcs as [|rc rcs]; [discriminate|]. assert (Hi : (i < m_comparator_count l)%nat) by lia. destruct (comparator_there _ _ _ Hprep Hi) as (c & Hc & Hh0).
    destruct (Hrcs O rc eq_refl) as (c0 & Hc0 & Hrc). rewrite Nat.add_0_r in Hc0. assert (c0 = c) by congruence. subst c0.
    destruct (prep_handlers _ _ _ Hprep _ _ Hi Hc) as (_ & [q Hq] & _).
    unfold nulls_equal_of in Hrc. rewrite Hp, Hq in Hrc. cbn [default id from_option] in Hrc.
    destruct (cmp_args_nulls_equal_spec _ _ _ _ _ _ _ _ Hprep Hi Hc Hp Hq Hst Hrc) as (l1 & s1 & E & Hprep1 & Hs & Hst1).
    cbn [first_equal cmp_nulls_equal_from]. rewrite Hc. cbn [mbind option_bind].
    rewrite asserting_true by (apply negb_true_iff, Z.eqb_neq, Hh0). cbn [mbind option_bind]. rewrite E. cbn [mbind option_bind].
    destruct (rc =? FALSE).
    + exists l1, s1. cbn. rewrite Nat.add_0_r, Hc. auto.
    + rewrite <- (sp_predicant _ _ Hs) in Hp. assert (Hn1 : (n + S i = m_comparator_count l1)%nat) by (rewrite (sp_count _ _ Hs); lia).
      destruct (IH (S i) l1 s1 rcs Hprep1 Hp Hst1 Hn1) as (l' & s' & E' & Hprep' & Hs'); [cbn in Hlen; lia| |].
      { intros j rc' Hj. destruct (Hrcs (S j) rc' Hj) as (c1 & Hc1 & Hrc1). rewrite Nat.add_succ_r in Hc1.
        destruct (same_pairs_lookup _ _ _ _ Hs Hc1) as (c2 & Hc2 & E2). exists c2. split; [exact Hc2|].
        rewrite (nulls_equal_of_shape l l1 args c1 c2 (sp_predicant _ _ Hs) E2). exact Hrc1. }
      exists l', s'. rewrite E'. split; [|split; [exact Hprep'|exact (same_pairs_trans _ _ _ Hs Hs')]].
      destruct (first_equal rcs) as [k|]; [|reflexivity]. cbn [fmap option_map option_fmap]. rewrite (index_of_same _ _ _ _ Hs), Nat.add_succ_r. reflexivity.
Qed.

Lemma find_handler_from_spec l handler n i : (i + n <= length (m_comparators l))%nat ->
  exists r, find_handler_from l handler n i = Some r /\
    match r with
    | Some k => (i <= k < i + n)%nat /\ (exists c, m_comparators l !! k = Some c /\ m_handler c = handler) /\ (forall j c, (i <= j < k)%nat -> m_comparators l !! j = Some c -> m_handler c <> handler)
    | None => forall j c, (i <= j < i + n)%nat -> m_comparators l !! j = Some c -> m_handler c <> handler
    end.
Proof.
  revert i. induction n as [|n IH]; intros i Hn; cbn [find_handler_from]; [exists None; split; [reflexivity|lia]|].
  destruct (lookup_lt_is_Some_2 (m_comparators l) i) as [c Hc]; [lia|]. rewrite Hc. cbn [mbind option_bind].
  destruct (Z.eqb_spec (m_handler c) handler) as [E|N].
  - exists (Some i). split; [reflexivity|]. split; [lia|]. split; [exists c; auto|lia].
  - destruct (IH (S i)) as (r & Hr & H); [lia|]. exists r. split; [exact Hr|]. destruct r as [k|].
    + destruct H as (H1 & H2 & H3). split; [lia|]. split; [exact H2|]. intros j c1 Hj Hc1. destruct (decide (j = i)) as [->|]; [congruence|]. apply (H3 j c1); [lia|exact Hc1].
    + intros j c1 Hj Hc1. destruct (decide (j = i)) as [->|]; [congruence|]. apply (H j c1); [lia|exact Hc1].
Qed.

(** * Theorems *)

(** C14.  IN is the disjunction of three-valued logic of the pairs compared one by one, each with
    a fresh comparator: [cmp] with a pointer for unknown results returns, finds the first equal value
    if there is one, and otherwise tells whether some pair was unknown.  That the
    comparators are shared between the pairs of a handler, and what rows were compared before,
    makes no difference: they are ready for the next row. *)
Theorem in_list_is_disjunction l s args idx : prepared l args ->
  exists r k found l' s', cmp items type_handler_row l s args idx (Some false) = Some (r, k, Some found, l', s') /\
    in_value r found = any3 (pairs l args) /\ k = index_of l idx (first_equal (pairs l args)) /\ prepared l' args /\ same_pairs l l'.
Proof.
  intros Hprep. destruct (prep_predicant _ _ _ Hprep) as [p Hp].
  destruct (cmp_from_found (m_comparator_count l) 0 l s args idx false p Hprep Hp (stored_start _ _ _ _) (Nat.add_0_r _)) as (l' & s' & found & E & Hf & Hprep' & Hs).
  rewrite drop_0 in *. cbn [fmap] in E. exists (match first_equal (pairs l args) with Some _ => false | None => true end), (index_of l idx (first_equal (pairs l args))), found, l', s'.
  split; [unfold cmp; rewrite E; destruct (first_equal _); reflexivity|]. split; [|auto].
  rewrite any3_spec. destruct (first_equal _) as [k|]; [reflexivity|]. rewrite Hf by reflexivity. reflexivity.
Qed.

(** CASE looks only at the first pair that is not different: it finds a value when that pair is equal, and finds
    none when it is unknown, whatever the values after it are. *)
Theorem case_stops_at_unknown l s args idx : prepared l args ->
  exists l' s', cmp items type_handler_row l s args idx None
    = Some (match first_not_different (pairs l args) with
            | Some (k, rc) => if rc =? FALSE then (false, index_of l idx (Some k), None, l', s') else (true, idx, None, l', s')
            | None => (true, idx, None, l', s')
            end) /\ prepared l' args /\ same_pairs l l'.
Proof.
  intros Hprep. destruct (prep_predicant _ _ _ Hprep) as [p Hp].
  destruct (cmp_from_null (m_comparator_count l) 0 l s args idx p Hprep Hp (stored_start _ _ _ _) (Nat.add_0_r _)) as (l' & s' & E & Hprep' & Hs).
  rewrite drop_0 in E. exists l', s'. auto.
Qed.

(** DECODE_ORACLE finds the first value that is equal, two nulls being equal, and goes on after unknown results. *)
Theorem decode_finds_equal l s args idx rcs : prepared l args -> length rcs = m_comparator_count l ->
  (forall j rc, rcs !! j = Some rc -> exists c, m_comparators l !! j = Some c /\ nulls_equal_of l args c = Some rc) ->
  exists l' s', cmp_nulls_equal items l s args idx
    = Some (match first_equal rcs with Some k => (false, index_of l idx (Some k), l', s') | None => (true, idx, l', s') end) /\ prepared l' args.
Proof.
  intros Hprep Hlen Hrcs. destruct (prep_predicant _ _ _ Hprep) as [p Hp].
  destruct (cmp_nulls_equal_from_spec (m_comparator_count l) 0 l s args idx p rcs Hprep Hp (stored_start _ _ _ _) (Nat.add_0_r _) Hlen Hrcs) as (l' & s' & E & Hprep' & _).
  exists l', s'. auto.
Qed.

(** [find_handler] finds the leftmost comparator of a handler among the first [count], in bounds. *)
Theorem find_handler_spec l handler (count : nat) : (count < m_comparator_count l <= length (m_comparators l))%nat ->
  exists r, find_handler l handler count = Some r /\
    match r with
    | Some k => (k < count)%nat /\ (exists c, m_comparators l !! k = Some c /\ m_handler c = handler) /\ (forall j c, (j < k)%nat -> m_comparators l !! j = Some c -> m_handler c <> handler)
    | None => forall j c, (j < count)%nat -> m_comparators l !! j = Some c -> m_handler c <> handler
    end.
Proof.
  intros H. unfold find_handler. rewrite asserting_true by (apply Nat.ltb_lt; lia). cbn [mbind option_bind].
  destruct (find_handler_from_spec l handler count 0) as (r & Hr & Hs); [lia|]. exists r. split; [exact Hr|].
  destruct r as [k|]; [destruct Hs as (H1 & H2 & H3); split; [lia|]; split; [exact H2|]|]; intros j c Hj; [apply H3|apply Hs]; lia.
Qed.
End Facts.

(** ** Scalar pairs *)

(** Equality of SQL of the values of two items, as integers, doubles or strings. *)
Definition sql_eq (eq : bool) p a : option bool := if null_after p || null_after a then None else Some eq.
(** [val_str] is null exactly when the value is, as its comment in [private/item.h] says. *)
Definition str_ok it : Prop := val_str it = None <-> null_after it = true.
(** For the scalar comparators of the header a pair is equality of SQL: unknown when a value is null. *)
Theorem scalar_pair_is_equality sortcmp copy_fails row make (h : Z) p a : h <> row -> str_ok p -> str_ok a ->
  (forall s, val_str p = Some s -> str_in_buffer p = true \/ copy_fails s = false) ->
  eq3 (@pair_result _ (scalar_CmpItem sortcmp copy_fails) row make h p a) =
  sql_eq match make h with
         | cmp_item_int _ _ => val_int p =? val_int a
         | cmp_item_real _ _ => deq (val_real p) (val_real a)
         | cmp_item_sort_string cs _ _ => match val_str p, val_str a with Some s, Some s' => sortcmp cs s s' =? 0 | _, _ => false end
         end p a.
Proof.
  intros Hh [Hp1 Hp2] [Ha1 Ha2] Hcopy. unfold pair_result, sql_eq. rewrite (proj2 (Z.eqb_neq h row) Hh). cbn [negb]. rewrite andb_true_r.
  destruct (null_after p) eqn:Np; [reflexivity|]. cbn [orb]. cbn [store_value ci_cmp scalar_CmpItem].
  destruct (make h) as [v n|v n|cs v n]; cbn [scalar_store_value scalar_cmp int_store_value real_store_value string_store_value]; unfold int_cmp, real_cmp, string_cmp; rewrite Np; cbn [orb]; destruct (null_after a) eqn:Na; try reflexivity.
  - destruct (val_int p =? val_int a); reflexivity.
  - destruct (deq _ _); reflexivity.
  - unfold cached_string. destruct (val_str p) as [sp|] eqn:Ep; [|discriminate (Hp1 eq_refl)]. destruct (val_str a) as [sa|] eqn:Ea; [|discriminate (Ha1 eq_refl)].
    assert (E : (if str_in_buffer p then sp else if copy_fails sp then [] else sp) = sp).
    { destruct (Hcopy sp eq_refl) as [->| ->]; [reflexivity|]. destruct (str_in_buffer p); reflexivity. }
    rewrite E. destruct (sortcmp cs sp sa =? 0); reflexivity.
Qed.

(** ** Witnesses *)

Definition int_item (n : Z) : Item := mkItem n dzero (Some []) true false (fun _ => DYN_COL_INT n).
Definition null_item : Item := mkItem 0 dzero None false true (fun _ => DYN_COL_NULL).
(** [1 IN (NULL, 1)], or [CASE 1 WHEN NULL ... WHEN 1 ... END], with columns for the values. *)
Definition three_items (a : Z) : Item := if a =? 10 then int_item 1 else if a =? 11 then null_item else int_item 1.
Definition no_sortcmp (_ : Z) (_ _ : bytes) : Z := 0.
Definition no_failure (_ : bytes) : bool := false.
#[local] Instance witness_items : CmpItem cmp_item := scalar_CmpItem no_sortcmp no_failure.
Definition make_int (_ : Z) : cmp_item := cmp_item_int 0 false.
Definition two_pairs : Predicant_to_list_comparator cmp_item := mkPLC [mkPVC 7 (Some (cmp_item_int 5 true)) 1 0; mkPVC 7 None 2 0] 2 0.
Lemma two_pairs_prepared : prepared make_int two_pairs [10; 11; 12].
Proof.
  split; [eexists; reflexivity|cbn; lia|]. intros [|[|i]] c Hi Hc; cbn in Hi; [| |lia]; injection Hc as <-; cbn;
    (split; [lia|]; split; [eexists; reflexivity|]; split; [lia|]); eexists _, _; repeat split.
Defined.
Lemma in_list_is_disjunction_witness : exists r k found l' s',
  cmp three_items 99 two_pairs ∅ [10; 11; 12] 0 (Some false) = Some (r, k, Some found, l', s') /\ in_value r found = Some true /\ k = 2%nat.
Proof.
  destruct (in_list_is_disjunction (CL := scalar_CmpItemLaws no_sortcmp no_failure) three_items 99 make_int two_pairs ∅ [10; 11; 12] 0 two_pairs_prepared)
    as (r & k & found & l' & s' & E & Hv & Hk & _).
  exists r, k, found, l', s'. split; [exact E|]. split; [exact Hv|exact Hk].
Defined.
Lemma case_stops_at_unknown_witness : exists l' s', cmp three_items 99 two_pairs ∅ [10; 11; 12] 0 None = Some (true, 0%nat, None, l', s').
Proof.
  destruct (case_stops_at_unknown (CL := scalar_CmpItemLaws no_sortcmp no_failure) three_items 99 make_int two_pairs ∅ [10; 11; 12] 0 two_pairs_prepared) as (l' & s' & E & _).
  exists l', s'. exact E.
Defined.
Lemma decode_finds_equal_witness : exists l' s', cmp_nulls_equal three_items two_pairs ∅ [10; 11; 12] 0 = Some (false, 2%nat, l', s').
Proof.
  destruct (decode_finds_equal (CL := scalar_CmpItemLaws no_sortcmp no_failure) three_items make_int two_pairs ∅ [10; 11; 12] 0 [UNKNOWN; FALSE] two_pairs_prepared eq_refl) as (l' & s' & E & _).
  { intros [|[|j]] rc H; [| |discriminate H]; injection H as <-; eexists; (split; [reflexivity|vm_compute; reflexivity]). }
  exists l', s'. exact E.
Defined.
Lemma find_handler_spec_witness : exists r, find_handler two_pairs 7 1 = Some r.
Proof. destruct (find_handler_spec two_pairs 7 1) as (r & E & _); [cbn; lia|]. exists r. exact E. Defined.
Lemma scalar_pair_is_equality_witness : eq3 (pair_result 99 make_int 7 (int_item 1) null_item) = None.
Proof.
  etransitivity; [apply (scalar_pair_is_equality no_sortcmp no_failure 99 make_int 7 (int_item 1) null_item)|reflexivity];
    [discriminate|split; discriminate|split; reflexivity|intros; left; reflexivity].
Defined.
