(* ===== verification/SqlField.v ===== *)
(** Columns in the records of a table: the null bits, the moving of a [Field] between
    records, the extremes of a column, the packed forms of its values, and the lengths and
    pointers of VARCHAR and BLOB columns, of [private/field.h].

    Records are in the memory of [Prelude]; a field has the address of its value and of
    its null bit, 0 for [NULL].  The virtual methods of a type that are not in the
    headers ([val_int], [cmp], the storing of the length of a blob) are parameters. *)

From S2P Require Import Prelude ByteOrder.
Import MyISAM X86_64.

Abbreviation bytes := (list byte).
Implicit Types (m : memory) (a : Z).

(** * Memory *)

Definition byte_at m a : Z := byteZ (m a).
Definition set_byte m a (v : Z) : memory := store_bytes m a [Zbyte v].
Definition bzero m a (n : Z) : memory := store_bytes m a (replicate (Z.to_nat n) x00).

(** * [Field] *)

Record Field := mkField { ptr : Z; null_ptr : Z; null_bit : Z; flags : Z }.
(** What a field uses of [table] and [table->s]: [record[0]], [null_row], [maybe_null], [s->field[field_index]->ptr], [s->default_values], [s->rec_buff_length]. *)
Record TABLE := mkTable { record0 : Z; null_row : bool; table_maybe_null : bool; share_field_ptr : Z; default_values : Z; rec_buff_length : Z }.
Implicit Types (f : Field) (t : TABLE).

Definition is_null m f t (row_offset : Z) : bool := if c_true (null_ptr f) then c_true (byte_at m (null_ptr f + row_offset) .& null_bit f) else null_row t.
Definition is_real_null m f (row_offset : Z) : bool := c_true (null_ptr f) && c_true (byte_at m (null_ptr f + row_offset) .& null_bit f).
Definition maybe_null_in_table f t : bool := (record0 t <=? null_ptr f) && (null_ptr f <=? ptr f).
Definition is_null_in_record m f t (record : Z) : bool :=
  if maybe_null_in_table f t then c_true (byte_at m (record + uwrap 32 (null_ptr f - record0 t)) .& null_bit f) else false.
Definition set_null m f (row_offset : Z) : memory :=
  if c_true (null_ptr f) then set_byte m (null_ptr f + row_offset) (byte_at m (null_ptr f + row_offset) .| null_bit f) else m.
Definition set_notnull m f (row_offset : Z) : memory :=
  if c_true (null_ptr f) then set_byte m (null_ptr f + row_offset) (byte_at m (null_ptr f + row_offset) .& uwrap 8 (unot 32 (null_bit f))) else m.
Definition field_maybe_null f t : bool := c_true (null_ptr f) || table_maybe_null t.
Definition real_maybe_null f : bool := c_true (null_ptr f).
Definition null_offset f (record : Z) : Z := uwrap 32 (null_ptr f - record).
Definition set_null_ptr f (p_null_ptr p_null_bit : Z) : Field := mkField (ptr f) p_null_ptr (uwrap 8 p_null_bit) (flags f).

(** ** Moving *)

Definition move_field f (ptr_arg null_ptr_arg null_bit_arg : Z) : Field := mkField ptr_arg null_ptr_arg null_bit_arg (flags f).
Definition move_field_ptr f (ptr_arg : Z) : Field := mkField ptr_arg (null_ptr f) (null_bit f) (flags f).
Definition record_ptr f t : Z := let offset := share_field_ptr t - default_values t in ptr f - offset.
Definition move_field_offset f (ptr_diff : Z) : Field :=
  mkField (ptr f + ptr_diff) (if c_true (null_ptr f) then null_ptr f + ptr_diff else null_ptr f) (null_bit f) (flags f).
Definition ptr_in_record f t (record : Z) : option Z :=
  let l_offset := ptr f - record0 t in asserting ((l_offset >=? 0) && (rec_buff_length t - l_offset >? 0)) (record + l_offset).
Definition get_image m (length ptr_arg : Z) : bytes := load m ptr_arg length.
Definition set_image m f (buff : bytes) : memory := store_bytes m (ptr f) buff.

Section Virtual.
Context (val_int : memory -> Field -> Z).
Definition val_int_offset m f (row_offset : Z) : Z * Field :=
  let f := move_field_ptr f (ptr f + row_offset) in let tmp := val_int m f in (tmp, move_field_ptr f (ptr f - row_offset)).
Definition val_int_at m f (new_ptr : Z) : Z * Field :=
  let old_ptr := ptr f in let f := move_field_ptr f new_ptr in let return_value := val_int m f in (return_value, move_field_ptr f old_ptr).
End Virtual.

(** ** Storage and format in the flags *)

Definition FIELD_FLAGS_STORAGE_MEDIA : Z := 22.
Definition FIELD_FLAGS_COLUMN_FORMAT : Z := 24.
Definition HA_SM_DEFAULT : Z := 0.
Definition COLUMN_FORMAT_TYPE_DEFAULT : Z := 0.
Definition field_with_flags f (fl : Z) : Field := mkField (ptr f) (null_ptr f) (null_bit f) fl.
Definition field_storage_type f : Z := (flags f .>> FIELD_FLAGS_STORAGE_MEDIA) .& 3.
Definition set_storage_type f (storage_type_arg : Z) : option Field :=
  asserting (field_storage_type f =? HA_SM_DEFAULT) (field_with_flags f (flags f .| uwrap 32 (uwrap 32 storage_type_arg .<< FIELD_FLAGS_STORAGE_MEDIA))).
Definition column_format f : Z := (flags f .>> FIELD_FLAGS_COLUMN_FORMAT) .& 3.
Definition set_column_format f (column_format_arg : Z) : option Field :=
  asserting (column_format f =? COLUMN_FORMAT_TYPE_DEFAULT) (field_with_flags f (flags f .| uwrap 32 (uwrap 32 column_format_arg .<< FIELD_FLAGS_COLUMN_FORMAT))).

(** ** Extremes *)

Section Extremes.
(** The comparison of the type, of the values at two addresses, and [pack_length()]. *)
Context (vcmp : bytes -> bytes -> Z) (pack_length : Z).
Definition cmp_at m (a b : Z) : Z := vcmp (load m a pack_length) (load m b pack_length).
Definition update_min m f (min_val : Field) (force_update : bool) : bool * memory :=
  let update_fl := force_update || (cmp_at m (ptr f) (ptr min_val) <? 0) in
  (update_fl, if update_fl then let m := set_notnull m min_val 0 in store_bytes m (ptr min_val) (load m (ptr f) pack_length) else m).
Definition update_max m f (max_val : Field) (force_update : bool) : bool * memory :=
  let update_fl := force_update || (cmp_at m (ptr f) (ptr max_val) >? 0) in
  (update_fl, if update_fl then let m := set_notnull m max_val 0 in store_bytes m (ptr max_val) (load m (ptr f) pack_length) else m).
Definition reset m f : memory := bzero m (ptr f) pack_length.
End Extremes.

(** * Packed values *)

(** The loop of [value_length]: [end] minus [str], from the end. *)
Fixpoint spaces_cut (rev_str : bytes) : nat :=
  match rev_str with [] => O | b :: s => if byteZ b =? 32 then spaces_cut s else length rev_str end.
Definition value_length m f (zero_pack type_is_string : bool) (pack_length data_length : Z) : Z :=
  if negb zero_pack && (type_is_string && ((pack_length >=? 4) && (pack_length <? 256)))
  then Z.of_nat (spaces_cut (reverse (load m (ptr f) pack_length)))
  else data_length.
(** The loop of [longlong_from_hex_hybrid]. *)
Fixpoint hex_value (value : Z) (s : bytes) : Z :=
  match s with [] => value | b :: s => hex_value (uwrap 64 (uwrap 64 (value .<< 8) + byteZ b)) s end.
Definition longlong_from_hex_hybrid (str : bytes) : Z := swrap 64 (hex_value 0 (drop (length str - Nat.min (length str) 8) str)).

Definition number_storage_requirement (n : Z) : Z := if n <? 256 then 1 else if n <? 65536 then 2 else if n <? 16777216 then 3 else 4.
Definition store_bigendian (num : Z) (to : bytes) (nbytes : Z) : option bytes :=
  if nbytes =? 1 then Some (mi_int1store to 0 num) else if nbytes =? 2 then Some (mi_int2store to 0 num) else if nbytes =? 3 then Some (mi_int3store 64 to 0 num)
  else if nbytes =? 4 then Some (mi_int4store 64 to 0 num) else if nbytes =? 5 then Some (mi_int5store 64 to 0 num) else if nbytes =? 6 then Some (mi_int6store 64 to 0 num)
  else if nbytes =? 7 then Some (mi_int7store 64 to 0 num) else if nbytes =? 8 then Some (mi_int8store 64 to 0 num) else None.
Definition mi_uint1korr (buf : bytes) (i : nat) : Z := uc buf i.
Definition read_bigendian (from : bytes) (nbytes : Z) : option Z :=
  if nbytes =? 1 then Some (mi_uint1korr from 0) else if nbytes =? 2 then Some (mi_uint2korr from 0) else if nbytes =? 3 then Some (mi_uint3korr from 0)
  else if nbytes =? 4 then Some (mi_uint4korr from 0) else if nbytes =? 5 then Some (mi_uint5korr from 0) else if nbytes =? 6 then Some (mi_uint6korr from 0)
  else if nbytes =? 7 then Some (mi_uint7korr from 0) else if nbytes =? 8 then Some (mi_sint8korr from 0) else None.
Definition store_lowendian (num : Z) (to : bytes) (nbytes : Z) : option bytes :=
  if nbytes =? 1 then Some (put to 0 num) else if nbytes =? 2 then Some (int2store to 0 num) else if nbytes =? 3 then Some (int3store to 0 num)
  else if nbytes =? 4 then Some (int4store to 0 num) else if nbytes =? 8 then Some (int8store to 0 num) else None.
Definition read_lowendian (from : bytes) (nbytes : Z) : option Z :=
  if nbytes =? 1 then Some (uc from 0) else if nbytes =? 2 then Some (uint2korr from 0) else if nbytes =? 3 then Some (uint3korr from 0)
  else if nbytes =? 4 then Some (uint4korr from 0) else if nbytes =? 8 then Some (sint8korr from 0) else None.

(** [pack_int] and [unpack_int]: the address after what was copied; 0 when the source is too short. *)
Definition pack_int m (to from size : Z) : Z * memory := (to + size, store_bytes m to (load m from size)).
Definition unpack_int m (to from from_end size : Z) : Z * memory :=
  if from + size >? from_end then (0, m) else (from + size, store_bytes m to (load m from size)).

(** * VARCHAR *)

(** [int2store] and [uint2korr] at an address. *)
Definition store2 m a (v : Z) : memory := store_bytes m a (int2store (replicate 2 x00) 0 v).
Definition load2 m a : Z := uint2korr (load m a 2) 0.
(** [length_bytes] is 1 or 2. *)
Definition get_data (ptr_arg length_bytes : Z) : Z := ptr_arg + length_bytes.
Definition get_length m (ptr_arg length_bytes : Z) : Z := if length_bytes =? 1 then byte_at m ptr_arg else load2 m ptr_arg.
Definition store_length m f (length_bytes number : Z) : memory := if length_bytes =? 1 then set_byte m (ptr f) (uwrap 8 number) else store2 m (ptr f) number.

(** * BLOB *)

(** A pointer in the memory of x86-64, of [portable_sizeof_char_ptr] bytes. *)
Definition portable_sizeof_char_ptr : Z := 8.
Definition store_pointer m a (p : Z) : memory := store_bytes m a (int8store (replicate 8 x00) 0 p).
Definition load_pointer m a : Z := uint8korr (load m a 8) 0.
(** The caches [value] and [read_value]: the address of the buffer and the length of a [String]. *)
Record cache := mkCache { c_ptr : Z; c_length : Z }.
Record Field_blob := mkBlob { blob_field : Field; packlength : Z; value : cache; read_value : cache }.
Implicit Types (b : Field_blob).
Definition no_cache : cache := mkCache 0 0.
Definition bptr b : Z := ptr (blob_field b).
Definition cache_is_empty (c : cache) : bool := c_length c =? 0.
Definition with_caches b (v r : cache) : Field_blob := mkBlob (blob_field b) (packlength b) v r.

Section Blob.
(** [store_length] and [get_length] with a length of the prefix are only declared. *)
Context (blob_store_length : memory -> Z -> Z -> Z -> memory) (blob_get_length : memory -> Z -> Z -> Z).
Definition blob_pack_length b : Z := uwrap 32 (packlength b + portable_sizeof_char_ptr).
Definition pack_length_no_ptr b : Z := packlength b.
Definition max_data_length b : Z := uwrap 32 ((1 .<< (packlength b * 8)) - 1).
Definition blob_reset m b : memory := bzero m (bptr b) (packlength b + 8).
Definition reset_fields b : Field_blob := with_caches b no_cache no_cache.
Definition blob_store m b (number : Z) : option memory := _ ← asserting (number <? 4294967295) tt; Some (blob_store_length m (bptr b) (packlength b) (uwrap 32 number)).
Definition blob_length m b (row_offset : Z) : Z := blob_get_length m (bptr b + row_offset) (packlength b).
Definition get_ptr_at m b (ptr_arg : Z) : Z := load_pointer m (ptr_arg + packlength b).
Definition get_ptr m b : Z := get_ptr_at m b (bptr b).
(** [set_ptr] with the bytes of the length at an address. *)
Definition set_ptr_bytes m b (length data : Z) : memory := store_pointer (store_bytes m (bptr b) (load m length (packlength b))) (bptr b + packlength b) data.
Definition set_ptr_offset m b (ptr_diff length data : Z) : memory :=
  let ptr_ofs := bptr b + ptr_diff in store_pointer (blob_store_length m ptr_ofs (packlength b) length) (ptr_ofs + packlength b) data.
Definition set_ptr m b (length data : Z) : memory := set_ptr_offset m b 0 length data.
(** [String::copy] gives the address of the copy, or fails; the memory is the one after it. *)
Definition blob_copy (string_copy : memory -> Z -> Z -> option (memory * Z)) m b : bool * memory * Field_blob :=
  let tmp := get_ptr m b in
  match string_copy m tmp (blob_length m b 0) with
  | None => (true, blob_reset m b, b)
  | Some (m', tmp') => (false, store_pointer m' (bptr b + packlength b) tmp', with_caches b (mkCache tmp' (blob_length m b 0)) (read_value b))
  end.
(** [cached]: which of the caches, the flag being [*set_read_value]. *)
Definition cached m b : option bool :=
  let tmp := get_ptr m b in
  if negb (cache_is_empty (value b)) && (tmp =? c_ptr (value b)) then Some false
  else if negb (cache_is_empty (read_value b)) && (tmp =? c_ptr (read_value b)) then Some true else None.
Definition blob_swap b (inout : cache) (set_read_value : bool) : Field_blob * cache :=
  if set_read_value then (with_caches b (value b) inout, read_value b) else (with_caches b inout (read_value b), value b).
Definition swap_value_and_read_value b : Field_blob := with_caches b (read_value b) (value b).
Definition blob_set_value b (data : Z) : Field_blob := with_caches b (mkCache data 1) (read_value b).
Definition clear_temporary m b : Field_blob :=
  let tmp := get_ptr m b in
  if c_ptr (value b) =? tmp then with_caches b no_cache (read_value b)
  else if c_ptr (read_value b) =? tmp then with_caches b (value b) no_cache else b.
End Blob.

(** * Facts about bytes in memory *)

Lemma set_byte_outside m a v a' : a' <> a -> set_byte m a v a' = m a'.
Proof. intros H. apply store_bytes_outside. cbn. lia. Qed.
Lemma byte_at_set m a v : byte_at (set_byte m a v) a = uwrap 8 v.
Proof.
  unfold byte_at, set_byte, store_bytes. cbn [length]. rewrite (proj2 (Z.leb_le a a)), (proj2 (Z.ltb_lt a _)) by lia.
  cbn [andb]. rewrite Z.sub_diag. apply byteZ_Zbyte.
Qed.
Lemma byte_at_other m a v a' : a' <> a -> byte_at (set_byte m a v) a' = byte_at m a'.
Proof. intros H. unfold byte_at. rewrite set_byte_outside by exact H. reflexivity. Qed.
Lemma byte_at_fits m a : ufits 8 (byte_at m a).
Proof. apply byteZ_range. Qed.

(** ** One bit of a byte *)

Definition bit_at m a (k : Z) : bool := Z.testbit (byte_at m a) k.
Lemma bit_at_or m a k a' k' : 0 <= k < 8 -> 0 <= k' < 8 ->
  bit_at (set_byte m a (byte_at m a .| 2 ^ k)) a' k' = ((a' =? a) && (k' =? k)) || bit_at m a' k'.
Proof.
  intros Hk Hk'. unfold bit_at. destruct (Z.eqb_spec a' a) as [->|N]; [|rewrite byte_at_other by exact N; reflexivity].
  rewrite byte_at_set, uwrap_testbit, Z.lor_spec, pow2_testbit by lia. rewrite (proj2 (Z.ltb_lt k' 8)) by lia. apply orb_comm.
Qed.
Lemma bit_at_and_not m a k a' k' : 0 <= k < 8 -> 0 <= k' < 8 ->
  bit_at (set_byte m a (byte_at m a .& uwrap 8 (unot 32 (2 ^ k)))) a' k' = negb ((a' =? a) && (k' =? k)) && bit_at m a' k'.
Proof.
  intros Hk Hk'. unfold bit_at. destruct (Z.eqb_spec a' a) as [->|N]; [|rewrite byte_at_other by exact N; reflexivity].
  rewrite byte_at_set, uwrap_testbit, Z.land_spec, uwrap_testbit, unot_testbit, pow2_testbit by lia.
  rewrite (proj2 (Z.ltb_lt k' 8)), (proj2 (Z.ltb_lt k' 32)) by lia. rewrite (proj2 (Z.leb_le 0 k')) by lia. cbn [andb]. apply andb_comm.
Qed.

(** * The null bits *)

(** A nullable column has one bit of a byte. *)
Definition null_ok f : Prop := null_ptr f <> 0 /\ exists k, 0 <= k < 8 /\ null_bit f = 2 ^ k.
Definition null_place f : Z * Z := (null_ptr f, null_bit f).
(** The set of the columns of [fs] that are null in the record at the offset [d]. *)
Definition nulls_are m (fs : list Field) (d : Z) (X : gset nat) : Prop := forall i f, fs !! i = Some f -> is_real_null m f d = bool_decide (i ∈ X).
Inductive null_op := SetNull (i : nat) | SetNotnull (i : nat).
Definition run_null_op (fs : list Field) (d : Z) m (op : null_op) : memory :=
  match op with
  | SetNull i => match fs !! i with Some f => set_null m f d | None => m end
  | SetNotnull i => match fs !! i with Some f => set_notnull m f d | None => m end
  end.
Definition spec_null_op (X : gset nat) (op : null_op) : gset nat := match op with SetNull i => {[i]} ∪ X | SetNotnull i => X ∖ {[i]} end.
Definition null_bytes (fs : list Field) (d : Z) : list Z := (fun f => null_ptr f + d) <$> fs.

Lemma is_real_null_bit m f d k : null_ptr f <> 0 -> 0 <= k < 8 -> null_bit f = 2 ^ k -> is_real_null m f d = bit_at m (null_ptr f + d) k.
Proof. intros Hp Hk E. unfold is_real_null, bit_at. rewrite E, c_true_land_pow2 by lia. rewrite (proj2 (c_true_spec _) Hp). reflexivity. Qed.
Definition op_index (op : null_op) : nat := match op with SetNull i | SetNotnull i => i end.
Lemma run_null_op_bit fs d m op f k : fs !! op_index op = Some f -> null_ptr f <> 0 -> null_bit f = 2 ^ k ->
  run_null_op fs d m op = set_byte m (null_ptr f + d) (match op with SetNull _ => byte_at m (null_ptr f + d) .| 2 ^ k | SetNotnull _ => byte_at m (null_ptr f + d) .& uwrap 8 (unot 32 (2 ^ k)) end).
Proof. intros Hf Hp E. destruct op; cbn in *; rewrite Hf; unfold set_null, set_notnull; rewrite (proj2 (c_true_spec _) Hp), E; reflexivity. Qed.
Lemma same_place (fs : list Field) i j f g : NoDup (null_place <$> fs) -> fs !! i = Some f -> fs !! j = Some g -> null_place f = null_place g -> i = j.
Proof.
  intros Hn Hf Hg E. apply (NoDup_lookup _ _ _ (null_place f) Hn).
  - rewrite list_lookup_fmap, Hf. reflexivity.
  - rewrite list_lookup_fmap, Hg, E. reflexivity.
Qed.
Lemma null_op_refines fs d m X op : Forall null_ok fs -> NoDup (null_place <$> fs) -> nulls_are m fs d X ->
  nulls_are (run_null_op fs d m op) fs d (spec_null_op X op) /\ (forall a, a ∉ null_bytes fs d -> run_null_op fs d m op a = m a).
Proof.
  intros Hok Hn Hm. set (j := op_index op).
  destruct (fs !! j) as [g|] eqn:Hg.
  - destruct (proj1 (Forall_lookup _ _) Hok _ _ Hg) as (Hpg & kg & Hkg & Eg).
    rewrite (run_null_op_bit fs d m op g kg Hg Hpg Eg). split.
    + intros i f Hf. destruct (proj1 (Forall_lookup _ _) Hok _ _ Hf) as (Hpf & k & Hk & E).
      rewrite (is_real_null_bit _ _ _ k Hpf Hk E).
      assert (Hplace : (null_ptr f + d =? null_ptr g + d) && (k =? kg) = bool_decide (i = j)).
      { destruct (decide (i = j)) as [->|Nij].
        - assert (f = g) by congruence. subst g. assert (k = kg) by (apply (Z.pow_inj_r 2); [lia..|congruence]). subst. rewrite !Z.eqb_refl, bool_decide_eq_true_2 by reflexivity. reflexivity.
        - rewrite bool_decide_eq_false_2 by exact Nij. apply andb_false_iff. destruct (Z.eqb_spec (null_ptr f + d) (null_ptr g + d)) as [Ep|]; [|left; reflexivity].
          right. apply Z.eqb_neq. intros ->. apply Nij, (same_place fs _ _ _ _ Hn Hf Hg). unfold null_place. f_equal; [lia|congruence]. }
      specialize (Hm i f Hf). rewrite (is_real_null_bit _ _ _ k Hpf Hk E) in Hm.
      destruct op; cbn [spec_null_op]; subst j; cbn in *.
      * rewrite bit_at_or, Hplace, Hm by assumption. rewrite <- bool_decide_or. apply bool_decide_ext. set_solver.
      * rewrite bit_at_and_not, Hplace, Hm by assumption. rewrite <- bool_decide_not, <- bool_decide_and. apply bool_decide_ext. set_solver.
    + intros a Ha. apply set_byte_outside. intros ->. apply Ha. unfold null_bytes. apply list_elem_of_fmap. exists g. split; [reflexivity|].
      apply (list_elem_of_lookup_2 _ _ _ Hg).
  - assert (E : run_null_op fs d m op = m) by (destruct op; cbn in *; subst j; rewrite Hg; reflexivity). rewrite E. split; [|reflexivity].
    intros i f Hf. rewrite (Hm i f Hf). apply bool_decide_ext. assert (i <> j) by congruence. destruct op; cbn; subst j; set_solver.
Qed.

(** ** Areas of memory *)

Definition apart (a n b k : Z) : Prop := a + n <= b \/ b + k <= a.
Lemma load_store_apart m a bs (b n : Z) : apart a (Z.of_nat (length bs)) b n -> load (store_bytes m a bs) b n = load m b n.
Proof. intros H. apply load_ext. intros x Hx. apply store_bytes_outside. destruct H; lia. Qed.
Lemma load_set_notnull m f (b n : Z) : apart (null_ptr f) 1 b n -> load (set_notnull m f 0) b n = load m b n.
Proof. intros H. unfold set_notnull. destruct (c_true (null_ptr f)); [|reflexivity]. apply load_store_apart. cbn. rewrite Z.add_0_r. exact H. Qed.
Lemma byte_store_apart m a bs (b : Z) : apart a (Z.of_nat (length bs)) b 1 -> byte_at (store_bytes m a bs) b = byte_at m b.
Proof. intros H. unfold byte_at. rewrite store_bytes_outside; [reflexivity|destruct H; lia]. Qed.
Lemma length_load_nat m a n : 0 <= n -> length (load m a n) = Z.to_nat n.
Proof. intros H. pose proof (length_load m a n H). lia. Qed.

(** * The extremes of a column *)

Section Extremes_facts.
Context (vcmp : bytes -> bytes -> Z) (len : Z).
(** What reading a row of values and keeping the extremes does, the first value being forced. *)
Definition scan_row m f mn mx (first : bool) (r : bytes) : memory :=
  let m := store_bytes m (ptr f) r in let m := (update_min vcmp len m f mn first).2 in (update_max vcmp len m f mx first).2.
Fixpoint scan_rows m f mn mx (first : bool) (rows : list bytes) : memory :=
  match rows with [] => m | r :: rows => scan_rows (scan_row m f mn mx first r) f mn mx false rows end.
(** The comparison of a type is a total preorder. *)
Class Comparison : Prop := {
  vcmp_sym (a b : bytes) : Z.sgn (vcmp a b) = - Z.sgn (vcmp b a);
  vcmp_trans (a b c : bytes) : vcmp a b <= 0 -> vcmp b c <= 0 -> vcmp a c <= 0
}.
Record separate f mn mx : Prop := {
  sep_len : 0 <= len;
  sep_f_mn : apart (ptr f) len (ptr mn) len; sep_f_mx : apart (ptr f) len (ptr mx) len; sep_mn_mx : apart (ptr mn) len (ptr mx) len;
  sep_null : forall g v, (g = mn \/ g = mx) -> (v = f \/ v = mn \/ v = mx) -> apart (null_ptr g) 1 (ptr v) len;
  sep_ok : null_ok mn /\ null_ok mx
}.
Record extremes m mn mx (seen : list bytes) : Prop := {
  ex_min : load m (ptr mn) len ∈ seen; ex_max : load m (ptr mx) len ∈ seen;
  ex_least : forall r, r ∈ seen -> vcmp (load m (ptr mn) len) r <= 0; ex_greatest : forall r, r ∈ seen -> vcmp r (load m (ptr mx) len) <= 0;
  ex_min_null : is_real_null m mn 0 = false; ex_max_null : is_real_null m mx 0 = false
}.
Lemma vcmp_refl `{Comparison} (a : bytes) : vcmp a a = 0.
Proof. pose proof (vcmp_sym a a). lia. Qed.
Lemma vcmp_neg `{Comparison} (a b : bytes) : ~ vcmp a b < 0 -> vcmp b a <= 0.
Proof. intros N. pose proof (vcmp_sym a b). lia. Qed.
Lemma is_real_null_notnull m f : null_ok f -> is_real_null (set_notnull m f 0) f 0 = false.
Proof.
  intros (Hp & k & Hk & E). rewrite (is_real_null_bit _ _ _ k Hp Hk E). unfold set_notnull. rewrite (proj2 (c_true_spec _) Hp), E.
  rewrite bit_at_and_not, !Z.eqb_refl by lia. reflexivity.
Qed.
Lemma is_real_null_other m f g : null_ok f -> null_ok g -> is_real_null m f 0 = false -> is_real_null (set_notnull m g 0) f 0 = false.
Proof.
  intros (Hp & k & Hk & E) (Hp' & k' & Hk' & E'). rewrite !(is_real_null_bit _ f _ k Hp Hk E). unfold set_notnull. rewrite (proj2 (c_true_spec _) Hp'), E'.
  intros H. rewrite bit_at_and_not, H by lia. apply andb_false_r.
Qed.
Lemma is_real_null_store m f a bs : null_ok f -> apart a (Z.of_nat (length bs)) (null_ptr f) 1 -> is_real_null (store_bytes m a bs) f 0 = is_real_null m f 0.
Proof. intros _ H. unfold is_real_null. rewrite byte_store_apart by (rewrite Z.add_0_r; exact H). reflexivity. Qed.
Lemma apart_sym a n (b k : Z) : apart a n b k -> apart b k a n.
Proof. unfold apart. tauto. Qed.

(** The writing of an extreme: the other values stay, and the null bits are cleared or stay. *)
Lemma write_extreme m f mn mx g : separate f mn mx -> g = mn \/ g = mx ->
  let m' := store_bytes (set_notnull m g 0) (ptr g) (load m (ptr f) len) in
  load m' (ptr g) len = load m (ptr f) len /\ is_real_null m' g 0 = false /\
  (forall v, (v = f \/ v = mn \/ v = mx) -> apart (ptr g) len (ptr v) len -> load m' (ptr v) len = load m (ptr v) len) /\
  (forall v, (v = mn \/ v = mx) -> is_real_null m v 0 = false -> is_real_null m' v 0 = false).
Proof.
  intros [Hlen H1 H2 H3 Hnull [Hmn Hmx]] Hg. cbv zeta. assert (Hl : Z.of_nat (length (load m (ptr f) len)) = len) by (apply length_load, Hlen).
  assert (Hok : forall v, v = mn \/ v = mx -> null_ok v) by (intros v [-> | ->]; assumption).
  assert (Hgv : g = f \/ g = mn \/ g = mx) by tauto. split; [apply load_store; symmetry; exact Hl|]. split; [|split].
  - rewrite is_real_null_store; [apply is_real_null_notnull, Hok, Hg|apply Hok, Hg|rewrite Hl; apply apart_sym, Hnull; assumption].
  - intros v Hv Hap. rewrite load_store_apart by (rewrite Hl; exact Hap). apply load_set_notnull, Hnull; assumption.
  - intros v Hv Hn. rewrite is_real_null_store; [|apply Hok, Hv|rewrite Hl; apply apart_sym, Hnull; assumption].
    apply is_real_null_other; [apply Hok, Hv|apply Hok, Hg|exact Hn].
Qed.
(** What either half of [scan_row] does with an extreme [g], the value of the row being in [f]. *)
Definition keep_extreme m f (g : Field) (upd : bool) : memory := if upd then store_bytes (set_notnull m g 0) (ptr g) (load (set_notnull m g 0) (ptr f) len) else m.
Lemma keep_extreme_spec m f mn mx g upd : separate f mn mx -> g = mn \/ g = mx -> (upd = false -> is_real_null m g 0 = false) ->
  let m' := keep_extreme m f g upd in
  load m' (ptr g) len = (if upd then load m (ptr f) len else load m (ptr g) len) /\ is_real_null m' g 0 = false /\
  (forall v, (v = f \/ v = mn \/ v = mx) -> apart (ptr g) len (ptr v) len -> load m' (ptr v) len = load m (ptr v) len) /\
  (forall v, (v = mn \/ v = mx) -> is_real_null m v 0 = false -> is_real_null m' v 0 = false).
Proof.
  intros Hs Hg Hn. unfold keep_extreme. rewrite load_set_notnull by (apply (sep_null _ _ _ Hs); tauto). destruct upd; [apply (write_extreme _ _ _ _ _ Hs Hg)|]. cbv zeta. auto.
Qed.
Lemma least_step `{Comparison} (r cur : bytes) seen : cur ∈ seen -> (forall x, x ∈ seen -> vcmp cur x <= 0) ->
  let new := if vcmp r cur <? 0 then r else cur in new ∈ r :: seen /\ (forall x, x ∈ r :: seen -> vcmp new x <= 0).
Proof.
  intros I1 I3. cbv zeta. destruct (Z.ltb_spec (vcmp r cur) 0) as [L|L].
  - split; [apply list_elem_of_here|]. intros x Hx. apply elem_of_cons in Hx as [->|Hx]; [rewrite vcmp_refl; lia|]. apply vcmp_trans with cur; [lia|apply I3, Hx].
  - split; [apply list_elem_of_further, I1|]. intros x Hx. apply elem_of_cons in Hx as [->|Hx]; [apply vcmp_neg; lia|apply I3, Hx].
Qed.
Lemma greatest_step `{Comparison} (r cur : bytes) seen : cur ∈ seen -> (forall x, x ∈ seen -> vcmp x cur <= 0) ->
  let new := if vcmp r cur >? 0 then r else cur in new ∈ r :: seen /\ (forall x, x ∈ r :: seen -> vcmp x new <= 0).
Proof.
  intros I1 I3. cbv zeta. rewrite Z.gtb_ltb. destruct (Z.ltb_spec 0 (vcmp r cur)) as [L|L].
  - split; [apply list_elem_of_here|]. intros x Hx. apply elem_of_cons in Hx as [->|Hx]; [rewrite vcmp_refl; lia|]. apply vcmp_trans with cur; [apply I3, Hx|apply vcmp_neg; lia].
  - split; [apply list_elem_of_further, I1|]. intros x Hx. apply elem_of_cons in Hx as [->|Hx]; [lia|apply I3, Hx].
Qed.
Lemma scan_row_spec `{Comparison} m f mn mx (first : bool) r seen : separate f mn mx -> Z.of_nat (length r) = len ->
  (if first then seen = [] else extremes m mn mx seen) -> extremes (scan_row m f mn mx first r) mn mx (r :: seen).
Proof.
  intros Hs Hr Hst. pose proof Hs as [Hlen H1 H2 H3 Hnull [Hmn Hmx]].
  set (m1 := store_bytes m (ptr f) r).
  assert (Lf : load m1 (ptr f) len = r) by (apply load_store; congruence).
  assert (Lv : forall v, v = mn \/ v = mx -> load m1 (ptr v) len = load m (ptr v) len).
  { intros v [-> | ->]; apply load_store_apart; rewrite Hr; assumption. }
  assert (Nv : forall v, v = mn \/ v = mx -> is_real_null m1 v 0 = is_real_null m v 0).
  { intros v Hv. apply is_real_null_store; [destruct Hv as [-> | ->]; assumption|rewrite Hr; apply apart_sym, Hnull; tauto]. }
  set (u1 := first || (vcmp r (load m (ptr mn) len) <? 0)). set (m2 := keep_extreme m1 f mn u1).
  assert (E2 : (update_min vcmp len m1 f mn first).2 = m2) by (unfold update_min, cmp_at, m2, keep_extreme, u1; rewrite Lf, (Lv mn) by tauto; reflexivity).
  assert (Hu1 : u1 = false -> is_real_null m1 mn 0 = false).
  { unfold u1. destruct first; [discriminate|]. intros _. rewrite Nv by tauto. apply Hst. }
  destruct (keep_extreme_spec m1 f mn mx mn u1 Hs (or_introl eq_refl) Hu1) as (A1 & A2 & A3 & A4). fold m2 in A1, A2, A3, A4.
  set (u2 := first || (vcmp r (load m (ptr mx) len) >? 0)). set (m3 := keep_extreme m2 f mx u2).
  assert (Lf2 : load m2 (ptr f) len = r) by (rewrite A3; [exact Lf|tauto|apply apart_sym, H1]).
  assert (Lx2 : load m2 (ptr mx) len = load m (ptr mx) len) by (rewrite A3; [apply Lv; tauto|tauto|exact H3]).
  assert (E3 : scan_row m f mn mx first r = m3) by (unfold scan_row; fold m1; rewrite E2; unfold update_max, cmp_at, m3, keep_extreme, u2; rewrite Lf2, Lx2; reflexivity).
  assert (Hu2 : u2 = false -> is_real_null m2 mx 0 = false).
  { unfold u2. destruct first; [discriminate|]. intros _. apply A4; [tauto|]. rewrite Nv by tauto. apply Hst. }
  destruct (keep_extreme_spec m2 f mn mx mx u2 Hs (or_intror eq_refl) Hu2) as (B1 & B2 & B3 & B4). fold m3 in B1, B2, B3, B4.
  assert (Lmn : load m3 (ptr mn) len = if u1 then r else load m (ptr mn) len).
  { rewrite B3; [|tauto|apply apart_sym, H3]. rewrite A1, Lf, (Lv mn) by tauto. reflexivity. }
  assert (Lmx : load m3 (ptr mx) len = if u2 then r else load m (ptr mx) len) by (rewrite B1, Lf2, Lx2; reflexivity).
  rewrite E3. destruct first.
  - subst seen. subst u1 u2. cbn [orb] in Lmn, Lmx.
    assert (Hone : forall x, x ∈ [r] -> vcmp r x <= 0 /\ vcmp x r <= 0) by (intros x Hx; apply list_elem_of_singleton in Hx as ->; rewrite vcmp_refl; lia).
    split; rewrite ?Lmn, ?Lmx; [apply list_elem_of_here|apply list_elem_of_here|apply Hone|apply Hone|apply B4; [tauto|exact A2]|exact B2].
  - destruct Hst as [I1 I2 I3 I4 _ _]. subst u1 u2. cbn [orb] in Lmn, Lmx.
    destruct (least_step r _ seen I1 I3) as [J1 J3]. destruct (greatest_step r _ seen I2 I4) as [J2 J4].
    split; rewrite ?Lmn, ?Lmx; [exact J1|exact J2|exact J3|exact J4|apply B4; [tauto|exact A2]|exact B2].
Qed.
Lemma scan_rows_spec `{Comparison} m f mn mx rows seen : separate f mn mx -> Forall (fun r => Z.of_nat (length r) = len) rows ->
  extremes m mn mx seen -> extremes (scan_rows m f mn mx false rows) mn mx (reverse rows ++ seen).
Proof.
  intros Hs. revert m seen. induction rows as [|r rows IH]; intros m seen Hr Hst; [exact Hst|]. apply Forall_cons in Hr as [Hr Hrs].
  cbn [scan_rows]. rewrite reverse_cons, <- (assoc (++)). apply IH; [exact Hrs|]. apply scan_row_spec; assumption.
Qed.
End Extremes_facts.

(** * Packed values *)

Lemma store_bigendian_be (num : Z) (to : bytes) n : (1 <= n <= 8)%nat -> store_bigendian num to (Z.of_nat n) = Some (be_store n to 0 num).
Proof.
  intros H. destruct n as [|[|[|[|[|[|[|[|[|n]]]]]]]]]; [lia| | | | | | | | |lia]; unfold store_bigendian; cbn [Z.of_nat Z.eqb Pos.of_succ_nat Pos.succ Pos.eqb]; apply (f_equal Some);
    [reflexivity|apply m_int2store|apply m_int3store; lia|apply m_int4store; lia|apply m_int5store; lia|apply m_int6store; lia|apply m_int7store; lia|apply m_int8store; lia].
Qed.
Lemma read_bigendian_be (from : bytes) n : (1 <= n <= 8)%nat -> read_bigendian from (Z.of_nat n) = Some (if (n =? 8)%nat then swrap 64 (be_val (rd 8 from 0)) else be_val (rd n from 0)).
Proof.
  intros H. destruct n as [|[|[|[|[|[|[|[|[|n]]]]]]]]]; [lia| | | | | | | | |lia]; unfold read_bigendian; cbn [Z.of_nat Z.eqb Pos.of_succ_nat Pos.succ Pos.eqb Nat.eqb]; apply (f_equal Some);
    [|apply m_uint2korr|apply m_uint3korr|apply m_uint4korr|apply x_mi_uint5korr|apply x_mi_uint6korr|apply x_mi_uint7korr|apply m_sint8korr].
  unfold mi_uint1korr, be_val. cbn. rewrite Z.lor_0_r. reflexivity.
Qed.
Lemma store_lowendian_le (num : Z) (to : bytes) n : (1 <= n <= 4 \/ n = 8)%nat -> store_lowendian num to (Z.of_nat n) = Some (store_word n to 0 num).
Proof.
  intros H. destruct n as [|[|[|[|[|[|[|[|[|n]]]]]]]]]; try lia; unfold store_lowendian; cbn [Z.of_nat Z.eqb Pos.of_succ_nat Pos.succ Pos.eqb]; apply (f_equal Some);
    [reflexivity|apply x_int2store|apply x_int3store|apply x_int4store|apply x_int8store].
Qed.
Lemma read_lowendian_le (from : bytes) n : (1 <= n <= 4 \/ n = 8)%nat -> read_lowendian from (Z.of_nat n) = Some (if (n =? 8)%nat then swrap 64 (load_word 8 from 0) else load_word n from 0).
Proof.
  intros H. destruct n as [|[|[|[|[|[|[|[|[|n]]]]]]]]]; try lia; unfold read_lowendian; cbn [Z.of_nat Z.eqb Pos.of_succ_nat Pos.succ Pos.eqb Nat.eqb]; apply (f_equal Some);
    [|reflexivity|apply g_uint3korr|reflexivity|reflexivity].
  unfold load_word, rd. cbn. rewrite Z.lor_0_r. reflexivity.
Qed.
Lemma length_be_store n (to : bytes) T (num : Z) : length (be_store n to T num) = length to.
Proof. unfold be_store. apply length_wr. Qed.
Lemma number_storage_spec (n : Z) : 0 <= n < 2 ^ 32 -> let r := number_storage_requirement n in 1 <= r <= 4 /\ n < 256 ^ r /\ (r = 1 \/ 256 ^ (r - 1) <= n).
Proof. unfold number_storage_requirement. intros H. destruct (Z.ltb_spec n 256), (Z.ltb_spec n 65536), (Z.ltb_spec n 16777216); cbn; lia. Qed.

Lemma hex_value_spec (v : Z) (s : bytes) : ufits 64 v -> hex_value v s = uwrap 64 (v * 2 ^ (8 * Z.of_nat (length s)) + be_val (byteZ <$> s)).
Proof.
  revert v. induction s as [|b s IH]; intros v Hv.
  - cbn. rewrite Z.mul_1_r, Z.add_0_r, uwrap_small by exact Hv. reflexivity.
  - cbn [hex_value length fmap list_fmap]. rewrite IH by (apply uwrap_range; lia).
    change (list_fmap _ _ byteZ s) with (byteZ <$> s). rewrite be_val_cons by (apply Forall_fmap, Forall_true; intros; apply byteZ_range). rewrite length_fmap.
    replace (8 * Z.of_nat (S (length s))) with (8 + 8 * Z.of_nat (length s)) by lia. rewrite Z.pow_add_r by lia.
    rewrite Z.shiftl_mul_pow2 by lia. set (k := 2 ^ (8 * Z.of_nat (length s))). unfold uwrap.
    set (q1 := v * 2 ^ 8 / 2 ^ 64). rewrite (Z.mod_eq (v * 2 ^ 8)) by lia. fold q1.
    set (q2 := (v * 2 ^ 8 - 2 ^ 64 * q1 + byteZ b) / 2 ^ 64). rewrite (Z.mod_eq (_ + byteZ b)) by lia. fold q2.
    rewrite <- (Z.mod_add (v * _ + _) (- (q1 + q2) * k)) by lia. f_equal. ring.
Qed.
Lemma spaces_cut_spec (s : bytes) : (spaces_cut s <= length s)%nat /\ Forall (fun c => byteZ c = 32) (take (length s - spaces_cut s) s) /\
  match drop (length s - spaces_cut s) s with [] => True | c :: _ => byteZ c <> 32 end.
Proof.
  induction s as [|b s (IH1 & IH2 & IH3)]; [cbn; auto|]. cbn [spaces_cut]. destruct (Z.eqb_spec (byteZ b) 32) as [E|N].
  - cbn [length]. replace (S (length s) - spaces_cut s)%nat with (S (length s - spaces_cut s)) by lia. cbn [take drop]. split; [lia|]. split; [constructor; assumption|exact IH3].
  - rewrite Nat.sub_diag. cbn. auto.
Qed.

(** * Lengths and pointers in memory *)

Lemma load2_store2 m a v : load2 (store2 m a v) a = uwrap 16 v.
Proof.
  unfold load2, store2. rewrite x_int2store, load_store by (rewrite length_store_word; reflexivity).
  apply (load_store_word 2). cbn. lia.
Qed.
Lemma load_ptr_store_ptr m a v : load_pointer (store_pointer m a v) a = uwrap 64 v.
Proof.
  unfold load_pointer, store_pointer. rewrite x_int8store, load_store by (rewrite length_store_word; reflexivity).
  apply (load_store_word 8). cbn. lia.
Qed.
Lemma store_ptr_outside m a v a' : ~ (a <= a' < a + 8) -> store_pointer m a v a' = m a'.
Proof. intros H. unfold store_pointer. rewrite x_int8store. apply store_bytes_outside. rewrite length_store_word. cbn. lia. Qed.
Lemma load_ptr_ext m m' a : (forall x, a <= x < a + 8 -> m' x = m x) -> load_pointer m' a = load_pointer m a.
Proof. intros H. unfold load_pointer. rewrite (load_ext m m') by exact H. reflexivity. Qed.
Lemma nth_zeros n i : nth i (replicate n x00) x00 = x00.
Proof. revert i. induction n as [|n IH]; intros [|i]; cbn; auto. Qed.
Lemma bzero_at m a n x : 0 <= n -> bzero m a n x = if (a <=? x) && (x <? a + n) then x00 else m x.
Proof.
  intros Hn. unfold bzero, store_bytes. rewrite length_replicate, Z2Nat.id by exact Hn. destruct ((a <=? x) && _); [|reflexivity]. apply nth_zeros.
Qed.
Lemma load_bzero m a n (b k : Z) : 0 <= k -> a <= b -> b + k <= a + n -> load (bzero m a n) b k = replicate (Z.to_nat k) x00.
Proof.
  intros Hk H1 H2. apply (List.nth_ext _ _ x00 x00).
  - unfold load. rewrite length_map, length_seq, length_replicate. reflexivity.
  - intros i Hi. rewrite nth_zeros. unfold load in *. rewrite length_map, length_seq in Hi.
    rewrite (List.nth_indep _ _ (bzero m a n (b + Z.of_nat 0))) by (rewrite length_map, length_seq; exact Hi).
    rewrite (List.map_nth (fun i => bzero m a n (b + Z.of_nat i))), seq_nth by exact Hi. rewrite bzero_at by lia.
    rewrite (proj2 (Z.leb_le _ _)), (proj2 (Z.ltb_lt _ _)) by lia. reflexivity.
Qed.

(** What is documented of the lengths of blobs: a prefix of [packlength] bytes, where no byte set is length 0. *)
Class BlobLaws (blob_store_length : memory -> Z -> Z -> Z -> memory) (blob_get_length : memory -> Z -> Z -> Z) : Prop := {
  blob_length_read m a pl n : 1 <= pl <= 4 -> 0 <= n < 256 ^ pl -> blob_get_length (blob_store_length m a pl n) a pl = n;
  blob_length_outside m a pl n x : 1 <= pl <= 4 -> ~ (a <= x < a + pl) -> blob_store_length m a pl n x = m x;
  blob_length_ext m m' a pl : 1 <= pl <= 4 -> load m' a pl = load m a pl -> blob_get_length m' a pl = blob_get_length m a pl;
  blob_length_zero m a pl : 1 <= pl <= 4 -> load m a pl = replicate (Z.to_nat pl) x00 -> blob_get_length m a pl = 0
}.
(** The bytes of the prefix, lowest first, as an instance. *)
Definition low_store_length m a (pl n : Z) : memory := store_bytes m a (store_word (Z.to_nat pl) (replicate (Z.to_nat pl) x00) 0 n).
Definition low_get_length m a (pl : Z) : Z := load_word (Z.to_nat pl) (load m a pl) 0.
#[export] Instance low_BlobLaws : BlobLaws low_store_length low_get_length.
Proof.
  split.
  - intros m a pl n Hpl Hn. unfold low_store_length, low_get_length.
    rewrite load_store by (rewrite length_store_word, length_replicate; lia). rewrite load_store_word by (rewrite length_replicate; lia).
    apply uwrap_small. unfold ufits. rewrite Z2Nat.id by lia. replace 256 with (2 ^ 8) in Hn by reflexivity. rewrite <- Z.pow_mul_r in Hn by lia. exact Hn.
  - intros m a pl n x Hpl Hx. apply store_bytes_outside. rewrite length_store_word, length_replicate. lia.
  - intros m m' a pl Hpl E. unfold low_get_length. rewrite E. reflexivity.
  - intros m a pl Hpl E. unfold low_get_length. rewrite E. assert (Hp : pl = 1 \/ pl = 2 \/ pl = 3 \/ pl = 4) by lia.
    destruct Hp as [-> |[-> |[-> | ->]]]; reflexivity.
Qed.

(** * Theorems *)

(** C12.  The null bits of the columns of a record are the set of the columns that are null: setting and clearing them, in any
    order and in the record at any offset, is adding to and removing from the set, and no other byte changes. *)
Theorem null_flags_refine_set (fs : list Field) d m X (ops : list null_op) : Forall null_ok fs -> NoDup (null_place <$> fs) -> nulls_are m fs d X ->
  nulls_are (foldl (run_null_op fs d) m ops) fs d (foldl spec_null_op X ops) /\ (forall a, a ∉ null_bytes fs d -> foldl (run_null_op fs d) m ops a = m a).
Proof.
  intros Hok Hn. revert m X. induction ops as [|op ops IH]; intros m X Hm; [auto|]. cbn [foldl].
  destruct (null_op_refines fs d m X op Hok Hn Hm) as [Hm' Hframe]. destruct (IH _ _ Hm') as [H1 H2]. split; [exact H1|].
  intros a Ha. rewrite H2, Hframe by exact Ha. reflexivity.
Qed.

(** A field of a table in another record: the address and the null flag computed from the record are those of the field
    moved there by the offset of the record, a moved field knows its record, and moving back gives the field. *)
Theorem fields_move_between_records m f t (record : Z) : 0 < record0 t -> 0 < record -> maybe_null_in_table f t = true -> null_ptr f < record0 t + 2 ^ 32 ->
  record0 t <= ptr f < record0 t + rec_buff_length t -> ptr f - record0 t = share_field_ptr t - default_values t ->
  let d := record - record0 t in let f' := move_field_offset f d in
  ptr_in_record f t record = Some (ptr f') /\ record_ptr f' t = record /\
  is_null_in_record m f t record = is_real_null m f' 0 /\ is_real_null m f d = is_real_null m f' 0 /\
  set_null m f d = set_null m f' 0 /\ set_notnull m f d = set_notnull m f' 0 /\ move_field_offset f' (- d) = f.
Proof.
  intros Hr0 Hr Hn Hlt Hp Hs d f'. unfold maybe_null_in_table in Hn. pose proof Hn as Hn'. apply andb_true_iff in Hn' as [H1%Z.leb_le H2%Z.leb_le].
  assert (E0 : c_true (null_ptr f) = true) by (apply c_true_spec; lia). assert (Enull : null_ptr f' = null_ptr f + d) by (unfold f', move_field_offset; cbn; rewrite E0; reflexivity).
  assert (E1 : c_true (null_ptr f') = true) by (rewrite Enull; apply c_true_spec; unfold d; lia).
  assert (Ea : null_ptr f + d = null_ptr f' + 0) by lia. assert (Eb : null_bit f' = null_bit f) by reflexivity.
  split; [|split; [|split; [|split; [|split; [|split]]]]].
  - unfold ptr_in_record. cbv zeta. rewrite asserting_true by (apply andb_true_iff; rewrite Z.geb_leb, Z.gtb_ltb, Z.leb_le, Z.ltb_lt; lia).
    f_equal. unfold f', move_field_offset, d. cbn. lia.
  - unfold record_ptr, f', move_field_offset, d. cbn. lia.
  - unfold is_null_in_record, maybe_null_in_table, is_real_null. rewrite Hn, E1, uwrap_small by (unfold ufits; lia). cbn [andb].
    replace (record + (null_ptr f - record0 t)) with (null_ptr f' + 0) by (rewrite <- Ea; unfold d; lia). reflexivity.
  - unfold is_real_null. rewrite E0, E1, Ea, Eb. reflexivity.
  - unfold set_null. rewrite E0, E1, Ea, Eb. reflexivity.
  - unfold set_notnull. rewrite E0, E1, Ea, Eb. reflexivity.
  - unfold move_field_offset at 1. rewrite E1, Enull. unfold f', move_field_offset. cbn. destruct f as [p np nb fl]; cbn. f_equal; lia.
Qed.

(** C36.  Scanning a column keeps its extremes: after any rows [min_val] holds the least of the values that were read and [max_val] the
    greatest, by the comparison of the type, and neither is null. *)
Theorem column_extremes vcmp len `{Comparison vcmp} m f mn mx (r : bytes) (rows : list bytes) : separate len f mn mx -> Forall (fun r => Z.of_nat (length r) = len) (r :: rows) ->
  let m' := scan_rows vcmp len m f mn mx true (r :: rows) in let least := load m' (ptr mn) len in let greatest := load m' (ptr mx) len in
  least ∈ r :: rows /\ greatest ∈ r :: rows /\ (forall x, x ∈ r :: rows -> vcmp least x <= 0 /\ vcmp x greatest <= 0) /\
  is_real_null m' mn 0 = false /\ is_real_null m' mx 0 = false.
Proof.
  intros Hs Hr. apply Forall_cons in Hr as [Hr Hrs].
  pose proof (scan_row_spec vcmp len m f mn mx true r [] Hs Hr eq_refl) as H1.
  destruct (scan_rows_spec vcmp len _ f mn mx rows _ Hs Hrs H1) as [A1 A2 A3 A4 A5 A6].
  assert (Hin : forall x, x ∈ reverse rows ++ [r] <-> x ∈ r :: rows) by (intros x; rewrite elem_of_app, elem_of_reverse, list_elem_of_singleton, elem_of_cons; tauto).
  cbv zeta. cbn [scan_rows]. rewrite <- !Hin. split; [exact A1|]. split; [exact A2|]. split; [|auto].
  intros x Hx. rewrite <- Hin in Hx. auto.
Qed.

(** Integers of one to eight bytes stored highest byte first are read back in their width (with the sign of 64 bits for eight), the
    other bytes stay, and comparing the stored bytes compares the numbers; lowest byte first likewise for the widths it has. *)
Theorem stored_integers_read_back (num num' : Z) (to to' : bytes) n : (1 <= n <= 8)%nat -> (n <= length to)%nat -> (n <= length to')%nat ->
  ufits (8 * Z.of_nat n) num -> ufits (8 * Z.of_nat n) num' ->
  let back x := if (n =? 8)%nat then swrap 64 x else x in
  (exists s s', store_bigendian num to (Z.of_nat n) = Some s /\ store_bigendian num' to' (Z.of_nat n) = Some s' /\ length s = length to /\
    read_bigendian s (Z.of_nat n) = Some (back num) /\ memcmp n s 0 s' 0 = (num ?= num') /\ (forall i, (n <= i)%nat -> uc s i = uc to i)) /\
  ((n <= 4 \/ n = 8)%nat -> exists s, store_lowendian num to (Z.of_nat n) = Some s /\ length s = length to /\ read_lowendian s (Z.of_nat n) = Some (back num) /\
    (forall i, (n <= i)%nat -> uc s i = uc to i)).
Proof.
  intros Hn Hto Hto' Hnum Hnum' back.
  assert (Hbe : forall x (b : bytes), (n <= length b)%nat -> ufits (8 * Z.of_nat n) x -> be_val (rd n (be_store n b 0 x) 0) = x)
    by (intros x b Hb Hx; rewrite be_val_be_store by lia; apply uwrap_small, Hx).
  split.
  - exists (be_store n to 0 num), (be_store n to' 0 num'). rewrite !store_bigendian_be, read_bigendian_be, length_be_store, memcmp_be_val, !Hbe by assumption.
    do 3 (split; [reflexivity|]). split; [|split; [reflexivity|intros i Hi; apply uc_be_store_ne; lia]].
    unfold back. destruct (Nat.eqb_spec n 8) as [->|]; [rewrite Hbe by assumption|]; reflexivity.
  - intros Hl. exists (store_word n to 0 num). rewrite store_lowendian_le, read_lowendian_le, length_store_word by lia. do 2 (split; [reflexivity|]).
    split; [|intros i Hi; apply uc_store_word_ne; lia]. unfold back.
    destruct (Nat.eqb_spec n 8) as [->|]; rewrite load_store_word, uwrap_small by (assumption || lia); reflexivity.
Qed.

(** ** Two bits of the flags *)

Lemma two_bits_ext (a b k k' : Z) : 0 <= k -> 0 <= k' -> (forall i, 0 <= i < 2 -> Z.testbit a (i + k) = Z.testbit b (i + k')) -> (a .>> k) .& 3 = (b .>> k') .& 3.
Proof.
  intros Hk Hk' H. apply Z.bits_inj'. intros i Hi. rewrite !Z.land_spec, !Z.shiftr_spec by lia.
  destruct (Z_lt_ge_dec i 2) as [L|G]; [rewrite H by lia; reflexivity|]. rewrite (ufits_testbit 2 3 i), !andb_false_r by (unfold ufits; lia). reflexivity.
Qed.
Lemma two_bits_zero (a k i : Z) : (a .>> k) .& 3 = 0 -> 0 <= k -> 0 <= i < 2 -> Z.testbit a (i + k) = false.
Proof.
  intros E Hk Hi. apply (f_equal (fun z => Z.testbit z i)) in E. rewrite Z.land_spec, Z.shiftr_spec, Z.bits_0 in E by lia.
  assert (Hi2 : i = 0 \/ i = 1) by lia. destruct Hi2 as [-> | ->]; rewrite andb_true_r in E; exact E.
Qed.
Lemma small_bit (x i : Z) : 0 <= x < 4 -> i < 0 \/ 2 <= i -> Z.testbit x i = false.
Proof. intros Hx [Hi|Hi]; [apply Z.testbit_neg_r, Hi|apply (ufits_testbit 2); [unfold ufits; lia|exact Hi]]. Qed.
Lemma lor_two_bits (fl x k i : Z) : 0 <= i -> Z.testbit (fl .| (x .<< k)) i = Z.testbit fl i || Z.testbit x (i - k).
Proof. intros Hi. rewrite Z.lor_spec, Z.shiftl_spec by exact Hi. reflexivity. Qed.
Lemma set_two_bits (fl x k : Z) : 0 <= x < 4 -> 0 <= k -> (fl .>> k) .& 3 = 0 -> ((fl .| (x .<< k)) .>> k) .& 3 = x.
Proof.
  intros Hx Hk E. transitivity ((x .>> 0) .& 3).
  - apply two_bits_ext; [lia..|]. intros i Hi. rewrite lor_two_bits, (two_bits_zero fl k i E Hk Hi), Z.add_0_r, Z.add_simpl_r by lia. reflexivity.
  - assert (Hx4 : x = 0 \/ x = 1 \/ x = 2 \/ x = 3) by lia. destruct Hx4 as [-> |[-> |[-> | ->]]]; reflexivity.
Qed.
Lemma other_two_bits (fl x k k' : Z) : 0 <= x < 4 -> 0 <= k -> 0 <= k' -> k' + 2 <= k \/ k + 2 <= k' -> ((fl .| (x .<< k)) .>> k') .& 3 = (fl .>> k') .& 3.
Proof. intros Hx Hk Hk' Ho. apply two_bits_ext; [assumption..|]. intros i Hi. rewrite lor_two_bits, (small_bit x) by lia. apply orb_false_r. Qed.
Lemma flag_bits_fit (x k : Z) : 0 <= x < 4 -> 0 <= k <= 24 -> uwrap 32 (uwrap 32 x .<< k) = x .<< k.
Proof.
  intros Hx Hk. rewrite (uwrap_small 32 x) by (unfold ufits; lia). apply uwrap_small. unfold ufits. rewrite Z.shiftl_mul_pow2 by lia.
  assert (2 ^ k <= 2 ^ 24) by (apply Z.pow_le_mono_r; lia). pose proof (Z.pow_pos_nonneg 2 k). nia.
Qed.

(** The storage and the format of a column share the flags: each is set once, is read back, and keeps the other and all other flags. *)
Theorem storage_and_format_in_flags f (storage format : Z) : 0 <= storage < 4 -> 0 <= format < 4 -> field_storage_type f = HA_SM_DEFAULT -> column_format f = COLUMN_FORMAT_TYPE_DEFAULT ->
  exists f1 f2, set_storage_type f storage = Some f1 /\ set_column_format f1 format = Some f2 /\ field_storage_type f2 = storage /\ column_format f2 = format /\
    (forall i, 0 <= i -> ~ (22 <= i < 26) -> Z.testbit (flags f2) i = Z.testbit (flags f) i).
Proof.
  intros Hs Hc H1 H2. unfold field_storage_type, column_format, set_storage_type, set_column_format, FIELD_FLAGS_STORAGE_MEDIA, FIELD_FLAGS_COLUMN_FORMAT, HA_SM_DEFAULT, COLUMN_FORMAT_TYPE_DEFAULT in *.
  unfold field_storage_type, column_format, FIELD_FLAGS_STORAGE_MEDIA, FIELD_FLAGS_COLUMN_FORMAT. rewrite !flag_bits_fit by lia.
  eexists _, _. split; [rewrite H1; reflexivity|]. cbn [flags field_with_flags]. split; [rewrite other_two_bits, H2 by lia; reflexivity|]. cbn [flags field_with_flags].
  assert (A : ((flags f .| (storage .<< 22)) .>> 24) .& 3 = 0) by (rewrite other_two_bits by lia; exact H2).
  rewrite (other_two_bits _ format 24 22) by lia. rewrite (set_two_bits _ storage 22 Hs ltac:(lia) H1), (set_two_bits _ format 24 Hc ltac:(lia) A). do 2 (split; [reflexivity|]).
  intros i Hi Ho. rewrite !lor_two_bits by exact Hi. rewrite (small_bit storage), (small_bit format) by lia. rewrite !orb_false_r. reflexivity.
Qed.

(** The length of a value without its trailing spaces: what is cut is spaces, and what is kept does not end in one. *)
Theorem value_length_cuts_spaces m f (pack_length data_length : Z) : 4 <= pack_length < 256 ->
  let len := value_length m f false true pack_length data_length in let s := load m (ptr f) pack_length in
  0 <= len <= pack_length /\ Forall (fun c => byteZ c = 32) (drop (Z.to_nat len) s) /\ match last (take (Z.to_nat len) s) with Some c => byteZ c <> 32 | None => len = 0 end.
Proof.
  intros Hl len s. unfold len, value_length. rewrite Z.geb_leb, (proj2 (Z.leb_le 4 _)), (proj2 (Z.ltb_lt _ 256)) by lia. cbn [negb andb].
  pose proof (length_load_nat m (ptr f) pack_length ltac:(lia)) as Hlen. fold s in Hlen |- *.
  destruct (spaces_cut_spec (reverse s)) as (H1 & H2 & H3). set (k := spaces_cut (reverse s)) in *. rewrite length_reverse in H1, H2, H3. rewrite Nat2Z.id.
  split; [lia|]. rewrite take_reverse in H2. rewrite drop_reverse in H3. replace (length s - (length s - k))%nat with k in H2, H3 by lia.
  split; [apply Forall_reverse in H2; rewrite reverse_involutive in H2; exact H2|].
  destruct (last (take k s)) as [c|] eqn:E.
  - apply last_Some in E as [l E]. rewrite E, reverse_app in H3. exact H3.
  - apply last_None in E. destruct k as [|k]; [reflexivity|]. destruct s; [cbn in H1; lia|discriminate].
Qed.

(** A hexadecimal literal is the number of its last eight bytes, highest first. *)
Theorem hex_hybrid_last_bytes (str : bytes) : longlong_from_hex_hybrid str = swrap 64 (be_val (byteZ <$> drop (length str - 8) str)).
Proof.
  unfold longlong_from_hex_hybrid. rewrite hex_value_spec by (unfold ufits; lia). rewrite Z.mul_0_l, Z.add_0_l, swrap_uwrap.
  do 3 f_equal. f_equal. lia.
Qed.

(** The prefix of a length has the least number of bytes, and stored in them lowest byte first the length is read back. *)
Theorem number_storage_is_least (n : Z) (to : bytes) : 0 <= n < 2 ^ 32 -> (4 <= length to)%nat ->
  let r := number_storage_requirement n in 1 <= r <= 4 /\ (r = 1 \/ 256 ^ (r - 1) <= n) /\ exists s, store_lowendian n to r = Some s /\ read_lowendian s r = Some n.
Proof.
  intros Hn Hto r. destruct (number_storage_spec n Hn) as (H1 & H2 & H3). fold r in H1, H2, H3. do 2 (split; [assumption|]).
  exists (store_word (Z.to_nat r) to 0 n). rewrite <- (Z2Nat.id r) by lia. rewrite store_lowendian_le, read_lowendian_le, Nat2Z.id by lia.
  rewrite (proj2 (Nat.eqb_neq _ 8)) by lia. split; [reflexivity|]. rewrite load_store_word, uwrap_small; [reflexivity| |lia].
  unfold ufits. rewrite Z2Nat.id by lia. replace 256 with (2 ^ 8) in H2 by reflexivity. rewrite <- Z.pow_mul_r in H2 by lia. lia.
Qed.

(** Packing copies the bytes, and unpacking what was packed into another area restores them, or touches nothing when the packed data ends too early. *)
Theorem pack_unpack_roundtrip m (from packed to from_end size : Z) : 0 <= size ->
  let '(packed_end, m1) := pack_int m packed from size in
  let '(next, m2) := unpack_int m1 to packed from_end size in
  packed_end = packed + size /\ (if packed + size <=? from_end then next = packed_end /\ load m2 to size = load m from size else next = 0 /\ m2 = m1).
Proof.
  intros Hs. unfold pack_int, unpack_int. rewrite Z.gtb_ltb, Z.ltb_antisym. destruct (Z.leb_spec (packed + size) from_end); cbn [negb]; (split; [reflexivity|]); [|auto].
  split; [reflexivity|]. rewrite load_store by (rewrite length_load by exact Hs; reflexivity). apply load_store. rewrite length_load by exact Hs. reflexivity.
Qed.

(** The length of a VARCHAR is read back, and only its one or two bytes are written. *)
Theorem varchar_length_roundtrip m f (length_bytes number : Z) : length_bytes = 1 \/ length_bytes = 2 -> 0 <= number < 256 ^ length_bytes ->
  get_length (store_length m f length_bytes number) (ptr f) length_bytes = number /\
  (forall a, ~ (ptr f <= a < get_data (ptr f) length_bytes) -> store_length m f length_bytes number a = m a).
Proof.
  intros [-> | ->] Hn; unfold get_length, store_length, get_data; cbn [Z.eqb Pos.eqb].
  - rewrite byte_at_set, uwrap_uwrap, uwrap_small by (unfold ufits; lia). split; [reflexivity|]. intros a Ha. apply set_byte_outside. lia.
  - rewrite load2_store2, uwrap_small by (unfold ufits; lia). split; [reflexivity|]. intros a Ha. apply store_bytes_outside.
    unfold store2. rewrite x_int2store, length_store_word. cbn. lia.
Qed.

(** The length and the address of a BLOB are read back, in the record at any offset, and nothing else is written.  Copying a blob keeps its
    length, makes the record point to the copy, which is the cached one unless it is empty, and a failed copy leaves an empty blob. *)
Theorem blob_pointers_and_copy blob_store_length blob_get_length `{BlobLaws blob_store_length blob_get_length} m b (d len data : Z) string_copy :
  1 <= packlength b <= 4 -> 0 <= len < 256 ^ packlength b -> ufits 64 data ->
  (forall m a n m' p, string_copy m a n = Some (m', p) -> ufits 64 p /\ forall x, bptr b <= x < bptr b + packlength b + 8 -> m' x = m x) ->
  let m1 := set_ptr_offset blob_store_length m b d len data in
  get_ptr_at m1 b (bptr b + d) = data /\ blob_length blob_get_length m1 b d = len /\ (forall x, ~ (bptr b + d <= x < bptr b + d + packlength b + 8) -> m1 x = m x) /\
  match blob_copy blob_get_length string_copy m b with
  | (false, m2, b2) => exists m' p, string_copy m (get_ptr m b) (blob_length blob_get_length m b 0) = Some (m', p) /\ get_ptr m2 b2 = p /\
      blob_length blob_get_length m2 b2 0 = blob_length blob_get_length m b 0 /\ (blob_length blob_get_length m b 0 <> 0 -> cached m2 b2 = Some false)
  | (true, m2, b2) => b2 = b /\ get_ptr m2 b2 = 0 /\ blob_length blob_get_length m2 b2 0 = 0
  end.
Proof.
  intros Hpl Hlen Hdata Hcopy m1. unfold blob_length, get_ptr, get_ptr_at in *.
  split; [unfold m1, set_ptr_offset; rewrite load_ptr_store_ptr; apply uwrap_small, Hdata|]. split; [|split].
  - unfold m1, set_ptr_offset. rewrite (blob_length_ext (blob_store_length m (bptr b + d) (packlength b) len)) by (assumption || apply load_ext; intros; apply store_ptr_outside; lia).
    apply blob_length_read; assumption.
  - intros x Hx. unfold m1, set_ptr_offset. rewrite store_ptr_outside by lia. apply blob_length_outside; [exact Hpl|lia].
  - unfold blob_copy, get_ptr, get_ptr_at, blob_length. rewrite !Z.add_0_r. destruct (string_copy _ _ _) as [[m' p]|] eqn:E.
    + destruct (Hcopy _ _ _ _ _ E) as [Hp Hframe]. exists m', p. split; [reflexivity|].
      change (bptr (with_caches _ _ _)) with (bptr b). change (packlength (with_caches _ _ _)) with (packlength b).
      rewrite load_ptr_store_ptr, uwrap_small by exact Hp. split; [reflexivity|].
      assert (El : blob_get_length (store_pointer m' (bptr b + packlength b) p) (bptr b) (packlength b) = blob_get_length m (bptr b) (packlength b)).
      { apply blob_length_ext; [exact Hpl|]. apply load_ext. intros x Hx. rewrite store_ptr_outside by lia. apply Hframe. lia. }
      split; [rewrite Z.add_0_r; exact El|]. intros Hne. unfold cached, get_ptr, get_ptr_at, cache_is_empty. cbn [value with_caches c_length c_ptr].
      change (bptr (with_caches _ _ _)) with (bptr b). change (packlength (with_caches _ _ _)) with (packlength b).
      rewrite (proj2 (Z.eqb_neq _ 0) Hne), load_ptr_store_ptr, uwrap_small, Z.eqb_refl by exact Hp. reflexivity.
    + split; [reflexivity|]. unfold blob_reset. split.
      * unfold load_pointer. rewrite load_bzero by lia. reflexivity.
      * rewrite Z.add_0_r. apply blob_length_zero; [exact Hpl|]. apply load_bzero; lia.
Qed.

(** ** Witnesses *)

Definition zeros : memory := fun _ => x00.
Definition col_a : Field := mkField 104 100 1 0.
Definition col_b : Field := mkField 108 100 2 0.
Definition two_cols : list Field := [col_a; col_b].
Lemma two_cols_ok : Forall null_ok two_cols /\ NoDup (null_place <$> two_cols).
Proof.
  split; [|apply (bool_decide_unpack _); vm_compute; exact I].
  apply Forall_cons; split; [|apply Forall_singleton]; (split; [discriminate|]); [exists 0|exists 1]; split; reflexivity || (cbn; lia).
Defined.
Lemma null_flags_refine_set_witness : nulls_are (foldl (run_null_op two_cols 0) zeros [SetNull 0; SetNull 1; SetNotnull 0]) two_cols 0 (foldl spec_null_op ∅ [SetNull 0; SetNull 1; SetNotnull 0]).
Proof.
  refine (proj1 (null_flags_refine_set two_cols 0 zeros ∅ [SetNull 0; SetNull 1; SetNotnull 0] (proj1 two_cols_ok) (proj2 two_cols_ok) _)).
  intros [|[|i]] f Hf; [injection Hf as <-; reflexivity|injection Hf as <-; reflexivity|discriminate].
Defined.
Definition table_ab : TABLE := mkTable 100 false false 904 900 20.
Lemma fields_move_between_records_witness : ptr_in_record col_a table_ab 120 = Some 124 /\ record_ptr (move_field_offset col_a 20) table_ab = 120.
Proof. destruct (fields_move_between_records zeros col_a table_ab 120) as (H1 & H2 & _); try (cbn; lia). split; [exact H1|exact H2]. Defined.
Definition first_byte_cmp (a b : bytes) : Z := uc a 0 - uc b 0.
#[local] Instance first_byte_Comparison : Comparison first_byte_cmp.
Proof. split; unfold first_byte_cmp; intros; lia. Defined.
Lemma column_extremes_witness : let m := scan_rows first_byte_cmp 1 zeros (mkField 10 0 0 0) (mkField 21 20 1 0) (mkField 31 30 1 0) true [[x05]; [x02]; [x09]] in
  load m 21 1 ∈ [[x05]; [x02]; [x09]] /\ load m 31 1 ∈ [[x05]; [x02]; [x09]].
Proof.
  destruct (column_extremes first_byte_cmp 1 zeros (mkField 10 0 0 0) (mkField 21 20 1 0) (mkField 31 30 1 0) [x05] [[x02]; [x09]]) as (H1 & H2 & _).
  - split; unfold apart; cbn; [lia..| |split; (split; [discriminate|exists 0; cbn; lia])].
    intros g v [-> | ->] [-> |[-> | ->]]; cbn; lia.
  - repeat constructor.
  - split; [exact H1|exact H2].
Defined.
Lemma stored_integers_read_back_witness : exists s, store_bigendian 1000 (replicate 4 x00) 3 = Some s /\ read_bigendian s 3 = Some 1000.
Proof.
  destruct (stored_integers_read_back 1000 7 (replicate 4 x00) (replicate 4 x00) 3) as [(s & s' & H1 & _ & _ & H4 & _) _]; [lia|cbn; lia..|unfold ufits; lia|unfold ufits; lia|].
  exists s. split; [exact H1|exact H4].
Defined.
Lemma storage_and_format_in_flags_witness : exists f1 f2, set_storage_type col_a 1 = Some f1 /\ set_column_format f1 2 = Some f2 /\ field_storage_type f2 = 1.
Proof.
  destruct (storage_and_format_in_flags col_a 1 2) as (f1 & f2 & H1 & H2 & H3 & _); [lia|lia|reflexivity|reflexivity|]. exists f1, f2. auto.
Defined.
Lemma value_length_cuts_spaces_witness : 0 <= value_length (store_bytes zeros 0 [x41; x20; x42; x20; x20]) (mkField 0 0 0 0) false true 5 5 <= 5.
Proof. destruct (value_length_cuts_spaces (store_bytes zeros 0 [x41; x20; x42; x20; x20]) (mkField 0 0 0 0) 5 5) as (H & _); [lia|exact H]. Defined.
Lemma number_storage_is_least_witness : exists s, store_lowendian 70000 (replicate 4 x00) 3 = Some s /\ read_lowendian s 3 = Some 70000.
Proof. destruct (number_storage_is_least 70000 (replicate 4 x00)) as (_ & _ & H); [lia|cbn; lia|exact H]. Defined.
Lemma pack_unpack_roundtrip_witness : let '(packed_end, m1) := pack_int zeros 10 20 4 in let '(next, m2) := unpack_int m1 30 10 14 4 in packed_end = 14 /\ next = 14 /\ load m2 30 4 = load zeros 20 4.
Proof. pose proof (pack_unpack_roundtrip zeros 20 10 30 14 4 ltac:(lia)) as H. cbn in H |- *. tauto. Defined.
Lemma varchar_length_roundtrip_witness : get_length (store_length zeros col_a 2 300) 104 2 = 300.
Proof. refine (proj1 (varchar_length_roundtrip zeros col_a 2 300 _ _)); [right; reflexivity|lia]. Defined.
Definition blob_a : Field_blob := mkBlob col_a 2 no_cache no_cache.
Definition copy_to_500 m (a n : Z) : option (memory * Z) := Some (store_bytes m 500 (load m a n), 500).
Lemma blob_pointers_and_copy_witness : let m1 := set_ptr_offset low_store_length zeros blob_a 0 5 300 in get_ptr_at m1 blob_a 104 = 300 /\ blob_length low_get_length m1 blob_a 0 = 5.
Proof.
  destruct (blob_pointers_and_copy low_store_length low_get_length zeros blob_a 0 5 300 copy_to_500) as (H1 & H2 & _); [cbn; lia|cbn; lia|unfold ufits; lia| |split; [exact H1|exact H2]].
  intros m a n m' p H. injection H as <- <-. split; [unfold ufits; lia|]. intros x Hx. apply store_bytes_outside. cbn in Hx. lia.
Defined.
