(* ===== verification/SqlMdl.v ===== *)
(** Metadata locks: the keys [MDL_key], the requests, the types of tickets and, of [MDL_context], the lists
    of tickets and the edge of the wait-for graph, of [private/mdl.h].

    The buffer of a key is a list of [MAX_MDLKEY_LENGTH] bytes, and writing outside it is [None].  A C string is
    the list of its bytes before the terminator.  The tickets of a context are the intrusive lists of
    [SqlPList].  The lock around the edge of the wait-for graph admits several readers or one writer, as the
    documentation of [mysql_prlock_t] says; its users are the steps of a relation. *)

From S2P Require Import Prelude ByteOrder SqlPList.

Abbreviation bytes := (list byte).
Implicit Types (buf db name : bytes).

(** * [MDL_key] *)

Definition NAME_LEN : nat := 192.
Definition MAX_MDLKEY_LENGTH : nat := 1 + NAME_LEN + 1 + NAME_LEN + 1.
(** The values of [enum_mdl_namespace]. *)
Definition BACKUP : Z := 0.
Definition SCHEMA : Z := 1.
Definition TABLE : Z := 2.
Definition NAMESPACE_END : Z := 9.

Record MDL_key := mkKey { m_length : Z; m_db_name_length : Z; m_hash_value : Z; m_ptr : bytes }.
Implicit Types (k rhs : MDL_key).

Definition put_bytes buf (i : nat) (bs : bytes) : option bytes :=
  asserting (i + length bs <=? length buf)%nat (take i buf ++ bs ++ drop (i + length bs) buf).
(** [strmake] to the position [i]: at most [n] bytes and a terminator; the position of the terminator. *)
Definition strmake buf (i : nat) (src : bytes) (n : nat) : option (bytes * nat) :=
  buf ← put_bytes buf i (take n src ++ [x00]); Some (buf, (i + length (take n src))%nat).

Section Key.
(** [my_hash_sort] with [my_charset_bin]. *)
Context (my_hash_sort : bytes -> Z).
(** [mdl_key_init] after its assertions on the lengths, as a release build runs
    it.  [DBUG_SLOW_ASSERT(ok_for_lower_case_names(db))], which only builds with
    [EXTRA_DEBUG] have and which changes no state, is left out of the model. *)
Definition mdl_key_fill (k : MDL_key) (mdl_namespace_arg : Z) db name : option MDL_key :=
  buf ← put_bytes (m_ptr k) 0 [Zbyte mdl_namespace_arg];
  r ← strmake buf 1 db NAME_LEN;
  let m_db_name_length := uwrap 16 (Z.of_nat (r.2 - 1)) in
  r ← strmake r.1 (Z.to_nat (m_db_name_length + 2)) name NAME_LEN;
  let m_length := uwrap 16 (Z.of_nat (r.2 + 1)) in
  Some (mkKey m_length m_db_name_length (my_hash_sort (take (Z.to_nat (m_length - 1)) (drop 1 r.1))) r.1).
Definition mdl_key_init (k : MDL_key) (mdl_namespace_arg : Z) db name : option MDL_key :=
  _ ← asserting (length db <=? NAME_LEN)%nat tt; _ ← asserting (length name <=? NAME_LEN)%nat tt; mdl_key_fill k mdl_namespace_arg db name.
End Key.
Definition mdl_key_copy (k rhs : MDL_key) : option MDL_key :=
  buf ← put_bytes (m_ptr k) 0 (take (Z.to_nat (m_length rhs)) (m_ptr rhs)); Some (mkKey (m_length rhs) (m_db_name_length rhs) (m_hash_value rhs) buf).

(** The string at a position. *)
Fixpoint c_string (s : bytes) : bytes := match s with [] => [] | b :: s => if byteZ b =? 0 then [] else b :: c_string s end.
Definition mdl_namespace k : Z := byteZ (m_ptr k !!! 0%nat).
Definition db_name k : bytes := c_string (drop 1 (m_ptr k)).
Definition db_name_length k : Z := m_db_name_length k.
Definition name_of k : bytes := c_string (drop (Z.to_nat (m_db_name_length k + 2)) (m_ptr k)).
Definition name_length k : Z := uwrap 32 (m_length k - m_db_name_length k - 3).
Definition key_is_equal k rhs : bool :=
  (m_length k =? m_length rhs) && match memcmp (Z.to_nat (m_length k)) (m_ptr k) 0 (m_ptr rhs) 0 with Eq => true | _ => false end.
Definition key_cmp k rhs : comparison := memcmp (Z.to_nat (Z.min (m_length k) (m_length rhs))) (m_ptr k) 0 (m_ptr rhs) 0.
Definition hash_value k : Z := uwrap 32 (m_hash_value k + mdl_namespace k).
Definition tc_hash_value k : Z := m_hash_value k.

(** * Requests and types *)

(** [enum_mdl_type], in the order of the source; [MDL_NOT_INITIALIZED] is -1. *)
Definition MDL_NOT_INITIALIZED : Z := -1.
Definition MDL_SHARED_WRITE : Z := 4.
Definition MDL_SHARED_UPGRADABLE : Z := 5.
Definition MDL_SHARED_READ_ONLY : Z := 6.
Definition MDL_SHARED_NO_WRITE : Z := 7.
Definition MDL_SHARED_NO_READ_WRITE : Z := 8.
Definition MDL_EXCLUSIVE : Z := 9.

(** Pointers are addresses, 0 for [NULL]. *)
Record MDL_request := mkRequest { rq_type : Z; rq_duration : Z; next_in_list : Z; prev_in_list : Z; rq_ticket : Z; rq_key : MDL_key }.
Implicit Types (r from : MDL_request).
Definition request_set_type r (type_arg : Z) : option MDL_request :=
  _ ← asserting (rq_ticket r =? 0) tt; Some (mkRequest type_arg (rq_duration r) (next_in_list r) (prev_in_list r) (rq_ticket r) (rq_key r)).
(** The request that is moved to, and the one moved from. *)
Definition move_from r from : option (MDL_request * MDL_request) :=
  key ← mdl_key_copy (rq_key r) (rq_key from);
  Some (mkRequest (rq_type from) (rq_duration from) (next_in_list from) (prev_in_list from) (rq_ticket from) key,
        mkRequest (rq_type from) (rq_duration from) (next_in_list from) (prev_in_list from) 0 (rq_key from)).
Definition is_write_lock_request r : bool := (rq_type r >=? MDL_SHARED_WRITE) && negb (rq_type r =? MDL_SHARED_READ_ONLY).
Definition request_assign r : MDL_request := mkRequest MDL_NOT_INITIALIZED (rq_duration r) (next_in_list r) (prev_in_list r) 0 (rq_key r).
Definition is_upgradable_or_exclusive (m_type : Z) : bool :=
  (m_type =? MDL_SHARED_UPGRADABLE) || (m_type =? MDL_SHARED_NO_WRITE) || (m_type =? MDL_SHARED_NO_READ_WRITE) || (m_type =? MDL_EXCLUSIVE).

(** * [MDL_context] *)

(** [m_tickets]: the three lists in the store of [SqlPList]. *)
Definition MDL_STATEMENT : nat := 0.
Definition MDL_TRANSACTION : nat := 1.
Definition MDL_EXPLICIT : nat := 2.
Record MDL_savepoint := mkSavepoint { m_stmt_ticket : option nat; m_trans_ticket : option nat }.
Definition has_locks (st : pstore) : option bool :=
  a ← plist_is_empty st MDL_STATEMENT; b ← plist_is_empty st MDL_TRANSACTION; c ← plist_is_empty st MDL_EXPLICIT; Some (negb (a && b && c)).
Definition has_explicit_locks (st : pstore) : option bool := c ← plist_is_empty st MDL_EXPLICIT; Some (negb c).
Definition has_transactional_locks (st : pstore) : option bool := c ← plist_is_empty st MDL_TRANSACTION; Some (negb c).
Definition mdl_savepoint (st : pstore) : option MDL_savepoint := s ← plist_front st MDL_STATEMENT; t ← plist_front st MDL_TRANSACTION; Some (mkSavepoint s t).

(** ** The edge of the wait-for graph *)

(** [m_LOCK_waiting_for], [m_waiting_for] and [m_deadlock_overweight]. *)
Inductive waiter_pc := Running | WillWait (waiting_for_arg : Z) | WillWaitLocked (waiting_for_arg : Z) | WillWaitSet | DoneWaiting | DoneWaitingLocked | DoneWaitingSet.
Record wait_edge := mkEdge { readers : gset nat; writer : bool; m_waiting_for : Z; m_deadlock_overweight : Z; pc : waiter_pc }.
Implicit Types (e : wait_edge).
Definition with_pc e (p : waiter_pc) : wait_edge := mkEdge (readers e) (writer e) (m_waiting_for e) (m_deadlock_overweight e) p.
Definition with_writer e (w : bool) : wait_edge := mkEdge (readers e) w (m_waiting_for e) (m_deadlock_overweight e) (pc e).
Definition with_waiting_for e (x : Z) : wait_edge := mkEdge (readers e) (writer e) x (m_deadlock_overweight e) (pc e).
Definition inc_deadlock_overweight e : wait_edge := mkEdge (readers e) (writer e) (m_waiting_for e) (uwrap 32 (m_deadlock_overweight e + 1)) (pc e).
Definition with_readers e (rs : gset nat) : wait_edge := mkEdge rs (writer e) (m_waiting_for e) (m_deadlock_overweight e) (pc e).
(** [get_deadlock_weight], with the weights of what is waited for. *)
Definition get_deadlock_weight (weight : Z -> Z) e : option Z := _ ← asserting (negb (m_waiting_for e =? 0)) tt; Some (uwrap 32 (weight (m_waiting_for e) + m_deadlock_overweight e)).

(** The owner runs [will_wait_for] and [done_waiting_for]; other threads lock the edge of a victim, weigh it and unlock it. *)
Inductive edge_step : wait_edge -> wait_edge -> Prop :=
| call_will_wait e x : pc e = Running -> x <> 0 -> edge_step e (with_pc e (WillWait x))
| will_wait_wrlock e x : pc e = WillWait x -> writer e = false -> readers e = ∅ -> edge_step e (with_pc (with_writer e true) (WillWaitLocked x))
| will_wait_set e x : pc e = WillWaitLocked x -> edge_step e (with_pc (with_waiting_for e x) WillWaitSet)
| will_wait_unlock e : pc e = WillWaitSet -> edge_step e (with_pc (with_writer e false) Running)
| call_done_waiting e : pc e = Running -> edge_step e (with_pc e DoneWaiting)
| done_waiting_wrlock e : pc e = DoneWaiting -> writer e = false -> readers e = ∅ -> edge_step e (with_pc (with_writer e true) DoneWaitingLocked)
| done_waiting_set e : pc e = DoneWaitingLocked -> edge_step e (with_pc (with_waiting_for e 0) DoneWaitingSet)
| done_waiting_unlock e : pc e = DoneWaitingSet -> edge_step e (with_pc (with_writer e false) Running)
| victim_rdlock e i : writer e = false -> i ∉ readers e -> edge_step e (with_readers e ({[i]} ∪ readers e))
| overweight e : edge_step e (inc_deadlock_overweight e)
| victim_unlock e i : i ∈ readers e -> edge_step e (with_readers e (readers e ∖ {[i]})).

(** * Facts about strings in the buffer *)

Definition nulfree (s : bytes) : Prop := Forall (fun b => byteZ b <> 0) s.
Lemma c_string_app s rest : nulfree s -> c_string (s ++ x00 :: rest) = s.
Proof.
  intros H. induction H as [|b s Hb Hs IH]; [reflexivity|]. cbn [app c_string]. rewrite (proj2 (Z.eqb_neq _ 0) Hb), IH. reflexivity.
Qed.
Lemma put_bytes_ok buf i bs : (i + length bs <= length buf)%nat -> put_bytes buf i bs = Some (take i buf ++ bs ++ drop (i + length bs) buf).
Proof. intros H. unfold put_bytes. rewrite asserting_true by (apply Nat.leb_le, H). reflexivity. Qed.
Lemma length_put_bytes buf i bs : (i + length bs <= length buf)%nat -> length (take i buf ++ bs ++ drop (i + length bs) buf) = length buf.
Proof. intros H. rewrite !length_app, length_take, length_drop. lia. Qed.
(** Writing right after what is already written. *)
Lemma put_bytes_after (pre tl : bytes) bs : (length bs <= length tl)%nat -> put_bytes (pre ++ tl) (length pre) bs = Some (pre ++ bs ++ drop (length bs) tl).
Proof.
  intros H. rewrite put_bytes_ok by (rewrite length_app; lia). rewrite take_app_length. rewrite <- drop_drop, drop_app_length. reflexivity.
Qed.

(** ** The bytes of a key *)

(** The bytes of the key of an object: the namespace and the two names with their terminators. *)
Definition key_bytes (ns : Z) db name : bytes := Zbyte ns :: db ++ x00 :: name ++ [x00].
Lemma length_key_bytes ns db name : length (key_bytes ns db name) = (length db + length name + 3)%nat.
Proof. unfold key_bytes. cbn [length]. rewrite length_app. cbn [length]. rewrite length_app. cbn. lia. Qed.
(** [k] is the key of this object. *)
Record key_of my_hash_sort k (ns : Z) db name : Prop := {
  ko_length : m_length k = Z.of_nat (length (key_bytes ns db name));
  ko_db : m_db_name_length k = Z.of_nat (length db);
  ko_hash : m_hash_value k = my_hash_sort (db ++ x00 :: name ++ [x00]);
  ko_bytes : exists rest, m_ptr k = key_bytes ns db name ++ rest /\ length (m_ptr k) = MAX_MDLKEY_LENGTH
}.
(** The names that the caller may pass: C strings. *)
Definition names_ok db name : Prop := nulfree db /\ nulfree name.

Lemma mdl_key_fill_spec my_hash_sort k ns db name : length (m_ptr k) = MAX_MDLKEY_LENGTH ->
  exists k', mdl_key_fill my_hash_sort k ns db name = Some k' /\ key_of my_hash_sort k' ns (take NAME_LEN db) (take NAME_LEN name).
Proof.
  intros Hlen. set (db' := take NAME_LEN db). set (name' := take NAME_LEN name).
  assert (Hdb : (length db' <= NAME_LEN)%nat) by (unfold db'; rewrite length_take; lia).
  assert (Hname : (length name' <= NAME_LEN)%nat) by (unfold name'; rewrite length_take; lia).
  destruct (m_ptr k) as [|b0 tl] eqn:Eb; [discriminate|]. unfold MAX_MDLKEY_LENGTH, NAME_LEN in *. cbn [length] in Hlen.
  assert (E1 : put_bytes (b0 :: tl) 0 [Zbyte ns] = Some (Zbyte ns :: tl)) by (apply (put_bytes_after [] (b0 :: tl)); cbn; lia).
  set (tl2 := drop (length (db' ++ [x00])) tl).
  assert (E2 : put_bytes (Zbyte ns :: tl) 1 (db' ++ [x00]) = Some (([Zbyte ns] ++ db' ++ [x00]) ++ tl2)).
  { rewrite <- app_assoc. apply (put_bytes_after [Zbyte ns] tl). rewrite length_app. cbn. lia. }
  assert (Htl2 : (193 <= length tl2)%nat) by (unfold tl2; rewrite length_drop, length_app; cbn [length]; lia).
  assert (E3 : put_bytes (([Zbyte ns] ++ db' ++ [x00]) ++ tl2) (Z.to_nat (Z.of_nat (length db') + 2)) (name' ++ [x00])
               = Some (([Zbyte ns] ++ db' ++ [x00]) ++ (name' ++ [x00]) ++ drop (length (name' ++ [x00])) tl2)).
  { replace (Z.to_nat (Z.of_nat (length db') + 2)) with (length ([Zbyte ns] ++ db' ++ [x00])) by (cbn [length app]; rewrite length_app; cbn [length]; lia).
    apply put_bytes_after. rewrite length_app. cbn [length]. lia. }
  unfold mdl_key_fill, strmake. rewrite Eb, E1. cbn [mbind option_bind]. unfold NAME_LEN. fold db' name'. rewrite E2. cbn [mbind option_bind fst snd].
  replace (1 + length db' - 1)%nat with (length db') by lia. rewrite (uwrap_small 16 (Z.of_nat (length db'))) by (unfold ufits; lia). rewrite E3.
  cbn [mbind option_bind fst snd]. set (rest := drop (length (name' ++ [x00])) tl2).
  assert (Ebuf : ([Zbyte ns] ++ db' ++ [x00]) ++ (name' ++ [x00]) ++ rest = key_bytes ns db' name' ++ rest).
  { unfold key_bytes. cbn. rewrite <- !app_assoc. cbn. rewrite <- !app_assoc. reflexivity. }
  assert (El : (Z.to_nat (Z.of_nat (length db') + 2) + length name' + 1)%nat = length (key_bytes ns db' name')) by (rewrite length_key_bytes; lia).
  rewrite El, Ebuf, (uwrap_small 16) by (unfold ufits; rewrite length_key_bytes; lia).
  eexists. split; [reflexivity|]. split; cbn [m_length m_db_name_length m_hash_value m_ptr]; [reflexivity|reflexivity| |].
  - f_equal. replace (Z.to_nat (Z.of_nat (length (key_bytes ns db' name')) - 1)) with (length (db' ++ x00 :: name' ++ [x00])) by (unfold key_bytes; cbn [length]; lia).
    unfold key_bytes. cbn [drop app]. apply take_app_length.
  - exists rest. split; [reflexivity|]. rewrite <- Ebuf. unfold rest, tl2, MAX_MDLKEY_LENGTH, NAME_LEN. repeat (rewrite length_app || rewrite length_drop). cbn [length]. lia.
Qed.

(** ** Comparing *)

(** The order of two strings, byte by byte, a string being before its extensions. *)
Fixpoint str_compare (a b : bytes) : comparison :=
  match a, b with
  | [], [] => Eq | [], _ :: _ => Lt | _ :: _, [] => Gt
  | x :: a, y :: b => match byteZ x ?= byteZ y with Eq => str_compare a b | c => c end
  end.
(** The order of the objects: the namespace, the database, the name. *)
Definition object_compare (ns ns' : Z) db db' name name' : comparison :=
  match ns ?= ns' with Eq => match str_compare db db' with Eq => str_compare name name' | c => c end | c => c end.
Lemma str_compare_eq (a b : bytes) : str_compare a b = Eq <-> a = b.
Proof.
  revert b. induction a as [|x a IH]; intros [|y b]; cbn [str_compare]; [tauto|split; discriminate..|].
  destruct (Z.compare_spec (byteZ x) (byteZ y)) as [E|E|E].
  - apply byteZ_inj in E as ->. rewrite IH. split; congruence.
  - split; [discriminate|]. intros H. injection H as -> _. lia.
  - split; [discriminate|]. intros H. injection H as -> _. lia.
Qed.
(** [memcmp] of the shorter length. *)
Definition cmp_min (a b : bytes) : comparison := memcmp (Nat.min (length a) (length b)) a 0 b 0.
Lemma cmp_min_cons x y (a b : bytes) : cmp_min (x :: a) (y :: b) = match byteZ x ?= byteZ y with Eq => cmp_min a b | c => c end.
Proof. unfold cmp_min. cbn [length Nat.min memcmp]. rewrite memcmp_cons. reflexivity. Qed.
Lemma cmp_min_strings (a b : bytes) (ra rb : bytes) : nulfree a -> nulfree b ->
  cmp_min (a ++ x00 :: ra) (b ++ x00 :: rb) = match str_compare a b with Eq => cmp_min ra rb | c => c end.
Proof.
  intros Ha. revert b. induction Ha as [|x a Hx Ha IH]; intros b Hb; destruct Hb as [|y b Hy Hb]; cbn [app str_compare]; rewrite cmp_min_cons.
  - reflexivity.
  - pose proof (byteZ_range y). unfold ufits in *. change (byteZ x00) with 0. rewrite (proj2 (Z.compare_lt_iff 0 (byteZ y))) by lia. reflexivity.
  - pose proof (byteZ_range x). unfold ufits in *. change (byteZ x00) with 0. rewrite (proj2 (Z.compare_gt_iff (byteZ x) 0)) by lia. reflexivity.
  - rewrite (IH b Hb). destruct (byteZ x ?= byteZ y); reflexivity.
Qed.
Lemma memcmp_app n (a b ra rb : bytes) : (n <= length a)%nat -> (n <= length b)%nat -> memcmp n (a ++ ra) 0 (b ++ rb) 0 = memcmp n a 0 b 0.
Proof.
  revert a b. induction n as [|n IH]; intros [|x a] [|y b] Ha Hb; cbn [length] in *; try lia; [reflexivity..|].
  cbn [app memcmp]. change (uc (x :: a ++ ra) 0) with (uc (x :: a) 0). change (uc (y :: b ++ rb) 0) with (uc (y :: b) 0). rewrite !memcmp_cons, IH by lia. reflexivity.
Qed.
Lemma cmp_min_key ns ns' db db' name name' : 0 <= ns < 256 -> 0 <= ns' < 256 -> names_ok db name -> names_ok db' name' ->
  cmp_min (key_bytes ns db name) (key_bytes ns' db' name') = object_compare ns ns' db db' name name'.
Proof.
  intros Hns Hns' [H1 H2] [H1' H2']. unfold key_bytes, object_compare. rewrite cmp_min_cons, !byteZ_Zbyte, !uwrap_small by (unfold ufits; lia).
  destruct (ns ?= ns'); [|reflexivity..]. rewrite cmp_min_strings by assumption. destruct (str_compare db db'); [|reflexivity..].
  rewrite cmp_min_strings by assumption. destruct (str_compare name name'); reflexivity.
Qed.
Lemma key_of_cmp hash k k' ns ns' db db' name name' : key_of hash k ns db name -> key_of hash k' ns' db' name' ->
  key_cmp k k' = cmp_min (key_bytes ns db name) (key_bytes ns' db' name').
Proof.
  intros [L1 _ _ (r1 & B1 & _)] [L2 _ _ (r2 & B2 & _)]. unfold key_cmp, cmp_min. rewrite L1, L2, B1, B2, <- Nat2Z.inj_min, Nat2Z.id.
  apply memcmp_app; lia.
Qed.
Lemma key_bytes_inj ns ns' db db' name name' : 0 <= ns < 256 -> 0 <= ns' < 256 -> names_ok db name -> names_ok db' name' ->
  key_bytes ns db name = key_bytes ns' db' name' -> ns = ns' /\ db = db' /\ name = name'.
Proof.
  intros Hns Hns' H H' E. pose proof (cmp_min_key ns ns' db db' name name' Hns Hns' H H') as C. rewrite E in C.
  assert (Eq = object_compare ns ns' db db' name name') as Ho by (rewrite <- C; unfold cmp_min; symmetry; apply memcmp_refl).
  unfold object_compare in Ho. destruct (Z.compare_spec ns ns') as [->|?|?]; [|discriminate..].
  destruct (str_compare db db') eqn:Ed; [|discriminate..]. apply str_compare_eq in Ed as ->. symmetry in Ho. apply str_compare_eq in Ho as ->. auto.
Qed.
Lemma key_of_equal hash k k' ns ns' db db' name name' : 0 <= ns < 256 -> 0 <= ns' < 256 -> names_ok db name -> names_ok db' name' ->
  key_of hash k ns db name -> key_of hash k' ns' db' name' -> key_is_equal k k' = true <-> ns = ns' /\ db = db' /\ name = name'.
Proof.
  intros Hns Hns' H H' [L1 _ _ (r1 & B1 & _)] [L2 _ _ (r2 & B2 & _)]. unfold key_is_equal. rewrite L1, L2, B1, B2, Nat2Z.id. split.
  - intros E. apply andb_true_iff in E as [E1%Z.eqb_eq E2]. apply Nat2Z.inj in E1. rewrite memcmp_app in E2 by lia.
    destruct (memcmp _ _ _ _ _) eqn:Em; [|discriminate..]. apply memcmp_take in Em; [|lia..]. rewrite E1 in Em at 2. rewrite !firstn_all in Em.
    apply key_bytes_inj; assumption.
  - intros (-> & -> & ->). rewrite Z.eqb_refl, memcmp_app, memcmp_refl by lia. reflexivity.
Qed.

(** ** Reading and copying *)

Lemma take_short (s : bytes) : (length s <= NAME_LEN)%nat -> take NAME_LEN s = s.
Proof. apply firstn_all2. Qed.
Lemma mdl_key_init_spec hash k ns db name : length (m_ptr k) = MAX_MDLKEY_LENGTH -> (length db <= NAME_LEN)%nat -> (length name <= NAME_LEN)%nat ->
  exists k', mdl_key_init hash k ns db name = Some k' /\ key_of hash k' ns db name.
Proof.
  intros Hb Hd Hn. destruct (mdl_key_fill_spec hash k ns db name Hb) as (k' & E & Hk). rewrite !take_short in Hk by assumption.
  exists k'. split; [|exact Hk]. unfold mdl_key_init. rewrite !asserting_true by (apply Nat.leb_le; assumption). exact E.
Qed.
Lemma key_of_reads hash k ns db name : 0 <= ns < 256 -> names_ok db name -> key_of hash k ns db name ->
  mdl_namespace k = ns /\ db_name k = db /\ db_name_length k = Z.of_nat (length db) /\ name_of k = name /\ name_length k = Z.of_nat (length name).
Proof.
  intros Hns [Hd Hn] [L D _ (rest & B & Bl)]. unfold mdl_namespace, db_name, db_name_length, name_of, name_length. rewrite D.
  split; [|split; [|split; [reflexivity|split]]].
  - rewrite B. unfold key_bytes. cbn. rewrite byteZ_Zbyte, uwrap_small by (unfold ufits; lia). reflexivity.
  - rewrite B. unfold key_bytes. cbn [app drop]. rewrite drop_0, <- app_assoc. cbn [app]. apply c_string_app, Hd.
  - rewrite B. replace (Z.to_nat (Z.of_nat (length db) + 2)) with (S (length (db ++ [x00]))) by (rewrite length_app; cbn; lia).
    unfold key_bytes. cbn [app drop]. replace ((db ++ x00 :: name ++ [x00]) ++ rest) with ((db ++ [x00]) ++ name ++ x00 :: rest) by (rewrite <- !app_assoc; cbn; rewrite <- app_assoc; reflexivity).
    rewrite drop_app_length. apply c_string_app, Hn.
  - assert (length (key_bytes ns db name) <= MAX_MDLKEY_LENGTH)%nat as Hm by (rewrite <- Bl, B, length_app; lia).
    rewrite length_key_bytes in Hm. unfold MAX_MDLKEY_LENGTH, NAME_LEN in Hm. rewrite L, length_key_bytes, uwrap_small by (unfold ufits; lia). lia.
Qed.
Lemma mdl_key_copy_spec hash k rhs ns db name : length (m_ptr k) = MAX_MDLKEY_LENGTH -> key_of hash rhs ns db name ->
  exists k', mdl_key_copy k rhs = Some k' /\ key_of hash k' ns db name.
Proof.
  intros Hk [L D H (rest & B & Bl)]. assert (length (key_bytes ns db name) <= MAX_MDLKEY_LENGTH)%nat as Hm by (rewrite <- Bl, B, length_app; lia).
  unfold mdl_key_copy. rewrite L, B, Nat2Z.id, take_app_length, put_bytes_ok by (rewrite Hk; exact Hm). cbn [mbind option_bind].
  eexists. split; [reflexivity|]. split; cbn [m_length m_db_name_length m_hash_value m_ptr]; [reflexivity|exact D|exact H|].
  rewrite take_0. cbn [app Nat.add]. eexists. split; [reflexivity|]. rewrite length_app, length_drop. lia.
Qed.

(** * The edge of a waiter *)

Definition locked_pc (p : waiter_pc) : bool := match p with WillWaitLocked _ | WillWaitSet | DoneWaitingLocked | DoneWaitingSet => true | _ => false end.
Record edge_inv e : Prop := { ei_writer : writer e = locked_pc (pc e); ei_excl : writer e = true -> readers e = ∅ }.
Lemma edge_step_inv e e' : edge_step e e' -> edge_inv e -> edge_inv e'.
Proof.
  intros Hs [Hw Hx]. destruct Hs as [e x Hp|e x Hp|e x Hp|e Hp|e Hp|e Hp|e Hp|e Hp|e i Hf|e|e i Hi]; rewrite ?Hp in Hw; split; cbn in *; try congruence; try tauto.
  intros Ht. rewrite Hx by exact Ht. set_solver.
Qed.
(** Steps during which the thread [i] keeps the edge locked. *)
Inductive held_steps (i : nat) : wait_edge -> wait_edge -> Prop :=
| held_refl e : i ∈ readers e -> held_steps i e e
| held_step e e' e'' : held_steps i e e' -> edge_step e' e'' -> i ∈ readers e'' -> held_steps i e e''.
Lemma held_in i e e' : held_steps i e e' -> i ∈ readers e'.
Proof. destruct 1; assumption. Qed.
Lemma edge_step_victim e e' (i : nat) : edge_inv e -> i ∈ readers e -> edge_step e e' -> m_waiting_for e' = m_waiting_for e.
Proof.
  intros [Hw Hx] Hi Hs. assert (Hnw : writer e = false) by (destruct (writer e); [rewrite Hx in Hi by reflexivity; set_solver|reflexivity]).
  destruct Hs as [e x Hp|e x Hp|e x Hp|e Hp|e Hp|e Hp|e Hp|e Hp|e j Hf|e|e j Hj]; try reflexivity; rewrite Hp in Hw; cbn in Hw; congruence.
Qed.

(** * Theorems *)

(** The key of an object whose names fit is made without writing outside the buffer, its namespace and names with their lengths are read back, and
    a copy of it is the same key. *)
Theorem mdl_key_roundtrip hash k k2 ns db name : length (m_ptr k) = MAX_MDLKEY_LENGTH -> length (m_ptr k2) = MAX_MDLKEY_LENGTH ->
  (length db <= NAME_LEN)%nat -> (length name <= NAME_LEN)%nat -> names_ok db name -> 0 <= ns < NAMESPACE_END ->
  exists k' k2', mdl_key_init hash k ns db name = Some k' /\ mdl_key_copy k2 k' = Some k2' /\ key_is_equal k2' k' = true /\ hash_value k2' = hash_value k' /\
    forall x, x = k' \/ x = k2' -> mdl_namespace x = ns /\ db_name x = db /\ db_name_length x = Z.of_nat (length db) /\ name_of x = name /\ name_length x = Z.of_nat (length name).
Proof.
  intros Hk Hk2 Hd Hn Hok Hns. unfold NAMESPACE_END in Hns. destruct (mdl_key_init_spec hash k ns db name Hk Hd Hn) as (k' & E & Hof).
  destruct (mdl_key_copy_spec hash k2 k' ns db name Hk2 Hof) as (k2' & E2 & Hof2).
  pose proof (key_of_reads hash k' ns db name ltac:(lia) Hok Hof) as R. pose proof (key_of_reads hash k2' ns db name ltac:(lia) Hok Hof2) as R2.
  exists k', k2'. do 2 (split; [assumption|]). split; [apply (key_of_equal hash k2' k' ns ns db db name name); auto; lia|].
  split; [|intros x [-> | ->]; assumption]. unfold hash_value. rewrite (proj1 R), (proj1 R2), (ko_hash _ _ _ _ _ Hof), (ko_hash _ _ _ _ _ Hof2). reflexivity.
Qed.

(** C21.  However long the names are, making a key writes inside its buffer: each name is cut to [NAME_LEN] bytes, the lengths fit in their
    16 bits and the key ends in a terminator. *)
Theorem mdl_key_never_overruns hash k ns db name : length (m_ptr k) = MAX_MDLKEY_LENGTH ->
  exists k', mdl_key_fill hash k ns db name = Some k' /\ length (m_ptr k') = MAX_MDLKEY_LENGTH /\
    3 <= m_length k' <= Z.of_nat MAX_MDLKEY_LENGTH /\ 0 <= m_db_name_length k' <= Z.of_nat NAME_LEN /\
    take (Z.to_nat (m_length k')) (m_ptr k') = key_bytes ns (take NAME_LEN db) (take NAME_LEN name) /\
    last (take (Z.to_nat (m_length k')) (m_ptr k')) = Some x00.
Proof.
  intros Hk. destruct (mdl_key_fill_spec hash k ns db name Hk) as (k' & E & [L D _ (rest & B & Bl)]). exists k'. split; [exact E|]. split; [exact Bl|].
  assert (Hdb : (length (take NAME_LEN db) <= NAME_LEN)%nat) by (rewrite length_take; lia).
  assert (Hm : (length (key_bytes ns (take NAME_LEN db) (take NAME_LEN name)) <= MAX_MDLKEY_LENGTH)%nat) by (rewrite <- Bl, B, length_app; lia).
  rewrite L, D, B, Nat2Z.id, take_app_length. split; [rewrite length_key_bytes in *; lia|]. split; [lia|]. split; [reflexivity|].
  unfold key_bytes. rewrite app_comm_cons, (last_app_cons _ _ x00). rewrite app_comm_cons, last_snoc. reflexivity.
Qed.

(** C16.  Keys are equal exactly when they are of the same object, and comparing them orders the objects by namespace, database and name, although
    only the bytes of the shorter key are compared. *)
Theorem mdl_keys_order_objects hash k k' ns ns' db db' name name' (r r' : MDL_key) : length (m_ptr k) = MAX_MDLKEY_LENGTH -> length (m_ptr k') = MAX_MDLKEY_LENGTH ->
  names_ok db name -> names_ok db' name' -> 0 <= ns < NAMESPACE_END -> 0 <= ns' < NAMESPACE_END ->
  mdl_key_init hash k ns db name = Some r -> mdl_key_init hash k' ns' db' name' = Some r' ->
  (key_is_equal r r' = true <-> ns = ns' /\ db = db' /\ name = name') /\ key_cmp r r' = object_compare ns ns' db db' name name' /\
  (key_cmp r r' = Eq <-> key_is_equal r r' = true).
Proof.
  intros Hk Hk' Hok Hok' Hns Hns' E E'. unfold NAMESPACE_END in *.
  assert (Hof : forall k ns db name (r : MDL_key), length (m_ptr k) = MAX_MDLKEY_LENGTH -> mdl_key_init hash k ns db name = Some r -> key_of hash r ns db name).
  { clear. intros k ns db name r Hk E. assert (Hl : (length db <= NAME_LEN)%nat /\ (length name <= NAME_LEN)%nat).
    { unfold mdl_key_init, asserting in E. destruct (Nat.leb_spec (length db) NAME_LEN); [|discriminate]. destruct (Nat.leb_spec (length name) NAME_LEN); [auto|discriminate]. }
    destruct (mdl_key_init_spec hash k ns db name Hk (proj1 Hl) (proj2 Hl)) as (r0 & E0 & H0). congruence. }
  pose proof (Hof _ _ _ _ _ Hk E) as H. pose proof (Hof _ _ _ _ _ Hk' E') as H'.
  assert (Heq : key_is_equal r r' = true <-> ns = ns' /\ db = db' /\ name = name') by (apply (key_of_equal hash); auto; lia).
  assert (Hc : key_cmp r r' = object_compare ns ns' db db' name name') by (rewrite (key_of_cmp _ _ _ _ _ _ _ _ _ H H'); apply cmp_min_key; auto; lia).
  split; [exact Heq|]. split; [exact Hc|]. rewrite Heq, Hc. unfold object_compare. split.
  - destruct (Z.compare_spec ns ns') as [->|?|?]; [|discriminate..]. destruct (str_compare db db') eqn:Ed; [|discriminate..].
    apply str_compare_eq in Ed as ->. intros En%str_compare_eq. auto.
  - intros (-> & -> & ->). rewrite Z.compare_refl, (proj2 (str_compare_eq db' db')), (proj2 (str_compare_eq name' name')) by reflexivity. reflexivity.
Qed.

(** While a thread has the edge of a victim locked, in any interleaving with the victim and other threads, what the victim waits for does
    not change, so its weight stays defined until the thread unlocks. *)
Theorem victim_edge_stable e0 e e' (i : nat) weight : readers e0 = ∅ -> writer e0 = false -> pc e0 = Running -> rtc edge_step e0 e -> held_steps i e e' ->
  m_waiting_for e' = m_waiting_for e /\ (is_Some (get_deadlock_weight weight e) -> is_Some (get_deadlock_weight weight e')).
Proof.
  intros Hr Hw Hp Hrun Hheld. assert (Hinv0 : edge_inv e0) by (split; [rewrite Hp; exact Hw|congruence]).
  assert (Hinv : edge_inv e) by (clear Hheld Hr Hw Hp; induction Hrun as [|e1 e2 e3 H1 _ IH]; [assumption|apply IH, (edge_step_inv _ _ H1), Hinv0]).
  assert (H : edge_inv e' /\ m_waiting_for e' = m_waiting_for e).
  { clear Hrun. induction Hheld as [e Hi|e e1 e2 Hh IH Hs Hi]; [auto|]. destruct (IH Hinv) as [I1 E1]. split; [apply (edge_step_inv _ _ Hs I1)|].
    rewrite <- E1. apply (edge_step_victim _ _ i I1); [apply (held_in _ _ _ Hh)|exact Hs]. }
  destruct H as [_ E]. split; [exact E|]. unfold get_deadlock_weight. rewrite E. destruct (negb _); [|intros [? H]; discriminate]. intros _. eexists. reflexivity.
Qed.

(** A context has locks exactly when one of its three lists has tickets, and a savepoint remembers the newest tickets. *)
Theorem context_lists_spec C I st ss ts xs : plist_rep C I st MDL_STATEMENT ss -> plist_rep C I st MDL_TRANSACTION ts -> plist_rep C I st MDL_EXPLICIT xs ->
  has_locks st = Some (negb (bool_decide (ss ++ ts ++ xs = []))) /\ has_explicit_locks st = Some (negb (bool_decide (xs = []))) /\
  has_transactional_locks st = Some (negb (bool_decide (ts = []))) /\ mdl_savepoint st = Some (mkSavepoint (hd_error ss) (hd_error ts)).
Proof.
  intros Hs Ht Hx.
  assert (He : forall l ns, plist_rep C I st l ns -> plist_is_empty st l = Some (bool_decide (ns = []))).
  { intros l ns H. apply plist_front_spec in H. unfold plist_front in H. unfold plist_is_empty. destruct (plists st !! l) as [o|]; [|discriminate].
    cbn in *. injection H as ->. destruct ns; reflexivity. }
  unfold has_locks, has_explicit_locks, has_transactional_locks, mdl_savepoint.
  rewrite (He _ _ Hs), (He _ _ Ht), (He _ _ Hx), (plist_front_spec _ _ _ _ _ Hs), (plist_front_spec _ _ _ _ _ Ht).
  split; [|auto]. destruct ss, ts, xs; reflexivity.
Qed.

(** Moving a request moves the ticket: the copy has the ticket and the key, the source has no ticket, so its type may be set again. *)
Theorem request_moves_ticket hash r from ns db name : length (m_ptr (rq_key r)) = MAX_MDLKEY_LENGTH -> key_of hash (rq_key from) ns db name -> 0 <= ns < NAMESPACE_END -> names_ok db name ->
  exists r' from', move_from r from = Some (r', from') /\ rq_ticket r' = rq_ticket from /\ key_is_equal (rq_key r') (rq_key from) = true /\ rq_type r' = rq_type from /\
    rq_ticket from' = 0 /\ (forall t, is_Some (request_set_type from' t)) /\ is_write_lock_request r' = is_write_lock_request from.
Proof.
  intros Hr Hk Hns Hok. unfold NAMESPACE_END in Hns. destruct (mdl_key_copy_spec hash _ _ _ _ _ Hr Hk) as (k' & E & Hk'). unfold move_from. rewrite E. cbn [mbind option_bind].
  eexists _, _. split; [reflexivity|]. cbn. split; [reflexivity|]. split; [apply (key_of_equal hash k' (rq_key from) ns ns db db name name); auto; lia|].
  do 2 (split; [reflexivity|]). split; [intros t; eexists; reflexivity|reflexivity].
Qed.

(** ** Witnesses *)

Definition no_key : MDL_key := mkKey 0 0 0 (replicate MAX_MDLKEY_LENGTH x00).
Definition sum_hash (s : bytes) : Z := foldr (fun b a => uwrap 32 (a * 31 + byteZ b)) 0 s.
Definition db_t : bytes := [x74; x65].
Definition name_a : bytes := [x61].
Definition name_ab : bytes := [x61; x62].
Lemma names_ok_t : names_ok db_t name_a /\ names_ok db_t name_ab.
Proof. split; split; repeat (constructor; [discriminate|]); constructor. Defined.
Lemma mdl_key_roundtrip_witness : exists k', mdl_key_init sum_hash no_key TABLE db_t name_a = Some k' /\ name_of k' = name_a.
Proof.
  destruct (mdl_key_roundtrip sum_hash no_key no_key TABLE db_t name_a) as (k' & k2' & E & _ & _ & _ & R);
    [reflexivity|reflexivity|cbn; unfold NAME_LEN; lia|cbn; unfold NAME_LEN; lia|apply names_ok_t|unfold TABLE, NAMESPACE_END; lia|].
  exists k'. split; [exact E|apply (R k'); left; reflexivity].
Defined.
Lemma mdl_key_never_overruns_witness : exists k', mdl_key_fill sum_hash no_key TABLE (replicate 1000 x61) (replicate 500 x62) = Some k' /\ m_db_name_length k' <= 192.
Proof.
  destruct (mdl_key_never_overruns sum_hash no_key TABLE (replicate 1000 x61) (replicate 500 x62)) as (k' & E & _ & _ & H & _); [reflexivity|]. exists k'. split; [exact E|apply H].
Defined.
Definition key_a : MDL_key := default no_key (mdl_key_init sum_hash no_key TABLE db_t name_a).
Definition key_ab : MDL_key := default no_key (mdl_key_init sum_hash no_key TABLE db_t name_ab).
Lemma mdl_keys_order_objects_witness : key_cmp key_a key_ab = Lt.
Proof.
  destruct (mdl_keys_order_objects sum_hash no_key no_key TABLE TABLE db_t db_t name_a name_ab key_a key_ab) as (_ & H & _);
    [reflexivity|reflexivity|apply names_ok_t|apply names_ok_t|unfold TABLE, NAMESPACE_END; lia|unfold TABLE, NAMESPACE_END; lia|vm_compute; reflexivity|vm_compute; reflexivity|exact H].
Defined.
Definition edge0 : wait_edge := mkEdge ∅ false 0 0 Running.
Definition edge_w : wait_edge := mkEdge ∅ false 7 0 Running.
Lemma edge_w_reached : rtc edge_step edge0 (with_readers edge_w {[3%nat]}).
Proof.
  eapply rtc_l; [apply (call_will_wait edge0 7); [reflexivity|discriminate]|].
  eapply rtc_l; [apply (will_wait_wrlock _ 7); reflexivity|]. eapply rtc_l; [apply (will_wait_set _ 7); reflexivity|].
  eapply rtc_l; [apply will_wait_unlock; reflexivity|]. eapply rtc_l; [apply (victim_rdlock _ 3); [reflexivity|apply (bool_decide_unpack _); vm_compute; exact I]|].
  cbn. replace ({[3%nat]} ∪ ∅ : gset nat) with ({[3%nat]} : gset nat) by (vm_compute; reflexivity). apply rtc_refl.
Defined.
Lemma victim_edge_stable_witness : m_waiting_for (with_pc (with_readers edge_w {[3%nat]}) DoneWaiting) = 7.
Proof.
  refine (proj1 (victim_edge_stable edge0 (with_readers edge_w {[3%nat]}) _ 3 (fun _ => 1) eq_refl eq_refl eq_refl edge_w_reached _)).
  eapply held_step; [apply held_refl; apply (bool_decide_unpack _); vm_compute; exact I|apply call_done_waiting; reflexivity|apply (bool_decide_unpack _); vm_compute; exact I].
Defined.
Definition three_lists : pstore := mkPStore ∅ (<[0%nat := mkPList None 0 (PFirst 0)]> (<[1%nat := mkPList None 0 (PFirst 1)]> (<[2%nat := mkPList None 0 (PFirst 2)]> ∅))).
Lemma context_lists_spec_witness : has_locks three_lists = Some false.
Proof.
  refine (proj1 (context_lists_spec I_P_List_null_counter I_P_List_no_push_back three_lists [] [] [] _ _ _));
    (eexists _, _; split; [vm_compute; reflexivity|]; cbn; split; [split; reflexivity|]; split; [constructor|split; constructor]).
Defined.
Lemma request_moves_ticket_witness : exists r' from', move_from (mkRequest 0 0 0 0 0 no_key) (mkRequest 4 1 0 0 900 key_a) = Some (r', from') /\ rq_ticket r' = 900.
Proof.
  destruct (request_moves_ticket sum_hash (mkRequest 0 0 0 0 0 no_key) (mkRequest 4 1 0 0 900 key_a) TABLE db_t name_a) as (r' & from' & E & T & _); [reflexivity| |unfold TABLE, NAMESPACE_END; lia|apply names_ok_t|exists r', from'; split; [exact E|exact T]].
  split; [vm_compute; reflexivity|vm_compute; reflexivity|vm_compute; reflexivity|]. exists (replicate 381 x00). split; vm_compute; reflexivity.
Defined.
