(* ===== verification/SqlHandler.v ===== *)
(** A table open in a storage engine: what [handler] of [private/handler.h] keeps of the scans, of reading keys only, of statistics and of what is
    pushed down to the engine, and the costs [Cost_estimate].

    The engine is behind virtual methods, so it is a parameter: a function from the calls that
    were made, with their results, to the result of the next one.  The calls are recorded in a trace, on which the
    theorem that the scans are used properly is stated.  A failed assertion is [None]. *)

From Stdlib Require Import Floats.SpecFloat.
From S2P Require Import Prelude CDouble.

Definition MAX_KEY : Z := 64.

(** * Scans *)

Inductive init_stat := NONE | INDEX | RND.
#[export] Instance init_stat_eq_dec : EqDecision init_stat.
Proof. solve_decision. Defined.
Record scan := mkScan { inited : init_stat; pre_inited : init_stat; active_index : Z; keyread : Z; end_range : Z }.
Inductive engine_call :=
| index_init (idx : Z) (sorted : bool) | index_end | rnd_init (scan : bool) | rnd_end
| pre_index_init (idx : Z) (sorted : bool) | pre_index_end | pre_rnd_init (scan : bool) | pre_rnd_end
| extra_opt_keyread (idx : Z) | extra_no_keyread | position | rnd_pos.
Abbreviation trace := (list (engine_call * Z)).
Implicit Types (h : scan) (t : trace).
Definition new_scan : scan := mkScan NONE NONE MAX_KEY MAX_KEY 0.
Definition is_stat (a b : init_stat) : bool := bool_decide (a = b).
Definition with_inited h (i : init_stat) : scan := mkScan i (pre_inited h) (active_index h) (keyread h) (end_range h).
Definition with_pre_inited h (i : init_stat) : scan := mkScan (inited h) i (active_index h) (keyread h) (end_range h).
Definition with_active_index h (i : Z) : scan := mkScan (inited h) (pre_inited h) i (keyread h) (end_range h).
Definition with_keyread h (i : Z) : scan := mkScan (inited h) (pre_inited h) (active_index h) i (end_range h).
Definition with_end_range h (r : Z) : scan := mkScan (inited h) (pre_inited h) (active_index h) (keyread h) r.

Section Engine.
Context (engine : trace -> engine_call -> Z).
Abbreviation outcome := (option (Z * scan * trace)).
(** The result of a call and the trace with it; [rnd_pos] is what [ha_rnd_pos] asks. *)
Definition call t (c : engine_call) : Z * trace := let r := engine t c in (r, t ++ [(c, r)]).

Definition ha_index_init h t (idx : Z) (sorted : bool) : outcome :=
  _ ← asserting (is_stat (inited h) NONE) tt;
  let (result, t) := call t (index_init idx sorted) in
  Some (result, if result =? 0 then with_end_range (with_active_index (with_inited h INDEX) idx) 0 else h, t).
Definition ha_index_end h t : outcome :=
  _ ← asserting (is_stat (inited h) INDEX) tt;
  let h := with_end_range (with_active_index (with_inited h NONE) MAX_KEY) 0 in
  let (result, t) := call t index_end in Some (result, h, t).
Definition ha_rnd_init h t (scan : bool) : outcome :=
  _ ← asserting (is_stat (inited h) NONE || is_stat (inited h) RND && scan) tt;
  let (result, t) := call t (rnd_init scan) in
  Some (result, with_end_range (with_inited h (if negb (result =? 0) then NONE else RND)) 0, t).
Definition ha_rnd_end h t : outcome :=
  _ ← asserting (is_stat (inited h) RND) tt;
  let h := with_end_range (with_inited h NONE) 0 in
  let (result, t) := call t rnd_end in Some (result, h, t).
Definition ha_index_or_rnd_end h t : outcome :=
  if is_stat (inited h) INDEX then ha_index_end h t else if is_stat (inited h) RND then ha_rnd_end h t else Some (0, h, t).

Definition keyread_enabled h : bool := keyread h <? MAX_KEY.
Definition ha_start_keyread h t (idx : Z) : outcome :=
  let (res, t) := if keyread_enabled h then (0, t) else call t (extra_opt_keyread idx) in Some (res, with_keyread h idx, t).
Definition ha_end_keyread h t : outcome :=
  if negb (keyread_enabled h) then Some (0, h, t)
  else let h := with_keyread h MAX_KEY in let (res, t) := call t extra_no_keyread in Some (res, h, t).

Definition ha_pre_rnd_init h t (scan : bool) : outcome :=
  _ ← asserting (is_stat (pre_inited h) NONE || is_stat (pre_inited h) RND && scan) tt;
  let (result, t) := call t (pre_rnd_init scan) in Some (result, with_pre_inited h (if negb (result =? 0) then NONE else RND), t).
Definition ha_pre_rnd_end h t : outcome :=
  _ ← asserting (is_stat (pre_inited h) RND) tt; let h := with_pre_inited h NONE in let (result, t) := call t pre_rnd_end in Some (result, h, t).
Definition ha_pre_index_init h t (idx : Z) (sorted : bool) : outcome :=
  _ ← asserting (is_stat (pre_inited h) NONE) tt;
  let (result, t) := call t (pre_index_init idx sorted) in Some (result, if result =? 0 then with_pre_inited h INDEX else h, t).
Definition ha_pre_index_end h t : outcome :=
  _ ← asserting (is_stat (pre_inited h) INDEX) tt; let h := with_pre_inited h NONE in let (result, t) := call t pre_index_end in Some (result, h, t).
Definition ha_pre_index_or_rnd_end h t : outcome :=
  if is_stat (pre_inited h) INDEX then ha_pre_index_end h t else if is_stat (pre_inited h) RND then ha_pre_rnd_end h t else Some (0, h, t).

(** [rnd_pos_by_record]; the assertion on the flags of the table is the argument [pk_required]. *)
Definition rnd_pos_by_record h t (pk_required : bool) : outcome :=
  _ ← asserting pk_required tt;
  r ← ha_rnd_init h t false;
  let '(error, h, t) := r in
  if negb (error =? 0) then Some (error, h, t)
  else
    let (_, t) := call t position in
    let (error, t) := call t rnd_pos in
    r ← ha_rnd_end h t; let '(_, h, t) := r in Some (error, h, t).

(** ** Sequences of operations *)

Inductive scan_op :=
| OIndexInit (idx : Z) (sorted : bool) | OIndexEnd | ORndInit (scan : bool) | ORndEnd | OEnd
| OStartKeyread (idx : Z) | OEndKeyread | OPreIndexInit (idx : Z) (sorted : bool) | OPreIndexEnd | OPreRndInit (scan : bool) | OPreRndEnd | OPreEnd | ORndPosByRecord.
Definition run_op h t (op : scan_op) : outcome :=
  match op with
  | OIndexInit idx sorted => ha_index_init h t idx sorted | OIndexEnd => ha_index_end h t
  | ORndInit sc => ha_rnd_init h t sc | ORndEnd => ha_rnd_end h t | OEnd => ha_index_or_rnd_end h t
  | OStartKeyread idx => ha_start_keyread h t idx | OEndKeyread => ha_end_keyread h t
  | OPreIndexInit idx sorted => ha_pre_index_init h t idx sorted | OPreIndexEnd => ha_pre_index_end h t
  | OPreRndInit sc => ha_pre_rnd_init h t sc | OPreRndEnd => ha_pre_rnd_end h t | OPreEnd => ha_pre_index_or_rnd_end h t
  | ORndPosByRecord => rnd_pos_by_record h t true
  end.
Fixpoint run_ops h t (ops : list scan_op) : option (scan * trace) :=
  match ops with [] => Some (h, t) | op :: ops => r ← run_op h t op; let '(_, h, t) := r in run_ops h t ops end.
End Engine.

(** * Statistics, marks, conditions and filters *)

Record statistics := mkStats { rows_read : Z; rows_tmp_read : Z; rows_changed : Z; index_rows_read : list Z; internal_tmp_table : bool }.
Implicit Types (s : statistics).
Definition reset_statistics s : statistics := mkStats 0 0 0 (replicate 65 0) (internal_tmp_table s).
Definition update_rows_read s : statistics :=
  if negb (internal_tmp_table s) then mkStats (uwrap 64 (rows_read s + 1)) (rows_tmp_read s) (rows_changed s) (index_rows_read s) (internal_tmp_table s)
  else mkStats (rows_read s) (uwrap 64 (rows_tmp_read s + 1)) (rows_changed s) (index_rows_read s) (internal_tmp_table s).
(** [None] when the index is outside [index_rows_read]. *)
Definition update_index_statistics h s : option statistics :=
  n ← index_rows_read s !! Z.to_nat (active_index h);
  Some (update_rows_read (mkStats (rows_read s) (rows_tmp_read s) (rows_changed s) (<[Z.to_nat (active_index h) := uwrap 64 (n + 1)]> (index_rows_read s)) (internal_tmp_table s))).

Record pushed := mkPushed { pushed_idx_cond : Z; pushed_idx_cond_keyno : Z; in_range_check_pushed_down : bool;
  pushed_rowid_filter : Z; rowid_filter_is_active : bool; save_pushed_rowid_filter : Z; save_rowid_filter_is_active : bool }.
Implicit Types (p : pushed).
Definition new_pushed : pushed := mkPushed 0 MAX_KEY false 0 false 0 false.
Definition with_filter p (f : Z) (active : bool) (save : Z) (save_active : bool) : pushed :=
  mkPushed (pushed_idx_cond p) (pushed_idx_cond_keyno p) (in_range_check_pushed_down p) f active save save_active.
Definition cancel_pushed_idx_cond p : pushed :=
  mkPushed 0 MAX_KEY false (pushed_rowid_filter p) (rowid_filter_is_active p) (save_pushed_rowid_filter p) (save_rowid_filter_is_active p).
Definition cancel_pushed_rowid_filter p : pushed := with_filter p 0 false (save_pushed_rowid_filter p) (save_rowid_filter_is_active p).
Definition disable_pushed_rowid_filter p : option pushed :=
  _ ← asserting (negb (pushed_rowid_filter p =? 0) && (save_pushed_rowid_filter p =? 0)) tt;
  Some (with_filter p 0 false (pushed_rowid_filter p) (if rowid_filter_is_active p then rowid_filter_is_active p else save_rowid_filter_is_active p)).
Definition enable_pushed_rowid_filter p : option pushed :=
  _ ← asserting (negb (save_pushed_rowid_filter p =? 0) && (pushed_rowid_filter p =? 0)) tt;
  Some (with_filter p (save_pushed_rowid_filter p) (if save_rowid_filter_is_active p then true else rowid_filter_is_active p) 0 (save_rowid_filter_is_active p)).

Definition HA_CHECK_DUP_KEY : Z := 1.
Definition HA_CHECK_FK_ERROR : Z := 4.
Definition HA_ERR_FOUND_DUPP_KEY : Z := 121.
Definition HA_ERR_FOUND_DUPP_UNIQUE : Z := 141.
Definition HA_ERR_NO_REFERENCED_ROW : Z := 151.
Definition HA_ERR_ROW_IS_REFERENCED : Z := 152.
Definition HA_ERR_AUTOINC_ERANGE : Z := 167.
Definition is_fatal_error (error flags : Z) : bool :=
  if (error =? 0) || c_true (flags .& HA_CHECK_DUP_KEY) && ((error =? HA_ERR_FOUND_DUPP_KEY) || (error =? HA_ERR_FOUND_DUPP_UNIQUE)) || (error =? HA_ERR_AUTOINC_ERANGE)
     || c_true (flags .& HA_CHECK_FK_ERROR) && ((error =? HA_ERR_ROW_IS_REFERENCED) || (error =? HA_ERR_NO_REFERENCED_ROW))
  then false else true.

(** * [Cost_estimate] *)

Record Cost_estimate := mkCost { io_count : double; avg_io_cost : double; idx_io_count : double; idx_avg_io_cost : double; cpu_cost : double; idx_cpu_cost : double; import_cost : double; mem_cost : double }.
Implicit Types (c cost : Cost_estimate).
Definition IO_COEFF : double := done_.
Definition CPU_COEFF : double := done_.
Definition MEM_COEFF : double := done_.
Definition IMPORT_COEFF : double := done_.
Definition cost_reset : Cost_estimate := mkCost dzero done_ dzero done_ dzero dzero dzero dzero.
Definition total_cost c : double :=
  dadd (dadd (dadd (dadd (dmul (dmul IO_COEFF (io_count c)) (avg_io_cost c)) (dmul (dmul IO_COEFF (idx_io_count c)) (idx_avg_io_cost c)))
             (dmul CPU_COEFF (dadd (cpu_cost c) (idx_cpu_cost c)))) (dmul MEM_COEFF (mem_cost c))) (dmul IMPORT_COEFF (import_cost c)).
Definition index_only_cost c : double := dadd (dmul (dmul IO_COEFF (idx_io_count c)) (idx_avg_io_cost c)) (dmul CPU_COEFF (idx_cpu_cost c)).
Definition is_zero c : bool := deq (io_count c) dzero && deq (idx_io_count c) dzero && deq (cpu_cost c) dzero && deq (import_cost c) dzero && deq (mem_cost c) dzero.
Definition cost_multiply c (m : double) : Cost_estimate :=
  mkCost (dmul (io_count c) m) (avg_io_cost c) (dmul (idx_io_count c) m) (idx_avg_io_cost c) (dmul (cpu_cost c) m) (dmul (idx_cpu_cost c) m) (dmul (import_cost c) m) (mem_cost c).
Definition weighted (n a n' a' : double) : double := ddiv (dadd (dmul n a) (dmul n' a')) (dadd n n').
Definition cost_add c cost : Cost_estimate :=
  let '(io, avg) := if negb (deq (io_count cost) dzero) then (dadd (io_count c) (io_count cost), weighted (io_count c) (avg_io_cost c) (io_count cost) (avg_io_cost cost)) else (io_count c, avg_io_cost c) in
  let '(idx_io, idx_avg) := if negb (deq (idx_io_count cost) dzero) then (dadd (idx_io_count c) (idx_io_count cost), weighted (idx_io_count c) (idx_avg_io_cost c) (idx_io_count cost) (idx_avg_io_cost cost)) else (idx_io_count c, idx_avg_io_cost c) in
  mkCost io avg idx_io idx_avg (dadd (cpu_cost c) (cpu_cost cost)) (dadd (idx_cpu_cost c) (idx_cpu_cost cost)) (dadd (import_cost c) (import_cost cost)) (mem_cost c).
Definition add_io c (add_io_cnt add_avg_cost : double) : Cost_estimate :=
  if dlt dzero add_io_cnt
  then mkCost (dadd (io_count c) add_io_cnt) (weighted (io_count c) (avg_io_cost c) add_io_cnt add_avg_cost) (idx_io_count c) (idx_avg_io_cost c) (cpu_cost c) (idx_cpu_cost c) (import_cost c) (mem_cost c)
  else c.
Definition add_cpu c (x : double) : Cost_estimate := mkCost (io_count c) (avg_io_cost c) (idx_io_count c) (idx_avg_io_cost c) (dadd (cpu_cost c) x) (idx_cpu_cost c) (import_cost c) (mem_cost c).
Definition add_import c (x : double) : Cost_estimate := mkCost (io_count c) (avg_io_cost c) (idx_io_count c) (idx_avg_io_cost c) (cpu_cost c) (idx_cpu_cost c) (dadd (import_cost c) x) (mem_cost c).
Definition add_mem c (x : double) : Cost_estimate := mkCost (io_count c) (avg_io_cost c) (idx_io_count c) (idx_avg_io_cost c) (cpu_cost c) (idx_cpu_cost c) (import_cost c) (dadd (mem_cost c) x).
Definition convert_from_cost (x : double) : Cost_estimate := mkCost x done_ dzero done_ dzero dzero dzero dzero.

(** * What an engine is promised

    The calls an engine may get, with their results, as an automaton: a scan begins when none is open (a scan of
    the rows may begin again), ends as what it began, rows are asked for inside a scan of rows, and reading keys only
    is asked for and taken back in turn. *)

Abbreviation engine_view := (init_stat * init_stat * bool)%type.
Implicit Types (v : engine_view).
Definition began (i : init_stat) (result : Z) : init_stat := if result =? 0 then i else NONE.
Definition engine_accepts v (c : engine_call * Z) : option engine_view :=
  let '(st, pre, kr) := v in let '(c, r) := c in
  match c with
  | index_init _ _ => asserting (is_stat st NONE) (began INDEX r, pre, kr)
  | index_end => asserting (is_stat st INDEX) (NONE, pre, kr)
  | rnd_init sc => asserting (is_stat st NONE || is_stat st RND && sc) (began RND r, pre, kr)
  | rnd_end => asserting (is_stat st RND) (NONE, pre, kr)
  | pre_index_init _ _ => asserting (is_stat pre NONE) (st, began INDEX r, kr)
  | pre_index_end => asserting (is_stat pre INDEX) (st, NONE, kr)
  | pre_rnd_init sc => asserting (is_stat pre NONE || is_stat pre RND && sc) (st, began RND r, kr)
  | pre_rnd_end => asserting (is_stat pre RND) (st, NONE, kr)
  | extra_opt_keyread _ => asserting (negb kr) (st, pre, true)
  | extra_no_keyread => asserting kr (st, pre, false)
  | position | rnd_pos => asserting (is_stat st RND) (st, pre, kr)
  end.
Fixpoint engine_accepts_all v t : option engine_view :=
  match t with [] => Some v | c :: t => v' ← engine_accepts v c; engine_accepts_all v' t end.
Definition engine_sees h : engine_view := (inited h, pre_inited h, keyread_enabled h).
Definition keyread_op_ok (op : scan_op) : Prop := match op with OStartKeyread idx | OIndexInit idx _ => 0 <= idx < MAX_KEY | _ => True end.
Definition scan_wf h : Prop := 0 <= active_index h <= MAX_KEY /\ (active_index h < MAX_KEY <-> inited h = INDEX).

(** ** A client

    A client decides from what it did and what was answered; it knows nothing of the members of [handler].  Its record: the scan it began
    and was told had begun, the same for the scan it prepared, and whether it asked to read keys only. *)
Abbreviation history := (list (scan_op * Z)).
Definition client_next v (e : scan_op * Z) : engine_view :=
  let '(st, pre, kr) := v in let '(op, r) := e in
  match op with
  | OIndexInit _ _ => (began INDEX r, pre, kr) | ORndInit _ => (began RND r, pre, kr)
  | OIndexEnd | ORndEnd | OEnd | ORndPosByRecord => (NONE, pre, kr)
  | OPreIndexInit _ _ => (st, began INDEX r, kr) | OPreRndInit _ => (st, began RND r, kr)
  | OPreIndexEnd | OPreRndEnd | OPreEnd => (st, NONE, kr)
  | OStartKeyread _ => (st, pre, true) | OEndKeyread => (st, pre, false)
  end.
Definition client_view (hist : history) : engine_view := foldl client_next (NONE, NONE, false) hist.
(** It begins a scan when it has none (or begins its scan of all rows again), and ends the one it has; the operations that look for themselves
    it may always use. *)
Definition client_may v (op : scan_op) : bool :=
  let '(st, pre, kr) := v in
  match op with
  | OIndexInit _ _ | ORndPosByRecord => is_stat st NONE
  | ORndInit sc => is_stat st NONE || is_stat st RND && sc
  | OIndexEnd => is_stat st INDEX | ORndEnd => is_stat st RND
  | OPreIndexInit _ _ => is_stat pre NONE
  | OPreRndInit sc => is_stat pre NONE || is_stat pre RND && sc
  | OPreIndexEnd => is_stat pre INDEX | OPreRndEnd => is_stat pre RND
  | OEnd | OPreEnd | OStartKeyread _ | OEndKeyread => true
  end.
Definition careful (client : history -> option scan_op) : Prop :=
  forall hist op, client hist = Some op -> client_may (client_view hist) op = true /\ keyread_op_ok op.
Fixpoint run_client (engine : trace -> engine_call -> Z) (client : history -> option scan_op) (n : nat) h t (hist : history)
    : option (scan * trace * history) :=
  match n, client hist with
  | S n, Some op => r ← run_op engine h t op; let '(r, h, t) := r in run_client engine client n h t (hist ++ [(op, r)])
  | _, _ => Some (h, t, hist)
  end.

Lemma asserting_Some {A} (b : bool) (a x : A) : asserting b a = Some x -> b = true /\ x = a.
Proof. destruct b; [intros [= <-]; done|done]. Qed.
Lemma accepts_app v t1 t2 : engine_accepts_all v (t1 ++ t2) = v' ← engine_accepts_all v t1; engine_accepts_all v' t2.
Proof. revert v. induction t1 as [|c t1 IH]; intros v; [done|]. cbn. destruct (engine_accepts v c); [apply IH|done]. Qed.
Lemma is_stat_true a b : is_stat a b = true <-> a = b.
Proof. unfold is_stat. by rewrite bool_decide_eq_true. Qed.
(** Runs the guards of an operation: the assertion of the hypothesis is the guard of the automaton. *)
Ltac scan_guards :=
  repeat match goal with
  | H : asserting ?b _ ≫= _ = Some _ |- _ => let G := fresh "G" in destruct b eqn:G; cbn [asserting mbind option_bind] in H; [|discriminate]
  | H : context [if ?b then _ else _] |- _ => let G := fresh "G" in destruct b eqn:G; cbn [mbind option_bind negb] in H
  | H : Some _ = Some _ |- _ => injection H as <- <- <-
  | H : None = Some _ |- _ => discriminate H
  end.

Section Accepted.
Context (engine : trace -> engine_call -> Z).
(** What an operation adds to the trace is accepted, from what the engine saw before to what it sees after. *)
Definition op_accepted h t (o : option (Z * scan * trace)) : Prop :=
  forall r h' t', o = Some (r, h', t') -> exists ext, t' = t ++ ext /\ engine_accepts_all (engine_sees h) ext = Some (engine_sees h').

Lemma one_call_accepted h t (c : engine_call) (r : Z) h' t' : t' = t ++ [(c, r)] -> engine_accepts (engine_sees h) (c, r) = Some (engine_sees h') ->
  exists ext, t' = t ++ ext /\ engine_accepts_all (engine_sees h) ext = Some (engine_sees h').
Proof. intros -> E. exists [(c, r)]. split; [done|]. cbn [engine_accepts_all]. by rewrite E. Qed.
Lemma no_call_accepted h t h' t' : t' = t -> engine_sees h = engine_sees h' ->
  exists ext, t' = t ++ ext /\ engine_accepts_all (engine_sees h) ext = Some (engine_sees h').
Proof. intros -> E. exists []. rewrite app_nil_r. split; [done|]. cbn. by rewrite E. Qed.
Ltac one_call :=
  intros r h' t' E; unfold call in E; cbn [mbind option_bind] in E; scan_guards;
  (eapply one_call_accepted; [reflexivity|]; cbn; unfold began; repeat match goal with G : _ = true |- _ => rewrite G | G : _ = false |- _ => rewrite G end; try reflexivity).

Lemma index_init_accepted h t idx sorted : op_accepted h t (ha_index_init engine h t idx sorted).
Proof. unfold ha_index_init. one_call. apply is_stat_true in G. unfold engine_sees. by rewrite G. Qed.
Lemma index_end_accepted h t : op_accepted h t (ha_index_end engine h t).
Proof. unfold ha_index_end. one_call. Qed.
Lemma rnd_init_accepted h t sc : op_accepted h t (ha_rnd_init engine h t sc).
Proof. unfold ha_rnd_init. one_call. all: by destruct (_ =? 0). Qed.
Lemma rnd_end_accepted h t : op_accepted h t (ha_rnd_end engine h t).
Proof. unfold ha_rnd_end. one_call. Qed.
Lemma pre_index_init_accepted h t idx sorted : op_accepted h t (ha_pre_index_init engine h t idx sorted).
Proof. unfold ha_pre_index_init. one_call. apply is_stat_true in G. unfold engine_sees. by rewrite G. Qed.
Lemma pre_index_end_accepted h t : op_accepted h t (ha_pre_index_end engine h t).
Proof. unfold ha_pre_index_end. one_call. Qed.
Lemma pre_rnd_init_accepted h t sc : op_accepted h t (ha_pre_rnd_init engine h t sc).
Proof. unfold ha_pre_rnd_init. one_call. all: by destruct (_ =? 0). Qed.
Lemma pre_rnd_end_accepted h t : op_accepted h t (ha_pre_rnd_end engine h t).
Proof. unfold ha_pre_rnd_end. one_call. Qed.

Lemma index_or_rnd_end_accepted h t : op_accepted h t (ha_index_or_rnd_end engine h t).
Proof.
  unfold ha_index_or_rnd_end. destruct (is_stat (inited h) INDEX); [apply index_end_accepted|].
  destruct (is_stat (inited h) RND); [apply rnd_end_accepted|]. intros r h' t' [= <- <- <-]. by apply no_call_accepted.
Qed.
Lemma pre_index_or_rnd_end_accepted h t : op_accepted h t (ha_pre_index_or_rnd_end engine h t).
Proof.
  unfold ha_pre_index_or_rnd_end. destruct (is_stat (pre_inited h) INDEX); [apply pre_index_end_accepted|].
  destruct (is_stat (pre_inited h) RND); [apply pre_rnd_end_accepted|]. intros r h' t' [= <- <- <-]. by apply no_call_accepted.
Qed.
Lemma start_keyread_accepted h t idx : 0 <= idx < MAX_KEY -> op_accepted h t (ha_start_keyread engine h t idx).
Proof.
  intros Hi r h' t' E. unfold ha_start_keyread, call in E.
  assert (K : keyread_enabled (with_keyread h idx) = true) by (unfold keyread_enabled; cbn; apply Z.ltb_lt; lia).
  destruct (keyread_enabled h) eqn:G; injection E as <- <- <-.
  - apply no_call_accepted; [done|]. unfold engine_sees. by rewrite K, G.
  - eapply one_call_accepted; [reflexivity|]. cbn. rewrite G. cbn. unfold engine_sees. by rewrite K.
Qed.
Lemma end_keyread_accepted h t : op_accepted h t (ha_end_keyread engine h t).
Proof.
  intros r h' t' E. unfold ha_end_keyread, call in E. destruct (keyread_enabled h) eqn:G; cbn in E; injection E as <- <- <-.
  - eapply one_call_accepted; [reflexivity|]. cbn. by rewrite G.
  - by apply no_call_accepted.
Qed.

(** The calls of [rnd_pos_by_record]: one when the scan does not begin, otherwise the row is asked for and the scan ended. *)
Lemma rnd_pos_by_record_calls h t : inited h = NONE ->
  let result := engine t (rnd_init false) in
  let t1 := t ++ [(rnd_init false, result)] in
  let t2 := t1 ++ [(position, engine t1 position)] in
  let t3 := t2 ++ [(rnd_pos, engine t2 rnd_pos)] in
  rnd_pos_by_record engine h t true =
    Some (if result =? 0 then (engine t2 rnd_pos, with_end_range (with_inited (with_end_range (with_inited h RND) 0) NONE) 0, t3 ++ [(rnd_end, engine t3 rnd_end)])
          else (result, with_end_range (with_inited h NONE) 0, t1)).
Proof.
  intros Hn result t1 t2 t3. unfold rnd_pos_by_record, ha_rnd_init, call. rewrite Hn.
  change (is_stat NONE NONE || is_stat NONE RND && false) with true. fold result.
  cbn [asserting mbind option_bind]. destruct (result =? 0); cbn [negb]; reflexivity.
Qed.
Lemma rnd_pos_by_record_inited h t r : rnd_pos_by_record engine h t true = Some r -> inited h = NONE.
Proof.
  unfold rnd_pos_by_record, ha_rnd_init. cbn. rewrite andb_false_r, orb_false_r. destruct (is_stat (inited h) NONE) eqn:G; [|done].
  intros _. by apply is_stat_true.
Qed.
Lemma rnd_pos_by_record_accepted h t : op_accepted h t (rnd_pos_by_record engine h t true).
Proof.
  intros r h' t' E. pose proof (rnd_pos_by_record_inited _ _ _ E) as Hn. rewrite (rnd_pos_by_record_calls _ _ Hn) in E; cbv zeta in E.
  destruct (_ =? 0) eqn:G; injection E as _ <- <-.
  - eexists. rewrite <- !app_assoc. split; [reflexivity|]. unfold engine_sees. rewrite Hn. cbn. unfold began. by rewrite G.
  - eapply one_call_accepted; [reflexivity|]. unfold engine_sees. rewrite Hn. cbn. unfold began. by rewrite G.
Qed.
Lemma op_is_accepted h t op : keyread_op_ok op -> op_accepted h t (run_op engine h t op).
Proof.
  destruct op; cbn [run_op keyread_op_ok]; intros Hk;
    auto using index_init_accepted, index_end_accepted, rnd_init_accepted, rnd_end_accepted, index_or_rnd_end_accepted, start_keyread_accepted, end_keyread_accepted,
      pre_index_init_accepted, pre_index_end_accepted, pre_rnd_init_accepted, pre_rnd_end_accepted, pre_index_or_rnd_end_accepted, rnd_pos_by_record_accepted.
Qed.

(** An operation passes its assertions exactly when the record of a client allows it, and the record then follows the state. *)
Lemma client_may_run h t op :
  keyread_op_ok op ->
  match run_op engine h t op with
  | Some (r, h', _) => client_may (engine_sees h) op = true /\ engine_sees h' = client_next (engine_sees h) (op, r)
  | None => client_may (engine_sees h) op = false
  end.
Proof.
  assert (K : forall idx, 0 <= idx < MAX_KEY -> keyread_enabled (with_keyread h idx) = true) by (intros; apply Z.ltb_lt; cbn; lia).
  destruct op; cbn [keyread_op_ok]; intros Hk.
  6: { unfold run_op, ha_start_keyread, call. destruct (keyread_enabled h); (split; [done|]); cbn; unfold engine_sees; by rewrite K. }
  6: { unfold run_op, ha_end_keyread, call. destruct (keyread_enabled h) eqn:G; cbn; (split; [done|]); unfold engine_sees; by rewrite ?G. }
  all: clear K; cbn [run_op]; unfold ha_index_or_rnd_end, ha_pre_index_or_rnd_end, rnd_pos_by_record, ha_index_init, ha_index_end, ha_rnd_init, ha_rnd_end,
      ha_pre_index_init, ha_pre_index_end, ha_pre_rnd_init, ha_pre_rnd_end, call;
    destruct h as [[] [] ai kr er]; cbn;
    repeat match goal with |- context [is_stat ?a ?b] => let x := eval vm_compute in (is_stat a b) in change (is_stat a b) with x end; cbn;
    try reflexivity; try (split; reflexivity).
  all: repeat match goal with |- context [asserting ?b] => is_var b; destruct b; cbn end; try reflexivity.
  all: unfold began; destruct (engine _ _ =? 0); cbn; split; reflexivity.
Qed.
Lemma run_client_kept client n : careful client -> forall h t hist,
  engine_accepts_all (NONE, NONE, false) t = Some (engine_sees h) -> client_view hist = engine_sees h ->
  exists h' t' hist', run_client engine client n h t hist = Some (h', t', hist') /\
    engine_accepts_all (NONE, NONE, false) t' = Some (engine_sees h') /\ client_view hist' = engine_sees h'.
Proof.
  intros Hc. induction n as [|n IH]; intros h t hist Ht Hh; cbn [run_client]; [by exists h, t, hist|].
  destruct (client hist) as [op|] eqn:E; [|by exists h, t, hist]. apply Hc in E as [Hm Hk]. rewrite Hh in Hm.
  pose proof (client_may_run h t op Hk) as R. destruct (run_op engine h t op) as [[[r h1] t1]|] eqn:E1; [|congruence].
  destruct R as [_ R]. destruct (op_is_accepted h t op Hk _ _ _ E1) as (ext & -> & A). cbn [mbind option_bind]. apply IH.
  - by rewrite accepts_app, Ht.
  - unfold client_view. rewrite foldl_app. cbn. unfold client_view in Hh. by rewrite Hh, R.
Qed.

(** ** The key in use *)

Lemma op_keeps_wf h t op r h' t' : keyread_op_ok op -> scan_wf h -> run_op engine h t op = Some (r, h', t') -> scan_wf h'.
Proof.
  intros Hk [Hb Hi] E. unfold MAX_KEY in *. destruct op; cbn [run_op keyread_op_ok] in *;
    unfold ha_index_or_rnd_end, ha_pre_index_or_rnd_end, ha_index_init, ha_index_end, ha_rnd_init, ha_rnd_end, ha_start_keyread, ha_end_keyread,
      ha_pre_index_init, ha_pre_index_end, ha_pre_rnd_init, ha_pre_rnd_end, call in E.
  13: { pose proof (rnd_pos_by_record_inited _ _ _ E) as Hn. rewrite (rnd_pos_by_record_calls _ _ Hn) in E; cbv zeta in E.
        destruct (_ =? 0); injection E as _ <- _; (split; cbn; [done|]); rewrite Hn in Hi; done. }
  all: scan_guards; split; cbn; unfold MAX_KEY in *; try done; try lia.
  1: split; intros _; [done|lia].
  all: split; [intros L|]; try done; apply Hi in L; rewrite L in *; done.
Qed.
End Accepted.
Lemma ops_keep_wf engine ops : Forall keyread_op_ok ops -> forall h t h' t', scan_wf h -> run_ops engine h t ops = Some (h', t') -> scan_wf h'.
Proof.
  induction 1 as [|op ops Hk Hks IH]; intros h t h' t' W E; cbn [run_ops] in E; [by injection E as <- <-|].
  destruct (run_op engine h t op) as [[[r h1] t1]|] eqn:E1; [|done]. eapply IH; [|exact E]. by eapply op_keeps_wf.
Qed.
Lemma new_scan_wf : scan_wf new_scan.
Proof. unfold scan_wf, MAX_KEY. cbn. split; [unfold MAX_KEY; lia|]. split; [unfold MAX_KEY; lia|done]. Qed.
Lemma dadd_zero (x : double) : x <> S754_zero true -> dadd x dzero = x.
Proof. by destruct x as [[]|[]| |]. Qed.

(** An engine whose calls all succeed, and one with no rows to scan, for the examples. *)
Definition works : trace -> engine_call -> Z := fun _ _ => 0.
Definition no_scan : trace -> engine_call -> Z := fun _ (k : engine_call) => match k with rnd_init _ => 137 | _ => 0 end.
Definition example_ops : list scan_op :=
  [OStartKeyread 2; OIndexInit 2 true; OStartKeyread 3; OEnd; OEndKeyread; OEndKeyread; ORndPosByRecord; ORndInit false; ORndInit true; OPreIndexInit 1 false; OEnd; OPreEnd].

Lemma example_ops_ok : Forall keyread_op_ok example_ops.
Proof. repeat (constructor; [cbn; unfold MAX_KEY; try done; lia|]). constructor. Qed.

(** C10.  A client that goes by what it was answered (it begins a scan when it has none, or begins its scan of all rows again, and ends the one it
    has) never fails an assertion, whatever the engine answers and in whatever order it scans by index or by position, prepares scans, reads
    rows and switches reading keys only.  The engine gets its calls in the order it is promised: nothing is begun twice but a
    scan of rows, a scan whose beginning failed is not ended, rows are asked for inside a scan of rows; [inited], [pre_inited] and
    [keyread] are what the engine has seen and what the client has recorded.  And an operation the record does not allow would have failed an assertion. *)
Theorem engine_protocol_kept engine client n : careful client ->
  exists h t hist, run_client engine client n new_scan [] [] = Some (h, t, hist) /\
    engine_accepts_all (NONE, NONE, false) t = Some (inited h, pre_inited h, keyread_enabled h) /\
    client_view hist = (inited h, pre_inited h, keyread_enabled h) /\
    (forall op, keyread_op_ok op -> client_may (client_view hist) op = false -> run_op engine h t op = None).
Proof.
  intros Hc. destruct (run_client_kept engine client n Hc new_scan [] []) as (h & t & hist & E & A & V); [done|done|].
  exists h, t, hist. split; [done|]. split; [done|]. split; [done|]. intros op Hk Hm. rewrite V in Hm.
  pose proof (client_may_run engine h t op Hk) as R. destruct (run_op engine h t op) as [[[r h1] t1]|]; [|done].
  destruct R as [R _]. congruence.
Qed.
(** A client that goes through a plan as long as its record allows it. *)
Definition planned (plan : list scan_op) (hist : history) : option scan_op :=
  op ← plan !! length hist; if client_may (client_view hist) op then Some op else None.
Lemma planned_careful plan : Forall keyread_op_ok plan -> careful (planned plan).
Proof.
  intros Hk hist op E. unfold planned in E. destruct (plan !! length hist) as [o|] eqn:L; [|done]. cbn [mbind option_bind] in E.
  destruct (client_may (client_view hist) o) eqn:M; [|done]. injection E as <-. split; [done|]. by apply (Forall_lookup_1 _ _ _ _ Hk L).
Qed.
Lemma engine_protocol_kept_witness :
  exists h t hist, run_client works (planned example_ops) 12 new_scan [] [] = Some (h, t, hist) /\ length t = 13%nat /\
    engine_accepts_all (NONE, NONE, false) t = Some (NONE, NONE, false) /\ run_op works h t OIndexEnd = None.
Proof.
  destruct (engine_protocol_kept works (planned example_ops) 12 (planned_careful _ example_ops_ok)) as (h & t & hist & E & A & V & R).
  assert (E' := E). vm_compute in E'. injection E' as <- <- <-. eexists _, _, _. split; [exact E|].
  split; [reflexivity|]. split; [exact A|]. exact (R OIndexEnd I eq_refl).
Defined.

(** The index in use is a key exactly while an index is scanned, so after any operations counting a row read stays in the counters, which have one
    more than the keys, and counts it for the key in use alone and for the table. *)
Theorem row_counted_in_bounds engine ops h t s : Forall keyread_op_ok ops -> run_ops engine new_scan [] ops = Some (h, t) -> length (index_rows_read s) = 65%nat ->
  exists s', update_index_statistics h s = Some s' /\ length (index_rows_read s') = 65%nat /\
    (forall i, (i < 65)%nat -> i <> (if is_stat (inited h) INDEX then Z.to_nat (active_index h) else 64%nat) -> index_rows_read s' !! i = index_rows_read s !! i) /\
    (if internal_tmp_table s then rows_read s' = rows_read s else rows_tmp_read s' = rows_tmp_read s).
Proof.
  intros Hk E Hl. destruct (ops_keep_wf engine ops Hk _ _ _ _ new_scan_wf E) as [Hb Hi].
  assert (Hw : Z.to_nat (active_index h) = if is_stat (inited h) INDEX then Z.to_nat (active_index h) else 64%nat).
  { destruct (is_stat (inited h) INDEX) eqn:G; [done|]. unfold MAX_KEY in *. destruct (decide (active_index h < 64)) as [L|L]; [|lia].
    apply Hi in L. rewrite L in G. done. }
  unfold update_index_statistics. destruct (lookup_lt_is_Some_2 (index_rows_read s) (Z.to_nat (active_index h))) as [n Hn]; [unfold MAX_KEY in *; lia|].
  rewrite Hn. cbn [mbind option_bind]. eexists. split; [reflexivity|]. rewrite <- Hw. unfold update_rows_read.
  destruct (internal_tmp_table s) eqn:T; cbn; rewrite length_insert; (split; [done|]); (split; [|done]); intros i Hi' Hne; by apply list_lookup_insert_ne.
Qed.
Lemma row_counted_in_bounds_witness :
  let s := reset_statistics (mkStats 5 5 5 [] false) in
  exists s', update_index_statistics (with_active_index (with_inited new_scan INDEX) 63) s = Some s' /\ length (index_rows_read s') = 65%nat.
Proof.
  intros s.
  destruct (row_counted_in_bounds works [OIndexInit 63 true] (with_active_index (with_inited new_scan INDEX) 63) [(index_init 63 true, 0)] s) as (s' & A & B & _);
    [repeat constructor; cbn; unfold MAX_KEY; lia|reflexivity|reflexivity|]. by exists s'.
Defined.

(** Reading a row by its position, whatever the engine answers, leaves no scan open and the rest as it was: it fails with the
    error of beginning the scan, and nothing else is called, or it answers what reading the row answers, the scan being ended after it. *)
Theorem rnd_pos_by_record_closes_scan engine h t : inited h = NONE ->
  exists result h' t', rnd_pos_by_record engine h t true = Some (result, h', t') /\ inited h' = NONE /\
    active_index h' = active_index h /\ keyread h' = keyread h /\ pre_inited h' = pre_inited h /\
    (if engine t (rnd_init false) =? 0 then exists a b, t' = t ++ [(rnd_init false, 0); (position, a); (rnd_pos, result); (rnd_end, b)]
     else t' = t ++ [(rnd_init false, result)]).
Proof.
  intros Hn. rewrite (rnd_pos_by_record_calls engine h t Hn). cbv zeta. destruct (engine t (rnd_init false) =? 0) eqn:G.
  - apply Z.eqb_eq in G. eexists _, _, _. split; [reflexivity|]. do 4 (split; [done|]). eexists _, _. rewrite <- !app_assoc, G. reflexivity.
  - eexists _, _, _. split; [reflexivity|]. do 4 (split; [done|]). reflexivity.
Qed.
Lemma rnd_pos_by_record_closes_scan_witness :
  exists h' t', rnd_pos_by_record no_scan new_scan [] true = Some (137, h', t') /\ inited h' = NONE /\ t' = [(rnd_init false, 137)].
Proof.
  destruct (rnd_pos_by_record_closes_scan no_scan new_scan [] eq_refl) as (r & h' & t' & A & B & _ & _ & _ & D).
  cbn in D. assert (r = 137) as -> by (vm_compute in A; by injection A as <-). by exists h', t'.
Defined.

(** A filter of row numbers that is disabled and enabled is the filter that was pushed, and it is active when it was; when it was not, it is
    active all the same if any filter of this table has been disabled while active before, a mark nothing takes away. *)
Theorem filter_disabled_and_enabled p : pushed_rowid_filter p <> 0 -> save_pushed_rowid_filter p = 0 ->
  exists d e, disable_pushed_rowid_filter p = Some d /\ enable_pushed_rowid_filter d = Some e /\
    pushed_rowid_filter d = 0 /\ rowid_filter_is_active d = false /\
    pushed_rowid_filter e = pushed_rowid_filter p /\ save_pushed_rowid_filter e = 0 /\
    rowid_filter_is_active e = rowid_filter_is_active p || save_rowid_filter_is_active p /\
    save_rowid_filter_is_active e = rowid_filter_is_active p || save_rowid_filter_is_active p /\
    save_rowid_filter_is_active (cancel_pushed_rowid_filter (cancel_pushed_idx_cond e)) = save_rowid_filter_is_active e.
Proof.
  intros Hf Hs. apply Z.eqb_neq in Hf. unfold disable_pushed_rowid_filter. rewrite Hf, Hs. cbn. eexists _, _. split; [reflexivity|].
  unfold enable_pushed_rowid_filter. cbn. rewrite Hf. cbn. split; [reflexivity|]. destruct p as [c k r f [] sv []]; cbn; auto 10.
Qed.
Lemma filter_disabled_and_enabled_witness :
  exists d e, disable_pushed_rowid_filter (with_filter new_pushed 7 false 0 true) = Some d /\ enable_pushed_rowid_filter d = Some e /\ rowid_filter_is_active e = true.
Proof.
  destruct (filter_disabled_and_enabled (with_filter new_pushed 7 false 0 true)) as (d & e & A & B & _ & _ & _ & _ & C & _); [done|reflexivity|].
  exists d, e. by rewrite C.
Defined.

(** Every error is fatal but duplicates when they are checked for, violations of foreign keys when those are, and running out of generated
    numbers; the other bits of the flags change nothing. *)
Theorem fatal_errors_spec error flags :
  is_fatal_error error flags = false <->
  error = 0 \/ error = HA_ERR_AUTOINC_ERANGE \/ (Z.testbit flags 0 = true /\ (error = HA_ERR_FOUND_DUPP_KEY \/ error = HA_ERR_FOUND_DUPP_UNIQUE)) \/
  (Z.testbit flags 2 = true /\ (error = HA_ERR_ROW_IS_REFERENCED \/ error = HA_ERR_NO_REFERENCED_ROW)).
Proof.
  assert (B : forall k, 0 <= k -> c_true (flags .& 2 ^ k) = Z.testbit flags k).
  { intros k Hk. unfold c_true. destruct (Z.testbit flags k) eqn:G.
    - apply negb_true_iff, Z.eqb_neq. intros E. apply (f_equal (fun z => Z.testbit z k)) in E. rewrite Z.land_spec, Z.pow2_bits_true, G, Z.bits_0 in E by lia. done.
    - apply negb_false_iff, Z.eqb_eq. apply Z.bits_inj_0. intros i. rewrite Z.land_spec. destruct (decide (i = k)) as [->|Hne]; [by rewrite G|].
      rewrite Z.pow2_bits_false by lia. apply andb_false_r. }
  unfold is_fatal_error. change HA_CHECK_DUP_KEY with (2 ^ 0). change HA_CHECK_FK_ERROR with (2 ^ 2). rewrite !B by lia.
  split.
  - intros E. destruct (_ || _) eqn:G in E; [|done]. rewrite !orb_true_iff, !andb_true_iff, !orb_true_iff, !Z.eqb_eq in G. tauto.
  - intros E. assert (G : (error =? 0) || Z.testbit flags 0 && ((error =? HA_ERR_FOUND_DUPP_KEY) || (error =? HA_ERR_FOUND_DUPP_UNIQUE)) || (error =? HA_ERR_AUTOINC_ERANGE)
      || Z.testbit flags 2 && ((error =? HA_ERR_ROW_IS_REFERENCED) || (error =? HA_ERR_NO_REFERENCED_ROW)) = true); [|by rewrite G].
    rewrite !orb_true_iff, !andb_true_iff, !orb_true_iff, !Z.eqb_eq. tauto.
Qed.
Example fatal_error_flags : is_fatal_error HA_ERR_FOUND_DUPP_KEY 7 = false /\ is_fatal_error HA_ERR_FOUND_DUPP_KEY 6 = true.
Proof. split; reflexivity. Qed.

(** Adding an estimate with nothing in it, or no reads, changes nothing and divides nothing by zero; a converted cost is all in the
    reads. An estimate whose only cost is that of using an index counts as having none. *)
Theorem empty_costs_add_nothing c (a x : double) :
  Forall (fun d => d <> S754_zero true) [cpu_cost c; idx_cpu_cost c; import_cost c] ->
  cost_add c cost_reset = c /\ add_io c dzero a = c /\
  convert_from_cost x = mkCost x done_ dzero done_ dzero dzero dzero dzero /\ is_zero cost_reset = true /\ deq (total_cost cost_reset) dzero = true /\
  exists e, is_zero e = true /\ total_cost e = done_ /\ index_only_cost e = done_.
Proof.
  intros H. repeat match goal with F : Forall _ (_ :: _) |- _ => apply Forall_cons in F as [? F] end.
  split; [unfold cost_add; cbn; rewrite !dadd_zero by done; by destruct c|]. split; [done|]. split; [done|]. split; [done|]. split; [reflexivity|].
  exists (mkCost dzero done_ dzero done_ dzero done_ dzero dzero). split; [reflexivity|]. split; reflexivity.
Qed.
Lemma empty_costs_add_nothing_witness : cost_add (convert_from_cost done_) cost_reset = convert_from_cost done_.
Proof. apply (empty_costs_add_nothing (convert_from_cost done_) done_ done_). repeat constructor; discriminate. Defined.
