(* ===== verification/SqlLooseScan.v ===== *)
(** Choosing a loose scan: [Loose_scan_opt] of [private/opt_subselect.h], with which the optimizer asks, index by index, whether a table inside
    [(oe1, .., oeN) IN (SELECT ie1, .., ieN)] can be read so that the rows of one group of duplicates come together, and keeps
    the cheapest way.

    Masks of tables, of equalities and of key parts are 64-bit integers; costs are doubles, so "cheaper" is the comparison of the
    code, with its numbers that are not numbers.  What the table and its indexes are is a parameter. *)

From Stdlib Require Import Floats.SpecFloat.
From S2P Require Import Prelude CDouble.

Definition UINT_MAX : Z := 2 ^ 32 - 1.
Definition HA_READ_ORDER : Z := 4.
Definition OPTIMIZER_SWITCH_LOOSE_SCAN : Z := 1 .<< 10.
Definition DBL_MAX : double := S754_finite false 9007199254740991 971.
(** [PREV_BITS(type,A)] at a 64-bit type; the shift is undefined from 64 on. *)
Definition PREV_BITS (A : Z) : Z := u64 ((1 .<< A) - 1).
Definition optimizer_flag (optimizer_switch flag : Z) : bool := c_true (optimizer_switch .& flag).

Record KEYUSE := mkKeyuse { used_tables : Z; ku_key : Z; keypart : Z; sj_pred_no : Z }.
(** What [init] looks at: the nest of the semi-join of the table, and what is known of the join so far. *)
Record sj_nest := mkNest { sj_in_exprs : Z; sj_inner_tables : Z; sj_corr_tables : Z; sj_depends_on : Z }.
Record join_state := mkJoin { emb_sjm_nest : bool; emb_sj_nest : option sj_nest; cur_sj_inner_tables : Z; remaining_tables : Z; optimizer_switch : Z; const_tables : Z }.
Record quick_select := mkQuick { q_index : Z; q_range : bool; q_read_time : double; q_records : Z }.
Record Loose_scan_opt := mkLoose {
  try_loosescan : bool; bound_sj_equalities : Z;
  handled_sj_equalities : Z; loose_scan_keyparts : Z; max_loose_keypart : Z; part1_conds_met : bool;
  quick_uses_applicable_index : bool; quick_max_loose_keypart : Z;
  best_loose_scan_key : Z; best_loose_scan_cost : double; best_loose_scan_records : double; best_loose_scan_start_key : Z;
  best_max_loose_keypart : Z; best_ref_depend_map : Z }.
Implicit Types (o : Loose_scan_opt) (k : KEYUSE) (j : join_state).

Section Table.
(** The table: flags of its indexes, which of them have prefixes of columns only, which cover the query, the rows and the rows for each value of
    a prefix of a key; the cost of reading a key, and the equalities that are bound when the nest is entered ([get_bound_sj_equalities]). *)
Context (index_flags : Z -> Z) (key_uses_partial_cols covering_keys : Z -> bool) (stats_records : Z) (rec_per_key : Z -> Z -> Z)
  (keyread_time : Z -> Z -> Z -> double) (get_bound_sj_equalities : sj_nest -> Z -> Z) (quick : option quick_select).

(** The members the constructor leaves out are arguments. *)
Definition new_loose (handled parts max : Z) (met : bool) : Loose_scan_opt :=
  mkLoose false 0 handled parts max met false 0 0 dzero dzero 0 0 0.
Definition with_cost o (c : double) : Loose_scan_opt :=
  mkLoose (try_loosescan o) (bound_sj_equalities o) (handled_sj_equalities o) (loose_scan_keyparts o) (max_loose_keypart o) (part1_conds_met o) (quick_uses_applicable_index o)
    (quick_max_loose_keypart o) (best_loose_scan_key o) c (best_loose_scan_records o) (best_loose_scan_start_key o) (best_max_loose_keypart o) (best_ref_depend_map o).
Definition with_masks o (try : bool) (bound handled parts max : Z) (met : bool) : Loose_scan_opt :=
  mkLoose try bound handled parts max met (quick_uses_applicable_index o)
    (quick_max_loose_keypart o) (best_loose_scan_key o) (best_loose_scan_cost o) (best_loose_scan_records o) (best_loose_scan_start_key o) (best_max_loose_keypart o) (best_ref_depend_map o).
Definition with_met o (met : bool) : Loose_scan_opt :=
  with_masks o (try_loosescan o) (bound_sj_equalities o) (handled_sj_equalities o) (loose_scan_keyparts o) (max_loose_keypart o) met.
Definition with_quick o (applicable : bool) (max : Z) : Loose_scan_opt :=
  mkLoose (try_loosescan o) (bound_sj_equalities o) (handled_sj_equalities o) (loose_scan_keyparts o) (max_loose_keypart o) (part1_conds_met o) applicable max
    (best_loose_scan_key o) (best_loose_scan_cost o) (best_loose_scan_records o) (best_loose_scan_start_key o) (best_max_loose_keypart o) (best_ref_depend_map o).
Definition with_best o (key : Z) (cost records : double) (start_key max depend : Z) : Loose_scan_opt :=
  mkLoose (try_loosescan o) (bound_sj_equalities o) (handled_sj_equalities o) (loose_scan_keyparts o) (max_loose_keypart o) (part1_conds_met o) (quick_uses_applicable_index o)
    (quick_max_loose_keypart o) key cost records start_key max depend.

Definition is_candidate j (s : sj_nest) : bool :=
  (sj_in_exprs s <? 64) && (remaining_tables j .& sj_inner_tables s =? sj_inner_tables s) && (cur_sj_inner_tables j =? 0) &&
  negb (c_true (remaining_tables j .& sj_corr_tables s)) && c_true (remaining_tables j .& sj_depends_on s) && optimizer_flag (optimizer_switch j) OPTIMIZER_SWITCH_LOOSE_SCAN.
Definition init o j : Loose_scan_opt :=
  let o := with_cost o DBL_MAX in
  match emb_sj_nest j with
  | Some s =>
      if negb (emb_sjm_nest j) && is_candidate j s
      then with_masks o true (get_bound_sj_equalities s (remaining_tables j)) (handled_sj_equalities o) (loose_scan_keyparts o) (max_loose_keypart o) (part1_conds_met o)
      else o
  | None => o
  end.

Definition next_ref_key o : Loose_scan_opt := with_masks o (try_loosescan o) (bound_sj_equalities o) 0 0 0 false.

Definition keyuse_counts o k : bool :=
  try_loosescan o && negb (sj_pred_no k =? UINT_MAX) && c_true (index_flags (ku_key k) .& HA_READ_ORDER).
Definition add_keyuse o (remaining : Z) k : Loose_scan_opt :=
  if keyuse_counts o k then
    if negb (c_true (remaining .& used_tables k))
    then with_masks o (try_loosescan o) (bound_sj_equalities o .| (1 .<< sj_pred_no k)) (handled_sj_equalities o) (loose_scan_keyparts o) (max_loose_keypart o) (part1_conds_met o)
    else with_masks o (try_loosescan o) (bound_sj_equalities o) (handled_sj_equalities o .| (1 .<< sj_pred_no k)) (loose_scan_keyparts o .| (1 .<< keypart k))
           (if max_loose_keypart o <? keypart k then keypart k else max_loose_keypart o) (part1_conds_met o)
  else o.
Definition have_a_case o : bool := c_true (handled_sj_equalities o).

(** The first condition of [check_ref_access_part1]. *)
Definition loose_scan_possible o (in_exprs key found_part : Z) : bool :=
  try_loosescan o && (handled_sj_equalities o .| bound_sj_equalities o =? PREV_BITS in_exprs) &&
  (PREV_BITS (max_loose_keypart o + 1) .& (found_part .| loose_scan_keyparts o) =? PREV_BITS (max_loose_keypart o + 1)) &&
  negb (key_uses_partial_cols key).
Definition check_ref_access_part1 o (in_exprs key start_key found_part : Z) : option Loose_scan_opt :=
  if loose_scan_possible o in_exprs key found_part then
    let o := match quick with
             | Some q => if (q_index q =? key) && q_range q then with_quick o true (max_loose_keypart o) else o
             | None => o
             end in
    let o := if c_true (found_part .& 1) then with_met o true else o in
    if negb (c_true (found_part .& 1)) && covering_keys key then
      let o := with_met o true in
      let records := Zdouble stats_records in
      rows ← uint_of_double 64 records;
      let read_time := keyread_time key 1 rows in
      let rpc := rec_per_key key (max_loose_keypart o) in
      let records := if c_true rpc then ddiv records (Zdouble rpc) else records in
      Some (if dlt read_time (best_loose_scan_cost o) then with_best o key read_time records start_key (max_loose_keypart o) 0 else o)
    else Some o
  else Some o.
Definition check_ref_access_part2 o (key start_key : Z) (records read_time : double) (ref_depend_map : Z) : Loose_scan_opt :=
  if part1_conds_met o && dlt read_time (best_loose_scan_cost o) then with_best o key read_time records start_key (max_loose_keypart o) ref_depend_map else o.
Definition check_range_access o j (idx : Z) (q : quick_select) : Loose_scan_opt :=
  if quick_uses_applicable_index o && (idx =? const_tables j) && dlt (q_read_time q) (best_loose_scan_cost o)
  then with_best o (q_index q) (q_read_time q) (Zdouble (q_records q)) 0 (quick_max_loose_keypart o) 0 else o.

(** What is written of a position of the join order. *)
Record plan := mkPlan { read_time : double; records_read : double; p_key : Z; cond_selectivity : double; loosescan_key : Z; loosescan_parts : Z; use_join_buffer : bool; p_table : Z;
  range_rowid_filter_info : Z; ref_depend_map : Z }.
(** [tab] is a table and its filter of row numbers. *)
Definition save_to_position o (tab : Z * Z) (pos : plan) : plan :=
  if negb (deq (best_loose_scan_cost o) DBL_MAX)
  then mkPlan (best_loose_scan_cost o) (best_loose_scan_records o) (best_loose_scan_start_key o) done_ (best_loose_scan_key o) (u32 (best_max_loose_keypart o + 1)) false (fst tab) (snd tab) (best_ref_depend_map o)
  else mkPlan (best_loose_scan_cost o) (records_read pos) (p_key pos) (cond_selectivity pos) (loosescan_key pos) (loosescan_parts pos) (use_join_buffer pos) (p_table pos) (range_rowid_filter_info pos) (ref_depend_map pos).

(** ** The search of [best_access_path], as the comment of the class gives it *)

Inductive loose_call :=
| CNextRef | CKeyuse (k : KEYUSE) | CPart1 (key start_key found_part : Z)
| CPart2 (key start_key : Z) (records read_time : double) (depend : Z) | CRange (idx : Z) (q : quick_select).
Definition loose_step j (in_exprs : Z) o (c : loose_call) : option Loose_scan_opt :=
  match c with
  | CNextRef => Some (next_ref_key o)
  | CKeyuse k => Some (add_keyuse o (remaining_tables j) k)
  | CPart1 key start_key found_part => check_ref_access_part1 o in_exprs key start_key found_part
  | CPart2 key start_key records time depend => Some (check_ref_access_part2 o key start_key records time depend)
  | CRange idx q => Some (check_range_access o j idx q)
  end.
Fixpoint loose_run j (in_exprs : Z) o (cs : list loose_call) : option Loose_scan_opt :=
  match cs with [] => Some o | c :: cs => o ← loose_step j in_exprs o c; loose_run j in_exprs o cs end.
End Table.

(** * The masks *)

Lemma bit_set a n i : 0 <= n -> 0 <= i -> Z.testbit (a .| (1 .<< n)) i = Z.testbit a i || (i =? n).
Proof. intros Hn Hi. rewrite Z.lor_spec, Z.shiftl_1_l, pow2_testbit by done. done. Qed.
Lemma PREV_BITS_testbit n i : 0 <= n <= 64 -> 0 <= i -> Z.testbit (PREV_BITS n) i = (i <? n).
Proof.
  intros Hn Hi. unfold PREV_BITS. replace ((1 .<< n) - 1) with (Z.ones n) by (rewrite Z.ones_equiv, Z.shiftl_1_l; lia). rewrite uwrap_testbit, Z.testbit_ones by lia.
  destruct (Z.ltb_spec i 64), (Z.leb_spec 0 i), (Z.ltb_spec i n); cbn; try done; lia.
Qed.
Lemma mask_covers m n : 0 <= n <= 64 -> (PREV_BITS n .& m =? PREV_BITS n) = true <-> forall p, 0 <= p < n -> Z.testbit m p = true.
Proof.
  intros Hn. rewrite Z.eqb_eq. split.
  - intros E p Hp. apply (f_equal (fun z => Z.testbit z p)) in E. rewrite Z.land_spec, !PREV_BITS_testbit in E by lia.
    rewrite (proj2 (Z.ltb_lt _ _)) in E by lia. exact E.
  - intros H. apply Z.bits_inj'. intros p Hp. rewrite Z.land_spec, PREV_BITS_testbit by lia. destruct (Z.ltb_spec p n); [by rewrite H by lia|done].
Qed.
Lemma mask_is m n : 0 <= n <= 64 -> (m =? PREV_BITS n) = true <-> forall p, 0 <= p -> Z.testbit m p = (p <? n).
Proof.
  intros Hn. rewrite Z.eqb_eq. split; [intros -> p Hp; by apply PREV_BITS_testbit|].
  intros H. apply Z.bits_inj'. intros p Hp. by rewrite H, PREV_BITS_testbit.
Qed.

(** The key uses that count, those of equalities with tables already read and those the index can handle. *)
Definition keyuse_wf k : Prop := (0 <= sj_pred_no k < 64 \/ sj_pred_no k = UINT_MAX) /\ 0 <= keypart k < 32.
Definition is_bound (remaining : Z) k : bool := negb (c_true (remaining .& used_tables k)).

Section Masks.
Context (index_flags : Z -> Z) (remaining : Z).
Abbreviation add := (fun o k => add_keyuse index_flags o remaining k).
Definition counted k : Prop := sj_pred_no k <> UINT_MAX /\ c_true (index_flags (ku_key k) .& HA_READ_ORDER) = true.

Lemma keyuse_counts_spec o k : try_loosescan o = true -> keyuse_counts index_flags o k = true <-> counted k.
Proof. intros T. unfold keyuse_counts. rewrite T. cbn. rewrite andb_true_iff, negb_true_iff, Z.eqb_neq. done. Qed.
Lemma add_keyuse_try o k : try_loosescan (add o k) = try_loosescan o.
Proof. unfold add_keyuse. destruct (keyuse_counts _ _ _); [|done]. by destruct (negb _). Qed.
(** What the masks say of the key uses added since the index was begun, [bound0] being what was known before. *)
Record masks_say (bound0 : Z) (ks : list KEYUSE) o : Prop := {
  say_bound : forall i, 0 <= i -> Z.testbit (bound_sj_equalities o) i = true <-> Z.testbit bound0 i = true \/ exists k, k ∈ ks /\ counted k /\ is_bound remaining k = true /\ sj_pred_no k = i;
  say_handled : forall i, 0 <= i -> Z.testbit (handled_sj_equalities o) i = true <-> exists k, k ∈ ks /\ counted k /\ is_bound remaining k = false /\ sj_pred_no k = i;
  say_parts : forall p, 0 <= p -> Z.testbit (loose_scan_keyparts o) p = true <-> exists k, k ∈ ks /\ counted k /\ is_bound remaining k = false /\ keypart k = p;
  say_max : 0 <= max_loose_keypart o < 32 /\ forall k, k ∈ ks -> counted k -> is_bound remaining k = false -> keypart k <= max_loose_keypart o;
  say_max_in : max_loose_keypart o = 0 \/ exists k, k ∈ ks /\ counted k /\ is_bound remaining k = false /\ keypart k = max_loose_keypart o }.

Lemma begun_masks o : masks_say (bound_sj_equalities o) [] (next_ref_key o).
Proof.
  assert (N : forall P : KEYUSE -> Prop, (exists k, k ∈ [] /\ P k) <-> False) by (intros P; split; [intros (k & Hk & _); by apply not_elem_of_nil in Hk|done]).
  split; cbn; [intros i Hi; rewrite N; tauto| | |split; [lia|]|by left]; try (intros i Hi; rewrite N, Z.bits_0; by split).
  intros k Hk. by apply not_elem_of_nil in Hk.
Qed.
Lemma exists_snoc (P : KEYUSE -> Prop) ks k : (exists x, x ∈ ks ++ [k] /\ P x) <-> (exists x, x ∈ ks /\ P x) \/ P k.
Proof. setoid_rewrite elem_of_app. setoid_rewrite list_elem_of_singleton. naive_solver. Qed.
Lemma split_key k b : counted k -> is_bound remaining k = b ->
  (forall (f : KEYUSE -> Z) i, (counted k /\ is_bound remaining k = b /\ f k = i) <-> i = f k) /\ (forall P : Prop, (counted k /\ is_bound remaining k = negb b /\ P) <-> False).
Proof.
  intros Hc Hb. split; [intros f i; split; [intros (_ & _ & ?)|intros ->]; auto|]. intros P. split; [|done]. intros (_ & E & _). rewrite Hb in E. by destruct b.
Qed.
Lemma add_masks bound0 ks o k : try_loosescan o = true -> keyuse_wf k -> masks_say bound0 ks o -> masks_say bound0 (ks ++ [k]) (add o k).
Proof.
  intros T [Hn Hp] [A B C [Dr D] E]. assert (Hk := keyuse_counts_spec o k T). unfold add_keyuse.
  destruct (keyuse_counts index_flags o k) eqn:G.
  - assert (Hc : counted k) by (by apply Hk). assert (Hn' : 0 <= sj_pred_no k < 64) by (destruct Hn, Hc; done).
    fold (is_bound remaining k). destruct (is_bound remaining k) eqn:Gb; destruct (split_key k _ Hc Gb) as [Same Other]; cbn [negb] in Other.
    + split; cbn; try intros i Hi; rewrite ?exists_snoc, ?Same, ?Other by done.
      * rewrite bit_set, orb_true_iff, A, Z.eqb_eq by lia. tauto.
      * rewrite B by done. tauto.
      * rewrite C by done. tauto.
      * split; [done|]. intros x [Hx| ->%list_elem_of_singleton]%elem_of_app; [by apply D|congruence].
      * tauto.
    + split; cbn; try intros i Hi; rewrite ?exists_snoc, ?Same, ?Other by done.
      * rewrite A by done. tauto.
      * rewrite bit_set, orb_true_iff, B, Z.eqb_eq by lia. tauto.
      * rewrite bit_set, orb_true_iff, C, Z.eqb_eq by lia. tauto.
      * destruct (Z.ltb_spec (max_loose_keypart o) (keypart k)); (split; [lia|]); intros x [Hx| ->%list_elem_of_singleton]%elem_of_app Hcx Hb; try lia;
          specialize (D x Hx Hcx Hb); lia.
      * destruct (Z.ltb_spec (max_loose_keypart o) (keypart k)); tauto.
  - assert (Hc : ~ counted k) by (rewrite <- Hk; done).
    assert (Not : forall P : Prop, (counted k /\ P) <-> False) by tauto.
    split; try intros i Hi; rewrite ?exists_snoc, ?Not; [rewrite A by done; tauto|rewrite B by done; tauto|rewrite C by done; tauto|split; [done|]|tauto].
    intros x [Hx| ->%list_elem_of_singleton]%elem_of_app; [by apply D|done].
Qed.
Lemma foldl_masks bound0 ks : Forall keyuse_wf ks -> forall ks0 o, try_loosescan o = true -> masks_say bound0 ks0 o ->
  masks_say bound0 (ks0 ++ ks) (foldl add o ks) /\ try_loosescan (foldl add o ks) = true.
Proof.
  induction 1 as [|k ks Hk Hks IH]; intros ks0 o T M; cbn [foldl]; [by rewrite app_nil_r|].
  replace (ks0 ++ k :: ks) with ((ks0 ++ [k]) ++ ks) by (by rewrite <- app_assoc). apply IH; [by rewrite add_keyuse_try|]. by apply add_masks.
Qed.
Lemma index_masks o ks : try_loosescan o = true -> Forall keyuse_wf ks ->
  masks_say (bound_sj_equalities o) ks (foldl add (next_ref_key o) ks) /\ try_loosescan (foldl add (next_ref_key o) ks) = true.
Proof. intros T Hk. apply (foldl_masks _ ks Hk [] (next_ref_key o)); [done|apply begun_masks]. Qed.
End Masks.

(** * Groups of duplicates

    A row of an index gives each key part its value, as a number that is ordered as the values are. *)

Implicit Types (r : Z -> Z).
Definition agree (P : Z -> Prop) r (r' : Z -> Z) : Prop := forall p, P p -> r p = r' p.
Definition prefix_le (n : Z) r (r' : Z -> Z) : Prop :=
  agree (fun p => 0 <= p < n) r r' \/ exists q, 0 <= q < n /\ agree (fun p => 0 <= p < q) r r' /\ r q < r' q.
Definition in_index_order (n : Z) (rows : list (Z -> Z)) : Prop := StronglySorted (prefix_le n) rows.

Lemma prefix_le_between n r (r1 r2 : Z -> Z) : prefix_le n r r1 -> prefix_le n r1 r2 -> agree (fun p => 0 <= p < n) r r2 -> agree (fun p => 0 <= p < n) r r1.
Proof.
  unfold prefix_le, agree. intros [H|(q & Hq & Hp & Hlt)] H1 H2; [done|]. exfalso.
  destruct H1 as [H1|(q' & Hq' & Hp' & Hlt')].
  - specialize (H1 q Hq). specialize (H2 q Hq). lia.
  - destruct (Z.lt_trichotomy q q') as [L|[->|L]].
    + specialize (Hp' q ltac:(lia)). specialize (H2 q Hq). cbn in *. lia.
    + specialize (H2 q' Hq). lia.
    + specialize (Hp q' ltac:(lia)). specialize (H2 q' Hq'). cbn in *. lia.
Qed.
(** Rows that agree on a prefix of the index are together. *)
Lemma prefix_groups n (a b c : list (Z -> Z)) r (r' : Z -> Z) : in_index_order n (a ++ r :: b ++ r' :: c) -> agree (fun p => 0 <= p < n) r r' ->
  forall x, x ∈ b -> agree (fun p => 0 <= p < n) r x.
Proof.
  unfold in_index_order. intros S E x Hx. induction a as [|y a IH]; cbn [app] in S; apply StronglySorted_inv in S as [S F]; [|by apply IH].
  apply prefix_le_between with r'; [| |done].
  - rewrite Forall_forall in F. apply F. rewrite elem_of_app. by left.
  - clear F. induction b as [|y b IH]; [by apply not_elem_of_nil in Hx|]. cbn [app] in S. apply StronglySorted_inv in S as [S F].
    apply elem_of_cons in Hx as [->|Hx]; [|by apply IH].
    rewrite Forall_forall in F. apply F. rewrite elem_of_app, elem_of_cons. auto.
Qed.

(** C17.  When the checks of an index succeed, after the uses of its keys have been added, a loose scan of it is sound: each of the
    equalities of the IN is with tables already read or is one the index has a key part for, and in the order of the index
    the rows which agree on the key parts of the latter are together, whatever the other columns are, provided that the
    rows read all have the same values in the key parts found by constants and tables already read. *)
Theorem loose_scan_groups_duplicates index_flags partial o remaining ks in_exprs key found (a b c : list (Z -> Z)) r (r' : Z -> Z) :
  try_loosescan o = true -> Forall keyuse_wf ks -> 0 <= in_exprs < 64 ->
  let o' := foldl (fun o k => add_keyuse index_flags o remaining k) (next_ref_key o) ks in
  let part_used p := exists k, k ∈ ks /\ counted index_flags k /\ is_bound remaining k = false /\ keypart k = p in
  loose_scan_possible partial o' in_exprs key found = true ->
  in_index_order (max_loose_keypart o' + 1) (a ++ r :: b ++ r' :: c) ->
  (forall x, x ∈ (b ++ [r']) -> agree (fun p => Z.testbit found p = true) r x) ->
  (forall i, 0 <= i < in_exprs -> Z.testbit (bound_sj_equalities o) i = true \/ exists k, k ∈ ks /\ counted index_flags k /\ sj_pred_no k = i) /\
  (agree part_used r r' -> forall x, x ∈ b -> agree part_used r x).
Proof.
  intros T Hk Hn o' part_used G S Hf. destruct (index_masks index_flags remaining o ks T Hk) as [[A B C [Dr D] E] T']. fold o' in A, B, C, D, Dr, E, T'.
  unfold loose_scan_possible in G. rewrite !andb_true_iff in G. destruct G as [[[_ G1] G2] _].
  pose proof (proj1 (mask_covers _ (max_loose_keypart o' + 1) ltac:(lia)) G2) as G3. split.
  - intros i Hi. pose proof (proj1 (mask_is _ in_exprs ltac:(lia)) G1 i ltac:(lia)) as Gi. rewrite Z.lor_spec, (proj2 (Z.ltb_lt _ _)) in Gi by lia.
    apply orb_true_iff in Gi as [Gi|Gi]; [apply B in Gi as (k & ? & ? & _ & ?); [|lia]; right; by exists k|].
    apply A in Gi as [?|(k & ? & ? & _ & ?)]; [by left| |lia]. right. by exists k.
  - intros Hag x Hx p (k & Hin & Hc & Hb & <-).
    assert (Hp : 0 <= keypart k < max_loose_keypart o' + 1).
    { specialize (D k Hin Hc Hb). rewrite Forall_forall in Hk. destruct (Hk k Hin) as [_ ?]. lia. }
    apply (prefix_groups _ a b c r r' S); [|done|done]. intros q Hq. specialize (G3 q Hq). rewrite Z.lor_spec in G3. apply orb_true_iff in G3 as [G3|G3].
    + apply Hf; [|done]. rewrite elem_of_app, list_elem_of_singleton. by right.
    + apply Hag. apply C in G3; [done|lia].
Qed.

Definition example_row (x y : Z) : Z -> Z := fun p => if p =? 0 then x else y.
Lemma loose_scan_groups_duplicates_witness : example_row 1 5 0 = example_row 1 6 0 /\ example_row 1 5 1 <> example_row 1 6 1.
Proof.
  split; [|discriminate].
  refine (proj2 (loose_scan_groups_duplicates (fun _ => 4) (fun _ => false) (mkLoose true 0 0 0 0 false false 0 0 DBL_MAX dzero 0 0 0) 1 [mkKeyuse 1 0 0 0] 1 0 0
    [] [example_row 1 6] [] (example_row 1 5) (example_row 1 4) eq_refl _ _ _ _ _) _ (example_row 1 6) _ 0 _).
  - constructor; [split; [left|]; cbn; lia|constructor].
  - lia.
  - reflexivity.
  - assert (L : forall x y, prefix_le 1 (example_row 1 x) (example_row 1 y)).
    { intros x y. left. intros p Hp. cbn in Hp. unfold example_row. by rewrite (proj2 (Z.eqb_eq _ _)) by lia. }
    unfold in_index_order. cbn [app]. change (max_loose_keypart _ + 1) with 1.
    apply SSorted_cons; [apply SSorted_cons; [apply SSorted_cons; [apply SSorted_nil|by apply Forall_nil]|]|]; repeat (apply Forall_cons; split; [apply L|]); by apply Forall_nil.
  - intros x Hx p Hp. by rewrite Z.testbit_0_l in Hp.
  - intros p (k & ->%list_elem_of_singleton & _ & _ & <-). reflexivity.
  - by left.
  - eexists. split; [by left|]. repeat split; done.
Defined.

(** * The cheapest way *)

Record way := mkWay { w_key : Z; w_cost : double; w_records : double; w_start : Z; w_max : Z; w_depend : Z }.
Definition best_of o : way := mkWay (best_loose_scan_key o) (best_loose_scan_cost o) (best_loose_scan_records o) (best_loose_scan_start_key o) (best_max_loose_keypart o) (best_ref_depend_map o).
Definition cheaper (w best : way) : way := if dlt (w_cost w) (w_cost best) then w else best.
Definition offered (ws : list way) (best : way) : way := foldl (fun best w => cheaper w best) best ws.

Lemma offered_spec ws best : (offered ws best = best \/ (offered ws best ∈ ws /\ dlt (w_cost (offered ws best)) (w_cost best) = true)) /\
  (forall w, w ∈ ws \/ w = best -> dlt (w_cost w) (w_cost (offered ws best)) = false).
Proof.
  revert best. induction ws as [|w ws IH]; intros best; cbn [offered foldl].
  - split; [by left|]. intros w [Hw| ->]; [by apply not_elem_of_nil in Hw|apply dlt_irrefl].
  - fold (offered ws (cheaper w best)). destruct (IH (cheaper w best)) as [E M]. pose proof (M _ (or_intror eq_refl)) as Mc.
    unfold cheaper in *. destruct (dlt (w_cost w) (w_cost best)) eqn:L.
    + split.
      * right. destruct E as [-> |[Hin Hl]]; [split; [by left|done]|]. split; [by right|]. by eapply dlt_trans.
      * intros v [[-> |Hv]%elem_of_cons| ->]; [done|apply M; by left|]. apply not_true_is_false. intros Lb.
        pose proof (dlt_trans _ _ _ L Lb). congruence.
    + split; [destruct E as [?|[? ?]]; [by left|right; split; [by right|done]]|].
      intros v [[-> |Hv]%elem_of_cons| ->]; [|apply M; by left|done]. apply not_true_is_false. intros Lb.
      destruct E as [E|[_ Hl]]; [by rewrite E, L in Lb|]. pose proof (dlt_trans _ _ _ Lb Hl). congruence.
Qed.

Section Cheapest.
Context (index_flags : Z -> Z) (key_uses_partial_cols covering_keys : Z -> bool) (stats_records : Z) (rec_per_key : Z -> Z -> Z)
  (keyread_time : Z -> Z -> Z -> double) (get_bound_sj_equalities : sj_nest -> Z -> Z) (quick : option quick_select).
Abbreviation part1 := (check_ref_access_part1 key_uses_partial_cols covering_keys stats_records rec_per_key keyread_time quick).
Abbreviation step := (loose_step index_flags key_uses_partial_cols covering_keys stats_records rec_per_key keyread_time quick).
Abbreviation run := (loose_run index_flags key_uses_partial_cols covering_keys stats_records rec_per_key keyread_time quick).
Abbreviation possible := (loose_scan_possible key_uses_partial_cols).

(** The way a call proposes: reading the whole of a covering index, a ref access of an index that was found possible, or the range scan that was chosen
    for an index that was. *)
Definition index_scan_way o (key start_key : Z) : way :=
  let records := Zdouble stats_records in let rpc := rec_per_key key (max_loose_keypart o) in
  mkWay key (keyread_time key 1 stats_records) (if c_true rpc then ddiv records (Zdouble rpc) else records) start_key (max_loose_keypart o) 0.
Definition proposes j (in_exprs : Z) o (c : loose_call) : list way :=
  match c with
  | CPart1 key start_key found => if possible o in_exprs key found && negb (Z.testbit found 0) && covering_keys key then [index_scan_way o key start_key] else []
  | CPart2 key start_key records time depend => if part1_conds_met o then [mkWay key time records start_key (max_loose_keypart o) depend] else []
  | CRange idx q => if quick_uses_applicable_index o && (idx =? const_tables j) then [mkWay (q_index q) (q_read_time q) (Zdouble (q_records q)) 0 (quick_max_loose_keypart o) 0] else []
  | _ => []
  end.
Fixpoint proposed j (in_exprs : Z) o (cs : list loose_call) : list way :=
  match cs with [] => [] | c :: cs => proposes j in_exprs o c ++ match step j in_exprs o c with Some o' => proposed j in_exprs o' cs | None => [] end end.

Lemma low_bit found : c_true (found .& 1) = Z.testbit found 0.
Proof.
  unfold c_true. rewrite (Z.land_ones found 1 ltac:(lia) : found .& 1 = _). rewrite Z.bit0_odd, Zmod_odd. by destruct (Z.odd found).
Qed.
Hypothesis rows_fit : 0 <= stats_records < 2 ^ 53.
Lemma rows_of_double : uint_of_double 64 (Zdouble stats_records) = Some stats_records.
Proof. apply uint_of_Zdouble; lia. Qed.
Lemma step_offers j in_exprs o c : exists o', step j in_exprs o c = Some o' /\ best_of o' = offered (proposes j in_exprs o c) (best_of o).
Proof.
  destruct c as [|k|key start found|key start records time depend|idx q]; cbn [loose_step proposes].
  - eexists. split; [reflexivity|]. done.
  - eexists. split; [reflexivity|]. unfold add_keyuse. destruct (keyuse_counts _ _ _); [|done]. by destruct (negb _).
  - unfold check_ref_access_part1. destruct (possible o in_exprs key found); [|by eexists]. cbn [andb].
    rewrite low_bit, rows_of_double.
    set (o1 := match quick with Some q => _ | None => o end).
    set (o2 := if Z.testbit found 0 then with_met o1 true else o1).
    assert (B : best_of o2 = best_of o /\ max_loose_keypart o2 = max_loose_keypart o).
    { unfold o2, o1. destruct quick as [q|]; [destruct (_ && _)|]; by destruct (Z.testbit found 0). }
    destruct B as [B Bm]. destruct (negb (Z.testbit found 0) && covering_keys key); [|eexists; by split]. cbn [mbind option_bind].
    eexists. split; [reflexivity|]. unfold index_scan_way. rewrite <- B. cbn [offered foldl].
    unfold cheaper. cbn [w_cost]. change (w_cost (best_of o2)) with (best_loose_scan_cost o2). change (best_loose_scan_cost (with_met o2 true)) with (best_loose_scan_cost o2).
    change (max_loose_keypart (with_met o2 true)) with (max_loose_keypart o2). rewrite Bm. by destruct (dlt _ _).
  - eexists. split; [reflexivity|]. unfold check_ref_access_part2. destruct (part1_conds_met o); [|done]. cbn [andb offered foldl]. unfold cheaper. cbn [w_cost best_of]. by destruct (dlt _ _).
  - eexists. split; [reflexivity|]. unfold check_range_access. destruct (quick_uses_applicable_index o && _); [|done]. cbn [andb offered foldl]. unfold cheaper. cbn [w_cost best_of]. by destruct (dlt _ _).
Qed.
Lemma run_offers j in_exprs cs o : exists o', run j in_exprs o cs = Some o' /\ best_of o' = offered (proposed j in_exprs o cs) (best_of o).
Proof.
  revert o. induction cs as [|c cs IH]; intros o; [by eexists|]. cbn [loose_run proposed].
  destruct (step_offers j in_exprs o c) as (o1 & E1 & B1). rewrite E1. cbn [mbind option_bind]. destruct (IH o1) as (o' & E & B). exists o'. split; [done|].
  rewrite B, B1. unfold offered. by rewrite foldl_app.
Qed.

(** The searches start with no way, which costs [DBL_MAX]. *)
Lemma init_no_way o j : w_cost (best_of (init get_bound_sj_equalities o j)) = DBL_MAX.
Proof. unfold init. destruct (emb_sj_nest j) as [n|]; [|done]. by destruct (negb _ && _). Qed.
End Cheapest.
Lemma dlt_deq x y : dlt x y = true -> deq x y = false.
Proof. unfold dlt, deq, SFltb, SFeqb. by destruct (SFcompare x y) as [[]|]. Qed.

(** The plan that is saved for a way. *)
Definition plan_of (tab : Z * Z) (w : way) : plan := mkPlan (w_cost w) (w_records w) (w_start w) done_ (w_key w) (u32 (w_max w + 1)) false (fst tab) (snd tab) (w_depend w).

(** Whatever indexes are looked at, with whatever costs, numbers or not, the search ends and the position gets a
    way that was proposed, is cheaper than none and such that no proposed way is cheaper, with its records, key, key parts and tables;
    when no way proposed is cheaper than none, the position is only told that there is none. *)
Theorem cheapest_way_saved index_flags partial covering rows rec_per_key time get_bound quick j in_exprs o cs tab pos :
  0 <= rows < 2 ^ 53 ->
  let o0 := init get_bound o j in
  let ways := proposed index_flags partial covering rows rec_per_key time quick j in_exprs o0 cs in
  exists o', loose_run index_flags partial covering rows rec_per_key time quick j in_exprs o0 cs = Some o' /\
    ((save_to_position o' tab pos = mkPlan DBL_MAX (records_read pos) (p_key pos) (cond_selectivity pos) (loosescan_key pos) (loosescan_parts pos) (use_join_buffer pos) (p_table pos)
        (range_rowid_filter_info pos) (ref_depend_map pos) /\
      forall w, w ∈ ways -> dlt (w_cost w) DBL_MAX = false) \/
     (exists w, w ∈ ways /\ dlt (w_cost w) DBL_MAX = true /\ (forall v, v ∈ ways -> dlt (w_cost v) (w_cost w) = false) /\ save_to_position o' tab pos = plan_of tab w)).
Proof.
  intros Hr o0 ways. destruct (run_offers index_flags partial covering rows rec_per_key time quick Hr j in_exprs cs o0) as (o' & E & B).
  exists o'. split; [done|]. fold ways in B. pose proof (init_no_way get_bound o j) as I. fold o0 in I.
  destruct (offered_spec ways (best_of o0)) as [S M]. rewrite <- B in S, M. rewrite I in S. unfold save_to_position. change (best_loose_scan_cost o') with (w_cost (best_of o')).
  destruct S as [S|[Hin Hl]].
  - left. rewrite S, I in *. split; [done|]. intros w Hw. apply M. by left.
  - right. exists (best_of o'). split; [done|]. split; [done|]. split; [intros v Hv; apply M; by left|]. by rewrite (dlt_deq _ _ Hl).
Qed.
Definition example_nest : sj_nest := mkNest 1 2 0 1.
Definition example_join : join_state := mkJoin false (Some example_nest) 0 3 OPTIMIZER_SWITCH_LOOSE_SCAN 0.
Definition example_calls : list loose_call :=
  [CNextRef; CKeyuse (mkKeyuse 1 0 0 0); CPart1 0 9 0; CPart2 0 9 (Zdouble 5) (Zdouble 40) 1; CNextRef; CKeyuse (mkKeyuse 1 1 0 0); CPart1 1 8 0; CPart2 1 8 (Zdouble 5) (Zdouble 20) 1].
Lemma cheapest_way_saved_witness :
  exists o', loose_run (fun _ => 4) (fun _ => false) (Z.eqb 0) 1000 (fun _ _ => 10) (fun _ _ _ => Zdouble 30) None example_join 1
    (init (fun _ _ => 0) (new_loose 0 0 0 false) example_join) example_calls = Some o' /\ best_loose_scan_key o' = 0 /\ best_loose_scan_records o' = Zdouble 100.
Proof.
  destruct (cheapest_way_saved (fun _ => 4) (fun _ => false) (Z.eqb 0) 1000 (fun _ _ => 10) (fun _ _ _ => Zdouble 30) (fun _ _ => 0) None example_join 1
    (new_loose 0 0 0 false) example_calls (0, 0) (mkPlan dzero dzero 0 dzero 0 0 false 0 0 0)) as (o' & E & _); [lia|]. exists o'. split; [done|].
  vm_compute in E. injection E as <-. split; reflexivity.
Defined.

(** An index whose checks fail is not proposed for a loose scan, and neither is any while the table is not a candidate: it is one exactly when it is the first of
    the semi-join, no other semi-join is open, what the nest refers to is read but for the left sides of the IN, and the switch is on. *)
Theorem impossible_index_not_proposed index_flags partial covering rows rec_per_key time get_bound quick j o s ks in_exprs key start_key found records cost depend :
  emb_sj_nest j = Some s -> part1_conds_met o = false -> try_loosescan o = false ->
  let o0 := init get_bound o j in
  let o1 := foldl (fun o k => add_keyuse index_flags o (remaining_tables j) k) (next_ref_key o0) ks in
  let condition := emb_sjm_nest j = false /\ sj_in_exprs s < 64 /\ remaining_tables j .& sj_inner_tables s = sj_inner_tables s /\ cur_sj_inner_tables j = 0 /\
    remaining_tables j .& sj_corr_tables s = 0 /\ remaining_tables j .& sj_depends_on s <> 0 /\ optimizer_switch j .& OPTIMIZER_SWITCH_LOOSE_SCAN <> 0 in
  (try_loosescan o1 = true <-> condition) /\
  ((~ condition \/ loose_scan_possible partial o1 in_exprs key found = false) ->
    check_ref_access_part1 partial covering rows rec_per_key time quick o1 in_exprs key start_key found = Some o1 /\
    check_ref_access_part2 o1 key start_key records cost depend = o1).
Proof.
  intros Hs Hm T o0 o1 condition.
  assert (T1 : try_loosescan o1 = try_loosescan o0 /\ part1_conds_met o1 = false).
  { unfold o1. change (try_loosescan o0) with (try_loosescan (next_ref_key o0)). assert (P : part1_conds_met (next_ref_key o0) = false) by done.
    revert P. generalize (next_ref_key o0). induction ks as [|k ks IH]; intros x P; [done|]. cbn [foldl].
    destruct (IH (add_keyuse index_flags x (remaining_tables j) k)) as [-> ->]; [|split; [apply add_keyuse_try|done]].
    unfold add_keyuse. destruct (keyuse_counts _ _ _); [|done]. by destruct (negb _). }
  destruct T1 as [T1 M1]. assert (C : try_loosescan o1 = true <-> condition).
  { rewrite T1. unfold o0, init. rewrite Hs. unfold condition, is_candidate, optimizer_flag.
    destruct (negb (emb_sjm_nest j) && _) eqn:G; cbn.
    - rewrite !andb_true_iff, !negb_true_iff, !Z.eqb_eq, Z.ltb_lt, c_true_false, !c_true_spec in G. tauto.
    - rewrite T. split; [done|]. intros (A & B). apply not_true_iff_false in G. exfalso. apply G.
      rewrite !andb_true_iff, !negb_true_iff, !Z.eqb_eq, Z.ltb_lt, c_true_false, !c_true_spec. tauto. }
  split; [done|]. intros H. assert (P : loose_scan_possible partial o1 in_exprs key found = false).
  { destruct H as [H|H]; [|done]. unfold loose_scan_possible. destruct (try_loosescan o1); [by exfalso; apply H, C|done]. }
  unfold check_ref_access_part1, check_ref_access_part2. by rewrite P, M1.
Qed.
Lemma impossible_index_not_proposed_witness :
  try_loosescan (foldl (fun o k => add_keyuse (fun _ => 4) o 3 k) (next_ref_key (init (fun _ _ => 0) (new_loose 0 0 0 false) example_join)) []) = true.
Proof.
  apply (impossible_index_not_proposed (fun _ => 4) (fun _ => false) (fun _ => true) 0 (fun _ _ => 0) (fun _ _ _ => dzero) (fun _ _ => 0) None example_join (new_loose 0 0 0 false) example_nest [] 1 0 0 0 dzero dzero 0 eq_refl eq_refl eq_refl).
  repeat split; try done; cbn; lia.
Defined.
