(* ===== verification/SqlStoreKey.v ===== *)
(** Building keys to look rows up with: [store_key] of [private/sql_select.h] and its three kinds, for a column, an expression and a constant.

    A [store_key] copies a value into a field of a key buffer.  When the key part may be null the null bit of that field is a byte before the
    key part; when it may not, but the value may, the field is given the byte [err] of the [store_key] itself for its null bit, so that a null
    makes the copy fail.  That byte is therefore a cell of the memory, at an address the object has.  Copying a column and evaluating an
    expression are parameters; they are given what they may change: the memory and the session. *)

From S2P Require Import Prelude SqlField.

Definition MODE_NO_ZERO_IN_DATE : Z := 1 .<< 23.
Definition MODE_NO_ZERO_DATE : Z := 1 .<< 24.
Definition MODE_INVALID_DATES : Z := 1 .<< 25.
Inductive enum_check_fields := CHECK_FIELD_IGNORE | CHECK_FIELD_EXPRESSION | CHECK_FIELD_WARN | CHECK_FIELD_ERROR_FOR_NULL.
Inductive store_key_result := STORE_KEY_OK | STORE_KEY_FATAL | STORE_KEY_CONV.
#[export] Instance store_key_result_eq_dec : EqDecision store_key_result.
Proof. solve_decision. Defined.
(** [(store_key_result) z] for a number of an enumerator. *)
Definition to_result (z : Z) : store_key_result := if z =? 0 then STORE_KEY_OK else if z =? 1 then STORE_KEY_FATAL else STORE_KEY_CONV.

(** The memory and what the copying uses of the session. *)
Record world := mkWorld { mem : memory; sql_mode : Z; count_cuted_fields : enum_check_fields; is_error : bool }.
Record store_key := mkStoreKey { null_key : bool; to_field : Field; sk_null_ptr : Z; err_at : Z }.
Implicit Types (w : world) (k : store_key).
Definition with_mem w (m : memory) : world := mkWorld m (sql_mode w) (count_cuted_fields w) (is_error w).
Definition with_session w (mode : Z) (c : enum_check_fields) : world := mkWorld (mem w) mode c (is_error w).
Definition with_null_key k (b : bool) : store_key := mkStoreKey b (to_field k) (sk_null_ptr k) (err_at k).
Definition err w k : Z := byte_at (mem w) (err_at k).
Definition set_err w k (v : Z) : world := with_mem w (set_byte (mem w) (err_at k) v).

Section StoreKey.
(** [new_key_field] of a field, with the place of the value, its length, the place of the null bit and the bit; the table of the key buffer. *)
Context (new_key_field : Z -> Z -> Z -> Z -> Field) (table : TABLE).

(** The constructors: [object] is the address of [err]. *)
Definition store_key_new w (object ptr length null : Z) : store_key * world :=
  let k := mkStoreKey false (new_key_field ptr length null 1) null object in (k, set_err w k 0).
Definition store_key_copy w (object : Z) (arg : store_key) : store_key * world :=
  let k := mkStoreKey (null_key arg) (to_field arg) (sk_null_ptr arg) object in (k, set_err w k (err w arg)).
(** The place given for the null bit: the caller's, or [err] when the value may be null. *)
Definition null_place_of (null_ptr_arg : Z) (maybe_null : bool) (object : Z) : Z := if c_true null_ptr_arg then null_ptr_arg else if maybe_null then object else 0.
Definition store_key_for w (object ptr length null_ptr_arg : Z) (maybe_null : bool) : store_key * world :=
  store_key_new w object ptr length (null_place_of null_ptr_arg maybe_null object).

(** The mode in which a key is made. *)
Definition key_sql_mode (mode : Z) : Z :=
  let mode := mode .& unot 64 (MODE_NO_ZERO_IN_DATE .| MODE_NO_ZERO_DATE) in mode .| MODE_INVALID_DATES.
Definition copy {A} (copy_inner : world -> store_key_result * A * world) w : store_key_result * A * world :=
  let org_count_cuted_fields := count_cuted_fields w in
  let org_sql_mode := sql_mode w in
  let w := with_session w (key_sql_mode (sql_mode w)) CHECK_FIELD_IGNORE in
  let '(result, a, w) := copy_inner w in
  (result, a, with_session w org_sql_mode org_count_cuted_fields).

(** [store_key_field]: [do_copy] is [Copy_field::do_copy], [to_ptr] and [to_length] are those of the [Copy_field]. *)
Section FieldKey.
Context (do_copy : world -> world) (to_ptr to_length : Z).
Definition field_copy_inner k w : store_key_result * store_key * world :=
  let w := with_mem w (bzero (mem w) to_ptr to_length) in
  let w := do_copy w in
  let k := with_null_key k (is_null (mem w) (to_field k) table 0) in
  ((if negb (err w k =? 0) then STORE_KEY_FATAL else STORE_KEY_OK), k, w).
End FieldKey.

(** [store_key_item]: the [reset] of the field, the two ways an item saves its value, and whether its value was null. *)
Section ItemKey.
Context (reset : Field -> world -> world) (save_val : Field -> world -> world) (save_in_field : Field -> bool -> world -> Z * world) (null_value : world -> bool).
Definition item_copy_inner (use_value : bool) k w : store_key_result * store_key * world :=
  let w := reset (to_field k) w in
  let (res, w) := if use_value then (0, save_val (to_field k) w) else save_in_field (to_field k) true w in
  let res := if (res =? 0) && is_error w then 1 else res in
  let k := with_null_key k (is_null (mem w) (to_field k) table 0 || null_value w) in
  ((if negb (err w k =? 0) || (res <? 0) || (2 <? res) then STORE_KEY_FATAL else to_result res), k, w).

(** [store_key_const_item] has a flag [inited] besides. *)
Definition const_item_save k w : world :=
  let (res, w) := save_in_field (to_field k) true w in
  let w := if negb (res =? 0) then if err w k =? 0 then set_err w k (if res <? 0 then 1 else res) else w else w in
  if (err w k =? 0) && is_error w then set_err w k 1 else w.
Definition const_item_copy_inner (kc : store_key * bool) w : store_key_result * (store_key * bool) * world :=
  let (k, inited) := kc in
  let w := if negb inited then const_item_save k w else w in
  let k := with_null_key k (is_null (mem w) (to_field k) table 0 || null_value w) in
  ((if 2 <? err w k then STORE_KEY_FATAL else to_result (err w k)), (k, true), w).
End ItemKey.
End StoreKey.

(** * The mode *)

Lemma key_sql_mode_bits mode i : 0 <= i < 64 -> Z.testbit (key_sql_mode mode) i = if i =? 25 then true else if (i =? 23) || (i =? 24) then false else Z.testbit mode i.
Proof.
  intros Hi. unfold key_sql_mode, MODE_INVALID_DATES, MODE_NO_ZERO_IN_DATE, MODE_NO_ZERO_DATE.
  rewrite Z.lor_spec, Z.land_spec, unot_testbit, Z.lor_spec, !Z.shiftl_1_l, !pow2_testbit by lia.
  rewrite (proj2 (Z.leb_le 0 i)), (proj2 (Z.ltb_lt i 64)) by lia.
  destruct (Z.eqb_spec i 25), (Z.eqb_spec i 23), (Z.eqb_spec i 24); subst; try lia; cbn; rewrite ?orb_true_r, ?andb_true_r, ?andb_false_r, ?orb_false_r; done.
Qed.
Lemma copy_result {A} (inner : world -> store_key_result * A * world) w :
  let '(r, a, w1) := inner (with_session w (key_sql_mode (sql_mode w)) CHECK_FIELD_IGNORE) in copy inner w = (r, a, with_session w1 (sql_mode w) (count_cuted_fields w)).
Proof. unfold copy. by destruct (inner _) as [[r a] w1]. Qed.

(** Whatever copying a value does to the session, making a key leaves its mode and its counting of cut values as they were, and the copying itself is done with zero dates
    and invalid dates allowed, the other bits of the mode unchanged and no warning counted; the outcome, the memory and the errors are those of the copying. *)
Theorem copy_keeps_session {A} (inner : world -> store_key_result * A * world) w :
  exists mode r a w1, inner (with_session w mode CHECK_FIELD_IGNORE) = (r, a, w1) /\
    (forall i, 0 <= i < 64 -> Z.testbit mode i = if i =? 25 then true else if (i =? 23) || (i =? 24) then false else Z.testbit (sql_mode w) i) /\
    exists w', copy inner w = (r, a, w') /\ sql_mode w' = sql_mode w /\ count_cuted_fields w' = count_cuted_fields w /\ mem w' = mem w1 /\ is_error w' = is_error w1.
Proof.
  pose proof (copy_result inner w) as C. exists (key_sql_mode (sql_mode w)). destruct (inner _) as [[r a] w1] eqn:E. exists r, a, w1. split; [done|].
  split; [intros i Hi; by apply key_sql_mode_bits|]. eexists. split; [exact C|]. done.
Qed.

(** * Columns *)

Section FieldKeys.
Context (new_key_field : Z -> Z -> Z -> Z -> Field) (table : TABLE).
(** What [new_key_field] promises: a field at the places it is given. *)
Hypothesis new_key_field_places : forall p l n b, ptr (new_key_field p l n b) = p /\ null_ptr (new_key_field p l n b) = n /\ null_bit (new_key_field p l n b) = b.
Hypothesis not_null_row : null_row table = false.

(** Copying a row's column: whether it is null, and the copying, which marks that in the null bit of the target and writes neither of the
    two bytes otherwise. *)
Definition marks k (null : bool) (do_copy : world -> world) : Prop := forall w a, a = err_at k \/ a = null_ptr (to_field k) ->
  byte_at (mem (do_copy w)) a = byte_at ((if null then set_null else set_notnull) (mem w) (to_field k) 0) a.
Definition bit_key k : Prop := null_bit (to_field k) = 1 /\ err_at k <> 0.
(** Between copies: the byte [err] is only ever 0, or 0 or 1 when it is the null byte of the field. *)
Definition key_ready k w : Prop := if decide (null_ptr (to_field k) = err_at k) then err w k = 0 \/ err w k = 1 else err w k = 0.

Lemma marked_err k w (null : bool) : bit_key k -> key_ready k w ->
  byte_at ((if null then set_null else set_notnull) (mem w) (to_field k) 0) (err_at k) = if decide (null_ptr (to_field k) = err_at k) then Z.b2z null else 0.
Proof.
  intros [Hb He] R. unfold key_ready, err in R. unfold set_null, set_notnull. destruct (decide (null_ptr (to_field k) = err_at k)) as [E|N].
  - destruct null; rewrite E, Hb, (proj2 (c_true_spec _) He), Z.add_0_r; destruct R as [-> | ->]; by rewrite byte_at_set.
  - assert (O : forall v, byte_at (set_byte (mem w) (null_ptr (to_field k) + 0) v) (err_at k) = 0) by (intros v; rewrite byte_at_other by lia; exact R).
    by destruct null, (c_true (null_ptr (to_field k))).
Qed.
Lemma marked_null k (m : memory) (null : bool) : null_bit (to_field k) = 1 -> null_ptr (to_field k) <> 0 ->
  c_true (byte_at ((if null then set_null else set_notnull) m (to_field k) 0) (null_ptr (to_field k)) .& 1) = null.
Proof.
  intros Hb Hp. unfold set_null, set_notnull.
  change 1 with (2 ^ 0) in Hb |- *. destruct null; rewrite Hb, (proj2 (c_true_spec _) Hp), Z.add_0_r, byte_at_set; (apply eq_true_iff_eq; rewrite c_true_spec).
  - split; [done|]. intros _ E. apply (f_equal (fun z => Z.testbit z 0)) in E. by rewrite Z.land_spec, uwrap_testbit, Z.lor_spec, Z.pow2_bits_true, orb_true_r in E by lia.
  - split; [|done]. intros N. exfalso. apply N. apply Z.bits_inj'. intros i Hi. rewrite Z.land_spec, pow2_testbit, Z.bits_0 by lia.
    destruct (Z.eqb_spec i 0) as [-> |]; [|apply andb_false_r]. by rewrite uwrap_testbit, Z.land_spec, uwrap_testbit, unot_testbit, andb_true_r by lia; cbn; rewrite andb_false_r.
Qed.
Lemma field_copy_spec k w do_copy to_ptr to_length (null : bool) : bit_key k -> key_ready k w -> marks k null do_copy -> 0 <= to_length ->
  apart to_ptr to_length (err_at k) 1 -> apart to_ptr to_length (null_ptr (to_field k)) 1 -> (null = true -> null_ptr (to_field k) <> 0) ->
  exists w', copy (field_copy_inner table do_copy to_ptr to_length k) w =
    ((if null && bool_decide (null_ptr (to_field k) = err_at k) then STORE_KEY_FATAL else STORE_KEY_OK), with_null_key k null, w') /\ key_ready k w'.
Proof.
  intros Hb R Hm Hl A1 A2 Hn. unfold copy, field_copy_inner. set (w0 := with_session w _ _). cbn zeta.
  set (w1 := with_mem w0 (bzero (mem w0) to_ptr to_length)).
  assert (B : forall a, apart to_ptr to_length a 1 -> byte_at (mem w1) a = byte_at (mem w) a).
  { intros a Ha. unfold w1. cbn. unfold bzero. apply byte_store_apart. by rewrite length_replicate, Z2Nat.id. }
  assert (R1 : key_ready k w1) by (unfold key_ready, err in *; by rewrite B).
  assert (Herr : err (do_copy w1) k = if decide (null_ptr (to_field k) = err_at k) then Z.b2z null else 0).
  { unfold err. rewrite (Hm w1 (err_at k)) by (by left). by apply marked_err. }
  assert (Hnull : is_null (mem (do_copy w1)) (to_field k) table 0 = null).
  { unfold is_null. destruct (c_true (null_ptr (to_field k))) eqn:G.
    - apply c_true_spec in G. rewrite Z.add_0_r, (Hm w1) by (by right). destruct Hb as [Hb _]. rewrite Hb. by apply marked_null.
    - apply c_true_false in G. rewrite not_null_row. destruct null; [by specialize (Hn eq_refl)|done]. }
  rewrite Hnull. eexists. split.
  - f_equal. f_equal. change (err _ _) with (err (do_copy w1) k). rewrite Herr. destruct (decide _) as [E|N].
    + rewrite bool_decide_true by done. by destruct null.
    + rewrite bool_decide_false by done. by destruct null.
  - unfold key_ready. change (err _ k) with (err (do_copy w1) k). rewrite Herr. destruct (decide _); [destruct null; cbn; auto|done].
Qed.

(** The rows of a table, one after the other, with the same key. *)
Fixpoint copy_rows (to_ptr to_length : Z) k w (rows : list (bool * (world -> world))) : list (store_key_result * bool) :=
  match rows with
  | [] => []
  | (_, do_copy) :: rows =>
      let '(r, k, w) := copy (field_copy_inner table do_copy to_ptr to_length k) w in (r, null_key k) :: copy_rows to_ptr to_length k w rows
  end.
Lemma copy_rows_spec to_ptr to_length rows : forall k w, bit_key k -> key_ready k w -> 0 <= to_length ->
  apart to_ptr to_length (err_at k) 1 -> apart to_ptr to_length (null_ptr (to_field k)) 1 ->
  Forall (fun row => marks k (fst row) (snd row) /\ (fst row = true -> null_ptr (to_field k) <> 0)) rows ->
  copy_rows to_ptr to_length k w rows =
    map (fun row => ((if fst row && bool_decide (null_ptr (to_field k) = err_at k) then STORE_KEY_FATAL else STORE_KEY_OK), fst row)) rows.
Proof.
  induction rows as [|[null do_copy] rows IH]; intros k w Hb R Hl A1 A2 F; [done|]. apply Forall_cons in F as [[Hm Hn] F]. cbn [fst snd] in *.
  destruct (field_copy_spec k w do_copy to_ptr to_length null Hb R Hm Hl A1 A2 Hn) as (w' & E & R'). cbn [copy_rows map fst]. rewrite E.
  cbn [null_key with_null_key]. f_equal. exact (IH (with_null_key k null) w' Hb R' Hl A1 A2 F).
Qed.

(** Row after row, a key made from a column tells the nulls of that column, whatever rows came before: when the key part may be
    null, a null is copied and every copy succeeds, and when it may not, the copies of the nulls are those that fail; a column that is never null fails never. *)
Theorem field_key_fails_on_nulls w0 object ptr length null_ptr_arg maybe_null to_ptr to_length rows :
  let (k, w) := store_key_for new_key_field w0 object ptr length null_ptr_arg maybe_null in
  object <> 0 -> null_ptr_arg <> object -> 0 <= to_length ->
  apart to_ptr to_length object 1 -> apart to_ptr to_length (null_place_of null_ptr_arg maybe_null object) 1 ->
  Forall (fun row => marks k (fst row) (snd row) /\ (fst row = true -> maybe_null = true)) rows ->
  copy_rows to_ptr to_length k w rows = map (fun row => ((if fst row && (null_ptr_arg =? 0) then STORE_KEY_FATAL else STORE_KEY_OK), fst row)) rows.
Proof.
  unfold store_key_for, store_key_new. set (n := null_place_of null_ptr_arg maybe_null object). set (k := mkStoreKey _ _ _ _).
  destruct (new_key_field_places ptr length n 1) as (_ & P2 & P3). intros Ho Hno Hl A1 A2 F.
  assert (Hk : null_ptr (to_field k) = n) by exact P2. assert (Hb : bit_key k) by (by split).
  assert (R : key_ready k (set_err w0 k 0)).
  { unfold key_ready, err, set_err. cbn. rewrite byte_at_set. destruct (decide _); [by left|done]. }
  assert (Hn : n = object <-> null_ptr_arg = 0 /\ maybe_null = true).
  { unfold n, null_place_of. destruct (c_true null_ptr_arg) eqn:G; [apply c_true_spec in G; naive_solver|]. apply c_true_false in G. destruct maybe_null; naive_solver. }
  assert (Hz : maybe_null = true -> n <> 0).
  { intros ->. unfold n, null_place_of. destruct (c_true null_ptr_arg) eqn:G; [by apply c_true_spec|done]. }
  rewrite copy_rows_spec; [|done|done|done|done|by rewrite Hk|].
  - rewrite Hk. change (err_at k) with object. apply map_ext_in. intros [null dc] Hin. cbn [fst snd]. f_equal.
    destruct null; [|done]. cbn. rewrite Forall_forall in F. destruct (F (true, dc)) as [_ Hm]; [by apply list_elem_of_In|].
    cbn in Hm. specialize (Hm eq_refl). destruct (Z.eqb_spec null_ptr_arg 0) as [E|E].
    + rewrite bool_decide_true by (apply Hn; done). done.
    + rewrite bool_decide_false by (intros E'; apply Hn in E'; naive_solver). done.
  - eapply Forall_impl; [exact F|]. intros [null dc] [Hm Hmb]. split; [exact Hm|]. intros E. rewrite Hk. by apply Hz, Hmb.
Qed.
End FieldKeys.
Definition plain_field (p l n b : Z) : Field := mkField p n b 0.
Definition example_table : TABLE := mkTable 0 false false 0 0 0.
Definition example_world : world := mkWorld (fun _ => Byte.x07) 0 CHECK_FIELD_WARN false.
Definition mark_null (f : Field) w : world := with_mem w (set_null (mem w) f 0).
Definition mark_notnull (f : Field) w : world := with_mem w (set_notnull (mem w) f 0).
Lemma field_key_fails_on_nulls_witness :
  let (k, w) := store_key_for plain_field example_world 100 200 4 0 true in
  let f := to_field k in
  copy_rows example_table 200 4 k w [(false, mark_notnull f); (true, mark_null f); (false, mark_notnull f)] =
    [(STORE_KEY_OK, false); (STORE_KEY_FATAL, true); (STORE_KEY_OK, false)].
Proof.
  pose proof (field_key_fails_on_nulls plain_field example_table (fun p l n b => conj eq_refl (conj eq_refl eq_refl)) eq_refl
    example_world 100 200 4 0 true 200 4) as H. unfold store_key_for, store_key_new in *. cbn -[set_err copy_rows mark_null mark_notnull] in *.
  rewrite H; [reflexivity|lia|lia|lia|unfold apart; lia|unfold apart; lia|].
  repeat (apply Forall_cons; split; [split; [intros w a _; reflexivity|done]|]). by apply Forall_nil.
Defined.

(** * Expressions *)

(** A result against the conditions for each. *)
Ltac outcomes := cbn; (split; [|split]); (split; intros X); try discriminate X; try done; first [lia | by auto 10 | by (right; right; right; right) | repeat (destruct X as [X|X] || destruct X as [? X]); first [lia | congruence]].

(** The outcome of making a key from an expression: it is fatal when the byte [err] is set, the saving failed with a negative number, one, or more than two,
    or it succeeded and the statement has an error; a conversion is told apart, error or not. A null value, of the item or in the field, makes the key null. *)
Theorem item_key_outcomes table reset save_val save_in_field null_value use_value k w :
  let w0 := reset (to_field k) (with_session w (key_sql_mode (sql_mode w)) CHECK_FIELD_IGNORE) in
  let (res, w1) := if use_value : bool then (0, save_val (to_field k) w0) else save_in_field (to_field k) true w0 in
  exists result k' w', copy (item_copy_inner table reset save_val save_in_field null_value use_value k) w = (result, k', w') /\
    mem w' = mem w1 /\ null_key k' = is_null (mem w1) (to_field k) table 0 || null_value w1 /\
    (result = STORE_KEY_FATAL <-> err w1 k <> 0 \/ res < 0 \/ res = 1 \/ 2 < res \/ (res = 0 /\ is_error w1 = true)) /\
    (result = STORE_KEY_CONV <-> err w1 k = 0 /\ res = 2) /\ (result = STORE_KEY_OK <-> err w1 k = 0 /\ res = 0 /\ is_error w1 = false).
Proof.
  intros w0. unfold copy, item_copy_inner. fold w0. destruct (if use_value then _ else _) as [res w1].
  eexists _, _, _. split; [reflexivity|]. do 2 (split; [done|]). change (err w1 (with_null_key k _)) with (err w1 k).
  destruct (Z.eqb_spec (err w1 k) 0) as [E|E]; cbn [negb orb]; [|outcomes].
  destruct (Z.eqb_spec res 0) as [->|N]; cbn [andb]; [destruct (is_error w1); outcomes|].
  destruct (Z.ltb_spec res 0); cbn [orb]; [outcomes|]. destruct (Z.ltb_spec 2 res); [outcomes|].
  assert (res = 1 \/ res = 2) as [-> | ->] by lia; outcomes.
Qed.

(** * Constants *)

Section ConstKeys.
Context (table : TABLE) (save_in_field : Field -> bool -> world -> Z * world) (null_value : world -> bool).
Abbreviation inner := (const_item_copy_inner table save_in_field null_value).
Lemma const_copied k w : copy (inner (k, true)) w =
  ((if 2 <? err w k then STORE_KEY_FATAL else to_result (err w k)),
   (with_null_key k (is_null (mem w) (to_field k) table 0 || null_value (with_session w (key_sql_mode (sql_mode w)) CHECK_FIELD_IGNORE)), true), w).
Proof. unfold copy, inner. cbn. by destruct w. Qed.
End ConstKeys.

(** A constant is saved in its key once: the first copy gives an outcome, and every copy after it, however the session has changed, while the field, the byte [err] and
    the item are left alone, gives the same outcome and changes nothing. *)
Theorem const_key_saved_once table save_in_field null_value k w :
  exists result k1 w1, copy (const_item_copy_inner table save_in_field null_value (k, false)) w = (result, (k1, true), w1) /\
    forall w2, err w2 k = err w1 k -> is_null (mem w2) (to_field k) table 0 = is_null (mem w1) (to_field k) table 0 ->
      null_key k1 = is_null (mem w1) (to_field k) table 0 || null_value (with_session w2 (key_sql_mode (sql_mode w2)) CHECK_FIELD_IGNORE) ->
      copy (const_item_copy_inner table save_in_field null_value (k1, true)) w2 = (result, (k1, true), w2).
Proof.
  unfold copy at 1. unfold const_item_copy_inner at 1. cbn [negb]. set (wf := const_item_save _ _ _). eexists _, _, _. split; [reflexivity|].
  intros w2 E N V. rewrite const_copied. change (err w2 (with_null_key _ _)) with (err w2 k). change (err (with_session wf _ _) k) with (err wf k) in E. rewrite E.
  f_equal. f_equal. f_equal. cbn [null_key with_null_key] in V. cbn [to_field with_null_key]. unfold with_null_key at 1. cbn [to_field sk_null_ptr err_at with_null_key].
  rewrite N, <- V. done.
Qed.
Lemma const_key_saved_once_witness :
  exists result k1 w1, copy (const_item_copy_inner example_table (fun f _ w => (0, mark_notnull f w)) (fun _ => false) (mkStoreKey false (plain_field 200 4 100 1) 100 100, false)) example_world = (result, (k1, true), w1) /\
    copy (const_item_copy_inner example_table (fun f _ w => (0, mark_notnull f w)) (fun _ => false) (k1, true)) w1 = (result, (k1, true), w1).
Proof.
  destruct (const_key_saved_once example_table (fun f _ w => (0, mark_notnull f w)) (fun _ => false) (mkStoreKey false (plain_field 200 4 100 1) 100 100) example_world) as (r & k1 & w1 & E & H).
  exists r, k1, w1. split; [exact E|]. apply H; [reflexivity|reflexivity|]. vm_compute in E. injection E as _ <- <-. reflexivity.
Defined.

(** A key part that may not be null, of an expression that may, keeps its null bit in the byte [err] of the object that made the field. Saving a null in it with that object
    is fatal; a copy of the object, which has a byte of its own, has the same field and says that all went well. *)
Theorem copied_key_misses_null new_key_field table save_in_field null_value w0 object object' ptr length :
  (forall p l n b, SqlField.ptr (new_key_field p l n b) = p /\ null_ptr (new_key_field p l n b) = n /\ null_bit (new_key_field p l n b) = b) ->
  object <> 0 -> object' <> object ->
  (forall f w, save_in_field f true w = (0, with_mem w (set_null (mem w) f 0))) -> is_error w0 = false ->
  let (k, w) := store_key_for new_key_field w0 object ptr length 0 true in
  let (k', w') := store_key_copy w object' k in
  (exists k1 w1, copy (const_item_copy_inner table save_in_field null_value (k, false)) w = (STORE_KEY_FATAL, (k1, true), w1) /\ null_key k1 = true) /\
  (exists k2 w2, copy (const_item_copy_inner table save_in_field null_value (k', false)) w' = (STORE_KEY_OK, (k2, true), w2) /\ null_key k2 = true).
Proof.
  intros Hf Ho Ho' Hs He. unfold store_key_for, store_key_new, store_key_copy. change (null_place_of 0 true object) with object.
  destruct (Hf ptr length object 1) as (_ & P2 & P3). set (f := new_key_field ptr length object 1) in *. cbn [null_key to_field sk_null_ptr].
  assert (Hc : c_true object = true) by (by apply c_true_spec).
  assert (S : forall (m : memory), set_null m f 0 = set_byte m object (byte_at m object .| 1)) by (intros m; unfold set_null; by rewrite P2, P3, Hc, Z.add_0_r).
  assert (N : forall (m : memory), is_null m f table 0 = c_true (byte_at m object .& 1)) by (intros m; unfold is_null; by rewrite P2, P3, Hc, Z.add_0_r).
  unfold copy, const_item_copy_inner, const_item_save, set_err, err. cbn [negb to_field err_at mem with_mem with_session]. rewrite !Hs. cbn [fst snd Z.eqb negb].
  cbn [mem with_mem with_session err_at is_error]. rewrite !S, !N, He, !andb_false_r. cbn [mem with_mem with_session err_at null_key with_null_key].
  rewrite !byte_at_set, !(byte_at_other _ _ _ object') by done. rewrite !(byte_at_other _ object' _ object) by congruence. rewrite !byte_at_set.
  split; eexists _, _; (split; [reflexivity|reflexivity]).
Qed.
Lemma copied_key_misses_null_witness :
  let (k, w) := store_key_for plain_field example_world 100 200 4 0 true in
  let (k', w') := store_key_copy w 101 k in
  exists k2 w2, copy (const_item_copy_inner example_table (fun f _ w => (0, mark_null f w)) (fun _ => true) (k', false)) w' = (STORE_KEY_OK, (k2, true), w2) /\ null_key k2 = true.
Proof.
  exact (proj2 (copied_key_misses_null plain_field example_table (fun f _ w => (0, mark_null f w)) (fun _ => true) example_world 100 101 200 4
    (fun p l n b => conj eq_refl (conj eq_refl eq_refl)) ltac:(lia) ltac:(lia) (fun f w => eq_refl) eq_refl)).
Defined.
