(* ===== verification/CString.v ===== *)
(** Functions of C's library on strings, which are lists of bytes without their final zero: searches, the reading of a number by [strtol], and
    the writing of one as [printf] does; a pointer into a string is an offset. *)

From S2P Require Import Prelude.

Abbreviation bytes := (list byte).
Implicit Types (s : bytes).

(** * Searches and numbers *)

(** [strchr(s + from, c)] *)
Fixpoint find_byte (c : byte) (s : bytes) : option Z :=
  match s with [] => None | b :: s => if bool_decide (b = c) then Some 0 else (fun i => i + 1) <$> find_byte c s end.
Definition strchr_at (s : bytes) (from : Z) (c : byte) : option Z := (fun i => from + i) <$> find_byte c (drop (Z.to_nat from) s).
(** [p < q] on pointers into a string, or null, which compares as the least. *)
Definition ptr_lt (p q : option Z) : bool := match p, q with _, None => false | None, Some _ => true | Some a, Some b => a <? b end.
Definition is_space (b : byte) : bool := let z := byteZ b in (z =? 32) || ((9 <=? z) && (z <=? 13)).
Definition is_digit (b : byte) : bool := let z := byteZ b in (48 <=? z) && (z <=? 57).
Fixpoint strtol_skip (s : bytes) : bytes := match s with b :: t => if is_space b then strtol_skip t else s | [] => [] end.
(** The number the digits at the beginning say, after [acc], and whether there was one. *)
Fixpoint digits (s : bytes) (acc : Z) (any : bool) : Z * bool :=
  match s with b :: s => if is_digit b then digits s (acc * 10 + (byteZ b - 48)) true else (acc, any) | [] => (acc, any) end.
Definition LONG_MAX : Z := 2 ^ 63 - 1.
Definition LONG_MIN : Z := - 2 ^ 63.
(** [strtol(s, NULL, 10)] and whether [errno] is [EINVAL] or [ERANGE] after it; without a digit it may be [EINVAL], which is the first argument. *)
Definition strtol (einval : bool) (s : bytes) : Z * bool :=
  let s := strtol_skip s in
  let '(neg, s) := match s with b :: t => if byteZ b =? 45 then (true, t) else if byteZ b =? 43 then (false, t) else (false, s) | [] => (false, s) end in
  let '(v, any) := digits s 0 false in
  if negb any then (0, einval)
  else let v := if neg : bool then - v else v in
    if v <? LONG_MIN then (LONG_MIN, true) else if LONG_MAX <? v then (LONG_MAX, true) else (v, false).

(** * Writing numbers *)

Definition digit_byte (d : Z) : byte := Zbyte (48 + d).
Fixpoint decimal_fuel (fuel : nat) (p : Z) : bytes :=
  match fuel with O => [] | S fuel => if p <? 10 then [digit_byte p] else decimal_fuel fuel (p / 10) ++ [digit_byte (p mod 10)] end.
(** The decimal digits of a number of 64 bits. *)
Definition decimal (p : Z) : bytes := decimal_fuel 20 p.

Lemma byteZ_digit d : 0 <= d <= 9 -> byteZ (digit_byte d) = 48 + d.
Proof. intros H. unfold digit_byte. rewrite byteZ_Zbyte. apply uwrap_small. unfold ufits. lia. Qed.
Lemma is_digit_byte d : 0 <= d <= 9 -> is_digit (digit_byte d) = true.
Proof. intros H. unfold is_digit. rewrite byteZ_digit by done. apply andb_true_iff. rewrite !Z.leb_le. lia. Qed.
Lemma digits_app l d acc any : Forall (fun b => is_digit b = true) l -> 0 <= d <= 9 ->
  digits (l ++ [digit_byte d]) acc any = (fst (digits l acc any) * 10 + d, true).
Proof.
  intros F Hd. revert acc any. induction F as [|b l Hb F IH]; intros acc any; cbn [app digits].
  - rewrite is_digit_byte, byteZ_digit by done. cbn. f_equal. lia.
  - rewrite Hb. apply IH.
Qed.
Lemma decimal_fuel_spec n p : 0 <= p < 10 ^ Z.of_nat n -> (0 < n)%nat ->
  Forall (fun b => is_digit b = true) (decimal_fuel n p) /\ digits (decimal_fuel n p) 0 false = (p, true) /\ decimal_fuel n p <> [].
Proof.
  revert p. induction n as [|n IH]; intros p Hp Hn; [lia|]. cbn [decimal_fuel]. destruct (Z.ltb_spec p 10) as [L|L].
  - split; [by apply Forall_singleton, is_digit_byte; lia|]. split; [|done]. cbn [digits]. rewrite is_digit_byte, byteZ_digit by lia. cbn. f_equal. lia.
  - assert (Hq : 0 <= p / 10 < 10 ^ Z.of_nat n).
    { split; [apply Z.div_pos; lia|]. apply Z.div_lt_upper_bound; [lia|]. rewrite <- Z.pow_succ_r, <- Nat2Z.inj_succ by lia. lia. }
    destruct n as [|n]; [cbn in Hq; assert (1 <= p / 10) by (apply Z.div_le_lower_bound; lia); lia|].
    destruct (IH (p / 10) Hq ltac:(lia)) as (F & E & _). pose proof (Z.mod_pos_bound p 10 ltac:(lia)). split; [|split].
    + apply Forall_app. split; [done|]. apply Forall_singleton, is_digit_byte. lia.
    + rewrite digits_app by (done || lia). rewrite E. cbn [fst]. f_equal. pose proof (Z.div_mod p 10 ltac:(lia)). lia.
    + intros E'. apply (f_equal length) in E'. rewrite length_app in E'. cbn in E'. lia.
Qed.
Lemma decimal_spec p : 0 <= p < 2 ^ 64 -> Forall (fun b => is_digit b = true) (decimal p) /\ digits (decimal p) 0 false = (p, true) /\ decimal p <> [].
Proof. intros H. apply decimal_fuel_spec; [|lia]. change (10 ^ Z.of_nat 20) with 100000000000000000000. change (2 ^ 64) with 18446744073709551616 in H. lia. Qed.
Lemma decimal_fuel_length n k p : 0 <= p < 10 ^ Z.of_nat k -> (0 < k)%nat -> (length (decimal_fuel n p) <= k)%nat.
Proof.
  revert k p. induction n as [|n IH]; intros k p Hp Hk; [cbn; lia|]. cbn [decimal_fuel]. destruct (Z.ltb_spec p 10); [cbn; lia|].
  destruct k as [|k]; [lia|]. rewrite Nat2Z.inj_succ, Z.pow_succ_r in Hp by lia. rewrite length_app. cbn [length].
  destruct k as [|k]; [cbn in Hp; lia|]. specialize (IH (S k) (p / 10)). pose proof (Z.div_pos p 10 ltac:(lia) ltac:(lia)). pose proof (Z.div_lt_upper_bound p 10 _ ltac:(lia) (proj2 Hp)). lia.
Qed.
Lemma strtol_decimal einval p : 0 <= p < 2 ^ 63 -> strtol einval (decimal p) = (p, false).
Proof.
  intros H. destruct (decimal_spec p ltac:(lia)) as (F & E & N). unfold strtol. destruct (decimal p) as [|b l] eqn:D; [done|].
  apply Forall_cons in F as [Hb _]. assert (B : 48 <= byteZ b <= 57) by (unfold is_digit in Hb; apply andb_true_iff in Hb; rewrite !Z.leb_le in Hb; lia).
  assert (S : is_space b = false).
  { unfold is_space. rewrite (proj2 (Z.eqb_neq _ _)), (proj2 (Z.leb_gt (byteZ b) 13)) by lia. cbn. apply andb_false_r. }
  cbn [strtol_skip]. rewrite S, (proj2 (Z.eqb_neq (byteZ b) 45)), (proj2 (Z.eqb_neq (byteZ b) 43)), E by lia. cbn [negb].
  unfold LONG_MIN, LONG_MAX. rewrite (proj2 (Z.ltb_ge p _)), (proj2 (Z.ltb_ge _ p)) by lia. done.
Qed.

(** ** Where bytes are found *)

Lemma find_byte_absent c s : c ∉ s -> find_byte c s = None.
Proof.
  induction s as [|b s IH]; [done|]. intros H. rewrite elem_of_cons in H. cbn [find_byte]. rewrite bool_decide_false by naive_solver. by rewrite IH by naive_solver.
Qed.
Lemma find_byte_app c s t : c ∉ s -> find_byte c (s ++ t) = (fun i => Z.of_nat (length s) + i) <$> find_byte c t.
Proof.
  induction s as [|b s IH]; intros H; cbn [app find_byte length].
  - by destruct (find_byte c t) as [i|].
  - rewrite elem_of_cons in H. rewrite bool_decide_false by naive_solver. rewrite IH by naive_solver.
    destruct (find_byte c t) as [i|]; [|done]. cbn. f_equal. lia.
Qed.
Lemma find_byte_here c t : find_byte c (c :: t) = Some 0.
Proof. cbn. by rewrite bool_decide_true. Qed.
Lemma find_byte_present c s : c ∈ s -> exists i, find_byte c s = Some i /\ 0 <= i < Z.of_nat (length s).
Proof.
  induction s as [|b s IH]; [by intros ?%not_elem_of_nil|]. intros H. cbn [find_byte length]. destruct (decide (b = c)) as [->|N].
  - rewrite bool_decide_true by done. exists 0. split; [done|]. lia.
  - rewrite bool_decide_false by done. apply elem_of_cons in H as [->|H]; [done|]. destruct (IH H) as (i & -> & Hi). exists (i + 1). split; [done|]. lia.
Qed.
Lemma strchr_0 s c : strchr_at s 0 c = find_byte c s.
Proof. unfold strchr_at. change (drop (Z.to_nat 0) s) with s. by destruct (find_byte c s). Qed.
Lemma digit_not (c : byte) l : Forall (fun b => is_digit b = true) l -> is_digit c = false -> c ∉ l.
Proof. intros F N H. rewrite Forall_forall in F. specialize (F c H). congruence. Qed.
