(* ===== verification/SqlWsrepAddress.v ===== *)
(** Addresses of the nodes of a cluster: [wsp::Address] of [private/wsrep_utils.h], which takes a host or an IPv6 address and a port out of a string.

    The string is a list of bytes without its final zero, and a pointer into it is an offset.  What the language leaves undefined, a search
    from a null pointer, is [None]. *)

From S2P Require Import Prelude CString.

Definition colon_ : byte := Byte.x3a.
Definition dot_ : byte := Byte.x2e.
Definition open_ : byte := Byte.x5b.
Definition close_ : byte := Byte.x5d.

(** * [Address] *)

Inductive family := UNSPEC | INET | INET6.
#[export] Instance family_eq_dec : EqDecision family.
Proof. solve_decision. Defined.
Record Address := mkAddress { m_address : bytes; m_address_len : Z; m_family : family; m_port : Z; m_valid : bool }.
Implicit Types (a : Address) (s : bytes).
Definition new_address : Address := mkAddress (replicate 256 x00) 0 UNSPEC 0 false.
Definition is_ipv6 a : bool := bool_decide (m_family a = INET6).
Definition with_valid a (v : bool) : Address := mkAddress (m_address a) (m_address_len a) (m_family a) (m_port a) v.
Definition with_family a (f : family) : Address := mkAddress (m_address a) (m_address_len a) f (m_port a) (m_valid a).
Definition set_port a (port : Z) : Address := mkAddress (m_address a) (m_address_len a) (m_family a) port (m_valid a).

Section Parse.
Context (einval : bool).

Fixpoint colon_count s : Z := match s with [] => 0 | b :: s => (if bool_decide (b = colon_) then 1 else 0) + colon_count s end.
(** [parse_port(s + at)]: whether it failed, and the address. *)
Definition parse_port a s (at_ : Z) : bool * Address :=
  let (v, err) := strtol einval (drop (Z.to_nat at_) s) in
  let a := set_port a (swrap 32 v) in
  if err : bool then (true, with_valid (set_port a 0) false) else (false, a).
(** The end of [parse_addr], from the computation of [len]. *)
Definition store_address a s (start end_ : Z) : Address :=
  let len := uwrap 64 (end_ - start) in
  if 256 <=? len then with_valid a false
  else mkAddress (take (Z.to_nat len) (drop (Z.to_nat start) s) ++ x00 :: drop (Z.to_nat len + 1) (m_address a)) (len + 1) (m_family a) (m_port a) true.
Definition parse_addr a s : option Address :=
  let open_bracket := strchr_at s 0 open_ in
  let close_bracket := strchr_at s 0 close_ in
  let colon := strchr_at s 0 colon_ in
  let dot := strchr_at s 0 dot_ in
  let cc := colon_count s in
  if bool_decide (is_Some open_bracket) || bool_decide (dot = None) || (bool_decide (is_Some colon) && (bool_decide (dot = None) || ptr_lt colon dot)) then
    match open_bracket with
    | Some o =>
        if bool_decide (close_bracket = None) && ptr_lt open_bracket close_bracket then Some (with_valid a false)
        else
          let start := o + 1 in
          e ← close_bracket;
          let port := strchr_at s e colon_ in
          let (failed, a) := match port with Some p => parse_port a s (p + 1) | None => (false, a) end in
          if failed : bool then Some a else Some (store_address (with_family a INET6) s start e)
    | None =>
        match cc with
        | 0 => Some (store_address a s 0 (Z.of_nat (length s)))
        | 1 =>
            c ← colon;
            let (failed, a) := parse_port a s (c + 1) in
            if failed then Some a else Some (store_address a s 0 c)
        | _ => Some (store_address (with_family a INET6) s 0 (Z.of_nat (length s)))
        end
    end
  else
    match colon with
    | Some c => let (failed, a) := parse_port a s (c + 1) in if failed then Some a else Some (store_address a s 0 c)
    | None => Some (store_address a s 0 (Z.of_nat (length s)))
    end.
(** The constructor from a string. *)
Definition Address_of s : option Address := parse_addr new_address s.
End Parse.

(** * Writing addresses *)

Definition port_suffix (p : option Z) : bytes := match p with Some p => colon_ :: decimal p | None => [] end.
Definition port_ok (p : option Z) : Prop := match p with Some p => 0 <= p < 2 ^ 31 | None => True end.
Definition write_host (host : bytes) (port : option Z) : bytes := host ++ port_suffix port.
Definition write_ipv6 (host : bytes) (port : option Z) : bytes := open_ :: host ++ close_ :: port_suffix port.

Lemma colon_count_app s t : colon_count (s ++ t) = colon_count s + colon_count t.
Proof. induction s as [|b s IH]; cbn [app colon_count]; lia. Qed.
Lemma colon_count_absent s : colon_ ∉ s -> colon_count s = 0.
Proof.
  induction s as [|b s IH]; [done|]. rewrite elem_of_cons. intros H. cbn [colon_count]. rewrite bool_decide_false by naive_solver. rewrite IH by naive_solver. lia.
Qed.

(** ** The results *)

(** An address with this text. *)
Definition stored (host : bytes) (f : family) (port : Z) : Address :=
  mkAddress (host ++ replicate (256 - length host) x00) (Z.of_nat (length host) + 1) f port true.
Lemma store_new s (host rest : bytes) start end_ f port v : drop (Z.to_nat start) s = host ++ rest -> end_ - start = Z.of_nat (length host) -> (length host < 256)%nat ->
  store_address (mkAddress (replicate 256 x00) 0 f port v) s start end_ = stored host f port.
Proof.
  intros D L H. unfold store_address. rewrite L, uwrap_small by (unfold ufits; change (2 ^ 64) with 18446744073709551616; lia).
  rewrite (proj2 (Z.leb_gt 256 _)) by lia. rewrite Nat2Z.id, D, take_app_length. unfold stored. cbn [m_address m_family m_port]. f_equal.
  replace (Z.to_nat (Z.of_nat (length host)) + 1)%nat with (length host + 1)%nat by lia. f_equal. rewrite drop_replicate.
  replace (256 - length host)%nat with (S (256 - (length host + 1))) by lia. done.
Qed.
(** The port after a colon. *)
Lemma parse_port_decimal einval a s at_ p : 0 <= p < 2 ^ 31 -> drop (Z.to_nat at_) s = decimal p -> parse_port einval a s at_ = (false, set_port a p).
Proof. intros Hp D. unfold parse_port. rewrite D, strtol_decimal by lia. by rewrite swrap_small by (unfold sfits; lia). Qed.
Lemma port_suffix_without (c : byte) (p : option Z) : port_ok p -> c <> colon_ -> is_digit c = false -> c ∉ port_suffix p.
Proof.
  intros Hp N D. destruct p as [p|]; [|apply not_elem_of_nil]. cbn. destruct (decimal_spec p ltac:(cbn in Hp; lia)) as (F & _). rewrite elem_of_cons.
  intros [->|H]; [done|]. by apply (digit_not c (decimal p)).
Qed.
Lemma colon_count_port (p : option Z) : port_ok p -> colon_count (port_suffix p) = if p then 1 else 0.
Proof.
  intros Hp. destruct p as [p|]; [|done]. cbn [port_suffix colon_count]. rewrite bool_decide_true, colon_count_absent; [done| |done].
  destruct (decimal_spec p ltac:(cbn in Hp; lia)) as (F & _). by apply (digit_not colon_ (decimal p)).
Qed.
Lemma find_colon_port (host : bytes) (p : option Z) : colon_ ∉ host -> find_byte colon_ (host ++ port_suffix p) = if p then Some (Z.of_nat (length host)) else None.
Proof.
  intros H. rewrite find_byte_app by done. destruct p as [p|]; [|done]. cbn [port_suffix]. rewrite find_byte_here. cbn. f_equal. lia.
Qed.
Lemma drop_port (host : bytes) p : drop (Z.to_nat (Z.of_nat (length host) + 1)) (host ++ port_suffix (Some p)) = decimal p.
Proof.
  replace (Z.to_nat (Z.of_nat (length host) + 1)) with (length host + 1)%nat by lia. rewrite drop_app_add. done.
Qed.
(** What every written address goes through with a host and a port. *)
Lemma read_host_port einval (host : bytes) (p : option Z) : colon_ ∉ host -> (length host < 256)%nat -> port_ok p ->
  match p with
  | Some _ => let (failed, a) := parse_port einval new_address (write_host host p) (Z.of_nat (length host) + 1) in
              if failed then Some a else Some (store_address a (write_host host p) 0 (Z.of_nat (length host)))
  | None => Some (store_address new_address (write_host host p) 0 (Z.of_nat (length (write_host host p))))
  end = Some (stored host UNSPEC (default 0 p)).
Proof.
  intros Hc Hl Hp. unfold write_host. destruct p as [p|].
  - rewrite (parse_port_decimal _ _ _ _ p Hp (drop_port host p)). f_equal. cbn [default id from_option]. apply (store_new _ host (port_suffix (Some p))); [done|lia|done].
  - cbn [port_suffix]. rewrite app_nil_r. f_equal. apply (store_new _ host []); [by rewrite app_nil_r|lia|done].
Qed.

Lemma find_byte_app_l c s t i : find_byte c s = Some i -> find_byte c (s ++ t) = Some i.
Proof.
  revert i. induction s as [|b s IH]; intros i; [done|]. cbn [find_byte app]. destruct (bool_decide (b = c)); [done|].
  destruct (find_byte c s) as [j|]; [|done]. by rewrite (IH j eq_refl).
Qed.
Lemma read_written_host einval (host : bytes) (p : option Z) : (length host < 256)%nat -> port_ok p -> open_ ∉ host -> colon_ ∉ host ->
  Address_of einval (write_host host p) = Some (stored host UNSPEC (default 0 p)).
Proof.
  intros Hl Hp Ho Hc. pose proof (read_host_port einval host p Hc Hl Hp) as R. set (s := write_host host p) in *.
  assert (O : find_byte open_ s = None).
  { apply find_byte_absent. unfold s, write_host. rewrite elem_of_app. intros [?|H]; [done|]. by apply port_suffix_without in H. }
  assert (C : find_byte colon_ s = if p then Some (Z.of_nat (length host)) else None) by (by apply find_colon_port).
  assert (N : colon_count s = if p then 1 else 0) by (unfold s, write_host; by rewrite colon_count_app, colon_count_absent, colon_count_port).
  unfold Address_of, parse_addr. rewrite !strchr_0, O, C, N. destruct (find_byte dot_ s) as [i|] eqn:D.
  - assert (L : ptr_lt (if p then Some (Z.of_nat (length host)) else None) (Some i) = if p then false else true).
    { destruct p as [p|]; [|done]. cbn [ptr_lt]. apply Z.ltb_ge. destruct (decide (dot_ ∈ host)) as [Hd|Hd].
      - destruct (find_byte_present dot_ host Hd) as (j & E & Hj). unfold s, write_host in D. rewrite (find_byte_app_l _ _ _ _ E) in D. injection D as <-. lia.
      - unfold s, write_host in D. rewrite find_byte_absent in D; [done|]. rewrite elem_of_app. intros [?|H]; [done|]. by apply port_suffix_without in H. }
    rewrite L. destruct p as [p|]; exact R.
  - destruct p as [p|]; exact R.
Qed.
Lemma read_written_ipv6 einval (host : bytes) (p : option Z) : (length host < 256)%nat -> port_ok p -> close_ ∉ host ->
  Address_of einval (write_ipv6 host p) = Some (stored host INET6 (default 0 p)).
Proof.
  intros Hl Hp Hc. unfold Address_of, parse_addr. set (s := write_ipv6 host p). set (e := Z.of_nat (length host) + 1).
  assert (O : strchr_at s 0 open_ = Some 0) by (rewrite strchr_0; apply find_byte_here).
  assert (E : strchr_at s 0 close_ = Some e).
  { rewrite strchr_0. unfold s, write_ipv6. cbn [find_byte]. rewrite bool_decide_false, find_byte_app, find_byte_here by done. cbn. f_equal. lia. }
  assert (D : drop (Z.to_nat e) s = close_ :: port_suffix p).
  { unfold s, write_ipv6, e. replace (Z.to_nat _) with (S (length host)) by lia. cbn [drop]. apply drop_app_length. }
  assert (P : strchr_at s e colon_ = (fun _ => e + 1) <$> p).
  { unfold strchr_at. rewrite D. destruct p as [p|]; [|done]. done. }
  rewrite O, E. rewrite (bool_decide_true (is_Some (Some 0))) by (by eexists). rewrite (bool_decide_false (Some e = None)) by done. cbn [orb andb mbind option_bind]. rewrite P.
  assert (St : forall a, m_address a = replicate 256 x00 -> m_address_len a = 0 -> store_address (with_family a INET6) s (0 + 1) e = stored host INET6 (m_port a)).
  { intros [ad ln f pt v] Ha Hn. cbn in Ha, Hn. subst ad ln. unfold with_family. cbn [m_address m_address_len m_port m_valid].
    apply (store_new s host (close_ :: port_suffix p)); [|unfold e; lia|done]. done. }
  destruct p as [p|]; cbn [fmap option_fmap option_map].
  - rewrite (parse_port_decimal einval new_address s (e + 1 + 1) p Hp); [by rewrite St|].
    unfold s, write_ipv6, e. replace (Z.to_nat _) with (S (length host + 2)) by lia. cbn [drop]. by rewrite drop_app_add.
  - by rewrite St.
Qed.
Lemma read_plain_ipv6 einval (host : bytes) : (length host < 256)%nat -> open_ ∉ host -> 2 <= colon_count host ->
  (find_byte dot_ host = None \/ ptr_lt (find_byte colon_ host) (find_byte dot_ host) = true) -> Address_of einval host = Some (stored host INET6 0).
Proof.
  intros Hl Ho Hc Hd. unfold Address_of, parse_addr. rewrite !strchr_0, (find_byte_absent open_) by done.
  assert (C : is_Some (find_byte colon_ host)).
  { destruct (decide (colon_ ∈ host)) as [H|H]; [destruct (find_byte_present _ _ H) as (i & -> & _); by eexists|]. rewrite colon_count_absent in Hc by done. lia. }
  replace (_ || _ || _) with true; [|destruct Hd as [-> | ->]; [done|]; rewrite (bool_decide_true (is_Some (find_byte colon_ host))) by done; by rewrite !orb_true_r].
  assert (W : store_address (with_family new_address INET6) host 0 (Z.of_nat (length host)) = stored host INET6 0) by (apply (store_new _ host []); [by rewrite app_nil_r|lia|done]).
  rewrite W. destruct (colon_count host) as [|[| |]|]; try lia; done.
Qed.

(** C35.  Hosts of less than 256 bytes and ports below 2^31 are read back as they are written: a name or an IPv4 address with or without a port, an IPv6 address in brackets with or without a port,
    and an IPv6 address without brackets, whatever dots follow its first colon.  IPv6 addresses, and they alone, are told to be of that family. *)
Theorem addresses_read_back einval (host : bytes) (p : option Z) : (length host < 256)%nat -> port_ok p -> open_ ∉ host ->
  (colon_ ∉ host -> Address_of einval (write_host host p) = Some (stored host UNSPEC (default 0 p))) /\
  (close_ ∉ host -> Address_of einval (write_ipv6 host p) = Some (stored host INET6 (default 0 p))) /\
  (2 <= colon_count host -> (find_byte dot_ host = None \/ ptr_lt (find_byte colon_ host) (find_byte dot_ host) = true) -> Address_of einval host = Some (stored host INET6 0)).
Proof. intros Hl Hp Ho. auto using read_written_host, read_written_ipv6, read_plain_ipv6. Qed.
Definition loopback : bytes := [x3a; x3a; x31].
Definition node : bytes := [x6e; x31; x2e; x6c; x61; x6e].
Lemma addresses_read_back_witness :
  Address_of false (write_host node (Some 4567)) = Some (stored node UNSPEC 4567) /\ Address_of false (write_ipv6 loopback (Some 4567)) = Some (stored loopback INET6 4567) /\
  Address_of false loopback = Some (stored loopback INET6 0).
Proof.
  split; [|split].
  - apply (addresses_read_back false node (Some 4567)); [cbn; lia|cbn; lia|by apply (bool_decide_unpack _)|by apply (bool_decide_unpack _)].
  - apply (addresses_read_back false loopback (Some 4567)); [cbn; lia|cbn; lia|by apply (bool_decide_unpack _)|by apply (bool_decide_unpack _)].
  - apply (addresses_read_back false loopback None); [cbn; lia|done|by apply (bool_decide_unpack _)|done|by left].
Defined.

(** * Any string *)

(** The buffer holds a text from the string and its zero, or nothing. *)
Definition in_buffer s a : Prop :=
  length (m_address a) = 256%nat /\ sfits 32 (m_port a) /\
  (if m_valid a then 1 <= m_address_len a <= 256 /\ m_address a !! Z.to_nat (m_address_len a - 1) = Some x00 /\
                     exists pre post, s = pre ++ take (Z.to_nat (m_address_len a - 1)) (m_address a) ++ post
   else m_address a = replicate 256 x00 /\ m_address_len a = 0).
Definition empty_buffer a : Prop := m_address a = replicate 256 x00 /\ m_address_len a = 0 /\ sfits 32 (m_port a) /\ m_valid a = false.

Lemma empty_in_buffer s a : empty_buffer a -> in_buffer s a.
Proof. intros (A & B & C & D). unfold in_buffer. rewrite A, D. auto. Qed.
Lemma port_in_buffer einval a s at_ : empty_buffer a -> empty_buffer (snd (parse_port einval a s at_)).
Proof.
  intros (A & B & C & D). unfold parse_port. destruct (strtol _ _) as [v err]. destruct err; cbn; (split; [done|]); (split; [done|]); (split; [|done]); [split; cbn; lia|].
  apply swrap_range. lia.
Qed.
Lemma family_in_buffer a f : empty_buffer a -> empty_buffer (with_family a f).
Proof. done. Qed.
Lemma store_in_buffer a s start end_ : empty_buffer a -> 0 <= start <= Z.of_nat (length s) -> 0 <= end_ <= Z.of_nat (length s) -> Z.of_nat (length s) < 2 ^ 63 -> in_buffer s (store_address a s start end_).
Proof.
  intros (A & B & C & D) Hs He Hl. unfold store_address. destruct (Z.leb_spec 256 (uwrap 64 (end_ - start))) as [L|L].
  { apply empty_in_buffer. by split. }
  assert (Hlen : start <= end_ /\ uwrap 64 (end_ - start) = end_ - start).
  { destruct (Z.le_gt_cases start end_) as [H|H].
    - split; [done|]. apply uwrap_small. unfold ufits. change (2 ^ 64) with (2 * 2 ^ 63). lia.
    - exfalso. unfold uwrap in L. rewrite <- (Z.mod_add _ 1) in L by lia. rewrite Z.mod_small in L by (change (2 ^ 64) with (2 * 2 ^ 63); lia). change (2 ^ 64) with (2 * 2 ^ 63) in L. lia. }
  destruct Hlen as [Hse E]. rewrite E in *. set (n := Z.to_nat (end_ - start)) in *. set (t := take n (drop (Z.to_nat start) s)).
  assert (Ht : length t = n) by (unfold t; rewrite length_take, length_drop; lia).
  unfold in_buffer. cbn [m_address m_address_len m_port m_valid]. rewrite A. split; [|split; [done|]].
  - rewrite length_app, Ht. cbn [length]. rewrite length_drop, length_replicate. lia.
  - replace (end_ - start + 1 - 1) with (end_ - start) by lia. fold n. split; [lia|]. split.
    + rewrite lookup_app_r by lia. rewrite Ht, Nat.sub_diag. done.
    + exists (take (Z.to_nat start) s), (drop n (drop (Z.to_nat start) s)). rewrite take_app_length' by done. unfold t.
      rewrite take_drop. symmetry. apply take_drop.
Qed.
Lemma strchr_bounds s from c i : 0 <= from <= Z.of_nat (length s) -> strchr_at s from c = Some i -> from <= i < Z.of_nat (length s).
Proof.
  intros Hf E. unfold strchr_at in E. destruct (find_byte c (drop (Z.to_nat from) s)) as [k|] eqn:F; [|done]. injection E as <-.
  destruct (decide (c ∈ drop (Z.to_nat from) s)) as [H|H]; [|by rewrite find_byte_absent in F].
  destruct (find_byte_present _ _ H) as (k' & E' & Hk). rewrite F in E'. injection E' as <-. rewrite length_drop in Hk. lia.
Qed.

(** Whatever the string, the buffer is not overrun: a valid address is a text of the string and the zero after it, and the address is left empty when it is not valid.
    Nothing is read from a null pointer unless a bracket is open and none is closed, and then it always is. *)
Theorem any_address_in_buffer einval s : Z.of_nat (length s) < 2 ^ 63 ->
  match Address_of einval s with
  | Some a => (open_ ∉ s \/ close_ ∈ s) /\ in_buffer s a
  | None => open_ ∈ s /\ close_ ∉ s
  end.
Proof.
  intros Hl. assert (N : empty_buffer new_address) by (do 2 (split; [done|]); split; [unfold sfits; cbn; lia|done]).
  assert (W : forall a b e, empty_buffer a -> 0 <= b <= Z.of_nat (length s) -> 0 <= e <= Z.of_nat (length s) -> in_buffer s (store_address a s b e)) by (intros; by apply store_in_buffer).
  assert (P : forall at_, empty_buffer (snd (parse_port einval new_address s at_))) by (intros; by apply port_in_buffer).
  assert (R : forall c, 0 <= c < Z.of_nat (length s) -> exists a, (let (failed, a) := parse_port einval new_address s (c + 1) in if failed then Some a else Some (store_address a s 0 c)) = Some a /\ in_buffer s a).
  { intros c Hc. specialize (P (c + 1)). destruct (parse_port _ _ _ _) as [[] a]; eexists; (split; [reflexivity|]); [by apply empty_in_buffer|apply W; [exact P|lia|lia]]. }
  unfold Address_of, parse_addr. destruct (strchr_at s 0 open_) as [o|] eqn:O.
  - apply strchr_bounds in O as Ho; [|lia]. rewrite (bool_decide_true (is_Some (Some o))) by (by eexists). cbn [orb].
    destruct (strchr_at s 0 close_) as [e|] eqn:E.
    + apply strchr_bounds in E as He; [|lia]. rewrite (bool_decide_false (Some e = None)) by done. cbn [andb mbind option_bind].
      assert (Hc : close_ ∈ s) by (destruct (decide (close_ ∈ s)); [done|]; rewrite strchr_0, find_byte_absent in E; done).
      destruct (strchr_at s e colon_) as [p|]; [specialize (P (p + 1)); destruct (parse_port _ _ _ _) as [[] a]|]; cbn [snd] in *;
        (split; [by right|]); [by apply empty_in_buffer|apply W; [done|lia|lia]|apply W; [done|lia|lia]].
    + rewrite bool_decide_true by done. cbn. split.
      * destruct (decide (open_ ∈ s)); [done|]. rewrite strchr_0, find_byte_absent in O by done. done.
      * intros H. destruct (find_byte_present _ _ H) as (i & F & _). by rewrite strchr_0, F in E.
  - assert (Ho : open_ ∉ s) by (intros H; destruct (find_byte_present _ _ H) as (i & F & _); by rewrite strchr_0, F in O).
    destruct (strchr_at s 0 colon_) as [c|] eqn:C.
    + apply strchr_bounds in C as Hc; [|lia]. destruct (R c Hc) as (a & E & Ha).
      destruct (_ || _ || _); [|by rewrite E; auto]. destruct (colon_count s) as [|[| |]|]; cbn [mbind option_bind]; try (rewrite E; auto); (split; [by left|apply W; [done|lia|lia]]).
    + assert (Z0 : colon_count s = 0) by (apply colon_count_absent; intros H; destruct (find_byte_present _ _ H) as (i & F & _); by rewrite strchr_0, F in C).
      rewrite Z0. destruct (_ || _ || _); (split; [by left|apply W; [done|lia|lia]]).
Qed.
Lemma any_address_in_buffer_witness : (exists a, Address_of true [x2e; x3a] = Some a /\ in_buffer [x2e; x3a] a) /\ Address_of true [x5b; x3a] = None.
Proof.
  split; [|reflexivity]. pose proof (any_address_in_buffer true [x2e; x3a] ltac:(cbn; lia)) as H. destruct (Address_of true [x2e; x3a]) as [a|] eqn:E; [|discriminate E].
  exists a. split; [reflexivity|]. exact (proj2 H).
Defined.

(** What the parser lets pass: a bracket that is not closed is not refused but reads from a null pointer, although a test is there for it; a port is
    cut to 32 bits, is what its first digits say, and may be missing. *)
Theorem malformed_addresses :
  Address_of false (open_ :: loopback) = None /\
  Address_of false (node ++ colon_ :: decimal (2 ^ 32 + 80)) = Some (stored node UNSPEC 80) /\
  Address_of false (write_host node (Some 80) ++ [x78]) = Some (stored node UNSPEC 80) /\
  Address_of false (node ++ [colon_; x78]) = Some (stored node UNSPEC 0) /\
  Address_of false (node ++ [colon_; x2d; x38]) = Some (stored node UNSPEC (-8)).
Proof. vm_compute. auto. Qed.
