(* ===== verification/SqlWsrepGtid.v ===== *)
(** The numbers of the transactions of a cluster: [Wsrep_gtid_server] of [private/wsrep_mysqld.h], with the threads that wait for a number to be committed and those
    that tell them, and the queue of threads [Wsrep_thd_queue] of [private/wsrep_thd.h].

    The waiting is a step relation: the threads interleave at the mutex, the condition variable of each waiter and the two atomic counters.
    A waiter may wake without being signalled, and its time may run out at any moment.  An entry of the map of waiters is there as long as its thread is inside the loop, so the
    map is read off the states of the threads. *)

From S2P Require Import Prelude.

(** * The server *)

Record wsrep_server_gtid_t := mkGtid { g_domain_id : Z; g_server_id : Z; g_seqno : Z }.
Record Wsrep_gtid_server := mkServer { domain_id : Z; server_id : Z; m_seqno : Z; m_committed_seqno : Z; m_force_signal : bool }.
Implicit Types (v : Wsrep_gtid_server).
Definition new_server (domain server : Z) : Wsrep_gtid_server := mkServer domain server 0 0 false.
Definition set_gtid v (g : wsrep_server_gtid_t) : Wsrep_gtid_server := mkServer (g_domain_id g) (g_server_id g) (g_seqno g) (m_committed_seqno v) (m_force_signal v).
Definition gtid v : wsrep_server_gtid_t := mkGtid (domain_id v) (server_id v) (m_seqno v).
Definition set_seqno v (n : Z) : Wsrep_gtid_server := mkServer (domain_id v) (server_id v) n (m_committed_seqno v) (m_force_signal v).
Definition seqno_inc v : Z * Wsrep_gtid_server := let n := u64 (m_seqno v + 1) in (n, set_seqno v n).
Definition with_force v (b : bool) : Wsrep_gtid_server := mkServer (domain_id v) (server_id v) (m_seqno v) (m_committed_seqno v) b.
Definition with_committed v (n : Z) : Wsrep_gtid_server := mkServer (domain_id v) (server_id v) (m_seqno v) n (m_force_signal v).

(** * Waiting and signalling *)

Definition ENOMEM : Z := 12.
Definition ETIMEDOUT : Z := 110.
(** Where a thread is, with the number it waits for or signals. *)
Inductive pc :=
| WReady (s : Z)                      (** called [wait_gtid_upto] *)
| WHeld (s : Z)                       (** has the mutex *)
| WLoop (s ret : Z)                   (** has the mutex, is in the map, and is at the test of the loop *)
| WSleep (s : Z) (signalled : bool)   (** in [mysql_cond_timedwait] *)
| WWoken (s ret : Z)                  (** back from it but for the mutex *)
| WDone (s ret : Z)
| SReady (n : Z) (all : bool)         (** called [signal_waiters] *)
| SHeld (n : Z) (all : bool)
| SForced (n : Z) (all : bool)        (** [m_force_signal] is set *)
| SCommitted (n : Z) (all : bool)     (** [m_committed_seqno] is moved *)
| SSignalled (n : Z) (all : bool)     (** the waiters are signalled *)
| SDone.
Record sys := mkSys { server : Wsrep_gtid_server; holder : option nat; threads : gmap nat pc }.
Implicit Types (y : sys) (i : nat).
Definition go y i (p : pc) : sys := mkSys (server y) (holder y) (<[i := p]> (threads y)).
Definition take_lock y i (p : pc) : sys := mkSys (server y) (Some i) (<[i := p]> (threads y)).
Definition release_lock y i (p : pc) : sys := mkSys (server y) None (<[i := p]> (threads y)).
Definition with_server y v : sys := mkSys v (holder y) (threads y).
(** The condition of a waiter is signalled when its entry is before [it_end]. *)
Definition signal_entry (n : Z) (all : bool) (p : pc) : pc := match p with WSleep s _ => if all || (s <=? n) then WSleep s true else p | _ => p end.
Definition loop_goes_on v (s ret : Z) : bool := (ret =? 0) && (m_committed_seqno v <? s) && negb (m_force_signal v).

Inductive gtid_step : sys -> sys -> Prop :=
| wait_lock y i s : threads y !! i = Some (WReady s) -> holder y = None -> gtid_step y (take_lock y i (WHeld s))
| wait_not_needed y i s : threads y !! i = Some (WHeld s) -> ~ m_seqno (server y) < s -> gtid_step y (release_lock y i (WDone s 0))
| wait_insert y i s : threads y !! i = Some (WHeld s) -> m_seqno (server y) < s -> gtid_step y (go y i (WLoop s 0))
| wait_no_memory y i s : threads y !! i = Some (WHeld s) -> m_seqno (server y) < s -> gtid_step y (release_lock y i (WDone s ENOMEM))
| wait_sleep y i s ret : threads y !! i = Some (WLoop s ret) -> loop_goes_on (server y) s ret = true -> gtid_step y (release_lock y i (WSleep s false))
| wait_erase y i s ret : threads y !! i = Some (WLoop s ret) -> loop_goes_on (server y) s ret = false -> gtid_step y (release_lock y i (WDone s ret))
| wait_wake y i s b : threads y !! i = Some (WSleep s b) -> gtid_step y (go y i (WWoken s 0))
| wait_timeout y i s b : threads y !! i = Some (WSleep s b) -> gtid_step y (go y i (WWoken s ETIMEDOUT))
| wait_relock y i s ret : threads y !! i = Some (WWoken s ret) -> holder y = None -> gtid_step y (take_lock y i (WLoop s ret))
| signal_lock y i n all : threads y !! i = Some (SReady n all) -> holder y = None -> gtid_step y (take_lock y i (SHeld n all))
| signal_not_needed y i n : threads y !! i = Some (SHeld n false) -> n <= m_committed_seqno (server y) -> gtid_step y (release_lock y i SDone)
| signal_force y i n all : threads y !! i = Some (SHeld n all) -> (all = true \/ m_committed_seqno (server y) < n) -> gtid_step y (with_server (go y i (SForced n all)) (with_force (server y) true))
| signal_commit y i n all : threads y !! i = Some (SForced n all) ->
    gtid_step y (with_server (go y i (SCommitted n all)) (if m_committed_seqno (server y) <? n then with_committed (server y) n else server y))
| signal_entries y i n all : threads y !! i = Some (SCommitted n all) -> gtid_step y (mkSys (server y) (holder y) (<[i := SSignalled n all]> (signal_entry n all <$> threads y)))
| signal_done y i n all : threads y !! i = Some (SSignalled n all) -> gtid_step y (with_server (release_lock y i SDone) (with_force (server y) false))
| number_moves y n : gtid_step y (with_server y (set_seqno (server y) n))
| number_taken y : gtid_step y (with_server y (snd (seqno_inc (server y)))).

(** The threads begin with calls. *)
Definition is_call (p : pc) : Prop := match p with WReady _ | SReady _ _ => True | _ => False end.
Definition gtid_start y : Prop := m_force_signal (server y) = false /\ holder y = None /\ map_Forall (fun _ p => is_call p) (threads y).
Definition gtid_reachable y : Prop := exists y0, gtid_start y0 /\ rtc gtid_step y0 y.

(** * The invariant *)

Definition holds_lock (p : pc) : bool := match p with WHeld _ | WLoop _ _ | SHeld _ _ | SForced _ _ | SCommitted _ _ | SSignalled _ _ => true | _ => false end.
Definition has_forced (p : pc) : bool := match p with SForced _ _ | SCommitted _ _ | SSignalled _ _ => true | _ => false end.
Record gtid_inv y : Prop := {
  gi_holder : forall i p, threads y !! i = Some p -> holds_lock p = true <-> holder y = Some i;
  gi_force : forall i p, threads y !! i = Some p -> holder y = Some i -> m_force_signal (server y) = has_forced p;
  gi_free : holder y = None -> m_force_signal (server y) = false;
  gi_sleep : forall i s, threads y !! i = Some (WSleep s false) -> m_committed_seqno (server y) < s \/ exists j n all, threads y !! j = Some (SCommitted n all) /\ s <= n }.

Lemma gtid_start_inv y : gtid_start y -> gtid_inv y.
Proof.
  intros (F & H & C). split; [|by rewrite H|done|].
  - intros i p Hp. specialize (C i p Hp). rewrite H. by destruct p.
  - intros i s Hp. by specialize (C i _ Hp).
Qed.
(** The lock is held by nobody else. *)
Lemma other_not_holding y i j p q : gtid_inv y -> threads y !! i = Some p -> holds_lock p = true -> threads y !! j = Some q -> i <> j -> holds_lock q = false.
Proof.
  intros I Hi Hp Hj N. apply not_true_is_false. intros Hq. apply (gi_holder _ I) with (i := i) in Hp; [|done]. apply (gi_holder _ I) with (i := j) in Hq; [|done]. congruence.
Qed.
(** A step of a thread that keeps or has no lock: what the others see does not change. *)
Lemma go_inv y i p q : gtid_inv y -> threads y !! i = Some p -> holds_lock q = holds_lock p -> has_forced q = has_forced p ->
  (forall n all, p <> SCommitted n all) -> (forall s, q <> WSleep s false) -> gtid_inv (go y i q).
Proof.
  intros I Hp Hl Hf Hc Hs. split; cbn.
  - intros j r [[<- <-]|[N Hr]]%lookup_insert_Some; [rewrite Hl; by apply I|by apply I].
  - intros j r [[<- <-]|[N Hr]]%lookup_insert_Some Hh; [rewrite Hf; by apply (gi_force _ I i)|by apply (gi_force _ I j)].
  - apply I.
  - intros j s [[<- E]|[N Hr]]%lookup_insert_Some; [by destruct (Hs s)|]. destruct (gi_sleep _ I j s Hr) as [L|(k & n & all & Hk & L)]; [by left|right].
    exists k, n, all. split; [|done]. rewrite lookup_insert_ne; [done|]. intros <-. rewrite Hp in Hk. injection Hk as ->. by destruct (Hc n all).
Qed.
Lemma take_lock_inv y i p q : gtid_inv y -> threads y !! i = Some p -> holder y = None -> holds_lock q = true -> has_forced q = false -> gtid_inv (take_lock y i q).
Proof.
  intros I Hp Hn Hl Hf. assert (F : forall j r, threads y !! j = Some r -> holds_lock r = false).
  { intros j r Hr. apply not_true_is_false. intros E. apply (gi_holder _ I) with (i := j) in E; [|done]. congruence. }
  split; cbn.
  - intros j r [[<- <-]|[N Hr]]%lookup_insert_Some; [done|]. rewrite (F j r Hr). split; [done|congruence].
  - intros j r [[<- <-]|[N Hr]]%lookup_insert_Some Hh; [rewrite Hf; by apply I|congruence].
  - done.
  - intros j s [[<- ->]|[N Hr]]%lookup_insert_Some; [done|]. destruct (gi_sleep _ I j s Hr) as [L|(k & n & all & Hk & L)]; [by left|]. by apply F in Hk.
Qed.
Lemma release_inv y i p q : gtid_inv y -> threads y !! i = Some p -> holds_lock p = true -> has_forced p = false -> holds_lock q = false ->
  (forall s, q = WSleep s false -> m_committed_seqno (server y) < s) -> gtid_inv (release_lock y i q).
Proof.
  intros I Hp Hl Hf Hq Hs. assert (O := fun j r => other_not_holding y i j p r I Hp Hl).
  split; cbn.
  - intros j r [[<- <-]|[N Hr]]%lookup_insert_Some; [by rewrite Hq|]. rewrite (O j r Hr N). done.
  - done.
  - intros _. rewrite (gi_force _ I i p Hp); [done|]. by apply (gi_holder _ I i p Hp).
  - intros j s [[<- ->]|[N Hr]]%lookup_insert_Some; [left; by apply Hs|]. destruct (gi_sleep _ I j s Hr) as [L|(k & n & all & Hk & L)]; [by left|].
    destruct (decide (i = k)) as [<-|Nk]; [rewrite Hp in Hk; by injection Hk as ->|]. by apply O in Hk.
Qed.
(** A step of the signaller that has the lock. *)
Lemma signaller_inv y i p q v : gtid_inv y -> threads y !! i = Some p -> holds_lock p = true -> holds_lock q = true -> m_force_signal v = has_forced q ->
  (forall s, q <> WSleep s false) -> (forall n all, p <> SCommitted n all) ->
  (forall s, m_committed_seqno (server y) < s -> m_committed_seqno v < s \/ exists n all, q = SCommitted n all /\ s <= n) -> gtid_inv (with_server (go y i q) v).
Proof.
  intros I Hp Hl Hq Hv Hs Hc Hm. assert (Hh : holder y = Some i) by (by apply (gi_holder _ I i p Hp)). assert (O := fun j r => other_not_holding y i j p r I Hp Hl).
  split; cbn.
  - intros j r [[<- <-]|[N Hr]]%lookup_insert_Some; [by rewrite Hq, Hh|]. rewrite (O j r Hr N), Hh. split; [done|congruence].
  - intros j r [[<- <-]|[N Hr]]%lookup_insert_Some E; [done|congruence].
  - congruence.
  - intros j s [[<- E]|[N Hr]]%lookup_insert_Some; [by destruct (Hs s)|]. destruct (gi_sleep _ I j s Hr) as [L|(k & n & all & Hk & L)].
    + destruct (Hm s L) as [?|(n & all & -> & ?)]; [by left|right]. exists i, n, all. split; [apply lookup_insert_eq|done].
    + destruct (decide (i = k)) as [<-|Nk]; [rewrite Hp in Hk; injection Hk as ->; by destruct (Hc n all)|]. by apply O in Hk.
Qed.
Lemma entries_inv y i n all : gtid_inv y -> threads y !! i = Some (SCommitted n all) -> gtid_inv (mkSys (server y) (holder y) (<[i := SSignalled n all]> (signal_entry n all <$> threads y))).
Proof.
  intros I Hp. assert (Hh : holder y = Some i) by (by apply (gi_holder _ I i _ Hp)).
  assert (O : forall j r, threads y !! j = Some r -> i <> j -> holds_lock r = false) by (intros j r Hr N; exact (other_not_holding y i j _ r I Hp eq_refl Hr N)).
  assert (E : forall r, holds_lock (signal_entry n all r) = holds_lock r) by (intros []; cbn; try done; by destruct (_ || _)).
  split; cbn.
  - intros j r [[<- <-]|[N Hr]]%lookup_insert_Some; [by rewrite Hh|]. rewrite lookup_fmap in Hr. destruct (threads y !! j) as [r'|] eqn:Hj; [|done]. injection Hr as <-.
    rewrite E, (O j r' Hj N), Hh. split; [done|congruence].
  - intros j r [[<- <-]|[N Hr]]%lookup_insert_Some Hh'; [exact (gi_force _ I i _ Hp Hh)|congruence].
  - congruence.
  - intros j s [[<- F]|[N Hr]]%lookup_insert_Some; [done|]. rewrite lookup_fmap in Hr. destruct (threads y !! j) as [r'|] eqn:Hj; [|done]. cbn in Hr. injection Hr as Hr.
    destruct r'; try discriminate Hr. cbn in Hr. destruct (all || (s0 <=? n)) eqn:G; [discriminate Hr|]. injection Hr as -> ->. apply orb_false_iff in G as [-> G]. apply Z.leb_gt in G.
    destruct (gi_sleep _ I j s Hj) as [L|(k & n' & all' & Hk & L)]; [by left|]. destruct (decide (i = k)) as [<-|Nk]; [|by apply O in Hk].
    rewrite Hp in Hk. injection Hk as -> ->. lia.
Qed.
Lemma gtid_step_inv y y' : gtid_inv y -> gtid_step y y' -> gtid_inv y'.
Proof.
  intros I Hs. destruct Hs as [y i s H F|y i s H L|y i s H L|y i s H L|y i s r H L|y i s r H L|y i s b H|y i s b H|y i s r H F|y i n a H F|y i n H L|y i n a H L|y i n a H|y i n a H|y i n a H|y n|y].
  - by eapply take_lock_inv.
  - by eapply release_inv.
  - by eapply go_inv.
  - by eapply release_inv.
  - eapply release_inv; try done. intros s' [= <-]. unfold loop_goes_on in L. rewrite !andb_true_iff, Z.ltb_lt in L. tauto.
  - by eapply release_inv.
  - by eapply go_inv.
  - by eapply go_inv.
  - by eapply take_lock_inv.
  - by eapply take_lock_inv.
  - by eapply release_inv.
  - eapply signaller_inv; try done. intros s Hs. by left.
  - eapply signaller_inv; try done; [|intros s Hs].
    + pose proof (gi_force _ I i _ H (proj1 (gi_holder _ I i _ H) eq_refl)). by destruct (_ <? _).
    + destruct (Z.ltb_spec (m_committed_seqno (server y)) n); [|by left]. destruct (Z.lt_ge_cases n s); [by left|right]. by exists n, a.
  - by apply entries_inv.
  - assert (O : forall j r, threads y !! j = Some r -> i <> j -> holds_lock r = false) by (intros j r Hr N; exact (other_not_holding y i j _ r I H eq_refl Hr N)).
    split; cbn; [|done|done|].
    + intros j r [[<- <-]|[N Hr]]%lookup_insert_Some; [done|]. by rewrite (O j r Hr N).
    + intros j s [[<- F]|[N Hr]]%lookup_insert_Some; [done|]. destruct (gi_sleep _ I j s Hr) as [L|(k & n' & all' & Hk & L)]; [by left|].
      destruct (decide (i = k)) as [<-|Nk]; [congruence|]. by apply O in Hk.
  - destruct I. by split.
  - destruct I. by split.
Qed.
Lemma gtid_reachable_inv y : gtid_reachable y -> gtid_inv y.
Proof.
  intros (y0 & S & R). apply gtid_start_inv in S. induction R as [|x z u Hs _ IH]; [done|]. apply IH. by eapply gtid_step_inv.
Qed.

(** What is known of the results and of the numbers signalled. *)
Definition pc_ok (committed : Z) (p : pc) : Prop :=
  match p with WLoop _ r | WWoken _ r => r = 0 \/ r = ETIMEDOUT | SCommitted n _ | SSignalled n _ => n <= committed | _ => True end.
Definition pcs_ok y : Prop := map_Forall (fun _ p => pc_ok (m_committed_seqno (server y)) p) (threads y).
Lemma pc_ok_mono c c' p : c <= c' -> pc_ok c p -> pc_ok c' p.
Proof. destruct p; cbn; try done; lia. Qed.
Lemma insert_ok (c : Z) (m : gmap nat pc) i p : map_Forall (fun _ p => pc_ok c p) m -> pc_ok c p -> map_Forall (fun _ p => pc_ok c p) (<[i := p]> m).
Proof. intros F H j q [[<- <-]|[_ Hq]]%lookup_insert_Some; [done|]. by apply (F j). Qed.
Lemma committed_step y y' : gtid_step y y' -> m_committed_seqno (server y) <= m_committed_seqno (server y').
Proof. intros Hs. destruct Hs; cbn; try done. destruct (Z.ltb_spec (m_committed_seqno (server y)) n); cbn; lia. Qed.
Lemma pcs_ok_step y y' : pcs_ok y -> gtid_step y y' -> pcs_ok y'.
Proof.
  unfold pcs_ok. intros P Hs.
  destruct Hs as [y i s H F|y i s H L|y i s H L|y i s H L|y i s r H L|y i s r H L|y i s b H|y i s b H|y i s r H F|y i n a H F|y i n H L|y i n a H L|y i n a H|y i n a H|y i n a H|y n|y];
    try exact P; pose proof (P i _ H) as Hp; cbn in Hp |- *; try (apply insert_ok; [exact P|cbn; auto]).
  - apply insert_ok.
    + intros j q Hq. apply (pc_ok_mono (m_committed_seqno (server y))); [destruct (Z.ltb_spec (m_committed_seqno (server y)) n); cbn; lia|by apply (P j)].
    + cbn. destruct (Z.ltb_spec (m_committed_seqno (server y)) n); cbn; lia.
  - apply insert_ok; [|exact Hp]. intros j q Hq. rewrite lookup_fmap in Hq. destruct (threads y !! j) as [r|] eqn:Hj; [|done]. injection Hq as <-. specialize (P j r Hj).
    destruct r; cbn in *; try done. by destruct (_ || _).
Qed.
Lemma gtid_reachable_ok y : gtid_reachable y -> pcs_ok y.
Proof.
  intros (y0 & (F & H & C) & R). assert (P : pcs_ok y0) by (intros i p Hp; specialize (C i p Hp); by destruct p).
  clear C F H. induction R as [|x z u Hs _ IH]; [done|]. apply IH. by eapply pcs_ok_step.
Qed.

(** C25.  No waiter sleeps over its number: at any moment at which nobody is in the critical sections, a thread that sleeps, and has not been signalled, waits for a number
    above all that were committed; whoever else it was, once its number is committed and the lock is free it can wake, and then it returns zero. *)
Theorem committed_waiters_wake y i s b : gtid_reachable y -> threads y !! i = Some (WSleep s b) -> holder y = None ->
  (b = false -> m_committed_seqno (server y) < s) /\
  (s <= m_committed_seqno (server y) -> b = true /\ exists y', rtc gtid_step y y' /\ threads y' !! i = Some (WDone s 0) /\ server y' = server y /\ holder y' = None).
Proof.
  intros R H F. pose proof (gtid_reachable_inv y R) as I.
  assert (N : b = false -> m_committed_seqno (server y) < s).
  { intros ->. destruct (gi_sleep _ I i s H) as [L|(k & n & all & Hk & L)]; [done|]. apply (gi_holder _ I k _) in Hk as [Hk _]. rewrite Hk in F by done. done. }
  split; [done|]. intros L. split; [destruct b; [done|]; specialize (N eq_refl); lia|].
  eexists. split; [|split; [|split]].
  - eapply rtc_l; [by eapply wait_wake|]. eapply rtc_l; [eapply (wait_relock _ i s 0); cbn; [apply lookup_insert_eq|done]|].
    eapply rtc_once, (wait_erase _ i s 0); cbn; [apply lookup_insert_eq|]. unfold loop_goes_on. rewrite (proj2 (Z.ltb_ge _ s)) by lia. done.
  - apply lookup_insert_eq.
  - done.
  - done.
Qed.

(** A waiter returns zero only when its number had been given out or committed, and an error only when memory or time ran out; the mark with which all waiters are to
    be let go is never seen by a waiter, since it is set and taken back under the mutex, so that waking all of them frees none whose number is not committed. *)
Theorem waiters_return_for_a_reason y y' i s ret : gtid_reachable y -> gtid_step y y' -> threads y !! i <> Some (WDone s ret) -> threads y' !! i = Some (WDone s ret) ->
  (ret = 0 /\ (s <= m_seqno (server y) \/ s <= m_committed_seqno (server y))) \/ ret = ENOMEM \/ ret = ETIMEDOUT.
Proof.
  intros R Hs Hn Hd. pose proof (gtid_reachable_inv y R) as I. pose proof (gtid_reachable_ok y R) as O.
  destruct Hs as [y j s' H F|y j s' H L|y j s' H L|y j s' H L|y j s' r H L|y j s' r H L|y j s' b H|y j s' b H|y j s' r H F|y j n a H F|y j n H L|y j n a H L|y j n a H|y j n a H|y j n a H|y n|y];
    cbn in Hd; try done;
    try (apply lookup_insert_Some in Hd as [[<- E]|[N Hd]]; [try discriminate E|done]).
  - injection E as -> ->. left. split; [done|]. left. lia.
  - injection E as -> ->. right. by left.
  - injection E as -> ->. destruct (O j _ H) as [-> | ->]; [|by right; right]. left. split; [done|]. right.
    assert (Fo : m_force_signal (server y) = false) by exact (gi_force _ I j _ H (proj1 (gi_holder _ I j _ H) eq_refl)).
    unfold loop_goes_on in L. rewrite Fo in L. cbn in L. rewrite andb_true_r in L. apply Z.ltb_ge in L. lia.
  - apply lookup_insert_Some in Hd as [[<- E]|[N Hd]]; [discriminate E|]. rewrite lookup_fmap in Hd. destruct (threads y !! i) as [p|]; [|done]. cbn in Hd. injection Hd as Hd.
    destruct p; cbn in Hd; try discriminate Hd; [by destruct (_ || _)|]. injection Hd as -> ->. by destruct Hn.
Qed.

(** The committed number never goes back, and when a call that signals a number returns, that number or a greater one is the committed one. *)
Theorem committed_number_grows y y' : gtid_reachable y -> gtid_step y y' ->
  m_committed_seqno (server y) <= m_committed_seqno (server y') /\
  (forall i p, threads y !! i = Some p -> p <> SDone -> threads y' !! i = Some SDone -> exists n all, (p = SHeld n all \/ p = SSignalled n all) /\ n <= m_committed_seqno (server y')).
Proof.
  intros R Hs. split; [by apply committed_step|]. intros i p Hp Np Hd. pose proof (gtid_reachable_ok y R) as O.
  destruct Hs as [y j s' H F|y j s' H L|y j s' H L|y j s' H L|y j s' r H L|y j s' r H L|y j s' b H|y j s' b H|y j s' r H F|y j n a H F|y j n H L|y j n a H L|y j n a H|y j n a H|y j n a H|y n|y];
    cbn in Hd |- *; try congruence;
    try (apply lookup_insert_Some in Hd as [[<- E]|[N Hd]]; [try discriminate E|congruence]).
  - rewrite H in Hp. injection Hp as <-. exists n, false. split; [by left|done].
  - apply lookup_insert_Some in Hd as [[<- E]|[N Hd]]; [discriminate E|]. rewrite lookup_fmap, Hp in Hd. cbn in Hd. injection Hd as Hd. destruct p; cbn in Hd; try done. by destruct (_ || _).
  - rewrite H in Hp. injection Hp as <-. exists n, a. split; [by right|]. exact (O j _ H).
Qed.

Lemma rtc_of_eq (y y' : sys) : y = y' -> rtc gtid_step y y'.
Proof. intros ->. apply rtc_refl. Qed.

(** ** A waiter and a call that lets all go *)

Definition example_server : Wsrep_gtid_server := new_server 1 1.
Definition example_start : sys := mkSys example_server None {[0%nat := WReady 5; 1%nat := SReady 3 true]}.
(** The waiter sleeps; the other signals all. *)
Definition waiter_sleeps : sys := mkSys example_server None {[0%nat := WSleep 5 false; 1%nat := SReady 3 true]}.
Lemma example_start_ok : gtid_start example_start.
Proof.
  do 2 (split; [done|]). unfold example_start. cbn [threads]. intros i p [[<- <-]|[_ H]]%lookup_insert_Some; [done|]. apply lookup_singleton_Some in H as [<- <-]. done.
Qed.
Lemma waiter_sleeps_reached : gtid_reachable waiter_sleeps.
Proof.
  exists example_start. split; [apply example_start_ok|].
  eapply rtc_l; [by apply (wait_lock _ 0%nat 5)|]. eapply rtc_l; [by apply (wait_insert _ 0%nat 5)|]. eapply rtc_l; [by apply (wait_sleep _ 0%nat 5 0)|].
  unfold waiter_sleeps. apply rtc_of_eq. reflexivity.
Qed.
Lemma committed_waiters_wake_witness : m_committed_seqno (server waiter_sleeps) < 5.
Proof. exact (proj1 (committed_waiters_wake waiter_sleeps 0 5 false waiter_sleeps_reached eq_refl eq_refl) eq_refl). Defined.

(** A call that lets all waiters go, made while a thread waits for a number that is not committed, wakes the thread, which sleeps again: the call returns and the thread still
    waits, unless its time runs out. *)
Theorem letting_all_go_frees_none : rtc gtid_step waiter_sleeps (mkSys (with_committed example_server 3) None {[0%nat := WSleep 5 false; 1%nat := SDone]}) /\
  forall y i s, gtid_reachable y -> threads y !! i = Some (WLoop s 0) -> m_committed_seqno (server y) < s -> gtid_step y (release_lock y i (WSleep s false)) /\ forall y' ret, gtid_step y y' -> threads y' !! i <> Some (WDone s ret).
Proof.
  split.
  - eapply rtc_l; [by apply (signal_lock _ 1%nat 3 true)|]. eapply rtc_l; [apply (signal_force _ 1%nat 3 true); [done|by left]|].
    eapply rtc_l; [by apply (signal_commit _ 1%nat 3 true)|]. eapply rtc_l; [by apply (signal_entries _ 1%nat 3 true)|]. eapply rtc_l; [by apply (signal_done _ 1%nat 3 true)|].
    eapply rtc_l; [by apply (wait_wake _ 0%nat 5 true)|]. eapply rtc_l; [by apply (wait_relock _ 0%nat 5 0)|]. eapply rtc_l; [by apply (wait_sleep _ 0%nat 5 0)|].
    apply rtc_of_eq. reflexivity.
  - intros y i s R H L. pose proof (gtid_reachable_inv y R) as I.
    assert (Fo : m_force_signal (server y) = false) by exact (gi_force _ I i _ H (proj1 (gi_holder _ I i _ H) eq_refl)).
    assert (G : loop_goes_on (server y) s 0 = true) by (unfold loop_goes_on; rewrite Fo, (proj2 (Z.ltb_lt _ s)) by lia; done).
    split; [by eapply wait_sleep|]. intros y' ret Hs Hd. pose proof (committed_step y y' Hs) as _.
    destruct Hs as [y j s' H' F|y j s' H' L'|y j s' H' L'|y j s' H' L'|y j s' r H' L'|y j s' r H' L'|y j s' b H'|y j s' b H'|y j s' r H' F|y j n a H' F|y j n H' L'|y j n a H' L'|y j n a H'|y j n a H'|y j n a H'|y n|y];
      cbn in Hd; try congruence; try (apply lookup_insert_Some in Hd as [[<- E]|[N Hd]]; [|congruence]; congruence).
    apply lookup_insert_Some in Hd as [[<- E]|[N Hd]]; [discriminate E|]. rewrite lookup_fmap, H in Hd. discriminate Hd.
Qed.
Lemma letting_all_go_frees_none_witness : rtc gtid_step waiter_sleeps (mkSys (with_committed example_server 3) None {[0%nat := WSleep 5 false; 1%nat := SDone]}).
Proof. exact (proj1 letting_all_go_frees_none). Defined.

Definition not_needed : sys := mkSys example_server (Some 0%nat) {[0%nat := WHeld 0]}.
Lemma not_needed_reached : gtid_reachable not_needed.
Proof.
  exists (mkSys example_server None {[0%nat := WReady 0]}). split; [do 2 (split; [done|]); cbn; by apply map_Forall_singleton|].
  eapply rtc_l; [by apply (wait_lock _ 0%nat 0)|]. apply rtc_of_eq. reflexivity.
Qed.
Lemma waiters_return_for_a_reason_witness : (0 = 0 /\ (0 <= 0 \/ 0 <= 0)) \/ 0 = ENOMEM \/ 0 = ETIMEDOUT.
Proof.
  apply (waiters_return_for_a_reason not_needed (release_lock not_needed 0 (WDone 0 0)) 0 0 0 not_needed_reached); [|discriminate|reflexivity].
  apply wait_not_needed; [reflexivity|cbn; lia].
Defined.
Lemma committed_number_grows_witness : m_committed_seqno (server not_needed) <= m_committed_seqno (server (release_lock not_needed 0 (WDone 0 0))).
Proof. apply (committed_number_grows not_needed); [apply not_needed_reached|]. apply wait_not_needed; [reflexivity|cbn; lia]. Defined.

(** * The queue of threads *)

(** The threads in the queue, front first. *)
Implicit Types (q : list Z).
Definition in_queue q (thd : Z) : bool := existsb (Z.eqb thd) q.
Definition thd_push_back q (thd : Z) : bool * list Z := if in_queue q thd then (true, q) else (false, q ++ [thd]).
(** One turn of the loop of [pop_front]: it waits, or returns null because its thread was killed, or the front. *)
Inductive pop_result := PopWaits | PopNull | PopThread (thd : Z).
Definition thd_pop_front q (killed : bool) : pop_result * list Z :=
  match q with [] => (if killed then PopNull else PopWaits, []) | t :: q => (PopThread t, q) end.
Inductive queue_op := Push (thd : Z) | Pop (killed : bool).
(** The queue, the threads accepted and the threads given out, oldest first. *)
Definition queue_step (st : list Z * list Z * list Z) (op : queue_op) : list Z * list Z * list Z :=
  let '(q, accepted, given) := st in
  match op with
  | Push t => let (present, q) := thd_push_back q t in (q, if present then accepted else accepted ++ [t], given)
  | Pop killed => match thd_pop_front q killed with (PopThread t, q) => (q, accepted, given ++ [t]) | (_, q) => (q, accepted, given) end
  end.
Lemma in_queue_spec q (t : Z) : in_queue q t = true <-> t ∈ q.
Proof.
  unfold in_queue. rewrite existsb_exists. split; [intros (x & H & E); apply Z.eqb_eq in E as ->; by apply list_elem_of_In|].
  intros H. exists t. split; [by apply list_elem_of_In|apply Z.eqb_refl].
Qed.

(** However pushing and popping alternate, no thread is in the queue twice, a thread is refused exactly when it is in it, and the threads are given out in the order in which they were accepted,
    each as often as it was accepted: a pop waits or answers null only when the queue is empty. *)
Theorem thd_queue_is_fifo (ops : list queue_op) :
  let '(q, accepted, given) := foldl queue_step ([], [], []) ops in
  NoDup q /\ accepted = given ++ q /\ (forall t, fst (thd_push_back q t) = true <-> t ∈ q) /\
  (forall killed, match fst (thd_pop_front q killed) with PopThread t => head q = Some t | PopNull => q = [] /\ killed = true | PopWaits => q = [] /\ killed = false end).
Proof.
  assert (G : forall st, NoDup (fst (fst st)) /\ snd (fst st) = snd st ++ fst (fst st) ->
    NoDup (fst (fst (foldl queue_step st ops))) /\ snd (fst (foldl queue_step st ops)) = snd (foldl queue_step st ops) ++ fst (fst (foldl queue_step st ops))).
  { induction ops as [|op ops IH]; intros st H; [exact H|]. cbn [foldl]. apply IH. clear IH. destruct st as [[q a] g]. cbn [fst snd] in *. destruct H as [N ->].
    destruct op as [t|killed]; cbn [queue_step].
    - unfold thd_push_back. destruct (in_queue q t) eqn:E; cbn [fst snd]; [done|]. split; [|by rewrite app_assoc].
      apply NoDup_app. split; [done|]. split; [|apply NoDup_singleton]. intros x Hx ->%list_elem_of_singleton. apply in_queue_spec in Hx. congruence.
    - destruct q as [|t q]; cbn; [by destruct killed|]. apply NoDup_cons in N as [_ N]. split; [done|]. by rewrite <- app_assoc. }
  specialize (G ([], [], []) (conj (NoDup_nil_2) eq_refl)). destruct (foldl queue_step ([], [], []) ops) as [[q a] g]. cbn [fst snd] in G. destruct G as [N E].
  do 2 (split; [done|]). split.
  - intros t. rewrite <- in_queue_spec. unfold thd_push_back. by destruct (in_queue q t).
  - intros killed. by destruct q as [|t q], killed.
Qed.
