(* ===== verification/SqlWsrep.v ===== *)
(** The hooks by which a session takes part in a cluster: [private/wsrep_trans_observer.h], with [wsrep_override_error] of [private/wsrep_thd.h].

    The state of the client and of its transaction is in a library that is a parameter: what it answers when asked and what its operations return depend on the calls that were
    made, which are recorded in a trace.  So are the few functions of the server that are in [.cc] files. The numbers of transactions are those of [SqlWsrepGtid]. *)

From S2P Require Import Prelude SqlError SqlWsrepGtid.

(** * The library and the session *)

(** The states the code names, and the others. *)
Inductive client_state := s_none | s_other_client.
Inductive trx_state := s_executing | s_committing | s_committed | s_must_abort | s_must_replay | s_aborting | s_aborted | s_other_trx.
#[export] Instance client_state_eq_dec : EqDecision client_state.
Proof. solve_decision. Defined.
#[export] Instance trx_state_eq_dec : EqDecision trx_state.
Proof. solve_decision. Defined.
Inductive wcall :=
| start_transaction (id : Z) | after_row | before_prepare | after_prepare | before_commit | ordered_commit | after_commit | before_rollback | after_rollback
| before_statement | after_statement | after_applying | cs_open (id : Z) | enable_streaming (unit_ size : Z) | cs_close | cs_cleanup | wait_rollback_complete
| before_command (keep : bool) | after_command_before_result | after_command_after_result
| parallel_slave_wait_for_prior_commit | wsrep_register_for_group_commit | wsrep_unregister_from_group_commit | wsrep_thd_binlog_stmt_rollback | wsrep_thd_self_abort
| override_lock_deadlock.
Abbreviation wtrace := (list (wcall * Z)).
(** What is asked of the library, at a moment given by the calls so far, and what its operations return. *)
Class Wsrep_lib := {
  cs_state : wtrace -> client_state; cs_mode_local : wtrace -> bool; thd_applying : wtrace -> bool; thd_local : wtrace -> bool;
  trx_active : wtrace -> bool; trx_state_of : wtrace -> trx_state; trx_ordered : wtrace -> bool; trx_is_empty : wtrace -> bool; trx_bf_aborted : wtrace -> bool;
  trx_is_streaming : wtrace -> bool; fragments_certified : wtrace -> Z; fragment_size : wtrace -> Z;
  ws_gtid : wtrace -> Z; ws_gtid_undefined : wtrace -> bool; ws_commit_flag : wtrace -> bool; current_error : wtrace -> Z;
  returns : wtrace -> wcall -> Z }.

Record table := mkTable { key_info : bool; primary_key : Z }.
Definition WSREP_MAX_KEY : Z := 64.
(** The session, and an XID as the number of the library and that of the server it is made of; [None] is the null XID. *)
Record session := mkSession { internal_transaction : bool; all_ha_list : bool; in_active_multi_stmt_transaction : bool; wsrep_applier : bool; thread_id : Z; open_tables : list table;
  gtid_seq_no : Z; gtid_domain_id : Z; var_server_id : Z; var_wsrep_gtid_seq_no : Z; fragment_unit : Z; trx_fragment_size : Z; next_trx_id : Z;
  wsrep_current_gtid_seqno : Z; wsrep_xid : option (Z * wsrep_server_gtid_t) }.
Record settings := mkSettings { wsrep_certify_nonPK : bool; wsrep_emulate_bin_log : bool; log_is_open : bool; wsrep_gtid_mode : bool; WSREP_ON_ : bool; WSREP_PROVIDER_EXISTS_ : bool }.
Record wworld := mkW { thd : session; gtid_server : Wsrep_gtid_server; calls : wtrace }.
Implicit Types (w : wworld) (x : session).
Definition with_thd w x : wworld := mkW x (gtid_server w) (calls w).
Definition with_gtid_server w (g : Wsrep_gtid_server) : wworld := mkW (thd w) g (calls w).
Definition with_xid x (xid : option (Z * wsrep_server_gtid_t)) : session :=
  mkSession (internal_transaction x) (all_ha_list x) (in_active_multi_stmt_transaction x) (wsrep_applier x) (thread_id x) (open_tables x) (gtid_seq_no x) (gtid_domain_id x) (var_server_id x)
    (var_wsrep_gtid_seq_no x) (fragment_unit x) (trx_fragment_size x) (next_trx_id x) (wsrep_current_gtid_seqno x) xid.
(** The number of a transaction, with the variables for the binary log when it is written. *)
Definition with_number x (requested current : Z) (log : option (Z * Z * Z)) : session :=
  let '(seq, dom, srv) := default (gtid_seq_no x, gtid_domain_id x, var_server_id x) log in
  mkSession (internal_transaction x) (all_ha_list x) (in_active_multi_stmt_transaction x) (wsrep_applier x) (thread_id x) (open_tables x) seq dom srv
    requested (fragment_unit x) (trx_fragment_size x) (next_trx_id x) current (wsrep_xid x).

Section Hooks.
Context `{Wsrep_lib} (cfg : settings).
Definition wdo w (c : wcall) : Z * wworld := let r := returns (calls w) c in (r, mkW (thd w) (gtid_server w) (calls w ++ [(c, r)])).
Definition not_none w : bool := negb (bool_decide (cs_state (calls w) = s_none)).
Definition trx_is w (s : trx_state) : bool := bool_decide (trx_state_of (calls w) = s).
Definition result : Type := option (Z * wworld).

Definition wsrep_is_active w : bool := not_none w && trx_active (calls w) && negb (internal_transaction (thd w)).
Definition wsrep_is_ordered w : bool := trx_ordered (calls w).
Definition wsrep_must_abort w : bool := trx_is w s_must_abort.
Definition wsrep_must_replay w : bool := trx_is w s_must_replay.
Definition wsrep_not_committed w : bool := negb (trx_is w s_committed).
Definition wsrep_is_real w (all : bool) : bool := all || negb (all_ha_list (thd w)).
Definition wsrep_has_changes w : bool := negb (trx_is_empty (calls w)).
Definition wsrep_is_bf_aborted w : bool := trx_active (calls w) && trx_bf_aborted (calls w).
Definition table_without_key (t : table) : bool := negb (key_info t) || (primary_key t =? WSREP_MAX_KEY).
Definition wsrep_check_pk w : Z * wworld :=
  if negb (wsrep_certify_nonPK cfg) && existsb table_without_key (open_tables (thd w)) then (1, snd (wdo w override_lock_deadlock)) else (0, w).
Definition wsrep_streaming_enabled w : bool := 0 <? fragment_size (calls w).
Definition wsrep_start_transaction w (trx_id : Z) : Z * wworld :=
  if not_none w then if negb (wsrep_is_active w) then wdo w (start_transaction trx_id) else (0, w) else (0, w).
Definition WSREP_UNDEFINED_TRX_ID : Z := 2 ^ 64 - 1.
Definition wsrep_start_trx_if_not_started w : result :=
  _ ← asserting (negb (next_trx_id (thd w) =? WSREP_UNDEFINED_TRX_ID)) tt;
  _ ← asserting (cs_mode_local (calls w)) tt;
  Some (if negb (trx_active (calls w)) then wsrep_start_transaction w (next_trx_id (thd w)) else (0, w)).
Definition wsrep_after_row_internal w : Z * wworld :=
  if not_none w && thd_local (calls w) then
    let (r, w) := wsrep_check_pk w in
    if negb (r =? 0) then (1, w) else if wsrep_streaming_enabled w then wdo w after_row else (0, w)
  else (0, w).
Definition wsrep_run_commit_hook w (all : bool) : bool :=
  let ret := wsrep_is_active w && wsrep_is_real w all in
  let ret := ret && negb (trx_is w s_aborting) in
  if ret && negb (wsrep_has_changes w || (thd_applying (calls w) && wsrep_is_ordered w))
  then if trx_is w s_executing then false else ret
  else ret.
Definition wsrep_xid_init w : wworld := with_thd w (with_xid (thd w) (Some (ws_gtid (calls w), gtid (gtid_server w)))).
Definition wsrep_before_prepare w (all : bool) : result :=
  _ ← asserting (wsrep_run_commit_hook w all) tt;
  let (ret, w) := wdo w parallel_slave_wait_for_prior_commit in
  if negb (ret =? 0) then Some (ret, w)
  else
    let (ret, w) := wdo w before_prepare in
    if ret =? 0 then _ ← asserting (negb (ws_gtid_undefined (calls w))) tt; Some (ret, wsrep_xid_init w) else Some (ret, w).
Definition wsrep_after_prepare w (all : bool) : result :=
  _ ← asserting (wsrep_run_commit_hook w all) tt;
  let (ret, w) := wdo w after_prepare in
  _ ← asserting ((ret =? 0) || negb (current_error (calls w) =? 0) || trx_is w s_must_replay) tt; Some (ret, w).
(** The number of the transaction: the one asked for, when it is above those given, or the next. *)
Definition assign_seqno w : wworld :=
  let x := thd w in
  let g := gtid_server w in
  let (seqno, g) := if negb (var_wsrep_gtid_seq_no x =? 0) && (m_seqno g <? var_wsrep_gtid_seq_no x)
                    then (var_wsrep_gtid_seq_no x, set_seqno g (var_wsrep_gtid_seq_no x)) else seqno_inc g in
  let log := if log_is_open cfg && wsrep_gtid_mode cfg then Some (seqno, domain_id g, server_id g) else None in
  mkW (with_number x 0 seqno log) g (calls w).
Definition wsrep_before_commit w (all : bool) : result :=
  _ ← asserting (wsrep_run_commit_hook w all) tt;
  let (ret, w) := wdo w before_commit in
  if ret =? 0 then
    _ ← asserting (negb (ws_gtid_undefined (calls w))) tt;
    let w := if (gtid_seq_no (thd w) =? 0) && ws_commit_flag (calls w) then assign_seqno w else w in
    let w := wsrep_xid_init w in
    Some (ret, snd (wdo w wsrep_register_for_group_commit))
  else Some (ret, w).
Definition wsrep_ordered_commit w (all : bool) : result :=
  _ ← asserting (wsrep_run_commit_hook w all) tt; Some (wdo w ordered_commit).
Definition wsrep_after_commit w (all : bool) : result :=
  _ ← asserting (wsrep_run_commit_hook w all) tt;
  if internal_transaction (thd w) then Some (0, w)
  else
    let (ret, w) := if trx_is w s_committing then wdo w ordered_commit else (0, w) in
    let w := snd (wdo w wsrep_unregister_from_group_commit) in
    let w := with_thd w (with_xid (thd w) None) in
    if negb (ret =? 0) then Some (1, w) else let (r, w) := wdo w after_commit in Some ((if negb (r =? 0) then 1 else 0), w).
Definition wsrep_before_rollback w (all : bool) : Z * wworld :=
  if wsrep_is_active w then
    if negb all && in_active_multi_stmt_transaction (thd w) then
      let w := if wsrep_emulate_bin_log cfg then snd (wdo w wsrep_thd_binlog_stmt_rollback) else w in
      let w := if trx_is_streaming (calls w) && (0 <? fragments_certified (calls w)) then snd (wdo w wsrep_thd_self_abort) else w in
      (0, w)
    else if wsrep_is_real w all && negb (trx_is w s_aborted) then wdo (with_thd w (with_xid (thd w) None)) before_rollback
    else (0, w)
  else (0, w).
Definition wsrep_after_rollback w (all : bool) : Z * wworld :=
  if wsrep_is_real w all && wsrep_is_active w && negb (trx_is w s_aborted) then wdo w after_rollback else (0, w).
Definition takes_part w : bool := not_none w && negb (internal_transaction (thd w)).
Definition wsrep_before_statement w : Z * wworld := if takes_part w then wdo w before_statement else (0, w).
Definition wsrep_after_statement w : Z * wworld := if not_none w && cs_mode_local (calls w) && negb (internal_transaction (thd w)) then wdo w after_statement else (0, w).
Definition wsrep_after_apply w : option wworld :=
  _ ← asserting (thd_applying (calls w)) tt; Some (if negb (internal_transaction (thd w)) then snd (wdo w after_applying) else w).
Definition wsrep_open w : option wworld :=
  if WSREP_ON_ cfg then
    _ ← asserting (WSREP_PROVIDER_EXISTS_ cfg) tt;
    let w := snd (wdo w (cs_open (thread_id (thd w)))) in
    Some (if negb (wsrep_applier (thd w)) && negb (trx_fragment_size (thd w) =? 0) then snd (wdo w (enable_streaming (fragment_unit (thd w)) (trx_fragment_size (thd w)))) else w)
  else Some w.
Definition wsrep_close w : wworld := if takes_part w then snd (wdo w cs_close) else w.
Definition wsrep_cleanup w : wworld := if not_none w then snd (wdo w cs_cleanup) else w.
Definition wsrep_wait_rollback_complete_and_acquire_ownership w : wworld := if takes_part w then snd (wdo w wait_rollback_complete) else w.
Definition wsrep_before_command w (keep_command_error : bool) : Z * wworld := if takes_part w then wdo w (before_command keep_command_error) else (0, w).
Definition wsrep_after_command_before_result w : wworld := if takes_part w then snd (wdo w after_command_before_result) else w.
Definition wsrep_after_command_after_result w : wworld := if takes_part w then snd (wdo w after_command_after_result) else w.
Definition wsrep_after_command_ignore_result w : option wworld :=
  let w := wsrep_after_command_before_result w in
  _ ← asserting (current_error (calls w) =? 0) tt; Some (wsrep_after_command_after_result w).
End Hooks.

(** * Errors told to the client *)

Definition ER_UNKNOWN_ERROR : Z := 1105.
Definition ER_ERROR_DURING_COMMIT : Z := 1180.
Definition ER_LOCK_WAIT_TIMEOUT : Z := 1205.
Definition ER_LOCK_DEADLOCK : Z := 1213.
Definition ER_NOT_SUPPORTED_YET : Z := 1235.
Definition ER_QUERY_INTERRUPTED : Z := 1317.
Implicit Types (da : Diagnostics_area).
(** The status is reset and [my_error] called; the arguments of [my_error], or [None] when the status stays. *)
Definition is_other_error da (error : Z) : bool :=
  da_is_error da && (let e := get_sql_errno (da_errno da) in negb (e =? error) && negb (e =? ER_ERROR_DURING_COMMIT) && negb (e =? ER_LOCK_DEADLOCK)).
Definition wsrep_override_error da (error : Z) : option (option Z) :=
  _ ← asserting (negb (error =? ER_ERROR_DURING_COMMIT)) tt;
  Some (if da_is_ok da || da_is_eof da || negb (da_is_set da) || is_other_error da error then Some error else None).
Definition wsrep_override_error_status da (error status : Z) : option (Z * Z) :=
  if da_is_ok da || negb (da_is_set da) || is_other_error da error then Some (error, status) else None.
Inductive client_error :=
| e_success | e_error_during_commit | e_deadlock_error | e_interrupted_error | e_size_exceeded_error | e_append_fragment_error | e_not_supported_error | e_timeout_error | e_other_error.
#[export] Instance client_error_eq_dec : EqDecision client_error.
Proof. solve_decision. Defined.
Definition wsrep_override_client_error da (ce : client_error) (status : Z) : option (option (Z * option Z)) :=
  _ ← asserting (negb (bool_decide (ce = e_success))) tt;
  let plain error := r ← wsrep_override_error da error; Some ((fun e => (e, None)) <$> r) in
  let with_status error := Some ((fun '(e, s) => (e, Some s)) <$> wsrep_override_error_status da error status) in
  match ce with
  | e_error_during_commit => with_status ER_ERROR_DURING_COMMIT
  | e_deadlock_error => plain ER_LOCK_DEADLOCK
  | e_interrupted_error => plain ER_QUERY_INTERRUPTED
  | e_size_exceeded_error => with_status ER_ERROR_DURING_COMMIT
  | e_append_fragment_error => with_status ER_ERROR_DURING_COMMIT
  | e_not_supported_error => plain ER_NOT_SUPPORTED_YET
  | e_timeout_error => plain ER_LOCK_WAIT_TIMEOUT
  | _ => plain ER_UNKNOWN_ERROR
  end.

(** [reset_diagnostics_area] and [my_error], of other source files, from the status and the arguments of [my_error]. *)
Section Report.
Context (my_error_after_reset : Diagnostics_area -> Z -> option Z -> Diagnostics_area).
Definition report_client_error da (ce : client_error) (status : Z) : option Diagnostics_area :=
  r ← wsrep_override_client_error da ce status; Some (match r with Some (error, s) => my_error_after_reset da error s | None => da end).
(** The errors that are reported in the course of a statement. *)
Fixpoint report_client_errors da (ces : list (client_error * Z)) : option Diagnostics_area :=
  match ces with [] => Some da | (ce, status) :: ces => da ← report_client_error da ce status; report_client_errors da ces end.
End Report.

(** * Numbers *)

(** Transactions committing one after the other, each with its session; the numbers they get. *)
Fixpoint numbers (cfg : settings) (g : Wsrep_gtid_server) (xs : list session) : list Z * Wsrep_gtid_server :=
  match xs with
  | [] => ([], g)
  | x :: xs => let w := assign_seqno cfg (mkW x g []) in let (ns, g) := numbers cfg (gtid_server w) xs in (wsrep_current_gtid_seqno (thd w) :: ns, g)
  end.
Lemma last_default (z d d' : Z) l : List.last (z :: l) d = List.last (z :: l) d'.
Proof. revert z. induction l as [|y l IH]; intros z; [done|]. exact (IH y). Qed.
Lemma assign_seqno_spec cfg w : 0 <= m_seqno (gtid_server w) < 2 ^ 64 - 1 ->
  let w' := assign_seqno cfg w in let n := wsrep_current_gtid_seqno (thd w') in
  m_seqno (gtid_server w') = n /\ m_seqno (gtid_server w) < n /\ n <= Z.max (var_wsrep_gtid_seq_no (thd w)) (m_seqno (gtid_server w) + 1) /\
  domain_id (gtid_server w') = domain_id (gtid_server w) /\ server_id (gtid_server w') = server_id (gtid_server w) /\ calls w' = calls w /\
  (m_seqno (gtid_server w) < var_wsrep_gtid_seq_no (thd w) -> n = var_wsrep_gtid_seq_no (thd w)) /\ var_wsrep_gtid_seq_no (thd w') = 0 /\ wsrep_xid (thd w') = wsrep_xid (thd w) /\
  (if log_is_open cfg && wsrep_gtid_mode cfg then gtid_seq_no (thd w') = n /\ gtid_domain_id (thd w') = domain_id (gtid_server w) /\ var_server_id (thd w') = server_id (gtid_server w)
   else gtid_seq_no (thd w') = gtid_seq_no (thd w)).
Proof.
  intros Hg. unfold assign_seqno, seqno_inc. rewrite uwrap_small by (unfold ufits; lia).
  destruct (negb _ && _) eqn:G.
  - apply andb_true_iff in G as [_ G]. apply Z.ltb_lt in G. destruct (log_is_open cfg && wsrep_gtid_mode cfg); cbn; repeat (split; [done || lia|]); try done; repeat split; done.
  - assert (L : ~ m_seqno (gtid_server w) < var_wsrep_gtid_seq_no (thd w)).
    { intros L. apply andb_false_iff in G as [G|G]; [apply negb_false_iff, Z.eqb_eq in G; lia|apply Z.ltb_ge in G; lia]. }
    destruct (log_is_open cfg && wsrep_gtid_mode cfg); cbn; repeat (split; [done || lia|]); try done; repeat split; done.
Qed.

(** C33.  Transactions that commit one after the other, with or without numbers asked for, get numbers that grow strictly and are above all the server had given out, and the
    server keeps the last. *)
Theorem commit_numbers_increase cfg g (xs : list session) M : 0 <= m_seqno g <= M -> Forall (fun x => var_wsrep_gtid_seq_no x <= M) xs -> M + Z.of_nat (length xs) < 2 ^ 64 ->
  let (ns, g') := numbers cfg g xs in StronglySorted Z.lt (m_seqno g :: ns) /\ length ns = length xs /\ m_seqno g' = List.last ns (m_seqno g) /\ domain_id g' = domain_id g /\ server_id g' = server_id g.
Proof.
  revert g M. induction xs as [|x xs IH]; intros g M Hg F Hl; cbn [numbers]; [repeat split; repeat constructor|].
  apply Forall_cons in F as [Hx F]. cbn [length] in Hl. pose proof (assign_seqno_spec cfg (mkW x g []) ltac:(cbn; lia)) as S. cbn [gtid_server thd] in S.
  set (w := assign_seqno cfg (mkW x g [])) in *. destruct S as (S1 & S2 & S3 & S4 & S5 & _).
  specialize (IH (gtid_server w) (M + 1)). destruct (numbers cfg (gtid_server w) xs) as [ns g']. rewrite S1 in *.
  destruct IH as (I1 & I2 & I3 & I4 & I5); [lia|eapply Forall_impl; [exact F|]; cbn; lia|lia|].
  split; [|split; [cbn; lia|split; [|split; congruence]]].
  - apply SSorted_cons; [done|]. apply Forall_cons. split; [done|]. apply StronglySorted_inv in I1 as [_ I1]. eapply Forall_impl; [exact I1|]. cbn. lia.
  - rewrite I3. destruct ns as [|z ns]; [done|]. exact (last_default z _ _ ns).
Qed.
Definition example_session (requested : Z) : session := mkSession false false false false 1 [] 0 0 0 requested 0 0 1 0 None.
Definition example_settings : settings := mkSettings true false true true true true.
Lemma commit_numbers_increase_witness :
  numbers example_settings (new_server 1 2) (map example_session [0; 10; 5; 0]) = ([1; 10; 11; 12], mkServer 1 2 12 0 false) /\ StronglySorted Z.lt [0; 1; 10; 11; 12].
Proof.
  split; [reflexivity|].
  pose proof (commit_numbers_increase example_settings (new_server 1 2) (map example_session [0; 10; 5; 0]) 10 ltac:(cbn; lia) ltac:(repeat constructor; cbn; lia) ltac:(cbn; lia)) as C.
  exact (proj1 C).
Defined.

(** * The hooks *)

Section HookFacts.
Context `{Wsrep_lib} (cfg : settings).

(** When committing may go on, the transaction has got its number before it is registered for the group commit: the XID is made of the library's number and the server's with
    the number just given, the number asked for is used up, and registering is the last call; when it may not, nothing but the library's answer has changed. *)
Theorem before_commit_registers w all : wsrep_run_commit_hook w all = true -> ws_gtid_undefined (calls w ++ [(before_commit, returns (calls w) before_commit)]) = false ->
  0 <= m_seqno (gtid_server w) < 2 ^ 64 - 1 ->
  let r := returns (calls w) before_commit in
  let t := calls w ++ [(before_commit, r)] in
  exists w', wsrep_before_commit cfg w all = Some (r, w') /\
    if r =? 0 then
      calls w' = t ++ [(wsrep_register_for_group_commit, returns t wsrep_register_for_group_commit)] /\ wsrep_xid (thd w') = Some (ws_gtid t, gtid (gtid_server w')) /\
      (if (gtid_seq_no (thd w) =? 0) && ws_commit_flag t
       then m_seqno (gtid_server w) < m_seqno (gtid_server w') /\ wsrep_current_gtid_seqno (thd w') = m_seqno (gtid_server w') /\ var_wsrep_gtid_seq_no (thd w') = 0
       else gtid_server w' = gtid_server w /\ thd w' = with_xid (thd w) (wsrep_xid (thd w')))
    else w' = mkW (thd w) (gtid_server w) t.
Proof.
  intros Hh Hu Hg r t. unfold wsrep_before_commit. rewrite Hh. cbn [asserting mbind option_bind wdo]. fold r. fold t. change (ws_gtid_undefined t = false) in Hu.
  destruct (r =? 0); [|by eexists]. cbn [calls]. rewrite Hu. cbn [negb asserting mbind option_bind thd]. set (w1 := mkW (thd w) (gtid_server w) t).
  change (thd w1) with (thd w). destruct ((gtid_seq_no (thd w) =? 0) && ws_commit_flag t) eqn:G.
  - pose proof (assign_seqno_spec cfg w1 Hg) as (S1 & S2 & _ & _ & _ & S6 & _ & S8 & _ & _). eexists. split; [reflexivity|].
    cbn [snd wdo wsrep_xid_init with_thd calls thd gtid_server]. rewrite S6. cbn [with_xid wsrep_xid wsrep_current_gtid_seqno var_wsrep_gtid_seq_no].
    split; [done|]. split; [done|]. rewrite S8, <- S1 in *. split; [exact S2|]. split; [|done]. rewrite S1. done.
  - eexists. split; [reflexivity|]. by repeat split.
Qed.

(** After a commit the session has no XID and is not registered for the group commit, whatever failed; a transaction that is still committing is ordered first, and the library is told
    of the commit unless that failed. *)
Theorem after_commit_clears w all : wsrep_run_commit_hook w all = true ->
  let ordered := if trx_is w s_committing then [(ordered_commit, returns (calls w) ordered_commit)] else [] in
  let t1 := calls w ++ ordered in
  let t2 := t1 ++ [(wsrep_unregister_from_group_commit, returns t1 wsrep_unregister_from_group_commit)] in
  let fine := forallb (fun c => snd c =? 0) ordered in
  exists ret w', wsrep_after_commit w all = Some (ret, w') /\ wsrep_xid (thd w') = None /\ gtid_server w' = gtid_server w /\
    calls w' = t2 ++ (if fine then [(after_commit, returns t2 after_commit)] else []) /\
    ret = (if fine && (returns t2 after_commit =? 0) then 0 else 1).
Proof.
  intros Hh ordered t1 t2 fine. unfold wsrep_after_commit. rewrite Hh. cbn [asserting mbind option_bind].
  assert (Hi : internal_transaction (thd w) = false).
  { unfold wsrep_run_commit_hook, wsrep_is_active in Hh. destruct (internal_transaction (thd w)); [|done]. rewrite andb_false_r in Hh. cbn in Hh. done. }
  rewrite Hi. unfold fine, t2, t1, ordered. clear fine t2 t1 ordered. destruct (trx_is w s_committing).
  - cbn [wdo forallb snd]. rewrite andb_true_r. destruct (returns (calls w) ordered_commit =? 0) eqn:R; cbn [negb andb].
    + eexists _, _. split; [reflexivity|]. do 2 (split; [done|]). split; [done|]. by destruct (returns _ after_commit =? 0).
    + eexists _, _. split; [reflexivity|]. do 2 (split; [done|]). split; [|done]. by rewrite app_nil_r.
  - rewrite app_nil_r. cbn [wdo forallb snd negb Z.eqb andb]. eexists _, _. split; [reflexivity|]. do 2 (split; [done|]). split; [done|]. by destruct (returns _ after_commit =? 0).
Qed.

(** The commit hooks run for the transactions of the cluster, and for those alone, that really commit, are not rolling back, and have changes, or are applied in their order, or are past their
    executing state, as one that was aborted from outside is. *)
Theorem commit_hook_cases w all :
  wsrep_run_commit_hook w all = true <->
  (cs_state (calls w) <> s_none /\ trx_active (calls w) = true /\ internal_transaction (thd w) = false) /\ (all = true \/ all_ha_list (thd w) = false) /\ trx_state_of (calls w) <> s_aborting /\
  (trx_is_empty (calls w) = false \/ (thd_applying (calls w) = true /\ trx_ordered (calls w) = true) \/ trx_state_of (calls w) <> s_executing).
Proof.
  unfold wsrep_run_commit_hook, wsrep_is_active, wsrep_is_real, not_none, trx_is, wsrep_has_changes, wsrep_is_ordered.
  case_bool_decide as A; [cbn; split; [done|tauto]|]. destruct (trx_active (calls w)); [|cbn; split; [done|intuition discriminate]]. destruct (internal_transaction (thd w)); [cbn; split; [done|intuition discriminate]|].
  case_bool_decide as B; [rewrite !andb_false_r; split; [done|tauto]|]. rewrite !andb_true_r. cbn [negb andb].
  destruct (all || negb (all_ha_list (thd w))) eqn:R; [|apply orb_false_iff in R as [-> R]; apply negb_false_iff in R; rewrite R; cbn; split; [done|intuition discriminate]].
  assert (all = true \/ all_ha_list (thd w) = false) by (apply orb_true_iff in R as [R|R]; [by left|right; by apply negb_true_iff in R]).
  case_bool_decide as C; destruct (trx_is_empty (calls w)), (thd_applying (calls w)), (trx_ordered (calls w)); cbn; intuition discriminate.
Qed.

(** A rollback of the whole transaction takes the XID from the session before the library is told, so that nothing is written with it; a rollback of a statement inside a transaction
    tells the library nothing, but aborts the transaction when parts of the statement have been replicated. *)
Theorem rollback_drops_xid w all :
  let '(ret, w') := wsrep_before_rollback cfg w all in
  gtid_server w' = gtid_server w /\
  (wsrep_is_active w = false -> ret = 0 /\ w' = w) /\
  (wsrep_is_active w = true -> all = false -> in_active_multi_stmt_transaction (thd w) = true ->
    ret = 0 /\ thd w' = thd w /\ ~ In before_rollback (map fst (drop (length (calls w)) (calls w'))) /\
    (wsrep_emulate_bin_log cfg = false -> trx_is_streaming (calls w) = true -> 0 < fragments_certified (calls w) -> map fst (drop (length (calls w)) (calls w')) = [wsrep_thd_self_abort])) /\
  (wsrep_is_active w = true -> (all = true \/ (in_active_multi_stmt_transaction (thd w) = false /\ all_ha_list (thd w) = false)) -> trx_state_of (calls w) <> s_aborted ->
    wsrep_xid (thd w') = None /\ ret = returns (calls w) before_rollback /\ calls w' = calls w ++ [(before_rollback, ret)]).
Proof.
  unfold wsrep_before_rollback, wsrep_is_real, trx_is.
  destruct (wsrep_is_active w); [|by repeat split].
  destruct (negb all && in_active_multi_stmt_transaction (thd w)) eqn:G.
  - assert (D : forall (t u : wtrace), drop (length t) (t ++ u) = u) by (intros; apply drop_app_length). assert (Dn : forall t : wtrace, drop (length t) t = []) by (intros; apply drop_ge; lia).
    destruct (wsrep_emulate_bin_log cfg); cbn [snd wdo calls]; destruct (trx_is_streaming _ && _) eqn:S; cbn [snd wdo calls thd gtid_server]; rewrite <- ?app_assoc, ?D, ?Dn; cbn;
      (split; [done|]); (split; [done|]); (split; [|intros _ [->|[E _]]; [done|rewrite E, andb_false_r in G; done]]); intros _ _ _; (split; [done|]); (split; [done|]); (split; [naive_solver|]); try done.
    intros _ E L. rewrite E, (proj2 (Z.ltb_lt _ _)) in S by done. done.
  - destruct ((all || negb (all_ha_list (thd w))) && negb (bool_decide (trx_state_of (calls w) = s_aborted))) eqn:K; cbn.
    + split; [done|]. split; [done|]. split; [|done]. intros _ -> E. by rewrite E in G.
    + split; [done|]. split; [done|]. split; [intros _ -> E; by rewrite E in G|]. intros _ C N. rewrite bool_decide_false in K by done. destruct C as [->|[_ E]]; [done|]. rewrite E, orb_true_r in K. done.
Qed.
End HookFacts.

(** ** What the client is told *)

Definition error_number (ce : client_error) : Z :=
  match ce with
  | e_error_during_commit | e_size_exceeded_error | e_append_fragment_error => ER_ERROR_DURING_COMMIT
  | e_deadlock_error => ER_LOCK_DEADLOCK | e_interrupted_error => ER_QUERY_INTERRUPTED | e_not_supported_error => ER_NOT_SUPPORTED_YET
  | e_timeout_error => ER_LOCK_WAIT_TIMEOUT | _ => ER_UNKNOWN_ERROR
  end.
Definition of_commit (ce : client_error) : bool := error_number ce =? ER_ERROR_DURING_COMMIT.
(** The errors that no other takes the place of. *)
Definition kept (e : Z) : bool := (e =? ER_ERROR_DURING_COMMIT) || (e =? ER_LOCK_DEADLOCK).
(** The first of them, or else the last error. *)
Definition told (es : list Z) : option Z := match List.find kept es with Some e => Some e | None => last es end.
Definition own_error da : list Z := if da_is_error da then [get_sql_errno (da_errno da)] else [].
Fixpoint after_commit_errors (ces : list (client_error * Z)) : list (client_error * Z) :=
  match ces with [] => [] | c :: ces' => if of_commit c.1 then after_commit_errors ces' else c :: ces' end.

Section Told.
Context (my_error_after_reset : Diagnostics_area -> Z -> option Z -> Diagnostics_area).
(** [my_error] leaves a diagnostics area that was reset with the status of the error and its number. *)
Hypothesis my_error_sets : forall da error s, m_status (my_error_after_reset da error s) = DA_ERROR /\ get_sql_errno (da_errno (my_error_after_reset da error s)) = error.

(** When an error takes the place of what is there. *)
Definition overrides da (ce : client_error) : bool :=
  match m_status da with
  | DA_OK | DA_EMPTY => true
  | DA_EOF => negb (of_commit ce)
  | DA_ERROR => negb (get_sql_errno (da_errno da) =? error_number ce) && negb (kept (get_sql_errno (da_errno da)))
  | _ => false
  end.
Lemma override_spec da ce status : ce <> e_success ->
  wsrep_override_client_error da ce status = Some (if overrides da ce then Some (error_number ce, if of_commit ce then Some status else None) else None).
Proof.
  intros Hs. unfold wsrep_override_client_error, wsrep_override_error, wsrep_override_error_status, is_other_error, da_is_ok, da_is_eof, da_is_set, da_is_error, status_in, overrides, kept.
  rewrite (bool_decide_false (ce = e_success)) by done. rewrite negb_orb, !andb_assoc.
  destruct (m_status da), ce; try done; cbn [of_commit error_number negb asserting mbind option_bind]; cbn; by destruct (_ && _).
Qed.
(** One error is reported. *)
Lemma report_one da ce status : ce <> e_success ->
  report_client_error my_error_after_reset da ce status = Some da /\ overrides da ce = false \/
  exists da', report_client_error my_error_after_reset da ce status = Some da' /\ overrides da ce = true /\
    m_status da' = DA_ERROR /\ get_sql_errno (da_errno da') = error_number ce.
Proof.
  intros Hs. unfold report_client_error. rewrite (override_spec da ce status Hs). cbn [mbind option_bind].
  destruct (overrides da ce); [right|by left]. eexists. split; [done|]. split; [done|]. apply my_error_sets.
Qed.
(** The errors reported when there is one already. *)
Lemma report_to_error ces : Forall (fun c => c.1 <> e_success) ces -> forall da, m_status da = DA_ERROR ->
  exists da', report_client_errors my_error_after_reset da ces = Some da' /\ m_status da' = DA_ERROR /\
    Some (get_sql_errno (da_errno da')) = told (get_sql_errno (da_errno da) :: map (fun c => error_number c.1) ces).
Proof.
  induction 1 as [|[ce status] ces Hc _ IH]; intros da M; cbn [report_client_errors map fst].
  { exists da. split; [done|]. split; [done|]. unfold told. cbn. by destruct (kept _). }
  destruct (report_one da ce status Hc) as [[-> V]|(da1 & -> & V & M1 & E1)]; cbn [mbind option_bind].
  - destruct (IH da M) as (da' & E & M' & T). exists da'. split; [done|]. split; [done|]. rewrite T. unfold overrides in V. rewrite M in V.
    unfold told. cbn [List.find]. destruct (kept (get_sql_errno (da_errno da))) eqn:K; [done|]. rewrite andb_true_r in V. apply negb_false_iff, Z.eqb_eq in V. by rewrite <- V, K.
  - destruct (IH da1 M1) as (da' & E & M' & T). exists da'. split; [done|]. split; [done|]. rewrite T, E1. unfold overrides in V. rewrite M in V.
    apply andb_true_iff in V as [_ V%negb_true_iff]. unfold told at 2. cbn [List.find]. by rewrite V.
Qed.
Lemma report_ignored ces da : Forall (fun c => c.1 <> e_success /\ overrides da c.1 = false) ces -> report_client_errors my_error_after_reset da ces = Some da.
Proof.
  induction 1 as [|[ce status] ces [Hc V] _ IH]; [done|]. cbn [report_client_errors]. destruct (report_one da ce status Hc) as [[-> _]|(da1 & _ & V' & _)]; [done|]. cbn in V. congruence.
Qed.
Lemma report_first da ce status ces : ce <> e_success -> Forall (fun c => c.1 <> e_success) ces -> overrides da ce = true ->
  exists da', report_client_errors my_error_after_reset da ((ce, status) :: ces) = Some da' /\ m_status da' = DA_ERROR /\
    Some (get_sql_errno (da_errno da')) = told (map (fun c => error_number c.1) ((ce, status) :: ces)).
Proof.
  intros Hc Hs V. cbn [report_client_errors]. destruct (report_one da ce status Hc) as [[_ V']|(da1 & -> & _ & M1 & E1)]; [congruence|]. cbn [mbind option_bind map fst].
  rewrite <- E1. by apply report_to_error.
Qed.

(** C40.  The errors that the library reports in the course of a statement, after what the statement has left in its diagnostics area: the client is told of the first deadlock or error
    at commit, an error of the statement itself included, and otherwise of the last error reported.  There are two exceptions, in which nothing is changed: an area that is disabled or of
    a bulk operation, and, when the statement has left the end of a result (EOF), the errors at commit that come before any other, so that the client is told of success. *)
Theorem errors_overridden da ces : Forall (fun c => c.1 <> e_success) ces ->
  exists da', report_client_errors my_error_after_reset da ces = Some da' /\
    match m_status da, (if da_is_eof da then after_commit_errors ces else ces) with
    | (DA_OK_BULK | DA_EOF_BULK | DA_DISABLED), _ | _, [] => da' = da
    | _, reported => m_status da' = DA_ERROR /\ Some (get_sql_errno (da_errno da')) = told (own_error da ++ map (fun c => error_number c.1) reported)
    end.
Proof.
  intros Hs. unfold own_error, da_is_error, da_is_eof, status_in.
  assert (Ign : forall st, m_status da = st -> match st with DA_OK_BULK | DA_EOF_BULK | DA_DISABLED => True | _ => False end -> report_client_errors my_error_after_reset da ces = Some da).
  { intros st M Hst. apply report_ignored. eapply Forall_impl; [exact Hs|]. intros c Hc. split; [done|]. unfold overrides. rewrite M. by destruct st. }
  assert (First : (forall ce, overrides da ce = true) -> exists da', report_client_errors my_error_after_reset da ces = Some da' /\
    match ces with [] => da' = da | c :: l => m_status da' = DA_ERROR /\ Some (get_sql_errno (da_errno da')) = told (error_number c.1 :: map (fun c => error_number c.1) l) end).
  { intros V. destruct ces as [|[ce status] ces]; [by exists da|]. apply Forall_cons in Hs as [Hc Hs]. by apply report_first. }
  destruct (m_status da) eqn:M;
    repeat match goal with |- context [bool_decide ?P] => let b := eval vm_compute in (bool_decide P) in change (bool_decide P) with b end; cbn;
    try (exists da; split; [exact (Ign _ eq_refl I)|by destruct ces]); try (apply First; intros ce; unfold overrides; by rewrite M).
  - clear Ign First. induction Hs as [|[ce status] ces Hc Hs IH]; [by exists da|]. cbn [after_commit_errors fst]. destruct (of_commit ce) eqn:C.
    + destruct IH as (da' & E & P). exists da'. split; [|done]. cbn [report_client_errors]. destruct (report_one da ce status Hc) as [[-> _]|(da1 & _ & V & _)]; [done|].
      unfold overrides in V. by rewrite M, C in V.
    + apply report_first; [done|done|]. unfold overrides. by rewrite M, C.
  - destruct (report_to_error ces Hs da M) as (da' & E & M' & T). exists da'. split; [done|]. destruct ces as [|c ces]; [by injection E as ->|done].
Qed.
End Told.
Definition example_da (st : enum_diagnostics_status) : Diagnostics_area := mkDA (Sql_state_errno_init 1062) Sql_user_condition_identity_init false false [] 0 0 0 st false (da_infos dstart) (da_links dstart).
Definition error_set (da : Diagnostics_area) (error : Z) (s : option Z) : Diagnostics_area :=
  mkDA (Sql_state_errno_init error) Sql_user_condition_identity_init false false [] 0 0 0 DA_ERROR false (da_infos dstart) (da_links dstart).
Lemma errors_overridden_witness :
  (exists da', report_client_errors error_set (example_da DA_OK) [(e_timeout_error, 0); (e_deadlock_error, 0); (e_error_during_commit, 5)] = Some da' /\
    m_status da' = DA_ERROR /\ Some (get_sql_errno (da_errno da')) = Some ER_LOCK_DEADLOCK) /\
  (exists da', report_client_errors error_set (example_da DA_EOF) [(e_error_during_commit, 5)] = Some da' /\ da' = example_da DA_EOF).
Proof.
  split.
  - apply (errors_overridden error_set (fun _ _ _ => conj eq_refl eq_refl) (example_da DA_OK) [(e_timeout_error, 0); (e_deadlock_error, 0); (e_error_during_commit, 5)]).
    repeat (constructor; [discriminate|]). constructor.
  - apply (errors_overridden error_set (fun _ _ _ => conj eq_refl eq_refl) (example_da DA_EOF) [(e_error_during_commit, 5)]).
    repeat (constructor; [discriminate|]). constructor.
Defined.

(** A library whose client is in a transaction that is committing, with changes, and whose operations succeed but for one. *)
Definition example_lib (failing : wcall -> bool) : Wsrep_lib := {|
  cs_state := fun _ => s_other_client; cs_mode_local := fun _ => true; thd_applying := fun _ => false; thd_local := fun _ => true;
  trx_active := fun _ => true; trx_state_of := fun _ => s_committing; trx_ordered := fun _ => true; trx_is_empty := fun _ => false; trx_bf_aborted := fun _ => false;
  trx_is_streaming := fun _ => false; fragments_certified := fun _ => 0; fragment_size := fun _ => 0;
  ws_gtid := fun _ => 77; ws_gtid_undefined := fun _ => false; ws_commit_flag := fun _ => true; current_error := fun _ => 0; returns := fun _ c => if failing c then 1 else 0 |}.
Definition example_world : wworld := mkW (example_session 0) (new_server 1 2) [].
Definition fails_never (c : wcall) : bool := false.
Definition fails_ordering (c : wcall) : bool := match c with ordered_commit => true | _ => false end.
Lemma before_commit_registers_witness :
  exists w', wsrep_before_commit (H := example_lib fails_never) example_settings example_world true = Some (0, w') /\
    calls w' = [(before_commit, 0); (wsrep_register_for_group_commit, 0)] /\ wsrep_xid (thd w') = Some (77, mkGtid 1 2 1).
Proof.
  destruct (before_commit_registers (H := example_lib fails_never) example_settings example_world true) as (w' & E & P); [reflexivity|reflexivity|cbn; lia|].
  exists w'. split; [exact E|]. cbn in E. injection E as <-. split; reflexivity.
Defined.
Lemma after_commit_clears_witness :
  exists ret w', wsrep_after_commit (H := example_lib fails_ordering) example_world true = Some (ret, w') /\ wsrep_xid (thd w') = None /\ ret = 1 /\
    calls w' = [(ordered_commit, 1); (wsrep_unregister_from_group_commit, 0)].
Proof.
  destruct (after_commit_clears (H := example_lib fails_ordering) example_world true eq_refl) as (ret & w' & A & B & _ & C & D).
  exists ret, w'. split; [exact A|]. split; [exact B|]. split; [exact D|exact C].
Defined.
