(* ===== verification/SqlPartition.v ===== *)
(** Partitions by system time: of [private/partition_info.h], the numbers and names of the partitions of a history, and the iterators over partitions.

    The list of partitions is a list; that two names are the same, case aside, is a parameter, with the promise that a name is that of at most one
    suffix. *)

From S2P Require Import Prelude CString.

Definition UINT_MAX32 : Z := 2 ^ 32 - 1.
Definition MAX_PART_NAME_SIZE : Z := 8.
Inductive elem_type_enum := CONVENTIONAL | CURRENT | HISTORY.
#[export] Instance elem_type_enum_eq_dec : EqDecision elem_type_enum.
Proof. solve_decision. Defined.
Record partition_element := mkElement { el_id : Z; el_type : elem_type_enum; partition_name : bytes }.
Implicit Types (e : partition_element) (els : list partition_element).
Definition with_id e (id : Z) : partition_element := mkElement id (el_type e) (partition_name e).
Definition has_type e (t : elem_type_enum) : bool := bool_decide (el_type e = t).

Fixpoint get_partition els (part_id : Z) : option partition_element :=
  match els with [] => None | e :: els => if el_id e =? part_id then Some e else get_partition els part_id end.

(** The loop of [vers_update_el_ids] from the number [id] on; [None] when an element is of no history. *)
Fixpoint update_ids els (id : Z) : option (list partition_element) :=
  match els with
  | [] => Some []
  | e :: els =>
      _ ← asserting (negb (has_type e CONVENTIONAL)) tt;
      if (el_id e =? UINT_MAX32) || has_type e CURRENT
      then if has_type e CURRENT then Some (with_id e id :: els) else els' ← update_ids els (u32 (id + 1)); Some (with_id e id :: els')
      else els' ← update_ids els (u32 (id + 1)); Some (e :: els')
  end.
Definition vers_update_el_ids els : option (list partition_element) := update_ids els 0.
(** The limit, and whether it is refused. *)
Definition vers_set_limit (limit : Z) : Z * bool := (limit, negb (c_true limit)).

(** ** Iterators *)

(** The function that an iterator is walked with. *)
Inductive partition_iter_func := get_next_partition_id_range | other_iter_func.
Record partition_iterator := mkIterator { get_next : partition_iter_func; pi_start : Z; pi_cur : Z; pi_end : Z; ret_null_part : bool; ret_null_part_orig : bool; ret_default_part : bool; ret_default_part_orig : bool }.
Definition init_single_partition_iterator (part_id : Z) : partition_iterator := mkIterator get_next_partition_id_range part_id part_id (u32 (part_id + 1)) false false false false.
Definition init_all_partitions_iterator (num_parts : Z) : partition_iterator := mkIterator get_next_partition_id_range 0 0 num_parts false false false false.

(** ** Names of new partitions *)

(** [make_partition_name]: the name, unless it does not fit. *)
Definition make_partition_name (i : Z) : option bytes := let s := x70 :: decimal i in if MAX_PART_NAME_SIZE <? Z.of_nat (length s) then None else Some s.
Section Names.
(** [0 == my_strcasecmp(&my_charset_latin1, a, b)] *)
Context (same_name : bytes -> bytes -> bool).

(** The loop over the partitions of [next_part_no]: [rest] is what the iterator has left, [name] is [part_name]; [Some None] when a name does not fit. *)
Fixpoint first_free (fuel : nat) els (rest : list partition_element) (name : bytes) (suffix : Z) : option (option Z) :=
  match fuel with
  | O => None
  | S fuel =>
      match rest with
      | [] => Some (Some suffix)
      | e :: rest =>
          if same_name (partition_name e) name then
            let suffix := u32 (suffix + 1) in
            match make_partition_name suffix with None => Some None | Some name => first_free fuel els els name suffix end
          else first_free fuel els rest name suffix
      end
  end.
Fixpoint next_suffix (fuel : nat) els (new_parts cur_part suffix : Z) : option Z :=
  match fuel with
  | O => None
  | S fuel =>
      if cur_part <? new_parts then
        let cur_suffix := suffix in
        match make_partition_name suffix with
        | None => Some 0
        | Some name =>
            found ← first_free ((length els + 1) * (length els + 1)) els els name suffix;
            match found with
            | None => Some 0
            | Some suffix =>
                let cur_part := if (0 <? cur_part) && (cur_suffix <? suffix) then 0 else cur_part in
                next_suffix fuel els new_parts (u32 (cur_part + 1)) (u32 (suffix + 1))
            end
        end
      else Some (u32 (suffix - new_parts))
  end.
Definition next_part_no (versioning : bool) els (num_parts new_parts : Z) : option Z :=
  if negb versioning then Some num_parts
  else
    _ ← asserting (0 <? new_parts) tt;
    let suffix := u32 (num_parts - 1) in
    _ ← asserting (0 <? suffix) tt;
    next_suffix (Z.to_nat new_parts * (length els + 1) + 1) els new_parts 0 suffix.
End Names.

(** * The numbers of the names *)

Definition SUFFIXES : Z := 10 ^ 7.
Definition part_name_of (i : Z) : bytes := x70 :: decimal i.
Lemma name_fits i : 0 <= i < SUFFIXES -> make_partition_name i = Some (part_name_of i).
Proof.
  intros H. unfold make_partition_name, part_name_of, MAX_PART_NAME_SIZE. pose proof (decimal_fuel_length 20 7 i H ltac:(lia)) as L. unfold decimal. cbn [length].
  by rewrite (proj2 (Z.ltb_ge _ _)) by lia.
Qed.

Section Search.
Context (same_name : bytes -> bytes -> bool) (suffix_of : bytes -> option Z).
Hypothesis same_name_suffix : forall a n, 0 <= n < SUFFIXES -> same_name a (part_name_of n) = true <-> suffix_of a = Some n.
Context (els : list partition_element).

Definition occupied (n : Z) : Prop := exists e, e ∈ els /\ suffix_of (partition_name e) = Some n.
(** The suffixes from [n] on that have a name. *)
Definition taken_from (l : list partition_element) (n : Z) : Z := Z.of_nat (length (filter (fun e => default (-1) (suffix_of (partition_name e)) >= n) l)).
Lemma taken_cons e l n : taken_from (e :: l) n = taken_from l n + if decide (default (-1) (suffix_of (partition_name e)) >= n) then 1 else 0.
Proof. unfold taken_from. rewrite filter_cons. destruct (decide _); cbn [length]; lia. Qed.
Lemma taken_range l n : 0 <= taken_from l n <= Z.of_nat (length l).
Proof. induction l as [|e l IH]; [done|]. rewrite taken_cons. cbn [length]. destruct (decide _); lia. Qed.
Lemma taken_mono l n : taken_from l (n + 1) <= taken_from l n.
Proof. induction l as [|e l IH]; [done|]. rewrite !taken_cons. destruct (decide (_ >= n + 1)), (decide (_ >= n)); lia. Qed.
Lemma taken_step l n e : 0 <= n -> e ∈ l -> suffix_of (partition_name e) = Some n -> taken_from l (n + 1) + 1 <= taken_from l n.
Proof.
  intros Hn H E. induction l as [|e' l IH]; [by apply not_elem_of_nil in H|]. rewrite !taken_cons. apply elem_of_cons in H as [<- |H].
  - rewrite E. pose proof (taken_mono l n). cbn. destruct (decide (n >= n + 1)), (decide (n >= n)); lia.
  - specialize (IH H). destruct (decide (_ >= n + 1)), (decide (_ >= n)); lia.
Qed.
Abbreviation len := (Z.of_nat (length els)).
Abbreviation taken := (taken_from els).

Lemma first_free_spec fuel : forall rest n, 0 <= n -> n + taken n < SUFFIXES -> (exists pre, els = pre ++ rest /\ forall e, e ∈ pre -> suffix_of (partition_name e) <> Some n) ->
  taken n * (len + 1) + Z.of_nat (length rest) < Z.of_nat fuel ->
  exists f, first_free same_name fuel els rest (part_name_of n) n = Some (Some f) /\ n <= f /\ f + taken f <= n + taken n /\ (forall t, n <= t < f -> occupied t) /\ ~ occupied f.
Proof.
  induction fuel as [|fuel IH]; intros rest n Hn Hb (pre & Ep & Hpre) Hf; [pose proof (taken_range els n); nia|]. cbn [first_free]. pose proof (taken_range els n).
  assert (Hs : SUFFIXES = 10000000) by reflexivity. destruct rest as [|e rest].
  - exists n. split; [done|]. do 2 (split; [lia|]). split; [intros; lia|]. intros (e & He & E). rewrite app_nil_r in Ep. subst pre. by apply (Hpre e).
  - destruct (same_name (partition_name e) (part_name_of n)) eqn:G.
    + apply same_name_suffix in G; [|lia]. assert (He : e ∈ els) by (rewrite Ep, elem_of_app; right; by left). pose proof (taken_step els n e Hn He G) as St.
      rewrite uwrap_small by (unfold ufits; change (2 ^ 32) with 4294967296; lia). pose proof (taken_range els (n + 1)). rewrite name_fits by lia.
      destruct (IH els (n + 1)) as (f & E & F1 & F2 & F3 & F4); [lia|lia|exists []; split; [done|]; intros x Hx; by apply not_elem_of_nil in Hx|nia|].
      exists f. split; [done|]. do 2 (split; [lia|]). split; [|done]. intros t Ht. destruct (decide (t = n)) as [->|]; [by exists e|]. apply F3. lia.
    + destruct (IH rest n) as (f & E & F); [done|done| |cbn [length] in Hf; lia|by exists f].
      exists (pre ++ [e]). split; [by rewrite <- app_assoc|]. intros x [Hx| ->%list_elem_of_singleton]%elem_of_app; [by apply Hpre|].
      rewrite <- same_name_suffix by lia. by rewrite G.
Qed.

(** A run of [k] names from [t] on would meet one that is taken. *)
Definition blocked (k t : Z) : Prop := exists i, 0 <= i < k /\ occupied (t + i).
Lemma next_suffix_spec fuel base np : 0 < np -> forall cur n, 0 <= cur <= np -> 0 <= base -> base <= n - cur ->
  n + taken n * np + (np - cur) < SUFFIXES -> taken n * np + (np - cur) < Z.of_nat fuel ->
  (forall t, n - cur <= t < n -> ~ occupied t) -> (forall t, base <= t < n - cur -> blocked np t) ->
  exists s, next_suffix same_name fuel els np cur n = Some s /\ base <= s < SUFFIXES /\ (forall i, 0 <= i < np -> ~ occupied (s + i)) /\ (forall t, base <= t < s -> blocked np t).
Proof.
  intros Hnp. induction fuel as [|fuel IH]; intros cur n Hc Hbase Hbn Hb Hf Hfree Hbl; pose proof (taken_range els n) as T; [nia|]. cbn [next_suffix].
  assert (Hs : SUFFIXES = 10000000) by reflexivity. assert (W : forall z, 0 <= z < SUFFIXES -> u32 z = z) by (intros z Hz; apply uwrap_small; unfold ufits; change (2 ^ 32) with 4294967296; lia).
  destruct (Z.ltb_spec cur np) as [L|L].
  - rewrite name_fits by nia.
    destruct (first_free_spec ((length els + 1) * (length els + 1)) els n) as (f & E & F1 & F2 & F3 & F4); [lia|nia|exists []; split; [done|]; intros x Hx; by apply not_elem_of_nil in Hx|nia|].
    rewrite E. cbn [mbind option_bind]. pose proof (taken_range els f) as Tf. pose proof (taken_mono els f) as Mf. pose proof (taken_range els (f + 1)).
    destruct (Z.ltb_spec n f) as [Lf|Lf].
    + (* a new run begins at [f] *)
      assert (On : occupied n) by (apply F3; lia). replace ((0 <? cur) && true) with (0 <? cur) by (by rewrite andb_true_r).
      replace (if 0 <? cur then 0 else cur) with 0 by (destruct (Z.ltb_spec 0 cur); lia). rewrite !W by nia.
      apply (IH 1 (f + 1)); try lia; try nia.
      * intros t Ht. replace t with f by lia. done.
      * intros t Ht. replace (f + 1 - 1) with f in Ht by lia. destruct (Z.lt_ge_cases t (n - cur)) as [L1|L1]; [apply Hbl; lia|].
        destruct (Z.le_gt_cases t n) as [L2|L2]; [exists (n - t); replace (t + (n - t)) with n by lia; split; [lia|done]|].
        exists 0. rewrite Z.add_0_r. split; [lia|]. apply F3. lia.
    + assert (f = n) as -> by lia. rewrite andb_false_r, !W by nia. apply (IH (cur + 1) (n + 1)); try lia; try nia.
      * intros t Ht. destruct (decide (t = n)) as [->|]; [done|]. apply Hfree. lia.
      * intros t Ht. apply Hbl. lia.
  - assert (cur = np) as -> by lia. exists (n - np). rewrite W by nia. split; [done|]. split; [nia|]. split.
    + intros i Hi. apply Hfree. lia.
    + intros t Ht. apply Hbl. lia.
Qed.

(** New partitions of a history are numbered by the least run of free names: the search for [new_parts] suffixes in a row, from the number of
    partitions less one, ends whatever the names of the partitions are; none of the suffixes it returns is that of a partition, and at every earlier start the run
    would meet one that is. The names must fit in the buffer, which they do while the number of partitions, and [new_parts] more for each, are
    less than ten million. *)
Theorem next_part_no_least_run num_parts new_parts : 0 < new_parts -> 1 < num_parts -> num_parts + (len + 1) * new_parts <= SUFFIXES ->
  exists s, next_part_no same_name true els num_parts new_parts = Some s /\ num_parts - 1 <= s < SUFFIXES /\
    (forall i, 0 <= i < new_parts -> ~ occupied (s + i)) /\ (forall t, num_parts - 1 <= t < s -> blocked new_parts t).
Proof.
  intros Hn Hp Hb. assert (Hs : SUFFIXES = 10000000) by reflexivity. unfold next_part_no, asserting. cbn [negb]. rewrite (proj2 (Z.ltb_lt 0 new_parts)) by lia. cbn [mbind option_bind].
  rewrite uwrap_small by (unfold ufits; change (2 ^ 32) with 4294967296; nia). rewrite (proj2 (Z.ltb_lt 0 _)) by lia. cbn [mbind option_bind].
  pose proof (taken_range els (num_parts - 1)). apply (next_suffix_spec _ (num_parts - 1) new_parts); try lia; try nia; intros; lia.
Qed.
End Search.

(** * Numbers of the partitions *)

(** What [vers_update_el_ids] leaves: the elements from the number [id] on have their position as their number, up to the current one. *)
Lemma update_ids_spec els els' id : update_ids els id = Some els' -> 0 <= id -> id + Z.of_nat (length els) < 2 ^ 32 ->
  length els' = length els /\
  (forall i e, els !! i = Some e -> exists e', els' !! i = Some e' /\ el_type e' = el_type e /\ partition_name e' = partition_name e /\
    ((forall j f, (j < i)%nat -> els !! j = Some f -> el_type f <> CURRENT) -> el_id e' = if (el_id e =? UINT_MAX32) || has_type e CURRENT then id + Z.of_nat i else el_id e) /\
    ((exists j f, (j < i)%nat /\ els !! j = Some f /\ el_type f = CURRENT) -> e' = e)).
Proof.
  revert els' id. induction els as [|e els IH]; intros els' id H Hid Hb; [by injection H as <-|]. cbn [update_ids] in H. cbn [length] in Hb.
  unfold asserting in H. destruct (negb (has_type e CONVENTIONAL)) eqn:C; [|done]. cbn [mbind option_bind] in H.
  rewrite uwrap_small in H by (unfold ufits; lia). destruct (has_type e CURRENT) eqn:T.
  - rewrite orb_true_r in H. injection H as <-. apply bool_decide_eq_true in T. split; [done|]. intros [|i] f Hf.
    + injection Hf as <-. exists (with_id e id). unfold has_type. rewrite (bool_decide_eq_true_2 _ T), orb_true_r. split_and!; try done; [intros _; cbn; lia|].
      intros (j & _ & L & _). lia.
    + exists f. split_and!; try done. intros Hn. by destruct (Hn O e ltac:(lia) eq_refl).
  - assert (N : el_type e <> CURRENT) by (by apply bool_decide_eq_false in T). rewrite orb_false_r in H.
    assert (R : exists e' r, update_ids els (id + 1) = Some r /\ els' = e' :: r /\ el_type e' = el_type e /\ partition_name e' = partition_name e /\ el_id e' = if el_id e =? UINT_MAX32 then id else el_id e).
    { destruct (update_ids els (id + 1)) as [r|] eqn:U; destruct (el_id e =? UINT_MAX32); cbn in H; try done; injection H as <-; [exists (with_id e id), r|exists e, r]; by split_and!. }
    destruct R as (e' & r & U & -> & E1 & E2 & E3). destruct (IH r (id + 1) U ltac:(lia) ltac:(lia)) as [L F]. split; [cbn; congruence|]. intros [|i] f Hf.
    + injection Hf as <-. exists e'. rewrite T, orb_false_r. split_and!; try done; [intros _; rewrite E3; destruct (_ =? _); lia|]. intros (j & _ & Lj & _). lia.
    + destruct (F i f Hf) as (f' & F0 & F1 & F2 & F3 & F4). exists f'. split_and!; try done.
      * intros Hn. rewrite F3 by (intros j g Lj; apply (Hn (S j)); lia). destruct (_ || _); lia.
      * intros ([|j] & g & Lj & Eg & Tg); [injection Eg as <-; done|]. apply F4. exists j, g. split_and!; [lia|done..].
Qed.
Lemma get_partition_at els i e : els !! i = Some e -> (forall j f, (j < i)%nat -> els !! j = Some f -> el_id f <> el_id e) -> get_partition els (el_id e) = Some e.
Proof.
  revert i. induction els as [|f els IH]; intros i H D; [done|]. cbn [get_partition]. destruct i as [|i]; [injection H as ->; by rewrite Z.eqb_refl|].
  rewrite (proj2 (Z.eqb_neq _ _)) by (apply (D O f); [lia|done]). apply (IH i H). intros j g Lj. apply (D (S j)). lia.
Qed.

(** After partitions are added before the current one, numbers are positions: when a partition up to the current one has its position as its
    number already, or none, or is the current one, [vers_update_el_ids] leaves each with its position as its number, with its name and kind, and [get_partition] of that
    number finds that partition; what comes after the current one is not changed. *)
Theorem el_ids_are_positions els els' c cur : els !! c = Some cur -> el_type cur = CURRENT -> Z.of_nat (length els) < 2 ^ 32 ->
  (forall i e, (i < c)%nat -> els !! i = Some e -> el_type e = HISTORY /\ (el_id e = Z.of_nat i \/ el_id e = UINT_MAX32)) ->
  vers_update_el_ids els = Some els' ->
  length els' = length els /\
  (forall i e, (i <= c)%nat -> els !! i = Some e ->
     exists e', els' !! i = Some e' /\ el_id e' = Z.of_nat i /\ el_type e' = el_type e /\ partition_name e' = partition_name e /\ get_partition els' (Z.of_nat i) = Some e') /\
  drop (S c) els' = drop (S c) els.
Proof.
  intros Hc Tc Hb Hp H. destruct (update_ids_spec _ _ _ H ltac:(lia) ltac:(lia)) as [L F]. split; [done|].
  assert (P : forall i e, (i <= c)%nat -> els !! i = Some e -> exists e', els' !! i = Some e' /\ el_id e' = Z.of_nat i /\ el_type e' = el_type e /\ partition_name e' = partition_name e).
  { intros i e Li He. destruct (F i e He) as (e' & E0 & E1 & E2 & E3 & _). exists e'. split_and!; try done. rewrite E3 by (intros j f Lj Hf; destruct (Hp j f ltac:(lia) Hf) as [-> _]; done).
    destruct (decide (i = c)) as [->|N].
    - assert (e = cur) as -> by congruence. unfold has_type. rewrite (bool_decide_eq_true_2 _ Tc), orb_true_r. lia.
    - destruct (Hp i e ltac:(lia) He) as [Te [Ei|Ei]].
      + destruct ((el_id e =? UINT_MAX32) || has_type e CURRENT); [done|exact Ei].
      + rewrite Ei, Z.eqb_refl. cbn [orb]. lia. }
  split.
  - intros i e Li He. destruct (P i e Li He) as (e' & E0 & E1 & E2 & E3). exists e'. split_and!; try done. rewrite <- E1. apply (get_partition_at els' i); [done|].
    intros j f Lj Hf. assert (exists g, els !! j = Some g) as [g Hg] by (apply lookup_lt_is_Some; apply lookup_lt_Some in Hc; lia).
    destruct (P j g ltac:(lia) Hg) as (f' & F0 & F1 & _). assert (f' = f) as -> by congruence. lia.
  - apply list_eq. intros i. rewrite !lookup_drop. destruct (els !! (S c + i)%nat) as [e|] eqn:E; [|apply lookup_ge_None; apply lookup_ge_None in E; lia].
    destruct (F _ e E) as (e' & E0 & _ & _ & _ & E4). rewrite E0. f_equal. apply E4. exists c, cur. split_and!; [lia|done..].
Qed.

(** * Witnesses *)

Module Wit.
Definition upper (b : byte) : byte := let z := byteZ b in if (97 <=? z) && (z <=? 122) then Zbyte (z - 32) else b.
Definition same (a b : bytes) : bool := bool_decide (map upper a = map upper b).
Definition suffix (a : bytes) : option Z := let n := fst (digits (tail (map upper a)) 0 false) in if (0 <=? n) && (n <? SUFFIXES) && same a (part_name_of n) then Some n else None.
Lemma upper_digits l : Forall (fun b => is_digit b = true) l -> map upper l = l.
Proof.
  induction 1 as [|b l Hb _ IH]; [done|]. cbn [map]. f_equal; [|done]. unfold upper. unfold is_digit in Hb. apply andb_true_iff in Hb as [_ Hb%Z.leb_le].
  by rewrite (proj2 (Z.leb_gt 97 _)) by lia.
Qed.
Lemma same_suffix a n : 0 <= n < SUFFIXES -> same a (part_name_of n) = true <-> suffix a = Some n.
Proof.
  intros Hn. assert (Hs : SUFFIXES = 10000000) by reflexivity. unfold suffix. split; intros H.
  - pose proof H as E%bool_decide_eq_true. rewrite E. destruct (decimal_spec n ltac:(lia)) as (D & V & _). unfold part_name_of. cbn [map tail]. rewrite upper_digits by done. rewrite V. cbn [fst].
    unfold part_name_of in H. rewrite H, (proj2 (Z.leb_le _ _)), (proj2 (Z.ltb_lt _ _)) by lia. done.
  - destruct (_ && same _ _) eqn:G; [|done]. injection H as H. rewrite H in G. by apply andb_true_iff in G as [_ G].
Qed.
Definition el (t : elem_type_enum) (id : Z) (s : bytes) : partition_element := mkElement id t s.
Definition els : list partition_element := [el HISTORY 0 [x50; x30]; el HISTORY 1 [x70; x33]; el HISTORY UINT_MAX32 [x50; x34]; el CURRENT 2 [x70; x6e]].
End Wit.
Lemma next_part_no_least_run_witness : next_part_no Wit.same true Wit.els 3 2 = Some 5.
Proof.
  destruct (next_part_no_least_run Wit.same Wit.suffix Wit.same_suffix Wit.els 3 2) as (s & E & _); [lia|lia|by vm_compute|]. rewrite E. rewrite <- E. by vm_compute.
Defined.
Lemma el_ids_are_positions_witness : exists els', vers_update_el_ids Wit.els = Some els' /\ map el_id els' = [0; 1; 2; 3] /\ exists e, get_partition els' 3 = Some e.
Proof.
  destruct (vers_update_el_ids Wit.els) as [els'|] eqn:E; [|by vm_compute in E]. exists els'. split; [done|]. split; [by vm_compute in E; injection E as <-|].
  destruct (el_ids_are_positions Wit.els els' 3 (Wit.el CURRENT 2 [x70; x6e])) as (_ & F & _); [done|done|by vm_compute| |done|].
  - intros [|[|[|i]]] e L H; [injection H as <-; vm_compute; auto..|lia].
  - destruct (F 3%nat (Wit.el CURRENT 2 [x70; x6e])) as (e & _ & _ & _ & _ & G); [lia|done|by exists e].
Defined.
