(* ===== verification/SqlXaEvent.v ===== *)
(** Events of XA transactions: of [private/log_event.h], the text of an XID ([serialize_xid]) and the queries of [XA_prepare_log_event], in buffers that end.

    A write or a read outside its buffer is [None].  The table of hexadecimal digits is in another source file: what is used of it is that its
    digits differ from each other, from an apostrophe and from the end of a string. *)

From S2P Require Import Prelude CString ByteOrder SqlTrans.

Definition NUL : byte := x00.
Definition apostrophe : byte := x27.
Definition comma : byte := x2c.
Definition poke (buf : bytes) (i : Z) (b : byte) : option bytes := if (0 <=? i) && (i <? Z.of_nat (length buf)) then Some (<[Z.to_nat i := b]> buf) else None.
Definition peek (buf : bytes) (i : Z) : option byte := if 0 <=? i then buf !! Z.to_nat i else None.
Fixpoint pokes (buf : bytes) (i : Z) (l : bytes) : option bytes := match l with [] => Some buf | b :: l => buf ← poke buf i b; pokes buf (i + 1) l end.
(** The string that begins a buffer. *)
Definition cstr (buf : bytes) : bytes := match find_byte NUL buf with Some n => take (Z.to_nat n) buf | None => buf end.

Section Serialize.
Context (_dig_vec_lower : Z -> byte).

(** A loop over [n] bytes of the data, from the byte [i]: the buffer and where it is written. *)
Fixpoint put_hex (n : nat) (dat : bytes) (i : Z) (buf : bytes) (c : Z) : option (bytes * Z) :=
  match n with
  | O => Some (buf, c)
  | S n =>
      d ← peek dat i;
      buf ← poke buf c (_dig_vec_lower (byteZ d .>> 4));
      buf ← poke buf (c + 1) (_dig_vec_lower (Z.land (byteZ d) 15));
      put_hex n dat (i + 1) buf (c + 2)
  end.
Definition serialize_xid (buf : bytes) (fmt gln bln : Z) (dat : bytes) : option bytes :=
  buf ← poke buf 0 x58;
  buf ← poke buf 1 apostrophe;
  '(buf, c) ← put_hex (Z.to_nat gln) dat 0 buf 2;
  let i := Z.max 0 gln in
  buf ← poke buf c apostrophe;
  buf ← poke buf (c + 1) comma;
  buf ← poke buf (c + 2) x58;
  buf ← poke buf (c + 3) apostrophe;
  '(buf, c) ← put_hex (Z.to_nat (gln + bln - i)) dat i buf (c + 4);
  buf ← poke buf c apostrophe;
  pokes buf (c + 1) (comma :: decimal (u64 fmt) ++ [NUL]).

Definition MYSQL_XIDDATASIZE : Z := 128.
Definition ser_buf_size : Z := 8 + 2 * MYSQL_XIDDATASIZE + 4 * 8 + 1.
(** [event_xid_t]: an XID with its buffer. *)
Definition serialize (x : XID) (buf : bytes) : option bytes := serialize_xid buf (formatID x) (gtrid_length x) (bqual_length x) (data x).

(** ** [XA_prepare_log_event] *)

Definition xid_subheader_no_data : Z := 12.
Definition xa_is_valid (x : XID) : bool := negb (formatID x =? -1).
Definition xa_get_data_size (x : XID) : Z := s32 (xid_subheader_no_data + gtrid_length x + bqual_length x).
(** [sizeof("XA COMMIT ONE PHASE") + 1 + ser_buf_size] *)
Definition query_size : Z := 20 + 1 + ser_buf_size.
Definition XA_COMMIT : bytes := [x58; x41; x20; x43; x4f; x4d; x4d; x49; x54; x20].
Definition ONE_PHASE : bytes := [x20; x4f; x4e; x45; x20; x50; x48; x41; x53; x45].
Definition XA_PREPARE : bytes := [x58; x41; x20; x50; x52; x45; x50; x41; x52; x45; x20].
(** The buffers of the XID and of the query. *)
Definition get_query (one_phase : bool) (x : XID) (buf query : bytes) : option (bytes * bytes) :=
  buf ← serialize x buf;
  query ← pokes query 0 ((if one_phase then XA_COMMIT ++ cstr buf ++ ONE_PHASE else XA_PREPARE ++ cstr buf) ++ [NUL]);
  Some (buf, query).

(** ** The text of an XID *)

Fixpoint hex (l : bytes) : bytes := match l with [] => [] | b :: l => _dig_vec_lower (byteZ b .>> 4) :: _dig_vec_lower (Z.land (byteZ b) 15) :: hex l end.
Definition gtrid (x : XID) : bytes := take (Z.to_nat (gtrid_length x)) (data x).
Definition bqual (x : XID) : bytes := take (Z.to_nat (bqual_length x)) (drop (Z.to_nat (gtrid_length x)) (data x)).
Definition xid_text (x : XID) : bytes :=
  x58 :: apostrophe :: hex (gtrid x) ++ apostrophe :: comma :: x58 :: apostrophe :: hex (bqual x) ++ apostrophe :: comma :: decimal (u64 (formatID x)).
End Serialize.

(** * Writing *)

Lemma pokes_app buf i l l' : pokes buf i (l ++ l') = buf' ← pokes buf i l; pokes buf' (i + Z.of_nat (length l)) l'.
Proof.
  revert buf i. induction l as [|b l IH]; intros buf i; cbn [app pokes length]; [by rewrite Z.add_0_r|].
  destruct (poke buf i b) as [buf'|]; [|done]. cbn [mbind option_bind]. rewrite IH. destruct (pokes buf' (i + 1) l); [|done]. cbn [mbind option_bind]. f_equal. lia.
Qed.
Lemma pokes_spec buf i l : 0 <= i -> i + Z.of_nat (length l) <= Z.of_nat (length buf) ->
  pokes buf i l = Some (take (Z.to_nat i) buf ++ l ++ drop (Z.to_nat i + length l) buf).
Proof.
  revert buf i. induction l as [|b l IH]; intros buf i Hi H; cbn [pokes length] in *; [by rewrite Nat.add_0_r, app_nil_l, take_drop|].
  unfold poke. rewrite (proj2 (Z.leb_le 0 i)), (proj2 (Z.ltb_lt i _)) by lia. cbn [andb mbind option_bind]. rewrite IH by (rewrite ?length_insert; lia). f_equal.
  replace (Z.to_nat (i + 1)) with (S (Z.to_nat i)) by lia. rewrite drop_insert_lt by lia.
  rewrite (take_S_r _ _ b) by (apply list_lookup_insert_eq; lia). rewrite take_insert_ge by lia. rewrite <- app_assoc. cbn [app]. by replace (S (Z.to_nat i) + length l)%nat with (Z.to_nat i + S (length l))%nat by lia.
Qed.
Lemma put_hex_pokes dig n dat i buf c : 0 <= i -> i + Z.of_nat n <= Z.of_nat (length dat) ->
  put_hex dig n dat i buf c = (fun b => (b, c + 2 * Z.of_nat n)) <$> pokes buf c (hex dig (take n (drop (Z.to_nat i) dat))).
Proof.
  revert i buf c. induction n as [|n IH]; intros i buf c Hi H; [cbn [put_hex take hex pokes fmap option_fmap option_map]; by rewrite Z.add_0_r|]. cbn [put_hex]. unfold peek. rewrite (proj2 (Z.leb_le 0 i)) by lia.
  destruct (lookup_lt_is_Some_2 dat (Z.to_nat i)) as [d E]; [lia|]. rewrite E. cbn [mbind option_bind]. rewrite (drop_S dat d) by done. cbn [take hex pokes].
  destruct (poke buf c _) as [b1|]; [|done]. cbn [mbind option_bind]. destruct (poke b1 (c + 1) _) as [b2|]; [|done]. cbn [mbind option_bind].
  rewrite IH by lia. replace (Z.to_nat (i + 1)) with (S (Z.to_nat i)) by lia. replace (c + 1 + 1) with (c + 2) by lia. destruct (pokes _ _ _); [|done]. cbn. do 2 f_equal. lia.
Qed.
Lemma length_hex dig l : length (hex dig l) = (2 * length l)%nat.
Proof. induction l as [|b l IH]; [done|]. cbn [hex length]. lia. Qed.
Lemma poke_pokes buf i b : poke buf i b = pokes buf i [b].
Proof. cbn. by destruct (poke buf i b). Qed.

(** The whole text is written as one string. *)
Lemma serialize_pokes dig buf x : xid_ok x -> serialize dig x buf = pokes buf 0 (xid_text dig x ++ [NUL]).
Proof.
  intros [Hd Hg Hb Hl]. unfold XIDDATASIZE in Hd. unfold serialize, serialize_xid, xid_text, gtrid, bqual. rewrite Z.max_r by done. replace (gtrid_length x + bqual_length x - gtrid_length x) with (bqual_length x) by lia.
  set (g := hex dig (take _ (data x))). set (b := hex dig (take _ (drop _ _))).
  assert (Lg : Z.of_nat (length g) = 2 * gtrid_length x) by (unfold g; rewrite length_hex, length_take; lia).
  assert (Lb : Z.of_nat (length b) = 2 * bqual_length x) by (unfold b; rewrite length_hex, length_take, length_drop; lia).
  change (x58 :: apostrophe :: g ++ apostrophe :: comma :: x58 :: apostrophe :: b ++ apostrophe :: comma :: decimal (u64 (formatID x)))
    with ([x58; apostrophe] ++ g ++ [apostrophe; comma; x58; apostrophe] ++ b ++ apostrophe :: comma :: decimal (u64 (formatID x))).
  rewrite <- !app_assoc. rewrite (pokes_app buf). cbn [pokes]. destruct (poke buf 0 x58) as [b1|]; [|done]. cbn [mbind option_bind]. change (0 + 1) with 1. destruct (poke b1 1 apostrophe) as [b2|]; [|done].
  cbn [mbind option_bind]. rewrite put_hex_pokes by lia. change (Z.to_nat 0) with 0%nat. rewrite drop_0. fold g. rewrite pokes_app. change (0 + Z.of_nat (length [x58; apostrophe])) with 2.
  destruct (pokes b2 2 g) as [b3|]; [|done]. cbn [fmap option_fmap option_map mbind option_bind]. rewrite pokes_app. rewrite Lg, Z2Nat.id by lia. set (c := 2 + 2 * gtrid_length x). cbn [pokes app].
  destruct (poke b3 c apostrophe) as [b4|]; [|done]. cbn [mbind option_bind]. destruct (poke b4 (c + 1) comma) as [b5|]; [|done]. cbn [mbind option_bind]. replace (c + 1 + 1) with (c + 2) by lia.
  destruct (poke b5 (c + 2) x58) as [b6|]; [|done]. cbn [mbind option_bind]. replace (c + 2 + 1) with (c + 3) by lia. destruct (poke b6 (c + 3) apostrophe) as [b7|]; [|done]. cbn [mbind option_bind].
  rewrite put_hex_pokes by lia. fold b. rewrite pokes_app. cbn [length]. change (Z.of_nat 4) with 4. destruct (pokes b7 (c + 4) b) as [b8|]; [|done]. cbn [fmap option_fmap option_map mbind option_bind].
  rewrite Lb, Z2Nat.id by lia. cbn [pokes]. done.
Qed.

(** * Strings and separators *)

Lemma sep_inj (c : byte) a a' t t' : c ∉ a -> c ∉ a' -> a ++ c :: t = a' ++ c :: t' -> a = a' /\ t = t'.
Proof.
  revert a'. induction a as [|b a IH]; intros [|b' a'] H H' E; cbn [app] in E.
  - by injection E.
  - injection E as <- _. by destruct H'; left.
  - injection E as -> _. by destruct H; left.
  - injection E as <- E. rewrite not_elem_of_cons in H, H'. destruct (IH a') as [-> ->]; [naive_solver..|done].
Qed.
Lemma cstr_app l t : NUL ∉ l -> cstr (l ++ NUL :: t) = l.
Proof. intros H. unfold cstr. rewrite find_byte_app, find_byte_here by done. cbn [fmap option_fmap option_map]. rewrite Z.add_0_r, Nat2Z.id. apply take_app_length. Qed.
Lemma length_decimal p : 0 <= p < 2 ^ 64 -> (length (decimal p) <= 20)%nat.
Proof. intros H. apply decimal_fuel_length; [|lia]. change (10 ^ Z.of_nat 20) with 100000000000000000000. change (2 ^ 64) with 18446744073709551616 in H. lia. Qed.
Lemma decimal_inj p q : 0 <= p < 2 ^ 64 -> 0 <= q < 2 ^ 64 -> decimal p = decimal q -> p = q.
Proof. intros Hp Hq E. destruct (decimal_spec p Hp) as (_ & A & _), (decimal_spec q Hq) as (_ & B & _). rewrite E in A. congruence. Qed.
Lemma byte_halves b : 0 <= byteZ b .>> 4 < 16 /\ 0 <= Z.land (byteZ b) 15 < 16 /\ byteZ b = 16 * (byteZ b .>> 4) + Z.land (byteZ b) 15.
Proof.
  pose proof (byteZ_range b) as H. unfold ufits in H. rewrite Z.shiftr_div_pow2 by lia. change 15 with (Z.ones 4). rewrite Z.land_ones by lia. change (2 ^ 4) with 16. change (2 ^ 8) with 256 in H.
  pose proof (Z.div_mod (byteZ b) 16 ltac:(lia)). pose proof (Z.mod_pos_bound (byteZ b) 16 ltac:(lia)). lia.
Qed.
Lemma u64_range z : 0 <= u64 z < 2 ^ 64.
Proof. apply Z.mod_pos_bound. lia. Qed.

Section Text.
Context (dig : Z -> byte).
Hypothesis dig_inj : forall i j, 0 <= i < 16 -> 0 <= j < 16 -> dig i = dig j -> i = j.
Hypothesis dig_apostrophe : forall i, 0 <= i < 16 -> dig i <> apostrophe.
Hypothesis dig_NUL : forall i, 0 <= i < 16 -> dig i <> NUL.

Lemma hex_without c l : (forall i, 0 <= i < 16 -> dig i <> c) -> c ∉ hex dig l.
Proof. intros H. induction l as [|b l IH]; [by apply not_elem_of_nil|]. destruct (byte_halves b) as (A & B & _). cbn [hex]. rewrite !not_elem_of_cons. split; [|split]; [by intros ->; apply (H _ A)|by intros ->; apply (H _ B)|done]. Qed.
Lemma hex_inj l l' : hex dig l = hex dig l' -> l = l'.
Proof.
  revert l'. induction l as [|b l IH]; intros [|b' l'] E; [done|done|done|]. cbn [hex] in E. injection E as E1 E2 E3. f_equal; [|by apply IH].
  destruct (byte_halves b) as (A & B & C), (byte_halves b') as (A' & B' & C'). apply dig_inj in E1; [|done..]. apply dig_inj in E2; [|done..]. apply byteZ_inj. lia.
Qed.
Lemma xid_text_NUL x : NUL ∉ xid_text dig x.
Proof.
  pose proof (digit_not NUL _ (proj1 (decimal_spec _ (u64_range (formatID x)))) eq_refl). pose proof (fun l => hex_without NUL l dig_NUL) as H1.
  unfold xid_text. rewrite !not_elem_of_cons, not_elem_of_app, !not_elem_of_cons, not_elem_of_app, !not_elem_of_cons. split_and!; (done || apply H1).
Qed.
Lemma length_xid_text x : xid_ok x -> Z.of_nat (length (xid_text dig x)) <= 8 + 2 * (gtrid_length x + bqual_length x) + 20.
Proof.
  intros [Hd Hg Hb Hl]. unfold XIDDATASIZE in Hd. unfold xid_text, gtrid, bqual. cbn [length]. rewrite !length_app, length_hex. cbn [length]. rewrite length_app, length_hex. cbn [length].
  rewrite !length_take, length_drop. pose proof (length_decimal _ (u64_range (formatID x))). lia.
Qed.
Lemma xid_text_inj x y : xid_ok x -> xid_ok y -> sfits 64 (formatID x) -> sfits 64 (formatID y) -> xid_text dig x = xid_text dig y -> formatID x = formatID y /\ xid_key x = xid_key y.
Proof.
  intros [Hd Hg Hb Hl] [Hd' Hg' Hb' Hl'] Fx Fy E. unfold XIDDATASIZE in *. unfold xid_text in E. injection E as E.
  apply sep_inj in E as [E1 E]; [|apply hex_without; done..]. injection E as E. apply sep_inj in E as [E2 E]; [|apply hex_without; done..]. injection E as E.
  apply decimal_inj in E; [|apply u64_range..]. apply hex_inj in E1, E2.
  assert (G : gtrid_length x = gtrid_length y) by (apply (f_equal length) in E1; unfold gtrid in E1; rewrite !length_take in E1; lia).
  assert (B : bqual_length x = bqual_length y) by (apply (f_equal length) in E2; unfold bqual in E2; rewrite !length_take, !length_drop in E2; lia).
  split.
  - rewrite <- (swrap_small 64 (formatID x)), <- (swrap_small 64 (formatID y)) by done. rewrite <- (swrap_uwrap 64 (formatID x)), <- (swrap_uwrap 64 (formatID y)). by rewrite E.
  - unfold xid_key. rewrite <- G, <- B. f_equal. rewrite !Z2Nat.inj_add by lia. unfold gtrid, bqual in E1, E2. rewrite <- G in E1, E2. rewrite <- B in E2.
    rewrite <- (take_drop (Z.to_nat (gtrid_length x)) (data x)), <- (take_drop (Z.to_nat (gtrid_length x)) (data y)).
    rewrite !take_app_add' by (rewrite length_take; lia). by rewrite E1, E2.
Qed.
Lemma serialize_ok x buf : xid_ok x -> ser_buf_size <= Z.of_nat (length buf) ->
  serialize dig x buf = Some (xid_text dig x ++ NUL :: drop (length (xid_text dig x) + 1) buf).
Proof.
  intros Hx L. pose proof (length_xid_text x Hx) as T. destruct Hx as [Hd Hg Hb Hl]. rewrite serialize_pokes by done. change ser_buf_size with 297 in L.
  rewrite pokes_spec; [|lia|rewrite length_app; cbn [length]; lia]. change (Z.to_nat 0) with 0%nat. rewrite take_0, length_app. cbn [app length Nat.add]. by rewrite <- app_assoc.
Qed.

(** C39.  The text of an XID stays in its buffer: in a buffer of [ser_buf_size] bytes, whatever the identifier, no byte is read or written outside, the string left is that of
    the two parts in hexadecimal and the format as an unsigned number, of at most 284 bytes, and what follows its end is as before. *)
Theorem xid_text_in_buffer x buf : xid_ok x -> ser_buf_size <= Z.of_nat (length buf) ->
  exists buf', serialize dig x buf = Some buf' /\ length buf' = length buf /\ cstr buf' = xid_text dig x /\ Z.of_nat (length (cstr buf')) <= 284 /\
    drop (length (cstr buf') + 1) buf' = drop (length (cstr buf') + 1) buf.
Proof.
  intros Hx L. pose proof (length_xid_text x Hx) as T. exists (xid_text dig x ++ NUL :: drop (length (xid_text dig x) + 1) buf). split; [by apply serialize_ok|].
  destruct Hx as [Hd Hg Hb Hl]. change ser_buf_size with 297 in L. rewrite cstr_app by apply xid_text_NUL. split_and!; [|done|lia|].
  - rewrite length_app. cbn [length]. rewrite length_drop. lia.
  - rewrite drop_app_ge by lia. by replace (length (xid_text dig x) + 1 - length (xid_text dig x))%nat with 1%nat by lia.
Qed.

(** Texts tell identifiers apart: two XIDs whose texts are the same string have the same format, the same lengths and the same bytes, so that they are equal for [XID::eq] and have the
    same key. *)
Theorem xid_text_identifies x y b1 b2 b1' b2' : xid_ok x -> xid_ok y -> sfits 64 (formatID x) -> sfits 64 (formatID y) ->
  ser_buf_size <= Z.of_nat (length b1) -> ser_buf_size <= Z.of_nat (length b2) ->
  serialize dig x b1 = Some b1' -> serialize dig y b2 = Some b2' -> cstr b1' = cstr b2' ->
  formatID x = formatID y /\ xid_key x = xid_key y.
Proof.
  intros Hx Hy Fx Fy L1 L2 E1 E2 E. rewrite serialize_ok in E1, E2 by done. apply (inj Some) in E1, E2. subst b1' b2'. rewrite !cstr_app in E by apply xid_text_NUL. by apply xid_text_inj.
Qed.

(** Queries of XA events: [XA PREPARE] and [XA COMMIT ... ONE PHASE] of any identifier fit in the buffer of the event, with room for them to be longer than they are,
    and the same query is of the same kind and the same identifier. *)
Theorem xa_queries op x b q op' y b2 q2 : xid_ok x -> xid_ok y -> sfits 64 (formatID x) -> sfits 64 (formatID y) ->
  Z.of_nat (length b) = ser_buf_size -> Z.of_nat (length b2) = ser_buf_size -> Z.of_nat (length q) = query_size -> Z.of_nat (length q2) = query_size ->
  exists b' q' b2' q2', get_query dig op x b q = Some (b', q') /\ get_query dig op' y b2 q2 = Some (b2', q2') /\
    Z.of_nat (length (cstr q')) <= 304 /\ (cstr q' = cstr q2' -> op = op' /\ formatID x = formatID y /\ xid_key x = xid_key y).
Proof.
  intros Hx Hy Fx Fy L1 L2 L3 L4. change query_size with 318 in *.
  assert (W : forall o z bb qq, xid_ok z -> Z.of_nat (length bb) = ser_buf_size -> Z.of_nat (length qq) = 318 -> exists b' q', get_query dig o z bb qq = Some (b', q') /\
    cstr q' = (if o then XA_COMMIT ++ xid_text dig z ++ ONE_PHASE else XA_PREPARE ++ xid_text dig z) /\ Z.of_nat (length (cstr q')) <= 304).
  { intros o z bb qq Hz Lb Lq. unfold get_query. pose proof (length_xid_text z Hz) as T. destruct Hz as [Z1 Z2 Z3 Z4]. rewrite serialize_ok by (done || lia). cbn [mbind option_bind].
    rewrite cstr_app by apply xid_text_NUL. set (t := if o then _ else _). assert (Lt : Z.of_nat (length t) <= 304).
    { unfold t. destruct o; rewrite !length_app; change (length XA_COMMIT) with 10%nat; change (length ONE_PHASE) with 10%nat; change (length XA_PREPARE) with 11%nat; lia. }
    rewrite pokes_spec; [|lia|rewrite length_app; cbn [length]; lia]. cbn [mbind option_bind]. eexists _, _. split; [done|]. change (Z.to_nat 0) with 0%nat. rewrite take_0. cbn [app]. rewrite <- app_assoc. cbn [app].
    rewrite cstr_app; [done|]. pose proof (xid_text_NUL z). unfold t. destruct o; rewrite !not_elem_of_app; split_and!; first [done|by apply (bool_decide_unpack _); vm_compute]. }
  destruct (W op x b q) as (b' & q' & E1 & T1 & B1); [done..|]. destruct (W op' y b2 q2) as (b2' & q2' & E2 & T2 & B2); [done..|].
  exists b', q', b2', q2'. split_and!; [done..|]. rewrite T1, T2. intros E. assert (op = op') as <- by (destruct op, op'; try done; cbn in E; discriminate E).
  split; [done|]. apply xid_text_inj; try done. destruct op; apply app_inv_head in E; [by apply app_inv_tail in E|done].
Qed.
End Text.

(** * Witnesses *)

Module Wit.
Definition dig (i : Z) : byte := if i <? 10 then digit_byte i else Zbyte (87 + i).
Lemma dig_byte i : 0 <= i < 16 -> byteZ (dig i) = if i <? 10 then 48 + i else 87 + i.
Proof. intros H. unfold dig. destruct (Z.ltb_spec i 10); [by apply byteZ_digit; lia|]. rewrite byteZ_Zbyte. apply uwrap_small. unfold ufits. lia. Qed.
Lemma dig_inj i j : 0 <= i < 16 -> 0 <= j < 16 -> dig i = dig j -> i = j.
Proof. intros Hi Hj E. apply (f_equal byteZ) in E. rewrite !dig_byte in E by done. destruct (Z.ltb_spec i 10), (Z.ltb_spec j 10); lia. Qed.
Lemma dig_not c i : byteZ c < 48 -> 0 <= i < 16 -> dig i <> c.
Proof. intros Hc Hi E. apply (f_equal byteZ) in E. rewrite dig_byte in E by done. destruct (Z.ltb_spec i 10); lia. Qed.
Lemma dig_apostrophe i : 0 <= i < 16 -> dig i <> apostrophe.
Proof. by apply dig_not. Qed.
Lemma dig_NUL i : 0 <= i < 16 -> dig i <> NUL.
Proof. by apply dig_not. Qed.
Definition x : XID := xid_set (mkXid 0 0 0 (replicate 128 x00)) 7 1.
Definition buf : bytes := replicate 297 x00.
Definition query : bytes := replicate 318 x00.
Lemma x_ok : xid_ok x.
Proof. by apply xid_set_ok. Qed.
End Wit.
Lemma xid_text_in_buffer_witness : exists buf', serialize Wit.dig Wit.x Wit.buf = Some buf' /\ length (cstr buf') = 57%nat.
Proof.
  destruct (xid_text_in_buffer Wit.dig Wit.dig_NUL Wit.x Wit.buf) as (b & E & _ & C & _); [apply Wit.x_ok|by vm_compute|]. exists b. split; [done|]. rewrite C. by vm_compute.
Defined.
Lemma xid_text_identifies_witness : formatID Wit.x = formatID Wit.x /\ xid_key Wit.x = xid_key Wit.x.
Proof.
  assert (F : sfits 64 (formatID Wit.x)) by by vm_compute. assert (L : ser_buf_size <= Z.of_nat (length Wit.buf)) by by vm_compute.
  destruct (serialize Wit.dig Wit.x Wit.buf) as [b|] eqn:E; [|by vm_compute in E].
  exact (xid_text_identifies Wit.dig Wit.dig_inj Wit.dig_apostrophe Wit.dig_NUL Wit.x Wit.x Wit.buf Wit.buf b b Wit.x_ok Wit.x_ok F F L L E E eq_refl).
Defined.
Lemma xa_queries_witness : exists b q, get_query Wit.dig true Wit.x Wit.buf Wit.query = Some (b, q) /\ Z.of_nat (length (cstr q)) <= 304.
Proof.
  destruct (xa_queries Wit.dig Wit.dig_inj Wit.dig_apostrophe Wit.dig_NUL true Wit.x Wit.buf Wit.query false Wit.x Wit.buf Wit.query) as (b & q & _ & _ & E & _ & L & _); [apply Wit.x_ok|apply Wit.x_ok|by vm_compute..|].
  exact (ex_intro _ b (ex_intro _ q (conj E L))).
Defined.
