(* ===== verification/SqlLogEvent.v ===== *)
(** Events of the binary log: of [private/log_event.h], the types of events, the objects of each class and what their virtual methods say of them, what is written for them, the
    time of an event, who frees its buffer, versions and keywords.

    What a method defined in another source file answers is a field of the object or a parameter. *)

From S2P Require Import Prelude CString ByteOrder SqlTrans SqlClock SqlXaEvent.

(** * Types of events *)

Inductive Log_event_type :=
  | UNKNOWN_EVENT | START_EVENT_V3 | QUERY_EVENT | STOP_EVENT | ROTATE_EVENT | INTVAR_EVENT | LOAD_EVENT | SLAVE_EVENT | CREATE_FILE_EVENT
  | APPEND_BLOCK_EVENT | EXEC_LOAD_EVENT | DELETE_FILE_EVENT | NEW_LOAD_EVENT | RAND_EVENT | USER_VAR_EVENT | FORMAT_DESCRIPTION_EVENT
  | XID_EVENT | BEGIN_LOAD_QUERY_EVENT | EXECUTE_LOAD_QUERY_EVENT | TABLE_MAP_EVENT | PRE_GA_WRITE_ROWS_EVENT | PRE_GA_UPDATE_ROWS_EVENT
  | PRE_GA_DELETE_ROWS_EVENT | WRITE_ROWS_EVENT_V1 | UPDATE_ROWS_EVENT_V1 | DELETE_ROWS_EVENT_V1 | INCIDENT_EVENT | HEARTBEAT_LOG_EVENT
  | IGNORABLE_LOG_EVENT | ROWS_QUERY_LOG_EVENT | WRITE_ROWS_EVENT | UPDATE_ROWS_EVENT | DELETE_ROWS_EVENT | GTID_LOG_EVENT | ANONYMOUS_GTID_LOG_EVENT
  | PREVIOUS_GTIDS_LOG_EVENT | TRANSACTION_CONTEXT_EVENT | VIEW_CHANGE_EVENT | XA_PREPARE_LOG_EVENT | MYSQL_EVENTS_END | ANNOTATE_ROWS_EVENT
  | BINLOG_CHECKPOINT_EVENT | GTID_EVENT | GTID_LIST_EVENT | START_ENCRYPTION_EVENT | QUERY_COMPRESSED_EVENT | WRITE_ROWS_COMPRESSED_EVENT_V1
  | UPDATE_ROWS_COMPRESSED_EVENT_V1 | DELETE_ROWS_COMPRESSED_EVENT_V1 | WRITE_ROWS_COMPRESSED_EVENT | UPDATE_ROWS_COMPRESSED_EVENT | DELETE_ROWS_COMPRESSED_EVENT
  | ENUM_END_EVENT.
Definition type_code (t : Log_event_type) : Z :=
  match t with
  | UNKNOWN_EVENT => 0 | START_EVENT_V3 => 1 | QUERY_EVENT => 2 | STOP_EVENT => 3 | ROTATE_EVENT => 4 | INTVAR_EVENT => 5 | LOAD_EVENT => 6
  | SLAVE_EVENT => 7 | CREATE_FILE_EVENT => 8 | APPEND_BLOCK_EVENT => 9 | EXEC_LOAD_EVENT => 10 | DELETE_FILE_EVENT => 11 | NEW_LOAD_EVENT => 12
  | RAND_EVENT => 13 | USER_VAR_EVENT => 14 | FORMAT_DESCRIPTION_EVENT => 15 | XID_EVENT => 16 | BEGIN_LOAD_QUERY_EVENT => 17 | EXECUTE_LOAD_QUERY_EVENT => 18
  | TABLE_MAP_EVENT => 19 | PRE_GA_WRITE_ROWS_EVENT => 20 | PRE_GA_UPDATE_ROWS_EVENT => 21 | PRE_GA_DELETE_ROWS_EVENT => 22 | WRITE_ROWS_EVENT_V1 => 23
  | UPDATE_ROWS_EVENT_V1 => 24 | DELETE_ROWS_EVENT_V1 => 25 | INCIDENT_EVENT => 26 | HEARTBEAT_LOG_EVENT => 27 | IGNORABLE_LOG_EVENT => 28
  | ROWS_QUERY_LOG_EVENT => 29 | WRITE_ROWS_EVENT => 30 | UPDATE_ROWS_EVENT => 31 | DELETE_ROWS_EVENT => 32 | GTID_LOG_EVENT => 33 | ANONYMOUS_GTID_LOG_EVENT => 34
  | PREVIOUS_GTIDS_LOG_EVENT => 35 | TRANSACTION_CONTEXT_EVENT => 36 | VIEW_CHANGE_EVENT => 37 | XA_PREPARE_LOG_EVENT => 38 | MYSQL_EVENTS_END => 39
  | ANNOTATE_ROWS_EVENT => 160 | BINLOG_CHECKPOINT_EVENT => 161 | GTID_EVENT => 162 | GTID_LIST_EVENT => 163 | START_ENCRYPTION_EVENT => 164
  | QUERY_COMPRESSED_EVENT => 165 | WRITE_ROWS_COMPRESSED_EVENT_V1 => 166 | UPDATE_ROWS_COMPRESSED_EVENT_V1 => 167 | DELETE_ROWS_COMPRESSED_EVENT_V1 => 168
  | WRITE_ROWS_COMPRESSED_EVENT => 169 | UPDATE_ROWS_COMPRESSED_EVENT => 170 | DELETE_ROWS_COMPRESSED_EVENT => 171 | ENUM_END_EVENT => 172
  end.
Definition all_types : list Log_event_type :=
  [UNKNOWN_EVENT; START_EVENT_V3; QUERY_EVENT; STOP_EVENT; ROTATE_EVENT; INTVAR_EVENT; LOAD_EVENT; SLAVE_EVENT; CREATE_FILE_EVENT; APPEND_BLOCK_EVENT;
   EXEC_LOAD_EVENT; DELETE_FILE_EVENT; NEW_LOAD_EVENT; RAND_EVENT; USER_VAR_EVENT; FORMAT_DESCRIPTION_EVENT; XID_EVENT; BEGIN_LOAD_QUERY_EVENT;
   EXECUTE_LOAD_QUERY_EVENT; TABLE_MAP_EVENT; PRE_GA_WRITE_ROWS_EVENT; PRE_GA_UPDATE_ROWS_EVENT; PRE_GA_DELETE_ROWS_EVENT; WRITE_ROWS_EVENT_V1;
   UPDATE_ROWS_EVENT_V1; DELETE_ROWS_EVENT_V1; INCIDENT_EVENT; HEARTBEAT_LOG_EVENT; IGNORABLE_LOG_EVENT; ROWS_QUERY_LOG_EVENT; WRITE_ROWS_EVENT;
   UPDATE_ROWS_EVENT; DELETE_ROWS_EVENT; GTID_LOG_EVENT; ANONYMOUS_GTID_LOG_EVENT; PREVIOUS_GTIDS_LOG_EVENT; TRANSACTION_CONTEXT_EVENT;
   VIEW_CHANGE_EVENT; XA_PREPARE_LOG_EVENT; MYSQL_EVENTS_END; ANNOTATE_ROWS_EVENT; BINLOG_CHECKPOINT_EVENT; GTID_EVENT; GTID_LIST_EVENT;
   START_ENCRYPTION_EVENT; QUERY_COMPRESSED_EVENT; WRITE_ROWS_COMPRESSED_EVENT_V1; UPDATE_ROWS_COMPRESSED_EVENT_V1; DELETE_ROWS_COMPRESSED_EVENT_V1;
   WRITE_ROWS_COMPRESSED_EVENT; UPDATE_ROWS_COMPRESSED_EVENT; DELETE_ROWS_COMPRESSED_EVENT; ENUM_END_EVENT].
(** Compared as the codes are. *)
Definition type_is (t u : Log_event_type) : bool := type_code t =? type_code u.
Definition MARIA_EVENTS_BEGIN : Log_event_type := ANNOTATE_ROWS_EVENT.
Definition LOG_EVENT_TYPES : Z := type_code ENUM_END_EVENT - 1.
Definition of_code (z : Z) : option Log_event_type := snd <$> list_find (fun t => type_code t = z) all_types.
Definition LOG_EVENT_IS_QUERY (t : Log_event_type) : bool := type_is t QUERY_EVENT || type_is t QUERY_COMPRESSED_EVENT.
Definition LOG_EVENT_IS_WRITE_ROW (t : Log_event_type) : bool :=
  type_is t WRITE_ROWS_EVENT || type_is t WRITE_ROWS_EVENT_V1 || type_is t WRITE_ROWS_COMPRESSED_EVENT || type_is t WRITE_ROWS_COMPRESSED_EVENT_V1.
Definition LOG_EVENT_IS_UPDATE_ROW (t : Log_event_type) : bool :=
  type_is t UPDATE_ROWS_EVENT || type_is t UPDATE_ROWS_EVENT_V1 || type_is t UPDATE_ROWS_COMPRESSED_EVENT || type_is t UPDATE_ROWS_COMPRESSED_EVENT_V1.
Definition LOG_EVENT_IS_DELETE_ROW (t : Log_event_type) : bool :=
  type_is t DELETE_ROWS_EVENT || type_is t DELETE_ROWS_EVENT_V1 || type_is t DELETE_ROWS_COMPRESSED_EVENT || type_is t DELETE_ROWS_COMPRESSED_EVENT_V1.
Definition LOG_EVENT_IS_ROW_COMPRESSED (t : Log_event_type) : bool :=
  type_is t WRITE_ROWS_COMPRESSED_EVENT || type_is t WRITE_ROWS_COMPRESSED_EVENT_V1 || type_is t UPDATE_ROWS_COMPRESSED_EVENT || type_is t UPDATE_ROWS_COMPRESSED_EVENT_V1
  || type_is t DELETE_ROWS_COMPRESSED_EVENT || type_is t DELETE_ROWS_COMPRESSED_EVENT_V1.
Definition LOG_EVENT_IS_ROW_V2 (t : Log_event_type) : bool :=
  ((type_code WRITE_ROWS_EVENT <=? type_code t) && (type_code t <=? type_code DELETE_ROWS_EVENT))
  || ((type_code WRITE_ROWS_COMPRESSED_EVENT <=? type_code t) && (type_code t <=? type_code DELETE_ROWS_COMPRESSED_EVENT)).
(** The static [is_part_of_group] and [is_group_event]. *)
Definition type_is_part_of_group (t : Log_event_type) : bool :=
  match t with
  | GTID_EVENT | INTVAR_EVENT | RAND_EVENT | USER_VAR_EVENT | TABLE_MAP_EVENT | ANNOTATE_ROWS_EVENT => true
  | _ => false
  end.
Definition is_group_event (t : Log_event_type) : bool :=
  match t with
  | START_EVENT_V3 | STOP_EVENT | ROTATE_EVENT | SLAVE_EVENT | FORMAT_DESCRIPTION_EVENT | INCIDENT_EVENT | HEARTBEAT_LOG_EVENT | BINLOG_CHECKPOINT_EVENT
  | GTID_LIST_EVENT | START_ENCRYPTION_EVENT => false
  | _ => true
  end.

(** * Objects *)

Definition LOG_EVENT_MINIMAL_HEADER_LEN : Z := 19.
Definition OLD_HEADER_LEN : Z := 13.
Definition LOAD_HEADER_LEN : Z := 4 + 4 + 4 + 1 + 1 + 4.
Definition ST_SERVER_VER_LEN : Z := 50.
Definition START_V3_HEADER_LEN : Z := 2 + ST_SERVER_VER_LEN + 4.
Definition ROTATE_HEADER_LEN : Z := 8.
Definition APPEND_BLOCK_HEADER_LEN : Z := 4.
Definition EXEC_LOAD_HEADER_LEN : Z := 4.
Definition DELETE_FILE_HEADER_LEN : Z := 4.
Definition FORMAT_DESCRIPTION_HEADER_LEN : Z := START_V3_HEADER_LEN + 1 + LOG_EVENT_TYPES.
Definition INCIDENT_HEADER_LEN : Z := 2.
Definition IGNORABLE_HEADER_LEN : Z := 0.
Definition BINLOG_CHECKPOINT_HEADER_LEN : Z := 4.
Definition GTID_HEADER_LEN : Z := 19.
Definition GTID_LIST_HEADER_LEN : Z := 4.
Definition BINLOG_CRYPTO_SCHEME_LENGTH : Z := 1.
Definition BINLOG_KEY_VERSION_LENGTH : Z := 4.
Definition MY_AES_BLOCK_SIZE : Z := 16.
Definition BINLOG_NONCE_LENGTH : Z := MY_AES_BLOCK_SIZE - 4.
Definition INCIDENT_NONE : Z := 0.
Definition INCIDENT_COUNT : Z := 2.
Definition FN_REFLEN : Z := 512.
Definition BIN_LOG_HEADER_SIZE : Z := 4.
Definition STMT_END_F : Z := 1.
Definition FL_GROUP_COMMIT_ID : Z := 2.
Definition element_size : Z := 4 + 4 + 8.
Inductive enum_logged_status := LOGGED_TABLE_MAP | LOGGED_ROW_EVENT | LOGGED_NO_DATA | LOGGED_CRITICAL.

(** [sql_ex_info]: the lengths of its strings, and the format once it was asked for. *)
Record sql_ex_info := mkSqlEx { cached_new_format : Z; field_term_len : Z; enclosed_len : Z; line_term_len : Z; line_start_len : Z; escaped_len : Z }.
Definition with_cached (s : sql_ex_info) (c : Z) : sql_ex_info := mkSqlEx c (field_term_len s) (enclosed_len s) (line_term_len s) (line_start_len s) (escaped_len s).
Definition force_new_format (s : sql_ex_info) : sql_ex_info := with_cached s 1.
Definition new_format (s : sql_ex_info) : bool * sql_ex_info :=
  if negb (cached_new_format s =? -1) then (c_true (cached_new_format s), s)
  else
    let long := (1 <? field_term_len s) || (1 <? enclosed_len s) || (1 <? line_term_len s) || (1 <? line_start_len s) || (1 <? escaped_len s) in
    (long, with_cached s (if long then 1 else 0)).
Definition data_size (s : sql_ex_info) : Z * sql_ex_info :=
  let '(n, s) := new_format s in ((if n then field_term_len s + enclosed_len s + line_term_len s + line_start_len s + escaped_len s + 6 else 7), s).

(** [Version], and that of a server. *)
Definition Version := bytes.
Definition version_0 : Version := [x00; x00; x00].
Definition new_version (v0 v1 v2 : byte) : Version := [v0; v1; v2].
Definition version_cmp (v w : Version) : comparison := memcmp 3 v 0 w 0.
Definition version_lt (v w : Version) : bool := match version_cmp v w with Lt => true | _ => false end.
Definition version_gt (v w : Version) : bool := match version_cmp v w with Gt => true | _ => false end.
Definition version_le (v w : Version) : bool := negb (version_gt v w).
Definition version_ge (v w : Version) : bool := negb (version_lt v w).
Definition version_is_valid (v : Version) : bool := negb ((uc v 0 =? 0) && (uc v 1 =? 0) && (uc v 2 =? 0)).

Record Load_log := mkLoad { table_name : bool; table_name_len : Z; db_len : Z; fname_len : Z; field_block_len : Z; num_fields : Z; sql_ex : sql_ex_info }.
Definition with_sql_ex (l : Load_log) (s : sql_ex_info) : Load_log := mkLoad (table_name l) (table_name_len l) (db_len l) (fname_len l) (field_block_len l) (num_fields l) s.
Inductive rows_op := Write_rows | Update_rows | Delete_rows.
(** An object, by its class; a pointer that is only compared with null is a bool. *)
Inductive Log_event :=
  | Query_log_event (query : option bytes) | Query_compressed_log_event (query : option bytes) | Execute_load_query_log_event (query : option bytes) (file_id : Z)
  | Load_log_event (l : Load_log) | Create_file_log_event (l : Load_log) (fake_base inited_from_old block : bool) (block_len : Z)
  | Append_block_log_event (block : bool) (block_len : Z) | Begin_load_query_log_event (block : bool) (block_len : Z)
  | Delete_file_log_event (file_id : Z) | Execute_load_log_event (file_id : Z)
  | Start_log_event_v3 (server_version_0 : Z) | Format_description_log_event (binlog_version common_header_len : Z) (post_header_len : bool) (server_version_split : Version)
  | Start_encryption_log_event (crypto_scheme key_version : Z) (nonce : bytes)
  | Intvar_log_event | Rand_log_event | Xid_log_event | XA_prepare_log_event (m_xid : XID) | User_var_log_event (name : bool)
  | Stop_log_event | Rotate_log_event (new_log_ident : bool) (ident_len : Z) | Binlog_checkpoint_log_event (binlog_file_name : bool) (binlog_file_len : Z)
  | Gtid_log_event (seq_no flags2 : Z) | Gtid_list_log_event (list : bool) (count : Z) | Unknown_log_event
  | Annotate_rows_log_event (type : Log_event_type) (valid : bool) (size : Z) | Table_map_log_event (m_memory : bool) (m_data_size : Z)
  | Rows_log_event (op : rows_op) (m_type : Log_event_type) (m_flags : Z) (m_rows_buf m_cols m_cols_ai : bool) (size : Z)
  | Incident_log_event (m_incident m_message_length : Z) | Ignorable_log_event | Heartbeat_log_event (log_ident : bool) (ident_len log_pos : Z).
Implicit Types e : Log_event.

(** The methods of loads keep the format they found in the object: the object is returned too. *)
Definition load_get_type_code (l : Load_log) : Log_event_type * Load_log :=
  let '(n, s) := new_format (sql_ex l) in ((if n then NEW_LOAD_EVENT else LOAD_EVENT), with_sql_ex l s).
Definition load_get_data_size (l : Load_log) : Z * Load_log :=
  let '(n, s) := data_size (sql_ex l) in (s32 (u32 (table_name_len l + db_len l + 2 + fname_len l + LOAD_HEADER_LEN + n + field_block_len l + num_fields l)), with_sql_ex l s).
Definition get_type_code e : Log_event_type * Log_event :=
  match e with
  | Query_log_event _ => (QUERY_EVENT, e) | Query_compressed_log_event _ => (QUERY_COMPRESSED_EVENT, e) | Execute_load_query_log_event _ _ => (EXECUTE_LOAD_QUERY_EVENT, e)
  | Load_log_event l => let '(t, l) := load_get_type_code l in (t, Load_log_event l)
  | Create_file_log_event l true old b n => let '(t, l) := load_get_type_code l in (t, Create_file_log_event l true old b n)
  | Create_file_log_event _ false _ _ _ => (CREATE_FILE_EVENT, e)
  | Append_block_log_event _ _ => (APPEND_BLOCK_EVENT, e) | Begin_load_query_log_event _ _ => (BEGIN_LOAD_QUERY_EVENT, e)
  | Delete_file_log_event _ => (DELETE_FILE_EVENT, e) | Execute_load_log_event _ => (EXEC_LOAD_EVENT, e)
  | Start_log_event_v3 _ => (START_EVENT_V3, e) | Format_description_log_event _ _ _ _ => (FORMAT_DESCRIPTION_EVENT, e)
  | Start_encryption_log_event _ _ _ => (START_ENCRYPTION_EVENT, e)
  | Intvar_log_event => (INTVAR_EVENT, e) | Rand_log_event => (RAND_EVENT, e) | Xid_log_event => (XID_EVENT, e) | XA_prepare_log_event _ => (XA_PREPARE_LOG_EVENT, e)
  | User_var_log_event _ => (USER_VAR_EVENT, e) | Stop_log_event => (STOP_EVENT, e) | Rotate_log_event _ _ => (ROTATE_EVENT, e)
  | Binlog_checkpoint_log_event _ _ => (BINLOG_CHECKPOINT_EVENT, e) | Gtid_log_event _ _ => (GTID_EVENT, e) | Gtid_list_log_event _ _ => (GTID_LIST_EVENT, e)
  | Unknown_log_event => (UNKNOWN_EVENT, e) | Annotate_rows_log_event t _ _ => (t, e) | Table_map_log_event _ _ => (TABLE_MAP_EVENT, e)
  | Rows_log_event _ t _ _ _ _ _ => (t, e) | Incident_log_event _ _ => (INCIDENT_EVENT, e) | Ignorable_log_event => (IGNORABLE_LOG_EVENT, e)
  | Heartbeat_log_event _ _ _ => (HEARTBEAT_LOG_EVENT, e)
  end.
Definition get_general_type_code (op : rows_op) : Log_event_type := match op with Write_rows => WRITE_ROWS_EVENT | Update_rows => UPDATE_ROWS_EVENT | Delete_rows => DELETE_ROWS_EVENT end.
Definition logged_status e : enum_logged_status :=
  match e with
  | Gtid_log_event _ _ | Annotate_rows_log_event _ _ _ => LOGGED_NO_DATA
  | Table_map_log_event _ _ => LOGGED_TABLE_MAP | Rows_log_event _ _ _ _ _ _ _ => LOGGED_ROW_EVENT
  | _ => LOGGED_CRITICAL
  end.
(** The virtual [is_part_of_group]. *)
Definition rows_get_flags (m_flags flags_arg : Z) : Z := Z.land m_flags flags_arg.
Definition is_part_of_group e : bool :=
  match e with
  | Intvar_log_event | Rand_log_event | User_var_log_event _ | Annotate_rows_log_event _ _ _ | Table_map_log_event _ _ => true
  | Rows_log_event _ _ m_flags _ _ _ _ => negb (rows_get_flags m_flags STMT_END_F =? 0)
  | _ => false
  end.
Definition header_is_valid (binlog_version common_header_len : Z) (post_header_len : bool) : bool :=
  ((if binlog_version =? 1 then OLD_HEADER_LEN else LOG_EVENT_MINIMAL_HEADER_LEN) <=? common_header_len) && post_header_len.
Definition query_is_valid (query : option bytes) : bool := match query with Some _ => true | None => false end.
Definition is_valid e : bool :=
  match e with
  | Query_log_event q | Query_compressed_log_event q => query_is_valid q
  | Execute_load_query_log_event q id => query_is_valid q && c_true id
  | Load_log_event l => table_name l | Create_file_log_event _ _ old b _ => old || b
  | Append_block_log_event b _ | Begin_load_query_log_event b _ => b
  | Delete_file_log_event id | Execute_load_log_event id => c_true id
  | Start_log_event_v3 v => c_true v | Format_description_log_event b c p v => header_is_valid b c p && version_is_valid v
  | Start_encryption_log_event scheme _ _ => scheme =? 1
  | XA_prepare_log_event x => xa_is_valid x | User_var_log_event name => name | Rotate_log_event ident _ => ident
  | Binlog_checkpoint_log_event name _ => name | Gtid_log_event seq_no _ => c_true seq_no | Gtid_list_log_event list _ => list
  | Annotate_rows_log_event _ valid _ => valid | Table_map_log_event m _ => m
  | Rows_log_event op _ _ buf cols ai _ => buf && cols && match op with Update_rows => ai | _ => true end
  | Incident_log_event i _ => (INCIDENT_NONE <? i) && (i <? INCIDENT_COUNT)
  | Heartbeat_log_event ident n pos => ident && (n <=? FN_REFLEN - 1) && (BIN_LOG_HEADER_SIZE <=? pos)
  | Intvar_log_event | Rand_log_event | Xid_log_event | Stop_log_event | Unknown_log_event | Ignorable_log_event => true
  end.
Definition get_data_size e : Z * Log_event :=
  match e with
  | Load_log_event l => let '(n, l) := load_get_data_size l in (n, Load_log_event l)
  | Create_file_log_event l fake old b len =>
      let '(n, l) := load_get_data_size l in ((if fake then n else s32 (u32 (n + 4 + 1 + len))), Create_file_log_event l fake old b len)
  | Append_block_log_event _ len | Begin_load_query_log_event _ len => (s32 (u32 (len + APPEND_BLOCK_HEADER_LEN)), e)
  | Delete_file_log_event _ => (DELETE_FILE_HEADER_LEN, e) | Execute_load_log_event _ => (EXEC_LOAD_HEADER_LEN, e)
  | Start_log_event_v3 _ => (START_V3_HEADER_LEN, e) | Format_description_log_event _ _ _ _ => (FORMAT_DESCRIPTION_HEADER_LEN, e)
  | Start_encryption_log_event _ _ _ => (BINLOG_CRYPTO_SCHEME_LENGTH + BINLOG_KEY_VERSION_LENGTH + BINLOG_NONCE_LENGTH, e)
  | Intvar_log_event => (9, e) | Rand_log_event => (16, e) | Xid_log_event => (8, e) | XA_prepare_log_event x => (xa_get_data_size x, e)
  | Rotate_log_event _ len => (s32 (u32 (len + ROTATE_HEADER_LEN)), e) | Binlog_checkpoint_log_event _ len => (s32 (u32 (len + BINLOG_CHECKPOINT_HEADER_LEN)), e)
  | Gtid_log_event _ flags2 => (GTID_HEADER_LEN + (if c_true (Z.land flags2 FL_GROUP_COMMIT_ID) then 2 else 0), e)
  | Gtid_list_log_event _ count => ((if count =? 0 then GTID_LIST_HEADER_LEN + 2 else s32 (u32 (GTID_LIST_HEADER_LEN + count * element_size))), e)
  | Annotate_rows_log_event _ _ size | Rows_log_event _ _ _ _ _ _ size => (size, e) | Table_map_log_event _ size => (s32 (u32 size), e)
  | Incident_log_event _ len => (s32 (u32 (INCIDENT_HEADER_LEN + 1 + u32 len)), e) | Ignorable_log_event => (IGNORABLE_HEADER_LEN, e)
  | _ => (0, e)
  end.
Definition get_header_len e (l : Z) : Z := match e with Start_log_event_v3 _ | Format_description_log_event _ _ _ _ | Rotate_log_event _ _ => LOG_EVENT_MINIMAL_HEADER_LEN | _ => l end.

(** * Writing *)

(** What the writer is asked to do; whether it fails depends on what it was asked before. *)
Inductive written := Header (event_data_length : Z) | Data (buf : bytes) | Footer.
Section Write.
Context (fails : list written -> bool).
Definition ask (w : written) (tr : list written) : bool * list written := (fails (tr ++ [w]), tr ++ [w]).
(** [a || b] of calls. *)
Definition or_else (a b : list written -> bool * list written) (tr : list written) : bool * list written :=
  let '(failed, tr) := a tr in if failed then (true, tr) else b tr.
Definition no_call (tr : list written) : bool * list written := (false, tr).
Definition key_version_buf (key_version : Z) : bytes := X86_64.int4store (replicate 4 x00) 0 key_version.
Definition write_data_body e : list written -> bool * list written :=
  match e with
  | Start_encryption_log_event crypto_scheme key_version nonce =>
      or_else (ask (Data [Zbyte crypto_scheme])) (or_else (ask (Data (key_version_buf key_version))) (ask (Data (take (Z.to_nat BINLOG_NONCE_LENGTH) nonce))))
  | _ => no_call
  end.
Definition write_data_header e : list written -> bool * list written := no_call.
(** [Log_event::write], for a class that has no other; the object is that after its size was asked for. *)
Definition write_event e (tr : list written) : bool * list written :=
  let '(n, e) := get_data_size e in or_else (ask (Header n)) (or_else (write_data_header e) (or_else (write_data_body e) (ask Footer))) tr.
End Write.

(** ** Encryption of a log *)

Record Binlog_crypt_data := mkCrypt { scheme : Z; key_version : Z; key_length : Z; ctx_size : Z; key : bytes; nonce : bytes }.
(** [init], over the services that know the size of a context and the keys. *)
Definition crypt_init (encryption_ctx_size : Z -> Z) (encryption_key_get : Z -> Z -> Z * Z * bytes) (c : Binlog_crypt_data) (sch kv : Z) : Z * Binlog_crypt_data :=
  let '(res, len, k) := encryption_key_get kv 32 in (res, mkCrypt sch kv len (encryption_ctx_size kv) k (nonce c)).
Definition set_iv (c : Binlog_crypt_data) (iv : bytes) (offs : Z) : bytes :=
  X86_64.int4store (memcpy_at iv 0 (Z.to_nat BINLOG_NONCE_LENGTH) (nonce c)) (Z.to_nat BINLOG_NONCE_LENGTH) offs.
Definition reset_crypto (c : Binlog_crypt_data) : Binlog_crypt_data := mkCrypt 0 (key_version c) (key_length c) (ctx_size c) (key c) (nonce c).

(** * The time of an event *)

Record event_time := mkTime { when : Z; when_sec_part : Z }.
(** [thd] and [current_thd] are the times of the session of the event and of that which runs. *)
Definition get_time (t : event_time) (thd current_thd : option event_time) (hrtime : Z) : Z * event_time :=
  if c_true (when t) then (when t, t)
  else
    let t := match thd with
             | Some s => s
             | None => match current_thd with Some s => s | None => mkTime (hrtime_to_my_time hrtime) (hrtime_sec_part hrtime) end
             end in
    (when t, t).

(** * The buffer of an event *)

(** The buffer and whether it is the event's own, with the buffers freed. *)
Record temp_state := mkTemp { temp_buf : option positive; event_owns_temp_buf : bool; freed : list positive }.
Definition register_temp_buf (buf : option positive) (must_free : bool) (s : temp_state) : temp_state := mkTemp buf must_free (freed s).
Definition free_temp_buf (s : temp_state) : temp_state :=
  match temp_buf s with
  | Some b => mkTemp None (event_owns_temp_buf s) (if event_owns_temp_buf s then freed s ++ [b] else freed s)
  | None => s
  end.
Inductive temp_op := Register (buf : positive) (must_free : bool) | FreeTemp.
Definition temp_step (s : temp_state) (o : temp_op) : temp_state := match o with Register b m => register_temp_buf (Some b) m s | FreeTemp => free_temp_buf s end.
(** An event from its constructor to the end of its destructor. *)
Definition temp_life (ops : list temp_op) : temp_state := free_temp_buf (foldl temp_step (mkTemp None false []) ops).

(** * Flags and comparisons *)

Definition LOG_EVENT_ARTIFICIAL_F : Z := 0x20.
Definition LOG_EVENT_RELAY_LOG_F : Z := 0x40.
Definition LOG_EVENT_SKIP_REPLICATION_F : Z := 0x8000.
Definition set_artificial_event (flags : Z) : Z := Z.lor flags LOG_EVENT_ARTIFICIAL_F.
Definition set_relay_log_event (flags : Z) : Z := Z.lor flags LOG_EVENT_RELAY_LOG_F.
Definition is_artificial_event (flags : Z) : bool := c_true (Z.land flags LOG_EVENT_ARTIFICIAL_F).
Definition is_relay_log_event (flags : Z) : bool := c_true (Z.land flags LOG_EVENT_RELAY_LOG_F).
Inductive enum_event_cache_type := EVENT_INVALID_CACHE | EVENT_STMT_CACHE | EVENT_TRANSACTIONAL_CACHE | EVENT_NO_CACHE.
Definition set_direct_logging (cache_type : enum_event_cache_type) : enum_event_cache_type := EVENT_NO_CACHE.
Definition use_direct_logging (cache_type : enum_event_cache_type) : bool := match cache_type with EVENT_NO_CACHE => true | _ => false end.
Definition use_trans_cache (cache_type : enum_event_cache_type) : bool := match cache_type with EVENT_TRANSACTIONAL_CACHE => true | _ => false end.
(** An incident with a message, over what [my_malloc] answers: the incident, its message, the flags and the cache. *)
Definition Incident_with_message (malloc_ok : bool) (incident : Z) (msg : bytes) (flags : Z) (cache_type : enum_event_cache_type) : Z * bytes * Z * enum_event_cache_type :=
  if malloc_ok then (incident, msg, u16 (Z.land flags (Z.lnot LOG_EVENT_SKIP_REPLICATION_F)), set_direct_logging cache_type)
  else (INCIDENT_NONE, [], flags, cache_type).
Definition rows_set_flags (m_flags flags_arg : Z) : Z := u16 (Z.lor m_flags flags_arg).
Definition rows_clear_flags (m_flags flags_arg : Z) : Z := u16 (Z.land m_flags (Z.lnot flags_arg)).
(** [update_flags]: the flags in the buffer of the event. *)
Definition update_flags (temp_buf : bytes) (m_flags_pos : nat) (m_flags : Z) : bytes := X86_64.int2store temp_buf m_flags_pos m_flags.
(** [bitmap_cmp] is in another source file. *)
Definition read_write_bitmaps_cmp {B} (bitmap_cmp : B -> B -> bool) (op : rows_op) (cols cols_ai read_set rpl_write_set : B) : bool :=
  match op with
  | Delete_rows => bitmap_cmp cols read_set
  | Update_rows => bitmap_cmp cols read_set && bitmap_cmp cols_ai rpl_write_set
  | Write_rows => bitmap_cmp cols rpl_write_set
  end.
Inductive enum_slave_run_triggers_for_rbr := SLAVE_RUN_TRIGGERS_FOR_RBR_NO | SLAVE_RUN_TRIGGERS_FOR_RBR_YES | SLAVE_RUN_TRIGGERS_FOR_RBR_LOGGING | SLAVE_RUN_TRIGGERS_FOR_RBR_ENFORCE.
Definition do_invoke_trigger (run : enum_slave_run_triggers_for_rbr) (master_had_triggers : bool) : bool :=
  (match run with SLAVE_RUN_TRIGGERS_FOR_RBR_NO => false | _ => true end && negb master_had_triggers) || match run with SLAVE_RUN_TRIGGERS_FOR_RBR_ENFORCE => true | _ => false end.
Definition is_auto_inc_in_extra_columns (next_number_field : option Z) (m_width : Z) : bool := match next_number_field with Some i => m_width <=? i | None => false end.
Inductive enum_skip_reason := EVENT_SKIP_NOT | EVENT_SKIP_IGNORE | EVENT_SKIP_COUNT.
(** [Start_log_event_v3] and [Stop_log_event]: events of the server itself. *)
Definition do_shall_skip (event_server_id server_id : Z) : enum_skip_reason := if event_server_id =? server_id then EVENT_SKIP_IGNORE else EVENT_SKIP_NOT.

(** * Keywords of transactions *)

(** [strncmp] and [strncasecmp] of the C library, equality; the strings end at the end of the lists. *)
Fixpoint str_eq_n (n : nat) (f : byte -> byte) (a b : bytes) : bool :=
  match n with
  | O => true
  | S n => match a, b with [], [] => true | x :: a, y :: b => bool_decide (f x = f y) && str_eq_n n f a b | _, _ => false end
  end.
Definition strncmp_eq (a b : bytes) (n : nat) : bool := str_eq_n n id a b.
Definition to_lower (b : byte) : byte := if (65 <=? byteZ b) && (byteZ b <=? 90) then Zbyte (byteZ b + 32) else b.
Definition strncasecmp_eq (a b : bytes) (n : nat) : bool := str_eq_n n to_lower a b.
Definition s_BEGIN : bytes := [x42; x45; x47; x49; x4e].
Definition s_COMMIT : bytes := [x43; x4f; x4d; x4d; x49; x54].
Definition s_SAVEPOINT : bytes := [x53; x41; x56; x45; x50; x4f; x49; x4e; x54].
Definition s_ROLLBACK : bytes := [x52; x4f; x4c; x4c; x42; x41; x43; x4b].
Definition is_trans_keyword (query : bytes) (q_len : nat) : bool :=
  strncmp_eq query s_BEGIN q_len || strncmp_eq query s_COMMIT q_len || strncasecmp_eq query s_SAVEPOINT 9 || strncasecmp_eq query s_ROLLBACK 8.
(** [is_begin], [is_commit], [is_rollback]: a compressed query is none. *)
Definition query_is (word : bytes) (compressed : bool) (query : bytes) : bool := negb compressed && bool_decide (query = word).
Definition is_begin : bool -> bytes -> bool := query_is s_BEGIN.
Definition is_commit : bool -> bytes -> bool := query_is s_COMMIT.
Definition is_rollback : bool -> bytes -> bool := query_is s_ROLLBACK.

(** * Types *)

Lemma of_code_type t : of_code (type_code t) = Some t.
Proof. by destruct t. Qed.
Definition same_rows (t u : Log_event_type) : Prop :=
  LOG_EVENT_IS_WRITE_ROW t = LOG_EVENT_IS_WRITE_ROW u /\ LOG_EVENT_IS_UPDATE_ROW t = LOG_EVENT_IS_UPDATE_ROW u /\ LOG_EVENT_IS_DELETE_ROW t = LOG_EVENT_IS_DELETE_ROW u /\
  LOG_EVENT_IS_ROW_V2 t = LOG_EVENT_IS_ROW_V2 u.
(** The number that the comment of the enumeration gives to the rows event that a compressed one holds. *)
Definition uncompressed_code (t : Log_event_type) : Z :=
  if LOG_EVENT_IS_ROW_V2 t then type_code t - type_code WRITE_ROWS_COMPRESSED_EVENT + type_code WRITE_ROWS_EVENT
  else type_code t - type_code WRITE_ROWS_COMPRESSED_EVENT_V1 + type_code WRITE_ROWS_EVENT_V1.

(** The numbers of the events of rows are what the code that computes with them relies on: writes, updates and deletes are apart, a compressed event of rows is of one of these,
    and the arithmetic on its number gives the number of an event of the same operation and version that is not compressed; no event of rows is a query or part of a group by its
    type, and what is part of a group belongs to groups. *)
Theorem rows_types t :
  (LOG_EVENT_IS_WRITE_ROW t && LOG_EVENT_IS_UPDATE_ROW t || LOG_EVENT_IS_UPDATE_ROW t && LOG_EVENT_IS_DELETE_ROW t || LOG_EVENT_IS_WRITE_ROW t && LOG_EVENT_IS_DELETE_ROW t) = false /\
  (LOG_EVENT_IS_ROW_COMPRESSED t = true -> exists u, of_code (uncompressed_code t) = Some u /\ same_rows t u /\ LOG_EVENT_IS_ROW_COMPRESSED u = false /\
     LOG_EVENT_IS_WRITE_ROW u || LOG_EVENT_IS_UPDATE_ROW u || LOG_EVENT_IS_DELETE_ROW u = true) /\
  (LOG_EVENT_IS_WRITE_ROW t || LOG_EVENT_IS_UPDATE_ROW t || LOG_EVENT_IS_DELETE_ROW t = true -> LOG_EVENT_IS_QUERY t = false /\ type_is_part_of_group t = false) /\
  (type_is_part_of_group t = true -> is_group_event t = true).
Proof.
  split; [by destruct t|]. split; [|by destruct t].
  intros H. destruct (of_code (uncompressed_code t)) as [u|] eqn:E; [exists u; split; [done|]|]; destruct t; vm_compute in H; try discriminate H; vm_compute in E; try discriminate E; injection E as <-; done.
Qed.
Lemma rows_types_witness : of_code (uncompressed_code UPDATE_ROWS_COMPRESSED_EVENT_V1) = Some UPDATE_ROWS_EVENT_V1.
Proof. destruct (rows_types UPDATE_ROWS_COMPRESSED_EVENT_V1) as (_ & H & _). destruct (H eq_refl) as (u & E & _). rewrite E. rewrite <- E. reflexivity. Defined.

(** * Objects *)

(** What an object says of groups and what its type says agree, for each class but two.  The object of a transaction's identifier says that it is not part of a group though its type is; an event of
    rows says that it is exactly when it ends its statement, where the comment says that all but the last are. *)
Theorem objects_and_types e :
  (forall ty v n, e = Annotate_rows_log_event ty v n -> ty = ANNOTATE_ROWS_EVENT) ->
  match e with
  | Gtid_log_event _ _ => is_part_of_group e = false /\ type_is_part_of_group (fst (get_type_code e)) = true
  | Rows_log_event _ _ m_flags _ _ _ _ => is_part_of_group e = Z.testbit m_flags 0
  | _ => is_part_of_group e = type_is_part_of_group (fst (get_type_code e))
  end.
Proof.
  intros H. destruct e; try done.
  - cbn. unfold load_get_type_code. destruct (new_format (sql_ex l)) as [[] ?]; done.
  - cbn. destruct fake_base; [|done]. unfold load_get_type_code. destruct (new_format (sql_ex l)) as [[] ?]; done.
  - by rewrite (H _ _ _ eq_refl).
  - cbn [is_part_of_group]. unfold rows_get_flags, STMT_END_F. change 1 with (Z.ones 1). rewrite Z.land_ones by lia. change (2 ^ 1) with 2. rewrite <- Z.bit0_mod.
    by destruct (Z.testbit m_flags 0).
Qed.
Lemma objects_and_types_witness : is_part_of_group (Rows_log_event Update_rows UPDATE_ROWS_EVENT 1 true true true 40) = true.
Proof. by rewrite (objects_and_types (Rows_log_event Update_rows UPDATE_ROWS_EVENT 1 true true true 40)). Defined.

(** Whatever is asked of a load first, its type and its size speak of the same format: the first question fixes it, the next ones do not change the object, and the size counts the
    strings exactly when the type is that of the new format. *)
Theorem load_format_kept l : forall t l1 n l2, load_get_type_code l = (t, l1) -> load_get_data_size l = (n, l2) ->
  l1 = l2 /\ load_get_type_code l1 = (t, l1) /\ load_get_data_size l1 = (n, l1) /\
  n = s32 (u32 (table_name_len l + db_len l + 2 + fname_len l + LOAD_HEADER_LEN + (match t with NEW_LOAD_EVENT => field_term_len (sql_ex l) + enclosed_len (sql_ex l) + line_term_len (sql_ex l) +
    line_start_len (sql_ex l) + escaped_len (sql_ex l) + 6 | _ => 7 end) + field_block_len l + num_fields l)) /\
  (cached_new_format (sql_ex l) = -1 -> t = LOAD_EVENT -> field_term_len (sql_ex l) <= 1 /\ enclosed_len (sql_ex l) <= 1 /\ line_term_len (sql_ex l) <= 1 /\ line_start_len (sql_ex l) <= 1 /\
    escaped_len (sql_ex l) <= 1).
Proof.
  intros t l1 n l2. destruct l as [a b c d f g [h i j k m o]]. unfold load_get_type_code, load_get_data_size, data_size, new_format. cbn [sql_ex cached_new_format field_term_len enclosed_len line_term_len line_start_len escaped_len table_name_len db_len fname_len field_block_len num_fields].
  destruct (Z.eqb_spec h (-1)) as [->|N]; cbn [negb].
  - destruct (_ || _) eqn:L; intros E1 E2; injection E1 as <- <-; injection E2 as <- <-; cbn; split_and!; try done. intros _ _. rewrite !orb_false_iff, !Z.ltb_ge in L. tauto.
  - rewrite <- Z.eqb_neq in N. destruct (c_true h) eqn:C; intros E1 E2; injection E1 as <- <-; injection E2 as <- <-; cbn; rewrite N; cbn; rewrite C; split_and!; try done; intros ->; done.
Qed.
Lemma load_format_kept_witness : exists t l, load_get_type_code (mkLoad true 3 2 8 5 1 (mkSqlEx (-1) 2 1 1 0 1)) = (t, l) /\ load_get_type_code l = (t, l).
Proof.
  destruct (load_get_type_code (mkLoad true 3 2 8 5 1 (mkSqlEx (-1) 2 1 1 0 1))) as [t l] eqn:E. destruct (load_get_data_size (mkLoad true 3 2 8 5 1 (mkSqlEx (-1) 2 1 1 0 1))) as [n l2] eqn:F.
  exists t, l. split; [done|]. by destruct (load_format_kept _ _ _ _ _ E F) as (_ & H & _).
Defined.

(** * Writing *)

Section WriteProofs.
Context (fails : list written -> bool).
Definition data_of (w : written) : bytes := match w with Data b => b | _ => [] end.
(** Calls one after the other until one fails. *)
Fixpoint ask_all (ws tr : list written) : bool * list written :=
  match ws with [] => (false, tr) | w :: ws => let '(failed, tr) := ask fails w tr in if failed then (true, tr) else ask_all ws tr end.
Lemma ask_one w tr : ask fails w tr = ask_all [w] tr.
Proof. unfold ask_all, ask. by destruct (fails _). Qed.
Lemma or_else_all a b l l' tr : (forall t, a t = ask_all l t) -> (forall t, b t = ask_all l' t) -> or_else a b tr = ask_all (l ++ l') tr.
Proof.
  intros Ha Hb. unfold or_else. rewrite Ha. clear Ha. revert tr. induction l as [|w l IH]; intros tr; [apply Hb|]. cbn [app ask_all].
  destruct (ask fails w tr) as [[] tr']; [done|]. apply IH.
Qed.
Lemma ask_all_spec ws tr failed tr' : ask_all ws tr = (failed, tr') -> ws <> [] ->
  exists k, tr' = tr ++ take (S k) ws /\ (k < length ws)%nat /\ (forall j, (j < k)%nat -> fails (tr ++ take (S j) ws) = false) /\ fails tr' = failed /\ (failed = false -> S k = length ws).
Proof.
  revert tr. induction ws as [|w ws IH]; intros tr H N; [done|]. cbn [ask_all ask] in H. unfold ask in H. destruct (fails (tr ++ [w])) eqn:F.
  - injection H as <- <-. exists 0%nat. cbn. split_and!; (done || lia).
  - destruct ws as [|w' ws]; [injection H as <- <-; exists 0%nat; cbn; split_and!; (done || lia)|].
    destruct (IH _ H ltac:(done)) as (k & -> & Hk & Hj & Hf & Hl). exists (S k). rewrite <- app_assoc in *. split; [done|]. split; [cbn [length] in *; lia|]. split; [|split; [done|intros F0; specialize (Hl F0); cbn [length] in *; lia]].
    intros [|j] Lj; [done|]. specialize (Hj j ltac:(lia)). by rewrite <- app_assoc in Hj.
Qed.

(** An event that begins encryption is written whole or up to the call that failed: the calls are the header, the scheme, the version of the key, the nonce and the footer, in this order, and none
    is made after one that fails; the header promises exactly the bytes of the data, from which the version is read back. *)
Theorem encryption_event_written crypto_scheme key_version nonce tr failed tr' : crypto_scheme = 1 -> Z.of_nat (length nonce) = BINLOG_NONCE_LENGTH -> ufits 32 key_version ->
  write_event fails (Start_encryption_log_event crypto_scheme key_version nonce) tr = (failed, tr') ->
  exists n kv, let calls := [Header n; Data [x01]; Data kv; Data nonce; Footer] in
    n = Z.of_nat (length (concat (map data_of calls))) /\ X86_64.uint4korr kv 0 = key_version /\
    (exists k, tr' = tr ++ take (S k) calls /\ (k < 5)%nat /\ (forall j, (j < k)%nat -> fails (tr ++ take (S j) calls) = false) /\ fails tr' = failed /\ (failed = false -> k = 4%nat)).
Proof.
  intros -> Ln Hk H. change BINLOG_NONCE_LENGTH with 12 in Ln. exists 17, (key_version_buf key_version). cbn [write_event get_data_size write_data_header write_data_body] in H.
  assert (L4 : length (key_version_buf key_version) = 4%nat) by (unfold key_version_buf; by rewrite x_int4store, length_store_word).
  split; [cbn [map concat data_of]; rewrite !length_app, L4; cbn [length app]; lia|]. split.
  { unfold key_version_buf. rewrite x_int4store. unfold X86_64.uint4korr. rewrite load_store_word by done. by apply uwrap_small. }
  rewrite take_ge in H by (change (Z.to_nat BINLOG_NONCE_LENGTH) with 12%nat; lia). change (Zbyte 1) with x01 in H.
  change (BINLOG_CRYPTO_SCHEME_LENGTH + BINLOG_KEY_VERSION_LENGTH + BINLOG_NONCE_LENGTH) with 17 in H.
  erewrite (or_else_all _ _ [Header 17] ([] ++ ([Data [x01]; Data (key_version_buf key_version); Data nonce] ++ [Footer]))) in H; [apply ask_all_spec in H as (k & E & L & A & B & C); [|done]| |].
  - exists k. split_and!; [done|done|done|done|]. intros F. specialize (C F). cbn [length app] in C. lia.
  - intros. apply ask_one.
  - intros t. apply or_else_all; [done|]. intros t1. apply or_else_all; [|apply ask_one]. intros t2. apply (or_else_all _ _ [_] [_; _]); [apply ask_one|]. intros t3. apply (or_else_all _ _ [_] [_]); apply ask_one.
Qed.
End WriteProofs.
Lemma encryption_event_written_witness : write_event (fun tr => bool_decide (3 <= length tr)%nat) (Start_encryption_log_event 1 7 (replicate 12 x61)) [] =
  (true, [Header 17; Data [x01]; Data [x07; x00; x00; x00]]).
Proof.
  destruct (write_event (fun tr => bool_decide (3 <= length tr)%nat) (Start_encryption_log_event 1 7 (replicate 12 x61)) []) as [f tr] eqn:E.
  destruct (encryption_event_written (fun tr => bool_decide (3 <= length tr)%nat) 1 7 (replicate 12 x61) [] f tr) as (n & kv & _); [done|done|by vm_compute|done|].
  rewrite <- E. by vm_compute.
Defined.

(** C26.  No two blocks of a log are encrypted with the same initial vector: whatever the vectors held before, those of two offsets of 32 bits under one nonce are equal only if the offsets are, and
    the nonce is at the start of each. *)
Theorem ivs_differ c iv iv' offs offs' : length iv = 16%nat -> length iv' = 16%nat -> length (nonce c) = 12%nat -> ufits 32 offs -> ufits 32 offs' ->
  length (set_iv c iv offs) = 16%nat /\ take 12 (set_iv c iv offs) = nonce c /\ (set_iv c iv offs = set_iv c iv' offs' <-> offs = offs').
Proof.
  intros L L' Ln H H'. unfold set_iv. change (Z.to_nat BINLOG_NONCE_LENGTH) with 12%nat. rewrite !x_int4store.
  assert (M : forall i, length i = 16%nat -> exists t, memcpy_at i 0 12 (nonce c) = nonce c ++ t /\ length t = 4%nat).
  { intros i Li. exists (drop 12 i). unfold memcpy_at. rewrite take_0, take_ge by lia. split; [done|]. rewrite length_drop. lia. }
  assert (F : forall b o, length b = 4%nat -> store_word 4 b 0 o = Zbyte <$> le_list 4 o) by (intros [|? [|? [|? [|? [|]]]]] o Lb; done).
  assert (W : forall a t o, length a = 12%nat -> length t = 4%nat -> store_word 4 (a ++ t) 12 o = a ++ (Zbyte <$> le_list 4 o)).
  { intros a t o La Lt. rewrite <- (F t o Lt). do 12 (destruct a as [|? a]; [done|]). by destruct a. }
  destruct (M iv L) as (t & -> & Lt), (M iv' L') as (t' & -> & Lt'). rewrite !W by done. split; [rewrite length_app, length_fmap, length_le_list; lia|].
  split; [by rewrite take_app_le, take_ge by lia|].
  split; [|by intros ->]. intros E. apply app_inv_head in E. apply (f_equal (fun l => load_word 4 l 0)) in E. rewrite <- (F (replicate 4 x00)), <- (F (replicate 4 x00) offs') in E by done.
  rewrite !load_store_word in E by done. change (8 * Z.of_nat 4) with 32 in E. by rewrite !uwrap_small in E.
Qed.
Lemma ivs_differ_witness : set_iv (mkCrypt 1 1 32 16 [] (replicate 12 x61)) (replicate 16 x00) 4 <> set_iv (mkCrypt 1 1 32 16 [] (replicate 12 x61)) (replicate 16 xff) 5.
Proof.
  intros E. destruct (ivs_differ (mkCrypt 1 1 32 16 [] (replicate 12 x61)) (replicate 16 x00) (replicate 16 xff) 4 5) as (_ & _ & [H _]); [done..|by vm_compute|by vm_compute|]. by specialize (H E).
Defined.

(** * Time *)

(** The time of an event does not change: once it is asked for and is not zero, any session and clock give the same one and leave the event as it is; it is the event's own, or else that of its
    session, of the session that runs, of the clock, in this order, and with the clock, the part of a second is one, and the two make the time of the clock. *)
Theorem event_time_kept t thd cur hr r t' : get_time t thd cur hr = (r, t') ->
  r = when t' /\
  (r <> 0 -> forall thd2 cur2 hr2, get_time t' thd2 cur2 hr2 = (r, t')) /\
  (when t <> 0 -> t' = t) /\ (when t = 0 -> forall s, thd = Some s -> t' = s) /\ (when t = 0 -> thd = None -> forall s, cur = Some s -> t' = s) /\
  (when t = 0 -> thd = None -> cur = None -> 0 <= hr < 2 ^ 64 -> 0 <= when_sec_part t' < HRTIME_RESOLUTION /\ when t' * HRTIME_RESOLUTION + when_sec_part t' = hr).
Proof.
  intros H. unfold get_time in H. assert (R : r = when t') by (destruct (c_true (when t)); by injection H as <- <-). split; [done|]. split.
  { intros N thd2 cur2 hr2. unfold get_time. unfold c_true. rewrite (proj2 (Z.eqb_neq (when t') 0)) by congruence. cbn. congruence. }
  unfold c_true in H. destruct (Z.eqb_spec (when t) 0) as [Z0|Z0]; cbn [negb] in H; injection H as _ H.
  - split; [done|]. split; [by intros _ s ->|]. split; [by intros _ -> s ->|]. intros _ -> -> Hh. subst t'. cbn [when when_sec_part]. unfold hrtime_to_my_time, hrtime_sec_part, HRTIME_RESOLUTION.
    pose proof (Z.mod_pos_bound hr 1000000 ltac:(lia)). split; [done|]. rewrite swrap_small; [pose proof (Z.div_mod hr 1000000 ltac:(lia)); lia|lia|].
    unfold sfits. change (2 ^ 64) with 18446744073709551616 in Hh. change (2 ^ (64 - 1)) with 9223372036854775808. pose proof (Z.div_pos hr 1000000 ltac:(lia) ltac:(lia)).
    assert (hr / 1000000 < 18446744073709551616 / 1000000 + 1) by (pose proof (Z.div_le_mono hr 18446744073709551616 1000000 ltac:(lia) ltac:(lia)); lia). change (18446744073709551616 / 1000000) with 18446744073709 in *. lia.
  - split; [done|]. split; [done|]. split; done.
Qed.
Lemma event_time_kept_witness : when_sec_part (snd (get_time (mkTime 0 0) None None 1700000000123456)) = 123456.
Proof.
  destruct (get_time (mkTime 0 0) None None 1700000000123456) as [r t'] eqn:E. destruct (event_time_kept _ _ _ _ _ _ E) as (_ & _ & _ & _ & _ & H).
  destruct (H eq_refl eq_refl eq_refl) as [_ _]; [by vm_compute|]. vm_compute in E. by injection E as <- <-.
Defined.

(** * Buffers *)

Definition owned (ops : list temp_op) : list positive := omap (fun o => match o with Register b true => Some b | _ => None end) ops.
Definition pending (s : temp_state) : list positive := match temp_buf s with Some b => if event_owns_temp_buf s then [b] else [] | None => [] end.
Lemma temp_steps ops s : sublist (freed (free_temp_buf (foldl temp_step s ops))) (freed s ++ pending s ++ owned ops) /\ (exists l, freed (free_temp_buf (foldl temp_step s ops)) = freed s ++ l).
Proof.
  revert s. induction ops as [|[b m|] ops IH]; intros s; cbn [foldl temp_step].
  - unfold free_temp_buf, pending. destruct s as [[b|] [] fr]; cbn; rewrite ?app_nil_r; split; try done; [by exists [b]|by exists []; rewrite app_nil_r..].
  - destruct (IH (register_temp_buf (Some b) m s)) as [A [l B]]. split; [|by exists l]. etransitivity; [exact A|]. cbn [freed register_temp_buf pending temp_buf event_owns_temp_buf]. apply sublist_app; [done|].
    unfold owned. cbn [omap list_omap]. destruct m; cbn [app]; [by apply (sublist_app [] (pending s)); [apply sublist_nil_l|]|by apply (sublist_app [] (pending s)); [apply sublist_nil_l|]].
  - destruct (IH (free_temp_buf s)) as [A [l B]]. unfold owned. cbn [omap list_omap]. fold (owned ops).
    assert (E : freed (free_temp_buf s) = freed s ++ pending s /\ pending (free_temp_buf s) = []) by (unfold free_temp_buf, pending; destruct s as [[b|] [] fr]; cbn; by rewrite ?app_nil_r).
    destruct E as [E1 E2]. rewrite E1, E2 in A. cbn [app] in A. rewrite <- app_assoc in A. split; [done|]. exists (pending s ++ l). rewrite B, E1. by rewrite app_assoc.
Qed.

(** C29.  An event frees its buffers once: in any life of an event, the buffers freed are among those registered as its own, in that order, so that none is freed twice when they are distinct and none that belongs to
    others is freed; at the end the event has no buffer, and the last registered one has been freed if it was its own. *)
Theorem temp_buf_freed_once ops :
  sublist (freed (temp_life ops)) (owned ops) /\ (NoDup (owned ops) -> NoDup (freed (temp_life ops))) /\ temp_buf (temp_life ops) = None /\
  (forall pre b k, ops = pre ++ Register b true :: replicate k FreeTemp -> b ∈ freed (temp_life ops)).
Proof.
  unfold temp_life. destruct (temp_steps ops (mkTemp None false [])) as [A _]. cbn [freed app pending temp_buf] in A. split; [done|]. split; [intros N; by eapply sublist_NoDup|]. split.
  - unfold free_temp_buf. destruct (foldl _ _ _) as [[b|] o fr]; done.
  - intros pre b k ->. rewrite foldl_app. cbn [foldl temp_step]. set (s := foldl temp_step _ pre). destruct k as [|k].
    + cbn. apply elem_of_app. right. by left.
    + cbn [replicate foldl temp_step]. destruct (temp_steps (replicate k FreeTemp) (free_temp_buf (register_temp_buf (Some b) true s))) as [_ [l E]]. rewrite E. cbn. apply elem_of_app. left. apply elem_of_app. right. by left.
Qed.

(** * Versions *)

(** The number that a version is the bytes of. *)
Definition version_number (v : Version) : Z := 65536 * uc v 0 + 256 * uc v 1 + uc v 2.

(** Versions are ordered as numbers: each comparison of versions is that of the numbers of three bytes, so that they are a total order in which the invalid version is the least and the only one of
    its kind. *)
Theorem versions_ordered (v w : Version) :
  version_lt v w = (version_number v <? version_number w) /\ version_gt v w = (version_number w <? version_number v) /\
  version_le v w = (version_number v <=? version_number w) /\ version_ge v w = (version_number w <=? version_number v) /\
  (version_is_valid v = true <-> version_gt v version_0 = true).
Proof.
  assert (U : forall (b : bytes) i, 0 <= uc b i < 256) by (intros b i; pose proof (uc_range b i) as H; unfold ufits in H; change (2 ^ 8) with 256 in H; lia).
  assert (C : forall a b : Version, version_cmp a b = (version_number a ?= version_number b)).
  { intros a b. unfold version_cmp, version_number. cbn [memcmp]. pose proof (U a 0%nat). pose proof (U a 1%nat). pose proof (U a 2%nat). pose proof (U b 0%nat). pose proof (U b 1%nat). pose proof (U b 2%nat).
    destruct (Z.compare_spec (uc a 0) (uc b 0)); [|symmetry; apply Z.compare_lt_iff; lia|symmetry; apply Z.compare_gt_iff; lia].
    destruct (Z.compare_spec (uc a 1) (uc b 1)); [|symmetry; apply Z.compare_lt_iff; lia|symmetry; apply Z.compare_gt_iff; lia].
    destruct (Z.compare_spec (uc a 2) (uc b 2)); symmetry; [apply Z.compare_eq_iff; lia|apply Z.compare_lt_iff; lia|apply Z.compare_gt_iff; lia]. }
  unfold version_le, version_ge, version_lt, version_gt. rewrite !C. change (version_number version_0) with 0.
  pose proof (U v 0%nat). pose proof (U v 1%nat). pose proof (U v 2%nat). repeat split.
  - destruct (Z.compare_spec (version_number v) (version_number w)), (Z.ltb_spec (version_number w) (version_number v)); (done || lia).
  - destruct (Z.compare_spec (version_number v) (version_number w)), (Z.leb_spec (version_number v) (version_number w)); (done || lia).
  - destruct (Z.compare_spec (version_number v) (version_number w)), (Z.leb_spec (version_number w) (version_number v)); (done || lia).
  - unfold version_is_valid. intros V. destruct (Z.compare_spec (version_number v) 0) as [E|E|E]; [|unfold version_number in E; lia|done]. unfold version_number in E.
    rewrite !(proj2 (Z.eqb_eq _ _)) in V by lia. done.
  - unfold version_is_valid. destruct (Z.eqb_spec (uc v 0) 0) as [E0|], (Z.eqb_spec (uc v 1) 0) as [E1|], (Z.eqb_spec (uc v 2) 0) as [E2|]; try done. unfold version_number. by rewrite E0, E1, E2.
Qed.
Lemma temp_buf_freed_once_witness : freed (temp_life [Register 1 true; FreeTemp; Register 2 false; Register 3 true]) = [1; 3]%positive.
Proof.
  destruct (temp_buf_freed_once [Register 1 true; FreeTemp; Register 2 false; Register 3 true]) as (_ & _ & _ & H).
  assert (3%positive ∈ freed (temp_life [Register 1 true; FreeTemp; Register 2 false; Register 3 true])) as _ by (by apply (H [Register 1 true; FreeTemp; Register 2 false] 3%positive 0%nat)).
  by vm_compute.
Defined.

(** * Keywords *)

Lemma str_eq_n_all f a b n : (length a <= n)%nat -> (length b <= n)%nat -> str_eq_n n f a b = true <-> map f a = map f b.
Proof.
  revert a b. induction n as [|n IH]; intros [|x a] [|y b] La Lb; cbn [length str_eq_n map] in *; try (by split); try lia.
  rewrite andb_true_iff, bool_decide_eq_true, IH by lia. split; [intros [-> ->]; done|intros E; by injection E as -> ->].
Qed.
(** A comparison cut at the length of its first string accepts what the second begins with. *)
Lemma str_eq_n_prefix f a b : str_eq_n (length a) f a b = true <-> map f a `prefix_of` map f b.
Proof.
  revert b. induction a as [|x a IH]; intros b; cbn [length str_eq_n map]; [split; [intros _; apply prefix_nil|done]|].
  destruct b as [|y b]; [split; [done|by intros [? ?]]|]. cbn [map]. rewrite andb_true_iff, bool_decide_eq_true, IH. split; [intros [-> H]; by apply prefix_cons|].
  intros H. split; [by apply prefix_cons_inv_1 in H|by apply prefix_cons_inv_2 in H].
Qed.
Lemma str_eq_n_starts f a b : str_eq_n (length b) f a b = true <-> map f b `prefix_of` map f a.
Proof.
  revert a. induction b as [|y b IH]; intros a; cbn [length str_eq_n map]; [split; [intros _; apply prefix_nil|done]|].
  destruct a as [|x a]; [split; [done|by intros [? ?]]|]. cbn [map]. rewrite andb_true_iff, bool_decide_eq_true, IH. split; [intros [-> H]; by apply prefix_cons|].
  intros H. split; [symmetry; by apply prefix_cons_inv_1 in H|by apply prefix_cons_inv_2 in H].
Qed.

(** Which queries are keywords of transactions, their length being that of the query: those that begin with [SAVEPOINT] or [ROLLBACK], in any case; and [BEGIN] and [COMMIT], but also whatever these begin with, so that the
    empty query is one, and a query of more letters than [BEGIN] that begins with it is not.  What is a beginning, a commit or a rollback of a query that is not compressed is a keyword, and only one of the
    three. *)
Theorem trans_keywords query :
  (is_trans_keyword query (length query) = true <->
     query `prefix_of` s_BEGIN \/ query `prefix_of` s_COMMIT \/ map to_lower s_SAVEPOINT `prefix_of` map to_lower query \/ map to_lower s_ROLLBACK `prefix_of` map to_lower query) /\
  (forall c, is_begin c query || is_commit c query || is_rollback c query = true -> c = false /\ is_trans_keyword query (length query) = true) /\
  (forall c, is_begin c query && is_commit c query = false /\ is_begin c query && is_rollback c query = false /\ is_commit c query && is_rollback c query = false).
Proof.
  assert (K : is_trans_keyword query (length query) = true <->
     query `prefix_of` s_BEGIN \/ query `prefix_of` s_COMMIT \/ map to_lower s_SAVEPOINT `prefix_of` map to_lower query \/ map to_lower s_ROLLBACK `prefix_of` map to_lower query).
  { unfold is_trans_keyword, strncmp_eq, strncasecmp_eq. rewrite !orb_true_iff, !str_eq_n_prefix, !map_id. change 9%nat with (length s_SAVEPOINT). change 8%nat with (length s_ROLLBACK). rewrite !str_eq_n_starts. tauto. }
  split; [done|]. unfold is_begin, is_commit, is_rollback, query_is. split; intros c.
  - rewrite !orb_true_iff, !andb_true_iff, !bool_decide_eq_true, negb_true_iff, K. intros [[[-> ->]|[-> ->]]|[-> ->]]; (split; [done|]); [by left|by right; left|by do 3 right].
  - split_and!; destruct c; cbn [negb andb]; try done; do 2 case_bool_decide; try done; subst query; discriminate.
Qed.
Lemma trans_keywords_witness : is_trans_keyword [] 0 = true /\ is_trans_keyword [x42] 1 = true.
Proof. split; [by apply (trans_keywords []); left; apply prefix_nil|by apply (trans_keywords [x42]); left; exists [x45; x47; x49; x4e]]. Defined.
