(* ===== verification/SqlItem.v ===== *)
(** Expressions of a query: of [private/item.h], [private/item_func.h] and [private/item_cmpfunc.h], the walk over an expression, the tables an expression depends on, and whether it
    depends on given tables only.

    Items are in a store, so that an item can be the argument of several others and what an update does to it is seen by all of them.  What an item answers by
    a method in another source file is a field of it; the update of a reference, in another source file, is [None]. *)

From S2P Require Import Prelude.

Abbreviation item := positive.
Abbreviation table_map := Z.
Definition PARAM_TABLE_BIT : table_map := 2 ^ 61.
Definition OUTER_REF_TABLE_BIT : table_map := 2 ^ 62.
Definition RAND_TABLE_BIT : table_map := 2 ^ 63.

(** The items over arguments whose methods differ: [LIKE] has another item, [IS NULL] may be known to be false, [SLEEP] is never constant, and a row
    ([Item_row]) only asks its arguments whether it depends on given tables. *)
Inductive func_kind := F_plain | F_like (escape_item : item) | F_isnull (maybe_null arg_is_datetime_notnull_field : bool) | F_sleep | F_row.
Inductive item_node :=
| Item_other (used_tables : table_map) (const_item : bool)
| Item_func (k : func_kind) (args : list item) (used_tables_cache : table_map) (const_item_cache : bool)
| Item_cache_wrapper (orig_item : item)
| Item_cache (example : option item) (used_table_map : table_map)
| Item_copy (i : item)
| Item_insert_value (arg : item)
| Item_default_value (arg : option item)
| Item_ref (ref : option item)
| Item_direct_view_ref (ref : item).
#[export] Instance func_kind_eq_dec : EqDecision func_kind.
Proof. solve_decision. Defined.
#[export] Instance item_node_eq_dec : EqDecision item_node.
Proof. solve_decision. Defined.
Abbreviation heap := (gmap item item_node).
Implicit Types (h : heap) (i j a : item) (n : item_node) (t : table_map).

(** * Walks *)

Section Walk.
Context {A : Type} (processor : item -> A -> bool * A).
(** [a || b] of walks. *)
Definition walk_or (x : option (bool * A)) (y : A -> option (bool * A)) : option (bool * A) := '(stop, s) ← x; if (stop : bool) then Some (true, s) else y s.
(** [walk_args] *)
Fixpoint walk_args (walk : item -> A -> option (bool * A)) (args : list item) (s : A) : option (bool * A) :=
  match args with [] => Some (false, s) | a :: args => walk_or (walk a s) (walk_args walk args) end.
(** [stop_ptr]: the argument is [STOP_PTR], with which the example of a cache is not walked. *)
Fixpoint walk (fuel : nat) (stop_ptr : bool) h i (s : A) : option (bool * A) :=
  match fuel with
  | O => None
  | S fuel =>
      let walk := walk fuel stop_ptr h in
      let this s := Some (processor i s) in
      n ← h !! i;
      match n with
      | Item_other _ _ => this s
      | Item_func (F_like escape_item) args _ _ => walk_or (walk_args walk args s) (fun s => walk_or (walk escape_item s) this)
      | Item_func _ args _ _ => walk_or (walk_args walk args s) this
      | Item_cache_wrapper orig_item => walk_or (walk orig_item s) this
      | Item_cache example _ => if stop_ptr then Some (false, s) else match example with Some e => walk_or (walk e s) this | None => this s end
      | Item_copy a | Item_insert_value a => walk_or (walk a s) this
      | Item_default_value arg => match arg with Some a => walk_or (walk a s) this | None => this s end
      | Item_ref ref => match ref with Some r => walk_or (walk r s) this | None => Some (false, s) end
      | Item_direct_view_ref r => walk_or (walk r s) this
      end
  end.
(** The processor on each of some items until it asks to stop. *)
Fixpoint process (l : list item) (s : A) : bool * A := match l with [] => (false, s) | i :: l => let '(stop, s) := processor i s in if stop then (true, s) else process l s end.
End Walk.

(** * Used tables *)

(** [used_tables()] and [const_item()]. *)
Fixpoint used_tables (fuel : nat) h i : option table_map :=
  match fuel with
  | O => None
  | S fuel =>
      n ← h !! i;
      match n with
      | Item_other t _ => Some t
      | Item_func F_sleep _ t _ => Some (Z.lor t RAND_TABLE_BIT)
      | Item_func _ _ t _ => Some t
      | Item_cache_wrapper orig_item => used_tables fuel h orig_item
      | Item_cache _ used_table_map => Some used_table_map
      | Item_copy _ => Some 1
      | Item_insert_value _ => Some RAND_TABLE_BIT
      | Item_default_value _ | Item_ref _ | Item_direct_view_ref _ => None
      end
  end.
Fixpoint const_item (fuel : nat) h i : option bool :=
  match fuel with
  | O => None
  | S fuel =>
      n ← h !! i;
      match n with
      | Item_other _ c => Some c
      | Item_func F_sleep _ _ _ => Some false
      | Item_func _ _ _ c => Some c
      | Item_cache_wrapper orig_item => const_item fuel h orig_item
      | Item_cache _ used_table_map => Some (used_table_map =? 0)
      | Item_copy _ => Some false
      | Item_insert_value _ => Some (RAND_TABLE_BIT =? 0)
      | Item_default_value _ | Item_ref _ | Item_direct_view_ref _ => None
      end
  end.
(** The caches of a function. *)
Definition set_caches i t (c : bool) h : option heap := n ← h !! i; match n with Item_func k args _ _ => Some (<[i := Item_func k args t c]> h) | _ => None end.
Definition used_tables_and_const_cache_init i h : option heap := set_caches i 0 true h.
Definition used_tables_and_const_cache_join (fuel : nat) i a h : option heap :=
  t ← used_tables fuel h a;
  c ← const_item fuel h a;
  n ← h !! i;
  match n with Item_func _ _ t0 c0 => set_caches i (Z.lor t0 t) (c0 && c) h | _ => None end.
(** The update of the arguments, [update] being that of an item. *)
Fixpoint used_tables_and_const_cache_update_and_join (update : heap -> item -> option heap) (fuel : nat) i (args : list item) h : option heap :=
  match args with
  | [] => Some h
  | a :: args => h ← update h a; h ← used_tables_and_const_cache_join fuel i a h; used_tables_and_const_cache_update_and_join update fuel i args h
  end.
Fixpoint update_used_tables (fuel : nat) h i : option heap :=
  match fuel with
  | O => None
  | S fuel =>
      n ← h !! i;
      match n with
      | Item_func (F_isnull maybe_null datetime) args _ _ =>
          if negb maybe_null && negb datetime then set_caches i 0 true h
          else a ← args !! 0%nat; h ← update_used_tables fuel h a; t ← used_tables fuel h a; c ← const_item fuel h a; set_caches i t c h
      | Item_func _ args _ _ => h ← used_tables_and_const_cache_init i h; used_tables_and_const_cache_update_and_join (update_used_tables fuel) fuel i args h
      | Item_cache_wrapper orig_item => update_used_tables fuel h orig_item
      | Item_other _ _ | Item_cache _ _ | Item_copy _ | Item_insert_value _ => Some h
      | Item_default_value _ | Item_ref _ | Item_direct_view_ref _ => None
      end
  end.

(** * Dependence on tables only *)

Section Excl.
(** [excl_dep_on_table] of the items that have their own in other source files; [Item_insert_value] has that of [Item_field]. *)
Context (other_excl : item -> table_map -> bool).
Fixpoint args_excl_dep_on_table (excl : item -> option bool) (const : item -> option bool) (args : list item) : option bool :=
  match args with
  | [] => Some true
  | a :: args =>
      c ← const a;
      if (c : bool) then args_excl_dep_on_table excl const args
      else e ← excl a; if negb e then Some false else args_excl_dep_on_table excl const args
  end.
Fixpoint excl_dep_on_table (fuel : nat) h i (tab_map : table_map) : option bool :=
  match fuel with
  | O => None
  | S fuel =>
      n ← h !! i;
      match n with
      | Item_other _ _ | Item_insert_value _ => Some (other_excl i tab_map)
      | Item_func F_row args _ _ => args_excl_dep_on_table (fun a => excl_dep_on_table fuel h a tab_map) (const_item fuel h) args
      | Item_func _ args _ _ =>
          t ← used_tables (S fuel) h i;
          if c_true (Z.land t (Z.lor OUTER_REF_TABLE_BIT RAND_TABLE_BIT)) then Some false
          else if negb (c_true (Z.land t (Z.lnot tab_map))) then Some true
          else args_excl_dep_on_table (fun a => excl_dep_on_table fuel h a tab_map) (const_item fuel h) args
      | Item_cache_wrapper _ | Item_cache _ _ | Item_copy _ => Some false
      | Item_default_value _ | Item_ref _ | Item_direct_view_ref _ => None
      end
  end.
End Excl.

(** * Acyclic stores *)

(** The items that a walk goes to from an item, in order. *)
Definition walk_children (stop_ptr : bool) n : list item :=
  match n with
  | Item_other _ _ => []
  | Item_func (F_like e) args _ _ => args ++ [e]
  | Item_func _ args _ _ => args
  | Item_cache_wrapper a | Item_copy a | Item_insert_value a | Item_direct_view_ref a => [a]
  | Item_cache e _ => if stop_ptr then [] else option_list e
  | Item_default_value e | Item_ref e => option_list e
  end.
(** Whether the processor is called on the item itself. *)
Definition processed (stop_ptr : bool) n : bool := match n with Item_cache _ _ => negb stop_ptr | Item_ref None => false | _ => true end.
(** No item is part of itself, and parts are in the store. *)
Record acyclic h (rank : item -> nat) : Prop := {
  parts_lower : forall i n a, h !! i = Some n -> a ∈ walk_children false n -> (rank a < rank i)%nat;
  parts_exist : forall i n a, h !! i = Some n -> a ∈ walk_children false n -> is_Some (h !! a) }.

Lemma walk_children_stop stop n a : a ∈ walk_children stop n -> a ∈ walk_children false n.
Proof. destruct n as [| | |[] ?| | | | |], stop; cbn; try done; by intros ?%not_elem_of_nil. Qed.

Section WalkProofs.
Context {A : Type} (processor : item -> A -> bool * A).

Lemma process_app l l' s : process processor (l ++ l') s = let '(stop, s') := process processor l s in if stop then (true, s') else process processor l' s'.
Proof.
  revert s. induction l as [|i l IH]; intros s; cbn [app process]; [done|]. destruct (processor i s) as [[] s']; [done|]. apply IH.
Qed.
(** [w] is the walk of the items of [l]. *)
Definition walks_as (w : A -> option (bool * A)) (l : list item) : Prop := forall s, w s = Some (process processor l s).
Lemma walks_or w1 l1 w2 l2 s : walks_as w1 l1 -> walks_as w2 l2 -> walk_or (w1 s) w2 = Some (process processor (l1 ++ l2) s).
Proof. intros H1 H2. unfold walk_or. rewrite H1, process_app. cbn [mbind option_bind]. destruct (process processor l1 s) as [[] s']; [done|]. apply H2. Qed.
Lemma walks_this i : walks_as (fun s => Some (processor i s)) [i].
Proof. intros s. cbn. by destruct (processor i s) as [[] s']. Qed.
Lemma walks_args w args f : (forall a, a ∈ args -> walks_as (w a) (f a)) -> walks_as (walk_args w args) (concat (map f args)).
Proof.
  induction args as [|a args IH]; intros H s; cbn [walk_args map concat]; [done|]. apply walks_or; [apply H; by left|]. apply IH. intros b Hb. apply H. by right.
Qed.
End WalkProofs.

(** ** The order of a walk *)

Lemma elem_of_concat {X Y} (f : X -> list Y) l y : y ∈ concat (map f l) <-> exists x, x ∈ l /\ y ∈ f x.
Proof.
  induction l as [|x l IH]; cbn [map concat]; [split; [by intros ?%not_elem_of_nil|by intros (? & ?%not_elem_of_nil & _)]|]. rewrite elem_of_app, IH. setoid_rewrite elem_of_cons. naive_solver.
Qed.
(** The items a walk is at, parts first. *)
Fixpoint visits (fuel : nat) (stop : bool) h i : list item :=
  match fuel with
  | O => []
  | S fuel => match h !! i with Some n => concat (map (visits fuel stop h) (walk_children stop n)) ++ (if processed stop n then [i] else []) | None => [] end
  end.
(** One item is part of another, for a walk. *)
Definition part_of (stop : bool) h i a : Prop := exists n, h !! i = Some n /\ a ∈ walk_children stop n.

Section Order.
Context h (rank : item -> nat).
Hypothesis acyc : acyclic h rank.

Lemma walk_visits {A} (processor : item -> A -> bool * A) stop fuel : forall i, (rank i < fuel)%nat -> is_Some (h !! i) ->
  walks_as processor (walk processor fuel stop h i) (visits fuel stop h i).
Proof.
  induction fuel as [|fuel IH]; intros i Hi [n E] s; [lia|]. cbn [walk visits]. rewrite E. cbn [mbind option_bind].
  assert (P : forall a, a ∈ walk_children stop n -> walks_as processor (walk processor fuel stop h a) (visits fuel stop h a)).
  { intros a Ha%walk_children_stop. apply IH; [|by eapply parts_exist]. pose proof (parts_lower _ _ acyc i n a E Ha). lia. }
  assert (O : forall a, walk_children stop n = [a] -> walk_or (walk processor fuel stop h a s) (fun s => Some (processor i s)) = Some (process processor (concat (map (visits fuel stop h) [a]) ++ [i]) s)).
  { intros a Ea. cbn [map concat]. rewrite app_nil_r. apply (walks_or processor (walk processor fuel stop h a)); [apply P; rewrite Ea; by left|apply walks_this]. }
  destruct n as [| k args| a|[a|] ?|a|a|[a|]|[a|]|a]; cbn [walk_children processed option_list] in *; try (by apply O); try (apply walks_this).
  - destruct k as [|e| | |]; try (apply walks_or; [by apply walks_args|apply walks_this]).
    rewrite map_app, concat_app, <- app_assoc. apply walks_or; [apply walks_args; intros; apply P; apply elem_of_app; by left|]. intros s'. cbn [map concat]. rewrite app_nil_r.
    apply (walks_or processor (walk processor fuel stop h e)); [apply P; apply elem_of_app; right; by left|apply walks_this].
  - destruct stop; [done|by apply O].
  - destruct stop; [done|apply walks_this].
  - done.
Qed.
Lemma visits_enough stop fuel1 : forall fuel2 i, (rank i < fuel1)%nat -> (rank i < fuel2)%nat -> visits fuel1 stop h i = visits fuel2 stop h i.
Proof.
  induction fuel1 as [|f1 IH]; intros [|f2] i H1 H2; [lia..|]. cbn [visits]. destruct (h !! i) as [n|] eqn:E; [|done]. f_equal. f_equal. apply map_ext_in. intros a Ha%list_elem_of_In%walk_children_stop.
  pose proof (parts_lower _ _ acyc i n a E Ha). apply IH; lia.
Qed.
Lemma visits_reached stop fuel : forall i j, (rank i < fuel)%nat -> j ∈ visits fuel stop h i <-> rtc (part_of stop h) i j /\ (exists n, h !! j = Some n /\ processed stop n = true).
Proof.
  induction fuel as [|fuel IH]; intros i j Hi; [lia|]. cbn [visits]. destruct (h !! i) as [n|] eqn:E.
  - rewrite elem_of_app. split.
    + intros [H|H].
      * apply elem_of_concat in H as (a & Ha & Hj). pose proof (parts_lower _ _ acyc i n a E (walk_children_stop _ _ _ Ha)).
        apply IH in Hj as [R P]; [|lia]. split; [|done]. eapply rtc_l; [|done]. by exists n.
      * destruct (processed stop n) eqn:P; [|by apply not_elem_of_nil in H]. apply list_elem_of_singleton in H as ->. split; [done|by exists n].
    + intros [R P]. inversion R as [|? a ? Ra R']; subst.
      * right. destruct P as (n' & E' & P). replace n' with n in P by congruence. rewrite P. by left.
      * left. destruct Ra as (n' & E' & Ha). assert (n' = n) as -> by congruence. apply elem_of_concat. exists a. split; [done|]. pose proof (parts_lower _ _ acyc i n a E (walk_children_stop _ _ _ Ha)). apply IH; [lia|done].
  - split; [by intros ?%not_elem_of_nil|]. intros [R (n & En & P)]. inversion R as [|? a ? (n' & E' & _) R']; subst; congruence.
Qed.
(** Parts come before what they are part of. *)
Lemma visits_parts_first stop fuel : forall i l1 j l2, (rank i < fuel)%nat -> visits fuel stop h i = l1 ++ j :: l2 ->
  forall a, part_of stop h j a -> (exists n, h !! a = Some n /\ processed stop n = true) -> a ∈ l1.
Proof.
  induction fuel as [|fuel IH]; intros i l1 j l2 Hi H a (n' & E' & Ha) P; [lia|]. cbn [visits] in H. destruct (h !! i) as [n|] eqn:E; [|by destruct l1].
  assert (B : forall cs m1 m2, (forall c, c ∈ cs -> c ∈ walk_children stop n) -> concat (map (visits fuel stop h) cs) = m1 ++ j :: m2 -> a ∈ m1).
  { induction cs as [|c cs IHc]; intros m1 m2 Hc Hm; cbn [map concat] in Hm; [by destruct m1|].
    pose proof (parts_lower _ _ acyc i n c E (walk_children_stop _ _ _ (Hc c ltac:(by left)))).
    apply app_eq_inv in Hm as [(k & Hk & Hk2)|(k & -> & Hk2)].
    - destruct k as [|j' k].
      + cbn [app] in Hk2. symmetry in Hk2. apply (IHc [] m2) in Hk2; [by apply not_elem_of_nil in Hk2|]. intros d Hd. apply Hc. by right.
      + injection Hk2 as <- ->. apply (IH c m1 j k ltac:(lia) Hk a); [by exists n'|done].
    - apply elem_of_app. right. apply (IHc k m2); [|done]. intros d Hd. apply Hc. by right. }
  apply app_eq_inv in H as [([|j' k] & Hk & Hk2)|(k & Hk & Hk2)].
  - cbn [app] in Hk2. destruct (processed stop n); [|done]. assert (j = i) as -> by congruence. assert (n' = n) as -> by congruence. rewrite app_nil_r in Hk. rewrite <- Hk.
    apply elem_of_concat. exists a. split; [done|]. apply visits_reached; [|by split].
    pose proof (parts_lower _ _ acyc i n a E (walk_children_stop _ _ _ Ha)). lia.
  - injection Hk2 as <- ->. by apply (B (walk_children stop n) l1 k).
  - destruct (processed stop n); [|by destruct k]. destruct k as [|j' [|]]; [|done|done]. cbn [app] in Hk2. assert (j = i) as -> by congruence. assert (n' = n) as -> by congruence. rewrite Hk, app_nil_r.
    apply elem_of_concat. exists a. split; [done|]. apply visits_reached; [|by split].
    pose proof (parts_lower _ _ acyc i n a E (walk_children_stop _ _ _ Ha)). lia.
Qed.
End Order.

(** C28.  A walk over an expression ends and is in order: over a store where no item is part of itself, with fuel above the rank of the item, the walk is the processor on each item of a list, one after the
    other, up to the first that asks to stop; the list has the items that can be reached, and no others, but for the caches when the argument is [STOP_PTR] and the references to nothing; each item comes
    after the parts it has. *)
Theorem walk_is_postorder {A} (processor : item -> A -> bool * A) h rank stop fuel i s : acyclic h rank -> is_Some (h !! i) -> (rank i < fuel)%nat ->
  exists l, walk processor fuel stop h i s = Some (process processor l s) /\
    (forall j, j ∈ l <-> rtc (part_of stop h) i j /\ (exists n, h !! j = Some n /\ processed stop n = true)) /\
    (forall l1 j l2 a, l = l1 ++ j :: l2 -> part_of stop h j a -> (exists n, h !! a = Some n /\ processed stop n = true) -> a ∈ l1).
Proof.
  intros Ha Hi Hf. exists (visits fuel stop h i). split; [by apply (walk_visits h rank Ha)|]. split; [intros j; by apply (visits_reached h rank Ha)|].
  intros l1 j l2 a E. by apply (visits_parts_first h rank Ha stop fuel i l1 j l2).
Qed.

(** * What an item depends on *)

(** The class and the parts of an item, without what an update changes. *)
Definition erase n : item_node := match n with Item_func k args _ _ => Item_func k args 0 true | _ => n end.
Definition same_shape h h' : Prop := forall i, erase <$> h !! i = erase <$> h' !! i.
(** The arguments that the tables of a function come from. *)
Definition counted_args (k : func_kind) (args : list item) : list item :=
  match k with F_isnull mn dt => if negb mn && negb dt then [] else take 1 args | _ => args end.
(** The table of bit [b] is used by an item. *)
Inductive uses h : item -> Z -> Prop :=
| uses_other i t c b : h !! i = Some (Item_other t c) -> Z.testbit t b = true -> uses h i b
| uses_arg i k args t c a b : h !! i = Some (Item_func k args t c) -> a ∈ counted_args k args -> uses h a b -> uses h i b
| uses_sleep i args t c : h !! i = Some (Item_func F_sleep args t c) -> uses h i 63
| uses_wrapped i a b : h !! i = Some (Item_cache_wrapper a) -> uses h a b -> uses h i b
| uses_cache i e t b : h !! i = Some (Item_cache e t) -> Z.testbit t b = true -> uses h i b
| uses_copy i a : h !! i = Some (Item_copy a) -> uses h i 0
| uses_insert i a : h !! i = Some (Item_insert_value a) -> uses h i 63.
(** An item is constant. *)
Inductive constant h : item -> Prop :=
| constant_other i t : h !! i = Some (Item_other t true) -> constant h i
| constant_func i k args t c : h !! i = Some (Item_func k args t c) -> k <> F_sleep -> (forall a, a ∈ counted_args k args -> constant h a) -> constant h i
| constant_wrapped i a : h !! i = Some (Item_cache_wrapper a) -> constant h a -> constant h i
| constant_cache i e : h !! i = Some (Item_cache e 0) -> constant h i.
(** What the caches of a function should hold. *)
Definition cache_right h i : Prop :=
  forall k args t c, h !! i = Some (Item_func k args t c) ->
    (forall b, Z.testbit t b = true <-> exists a, a ∈ counted_args k args /\ uses h a b) /\ (c = true <-> forall a, a ∈ counted_args k args -> constant h a).

Lemma same_shape_refl h : same_shape h h.
Proof. done. Qed.
Lemma same_shape_sym h h' : same_shape h h' -> same_shape h' h.
Proof. intros H i. by rewrite H. Qed.
Lemma same_shape_trans h1 h2 h3 : same_shape h1 h2 -> same_shape h2 h3 -> same_shape h1 h3.
Proof. intros H1 H2 i. by rewrite H1. Qed.
#[export] Instance same_shape_equiv : Equivalence same_shape.
Proof. split; [exact same_shape_refl|exact same_shape_sym|exact same_shape_trans]. Qed.
Lemma same_shape_other h h' i n : same_shape h h' -> h !! i = Some n -> (forall k args t c, n <> Item_func k args t c) -> h' !! i = Some n.
Proof.
  intros H E N. specialize (H i). rewrite E in H. cbn in H. destruct (h' !! i) as [n'|]; [|done]. cbn in H. injection H as H. f_equal.
  destruct n, n'; cbn in H; try congruence; by exfalso; eapply N.
Qed.
Lemma same_shape_func h h' i k args t c : same_shape h h' -> h !! i = Some (Item_func k args t c) -> exists t' c', h' !! i = Some (Item_func k args t' c').
Proof.
  intros H E. specialize (H i). rewrite E in H. cbn in H. destruct (h' !! i) as [n'|]; [|done]. cbn in H. injection H as H. destruct n'; cbn in H; try congruence. injection H as -> ->. by do 2 eexists.
Qed.
Lemma uses_shape h h' i b : same_shape h h' -> uses h i b -> uses h' i b.
Proof.
  intros S H. induction H.
  - eapply uses_other; [eapply same_shape_other; done|done].
  - destruct (same_shape_func h h' i k args t c S H) as (t' & c' & E). by eapply uses_arg.
  - destruct (same_shape_func h h' i _ _ _ _ S H) as (t' & c' & E). by eapply uses_sleep.
  - eapply uses_wrapped; [eapply same_shape_other; done|done].
  - eapply uses_cache; [eapply same_shape_other; done|done].
  - eapply uses_copy, same_shape_other; done.
  - eapply uses_insert, same_shape_other; done.
Qed.
Lemma constant_shape h h' i : same_shape h h' -> constant h i -> constant h' i.
Proof.
  intros S H. induction H as [i t E|i k args t c E N _ IH|i a E _ IH|i e E].
  - eapply constant_other, same_shape_other; done.
  - destruct (same_shape_func h h' i k args t c S E) as (t' & c' & E'). eapply constant_func; [done..|exact IH].
  - eapply constant_wrapped; [eapply same_shape_other; done|done].
  - eapply constant_cache, same_shape_other; done.
Qed.
#[export] Instance uses_proper : Proper (same_shape ==> eq ==> eq ==> iff) uses.
Proof. intros h h' S i ? <- b ? <-. split; apply uses_shape; [done|by symmetry]. Qed.
#[export] Instance constant_proper : Proper (same_shape ==> eq ==> iff) constant.
Proof. intros h h' S i ? <-. split; apply constant_shape; [done|by symmetry]. Qed.
Lemma cache_right_same h h' i : same_shape h h' -> h' !! i = h !! i -> cache_right h i -> cache_right h' i.
Proof.
  intros S E R k args t c E'. rewrite E in E'. destruct (R k args t c E') as [R1 R2]. split.
  - intros b. rewrite R1. by setoid_rewrite S.
  - rewrite R2. by setoid_rewrite S.
Qed.

(** ** The update of an item *)

(** The items that an update goes to. *)
Definition update_children n : list item := match n with Item_func k args _ _ => counted_args k args | Item_cache_wrapper a => [a] | _ => [] end.
Definition update_part h i a : Prop := exists n, h !! i = Some n /\ a ∈ update_children n.
(** The update is in the headers, and a test for null that is not known has its argument. *)
Definition ready n : bool :=
  match n with
  | Item_default_value _ | Item_ref _ | Item_direct_view_ref _ => false
  | Item_func (F_isnull mn dt) args _ _ => (negb mn && negb dt) || negb (bool_decide (args = []))
  | _ => true
  end.
Definition all_ready h i : Prop := forall j, rtc (update_part h) i j -> exists n, h !! j = Some n /\ ready n = true.
Definition accum h (pre : list item) t (c : bool) : Prop := (forall b, Z.testbit t b = true <-> exists a, a ∈ pre /\ uses h a b) /\ (c = true <-> forall a, a ∈ pre -> constant h a).
(** What the methods of an item answer is true. *)
Definition tells (fuel : nat) h i : Prop := exists t c, used_tables fuel h i = Some t /\ const_item fuel h i = Some c /\ (forall b, Z.testbit t b = true <-> uses h i b) /\ (c = true <-> constant h i).
Definition updated h h' i : Prop :=
  same_shape h h' /\ (forall j, h' !! j <> h !! j -> rtc (update_part h) i j) /\ (forall j, rtc (update_part h) i j -> cache_right h' j).

Lemma counted_args_in k args a : a ∈ counted_args k args -> a ∈ args.
Proof. destruct k as [| |mn dt| |]; cbn; try done. destruct (negb mn && negb dt); [by intros ?%not_elem_of_nil|]. destruct args as [|b args]; cbn; [done|]. by intros ->%list_elem_of_singleton; left. Qed.
Lemma update_children_walk n a : a ∈ update_children n -> a ∈ walk_children false n.
Proof. destruct n; cbn; try (by intros ?%not_elem_of_nil); [|done]. intros H%counted_args_in. destruct k; try done. apply elem_of_app. by left. Qed.
Lemma erase_children n n' : erase n = erase n' -> walk_children false n = walk_children false n' /\ update_children n = update_children n' /\ ready n = ready n'.
Proof. destruct n, n'; cbn; intros H; try congruence; try (by injection H as -> ->); try (by injection H as ->). Qed.
Lemma shape_lookup h h' i n : same_shape h h' -> h !! i = Some n -> exists n', h' !! i = Some n' /\ erase n = erase n'.
Proof. intros S E. specialize (S i). rewrite E in S. destruct (h' !! i) as [n'|]; [|done]. exists n'. split; [done|]. by injection S. Qed.
Lemma acyclic_shape h h' rank : same_shape h h' -> acyclic h rank -> acyclic h' rank.
Proof.
  intros S A. split; intros i n' a E Ha; destruct (shape_lookup h' h i n' (symmetry S) E) as (n & En & He); destruct (erase_children _ _ He) as [Hc _]; rewrite Hc in Ha.
  - by eapply parts_lower.
  - destruct (parts_exist _ _ A i n a En Ha) as [m Em]. destruct (shape_lookup h h' a m S Em) as (m' & -> & _). done.
Qed.
Lemma update_part_shape h h' i a : same_shape h h' -> update_part h i a -> update_part h' i a.
Proof. intros S (n & E & Ha). destruct (shape_lookup h h' i n S E) as (n' & E' & He). exists n'. split; [done|]. by destruct (erase_children _ _ He) as (_ & <- & _). Qed.
Lemma update_reach_shape h h' i j : same_shape h h' -> rtc (update_part h) i j <-> rtc (update_part h') i j.
Proof. intros S. split; apply rtc_subrel; intros x y; apply update_part_shape; [done|by symmetry]. Qed.
Lemma all_ready_shape h h' i : same_shape h h' -> all_ready h i -> all_ready h' i.
Proof.
  intros S R j Hj. apply (update_reach_shape h h' i j S) in Hj. destruct (R j Hj) as (n & E & Hr). destruct (shape_lookup h h' j n S E) as (n' & E' & He). exists n'. split; [done|].
  by destruct (erase_children _ _ He) as (_ & _ & <-).
Qed.
Lemma set_caches_spec h i k args t c t' c' : h !! i = Some (Item_func k args t c) ->
  set_caches i t' c' h = Some (<[i := Item_func k args t' c']> h) /\ same_shape h (<[i := Item_func k args t' c']> h).
Proof.
  intros E. unfold set_caches. rewrite E. split; [done|]. intros j. destruct (decide (j = i)) as [->|N]; [by rewrite lookup_insert_eq, E|by rewrite lookup_insert_ne].
Qed.
Lemma accum_shape h h' pre t c : same_shape h h' -> accum h pre t c -> accum h' pre t c.
Proof. intros S [H1 H2]. split; [intros b; rewrite H1; by setoid_rewrite S|rewrite H2; by setoid_rewrite S]. Qed.
Lemma accum_right h i k args t c : h !! i = Some (Item_func k args t c) -> accum h (counted_args k args) t c -> cache_right h i.
Proof. intros E A k' args' t' c' E'. rewrite E in E'. injection E' as <- <- <- <-. exact A. Qed.
Lemma not_func_right h i n : h !! i = Some n -> (forall k args t c, n <> Item_func k args t c) -> cache_right h i.
Proof. intros E N k args t c E'. rewrite E in E'. injection E' as ->. by destruct (N k args t c). Qed.
Lemma RAND_testbit b : Z.testbit RAND_TABLE_BIT b = true <-> b = 63.
Proof. unfold RAND_TABLE_BIT. rewrite Z.pow2_bits_eqb, Z.eqb_eq by lia. done. Qed.
Lemma one_testbit b : Z.testbit 1 b = true <-> b = 0.
Proof. change 1 with (2 ^ 0). rewrite Z.pow2_bits_eqb, Z.eqb_eq by lia. done. Qed.

Section Update.
Context (rank : item -> nat).

Lemma reach_rank h i j : acyclic h rank -> rtc (update_part h) i j -> (rank j <= rank i)%nat.
Proof. intros A. induction 1 as [|i a j (n & E & Ha) _ IH]; [done|]. pose proof (parts_lower _ _ A i n a E (update_children_walk _ _ Ha)). lia. Qed.
(** When caches are right, the methods tell the truth. *)
Lemma right_tells fuel : forall h i, acyclic h rank -> (rank i < fuel)%nat -> all_ready h i -> (forall j, rtc (update_part h) i j -> cache_right h j) -> tells fuel h i.
Proof.
  induction fuel as [|fuel IH]; intros h i A Hf R C; [lia|]. destruct (R i (rtc_refl _ _)) as (n & E & Hr). unfold tells. cbn [used_tables const_item]. rewrite E. cbn [mbind option_bind].
  destruct n as [t c|k args t c|a|e t|a|a|e|e|a]; try done.
  - exists t, c. split_and!; try done; [intros b; split; [by eapply uses_other|by inversion 1; simplify_eq]|]. split; [intros ->; by eapply constant_other|by inversion 1; simplify_eq].
  - destruct (C i (rtc_refl _ _) k args t c E) as [C1 C2].
    assert (U : forall b, (k <> F_sleep \/ b <> 63) -> Z.testbit t b = true <-> uses h i b).
    { intros b Nb. rewrite C1. split; [intros (a & Ha & Hu); by eapply uses_arg|]. inversion 1; simplify_eq; [by eexists|]. by destruct Nb. }
    assert (K : k <> F_sleep -> c = true <-> constant h i).
    { intros Nk. rewrite C2. split; [intros Ha; by eapply constant_func|by inversion 1; simplify_eq]. }
    destruct k as [|e|mn dt| |]; try (exists t, c; split_and!; (done || by apply K || (intros b; apply U; by left))).
    exists (Z.lor t RAND_TABLE_BIT), false. split_and!; try done; [|split; [done|by inversion 1; simplify_eq]]. intros b. rewrite Z.lor_spec, orb_true_iff, RAND_testbit. split.
    + intros [H| ->]; [|by eapply uses_sleep]. destruct (decide (b = 63)) as [->|N]; [by eapply uses_sleep|]. apply U; [by right|done].
    + intros H. destruct (decide (b = 63)) as [->|N]; [by right|]. left. apply U; [by right|done].
  - assert (P : update_part h i a) by (exists (Item_cache_wrapper a); split; [done|by left]).
    pose proof (parts_lower _ _ A i _ a E ltac:(by left)). destruct (IH h a A) as (t & c & E1 & E2 & U & K); [lia|intros j Hj; apply R; by eapply rtc_l|intros j Hj; apply C; by eapply rtc_l|].
    exists t, c. split_and!; try done.
    + intros b. rewrite U. split; [by eapply uses_wrapped|by inversion 1; simplify_eq].
    + rewrite K. split; [by eapply constant_wrapped|by inversion 1; simplify_eq].
  - exists t, (t =? 0). split_and!; try done; [intros b; split; [by eapply uses_cache|by inversion 1; simplify_eq]|]. rewrite Z.eqb_eq. split; [intros ->; by eapply constant_cache|by inversion 1; simplify_eq].
  - exists 1, false. split_and!; try done; [|split; [done|by inversion 1; simplify_eq]]. intros b. rewrite one_testbit. split; [intros ->; by eapply uses_copy|by inversion 1; simplify_eq].
  - exists RAND_TABLE_BIT, (RAND_TABLE_BIT =? 0). split_and!; try done; [|split; [done|by inversion 1; simplify_eq]]. intros b. rewrite RAND_testbit. split; [intros ->; by eapply uses_insert|by inversion 1; simplify_eq].
Qed.

Lemma join_spec fuel h i k args t c pre a : h !! i = Some (Item_func k args t c) -> accum h pre t c -> tells fuel h a ->
  exists t' c', used_tables_and_const_cache_join fuel i a h = Some (<[i := Item_func k args t' c']> h) /\ same_shape h (<[i := Item_func k args t' c']> h) /\ accum h (pre ++ [a]) t' c'.
Proof.
  intros E [A1 A2] (ta & ca & E1 & E2 & U & K). exists (Z.lor t ta), (c && ca). unfold used_tables_and_const_cache_join. rewrite E1, E2. cbn [mbind option_bind]. rewrite E. cbn [mbind option_bind].
  destruct (set_caches_spec h i k args t c (Z.lor t ta) (c && ca) E) as [-> S]. split; [done|]. split; [done|]. split.
  - intros b. rewrite Z.lor_spec, orb_true_iff, A1, U. setoid_rewrite elem_of_app. setoid_rewrite list_elem_of_singleton. naive_solver.
  - rewrite andb_true_iff, A2, K. setoid_rewrite elem_of_app. setoid_rewrite list_elem_of_singleton. naive_solver.
Qed.
Lemma update_join_spec update fuel h k args i rest :
  (forall a h1, a ∈ rest -> same_shape h h1 -> exists h2, update h1 a = Some h2 /\ updated h1 h2 a /\ tells fuel h2 a) ->
  (forall a, a ∈ rest -> ~ rtc (update_part h) a i) ->
  forall pre h1 t c, same_shape h h1 -> h1 !! i = Some (Item_func k args t c) -> accum h1 pre t c ->
  exists h2 t2 c2, used_tables_and_const_cache_update_and_join update fuel i rest h1 = Some h2 /\ same_shape h1 h2 /\ h2 !! i = Some (Item_func k args t2 c2) /\ accum h2 (pre ++ rest) t2 c2 /\
    (forall j, j <> i -> h2 !! j <> h1 !! j -> exists a, a ∈ rest /\ rtc (update_part h) a j) /\ (forall a j, a ∈ rest -> rtc (update_part h) a j -> cache_right h2 j).
Proof.
  induction rest as [|a rest IH]; intros Hu Hn pre h1 t c S E A; cbn [used_tables_and_const_cache_update_and_join].
  - exists h1, t, c. rewrite app_nil_r. split_and!; try done. intros a j H. by apply not_elem_of_nil in H.
  - destruct (Hu a h1 ltac:(by left) S) as (h2 & -> & (S2 & C2 & R2) & T2). cbn [mbind option_bind].
    assert (N2 : forall j, h2 !! j <> h1 !! j -> rtc (update_part h) a j) by (intros j Hj; apply (update_reach_shape h h1 a j S); by apply C2).
    assert (E2 : h2 !! i = Some (Item_func k args t c)) by (destruct (decide (h2 !! i = h1 !! i)) as [->|N]; [done|]; destruct (Hn a ltac:(by left)); by apply N2).
    destruct (join_spec fuel h2 i k args t c pre a E2 (accum_shape _ _ _ _ _ S2 A) T2) as (t' & c' & -> & S3 & A3). cbn [mbind option_bind]. set (h3 := <[i := Item_func k args t' c']> h2) in *.
    assert (S13 : same_shape h h3) by (by rewrite S, S2). assert (E3 : h3 !! i = Some (Item_func k args t' c')) by (apply lookup_insert_eq).
    destruct (IH ltac:(intros b g Hb; apply Hu; by right) ltac:(intros b Hb; apply Hn; by right) (pre ++ [a]) h3 t' c' S13 E3 (accum_shape _ _ _ _ _ S3 A3)) as (h4 & t4 & c4 & E4 & S4 & L4 & A4 & C4 & R4).
    exists h4, t4, c4. rewrite <- app_assoc in A4. split; [done|]. split; [by rewrite S2, S3|]. split; [done|]. split; [done|]. split.
    + intros j Nj Hj. destruct (decide (h4 !! j = h3 !! j)) as [Ej|Ej]; [|destruct (C4 j Nj Ej) as (b & Hb & Rb); exists b; split; [by right|done]].
      exists a. split; [by left|]. apply N2. rewrite Ej in Hj. unfold h3 in Hj. by rewrite lookup_insert_ne in Hj by done.
    + intros b j Hb Rj. apply elem_of_cons in Hb as [->|Hb]; [|by apply (R4 b)]. assert (Nj : j <> i) by (intros ->; by apply (Hn a ltac:(by left))).
      destruct (decide (h4 !! j = h3 !! j)) as [Ej|Ej]; [|destruct (C4 j Nj Ej) as (b & Hb & Rb); by apply (R4 b)].
      apply (cache_right_same h3); [done|done|]. apply (cache_right_same h2); [done|unfold h3; by rewrite lookup_insert_ne by done|]. apply R2. by apply (update_reach_shape h h1 a j S).
Qed.
Lemma updated_tells fuel h h' i : acyclic h rank -> all_ready h i -> (rank i < fuel)%nat -> updated h h' i -> tells fuel h' i.
Proof.
  intros A R Hf (S & _ & C). apply right_tells; [by eapply acyclic_shape|done|by eapply all_ready_shape|]. intros j Hj. apply C. by apply (update_reach_shape h h' i j S).
Qed.
Lemma update_spec fuel : forall h i, acyclic h rank -> (rank i < fuel)%nat -> all_ready h i -> exists h', update_used_tables fuel h i = Some h' /\ updated h h' i.
Proof.
  induction fuel as [|fuel IH]; intros h i A Hf R; [lia|]. destruct (R i (rtc_refl _ _)) as (n & E & Hr). cbn [update_used_tables]. rewrite E. cbn [mbind option_bind].
  assert (P : forall a, a ∈ update_children n -> update_part h i a /\ (rank a < fuel)%nat /\ all_ready h a).
  { intros a Ha. assert (Pa : update_part h i a) by (by exists n). pose proof (parts_lower _ _ A i n a E (update_children_walk _ _ Ha)). split_and!; [done|lia|]. intros j Hj. apply R. by eapply rtc_l. }
  assert (L : (forall k args t c, n <> Item_func k args t c) -> update_children n = [] -> updated h h i).
  { intros Nn Hn. split; [done|]. split; [done|]. intros j Hj. inversion Hj as [|? a ? (n' & E' & Ha) _]; subst; [by eapply not_func_right|]. assert (n' = n) as -> by congruence. rewrite Hn in Ha. by apply not_elem_of_nil in Ha. }
  assert (J : forall k args t c, n = Item_func k args t c -> counted_args k args = args ->
    exists h', (h ← used_tables_and_const_cache_init i h; used_tables_and_const_cache_update_and_join (update_used_tables fuel) fuel i args h) = Some h' /\ updated h h' i).
  { intros k args t c -> Hk. unfold used_tables_and_const_cache_init. destruct (set_caches_spec h i k args t c 0 true E) as [-> S0]. cbn [mbind option_bind]. cbn [update_children] in P. rewrite Hk in P.
    destruct (update_join_spec (update_used_tables fuel) fuel h k args i args) with (pre := @nil item) (h1 := <[i := Item_func k args 0 true]> h) (t := 0) (c := true) as (h2 & t2 & c2 & E2 & S2 & L2 & A2 & C2 & R2).
    - intros a h1 Ha Sh. destruct (P a Ha) as (_ & Ra & Ry). destruct (IH h1 a) as (h2 & E2 & U2); [by eapply acyclic_shape|done|by eapply all_ready_shape|]. exists h2. split_and!; [done|done|].
      apply (updated_tells fuel h1); [by eapply acyclic_shape|by eapply all_ready_shape|done|done].
    - intros a Ha Rt. destruct (P a Ha) as (_ & _ & _). pose proof (reach_rank h a i A Rt). pose proof (parts_lower _ _ A i _ a E (update_children_walk (Item_func k args t c) a ltac:(cbn [update_children]; by rewrite Hk))). lia.
    - done.
    - apply lookup_insert_eq.
    - split; [intros b; rewrite Z.bits_0; split; [done|by intros (a & ?%not_elem_of_nil & _)]|split; [by intros _ a ?%not_elem_of_nil|done]].
    - exists h2. split; [done|]. split; [by rewrite S0|]. split.
      + intros j Hj. destruct (decide (j = i)) as [->|Nj]; [done|]. destruct (C2 j Nj) as (a & Ha & Ra); [by rewrite lookup_insert_ne by done|]. destruct (P a Ha) as (Pa & _). by eapply rtc_l.
      + intros j Hj. inversion Hj as [|? a ? (n' & E' & Ha) Ra]; subst; [eapply accum_right; [done|by rewrite Hk]|]. rewrite E in E'. injection E' as <-. cbn [update_children] in Ha. rewrite Hk in Ha. by apply (R2 a). }
  destruct n as [t c|k args t c|a|e t|a|a|e|e|a]; cbn in Hr; try done; try (exists h; split; [done|by apply L]).
  - destruct k as [|esc|mn dt| |]; try (by eapply J). clear J. destruct (negb mn && negb dt) eqn:G.
    + destruct (set_caches_spec h i _ args t c 0 true E) as [-> S0]. eexists. split; [done|]. split; [done|]. split.
      * intros j Hj. destruct (decide (j = i)) as [->|Nj]; [done|]. by rewrite lookup_insert_ne in Hj by done.
      * intros j Hj. inversion Hj as [|? a ? (n' & E' & Ha) Ra]; subst.
        -- eapply accum_right; [apply lookup_insert_eq|]. cbn [counted_args]. rewrite G. split; [intros b; rewrite Z.bits_0; split; [done|by intros (a & ?%not_elem_of_nil & _)]|split; [by intros _ a ?%not_elem_of_nil|done]].
        -- rewrite E in E'. injection E' as <-. cbn [update_children counted_args] in Ha. rewrite G in Ha. by apply not_elem_of_nil in Ha.
    + destruct args as [|a args]; [done|]. cbn [lookup list_lookup mbind option_bind]. cbn [update_children counted_args] in P. rewrite G in P. cbn [take] in P. destruct (P a ltac:(by left)) as (Pa & Ra & Ry).
      destruct (IH h a A Ra Ry) as (h2 & -> & U). cbn [mbind option_bind]. pose proof (updated_tells fuel h h2 a A Ry Ra U) as (ta & ca & -> & -> & T1 & T2). cbn [mbind option_bind]. destruct U as (S2 & C2 & R2).
      assert (Ni : ~ rtc (update_part h) a i).
      { intros Rt. pose proof (reach_rank h a i A Rt). pose proof (parts_lower _ _ A i _ a E (update_children_walk (Item_func (F_isnull mn dt) (a :: args) t c) a ltac:(cbn [update_children counted_args]; rewrite G; by left))). lia. }
      assert (E2 : h2 !! i = Some (Item_func (F_isnull mn dt) (a :: args) t c)) by (destruct (decide (h2 !! i = h !! i)) as [->|N]; [done|]; by destruct Ni; apply C2).
      destruct (set_caches_spec h2 i _ _ t c ta ca E2) as [-> S3]. eexists. split; [done|]. split; [by rewrite S2|]. split.
      * intros j Hj. destruct (decide (j = i)) as [->|Nj]; [done|]. rewrite lookup_insert_ne in Hj by done. eapply rtc_l; [done|by apply C2].
      * intros j Hj. inversion Hj as [|? b ? (n' & E' & Hb) Rb]; subst.
        -- eapply accum_right; [apply lookup_insert_eq|]. apply (accum_shape h2); [done|]. cbn [counted_args]. rewrite G. cbn [take]. split; [intros b; rewrite T1|rewrite T2]; setoid_rewrite list_elem_of_singleton; naive_solver.
        -- rewrite E in E'. injection E' as <-. cbn [update_children counted_args] in Hb. rewrite G in Hb. cbn [take] in Hb. apply list_elem_of_singleton in Hb as ->.
           assert (Nj : j <> i) by (by intros ->). apply (cache_right_same h2); [done|by rewrite lookup_insert_ne by done|by apply R2].
  - destruct (P a ltac:(by left)) as (Pa & Ra & Ry). destruct (IH h a A Ra Ry) as (h2 & E2 & S2 & C2 & R2). exists h2. split; [done|]. split; [done|]. split.
    + intros j Hj. eapply rtc_l; [done|by apply C2].
    + intros j Hj. inversion Hj as [|? b ? (n' & E' & Hb) Rb]; subst.
      * eapply not_func_right; [by eapply same_shape_other|done].
      * rewrite E in E'. injection E' as <-. cbn [update_children] in Hb. apply list_elem_of_singleton in Hb as ->. by apply R2.
Qed.
End Update.

(** C7.  The update of an item makes the caches true, whatever they held: over a store where no item is part of itself, with fuel above its rank, the update of an item ends; it changes nothing but caches
    of the items it goes to, after it the tables and the constness that each of these answers are those of its parts, exactly, what was right elsewhere is right still, and a second update changes nothing. *)
Theorem update_makes_caches_true h rank fuel i : acyclic h rank -> (rank i < fuel)%nat -> all_ready h i ->
  exists h', update_used_tables fuel h i = Some h' /\ same_shape h h' /\ (forall j, h' !! j <> h !! j -> rtc (update_part h) i j) /\
    (forall j, rtc (update_part h) i j -> cache_right h' j /\ tells fuel h' j) /\ (forall j, cache_right h j -> cache_right h' j) /\ update_used_tables fuel h' i = Some h'.
Proof.
  intros A Hf R. destruct (update_spec rank fuel h i A Hf R) as (h' & E & U). exists h'. pose proof U as (S & C & K). assert (A' : acyclic h' rank) by (by eapply acyclic_shape).
  split_and!; [done|done|done| | |].
  - intros j Hj. split; [by apply K|]. pose proof (reach_rank rank h i j A Hj). apply (right_tells rank); [done|lia|apply (all_ready_shape h); [done|]; intros x Hx; apply R; by etrans|].
    intros x Hx. apply K. etrans; [done|]. by apply (update_reach_shape h h' j x S).
  - intros j Hj. destruct (decide (h' !! j = h !! j)) as [Ej|Ej]; [by apply (cache_right_same h)|by apply K, C].
  - destruct (update_spec rank fuel h' i A' Hf (all_ready_shape h h' i S R)) as (h2 & E2 & S2 & C2 & K2). rewrite E2. f_equal. apply map_eq. intros j.
    destruct (decide (h2 !! j = h' !! j)) as [|Ej]; [done|]. pose proof (C2 j Ej) as Rj. pose proof (K2 j Rj) as R2. pose proof (K j (proj2 (update_reach_shape h h' i j S) Rj)) as R1.
    destruct (h' !! j) as [n|] eqn:En.
    + destruct (shape_lookup h' h2 j n S2 En) as (n2 & En2 & He). rewrite En2. f_equal. destruct n as [| k args t c| | | | | | | ], n2 as [| k2 args2 t2 c2| | | | | | | ]; cbn in He; try congruence. injection He as <- <-.
      destruct (R1 k args t c En) as [U1 V1], (R2 k args t2 c2 En2) as [U2 V2]. setoid_rewrite <- S2 in U2. setoid_rewrite <- S2 in V2. f_equal.
      * apply Z.bits_inj. intros b. apply Bool.eq_iff_eq_true. by rewrite U1, U2.
      * apply Bool.eq_iff_eq_true. by rewrite V1, V2.
    + specialize (S2 j). rewrite En in S2. by destruct (h2 !! j).
Qed.

(** ** Dependence on tables *)

Section ExclProofs.
Context h (rank : item -> nat) (other_excl : item -> table_map -> bool) (tab_map : table_map).
(** Whether an item can be converted, by the equalities known for it, to one over the given tables. *)
Variable convertible : item -> Prop.
(** What is constant uses no table, and an item of another file says that it depends on the given tables alone only when it uses no other or can be converted. *)
Hypothesis other_const : forall i t, h !! i = Some (Item_other t true) -> t = 0.
Definition within b : Prop := Z.testbit tab_map b = true /\ b <> 62 /\ b <> 63.
Hypothesis other_true : forall i, other_excl i tab_map = true -> convertible i \/ forall b, uses h i b -> within b.

Lemma constant_uses_nothing i b : constant h i -> ~ uses h i b.
Proof.
  intros C. induction C as [i t E|i k args t c E N _ IH|i a E _ IH|i e E]; intros U; inversion U; simplify_eq.
  - by rewrite (other_const _ _ E), Z.bits_0 in *.
  - by eapply IH.
  - done.
  - by rewrite Z.bits_0 in *.
Qed.
Lemma no_bits_outside t b : c_true (Z.land t (Z.lnot tab_map)) = false -> 0 <= b -> Z.testbit t b = true -> Z.testbit tab_map b = true.
Proof.
  unfold c_true. intros H%negb_false_iff%Z.eqb_eq Hb Ht. pose proof (f_equal (fun z => Z.testbit z b) H) as E. cbn beta in E. rewrite Z.land_spec, Z.lnot_spec, Ht, Z.bits_0 in E by done. by destruct (Z.testbit tab_map b).
Qed.
Lemma no_pseudo_bits t b : c_true (Z.land t (Z.lor OUTER_REF_TABLE_BIT RAND_TABLE_BIT)) = false -> Z.testbit t b = true -> b <> 62 /\ b <> 63.
Proof.
  unfold c_true. intros H%negb_false_iff%Z.eqb_eq Ht. split; intros ->.
  - pose proof (f_equal (fun z => Z.testbit z 62) H) as E1. cbn beta in E1. by rewrite Z.land_spec, Ht, Z.bits_0 in E1.
  - pose proof (f_equal (fun z => Z.testbit z 63) H) as E1. cbn beta in E1. by rewrite Z.land_spec, Ht, Z.bits_0 in E1.
Qed.
Lemma args_excl_spec excl const args : args_excl_dep_on_table excl const args = Some true -> forall a, a ∈ args -> const a = Some true \/ excl a = Some true.
Proof.
  induction args as [|a args IH]; intros H b Hb; [by apply not_elem_of_nil in Hb|]. cbn [args_excl_dep_on_table] in H. destruct (const a) as [[]|] eqn:C; cbn [mbind option_bind] in H; [| |done].
  - apply elem_of_cons in Hb as [->|Hb]; [by left|by apply IH].
  - destruct (excl a) as [[]|] eqn:X; cbn [mbind option_bind negb] in H; [|done..]. apply elem_of_cons in Hb as [->|Hb]; [by right|by apply IH].
Qed.

(** The table of bit [b] is used by an item, at the part [j] of it that says so. *)
Inductive uses_at : item -> item -> Z -> Prop :=
| at_part i j k args t c a b : h !! i = Some (Item_func k args t c) -> a ∈ counted_args k args -> uses_at a j b -> uses_at i j b
| at_wrapped i j a b : h !! i = Some (Item_cache_wrapper a) -> uses_at a j b -> uses_at i j b
| at_sleep i args t c : h !! i = Some (Item_func F_sleep args t c) -> uses_at i i 63
| at_leaf i n b : h !! i = Some n -> update_children n = [] -> uses h i b -> uses_at i i b.
Lemma uses_at_uses i j b : uses_at i j b -> uses h i b.
Proof. induction 1; [by eapply uses_arg|by eapply uses_wrapped|by eapply uses_sleep|done]. Qed.

Lemma uses_at_func i j k args t c b : h !! i = Some (Item_func k args t c) -> uses_at i j b ->
  (exists a, a ∈ counted_args k args /\ uses_at a j b) \/ k = F_sleep /\ b = 63.
Proof.
  intros E U. inversion U as [? ? ? ? ? ? a ? E' Ha Ua|? ? ? ? E'|? ? ? ? E'|? n ? E' Hn Ui]; simplify_eq; [left; by exists a|by right|].
  cbn [update_children] in Hn. inversion Ui as [|? ? ? ? ? a ? E' Ha| | | | |]; simplify_eq; [|by right]. rewrite Hn in Ha. by apply not_elem_of_nil in Ha.
Qed.
Lemma uses_at_leaf i j n b : h !! i = Some n -> update_children n = [] -> (forall k args t c, n <> Item_func k args t c) -> uses_at i j b -> j = i /\ uses h i b.
Proof.
  intros E Hn Hk U. inversion U as [? ? ? ? ? ? a ? E' Ha Ua|? ? ? ? E'|? ? ? ? E'|]; simplify_eq; try (by destruct (Hk _ _ _ _ eq_refl)); done.
Qed.

(** C37.  An item that is said to depend exclusively on some tables does: when caches are true, and the items of other source files say so of theirs only when they use no other
    table or can be converted, by equalities, to an item that does not, each part at which an expression for which [excl_dep_on_table] holds uses a table either
    uses one of the given tables, and no outer reference and nothing that changes from one evaluation to the next, or can be converted in that way. *)
Theorem exclusive_dependence fuel i : acyclic h rank -> (rank i < fuel)%nat -> (forall j n, h !! j = Some n -> ready n = true /\ cache_right h j) ->
  excl_dep_on_table other_excl fuel h i tab_map = Some true -> forall j b, uses_at i j b -> within b \/ convertible j.
Proof.
  intros A Hf R. assert (T : forall f j, (rank j < f)%nat -> is_Some (h !! j) -> tells f h j).
  { intros f j Hj Hs. apply (right_tells rank); [done|done| |].
    - intros x Hx. assert (is_Some (h !! x)) as [n E]. { destruct (rtc_inv_r _ _ Hx) as [->|(y & _ & n & E & Hy)]; [done|]. exact (parts_exist _ _ A y n x E (update_children_walk _ _ Hy)). } exists n. exact (conj E (proj1 (R x n E))).
    - intros x Hx. destruct (h !! x) as [n|] eqn:E; [exact (proj2 (R x n E))|]. intros k args t c E'. congruence. }
  revert i Hf. induction fuel as [|fuel IH]; intros i Hf H j b U; [lia|]. cbn [excl_dep_on_table] in H. destruct (h !! i) as [n|] eqn:E; [|done]. cbn [mbind option_bind] in H.
  assert (Own : Some (other_excl i tab_map) = Some true -> update_children n = [] -> (forall k args t c, n <> Item_func k args t c) -> within b \/ convertible j).
  { intros X Hn Hk. injection X as X. destruct (uses_at_leaf i j n b E Hn Hk U) as [-> Ui]. destruct (other_true i X) as [C|W]; [by right|left; by apply W]. }
  destruct n as [t c|k args t c|a|e t|a|a|e|e|a]; try done; try (by apply Own).
  assert (Args : args_excl_dep_on_table (fun a => excl_dep_on_table other_excl fuel h a tab_map) (const_item fuel h) args = Some true ->
    forall a, a ∈ counted_args k args -> uses_at a j b -> within b \/ convertible j).
  { intros X a Ha Ua. pose proof (parts_lower _ _ A i _ a E (update_children_walk (Item_func k args t c) a Ha)) as Ra.
    destruct (args_excl_spec _ _ _ X a (counted_args_in _ _ _ Ha)) as [C|Y]; [|by apply (IH a ltac:(lia) Y)].
    destruct (T fuel a ltac:(lia)) as (ta & ca & _ & E2 & _ & T2); [exact (parts_exist _ _ A i _ a E (update_children_walk (Item_func k args t c) a Ha))|].
    rewrite E2 in C. injection C as ->. by destruct (constant_uses_nothing a b (proj1 T2 eq_refl) (uses_at_uses _ _ _ Ua)). }
  destruct (uses_at_func i j k args t c b E U) as [(a & Ha & Ua)|[-> ->]]; [destruct (decide (k = F_row)) as [->|Hk]; [by apply (Args H a)|]|].
  2: { destruct (T (S fuel) i Hf ltac:(by rewrite E)) as (tu & cu & E1 & _ & T1 & _). rewrite E1 in H. cbn [mbind option_bind] in H. destruct (c_true (Z.land tu (Z.lor _ _))) eqn:P; [done|].
    by destruct (no_pseudo_bits tu 63 P (proj2 (T1 63) (uses_at_uses _ _ _ U))). }
  destruct (T (S fuel) i Hf ltac:(by rewrite E)) as (tu & cu & E1 & _ & T1 & _).
  assert (H' : (if c_true (Z.land tu (Z.lor OUTER_REF_TABLE_BIT RAND_TABLE_BIT)) then Some false else if negb (c_true (Z.land tu (Z.lnot tab_map))) then Some true
    else args_excl_dep_on_table (fun a => excl_dep_on_table other_excl fuel h a tab_map) (const_item fuel h) args) = Some true) by (destruct k; try done; by rewrite E1 in H).
  clear H. destruct (c_true (Z.land tu (Z.lor _ _))) eqn:P; [done|]. pose proof (proj2 (T1 b) (uses_at_uses _ _ _ U)) as Tb.
  destruct (c_true (Z.land tu (Z.lnot tab_map))) eqn:Q; cbn [negb] in H'; [by apply (Args H' a)|left]. split; [|by apply (no_pseudo_bits tu)].
  apply (no_bits_outside tu); [done| |done]. destruct (Z.le_gt_cases 0 b) as [|Hb]; [done|]. by rewrite Z.testbit_neg_r in Tb by done.
Qed.
End ExclProofs.

(** * Witnesses *)

Module Wit.
Definition acyclic_check h (rank : item -> nat) : bool :=
  forallb (fun '(i, n) => forallb (fun a => bool_decide (rank a < rank i)%nat && bool_decide (is_Some (h !! a))) (walk_children false n)) (map_to_list h).
Lemma acyclic_checked h rank : acyclic_check h rank = true -> acyclic h rank.
Proof.
  intros H. unfold acyclic_check in H. rewrite forallb_forall in H.
  assert (P : forall i n a, h !! i = Some n -> a ∈ walk_children false n -> (rank a < rank i)%nat /\ is_Some (h !! a)).
  { intros i n a E Ha. specialize (H (i, n) (proj1 (list_elem_of_In _ _) (proj2 (elem_of_map_to_list h i n) E))). cbn beta iota in H. rewrite forallb_forall in H.
    specialize (H a (proj1 (list_elem_of_In _ _) Ha)). by rewrite andb_true_iff, !bool_decide_eq_true in H. }
  split; intros i n a E Ha; by destruct (P i n a E Ha).
Qed.
Lemma all_ready_checked h rank i : acyclic h rank -> is_Some (h !! i) -> forallb (fun '(_, n) => ready n) (map_to_list h) = true -> all_ready h i.
Proof.
  intros A Hi H j Hj. assert (is_Some (h !! j)) as [n E]. { destruct (rtc_inv_r _ _ Hj) as [->|(y & _ & n & E & Hy)]; [done|]. exact (parts_exist _ _ A y n j E (update_children_walk _ _ Hy)). }
  exists n. split; [done|]. rewrite forallb_forall in H. exact (H (j, n) (proj1 (list_elem_of_In _ _) (proj2 (elem_of_map_to_list h j n) E))).
Qed.
(** A field, a constant, a function of them with caches that are not true, a test that is known, a function that is never constant, an item over a cache, and a function of these. *)
Definition items : heap := list_to_map
  [(1%positive, Item_other 1 false); (2%positive, Item_other 0 true); (3%positive, Item_func F_plain [1; 2; 1]%positive 8 true); (4%positive, Item_func (F_isnull false false) [1%positive] 8 false);
   (5%positive, Item_func F_sleep [2%positive] 8 false); (6%positive, Item_cache_wrapper 3); (7%positive, Item_func F_plain [6; 4; 5]%positive 0 true)].
Lemma items_acyclic : acyclic items Pos.to_nat.
Proof. apply acyclic_checked. by vm_compute. Qed.
Lemma uses_other_inv h i t c b : h !! i = Some (Item_other t c) -> uses h i b -> Z.testbit t b = true.
Proof. intros E U. inversion U; by simplify_eq. Qed.
Lemma constant_other_inv h i t c : h !! i = Some (Item_other t c) -> constant h i -> c = true.
Proof. intros E U. inversion U; by simplify_eq. Qed.
(** A field of the first table, a constant, a function of them, a field of the second table, and a row of all. *)
Definition some_items : heap := list_to_map
  [(1%positive, Item_other 1 false); (2%positive, Item_other 0 true); (3%positive, Item_func F_plain [1; 2]%positive 1 false); (4%positive, Item_other 2 false);
   (5%positive, Item_func F_row [1; 2; 3; 4]%positive 3 false)].
Lemma some_items_lookup i n : some_items !! i = Some n -> (i = 1%positive /\ n = Item_other 1 false) \/ (i = 2%positive /\ n = Item_other 0 true) \/
  (i = 3%positive /\ n = Item_func F_plain [1; 2]%positive 1 false) \/ (i = 4%positive /\ n = Item_other 2 false) \/ (i = 5%positive /\ n = Item_func F_row [1; 2; 3; 4]%positive 3 false).
Proof. intros E. unfold some_items in E. cbn [list_to_map foldr fst snd] in E. rewrite !lookup_insert_Some in E. rewrite lookup_empty in E. naive_solver. Qed.
Lemma two_testbit b : Z.testbit 2 b = true <-> b = 1.
Proof. change 2 with (2 ^ 1). rewrite Z.pow2_bits_eqb by lia. rewrite Z.eqb_eq. lia. Qed.
Lemma uses_1 b : uses some_items 1 b <-> b = 0.
Proof. rewrite <- one_testbit. split; [by apply uses_other_inv with (c := false)|by apply (uses_other _ 1 1 false)]. Qed.
Lemma uses_2 b : ~ uses some_items 2 b.
Proof. intros U. apply (uses_other_inv some_items 2 0 true) in U; [|done]. by rewrite Z.bits_0 in U. Qed.
Lemma uses_3 b : (exists a, a ∈ [1; 2]%positive /\ uses some_items a b) <-> b = 0.
Proof.
  split; [|intros ->; exists 1%positive; split; [by left|by apply uses_1]]. intros (a & [-> | ->%list_elem_of_singleton]%elem_of_cons & U); [by apply uses_1|by apply uses_2 in U].
Qed.
Lemma uses_4 b : uses some_items 4 b <-> b = 1.
Proof. rewrite <- two_testbit. split; [by apply uses_other_inv with (c := false)|by apply (uses_other _ 4 2 false)]. Qed.
Lemma uses_3' b : uses some_items 3 b <-> b = 0.
Proof.
  rewrite <- uses_3. split; [intros U; inversion U; subst; match goal with E : some_items !! _ = Some _ |- _ => apply some_items_lookup in E end; naive_solver|intros (a & Ha & U); by apply (uses_arg _ 3 F_plain [1; 2]%positive 1 false a)].
Qed.
Lemma some_items_right j n : some_items !! j = Some n -> ready n = true /\ cache_right some_items j.
Proof.
  intros E. assert (NC : ~ constant some_items 1) by (intros C; by apply (constant_other_inv some_items 1 1 false) in C).
  apply some_items_lookup in E as D. destruct D as [[-> ->]|[[-> ->]|[[-> ->]|[[-> ->]|[-> ->]]]]]; (split; [done|]);
    try exact (not_func_right _ _ _ E ltac:(done)); (eapply accum_right; [exact E|]); (split; [intros b|split; [done|]; intros H; destruct NC; apply H; by left]).
  - rewrite one_testbit. symmetry. apply uses_3.
  - change 3 with (Z.lor 1 2). rewrite Z.lor_spec, orb_true_iff, one_testbit, two_testbit. cbn [counted_args]. setoid_rewrite elem_of_cons. setoid_rewrite elem_of_cons.
    setoid_rewrite elem_of_cons. setoid_rewrite list_elem_of_singleton. split.
    + intros [-> | ->]; [exists 1%positive|exists 4%positive]; (split; [auto|]); [by apply uses_1|by apply uses_4].
    + intros (a & [-> |[-> |[-> | ->]]] & U); [left; by apply uses_1|by apply uses_2 in U|left; by apply uses_3'|right; by apply uses_4].
Qed.
End Wit.
Lemma walk_is_postorder_witness : exists l, walk (fun i (s : list item) => (bool_decide (i = 4%positive), s ++ [i])) 8 false Wit.items 7 [] = Some (true, [1; 2; 1; 3; 6; 1; 4]%positive) /\ 7%positive ∈ (l : list item).
Proof.
  destruct (walk_is_postorder (fun i (s : list item) => (bool_decide (i = 4%positive), s ++ [i])) Wit.items Pos.to_nat false 8 7 [] Wit.items_acyclic) as (l & E & V & _); [by eexists|by vm_compute; lia|].
  exists l. split; [rewrite E; rewrite <- E; by vm_compute|]. apply V. split; [done|]. by eexists.
Defined.
Lemma update_makes_caches_true_witness : exists h', update_used_tables 8 Wit.items 7 = Some h' /\ used_tables 8 h' 7 = Some (Z.lor 1 RAND_TABLE_BIT) /\ update_used_tables 8 h' 7 = Some h'.
Proof.
  destruct (update_makes_caches_true Wit.items Pos.to_nat 8 7 Wit.items_acyclic) as (h' & E & _ & _ & _ & _ & I); [by vm_compute; lia|by apply (Wit.all_ready_checked _ _ _ Wit.items_acyclic); [eexists|vm_compute]|].
  exists h'. split; [done|]. split; [|done]. vm_compute in E. injection E as <-. by vm_compute.
Defined.
(** The fields: of the first table, and of the second one but equal to one of the first. *)
Definition some_excl (i : item) (t : table_map) : bool := bool_decide (i = 1%positive \/ i = 4%positive).
Lemma exclusive_dependence_witness : excl_dep_on_table some_excl 6 Wit.some_items 5 1 = Some true /\
  forall j b, uses_at Wit.some_items 5 j b -> within 1 b \/ j = 4%positive.
Proof.
  split; [by vm_compute|]. apply (exclusive_dependence Wit.some_items Pos.to_nat some_excl 1 (fun j => j = 4%positive)) with (fuel := 6%nat).
  - intros i t E. apply Wit.some_items_lookup in E. naive_solver.
  - intros i [-> | ->]%bool_decide_eq_true; [right|by left]. intros b ->%Wit.uses_1. by vm_compute.
  - apply Wit.acyclic_checked. by vm_compute.
  - vm_compute. lia.
  - exact Wit.some_items_right.
  - by vm_compute.
Defined.
